(* ===== verification/_CoqProject ===== *)
-Q . S2P
Prelude.v
Ring.v
Kfifo.v
Uaccess.v
Logger.v
Ashmem.v
Bitops.v
FindBit.v
Bitmap.v
Memcopy.v
Ctype.v
CString.v
Number.v
Addrstr.v
Vsprintf.v
Printf.v
Cmdline.v
BitmapText.v
BitmapHex.v
Crc.v
Rwsem.v
Semaphore.v
Resource.v
ResAlloc.v
Region.v
Sort.v
Wakelock.v
Earlysuspend.v
Rbtree.v
OrdTree.v
UserWakelock.v
BinderAlloc.v
BinderRef.v
BinderDeath.v
BinderObject.v
