(* ===== verification/Prelude.v ===== *)
(** * Verification of the kernel of G3MOD: data structures, allocators and locks

    The repository is a Linux 2.6 kernel for an ARM phone (src/Kernel) with the
    initramfs and the recovery program that go with it.  This library models the
    self-contained code of that kernel on which the rest is built, and proves it correct.
    It is executable: every operation is a function that can be evaluated.

    ** The parts, and the files that model them

    - [Prelude]: machine integers ([u32], [s32]), byte arrays and their copies, results
      of kernel functions, tactics and hints shared by all files.
    - [Ring]: reference definition of transfers to and from a byte ring, shared by the two
      components that keep one, [Kfifo] and [Logger].
    - [Uaccess]: the contract of [copy_from_user] and [copy_to_user], which may stop early;
      used by [Logger] and [Ashmem].
    - [Kfifo] (kernel/kfifo.c, include/linux/kfifo.h): record [kfifo], one definition per
      function; [spsc_step] is the lock-free use by one reader and one writer, one
      transition per read or store of an index and per byte copied.
    - [Logger] (drivers/staging/android/logger.c): record [logger_log] with its readers;
      open, release, read, vectored write, poll, ioctl.  [alog] is the abstract log, a
      queue of entries per reader, which the ring refines ([refines]).
    - [Ashmem] (mm/ashmem.c): areas and unpinned ranges in maps from addresses, the sorted
      list of each area and the global LRU list hold addresses, as in C; [wf] is the
      invariant of the whole state.
    - [Bitops] (asm/bitops.h, lib/hweight.c), [FindBit] (lib/find_next_bit.c,
      lib/find_last_bit.c), [Bitmap] (lib/bitmap.c): bits of a word, searches in an array
      of words, sets of bits and the region allocator.  [Bitmap] uses the searches only
      through the class [BitFinder] of [FindBit].
    - [Memcopy] (lib/memcopy.c, include/linux/memcopy.h, memcpy and memmove of
      lib/string.c): the unrolled word copies, on one byte memory; also the loads and
      stores that [CString] and [Sort] use.
    - [Ctype] (lib/ctype.c) and [CString] (lib/string.c): character classes and all the
      string functions on that memory.
    - [Number], [Addrstr], [Vsprintf] (lib/vsprintf.c): numbers from strings and [number],
      which prints one; [string] and the conversions of resources and of hardware and
      network addresses; [format_decode], [pointer], [vsnprintf] and the functions around
      it.  Each has a reference definition of the text ([number_output], [string_text],
      [ip6_compressed_text]) that says what is printed.  [Printf]: formats as lists of
      directives and their meaning after C99 ([meaning]), which does not use the decoder.
    - [Cmdline] (lib/cmdline.c): lists of numbers and sizes in options.
    - [BitmapText] and [BitmapHex] (the text forms of lib/bitmap.c): a bitmap as a list of
      runs ([runs] says which) and as a number in hexadecimal chunks ([hex_text]), printed
      with [scnprintf] of [Vsprintf] and parsed.
    - [Crc] (lib/crc32.c, lib/gen_crc32table.c and the checksums of 16 and 7 bits): the
      table-driven functions, the generator of the tables, and division bit by bit.
    - [Rwsem] (lib/rwsem-spinlock.c) and [Semaphore] (kernel/semaphore.c): the operations
      under the spinlock as functions, and systems of threads that call them, wait, are
      woken and return; [reachable] are their states.
    - [Resource], [ResAlloc], [Region] (kernel/resource.c): the tree of resources as a map
      from addresses, each with its parent and the list of its children.  [Resource] has
      request, release and insertion, [ResAlloc] the search for a gap and the adjustment,
      [Region] the regions of drivers, the reservation with splitting and the walks over
      the tree.  [wf] is the invariant: children in order, apart and inside their parent.
    - [Sort] (lib/sort.c): heapsort on bytes for any comparison function that is a total
      preorder (class [comparator]).
    - [Wakelock] (kernel/power/wakelock.c): wake locks on their lists, the expiry timer and
      the statistics; [Earlysuspend] (kernel/power/earlysuspend.c and the suspend work):
      requests, handlers and the three works on their thread, interleaved with drivers,
      timer and clock.
    - [Rbtree] (lib/rbtree.c): trees as an inductive type, a node under change as the pair
      of its subtree and the path above it, in place of parent pointers.  [OrdTree]: what
      the users of these trees have in common, order by a key and the search loop.
    - [UserWakelock] (kernel/power/userwakelock.c): the files wake_lock and wake_unlock, on
      top of [CString], [Number], [Rbtree], [Wakelock] and [Vsprintf].  Names are in the
      byte memory; [ok] relates it to the tree and to the wake locks.
    - [BinderAlloc] (the buffers of drivers/staging/android/binder.c): the area of a
      process with its headers, pages, list and two trees; mapping, allocation by best fit,
      lookup, freeing.
    - [BinderRef], [BinderDeath], [BinderObject] (the rest of binder.c that keeps state
      between processes): nodes, references and death notifications at their addresses, the
      work lists, and the trees that find them.  [BinderRef] has the operations on nodes
      and references and the commands on them; [BinderDeath] the notifications and the
      release of a process; [BinderObject] the objects inside transactions, and all
      operations as one machine ([step], [legal], [reachable]).

    ** What the theorems show

    - Refinement: the lock-free FIFO passes on what was written, in order, in every
      interleaving; a write to the logger appends one entry to the abstract log, for every
      reader, and drops only the oldest.
    - Functional behaviour of every branch: pin, unpin, shrink and release of ashmem, the
      reads of the logger, the bitmap operations, the string functions, the sort.
    - Equivalence with a reference: the word copies with reading everything first, the bit
      tricks with the sets of bits, the comparisons with the lexicographic order, the
      checksums with division by their polynomials.
    - Invariants and liveness of the locks: mutual exclusion, conservation of permits,
      first-come order, no lost wake-up, a bound on the number of releases a thread waits.
    - Formatted printing: [vsnprintf] writes exactly the text its format means, cut to the
      buffer, wherever the code follows C99 (lemmas show where it does not), and its loop
      ends for every format; numbers that are printed are read back, and so are both text
      forms of a bitmap and the lists of options.
    - Resources: every operation keeps the invariant of the tree and fails exactly when
      it has to; requests and releases are inverse; allocation takes a range within the
      bounds, in a gap, if rounding up to the alignment does not pass the top; the
      busy regions of a tree never overlap, in any sequence of requests and releases; the
      walks visit every resource.
    - Suspend: the machine sleeps only when no lock is held and the user asked for it, a
      suspend that is due is never lost, and handlers alternate.  A lock that user space
      names is found or made, and held as long as was asked; the files list exactly the
      locks there are.
    - Trees: insertion and removal keep the red-black invariant and change the in-order
      list by exactly the node; the depth is logarithmic.
    - The buffers of binder: best fit, splitting and joining, pages present exactly where
      buffers need them, a round trip, and no failed assertion in any sequence of calls.
    - The objects of binder: from the state without processes no sequence of legal
      operations ([legal]: there is memory for the reference of handle 0, and local counts
      that are given back are held) with the messages on references off uses a freed
      object, fails an assertion or corrupts a list; a node lists exactly its
      references and counts those that hold it; descriptors are the smallest free ones;
      an object sent to another process stays the same node, and is counted unless the
      sender may not count it; the death of a process tells everybody who asked, and what
      becomes of each notification is said.
    - Bounds and safety: an access outside an array, a freed object or a failed [BUG_ON] is
      [None] (or [Bug]) in the models, so each theorem that gives [Some] is also one of
      memory safety.
    - Defects: a few lemmas show inputs on which the code does not do what it means to.

    ** Fuel and bounds

    Recursion that is not structural has fuel that is proved to be enough: the
    size of the memory plus one for scans of strings, the number of bits for searches in
    bitmaps, the number of ranges for the loops of ashmem, the size of the ring for walks
    over entries, the number of resources for descents and walks
    in their tree, twice the length of a format, 22 digits for a 64-bit number, the length of the path plus two for removal from a tree, the size of the
    tree for descriptors and for the release of a process.  Bounds on machine integers are hypotheses where the code needs them: an
    array to sort has at most 2^30 bytes, a semaphore has fewer than 2^31 permits, a
    reader/writer semaphore fewer than 2^31 threads, a log at most 2^31 bytes,
    field widths and precisions are at most 10^9, time-outs of wake locks are shorter than 2^31 - 200 jiffies, the area of binder ends a
    page before the end of the address space and has one of four cache colours, and there
    are fewer than 2^30 operations on nodes and references, so that counts stay below
    INT_MAX.

    ** Not modelled

    Code that is about hardware (architecture, drivers), about the memory model (spinlocks,
    RCU), or upstream subsystems that are not self-contained (scheduler, memory management,
    file systems, network).  Sections under a spinlock or mutex are atomic.  The slab
    allocator, the shmem files of ashmem, [mutex_trylock] and user memory are arguments of
    the definitions.  Of binder: the stack of transactions, the thread pool, priorities and
    files in transactions; of kernel/resource.c: managed regions, boot parameters, system
    RAM and the proc files; of lib/vsprintf.c: the binary forms and vsscanf, and the table
    of symbols is a parameter; that a buffer gives back only local counts it holds is a
    condition of the operations that give them back.

    ** Plan

    Next: vsscanf, lib/prio_heap.c, then the transactions of binder. *)
From Stdlib Require Export ZArith Lia Bool.
From stdpp Require Export base tactics list gmap.

#[global] Open Scope Z_scope.

(** ** Machine integers

    The target is a 32-bit ARM: [unsigned int], [unsigned long], [size_t] and
    pointers have 32 bits.  A value of such a type is a [Z] and every operation
    of the code that can leave the range is followed by [u32]. *)

Definition wordsize : Z := 2 ^ 32.

Definition u32 (x : Z) : Z := x mod 2 ^ 32.

Definition is_u32 (x : Z) : Prop := 0 <= x < 2 ^ 32.

(** The value an [int] holds after an unsigned word is stored in it. *)
Definition s32 (x : Z) : Z :=
  if u32 x <? 2 ^ 31 then u32 x else u32 x - 2 ^ 32.

(** C's truth value. *)
Definition b2z (b : bool) : Z := if b then 1 else 0.

(** What a kernel function that can fail gives: a value, [ERR_PTR(-e)] or the
    return of [-e], a failed [BUG_ON], or behaviour C leaves undefined. *)
Inductive kres (A : Type) : Type :=
| Val (a : A)
| Err (e : Z)
| Bug
| Undef.
Arguments Val {A} a.
Arguments Err {A} e.
Arguments Bug {A}.
Arguments Undef {A}.

(** Error numbers of include/asm-generic/errno-base.h. *)
Definition EPERM : Z := 1.
Definition EINTR : Z := 4.
Definition EBADF : Z := 9.
Definition EAGAIN : Z := 11.
Definition ENOMEM : Z := 12.
Definition EFAULT : Z := 14.
Definition EBUSY : Z := 16.
Definition EEXIST : Z := 17.
Definition ENODEV : Z := 19.
Definition EINVAL : Z := 22.
Definition ENOTTY : Z := 25.

Create HintDb word discriminated.
Create Rewrite HintDb u32.

Lemma u32_range x : is_u32 (u32 x).
Proof. unfold is_u32, u32. apply Z.mod_pos_bound. lia. Qed.

Lemma u32_id x : is_u32 x -> u32 x = x.
Proof. unfold is_u32, u32. intros. apply Z.mod_small. lia. Qed.

Lemma s32_id x : - 2 ^ 31 <= x < 2 ^ 31 -> s32 x = x.
Proof.
  intros Hx. unfold s32, u32. destruct (Z.leb_spec 0 x).
  - rewrite Z.mod_small by lia. destruct (Z.ltb_spec x (2 ^ 31)); lia.
  - rewrite <- (Z.mod_add x 1), Z.mod_small by lia. destruct (Z.ltb_spec (x + 1 * 2 ^ 32) (2 ^ 31)); lia.
Qed.

Lemma u32_idemp x : u32 (u32 x) = u32 x.
Proof. apply u32_id, u32_range. Qed.

Lemma u32_add_l x y : u32 (u32 x + y) = u32 (x + y).
Proof. unfold u32. apply Zplus_mod_idemp_l. Qed.

Lemma u32_add_r x y : u32 (x + u32 y) = u32 (x + y).
Proof. unfold u32. apply Zplus_mod_idemp_r. Qed.

Lemma u32_sub_l x y : u32 (u32 x - y) = u32 (x - y).
Proof. unfold u32. apply Zminus_mod_idemp_l. Qed.

Lemma u32_sub_r x y : u32 (x - u32 y) = u32 (x - y).
Proof. unfold u32. apply Zminus_mod_idemp_r. Qed.

#[export] Hint Resolve u32_range : word.
#[export] Hint Rewrite u32_idemp u32_add_l u32_add_r u32_sub_l u32_sub_r : u32.

(** Remove the inner wrap-arounds of the goal, then the outer one. *)
Ltac u32_norm := autorewrite with u32.
Ltac u32_small := rewrite ?u32_id by (unfold is_u32 in *; lia).

(** Case analysis on every boolean comparison the goal branches on. *)
Ltac zbool :=
  repeat match goal with
  | |- context [?a <? ?b] => destruct (Z.ltb_spec a b)
  | |- context [?a <=? ?b] => destruct (Z.leb_spec a b)
  | |- context [?a =? ?b] => destruct (Z.eqb_spec a b)
  end; simpl; try lia.

Ltac zbool_in H :=
  repeat match type of H with
  | context [?a <? ?b] => destruct (Z.ltb_spec a b)
  | context [?a <=? ?b] => destruct (Z.leb_spec a b)
  | context [?a =? ?b] => destruct (Z.eqb_spec a b)
  end; simpl in H; try lia.

(** ** Masks and powers of two *)

Definition pow2 (s : Z) : Prop := exists k, 0 <= k <= 31 /\ s = 2 ^ k.

Lemma pow2_pos s : pow2 s -> 0 < s.
Proof. intros (k & ? & ->). apply Z.pow_pos_nonneg; lia. Qed.

Lemma pow2_u32 s : pow2 s -> is_u32 s.
Proof.
  intros Hs. pose proof (pow2_pos s Hs). destruct Hs as (k & Hk & ->).
  pose proof (Z.pow_lt_mono_r 2 k 32). unfold is_u32. lia.
Qed.

Lemma pow2_divide s : pow2 s -> (s | 2 ^ 32).
Proof.
  intros (k & Hk & ->). exists (2 ^ (32 - k)).
  rewrite <- Z.pow_add_r by lia. f_equal; lia.
Qed.

(** [x & (s - 1)] is [x % s] when [s] is a power of two. *)
Lemma land_mask x s : pow2 s -> Z.land x (s - 1) = x mod s.
Proof.
  intros (k & Hk & ->). rewrite <- Z.land_ones, Z.ones_equiv by lia.
  f_equal; lia.
Qed.

Lemma u32_mod_pow2 x s : pow2 s -> u32 x mod s = x mod s.
Proof.
  intros Hs. unfold u32. apply Z.mod_mod_divide, pow2_divide, Hs.
Qed.

#[export] Hint Resolve pow2_pos pow2_u32 : word.

Lemma mod_add_cancel S a b n :
  0 <= a < S -> 0 <= b < S -> (a + n) mod S = (b + n) mod S -> a = b.
Proof.
  intros Ha Hb H. rewrite <- (Z.mod_small a S), <- (Z.mod_small b S) by lia.
  replace a with (a + n - n) by lia. replace b with (b + n - n) by lia.
  rewrite <- (Zminus_mod_idemp_l (a + n)), H, Zminus_mod_idemp_l. done.
Qed.

(** ** Byte arrays

    An array is the list of its elements.  [znth] reads without a check; the
    copies below check their bounds and give [None] for an access outside the
    array, so a theorem that an operation returns [Some] says that every access
    it makes is inside. *)

Definition zlen {A} (l : list A) : Z := Z.of_nat (length l).

Definition znth (l : list Z) (i : Z) : Z := nth (Z.to_nat i) l 0.

Definition in_bounds {A} (l : list A) (off n : Z) : bool :=
  (0 <=? off) && (0 <=? n) && (off + n <=? zlen l).

(** [n] bytes at [l + off]. *)
Definition read_bytes (l : list Z) (off n : Z) : option (list Z) :=
  if in_bounds l off n
  then Some (take (Z.to_nat n) (drop (Z.to_nat off) l)) else None.

(** Store the bytes [src] at [l + off]. *)
Definition write_bytes (l : list Z) (off : Z) (src : list Z) : option (list Z) :=
  if in_bounds l off (zlen src)
  then Some (take (Z.to_nat off) l ++ src ++ drop (Z.to_nat off + length src) l)
  else None.

(** [memcpy(dst + doff, src + soff, n)]. *)
Definition memcpy (dst : list Z) (doff : Z) (src : list Z) (soff n : Z)
  : option (list Z) :=
  bs ← read_bytes src soff n; write_bytes dst doff bs.

Lemma zlen_nonneg {A} (l : list A) : 0 <= zlen l.
Proof. unfold zlen. lia. Qed.

Lemma zlen_app {A} (l k : list A) : zlen (l ++ k) = zlen l + zlen k.
Proof. unfold zlen. rewrite length_app. lia. Qed.

Lemma zlen_take {A} n (l : list A) : 0 <= n <= zlen l -> zlen (take (Z.to_nat n) l) = n.
Proof. unfold zlen. intros. rewrite length_take. lia. Qed.

Lemma zlen_drop {A} n (l : list A) : 0 <= n <= zlen l -> zlen (drop (Z.to_nat n) l) = zlen l - n.
Proof. unfold zlen. intros. rewrite length_drop. lia. Qed.

Lemma take_zlen {A} (l : list A) : take (Z.to_nat (zlen l)) l = l.
Proof. unfold zlen. rewrite Nat2Z.id. apply firstn_all. Qed.

Lemma in_bounds_spec {A} (l : list A) off n :
  in_bounds l off n = true <-> 0 <= off /\ 0 <= n /\ off + n <= zlen l.
Proof. unfold in_bounds. rewrite !andb_true_iff, !Z.leb_le. tauto. Qed.

Lemma znth_app_l l k i : 0 <= i < zlen l -> znth (l ++ k) i = znth l i.
Proof. unfold znth, zlen. intros. apply app_nth1. lia. Qed.

Lemma znth_app_r l k i : zlen l <= i -> znth (l ++ k) i = znth k (i - zlen l).
Proof.
  unfold znth, zlen. intros. rewrite app_nth2 by lia. f_equal. lia.
Qed.

Lemma znth_take l n i : 0 <= i < n -> znth (take (Z.to_nat n) l) i = znth l i.
Proof.
  unfold znth. intros. rewrite !nth_lookup, lookup_take_lt by lia. done.
Qed.

Lemma znth_drop l n i : 0 <= n -> 0 <= i -> znth (drop (Z.to_nat n) l) i = znth l (n + i).
Proof.
  unfold znth. intros. rewrite !nth_lookup, lookup_drop. do 2 f_equal. lia.
Qed.

Lemma znth_ext l k :
  zlen l = zlen k -> (forall i, 0 <= i < zlen l -> znth l i = znth k i) -> l = k.
Proof.
  unfold zlen, znth. intros Hlen H. apply nth_ext with 0 0; [lia|].
  intros i Hi. specialize (H (Z.of_nat i)). rewrite Nat2Z.id in H. apply H. lia.
Qed.

Lemma read_bytes_Some l off n :
  0 <= off -> 0 <= n -> off + n <= zlen l ->
  exists bs, read_bytes l off n = Some bs /\ zlen bs = n /\
    forall i, 0 <= i < n -> znth bs i = znth l (off + i).
Proof.
  intros. unfold read_bytes.
  rewrite (proj2 (in_bounds_spec l off n)) by lia.
  eexists; split; [done|]. split.
  - rewrite zlen_take; [lia|]. rewrite zlen_drop; lia.
  - intros. rewrite znth_take, znth_drop; lia || done.
Qed.

Lemma write_bytes_Some l off src :
  0 <= off -> off + zlen src <= zlen l ->
  exists l', write_bytes l off src = Some l' /\ zlen l' = zlen l /\
    forall i, 0 <= i < zlen l ->
      znth l' i = if (off <=? i) && (i <? off + zlen src) then znth src (i - off)
                  else znth l i.
Proof.
  intros. pose proof (zlen_nonneg src). unfold write_bytes.
  rewrite (proj2 (in_bounds_spec l off _)) by lia.
  replace (Z.to_nat off + length src)%nat with (Z.to_nat (off + zlen src))
    by (unfold zlen in *; lia).
  eexists; split; [done|]. split.
  - rewrite !zlen_app, zlen_take, zlen_drop; lia.
  - intros i Hi. destruct (Z.ltb_spec i off).
    { rewrite znth_app_l by (rewrite zlen_take; lia).
      rewrite znth_take by lia. zbool. }
    rewrite znth_app_r by (rewrite zlen_take; lia). rewrite zlen_take by lia.
    destruct (Z.ltb_spec i (off + zlen src)).
    + rewrite znth_app_l by lia. zbool.
    + rewrite znth_app_r by lia. rewrite znth_drop by lia. zbool; f_equal; lia.
Qed.

Lemma memcpy_0 dst doff src soff :
  0 <= doff <= zlen dst -> 0 <= soff <= zlen src -> memcpy dst doff src soff 0 = Some dst.
Proof.
  intros. unfold memcpy, read_bytes, write_bytes.
  rewrite (proj2 (in_bounds_spec src soff 0)) by lia.
  cbn [mbind option_bind take Z.to_nat zlen length Z.of_nat].
  rewrite (proj2 (in_bounds_spec dst doff _)) by (unfold zlen; simpl; unfold zlen in *; lia).
  simpl. rewrite Nat.add_0_r. f_equal. apply take_drop.
Qed.
