(* ===== verification/Ring.v ===== *)
(** * Ring buffers

    The byte ring that [kernel/kfifo.c] and the Android logger share: a buffer of
    [S] bytes read and written at positions taken modulo [S], each transfer made
    of at most two [memcpy]s (up to the end of the buffer, then from its
    beginning).  [ring_read] is the reference definition of a transfer out,
    [ring_wrote] of a transfer in; [copy_in] and [copy_out] are the two-step
    copies, and the lemmas relate them. *)
From S2P Require Import Prelude.

Section Ring.
Context (S : Z).

(** The byte at distance [i] after position [p]. *)
Definition ring_get (b : list Z) (p : Z) : Z := znth b (p mod S).

Fixpoint ring_read_nat (b : list Z) (p : Z) (n : nat) : list Z :=
  match n with
  | O => []
  | Datatypes.S n => ring_get b p :: ring_read_nat b (p + 1) n
  end.

(** [n] bytes from position [p] on. *)
Definition ring_read (b : list Z) (p n : Z) : list Z := ring_read_nat b p (Z.to_nat n).

(** [b'] is [b] with [src] written at [p]; the ring is described by the
    distance from [p], so one clause covers every position. *)
Definition ring_wrote (b b' : list Z) (p : Z) (src : list Z) : Prop :=
  zlen b' = zlen b /\
  forall i, 0 <= i < S ->
    ring_get b' (p + i) = if i <? zlen src then znth src i else ring_get b (p + i).

Lemma ring_read_zlen b p n : 0 <= n -> zlen (ring_read b p n) = n.
Proof.
  intros. unfold ring_read. rewrite <- (Z2Nat.id n) at 2 by lia.
  generalize (Z.to_nat n) as k. intros k. revert p. unfold zlen.
  induction k as [|k IH]; intros p; simpl; [done|]. specialize (IH (p + 1)). lia.
Qed.

Lemma znth_ring_read b p n i :
  0 <= i < n -> znth (ring_read b p n) i = ring_get b (p + i).
Proof.
  unfold ring_read. remember (Z.to_nat n) as k eqn:Hk. revert p n i Hk.
  induction k as [|k IH]; intros p n i Hk Hi; [lia|]. simpl.
  destruct (decide (i = 0)) as [->|Hne].
  - unfold znth. simpl. f_equal. lia.
  - unfold znth. replace (Z.to_nat i) with (Datatypes.S (Z.to_nat (i - 1))) by lia. simpl.
    specialize (IH (p + 1) (n - 1) (i - 1)). unfold znth in IH.
    rewrite IH by lia. f_equal. lia.
Qed.

Lemma ring_read_0 b p : ring_read b p 0 = [].
Proof. done. Qed.

Lemma ring_read_ext b b' p q n :
  (forall i, 0 <= i < n -> ring_get b (p + i) = ring_get b' (q + i)) ->
  ring_read b p n = ring_read b' q n.
Proof.
  intros H. destruct (Z.ltb_spec n 0).
  { unfold ring_read. replace (Z.to_nat n) with O by lia. done. }
  apply znth_ext; rewrite !ring_read_zlen by lia; [done|].
  intros i Hi. rewrite !znth_ring_read by lia. auto.
Qed.

Lemma ring_read_app b p n m :
  0 <= n -> 0 <= m -> ring_read b p (n + m) = ring_read b p n ++ ring_read b (p + n) m.
Proof.
  intros. apply znth_ext.
  { rewrite zlen_app, !ring_read_zlen; lia. }
  intros i Hi. rewrite ring_read_zlen in Hi by lia. rewrite znth_ring_read by lia.
  destruct (Z.ltb_spec i n).
  - rewrite znth_app_l, znth_ring_read; rewrite ?ring_read_zlen; try lia; done.
  - rewrite znth_app_r; rewrite ring_read_zlen by lia; [|lia].
    rewrite znth_ring_read by lia. f_equal. lia.
Qed.

Context (S_pos : 0 < S).

Lemma ring_get_mod b p : ring_get b (p mod S) = ring_get b p.
Proof. unfold ring_get. rewrite Z.mod_mod by lia. done. Qed.

Lemma ring_get_congr b p q : p mod S = q mod S -> ring_get b p = ring_get b q.
Proof. unfold ring_get. congruence. Qed.

Lemma ring_read_congr b p q n : p mod S = q mod S -> ring_read b p n = ring_read b q n.
Proof.
  intros H. apply ring_read_ext. intros i _. apply ring_get_congr.
  rewrite Z.add_mod, H, <- Z.add_mod by lia. done.
Qed.

Lemma ring_read_mod b p n : ring_read b (p mod S) n = ring_read b p n.
Proof. apply ring_read_congr. rewrite Z.mod_mod by lia. done. Qed.

(** What was written is read back. *)
Lemma ring_wrote_read b b' p src :
  zlen src <= S -> ring_wrote b b' p src -> ring_read b' p (zlen src) = src.
Proof.
  intros Hs [_ H]. pose proof (zlen_nonneg src).
  apply znth_ext; rewrite ring_read_zlen by lia; [done|].
  intros i Hi. rewrite znth_ring_read, H by lia. zbool.
Qed.

(** Nothing else changed: positions at distance [d >= zlen src] from [p]. *)
Lemma ring_wrote_frame b b' p src d m :
  ring_wrote b b' p src -> zlen src <= d -> d + m <= S ->
  ring_read b' (p + d) m = ring_read b (p + d) m.
Proof.
  intros [_ H] Hd Hm. pose proof (zlen_nonneg src). apply ring_read_ext. intros i Hi.
  rewrite <- Z.add_assoc, H by lia. zbool.
Qed.

Lemma ring_wrote_nil b p : ring_wrote b b p [].
Proof. split; [done|]. intros. unfold zlen. simpl. zbool. Qed.

Lemma ring_wrote_app b b1 b2 p s1 s2 :
  zlen s1 + zlen s2 <= S ->
  ring_wrote b b1 p s1 -> ring_wrote b1 b2 (p + zlen s1) s2 -> ring_wrote b b2 p (s1 ++ s2).
Proof.
  intros Hs [L1 H1] [L2 H2]. pose proof (zlen_nonneg s1). pose proof (zlen_nonneg s2).
  split; [congruence|]. intros i Hi. rewrite zlen_app.
  destruct (Z.ltb_spec i (zlen s1)).
  - rewrite znth_app_l by lia.
    specialize (H2 (S - zlen s1 + i) ltac:(lia)).
    replace (p + zlen s1 + (S - zlen s1 + i)) with (p + i + 1 * S) in H2 by lia.
    rewrite !(ring_get_congr _ (p + i + 1 * S) (p + i)) in H2 by (apply Z_mod_plus_full).
    rewrite H2, H1 by lia. zbool.
  - specialize (H2 (i - zlen s1) ltac:(lia)).
    replace (p + zlen s1 + (i - zlen s1)) with (p + i) in H2 by lia.
    rewrite H2, H1 by lia. rewrite znth_app_r by lia. zbool.
Qed.

(** ** The two-step copies

    [l = min(n, S - p); memcpy(b + p, src, l); memcpy(b, src + l, n - l);] *)
Definition copy_in (b : list Z) (p : Z) (src : list Z) (n : Z) : option (list Z) :=
  let l := Z.min n (S - p) in
  b1 ← memcpy b p src 0 l;
  memcpy b1 0 src l (n - l).

(** [l = min(n, S - p); memcpy(dst, b + p, l); memcpy(dst + l, b, n - l);] *)
Definition copy_out (b : list Z) (p n : Z) : option (list Z) :=
  let l := Z.min n (S - p) in
  s1 ← read_bytes b p l;
  s2 ← read_bytes b 0 (n - l);
  Some (s1 ++ s2).

Lemma memcpy_Some dst doff src soff n :
  0 <= doff -> doff + n <= zlen dst -> 0 <= soff -> 0 <= n -> soff + n <= zlen src ->
  exists b, memcpy dst doff src soff n = Some b /\ zlen b = zlen dst /\
    forall i, 0 <= i < zlen dst ->
      znth b i = if (doff <=? i) && (i <? doff + n) then znth src (soff + (i - doff))
                 else znth dst i.
Proof.
  intros. unfold memcpy.
  destruct (read_bytes_Some src soff n) as (bs & -> & Hl & Hb); [lia..|]. simpl.
  destruct (write_bytes_Some dst doff bs) as (b & -> & Hl' & Hb'); [lia..|].
  exists b. split; [done|]. split; [done|]. intros i Hi. rewrite Hb', Hl by lia.
  destruct (Z.leb_spec doff i), (Z.ltb_spec i (doff + n)); simpl; try done.
  apply Hb. lia.
Qed.

Lemma ring_wrote_congr b b' p q src :
  p mod S = q mod S -> ring_wrote b b' p src -> ring_wrote b b' q src.
Proof.
  intros Hpq [L H]. split; [done|]. intros i Hi. specialize (H i Hi).
  assert (Hc : (p + i) mod S = (q + i) mod S)
    by (rewrite Z.add_mod, Hpq, <- Z.add_mod by lia; done).
  rewrite !(ring_get_congr _ (q + i) (p + i)) by done. done.
Qed.

Lemma ring_wrote_nil_any b b' p q : ring_wrote b b' p [] -> ring_wrote b b' q [].
Proof.
  intros [L H]. split; [done|]. intros i Hi.
  specialize (H ((q + i - p) mod S) ltac:(apply Z.mod_pos_bound; lia)).
  rewrite !(ring_get_congr _ (p + (q + i - p) mod S) (q + i)) in H
    by (rewrite Zplus_mod_idemp_r; f_equal; lia).
  rewrite H. unfold zlen. cbn [length Z.of_nat].
  pose proof (Z.mod_pos_bound (q + i - p) S S_pos). zbool.
Qed.

(** A copy that stays inside the buffer writes the ring at that position. *)
Lemma memcpy_ring b p src soff n :
  zlen b = S -> 0 <= p < S -> 0 <= n -> p + n <= S -> 0 <= soff -> soff + n <= zlen src ->
  exists b', memcpy b p src soff n = Some b' /\
    ring_wrote b b' p (take (Z.to_nat n) (drop (Z.to_nat soff) src)).
Proof.
  intros Hb Hp Hn Hpn Hs Hsn.
  destruct (memcpy_Some b p src soff n) as (b1 & -> & L1 & H1); [lia..|].
  exists b1. split; [done|]. split; [lia|]. intros i Hi.
  rewrite zlen_take by (rewrite zlen_drop; lia). unfold ring_get.
  assert (Hd : (p + i) mod S = if p + i <? S then p + i else p + i - S).
  { zbool; [apply Z.mod_small; lia|]. symmetry. apply (Z.mod_unique _ _ 1); lia. }
  rewrite Hd.
  destruct (Z.ltb_spec i n).
  - rewrite znth_take, znth_drop by lia. zbool. rewrite H1 by lia. zbool. f_equal. lia.
  - destruct (Z.ltb_spec (p + i) S); rewrite H1 by lia; zbool.
Qed.

(** The second copy of a transfer: it starts at the beginning of the buffer
    when the first one reached the end, and is empty otherwise. *)
Lemma memcpy_ring_wrap b p src l n :
  zlen b = S -> 0 <= p < S -> 0 <= n <= S -> n <= zlen src -> l = Z.min n (S - p) ->
  exists b', memcpy b 0 src l (n - l) = Some b' /\
    ring_wrote b b' (p + l) (take (Z.to_nat (n - l)) (drop (Z.to_nat l) src)).
Proof.
  intros Hb Hp Hn Hs ->.
  destruct (memcpy_ring b 0 src (Z.min n (S - p)) (n - Z.min n (S - p)))
    as (b' & -> & W); [lia..|].
  exists b'. split; [done|]. destruct (Z.ltb_spec n (S - p)).
  - replace (n - Z.min n (S - p)) with 0 in * by lia.
    apply ring_wrote_nil_any with 0, W.
  - apply (ring_wrote_congr _ _ 0); [|done].
    replace (p + Z.min n (S - p)) with (0 + 1 * S) by lia. symmetry. apply Z_mod_plus_full.
Qed.

Lemma write_bytes_memcpy b p src :
  memcpy b p src 0 (zlen src) = write_bytes b p src.
Proof.
  unfold memcpy, read_bytes. pose proof (zlen_nonneg src).
  rewrite (proj2 (in_bounds_spec src 0 _)) by lia. simpl.
  unfold zlen. rewrite Nat2Z.id, firstn_all. done.
Qed.

Lemma write_bytes_ring b p src :
  zlen b = S -> 0 <= p < S -> p + zlen src <= S ->
  exists b', write_bytes b p src = Some b' /\ ring_wrote b b' p src.
Proof.
  intros Hb Hp Hs. pose proof (zlen_nonneg src).
  destruct (memcpy_ring b p src 0 (zlen src)) as (b' & E & W); [lia..|].
  rewrite write_bytes_memcpy in E. simpl in W. rewrite drop_0, take_zlen in W.
  by exists b'.
Qed.

Lemma take_split {A} n l (src : list A) :
  0 <= l <= n -> n <= zlen src ->
  take (Z.to_nat l) src ++ take (Z.to_nat (n - l)) (drop (Z.to_nat l) src)
  = take (Z.to_nat n) src.
Proof.
  intros. replace (Z.to_nat n) with (Z.to_nat l + Z.to_nat (n - l))%nat by lia.
  apply take_take_drop.
Qed.

Lemma copy_in_ok b p src n :
  zlen b = S -> 0 <= p < S -> 0 <= n <= S -> n <= zlen src ->
  exists b', copy_in b p src n = Some b' /\
             ring_wrote b b' p (take (Z.to_nat n) src).
Proof.
  intros Hb Hp Hn Hs. unfold copy_in.
  destruct (memcpy_ring b p src 0 (Z.min n (S - p))) as (b1 & -> & W1); [lia..|]. simpl.
  destruct (memcpy_ring_wrap b1 p src (Z.min n (S - p)) n) as (b2 & -> & W2);
    try lia; [destruct W1; lia|].
  exists b2. split; [done|].
  rewrite <- (take_split n (Z.min n (S - p)) src) by lia.
  apply ring_wrote_app with b1; [rewrite !zlen_take; rewrite ?zlen_drop; lia|done|].
  rewrite zlen_take by lia. done.
Qed.

(** A read that stays inside the buffer. *)
Lemma read_bytes_ring b p n :
  zlen b = S -> 0 <= p < S -> 0 <= n -> p + n <= S ->
  read_bytes b p n = Some (ring_read b p n).
Proof.
  intros Hb Hp Hn Hpn. destruct (read_bytes_Some b p n) as (s & -> & L & H); [lia..|].
  f_equal. apply znth_ext; rewrite ?ring_read_zlen by lia; [done|]. intros i Hi.
  rewrite znth_ring_read, H by lia. unfold ring_get. rewrite Z.mod_small by lia. done.
Qed.

(** The second read of a transfer. *)
Lemma read_bytes_ring_wrap b p l n :
  zlen b = S -> 0 <= p < S -> 0 <= n <= S -> l = Z.min n (S - p) ->
  read_bytes b 0 (n - l) = Some (ring_read b (p + l) (n - l)).
Proof.
  intros Hb Hp Hn ->. rewrite read_bytes_ring by lia. f_equal.
  destruct (Z.ltb_spec n (S - p)).
  - replace (n - Z.min n (S - p)) with 0 by lia. done.
  - apply ring_read_congr. replace (p + Z.min n (S - p)) with (0 + 1 * S) by lia.
    symmetry. apply Z_mod_plus_full.
Qed.

Lemma copy_out_ok b p n :
  zlen b = S -> 0 <= p < S -> 0 <= n <= S -> copy_out b p n = Some (ring_read b p n).
Proof.
  intros Hb Hp Hn. unfold copy_out.
  rewrite (read_bytes_ring b p (Z.min n (S - p))) by lia. simpl.
  rewrite (read_bytes_ring_wrap b p (Z.min n (S - p)) n) by lia. simpl. f_equal.
  rewrite <- ring_read_app by lia. f_equal. lia.
Qed.
End Ring.
