(* ===== verification/Kfifo.v ===== *)
(** * kernel/kfifo.c and include/linux/kfifo.h: the lock-free byte FIFO

    [kfifo] is the C structure (the spin lock, a pointer, is left out: the locked
    wrappers are the sequential composition of what they call).  [in_] and [out]
    run freely modulo [2^32]; the buffer is indexed with the mask [size - 1].
    [__kfifo_put] and [__kfifo_get] are written as the composition of their parts (the
    length, first copy, second copy, publish the index).  The one-reader/one-writer
    system [spsc_step] splits them into single accesses: a read of an index, the copy of
    one byte, the store of an index. *)
From S2P Require Import Prelude Ring.

Module Kfifo.

Record kfifo := mk_kfifo {
  buffer : list Z;
  size : Z;
  in_ : Z;
  out : Z;
}.

(** include/linux/log2.h *)
Definition is_power_of_2 (n : Z) : bool :=
  negb (n =? 0) && (Z.land n (u32 (n - 1)) =? 0).

(** Position of the most significant set bit, counted from 1; 0 for 0. *)
Definition fls_long (x : Z) : Z := if x =? 0 then 0 else Z.log2 x + 1.

(** [1UL << fls_long(n - 1)]: a shift by the word size is undefined. *)
Definition roundup_pow_of_two (n : Z) : kres Z :=
  let k := fls_long (u32 (n - 1)) in
  if k <? 32 then Val (u32 (Z.shiftl 1 k)) else Undef.

(** [fifo_ok] is whether [kmalloc] of the structure succeeds. *)
Definition kfifo_init (buf : list Z) (sz : Z) (fifo_ok : bool) : kres kfifo :=
  if negb (is_power_of_2 sz) then Bug
  else if negb fifo_ok then Err ENOMEM
  else Val (mk_kfifo buf sz 0 0).

Definition kfifo_alloc_rounded (sz : Z) (mem : Z -> option (list Z)) (fifo_ok : bool)
  : kres kfifo :=
  match mem sz with
  | None => Err ENOMEM
  | Some buf => kfifo_init buf sz fifo_ok
  end.

(** [mem n] is what [kmalloc(n)] returns: a block of [n] bytes or [NULL]. *)
Definition kfifo_alloc (sz : Z) (mem : Z -> option (list Z)) (fifo_ok : bool) : kres kfifo :=
  if negb (is_power_of_2 sz) then
    if 0x80000000 <? sz then Bug
    else match roundup_pow_of_two sz with
         | Val sz' => kfifo_alloc_rounded sz' mem fifo_ok
         | Err e => Err e
         | Bug => Bug
         | Undef => Undef
         end
  else kfifo_alloc_rounded sz mem fifo_ok.

(** ** The steps of [__kfifo_put] *)

(** [len = min(len, fifo->size - fifo->in + fifo->out)] *)
Definition put_len (f : kfifo) (len : Z) : Z :=
  Z.min len (u32 (u32 (size f - in_ f) + out f)).

Definition in_index (f : kfifo) : Z := Z.land (in_ f) (size f - 1).
Definition out_index (f : kfifo) : Z := Z.land (out f) (size f - 1).

(** [l = min(len, fifo->size - (fifo->in & (fifo->size - 1)))] *)
Definition put_first (f : kfifo) (len : Z) : Z := Z.min len (u32 (size f - in_index f)).

Definition set_buffer (f : kfifo) (b : list Z) : kfifo :=
  mk_kfifo b (size f) (in_ f) (out f).

Definition put_copy1 (f : kfifo) (src : list Z) (l : Z) : option kfifo :=
  b ← memcpy (buffer f) (in_index f) src 0 l; Some (set_buffer f b).

Definition put_copy2 (f : kfifo) (src : list Z) (l len : Z) : option kfifo :=
  b ← memcpy (buffer f) 0 src l (u32 (len - l)); Some (set_buffer f b).

(** [fifo->in += len] *)
Definition put_commit (f : kfifo) (len : Z) : kfifo :=
  mk_kfifo (buffer f) (size f) (u32 (in_ f + len)) (out f).

Definition __kfifo_put (f : kfifo) (src : list Z) (len0 : Z) : option (kfifo * Z) :=
  let len := put_len f len0 in
  let l := put_first f len in
  f1 ← put_copy1 f src l;
  f2 ← put_copy2 f1 src l len;
  Some (put_commit f2 len, len).

(** ** The steps of [__kfifo_get] *)

Definition get_len (f : kfifo) (len : Z) : Z := Z.min len (u32 (in_ f - out f)).

Definition get_first (f : kfifo) (len : Z) : Z := Z.min len (u32 (size f - out_index f)).

Definition get_copy1 (f : kfifo) (dst : list Z) (l : Z) : option (list Z) :=
  memcpy dst 0 (buffer f) (out_index f) l.

Definition get_copy2 (f : kfifo) (dst : list Z) (l len : Z) : option (list Z) :=
  memcpy dst l (buffer f) 0 (u32 (len - l)).

Definition get_commit (f : kfifo) (len : Z) : kfifo :=
  mk_kfifo (buffer f) (size f) (in_ f) (u32 (out f + len)).

(** Gives the FIFO, the caller's buffer and the number of bytes copied. *)
Definition __kfifo_get (f : kfifo) (dst : list Z) (len0 : Z)
  : option (kfifo * list Z * Z) :=
  let len := get_len f len0 in
  let l := get_first f len in
  d1 ← get_copy1 f dst l;
  d2 ← get_copy2 f d1 l len;
  Some (get_commit f len, d2, len).

(** ** include/linux/kfifo.h *)

Definition __kfifo_reset (f : kfifo) : kfifo := mk_kfifo (buffer f) (size f) 0 0.
Definition kfifo_reset (f : kfifo) : kfifo := __kfifo_reset f.
Definition kfifo_put (f : kfifo) (src : list Z) (len : Z) : option (kfifo * Z) :=
  __kfifo_put f src len.

Definition kfifo_get (f : kfifo) (dst : list Z) (len : Z) : option (kfifo * list Z * Z) :=
  '(f', d, ret) ← __kfifo_get f dst len;
  Some (if in_ f' =? out f' then mk_kfifo (buffer f') (size f') 0 0 else f', d, ret).

Definition __kfifo_len (f : kfifo) : Z := u32 (in_ f - out f).
Definition kfifo_len (f : kfifo) : Z := __kfifo_len f.

(** ** Invariant and abstraction *)

Record kfifo_inv (f : kfifo) : Prop := {
  inv_size : pow2 (size f);
  inv_buf : zlen (buffer f) = size f;
  inv_in : is_u32 (in_ f);
  inv_out : is_u32 (out f);
  inv_used : __kfifo_len f <= size f;
}.

(** The abstract FIFO: the bytes from [out] to [in_]. *)
Definition contents (f : kfifo) : list Z :=
  ring_read (size f) (buffer f) (out f) (__kfifo_len f).

Lemma kfifo_len_nonneg f : 0 <= __kfifo_len f.
Proof. apply u32_range. Qed.

Lemma contents_len f : zlen (contents f) = __kfifo_len f.
Proof. apply ring_read_zlen, kfifo_len_nonneg. Qed.

Section WithInv.
Context (f : kfifo) (I : kfifo_inv f).

Lemma kfifo_size_pos : 0 < size f.
Proof. apply pow2_pos, I. Qed.

Lemma in_index_mod : in_index f = in_ f mod size f.
Proof. apply land_mask, I. Qed.

Lemma out_index_mod : out_index f = out f mod size f.
Proof. apply land_mask, I. Qed.

Lemma mod_size_range x : 0 <= x mod size f < size f.
Proof. apply Z.mod_pos_bound, kfifo_size_pos. Qed.

(** [size - in + out] is the free space: the subtraction never wraps twice. *)
Lemma free_space : u32 (u32 (size f - in_ f) + out f) = size f - __kfifo_len f.
Proof.
  pose proof (inv_used f I). pose proof (kfifo_len_nonneg f).
  pose proof (pow2_u32 _ (inv_size f I)) as Hs. unfold is_u32 in Hs.
  u32_norm. replace (size f - in_ f + out f) with (size f - (in_ f - out f)) by lia.
  rewrite <- u32_sub_r. fold (__kfifo_len f). apply u32_id. unfold is_u32. lia.
Qed.

Lemma first_chunk_in len : put_first f len = Z.min len (size f - in_ f mod size f).
Proof.
  unfold put_first. rewrite in_index_mod.
  pose proof (mod_size_range (in_ f)). pose proof (pow2_u32 _ (inv_size f I)) as Hs.
  unfold is_u32 in Hs. u32_small. done.
Qed.

Lemma first_chunk_out len : get_first f len = Z.min len (size f - out f mod size f).
Proof.
  unfold get_first. rewrite out_index_mod.
  pose proof (mod_size_range (out f)). pose proof (pow2_u32 _ (inv_size f I)) as Hs.
  unfold is_u32 in Hs. u32_small. done.
Qed.

(** [in] is [used] bytes after [out] on the ring. *)
Lemma in_after_out : in_ f mod size f = (out f + __kfifo_len f) mod size f.
Proof.
  pose proof kfifo_size_pos. rewrite Z.add_mod by lia. unfold __kfifo_len.
  rewrite u32_mod_pow2 by apply I. rewrite <- Z.add_mod by lia. f_equal. lia.
Qed.
End WithInv.

(** ** Each copy, on a ring that holds [used] bytes *)

Section Copies.
Context (f : kfifo) (I : kfifo_inv f).

Lemma put_copy1_ok src len :
  0 <= len <= size f - __kfifo_len f -> len <= zlen src ->
  exists b, put_copy1 f src (put_first f len) = Some (set_buffer f b) /\
    ring_wrote (size f) (buffer f) b (in_ f) (take (Z.to_nat (put_first f len)) src).
Proof.
  intros Hlen Hsrc. pose proof (kfifo_len_nonneg f). pose proof (kfifo_size_pos f I).
  pose proof (mod_size_range f I (in_ f)). unfold put_copy1.
  rewrite in_index_mod, first_chunk_in by done.
  destruct (memcpy_ring (size f) (buffer f) (in_ f mod size f) src 0
    (Z.min len (size f - in_ f mod size f))) as (b & -> & W); [apply I|lia..|].
  exists b. split; [done|]. apply ring_wrote_congr with (in_ f mod size f); try done.
  apply Z.mod_mod; lia.
Qed.

Lemma put_copy2_ok src len :
  0 <= len <= size f - __kfifo_len f -> len <= zlen src ->
  exists b, put_copy2 f src (put_first f len) len = Some (set_buffer f b) /\
    ring_wrote (size f) (buffer f) b (in_ f + put_first f len)
      (take (Z.to_nat (len - put_first f len)) (drop (Z.to_nat (put_first f len)) src)).
Proof.
  intros Hlen Hsrc. pose proof (kfifo_len_nonneg f). pose proof (kfifo_size_pos f I).
  pose proof (mod_size_range f I (in_ f)). pose proof (pow2_u32 _ (inv_size f I)) as Hs.
  unfold put_copy2. rewrite first_chunk_in by done. unfold is_u32 in Hs. u32_small.
  destruct (memcpy_ring_wrap (size f) ltac:(done) (buffer f) (in_ f mod size f) src
    (Z.min len (size f - in_ f mod size f)) len) as (b & -> & W); [apply I|lia..|].
  exists b. split; [done|].
  eapply ring_wrote_congr; [done| |exact W]. rewrite Zplus_mod_idemp_l. done.
Qed.

(** Writes into the free space leave the queued bytes alone. *)
Lemma put_frame b k s n :
  ring_wrote (size f) (buffer f) b (in_ f + k) s ->
  0 <= k -> k + zlen s <= size f - __kfifo_len f -> n <= __kfifo_len f ->
  ring_read (size f) b (out f) n = ring_read (size f) (buffer f) (out f) n.
Proof.
  intros W Hk Hs Hn. pose proof (kfifo_size_pos f I). pose proof (in_after_out f I) as Hio.
  pose proof (kfifo_len_nonneg f) as Hu. set (u := __kfifo_len f) in *.
  assert (Hc : out f mod size f = (in_ f + k + (size f - u - k)) mod size f).
  { rewrite <- !Z.add_assoc, Z.add_mod, Hio, <- Z.add_mod by lia.
    replace (out f + u + (k + (size f - u - k))) with (out f + 1 * size f) by lia.
    symmetry. apply Z_mod_plus_full. }
  rewrite !(ring_read_congr _ ltac:(done) _ _ _ _ Hc).
  eapply ring_wrote_frame; [done..|lia|lia].
Qed.

Lemma get_copy1_ok dst len :
  0 <= len <= __kfifo_len f -> len <= zlen dst ->
  exists d, get_copy1 f dst (get_first f len) = Some d /\ zlen d = zlen dst /\
    d = ring_read (size f) (buffer f) (out f) (get_first f len)
        ++ drop (Z.to_nat (get_first f len)) dst.
Proof.
  intros Hlen Hdst. pose proof (kfifo_size_pos f I). pose proof (inv_used f I).
  pose proof (mod_size_range f I (out f)).
  unfold get_copy1, memcpy. rewrite out_index_mod, first_chunk_out by done.
  rewrite (read_bytes_ring (size f)) by (done || apply I || lia). simpl.
  rewrite ring_read_mod by done. set (l := Z.min _ _).
  assert (L : zlen (ring_read (size f) (buffer f) (out f) l) = l)
    by (apply ring_read_zlen; lia).
  unfold write_bytes. rewrite (proj2 (in_bounds_spec dst 0 _)) by lia.
  eexists; split; [done|]. simpl.
  replace (length (ring_read (size f) (buffer f) (out f) l)) with (Z.to_nat l)
    by (unfold zlen in L; lia).
  split; [rewrite zlen_app, zlen_drop; lia|done].
Qed.

Lemma get_copy2_ok d len :
  0 <= len <= __kfifo_len f -> len <= zlen d ->
  let l := get_first f len in
  exists d', get_copy2 f d l len = Some d' /\ zlen d' = zlen d /\
    d' = take (Z.to_nat l) d ++ ring_read (size f) (buffer f) (out f + l) (len - l)
         ++ drop (Z.to_nat len) d.
Proof.
  intros Hlen Hd l. pose proof (kfifo_size_pos f I). pose proof (inv_used f I).
  pose proof (mod_size_range f I (out f)). pose proof (pow2_u32 _ (inv_size f I)) as Hs.
  unfold is_u32 in Hs.
  assert (Hl : l = Z.min len (size f - out f mod size f)) by (apply first_chunk_out, I).
  unfold get_copy2, memcpy. u32_small.
  rewrite (read_bytes_ring_wrap (size f) ltac:(done) (buffer f) (out f mod size f) l len)
    by (done || apply I || lia). simpl.
  rewrite (ring_read_congr (size f) ltac:(done) _ _ (out f + l))
    by (rewrite Zplus_mod_idemp_l; done).
  set (r := ring_read _ _ _ _).
  assert (L : zlen r = len - l) by (apply ring_read_zlen; lia).
  unfold write_bytes. rewrite (proj2 (in_bounds_spec d l _)) by lia.
  eexists; split; [done|].
  replace (Z.to_nat l + length r)%nat with (Z.to_nat len) by (unfold zlen in L; lia).
  split; [rewrite !zlen_app, zlen_take, zlen_drop; lia|done].
Qed.
End Copies.

(** ** Publishing the indices *)

Lemma set_buffer_inv f b : kfifo_inv f -> zlen b = size f -> kfifo_inv (set_buffer f b).
Proof. intros [] ?. by split. Qed.

Section Commits.
Context (f : kfifo) (I : kfifo_inv f) (len : Z).

Lemma put_commit_len :
  0 <= len <= size f - __kfifo_len f ->
  __kfifo_len (put_commit f len) = __kfifo_len f + len.
Proof.
  intros. pose proof (kfifo_len_nonneg f). pose proof (pow2_u32 _ (inv_size f I)) as Hs.
  unfold is_u32 in Hs. unfold __kfifo_len at 1. simpl. u32_norm.
  replace (in_ f + len - out f) with (in_ f - out f + len) by lia.
  rewrite <- u32_add_l. fold (__kfifo_len f). u32_small. done.
Qed.

Lemma get_commit_len :
  0 <= len <= __kfifo_len f -> __kfifo_len (get_commit f len) = __kfifo_len f - len.
Proof.
  intros. pose proof (u32_range (in_ f - out f)) as Hs. fold (__kfifo_len f) in Hs.
  unfold is_u32 in Hs. unfold __kfifo_len at 1. simpl. u32_norm.
  replace (in_ f - (out f + len)) with (in_ f - out f - len) by lia.
  rewrite <- u32_sub_l. fold (__kfifo_len f). u32_small. done.
Qed.

Lemma put_commit_inv :
  0 <= len <= size f - __kfifo_len f -> kfifo_inv (put_commit f len).
Proof.
  intros H. pose proof (put_commit_len H). destruct I.
  split; simpl; auto with word. lia.
Qed.

Lemma get_commit_inv : 0 <= len <= __kfifo_len f -> kfifo_inv (get_commit f len).
Proof.
  intros H. pose proof (get_commit_len H). destruct I.
  split; simpl; auto with word. lia.
Qed.

Lemma put_commit_contents :
  0 <= len <= size f - __kfifo_len f ->
  contents (put_commit f len) = contents f ++ ring_read (size f) (buffer f) (in_ f) len.
Proof.
  intros H. pose proof (kfifo_len_nonneg f). pose proof (kfifo_size_pos f I).
  unfold contents. rewrite put_commit_len by done. simpl.
  rewrite ring_read_app by lia. f_equal.
  apply ring_read_congr; [done|]. symmetry. apply in_after_out, I.
Qed.

Lemma get_commit_contents :
  0 <= len <= __kfifo_len f ->
  contents f = ring_read (size f) (buffer f) (out f) len ++ contents (get_commit f len).
Proof.
  intros H. pose proof (kfifo_size_pos f I).
  unfold contents. rewrite get_commit_len by done. simpl.
  rewrite <- (Zplus_minus len (__kfifo_len f)) at 1. rewrite ring_read_app by lia.
  f_equal. apply ring_read_congr; [done|].
  rewrite u32_mod_pow2 by apply I. done.
Qed.
End Commits.

(** The bytes [src] are in the ring once both copies are made. *)
Lemma put_copies_read f src len b1 b2 :
  kfifo_inv f -> 0 <= len <= size f - __kfifo_len f -> len <= zlen src ->
  let l := put_first f len in
  ring_read (size f) b1 (in_ f) l = take (Z.to_nat l) src ->
  ring_wrote (size f) b1 b2 (in_ f + l) (take (Z.to_nat (len - l)) (drop (Z.to_nat l) src)) ->
  ring_read (size f) b2 (in_ f) len = take (Z.to_nat len) src.
Proof.
  intros I Hlen Hsrc l R1 W2. pose proof (kfifo_size_pos f I).
  pose proof (kfifo_len_nonneg f). pose proof (mod_size_range f I (in_ f)).
  assert (Hl : 0 <= l <= len) by (unfold l; rewrite first_chunk_in; lia || done).
  assert (Z2 : zlen (take (Z.to_nat (len - l)) (drop (Z.to_nat l) src)) = len - l)
    by (rewrite zlen_take; rewrite ?zlen_drop; lia).
  rewrite <- (take_split len l src) by lia.
  replace len with (l + (len - l)) at 1 by lia. rewrite ring_read_app by lia. f_equal.
  - rewrite <- R1.
    assert (Hc : in_ f mod size f = (in_ f + l + (size f - l)) mod size f).
    { replace (in_ f + l + (size f - l)) with (in_ f + 1 * size f) by lia.
      symmetry. apply Z_mod_plus_full. }
    rewrite !(ring_read_congr _ ltac:(done) _ _ _ _ Hc).
    eapply ring_wrote_frame; [done|lia|lia].
  - rewrite <- Z2 at 1. apply ring_wrote_read with b1; [lia|done].
Qed.

(** ** Sequential behaviour *)

Lemma put_spec f src len :
  kfifo_inv f -> 0 <= len <= zlen src ->
  let n := Z.min len (size f - __kfifo_len f) in
  exists f', __kfifo_put f src len = Some (f', n) /\ kfifo_inv f' /\ size f' = size f /\
    contents f' = contents f ++ take (Z.to_nat n) src.
Proof.
  intros I Hlen n. unfold __kfifo_put.
  assert (Hn : put_len f len = n) by (unfold put_len; rewrite free_space; done).
  rewrite Hn. pose proof (kfifo_len_nonneg f). pose proof (inv_used f I).
  pose proof (kfifo_size_pos f I). pose proof (mod_size_range f I (in_ f)).
  assert (Hfc := first_chunk_in f I n).
  destruct (put_copy1_ok f I src n) as (b1 & -> & W1); [lia..|]. simpl.
  assert (Zt : zlen (take (Z.to_nat (put_first f n)) src) = put_first f n)
    by (apply zlen_take; lia).
  assert (L1 : zlen b1 = size f) by (destruct W1 as [-> _]; apply I).
  assert (I1 := set_buffer_inv f b1 I L1).
  destruct (put_copy2_ok (set_buffer f b1) I1 src n) as (b2 & E2 & W2);
    [simpl; unfold __kfifo_len in *; simpl; lia|lia|].
  change (put_first (set_buffer f b1) n) with (put_first f n) in E2, W2.
  rewrite E2. simpl.
  assert (L2 : zlen b2 = size f) by (destruct W2 as [-> _]; done).
  assert (I2 := set_buffer_inv f b2 I L2).
  eexists; split; [done|]. split; [|split].
  - apply (put_commit_inv (set_buffer f b2) I2). unfold __kfifo_len in *. simpl. lia.
  - done.
  - rewrite (put_commit_contents (set_buffer f b2) I2)
      by (unfold __kfifo_len in *; simpl; lia).
    simpl. f_equal.
    + unfold contents, __kfifo_len. simpl.
      rewrite (put_frame (set_buffer f b1) I1 b2 (put_first f n) _ _ W2);
        rewrite ?zlen_take; rewrite ?zlen_drop; simpl; unfold __kfifo_len in *; simpl; try lia.
      rewrite <- (Z.add_0_r (in_ f)) in W1.
      eapply put_frame; [done..|lia| |]; unfold __kfifo_len; lia.
    + apply (put_copies_read f src n b1 b2 I); [lia..| |done].
      rewrite <- Zt at 1. apply ring_wrote_read with (buffer f); [lia|done].
Qed.

Lemma get_spec f dst len :
  kfifo_inv f -> 0 <= len <= zlen dst ->
  let n := Z.min len (__kfifo_len f) in
  exists f' bs, __kfifo_get f dst len = Some (f', bs ++ drop (Z.to_nat n) dst, n) /\
    kfifo_inv f' /\ size f' = size f /\ zlen bs = n /\ contents f = bs ++ contents f'.
Proof.
  intros I Hlen n. unfold __kfifo_get.
  change (get_len f len) with n. pose proof (kfifo_len_nonneg f). pose proof (inv_used f I).
  pose proof (kfifo_size_pos f I). pose proof (mod_size_range f I (out f)).
  assert (Hfc := first_chunk_out f I n).
  destruct (get_copy1_ok f I dst n) as (d1 & -> & L1 & D1); [lia..|]. simpl.
  destruct (get_copy2_ok f I d1 n) as (d2 & -> & L2 & D2); [lia..|]. simpl.
  exists (get_commit f n), (ring_read (size f) (buffer f) (out f) n).
  assert (Hr : forall k, 0 <= k -> zlen (ring_read (size f) (buffer f) (out f) k) = k)
    by (intros; by apply ring_read_zlen).
  split; [|split; [apply get_commit_inv; [done|lia]|split; [done|split]]].
  - do 3 f_equal. rewrite D2, D1. set (l := get_first f n) in *.
    replace n with (l + (n - l)) at 3 by lia.
    rewrite ring_read_app, <- app_assoc by lia. f_equal; [|f_equal].
    + rewrite take_app_length'; [done|]. specialize (Hr l). unfold zlen in Hr. lia.
    + rewrite drop_app_ge by (specialize (Hr l); unfold zlen in Hr; lia).
      rewrite drop_drop. f_equal. specialize (Hr l). unfold zlen in Hr. lia.
  - apply Hr. lia.
  - apply get_commit_contents; [done|lia].
Qed.

(** ** One reader and one writer without a lock

    The writer and the reader each run [__kfifo_put] and [__kfifo_get], one memory access
    a step: they read the two indices one after the other, copy byte by byte, and store
    their index.  The bytes of the two [memcpy]s are copied in any order, which no barrier
    fixes; [togo] has the offsets that are not copied yet.  Any interleaving of the two
    sides is allowed, and the memory barriers of the code make the samples, the copies and
    the store of one side visible to the other in this order.  [put_log] and [got_log]
    record the bytes of the finished calls. *)

(** [len = min(len, fifo->size - fifo->in + fifo->out)], [in] and [out] as they were read *)
Definition put_len_of (sz i o len : Z) : Z := Z.min len (u32 (u32 (sz - i) + o)).
Definition get_len_of (i o len : Z) : Z := Z.min len (u32 (i - o)).

(** Byte [k] of the caller's buffer, as the copies place it: [l] bytes up to the end of
    the buffer from [index] on, the rest from its beginning *)
Definition byte_place (index l k : Z) : Z := if k <? l then index + k else k - l.

Definition put_byte (f : kfifo) (src : list Z) (l k : Z) : option kfifo :=
  b ← memcpy (buffer f) (byte_place (in_index f) l k) src k 1; Some (set_buffer f b).

Definition get_byte (f : kfifo) (dst : list Z) (l k : Z) : option (list Z) :=
  memcpy dst k (buffer f) (byte_place (out_index f) l k) 1.

Definition offsets (len : Z) : list Z := seqZ 0 len.

Inductive wpc :=
| WIdle
| WReadIn (src : list Z) (len0 i : Z)
| WCopying (src : list Z) (len l : Z) (togo : list Z).

Inductive rpc :=
| RIdle
| RReadIn (dst : list Z) (len0 i : Z)
| RCopying (dst : list Z) (len l : Z) (togo : list Z).

Record spsc := mk_spsc {
  fifo : kfifo;
  writer : wpc;
  reader : rpc;
  put_log : list Z;
  got_log : list Z;
}.

Inductive spsc_step : spsc -> spsc -> Prop :=
| w_read_in f r pl gl src len0 :
    0 <= len0 <= zlen src ->
    spsc_step (mk_spsc f WIdle r pl gl) (mk_spsc f (WReadIn src len0 (in_ f)) r pl gl)
| w_read_out f r pl gl src len0 i :
    let len := put_len_of (size f) i (out f) len0 in
    spsc_step (mk_spsc f (WReadIn src len0 i) r pl gl)
              (mk_spsc f (WCopying src len (put_first f len) (offsets len)) r pl gl)
| w_copy f f' r pl gl src len l k l1 l2 :
    put_byte f src l k = Some f' ->
    spsc_step (mk_spsc f (WCopying src len l (l1 ++ k :: l2)) r pl gl)
              (mk_spsc f' (WCopying src len l (l1 ++ l2)) r pl gl)
| w_commit f r pl gl src len l :
    spsc_step (mk_spsc f (WCopying src len l []) r pl gl)
              (mk_spsc (put_commit f len) WIdle r (pl ++ take (Z.to_nat len) src) gl)
| r_read_in f w pl gl dst len0 :
    0 <= len0 <= zlen dst ->
    spsc_step (mk_spsc f w RIdle pl gl) (mk_spsc f w (RReadIn dst len0 (in_ f)) pl gl)
| r_read_out f w pl gl dst len0 i :
    let len := get_len_of i (out f) len0 in
    spsc_step (mk_spsc f w (RReadIn dst len0 i) pl gl)
              (mk_spsc f w (RCopying dst len (get_first f len) (offsets len)) pl gl)
| r_copy f w pl gl dst dst' len l k l1 l2 :
    get_byte f dst l k = Some dst' ->
    spsc_step (mk_spsc f w (RCopying dst len l (l1 ++ k :: l2)) pl gl)
              (mk_spsc f w (RCopying dst' len l (l1 ++ l2)) pl gl)
| r_commit f w pl gl dst len l :
    spsc_step (mk_spsc f w (RCopying dst len l []) pl gl)
              (mk_spsc (get_commit f len) w RIdle pl (gl ++ take (Z.to_nat len) dst)).

Definition spsc_init (f : kfifo) : spsc := mk_spsc f WIdle RIdle (contents f) [].

(** What holds of a call in progress: the length fits, the offsets that are left are those
    of the call, and the other bytes are in their place. *)
Definition copying (len : Z) (togo : list Z) (done : Z -> Prop) : Prop :=
  NoDup togo /\ (forall k, k ∈ togo -> 0 <= k < len) /\ forall k, 0 <= k < len -> k ∉ togo -> done k.

Definition writer_inv (f : kfifo) (w : wpc) : Prop :=
  match w with
  | WIdle => True
  | WReadIn src len0 i => 0 <= len0 <= zlen src /\ i = in_ f
  | WCopying src len l togo =>
      0 <= len <= size f - __kfifo_len f /\ len <= zlen src /\ l = put_first f len /\
      copying len togo (fun k => ring_get (size f) (buffer f) (in_ f + k) = znth src k)
  end.

Definition reader_inv (f : kfifo) (r : rpc) : Prop :=
  match r with
  | RIdle => True
  | RReadIn dst len0 i => 0 <= len0 <= zlen dst /\ u32 (i - out f) <= __kfifo_len f
  | RCopying dst len l togo =>
      0 <= len <= __kfifo_len f /\ len <= zlen dst /\ l = get_first f len /\
      copying len togo (fun k => znth dst k = ring_get (size f) (buffer f) (out f + k))
  end.

Record spsc_inv (s : spsc) : Prop := {
  si_fifo : kfifo_inv (fifo s);
  si_log : put_log s = got_log s ++ contents (fifo s);
  si_writer : writer_inv (fifo s) (writer s);
  si_reader : reader_inv (fifo s) (reader s);
}.

(** *** Single bytes *)

Lemma copying_start len (P : Z -> Prop) : copying len (offsets len) P.
Proof.
  unfold offsets. split; [apply NoDup_seqZ|]. split; [intros k; rewrite elem_of_seqZ; lia|].
  intros k Hk Hn. destruct Hn. apply elem_of_seqZ. lia.
Qed.

Lemma copying_next len k l1 l2 (P Q : Z -> Prop) :
  copying len (l1 ++ k :: l2) P -> (forall j, 0 <= j < len -> j <> k -> P j -> Q j) -> Q k ->
  copying len (l1 ++ l2) Q.
Proof.
  intros (Hnd & Hin & Hd) HPQ HQ.
  apply NoDup_app in Hnd as (N1 & N2 & N3). apply NoDup_cons in N3 as [N3 N4].
  assert (Hk : k ∉ l1 ++ l2) by (intros [Hk|Hk]%elem_of_app; [apply (N2 k Hk); set_solver|done]).
  assert (Hnd : NoDup (l1 ++ l2)) by (apply NoDup_app; split; [done|]; split; [intros x Hx Hy; apply (N2 x Hx); set_solver|done]).
  split; [done|]. split; [intros j Hj; apply Hin; set_solver|].
  intros j Hj Hn. destruct (decide (j = k)) as [->|Hne]; [done|].
  apply HPQ; [done|done|]. apply Hd; [done|set_solver].
Qed.

Lemma copying_weaken len togo (P Q : Z -> Prop) :
  copying len togo P -> (forall j, 0 <= j < len -> P j -> Q j) -> copying len togo Q.
Proof. intros (H1 & H2 & Hd) H. split; [done|]. split; [done|]. intros k Hk Hn. apply H; auto. Qed.

(** The place of a byte on the ring *)
Lemma byte_place_ok S p len k :
  0 < S -> 0 <= k < len -> len <= S ->
  let l := Z.min len (S - p mod S) in let q := byte_place (p mod S) l k in
  0 <= q < S /\ q mod S = (p + k) mod S.
Proof.
  intros HS Hk Hlen l q. pose proof (Z.mod_pos_bound p S HS) as Hp. unfold q, byte_place, l.
  destruct (Z.ltb_spec k (Z.min len (S - p mod S))).
  - split; [lia|]. by rewrite Zplus_mod_idemp_l.
  - split; [lia|]. replace (k - Z.min len (S - p mod S)) with (p mod S + k + -1 * S) by lia.
    rewrite Z_mod_plus_full. by rewrite Zplus_mod_idemp_l.
Qed.

Lemma one_byte src k : 0 <= k < zlen src -> take (Z.to_nat 1) (drop (Z.to_nat k) src) = [znth src k].
Proof.
  intros Hk. assert (L : zlen (take (Z.to_nat 1) (drop (Z.to_nat k) src)) = 1) by (apply zlen_take; rewrite zlen_drop; lia).
  apply znth_ext; [done|]. intros i Hi. rewrite L in Hi. rewrite znth_take, znth_drop by lia. by replace i with 0 by lia; rewrite Z.add_0_r.
Qed.

Lemma put_byte_ok f src len k :
  kfifo_inv f -> 0 <= k < len -> len <= size f - __kfifo_len f -> len <= zlen src ->
  exists b, put_byte f src (put_first f len) k = Some (set_buffer f b) /\
    ring_wrote (size f) (buffer f) b (in_ f + k) [znth src k].
Proof.
  intros I Hk Hlen Hsrc. pose proof (kfifo_size_pos f I) as HS. pose proof (kfifo_len_nonneg f).
  destruct (byte_place_ok (size f) (in_ f) len k HS Hk ltac:(lia)) as [Hq Hc].
  unfold put_byte. rewrite in_index_mod, first_chunk_in by done. set (q := byte_place _ _ k) in *.
  destruct (memcpy_ring (size f) (buffer f) q src k 1) as (b & -> & W); [apply I|lia..|].
  exists b. split; [done|]. apply (ring_wrote_congr (size f) HS) with q; [done|].
  by rewrite <- one_byte by lia.
Qed.

Lemma get_byte_ok f dst len k :
  kfifo_inv f -> 0 <= k < len -> len <= __kfifo_len f -> len <= zlen dst ->
  exists d, get_byte f dst (get_first f len) k = Some d /\ zlen d = zlen dst /\
    forall j, 0 <= j < zlen dst -> znth d j = if j =? k then ring_get (size f) (buffer f) (out f + k) else znth dst j.
Proof.
  intros I Hk Hlen Hdst. pose proof (kfifo_size_pos f I) as HS. pose proof (inv_used f I).
  destruct (byte_place_ok (size f) (out f) len k HS Hk ltac:(lia)) as [Hq Hc].
  unfold get_byte. rewrite out_index_mod, first_chunk_out by done. set (q := byte_place _ _ k) in *.
  pose proof (inv_buf f I).
  destruct (memcpy_Some dst k (buffer f) q 1) as (d & -> & L & D); [lia..|].
  exists d. split; [done|]. split; [done|]. intros j Hj. rewrite D by done.
  destruct (Z.leb_spec k j), (Z.ltb_spec j (k + 1)), (Z.eqb_spec j k); try lia; simpl; try done.
  subst j. unfold ring_get. rewrite <- Hc, (Z.mod_small q) by lia. f_equal. lia.
Qed.

(** A byte of the writer changes the buffer only in the free space. *)
Lemma put_byte_frame f b k c :
  kfifo_inv f -> 0 <= k < size f - __kfifo_len f ->
  ring_wrote (size f) (buffer f) b (in_ f + k) [c] ->
  kfifo_inv (set_buffer f b) /\ contents (set_buffer f b) = contents f /\
  (forall r, reader_inv f r -> reader_inv (set_buffer f b) r) /\
  (forall j, 0 <= j < size f -> ring_get (size f) b (in_ f + j) = if j =? k then c else ring_get (size f) (buffer f) (in_ f + j)).
Proof.
  intros I Hk W. pose proof (put_frame f I b k [c]) as F. change (zlen [c]) with 1 in F.
  assert (E : forall n, n <= __kfifo_len f ->
    ring_read (size f) b (out f) n = ring_read (size f) (buffer f) (out f) n)
    by (intros; apply F; [done|lia..]).
  assert (Eg : forall n j, n <= __kfifo_len f -> 0 <= j < n -> ring_get (size f) b (out f + j) = ring_get (size f) (buffer f) (out f + j)).
  { intros n j Hn Hj. rewrite <- (znth_ring_read (size f) b (out f) n j), <- (znth_ring_read (size f) (buffer f) (out f) n j), E by lia. done. }
  pose proof (kfifo_size_pos f I) as HS. pose proof (kfifo_len_nonneg f).
  split; [|split; [|split]].
  - apply set_buffer_inv; [done|]. destruct W as [-> _]. apply I.
  - apply E. unfold __kfifo_len. simpl. lia.
  - intros [|dst len0 i|dst len l togo]; simpl; try done.
    intros (Hlen & Hdst & Hl & Hc). split; [done|]. split; [done|]. split; [done|].
    apply (copying_weaken _ _ _ _ Hc). intros j Hj ->. symmetry. apply (Eg len); [lia|done].
  - intros j Hj. destruct W as [_ W]. specialize (W ((j - k) mod size f) ltac:(apply Z.mod_pos_bound; lia)).
    assert (Hm : (in_ f + k + (j - k) mod size f) mod size f = (in_ f + j) mod size f)
      by (rewrite Zplus_mod_idemp_r; f_equal; lia).
    rewrite !(ring_get_congr (size f) _ _ _ Hm) in W. rewrite W. change (zlen [c]) with 1.
    destruct (Z.eqb_spec j k) as [->|Hne]; [by rewrite Z.sub_diag, Z.mod_0_l by lia|].
    assert ((j - k) mod size f <> 0).
    { intros H0. apply Z.mod_divide in H0 as [z Hz]; [|lia]. assert (z = 0) by (apply Z.le_antisymm; apply Z.lt_succ_r; nia). subst z. lia. }
    pose proof (Z.mod_pos_bound (j - k) (size f) HS). destruct (Z.ltb_spec ((j - k) mod size f) 1); [lia|done].
Qed.

Lemma put_commit_reader f len r :
  kfifo_inv f -> 0 <= len <= size f - __kfifo_len f -> reader_inv f r ->
  reader_inv (put_commit f len) r.
Proof.
  intros I Hlen. pose proof (put_commit_len f I len Hlen) as Hl.
  unfold reader_inv. rewrite Hl. destruct r; simpl; [done|intros [? ?]; split; [done|lia]|].
  intros (? & ? & ? & ?). split; [lia|done].
Qed.

Lemma get_commit_writer f len w :
  kfifo_inv f -> 0 <= len <= __kfifo_len f -> writer_inv f w ->
  writer_inv (get_commit f len) w.
Proof.
  intros I Hlen. pose proof (get_commit_len f len Hlen) as Hl.
  unfold writer_inv. rewrite Hl. destruct w; simpl; [done|done|].
  intros (? & ? & ? & ?). split; [lia|done].
Qed.

(** All bytes are copied: they are in their place together. *)
Lemma copied_all S b p len bs :
  0 <= len <= zlen bs -> copying len [] (fun k => ring_get S b (p + k) = znth bs k) ->
  ring_read S b p len = take (Z.to_nat len) bs.
Proof.
  intros Hlen (_ & _ & H). apply znth_ext; rewrite ring_read_zlen by lia; [rewrite zlen_take; lia|].
  intros i Hi. rewrite znth_ring_read, znth_take by lia. apply H; [done|set_solver].
Qed.

(** Every step preserves the invariant; one lemma per kind of step. *)
Lemma w_copy_inv f f' r pl gl src len l k l1 l2 :
  put_byte f src l k = Some f' ->
  spsc_inv (mk_spsc f (WCopying src len l (l1 ++ k :: l2)) r pl gl) ->
  spsc_inv (mk_spsc f' (WCopying src len l (l1 ++ l2)) r pl gl).
Proof.
  intros E [I L (Hlen & Hsrc & Hl & Hc) R]; simpl in *. subst l.
  assert (Hk : 0 <= k < len) by (apply (proj1 (proj2 Hc)); set_solver).
  destruct (put_byte_ok f src len k I Hk ltac:(lia) Hsrc) as (b & E' & W). simplify_eq.
  destruct (put_byte_frame f b k (znth src k) I ltac:(lia) W) as (I' & C & R' & G).
  pose proof (kfifo_len_nonneg f).
  split; simpl; [done|congruence| |auto]. split; [done|]. split; [done|]. split; [done|].
  apply (copying_next _ _ _ _ _ _ Hc).
  - intros j Hj Hne Hp. rewrite G by lia. by rewrite (proj2 (Z.eqb_neq j k)) by done.
  - rewrite G by lia. by rewrite Z.eqb_refl.
Qed.

Lemma r_copy_inv f w pl gl dst dst' len l k l1 l2 :
  get_byte f dst l k = Some dst' ->
  spsc_inv (mk_spsc f w (RCopying dst len l (l1 ++ k :: l2)) pl gl) ->
  spsc_inv (mk_spsc f w (RCopying dst' len l (l1 ++ l2)) pl gl).
Proof.
  intros E [I L W (Hlen & Hdst & Hl & Hc)]; simpl in *. subst l.
  assert (Hk : 0 <= k < len) by (apply (proj1 (proj2 Hc)); set_solver).
  destruct (get_byte_ok f dst len k I Hk ltac:(lia) Hdst) as (d & E' & Ld & D). simplify_eq.
  split; simpl; try done. split; [done|]. split; [lia|]. split; [done|].
  apply (copying_next _ _ _ _ _ _ Hc).
  - intros j Hj Hne Hp. rewrite D by lia. by rewrite (proj2 (Z.eqb_neq j k)) by done.
  - rewrite D by lia. by rewrite Z.eqb_refl.
Qed.

Lemma spsc_step_inv s s' : spsc_step s s' -> spsc_inv s -> spsc_inv s'.
Proof.
  intros Hstep. destruct Hstep as [f r pl gl src len0 H0|f r pl gl src len0 i len
    |f f' r pl gl src len l k l1 l2 E|f r pl gl src len l|f w pl gl dst len0 H0|f w pl gl dst len0 i len
    |f w pl gl dst dst' len l k l1 l2 E|f w pl gl dst len l].
  - intros [I L W R]; simpl in *. by split.
  - intros [I L (H0 & Hi) R]; simpl in *. split; simpl; try done. unfold len, put_len_of. subst i.
    rewrite free_space by done. pose proof (inv_used f I). split; [lia|]. split; [lia|]. split; [done|apply copying_start].
  - by apply w_copy_inv.
  - intros [I L (Hlen & Hsrc & -> & Hc) R]; simpl in *.
    split; simpl; [by apply put_commit_inv| |done|by apply put_commit_reader].
    rewrite put_commit_contents by done. rewrite (copied_all _ _ _ _ src); [by rewrite app_assoc, L|lia|done].
  - intros [I L W R]; simpl in *. by split.
  - intros [I L W (H0 & Hi)]; simpl in *. split; simpl; try done. unfold len, get_len_of.
    pose proof (u32_range (i - out f)) as Hu. unfold is_u32 in Hu. split; [lia|]. split; [lia|]. split; [done|apply copying_start].
  - by apply r_copy_inv.
  - intros [I L W (Hlen & Hdst & -> & Hc)]; simpl in *.
    split; simpl; [by apply get_commit_inv| |by apply get_commit_writer|done].
    rewrite L, <- app_assoc. f_equal. rewrite <- (copied_all (size f) (buffer f) (out f) len dst); [by apply get_commit_contents|lia|].
    apply (copying_weaken _ _ _ _ Hc). by intros j _ ->.
Qed.

Lemma spsc_reachable_inv f s :
  kfifo_inv f -> rtc spsc_step (spsc_init f) s -> spsc_inv s.
Proof.
  intros I. generalize (spsc_init f) (Build_spsc_inv (spsc_init f) I eq_refl Logic.I Logic.I).
  intros s0 H0. induction 1; eauto using spsc_step_inv.
Qed.

(** *** The functions are runs of the system

    A call that nobody interrupts does what [__kfifo_put] or [__kfifo_get] does. *)

Lemma ring_wrote_unique S b b1 b2 p s :
  0 < S -> zlen b = S -> ring_wrote S b b1 p s -> ring_wrote S b b2 p s -> b1 = b2.
Proof.
  intros HS Hb [L1 W1] [L2 W2]. apply znth_ext; [congruence|]. intros i Hi.
  assert (Hm : (p + (i - p) mod S) mod S = i).
  { rewrite Zplus_mod_idemp_r. replace (p + (i - p)) with i by lia. apply Z.mod_small. lia. }
  pose proof (Z.mod_pos_bound (i - p) S HS) as Hd.
  pose proof (W1 _ Hd) as H1. pose proof (W2 _ Hd) as H2. unfold ring_get in *. rewrite Hm in *. congruence.
Qed.

Lemma put_bytes_run f src len r pl gl :
  kfifo_inv f -> len <= size f - __kfifo_len f -> len <= zlen src ->
  forall n k b, len = k + Z.of_nat n -> 0 <= k ->
    ring_wrote (size f) (buffer f) b (in_ f) (take (Z.to_nat k) src) ->
    exists b', ring_wrote (size f) (buffer f) b' (in_ f) (take (Z.to_nat len) src) /\
      rtc spsc_step (mk_spsc (set_buffer f b) (WCopying src len (put_first f len) (seqZ k (Z.of_nat n))) r pl gl)
                    (mk_spsc (set_buffer f b') (WCopying src len (put_first f len) []) r pl gl).
Proof.
  intros I Hlen Hsrc. pose proof (kfifo_size_pos f I). pose proof (kfifo_len_nonneg f).
  induction n as [|n IH]; intros k b Hk Hk0 W.
  { exists b. replace len with k by lia. split; [done|apply rtc_refl]. }
  assert (Lb : zlen b = size f) by (destruct W as [-> _]; apply I).
  destruct (put_byte_ok (set_buffer f b) src len k (set_buffer_inv f b I Lb)) as (b1 & E & W1); [lia|done|done|].
  assert (W2 : ring_wrote (size f) (buffer f) b1 (in_ f) (take (Z.to_nat (k + 1)) src)).
  { rewrite <- (take_split (k + 1) k src) by lia. replace (k + 1 - k) with 1 by lia.
    apply (ring_wrote_app (size f)) with b; [done|rewrite !zlen_take; rewrite ?zlen_drop; lia|done|].
    rewrite zlen_take by lia. rewrite one_byte by lia. exact W1. }
  destruct (IH (k + 1) b1 ltac:(lia) ltac:(lia) W2) as (b' & Wb & Hrun). exists b'. split; [done|].
  rewrite seqZ_cons by lia. eapply rtc_l; [exact (w_copy (set_buffer f b) _ r pl gl src len _ k [] _ E)|].
  replace (Z.succ k) with (k + 1) by lia. replace (Z.pred (Z.of_nat (S n))) with (Z.of_nat n) by lia. exact Hrun.
Qed.

Lemma put_is_run f src len0 r pl gl :
  kfifo_inv f -> 0 <= len0 <= zlen src ->
  exists f' n, __kfifo_put f src len0 = Some (f', n) /\
    rtc spsc_step (mk_spsc f WIdle r pl gl) (mk_spsc f' WIdle r (pl ++ take (Z.to_nat n) src) gl).
Proof.
  intros I Hlen0. pose proof (kfifo_size_pos f I). pose proof (kfifo_len_nonneg f). pose proof (inv_used f I).
  pose proof (mod_size_range f I (in_ f)). unfold __kfifo_put. set (len := put_len f len0).
  assert (Hlen : 0 <= len <= size f - __kfifo_len f /\ len <= zlen src) by (unfold len, put_len; rewrite free_space by done; lia).
  destruct Hlen as [Hlen Hsrc]. assert (Hl := first_chunk_in f I len). set (l := put_first f len) in *.
  destruct (put_copy1_ok f I src len Hlen Hsrc) as (b1 & E1 & W1). fold l in E1, W1. rewrite E1. cbn [mbind option_bind].
  assert (L1 : zlen b1 = size f) by (destruct W1 as [-> _]; apply I).
  destruct (put_copy2_ok (set_buffer f b1) (set_buffer_inv f b1 I L1) src len) as (b2 & E2 & W2); [done|done|].
  change (put_first (set_buffer f b1) len) with l in E2, W2. rewrite E2. cbn [mbind option_bind].
  eexists _, _. split; [done|].
  assert (W : ring_wrote (size f) (buffer f) b2 (in_ f) (take (Z.to_nat len) src)).
  { rewrite <- (take_split len l src) by lia. apply (ring_wrote_app (size f)) with b1; [done|rewrite !zlen_take; rewrite ?zlen_drop; lia|done|].
    rewrite zlen_take by lia. exact W2. }
  eapply rtc_l; [by apply w_read_in|]. eapply rtc_l; [apply w_read_out|]. fold (put_len f len0). fold len l.
  destruct (put_bytes_run f src len r pl gl I (proj2 Hlen) Hsrc (Z.to_nat len) 0 (buffer f)) as (b' & W' & Hrun); [lia|lia|apply ring_wrote_nil|].
  rewrite Z2Nat.id in Hrun by lia. replace (set_buffer f (buffer f)) with f in Hrun by (by destruct f).
  assert (b' = b2) as -> by (apply (ring_wrote_unique (size f) (buffer f) b' b2 (in_ f) (take (Z.to_nat len) src)); [done|apply I|done|done]).
  etransitivity; [exact Hrun|]. apply rtc_once. apply w_commit.
Qed.

Lemma get_bytes_run f dst len w pl gl :
  kfifo_inv f -> len <= __kfifo_len f ->
  forall n k d, len = k + Z.of_nat n -> 0 <= k -> zlen d = zlen dst -> len <= zlen dst ->
    (forall j, 0 <= j < zlen dst -> znth d j = if j <? k then ring_get (size f) (buffer f) (out f + j) else znth dst j) ->
    exists d', (zlen d' = zlen dst /\ forall j, 0 <= j < zlen dst -> znth d' j = if j <? len then ring_get (size f) (buffer f) (out f + j) else znth dst j) /\
      rtc spsc_step (mk_spsc f w (RCopying d len (get_first f len) (seqZ k (Z.of_nat n))) pl gl)
                    (mk_spsc f w (RCopying d' len (get_first f len) []) pl gl).
Proof.
  intros I Hlen. induction n as [|n IH]; intros k d Hk Hk0 Ld Hdst D.
  { exists d. replace len with k by lia. split; [done|apply rtc_refl]. }
  destruct (get_byte_ok f d len k I) as (d1 & E & L1 & D1); [lia..|].
  destruct (IH (k + 1) d1) as (d' & Hd' & Hrun); [lia|lia|lia|done| |].
  { intros j Hj. rewrite D1, D by lia. destruct (Z.eqb_spec j k) as [Hjk|], (Z.ltb_spec j k), (Z.ltb_spec j (k + 1)); try lia; try done; by rewrite Hjk. }
  exists d'. split; [done|]. rewrite seqZ_cons by lia. eapply rtc_l; [exact (r_copy f w pl gl d _ len _ k [] _ E)|].
  replace (Z.succ k) with (k + 1) by lia. replace (Z.pred (Z.of_nat (S n))) with (Z.of_nat n) by lia. exact Hrun.
Qed.

Lemma get_is_run f dst len0 w pl gl :
  kfifo_inv f -> 0 <= len0 <= zlen dst ->
  exists f' d n, __kfifo_get f dst len0 = Some (f', d, n) /\
    rtc spsc_step (mk_spsc f w RIdle pl gl) (mk_spsc f' w RIdle pl (gl ++ take (Z.to_nat n) d)).
Proof.
  intros I Hlen0. destruct (get_spec f dst len0 I Hlen0) as (f' & bs & E & _ & _ & Lb & C).
  set (len := Z.min len0 (__kfifo_len f)) in *. pose proof (kfifo_len_nonneg f). exists f', (bs ++ drop (Z.to_nat len) dst), len. split; [done|].
  assert (Ef : f' = get_commit f len).
  { unfold __kfifo_get in E. change (get_len f len0) with len in E. destruct (get_copy1 f dst _) as [d1|]; [|done]. cbn [mbind option_bind] in E. destruct (get_copy2 f d1 _ _) as [d2|]; [|done]. by injection E. }
  assert (Hbs : bs = ring_read (size f) (buffer f) (out f) len).
  { pose proof (get_commit_contents f I len ltac:(lia)) as C'. rewrite C, Ef in C'. apply app_inj_1 in C' as [? _]; [done|].
    pose proof (ring_read_zlen (size f) (buffer f) (out f) len ltac:(lia)). unfold zlen in *. lia. }
  eapply rtc_l; [by apply r_read_in|]. eapply rtc_l; [apply r_read_out|]. change (get_len_of (in_ f) (out f) len0) with len.
  destruct (get_bytes_run f dst len w pl gl I ltac:(lia) (Z.to_nat len) 0 dst) as (d & [Ld D] & Hrun); [lia|lia|done|lia|intros j Hj; by destruct (Z.ltb_spec j 0); [lia|]|].
  rewrite Z2Nat.id in Hrun by lia. etransitivity; [exact Hrun|].
  replace (take (Z.to_nat len) (bs ++ drop (Z.to_nat len) dst)) with (take (Z.to_nat len) d); [rewrite Ef; apply rtc_once, r_commit|].
  rewrite take_app_length' by (unfold zlen in *; lia). rewrite Hbs. apply znth_ext; [rewrite zlen_take, ring_read_zlen by lia; done|].
  intros i Hi. rewrite zlen_take in Hi by lia. rewrite znth_take, znth_ring_read, D by lia. by destruct (Z.ltb_spec i len); [|lia].
Qed.

(** ** Sizes *)

Lemma is_power_of_2_spec n : is_u32 n -> is_power_of_2 n = true <-> pow2 n.
Proof.
  unfold is_u32, is_power_of_2. intros Hn.
  rewrite andb_true_iff, negb_true_iff, Z.eqb_neq, Z.eqb_eq. split.
  - intros [Hne Hl]. rewrite u32_id in Hl by (unfold is_u32; lia).
    pose proof (Z.log2_spec n ltac:(lia)) as Hlog. set (k := Z.log2 n) in *.
    assert (Hk : 0 <= k <= 31).
    { split; [apply Z.log2_nonneg|]. apply Z.lt_succ_r, Z.log2_lt_pow2; lia. }
    exists k. split; [done|]. destruct (decide (n = 2 ^ k)) as [|Hd]; [done|]. exfalso.
    rewrite Z.pow_succ_r in Hlog by lia.
    assert (Hk1 : Z.log2 (n - 1) = k)
      by (apply Z.log2_unique; [lia|]; rewrite Z.pow_succ_r by lia; lia).
    assert (Ht : Z.testbit (Z.land n (n - 1)) k = true).
    { rewrite Z.land_spec. rewrite <- Hk1 at 2. unfold k. rewrite !Z.bit_log2 by lia. done. }
    rewrite Hl, Z.testbit_0_l in Ht. done.
  - intros Hp. pose proof (pow2_pos n Hp). split; [lia|].
    rewrite u32_id by (unfold is_u32; lia). rewrite land_mask by done. apply Z_mod_same_full.
Qed.

Lemma roundup_spec n :
  1 < n <= 2 ^ 31 ->
  exists s, roundup_pow_of_two n = Val s /\ pow2 s /\ n <= s < 2 * n.
Proof.
  intros Hn. unfold roundup_pow_of_two, fls_long. rewrite u32_id by (unfold is_u32; lia).
  rewrite (proj2 (Z.eqb_neq (n - 1) 0)) by lia.
  pose proof (Z.log2_spec (n - 1) ltac:(lia)) as Hlog. set (k := Z.log2 (n - 1)) in *.
  assert (Hk : 0 <= k <= 30).
  { split; [apply Z.log2_nonneg|]. apply Z.lt_succ_r, Z.log2_lt_pow2; lia. }
  rewrite (proj2 (Z.ltb_lt (k + 1) 32)) by lia. rewrite Z.shiftl_1_l.
  assert (Hp : pow2 (2 ^ (k + 1))) by (exists (k + 1); split; [lia|done]).
  rewrite u32_id by (by apply pow2_u32).
  eexists. split; [done|]. split; [done|].
  rewrite Z.pow_succ_r in Hlog by lia. rewrite Z.pow_add_r, Z.pow_1_r by lia. lia.
Qed.

Lemma kfifo_init_spec buf sz fifo_ok :
  pow2 sz -> zlen buf = sz ->
  match kfifo_init buf sz fifo_ok with
  | Val f => kfifo_inv f /\ contents f = [] /\ size f = sz
  | Err e => e = ENOMEM
  | _ => False
  end.
Proof.
  intros Hp Hb. unfold kfifo_init.
  rewrite (proj2 (is_power_of_2_spec sz (pow2_u32 sz Hp)) Hp). destruct fifo_ok; simpl; [|done].
  pose proof (pow2_pos sz Hp). split; [|done].
  split; simpl; [done..|apply (u32_range 0)|apply (u32_range 0)|].
  change (0 <= sz). lia.
Qed.

(** ** Theorems *)

(** C17. One reader and one writer need no lock: from any well-formed FIFO, after any
    interleaving of [__kfifo_put] calls and [__kfifo_get] calls whose steps are the reads
    of the two indices, the copies of single bytes (in any order within a call) and the
    store of the index, the bytes delivered to the reader are a prefix, in order, of the
    bytes the writer had accepted, the rest is exactly what the FIFO holds, and it fits.
    [put_is_run] and [get_is_run] show that the two functions are such sequences of
    steps. *)
Theorem spsc_fifo_order f s :
  kfifo_inv f -> rtc spsc_step (spsc_init f) s ->
  put_log s = got_log s ++ contents (fifo s) /\ zlen (contents (fifo s)) <= size (fifo s).
Proof.
  intros I H. destruct (spsc_reachable_inv f s I H) as [I' L _ _].
  split; [done|]. rewrite contents_len. apply I'.
Qed.

(** In every reachable state of the one-reader/one-writer system both sides
    can take their next step: no byte of a call in progress is copied outside the FIFO's
    buffer or the caller's. *)
Theorem spsc_copies_in_bounds f s :
  kfifo_inv f -> rtc spsc_step (spsc_init f) s ->
  (writer s <> WIdle -> exists s', spsc_step s s' /\ reader s' = reader s) /\
  (reader s <> RIdle -> exists s', spsc_step s s' /\ writer s' = writer s).
Proof.
  intros I H. destruct (spsc_reachable_inv f s I H) as [I' _ W R].
  destruct s as [f' w r pl gl]; simpl in *. split.
  - intros Hw. destruct w as [|src len0 i|src len l [|k togo]]; [done|..]; simpl in W.
    + eexists; split; [by apply w_read_out|done].
    + eexists; split; [by apply w_commit|done].
    + destruct W as (? & ? & -> & Hc). assert (Hk : 0 <= k < len) by (apply (proj1 (proj2 Hc)); set_solver).
      destruct (put_byte_ok f' src len k I' Hk) as (b & E & _); [lia..|].
      eexists; split; [exact (w_copy f' _ r pl gl src len _ k [] togo E)|done].
  - intros Hr. destruct r as [|dst len0 i|dst len l [|k togo]]; [done|..]; simpl in R.
    + eexists; split; [by apply r_read_out|done].
    + eexists; split; [by apply r_commit|done].
    + destruct R as (? & ? & -> & Hc). assert (Hk : 0 <= k < len) by (apply (proj1 (proj2 Hc)); set_solver).
      destruct (get_byte_ok f' dst len k I' Hk) as (b & E & _); [lia..|].
      eexists; split; [exact (r_copy f' w pl gl dst _ len _ k [] togo E)|done].
Qed.

(** [kfifo_put] accepts as many bytes as fit, appends exactly those to the
    queue and keeps the FIFO well formed, whatever the free-running indices are. *)
Theorem kfifo_put_appends f src len :
  kfifo_inv f -> 0 <= len <= zlen src ->
  let n := Z.min len (size f - kfifo_len f) in
  exists f', kfifo_put f src len = Some (f', n) /\ kfifo_inv f' /\ size f' = size f /\
    contents f' = contents f ++ take (Z.to_nat n) src.
Proof. apply put_spec. Qed.

(** [kfifo_get] moves the oldest bytes of the queue, as many as asked for and
    available, to the start of the caller's buffer and leaves the rest of that
    buffer unchanged; resetting the indices of an emptied FIFO loses nothing. *)
Theorem kfifo_get_takes f dst len :
  kfifo_inv f -> 0 <= len <= zlen dst ->
  let n := Z.min len (kfifo_len f) in
  exists f' bs, kfifo_get f dst len = Some (f', bs ++ drop (Z.to_nat n) dst, n) /\
    kfifo_inv f' /\ size f' = size f /\ zlen bs = n /\ contents f = bs ++ contents f'.
Proof.
  intros I Hlen. destruct (get_spec f dst len I Hlen) as (f' & bs & E & I' & Hs & Hz & C).
  unfold kfifo_get. rewrite E. simpl. destruct (Z.eqb_spec (in_ f') (out f')) as [Heq|].
  2: by exists f', bs.
  exists (mk_kfifo (buffer f') (size f') 0 0), bs. split; [done|].
  assert (Hc : contents f' = []).
  { unfold contents, __kfifo_len. rewrite Heq, Z.sub_diag. done. }
  destruct I' as [Hp Hb _ _ _]. pose proof (pow2_pos _ Hp).
  split; [split; simpl; [done..|apply (u32_range 0)|apply (u32_range 0)|]|].
  { change (0 <= size f'). lia. }
  rewrite C, Hc. done.
Qed.

(** [kfifo_alloc] of a size from 1 to 2^31 gives an empty well-formed FIFO
    whose size is the least power of two that is large enough, or fails with
    [-ENOMEM]; it reaches neither a [BUG_ON] nor an undefined shift. *)
Theorem kfifo_alloc_ok sz mem fifo_ok :
  1 <= sz <= 2 ^ 31 -> (forall n buf, mem n = Some buf -> zlen buf = n) ->
  match kfifo_alloc sz mem fifo_ok with
  | Val f => kfifo_inv f /\ contents f = [] /\ sz <= size f < 2 * sz
  | Err e => e = ENOMEM
  | _ => False
  end.
Proof.
  intros Hsz Hmem. unfold kfifo_alloc, kfifo_alloc_rounded.
  destruct (is_power_of_2 sz) eqn:Hp; simpl.
  - apply is_power_of_2_spec in Hp; [|unfold is_u32; lia].
    destruct (mem sz) as [buf|] eqn:Hb; [|done].
    pose proof (kfifo_init_spec buf sz fifo_ok Hp (Hmem _ _ Hb)) as H.
    destruct (kfifo_init buf sz fifo_ok); try done. destruct H as (? & ? & ->). auto with lia.
  - rewrite (proj2 (Z.ltb_ge 0x80000000 sz)) by lia.
    destruct (decide (sz = 1)) as [->|Hne]; [done|].
    destruct (roundup_spec sz) as (s & -> & Hs & Hr); [lia|].
    destruct (mem s) as [buf|] eqn:Hb; [|done].
    pose proof (kfifo_init_spec buf s fifo_ok Hs (Hmem _ _ Hb)) as H.
    destruct (kfifo_init buf s fifo_ok); try done. destruct H as (? & ? & ->). auto.
Qed.

(** The size 0 is not refused: it reaches the shift by 32 that C leaves undefined. *)
Lemma kfifo_alloc_zero mem fifo_ok : kfifo_alloc 0 mem fifo_ok = Undef.
Proof. done. Qed.

(** ** Instances of the hypotheses *)

(** A FIFO of 4 bytes whose indices are about to wrap around: it holds 1, 2, 3. *)
Definition ex_fifo : kfifo := mk_kfifo [3; 9; 1; 2] 4 1 4294967294.

Lemma ex_fifo_inv : kfifo_inv ex_fifo.
Proof. split; simpl; [by exists 2|done|split; done..|by vm_compute]. Qed.

(** The writer has copied its one byte and not yet stored the index. *)
Definition ex_copied : spsc :=
  mk_spsc (set_buffer ex_fifo [3; 7; 1; 2]) (WCopying [7; 8] 1 1 []) RIdle [1; 2; 3] [].

Lemma ex_copied_reachable : rtc spsc_step (spsc_init ex_fifo) ex_copied.
Proof.
  eapply rtc_l; [apply (w_read_in ex_fifo RIdle [1; 2; 3] [] [7; 8] 2); vm_compute; split; discriminate|].
  eapply rtc_l; [apply w_read_out|]. eapply rtc_l; [|apply rtc_refl].
  apply (w_copy ex_fifo _ RIdle [1; 2; 3] [] [7; 8] 1 1 0 [] []). reflexivity.
Qed.

Lemma spsc_fifo_order_witness :
  put_log ex_copied = got_log ex_copied ++ contents (fifo ex_copied) /\
  zlen (contents (fifo ex_copied)) <= size (fifo ex_copied).
Proof. apply (spsc_fifo_order ex_fifo); [exact ex_fifo_inv|exact ex_copied_reachable]. Defined.

Lemma spsc_copies_in_bounds_witness :
  exists s', spsc_step ex_copied s' /\ reader s' = reader ex_copied.
Proof. apply (spsc_copies_in_bounds ex_fifo); [exact ex_fifo_inv|exact ex_copied_reachable|discriminate]. Defined.

Lemma kfifo_put_appends_witness :
  exists f', kfifo_put ex_fifo [7; 8] 2 = Some (f', 1) /\ kfifo_inv f' /\ size f' = 4 /\
    contents f' = [1; 2; 3; 7].
Proof.
  apply (kfifo_put_appends ex_fifo [7; 8] 2); [exact ex_fifo_inv|].
  vm_compute; split; discriminate.
Defined.

Lemma kfifo_get_takes_witness :
  exists f' bs, kfifo_get ex_fifo [0; 0; 0; 0] 4 = Some (f', bs ++ [0], 3) /\
    kfifo_inv f' /\ size f' = 4 /\ zlen bs = 3 /\ [1; 2; 3] = bs ++ contents f'.
Proof.
  apply (kfifo_get_takes ex_fifo [0; 0; 0; 0] 4); [exact ex_fifo_inv|].
  vm_compute; split; discriminate.
Defined.

(** [kmalloc] that always succeeds. *)
Definition ex_kmalloc (n : Z) : option (list Z) :=
  if 0 <=? n then Some (repeat 0 (Z.to_nat n)) else None.

Lemma kfifo_alloc_ok_witness :
  match kfifo_alloc 5 ex_kmalloc true with
  | Val f => kfifo_inv f /\ contents f = [] /\ 5 <= size f < 2 * 5
  | Err e => e = ENOMEM
  | _ => False
  end.
Proof.
  apply (kfifo_alloc_ok 5 ex_kmalloc true); [lia|].
  intros n buf. unfold ex_kmalloc. destruct (Z.leb_spec 0 n); [|discriminate].
  intros E. injection E as <-. unfold zlen. rewrite repeat_length. lia.
Defined.

End Kfifo.
