(* ===== verification/Uaccess.v ===== *)
(** * User-space copies

    The contract of [copy_from_user] and [copy_to_user] (arch/arm/include/asm/uaccess.h
    and the assembly it calls): a transfer stops at the first byte that cannot be
    accessed, the number of bytes not transferred is returned, and the part of a
    kernel destination that was not filled is zeroed.  The memory at a user address
    is the list of its accessible bytes. *)
From S2P Require Import Prelude.

(** [u] is the readable memory at the user address; the bytes that cannot be read
    are zeroed in the destination, and their number is returned. *)
Definition copy_from_user (u : list Z) (off n : Z) : list Z * Z :=
  let got := take (Z.to_nat n) (drop (Z.to_nat off) u) in
  (got ++ replicate (Z.to_nat (n - zlen got)) 0, n - zlen got).

(** [u] is the writable memory at the user address. *)
Definition copy_to_user (u : list Z) (off : Z) (bs : list Z) : list Z * Z :=
  let n := Z.max 0 (Z.min (zlen bs) (zlen u - off)) in
  (take (Z.to_nat off) u ++ take (Z.to_nat n) bs ++ drop (Z.to_nat (off + n)) u,
   zlen bs - n).

Lemma copy_from_user_len u off n : 0 <= n -> zlen (fst (copy_from_user u off n)) = n.
Proof.
  intros. unfold copy_from_user. simpl. rewrite zlen_app. unfold zlen.
  rewrite length_replicate, length_take, length_drop. lia.
Qed.

Lemma copy_from_user_ok u off n :
  0 <= off -> 0 <= n -> snd (copy_from_user u off n) = 0 ->
  fst (copy_from_user u off n) = take (Z.to_nat n) (drop (Z.to_nat off) u) /\
  (n = 0 \/ off + n <= zlen u).
Proof.
  unfold copy_from_user. simpl. intros Ho Hn H. split.
  - rewrite H. simpl. apply app_nil_r.
  - unfold zlen in *. rewrite length_take, length_drop in H. lia.
Qed.

Lemma copy_from_user_full u off n :
  0 <= off -> 0 <= n -> off + n <= zlen u -> snd (copy_from_user u off n) = 0.
Proof.
  unfold copy_from_user, zlen. simpl. intros. rewrite length_take, length_drop. lia.
Qed.

Lemma copy_to_user_ok u off bs :
  0 <= off -> off + zlen bs <= zlen u ->
  copy_to_user u off bs =
  (take (Z.to_nat off) u ++ bs ++ drop (Z.to_nat (off + zlen bs)) u, 0).
Proof.
  intros. unfold copy_to_user. pose proof (zlen_nonneg bs).
  replace (Z.max 0 (Z.min (zlen bs) (zlen u - off))) with (zlen bs) by lia.
  rewrite take_zlen. f_equal. lia.
Qed.

Lemma copy_to_user_fault u off bs :
  0 <= off <= zlen u -> zlen u < off + zlen bs -> snd (copy_to_user u off bs) <> 0.
Proof. intros. unfold copy_to_user. simpl. lia. Qed.
