(* ===== verification/Logger.v ===== *)
(** * drivers/staging/android/logger.c: the Android log devices

    A log is a byte ring of a power-of-two [size].  Writers append entries (a
    20-byte header and a payload); every reader has its own offset, and a writer
    that is about to overwrite unread entries first pulls the readers it would lap
    (and [head], where new readers start) forward to an entry boundary.

    [logger_log] is the C structure; a reader is named by an identifier, which
    stands for its [struct logger_reader] pointer.  The bytes of user space are
    lists, and [copy_from_user] and [copy_to_user] are those of [Uaccess].  The wait queue, the mutex and the misc device are not
    state: each critical section is one function. *)
From S2P Require Import Prelude Ring Uaccess.

Module Logger.

Definition LOGGER_ENTRY_MAX_LEN : Z := 4 * 1024.
Definition sizeof_logger_entry : Z := 20.
Definition LOGGER_ENTRY_MAX_PAYLOAD : Z := LOGGER_ENTRY_MAX_LEN - sizeof_logger_entry.

Record logger_reader := mk_reader { r_id : nat; r_off : Z }.

Record logger_log := mk_log {
  buffer : list Z;
  readers : list logger_reader;
  w_off : Z;
  head : Z;
  size : Z;
}.

Record logger_entry := mk_entry {
  e_len : Z;
  e_pad : Z;
  e_pid : Z;
  e_tid : Z;
  e_sec : Z;
  e_nsec : Z;
}.

(** [n] bytes of [x], least significant first. *)
Fixpoint le_bytes (n : nat) (x : Z) : list Z :=
  match n with
  | O => []
  | S n => x mod 256 :: le_bytes n (x / 256)
  end.

(** The memory image of the structure. *)
Definition entry_bytes (h : logger_entry) : list Z :=
  le_bytes 2 (e_len h) ++ le_bytes 2 (e_pad h) ++ le_bytes 4 (e_pid h) ++
  le_bytes 4 (e_tid h) ++ le_bytes 4 (e_sec h) ++ le_bytes 4 (e_nsec h).

Definition set_buffer (log : logger_log) (b : list Z) : logger_log :=
  mk_log b (readers log) (w_off log) (head log) (size log).
Definition set_w_off (log : logger_log) (w : Z) : logger_log :=
  mk_log (buffer log) (readers log) w (head log) (size log).
Definition set_head (log : logger_log) (h : Z) : logger_log :=
  mk_log (buffer log) (readers log) (w_off log) h (size log).
Definition set_readers (log : logger_log) (rs : list logger_reader) : logger_log :=
  mk_log (buffer log) rs (w_off log) (head log) (size log).

(** ** Reading *)

Definition logger_offset (log : logger_log) (n : Z) : Z := Z.land n (size log - 1).

(** The 16-bit length is fetched in two pieces when it straddles the end. *)
Definition get_entry_len (log : logger_log) (off : Z) : option Z :=
  val ← (if size log - off =? 1 then
           b0 ← read_bytes (buffer log) off 1;
           b1 ← read_bytes (buffer log) 0 1;
           Some (b0 ++ b1)
         else read_bytes (buffer log) off 2);
  Some (u32 (sizeof_logger_entry + (znth val 0 + 256 * znth val 1))).

(** The new offset of the reader, the user's buffer, and the return value. *)
Definition do_read_log_to_user (log : logger_log) (off : Z) (buf : list Z) (count : Z)
  : option (Z * list Z * Z) :=
  let len := Z.min count (u32 (size log - off)) in
  bs1 ← read_bytes (buffer log) off len;
  let '(buf1, left1) := copy_to_user buf 0 bs1 in
  if negb (left1 =? 0) then Some (off, buf1, - EFAULT)
  else if negb (count =? len) then
    bs2 ← read_bytes (buffer log) 0 (u32 (count - len));
    let '(buf2, left2) := copy_to_user buf1 len bs2 in
    if negb (left2 =? 0) then Some (off, buf2, - EFAULT)
    else Some (logger_offset log (u32 (off + count)), buf2, count)
  else Some (logger_offset log (u32 (off + count)), buf1, count).

(** The [while (1)] loop of [logger_read], one turn: the reader goes on, returns an
    error, or sleeps in [schedule()] and takes another turn when woken. *)
Inductive read_turn := Ready | Returns (ret : Z) | Sleeps.

Definition logger_read_wait (log : logger_log) (off : Z) (nonblock signal : bool) : read_turn :=
  if negb (w_off log =? off) then Ready
  else if nonblock then Returns (- EAGAIN)
  else if signal then Returns (- EINTR)
  else Sleeps.

(** How an attempt to read ends: asleep, back at [start] because the entry was
    flushed before the mutex was taken again, or returned with the reader's
    offset, the user's buffer and the return value. *)
Inductive read_outcome :=
| RSleep
| RRestart
| RReturn (off : Z) (buf : list Z) (ret : Z).

(** The part of [logger_read] after the wait, under the mutex. *)
Definition logger_read_locked (log : logger_log) (off : Z) (buf : list Z) (count : Z)
  : option read_outcome :=
  if w_off log =? off then Some RRestart
  else
    ret ← get_entry_len log off;
    if count <? ret then Some (RReturn off buf (- EINVAL))
    else '(off', buf', ret') ← do_read_log_to_user log off buf ret;
         Some (RReturn off' buf' ret').

(** [log], [off] are what the wait loop sees, [log'], [off'] what is there when
    the mutex is taken again: others can run in between. *)
Definition logger_read (log : logger_log) (off : Z) (log' : logger_log) (off' : Z)
    (buf : list Z) (count : Z) (nonblock signal : bool) : option read_outcome :=
  match logger_read_wait log off nonblock signal with
  | Sleeps => Some RSleep
  | Returns e => Some (RReturn off' buf e)
  | Ready => logger_read_locked log' off' buf count
  end.

(** ** Writing *)

(** The do-while loop; [count] grows by at least 20 in each turn. *)
Fixpoint get_next_entry_loop (fuel : nat) (log : logger_log) (off count len : Z) : option Z :=
  match fuel with
  | O => None
  | S fuel =>
      nr ← get_entry_len log off;
      let off := logger_offset log (u32 (off + nr)) in
      let count := u32 (count + nr) in
      if count <? len then get_next_entry_loop fuel log off count len else Some off
  end.

Definition get_next_entry (log : logger_log) (off len : Z) : option Z :=
  get_next_entry_loop (S (Z.to_nat len)) log off 0 len.

Definition clock_interval (a b c : Z) : Z :=
  if b <? a then
    if (a <? c) || (c <=? b) then 1 else 0
  else
    if (a <? c) && (c <=? b) then 1 else 0.

Definition fix_up_offset (log : logger_log) (old new len off : Z) : option Z :=
  if negb (clock_interval old new off =? 0) then get_next_entry log off len else Some off.

Fixpoint fix_up_reader_list (log : logger_log) (old new len : Z) (rs : list logger_reader)
  : option (list logger_reader) :=
  match rs with
  | [] => Some []
  | r :: rs =>
      off ← fix_up_offset log old new len (r_off r);
      rs' ← fix_up_reader_list log old new len rs;
      Some (mk_reader (r_id r) off :: rs')
  end.

Definition fix_up_readers (log : logger_log) (len : Z) : option logger_log :=
  let old := w_off log in
  let new := logger_offset log (u32 (old + len)) in
  h ← fix_up_offset log old new len (head log);
  rs ← fix_up_reader_list log old new len (readers log);
  Some (set_readers (set_head log h) rs).

Definition do_write_log (log : logger_log) (buf : list Z) (count : Z) : option logger_log :=
  let len := Z.min count (u32 (size log - w_off log)) in
  b1 ← memcpy (buffer log) (w_off log) buf 0 len;
  b2 ← (if negb (count =? len) then memcpy b1 0 buf len (u32 (count - len)) else Some b1);
  Some (set_w_off (set_buffer log b2) (logger_offset log (u32 (w_off log + count)))).

Definition char_bang : Z := 33.
Definition char_at : Z := 64.

Section Write.
(** The memory that follows the log's buffer: the boot-time tracing code below
    can read it. *)
Context (beyond : Z -> Z).

(** [log->buffer[i]], also past its end. *)
Definition peek (log : logger_log) (i : Z) : Z :=
  if i <? size log then znth (buffer log) i else beyond (i - size log).

Fixpoint peek_bytes (log : logger_log) (i : Z) (n : nat) : list Z :=
  match n with
  | O => []
  | S n => peek log i :: peek_bytes log (i + 1) n
  end.

(** [strncmp(log->buffer + log->w_off, "!@", 2) == 0] *)
Definition starts_klog (log : logger_log) : bool :=
  (peek log (w_off log) =? char_bang) && (peek log (w_off log + 1) =? char_at).

(** The [LINUSYS] block of [do_write_log_from_user]: [klog_buf] has 256 bytes. *)
Definition update_klog (log : logger_log) (klog : list Z) (count : Z) : list Z :=
  let klog := replicate 255 0 ++ drop 255 klog in
  if starts_klog log then
    let n := if count <? 255 then Z.to_nat count else 255%nat in
    take 255 (peek_bytes log (w_off log) n ++ drop n klog) ++ [0]
  else klog.

(** The log, [klog_buf] and the return value. *)
Definition do_write_log_from_user (log : logger_log) (klog : list Z) (buf : list Z) (count : Z)
  : option (logger_log * list Z * Z) :=
  let len := Z.min count (u32 (size log - w_off log)) in
  let '(bs1, left1) := copy_from_user buf 0 len in
  b1 ← (if negb (len =? 0) then write_bytes (buffer log) (w_off log) bs1
        else Some (buffer log));
  if negb (len =? 0) && negb (left1 =? 0) then Some (set_buffer log b1, klog, - EFAULT)
  else
    let '(bs2, left2) := copy_from_user buf len (u32 (count - len)) in
    b2 ← (if negb (count =? len) then write_bytes b1 0 bs2 else Some b1);
    if negb (count =? len) && negb (left2 =? 0) then Some (set_buffer log b2, klog, - EFAULT)
    else
      let log := set_buffer log b2 in
      let klog := update_klog log klog count in
      Some (set_w_off log (logger_offset log (u32 (w_off log + count))), klog, count).

(** One [struct iovec]: the memory readable at [iov_base], and [iov_len]. *)
Record iovec := mk_iovec { iov_base : list Z; iov_len : Z }.

(** The [while (nr_segs-- > 0)] loop; the flag is whether every segment was written. *)
Fixpoint write_segments (log : logger_log) (klog : list Z) (iov : list iovec)
    (hlen orig ret : Z) : option (logger_log * list Z * Z * bool) :=
  match iov with
  | [] => Some (log, klog, ret, true)
  | v :: iov =>
      let len := Z.min (iov_len v) (u32 (hlen - ret)) in
      '(log, klog, nr) ← do_write_log_from_user log klog (iov_base v) len;
      if nr <? 0 then Some (set_w_off log orig, klog, nr, false)
      else write_segments log klog iov hlen orig (ret + nr)
  end.

(** [current], [current_kernel_time()] and the byte padding of the header on the
    stack, which the code does not initialise. *)
Record write_ctx := mk_ctx {
  c_tgid : Z; c_pid : Z; c_sec : Z; c_nsec : Z; c_pad : Z
}.

Definition make_header (c : write_ctx) (ki_left : Z) : logger_entry :=
  mk_entry (Z.min ki_left LOGGER_ENTRY_MAX_PAYLOAD) (c_pad c)
           (c_tgid c) (c_pid c) (c_sec c) (c_nsec c).

(** A string printed with [%s]: up to the first NUL. *)
Fixpoint cstring (l : list Z) : list Z :=
  match l with
  | [] => []
  | c :: l => if c =? 0 then [] else c :: cstring l
  end.

Record write_result := mk_wres {
  wr_log : logger_log;
  wr_klog : list Z;
  wr_printk : option (list Z);
  wr_ret : Z;
}.

(** [orig] is [log->w_off], read before the mutex is taken. *)
Definition logger_aio_write (log : logger_log) (klog : list Z) (orig : Z) (c : write_ctx)
    (ki_left : Z) (iov : list iovec) : option write_result :=
  let h := make_header c ki_left in
  if e_len h =? 0 then Some (mk_wres log klog None 0)
  else
    log1 ← fix_up_readers log (u32 (sizeof_logger_entry + e_len h));
    log2 ← do_write_log log1 (entry_bytes h) sizeof_logger_entry;
    '(log3, klog3, ret, ok) ← write_segments log2 klog iov (e_len h) orig 0;
    Some (mk_wres log3 klog3
      (if ok && (znth klog3 0 =? char_bang) && (znth klog3 1 =? char_at)
       then Some (cstring klog3) else None) ret).
End Write.

(** ** The four devices *)

Definition define_logger_device (sz : Z) : logger_log :=
  mk_log (replicate (Z.to_nat sz) 0) [] 0 0 sz.

Definition log_main : logger_log := define_logger_device (256 * 1024).
Definition log_events : logger_log := define_logger_device (256 * 1024).
Definition log_radio : logger_log := define_logger_device (256 * 1024).
Definition log_system : logger_log := define_logger_device (64 * 1024).

Inductive log_id := Main | Events | Radio | System.

(** [minor_of] is the minor number [misc_register] gave to each device. *)
Definition get_log_from_minor (minor_of : log_id -> Z) (minor : Z) : option log_id :=
  if minor_of Main =? minor then Some Main
  else if minor_of Events =? minor then Some Events
  else if minor_of Radio =? minor then Some Radio
  else if minor_of System =? minor then Some System
  else None.

(** ** Open, release, poll, ioctl *)

(** An open file: its mode and, for a reader, its [struct logger_reader]. *)
Record file := mk_file { f_read : bool; f_write : bool; private_data : nat }.

(** [seek] is what [nonseekable_open] returns, [new] what [kmalloc] returns for the
    reader.  The log opened, its new state and the file. *)
Definition logger_open (logs : log_id -> logger_log) (minor_of : log_id -> Z) (minor seek : Z)
    (fmode_read fmode_write : bool) (new : option nat) : kres (log_id * logger_log * file) :=
  if negb (seek =? 0) then Err (- seek)
  else
    match get_log_from_minor minor_of minor with
    | None => Err ENODEV
    | Some i =>
        let log := logs i in
        if fmode_read then
          match new with
          | None => Err ENOMEM
          | Some id => Val (i, set_readers log (readers log ++ [mk_reader id (head log)]),
                            mk_file fmode_read fmode_write id)
          end
        else Val (i, log, mk_file fmode_read fmode_write 0)
    end.

Definition logger_release (log : logger_log) (f : file) : logger_log :=
  if f_read f
  then set_readers log (List.filter (fun r => negb (Nat.eqb (r_id r) (private_data f))) (readers log))
  else log.

Fixpoint find_reader (rs : list logger_reader) (id : nat) : option Z :=
  match rs with
  | [] => None
  | r :: rs => if Nat.eqb (r_id r) id then Some (r_off r) else find_reader rs id
  end.

Definition POLLIN : Z := 0x1.
Definition POLLOUT : Z := 0x4.
Definition POLLRDNORM : Z := 0x40.
Definition POLLWRNORM : Z := 0x100.

Definition logger_poll (log : logger_log) (f : file) : option Z :=
  let ret := Z.lor POLLOUT POLLWRNORM in
  if negb (f_read f) then Some ret
  else
    off ← find_reader (readers log) (private_data f);
    Some (if negb (w_off log =? off) then Z.lor ret (Z.lor POLLIN POLLRDNORM) else ret).

Inductive ioctl_cmd :=
| LOGGER_GET_LOG_BUF_SIZE
| LOGGER_GET_LOG_LEN
| LOGGER_GET_NEXT_ENTRY_LEN
| LOGGER_FLUSH_LOG
| OTHER_CMD.

Definition logger_ioctl (log : logger_log) (f : file) (cmd : ioctl_cmd)
  : option (logger_log * Z) :=
  match cmd with
  | LOGGER_GET_LOG_BUF_SIZE => Some (log, size log)
  | LOGGER_GET_LOG_LEN =>
      if negb (f_read f) then Some (log, - EBADF)
      else
        off ← find_reader (readers log) (private_data f);
        Some (log, if off <=? w_off log then w_off log - off
                   else u32 (u32 (size log - off) + w_off log))
  | LOGGER_GET_NEXT_ENTRY_LEN =>
      if negb (f_read f) then Some (log, - EBADF)
      else
        off ← find_reader (readers log) (private_data f);
        if negb (w_off log =? off) then n ← get_entry_len log off; Some (log, n)
        else Some (log, 0)
  | LOGGER_FLUSH_LOG =>
      if negb (f_write f) then Some (log, - EBADF)
      else Some (set_head (set_readers log
             (map (fun r => mk_reader (r_id r) (w_off log)) (readers log))) (w_off log), 0)
  | OTHER_CMD => Some (log, - ENOTTY)
  end.

(** ** Invariant and abstraction

    Everything a position of the log (a reader's offset, or [head]) has to read is
    a list of whole entries, the queue of that position.  [pending log p es] says
    that the ring holds exactly the entries [es] from [p] up to the write head. *)

Definition wf_entry (e : list Z) : Prop :=
  sizeof_logger_entry <= zlen e <= LOGGER_ENTRY_MAX_LEN /\
  zlen e = sizeof_logger_entry + (znth e 0 + 256 * znth e 1).

Fixpoint total (es : list (list Z)) : Z :=
  match es with
  | [] => 0
  | e :: es => zlen e + total es
  end.

Fixpoint entries_at (S : Z) (b : list Z) (p : Z) (es : list (list Z)) : Prop :=
  match es with
  | [] => True
  | e :: es => wf_entry e /\ ring_read S b p (zlen e) = e /\ entries_at S b (p + zlen e) es
  end.

Record pending (log : logger_log) (p : Z) (es : list (list Z)) : Prop := {
  pd_range : 0 <= p < size log;
  pd_entries : entries_at (size log) (buffer log) p es;
  pd_end : (p + total es) mod size log = w_off log;
  pd_fits : total es < size log;
}.

(** The sizes [DEFINE_LOGGER_DEVICE] accepts. *)
Definition valid_size (s : Z) : Prop := pow2 s /\ LOGGER_ENTRY_MAX_LEN < s.

(** *** The abstract log

    A queue of entries for each reader, and one for [head]. *)
Record alog := mk_alog {
  a_head : list (list Z);
  a_readers : list (nat * list (list Z));
}.

Definition a_map (f : list (list Z) -> list (list Z)) (a : alog) : alog :=
  mk_alog (f (a_head a)) (map (fun q => (fst q, f (snd q))) (a_readers a)).

(** The queue after the oldest entries, [len] bytes of them or more, are dropped. *)
Fixpoint drop_entries (count len : Z) (es : list (list Z)) : list (list Z) :=
  match es with
  | [] => []
  | e :: es => if count + zlen e <? len then drop_entries (count + zlen e) len es else es
  end.

(** A queue is cut only when the new entry does not fit beside it. *)
Definition evict (S len : Z) (es : list (list Z)) : list (list Z) :=
  if S <=? total es + len then drop_entries 0 len es else es.

Definition a_write (S : Z) (e : list Z) (a : alog) : alog :=
  a_map (fun es => evict S (zlen e) es ++ [e]) a.

Definition a_evict (S len : Z) (a : alog) : alog := a_map (evict S len) a.

Definition a_flush (a : alog) : alog := a_map (fun _ => []) a.

Definition a_open (id : nat) (a : alog) : alog :=
  mk_alog (a_head a) (a_readers a ++ [(id, a_head a)]).

Definition a_release (id : nat) (a : alog) : alog :=
  mk_alog (a_head a) (List.filter (fun q => negb (Nat.eqb (fst q) id)) (a_readers a)).

(** The log implements the abstract log. *)
Record refines (log : logger_log) (a : alog) : Prop := {
  rf_size : valid_size (size log);
  rf_buf : zlen (buffer log) = size log;
  rf_w : 0 <= w_off log < size log;
  rf_head : pending log (head log) (a_head a);
  rf_readers : Forall2 (fun r q => r_id r = fst q /\ pending log (r_off r) (snd q))
                       (readers log) (a_readers a);
}.

(** A power of two above the largest entry holds two of them. *)
Lemma valid_size_2 s : valid_size s -> 2 * LOGGER_ENTRY_MAX_LEN <= s.
Proof.
  intros [(k & Hk & ->) H]. unfold LOGGER_ENTRY_MAX_LEN in *.
  change (4 * 1024) with (2 ^ 12) in H. apply Z.pow_lt_mono_r_iff in H; [|lia..].
  change (2 * (4 * 1024)) with (2 ^ 13). apply Z.pow_le_mono_r; lia.
Qed.

Lemma total_nonneg es : 0 <= total es.
Proof. induction es as [|e es IH]; simpl; [lia|]. pose proof (zlen_nonneg e). lia. Qed.

Lemma total_app es es' : total (es ++ es') = total es + total es'.
Proof. induction es as [|e es IH]; simpl; [done|]. lia. Qed.

Lemma entries_at_app S b p es es' :
  entries_at S b p (es ++ es') <-> entries_at S b p es /\ entries_at S b (p + total es) es'.
Proof.
  revert p. induction es as [|e es IH]; intros p; simpl.
  - rewrite Z.add_0_r. tauto.
  - rewrite IH, Z.add_assoc. tauto.
Qed.

Lemma entries_at_congr S b p q es :
  0 < S -> p mod S = q mod S -> entries_at S b p es -> entries_at S b q es.
Proof.
  intros HS. revert p q. induction es as [|e es IH]; intros p q Hpq; simpl; [done|].
  intros (Hw & Hr & He). split; [done|]. split.
  - rewrite <- Hr at 2. apply ring_read_congr; done.
  - eapply IH; [|done]. rewrite Z.add_mod, Hpq, <- Z.add_mod by lia. done.
Qed.

(** Entries outside the written region survive a write. *)
Lemma entries_at_frame S b b' w src d es :
  ring_wrote S b b' w src -> zlen src <= d -> d + total es <= S ->
  entries_at S b (w + d) es -> entries_at S b' (w + d) es.
Proof.
  intros W. revert d. induction es as [|e es IH]; intros d Hd Hf; simpl in *; [done|].
  pose proof (zlen_nonneg e). pose proof (total_nonneg es).
  intros (Hw & Hr & He). split; [done|]. split.
  - rewrite <- Hr at 2. eapply ring_wrote_frame; [done|lia|lia].
  - rewrite <- Z.add_assoc in *. apply IH; try lia. done.
Qed.

Section Entries.
Context (log : logger_log) (Hsize : valid_size (size log)).
Context (Hbuf : zlen (buffer log) = size log).

Lemma log_size_pos : 0 < size log.
Proof. destruct Hsize as [Hp _]. by apply pow2_pos. Qed.

Lemma offset_mod n : logger_offset log (u32 n) = n mod size log.
Proof. unfold logger_offset. rewrite land_mask by apply Hsize. apply u32_mod_pow2, Hsize. Qed.

Lemma offset_mod_pow2 n : logger_offset log n = n mod size log.
Proof. apply land_mask, Hsize. Qed.

Lemma size_u32 : size log <= 2 ^ 31.
Proof.
  destruct Hsize as [(k & Hk & ->) _]. apply Z.pow_le_mono_r; lia.
Qed.

(** The length field, wherever it lies. *)
Lemma get_entry_len_ring off :
  0 <= off < size log ->
  get_entry_len log off =
  Some (u32 (sizeof_logger_entry + (ring_get (size log) (buffer log) off
                                    + 256 * ring_get (size log) (buffer log) (off + 1)))).
Proof.
  intros Hoff. pose proof (valid_size_2 _ Hsize) as H2. unfold LOGGER_ENTRY_MAX_LEN in H2.
  unfold get_entry_len. destruct (Z.eqb_spec (size log - off) 1).
  - rewrite (read_bytes_ring (size log)), (read_bytes_ring (size log)) by lia. simpl.
    do 3 f_equal. unfold znth. simpl. f_equal. f_equal. apply ring_get_congr.
    replace (off + 1) with (0 + 1 * size log) by lia. symmetry. apply Z_mod_plus_full.
  - rewrite (read_bytes_ring (size log)) by lia. simpl. done.
Qed.

Lemma get_entry_len_entry off e es :
  0 <= off < size log -> entries_at (size log) (buffer log) off (e :: es) ->
  get_entry_len log off = Some (zlen e).
Proof.
  intros Hoff ((Hb & Hl) & Hr & _). rewrite get_entry_len_ring by done.
  unfold sizeof_logger_entry, LOGGER_ENTRY_MAX_LEN in *.
  pose proof (znth_ring_read (size log) (buffer log) off (zlen e) 0 ltac:(lia)) as E0.
  pose proof (znth_ring_read (size log) (buffer log) off (zlen e) 1 ltac:(lia)) as E1.
  rewrite Hr in E0, E1. rewrite Z.add_0_r in E0. rewrite <- E0, <- E1, <- Hl.
  f_equal. apply u32_id. unfold is_u32. lia.
Qed.

Lemma drop_entries_total count len es :
  count < len -> len <= count + total es -> count + total (drop_entries count len es) + len
                                            <= 2 * count + total es.
Proof.
  revert count. induction es as [|e es IH]; intros count Hc Hl; simpl in *; [lia|].
  destruct (Z.ltb_spec (count + zlen e) len); [|lia].
  specialize (IH (count + zlen e)). lia.
Qed.

Lemma get_next_entry_loop_ok fuel off count len es :
  0 <= off < size log -> entries_at (size log) (buffer log) off es ->
  0 <= count < len -> len <= LOGGER_ENTRY_MAX_LEN -> len <= count + total es ->
  len - count < Z.of_nat fuel ->
  exists off', get_next_entry_loop fuel log off count len = Some off' /\
    0 <= off' < size log /\
    entries_at (size log) (buffer log) off' (drop_entries count len es) /\
    (off' + total (drop_entries count len es)) mod size log = (off + total es) mod size log.
Proof.
  revert off count es.
  induction fuel as [|fuel IH]; intros off count es Hoff He Hc Hlen Htot Hf; [lia|].
  destruct es as [|e es]; simpl in Htot; [lia|].
  cbn [get_next_entry_loop]. rewrite (get_entry_len_entry off e es) by done. cbn [mbind option_bind].
  pose proof (valid_size_2 _ Hsize). pose proof log_size_pos.
  destruct He as ((Hb & Hl) & Hr & He).
  unfold sizeof_logger_entry, LOGGER_ENTRY_MAX_LEN in *.
  rewrite offset_mod. rewrite (u32_id (count + zlen e)) by (unfold is_u32; lia).
  assert (Hm : 0 <= (off + zlen e) mod size log < size log) by (apply Z.mod_pos_bound; lia).
  assert (He' : entries_at (size log) (buffer log) ((off + zlen e) mod size log) es).
  { eapply entries_at_congr; [done| |done]. rewrite Z.mod_mod by lia. done. }
  cbn [drop_entries total]. destruct (Z.ltb_spec (count + zlen e) len).
  - destruct (IH ((off + zlen e) mod size log) (count + zlen e) es) as (off' & E & R & En & M);
      try done; try lia.
    exists off'. split; [done|]. split; [done|]. split; [done|]. rewrite M.
    rewrite Zplus_mod_idemp_l. f_equal. lia.
  - eexists. split; [done|]. split; [done|]. split; [done|].
    rewrite Zplus_mod_idemp_l. f_equal. lia.
Qed.

(** [clock_interval] tells whether the writer laps a position. *)
Lemma clock_interval_spec old len c used :
  0 <= old < size log -> 0 < len < size log -> 0 <= c < size log ->
  0 <= used < size log -> (c + used) mod size log = old ->
  clock_interval old ((old + len) mod size log) c =
  if size log <=? used + len then 1 else 0.
Proof.
  intros Ho Hl Hc Hu He. pose proof log_size_pos.
  assert (Hcu : c + used = old \/ c + used = old + size log).
  { pose proof (Z.div_mod (c + used) (size log) ltac:(lia)) as D. rewrite He in D.
    assert (0 <= (c + used) / size log < 2)
      by (split; [apply Z.div_pos; lia|apply Z.div_lt_upper_bound; lia]).
    assert ((c + used) / size log = 0 \/ (c + used) / size log = 1) as [Q|Q] by lia;
      rewrite Q in D; lia. }
  assert (Hn : (old + len) mod size log =
               if old + len <? size log then old + len else old + len - size log).
  { zbool; [apply Z.mod_small; lia|]. symmetry. apply (Z.mod_unique _ _ 1); lia. }
  rewrite Hn. unfold clock_interval.
  destruct (Z.ltb_spec (old + len) (size log)); destruct Hcu; zbool.
Qed.
End Entries.

(** A queue that is cut makes room: what is kept and the new entry fit. *)
Lemma evict_fits S len es :
  0 < len -> 2 * len <= S -> total es < S -> total (evict S len es) + len < S.
Proof.
  intros Hl H2 Ht. unfold evict. destruct (Z.leb_spec S (total es + len)); [|lia].
  pose proof (drop_entries_total 0 len es). lia.
Qed.

Lemma drop_entries_suffix count len es :
  exists k, drop_entries count len es = drop k es.
Proof.
  revert count. induction es as [|e es IH]; intros count; simpl; [by exists 0%nat|].
  destruct (count + zlen e <? len); [|by exists 1%nat].
  destruct (IH (count + zlen e)) as [k Hk]. exists (S k). done.
Qed.

(** Only the oldest entries are dropped. *)
Lemma evict_suffix S len es : exists k, evict S len es = drop k es.
Proof.
  unfold evict. destruct (S <=? total es + len); [apply drop_entries_suffix|by exists 0%nat].
Qed.

Section FixUp.
Context (log : logger_log) (Hsize : valid_size (size log)).
Context (Hbuf : zlen (buffer log) = size log) (Hw : 0 <= w_off log < size log).
Context (len : Z) (Hlen : 0 < len <= LOGGER_ENTRY_MAX_LEN).

Let new := (w_off log + len) mod size log.

Lemma fix_up_offset_ok p es :
  pending log p es ->
  exists p', fix_up_offset log (w_off log) new len p = Some p' /\
             pending log p' (evict (size log) len es).
Proof.
  intros [Hr He Hend Hfit]. pose proof (valid_size_2 _ Hsize) as H2.
  pose proof (total_nonneg es). unfold fix_up_offset, evict, new.
  rewrite (clock_interval_spec log Hsize (w_off log) len p (total es)) by (done || lia).
  destruct (Z.leb_spec (size log) (total es + len)); simpl.
  - unfold get_next_entry.
    destruct (get_next_entry_loop_ok log Hsize Hbuf (S (Z.to_nat len)) p 0 len es)
      as (p' & E & R & En & M); try done; try lia.
    exists p'. split; [done|]. split; [done|done|congruence|].
    pose proof (drop_entries_total 0 len es). lia.
  - by exists p.
Qed.

Lemma fix_up_reader_list_ok rs qs :
  Forall2 (fun r q => r_id r = fst q /\ pending log (r_off r) (snd q)) rs qs ->
  exists rs', fix_up_reader_list log (w_off log) new len rs = Some rs' /\
    Forall2 (fun r q => r_id r = fst q /\ pending log (r_off r) (snd q)) rs'
      (map (fun q => (fst q, evict (size log) len (snd q))) qs).
Proof.
  induction 1 as [|r q rs qs (Hid & Hp) _ IH]; simpl; [by exists []|].
  destruct (fix_up_offset_ok _ _ Hp) as (p' & -> & Hp'). simpl.
  destruct IH as (rs' & -> & IH). simpl. eexists. split; [done|]. by constructor.
Qed.
End FixUp.

(** [pending] does not look at the readers. *)
Lemma pending_same log log' p es :
  buffer log' = buffer log -> size log' = size log -> w_off log' = w_off log ->
  pending log p es -> pending log' p es.
Proof. intros Eb Es Ew [? ? ? ?]. split; rewrite ?Eb, ?Es, ?Ew; done. Qed.

Lemma refines_readers_impl (P Q : Z -> list (list Z) -> Prop) rs qs :
  (forall p es, P p es -> Q p es) ->
  Forall2 (fun r q => r_id r = fst q /\ P (r_off r) (snd q)) rs qs ->
  Forall2 (fun r q => r_id r = fst q /\ Q (r_off r) (snd q)) rs qs.
Proof. intros H HF. eapply Forall2_impl; [exact HF|]. intros r q (? & ?). auto. Qed.

Lemma fix_up_readers_ok log a len :
  refines log a -> 0 < len <= LOGGER_ENTRY_MAX_LEN ->
  exists log', fix_up_readers log len = Some log' /\
    buffer log' = buffer log /\ size log' = size log /\ w_off log' = w_off log /\
    refines log' (a_evict (size log) len a).
Proof.
  intros [Hs Hb Hw Hh Hr] Hlen. unfold fix_up_readers. rewrite (offset_mod log Hs).
  destruct (fix_up_offset_ok log Hs Hb Hw len Hlen _ _ Hh) as (h & -> & Hh'). simpl.
  destruct (fix_up_reader_list_ok log Hs Hb Hw len Hlen _ _ Hr) as (rs & -> & Hr'). simpl.
  eexists. split; [done|]. do 3 (split; [done|]). split; simpl; try done.
  - eapply pending_same; [..|exact Hh']; done.
  - eapply refines_readers_impl; [|exact Hr'].
    intros. eapply pending_same; [..|eassumption]; done.
Qed.

(** ** Writes move the write head over what they write *)

(** [log'] is [log] after [bs] were written at the write head. *)
Definition appended (log log' : logger_log) (bs : list Z) : Prop :=
  readers log' = readers log /\ head log' = head log /\ size log' = size log /\
  ring_wrote (size log) (buffer log) (buffer log') (w_off log) bs.

Lemma do_write_log_ok log buf count :
  valid_size (size log) -> zlen (buffer log) = size log -> 0 <= w_off log < size log ->
  count = zlen buf -> count <= size log ->
  exists log', do_write_log log buf count = Some log' /\ appended log log' buf /\
    w_off log' = (w_off log + count) mod size log.
Proof.
  intros Hs Hb Hw Hc Hcs. pose proof (zlen_nonneg buf). pose proof (size_u32 log Hs).
  pose proof (log_size_pos log Hs). unfold do_write_log. u32_small.
  destruct (copy_in_ok (size log) ltac:(lia) (buffer log) (w_off log) buf count)
    as (b & E & W); [lia..|].
  unfold copy_in in E. destruct (memcpy (buffer log) _ buf 0 _) as [b1|] eqn:E1; [|done].
  simpl in E |- *. set (l := Z.min count (size log - w_off log)) in *.
  assert (E2 : (if negb (count =? l) then memcpy b1 0 buf l (count - l) else Some b1) = Some b).
  { destruct (Z.eqb_spec count l) as [Hcl|]; [|done]. simpl. rewrite <- E.
    rewrite <- Hcl, Z.sub_diag. symmetry. apply memcpy_0; [|lia].
    pose proof (zlen_nonneg b1). lia. }
  rewrite E2. simpl. eexists. split; [done|]. split; [|simpl; by apply offset_mod_pow2].
  split; [done|]. split; [done|]. split; [done|].
  replace (take (Z.to_nat count) buf) with buf in W; [done|].
  rewrite Hc. unfold zlen. rewrite Nat2Z.id. symmetry. apply firstn_all.
Qed.

Lemma appended_nil log : appended log log [].
Proof. repeat split; try done. intros i Hi. unfold zlen. simpl. zbool. Qed.

Lemma appended_trans log l1 l2 s1 s2 :
  0 < size log -> zlen s1 + zlen s2 <= size log ->
  appended log l1 s1 -> w_off l1 = (w_off log + zlen s1) mod size log ->
  appended l1 l2 s2 -> appended log l2 (s1 ++ s2).
Proof.
  intros HS Hz (R1 & H1 & S1 & W1) Hw (R2 & H2 & S2 & W2).
  split; [congruence|]. split; [congruence|]. split; [congruence|].
  eapply ring_wrote_app; [done|done|exact W1|].
  rewrite S1 in W2. eapply ring_wrote_congr; [done| |exact W2].
  rewrite Hw, Z.mod_mod by lia. done.
Qed.

(** The copy up to the end of the buffer is skipped when it is empty. *)
Lemma first_chunk_ring S b w bs l :
  zlen b = S -> 0 <= w < S -> zlen bs = l -> w + l <= S ->
  exists b', (if negb (l =? 0) then write_bytes b w bs else Some b) = Some b' /\
             ring_wrote S b b' w bs.
Proof.
  intros Hb Hw Hl Hs. destruct (Z.eqb_spec l 0) as [Hl0|]; simpl.
  - exists b. split; [done|].
    assert (bs = []) as -> by (destruct bs; [done|unfold zlen in Hl; simpl in Hl; lia]).
    apply ring_wrote_nil.
  - apply write_bytes_ring; lia.
Qed.

(** The copy at the start of the buffer goes on where the first one ended. *)
Lemma second_chunk_ring S b w bs :
  zlen b = S -> 0 < S -> w = S -> zlen bs <= S ->
  exists b', write_bytes b 0 bs = Some b' /\ ring_wrote S b b' w bs.
Proof.
  intros Hb HS Hw Hs. destruct (write_bytes_ring S b 0 bs) as (b' & E & W); [lia..|].
  exists b'. split; [done|]. eapply ring_wrote_congr; [done| |exact W].
  rewrite Hw, Z_mod_same_full. apply Z.mod_0_l. lia.
Qed.

Section UserWrite.
Context (beyond : Z -> Z).

(** What a segment write leaves in the log when it succeeds and when it faults. *)
Definition wrote_from_user (log log' : logger_log) (u : list Z) (count ret : Z) : Prop :=
  (ret = count /\ (count = 0 \/ count <= zlen u) /\ appended log log' (take (Z.to_nat count) u) /\
   w_off log' = (w_off log + count) mod size log) \/
  (ret = - EFAULT /\ zlen u < count /\ exists bs, zlen bs <= count /\ appended log log' bs).

Lemma do_write_log_from_user_ok log klog u count :
  valid_size (size log) -> zlen (buffer log) = size log -> 0 <= w_off log < size log ->
  0 <= count <= size log ->
  exists log' klog' ret,
    do_write_log_from_user beyond log klog u count = Some (log', klog', ret) /\
    wrote_from_user log log' u count ret.
Proof.
  intros Hs Hb Hw Hc. pose proof (size_u32 log Hs). pose proof (log_size_pos log Hs).
  unfold do_write_log_from_user. cbv zeta.
  rewrite (u32_id (size log - w_off log)) by (unfold is_u32; lia).
  set (l := Z.min count (size log - w_off log)).
  rewrite (u32_id (count - l)) by (unfold is_u32; lia).
  pose proof (copy_from_user_len u 0 l ltac:(lia)) as L1.
  pose proof (copy_from_user_ok u 0 l ltac:(lia) ltac:(lia)) as O1.
  pose proof (copy_from_user_full u 0 l ltac:(lia) ltac:(lia)) as F1.
  destruct (copy_from_user u 0 l) as [bs1 left1]; simpl in L1, O1, F1.
  pose proof (copy_from_user_len u l (count - l) ltac:(lia)) as L2.
  pose proof (copy_from_user_ok u l (count - l) ltac:(lia) ltac:(lia)) as O2.
  pose proof (copy_from_user_full u l (count - l) ltac:(lia) ltac:(lia)) as F2.
  destruct (copy_from_user u l (count - l)) as [bs2 left2]; simpl in L2, O2, F2.
  destruct (first_chunk_ring (size log) (buffer log) (w_off log) bs1 l)
    as (b & -> & Wb); [lia..|]. simpl.
  destruct (Z.eqb_spec left1 0) as [Hl1|Hl1].
  2:{ assert (Hln : l <> 0) by (intros Hl0; apply Hl1, F1; pose proof (zlen_nonneg u); lia).
      rewrite (proj2 (Z.eqb_neq l 0) Hln). simpl. eexists _, _, _. split; [done|].
      right. split; [done|]. split; [lia|]. exists bs1. split; [lia|]. done. }
  rewrite andb_false_r. specialize (O1 Hl1) as [-> Hu1]. rewrite drop_0 in *.
  assert (Lb : zlen b = size log) by (destruct Wb; lia).
  destruct (Z.eqb_spec count l) as [Hcl|Hcl]; simpl.
  { eexists _, _, _. split; [done|]. left. split; [done|]. split; [lia|].
    split; [|by apply (offset_mod log)]. do 3 (split; [done|]). simpl. by rewrite Hcl. }
  destruct (second_chunk_ring (size log) b (w_off log + l) bs2)
    as (b2 & -> & W2); [lia..|]. simpl.
  assert (W3 : ring_wrote (size log) (buffer log) b2 (w_off log) (take (Z.to_nat l) u ++ bs2)).
  { eapply ring_wrote_app; [lia| |exact Wb|]; rewrite L1; [lia|done]. }
  destruct (Z.eqb_spec left2 0) as [Hl2|Hl2]; simpl.
  - specialize (O2 Hl2) as [-> Hu2]. eexists _, _, _. split; [done|]. left.
    split; [done|]. split; [lia|]. split; [|by apply (offset_mod log)].
    do 3 (split; [done|]). simpl. rewrite take_split in W3 by lia. done.
  - eexists _, _, _. split; [done|]. right. split; [done|].
    split; [apply Z.nle_gt; intros ?; apply Hl2, F2; lia|].
    exists (take (Z.to_nat l) u ++ bs2). rewrite zlen_app. split; [lia|]. done.
Qed.
End UserWrite.

(** ** A whole write *)

(** The bytes an [iovec] array contributes to a payload of at most [n] bytes. *)
Fixpoint payload (n : Z) (iov : list iovec) : list Z :=
  match iov with
  | [] => []
  | v :: iov => let l := Z.min (iov_len v) n in
                take (Z.to_nat l) (iov_base v) ++ payload (n - l) iov
  end.

(** Whether all of them can be read. *)
Fixpoint readable (n : Z) (iov : list iovec) : bool :=
  match iov with
  | [] => true
  | v :: iov => let l := Z.min (iov_len v) n in
                ((l =? 0) || (l <=? zlen (iov_base v))) && readable (n - l) iov
  end.

Fixpoint iov_total (iov : list iovec) : Z :=
  match iov with
  | [] => 0
  | v :: iov => iov_len v + iov_total iov
  end.

Definition wf_iov (iov : list iovec) : Prop := Forall (fun v => 0 <= iov_len v) iov.

Lemma iov_total_nonneg iov : wf_iov iov -> 0 <= iov_total iov.
Proof. induction 1; simpl; lia. Qed.

Lemma payload_len n iov :
  0 <= n -> wf_iov iov -> readable n iov = true ->
  zlen (payload n iov) = Z.min n (iov_total iov).
Proof.
  intros Hn Hiov. revert n Hn. induction Hiov as [|v iov Hv Hiov IH]; intros n Hn; simpl.
  - unfold zlen. simpl. lia.
  - pose proof (iov_total_nonneg iov Hiov). set (l := Z.min (iov_len v) n).
    rewrite andb_true_iff, orb_true_iff, Z.eqb_eq, Z.leb_le. intros (Hl & Hr).
    pose proof (zlen_nonneg (iov_base v)).
    rewrite zlen_app, IH, zlen_take by (done || lia). lia.
Qed.

(** The state of the log after the loop over the segments. *)
Record segments_written (log log' : logger_log) (n : Z) (iov : list iovec)
    (orig ret ret' : Z) (ok : bool) : Prop := {
  sw_ok : ok = readable n iov;
  sw_wrote : exists bs, zlen bs <= n /\ appended log log' bs /\
    (ok = true -> bs = payload n iov /\ ret' = ret + zlen bs /\
                  w_off log' = (w_off log + zlen bs) mod size log) /\
    (ok = false -> ret' = - EFAULT /\ w_off log' = orig);
}.

Lemma set_w_off_appended log log' bs w : appended log log' bs -> appended log (set_w_off log' w) bs.
Proof. done. Qed.

Lemma write_segments_ok beyond iov log klog hlen orig ret :
  valid_size (size log) -> zlen (buffer log) = size log -> 0 <= w_off log < size log ->
  wf_iov iov -> 0 <= ret <= hlen -> hlen <= LOGGER_ENTRY_MAX_PAYLOAD ->
  exists log' klog' ret' ok,
    write_segments beyond log klog iov hlen orig ret = Some (log', klog', ret', ok) /\
    segments_written log log' (hlen - ret) iov orig ret ret' ok.
Proof.
  intros Hs Hb Hw Hiov. revert log klog ret Hs Hb Hw.
  induction Hiov as [|v iov Hv Hiov IH]; intros log klog ret Hs Hb Hw Hret Hhl; simpl.
  { eexists _, _, _, _. split; [done|]. split; [done|]. exists []. split; [unfold zlen; simpl; lia|].
    split; [apply appended_nil|]. split; [|done]. intros _. split; [done|].
    unfold zlen. simpl. rewrite !Z.add_0_r, Z.mod_small by lia. done. }
  pose proof (valid_size_2 _ Hs) as H2. pose proof (log_size_pos log Hs).
  unfold LOGGER_ENTRY_MAX_PAYLOAD, LOGGER_ENTRY_MAX_LEN, sizeof_logger_entry in *.
  rewrite (u32_id (hlen - ret)) by (unfold is_u32; lia).
  set (l := Z.min (iov_len v) (hlen - ret)).
  destruct (do_write_log_from_user_ok beyond log klog (iov_base v) l)
    as (log1 & klog1 & nr & -> & [(-> & Hu & A1 & W1)|(-> & Hu & bs & Hbs & A1)]);
    try done; try lia; cbn [mbind option_bind].
  - rewrite (proj2 (Z.ltb_ge l 0)) by lia.
    destruct A1 as (R1 & Hd1 & S1 & Wr1).
    assert (Hm : 0 <= (w_off log + l) mod size log < size log) by (apply Z.mod_pos_bound; lia).
    destruct (IH log1 klog1 (ret + l)) as (log2 & klog2 & ret2 & ok & -> & [Hok (bs & Hbs & A2 & P & Q)]);
      try (rewrite ?S1, ?W1; done || lia); [destruct Wr1; lia|].
    replace (hlen - (ret + l)) with (hlen - ret - l) in * by lia.
    assert (Zt : zlen (take (Z.to_nat l) (iov_base v)) = l)
      by (pose proof (zlen_nonneg (iov_base v)); apply zlen_take; lia).
    eexists _, _, _, _. split; [done|]. split.
    { rewrite Hok. cbn [readable]. fold l. replace ((l =? 0) || (l <=? zlen (iov_base v))) with true; [done|].
      symmetry. rewrite orb_true_iff, Z.eqb_eq, Z.leb_le. lia. }
    exists (take (Z.to_nat l) (iov_base v) ++ bs). rewrite zlen_app, Zt. split; [lia|].
    split; [eapply appended_trans; rewrite ?Zt; [done|lia|by split|done|done]|].
    split; [|done]. intros Hk. destruct (P Hk) as (-> & -> & W2).
    split; [done|]. split; [lia|]. rewrite W2, W1, S1, Zplus_mod_idemp_l. f_equal. lia.
  - unfold EFAULT. simpl. eexists _, _, _, _. split; [done|]. split.
    { cbn [readable]. fold l. replace ((l =? 0) || (l <=? zlen (iov_base v))) with false; [done|].
      pose proof (zlen_nonneg (iov_base v)). symmetry.
      rewrite orb_false_iff, Z.eqb_neq, Z.leb_gt. lia. }
    exists bs. split; [lia|]. split; [by apply set_w_off_appended|]. done.
Qed.

Section Append.
Context (log log' : logger_log) (bs : list Z).
Context (Hs : valid_size (size log)) (Hw : 0 <= w_off log < size log).
Context (A : appended log log' bs).

(** A queue and the new bytes lie side by side on the ring. *)
Lemma append_keeps_entries p es :
  pending log p es -> total es + zlen bs <= size log ->
  entries_at (size log) (buffer log') p es.
Proof.
  intros [Hr He Hend Hfit] Ht. pose proof (log_size_pos log Hs). pose proof (total_nonneg es).
  destruct A as (_ & _ & _ & W).
  assert (Hp : (w_off log + (size log - total es)) mod size log = p mod size log).
  { rewrite <- Hend, Zplus_mod_idemp_l.
    replace (p + total es + (size log - total es)) with (p + 1 * size log) by lia.
    apply Z_mod_plus_full. }
  eapply entries_at_congr; [done|exact Hp|].
  eapply entries_at_frame; [exact W|lia|lia|].
  eapply entries_at_congr; [done|symmetry; exact Hp|done].
Qed.

Lemma pending_append_fail p es :
  pending log p es -> total es + zlen bs <= size log -> w_off log' = w_off log ->
  pending log' p es.
Proof.
  intros Hp Ht Hw'. pose proof (append_keeps_entries p es Hp Ht) as He.
  destruct A as (_ & _ & Hsz & _). destruct Hp as [Hr _ Hend Hfit].
  split; rewrite ?Hsz, ?Hw'; done.
Qed.

Lemma pending_append p es :
  pending log p es -> total es + zlen bs < size log -> wf_entry bs ->
  w_off log' = (w_off log + zlen bs) mod size log ->
  pending log' p (es ++ [bs]).
Proof.
  intros Hp Ht Hwf Hw'. pose proof (append_keeps_entries p es Hp ltac:(lia)) as He.
  pose proof (log_size_pos log Hs). destruct A as (_ & _ & Hsz & W).
  destruct Hp as [Hr _ Hend Hfit]. pose proof (zlen_nonneg bs). pose proof (total_nonneg es).
  split; rewrite ?Hsz, ?total_app; simpl; rewrite ?Z.add_0_r; try done.
  - rewrite entries_at_app. split; [done|]. simpl. split; [done|]. split; [|done].
    rewrite <- (ring_read_mod (size log)), Hend by done.
    apply (ring_wrote_read (size log) (buffer log)); [lia|done].
  - rewrite Hw', <- Hend, Zplus_mod_idemp_l. f_equal. lia.
Qed.
End Append.

Lemma znth_le_bytes_2 x rest :
  0 <= x < 65536 ->
  znth (le_bytes 2 x ++ rest) 0 + 256 * znth (le_bytes 2 x ++ rest) 1 = x.
Proof.
  intros Hx. unfold znth. simpl. rewrite (Z.mod_small (x / 256)).
  - pose proof (Z.div_mod x 256). lia.
  - split; [apply Z.div_pos; lia|apply Z.div_lt_upper_bound; lia].
Qed.

Lemma entry_bytes_len h : zlen (entry_bytes h) = sizeof_logger_entry.
Proof. done. Qed.

Lemma entry_wf c n p :
  0 < n -> zlen p = Z.min n LOGGER_ENTRY_MAX_PAYLOAD -> wf_entry (entry_bytes (make_header c n) ++ p).
Proof.
  intros Hn Hp. split.
  - rewrite zlen_app, entry_bytes_len.
    unfold LOGGER_ENTRY_MAX_PAYLOAD, LOGGER_ENTRY_MAX_LEN, sizeof_logger_entry in *. lia.
  - rewrite zlen_app, entry_bytes_len. f_equal. unfold entry_bytes. rewrite <- !app_assoc.
    rewrite znth_le_bytes_2; [done|]. simpl.
    unfold LOGGER_ENTRY_MAX_PAYLOAD, LOGGER_ENTRY_MAX_LEN, sizeof_logger_entry in *. lia.
Qed.

(** A property of every queue. *)
Definition a_all (P : list (list Z) -> Prop) (a : alog) : Prop :=
  P (a_head a) /\ Forall (fun q => P (snd q)) (a_readers a).

Lemma refines_all log a P :
  refines log a -> (forall p es, pending log p es -> P es) -> a_all P a.
Proof.
  intros [_ _ _ Ph Pr] HP. split; [eauto|].
  induction Pr as [|r q rs qs (_ & ?) _ IH]; constructor; eauto.
Qed.

Lemma a_all_map P f a : a_all (fun es => P (f es)) a -> a_all P (a_map f a).
Proof. intros [Hh Hr]. split; [done|]. simpl. apply Forall_fmap. done. Qed.

(** Every queue of a log changes the same way. *)
Lemma refines_map (P : list (list Z) -> Prop) f log log' a :
  valid_size (size log') -> zlen (buffer log') = size log' -> 0 <= w_off log' < size log' ->
  head log' = head log -> readers log' = readers log ->
  (forall p es, P es -> pending log p es -> pending log' p (f es)) ->
  a_all P a -> refines log a -> refines log' (a_map f a).
Proof.
  intros Hs Hb Hw Hh Hr Hf [Ah Ar] [_ _ _ Ph Pr]. split; simpl; try done.
  - rewrite Hh. auto.
  - rewrite Hr. clear Hr. apply Forall2_fmap_r.
    induction Pr as [|r q rs qs (? & ?) _ IH]; constructor; inversion_clear Ar; simpl; auto.
Qed.

Lemma a_map_map f g a : a_map g (a_map f a) = a_map (fun es => g (f es)) a.
Proof. unfold a_map. simpl. f_equal. rewrite map_map. done. Qed.

(** After [fix_up_readers] every queue leaves room for the entry. *)
Lemma a_evict_fits log a len :
  refines log a -> 0 < len <= LOGGER_ENTRY_MAX_LEN ->
  a_all (fun es => total es + len < size log) (a_evict (size log) len a).
Proof.
  intros R Hl. apply a_all_map. eapply refines_all; [done|]. intros p es [_ _ _ Hf].
  pose proof (valid_size_2 _ (rf_size _ _ R)). apply evict_fits; lia.
Qed.

(** What a call of [logger_aio_write] does to the ring, for any [orig]: the readers
    are fixed up, then the header and as much of the payload as could be read are
    in the ring at the old write head. *)
Lemma write_runs beyond log a klog orig c ki_left iov :
  refines log a -> wf_iov iov -> 0 < ki_left ->
  let n := Z.min ki_left LOGGER_ENTRY_MAX_PAYLOAD in
  let len := sizeof_logger_entry + n in
  exists log1 r bs,
    logger_aio_write beyond log klog orig c ki_left iov = Some r /\
    size log1 = size log /\ w_off log1 = w_off log /\ refines log1 (a_evict (size log) len a) /\
    appended log1 (wr_log r) (entry_bytes (make_header c ki_left) ++ bs) /\ zlen bs <= n /\
    if readable n iov
    then bs = payload n iov /\ wr_ret r = zlen bs /\
         w_off (wr_log r) = (w_off log + (sizeof_logger_entry + zlen bs)) mod size log
    else wr_ret r = - EFAULT /\ w_off (wr_log r) = orig.
Proof.
  intros R Hiov Hki n len. unfold logger_aio_write. cbn [make_header e_len]. fold n.
  assert (Hn : 0 < n <= 4076)
    by (unfold n, LOGGER_ENTRY_MAX_PAYLOAD, LOGGER_ENTRY_MAX_LEN, sizeof_logger_entry; lia).
  rewrite (proj2 (Z.eqb_neq n 0)) by lia. set (h := entry_bytes _). fold len.
  assert (Hlen : 0 < len <= LOGGER_ENTRY_MAX_LEN)
    by (unfold len, LOGGER_ENTRY_MAX_LEN, sizeof_logger_entry in *; lia).
  rewrite u32_id by (unfold is_u32, LOGGER_ENTRY_MAX_LEN in *; lia).
  destruct (fix_up_readers_ok log a len R Hlen) as (log1 & -> & Eb & Es & Ew & R1).
  cbn [mbind option_bind]. pose proof (rf_size _ _ R1) as Hs1.
  pose proof (valid_size_2 _ Hs1) as H2. unfold LOGGER_ENTRY_MAX_LEN in H2.
  pose proof (log_size_pos log1 Hs1) as HS1. pose proof (rf_buf _ _ R1). pose proof (rf_w _ _ R1).
  destruct (do_write_log_ok log1 h sizeof_logger_entry) as (log2 & -> & A2 & W2);
    try done; [unfold sizeof_logger_entry; lia|].
  cbn [mbind option_bind]. pose proof A2 as (Rd2 & Hd2 & S2 & [L2 _]).
  destruct (write_segments_ok beyond iov log2 klog n orig 0)
    as (log3 & klog3 & ret & ok & -> & [Hok (bs & Hbs & A3 & P & Q)]);
    rewrite ?S2; try done; try lia;
    [rewrite W2; apply Z.mod_pos_bound; lia|].
  rewrite Z.sub_0_r in *. cbn [mbind option_bind]. eexists log1, _, bs. split; [done|].
  cbn [wr_log wr_ret]. do 3 (split; [done|]). split; [|split; [done|]].
  { eapply appended_trans; [done| |exact A2|exact W2|exact A3].
    change (zlen h) with 20. lia. }
  subst ok. destruct (readable n iov); [|auto].
  destruct (P eq_refl) as (-> & -> & W3). split; [done|]. split; [done|].
  rewrite W3, W2, S2, Zplus_mod_idemp_l, Ew, Es, Z.add_assoc. done.
Qed.

(** How far a successful small write moves the write head. *)
Lemma write_advances beyond log a klog c iov r :
  refines log a -> wf_iov iov -> 0 < iov_total iov <= LOGGER_ENTRY_MAX_PAYLOAD ->
  readable (iov_total iov) iov = true ->
  logger_aio_write beyond log klog (w_off log) c (iov_total iov) iov = Some r ->
  size (wr_log r) = size log /\
  w_off (wr_log r) = (w_off log + (sizeof_logger_entry + iov_total iov)) mod size log.
Proof.
  intros R Hiov Ht Hrd E.
  destruct (write_runs beyond log a klog (w_off log) c (iov_total iov) iov R Hiov ltac:(lia))
    as (log1 & r' & bs & E' & Es & Ew & _ & (_ & _ & S3 & _) & _ & Hres).
  rewrite Z.min_l in Hres by lia. rewrite Hrd in Hres. rewrite E in E'. injection E' as <-.
  destruct Hres as (-> & _ & ->). rewrite payload_len, Z.min_id by (done || lia).
  split; [congruence|done].
Qed.

(** The write refines the abstract one when [orig] is the current write head. *)
Lemma write_refines beyond log a klog c ki_left iov :
  refines log a -> wf_iov iov -> 0 < ki_left -> ki_left = iov_total iov ->
  let n := Z.min ki_left LOGGER_ENTRY_MAX_PAYLOAD in
  exists r, logger_aio_write beyond log klog (w_off log) c ki_left iov = Some r /\
    if readable n iov
    then wr_ret r = n /\ refines (wr_log r)
           (a_write (size log) (entry_bytes (make_header c ki_left) ++ payload n iov) a)
    else wr_ret r = - EFAULT /\
         refines (wr_log r) (a_evict (size log) (sizeof_logger_entry + n) a).
Proof.
  intros R Hiov Hki Htot n.
  destruct (write_runs beyond log a klog (w_off log) c ki_left iov R Hiov Hki)
    as (log1 & r & bs & E & Es & Ew & R1 & A & Hbs & Hres). fold n in R1, Hbs, Hres.
  set (len := sizeof_logger_entry + n) in *. exists r. split; [done|].
  assert (Hn : 0 < n) by (unfold n, LOGGER_ENTRY_MAX_PAYLOAD, LOGGER_ENTRY_MAX_LEN, sizeof_logger_entry; lia).
  assert (Hlen : 0 < len <= LOGGER_ENTRY_MAX_LEN)
    by (unfold len, n, LOGGER_ENTRY_MAX_PAYLOAD, LOGGER_ENTRY_MAX_LEN, sizeof_logger_entry; lia).
  pose proof (a_evict_fits log a len R Hlen) as Fit.
  pose proof (rf_size _ _ R1) as Hs1. pose proof (rf_w _ _ R1) as Hw1. pose proof (log_size_pos _ Hs1).
  assert (Zh : zlen (entry_bytes (make_header c ki_left) ++ bs) = sizeof_logger_entry + zlen bs)
    by (rewrite zlen_app; done).
  pose proof A as (Rd & Hd & S3 & [L3 _]). rewrite (rf_buf _ _ R1), <- S3 in L3.
  destruct (readable n iov) eqn:Hrd.
  - destruct Hres as (-> & Hret & W3).
    assert (Zp : zlen (payload n iov) = n) by (rewrite payload_len; try done; lia).
    rewrite Zp in *. split; [done|]. unfold a_write. rewrite Zh. fold len.
    rewrite <- (a_map_map (evict (size log) len) (fun es => es ++ [_])).
    eapply refines_map; [..|exact Fit|exact R1]; rewrite ?S3, ?W3; try done.
    + congruence.
    + rewrite Es. apply Z.mod_pos_bound. lia.
    + intros p es Hf Hp. eapply pending_append; try done; rewrite ?Zh; [rewrite Es; exact Hf| |].
      * apply entry_wf; [lia|done].
      * rewrite W3, Es, Ew. done.
  - destruct Hres as (Hret & W3). split; [done|].
    replace (a_evict (size log) len a) with (a_map (fun es => es) (a_evict (size log) len a)).
    2:{ unfold a_evict. rewrite a_map_map. done. }
    eapply refines_map; [..|exact Fit|exact R1]; rewrite ?S3, ?W3; try done;
      [congruence|lia|].
    intros p es Hf Hp. eapply pending_append_fail; try done; [|congruence].
    rewrite Zh, Es. unfold len in Hf. lia.
Qed.

(** ** Reading *)

Section Read.
Context (log : logger_log) (Hs : valid_size (size log)).
Context (Hb : zlen (buffer log) = size log).

Lemma do_read_log_to_user_ok off u count :
  0 <= off < size log -> 0 <= count <= size log -> count <= zlen u ->
  do_read_log_to_user log off u count =
  Some ((off + count) mod size log,
        ring_read (size log) (buffer log) off count ++ drop (Z.to_nat count) u, count).
Proof.
  intros Ho Hc Hu. pose proof (log_size_pos log Hs). pose proof (size_u32 log Hs).
  unfold do_read_log_to_user. cbv zeta.
  rewrite (u32_id (size log - off)) by (unfold is_u32; lia).
  set (l := Z.min count (size log - off)).
  rewrite (u32_id (count - l)) by (unfold is_u32; lia).
  rewrite (read_bytes_ring (size log) (buffer log) off l) by lia. cbn [mbind option_bind].
  assert (L1 : zlen (ring_read (size log) (buffer log) off l) = l) by (apply ring_read_zlen; lia).
  rewrite copy_to_user_ok by lia. rewrite L1, Z.add_0_l. cbn [negb Z.eqb].
  change (take (Z.to_nat 0) u) with (@nil Z). rewrite app_nil_l.
  rewrite (offset_mod log Hs). destruct (Z.eqb_spec count l) as [Hcl|Hne]; [by rewrite <- Hcl|]. cbn [negb].
  rewrite (read_bytes_ring_wrap (size log) ltac:(lia) (buffer log) off l count) by lia.
  cbn [mbind option_bind].
  assert (L2 : zlen (ring_read (size log) (buffer log) (off + l) (count - l)) = count - l)
    by (apply ring_read_zlen; lia).
  rewrite copy_to_user_ok, L2 by (rewrite ?zlen_app, ?zlen_drop; lia).
  cbn [negb Z.eqb]. rewrite Zplus_minus. do 3 f_equal.
  replace count with (l + (count - l)) at 3 by lia. rewrite ring_read_app, <- app_assoc by lia.
  f_equal; [|f_equal].
  - rewrite take_app_length'; [done|]. unfold zlen in L1. lia.
  - rewrite drop_app_ge by (unfold zlen in L1; lia).
    rewrite drop_drop. f_equal. unfold zlen in L1. lia.
Qed.

Lemma do_read_log_to_user_fault off u count :
  0 <= off < size log -> 0 <= count <= size log -> zlen u < count ->
  exists u', do_read_log_to_user log off u count = Some (off, u', - EFAULT).
Proof.
  intros Ho Hc Hu. pose proof (log_size_pos log Hs). pose proof (size_u32 log Hs).
  pose proof (zlen_nonneg u). unfold do_read_log_to_user. cbv zeta.
  rewrite (u32_id (size log - off)) by (unfold is_u32; lia).
  set (l := Z.min count (size log - off)).
  rewrite (u32_id (count - l)) by (unfold is_u32; lia).
  rewrite (read_bytes_ring (size log) (buffer log) off l) by lia. cbn [mbind option_bind].
  assert (L1 : zlen (ring_read (size log) (buffer log) off l) = l) by (apply ring_read_zlen; lia).
  destruct (Z.ltb_spec (zlen u) l).
  - pose proof (copy_to_user_fault u 0 _ ltac:(lia) ltac:(rewrite L1; lia)) as F.
    destruct (copy_to_user u 0 _) as [u1 left1]. simpl in F.
    rewrite (proj2 (Z.eqb_neq left1 0) F). by exists u1.
  - rewrite copy_to_user_ok by lia. rewrite L1. cbn [negb Z.eqb].
    rewrite (proj2 (Z.eqb_neq count l)) by lia. cbn [negb].
    rewrite (read_bytes_ring_wrap (size log) ltac:(lia) (buffer log) off l count) by lia.
    cbn [mbind option_bind]. set (u1 := _ ++ _).
    assert (L2 : zlen (ring_read (size log) (buffer log) (off + l) (count - l)) = count - l)
      by (apply ring_read_zlen; lia).
    assert (Lu : zlen u1 = zlen u)
      by (unfold u1; simpl; rewrite zlen_app, zlen_drop; lia).
    pose proof (copy_to_user_fault u1 l _ ltac:(lia) ltac:(rewrite L2; lia)) as F.
    destruct (copy_to_user u1 l _) as [u2 left2]. simpl in F.
    rewrite (proj2 (Z.eqb_neq left2 0) F). by exists u2.
Qed.
End Read.

(** The first entry of a queue is not at the write head. *)
Lemma pending_cons log p e es :
  valid_size (size log) -> zlen (buffer log) = size log -> pending log p (e :: es) ->
  w_off log <> p /\ 20 <= zlen e <= 4096 /\ get_entry_len log p = Some (zlen e).
Proof.
  intros Hs Hb [Hr He Hend Hfit]. pose proof He as ((Hl & _) & _ & _). pose proof (log_size_pos log Hs).
  pose proof (total_nonneg es). unfold sizeof_logger_entry, LOGGER_ENTRY_MAX_LEN in Hl.
  simpl in Hend, Hfit.
  split; [|split; [lia|by eapply get_entry_len_entry]].
  intros Hw. rewrite Hw in Hend.
  assert (p + (zlen e + total es) < p + size log) by lia.
  destruct (Z.ltb_spec (p + (zlen e + total es)) (size log)).
  - rewrite Z.mod_small in Hend; lia.
  - assert ((p + (zlen e + total es)) mod size log = p + (zlen e + total es) - size log)
      by (symmetry; apply (Z.mod_unique _ _ 1); lia). lia.
Qed.

Lemma pending_tail log p e es :
  valid_size (size log) -> pending log p (e :: es) ->
  pending log ((p + zlen e) mod size log) es.
Proof.
  intros Hs [Hr He Hend Hfit]. destruct He as (Hw & _ & He). pose proof (log_size_pos log Hs).
  pose proof (zlen_nonneg e). simpl in Hend, Hfit. split.
  - apply Z.mod_pos_bound. lia.
  - eapply entries_at_congr; [done| |exact He]. rewrite Z.mod_mod by lia. done.
  - rewrite Zplus_mod_idemp_l, <- Hend. f_equal. lia.
  - lia.
Qed.

Lemma pending_nil log p : pending log p [] -> w_off log = p.
Proof.
  intros [Hr _ Hend _]. simpl in Hend. rewrite Z.add_0_r, Z.mod_small in Hend by lia. done.
Qed.

(** The number of entries [get_next_entry] passes is the least that is enough. *)
Lemma drop_entries_minimal count len es :
  0 <= count < len -> len <= count + total es ->
  exists k, drop_entries count len es = drop k es /\ (0 < k)%nat /\
    len <= count + total (take k es) /\ count + total (take (k - 1) es) < len.
Proof.
  revert count. induction es as [|e es IH]; intros count Hc Hl; simpl in *; [lia|].
  destruct (Z.ltb_spec (count + zlen e) len).
  - destruct (IH (count + zlen e)) as (k & -> & Hk & H1 & H2); [pose proof (zlen_nonneg e); lia|lia|].
    exists (S k). split; [done|]. split; [lia|]. split; [simpl; lia|].
    destruct k as [|k]; [lia|]. simpl in *. rewrite Nat.sub_0_r in H2. lia.
  - exists 1%nat. simpl. repeat split; lia.
Qed.

Lemma refines_remap log log' a rs qs :
  refines log a -> buffer log' = buffer log -> size log' = size log -> w_off log' = w_off log ->
  pending log' (head log') (a_head a) ->
  readers log' = rs ->
  Forall2 (fun r q => r_id r = fst q /\ pending log' (r_off r) (snd q)) rs qs ->
  refines log' (mk_alog (a_head a) qs).
Proof.
  intros [Hs Hb Hw _ _] Eb Es Ew Hh Hr HF. split; rewrite ?Eb, ?Es, ?Ew, ?Hr; done.
Qed.

(** A position at the write head has nothing to read. *)
Lemma pending_at_w log log' :
  buffer log' = buffer log -> size log' = size log -> w_off log' = w_off log ->
  0 <= w_off log < size log -> pending log' (w_off log) [].
Proof.
  intros Eb Es Ew Hw. split; simpl; rewrite ?Es, ?Ew; try done; [|lia].
  rewrite Z.add_0_r. by apply Z.mod_small.
Qed.

(** Byte [i] of what the tracing code copies. *)
Lemma znth_peek_bytes beyond log i n j rest :
  0 <= j < Z.of_nat n -> znth (peek_bytes beyond log i n ++ rest) j = peek beyond log (i + j).
Proof.
  revert i j. induction n as [|n IH]; intros i j Hj; [lia|]. simpl.
  destruct (decide (j = 0)) as [->|Hne]; [unfold znth; simpl; f_equal; lia|].
  unfold znth. replace (Z.to_nat j) with (S (Z.to_nat (j - 1))) by lia. simpl.
  specialize (IH (i + 1) (j - 1)). unfold znth in IH. rewrite IH by lia. f_equal. lia.
Qed.

Lemma length_peek_bytes beyond log i n : length (peek_bytes beyond log i n) = n.
Proof. revert i. induction n; intros i; simpl; auto. Qed.

(** After a successful segment write the trace buffer is the one [update_klog]
    makes from the ring with the segment in it. *)
Lemma written_klog beyond log klog u count log' klog' :
  do_write_log_from_user beyond log klog u count = Some (log', klog', count) -> 0 <= count ->
  exists b, b = buffer log' /\ klog' = update_klog beyond (set_buffer log b) klog count.
Proof.
  unfold do_write_log_from_user, EFAULT. intros E Hc.
  repeat (case_match; simplify_option_eq; try lia); eauto.
Qed.

(** ** Theorems *)

(** C18. A write refines the abstract log: on success the return value is the
    payload length and every reader's queue (and [head]'s) has lost only what
    [evict] drops to make room and has gained exactly the new entry, header and
    payload; if user memory cannot be read the return value is [-EFAULT] and the
    queues have only lost what was evicted: the half-written entry is invisible.
    No access leaves the buffer.  [orig] is the write head, so nothing ran between
    the unlocked read of it and the lock. *)
Theorem logger_write_refines beyond log a klog c iov :
  refines log a -> wf_iov iov -> 0 < iov_total iov ->
  let n := Z.min (iov_total iov) LOGGER_ENTRY_MAX_PAYLOAD in
  exists r, logger_aio_write beyond log klog (w_off log) c (iov_total iov) iov = Some r /\
    if readable n iov
    then wr_ret r = n /\ refines (wr_log r)
           (a_write (size log) (entry_bytes (make_header c (iov_total iov)) ++ payload n iov) a)
    else wr_ret r = - EFAULT /\
         refines (wr_log r) (a_evict (size log) (sizeof_logger_entry + n) a).
Proof. intros. by apply write_refines. Qed.

(** A reader that has something to read gets exactly its next entry, whole, in
    its buffer, and its offset moves to the rest of its queue. *)
Theorem logger_read_entry log a off e es u count nonblock signal :
  refines log a -> pending log off (e :: es) -> zlen e <= count -> zlen e <= zlen u ->
  exists off', logger_read log off log off u count nonblock signal =
    Some (RReturn off' (e ++ drop (Z.to_nat (zlen e)) u) (zlen e)) /\ pending log off' es.
Proof.
  intros R P Hc Hu. pose proof (rf_size _ _ R) as Hs. pose proof (rf_buf _ _ R) as Hb.
  pose proof (valid_size_2 _ Hs) as H2. unfold LOGGER_ENTRY_MAX_LEN in H2.
  destruct (pending_cons _ _ _ _ Hs Hb P) as (Hne & Hl & E).
  unfold logger_read, logger_read_wait, logger_read_locked.
  rewrite (proj2 (Z.eqb_neq _ _) Hne). cbn [negb]. rewrite E. cbn [mbind option_bind].
  rewrite (proj2 (Z.ltb_ge count (zlen e))) by lia.
  rewrite (do_read_log_to_user_ok log Hs Hb) by (try apply P; lia). cbn [mbind option_bind].
  eexists. split; [|by apply pending_tail]. do 2 f_equal.
  destruct P as [_ (_ & Hr & _) _ _]. by rewrite Hr.
Qed.

(** The other outcomes of a read leave the reader where it is: nothing to
    read gives [-EAGAIN], [-EINTR] or sleep; a request smaller than the entry gives
    [-EINVAL] with the buffer untouched; an unwritable user buffer gives [-EFAULT]. *)
Theorem logger_read_errors log a off es u count nonblock signal :
  refines log a -> pending log off es ->
  match es with
  | [] => logger_read log off log off u count nonblock signal =
          Some (if nonblock then RReturn off u (- EAGAIN)
                else if signal then RReturn off u (- EINTR) else RSleep)
  | e :: _ =>
      (count < zlen e -> logger_read log off log off u count nonblock signal =
                         Some (RReturn off u (- EINVAL))) /\
      (zlen e <= count -> zlen u < zlen e ->
       exists u', logger_read log off log off u count nonblock signal =
                  Some (RReturn off u' (- EFAULT)))
  end.
Proof.
  intros R P. pose proof (rf_size _ _ R) as Hs. pose proof (rf_buf _ _ R) as Hb.
  pose proof (valid_size_2 _ Hs) as H2. unfold LOGGER_ENTRY_MAX_LEN in H2.
  unfold logger_read, logger_read_wait, logger_read_locked. destruct es as [|e es].
  - rewrite (pending_nil _ _ P), Z.eqb_refl. by destruct nonblock, signal.
  - destruct (pending_cons _ _ _ _ Hs Hb P) as (Hne & Hl & E).
    rewrite (proj2 (Z.eqb_neq _ _) Hne). cbn [negb]. rewrite E. cbn [mbind option_bind]. split.
    + intros Hc. by rewrite (proj2 (Z.ltb_lt _ _) Hc).
    + intros Hc Hu. rewrite (proj2 (Z.ltb_ge count (zlen e))) by lia.
      destruct (do_read_log_to_user_fault log Hs Hb off u (zlen e)) as (u' & ->);
        [apply P|lia|lia|]. by exists u'.
Qed.

(** [fix_up_readers] moves a position exactly when the new entry does not fit
    beside its queue, and then past the fewest oldest entries that make [len] bytes. *)
Theorem fix_up_moves_minimally log a p es len :
  refines log a -> pending log p es -> 0 < len <= LOGGER_ENTRY_MAX_LEN ->
  exists p' k,
    fix_up_offset log (w_off log) (logger_offset log (u32 (w_off log + len))) len p = Some p' /\
    pending log p' (drop k es) /\
    (total es + len < size log -> p' = p /\ k = 0%nat) /\
    (size log <= total es + len ->
     len <= total (take k es) /\ total (take (k - 1) es) < len).
Proof.
  intros R P Hlen. destruct R as [Hs Hb Hw _ _]. pose proof (valid_size_2 _ Hs).
  rewrite (offset_mod log Hs).
  destruct (fix_up_offset_ok log Hs Hb Hw len Hlen p es P) as (p' & E & P').
  unfold evict in P'. unfold fix_up_offset in E |- *.
  pose proof (total_nonneg es). destruct P as [Hr He Hend Hfit].
  rewrite (clock_interval_spec log Hs _ len p (total es)) in E |- * by (done || lia).
  destruct (Z.leb_spec (size log) (total es + len)); simpl in E |- *.
  - destruct (drop_entries_minimal 0 len es) as (k & Hk & _ & H1' & H2'); [lia..|].
    exists p', k. rewrite Hk in P'. split; [done|]. split; [done|]. split; [lia|]. lia.
  - injection E as <-. exists p, 0%nat. repeat split; done || lia.
Qed.

(** The unlocked read of the write head is a lost-update race: if another
    writer's entry goes in between it and the lock, and the late writer then
    faults, the write head is set back and the entry already acknowledged to the
    other writer is gone; nothing is left to read although nobody read it. *)
Theorem stale_orig_loses_entry beyond log klog c iovB iovA :
  refines log (mk_alog [] []) -> wf_iov iovB -> wf_iov iovA ->
  0 < iov_total iovB <= 1000 -> 0 < iov_total iovA <= 1000 ->
  readable (iov_total iovB) iovB = true -> readable (iov_total iovA) iovA = false ->
  exists rB rA,
    logger_aio_write beyond log klog (w_off log) c (iov_total iovB) iovB = Some rB /\
    wr_ret rB = iov_total iovB /\
    pending (wr_log rB) (head (wr_log rB))
      [entry_bytes (make_header c (iov_total iovB)) ++ payload (iov_total iovB) iovB] /\
    logger_aio_write beyond (wr_log rB) (wr_klog rB) (w_off log) c (iov_total iovA) iovA = Some rA /\
    wr_ret rA = - EFAULT /\ w_off (wr_log rA) = head (wr_log rA).
Proof.
  intros R WB WA HB HA RB RA.
  assert (HP : 1000 <= LOGGER_ENTRY_MAX_PAYLOAD) by (vm_compute; discriminate).
  destruct (write_refines beyond log _ klog c (iov_total iovB) iovB R WB ltac:(lia) eq_refl)
    as (rB & EB & HrB).
  replace (Z.min (iov_total iovB) LOGGER_ENTRY_MAX_PAYLOAD) with (iov_total iovB) in HrB by lia.
  rewrite RB in HrB. destruct HrB as (RetB & RefB).
  set (eB := entry_bytes _ ++ _) in *.
  assert (ZB : zlen eB = 20 + iov_total iovB)
    by (unfold eB; rewrite zlen_app, payload_len by (done || lia); rewrite Z.min_id; done).
  pose proof (valid_size_2 _ (rf_size _ _ R)) as H2. unfold LOGGER_ENTRY_MAX_LEN in H2.
  assert (Hev : evict (size log) (zlen eB) [] = []).
  { unfold evict. simpl. rewrite (proj2 (Z.leb_gt _ _)); [done|lia]. }
  unfold a_write, a_map in RefB. simpl in RefB. rewrite Hev in RefB. simpl in RefB.
  destruct (write_advances beyond log _ klog c iovB rB R WB ltac:(lia) RB EB) as (SB & WB').
  change sizeof_logger_entry with 20 in WB'. rewrite <- ZB in WB'.
  destruct (write_runs beyond (wr_log rB) _ (wr_klog rB) (w_off log) c (iov_total iovA) iovA
    RefB WA ltac:(lia)) as (log1 & rA & bs & EA & Es & Ew & R1 & A & _ & HrA).
  replace (Z.min (iov_total iovA) LOGGER_ENTRY_MAX_PAYLOAD) with (iov_total iovA) in R1, HrA
    by lia.
  rewrite RA in HrA. destruct HrA as (RetA & WoA).
  exists rB, rA. do 3 (split; [done||apply RefB|]). split; [done|]. split; [done|].
  destruct A as (_ & -> & _ & _). rewrite WoA.
  destruct R1 as [_ _ _ [Hh _ Hend _] _]. simpl in Hend. unfold evict in Hend. simpl in Hend.
  rewrite (proj2 (Z.leb_gt _ _)) in Hend by (unfold sizeof_logger_entry; lia). simpl in Hend.
  rewrite Z.add_0_r, Ew, WB', Es, SB in Hend. symmetry.
  apply (mod_add_cancel (size log) _ _ (zlen eB)); [rewrite <- SB, <- Es; done|apply R|done].
Qed.

(** The distance from a reader to the write head. *)
Lemma pending_distance log off es :
  pending log off es -> 0 <= w_off log < size log -> size log <= 2 ^ 31 ->
  (if off <=? w_off log then w_off log - off else u32 (u32 (size log - off) + w_off log))
  = total es.
Proof.
  intros [Hr _ Hend Hfit] Hw Hsz. pose proof (total_nonneg es).
  assert (Hd : w_off log = if off + total es <? size log then off + total es
                           else off + total es - size log).
  { rewrite <- Hend. zbool; [by apply Z.mod_small; lia|]. symmetry. apply (Z.mod_unique _ _ 1); lia. }
  destruct (Z.ltb_spec (off + total es) (size log)); destruct (Z.leb_spec off (w_off log));
    try lia. u32_norm. u32_small. lia.
Qed.

(** The queries of a log and its flush: [LOGGER_GET_LOG_LEN] is the number of
    bytes in the reader's queue, [LOGGER_GET_NEXT_ENTRY_LEN] the length of its
    first entry or 0, [poll] reports readability exactly when the queue is not
    empty, [LOGGER_FLUSH_LOG] empties every queue, and the wrong mode or an unknown
    command is refused without a change. *)
Theorem logger_queries log a f off es :
  refines log a ->
  find_reader (readers log) (private_data f) = Some off -> pending log off es ->
  logger_ioctl log f LOGGER_GET_LOG_BUF_SIZE = Some (log, size log) /\
  logger_ioctl log f LOGGER_GET_LOG_LEN =
    Some (log, if f_read f then total es else - EBADF) /\
  logger_ioctl log f LOGGER_GET_NEXT_ENTRY_LEN =
    Some (log, if f_read f then match es with [] => 0 | e :: _ => zlen e end else - EBADF) /\
  logger_poll log f =
    Some (Z.lor (Z.lor POLLOUT POLLWRNORM)
                (if f_read f && negb (total es =? 0) then Z.lor POLLIN POLLRDNORM else 0)) /\
  (exists log', logger_ioctl log f LOGGER_FLUSH_LOG =
                  Some (log', if f_write f then 0 else - EBADF) /\
                refines log' (if f_write f then a_flush a else a)) /\
  logger_ioctl log f OTHER_CMD = Some (log, - ENOTTY).
Proof.
  intros R Hfind P. pose proof (rf_size _ _ R) as Hs. pose proof (rf_buf _ _ R) as Hb.
  pose proof (rf_w _ _ R) as Hw. pose proof (size_u32 log Hs) as Hsz.
  assert (Hz : (w_off log =? off) = (total es =? 0)).
  { destruct es as [|e es]; [rewrite (pending_nil _ _ P); simpl; apply Z.eqb_refl|].
    destruct (pending_cons _ _ _ _ Hs Hb P) as (Hne & ? & _). pose proof (total_nonneg es).
    simpl. rewrite (proj2 (Z.eqb_neq _ _) Hne). symmetry. apply Z.eqb_neq. lia. }
  split; [done|]. split; [|split; [|split; [|split; [|done]]]].
  - simpl. destruct (f_read f); simpl; [|done]. rewrite Hfind. simpl.
    by rewrite (pending_distance log off es P Hw Hsz).
  - simpl. destruct (f_read f); simpl; [|done]. rewrite Hfind. simpl.
    destruct es as [|e es]; [by rewrite (pending_nil _ _ P), Z.eqb_refl|].
    destruct (pending_cons _ _ _ _ Hs Hb P) as (Hne & _ & E).
    rewrite (proj2 (Z.eqb_neq _ _) Hne). simpl. by rewrite E.
  - unfold logger_poll. destruct (f_read f); simpl; [|done]. rewrite Hfind. simpl.
    rewrite Hz. by destruct (total es =? 0).
  - simpl. destruct (f_write f); simpl; [|by exists log].
    eexists. split; [done|]. destruct R as [_ _ _ _ Pr]. split; simpl; try done.
    + by eapply pending_at_w.
    + apply Forall2_fmap. eapply Forall2_impl; [exact Pr|]. intros r q (? & _). simpl.
      split; [done|]. by eapply pending_at_w.
Qed.

Lemma device_refines sz : valid_size sz -> refines (define_logger_device sz) (mk_alog [] []).
Proof.
  intros Hs. pose proof (pow2_pos sz (proj1 Hs)). split; simpl; try done.
  unfold zlen. rewrite length_replicate. lia.
Qed.

Lemma valid_sizes : valid_size (256 * 1024) /\ valid_size (64 * 1024).
Proof. split; (split; [|done]); [by exists 18|by exists 16]. Qed.

Lemma release_readers (P : Z -> list (list Z) -> Prop) id rs qs :
  Forall2 (fun r q => r_id r = fst q /\ P (r_off r) (snd q)) rs qs ->
  Forall2 (fun r q => r_id r = fst q /\ P (r_off r) (snd q))
    (List.filter (fun r => negb (Nat.eqb (r_id r) id)) rs)
    (List.filter (fun q => negb (Nat.eqb (fst q) id)) qs).
Proof.
  induction 1 as [|r q rs qs (Hid & Hp) _ IH]; simpl; [constructor|].
  rewrite Hid. destruct (negb (Nat.eqb (fst q) id)); [|done]. by constructor.
Qed.

(** The life of a reader: the four devices start with empty queues; opening a
    log for reading adds a reader whose queue is [head]'s and changes no other;
    releasing it removes it; a minor number of no log gives [-ENODEV] and a failed
    allocation [-ENOMEM], without a change. *)
Theorem logger_open_release :
  (refines log_main (mk_alog [] []) /\ refines log_events (mk_alog [] []) /\
   refines log_radio (mk_alog [] []) /\ refines log_system (mk_alog [] [])) /\
  forall logs a minor_of minor rd wr new,
    (forall i, refines (logs i) (a i)) ->
    match logger_open logs minor_of minor 0 rd wr new with
    | Val (i, log', f) =>
        minor_of i = minor /\ f_read f = rd /\ f_write f = wr /\
        refines log' (if rd then a_open (private_data f) (a i) else a i) /\
        refines (logger_release log' f)
                (if rd then a_release (private_data f) (a_open (private_data f) (a i)) else a i)
    | Err e => (e = ENODEV /\ forall i, minor_of i <> minor) \/ (e = ENOMEM /\ new = None)
    | _ => False
    end.
Proof.
  split.
  { destruct valid_sizes as [H1 H2].
    exact (conj (device_refines _ H1) (conj (device_refines _ H1)
            (conj (device_refines _ H1) (device_refines _ H2)))). }
  intros logs a minor_of minor rd wr new R. unfold logger_open. simpl.
  destruct (get_log_from_minor minor_of minor) as [i|] eqn:Hm.
  2:{ left. split; [done|]. unfold get_log_from_minor in Hm.
      repeat case_match; try done. intros []; by apply Z.eqb_neq. }
  assert (Hi : minor_of i = minor).
  { unfold get_log_from_minor in Hm. repeat case_match; simplify_eq; by apply Z.eqb_eq. }
  destruct rd; simpl; [|do 3 (split; [done|]); split; apply R].
  destruct new as [id|]; [|by right]. do 3 (split; [done|]).
  specialize (R i) as [Hs Hb Hw Hh Hr].
  assert (Hsame : forall rs p es, pending (logs i) p es -> pending (set_readers (logs i) rs) p es)
    by (intros rs p es; by apply pending_same).
  assert (Ho : refines (set_readers (logs i) (readers (logs i) ++ [mk_reader id (head (logs i))]))
                       (a_open id (a i))).
  { split; simpl; [done..|exact (Hsame _ _ _ Hh)|]. apply Forall2_app.
    - eapply Forall2_impl; [exact Hr|]. intros r q (? & ?). split; [done|]. by apply Hsame.
    - constructor; [|constructor]. split; [done|]. exact (Hsame _ _ _ Hh). }
  split; [exact Ho|]. unfold logger_release. simpl.
  destruct Ho as [_ _ _ _ Hr']. split; simpl; [done..|exact (Hsame _ _ _ Hh)|].
  eapply release_readers, Forall2_impl; [exact Hr'|]. intros r q (? & [? ? ? ?]).
  split; [done|]. by split.
Qed.

(** The boot-time tracing block reads past the log's buffer: when an entry's
    text starts with the two marker bytes and wraps around the end of the ring, the
    trace buffer receives the memory that follows the log instead of the rest of
    the text. *)
Theorem klog_reads_beyond_buffer beyond log klog u count :
  valid_size (size log) -> zlen (buffer log) = size log -> 0 <= w_off log < size log ->
  zlen klog = 256 -> 2 <= size log - w_off log -> size log < w_off log + count ->
  count < 255 -> count <= zlen u -> znth u 0 = char_bang -> znth u 1 = char_at ->
  exists log' klog', do_write_log_from_user beyond log klog u count = Some (log', klog', count) /\
    forall i, 0 <= i < count -> znth klog' i =
      if i <? size log - w_off log then znth u i else beyond (i - (size log - w_off log)).
Proof.
  intros Hs Hb Hw Hk H2 Hwrap Hc Hu Hu0 Hu1. pose proof (valid_size_2 _ Hs) as Hs2.
  unfold LOGGER_ENTRY_MAX_LEN in Hs2.
  destruct (do_write_log_from_user_ok beyond log klog u count)
    as (log' & klog' & ret & E & [(-> & _ & A & _)|(_ & ? & _)]); [done..|lia| |lia].
  exists log', klog'. split; [done|]. intros i Hi.
  destruct (written_klog beyond log klog u count log' klog' E ltac:(lia)) as (b & Hb' & ->).
  destruct A as (_ & _ & _ & W). rewrite <- Hb' in W.
  assert (Hpk : forall j, 0 <= j < count ->
    peek beyond (set_buffer log b) (w_off log + j) =
    if j <? size log - w_off log then znth u j else beyond (j - (size log - w_off log))).
  { intros j Hj. unfold peek. simpl. destruct W as [_ W]. specialize (W j ltac:(lia)).
    unfold ring_get in W. rewrite zlen_take, (proj2 (Z.ltb_lt j count)), znth_take in W by lia.
    zbool; [|f_equal; lia]. rewrite Z.mod_small in W by lia. done. }
  unfold update_klog, starts_klog. cbv zeta. change (w_off (set_buffer log b)) with (w_off log).
  rewrite <- (Z.add_0_r (w_off log)) at 1. rewrite !Hpk by lia.
  rewrite (proj2 (Z.ltb_lt 0 _)), (proj2 (Z.ltb_lt 1 _)), (proj2 (Z.ltb_lt count _)) by lia.
  rewrite Hu0, Hu1, !Z.eqb_refl. cbn [andb].
  rewrite znth_app_l.
  - change 255%nat with (Z.to_nat 255). rewrite znth_take, znth_peek_bytes by lia. by apply Hpk.
  - unfold zlen. rewrite length_take, length_app, length_drop, length_app, length_replicate, length_drop.
    rewrite length_peek_bytes. unfold zlen in Hk. lia.
Qed.

(** ** Instances of the hypotheses *)

(** A log of 8192 bytes that holds one entry with the text "hi". *)
Definition ex_entry : list Z := entry_bytes (mk_entry 2 0 1 1 0 0) ++ [104; 105].
Definition ex_log : logger_log :=
  mk_log (ex_entry ++ replicate (Z.to_nat 8170) 0) [mk_reader 1 0] 22 0 8192.
Definition ex_alog : alog := mk_alog [ex_entry] [(1%nat, [ex_entry])].

Lemma ex_size : valid_size 8192.
Proof. split; [by exists 13|done]. Qed.

Lemma ex_buf : zlen (buffer ex_log) = 8192.
Proof.
  unfold zlen, ex_log, buffer. rewrite length_app, length_replicate.
  change (length ex_entry) with 22%nat. lia.
Qed.

Lemma ex_pending : pending ex_log 0 [ex_entry].
Proof.
  split; [done| |done|done]. cbn [entries_at]. split; [by split|]. split; [|done].
  apply znth_ext; rewrite ring_read_zlen by (vm_compute; discriminate); [done|].
  intros i Hi. rewrite znth_ring_read by done. change (zlen ex_entry) with 22 in Hi.
  unfold ring_get. rewrite Z.mod_small by (simpl; lia). rewrite Z.add_0_l.
  apply (znth_app_l ex_entry). exact Hi.
Qed.

Lemma ex_refines : refines ex_log ex_alog.
Proof.
  split; [exact ex_size|exact ex_buf|done|exact ex_pending|].
  constructor; [|constructor]. split; [done|exact ex_pending].
Qed.

Definition ex_ctx : write_ctx := mk_ctx 1 1 0 0 0.
Definition ex_iov : list iovec := [mk_iovec [111; 107] 2].
Definition ex_bad_iov : list iovec := [mk_iovec [] 3].

Lemma logger_write_refines_witness :
  exists r, logger_aio_write (fun _ => 0) ex_log (replicate 256 0) 22 ex_ctx 2 ex_iov = Some r /\
    wr_ret r = 2 /\
    refines (wr_log r) (a_write 8192 (entry_bytes (make_header ex_ctx 2) ++ [111; 107]) ex_alog).
Proof.
  apply (logger_write_refines (fun _ => 0) ex_log ex_alog (replicate 256 0) ex_ctx ex_iov);
    [exact ex_refines|repeat constructor; simpl; lia|simpl; lia].
Defined.

Lemma logger_read_entry_witness :
  exists off', logger_read ex_log 0 ex_log 0 (replicate 30 0) 30 false false =
    Some (RReturn off' (ex_entry ++ drop (Z.to_nat (zlen ex_entry)) (replicate 30 0)) (zlen ex_entry))
    /\ pending ex_log off' [].
Proof.
  apply (logger_read_entry ex_log ex_alog); [exact ex_refines|exact ex_pending|..];
    vm_compute; discriminate.
Defined.

Lemma logger_read_errors_witness :
  logger_read ex_log 0 ex_log 0 (replicate 30 0) 10 false false =
  Some (RReturn 0 (replicate 30 0) (- EINVAL)).
Proof.
  apply (logger_read_errors ex_log ex_alog 0 [ex_entry] (replicate 30 0) 10 false false);
    [exact ex_refines|exact ex_pending|vm_compute; done].
Defined.

Lemma fix_up_moves_minimally_witness :
  exists p' k,
    fix_up_offset ex_log 22 (logger_offset ex_log (u32 (22 + 100))) 100 0 = Some p' /\
    pending ex_log p' (drop k [ex_entry]).
Proof.
  destruct (fix_up_moves_minimally ex_log ex_alog 0 [ex_entry] 100 ex_refines ex_pending)
    as (p' & k & H1 & H2 & _); [vm_compute; split; [done|discriminate]|].
  exists p', k. split; [exact H1|exact H2].
Defined.

Lemma stale_orig_loses_entry_witness :
  exists rB rA,
    logger_aio_write (fun _ => 0) (define_logger_device 8192) [] 0 ex_ctx 2 ex_iov = Some rB /\
    wr_ret rB = 2 /\
    pending (wr_log rB) (head (wr_log rB)) [entry_bytes (make_header ex_ctx 2) ++ [111; 107]] /\
    logger_aio_write (fun _ => 0) (wr_log rB) (wr_klog rB) 0 ex_ctx 3 ex_bad_iov = Some rA /\
    wr_ret rA = - EFAULT /\ w_off (wr_log rA) = head (wr_log rA).
Proof.
  apply (stale_orig_loses_entry (fun _ => 0) (define_logger_device 8192) [] ex_ctx ex_iov ex_bad_iov);
    [exact (device_refines 8192 ex_size)|repeat constructor; simpl; lia..|simpl; lia|simpl; lia|
     reflexivity|reflexivity].
Defined.

Lemma logger_queries_witness :
  logger_ioctl ex_log (mk_file true false 1) LOGGER_GET_LOG_LEN = Some (ex_log, 22).
Proof.
  apply (logger_queries ex_log ex_alog (mk_file true false 1) 0 [ex_entry] ex_refines eq_refl ex_pending).
Defined.

Lemma logger_open_release_witness :
  refines (set_readers ex_log [mk_reader 1 0; mk_reader 7 0]) (a_open 7 ex_alog).
Proof.
  exact (proj1 (proj2 (proj2 (proj2 (proj2 logger_open_release (fun _ => ex_log)
    (fun _ => ex_alog) (fun _ => 60) 60 true false (Some 7%nat) (fun _ => ex_refines)))))).
Defined.

(** The write head four bytes before the end of the ring. *)
Definition ex_wrap_log : logger_log := mk_log (replicate (Z.to_nat 8192) 0) [] 8188 8188 8192.

Lemma klog_reads_beyond_buffer_witness :
  exists log' klog',
    do_write_log_from_user (fun i => 200 + i) ex_wrap_log (replicate 256 0)
      [33; 64; 65; 66; 67; 68] 6 = Some (log', klog', 6) /\
    forall i, 0 <= i < 6 -> znth klog' i =
      if i <? 8192 - 8188 then znth [33; 64; 65; 66; 67; 68] i
      else 200 + (i - (8192 - 8188)).
Proof.
  apply (klog_reads_beyond_buffer (fun i => 200 + i) ex_wrap_log (replicate 256 0)
    [33; 64; 65; 66; 67; 68] 6); [exact ex_size| |simpl; lia|..|reflexivity|reflexivity];
    try (unfold zlen; simpl; lia).
Defined.

End Logger.
