(* ===== verification/Ashmem.v ===== *)
(** * mm/ashmem.c: anonymous shared memory

    Processes share areas; pages of an area can be unpinned, and the memory
    shrinker purges unpinned ranges, least recently unpinned first.  An
    [ashmem_range] is linked into two lists at once: the [unpinned_list] of its
    area, sorted by descending page, and the global LRU list while it is not
    purged.  The model keeps that sharing: objects live in maps from addresses
    ([nat]) and the lists hold addresses.  Following an address that is not
    allocated, or removing an element from a list it is not on, gives [None], so a
    theorem that an operation returns [Some] is also one about memory safety.

    Parameters: what the slab allocator, [shmem_file_setup] and [mutex_trylock]
    return; the memory of user space. *)
From stdpp Require Import sorting.
From S2P Require Import Prelude Uaccess.

Module Ashmem.

(** ** Data *)

Definition ASHMEM_NAME_LEN : Z := 256.
(** "dev/ashmem/" and "dev/ashmem" with its terminator. *)
Definition ASHMEM_NAME_PREFIX : list Z := [100; 101; 118; 47; 97; 115; 104; 109; 101; 109; 47].
Definition ASHMEM_NAME_DEF : list Z := [100; 101; 118; 47; 97; 115; 104; 109; 101; 109; 0].
Definition ASHMEM_NAME_PREFIX_LEN : Z := 11.
Definition ASHMEM_FULL_NAME_LEN : Z := ASHMEM_NAME_LEN + ASHMEM_NAME_PREFIX_LEN.

Definition ASHMEM_NOT_PURGED : Z := 0.
Definition ASHMEM_WAS_PURGED : Z := 1.
Definition ASHMEM_IS_UNPINNED : Z := 0.
Definition ASHMEM_IS_PINNED : Z := 1.

Definition PAGE_SIZE : Z := 4096.
(** [(x + PAGE_SIZE - 1) & ~(PAGE_SIZE - 1)] *)
Definition PAGE_ALIGN (x : Z) : Z :=
  Z.land (u32 (x + (PAGE_SIZE - 1))) (u32 (Z.lnot (PAGE_SIZE - 1))).

Record ashmem_area := mk_area {
  name : list Z;
  unpinned_list : list nat;
  file : option nat;
  size : Z;
  prot_mask : Z;
}.

Record ashmem_range := mk_range {
  asma : nat;
  pgstart : Z;
  pgend : Z;
  purged : Z;
}.

(** The module's state: its objects, [ashmem_lru_list], [lru_count], the reference
    counts of the files it holds, and the calls of [vmtruncate_range] it made
    (file, first byte, last byte), the latest first. *)
Record state := mk_state {
  areas : gmap nat ashmem_area;
  ranges : gmap nat ashmem_range;
  lru_list : list nat;
  lru_count : Z;
  f_count : gmap nat Z;
  truncated : list (nat * Z * Z);
}.

Definition set_areas (s : state) m := mk_state m (ranges s) (lru_list s) (lru_count s) (f_count s) (truncated s).
Definition set_ranges (s : state) m := mk_state (areas s) m (lru_list s) (lru_count s) (f_count s) (truncated s).
Definition set_lru (s : state) l c := mk_state (areas s) (ranges s) l c (f_count s) (truncated s).
Definition set_f_count (s : state) m := mk_state (areas s) (ranges s) (lru_list s) (lru_count s) m (truncated s).
Definition add_truncated (s : state) t :=
  mk_state (areas s) (ranges s) (lru_list s) (lru_count s) (f_count s) (t :: truncated s).

Definition set_unpinned (a : ashmem_area) l := mk_area (name a) l (file a) (size a) (prot_mask a).
Definition set_file (a : ashmem_area) f := mk_area (name a) (unpinned_list a) f (size a) (prot_mask a).
Definition set_name_bytes (a : ashmem_area) n := mk_area n (unpinned_list a) (file a) (size a) (prot_mask a).
Definition set_size (a : ashmem_area) z := mk_area (name a) (unpinned_list a) (file a) z (prot_mask a).
Definition set_mask (a : ashmem_area) p := mk_area (name a) (unpinned_list a) (file a) (size a) p.
Definition set_bounds (r : ashmem_range) st en := mk_range (asma r) st en (purged r).
Definition set_purged (r : ashmem_range) p := mk_range (asma r) (pgstart r) (pgend r) p.

(** ** include/linux/list.h *)

(** [list_del] of an element that is on the list. *)
Fixpoint list_del (id : nat) (l : list nat) : option (list nat) :=
  match l with
  | [] => None
  | x :: l => if Nat.eqb x id then Some l else l' ← list_del id l; Some (x :: l')
  end.

(** [list_add_tail(new, pos)]: before the element [pos], or at the tail when [pos]
    is the list head. *)
Fixpoint list_add_before (new : nat) (pos : option nat) (l : list nat) : option (list nat) :=
  match l, pos with
  | [], None => Some [new]
  | [], Some _ => None
  | x :: l, None => l' ← list_add_before new pos l; Some (x :: l')
  | x :: l, Some p => if Nat.eqb x p then Some (new :: x :: l)
                      else l' ← list_add_before new pos l; Some (x :: l')
  end.

(** ** The range macros *)

Definition range_size (r : ashmem_range) : Z := u32 (u32 (pgend r - pgstart r) + 1).
Definition range_on_lru (r : ashmem_range) : bool := purged r =? ASHMEM_NOT_PURGED.
Definition page_range_subsumes_range (r : ashmem_range) (st en : Z) : bool :=
  (st <=? pgstart r) && (pgend r <=? en).
Definition page_range_subsumed_by_range (r : ashmem_range) (st en : Z) : bool :=
  (pgstart r <=? st) && (en <=? pgend r).
Definition page_in_range (r : ashmem_range) (p : Z) : bool := (pgstart r <=? p) && (p <=? pgend r).
Definition page_range_in_range (r : ashmem_range) (st en : Z) : bool :=
  page_in_range r st || page_in_range r en || page_range_subsumes_range r st en.
Definition range_before_page (r : ashmem_range) (p : Z) : bool := pgend r <? p.

(** ** LRU list and ranges *)

Definition lru_add (s : state) (id : nat) (r : ashmem_range) : state :=
  set_lru s (lru_list s ++ [id]) (u32 (lru_count s + range_size r)).

Definition lru_del (s : state) (id : nat) (r : ashmem_range) : option state :=
  l ← list_del id (lru_list s);
  Some (set_lru s l (u32 (lru_count s - range_size r))).

(** [new] is what [kmem_cache_zalloc] returns; [prev] is [None] when it is the
    head of the list.  The state and 0 or [-ENOMEM]. *)
Definition range_alloc (s : state) (aid : nat) (prev : option nat) (pu st en : Z)
    (new : option nat) : option (state * Z) :=
  match new with
  | None => Some (s, - ENOMEM)
  | Some id =>
      a ← areas s !! aid;
      l ← list_add_before id prev (unpinned_list a);
      let r := mk_range aid st en pu in
      let s := set_ranges s (<[id := r]> (ranges s)) in
      let s := set_areas s (<[aid := set_unpinned a l]> (areas s)) in
      Some (if range_on_lru r then lru_add s id r else s, 0)
  end.

Definition range_del (s : state) (id : nat) : option state :=
  r ← ranges s !! id;
  a ← areas s !! asma r;
  l ← list_del id (unpinned_list a);
  let s := set_areas s (<[asma r := set_unpinned a l]> (areas s)) in
  s ← (if range_on_lru r then lru_del s id r else Some s);
  Some (set_ranges s (delete id (ranges s))).

Definition range_shrink (s : state) (id : nat) (st en : Z) : option state :=
  r ← ranges s !! id;
  let pre := range_size r in
  let r' := set_bounds r st en in
  let s := set_ranges s (<[id := r']> (ranges s)) in
  Some (if range_on_lru r'
        then set_lru s (lru_list s) (u32 (lru_count s - u32 (pre - range_size r'))) else s).

(** ** Pin and unpin

    [list_for_each_entry_safe] fetches the successor before the body runs, and the
    body only removes the current element, or inserts before it and leaves the
    loop: the loop visits the list as it was at the start. *)
Fixpoint ashmem_pin_loop (s : state) (aid : nat) (ids : list nat) (st en ret : Z)
    (new : option nat) : option (state * Z) :=
  match ids with
  | [] => Some (s, ret)
  | id :: ids =>
      r ← ranges s !! id;
      if range_before_page r st then Some (s, ret)
      else if page_range_in_range r st en then
        let ret := Z.lor ret (purged r) in
        if page_range_subsumes_range r st en then
          s ← range_del s id; ashmem_pin_loop s aid ids st en ret new
        else if st <=? pgstart r then
          s ← range_shrink s id (u32 (en + 1)) (pgend r);
          ashmem_pin_loop s aid ids st en ret new
        else if pgend r <=? en then
          s ← range_shrink s id (pgstart r) (u32 (st - 1));
          ashmem_pin_loop s aid ids st en ret new
        else
          '(s, _) ← range_alloc s aid (Some id) (purged r) (u32 (en + 1)) (pgend r) new;
          s ← range_shrink s id (pgstart r) (u32 (st - 1));
          Some (s, ret)
      else ashmem_pin_loop s aid ids st en ret new
  end.

Definition ashmem_pin (s : state) (aid : nat) (st en : Z) (new : option nat)
  : option (state * Z) :=
  a ← areas s !! aid;
  ashmem_pin_loop s aid (unpinned_list a) st en ASHMEM_NOT_PURGED new.

(** Where one pass of [ashmem_unpin]'s loop stops. *)
Inductive unpin_stop :=
| InsertAt (prev : option nat)
| AlreadyUnpinned
| Overlaps (id : nat) (r : ashmem_range).

Fixpoint unpin_scan (s : state) (ids : list nat) (st en : Z) : option unpin_stop :=
  match ids with
  | [] => Some (InsertAt None)
  | id :: ids =>
      r ← ranges s !! id;
      if range_before_page r st then Some (InsertAt (Some id))
      else if page_range_subsumed_by_range r st en then Some AlreadyUnpinned
      else if page_range_in_range r st en then Some (Overlaps id r)
      else unpin_scan s ids st en
  end.

(** Each [goto restart] follows the removal of a range, so the length of the list
    bounds the number of passes. *)
Fixpoint ashmem_unpin_loop (fuel : nat) (s : state) (aid : nat) (st en pu : Z)
    (new : option nat) : option (state * Z) :=
  match fuel with
  | O => None
  | S fuel =>
      a ← areas s !! aid;
      stop ← unpin_scan s (unpinned_list a) st en;
      match stop with
      | AlreadyUnpinned => Some (s, 0)
      | Overlaps id r =>
          s ← range_del s id;
          ashmem_unpin_loop fuel s aid (Z.min (pgstart r) st) (Z.max (pgend r) en)
            (Z.lor pu (purged r)) new
      | InsertAt prev => range_alloc s aid prev pu st en new
      end
  end.

Definition ashmem_unpin (s : state) (aid : nat) (st en : Z) (new : option nat)
  : option (state * Z) :=
  a ← areas s !! aid;
  ashmem_unpin_loop (S (length (unpinned_list a))) s aid st en ASHMEM_NOT_PURGED new.

Fixpoint get_pin_status_loop (s : state) (ids : list nat) (st en : Z) : option Z :=
  match ids with
  | [] => Some ASHMEM_IS_PINNED
  | id :: ids =>
      r ← ranges s !! id;
      if range_before_page r st then Some ASHMEM_IS_PINNED
      else if page_range_in_range r st en then Some ASHMEM_IS_UNPINNED
      else get_pin_status_loop s ids st en
  end.

Definition ashmem_get_pin_status (s : state) (aid : nat) (st en : Z) : option Z :=
  a ← areas s !! aid; get_pin_status_loop s (unpinned_list a) st en.

Inductive pin_cmd := ASHMEM_PIN | ASHMEM_UNPIN | ASHMEM_GET_PIN_STATUS.

(** [pin] is the [struct ashmem_pin] read from user space, [None] if it cannot be
    read. *)
Definition ashmem_pin_unpin (s : state) (aid : nat) (cmd : pin_cmd) (pin : option (Z * Z))
    (new : option nat) : option (state * Z) :=
  a ← areas s !! aid;
  match file a, pin with
  | None, _ => Some (s, - EINVAL)
  | Some _, None => Some (s, - EFAULT)
  | Some _, Some (offset, len0) =>
      let len := if len0 =? 0 then u32 (PAGE_ALIGN (size a) - offset) else len0 in
      if negb (Z.land (Z.lor offset len) (PAGE_SIZE - 1) =? 0) then Some (s, - EINVAL)
      else if 2 ^ 32 - 1 - offset <? len then Some (s, - EINVAL)
      else if PAGE_ALIGN (size a) <? u32 (offset + len) then Some (s, - EINVAL)
      else
        let st := offset / PAGE_SIZE in
        let en := u32 (st + len / PAGE_SIZE - 1) in
        match cmd with
        | ASHMEM_PIN => ashmem_pin s aid st en new
        | ASHMEM_UNPIN => ashmem_unpin s aid st en new
        | ASHMEM_GET_PIN_STATUS => ret ← ashmem_get_pin_status s aid st en; Some (s, ret)
        end
  end.

(** ** The shrinker *)

Fixpoint ashmem_shrink_loop (s : state) (ids : list nat) (nr : Z) : option state :=
  match ids with
  | [] => Some s
  | id :: ids =>
      r ← ranges s !! id;
      a ← areas s !! asma r;
      f ← file a;
      let first := u32 (pgstart r * PAGE_SIZE) in
      let last := u32 (u32 (pgend r + 1) * PAGE_SIZE - 1) in
      let s := add_truncated s (f, first, last) in
      let r' := set_purged r ASHMEM_WAS_PURGED in
      let s := set_ranges s (<[id := r']> (ranges s)) in
      s ← lru_del s id r';
      let nr := s32 (nr - range_size r') in
      if nr <=? 0 then Some s else ashmem_shrink_loop s ids nr
  end.

(** [gfp_fs] is [gfp_mask & __GFP_FS], [locked] the result of [mutex_trylock]. *)
Definition ashmem_shrink (s : state) (nr_to_scan : Z) (gfp_fs locked : bool)
  : option (state * Z) :=
  if negb (nr_to_scan =? 0) && negb gfp_fs then Some (s, -1)
  else if nr_to_scan =? 0 then Some (s, s32 (lru_count s))
  else if negb locked then Some (s, -1)
  else
    s ← ashmem_shrink_loop s (lru_list s) nr_to_scan;
    Some (s, s32 (lru_count s)).

(** ** Open, release, read, mmap *)

(** The name of a new area: the prefix in a zeroed array. *)
Definition initial_name : list Z :=
  ASHMEM_NAME_PREFIX ++ replicate (Z.to_nat ASHMEM_NAME_LEN) 0.

Definition PROT_READ : Z := 0x1.
Definition PROT_WRITE : Z := 0x2.
Definition PROT_EXEC : Z := 0x4.
Definition PROT_MASK : Z := Z.lor (Z.lor PROT_EXEC PROT_READ) PROT_WRITE.

(** [seek] is what [nonseekable_open] returns, [new] what the area cache returns;
    [file->private_data] is the address of the area. *)
Definition ashmem_open (s : state) (seek : Z) (new : option nat) : state * Z :=
  if negb (seek =? 0) then (s, seek)
  else match new with
       | None => (s, - ENOMEM)
       | Some aid =>
           (set_areas s (<[aid := mk_area initial_name [] None 0 PROT_MASK]> (areas s)), 0)
       end.

Definition get_file (s : state) (f : nat) : state :=
  set_f_count s (alter (fun n => n + 1) f (f_count s)).
Definition fput (s : state) (f : nat) : state :=
  set_f_count s (alter (fun n => n - 1) f (f_count s)).

Fixpoint release_ranges (s : state) (ids : list nat) : option state :=
  match ids with
  | [] => Some s
  | id :: ids => s ← range_del s id; release_ranges s ids
  end.

Definition ashmem_release (s : state) (aid : nat) : option (state * Z) :=
  a ← areas s !! aid;
  s ← release_ranges s (unpinned_list a);
  let s := match file a with Some f => fput s f | None => s end in
  Some (set_areas s (delete aid (areas s)), 0).

(** [rd] is what the [read] method of the backing file returns. *)
Definition ashmem_read (s : state) (aid : nat) (rd : nat -> Z) : option Z :=
  a ← areas s !! aid;
  Some (if size a =? 0 then 0
        else match file a with None => - EBADF | Some f => rd f end).

Definition VM_READ : Z := 0x1.
Definition VM_WRITE : Z := 0x2.
Definition VM_EXEC : Z := 0x4.
Definition VM_SHARED : Z := 0x8.
Definition VM_MAYREAD : Z := 0x10.
Definition VM_MAYWRITE : Z := 0x20.
Definition VM_MAYEXEC : Z := 0x40.
Definition VM_CAN_NONLINEAR : Z := 0x08000000.

(** include/linux/mman.h *)
Definition _calc_vm_trans (x bit1 bit2 : Z) : Z :=
  if bit1 <=? bit2 then u32 (Z.land x bit1 * (bit2 / bit1))
  else Z.land x bit1 / (bit1 / bit2).

Definition calc_vm_prot_bits (prot : Z) : Z :=
  Z.lor (Z.lor (_calc_vm_trans prot PROT_READ VM_READ) (_calc_vm_trans prot PROT_WRITE VM_WRITE))
        (_calc_vm_trans prot PROT_EXEC VM_EXEC).

Definition calc_vm_may_flags (prot : Z) : Z :=
  Z.lor (Z.lor (_calc_vm_trans prot PROT_READ VM_MAYREAD)
               (_calc_vm_trans prot PROT_WRITE VM_MAYWRITE))
        (_calc_vm_trans prot PROT_EXEC VM_MAYEXEC).

(** What [ashmem_mmap] uses of a [struct vm_area_struct]; [vm_shmem] is whether
    [vm_ops] is [shmem_vm_ops]. *)
Record vm_area := mk_vma { vm_flags : Z; vm_file : option nat; vm_shmem : bool }.

Definition fput_opt (s : state) (f : option nat) : state :=
  match f with Some f => fput s f | None => s end.

(** The part of [ashmem_mmap] once the backing file exists. *)
Definition mmap_file (s : state) (f : nat) (v : vm_area) : state * vm_area :=
  let s := get_file s f in
  let s := fput_opt s (vm_file v) in
  let shared := negb (Z.land (vm_flags v) VM_SHARED =? 0) in
  (s, mk_vma (Z.lor (vm_flags v) VM_CAN_NONLINEAR) (Some f) (shared || vm_shmem v)).

(** [setup] is [shmem_file_setup]: the address of a new file, or an error. *)
Definition ashmem_mmap (s : state) (aid : nat) (v : vm_area)
    (setup : list Z -> Z -> Z -> kres nat) : option (state * vm_area * Z) :=
  a ← areas s !! aid;
  if size a =? 0 then Some (s, v, - EINVAL)
  else if negb (Z.land (Z.land (vm_flags v) (u32 (Z.lnot (calc_vm_prot_bits (prot_mask a)))))
                       (calc_vm_prot_bits PROT_MASK) =? 0) then Some (s, v, - EPERM)
  else
    let v := mk_vma (Z.land (vm_flags v)
                      (u32 (Z.lnot (calc_vm_may_flags (u32 (Z.lnot (prot_mask a)))))))
                    (vm_file v) (vm_shmem v) in
    match file a with
    | Some f => let '(s, v) := mmap_file s f v in Some (s, v, 0)
    | None =>
        let nm := if negb (znth (name a) ASHMEM_NAME_PREFIX_LEN =? 0) then name a
                  else ASHMEM_NAME_DEF in
        match setup nm (size a) (vm_flags v) with
        | Val f =>
            let s := set_f_count s (<[f := 1]> (f_count s)) in
            let s := set_areas s (<[aid := set_file a (Some f)]> (areas s)) in
            let '(s, v) := mmap_file s f v in Some (s, v, 0)
        | Err e => Some (s, v, - e)
        | Bug | Undef => None
        end
    end.

(** ** Protection mask and name *)

(** [rie] is [current->personality & READ_IMPLIES_EXEC]. *)
Definition set_prot_mask (s : state) (aid : nat) (prot : Z) (rie : bool) : option (state * Z) :=
  a ← areas s !! aid;
  if negb (Z.land (prot_mask a) prot =? prot) then Some (s, - EINVAL)
  else
    let prot := if negb (Z.land prot PROT_READ =? 0) && rie then Z.lor prot PROT_EXEC else prot in
    Some (set_areas s (<[aid := set_mask a prot]> (areas s)), 0).

(** [name[i] = c] *)
Definition set_byte (l : list Z) (i c : Z) : option (list Z) := write_bytes l i [c].

Definition set_name (s : state) (aid : nat) (u : list Z) : option (state * Z) :=
  a ← areas s !! aid;
  match file a with
  | Some _ => Some (s, - EINVAL)
  | None =>
      let '(bs, rest) := copy_from_user u 0 ASHMEM_NAME_LEN in
      n1 ← write_bytes (name a) ASHMEM_NAME_PREFIX_LEN bs;
      n2 ← set_byte n1 (ASHMEM_FULL_NAME_LEN - 1) 0;
      Some (set_areas s (<[aid := set_name_bytes a n2]> (areas s)),
            if negb (rest =? 0) then - EFAULT else 0)
  end.

(** [strlen]: [None] when there is no terminator in the array. *)
Fixpoint strlen (l : list Z) : option Z :=
  match l with
  | [] => None
  | c :: l => if c =? 0 then Some 0 else n ← strlen l; Some (n + 1)
  end.

(** The user's memory after the call and the return value. *)
Definition get_name (s : state) (aid : nat) (u : list Z) : option (list Z * Z) :=
  a ← areas s !! aid;
  if negb (znth (name a) ASHMEM_NAME_PREFIX_LEN =? 0) then
    n ← strlen (drop (Z.to_nat ASHMEM_NAME_PREFIX_LEN) (name a));
    bs ← read_bytes (name a) ASHMEM_NAME_PREFIX_LEN (n + 1);
    let '(u', rest) := copy_to_user u 0 bs in
    Some (u', if negb (rest =? 0) then - EFAULT else 0)
  else
    let '(u', rest) := copy_to_user u 0 ASHMEM_NAME_DEF in
    Some (u', if negb (rest =? 0) then - EFAULT else 0).

(** ** ioctl *)

Inductive ashmem_cmd :=
| ASHMEM_SET_NAME (u : list Z)
| ASHMEM_GET_NAME (u : list Z)
| ASHMEM_SET_SIZE (arg : Z)
| ASHMEM_GET_SIZE
| ASHMEM_SET_PROT_MASK (prot : Z)
| ASHMEM_GET_PROT_MASK
| ASHMEM_PIN_CMD (cmd : pin_cmd) (pin : option (Z * Z))
| ASHMEM_PURGE_ALL_CACHES
| ASHMEM_OTHER.

(** What the call depends on besides its arguments. *)
Record env := mk_env {
  e_new : option nat;      (* the next range of the slab cache *)
  e_rie : bool;            (* READ_IMPLIES_EXEC *)
  e_capable : bool;        (* CAP_SYS_ADMIN *)
  e_locked : bool;         (* mutex_trylock *)
}.

(** The state, the user memory written (empty unless a name was asked for), and
    the return value. *)
Definition ashmem_ioctl (s : state) (aid : nat) (cmd : ashmem_cmd) (e : env)
  : option (state * list Z * Z) :=
  match cmd with
  | ASHMEM_SET_NAME u => '(s, ret) ← set_name s aid u; Some (s, [], ret)
  | ASHMEM_GET_NAME u => '(u, ret) ← get_name s aid u; Some (s, u, ret)
  | ASHMEM_SET_SIZE arg =>
      a ← areas s !! aid;
      match file a with
      | None => Some (set_areas s (<[aid := set_size a arg]> (areas s)), [], 0)
      | Some _ => Some (s, [], - EINVAL)
      end
  | ASHMEM_GET_SIZE => a ← areas s !! aid; Some (s, [], s32 (size a))
  | ASHMEM_SET_PROT_MASK prot => '(s, ret) ← set_prot_mask s aid prot (e_rie e); Some (s, [], ret)
  | ASHMEM_GET_PROT_MASK => a ← areas s !! aid; Some (s, [], s32 (prot_mask a))
  | ASHMEM_PIN_CMD c pin => '(s, ret) ← ashmem_pin_unpin s aid c pin (e_new e); Some (s, [], ret)
  | ASHMEM_PURGE_ALL_CACHES =>
      if e_capable e then
        '(s, ret) ← ashmem_shrink s 0 true (e_locked e);
        '(s, _) ← ashmem_shrink s ret true (e_locked e);
        Some (s, [], ret)
      else Some (s, [], - EPERM)
  | ASHMEM_OTHER => Some (s, [], - ENOTTY)
  end.

(** ** Invariant *)

(** Ranges are within the 2^20 - 1 pages of the largest size a 32-bit area can have; a range may be empty
    ([pgstart = pgend + 1]): the boundary of an area can be unpinned with length 0. *)
Record range_ok (r : ashmem_range) : Prop := {
  ro_start : 0 <= pgstart r;
  ro_size : pgstart r <= pgend r + 1;
  ro_end : 0 <= pgend r < 2 ^ 20 - 1;
  ro_purged : purged r = ASHMEM_NOT_PURGED \/ purged r = ASHMEM_WAS_PURGED;
}.

(** [i] lies entirely above [j]. *)
Definition above (R : gmap nat ashmem_range) (i j : nat) : Prop :=
  forall ri rj, R !! i = Some ri -> R !! j = Some rj -> pgend rj < pgstart ri.

Definition member (R : gmap nat ashmem_range) (aid id : nat) : Prop :=
  exists r, R !! id = Some r /\ asma r = aid /\ range_ok r.

Record area_ok (R : gmap nat ashmem_range) (aid : nat) (a : ashmem_area) : Prop := {
  ao_nodup : NoDup (unpinned_list a);
  ao_ranges : Forall (member R aid) (unpinned_list a);
  ao_sorted : StronglySorted (above R) (unpinned_list a);
  ao_file : unpinned_list a <> [] -> is_Some (file a);
}.

Definition range_size_at (R : gmap nat ashmem_range) (id : nat) : Z :=
  match R !! id with Some r => range_size r | None => 0 end.

(** Pages on the LRU list. *)
Fixpoint lru_sum (R : gmap nat ashmem_range) (l : list nat) : Z :=
  match l with
  | [] => 0
  | id :: l => range_size_at R id + lru_sum R l
  end.

Record wf (s : state) : Prop := {
  wf_areas : forall aid a, areas s !! aid = Some a -> area_ok (ranges s) aid a;
  wf_ranges : forall id r, ranges s !! id = Some r ->
    exists a, areas s !! asma r = Some a /\ id ∈ unpinned_list a;
  wf_lru_nodup : NoDup (lru_list s);
  wf_lru : forall id, id ∈ lru_list s <->
    exists r, ranges s !! id = Some r /\ purged r = ASHMEM_NOT_PURGED;
  wf_count : lru_count s = u32 (lru_sum (ranges s) (lru_list s));
}.

(** The abstraction: which pages of an area are unpinned, and whether the range
    that holds a page was purged. *)
Definition unpinned_page (s : state) (aid : nat) (p : Z) : Prop :=
  exists id r, ranges s !! id = Some r /\ asma r = aid /\ pgstart r <= p <= pgend r.

(** *** Lists *)

Lemma list_del_app id l1 l2 : id ∉ l1 -> list_del id (l1 ++ id :: l2) = Some (l1 ++ l2).
Proof.
  induction l1 as [|x l1 IH]; intros Hn; simpl.
  - by rewrite Nat.eqb_refl.
  - rewrite not_elem_of_cons in Hn. destruct Hn as [Hx Hn].
    destruct (Nat.eqb_spec x id); [done|]. by rewrite IH.
Qed.

Lemma list_add_before_app new p l1 l2 :
  p ∉ l1 -> list_add_before new (Some p) (l1 ++ p :: l2) = Some (l1 ++ new :: p :: l2).
Proof.
  induction l1 as [|x l1 IH]; intros Hn; simpl.
  - by rewrite Nat.eqb_refl.
  - rewrite not_elem_of_cons in Hn. destruct Hn as [Hx Hn].
    destruct (Nat.eqb_spec x p); [done|]. by rewrite IH.
Qed.

Lemma list_add_tail_app new l : list_add_before new None l = Some (l ++ [new]).
Proof. induction l as [|x l IH]; simpl; [done|]. by rewrite IH. Qed.

Lemma elem_of_split_nodup (l : list nat) id :
  NoDup l -> id ∈ l -> exists l1 l2, l = l1 ++ id :: l2 /\ (id ∉ l1) /\ (id ∉ l2).
Proof.
  intros Hnd Hin. apply list_elem_of_split in Hin as (l1 & l2 & ->).
  apply NoDup_app in Hnd as (_ & Hd & Hnd2). apply NoDup_cons in Hnd2 as [Hn2 _].
  exists l1, l2. split; [done|]. split; [|done]. intros Hin. eapply Hd; [done|]. set_solver.
Qed.

Lemma app_inj_pivot_nodup (x : nat) l1 l2 k1 k2 :
  l1 ++ x :: l2 = k1 ++ x :: k2 -> NoDup (k1 ++ x :: k2) -> k1 = l1 /\ k2 = l2.
Proof.
  revert k1. induction l1 as [|y l1 IH]; intros [|z k1]; simpl; intros E Hn; simplify_eq; auto.
  - apply NoDup_cons in Hn as [Hn _]. set_solver.
  - apply NoDup_cons in Hn as [Hn _]. set_solver.
  - apply NoDup_cons in Hn as [_ Hn]. edestruct (IH k1); [eassumption..|]. by subst.
Qed.

Lemma StronglySorted_remove (P : nat -> nat -> Prop) l1 x l2 :
  StronglySorted P (l1 ++ x :: l2) -> StronglySorted P (l1 ++ l2).
Proof.
  induction l1 as [|y l1 IH]; simpl; intros H; inversion_clear H; [done|].
  constructor; [by apply IH|]. apply Forall_app in H1 as [? H1]. inversion_clear H1.
  by apply Forall_app.
Qed.

Lemma StronglySorted_insert (P : nat -> nat -> Prop) l1 x l2 :
  StronglySorted P (l1 ++ l2) -> Forall (fun y => P y x) l1 -> Forall (P x) l2 ->
  StronglySorted P (l1 ++ x :: l2).
Proof.
  induction l1 as [|y l1 IH]; simpl; intros Hs H1 H2; [by constructor|].
  inversion_clear Hs. inversion_clear H1. constructor; [by apply IH|].
  apply Forall_app in H0 as [? ?]. apply Forall_app. split; [done|]. by constructor.
Qed.

(** *** The LRU sum *)

Lemma lru_sum_app R l1 l2 : lru_sum R (l1 ++ l2) = lru_sum R l1 + lru_sum R l2.
Proof. induction l1 as [|x l1 IH]; simpl; lia. Qed.

Lemma lru_sum_ext R R' l :
  (forall id, id ∈ l -> range_size_at R' id = range_size_at R id) -> lru_sum R' l = lru_sum R l.
Proof.
  induction l as [|x l IH]; intros H; simpl; [done|].
  rewrite (H x), IH; [done|set_solver..].
Qed.

Lemma range_size_at_insert_ne R id r x :
  x <> id -> range_size_at (<[id := r]> R) x = range_size_at R x.
Proof. intros. unfold range_size_at. by rewrite lookup_insert_ne. Qed.

Lemma lru_sum_insert R id r l :
  id ∉ l -> lru_sum (<[id := r]> R) l = lru_sum R l.
Proof.
  intros Hn. apply lru_sum_ext. intros x Hx. apply range_size_at_insert_ne. set_solver.
Qed.

Lemma lru_sum_delete R id l : id ∉ l -> lru_sum (delete id R) l = lru_sum R l.
Proof.
  intros Hn. apply lru_sum_ext. intros x Hx. unfold range_size_at.
  rewrite lookup_delete_ne; [done|]. set_solver.
Qed.

Lemma lru_sum_update R id r r' l :
  NoDup l -> id ∈ l -> R !! id = Some r ->
  lru_sum (<[id := r']> R) l = lru_sum R l - range_size r + range_size r'.
Proof.
  intros Hnd Hin Hr. destruct (elem_of_split_nodup l id Hnd Hin) as (l1 & l2 & -> & H1 & H2).
  rewrite !lru_sum_app. simpl. rewrite !lru_sum_insert by done.
  unfold range_size_at. rewrite lookup_insert_eq, Hr. lia.
Qed.

(** *** One area under a change of the ranges *)

Lemma StronglySorted_mono (P Q : nat -> nat -> Prop) l :
  (forall i j, i ∈ l -> j ∈ l -> P i j -> Q i j) -> StronglySorted P l -> StronglySorted Q l.
Proof.
  intros H Hs. induction Hs as [|x l Hs IH Hf]; constructor.
  - apply IH. set_solver.
  - rewrite Forall_forall in Hf |- *. intros y Hy. apply H; [set_solver..|auto].
Qed.

Lemma member_asma R aid a id r :
  area_ok R aid a -> id ∈ unpinned_list a -> R !! id = Some r -> asma r = aid /\ range_ok r.
Proof.
  intros [_ Hm _ _] Hin Hr. rewrite Forall_forall in Hm.
  destruct (Hm id Hin) as (r' & Hr' & ? & ?). simplify_eq. done.
Qed.

(** [R'] agrees with [R] on the ranges of the area. *)
Lemma area_ok_ext R R' aid a :
  (forall id, id ∈ unpinned_list a -> R' !! id = R !! id) -> area_ok R aid a -> area_ok R' aid a.
Proof.
  intros He [Hn Hm Hs Hf]. split; [done| | |done].
  - rewrite Forall_forall in Hm |- *. intros id Hin. destruct (Hm id Hin) as (r & Hr & ?).
    exists r. rewrite He by done. done.
  - eapply StronglySorted_mono; [|exact Hs]. intros i j Hi Hj Hij ri rj.
    rewrite !He by done. apply Hij.
Qed.

Lemma area_ok_remove R aid a l1 id l2 :
  area_ok R aid a -> unpinned_list a = l1 ++ id :: l2 ->
  area_ok R aid (set_unpinned a (l1 ++ l2)).
Proof.
  intros [Hn Hm Hs Hf] E. rewrite E in *. split; simpl.
  - apply NoDup_app in Hn as (? & Hd & Hn2). apply NoDup_cons in Hn2 as [? ?].
    apply NoDup_app. split; [done|]. split; [|done]. set_solver.
  - apply Forall_app in Hm as [? Hm]. inversion_clear Hm. by apply Forall_app.
  - by eapply StronglySorted_remove.
  - intros _. apply Hf. by destruct l1.
Qed.

(** A range of the area shrinks in place. *)
Lemma area_ok_shrink R aid a id r r' :
  area_ok R aid a -> R !! id = Some r -> asma r' = asma r -> range_ok r' ->
  pgstart r <= pgstart r' -> pgend r' <= pgend r ->
  area_ok (<[id := r']> R) aid a.
Proof.
  intros [Hn Hm Hs Hf] Hr Ha Hok H1 H2. split; [done| | |done].
  - rewrite Forall_forall in Hm |- *. intros x Hx. destruct (Hm x Hx) as (rx & Hrx & ? & ?).
    destruct (decide (x = id)) as [->|Hne]; simplify_eq.
    + exists r'. by rewrite lookup_insert_eq.
    + exists rx. by rewrite lookup_insert_ne.
  - eapply StronglySorted_mono; [|exact Hs]. intros i j Hi Hj Hij ri rj.
    rewrite !lookup_insert. unfold above in Hij.
    repeat case_decide; intros; simplify_eq; try (by eapply Hij).
    + specialize (Hij _ _ Hr Hr). lia.
    + specialize (Hij _ _ Hr H4). lia.
    + specialize (Hij _ _ H3 Hr). lia.
Qed.

(** A new range goes in at a place where the order allows it. *)
Lemma area_ok_insert R aid a l1 id l2 r :
  area_ok R aid a -> unpinned_list a = l1 ++ l2 -> R !! id = None -> asma r = aid -> range_ok r ->
  is_Some (file a) ->
  Forall (fun x => forall rx, R !! x = Some rx -> pgend r < pgstart rx) l1 ->
  Forall (fun x => forall rx, R !! x = Some rx -> pgend rx < pgstart r) l2 ->
  area_ok (<[id := r]> R) aid (set_unpinned a (l1 ++ id :: l2)).
Proof.
  intros [Hn Hm Hs _] E Hid Ha Hok Hf H1 H2. rewrite E in *.
  assert (Hni : id ∉ l1 ++ l2).
  { intros Hin. rewrite Forall_forall in Hm. destruct (Hm id Hin) as (? & ? & _). congruence. }
  assert (Hne : forall x, x ∈ l1 ++ l2 -> <[id := r]> R !! x = R !! x)
    by (intros x Hx; apply lookup_insert_ne; set_solver).
  split; simpl; [| | |done].
  - apply NoDup_app in Hn as (? & Hd & ?). apply NoDup_app. split; [done|].
    split; [set_solver|]. apply NoDup_cons. split; [set_solver|done].
  - rewrite Forall_forall in Hm |- *. intros x Hx.
    destruct (decide (x = id)) as [->|Hxi]; [exists r; by rewrite lookup_insert_eq|].
    destruct (Hm x ltac:(set_solver)) as (rx & Hrx & ?). exists rx. rewrite lookup_insert_ne by done. done.
  - apply StronglySorted_insert.
    + eapply StronglySorted_mono; [|exact Hs]. intros i j Hi Hj Hij ri rj.
      rewrite !Hne by done. apply Hij.
    + rewrite Forall_forall in H1 |- *. intros x Hx rx ri Hrx Hri.
      rewrite lookup_insert_eq in Hri. simplify_eq. eapply H1; [done|].
      rewrite <- Hne by set_solver. done.
    + rewrite Forall_forall in H2 |- *. intros x Hx ri rx Hri Hrx.
      rewrite lookup_insert_eq in Hri. simplify_eq. eapply H2; [done|].
      rewrite <- Hne by set_solver. done.
Qed.

(** *** The operations on ranges preserve the invariant *)

(** Areas of different addresses share no range. *)
Lemma wf_disjoint s aid a id r :
  wf s -> areas s !! aid = Some a -> ranges s !! id = Some r -> asma r <> aid ->
  id ∉ unpinned_list a.
Proof. intros W Ha Hr Hne Hin. edestruct (member_asma (ranges s)); eauto using wf_areas. Qed.

Lemma lru_del_ok s id r :
  wf s -> ranges s !! id = Some r -> purged r = ASHMEM_NOT_PURGED ->
  exists k1 k2, lru_list s = k1 ++ id :: k2 /\ (id ∉ k1) /\ (id ∉ k2) /\
    forall s', lru_list s' = lru_list s ->
      lru_del s' id r = Some (set_lru s' (k1 ++ k2) (u32 (lru_count s' - range_size r))).
Proof.
  intros W Hr Hp. assert (Hin : id ∈ lru_list s) by (apply (wf_lru s W); eauto).
  destruct (elem_of_split_nodup _ _ (wf_lru_nodup s W) Hin) as (k1 & k2 & E & H1 & H2).
  exists k1, k2. do 3 (split; [done|]). intros s' E'. unfold lru_del.
  rewrite E', E, list_del_app by done. done.
Qed.

Lemma range_del_ok s id r :
  wf s -> ranges s !! id = Some r ->
  exists s' a l1 l2, range_del s id = Some s' /\ wf s' /\
    areas s !! asma r = Some a /\ unpinned_list a = l1 ++ id :: l2 /\
    areas s' = <[asma r := set_unpinned a (l1 ++ l2)]> (areas s) /\
    ranges s' = delete id (ranges s) /\ f_count s' = f_count s /\ truncated s' = truncated s.
Proof.
  intros W Hr. destruct (wf_ranges s W id r Hr) as (a & Ha & Hin).
  pose proof (wf_areas s W _ _ Ha) as Hao.
  destruct (elem_of_split_nodup _ _ (ao_nodup _ _ _ Hao) Hin) as (l1 & l2 & E & N1 & N2).
  unfold range_del. rewrite Hr. simpl. rewrite Ha. simpl. rewrite E, list_del_app by done. simpl.
  assert (Har : forall aid a0, <[asma r := set_unpinned a (l1 ++ l2)]> (areas s) !! aid = Some a0 ->
    area_ok (delete id (ranges s)) aid a0).
  { intros aid a0 H0. rewrite lookup_insert in H0. case_decide as Hd.
    - simplify_eq. eapply area_ok_ext; [|by eapply area_ok_remove].
      simpl. intros x Hx. apply lookup_delete_ne. set_solver.
    - eapply area_ok_ext; [|by apply (wf_areas s W)]. intros x Hx. apply lookup_delete_ne.
      intros <-. by eapply wf_disjoint. }
  assert (Hrg : forall x rx, delete id (ranges s) !! x = Some rx ->
    exists a0, <[asma r := set_unpinned a (l1 ++ l2)]> (areas s) !! asma rx = Some a0 /\
               x ∈ unpinned_list a0).
  { intros x rx Hx. apply lookup_delete_Some in Hx as [Hne Hx].
    destruct (wf_ranges s W x rx Hx) as (a0 & Ha0 & Hin0). rewrite lookup_insert.
    case_decide as Hd; [|by exists a0]. exists (set_unpinned a (l1 ++ l2)). split; [done|].
    rewrite <- Hd, Ha in Ha0. simplify_eq. rewrite E in Hin0. simpl. set_solver. }
  unfold range_on_lru. destruct (Z.eqb_spec (purged r) ASHMEM_NOT_PURGED) as [Hp|Hp].
  - destruct (lru_del_ok s id r W Hr Hp) as (k1 & k2 & Ek & K1 & K2 & Hdel).
    rewrite Hdel by done. simpl.
    eexists _, a, l1, l2. split; [done|]. split; [|by repeat split]. split; simpl; try done.
    + pose proof (wf_lru_nodup s W) as Hnd. rewrite Ek in Hnd.
      apply NoDup_app in Hnd as (? & Hd & Hn2). apply NoDup_cons in Hn2 as [? ?].
      apply NoDup_app. split; [done|]. split; [set_solver|done].
    + intros x. pose proof (wf_lru s W x) as Hx. rewrite Ek in Hx. split.
      * intros Hxin. destruct (proj1 Hx ltac:(set_solver)) as (rx & ? & ?). exists rx.
        rewrite lookup_delete_ne by set_solver. done.
      * intros (rx & Hrx & ?). apply lookup_delete_Some in Hrx as [Hne Hrx].
        assert (x ∈ k1 ++ id :: k2) by (apply Hx; eauto). set_solver.
    + rewrite (wf_count s W), Ek, u32_sub_l. f_equal.
      rewrite lru_sum_delete by set_solver. rewrite !lru_sum_app. simpl.
      unfold range_size_at. rewrite Hr. lia.
  - assert (Hnl : id ∉ lru_list s)
      by (intros Hl; apply (wf_lru s W) in Hl as (? & ? & ?); congruence).
    eexists _, a, l1, l2. split; [done|]. split; [|by repeat split]. split; simpl; try done.
    + apply W.
    + intros x. rewrite (wf_lru s W x). split; intros (rx & Hrx & ?); exists rx.
      * rewrite lookup_delete_ne; [done|]. intros <-. congruence.
      * by apply lookup_delete_Some in Hrx as [_ ?].
    + rewrite (wf_count s W). f_equal. by rewrite lru_sum_delete.
Qed.

Lemma range_shrink_ok s id r st en :
  wf s -> ranges s !! id = Some r -> range_ok (set_bounds r st en) ->
  pgstart r <= st -> en <= pgend r ->
  exists s', range_shrink s id st en = Some s' /\ wf s' /\ areas s' = areas s /\
    ranges s' = <[id := set_bounds r st en]> (ranges s) /\
    f_count s' = f_count s /\ truncated s' = truncated s.
Proof.
  intros W Hr Hok H1 H2. unfold range_shrink. rewrite Hr. simpl.
  set (r' := set_bounds r st en) in *.
  assert (Har : forall aid a, areas s !! aid = Some a -> area_ok (<[id := r']> (ranges s)) aid a)
    by (intros aid a Ha; eapply area_ok_shrink; eauto using wf_areas).
  assert (Hrg : forall x rx, <[id := r']> (ranges s) !! x = Some rx ->
    exists a, areas s !! asma rx = Some a /\ x ∈ unpinned_list a).
  { intros x rx Hx. rewrite lookup_insert in Hx.
    case_decide; simplify_eq; [by apply (wf_ranges s W x r)|by eapply wf_ranges]. }
  assert (Hl : forall x, x ∈ lru_list s <->
    exists rx, <[id := r']> (ranges s) !! x = Some rx /\ purged rx = ASHMEM_NOT_PURGED).
  { intros x. rewrite (wf_lru s W x), lookup_insert. case_decide as Hd; [|done]. subst x.
    rewrite Hr. split; intros (rx & Hx & Hp); simplify_eq; eauto. }
  eexists. split; [done|]. split; [|by case_match]. unfold range_on_lru. change (purged r') with (purged r).
  destruct (Z.eqb_spec (purged r) ASHMEM_NOT_PURGED) as [Hp|Hp].
  - split; simpl; [done|done|apply W|done|].
    rewrite (wf_count s W), (lru_sum_update _ id r);
      [|apply W|apply (wf_lru s W); eauto|done].
    u32_norm. f_equal. lia.
  - split; simpl; [done|done|apply W|done|].
    rewrite (wf_count s W), lru_sum_insert; [done|].
    intros Hin. apply (wf_lru s W) in Hin as (? & ? & ?). congruence.
Qed.

(** [prev] names the place between [l1] and [l2]. *)
Definition place (prev : option nat) (l2 : list nat) : Prop := head l2 = prev.

Lemma list_add_place new prev l1 l2 :
  NoDup (l1 ++ l2) -> place prev l2 -> list_add_before new prev (l1 ++ l2) = Some (l1 ++ new :: l2).
Proof.
  unfold place. intros Hn Hp. destruct l2 as [|p l2]; simpl in Hp; subst prev.
  - rewrite app_nil_r. apply list_add_tail_app.
  - apply list_add_before_app. apply NoDup_app in Hn as (_ & Hd & _). set_solver.
Qed.

Lemma range_alloc_ok s aid a prev pu st en id l1 l2 :
  wf s -> areas s !! aid = Some a -> ranges s !! id = None -> is_Some (file a) ->
  unpinned_list a = l1 ++ l2 -> place prev l2 -> range_ok (mk_range aid st en pu) ->
  Forall (fun x => forall rx, ranges s !! x = Some rx -> en < pgstart rx) l1 ->
  Forall (fun x => forall rx, ranges s !! x = Some rx -> pgend rx < st) l2 ->
  exists s', range_alloc s aid prev pu st en (Some id) = Some (s', 0) /\ wf s' /\
    areas s' = <[aid := set_unpinned a (l1 ++ id :: l2)]> (areas s) /\
    ranges s' = <[id := mk_range aid st en pu]> (ranges s) /\
    f_count s' = f_count s /\ truncated s' = truncated s.
Proof.
  intros W Ha Hid Hf E Hpl Hok H1 H2. pose proof (wf_areas s W _ _ Ha) as Hao.
  unfold range_alloc. rewrite Ha. simpl. rewrite E, list_add_place by (try done; rewrite <- E; apply Hao).
  simpl. set (r := mk_range aid st en pu) in *.
  assert (Har : forall aid0 a0, <[aid := set_unpinned a (l1 ++ id :: l2)]> (areas s) !! aid0 = Some a0 ->
    area_ok (<[id := r]> (ranges s)) aid0 a0).
  { intros aid0 a0 H0. rewrite lookup_insert in H0. case_decide as Hd; simplify_eq.
    - by apply area_ok_insert.
    - eapply area_ok_ext; [|by eapply wf_areas]. intros x Hx. apply lookup_insert_ne. intros <-.
      pose proof (ao_ranges _ _ _ (wf_areas s W _ _ H0)) as Hm. rewrite Forall_forall in Hm.
      destruct (Hm id Hx) as (? & ? & _). congruence. }
  assert (Hrg : forall x rx, <[id := r]> (ranges s) !! x = Some rx ->
    exists a0, <[aid := set_unpinned a (l1 ++ id :: l2)]> (areas s) !! asma rx = Some a0 /\
               x ∈ unpinned_list a0).
  { intros x rx Hx. rewrite lookup_insert in Hx. case_decide as Hd; simplify_eq.
    - exists (set_unpinned a (l1 ++ x :: l2)). simpl. rewrite lookup_insert_eq. set_solver.
    - destruct (wf_ranges s W x rx Hx) as (a0 & Ha0 & Hin). rewrite lookup_insert.
      case_decide as Hd'; [|by exists a0]. rewrite <- Hd', Ha in Ha0. simplify_eq.
      eexists. split; [done|]. rewrite E in Hin. simpl. set_solver. }
  assert (Hnl : id ∉ lru_list s)
    by (intros Hl; apply (wf_lru s W) in Hl as (? & ? & _); congruence).
  eexists. split; [done|]. split; [|by case_match]. unfold range_on_lru. simpl.
  destruct (Z.eqb_spec pu ASHMEM_NOT_PURGED) as [Hp|Hp].
  - split; simpl; [done|done| | |].
    + apply NoDup_app. split; [apply W|]. split; [set_solver|apply NoDup_singleton].
    + intros x. rewrite elem_of_app, list_elem_of_singleton, (wf_lru s W x), lookup_insert.
      case_decide as Hd; [|naive_solver]. subst x. rewrite Hid. split; [|by right].
      intros _. by exists r.
    + rewrite (wf_count s W), lru_sum_app, lru_sum_insert by done. simpl.
      unfold range_size_at. rewrite lookup_insert_eq. u32_norm. f_equal. lia.
  - split; simpl; [done|done|apply W| |].
    + intros x. rewrite (wf_lru s W x), lookup_insert. case_decide as Hd; [|done]. subst x.
      rewrite Hid. split; intros (rx & Hx & Hpx); simplify_eq.
    + rewrite (wf_count s W), lru_sum_insert by done. done.
Qed.

(** *** Pages under a change of the ranges *)

Lemma page_delete s s' id r aid p :
  ranges s' = delete id (ranges s) -> ranges s !! id = Some r ->
  unpinned_page s aid p <->
  (asma r = aid /\ pgstart r <= p <= pgend r) \/ unpinned_page s' aid p.
Proof.
  intros E Hr. unfold unpinned_page. rewrite E. split.
  - intros (x & rx & Hx & Ha & Hp). destruct (decide (x = id)) as [->|Hne].
    + left. simplify_eq. done.
    + right. exists x, rx. by rewrite lookup_delete_ne.
  - intros [(Ha & Hp)|(x & rx & Hx & Ha & Hp)]; [by exists id, r|].
    apply lookup_delete_Some in Hx as [_ Hx]. by exists x, rx.
Qed.

Lemma page_update s s' id r r' aid p :
  ranges s' = <[id := r']> (ranges s) -> ranges s !! id = Some r -> asma r' = asma r ->
  (unpinned_page s aid p -> (asma r = aid /\ pgstart r <= p <= pgend r) \/ unpinned_page s' aid p) /\
  (unpinned_page s' aid p -> (asma r = aid /\ pgstart r' <= p <= pgend r') \/ unpinned_page s aid p) /\
  (asma r = aid -> pgstart r' <= p <= pgend r' -> unpinned_page s' aid p).
Proof.
  intros E Hr Ha'. unfold unpinned_page. rewrite E. repeat split.
  - intros (x & rx & Hx & Ha & Hp). destruct (decide (x = id)) as [->|Hne]; [left; by simplify_eq|].
    right. exists x, rx. by rewrite lookup_insert_ne.
  - intros (x & rx & Hx & Ha & Hp). rewrite lookup_insert in Hx.
    case_decide; simplify_eq; [left; split; [congruence|done]|right; by exists x, rx].
  - intros Ha Hp. exists id, r'. rewrite lookup_insert_eq. split; [done|]. split; [congruence|done].
Qed.

Lemma page_insert s s' id r aid p :
  ranges s' = <[id := r]> (ranges s) -> ranges s !! id = None ->
  unpinned_page s' aid p <->
  (asma r = aid /\ pgstart r <= p <= pgend r) \/ unpinned_page s aid p.
Proof.
  intros E Hr. unfold unpinned_page. rewrite E. split.
  - intros (x & rx & Hx & Ha & Hp). rewrite lookup_insert in Hx.
    case_decide; simplify_eq; [by left|right; by exists x, rx].
  - intros [(Ha & Hp)|(x & rx & Hx & Ha & Hp)].
    + exists id, r. by rewrite lookup_insert_eq.
    + exists x, rx. rewrite lookup_insert_ne; [done|]. intros <-. congruence.
Qed.

(** Allocating the upper part before or after the range is cut makes no difference. *)
Lemma alloc_shrink_commute s aid prev pu st en i id st' en' s1 s2 :
  i <> id -> range_shrink s id st' en' = Some s1 ->
  range_alloc s1 aid prev pu st en (Some i) = Some (s2, 0) ->
  exists s3, range_alloc s aid prev pu st en (Some i) = Some (s3, 0) /\
             range_shrink s3 id st' en' = Some s2.
Proof.
  intros Hne. unfold range_shrink, range_alloc, lru_add.
  destruct (ranges s !! id) as [r|] eqn:Hr; [|done]. simpl. intros [=<-].
  destruct (range_on_lru (set_bounds r st' en')) eqn:B1, (range_on_lru (mk_range aid st en pu)) eqn:B2;
    simpl; destruct (areas s !! aid) as [a|]; simpl; try done;
    destruct (list_add_before i prev (unpinned_list a)) as [l|]; simpl; try done;
    intros [=<-]; eexists; (split; [done|]); simpl;
    rewrite lookup_insert_ne, Hr by done; simpl; rewrite ?B1;
    unfold set_lru, set_areas, set_ranges; simpl; rewrite insert_insert_ne by done; try done.
  u32_norm. do 3 f_equal. lia.
Qed.

(** The ranges of a sorted list around one of them. *)
Lemma sorted_around s aid a pre id r ids :
  wf s -> areas s !! aid = Some a -> unpinned_list a = pre ++ id :: ids -> ranges s !! id = Some r ->
  asma r = aid /\ range_ok r /\ (id ∉ pre) /\ (id ∉ ids) /\
  (forall x rx, x ∈ pre -> ranges s !! x = Some rx -> pgend r < pgstart rx) /\
  (forall x rx, x ∈ ids -> ranges s !! x = Some rx -> pgend rx < pgstart r).
Proof.
  intros W Ha El Hr. pose proof (wf_areas s W _ _ Ha) as Hao.
  destruct (member_asma _ _ _ id r Hao) as [? ?]; [rewrite El; set_solver|done|].
  pose proof (ao_sorted _ _ _ Hao) as Hs. pose proof (ao_nodup _ _ _ Hao) as Hn.
  rewrite El in Hs, Hn. apply NoDup_app in Hn as (_ & Hd & Hn). apply NoDup_cons in Hn as [Hn _].
  do 2 (split; [done|]). split; [set_solver|]. split; [done|]. split.
  - intros x rx Hx Hrx. assert (Hab : above (ranges s) x id) by
      (eapply StronglySorted_app_1_elem_of; [exact Hs|done|set_solver]).
    by apply Hab.
  - apply StronglySorted_app_1_r in Hs. inversion_clear Hs as [|? ? _ Hs'].
    rewrite Forall_forall in Hs'. intros x rx Hx Hrx. by apply (Hs' x Hx).
Qed.

(** Every address on the list of an area is that of a range. *)
Lemma on_list_range s aid a id :
  wf s -> areas s !! aid = Some a -> id ∈ unpinned_list a -> exists r, ranges s !! id = Some r.
Proof.
  intros W Ha Hin. pose proof (ao_ranges _ _ _ (wf_areas s W _ _ Ha)) as Hm.
  rewrite Forall_forall in Hm. destruct (Hm id Hin) as (r & Hr & _). by exists r.
Qed.

(** ** ashmem_pin *)

Section Pin.
Context (aid : nat) (st en : Z) (new : option nat).
Context (Hst : 0 <= st <= en + 1) (Hen : 0 <= en < 2 ^ 20 - 1).

(** From [s] to [s'] no page becomes unpinned and none outside the request
    becomes pinned, except when a range could not be split for want of memory. *)
Record pin_step (s s' : state) : Prop := {
  ps_wf : wf s';
  ps_sub : forall x p, unpinned_page s' x p -> unpinned_page s x p;
  ps_keep : forall x p, x <> aid \/ (new <> None /\ (p < st \/ en < p)) \/ p < st ->
    unpinned_page s x p -> unpinned_page s' x p;
  ps_fc : f_count s' = f_count s;
  ps_tr : truncated s' = truncated s;
}.

Lemma pin_step_refl s : wf s -> pin_step s s.
Proof. by split. Qed.

Lemma pin_step_trans s1 s2 s3 : pin_step s1 s2 -> pin_step s2 s3 -> pin_step s1 s3.
Proof. intros [] []. split; try congruence; eauto. Qed.

Lemma pin_step_del s id r :
  wf s -> ranges s !! id = Some r -> asma r = aid ->
  page_range_subsumes_range r st en = true ->
  exists s' a l1 l2, range_del s id = Some s' /\ pin_step s s' /\
    areas s !! aid = Some a /\ unpinned_list a = l1 ++ id :: l2 /\
    areas s' !! aid = Some (set_unpinned a (l1 ++ l2)) /\ ranges s' = delete id (ranges s).
Proof.
  intros W Hr Ha Hsub. unfold page_range_subsumes_range in Hsub.
  apply andb_true_iff in Hsub as [H1%Z.leb_le H2%Z.leb_le].
  destruct (range_del_ok s id r W Hr) as (s' & a & l1 & l2 & E & W' & Ha' & El & Ea & Er & Ef & Et).
  rewrite Ha in Ha', Ea.
  exists s', a, l1, l2. split; [done|]. split; [|by rewrite Ea, lookup_insert_eq].
  split; [done| | |done|done]; intros x p; rewrite (page_delete s s' id r x p Er Hr); [tauto|].
  intros Hc [(Hx & Hp)|]; [|done]. destruct Hc as [?|[(_ & ?)|?]]; [congruence|lia..].
Qed.

Lemma pin_step_shrink s id r st' en' :
  wf s -> ranges s !! id = Some r -> asma r = aid -> range_ok (set_bounds r st' en') ->
  pgstart r <= st' -> en' <= pgend r ->
  (forall p, pgstart r <= p <= pgend r -> ~ (st' <= p <= en') -> st <= p <= en) ->
  exists s', range_shrink s id st' en' = Some s' /\ pin_step s s' /\ areas s' = areas s /\
    ranges s' = <[id := set_bounds r st' en']> (ranges s).
Proof.
  intros W Hr Ha Hok H1 H2 Hq.
  destruct (range_shrink_ok s id r st' en' W Hr Hok H1 H2) as (s' & E & W' & Ea & Er & Ef & Et).
  exists s'. split; [done|]. split; [|done].
  split; [done| | |done|done]; intros x p;
    destruct (page_update s s' id r _ x p Er Hr eq_refl) as (P1 & P2 & P3); simpl in *.
  - intros Hp. destruct (P2 Hp) as [(Hx & Hp')|]; [|done]. exists id, r. split; [done|].
    split; [done|lia].
  - intros Hc Hp. destruct (P1 Hp) as [(Hx & Hp')|]; [|done].
    destruct (decide (st' <= p <= en')) as [Hi|Hi]; [by apply P3|].
    specialize (Hq p Hp' Hi). destruct Hc as [?|[(_ & ?)|?]]; [congruence|lia..].
Qed.

(** The requested pages that the range does not hold. *)
Definition misses (r : ashmem_range) : Prop := pgend r < st \/ en < pgstart r \/ pgend r < pgstart r.

(** The ranges of the area after a cut: what is left misses the request. *)
Definition cut (s s2 : state) (id : nat) : Prop :=
  forall x rx, ranges s2 !! x = Some rx -> asma rx = aid ->
    (x = id \/ Some x = new) /\ misses rx \/ (x <> id /\ ranges s !! x = Some rx).

Lemma pin_step_cut_low s s2 id r :
  wf s2 -> new = None -> ranges s !! id = Some r -> asma r = aid -> st <= pgend r + 1 ->
  ranges s2 = <[id := set_bounds r (pgstart r) (st - 1)]> (ranges s) ->
  f_count s2 = f_count s -> truncated s2 = truncated s -> pin_step s s2 /\ cut s s2 id.
Proof.
  intros W Hn Hr Ha Hb Er Ef Et. split.
  - split; [done| | |done..]; intros x p;
      destruct (page_update s s2 id r _ x p Er Hr eq_refl) as (P1 & P2 & P3); simpl in *.
    + intros Hp. destruct (P2 Hp) as [(Hx & Hp')|]; [|done]. exists id, r. split; [done|].
      split; [done|lia].
    + intros Hc Hp. destruct (P1 Hp) as [(Hx & Hp')|]; [|done]. apply P3; [done|].
      destruct Hc as [?|[(? & _)|?]]; [congruence|done|lia].
  - intros x rx Hx Hax. unfold misses. rewrite Er, lookup_insert in Hx.
    case_decide; simplify_eq; simpl; [left; split; [by auto|lia]|by right].
Qed.

Lemma pin_step_cut_both s s2 id i r :
  wf s2 -> new = Some i -> ranges s !! id = Some r -> asma r = aid -> ranges s !! i = None ->
  pgstart r < st -> en < pgend r ->
  ranges s2 = <[i := mk_range aid (en + 1) (pgend r) (purged r)]>
                (<[id := set_bounds r (pgstart r) (st - 1)]> (ranges s)) ->
  f_count s2 = f_count s -> truncated s2 = truncated s -> pin_step s s2 /\ cut s s2 id.
Proof.
  intros W Hn Hr Ha Hi H1 H2 Er Ef Et. assert (Hne : i <> id) by congruence.
  split; [split; [done| | |done..]; intros x p|].
  - intros (y & ry & Hy & Hax & Hp). rewrite Er, !lookup_insert in Hy.
    repeat case_decide; simplify_eq; simpl in *; [..|by exists y, ry];
      eexists _, r; (split; [exact Hr|]); (split; [done|lia]).
  - intros Hc (y & ry & Hy & Hax & Hp). destruct (decide (y = id)) as [->|Hyi].
    + rewrite Hr in Hy. injection Hy as <-. destruct (decide (p < st)) as [Hlt|Hge].
      * exists id, (set_bounds r (pgstart r) (st - 1)).
        rewrite Er, lookup_insert_ne, lookup_insert_eq by done. simpl. repeat split; [done|lia..].
      * exists i, (mk_range aid (en + 1) (pgend r) (purged r)).
        rewrite Er, lookup_insert_eq. simpl. repeat split; [by rewrite <- Ha| |lia].
        destruct Hc as [?|[(_ & ?)|?]]; [congruence|lia..].
    + exists y, ry. rewrite Er, !lookup_insert_ne; [done|congruence..].
  - intros x rx Hx Hax. unfold misses. rewrite Er, !lookup_insert in Hx.
    repeat case_decide; simplify_eq; simpl; [left; split; [by auto|lia]..|by right].
Qed.

(** Case 4: the request is strictly inside the range.  The upper part becomes a
    new range, unless the allocation fails. *)
Lemma pin_step_split s a id r l1 l2 :
  wf s -> areas s !! aid = Some a -> unpinned_list a = l1 ++ id :: l2 ->
  ranges s !! id = Some r -> pgstart r < st -> en < pgend r -> st <= en + 1 ->
  (forall i, new = Some i -> ranges s !! i = None) ->
  Forall (fun x => forall rx, ranges s !! x = Some rx -> pgend r < pgstart rx) l1 ->
  exists s1 ret s2, range_alloc s aid (Some id) (purged r) (u32 (en + 1)) (pgend r) new = Some (s1, ret) /\
    range_shrink s1 id (pgstart r) (u32 (st - 1)) = Some s2 /\ pin_step s s2 /\ cut s s2 id.
Proof.
  intros W Ha El Hr H1 H2 H3 Hnew Habove.
  assert (Hin : id ∈ unpinned_list a) by (rewrite El; set_solver).
  pose proof (wf_areas s W _ _ Ha) as Hao.
  destruct (member_asma _ _ _ _ _ Hao Hin Hr) as [Hasma [Ho1 Ho2 Ho3 Ho4]].
  assert (Hf : is_Some (file a)) by (apply Hao; rewrite El; by destruct l1).
  rewrite (u32_id (en + 1)), (u32_id (st - 1)) by (unfold is_u32; lia).
  assert (Hbelow : Forall (fun x => forall rx, ranges s !! x = Some rx -> pgend rx < st) l2).
  { pose proof (ao_sorted _ _ _ Hao) as Hs. rewrite El in Hs.
    apply StronglySorted_app_1_r in Hs. inversion_clear Hs as [|? ? _ Hs'].
    eapply Forall_impl; [exact Hs'|]. intros x Hx rx Hrx. specialize (Hx _ _ Hr Hrx). lia. }
  assert (Hok2 : range_ok (set_bounds r (pgstart r) (st - 1))) by (split; simpl; lia || done).
  destruct (range_shrink_ok s id r (pgstart r) (st - 1) W Hr Hok2)
    as (s1 & E1 & W1 & Ea1 & Er1 & Ef1 & Et1); [lia..|].
  destruct new as [i|] eqn:En.
  - assert (Hne : i <> id) by (intros ->; rewrite (Hnew id eq_refl) in Hr; done).
    destruct (range_alloc_ok s1 aid a (Some id) (purged r) (en + 1) (pgend r) i l1 (id :: l2))
      as (s2 & E2 & W2 & _ & Er2 & Ef2 & Et2); rewrite ?Ea1, ?Er1; try done.
    { rewrite lookup_insert_ne by done. by apply Hnew. }
    { split; simpl; lia || done. }
    { eapply Forall_impl; [exact Habove|]. intros x Hx rx. rewrite lookup_insert.
      case_decide; [|by apply Hx]. intros [=<-]. subst. specialize (Hx _ Hr). lia. }
    { constructor.
      - rewrite lookup_insert_eq. intros rx [=<-]. simpl. lia.
      - eapply Forall_impl; [exact Hbelow|]. intros x Hx rx. rewrite lookup_insert.
        case_decide; [intros [=<-]; simpl; lia|]. intros Hrx. specialize (Hx _ Hrx). lia. }
    destruct (alloc_shrink_commute s aid (Some id) (purged r) (en + 1) (pgend r) i id
      (pgstart r) (st - 1) s1 s2 Hne E1 E2) as (s3 & A3 & A4).
    exists s3, 0, s2. split; [done|]. split; [done|].
    apply (pin_step_cut_both s s2 id i r); try done; [by apply Hnew|rewrite Er2, Er1; done|congruence..].
  - exists s, (- ENOMEM), s1. split; [done|]. split; [done|].
    apply (pin_step_cut_low s s1 id r); try done. lia.
Qed.
(** The ranges a request acts on; for a range and a request that are not empty, the
    two overlap. *)
Definition touches (r : ashmem_range) : bool :=
  negb (range_before_page r st) && page_range_in_range r st en.

Lemma touches_overlap r :
  st <= en -> pgstart r <= pgend r ->
  touches r = true <-> exists p, st <= p <= en /\ pgstart r <= p <= pgend r.
Proof.
  intros H1 H2. unfold touches, range_before_page, page_range_in_range, page_in_range,
    page_range_subsumes_range. split.
  - intros H. exists (Z.max st (pgstart r)). zbool_in H; split; lia || done.
  - intros (p & Hp). zbool.
Qed.

Lemma not_touches_misses r : range_ok r -> touches r = false -> misses r.
Proof.
  unfold touches, range_before_page, page_range_in_range, page_in_range,
    page_range_subsumes_range, misses.
  intros [] H. zbool_in H; done || lia.
Qed.

Definition touches_purged (R : gmap nat ashmem_range) (ids : list nat) : Prop :=
  exists id r, id ∈ ids /\ R !! id = Some r /\ touches r = true /\ purged r = ASHMEM_WAS_PURGED.

Lemma touches_purged_cons R id r ids :
  R !! id = Some r -> range_ok r ->
  touches_purged R (id :: ids) <->
  (touches r = true /\ purged r = ASHMEM_WAS_PURGED) \/ touches_purged R ids.
Proof.
  intros Hr Hok. unfold touches_purged. split.
  - intros (x & rx & Hx & Hrx & Ht & Hp). apply elem_of_cons in Hx as [->|Hx]; [left; by simplify_eq|].
    right. by exists x, rx.
  - intros [[Ht Hp]|(x & rx & Hx & Hrx)]; [exists id, r|exists x, rx]; set_solver.
Qed.

Lemma touches_purged_ext R R' ids :
  (forall x, x ∈ ids -> R' !! x = R !! x) -> touches_purged R' ids <-> touches_purged R ids.
Proof.
  intros H. unfold touches_purged. split; intros (x & rx & Hx & Hrx & ?); exists x, rx.
  - rewrite <- (H x Hx). done.
  - rewrite (H x Hx). done.
Qed.

Lemma before_ends R ids :
  (forall x rx, x ∈ ids -> R !! x = Some rx -> pgend rx < st) -> ~ touches_purged R ids.
Proof.
  intros H (x & rx & Hx & Hrx & Ht & _). specialize (H x rx Hx Hrx).
  unfold touches, range_before_page in Ht. by zbool_in Ht.
Qed.

(** What the loop establishes from a state [s] in which it has still to visit [ids]. *)
Record pin_done (s : state) (ids : list nat) (ret : Z) (s' : state) (ret' : Z) : Prop := {
  pd_step : pin_step s s';
  pd_misses : forall x rx, ranges s' !! x = Some rx -> asma rx = aid -> misses rx;
  pd_flag : ret' = ASHMEM_NOT_PURGED \/ ret' = ASHMEM_WAS_PURGED;
  pd_ret : ret' = ASHMEM_WAS_PURGED <-> ret = ASHMEM_WAS_PURGED \/ touches_purged (ranges s) ids;
}.

(** The visit of one range, then the rest of the list. *)
Lemma pin_done_cons s s1 s' id r ids ret ret' :
  ranges s !! id = Some r -> range_ok r -> touches r = true -> pin_step s s1 ->
  (forall x, x ∈ ids -> ranges s1 !! x = ranges s !! x) ->
  ret = ASHMEM_NOT_PURGED \/ ret = ASHMEM_WAS_PURGED ->
  pin_done s1 ids (Z.lor ret (purged r)) s' ret' -> pin_done s (id :: ids) ret s' ret'.
Proof.
  intros Hr Hok Ht Hs Hx Hret [D1 D2 D3 D4]. split; [by eapply pin_step_trans|done..|].
  rewrite D4, (touches_purged_cons _ id r) by done. rewrite (touches_purged_ext (ranges s)) by done.
  destruct Hok as [_ _ _ [Hp|Hp]], Hret as [->| ->]; rewrite Hp;
    unfold ASHMEM_NOT_PURGED, ASHMEM_WAS_PURGED; simpl; naive_solver lia.
Qed.

(** The list has been visited up to [pre]; the ranges left in it miss the request. *)
Record pin_at (s : state) (pre ids : list nat) : Prop := {
  pa_wf : wf s;
  pa_list : exists a, areas s !! aid = Some a /\ unpinned_list a = pre ++ ids;
  pa_pre : forall x rx, x ∈ pre -> ranges s !! x = Some rx -> misses rx;
  pa_new : forall i, new = Some i -> ranges s !! i = None;
}.

(** No range of the area is elsewhere than on its list. *)
Lemma pin_at_rest s pre ids x rx :
  pin_at s pre ids -> ranges s !! x = Some rx -> asma rx = aid -> x ∈ pre \/ x ∈ ids.
Proof.
  intros [W (a & Ha & El) _ _] Hx Hax. destruct (wf_ranges s W x rx Hx) as (a' & Ha' & Hin).
  rewrite Hax, Ha in Ha'. simplify_eq. rewrite El in Hin. set_solver.
Qed.

(** Nothing left to do: the ranges still to be visited end before the request. *)
Lemma pin_done_stop s pre ids ret :
  pin_at s pre ids -> (forall x rx, x ∈ ids -> ranges s !! x = Some rx -> pgend rx < st) ->
  ret = ASHMEM_NOT_PURGED \/ ret = ASHMEM_WAS_PURGED -> pin_done s ids ret s ret.
Proof.
  intros P Hb Hret. split; [apply pin_step_refl, P| |done|].
  - intros x rx Hx Hax. destruct (pin_at_rest _ _ _ _ _ P Hx Hax); [by eapply (pa_pre _ _ _ P)|].
    left. by eapply Hb.
  - pose proof (before_ends _ _ Hb). tauto.
Qed.

Lemma pin_at_del s pre id r ids :
  pin_at s pre (id :: ids) -> ranges s !! id = Some r -> page_range_subsumes_range r st en = true ->
  exists s1, range_del s id = Some s1 /\ pin_step s s1 /\ pin_at s1 pre ids /\
    (forall x, x ∈ ids -> ranges s1 !! x = ranges s !! x).
Proof.
  intros [W (a & Ha & El) Hpre Hnew] Hr Hsub.
  destruct (sorted_around s aid a pre id r ids W Ha El Hr) as (Has & _ & N1 & N2 & _).
  destruct (pin_step_del s id r W Hr Has Hsub) as (s1 & a' & l1 & l2 & E & Hst' & Ha' & El' & Ea & Er).
  rewrite Ha in Ha'. injection Ha' as <-. rewrite El in El'.
  assert (l1 = pre /\ l2 = ids) as [-> ->].
  { pose proof (ao_nodup _ _ _ (wf_areas s W _ _ Ha)) as Hn. rewrite El, El' in Hn.
    by apply (app_inj_pivot_nodup id). }
  exists s1. do 2 (split; [done|]). split; [split|].
  - apply Hst'.
  - eexists. split; [done|]. done.
  - intros x rx Hx. rewrite Er, lookup_delete_ne by set_solver. by apply Hpre.
  - intros i Hi. rewrite Er. apply lookup_delete_None. right. by apply Hnew.
  - intros x Hx. rewrite Er, lookup_delete_ne; [done|set_solver].
Qed.

Lemma pin_at_shrink s pre id r ids st' en' :
  pin_at s pre (id :: ids) -> ranges s !! id = Some r -> range_ok (set_bounds r st' en') ->
  pgstart r <= st' -> en' <= pgend r -> misses (set_bounds r st' en') ->
  (forall p, pgstart r <= p <= pgend r -> ~ (st' <= p <= en') -> st <= p <= en) ->
  exists s1, range_shrink s id st' en' = Some s1 /\ pin_step s s1 /\ pin_at s1 (pre ++ [id]) ids /\
    (forall x, x ∈ ids -> ranges s1 !! x = ranges s !! x).
Proof.
  intros [W (a & Ha & El) Hpre Hnew] Hr Hok H1 H2 Hm Hq.
  destruct (sorted_around s aid a pre id r ids W Ha El Hr) as (Has & _ & N1 & N2 & _).
  destruct (pin_step_shrink s id r st' en' W Hr Has Hok H1 H2 Hq) as (s1 & E & Hst' & Ea & Er).
  exists s1. do 2 (split; [done|]). split; [split|].
  - apply Hst'.
  - exists a. rewrite Ea, <- app_assoc. done.
  - intros x rx Hx. rewrite Er, lookup_insert. case_decide; [intros [=<-]; done|].
    apply Hpre. set_solver.
  - intros i Hi. rewrite Er, lookup_insert_ne; [by apply Hnew|]. intros <-.
    rewrite (Hnew id Hi) in Hr. done.
  - intros x Hx. rewrite Er, lookup_insert_ne; [done|set_solver].
Qed.

(** Skipping a range that the request does not touch. *)
Lemma pin_at_skip s pre id r ids :
  pin_at s pre (id :: ids) -> ranges s !! id = Some r -> misses r -> pin_at s (pre ++ [id]) ids.
Proof.
  intros [W (a & Ha & El) Hpre Hnew] Hr Hm. split; [done| | |done].
  - exists a. rewrite <- app_assoc. done.
  - intros x rx Hx Hrx. apply elem_of_app in Hx as [Hx| ->%list_elem_of_singleton];
      [by eapply Hpre|congruence].
Qed.

Lemma pin_done_skip s s' id r ids ret ret' :
  ranges s !! id = Some r -> range_ok r -> touches r = false ->
  pin_done s ids ret s' ret' -> pin_done s (id :: ids) ret s' ret'.
Proof.
  intros Hr Hok Ht [D1 D2 D3 D4]. split; [done..|].
  rewrite D4, (touches_purged_cons _ id r) by done. rewrite Ht. naive_solver.
Qed.

(** The split ends the loop. *)
Lemma pin_done_split s pre id r ids ret :
  pin_at s pre (id :: ids) -> ranges s !! id = Some r -> touches r = true ->
  pgstart r < st -> en < pgend r -> ret = ASHMEM_NOT_PURGED \/ ret = ASHMEM_WAS_PURGED ->
  exists s1 e s2, range_alloc s aid (Some id) (purged r) (u32 (en + 1)) (pgend r) new = Some (s1, e) /\
    range_shrink s1 id (pgstart r) (u32 (st - 1)) = Some s2 /\
    pin_done s (id :: ids) ret s2 (Z.lor ret (purged r)).
Proof.
  intros P Hr Ht H1 H2 Hret. pose proof P as [W (a & Ha & El) Hpre Hnew].
  destruct (sorted_around s aid a pre id r ids W Ha El Hr) as (Has & Hok & N1 & N2 & Hab & Hbe).
  destruct (pin_step_split s a id r pre ids) as (s1 & e & s2 & E1 & E2 & Hs & Hcut); try done; [lia|..].
  { rewrite Forall_forall. eauto. }
  exists s1, e, s2. do 2 (split; [done|]).
  assert (Hlow : forall x rx, x ∈ ids -> ranges s !! x = Some rx -> pgend rx < st)
    by (intros x rx Hx Hrx; specialize (Hbe _ _ Hx Hrx); lia).
  split; [done| | |].
  - intros x rx Hx Hax. destruct (Hcut x rx Hx Hax) as [[_ ?]|[Hne Hx0]]; [done|].
    destruct (pin_at_rest _ _ _ _ _ P Hx0 Hax) as [Hin|Hin]; [by eapply Hpre|]. left.
    eapply Hlow; [|done]. set_solver.
  - destruct Hok as [_ _ _ [Hp|Hp]], Hret as [->| ->]; rewrite Hp; auto.
  - rewrite (touches_purged_cons _ id r) by done. pose proof (before_ends _ _ Hlow).
    destruct Hok as [_ _ _ [Hp|Hp]], Hret as [->| ->]; rewrite Hp;
      unfold ASHMEM_NOT_PURGED, ASHMEM_WAS_PURGED; simpl; naive_solver lia.
Qed.

Lemma touches_cases r :
  touches r = true -> range_ok r ->
  st <= pgend r /\
  (page_range_subsumes_range r st en = false -> pgstart r <= en + 1 /\
   (st <= pgstart r -> en < pgend r)).
Proof.
  unfold touches, range_before_page, page_range_in_range, page_in_range, page_range_subsumes_range.
  intros H []. zbool_in H; try done; zbool; lia.
Qed.

Lemma pin_loop_ok ids : forall s pre ret,
  pin_at s pre ids -> ret = ASHMEM_NOT_PURGED \/ ret = ASHMEM_WAS_PURGED ->
  exists s' ret', ashmem_pin_loop s aid ids st en ret new = Some (s', ret') /\
    pin_done s ids ret s' ret'.
Proof.
  induction ids as [|id ids IH]; intros s pre ret P Hret; simpl.
  { exists s, ret. split; [done|]. eapply pin_done_stop; [done|set_solver|done]. }
  pose proof P as [W (a & Ha & El) _ _].
  destruct (on_list_range s aid a id W Ha) as (r & Hr); [rewrite El; set_solver|].
  destruct (sorted_around s aid a pre id r ids W Ha El Hr) as (Has & Hok & _ & _ & _ & Hbe).
  assert (Hflag : Z.lor ret (purged r) = ASHMEM_NOT_PURGED \/ Z.lor ret (purged r) = ASHMEM_WAS_PURGED)
    by (destruct Hok as [_ _ _ [-> | ->]], Hret as [->| ->]; auto).
  rewrite Hr. simpl. destruct (range_before_page r st) eqn:Bb.
  { exists s, ret. split; [done|]. eapply pin_done_stop; [done| |done].
    unfold range_before_page in Bb. apply Z.ltb_lt in Bb. destruct Hok. intros x rx Hx Hrx.
    apply elem_of_cons in Hx as [->|Hx]; [congruence|]. specialize (Hbe _ _ Hx Hrx). lia. }
  destruct (page_range_in_range r st en) eqn:Bi.
  2: { assert (Ht : touches r = false) by (unfold touches; rewrite Bi; apply andb_false_r).
    destruct (IH s (pre ++ [id]) ret) as (s' & ret' & E & D); [|done|].
    - eapply pin_at_skip; [done..|]. by apply not_touches_misses.
    - exists s', ret'. split; [done|]. by eapply pin_done_skip. }
  assert (Ht : touches r = true) by (unfold touches; rewrite Bb, Bi; done).
  pose proof (touches_cases r Ht Hok) as Hc.
  destruct (page_range_subsumes_range r st en) eqn:Bs.
  { destruct (pin_at_del s pre id r ids P Hr Bs) as (s1 & -> & Hs & P1 & Hx). simpl.
    destruct (IH s1 pre _ P1 Hflag) as (s' & ret' & E & D).
    exists s', ret'. split; [done|]. by eapply pin_done_cons. }
  destruct (Z.leb_spec st (pgstart r)) as [B1|B1];
    [|destruct (Z.leb_spec (pgend r) en) as [B2|B2]].
  - rewrite u32_id by (unfold is_u32; destruct Hok; lia).
    destruct (pin_at_shrink s pre id r ids (en + 1) (pgend r) P Hr) as (s1 & -> & Hs & P1 & Hx);
      simpl; [split; simpl; destruct Hok; lia || done|lia..|right; simpl; lia|lia|].
    destruct (IH s1 _ _ P1 Hflag) as (s' & ret' & E & D).
    exists s', ret'. split; [done|]. by eapply pin_done_cons.
  - rewrite u32_id by (unfold is_u32; destruct Hok; lia).
    destruct (pin_at_shrink s pre id r ids (pgstart r) (st - 1) P Hr) as (s1 & -> & Hs & P1 & Hx);
      simpl; [split; simpl; destruct Hok; lia || done|lia..|left; simpl; lia|lia|].
    destruct (IH s1 _ _ P1 Hflag) as (s' & ret' & E & D).
    exists s', ret'. split; [done|]. by eapply pin_done_cons.
  - destruct (pin_done_split s pre id r ids ret P Hr Ht) as (s1 & e & s2 & -> & E2 & D); [lia..|done|].
    simpl. rewrite E2. simpl. eauto.
Qed.
End Pin.

Lemma pin_ok_short s aid a st en new :
  wf s -> areas s !! aid = Some a -> 0 <= st <= en + 1 -> 0 <= en < 2 ^ 20 - 1 ->
  (forall i, new = Some i -> ranges s !! i = None) ->
  exists s' ret, ashmem_pin s aid st en new = Some (s', ret) /\ wf s' /\
    pin_done aid st en new s (unpinned_list a) ASHMEM_NOT_PURGED s' ret.
Proof.
  intros W Ha Hst Hen Hnew. unfold ashmem_pin. rewrite Ha. simpl.
  destruct (pin_loop_ok aid st en new Hst Hen (unpinned_list a) s [] ASHMEM_NOT_PURGED)
    as (s' & ret & E & D); [|by left|].
  { split; [done| |set_solver|done]. by exists a. }
  exists s', ret. split; [done|]. split; [apply D|done].
Qed.

(** C30. [ashmem_pin] on a well-formed state: it follows no dangling pointer, keeps the
    invariant, leaves no requested page unpinned, unpins nothing, and pins nothing else:
    pages of other areas and below the request stay as they were, and so do the pages
    above it provided the range a split needs could be allocated.  It reports
    [ASHMEM_WAS_PURGED] exactly when a range the request touches was purged; in
    particular when a requested page was in a purged range. *)
Theorem ashmem_pin_correct s aid a st en new :
  wf s -> areas s !! aid = Some a -> 0 <= st <= en + 1 -> 0 <= en < 2 ^ 20 - 1 ->
  (forall i, new = Some i -> ranges s !! i = None) ->
  exists s' ret, ashmem_pin s aid st en new = Some (s', ret) /\ wf s' /\
    (forall p, st <= p <= en -> ~ unpinned_page s' aid p) /\
    (forall x p, unpinned_page s' x p -> unpinned_page s x p) /\
    (forall x p, x <> aid \/ (new <> None /\ (p < st \/ en < p)) \/ p < st ->
       unpinned_page s x p -> unpinned_page s' x p) /\
    (ret = ASHMEM_NOT_PURGED \/ ret = ASHMEM_WAS_PURGED) /\
    (ret = ASHMEM_WAS_PURGED <-> touches_purged st en (ranges s) (unpinned_list a)) /\
    (forall id r p, id ∈ unpinned_list a -> ranges s !! id = Some r ->
       purged r = ASHMEM_WAS_PURGED -> pgstart r <= p <= pgend r -> st <= p <= en ->
       ret = ASHMEM_WAS_PURGED).
Proof.
  intros W Ha Hst Hen Hnew.
  destruct (pin_ok_short s aid a st en new W Ha Hst Hen Hnew) as (s' & ret & E & _ & [[D1 D2 D3 _ _] Dm Df Dr]).
  exists s', ret. do 2 (split; [done|]). split.
  { intros p Hp (id & r & Hr & Hax & Hpr). destruct (Dm id r Hr Hax) as [?|[?|?]]; lia. }
  do 3 (split; [done|]). assert (Hiff : ret = ASHMEM_WAS_PURGED <-> touches_purged st en (ranges s) (unpinned_list a)).
  { rewrite Dr. unfold ASHMEM_NOT_PURGED, ASHMEM_WAS_PURGED. naive_solver lia. }
  split; [done|]. intros id r p Hid Hr Hp Hpr Hpq. apply Hiff. exists id, r. do 2 (split; [done|]).
  split; [|done]. apply touches_overlap; [lia..|]. by exists p.
Qed.

(** ** ashmem_unpin *)

(** A page of a range that was purged: its contents are lost, and the next pin of it
    has to say so. *)
Definition purged_page (s : state) (aid : nat) (p : Z) : Prop :=
  exists id r, ranges s !! id = Some r /\ asma r = aid /\ pgstart r <= p <= pgend r /\
    purged r = ASHMEM_WAS_PURGED.

(** The ranges of an area are disjoint. *)
Lemma range_unique s aid a id1 id2 r1 r2 p :
  wf s -> areas s !! aid = Some a -> id1 ∈ unpinned_list a -> id2 ∈ unpinned_list a ->
  ranges s !! id1 = Some r1 -> ranges s !! id2 = Some r2 ->
  pgstart r1 <= p <= pgend r1 -> pgstart r2 <= p <= pgend r2 -> id1 = id2.
Proof.
  intros W Ha H1 H2 Hr1 Hr2 P1 P2. apply list_elem_of_split in H1 as (pre & ids & El).
  destruct (sorted_around s aid a pre id1 r1 ids W Ha El Hr1) as (_ & _ & _ & _ & Hab & Hbe).
  rewrite El in H2. apply elem_of_app in H2 as [H2|H2]; [specialize (Hab _ _ H2 Hr2); lia|].
  apply elem_of_cons in H2 as [->|H2]; [done|]. specialize (Hbe _ _ H2 Hr2). lia.
Qed.

Lemma page_on_list s aid a id r :
  wf s -> areas s !! aid = Some a -> ranges s !! id = Some r -> asma r = aid -> id ∈ unpinned_list a.
Proof.
  intros W Ha Hr Has. destruct (wf_ranges s W id r Hr) as (a' & Ha' & Hin). congruence.
Qed.

(** A range and a request that touch are together one interval. *)
Lemma touch_union st en r :
  touches st en r = true -> page_range_subsumed_by_range r st en = false -> st <= en + 1 -> range_ok r ->
  forall p, (pgstart r <= p <= pgend r) \/ st <= p <= en <-> Z.min (pgstart r) st <= p <= Z.max (pgend r) en.
Proof.
  unfold touches, range_before_page, page_range_in_range, page_in_range, page_range_subsumes_range,
    page_range_subsumed_by_range.
  intros Ht Hs Hst [] p. zbool_in Ht; try done; zbool_in Hs; try done; lia.
Qed.

Section Unpin.
Context (aid : nat) (new : option nat).

Lemma unpin_scan_ok s a st en ids : forall pre,
  wf s -> areas s !! aid = Some a -> unpinned_list a = pre ++ ids -> st <= en + 1 ->
  (forall x rx, x ∈ pre -> ranges s !! x = Some rx -> en < pgstart rx) ->
  exists stop, unpin_scan s ids st en = Some stop /\
    match stop with
    | InsertAt prev => exists l1 l2, unpinned_list a = l1 ++ l2 /\ place prev l2 /\
        (forall x rx, x ∈ l1 -> ranges s !! x = Some rx -> en < pgstart rx) /\
        (forall x rx, x ∈ l2 -> ranges s !! x = Some rx -> pgend rx < st)
    | AlreadyUnpinned => exists id r, id ∈ ids /\ ranges s !! id = Some r /\ pgstart r <= st /\ en <= pgend r
    | Overlaps id r => id ∈ ids /\ ranges s !! id = Some r /\ touches st en r = true /\
        page_range_subsumed_by_range r st en = false
    end.
Proof.
  induction ids as [|id ids IH]; intros pre W Ha El Hst Hpre; simpl.
  { eexists. split; [done|]. simpl. exists pre, []. repeat split; [done..|set_solver]. }
  destruct (on_list_range s aid a id W Ha) as (r & Hr); [rewrite El; set_solver|].
  destruct (sorted_around s aid a pre id r ids W Ha El Hr) as (Has & Hok & _ & _ & _ & Hbe).
  rewrite Hr. simpl. destruct (range_before_page r st) eqn:Bb.
  { eexists. split; [done|]. simpl. exists pre, (id :: ids). repeat split; [done..|].
    unfold range_before_page in Bb. apply Z.ltb_lt in Bb. destruct Hok. intros x rx Hx Hrx.
    apply elem_of_cons in Hx as [->|Hx]; [congruence|]. specialize (Hbe _ _ Hx Hrx). lia. }
  destruct (page_range_subsumed_by_range r st en) eqn:Bs.
  { eexists. split; [done|]. simpl. exists id, r. unfold page_range_subsumed_by_range in Bs.
    apply andb_true_iff in Bs as [?%Z.leb_le ?%Z.leb_le]. set_solver. }
  destruct (page_range_in_range r st en) eqn:Bi.
  { eexists. split; [done|]. simpl. unfold touches. rewrite Bb, Bi. set_solver. }
  destruct (IH (pre ++ [id])) as (stop & -> & Hstop); try done; [by rewrite <- app_assoc| |].
  { intros x rx Hx Hrx. apply elem_of_app in Hx as [Hx| ->%list_elem_of_singleton]; [by eapply Hpre|].
    simplify_eq. revert Bb Bi. unfold range_before_page, page_range_in_range, page_in_range,
      page_range_subsumes_range. destruct Hok. zbool. }
  exists stop. split; [done|]. destruct stop; set_solver.
Qed.

Definition unpin_done (s : state) (st en pu : Z) (s' : state) (ret : Z) : Prop :=
  wf s' /\
  (forall x p, x <> aid -> unpinned_page s' x p <-> unpinned_page s x p) /\
  (ret = 0 /\
   (forall p, unpinned_page s' aid p <-> unpinned_page s aid p \/ st <= p <= en) /\
   (forall p, purged_page s aid p \/
      (pu = ASHMEM_WAS_PURGED /\ st <= p <= en /\ ~ unpinned_page s aid p) -> purged_page s' aid p)
   \/ ret = - ENOMEM /\ new = None /\ forall p, unpinned_page s' aid p -> unpinned_page s aid p).

Lemma unpin_done_already s a id r st en pu :
  wf s -> areas s !! aid = Some a -> id ∈ unpinned_list a -> ranges s !! id = Some r ->
  pgstart r <= st -> en <= pgend r -> unpin_done s st en pu s 0.
Proof.
  intros W Ha Hin Hr H1 H2. destruct (member_asma _ _ _ _ _ (wf_areas s W _ _ Ha) Hin Hr) as [Has _].
  assert (Hall : forall p, st <= p <= en -> unpinned_page s aid p)
    by (intros p Hp; exists id, r; split; [done|]; split; [done|lia]).
  split; [done|]. split; [done|]. left. split; [done|]. split; intros p; [naive_solver|].
  intros [?|(_ & Hp & Hn)]; [done|]. by destruct Hn; apply Hall.
Qed.

Lemma unpin_done_insert s a prev st en pu l1 l2 :
  wf s -> areas s !! aid = Some a -> is_Some (file a) -> unpinned_list a = l1 ++ l2 -> place prev l2 ->
  (forall x rx, x ∈ l1 -> ranges s !! x = Some rx -> en < pgstart rx) ->
  (forall x rx, x ∈ l2 -> ranges s !! x = Some rx -> pgend rx < st) ->
  0 <= st <= en + 1 -> 0 <= en < 2 ^ 20 - 1 -> pu = ASHMEM_NOT_PURGED \/ pu = ASHMEM_WAS_PURGED ->
  (forall i, new = Some i -> ranges s !! i = None) ->
  exists s' ret, range_alloc s aid prev pu st en new = Some (s', ret) /\ unpin_done s st en pu s' ret.
Proof.
  intros W Ha Hf El Hpl H1 H2 Hst Hen Hpu Hnew. unfold unpin_done. destruct new as [i|].
  - destruct (range_alloc_ok s aid a prev pu st en i l1 l2) as (s' & E & W' & _ & Er & _ & _); try done;
      [by apply Hnew|split; simpl; lia || done|rewrite Forall_forall; naive_solver..|].
    exists s', 0. do 2 (split; [done|]). specialize (Hnew i eq_refl).
    split; [|left; split; [done|split]].
    + intros x p Hx. rewrite (page_insert s s' i _ x p Er) by done. simpl. naive_solver.
    + intros p. rewrite (page_insert s s' i _ aid p Er) by done. simpl. tauto.
    + intros p [(x & rx & Hx & Hpx)|(-> & Hp' & _)].
      * exists x, rx. rewrite Er, lookup_insert_ne; [done|congruence].
      * eexists i, _. rewrite Er, lookup_insert_eq. done.
  - exists s, (- ENOMEM). split; [done|]. split; [done|]. split; [done|]. right. done.
Qed.

(** Absorbing a range: what holds of the rest holds of the whole. *)
Lemma unpin_done_absorb s s1 s' a id r st en pu ret :
  wf s -> areas s !! aid = Some a -> id ∈ unpinned_list a -> ranges s !! id = Some r ->
  ranges s1 = delete id (ranges s) -> touches st en r = true ->
  page_range_subsumed_by_range r st en = false -> st <= en + 1 ->
  pu = ASHMEM_NOT_PURGED \/ pu = ASHMEM_WAS_PURGED ->
  unpin_done s1 (Z.min (pgstart r) st) (Z.max (pgend r) en) (Z.lor pu (purged r)) s' ret ->
  unpin_done s st en pu s' ret.
Proof.
  intros W Ha Hin Hr Er Ht Hs Hst Hpu (W' & Hoth & Hres).
  destruct (member_asma _ _ _ _ _ (wf_areas s W _ _ Ha) Hin Hr) as [Has Hok].
  pose proof (fun x p => page_delete s s1 id r x p Er Hr) as Hd.
  pose proof (touch_union st en r Ht Hs Hst Hok) as Hu.
  split; [done|]. split; [intros x p Hx; rewrite Hoth, Hd by done; naive_solver|].
  destruct Hres as [(-> & Hp & Hpg)|(-> & Hn & Hp)]; [left|right]; (split; [done|]).
  2: { split; [done|]. intros p Hp'. apply Hd. right. by apply Hp. }
  split; intros p; [rewrite Hp, Hd, <- Hu; tauto|].
  intros Hc. apply Hpg. destruct Hc as [(x & rx & Hx & Hax & Hpx & Hpp)|(-> & Hp' & Hn)].
  - destruct (decide (x = id)) as [->|Hne].
    + right. rewrite Hr in Hx. injection Hx as <-. split; [rewrite Hpp; by destruct Hpu as [->| ->]|]. split; [apply Hu; by left|].
      intros (y & ry & Hy & Hay & Hpy). rewrite Er in Hy. apply lookup_delete_Some in Hy as [Hne Hy].
      apply Hne. apply (range_unique s aid a id y r ry p); try done.
      by apply (page_on_list s aid a y ry).
    + left. exists x, rx. rewrite Er, lookup_delete_ne by done. done.
  - right. destruct Hok as [_ _ _ [Hq|Hq]]; rewrite Hq; (split; [done|]);
      (split; [apply Hu; tauto|]); rewrite Hd in Hn; tauto.
Qed.

Lemma unpin_loop_ok fuel : forall s a st en pu,
  wf s -> areas s !! aid = Some a -> is_Some (file a) -> (length (unpinned_list a) < fuel)%nat ->
  0 <= st <= en + 1 -> 0 <= en < 2 ^ 20 - 1 -> pu = ASHMEM_NOT_PURGED \/ pu = ASHMEM_WAS_PURGED ->
  (forall i, new = Some i -> ranges s !! i = None) ->
  exists s' ret, ashmem_unpin_loop fuel s aid st en pu new = Some (s', ret) /\ unpin_done s st en pu s' ret.
Proof.
  induction fuel as [|fuel IH]; intros s a st en pu W Ha Hf Hlen Hst Hen Hpu Hnew; [lia|].
  simpl. rewrite Ha. simpl.
  destruct (unpin_scan_ok s a st en (unpinned_list a) []) as (stop & -> & Hstop);
    [done..|lia|set_solver|]. simpl.
  destruct stop as [prev| |id r].
  - destruct Hstop as (l1 & l2 & El & Hpl & H1 & H2). by eapply unpin_done_insert.
  - destruct Hstop as (id & r & Hin & Hr & H1 & H2). exists s, 0. split; [done|].
    by eapply unpin_done_already.
  - destruct Hstop as (Hin & Hr & Ht & Hs).
    destruct (member_asma _ _ _ _ _ (wf_areas s W _ _ Ha) Hin Hr) as [Has Hok].
    destruct (range_del_ok s id r W Hr) as (s1 & a' & l1 & l2 & -> & W1 & Ha' & El & Ea & Er & _).
    simpl. rewrite Has in Ha', Ea. rewrite Ha in Ha'. injection Ha' as <-.
    destruct (IH s1 (set_unpinned a (l1 ++ l2)) (Z.min (pgstart r) st) (Z.max (pgend r) en)
                (Z.lor pu (purged r))) as (s' & ret & E & D); try done.
    + by rewrite Ea, lookup_insert_eq.
    + rewrite El in Hlen. simpl. rewrite length_app in *. simpl in *. lia.
    + destruct Hok. lia.
    + destruct Hok. lia.
    + destruct Hok as [_ _ _ [->| ->]], Hpu as [->| ->]; auto.
    + intros i Hi. rewrite Er. apply lookup_delete_None. right. by apply Hnew.
    + exists s', ret. split; [done|]. by eapply unpin_done_absorb; try done; lia.
Qed.
End Unpin.

(** [ashmem_unpin] on a well-formed state terminates (each restart follows the
    removal of a range) and keeps the invariant.  When it succeeds exactly the
    requested pages have joined the unpinned pages of the area, other areas are as
    they were, and no page that was in a purged range has lost that mark.  It fails
    only when the allocator does, and then it has unpinned nothing. *)
Theorem ashmem_unpin_correct s aid a st en new :
  wf s -> areas s !! aid = Some a -> is_Some (file a) -> 0 <= st <= en + 1 -> 0 <= en < 2 ^ 20 - 1 ->
  (forall i, new = Some i -> ranges s !! i = None) ->
  exists s' ret, ashmem_unpin s aid st en new = Some (s', ret) /\ wf s' /\
    (forall x p, x <> aid -> unpinned_page s' x p <-> unpinned_page s x p) /\
    (ret = 0 /\
     (forall p, unpinned_page s' aid p <-> unpinned_page s aid p \/ st <= p <= en) /\
     (forall p, purged_page s aid p -> purged_page s' aid p)
     \/ ret = - ENOMEM /\ new = None /\ forall p, unpinned_page s' aid p -> unpinned_page s aid p).
Proof.
  intros W Ha Hf Hst Hen Hnew. unfold ashmem_unpin. rewrite Ha. simpl.
  destruct (unpin_loop_ok aid new (S (length (unpinned_list a))) s a st en ASHMEM_NOT_PURGED)
    as (s' & ret & E & W' & Hoth & Hres); try done; [lia|by left|].
  exists s', ret. do 3 (split; [done|]). naive_solver.
Qed.

(** ** A concrete state

    Area 0 has a file and ten pages; range 1 (pages 6 and 7) can still be purged,
    range 2 (pages 2 to 4) was. *)
Definition sample_area : ashmem_area := mk_area initial_name [1%nat; 2%nat] (Some 0%nat) 40960 PROT_MASK.
Definition sample_range1 : ashmem_range := mk_range 0 6 7 ASHMEM_NOT_PURGED.
Definition sample_range2 : ashmem_range := mk_range 0 2 4 ASHMEM_WAS_PURGED.
Definition sample : state :=
  mk_state {[0%nat := sample_area]} (<[1%nat := sample_range1]> {[2%nat := sample_range2]})
    [1%nat] 2 {[0%nat := 1]} [].

Lemma sample_area_ok : area_ok (ranges sample) 0 sample_area.
Proof.
  split.
  - repeat constructor; set_solver.
  - repeat constructor; [exists sample_range1|exists sample_range2]; (split; [done|]);
      (split; [done|]); split; simpl; lia || auto.
  - repeat constructor; intros ri rj; vm_compute ((_ : gmap _ _) !! _); simpl;
      intros [=<-] [=<-]; simpl; lia.
  - intros _. by exists 0%nat.
Qed.

Lemma sample_wf : wf sample.
Proof.
  split.
  - intros aid a H. cbn in H. apply lookup_singleton_Some in H as [<- <-]. apply sample_area_ok.
  - intros id r H. cbn in H. apply lookup_insert_Some in H as [[<- <-]|[_ [<- <-]%lookup_singleton_Some]];
      exists sample_area; (split; [done|]); set_solver.
  - apply NoDup_singleton.
  - intros id. simpl. rewrite list_elem_of_singleton. split.
    + intros ->. exists sample_range1. done.
    + intros (r & H & Hp). cbn in H. apply lookup_insert_Some in H as [[<- <-]|[_ [<- <-]%lookup_singleton_Some]];
        [done|]. discriminate Hp.
  - done.
Qed.

Lemma ashmem_pin_correct_witness :
  exists s', ashmem_pin sample 0 3 6 (Some 3%nat) = Some (s', ASHMEM_WAS_PURGED) /\
    ~ unpinned_page s' 0 4 /\ unpinned_page s' 0 7.
Proof.
  destruct (ashmem_pin_correct sample 0 sample_area 3 6 (Some 3%nat))
    as (s' & ret & E & _ & Hpin & _ & Hkeep & _ & _ & Hret);
    [apply sample_wf|done|lia|lia|intros i [=<-]; done|].
  assert (ret = ASHMEM_WAS_PURGED) as ->
    by (apply (Hret 2%nat sample_range2 3); [set_solver|done|done|simpl; lia|lia]).
  exists s'. split; [exact E|]. split; [apply Hpin; lia|]. apply Hkeep; [right; left; split; [done|lia]|].
  exists 1%nat, sample_range1. split; [done|]. split; [done|]. simpl. lia.
Defined.

Lemma ashmem_unpin_correct_witness :
  exists s', ashmem_unpin sample 0 4 8 (Some 3%nat) = Some (s', 0) /\ wf s' /\
    unpinned_page s' 0 5 /\ purged_page s' 0 2.
Proof.
  destruct (ashmem_unpin_correct sample 0 sample_area 4 8 (Some 3%nat))
    as (s' & ret & E & W & _ & [(-> & Hp & Hq)|(_ & [=] & _)]);
    [apply sample_wf|done|by exists 0%nat|lia|lia|intros i [=<-]; done|].
  exists s'. split; [exact E|]. split; [done|]. split; [apply Hp; right; lia|].
  apply Hq. exists 2%nat, sample_range2. do 2 (split; [done|]). split; [simpl; lia|done].
Defined.

(** When [ashmem_unpin] runs out of memory after it merged a purged range, that
    range is gone: its pages count as pinned, and the next [ashmem_pin] of them reports
    [ASHMEM_NOT_PURGED] although their contents were lost. *)
Theorem unpin_enomem_forgets_purge :
  purged_page sample 0 3 /\
  exists s', ashmem_unpin sample 0 1 2 None = Some (s', - ENOMEM) /\
    ashmem_get_pin_status s' 0 3 3 = Some ASHMEM_IS_PINNED /\
    exists s'', ashmem_pin s' 0 3 3 None = Some (s'', ASHMEM_NOT_PURGED).
Proof.
  split.
  - exists 2%nat, sample_range2. do 2 (split; [done|]). split; [simpl; lia|done].
  - eexists. split; [vm_compute; reflexivity|]. split; [vm_compute; reflexivity|].
    eexists. vm_compute. reflexivity.
Qed.

(** ** ashmem_get_pin_status *)

Lemma pin_status_loop s aid a st en ids : forall pre,
  wf s -> areas s !! aid = Some a -> unpinned_list a = pre ++ ids ->
  (forall x rx, x ∈ pre -> ranges s !! x = Some rx -> touches st en rx = false) ->
  exists ret, get_pin_status_loop s ids st en = Some ret /\
    (ret = ASHMEM_IS_UNPINNED /\ (exists id r, id ∈ ids /\ ranges s !! id = Some r /\ touches st en r = true) \/
     ret = ASHMEM_IS_PINNED /\ forall x rx, x ∈ unpinned_list a -> ranges s !! x = Some rx -> touches st en rx = false).
Proof.
  induction ids as [|id ids IH]; intros pre W Ha El Hpre; simpl.
  { eexists. split; [done|]. right. split; [done|]. rewrite El, app_nil_r. done. }
  destruct (on_list_range s aid a id W Ha) as (r & Hr); [rewrite El; set_solver|].
  destruct (sorted_around s aid a pre id r ids W Ha El Hr) as (Has & Hok & _ & _ & _ & Hbe).
  rewrite Hr. simpl. destruct (range_before_page r st) eqn:Bb.
  { eexists. split; [done|]. right. split; [done|]. intros x rx Hx Hrx. rewrite El in Hx.
    apply elem_of_app in Hx as [Hx|Hx]; [by eapply Hpre|].
    unfold touches. replace (range_before_page rx st) with true; [done|]. symmetry.
    unfold range_before_page in *. rewrite Z.ltb_lt in *. destruct Hok.
    apply elem_of_cons in Hx as [->|Hx]; [congruence|]. specialize (Hbe _ _ Hx Hrx). lia. }
  destruct (page_range_in_range r st en) eqn:Bi.
  { eexists. split; [done|]. left. split; [done|]. exists id, r. unfold touches. rewrite Bb, Bi. set_solver. }
  destruct (IH (pre ++ [id])) as (ret & -> & Hret); try done; [by rewrite <- app_assoc| |].
  { intros x rx Hx Hrx. apply elem_of_app in Hx as [Hx| ->%list_elem_of_singleton]; [by eapply Hpre|].
    simplify_eq. unfold touches. rewrite Bi. apply andb_false_r. }
  exists ret. split; [done|]. destruct Hret as [(? & x & rx & ? & ?)|?]; [left|by right].
  split; [done|]. exists x, rx. set_solver.
Qed.

(** Empty ranges apart, the status is [ASHMEM_IS_UNPINNED] exactly when a requested
    page is unpinned. *)
Lemma get_pin_status_spec s aid a st en :
  wf s -> areas s !! aid = Some a -> st <= en ->
  (forall id r, ranges s !! id = Some r -> asma r = aid -> pgstart r <= pgend r) ->
  exists ret, ashmem_get_pin_status s aid st en = Some ret /\
    (ret = ASHMEM_IS_UNPINNED \/ ret = ASHMEM_IS_PINNED) /\
    (ret = ASHMEM_IS_UNPINNED <-> exists p, st <= p <= en /\ unpinned_page s aid p).
Proof.
  intros W Ha Hst Hne. unfold ashmem_get_pin_status. rewrite Ha. simpl.
  destruct (pin_status_loop s aid a st en (unpinned_list a) []) as (ret & -> & Hret);
    [done..|set_solver|]. exists ret. split; [done|].
  destruct Hret as [(-> & id & r & Hin & Hr & Ht)|(-> & Hno)].
  - split; [by left|]. split; [intros _|done].
    destruct (member_asma _ _ _ _ _ (wf_areas s W _ _ Ha) Hin Hr) as [Has _].
    apply touches_overlap in Ht as (p & ? & ?); [|done|by eapply Hne]. exists p. split; [done|]. by exists id, r.
  - split; [by right|]. split; [done|]. intros (p & Hp & id & r & Hr & Has & Hpr).
    pose proof (page_on_list s aid a id r W Ha Hr Has) as Hin. specialize (Hno id r Hin Hr).
    rewrite (proj2 (touches_overlap st en r Hst ltac:(lia))) in Hno; [done|]. by exists p.
Qed.

(** ** The ioctl: from bytes to pages *)

Lemma PAGE_ALIGN_spec x :
  0 <= x <= 2 ^ 32 - 4096 -> PAGE_ALIGN x mod 4096 = 0 /\ x <= PAGE_ALIGN x < x + 4096 /\ PAGE_ALIGN x <= 2 ^ 32 - 4096.
Proof.
  intros Hx. unfold PAGE_ALIGN, PAGE_SIZE. rewrite (u32_id (x + _)) by (unfold is_u32; lia).
  assert (E : Z.land (x + (4096 - 1)) (u32 (Z.lnot (4096 - 1))) = (x + 4095) / 4096 * 4096).
  { change (u32 (Z.lnot (4096 - 1))) with (Z.shiftl (Z.ones 20) 12).
    change ((x + 4095) / 4096 * 4096) with ((x + 4095) / 2 ^ 12 * 2 ^ 12).
    rewrite <- Z.shiftr_div_pow2, <- Z.shiftl_mul_pow2 by lia.
    apply Z.bits_inj'. intros n Hn. rewrite Z.land_spec, !Z.shiftl_spec by lia.
    destruct (Z.ltb_spec n 12).
    - rewrite !(Z.testbit_neg_r _ (n - 12)) by lia. apply andb_false_r.
    - rewrite Z.shiftr_spec by lia. replace (n - 12 + 12) with n by lia.
      replace (x + (4096 - 1)) with (x + 4095) by lia.
      destruct (Z.ltb_spec (n - 12) 20); [rewrite Z.ones_spec_low by lia; apply andb_true_r|].
      rewrite Z.ones_spec_high, andb_false_r by lia. symmetry.
      apply Z.bits_above_log2; [lia|]. apply Z.log2_lt_pow2; [lia|].
      apply Z.lt_le_trans with (2 ^ 32); [lia|]. apply Z.pow_le_mono_r; lia. }
  rewrite E. split; [apply Z.mod_mul; lia|].
  pose proof (Z.div_mod (x + 4095) 4096 ltac:(lia)). pose proof (Z.mod_pos_bound (x + 4095) 4096 ltac:(lia)).
  assert ((x + 4095) / 4096 < 2 ^ 20) by (apply Z.div_lt_upper_bound; lia). lia.
Qed.

Definition pin_dispatch (s : state) (aid : nat) (cmd : pin_cmd) (st en : Z) (new : option nat)
  : option (state * Z) :=
  match cmd with
  | ASHMEM_PIN => ashmem_pin s aid st en new
  | ASHMEM_UNPIN => ashmem_unpin s aid st en new
  | ASHMEM_GET_PIN_STATUS => ret ← ashmem_get_pin_status s aid st en; Some (s, ret)
  end.

(** The bytes [offset, offset + len) lie within the area, with no wrap-around; length
    0 stands for the rest of the area. *)
Definition request_ok (sz offset len : Z) : Prop :=
  offset mod PAGE_SIZE = 0 /\ len mod PAGE_SIZE = 0 /\ offset + len <= PAGE_ALIGN sz.

Definition request_end (sz offset len : Z) : Z :=
  (if len =? 0 then PAGE_ALIGN sz else offset + len) / PAGE_SIZE - 1.

Lemma page_mask_or a b :
  0 <= a -> 0 <= b ->
  (Z.land (Z.lor a b) (PAGE_SIZE - 1) =? 0) = (a mod PAGE_SIZE =? 0) && (b mod PAGE_SIZE =? 0).
Proof.
  intros Ha Hb. rewrite Z.land_lor_distr_l. change (PAGE_SIZE - 1) with (Z.ones 12).
  rewrite !Z.land_ones by lia. change PAGE_SIZE with (2 ^ 12).
  pose proof (Z.mod_pos_bound a (2 ^ 12) ltac:(lia)). pose proof (Z.mod_pos_bound b (2 ^ 12) ltac:(lia)).
  apply eq_true_iff_eq. rewrite andb_true_iff, !Z.eqb_eq, Z.lor_eq_0_iff. tauto.
Qed.

Lemma pin_unpin_checks s aid a cmd f offset len new :
  areas s !! aid = Some a -> file a = Some f -> 0 < size a <= 2 ^ 32 - 4096 -> is_u32 offset -> is_u32 len ->
  (request_ok (size a) offset len /\
   (0 <= offset / PAGE_SIZE <= request_end (size a) offset len + 1 /\ 0 <= request_end (size a) offset len < 2 ^ 20 - 1) /\
   ashmem_pin_unpin s aid cmd (Some (offset, len)) new =
     pin_dispatch s aid cmd (offset / PAGE_SIZE) (request_end (size a) offset len) new) \/
  (~ request_ok (size a) offset len /\ ashmem_pin_unpin s aid cmd (Some (offset, len)) new = Some (s, - EINVAL)).
Proof.
  intros Ha Hf Hsz Ho Hl. unfold ashmem_pin_unpin. rewrite Ha. simpl. rewrite Hf.
  destruct (PAGE_ALIGN_spec (size a) ltac:(lia)) as (Pm & Pb & Pu).
  unfold request_ok, request_end. set (PA := PAGE_ALIGN (size a)) in *. unfold is_u32, PAGE_SIZE in *.
  pose proof (Z.div_mod PA 4096 ltac:(lia)). pose proof (Z.div_mod offset 4096 ltac:(lia)).
  pose proof (Z.div_mod len 4096 ltac:(lia)).
  pose proof (Z.mod_pos_bound offset 4096 ltac:(lia)). pose proof (Z.mod_pos_bound len 4096 ltac:(lia)).
  rewrite page_mask_or by (destruct (len =? 0); unfold u32; try lia; apply Z.mod_pos_bound; lia).
  unfold PAGE_SIZE. destruct (Z.eqb_spec len 0) as [->|Hnz].
  - destruct (Z.leb_spec offset PA).
    + rewrite (u32_id (PA - offset)) by (unfold is_u32; lia).
      destruct (Z.eqb_spec (offset mod 4096) 0) as [Hm|Hm]; [|right; split; [lia|done]].
      assert (Hd : (PA - offset) mod 4096 = 0) by (rewrite Zminus_mod, Hm, Pm; done).
      pose proof (Z.div_mod (PA - offset) 4096 ltac:(lia)).
      rewrite Hd. simpl. rewrite u32_id by (unfold is_u32; lia). zbool.
      left. split; [lia|]. split; [lia|]. rewrite u32_id by (unfold is_u32; lia).
      unfold pin_dispatch. replace (offset / 4096 + (PA - offset) / 4096 - 1) with (PA / 4096 - 1) by lia. done.
    + right. split; [lia|]. case_match; [done|]. unfold u32.
      rewrite <- (Z.mod_add (PA - offset) 1) by lia. rewrite Z.mod_small by lia. zbool. done.
  - assert (Hadd : offset mod 4096 = 0 -> len mod 4096 = 0 -> (offset + len) / 4096 = offset / 4096 + len / 4096)
      by (intros; symmetry; apply Z.div_unique with 0; lia).
    destruct (Z.eqb_spec (offset mod 4096) 0) as [Hm|Hm]; [|right; split; [lia|done]].
    destruct (Z.eqb_spec (len mod 4096) 0) as [Hm'|Hm']; [|right; split; [lia|done]]. simpl.
    destruct (Z.ltb_spec (2 ^ 32 - 1 - offset) len); [right; split; [lia|done]|].
    rewrite (u32_id (offset + len)) by (unfold is_u32; lia).
    destruct (Z.ltb_spec PA (offset + len)); [right; split; [lia|done]|].
    left. rewrite Hadd by done. split; [lia|]. split; [lia|]. rewrite u32_id by (unfold is_u32; lia). done.
Qed.

(** C40. The pin ioctls on a mapped area of at most 2^32 - 4096 bytes: the request is
    accepted exactly when it is page aligned and lies within the page-aligned size
    (without 32-bit wrap-around; length 0 means the rest of the area), and then the
    operation runs on exactly those pages; otherwise nothing changes and the result is
    [-EINVAL] ([-EFAULT] when the request cannot be read, [-EINVAL] when the area is not
    mapped).  In every case the call returns and the invariant is kept. *)
Theorem ashmem_pin_unpin_correct s aid a cmd pin new :
  wf s -> areas s !! aid = Some a -> 0 < size a <= 2 ^ 32 - 4096 ->
  (forall offset len, pin = Some (offset, len) -> is_u32 offset /\ is_u32 len) ->
  (forall i, new = Some i -> ranges s !! i = None) ->
  exists s' ret, ashmem_pin_unpin s aid cmd pin new = Some (s', ret) /\ wf s' /\
    (file a = None -> s' = s /\ ret = - EINVAL) /\
    (is_Some (file a) -> pin = None -> s' = s /\ ret = - EFAULT) /\
    (forall offset len, is_Some (file a) -> pin = Some (offset, len) ->
       (~ request_ok (size a) offset len -> s' = s /\ ret = - EINVAL) /\
       (request_ok (size a) offset len ->
          pin_dispatch s aid cmd (offset / PAGE_SIZE) (request_end (size a) offset len) new = Some (s', ret))).
Proof.
  intros W Ha Hsz Hu Hnew. destruct (file a) as [f|] eqn:Hf.
  2: { exists s, (- EINVAL). split; [unfold ashmem_pin_unpin; rewrite Ha; simpl; by rewrite Hf|].
       split; [done|]. split; [done|]. split; [by intros [? [=]]|]. by intros ? ? [? [=]]. }
  destruct pin as [[offset len]|].
  2: { exists s, (- EFAULT). split; [unfold ashmem_pin_unpin; rewrite Ha; simpl; by rewrite Hf|]. done. }
  destruct (Hu offset len eq_refl) as [Ho Hl].
  destruct (pin_unpin_checks s aid a cmd f offset len new Ha Hf Hsz Ho Hl)
    as [(Hok & (Hb1 & Hb2) & ->)|(Hno & ->)].
  - assert (exists s' ret, pin_dispatch s aid cmd (offset / PAGE_SIZE) (request_end (size a) offset len) new
        = Some (s', ret) /\ wf s') as (s' & ret & E & W').
    { destruct cmd; simpl.
      - destruct (pin_ok_short s aid a (offset / PAGE_SIZE) (request_end (size a) offset len) new)
          as (s' & ret & ? & ? & _); [done..|]. by exists s', ret.
      - destruct (unpin_loop_ok aid new (S (length (unpinned_list a))) s a (offset / PAGE_SIZE)
          (request_end (size a) offset len) ASHMEM_NOT_PURGED) as (s' & ret & E & W' & _); try done; [lia|by left|].
        exists s', ret. unfold ashmem_unpin. rewrite Ha. done.
      - destruct (pin_status_loop s aid a (offset / PAGE_SIZE) (request_end (size a) offset len)
          (unpinned_list a) []) as (ret & E & _); [done..|set_solver|].
        exists s, ret. unfold ashmem_get_pin_status. rewrite Ha. simpl. by rewrite E. }
    exists s', ret. do 4 (split; [done|]). intros ? ? _ [=<- <-]. done.
  - exists s, (- EINVAL). do 4 (split; [done|]). intros ? ? _ [=<- <-]. done.
Qed.

Lemma ashmem_pin_unpin_correct_witness :
  exists s', ashmem_pin_unpin sample 0 ASHMEM_UNPIN (Some (32768, 0)) (Some 3%nat) = Some (s', 0) /\ wf s' /\
    ashmem_pin_unpin sample 0 ASHMEM_UNPIN (Some (32768, 12288)) (Some 3%nat) = Some (sample, - EINVAL).
Proof.
  destruct (ashmem_pin_unpin_correct sample 0 sample_area ASHMEM_UNPIN (Some (32768, 0)) (Some 3%nat))
    as (s1 & r1 & E1 & W1 & _); [apply sample_wf|done|simpl; lia|intros ? ? [=<- <-]; unfold is_u32; lia|by intros i [=<-]|].
  destruct (ashmem_pin_unpin_correct sample 0 sample_area ASHMEM_UNPIN (Some (32768, 12288)) (Some 3%nat))
    as (s2 & r2 & E2 & _ & _ & _ & H2); [apply sample_wf|done|simpl; lia|intros ? ? [=<- <-]; unfold is_u32; lia|by intros i [=<-]|].
  destruct (H2 _ _ ltac:(by exists 0%nat) eq_refl) as [Hno _].
  destruct Hno as [-> ->]; [intros (_ & _ & H); vm_compute in H; congruence|].
  assert (r1 = 0) as -> by (vm_compute in E1; congruence).
  exists s1. done.
Defined.

(** ** The shrinker *)

(** The first range of the LRU list is purged. *)
Lemma shrink_step_ok s id ids :
  wf s -> lru_list s = id :: ids ->
  exists r a f s', ranges s !! id = Some r /\ areas s !! asma r = Some a /\ file a = Some f /\ range_ok r /\
    lru_del (set_ranges (add_truncated s (f, u32 (pgstart r * PAGE_SIZE), u32 (u32 (pgend r + 1) * PAGE_SIZE - 1)))
               (<[id := set_purged r ASHMEM_WAS_PURGED]> (ranges s))) id (set_purged r ASHMEM_WAS_PURGED) = Some s' /\
    wf s' /\ areas s' = areas s /\ f_count s' = f_count s /\ lru_list s' = ids /\
    ranges s' = <[id := set_purged r ASHMEM_WAS_PURGED]> (ranges s) /\
    truncated s' = (f, pgstart r * PAGE_SIZE, u32 ((pgend r + 1) * PAGE_SIZE - 1)) :: truncated s.
Proof.
  intros W El. destruct (proj1 (wf_lru s W id)) as (r & Hr & Hp); [rewrite El; set_solver|].
  destruct (wf_ranges s W id r Hr) as (a & Ha & Hin). pose proof (wf_areas s W _ _ Ha) as Hao.
  destruct (ao_file _ _ _ Hao) as (f & Hf); [intros E; rewrite E in Hin; set_solver|].
  destruct (member_asma _ _ _ _ _ Hao Hin Hr) as [_ Hok].
  pose proof (wf_lru_nodup s W) as Hn. rewrite El in Hn. apply NoDup_cons in Hn as [Hni Hn].
  unfold lru_del. simpl. rewrite El. simpl. rewrite Nat.eqb_refl. simpl.
  eexists r, a, f, _. do 5 (split; [done|]). split; [|repeat (split; [done|])].
  - split; simpl.
    + intros x b Hb. destruct Hok as [O1 O2 O3 O4].
      eapply area_ok_shrink; [by eapply wf_areas|done|done|split; simpl; auto|simpl; lia..].
    + intros x rx Hx. rewrite lookup_insert in Hx. case_decide; simplify_eq; [by exists a|by eapply wf_ranges].
    + done.
    + intros x. transitivity (x ∈ id :: ids /\ x <> id); [set_solver|]. rewrite <- El, (wf_lru s W x), lookup_insert.
      case_decide; [subst x; split; [naive_solver|]|naive_solver]. intros (? & [=<-] & [=]).
    + rewrite (wf_count s W), El. simpl. rewrite lru_sum_insert by done. unfold range_size_at. rewrite Hr.
      change (range_size (set_purged r ASHMEM_WAS_PURGED)) with (range_size r). u32_norm. f_equal. lia.
  - destruct Hok. unfold PAGE_SIZE. rewrite (u32_id (pgstart r * 4096)), (u32_id (pgend r + 1)) by (unfold is_u32; lia).
    done.
Qed.

(** The call of [vmtruncate_range] that purges a range. *)
Definition truncation (s : state) (id : nat) : list (nat * Z * Z) :=
  match r ← ranges s !! id; a ← areas s !! asma r; f ← file a; Some (f, r) with
  | Some (f, r) => [(f, pgstart r * PAGE_SIZE, (pgend r + 1) * PAGE_SIZE - 1)]
  | None => []
  end.

(** [s'] is [s] with the first [k] ranges of the LRU list purged. *)
Record purges (k : nat) (s s' : state) : Prop := {
  pu_wf : wf s';
  pu_areas : areas s' = areas s;
  pu_lru : lru_list s' = drop k (lru_list s);
  pu_ranges : forall id, ranges s' !! id =
    if decide (id ∈ take k (lru_list s)) then (fun r => set_purged r ASHMEM_WAS_PURGED) <$> ranges s !! id
    else ranges s !! id;
  pu_truncated : truncated s' = rev (flat_map (truncation s) (take k (lru_list s))) ++ truncated s;
}.

Lemma range_size_small r : range_ok r -> range_size r = pgend r - pgstart r + 1 /\ 0 <= range_size r < 2 ^ 20.
Proof.
  intros []. assert (range_size r = pgend r - pgstart r + 1) as ->; [|lia]. unfold range_size, u32.
  rewrite Zplus_mod_idemp_l. apply Z.mod_small. lia.
Qed.

Lemma flat_map_ext_elem {A B} (f g : A -> list B) l :
  (forall x, x ∈ l -> f x = g x) -> flat_map f l = flat_map g l.
Proof.
  induction l as [|x l IH]; intros H; simpl; [done|]. rewrite (H x), IH; set_solver.
Qed.

Lemma purges_cons k s s1 s' id ids r a f :
  lru_list s = id :: ids -> ranges s !! id = Some r -> areas s !! asma r = Some a -> file a = Some f ->
  (id ∉ ids) -> areas s1 = areas s -> lru_list s1 = ids ->
  ranges s1 = <[id := set_purged r ASHMEM_WAS_PURGED]> (ranges s) ->
  truncated s1 = (f, pgstart r * PAGE_SIZE, (pgend r + 1) * PAGE_SIZE - 1) :: truncated s ->
  purges k s1 s' -> purges (S k) s s'.
Proof.
  intros El Hr Ha Hf Hni Ea El1 Er Et [W P1 P2 P3 P4].
  assert (Hnt : id ∉ take k ids) by (intros Hin; apply Hni; by eapply subseteq_take).
  split; [done|congruence|rewrite P2, El1, El; done| |].
  - intros x. rewrite P3, El1, El, Er. simpl. rewrite lookup_insert.
    repeat case_decide; subst; rewrite ?Hr; set_solver.
  - rewrite P4, Et, El1, El. simpl. unfold truncation at 2. rewrite Hr. simpl. rewrite Ha. simpl. rewrite Hf. simpl.
    rewrite <- app_assoc. simpl. do 2 f_equal. apply flat_map_ext_elem. intros x Hx.
    unfold truncation. rewrite Er, Ea, lookup_insert_ne; [done|]. intros <-. by apply Hnt.
Qed.

Lemma shrink_loop_ok ids : forall s nr,
  wf s -> lru_list s = ids -> 0 < nr < 2 ^ 31 ->
  exists s' k, ashmem_shrink_loop s ids nr = Some s' /\ purges k s s' /\ (k <= length ids)%nat /\
    (k = length ids \/ nr <= lru_sum (ranges s) (take k ids)) /\
    (forall j, (j < k)%nat -> lru_sum (ranges s) (take j ids) < nr).
Proof.
  induction ids as [|id ids IH]; intros s nr W El Hnr.
  { exists s, 0%nat. split; [done|]. split; [|split; [done|split; [by left|lia]]]. by split. }
  destruct (shrink_step_ok s id ids W El) as (r & a & f & s1 & Hr & Ha & Hf & Hok & Hl & W1 & Ea & _ & El1 & Er & Et).
  pose proof (wf_lru_nodup s W) as Hn. rewrite El in Hn. apply NoDup_cons in Hn as [Hni _].
  destruct (range_size_small r Hok) as [_ Hsz].
  simpl. rewrite Hr. simpl. rewrite Ha. simpl. rewrite Hf. simpl. rewrite Hl. simpl.
  change (range_size (set_purged r ASHMEM_WAS_PURGED)) with (range_size r).
  rewrite s32_id by lia.
  rewrite u32_id in Et by (destruct Hok; unfold is_u32, PAGE_SIZE; lia).
  assert (Hsum : forall j, lru_sum (ranges s) (take (S j) (id :: ids)) =
                           range_size r + lru_sum (ranges s1) (take j ids)).
  { intros j. simpl. unfold range_size_at. rewrite Hr, Er, lru_sum_insert; [done|].
    intros Hin. apply Hni. by eapply subseteq_take. }
  destruct (Z.leb_spec (nr - range_size r) 0).
  - exists s1, 1%nat. split; [done|]. split.
    + eapply (purges_cons 0 s s1 s1 id ids r a f); done || by split.
    + split; [simpl; lia|]. split; [right; rewrite Hsum; simpl; lia|]. intros [|j] Hj; [simpl; lia|lia].
  - destruct (IH s1 (nr - range_size r) W1 El1 ltac:(lia)) as (s' & k & E & Hp & Hk & Hs1 & Hs2).
    exists s', (S k). split; [done|]. split; [by eapply purges_cons|]. split; [simpl; lia|]. split.
    + destruct Hs1 as [->|Hs1]; [by left|right]. rewrite Hsum. lia.
    + intros [|j] Hj; [simpl; lia|]. rewrite Hsum. specialize (Hs2 j ltac:(lia)). lia.
Qed.

(** The shrinker asked to scan [nr] pages purges ranges in the order in which they
    were unpinned, stopping as soon as they cover [nr] pages: the first [k] ranges of
    the LRU list are marked purged and leave the list, the backing file of each is
    truncated on exactly the bytes of its pages, no other range changes, and the
    invariant holds again.  (Asked with 0 it only reports the count, and without
    [__GFP_FS] or the mutex it does nothing.) *)
Theorem ashmem_shrink_correct s nr gfp_fs locked :
  wf s -> 0 <= nr < 2 ^ 31 ->
  exists s' ret, ashmem_shrink s nr gfp_fs locked = Some (s', ret) /\
    if (nr =? 0) || (gfp_fs && locked) then
      ret = s32 (lru_count s') /\
      exists k, purges k s s' /\ (k <= length (lru_list s))%nat /\
        (k = length (lru_list s) \/ nr <= lru_sum (ranges s) (take k (lru_list s))) /\
        forall j, (j < k)%nat -> lru_sum (ranges s) (take j (lru_list s)) < nr
    else s' = s /\ ret = -1.
Proof.
  intros W Hnr. unfold ashmem_shrink. destruct (Z.eqb_spec nr 0) as [->|Hnz]; simpl.
  - exists s, (s32 (lru_count s)). split; [done|]. split; [done|]. exists 0%nat. split; [by split|].
    split; [lia|]. split; [right; simpl; lia|lia].
  - destruct gfp_fs, locked; simpl; try (exists s, (-1); done).
    destruct (shrink_loop_ok (lru_list s) s nr W eq_refl ltac:(lia)) as (s' & k & -> & H).
    simpl. eexists _, _. split; [done|]. split; [done|]. by exists k.
Qed.

Lemma ashmem_shrink_correct_witness :
  exists s', ashmem_shrink sample 1 true true = Some (s', 0) /\ wf s' /\ truncated s' = [(0%nat, 24576, 32767)].
Proof.
  destruct (ashmem_shrink_correct sample 1 true true) as (s' & ret & E & Hr & k & P & _);
    [apply sample_wf|lia|]. vm_compute in E. injection E as E1 E2. exists s'. rewrite <- E1, <- E2 in *.
  split; [reflexivity|]. split; [apply P|reflexivity].
Defined.

(** ** Protection *)

(** The bits an area allows: read, write, execute. *)
Definition mask_ok (a : ashmem_area) : Prop := 0 <= prot_mask a <= PROT_MASK.

Lemma mask_cases a : mask_ok a -> prot_mask a ∈ [0; 1; 2; 3; 4; 5; 6; 7].
Proof.
  unfold mask_ok. change PROT_MASK with 7. intros H. rewrite !elem_of_cons.
  assert (prot_mask a = 0 \/ prot_mask a = 1 \/ prot_mask a = 2 \/ prot_mask a = 3 \/ prot_mask a = 4 \/
    prot_mask a = 5 \/ prot_mask a = 6 \/ prot_mask a = 7) by lia. tauto.
Qed.

(** [vm_flags] after the two checks of [ashmem_mmap]. *)
Lemma mmap_flags a fl i :
  mask_ok a -> 0 <= i <= 2 ->
  Z.land (Z.land fl (u32 (Z.lnot (calc_vm_prot_bits (prot_mask a))))) (calc_vm_prot_bits PROT_MASK) = 0 ->
  let fl' := Z.lor (Z.land fl (u32 (Z.lnot (calc_vm_may_flags (u32 (Z.lnot (prot_mask a))))))) VM_CAN_NONLINEAR in
  (Z.testbit fl' i = true -> Z.testbit (prot_mask a) i = true) /\
  (Z.testbit fl' (i + 4) = true -> Z.testbit (prot_mask a) i = true).
Proof.
  intros Hm Hi H fl'. assert (Hb : Z.testbit fl i = true -> Z.testbit (prot_mask a) i = true).
  { intros Hf. apply (f_equal (fun z => Z.testbit z i)) in H. rewrite !Z.land_spec, Z.bits_0, Hf in H.
    revert H. generalize (mask_cases a Hm). generalize (prot_mask a). clear -Hi. intros m Hm.
    assert (i = 0 \/ i = 1 \/ i = 2) as [->|[->| ->]] by lia;
      repeat (apply elem_of_cons in Hm as [->|Hm]; [vm_compute; congruence|]); set_solver. }
  subst fl'. rewrite !Z.lor_spec, !Z.land_spec.
  replace (Z.testbit VM_CAN_NONLINEAR i) with false by (symmetry; assert (i = 0 \/ i = 1 \/ i = 2) as [->|[->| ->]] by lia; done).
  replace (Z.testbit VM_CAN_NONLINEAR (i + 4)) with false
    by (symmetry; assert (i = 0 \/ i = 1 \/ i = 2) as [->|[->| ->]] by lia; done).
  rewrite !orb_false_r, !andb_true_iff. split; [intros [Hf _]; by apply Hb|]. intros [_ Hf].
  revert Hf. generalize (mask_cases a Hm). generalize (prot_mask a). clear -Hi. intros m Hm.
  assert (i = 0 \/ i = 1 \/ i = 2) as [->|[->| ->]] by lia;
    repeat (apply elem_of_cons in Hm as [->|Hm]; [vm_compute; congruence|]); set_solver.
Qed.

(** A mapping that [ashmem_mmap] grants has neither a VM_READ, VM_WRITE, VM_EXEC bit
    nor the VM_MAY bit that would let mprotect add it later, unless the protection mask
    of the area has that bit; and it is of the area's backing file, on which it holds a
    reference. *)
Theorem ashmem_mmap_within_mask s aid a v setup s' v' :
  (forall n z fl e, setup n z fl = Err e -> 0 < e) ->
  areas s !! aid = Some a -> mask_ok a -> ashmem_mmap s aid v setup = Some (s', v', 0) ->
  (forall i, 0 <= i <= 2 ->
    (Z.testbit (vm_flags v') i = true -> Z.testbit (prot_mask a) i = true) /\
    (Z.testbit (vm_flags v') (i + 4) = true -> Z.testbit (prot_mask a) i = true)) /\
  exists f a', areas s' !! aid = Some a' /\ file a' = Some f /\ vm_file v' = Some f /\
    size a' <> 0 /\ (file a = Some f \/ file a = None).
Proof.
  intros Hset Ha Hm. unfold ashmem_mmap. rewrite Ha. simpl. destruct (Z.eqb_spec (size a) 0) as [|Hsz]; [done|].
  destruct (Z.eqb_spec (Z.land (Z.land (vm_flags v) (u32 (Z.lnot (calc_vm_prot_bits (prot_mask a)))))
    (calc_vm_prot_bits PROT_MASK)) 0) as [H|H]; [|done]. simpl.
  destruct (file a) as [f|] eqn:Hf.
  - intros [=<- <-]. split; [intros i Hi; by apply mmap_flags|]. exists f, a.
    unfold fput_opt. simpl. destruct (vm_file v); simpl; split_and!; auto.
  - destruct (setup _ _ _) as [f|e| |] eqn:Hs; [|intros [= _ _ He]; apply Hset in Hs; lia|done|done]. simpl. intros [=<- <-].
    split; [intros i Hi; by apply mmap_flags|]. exists f, (set_file a (Some f)).
    unfold fput_opt. simpl. destruct (vm_file v); simpl; rewrite lookup_insert_eq; split_and!; auto.
Qed.

Lemma ashmem_mmap_within_mask_witness :
  exists s' v', ashmem_mmap sample 0 (mk_vma (Z.lor VM_READ VM_SHARED) None false) (fun _ _ _ => Err ENOMEM)
    = Some (s', v', 0) /\ vm_file v' = Some 0%nat.
Proof.
  eexists _, _. split; [vm_compute; reflexivity|].
  edestruct (ashmem_mmap_within_mask sample 0 sample_area (mk_vma (Z.lor VM_READ VM_SHARED) None false)
    (fun _ _ _ => Err ENOMEM)) as (_ & f & a' & _ & _ & Hv & _ & Hf);
    [by intros ? ? ? ? [=<-]|done|split; vm_compute; congruence|vm_compute; reflexivity|].
  destruct Hf as [Hf|Hf]; [|discriminate Hf]. injection Hf as <-. exact Hv.
Defined.

(** ASHMEM_SET_PROT_MASK refuses a mask with a bit that the area's mask lacks, and
    otherwise the new mask is the requested one, so that without READ_IMPLIES_EXEC bits
    can only be removed; the mask stays within read, write and execute. *)
Theorem set_prot_mask_correct s aid a prot rie :
  areas s !! aid = Some a -> mask_ok a -> is_u32 prot ->
  exists s' ret a', set_prot_mask s aid prot rie = Some (s', ret) /\ areas s' !! aid = Some a' /\ mask_ok a' /\
    (Z.land (prot_mask a) prot <> prot -> ret = - EINVAL /\ s' = s) /\
    (Z.land (prot_mask a) prot = prot -> ret = 0 /\
       prot_mask a' = if rie && Z.testbit prot 0 then Z.lor prot PROT_EXEC else prot) /\
    (rie = false -> Z.land (prot_mask a') (prot_mask a) = prot_mask a').
Proof.
  intros Ha Hm Hu. unfold set_prot_mask. rewrite Ha. simpl.
  destruct (Z.eqb_spec (Z.land (prot_mask a) prot) prot) as [E|E]; simpl.
  2: { exists s, (- EINVAL), a. do 4 (split; [done|]). split; [done|]. intros _. apply Z.land_diag. }
  assert (Hp : prot ∈ [0; 1; 2; 3; 4; 5; 6; 7] /\ Z.land prot (prot_mask a) = prot).
  { rewrite Z.land_comm in E. split; [|done]. rewrite <- E.
    replace (Z.land prot (prot_mask a)) with (Z.land (prot mod 2 ^ 3) (prot_mask a)).
    - assert (Hr : prot mod 2 ^ 3 ∈ [0; 1; 2; 3; 4; 5; 6; 7]).
      { pose proof (Z.mod_pos_bound prot (2 ^ 3) ltac:(lia)). rewrite !elem_of_cons.
        revert H. generalize (prot mod 2 ^ 3). clear. intros x Hx.
        assert (x = 0 \/ x = 1 \/ x = 2 \/ x = 3 \/ x = 4 \/ x = 5 \/ x = 6 \/ x = 7) by lia. tauto. }
      revert Hr. generalize (mask_cases a Hm). generalize (prot_mask a), (prot mod 2 ^ 3). clear. intros m x Hm Hx.
      repeat (apply elem_of_cons in Hm as [->|Hm];
        [repeat (apply elem_of_cons in Hx as [->|Hx]; [vm_compute; set_solver|]); set_solver|]); set_solver.
    - rewrite <- Z.land_ones, <- Z.land_assoc by lia. f_equal.
      generalize (mask_cases a Hm). generalize (prot_mask a). clear. intros m Hm.
      repeat (apply elem_of_cons in Hm as [->|Hm]; [done|]); set_solver. }
  destruct Hp as [Hp Hland]. eexists _, 0, _. split; [done|]. simpl. split; [by rewrite lookup_insert_eq|].
  assert (Hif : (negb (Z.land prot PROT_READ =? 0) && rie) = (rie && Z.testbit prot 0)).
  { destruct rie; rewrite ?andb_false_r, ?andb_true_r; [|done]. clear -Hp.
    repeat (apply elem_of_cons in Hp as [->|Hp]; [done|]); set_solver. }
  unfold mask_ok. simpl. rewrite Hif. split; [|split; [done|split; [done|]]].
  - clear -Hp. destruct (rie && _); change PROT_MASK with 7;
      repeat (apply elem_of_cons in Hp as [->|Hp]; [vm_compute; intuition congruence|]); set_solver.
  - intros ->. simpl. done.
Qed.

Lemma set_prot_mask_correct_witness :
  exists s', set_prot_mask sample 0 PROT_READ false = Some (s', 0).
Proof.
  destruct (set_prot_mask_correct sample 0 sample_area PROT_READ false) as (s' & ret & a' & E & _ & _ & _ & H & _);
    [done|split; vm_compute; congruence|unfold is_u32; vm_compute; intuition congruence|].
  destruct H as [-> _]; [done|]. by exists s'.
Defined.

(** With READ_IMPLIES_EXEC in the caller's personality a bit is added: an area
    restricted to reading becomes executable again by asking for PROT_READ. *)
Theorem set_prot_mask_adds_exec :
  exists s s' s'', set_prot_mask sample 0 PROT_READ false = Some (s, 0) /\
    set_prot_mask s 0 PROT_EXEC false = Some (s', - EINVAL) /\
    set_prot_mask s' 0 PROT_READ true = Some (s'', 0) /\
    option_map prot_mask (areas s'' !! 0%nat) = Some (Z.lor PROT_READ PROT_EXEC).
Proof. do 3 eexists. repeat (split; [vm_compute; reflexivity|]). vm_compute. reflexivity. Qed.

(** ** Names *)

(** The bytes before the first terminator. *)
Fixpoint cstr (l : list Z) : list Z :=
  match l with
  | [] => []
  | c :: l => if c =? 0 then [] else c :: cstr l
  end.

Lemma strlen_terminated l :
  strlen (l ++ [0]) = Some (zlen (cstr l)) /\ take (Z.to_nat (zlen (cstr l) + 1)) (l ++ [0]) = cstr l ++ [0].
Proof.
  induction l as [|c l [IH1 IH2]]; [done|]. simpl. destruct (Z.eqb_spec c 0) as [->|Hc]; [done|].
  rewrite IH1. simpl. unfold zlen in *. simpl. split; [f_equal; lia|].
  replace (Z.to_nat (Z.of_nat (S (length (cstr l))) + 1)) with (S (Z.to_nat (Z.of_nat (length (cstr l)) + 1))) by lia.
  simpl. by rewrite IH2.
Qed.

Lemma cstr_length l : zlen (cstr l) <= zlen l.
Proof. induction l as [|c l IH]; [done|]. simpl. case_match; unfold zlen in *; simpl; lia. Qed.

(** The stored name after [set_name] of 256 readable bytes. *)
Lemma set_name_bytes_ok (n u : list Z) :
  zlen n = ASHMEM_FULL_NAME_LEN -> 256 <= zlen u ->
  (n1 ← write_bytes n ASHMEM_NAME_PREFIX_LEN (fst (copy_from_user u 0 ASHMEM_NAME_LEN));
   set_byte n1 (ASHMEM_FULL_NAME_LEN - 1) 0) = Some (take 11 n ++ take 255 u ++ [0]).
Proof.
  intros Hn Hu. destruct (copy_from_user_ok u 0 256) as [E _]; [lia..|by apply copy_from_user_full|].
  unfold ASHMEM_NAME_LEN, ASHMEM_NAME_PREFIX_LEN. rewrite E. change (Z.to_nat 256) with 256%nat.
  change (drop (Z.to_nat 0) u) with u. change ASHMEM_FULL_NAME_LEN with 267 in *. unfold zlen in *.
  assert (Hl : length (take 256 u) = 256%nat) by (rewrite length_take; lia).
  unfold set_byte, write_bytes. rewrite (proj2 (in_bounds_spec n 11 _)) by (unfold zlen; lia). simpl.
  change (Z.to_nat 11) with 11%nat. rewrite Hl, (drop_ge n) by lia. rewrite app_nil_r.
  rewrite (proj2 (in_bounds_spec _ (267 - 1) _))
    by (unfold zlen; rewrite length_app, Hl, length_take; cbn [length]; lia).
  change (Z.to_nat (267 - 1)) with 266%nat. f_equal.
  rewrite take_app, length_take, take_take, (take_take u). replace (11 `min` length n)%nat with 11%nat by lia.
  change (266 `min` 11)%nat with 11%nat. change (266 - 11)%nat with 255%nat. change (255 `min` 256)%nat with 255%nat.
  rewrite drop_ge by (rewrite length_app, Hl, length_take; cbn [length]; lia). by rewrite <- app_assoc.
Qed.

(** The name of an area that is not mapped yet: what ASHMEM_SET_NAME stores is what
    ASHMEM_GET_NAME gives back, cut after 255 bytes, with its terminator; an empty name
    gives back the default one.  The prefix and the array's length are untouched, and
    no byte outside the array is read. *)
Theorem ashmem_name_roundtrip s aid a u dst :
  areas s !! aid = Some a -> file a = None -> zlen (name a) = ASHMEM_FULL_NAME_LEN ->
  256 <= zlen u -> 256 <= zlen dst ->
  exists s' a', set_name s aid u = Some (s', 0) /\ areas s' !! aid = Some a' /\
    zlen (name a') = ASHMEM_FULL_NAME_LEN /\
    take 11 (name a') = take 11 (name a) /\
    let out := if znth u 0 =? 0 then ASHMEM_NAME_DEF else cstr (take 255 u) ++ [0] in
    get_name s' aid dst = Some (out ++ drop (length out) dst, 0).
Proof.
  intros Ha Hf Hn Hu Hd. unfold set_name. rewrite Ha. cbn [mbind option_bind]. rewrite Hf.
  destruct (copy_from_user u 0 ASHMEM_NAME_LEN) as [bs rest] eqn:Ec.
  assert (rest = 0) as -> by (change rest with (snd (bs, rest)); rewrite <- Ec; apply copy_from_user_full; done).
  pose proof (set_name_bytes_ok (name a) u Hn Hu) as E. rewrite Ec in E. cbn [fst] in E.
  destruct (write_bytes (name a) ASHMEM_NAME_PREFIX_LEN bs) as [n1|]; [|done]. cbn [mbind option_bind] in E |- *.
  rewrite E. cbn [mbind option_bind]. set (n2 := take 11 (name a) ++ take 255 u ++ [0]).
  change ASHMEM_FULL_NAME_LEN with 267 in *.
  assert (Hl11 : length (take 11 (name a)) = 11%nat) by (rewrite length_take; unfold zlen in Hn; lia).
  assert (Hl : zlen n2 = 267).
  { unfold n2, zlen. rewrite !length_app, Hl11, length_take. unfold zlen in *. cbn [length]. lia. }
  assert (Hdrop : drop 11 n2 = take 255 u ++ [0]) by (unfold n2; by apply drop_app_length').
  assert (Hnth : znth n2 ASHMEM_NAME_PREFIX_LEN = znth u 0).
  { unfold n2. rewrite znth_app_r by (unfold zlen; rewrite Hl11; done).
    unfold zlen at 1. rewrite Hl11. simpl. unfold znth, zlen in *. simpl. destruct u; [simpl in *; lia|done]. }
  eexists _, _. split; [done|]. simpl. split; [by rewrite lookup_insert_eq|]. simpl.
  split; [done|]. split; [unfold n2; by rewrite take_app_le, take_take by (rewrite Hl11; lia)|].
  unfold get_name. cbn [areas set_areas]. rewrite lookup_insert_eq. cbn [mbind option_bind name set_name_bytes].
  rewrite Hnth.
  destruct (Z.eqb_spec (znth u 0) 0) as [Hz|Hz]; cbn [negb].
  - rewrite copy_to_user_ok by (unfold zlen in *; simpl; lia). done.
  - change (Z.to_nat ASHMEM_NAME_PREFIX_LEN) with 11%nat. rewrite Hdrop.
    destruct (strlen_terminated (take 255 u)) as [Es Et]. rewrite Es. cbn [mbind option_bind].
    pose proof (cstr_length (take 255 u)) as Hc.
    assert (zlen (take 255 u) = 255) by (unfold zlen in *; rewrite length_take; lia).
    pose proof (zlen_nonneg (cstr (take 255 u))).
    unfold read_bytes. rewrite (proj2 (in_bounds_spec n2 _ _)) by (rewrite Hl; unfold ASHMEM_NAME_PREFIX_LEN; lia).
    cbn [mbind option_bind]. change (Z.to_nat ASHMEM_NAME_PREFIX_LEN) with 11%nat. rewrite Hdrop, Et.
    rewrite copy_to_user_ok by (try lia; rewrite zlen_app; change (zlen [0]) with 1; lia). simpl.
    do 3 f_equal. unfold zlen. f_equal. lia.
Qed.

Lemma ashmem_name_roundtrip_witness :
  exists s', set_name (set_areas sample {[0%nat := set_file sample_area None]}) 0 ([65; 0] ++ replicate 254 66) = Some (s', 0) /\
    get_name s' 0 (replicate 256 1) = Some ([65; 0] ++ replicate 254 1, 0).
Proof.
  destruct (ashmem_name_roundtrip (set_areas sample {[0%nat := set_file sample_area None]}) 0
    (set_file sample_area None) ([65; 0] ++ replicate 254 66) (replicate 256 1)) as (s' & a' & E & _ & _ & _ & G);
    [done|done|done|done|done|].
  exists s'. split; [exact E|]. exact G.
Defined.

(** ** Release *)

Lemma release_ranges_ok aid ids : forall s a,
  wf s -> areas s !! aid = Some a -> unpinned_list a = ids ->
  exists s', release_ranges s ids = Some s' /\ wf s' /\
    areas s' = <[aid := set_unpinned a []]> (areas s) /\ f_count s' = f_count s /\ truncated s' = truncated s /\
    forall id r, asma r <> aid -> ranges s' !! id = Some r <-> ranges s !! id = Some r.
Proof.
  induction ids as [|id ids IH]; intros s a W Ha El; simpl.
  { exists s. split; [done|]. split; [done|]. split; [|done].
    rewrite insert_id; [done|]. rewrite Ha. f_equal. destruct a; simpl in *. by subst. }
  destruct (on_list_range s aid a id W Ha) as (r & Hr); [rewrite El; set_solver|].
  destruct (sorted_around s aid a [] id r ids W Ha El Hr) as (Has & _).
  destruct (range_del_ok s id r W Hr) as (s1 & a1 & l1 & l2 & -> & W1 & Ha1 & El1 & Ea & Er & Ef & Et).
  rewrite Has in Ha1, Ea. rewrite Ha in Ha1. injection Ha1 as <-.
  assert (l1 ++ l2 = ids) as Hl.
  { pose proof (ao_nodup _ _ _ (wf_areas s W _ _ Ha)) as Hn. rewrite El in El1, Hn. change (id :: ids) with ([] ++ id :: ids) in El1, Hn.
    rewrite El1 in Hn. destruct (app_inj_pivot_nodup id [] ids l1 l2 El1 Hn) as [-> ->]. done. }
  simpl. destruct (IH s1 (set_unpinned a ids)) as (s' & -> & W' & Ea' & Ef' & Et' & Hr');
    [done|rewrite Ea, Hl, lookup_insert_eq; done|done|].
  exists s'. do 2 (split; [done|]). split; [rewrite Ea', Ea, insert_insert_eq; done|].
  do 2 (split; [congruence|]). intros x rx Hx. rewrite (Hr' x rx Hx), Er, lookup_delete_Some.
  split; [naive_solver|]. intros Hrx. split; [|done]. intros <-. congruence.
Qed.

(** Closing the last reference to an area frees all its ranges and the area, drops the
    reference on its backing file, and leaves every other area, the ranges of the other
    areas and the invariant as they were. *)
Theorem ashmem_release_correct s aid a :
  wf s -> areas s !! aid = Some a ->
  exists s', ashmem_release s aid = Some (s', 0) /\ wf s' /\
    areas s' = delete aid (areas s) /\
    (forall id r, ranges s' !! id = Some r <-> ranges s !! id = Some r /\ asma r <> aid) /\
    f_count s' = (match file a with Some f => alter (fun n => n - 1) f (f_count s) | None => f_count s end) /\
    truncated s' = truncated s.
Proof.
  intros W Ha. unfold ashmem_release. rewrite Ha. simpl.
  destruct (release_ranges_ok aid _ s a W Ha eq_refl) as (s1 & -> & W1 & Ea & Ef & Et & Hr). simpl.
  assert (Hno : forall id r, ranges s1 !! id = Some r -> asma r <> aid).
  { intros id r Hid Has. destruct (wf_ranges s1 W1 id r Hid) as (a' & Ha' & Hin).
    rewrite Has, Ea, lookup_insert_eq in Ha'. simplify_eq. simpl in Hin. set_solver. }
  set (s2 := match file a with Some f => fput s1 f | None => s1 end).
  assert (E2 : areas s2 = areas s1 /\ ranges s2 = ranges s1 /\ lru_list s2 = lru_list s1 /\
    lru_count s2 = lru_count s1 /\ truncated s2 = truncated s1) by (unfold s2; by destruct (file a)).
  destruct E2 as (E21 & E22 & E23 & E24 & E25).
  assert (Ed : delete aid (areas s2) = delete aid (areas s)) by (rewrite E21, Ea; apply delete_insert_eq).
  eexists. split; [done|]. split; [split; simpl|split; [done|split; [|split]]]; simpl; rewrite ?E22, ?E23, ?E24, ?E25.
  - intros x b Hb. apply lookup_delete_Some in Hb as [_ Hb]. rewrite E21 in Hb. by apply (wf_areas s1 W1).
  - intros id r Hid. destruct (wf_ranges s1 W1 id r Hid) as (b & Hb & Hin). exists b. split; [|done].
    rewrite lookup_delete_ne, E21; [done|]. intros Heq. by apply (Hno id r Hid).
  - apply W1.
  - apply W1.
  - apply W1.
  - intros id r. split.
    + intros Hid. split; [|by eapply Hno]. apply Hr; [by eapply Hno|done].
    + intros [Hid Hne]. by apply Hr.
  - unfold s2. destruct (file a); simpl; by rewrite Ef.
  - done.
Qed.

Lemma ashmem_release_correct_witness :
  exists s', ashmem_release sample 0 = Some (s', 0) /\ wf s' /\ areas s' = ∅.
Proof.
  destruct (ashmem_release_correct sample 0 sample_area sample_wf eq_refl) as (s' & E & W & Ea & _).
  exists s'. split; [exact E|]. split; [done|]. rewrite Ea. vm_compute. reflexivity.
Defined.

(** Unpinning nothing at the end of an area (offset equal to its page-aligned size and
    length 0) is accepted, changes no page, and leaves one more empty range on the
    area's list; as the premise holds again, repeating it allocates ranges without
    bound. *)
Theorem empty_unpin_accumulates s aid a i :
  wf s -> areas s !! aid = Some a -> is_Some (file a) -> 0 < size a <= 2 ^ 32 - 4096 -> ranges s !! i = None ->
  (forall id r, ranges s !! id = Some r -> asma r = aid -> pgend r < PAGE_ALIGN (size a) / PAGE_SIZE) ->
  exists s' a', ashmem_pin_unpin s aid ASHMEM_UNPIN (Some (PAGE_ALIGN (size a), 0)) (Some i) = Some (s', 0) /\
    wf s' /\ areas s' !! aid = Some a' /\ unpinned_list a' = i :: unpinned_list a /\
    size a' = size a /\ file a' = file a /\
    (forall x p, unpinned_page s' x p <-> unpinned_page s x p) /\
    (forall id r, ranges s' !! id = Some r -> asma r = aid -> pgend r < PAGE_ALIGN (size a') / PAGE_SIZE).
Proof.
  intros W Ha Hfa Hsz Hi Hlow. destruct (PAGE_ALIGN_spec (size a) ltac:(lia)) as (Pm & Pb & Pu).
  pose proof Hfa as [f Hf].
  destruct (pin_unpin_checks s aid a ASHMEM_UNPIN f (PAGE_ALIGN (size a)) 0 (Some i) Ha Hf Hsz)
    as [(_ & (Hb1 & Hb2) & ->)|(Hno & _)]; [unfold is_u32; lia..| |exfalso; apply Hno; split_and!; [done|done|lia]].
  unfold request_end in *. simpl in *. set (pa := PAGE_ALIGN (size a) / PAGE_SIZE) in *.
  assert (Hscan : unpin_scan s (unpinned_list a) pa (pa - 1) = Some (InsertAt (head (unpinned_list a)))).
  { destruct (unpinned_list a) as [|id l] eqn:El; [done|]. simpl.
    destruct (on_list_range s aid a id W Ha) as (r & Hr); [rewrite El; set_solver|].
    destruct (sorted_around s aid a [] id r l W Ha El Hr) as (Has & _). rewrite Hr. simpl.
    unfold range_before_page. specialize (Hlow id r Hr Has). zbool. done. }
  unfold ashmem_unpin. rewrite Ha. cbn [mbind option_bind ashmem_unpin_loop]. rewrite Ha.
  cbn [mbind option_bind]. rewrite Hscan. cbn [mbind option_bind].
  destruct (range_alloc_ok s aid a (head (unpinned_list a)) ASHMEM_NOT_PURGED pa (pa - 1) i [] (unpinned_list a))
    as (s' & -> & W' & Ea & Er & _); [done..|split; simpl; lia || auto|constructor| |].
  { rewrite Forall_forall. intros x Hx rx Hrx.
    destruct (member_asma _ _ _ _ _ (wf_areas s W _ _ Ha) Hx Hrx) as [Has _]. by eapply Hlow. }
  exists s', (set_unpinned a (i :: unpinned_list a)). do 2 (split; [done|]).
  split; [rewrite Ea, lookup_insert_eq; done|]. do 3 (split; [done|]). simpl. split.
  - intros x p. rewrite (page_insert s s' i _ x p Er Hi). simpl. split; [|tauto]. intros [(_ & ?)|?]; [lia|done].
  - intros id r. rewrite Er, lookup_insert. case_decide; [intros [=<-] _; simpl; lia|apply Hlow].
Qed.

Lemma empty_unpin_accumulates_witness :
  exists s' a', ashmem_pin_unpin sample 0 ASHMEM_UNPIN (Some (40960, 0)) (Some 3%nat) = Some (s', 0) /\
    areas s' !! 0%nat = Some a' /\ unpinned_list a' = [3%nat; 1%nat; 2%nat].
Proof.
  destruct (empty_unpin_accumulates sample 0 sample_area 3) as (s' & a' & E & _ & Ha & El & _);
    [apply sample_wf|done|by exists 0%nat|simpl; lia|done| |].
  - intros id r H _. cbn in H. apply lookup_insert_Some in H as [[<- <-]|[_ [<- <-]%lookup_singleton_Some]]; done.
  - exists s', a'. split; [exact E|]. split; [exact Ha|exact El].
Defined.

End Ashmem.
