(* ===== verification/Bitops.v ===== *)
(** * Bit operations on one word

    arch/arm/include/asm/bitops.h, include/asm-generic/bitops and lib/hweight.c: the
    first and last set bit of a word, found by binary search or with the [clz]
    instruction, and the number of set bits. *)
From S2P Require Import Prelude.

Module Bitops.

Definition BITS_PER_LONG : Z := 32.

(** ** Words *)

(** [~x], [x << n] and [x >> n] on [unsigned long].  A shift by 32 gives 0, which is
    what the ARM shifter does; C leaves it undefined. *)
Definition not32 (x : Z) : Z := u32 (Z.lnot x).
Definition shl32 (x n : Z) : Z := u32 (Z.shiftl x n).
Definition shr32 (x n : Z) : Z := Z.shiftr x n.

(** ** Last set bit *)

(** One test of the binary search: [if (!(x & mask)) { x <<= n; r -= n; }]. *)
Definition fls_probe (mask n : Z) (xr : Z * Z) : Z * Z :=
  let '(x, r) := xr in
  if Z.land x mask =? 0 then (shl32 x n, r - n) else (x, r).

Definition constant_fls (x : Z) : Z :=
  if x =? 0 then 0
  else snd (fls_probe 0x80000000 1 (fls_probe 0xc0000000 2 (fls_probe 0xf0000000 4
             (fls_probe 0xff000000 8 (fls_probe 0xffff0000 16 (x, 32)))))).

(** The ARM instruction [clz]: the number of zero bits above the highest set one. *)
Definition clz (x : Z) : Z := if x =? 0 then 32 else 31 - Z.log2 x.

(** [const]: whether the compiler knows the argument. *)
Definition fls (const : bool) (x : Z) : Z :=
  if const then constant_fls x else 32 - clz x.

Definition __fls (x : Z) : Z := fls false x - 1.

(** ** First set bit *)

Definition ffs (x : Z) : Z := fls false (Z.land x (u32 (- x))).
Definition __ffs (x : Z) : Z := ffs x - 1.
Definition ffz (x : Z) : Z := __ffs (not32 x).

(** The generic versions: [if ((word & mask) == 0) { num += n; word >>= n; }]. *)
Definition ffs_probe (mask n : Z) (xr : Z * Z) : Z * Z :=
  let '(x, r) := xr in
  if Z.land x mask =? 0 then (shr32 x n, r + n) else (x, r).

Definition generic___ffs (word : Z) : Z :=
  snd (ffs_probe 0x1 1 (ffs_probe 0x3 2 (ffs_probe 0xf 4 (ffs_probe 0xff 8
    (ffs_probe 0xffff 16 (word, 0)))))).

Definition generic_ffs (x : Z) : Z :=
  if x =? 0 then 0
  else snd (ffs_probe 0x1 1 (ffs_probe 0x3 2 (ffs_probe 0xf 4 (ffs_probe 0xff 8
         (ffs_probe 0xffff 16 (x, 1)))))).

(** ** Hamming weight *)

Definition hweight32 (w : Z) : Z :=
  let res := u32 (w - Z.land (shr32 w 1) 0x55555555) in
  let res := u32 (Z.land res 0x33333333 + Z.land (shr32 res 2) 0x33333333) in
  let res := Z.land (u32 (res + shr32 res 4)) 0x0F0F0F0F in
  let res := u32 (res + shr32 res 8) in
  Z.land (u32 (res + shr32 res 16)) 0x000000FF.

Definition hweight16 (w : Z) : Z :=
  let res := u32 (w - Z.land (shr32 w 1) 0x5555) in
  let res := u32 (Z.land res 0x3333 + Z.land (shr32 res 2) 0x3333) in
  let res := Z.land (u32 (res + shr32 res 4)) 0x0F0F in
  Z.land (u32 (res + shr32 res 8)) 0x00FF.

Definition hweight8 (w : Z) : Z :=
  let res := u32 (w - Z.land (shr32 w 1) 0x55) in
  let res := u32 (Z.land res 0x33 + Z.land (shr32 res 2) 0x33) in
  Z.land (u32 (res + shr32 res 4)) 0x0F.

Definition hweight64 (w : Z) : Z := u32 (hweight32 (u32 (Z.shiftr w 32)) + hweight32 (u32 w)).

Definition hweight_long (w : Z) : Z := hweight32 w.

(** ** Specifications *)

(** [n] is the position of the lowest set bit. *)
Definition first_set (x n : Z) : Prop :=
  0 <= n /\ Z.testbit x n = true /\ forall m, 0 <= m < n -> Z.testbit x m = false.

(** The number of set bits among the lowest [n]. *)
Fixpoint popcount (n : nat) (x : Z) : Z :=
  match n with
  | O => 0
  | S n => x mod 2 + popcount n (x / 2)
  end.

(** ** Words bit by bit *)

Lemma testbit_u32 x i : 0 <= i -> Z.testbit (u32 x) i = (i <? 32) && Z.testbit x i.
Proof.
  intros Hi. unfold u32. destruct (Z.ltb_spec i 32).
  - rewrite Z.mod_pow2_bits_low by lia. done.
  - rewrite Z.mod_pow2_bits_high by lia. done.
Qed.

Lemma testbit_not32 x i : 0 <= i < 32 -> Z.testbit (not32 x) i = negb (Z.testbit x i).
Proof.
  intros Hi. unfold not32. rewrite testbit_u32 by lia. rewrite Z.lnot_spec by lia.
  destruct (Z.ltb_spec i 32); [done|lia].
Qed.

Lemma testbit_high x i : is_u32 x -> 32 <= i -> Z.testbit x i = false.
Proof.
  intros Hx Hi. rewrite <- (u32_id x Hx), testbit_u32 by lia. destruct (Z.ltb_spec i 32); [lia|done].
Qed.

Lemma word_ext x y :
  is_u32 x -> is_u32 y -> (forall i, 0 <= i < 32 -> Z.testbit x i = Z.testbit y i) -> x = y.
Proof.
  intros Hx Hy H. apply Z.bits_inj'. intros i Hi. destruct (Z.ltb_spec i 32); [apply H; lia|].
  by rewrite !testbit_high.
Qed.

Lemma word_zero x : is_u32 x -> x = 0 <-> forall i, 0 <= i < 32 -> Z.testbit x i = false.
Proof.
  intros Hx. split; [intros -> i _; apply Z.bits_0|]. intros H. apply word_ext; [done|unfold is_u32; lia|].
  intros i Hi. rewrite Z.bits_0. by apply H.
Qed.

Lemma first_set_unique x n m : first_set x n -> first_set x m -> n = m.
Proof.
  intros (Hn & Bn & Ln) (Hm & Bm & Lm). destruct (Z.lt_trichotomy n m) as [H|[H|H]]; [|done|].
  - rewrite Lm in Bn by lia. done.
  - rewrite Ln in Bm by lia. done.
Qed.

(** [x] splits at the bit [k]: low part [a], high part [b]. *)
Lemma testbit_split k a b i :
  0 <= k -> 0 <= a < 2 ^ k -> 0 <= i ->
  Z.testbit (a + 2 ^ k * b) i = if i <? k then Z.testbit a i else Z.testbit b (i - k).
Proof.
  intros Hk Ha Hi. destruct (Z.ltb_spec i k).
  - rewrite <- (Z.mod_pow2_bits_low _ k i) by lia.
    rewrite Z.mul_comm, Z.mod_add by lia. rewrite Z.mod_small by lia. done.
  - replace i with ((i - k) + k) at 1 by lia. rewrite <- Z.div_pow2_bits by lia.
    rewrite Z.mul_comm, Z.div_add by lia. rewrite Z.div_small by lia. done.
Qed.

Lemma land_split k s a b m M :
  0 <= s <= k -> 0 <= a < 2 ^ k -> 0 <= m < 2 ^ (k - s) ->
  Z.land (Z.shiftr (a + 2 ^ k * b) s) (m + 2 ^ k * M) =
  Z.land (Z.shiftr a s) m + 2 ^ k * Z.land (Z.shiftr b s) M.
Proof.
  intros Hs Ha Hm. assert (2 ^ (k - s) <= 2 ^ k) by (apply Z.pow_le_mono_r; lia).
  assert (Hl : 0 <= Z.land (Z.shiftr a s) m < 2 ^ k).
  { split; [apply Z.land_nonneg; lia|]. destruct (decide (Z.land (Z.shiftr a s) m = 0)) as [->|]; [lia|].
    apply Z.log2_lt_cancel. rewrite Z.log2_pow2 by lia.
    assert (0 < Z.land (Z.shiftr a s) m) by (assert (0 <= Z.land (Z.shiftr a s) m) by (apply Z.land_nonneg; lia); lia).
    assert (Z.shiftr a s <= a) by (rewrite Z.shiftr_div_pow2 by lia; apply Z.div_le_upper_bound; [|nia]; lia).
    assert (0 <= Z.shiftr a s) by (apply Z.shiftr_nonneg; lia).
    pose proof (Z.log2_land (Z.shiftr a s) m ltac:(lia) ltac:(lia)).
    assert (Z.log2 m < k); [|lia]. destruct (decide (m = 0)) as [->|].
    - rewrite Z.land_0_r in *. done.
    - apply Z.log2_lt_pow2; lia. }
  apply Z.bits_inj'. intros i Hi. rewrite Z.land_spec, Z.shiftr_spec by lia.
  rewrite !testbit_split by lia. destruct (Z.ltb_spec i k), (Z.ltb_spec (i + s) k); try lia.
  - rewrite Z.land_spec, Z.shiftr_spec by lia. done.
  - rewrite Z.land_spec. replace (Z.testbit m i) with false; [by rewrite !andb_false_r|].
    symmetry. rewrite <- (Z.mod_small m (2 ^ (k - s))) by lia. apply Z.mod_pow2_bits_high. lia.
  - rewrite Z.land_spec, Z.shiftr_spec by lia. do 2 f_equal. lia.
Qed.

(** ** Last set bit: binary search against [clz] *)

Lemma land_top_zero x n :
  is_u32 x -> 0 < n <= 32 -> Z.land x (2 ^ 32 - 2 ^ (32 - n)) = 0 <-> x < 2 ^ (32 - n).
Proof.
  intros Hx Hn.
  assert (E : 2 ^ 32 - 2 ^ (32 - n) = 0 + 2 ^ (32 - n) * (2 ^ n - 1)).
  { rewrite Z.mul_sub_distr_l, <- Z.pow_add_r by lia. replace (32 - n + n) with 32 by lia. lia. }
  set (k := 32 - n) in *. assert (Hkn : k + n = 32 /\ 0 <= k) by lia. clearbody k. assert (0 < 2 ^ k) by (apply Z.pow_pos_nonneg; lia).
  pose proof (Z.mod_pos_bound x (2 ^ k) ltac:(lia)).
  assert (Hdiv : 0 <= x / 2 ^ k < 2 ^ n).
  { unfold is_u32 in Hx. split; [apply Z.div_pos; lia|]. apply Z.div_lt_upper_bound; [lia|].
    rewrite <- Z.pow_add_r by lia. replace (k + n) with 32 by lia. lia. }
  assert (El : Z.land x (2 ^ 32 - 2 ^ k) = 2 ^ k * (x / 2 ^ k)).
  { rewrite (Z.div_mod x (2 ^ k)) at 1 by lia. rewrite (Z.add_comm (2 ^ k * _)), E.
    rewrite <- (Z.shiftr_0_r (x mod 2 ^ k + _)), land_split by lia.
    rewrite Z.land_0_r, Z.shiftr_0_r. replace (2 ^ n - 1) with (Z.ones n) by (rewrite Z.ones_equiv; lia).
    rewrite Z.land_ones by lia. rewrite Z.mod_small by lia. lia. }
  rewrite El. split.
  - intros Hz. assert (x / 2 ^ k = 0) by nia. pose proof (Z.div_mod x (2 ^ k) ltac:(lia)). lia.
  - intros Hlt. rewrite Z.div_small by (unfold is_u32 in Hx; lia). lia.
Qed.

(** One probe keeps [r + log2 x] and halves the number of leading zeros that are left. *)
Lemma fls_probe_ok n mask x r :
  is_u32 x -> 0 < n <= 16 -> mask = 2 ^ 32 - 2 ^ (32 - n) -> 2 ^ (32 - 2 * n) <= x ->
  exists x' r', fls_probe mask n (x, r) = (x', r') /\ is_u32 x' /\ 2 ^ (32 - n) <= x' /\
    r' + Z.log2 x' = r + Z.log2 x.
Proof.
  intros Hx Hn -> Hlow. unfold fls_probe. pose proof (land_top_zero x n Hx ltac:(lia)) as Hz.
  assert (Hpos : 0 < 2 ^ (32 - 2 * n)) by (apply Z.pow_pos_nonneg; lia).
  destruct (Z.eqb_spec (Z.land x (2 ^ 32 - 2 ^ (32 - n))) 0) as [E|E].
  - apply Hz in E. assert (Hs : x * 2 ^ n < 2 ^ 32).
    { replace (2 ^ 32) with (2 ^ (32 - n) * 2 ^ n) by (rewrite <- Z.pow_add_r by lia; f_equal; lia).
      apply Z.mul_lt_mono_pos_r; [apply Z.pow_pos_nonneg; lia|done]. }
    assert (0 < 2 ^ n) by (apply Z.pow_pos_nonneg; lia).
    exists (x * 2 ^ n), (r - n). unfold shl32. rewrite Z.shiftl_mul_pow2, u32_id by (unfold is_u32; lia || nia).
    split; [done|]. split; [unfold is_u32; nia|]. split.
    + replace (2 ^ (32 - n)) with (2 ^ (32 - 2 * n) * 2 ^ n) by (rewrite <- Z.pow_add_r by lia; f_equal; lia). nia.
    + rewrite Z.log2_mul_pow2 by lia. lia.
  - exists x, r. split; [done|]. split; [done|]. split; [|lia].
    destruct (Z.lt_ge_cases x (2 ^ (32 - n))); [|done]. by destruct E; apply Hz.
Qed.

Lemma constant_fls_spec x : is_u32 x -> constant_fls x = 32 - clz x.
Proof.
  intros Hx. unfold constant_fls, clz. destruct (Z.eqb_spec x 0) as [->|Hnz]; [done|].
  assert (H0 : 2 ^ (32 - 2 * 16) <= x) by (unfold is_u32 in Hx; simpl; lia).
  destruct (fls_probe_ok 16 0xffff0000 x 32 Hx ltac:(lia) eq_refl H0) as (x1 & r1 & -> & U1 & L1 & R1).
  destruct (fls_probe_ok 8 0xff000000 x1 r1 U1 ltac:(lia) eq_refl L1) as (x2 & r2 & -> & U2 & L2 & R2).
  destruct (fls_probe_ok 4 0xf0000000 x2 r2 U2 ltac:(lia) eq_refl L2) as (x3 & r3 & -> & U3 & L3 & R3).
  destruct (fls_probe_ok 2 0xc0000000 x3 r3 U3 ltac:(lia) eq_refl L3) as (x4 & r4 & -> & U4 & L4 & R4).
  destruct (fls_probe_ok 1 0x80000000 x4 r4 U4 ltac:(lia) eq_refl L4) as (x5 & r5 & -> & U5 & L5 & R5).
  simpl. assert (Z.log2 x5 = 31); [|lia].
  apply Z.log2_unique; [lia|]. unfold is_u32 in U5. simpl in L5. lia.
Qed.

Lemma fls_spec c x : is_u32 x -> fls c x = if x =? 0 then 0 else Z.log2 x + 1.
Proof.
  intros Hx. unfold fls. rewrite constant_fls_spec by done. unfold clz.
  destruct c, (Z.eqb_spec x 0); lia.
Qed.

(** ** First set bit *)

Lemma first_set_exists x : is_u32 x -> x <> 0 -> exists n, 0 <= n < 32 /\ first_set x n.
Proof.
  intros Hx Hnz.
  assert (H : forall k, 0 <= k <= 32 ->
    (forall m, 0 <= m < k -> Z.testbit x m = false) \/ exists n, 0 <= n < k /\ first_set x n).
  { intros k Hk. assert (H0 : 0 <= k) by lia. revert k H0 Hk. apply (natlike_ind (fun k => 0 <= k <= 32 -> _)); [|intros k Hk0 IH Hk].
    - intros _. left. lia.
    - destruct (IH ltac:(lia)) as [Hz|(n & Hn & Hf)].
      + destruct (Z.testbit x k) eqn:Hb; [right; exists k; split; [lia|by split]|].
        left. intros m Hm. destruct (decide (m = k)) as [->|]; [done|]. apply Hz. lia.
      + right. exists n. split; [lia|done]. }
  destruct (H 32 ltac:(lia)) as [Hz|?]; [|done]. by apply word_zero in Hz.
Qed.

(** [x & -x] isolates the lowest set bit. *)
Lemma isolate_lowest x n : is_u32 x -> first_set x n -> Z.land x (u32 (- x)) = 2 ^ n.
Proof.
  intros Hx (Hn & Hb & Hl).
  assert (Hn32 : n < 32) by (destruct (Z.lt_ge_cases n 32); [done|]; rewrite testbit_high in Hb by done; done).
  assert (0 < 2 ^ n) by (apply Z.pow_pos_nonneg; lia).
  assert (Hm : x mod 2 ^ n = 0).
  { apply Z.bits_inj'. intros i Hi. rewrite Z.bits_0. destruct (Z.ltb_spec i n).
    - rewrite Z.mod_pow2_bits_low by lia. apply Hl. lia.
    - apply Z.mod_pow2_bits_high. lia. }
  apply Z.bits_inj'. intros i Hi. rewrite Z.land_spec, testbit_u32, Z.pow2_bits_eqb by lia.
  destruct (Z.ltb_spec i 32); [|rewrite andb_false_r; destruct (Z.eqb_spec n i); [lia|done]]. simpl.
  destruct (Z.eqb_spec n i) as [<-|Hne].
  - rewrite Hb. simpl. rewrite <- (Z.sub_0_l x). replace (0 - x) with (Z.lnot (x - 1)) by (unfold Z.lnot; lia).
    rewrite Z.lnot_spec by lia. replace (x - 1) with ((2 ^ n - 1) + 2 ^ n * (x / 2 ^ n - 1))
      by (pose proof (Z.div_mod x (2 ^ n) ltac:(lia)); lia).
    rewrite testbit_split by lia. rewrite Z.ltb_irrefl, Z.sub_diag.
    assert (Hodd : Z.testbit (x / 2 ^ n) 0 = true) by (rewrite Z.div_pow2_bits by lia; done).
    rewrite Z.bit0_odd in *. rewrite Z.odd_sub. rewrite Hodd. done.
  - destruct (Z.lt_ge_cases i n); [rewrite Hl by lia; done|].
    replace (- x) with (Z.lnot (x - 1)) by (unfold Z.lnot; lia). rewrite Z.lnot_spec by lia.
    replace (x - 1) with ((2 ^ n - 1) + 2 ^ n * (x / 2 ^ n - 1)) by (pose proof (Z.div_mod x (2 ^ n) ltac:(lia)); lia).
    rewrite testbit_split by lia. destruct (Z.ltb_spec i n); [lia|].
    assert (Hodd : Z.odd (x / 2 ^ n) = true) by (rewrite <- Z.bit0_odd, Z.div_pow2_bits by lia; done).
    set (q := x / 2 ^ n) in *. replace i with (i - n + n) at 1 by lia. rewrite <- Z.div_pow2_bits by lia.
    fold q. assert (E : q = 2 * (q / 2) + 1) by (pose proof (Zmod_odd q); rewrite Hodd in *; pose proof (Z.div_mod q 2 ltac:(lia)); lia).
    replace (q - 1) with (2 * (q / 2)) by lia. replace (i - n) with (Z.succ (i - n - 1)) by lia.
    rewrite E at 1. rewrite Z.testbit_odd_succ, Z.testbit_even_succ by lia. apply andb_negb_r.
Qed.

Lemma __ffs_spec x : is_u32 x -> x <> 0 -> first_set x (__ffs x) /\ 0 <= __ffs x < 32.
Proof.
  intros Hx Hnz. destruct (first_set_exists x Hx Hnz) as (n & Hn & Hf). unfold __ffs, ffs.
  rewrite (isolate_lowest x n) by done. assert (0 < 2 ^ n < 2 ^ 32)
    by (split; [apply Z.pow_pos_nonneg; lia|apply Z.pow_lt_mono_r; lia]).
  rewrite fls_spec by (unfold is_u32; lia). destruct (Z.eqb_spec (2 ^ n) 0); [lia|].
  rewrite Z.log2_pow2 by lia. replace (n + 1 - 1) with n by lia. done.
Qed.

Lemma not32_range x : is_u32 (not32 x).
Proof. apply u32_range. Qed.

Lemma ffz_spec x :
  is_u32 x -> x <> 2 ^ 32 - 1 ->
  0 <= ffz x < 32 /\ Z.testbit x (ffz x) = false /\ forall m, 0 <= m < ffz x -> Z.testbit x m = true.
Proof.
  intros Hx Hnz. assert (Hn0 : not32 x <> 0).
  { unfold not32, Z.lnot, u32. rewrite <- (Z.mod_add (Z.pred (- x)) 1), Z.mod_small by (unfold is_u32 in Hx; lia).
    unfold is_u32 in Hx. lia. }
  destruct (__ffs_spec (not32 x) (not32_range x) Hn0) as [(H0 & Hb & Hl) H32]. unfold ffz.
  split; [done|]. rewrite testbit_not32 in Hb by done. split; [by apply negb_true_iff|].
  intros m Hm. specialize (Hl m Hm). rewrite testbit_not32 in Hl by lia. by apply negb_false_iff.
Qed.

(** The generic binary search finds the same bit. *)
Lemma ffs_probe_ok n x r d :
  0 < n <= 16 -> 0 <= d < 2 * n -> first_set x d ->
  exists x' r' d', ffs_probe (2 ^ n - 1) n (x, r) = (x', r') /\ 0 <= d' < n /\ first_set x' d' /\ r' + d' = r + d.
Proof.
  intros Hn Hd (_ & Hb & Hl). unfold ffs_probe.
  replace (2 ^ n - 1) with (Z.ones n) by (rewrite Z.ones_equiv; lia).
  destruct (Z.eqb_spec (Z.land x (Z.ones n)) 0) as [E|E].
  - assert (Hge : n <= d).
    { destruct (Z.lt_ge_cases d n); [|done]. apply (f_equal (fun z => Z.testbit z d)) in E.
      rewrite Z.land_spec, Hb, Z.bits_0, Z.ones_spec_low in E by lia. done. }
    exists (shr32 x n), (r + n), (d - n). split; [done|]. split; [lia|]. split; [|lia]. split; [lia|].
    unfold shr32. split; [rewrite Z.shiftr_spec by lia; rewrite <- Hb; f_equal; lia|].
    intros m Hm. rewrite Z.shiftr_spec by lia. apply Hl. lia.
  - exists x, r, d. split; [done|]. split; [|split; [split; [lia|done]|lia]]. split; [lia|].
    destruct (Z.lt_ge_cases d n); [done|]. destruct E. apply Z.bits_inj'. intros i Hi.
    rewrite Z.land_spec, Z.bits_0. destruct (Z.ltb_spec i n).
    + rewrite Hl by lia. done.
    + rewrite Z.ones_spec_high by lia. apply andb_false_r.
Qed.

Lemma ffs_probes x r d :
  0 <= d < 32 -> first_set x d ->
  snd (ffs_probe 0x1 1 (ffs_probe 0x3 2 (ffs_probe 0xf 4 (ffs_probe 0xff 8 (ffs_probe 0xffff 16 (x, r)))))) = r + d.
Proof.
  intros Hd Hf.
  destruct (ffs_probe_ok 16 x r d ltac:(lia) ltac:(lia) Hf) as (x1 & r1 & d1 & E1 & D1 & F1 & R1).
  destruct (ffs_probe_ok 8 x1 r1 d1 ltac:(lia) ltac:(lia) F1) as (x2 & r2 & d2 & E2 & D2 & F2 & R2).
  destruct (ffs_probe_ok 4 x2 r2 d2 ltac:(lia) ltac:(lia) F2) as (x3 & r3 & d3 & E3 & D3 & F3 & R3).
  destruct (ffs_probe_ok 2 x3 r3 d3 ltac:(lia) ltac:(lia) F3) as (x4 & r4 & d4 & E4 & D4 & F4 & R4).
  destruct (ffs_probe_ok 1 x4 r4 d4 ltac:(lia) ltac:(lia) F4) as (x5 & r5 & d5 & E5 & D5 & F5 & R5).
  change (2 ^ 16 - 1) with 0xffff in E1. change (2 ^ 8 - 1) with 0xff in E2. change (2 ^ 4 - 1) with 0xf in E3.
  change (2 ^ 2 - 1) with 0x3 in E4. change (2 ^ 1 - 1) with 0x1 in E5.
  rewrite E1, E2, E3, E4, E5. simpl. lia.
Qed.

(** The searches for the first and last set bit of a 32-bit word agree whichever way
    they are compiled: the binary searches in C give what the [clz] instruction gives,
    which is one more than the position of the highest set bit ([fls]) or of the lowest
    set bit ([ffs]), and 0 for 0; [__ffs] is the position of the lowest set bit. *)
Theorem bit_search_agree x :
  is_u32 x ->
  constant_fls x = fls false x /\ generic_ffs x = ffs x /\
  fls false x = (if x =? 0 then 0 else Z.log2 x + 1) /\
  (x = 0 -> ffs x = 0) /\
  (x <> 0 -> first_set x (__ffs x) /\ generic___ffs x = __ffs x).
Proof.
  intros Hx. split; [apply (constant_fls_spec x Hx)|]. unfold generic_ffs, generic___ffs.
  destruct (Z.eqb_spec x 0) as [->|Hnz]; [by rewrite fls_spec|].
  destruct (__ffs_spec x Hx Hnz) as [Hf H32]. rewrite !(ffs_probes x _ (__ffs x)) by done.
  split; [unfold __ffs; lia|]. split; [rewrite fls_spec by done; by rewrite (proj2 (Z.eqb_neq x 0))|].
  split; [done|]. intros _. split; [done|lia].
Qed.

Lemma bit_search_agree_witness :
  is_u32 0x50 /\ generic___ffs 0x50 = __ffs 0x50 /\ first_set 0x50 (__ffs 0x50).
Proof.
  assert (H : is_u32 0x50) by (unfold is_u32; lia). split; [exact H|].
  destruct (bit_search_agree 0x50 H) as (_ & _ & _ & _ & Hn). destruct Hn as [Hf He]; [lia|]. done.
Defined.

(** ** Hamming weight *)

Lemma popcount_split k n a b :
  0 <= a < 2 ^ Z.of_nat k -> popcount (k + n) (a + 2 ^ Z.of_nat k * b) = popcount k a + popcount n b.
Proof.
  revert a. induction k as [|k IH]; intros a Ha.
  - change (2 ^ Z.of_nat 0) with 1 in *. replace (a + 1 * b) with b by lia. cbn [Nat.add popcount]. lia.
  - cbn [Nat.add popcount]. rewrite Nat2Z.inj_succ, Z.pow_succ_r in * by lia.
    replace (a + 2 * 2 ^ Z.of_nat k * b) with (a + (2 ^ Z.of_nat k * b) * 2) by lia.
    assert (0 <= a / 2 < 2 ^ Z.of_nat k) by (split; [apply Z.div_pos; lia|apply Z.div_lt_upper_bound; lia]).
    rewrite Z.mod_add, Z.div_add by lia. rewrite IH by done. lia.
Qed.

(** The first two steps act on each byte alone. *)
Definition byte_pairs (b : Z) : Z := b - Z.land (Z.shiftr b 1) 0x55.
Definition byte_nibbles (b : Z) : Z :=
  Z.land (byte_pairs b) 0x33 + Z.land (Z.shiftr (byte_pairs b) 2) 0x33.

Lemma byte_table b :
  0 <= b < 256 ->
  0 <= byte_pairs b < 256 /\ 0 <= byte_nibbles b mod 16 <= 4 /\ 0 <= byte_nibbles b / 16 <= 4 /\
  byte_nibbles b mod 16 + byte_nibbles b / 16 = popcount 8 b.
Proof.
  intros Hb.
  assert (H : forallb (fun b => ((0 <=? byte_pairs b) && (byte_pairs b <? 256) && (0 <=? byte_nibbles b) &&
    (byte_nibbles b mod 16 <=? 4) && (byte_nibbles b / 16 <=? 4) &&
    (byte_nibbles b mod 16 + byte_nibbles b / 16 =? popcount 8 b))) (map Z.of_nat (seq 0 256)) = true)
    by (vm_compute; reflexivity).
  rewrite List.forallb_forall in H. specialize (H b). rewrite !andb_true_iff, !Z.leb_le, !Z.ltb_lt, !Z.eqb_eq in H.
  assert (Hin : In b (map Z.of_nat (seq 0 256))).
  { apply in_map_iff. exists (Z.to_nat b). split; [lia|]. apply in_seq. lia. }
  specialize (H Hin). destruct H as [[[[[H1 H2] H3] H4] H5] H6].
  pose proof (Z.mod_pos_bound (byte_nibbles b) 16 ltac:(lia)). pose proof (Z.div_pos (byte_nibbles b) 16 H3 ltac:(lia)). lia.
Qed.

Lemma hweight_steps a b M5 M3 :
  0 <= a < 256 ->
  (a + 256 * b) - Z.land (Z.shiftr (a + 256 * b) 1) (0x55 + 256 * M5) =
    byte_pairs a + 256 * (b - Z.land (Z.shiftr b 1) M5) /\
  (0 <= byte_pairs a < 256 -> forall c,
   Z.land (byte_pairs a + 256 * c) (0x33 + 256 * M3) + Z.land (Z.shiftr (byte_pairs a + 256 * c) 2) (0x33 + 256 * M3) =
     byte_nibbles a + 256 * (Z.land c M3 + Z.land (Z.shiftr c 2) M3)).
Proof.
  intros Ha. change 256 with (2 ^ 8) in *. split.
  - rewrite land_split by lia. unfold byte_pairs. lia.
  - intros Hp c. rewrite land_split by lia. rewrite <- (Z.shiftr_0_r (byte_pairs a + 2 ^ 8 * c)) at 1.
    rewrite land_split by lia. rewrite !Z.shiftr_0_r. unfold byte_nibbles. lia.
Qed.

(** A nibble kept and a nibble dropped by the mask 0x0F0F... *)
Lemma land_0F x y z M :
  0 <= x < 16 -> 0 <= y < 16 ->
  Z.land (x + 16 * (y + 16 * z)) (0xF + 16 * (0 + 16 * M)) = x + 256 * Z.land z M.
Proof.
  intros Hx Hy. assert (E : forall p q m N, 0 <= p < 16 -> 0 <= m < 16 ->
    Z.land (p + 16 * q) (m + 16 * N) = Z.land p m + 16 * Z.land q N).
  { intros p q m N Hp Hm. pose proof (land_split 4 0 p q m N) as H. rewrite !Z.shiftr_0_r in H.
    change (2 ^ 4) with 16 in H. apply H; simpl; lia. }
  rewrite !E by lia. rewrite Z.land_0_r. change 0xF with (Z.ones 4).
  rewrite Z.land_ones by lia. rewrite Z.mod_small by (simpl; lia). lia.
Qed.

Lemma div_low n a b : 0 <= a < n -> (a + n * b) / n = b.
Proof. intros. rewrite Z.mul_comm, Z.div_add, Z.div_small by lia. lia. Qed.

(** The last three steps, on nibbles [l0 h0 ... l3 h3] that hold counts of at most 4. *)
Lemma hweight_sum l0 h0 l1 h1 l2 h2 l3 h3 :
  0 <= l0 <= 4 -> 0 <= h0 <= 4 -> 0 <= l1 <= 4 -> 0 <= h1 <= 4 ->
  0 <= l2 <= 4 -> 0 <= h2 <= 4 -> 0 <= l3 <= 4 -> 0 <= h3 <= 4 ->
  let res := l0 + 16 * (h0 + 16 * (l1 + 16 * (h1 + 16 * (l2 + 16 * (h2 + 16 * (l3 + 16 * h3)))))) in
  let res := Z.land (u32 (res + shr32 res 4)) 0x0F0F0F0F in
  let res := u32 (res + shr32 res 8) in
  Z.land (u32 (res + shr32 res 16)) 0x000000FF = l0 + h0 + (l1 + h1) + (l2 + h2) + (l3 + h3).
Proof.
  intros H1 H2 H3 H4 H5 H6 H7 H8. cbv zeta. unfold shr32. rewrite !Z.shiftr_div_pow2 by lia.
  change (2 ^ 4) with 16. change (2 ^ 8) with 256. change (2 ^ 16) with 65536.
  rewrite div_low by lia.
  match goal with |- context [u32 ?x] => replace x with
    ((l0 + h0) + 16 * ((h0 + l1) + 16 * ((l1 + h1) + 16 * ((h1 + l2) + 16 * ((l2 + h2) + 16 * ((h2 + l3) +
    16 * ((l3 + h3) + 16 * (h3 + 16 * 0)))))))) by lia end.
  rewrite (u32_id (l0 + h0 + _)) by (unfold is_u32; lia).
  change 0x0F0F0F0F with (0xF + 16 * (0 + 16 * (0xF + 16 * (0 + 16 * (0xF + 16 * (0 + 16 * (0xF + 16 * (0 + 16 * 0)))))))).
  rewrite !land_0F by lia. rewrite Z.land_0_r, div_low by lia.
  match goal with |- context [u32 (l0 + h0 + ?x + ?y)] => replace (l0 + h0 + x + y) with
    ((l0 + h0 + (l1 + h1)) + 256 * ((l1 + h1 + (l2 + h2)) + 256 * ((l2 + h2 + (l3 + h3)) + 256 * (l3 + h3)))) by lia end.
  rewrite (u32_id (l0 + h0 + (l1 + h1) + _)) by (unfold is_u32; lia).
  replace (l0 + h0 + (l1 + h1) + 256 * (l1 + h1 + (l2 + h2) + 256 * (l2 + h2 + (l3 + h3) + 256 * (l3 + h3))))
    with ((l0 + h0 + (l1 + h1) + 256 * (l1 + h1 + (l2 + h2))) + 65536 * (l2 + h2 + (l3 + h3) + 256 * (l3 + h3))) by lia.
  rewrite div_low by lia. rewrite u32_id by (unfold is_u32; lia).
  change 255 with (Z.ones 8). rewrite Z.land_ones by lia. change (2 ^ 8) with 256.
  match goal with |- ?x mod 256 = ?y => replace x with
    (y + ((l1 + h1 + (l2 + h2) + (l3 + h3)) + 256 * ((l2 + h2 + (l3 + h3)) + 256 * (l3 + h3))) * 256) by lia end.
  rewrite Z.mod_add by lia. apply Z.mod_small. lia.
Qed.

(** The first two steps on four bytes. *)
Lemma hweight_bytes a b c d :
  0 <= a < 256 -> 0 <= b < 256 -> 0 <= c < 256 -> 0 <= d < 256 ->
  let w := a + 256 * (b + 256 * (c + 256 * d)) in
  let res := u32 (w - Z.land (shr32 w 1) 0x55555555) in
  u32 (Z.land res 0x33333333 + Z.land (shr32 res 2) 0x33333333) =
  byte_nibbles a + 256 * (byte_nibbles b + 256 * (byte_nibbles c + 256 * byte_nibbles d)).
Proof.
  intros Ha Hb Hc Hd. cbv zeta. unfold shr32.
  destruct (byte_table a Ha) as (A1 & A2 & A3 & _), (byte_table b Hb) as (B1 & B2 & B3 & _),
    (byte_table c Hc) as (C1 & C2 & C3 & _), (byte_table d Hd) as (D1 & D2 & D3 & _).
  change 0x55555555 with (0x55 + 256 * (0x55 + 256 * (0x55 + 256 * 0x55))).
  rewrite (proj1 (hweight_steps a _ _ 0 Ha)).
  rewrite (proj1 (hweight_steps b _ _ 0 Hb)).
  rewrite (proj1 (hweight_steps c d _ 0 Hc)). fold (byte_pairs d).
  rewrite (u32_id (byte_pairs a + _)) by (unfold is_u32; lia).
  change 0x33333333 with (0x33 + 256 * (0x33 + 256 * (0x33 + 256 * 0x33))).
  rewrite (proj2 (hweight_steps a 0 0 _ Ha) A1).
  rewrite (proj2 (hweight_steps b 0 0 _ Hb) B1).
  rewrite (proj2 (hweight_steps c 0 0 _ Hc) C1). fold (byte_nibbles d).
  apply u32_id. unfold is_u32.
  pose proof (Z.div_mod (byte_nibbles a) 16). pose proof (Z.div_mod (byte_nibbles b) 16).
  pose proof (Z.div_mod (byte_nibbles c) 16). pose proof (Z.div_mod (byte_nibbles d) 16). lia.
Qed.

Lemma hweight32_bytes a b c d :
  0 <= a < 256 -> 0 <= b < 256 -> 0 <= c < 256 -> 0 <= d < 256 ->
  hweight32 (a + 256 * (b + 256 * (c + 256 * d))) = popcount 8 a + popcount 8 b + popcount 8 c + popcount 8 d.
Proof.
  intros Ha Hb Hc Hd. unfold hweight32. cbv zeta. rewrite hweight_bytes by done.
  destruct (byte_table a Ha) as (A1 & A2 & A3 & <-), (byte_table b Hb) as (B1 & B2 & B3 & <-),
    (byte_table c Hc) as (C1 & C2 & C3 & <-), (byte_table d Hd) as (D1 & D2 & D3 & <-).
  rewrite <- (hweight_sum (byte_nibbles a mod 16) (byte_nibbles a / 16) (byte_nibbles b mod 16) (byte_nibbles b / 16)
    (byte_nibbles c mod 16) (byte_nibbles c / 16) (byte_nibbles d mod 16) (byte_nibbles d / 16)) by done.
  replace (byte_nibbles a mod 16 + 16 * (byte_nibbles a / 16 + 16 * (byte_nibbles b mod 16 + 16 * (byte_nibbles b / 16 +
    16 * (byte_nibbles c mod 16 + 16 * (byte_nibbles c / 16 + 16 * (byte_nibbles d mod 16 + 16 * (byte_nibbles d / 16))))))))
    with (byte_nibbles a + 256 * (byte_nibbles b + 256 * (byte_nibbles c + 256 * byte_nibbles d))); [done|].
  pose proof (Z.div_mod (byte_nibbles a) 16). pose proof (Z.div_mod (byte_nibbles b) 16).
  pose proof (Z.div_mod (byte_nibbles c) 16). pose proof (Z.div_mod (byte_nibbles d) 16). lia.
Qed.

Lemma four_bytes w :
  is_u32 w -> exists a b c d, 0 <= a < 256 /\ 0 <= b < 256 /\ 0 <= c < 256 /\ 0 <= d < 256 /\
    w = a + 256 * (b + 256 * (c + 256 * d)).
Proof.
  intros Hw. unfold is_u32 in Hw. exists (w mod 256), (w / 256 mod 256), (w / 256 / 256 mod 256), (w / 256 / 256 / 256).
  pose proof (Z.div_mod w 256 ltac:(lia)). pose proof (Z.div_mod (w / 256) 256 ltac:(lia)).
  pose proof (Z.div_mod (w / 256 / 256) 256 ltac:(lia)).
  do 3 (split; [apply Z.mod_pos_bound; lia|]). split; [|lia]. split; [repeat apply Z.div_pos; lia|].
  repeat apply Z.div_lt_upper_bound; lia.
Qed.

Lemma hweight32_spec w : is_u32 w -> hweight32 w = popcount 32 w /\ 0 <= hweight32 w <= 32.
Proof.
  intros Hx. destruct (four_bytes w Hx) as (a & b & c & d & Ha & Hb & Hc & Hd & ->).
  rewrite hweight32_bytes by done. change 32%nat with (8 + (8 + (8 + 8)))%nat.
  rewrite !(popcount_split 8) by done.
  destruct (byte_table a Ha) as (_ & ? & ? & ?), (byte_table b Hb) as (_ & ? & ? & ?),
    (byte_table c Hc) as (_ & ? & ? & ?), (byte_table d Hd) as (_ & ? & ? & ?). lia.
Qed.

(** The parallel bit counts of lib/hweight.c return the number of set bits, for every
    32-bit word ([hweight32]) and every 64-bit word ([hweight64]). *)
Theorem hweight_popcount w :
  (is_u32 w -> hweight32 w = popcount 32 w) /\
  (0 <= w < 2 ^ 64 -> hweight64 w = popcount 64 w).
Proof.
  split; [intros Hw; by apply hweight32_spec|]. intros Hw. unfold hweight64.
  assert (Hlo : is_u32 (u32 w)) by apply u32_range.
  assert (Hhi : is_u32 (Z.shiftr w 32)).
  { unfold is_u32. rewrite Z.shiftr_div_pow2 by lia. split; [apply Z.div_pos; lia|apply Z.div_lt_upper_bound; lia]. }
  rewrite (u32_id (Z.shiftr w 32)) by done.
  destruct (hweight32_spec _ Hlo) as [E1 B1], (hweight32_spec _ Hhi) as [E2 B2]. rewrite u32_id by (unfold is_u32; lia).
  rewrite E1, E2. replace w with (u32 w + 2 ^ 32 * Z.shiftr w 32) at 3
    by (unfold u32; rewrite Z.shiftr_div_pow2 by lia; pose proof (Z.div_mod w (2 ^ 32) ltac:(lia)); lia).
  change 64%nat with (32 + 32)%nat. rewrite (popcount_split 32 32 (u32 w)) by done. lia.
Qed.

Lemma hweight_popcount_witness : hweight32 0xF0F0 = 8 /\ hweight64 0xF0F00000000 = 8.
Proof.
  split.
  - rewrite (proj1 (hweight_popcount 0xF0F0)); [reflexivity|unfold is_u32; lia].
  - rewrite (proj2 (hweight_popcount 0xF0F00000000)); [reflexivity|lia].
Defined.

End Bitops.
