(* ===== verification/FindBit.v ===== *)
(** * lib/find_next_bit.c and lib/find_last_bit.c

    A bitmap is an array of 32-bit words.  The searches return the position of the
    next set (or clear) bit at or after an offset, or the size of the bitmap when
    there is none; the bits of the last word beyond the size are ignored. *)
From S2P Require Import Prelude Bitops.
Import Bitops.

Module FindBit.

Abbreviation bitmap := (list Z).

(** Every element is a word. *)
Definition words (addr : bitmap) : Prop := Forall is_u32 addr.

(** Bit [i]; there are none beyond the array. *)
Definition bit (addr : bitmap) (i : Z) : bool :=
  match addr !! Z.to_nat (i / BITS_PER_LONG) with
  | Some w => Z.testbit w (i mod BITS_PER_LONG)
  | None => false
  end.

(** The labels found_first and found_middle. *)
Definition found_first (tmp size result : Z) : Z :=
  let tmp := Z.land tmp (shr32 (not32 0) (BITS_PER_LONG - size)) in
  if tmp =? 0 then u32 (result + size) else u32 (result + __ffs tmp).

(** The while loop and what follows it; [p] is the index of the next word. *)
Fixpoint find_words (fuel : nat) (addr : bitmap) (p : nat) (size result : Z) : option Z :=
  if Z.land size (not32 (BITS_PER_LONG - 1)) =? 0 then
    if size =? 0 then Some result
    else tmp ← addr !! p; Some (found_first tmp size result)
  else
    match fuel with
    | O => None
    | S fuel =>
        tmp ← addr !! p;
        if negb (tmp =? 0) then Some (u32 (result + __ffs tmp))
        else find_words fuel addr (S p) (u32 (size - BITS_PER_LONG)) (u32 (result + BITS_PER_LONG))
    end.

Definition find_next_bit (addr : bitmap) (size offset : Z) : option Z :=
  let p := Z.to_nat (offset / BITS_PER_LONG) in
  let result := Z.land offset (not32 (BITS_PER_LONG - 1)) in
  if size <=? offset then Some size
  else
    let size := u32 (size - result) in
    let offset := offset mod BITS_PER_LONG in
    let fuel := Z.to_nat size in
    if negb (offset =? 0) then
      tmp ← addr !! p;
      let tmp := Z.land tmp (shl32 (not32 0) offset) in
      if size <? BITS_PER_LONG then Some (found_first tmp size result)
      else if negb (tmp =? 0) then Some (u32 (result + __ffs tmp))
      else find_words fuel addr (S p) (u32 (size - BITS_PER_LONG)) (u32 (result + BITS_PER_LONG))
    else find_words fuel addr p size result.

Definition found_first_zero (tmp size result : Z) : Z :=
  let tmp := Z.lor tmp (shl32 (not32 0) size) in
  if tmp =? not32 0 then u32 (result + size) else u32 (result + ffz tmp).

Fixpoint find_words_zero (fuel : nat) (addr : bitmap) (p : nat) (size result : Z) : option Z :=
  if Z.land size (not32 (BITS_PER_LONG - 1)) =? 0 then
    if size =? 0 then Some result
    else tmp ← addr !! p; Some (found_first_zero tmp size result)
  else
    match fuel with
    | O => None
    | S fuel =>
        tmp ← addr !! p;
        if negb (not32 tmp =? 0) then Some (u32 (result + ffz tmp))
        else find_words_zero fuel addr (S p) (u32 (size - BITS_PER_LONG)) (u32 (result + BITS_PER_LONG))
    end.

Definition find_next_zero_bit (addr : bitmap) (size offset : Z) : option Z :=
  let p := Z.to_nat (offset / BITS_PER_LONG) in
  let result := Z.land offset (not32 (BITS_PER_LONG - 1)) in
  if size <=? offset then Some size
  else
    let size := u32 (size - result) in
    let offset := offset mod BITS_PER_LONG in
    let fuel := Z.to_nat size in
    if negb (offset =? 0) then
      tmp ← addr !! p;
      let tmp := Z.lor tmp (shr32 (not32 0) (BITS_PER_LONG - offset)) in
      if size <? BITS_PER_LONG then Some (found_first_zero tmp size result)
      else if negb (not32 tmp =? 0) then Some (u32 (result + ffz tmp))
      else find_words_zero fuel addr (S p) (u32 (size - BITS_PER_LONG)) (u32 (result + BITS_PER_LONG))
    else find_words_zero fuel addr p size result.

Definition find_first_bit (addr : bitmap) (size : Z) : option Z :=
  find_words (Z.to_nat size) addr 0 size 0.

Definition find_first_zero_bit (addr : bitmap) (size : Z) : option Z :=
  find_words_zero (Z.to_nat size) addr 0 size 0.

(** The while loop of [find_last_bit]: [words] counts down. *)
Fixpoint find_last_words (addr : bitmap) (words : nat) (size : Z) : option Z :=
  match words with
  | O => Some size
  | S words =>
      tmp ← addr !! words;
      if negb (tmp =? 0) then Some (u32 (Z.of_nat words * BITS_PER_LONG + __fls tmp))
      else find_last_words addr words size
  end.

Definition find_last_bit (addr : bitmap) (size : Z) : option Z :=
  let words := size / BITS_PER_LONG in
  let left := Z.land size (BITS_PER_LONG - 1) in
  if negb (left =? 0) then
    w ← addr !! Z.to_nat words;
    let tmp := Z.land w (shr32 (not32 0) (BITS_PER_LONG - left)) in
    if negb (tmp =? 0) then Some (u32 (words * BITS_PER_LONG + __fls tmp))
    else find_last_words addr (Z.to_nat words) size
  else find_last_words addr (Z.to_nat words) size.

(** ** The contract *)

(** [r] is the first position in [offset, size) at which [f] holds, or [size]. *)
Definition first_in (f : Z -> bool) (offset size r : Z) : Prop :=
  offset <= r <= size /\ (forall i, offset <= i < r -> f i = false) /\ (r < size -> f r = true).

(** What a client of the searches relies on; [lib/find_next_bit.c] implements it, and so
    do the assembly routines of an architecture. *)
Class BitFinder := {
  bf_first : bitmap -> Z -> option Z;
  bf_next : bitmap -> Z -> Z -> option Z;
  bf_next_zero : bitmap -> Z -> Z -> option Z;
  bf_first_spec : forall addr size,
    words addr -> is_u32 size -> size <= BITS_PER_LONG * zlen addr ->
    exists r, bf_first addr size = Some r /\ first_in (bit addr) 0 size r;
  bf_next_spec : forall addr size offset,
    words addr -> 0 <= offset -> is_u32 size -> size <= BITS_PER_LONG * zlen addr ->
    exists r, bf_next addr size offset = Some r /\
      if size <=? offset then r = size else first_in (bit addr) offset size r;
  bf_next_zero_spec : forall addr size offset,
    words addr -> 0 <= offset -> is_u32 size -> size <= BITS_PER_LONG * zlen addr ->
    exists r, bf_next_zero addr size offset = Some r /\
      if size <=? offset then r = size else first_in (fun i => negb (bit addr i)) offset size r;
}.

(** ** Words and masks *)

Lemma testbit_ones32 i : 0 <= i -> Z.testbit (not32 0) i = (i <? 32).
Proof. intros Hi. unfold not32. rewrite testbit_u32 by done. rewrite Z.lnot_spec, Z.bits_0 by done. apply andb_true_r. Qed.

Lemma testbit_mask_low s i : 0 <= s <= 32 -> 0 <= i -> Z.testbit (shr32 (not32 0) (32 - s)) i = (i <? s).
Proof.
  intros Hs Hi. unfold shr32. rewrite Z.shiftr_spec, testbit_ones32 by lia.
  destruct (Z.ltb_spec (i + (32 - s)) 32), (Z.ltb_spec i s); lia || done.
Qed.

Lemma testbit_mask_high o i : 0 <= o -> 0 <= i < 32 -> Z.testbit (shl32 (not32 0) o) i = (o <=? i).
Proof.
  intros Ho Hi. unfold shl32. rewrite testbit_u32, Z.shiftl_spec by lia.
  destruct (Z.ltb_spec i 32); [|lia]. destruct (Z.leb_spec o i); simpl.
  - rewrite testbit_ones32 by lia. apply Z.ltb_lt. lia.
  - apply Z.testbit_neg_r. lia.
Qed.

Lemma land_word x y : is_u32 x -> is_u32 (Z.land x y).
Proof.
  intros Hx. replace (Z.land x y) with (u32 (Z.land x y)); [apply u32_range|].
  apply Z.bits_inj'. intros i Hi. rewrite testbit_u32, Z.land_spec by lia. destruct (Z.ltb_spec i 32); [done|].
  by rewrite testbit_high.
Qed.

Lemma lor_word x y : is_u32 x -> is_u32 y -> is_u32 (Z.lor x y).
Proof.
  intros Hx Hy. replace (Z.lor x y) with (u32 (Z.lor x y)); [apply u32_range|].
  apply Z.bits_inj'. intros i Hi. rewrite testbit_u32, Z.lor_spec by lia. destruct (Z.ltb_spec i 32); [done|].
  by rewrite !testbit_high.
Qed.

Lemma shr32_word x n : is_u32 x -> 0 <= n -> is_u32 (shr32 x n).
Proof.
  intros Hx Hn. replace (shr32 x n) with (u32 (shr32 x n)); [apply u32_range|]. unfold shr32.
  apply Z.bits_inj'. intros i Hi. rewrite testbit_u32, Z.shiftr_spec by lia. destruct (Z.ltb_spec i 32); [done|].
  rewrite testbit_high; [done..|lia].
Qed.

(** [size & ~31] tells whether a whole word is left. *)
Lemma whole_word size : is_u32 size -> (Z.land size (not32 (BITS_PER_LONG - 1)) =? 0) = (size <? 32).
Proof.
  intros Hs. pose proof (land_top_zero size 27 Hs ltac:(lia)) as H. apply eq_true_iff_eq.
  rewrite Z.eqb_eq, Z.ltb_lt. exact H.
Qed.

Lemma word_start offset : is_u32 offset -> Z.land offset (not32 (BITS_PER_LONG - 1)) = offset - offset mod 32.
Proof.
  intros Ho. set (a := offset mod 2 ^ 5). set (b := offset / 2 ^ 5).
  assert (E : offset = a + 2 ^ 5 * b) by (unfold a, b; pose proof (Z.div_mod offset (2 ^ 5) ltac:(lia)); lia).
  assert (Ha : 0 <= a < 2 ^ 5) by (apply Z.mod_pos_bound; lia).
  assert (Hb : 0 <= b < 2 ^ 27) by (unfold is_u32 in Ho; split; [apply Z.div_pos; lia|apply Z.div_lt_upper_bound; lia]).
  change (offset mod 32) with a. clearbody a b. subst offset.
  change (not32 (BITS_PER_LONG - 1)) with (0 + 2 ^ 5 * Z.ones 27).
  rewrite <- (Z.shiftr_0_r (a + 2 ^ 5 * b)) at 1. rewrite land_split by lia.
  rewrite Z.land_0_r, Z.shiftr_0_r, Z.land_ones by lia. rewrite Z.mod_small by lia. lia.
Qed.

Lemma bit_word addr p w j :
  addr !! p = Some w -> 0 <= j < 32 -> bit addr (32 * Z.of_nat p + j) = Z.testbit w j.
Proof.
  intros Hp Hj. unfold bit, BITS_PER_LONG. rewrite (Z.mul_comm 32), Z.add_comm, Z.div_add, Z.mod_add by lia.
  rewrite Z.div_small, Z.mod_small by lia. rewrite Z.add_0_l, Nat2Z.id, Hp. done.
Qed.

Lemma first_in_skip f a b c r : a <= b -> first_in f a b b -> first_in f b c r -> first_in f a c r.
Proof.
  intros Hab (_ & H1 & _) (H2 & H3 & H4). split; [lia|]. split; [|done].
  intros i Hi. destruct (Z.lt_ge_cases i b); [apply H1; lia|apply H3; lia].
Qed.

Lemma first_in_more f a b c r : r < b -> b <= c -> first_in f a b r -> first_in f a c r.
Proof. intros Hr Hbc (H1 & H2 & H3). split; [lia|]. split; [done|]. intros _. by apply H3. Qed.

(** The word [p] restricted to the bits from [lo] up to [hi]. *)
Lemma search_word addr p w tmp lo hi :
  addr !! p = Some w -> is_u32 tmp -> 0 <= lo <= hi -> hi <= 32 ->
  (forall j, 0 <= j < 32 -> Z.testbit tmp j = (lo <=? j) && (j <? hi) && Z.testbit w j) ->
  first_in (bit addr) (32 * Z.of_nat p + lo) (32 * Z.of_nat p + hi)
    (32 * Z.of_nat p + if tmp =? 0 then hi else __ffs tmp) /\
  (tmp <> 0 -> 0 <= __ffs tmp < hi).
Proof.
  intros Hp Ht Hl Hh Hb.
  assert (Hw : forall i, 32 * Z.of_nat p + lo <= i < 32 * Z.of_nat p + hi ->
    bit addr i = Z.testbit tmp (i - 32 * Z.of_nat p)).
  { intros i Hi. replace i with (32 * Z.of_nat p + (i - 32 * Z.of_nat p)) at 1 by lia.
    rewrite (bit_word addr p w), Hb by (done || lia). destruct (Z.leb_spec lo (i - 32 * Z.of_nat p)),
      (Z.ltb_spec (i - 32 * Z.of_nat p) hi); lia || done. }
  destruct (Z.eqb_spec tmp 0) as [->|Hnz].
  - split; [|done]. split; [lia|]. split; [|lia]. intros i Hi. rewrite Hw by lia. apply Z.bits_0.
  - destruct (__ffs_spec tmp Ht Hnz) as [(H0 & Hf & Hlow) H32].
    assert (lo <= __ffs tmp < hi).
    { rewrite Hb in Hf by lia. destruct (Z.leb_spec lo (__ffs tmp)), (Z.ltb_spec (__ffs tmp) hi); done || lia. }
    split; [|lia]. split; [lia|]. split.
    + intros i Hi. rewrite Hw by lia. apply Hlow. lia.
    + intros _. rewrite Hw by lia. replace (32 * Z.of_nat p + __ffs tmp - 32 * Z.of_nat p) with (__ffs tmp) by lia. done.
Qed.

Lemma lookup_word addr p : words addr -> Z.of_nat p < zlen addr -> exists w, addr !! p = Some w /\ is_u32 w.
Proof.
  intros Hw Hp. destruct (lookup_lt_is_Some_2 addr p) as [w Hl]; [unfold zlen in Hp; lia|].
  exists w. split; [done|]. by eapply Forall_lookup_1.
Qed.

(** Less than a word is left. *)
Lemma found_first_ok addr p w lo size tmp :
  addr !! p = Some w -> is_u32 w -> 0 <= lo <= size -> size < 32 -> is_u32 (32 * Z.of_nat p + size) ->
  is_u32 tmp -> (forall j, 0 <= j < 32 -> Z.testbit tmp j = (lo <=? j) && Z.testbit w j) ->
  first_in (bit addr) (32 * Z.of_nat p + lo) (32 * Z.of_nat p + size) (found_first tmp size (32 * Z.of_nat p)).
Proof.
  intros Hp Hw Hl Hs Hu Ht Hb. unfold found_first, BITS_PER_LONG.
  destruct (search_word addr p w (Z.land tmp (shr32 (not32 0) (32 - size))) lo size) as [H1 H2];
    [done|by apply land_word|lia|lia| |].
  { intros j Hj. rewrite Z.land_spec, Hb, testbit_mask_low by lia.
    destruct (lo <=? j), (j <? size), (Z.testbit w j); done. }
  destruct (Z.eqb_spec (Z.land tmp (shr32 (not32 0) (32 - size))) 0) as [E|E]; unfold is_u32 in Hu.
  - rewrite u32_id by done. done.
  - specialize (H2 E). rewrite u32_id by (unfold is_u32; lia). done.
Qed.

Lemma find_words_ok fuel addr : forall p size,
  words addr -> 0 <= size -> 32 * Z.of_nat p + size <= 32 * zlen addr -> is_u32 (32 * Z.of_nat p + size) ->
  size < 32 * Z.of_nat (S fuel) ->
  exists r, find_words fuel addr p size (32 * Z.of_nat p) = Some r /\
    first_in (bit addr) (32 * Z.of_nat p) (32 * Z.of_nat p + size) r.
Proof.
  induction fuel as [|fuel IH]; intros p size Hw Hs Hlen Hu Hf; cbn [find_words];
    rewrite whole_word by (unfold is_u32 in *; lia); destruct (Z.ltb_spec size 32) as [Hlt|Hge]; try lia.
  1, 2: destruct (Z.eqb_spec size 0) as [->|Hnz];
    [eexists; split; [done|]; split; [lia|]; split; [lia|lia]|];
    destruct (lookup_word addr p Hw ltac:(lia)) as (w & Hp & Hwu); rewrite Hp; simpl;
    eexists; split; [done|]; replace (32 * Z.of_nat p) with (32 * Z.of_nat p + 0) at 1 by lia;
    apply (found_first_ok addr p w 0); try done; try lia; intros j Hj; by destruct (Z.leb_spec 0 j); [|lia].
  destruct (lookup_word addr p Hw ltac:(lia)) as (w & Hp & Hwu). rewrite Hp. simpl.
  destruct (search_word addr p w w 0 32) as [H1 H2]; [done|done|lia|lia| |].
  { intros j Hj. destruct (Z.leb_spec 0 j), (Z.ltb_spec j 32); lia || done. }
  rewrite Z.add_0_r in H1. unfold is_u32, BITS_PER_LONG in *.
  destruct (Z.eqb_spec w 0) as [->|Hnz]; simpl.
  - rewrite (u32_id (size - 32)), (u32_id (_ + 32)) by (unfold is_u32; lia).
    replace (32 * Z.of_nat p + 32) with (32 * Z.of_nat (S p)) by lia.
    destruct (IH (S p) (size - 32)) as (r & -> & Hr); [done|lia..|].
    exists r. split; [done|]. replace (32 * Z.of_nat p + size) with (32 * Z.of_nat (S p) + (size - 32)) by lia.
    eapply first_in_skip; [|exact H1|]; [lia|]. replace (32 * Z.of_nat p + 32) with (32 * Z.of_nat (S p)) by lia. done.
  - specialize (H2 Hnz). rewrite u32_id by (unfold is_u32; lia). eexists. split; [done|].
    eapply first_in_more; [| |exact H1]; lia.
Qed.

Lemma find_next_bit_ok addr size offset :
  words addr -> 0 <= offset < size -> is_u32 size -> size <= 32 * zlen addr ->
  exists r, find_next_bit addr size offset = Some r /\ first_in (bit addr) offset size r.
Proof.
  intros Hw Ho Hu Hlen. unfold find_next_bit. destruct (Z.leb_spec size offset); [lia|].
  unfold is_u32 in Hu. rewrite word_start by (unfold is_u32; lia). unfold BITS_PER_LONG.
  set (p := Z.to_nat (offset / 32)). set (o := offset mod 32).
  assert (Ep : 32 * Z.of_nat p + o = offset)
    by (unfold p, o; rewrite Z2Nat.id by (apply Z.div_pos; lia); rewrite (Z.div_mod offset 32) at 3; lia).
  assert (Hob : 0 <= o < 32) by (apply Z.mod_pos_bound; lia). clearbody p o.
  replace (offset - o) with (32 * Z.of_nat p) by lia. rewrite (u32_id (size - _)) by (unfold is_u32; lia).
  destruct (Z.eqb_spec o 0) as [->|Hnz]; cbn [negb].
  { rewrite Z.add_0_r in Ep. destruct (find_words_ok (Z.to_nat (size - 32 * Z.of_nat p)) addr p (size - 32 * Z.of_nat p))
      as (r & -> & Hr); [done|unfold is_u32; lia..|].
    exists r. split; [done|]. rewrite <- Ep. by replace (32 * Z.of_nat p + (size - 32 * Z.of_nat p)) with size in Hr by lia. }
  destruct (lookup_word addr p Hw ltac:(lia)) as (w & Hp & Hwu). rewrite Hp. cbn [mbind option_bind].
  assert (Hm : forall j, 0 <= j < 32 -> Z.testbit (Z.land w (shl32 (not32 0) o)) j = (o <=? j) && Z.testbit w j).
  { intros j Hj. rewrite Z.land_spec, testbit_mask_high by lia. apply andb_comm. }
  pose proof (land_word w (shl32 (not32 0) o) Hwu) as Htu. rewrite <- Ep.
  destruct (Z.ltb_spec (size - 32 * Z.of_nat p) 32).
  { eexists. split; [done|]. replace size with (32 * Z.of_nat p + (size - 32 * Z.of_nat p)) at 1 by lia.
    apply (found_first_ok addr p w o); try done; unfold is_u32; lia. }
  destruct (search_word addr p w (Z.land w (shl32 (not32 0) o)) o 32) as [H1 H2]; [done|done|lia|lia| |].
  { intros j Hj. rewrite Hm by lia. destruct (Z.ltb_spec j 32); [by rewrite andb_true_r|lia]. }
  destruct (Z.eqb_spec (Z.land w (shl32 (not32 0) o)) 0) as [E|E]; cbn [negb].
  - rewrite (u32_id (_ - 32)), (u32_id (_ + 32)) by (unfold is_u32; lia).
    replace (32 * Z.of_nat p + 32) with (32 * Z.of_nat (S p)) in * by lia.
    destruct (find_words_ok (Z.to_nat (size - 32 * Z.of_nat p)) addr (S p) (size - 32 * Z.of_nat p - 32))
      as (r & -> & Hr); [done|unfold is_u32; lia..|]. exists r. split; [done|].
    replace (32 * Z.of_nat (S p) + (size - 32 * Z.of_nat p - 32)) with size in Hr by lia.
    eapply first_in_skip; [|exact H1|exact Hr]; lia.
  - specialize (H2 E). rewrite u32_id by (unfold is_u32; lia). eexists. split; [done|].
    eapply first_in_more; [| |exact H1]; lia.
Qed.

(** ** Clear bits: the same search in the complement *)

Definition complement (addr : bitmap) : bitmap := map not32 addr.

Lemma complement_lookup addr p : complement addr !! p = not32 <$> addr !! p.
Proof. apply list_lookup_fmap. Qed.

Lemma complement_words addr : words (complement addr).
Proof. apply Forall_fmap, Forall_true. intros w. apply not32_range. Qed.

Lemma complement_bit addr i : 0 <= i < 32 * zlen addr -> bit (complement addr) i = negb (bit addr i).
Proof.
  intros Hi. unfold bit, BITS_PER_LONG. rewrite complement_lookup.
  destruct (lookup_lt_is_Some_2 addr (Z.to_nat (i / 32))) as [w ->].
  { unfold zlen in Hi. apply Nat2Z.inj_lt. rewrite Z2Nat.id by (apply Z.div_pos; lia). apply Z.div_lt_upper_bound; lia. }
  simpl. apply testbit_not32. apply Z.mod_pos_bound. lia.
Qed.

Lemma not32_inv x : is_u32 x -> not32 (not32 x) = x.
Proof.
  intros Hx. apply word_ext; [apply not32_range|done|]. intros i Hi. rewrite !testbit_not32 by lia. apply negb_involutive.
Qed.

Lemma not32_eq0 x : is_u32 x -> (not32 x =? 0) = (x =? not32 0).
Proof.
  intros Hx. apply eq_true_iff_eq. rewrite !Z.eqb_eq. split; [intros H; by rewrite <- (not32_inv x Hx), H|intros ->; done].
Qed.

Lemma not32_lor x y : not32 (Z.lor x y) = Z.land (not32 x) (not32 y).
Proof.
  apply word_ext; [apply not32_range|apply land_word, not32_range|]. intros i Hi.
  rewrite Z.land_spec, !testbit_not32, Z.lor_spec by lia. apply negb_orb.
Qed.

Lemma not32_mask_high s : 0 <= s <= 32 -> not32 (shl32 (not32 0) s) = shr32 (not32 0) (32 - s).
Proof.
  intros Hs. apply word_ext; [apply not32_range| |].
  - apply shr32_word; [apply not32_range|lia].
  - intros i Hi. rewrite testbit_not32, testbit_mask_high, testbit_mask_low by lia.
    destruct (Z.leb_spec s i), (Z.ltb_spec i s); done || lia.
Qed.

Lemma found_first_zero_eq tmp size result :
  is_u32 tmp -> 0 <= size <= 32 -> found_first_zero tmp size result = found_first (not32 tmp) size result.
Proof.
  intros Ht Hs. unfold found_first_zero, found_first, ffz, BITS_PER_LONG. rewrite <- not32_eq0, not32_lor, not32_mask_high; [done|lia|].
  apply lor_word; [done|apply u32_range].
Qed.

Lemma find_words_zero_eq fuel addr : forall p size result,
  words addr -> is_u32 size ->
  find_words_zero fuel addr p size result = find_words fuel (complement addr) p size result.
Proof.
  induction fuel as [|fuel IH]; intros p size result Hw Hs; cbn [find_words find_words_zero];
    rewrite whole_word, complement_lookup by done; destruct (Z.ltb_spec size 32) as [Hlt|Hge]; try done;
    try (destruct (size =? 0); [done|]); destruct (addr !! p) as [w|] eqn:Hp; simpl; try done.
  1, 2: rewrite found_first_zero_eq; [done|by eapply Forall_lookup_1|unfold is_u32 in Hs; lia].
  rewrite IH by (done || apply u32_range). done.
Qed.

Lemma find_next_zero_bit_eq addr size offset :
  words addr -> 0 <= offset ->
  find_next_zero_bit addr size offset = find_next_bit (complement addr) size offset.
Proof.
  intros Hw Ho. unfold find_next_zero_bit, find_next_bit. destruct (Z.leb_spec size offset); [done|].
  rewrite complement_lookup. set (o := offset mod BITS_PER_LONG).
  assert (Hob : 0 <= o < 32) by (apply Z.mod_pos_bound; unfold BITS_PER_LONG; lia).
  set (sz := u32 (size - _)). assert (Hsz : is_u32 sz) by apply u32_range. clearbody o sz.
  destruct (Z.eqb_spec o 0); cbn [negb]; [by apply find_words_zero_eq|].
  destruct (addr !! _) as [w|] eqn:Hp; simpl; [|done].
  assert (Hwu : is_u32 w) by (by eapply Forall_lookup_1).
  assert (E : not32 (Z.lor w (shr32 (not32 0) (BITS_PER_LONG - o))) = Z.land (not32 w) (shl32 (not32 0) o)).
  { unfold BITS_PER_LONG. rewrite not32_lor, <- not32_mask_high by lia. f_equal. apply not32_inv, u32_range. }
  assert (Hor : is_u32 (Z.lor w (shr32 (not32 0) (BITS_PER_LONG - o))))
    by (apply lor_word; [done|apply shr32_word; [apply not32_range|unfold BITS_PER_LONG; lia]]).
  unfold ffz. rewrite E. destruct (Z.ltb_spec sz BITS_PER_LONG) as [Hlt|Hge].
  - rewrite found_first_zero_eq, E; [done|done|]. unfold BITS_PER_LONG, is_u32 in *. lia.
  - by rewrite find_words_zero_eq by (done || apply u32_range).
Qed.

Lemma first_in_complement addr offset size r :
  0 <= offset -> size <= 32 * zlen addr ->
  first_in (bit (complement addr)) offset size r -> first_in (fun i => negb (bit addr i)) offset size r.
Proof.
  intros Ho Hs (H1 & H2 & H3). split; [done|]. split.
  - intros i Hi. rewrite <- complement_bit by lia. by apply H2.
  - intros Hr. rewrite <- complement_bit by lia. by apply H3.
Qed.

Lemma find_next_zero_bit_ok addr size offset :
  words addr -> 0 <= offset < size -> is_u32 size -> size <= 32 * zlen addr ->
  exists r, find_next_zero_bit addr size offset = Some r /\ first_in (fun i => negb (bit addr i)) offset size r.
Proof.
  intros Hw Ho Hu Hl. rewrite find_next_zero_bit_eq by (done || lia).
  destruct (find_next_bit_ok (complement addr) size offset) as (r & -> & Hr);
    [apply complement_words|done|done|unfold complement, zlen; by rewrite length_map|].
  exists r. split; [done|]. apply first_in_complement; [lia|done|done].
Qed.

(** lib/find_next_bit.c keeps the contract. *)
#[export] Program Instance find_next_bit_c : BitFinder :=
  {| bf_first := find_first_bit; bf_next := find_next_bit; bf_next_zero := find_next_zero_bit |}.
Next Obligation.
  intros addr size Hw Hu Hl. unfold find_first_bit, BITS_PER_LONG in *.
  destruct (find_words_ok (Z.to_nat size) addr 0 size) as (r & E & Hr); [done|unfold is_u32 in *; lia..|].
  by exists r.
Qed.
Next Obligation.
  intros addr size offset Hw Ho Hu Hl. destruct (Z.leb_spec size offset).
  - exists size. unfold find_next_bit. destruct (Z.leb_spec size offset); [done|lia].
  - apply find_next_bit_ok; done || lia.
Qed.
Next Obligation.
  intros addr size offset Hw Ho Hu Hl. destruct (Z.leb_spec size offset).
  - exists size. unfold find_next_zero_bit. destruct (Z.leb_spec size offset); [done|lia].
  - apply find_next_zero_bit_ok; done || lia.
Qed.

(** ** The last set bit *)

(** [r] is the last position below [size] at which [f] holds, or [dflt]. *)
Definition last_in (f : Z -> bool) (size dflt r : Z) : Prop :=
  (r = dflt /\ forall i, 0 <= i < size -> f i = false) \/
  (0 <= r < size /\ f r = true /\ forall i, r < i < size -> f i = false).

Lemma __fls_spec x :
  is_u32 x -> x <> 0 ->
  0 <= __fls x < 32 /\ Z.testbit x (__fls x) = true /\ forall j, __fls x < j -> Z.testbit x j = false.
Proof.
  intros Hx Hnz. unfold __fls. rewrite fls_spec by done. destruct (Z.eqb_spec x 0); [done|].
  replace (Z.log2 x + 1 - 1) with (Z.log2 x) by lia. unfold is_u32 in Hx.
  split; [split; [apply Z.log2_nonneg|apply Z.log2_lt_pow2; lia]|]. split; [apply Z.bit_log2; lia|].
  intros j Hj. apply Z.bits_above_log2; lia.
Qed.

(** The highest bit of a word cut to its [hi] lowest bits, when those above are clear. *)
Lemma last_word addr p w tmp hi size :
  addr !! p = Some w -> is_u32 tmp -> tmp <> 0 -> 0 <= hi <= 32 ->
  (forall j, 0 <= j < 32 -> Z.testbit tmp j = (j <? hi) && Z.testbit w j) ->
  (forall i, 32 * Z.of_nat p + hi <= i < size -> bit addr i = false) -> 32 * Z.of_nat p + hi <= size ->
  last_in (bit addr) size size (32 * Z.of_nat p + __fls tmp) /\ __fls tmp < hi.
Proof.
  intros Hp Ht Hnz Hh Hb Habove Hs. destruct (__fls_spec tmp Ht Hnz) as (H1 & H2 & H3).
  rewrite Hb in H2 by lia. apply andb_true_iff in H2 as [H2%Z.ltb_lt H2']. split; [|done].
  right. split; [lia|]. split; [rewrite (bit_word addr p w) by done; done|].
  intros i Hi. destruct (Z.lt_ge_cases i (32 * Z.of_nat p + hi)); [|apply Habove; lia].
  replace i with (32 * Z.of_nat p + (i - 32 * Z.of_nat p)) by lia. rewrite (bit_word addr p w) by (done || lia).
  specialize (H3 (i - 32 * Z.of_nat p) ltac:(lia)). rewrite Hb in H3 by lia.
  destruct (Z.ltb_spec (i - 32 * Z.of_nat p) hi); [done|lia].
Qed.

Lemma find_last_words_ok addr n : forall size,
  words addr -> 32 * Z.of_nat n <= size -> Z.of_nat n <= zlen addr -> is_u32 size ->
  (forall i, 32 * Z.of_nat n <= i < size -> bit addr i = false) ->
  exists r, find_last_words addr n size = Some r /\ last_in (bit addr) size size r.
Proof.
  induction n as [|n IH]; intros size Hw Hs Hl Hu Ha; cbn [find_last_words].
  { exists size. split; [done|]. left. split; [done|]. intros i Hi. apply Ha. lia. }
  destruct (lookup_word addr n Hw ltac:(lia)) as (w & Hp & Hwu). rewrite Hp. cbn [mbind option_bind].
  destruct (Z.eqb_spec w 0) as [->|Hnz]; cbn [negb].
  - apply IH; try done; [lia..|]. intros i Hi.
    destruct (Z.lt_ge_cases i (32 * Z.of_nat (S n))); [|apply Ha; lia].
    replace i with (32 * Z.of_nat n + (i - 32 * Z.of_nat n)) by lia.
    rewrite (bit_word addr n 0) by (done || lia). apply Z.bits_0.
  - destruct (last_word addr n w w 32 size) as [Hr Hb]; try done; [|intros i Hi; apply Ha; lia|lia|].
    { intros j Hj. destruct (Z.ltb_spec j 32); [done|lia]. }
    destruct (__fls_spec w Hwu Hnz) as [H0 _]. unfold is_u32 in Hu.
    eexists. split; [done|]. unfold BITS_PER_LONG. rewrite u32_id by (unfold is_u32; lia).
    by rewrite (Z.mul_comm _ 32).
Qed.

Lemma find_last_bit_ok addr size :
  words addr -> is_u32 size -> size <= 32 * zlen addr ->
  exists r, find_last_bit addr size = Some r /\ last_in (bit addr) size size r.
Proof.
  intros Hw Hu Hl. unfold find_last_bit, BITS_PER_LONG. change (32 - 1) with (Z.ones 5).
  rewrite Z.land_ones by lia. change (2 ^ 5) with 32. unfold is_u32 in Hu.
  pose proof (Z.div_mod size 32 ltac:(lia)) as Hdm. pose proof (Z.mod_pos_bound size 32 ltac:(lia)) as Hm.
  set (n := Z.to_nat (size / 32)). assert (Hn : size / 32 = Z.of_nat n) by (unfold n; lia).
  rewrite Hn in *. clearbody n. destruct (Z.eqb_spec (size mod 32) 0) as [E|E]; cbn [negb].
  { apply find_last_words_ok; [done|lia|lia|unfold is_u32; lia|lia]. }
  destruct (lookup_word addr n Hw ltac:(lia)) as (w & Hp & Hwu). rewrite Hp. cbn [mbind option_bind].
  set (tmp := Z.land w (shr32 (not32 0) (32 - size mod 32))).
  assert (Hb : forall j, 0 <= j < 32 -> Z.testbit tmp j = (j <? size mod 32) && Z.testbit w j).
  { intros j Hj. unfold tmp. rewrite Z.land_spec, testbit_mask_low by lia. apply andb_comm. }
  assert (Ht : is_u32 tmp) by (by apply land_word). clearbody tmp.
  destruct (Z.eqb_spec tmp 0) as [->|Hnz]; cbn [negb].
  - apply find_last_words_ok; [done|lia|lia|unfold is_u32; lia|]. intros i Hi.
    replace i with (32 * Z.of_nat n + (i - 32 * Z.of_nat n)) by lia. rewrite (bit_word addr n w) by (done || lia).
    specialize (Hb (i - 32 * Z.of_nat n) ltac:(lia)). rewrite Z.bits_0 in Hb.
    destruct (Z.ltb_spec (i - 32 * Z.of_nat n) (size mod 32)); [done|lia].
  - destruct (last_word addr n w tmp (size mod 32) size) as [Hr Hlt]; try done; [lia|intros i Hi; lia|lia|].
    destruct (__fls_spec tmp Ht Hnz) as [H0 _].
    eexists. split; [done|]. rewrite u32_id by (unfold is_u32; lia). by rewrite (Z.mul_comm _ 32).
Qed.

(** The searches of lib/find_next_bit.c and lib/find_last_bit.c: within a bitmap whose
    array holds its size, [find_next_bit] and [find_next_zero_bit] return the first set
    (clear) bit from the offset on, [find_first_bit] and [find_first_zero_bit] the same
    from 0, [find_last_bit] the last set bit; each returns the size when there is none,
    reads no word outside the array, and is not misled by the bits beyond the size. *)
Theorem find_bits_correct addr size offset :
  words addr -> 0 <= offset < size -> is_u32 size -> size <= BITS_PER_LONG * zlen addr ->
  (exists r, find_next_bit addr size offset = Some r /\ first_in (bit addr) offset size r) /\
  (exists r, find_next_zero_bit addr size offset = Some r /\ first_in (fun i => negb (bit addr i)) offset size r) /\
  (exists r, find_first_bit addr size = Some r /\ first_in (bit addr) 0 size r) /\
  (exists r, find_first_zero_bit addr size = Some r /\ first_in (fun i => negb (bit addr i)) 0 size r) /\
  (exists r, find_last_bit addr size = Some r /\ last_in (bit addr) size size r).
Proof.
  intros Hw Ho Hu Hl. unfold BITS_PER_LONG in Hl. split; [by apply find_next_bit_ok|].
  split; [by apply find_next_zero_bit_ok|].
  assert (Hf : forall a, words a -> zlen a = zlen addr ->
    exists r, find_words (Z.to_nat size) a 0 size 0 = Some r /\ first_in (bit a) 0 size r).
  { intros a Ha Hla. destruct (find_words_ok (Z.to_nat size) a 0 size) as (r & E & Hr);
      [done|unfold is_u32 in *; lia..|]. by exists r. }
  split; [by apply Hf|]. split; [|by apply find_last_bit_ok].
  unfold find_first_zero_bit. rewrite find_words_zero_eq by done.
  destruct (Hf (complement addr)) as (r & E & Hr); [apply complement_words|unfold complement, zlen; by rewrite length_map|].
  exists r. split; [done|]. apply first_in_complement; [lia|done|done].
Qed.

Lemma find_bits_correct_witness :
  find_next_bit [0x10; 0x80000001] 40 5 = Some 32 /\ first_in (bit [0x10; 0x80000001]) 5 40 32.
Proof.
  destruct (find_bits_correct [0x10; 0x80000001] 40 5) as ((r & E & Hr) & _);
    [repeat constructor; lia|lia|unfold is_u32; lia|done|].
  assert (E' : find_next_bit [0x10; 0x80000001] 40 5 = Some 32) by reflexivity.
  rewrite E in E'. injection E' as ->. done.
Defined.

End FindBit.
