(* ===== verification/Bitmap.v ===== *)
(** * lib/bitmap.c and include/linux/bitmap.h

    Sets of bit numbers below a size that need not be a multiple of the word size; the
    unused bits of the last word have no meaning.  The operations on words are given
    with the array bounds checked: a word outside an array makes the result [None].

    An operand may be the destination: each loop reads word [k] of its operands no later
    than it writes word [k], except the shifts, for which [inplace] tells whether the
    source is the destination. *)
From S2P Require Import Prelude Bitops FindBit.
Import Bitops FindBit.

Module Bitmap.

Definition BITMAP_LAST_WORD_MASK (nbits : Z) : Z :=
  if negb (nbits mod BITS_PER_LONG =? 0) then shl32 1 (nbits mod BITS_PER_LONG) - 1 else not32 0.

Definition BITS_TO_LONGS (nr : Z) : nat := Z.to_nat ((nr + BITS_PER_LONG - 1) / BITS_PER_LONG).

(** ** Tests *)

(** [for (k = 0; k < lim; ++k) if (f[k]) return ...]: whether it returns. *)
Fixpoint any_word (f : nat -> option Z) (k n : nat) : option bool :=
  match n with
  | O => Some false
  | S n => w ← f k; if negb (w =? 0) then Some true else any_word f (S k) n
  end.

(** The loop over the whole words and the test of the last, partial one, which the six
    functions below have in common: whether a bit of [f] below [bits] is set. *)
Definition any_bit (f : nat -> option Z) (bits : Z) : option bool :=
  let lim := Z.to_nat (bits / BITS_PER_LONG) in
  found ← any_word f 0 lim;
  if (found : bool) then Some true
  else if negb (bits mod BITS_PER_LONG =? 0) then
    w ← f lim; Some (negb (Z.land w (BITMAP_LAST_WORD_MASK bits) =? 0))
  else Some false.

Definition __bitmap_empty (bitmap : list Z) (bits : Z) : option bool :=
  negb <$> any_bit (fun k => bitmap !! k) bits.

Definition __bitmap_full (bitmap : list Z) (bits : Z) : option bool :=
  negb <$> any_bit (fun k => not32 <$> bitmap !! k) bits.

Definition word2 (op : Z -> Z -> Z) (bitmap1 bitmap2 : list Z) (k : nat) : option Z :=
  w1 ← bitmap1 !! k; w2 ← bitmap2 !! k; Some (op w1 w2).

Definition __bitmap_equal (bitmap1 bitmap2 : list Z) (bits : Z) : option bool :=
  negb <$> any_bit (word2 Z.lxor bitmap1 bitmap2) bits.

Definition __bitmap_intersects (bitmap1 bitmap2 : list Z) (bits : Z) : option bool :=
  any_bit (word2 Z.land bitmap1 bitmap2) bits.

Definition __bitmap_subset (bitmap1 bitmap2 : list Z) (bits : Z) : option bool :=
  negb <$> any_bit (word2 (fun a b => Z.land a (not32 b)) bitmap1 bitmap2) bits.

(** ** Weight *)

Fixpoint weight_words (bitmap : list Z) (k n : nat) (w : Z) : option Z :=
  match n with
  | O => Some w
  | S n => x ← bitmap !! k; weight_words bitmap (S k) n (u32 (w + hweight_long x))
  end.

Definition __bitmap_weight (bitmap : list Z) (bits : Z) : option Z :=
  let lim := Z.to_nat (bits / BITS_PER_LONG) in
  w ← weight_words bitmap 0 lim 0;
  if negb (bits mod BITS_PER_LONG =? 0) then
    x ← bitmap !! lim; Some (u32 (w + hweight_long (Z.land x (BITMAP_LAST_WORD_MASK bits))))
  else Some w.

(** ** Assignments *)

(** [dst[k] = w] *)
Definition store_word (dst : list Z) (k : nat) (w : Z) : option (list Z) :=
  if decide (k < length dst)%nat then Some (<[k := w]> dst) else None.

(** [for (k = 0; k < nr; k++) result |= (dst[k] = f[k]);] *)
Fixpoint store_words (f : nat -> option Z) (dst : list Z) (result : Z) (k n : nat) : option (list Z * Z) :=
  match n with
  | O => Some (dst, result)
  | S n => w ← f k; dst ← store_word dst k w; store_words f dst (Z.lor result w) (S k) n
  end.

Definition __bitmap_complement (dst src : list Z) (bits : Z) : option (list Z) :=
  let lim := Z.to_nat (bits / BITS_PER_LONG) in
  '(dst, _) ← store_words (fun k => not32 <$> src !! k) dst 0 0 lim;
  if negb (bits mod BITS_PER_LONG =? 0) then
    w ← src !! lim; store_word dst lim (Z.land (not32 w) (BITMAP_LAST_WORD_MASK bits))
  else Some dst.

Definition __bitmap_and (dst bitmap1 bitmap2 : list Z) (bits : Z) : option (list Z * bool) :=
  '(dst, result) ← store_words (word2 Z.land bitmap1 bitmap2) dst 0 0 (BITS_TO_LONGS bits);
  Some (dst, negb (result =? 0)).

Definition __bitmap_or (dst bitmap1 bitmap2 : list Z) (bits : Z) : option (list Z) :=
  fst <$> store_words (word2 Z.lor bitmap1 bitmap2) dst 0 0 (BITS_TO_LONGS bits).

Definition __bitmap_xor (dst bitmap1 bitmap2 : list Z) (bits : Z) : option (list Z) :=
  fst <$> store_words (word2 Z.lxor bitmap1 bitmap2) dst 0 0 (BITS_TO_LONGS bits).

Definition __bitmap_andnot (dst bitmap1 bitmap2 : list Z) (bits : Z) : option (list Z * bool) :=
  '(dst, result) ← store_words (word2 (fun a b => Z.land a (not32 b)) bitmap1 bitmap2) dst 0 0 (BITS_TO_LONGS bits);
  Some (dst, negb (result =? 0)).

(** [memset(&dst[k], 0, n * sizeof(unsigned long))] *)
Definition zero_words (dst : list Z) (k n : nat) : option (list Z) :=
  fst <$> store_words (fun _ => Some 0) dst 0 k n.

Definition bitmap_zero (dst : list Z) (nbits : Z) : option (list Z) :=
  zero_words dst 0 (BITS_TO_LONGS nbits).

Definition bitmap_fill (dst : list Z) (nbits : Z) : option (list Z) :=
  let nlongs := BITS_TO_LONGS nbits in
  '(dst, _) ← store_words (fun _ => Some (not32 0)) dst 0 0 (nlongs - 1);
  store_word dst (nlongs - 1) (BITMAP_LAST_WORD_MASK nbits).

Definition bitmap_copy (dst src : list Z) (nbits : Z) : option (list Z) :=
  fst <$> store_words (fun k => src !! k) dst 0 0 (BITS_TO_LONGS nbits).

(** ** Shifts *)

(** The array the source is read from. *)
Definition source (inplace : bool) (dst src : list Z) : list Z := if inplace then dst else src.

(** One round of the loop of [__bitmap_shift_right]. *)
Definition shift_right_word (inplace : bool) (dst src : list Z) (off rem lim left : Z) (k : nat)
  : option (list Z) :=
  let s := source inplace dst src in
  let mask := shl32 1 left - 1 in
  let here := off + Z.of_nat k in
  upper ← (if (rem =? 0) || (lim <=? here + 1) then Some 0
           else u ← s !! Z.to_nat (here + 1);
                Some (if (here + 1 =? lim - 1) && negb (left =? 0) then Z.land u mask else u));
  lower ← s !! Z.to_nat here;
  let lower := if negb (left =? 0) && (here =? lim - 1) then Z.land lower mask else lower in
  let w := Z.lor (shl32 upper (BITS_PER_LONG - rem)) (shr32 lower rem) in
  let w := if negb (left =? 0) && (Z.of_nat k =? lim - 1) then Z.land w mask else w in
  store_word dst k w.

Fixpoint shift_right_loop (inplace : bool) (dst src : list Z) (off rem lim left : Z) (k n : nat)
  : option (list Z) :=
  match n with
  | O => Some dst
  | S n => dst ← shift_right_word inplace dst src off rem lim left k;
           shift_right_loop inplace dst src off rem lim left (S k) n
  end.

(** [n] rounds: [k] from 0 while [off + k < lim]. *)
Definition __bitmap_shift_right (inplace : bool) (dst src : list Z) (shift bits : Z) : option (list Z) :=
  let lim := Z.of_nat (BITS_TO_LONGS bits) in
  let left := bits mod BITS_PER_LONG in
  let off := shift / BITS_PER_LONG in
  let rem := shift mod BITS_PER_LONG in
  dst ← shift_right_loop inplace dst src off rem lim left 0 (Z.to_nat (lim - off));
  if negb (off =? 0) then
    if off <=? lim then zero_words dst (Z.to_nat (lim - off)) (Z.to_nat off) else None
  else Some dst.

Definition shift_left_word (inplace : bool) (dst src : list Z) (off rem lim left : Z) (k : nat)
  : option (list Z) :=
  let s := source inplace dst src in
  let mask := shl32 1 left - 1 in
  lower ← (if negb (rem =? 0) && (0 <? Z.of_nat k) then s !! (k - 1)%nat else Some 0);
  upper ← s !! k;
  let upper := if negb (left =? 0) && (Z.of_nat k =? lim - 1) then Z.land upper mask else upper in
  let w := Z.lor (shr32 lower (BITS_PER_LONG - rem)) (shl32 upper rem) in
  let w := if negb (left =? 0) && (Z.of_nat k + off =? lim - 1) then Z.land w mask else w in
  store_word dst (Z.to_nat (Z.of_nat k + off)) w.

(** [k] from [n - 1] down to 0. *)
Fixpoint shift_left_loop (inplace : bool) (dst src : list Z) (off rem lim left : Z) (n : nat)
  : option (list Z) :=
  match n with
  | O => Some dst
  | S k => dst ← shift_left_word inplace dst src off rem lim left k;
           shift_left_loop inplace dst src off rem lim left k
  end.

Definition __bitmap_shift_left (inplace : bool) (dst src : list Z) (shift bits : Z) : option (list Z) :=
  let lim := Z.of_nat (BITS_TO_LONGS bits) in
  let left := bits mod BITS_PER_LONG in
  let off := shift / BITS_PER_LONG in
  let rem := shift mod BITS_PER_LONG in
  dst ← shift_left_loop inplace dst src off rem lim left (Z.to_nat (lim - off));
  if negb (off =? 0) then zero_words dst 0 (Z.to_nat off) else Some dst.

(** ** Single bits *)

Definition BIT_MASK (nr : Z) : Z := shl32 1 (nr mod BITS_PER_LONG).
Definition BIT_WORD (nr : Z) : nat := Z.to_nat (nr / BITS_PER_LONG).

Definition set_bit (nr : Z) (addr : list Z) : option (list Z) :=
  w ← addr !! BIT_WORD nr; store_word addr (BIT_WORD nr) (Z.lor w (BIT_MASK nr)).

Definition clear_bit (nr : Z) (addr : list Z) : option (list Z) :=
  w ← addr !! BIT_WORD nr; store_word addr (BIT_WORD nr) (Z.land w (not32 (BIT_MASK nr))).

Definition change_bit (nr : Z) (addr : list Z) : option (list Z) :=
  w ← addr !! BIT_WORD nr; store_word addr (BIT_WORD nr) (Z.lxor w (BIT_MASK nr)).

Definition test_bit (nr : Z) (addr : list Z) : option bool :=
  w ← addr !! BIT_WORD nr; Some (negb (Z.land 1 (shr32 w (Z.land nr (BITS_PER_LONG - 1))) =? 0)).

(** ** Ordinals and remapping *)

Section Remap.
Context {BF : BitFinder}.

(** [while (i < pos) { i = find_next_bit(buf, bits, i + 1); ord++; }] *)
Fixpoint pos_to_ord_loop (fuel : nat) (buf : list Z) (pos bits i ord : Z) : option (Z * Z) :=
  if i <? pos then
    match fuel with
    | O => None
    | S fuel => i ← bf_next buf bits (i + 1); pos_to_ord_loop fuel buf pos bits i (ord + 1)
    end
  else Some (i, ord).

(** [None] also stands for the BUG_ON. *)
Definition bitmap_pos_to_ord (buf : list Z) (pos bits : Z) : option Z :=
  if (pos <? 0) || (bits <=? pos) then Some (-1)
  else
    b ← test_bit pos buf;
    if negb b then Some (-1)
    else
      i ← bf_first buf bits;
      '(i, ord) ← pos_to_ord_loop (Z.to_nat pos) buf pos bits i 0;
      if negb (i =? pos) then None else Some ord.

Fixpoint ord_to_pos_loop (fuel : nat) (buf : list Z) (bits i ord : Z) : option (Z * Z) :=
  if (i <? bits) && (0 <? ord) then
    match fuel with
    | O => None
    | S fuel => i ← bf_next buf bits (i + 1); ord_to_pos_loop fuel buf bits i (ord - 1)
    end
  else Some (i, ord).

Definition bitmap_ord_to_pos (buf : list Z) (ord bits : Z) : option Z :=
  if (0 <=? ord) && (ord <? bits) then
    i ← bf_first buf bits;
    '(i, ord) ← ord_to_pos_loop (Z.to_nat ord) buf bits i ord;
    Some (if (i <? bits) && (ord =? 0) then i else 0)
  else Some 0.

(** [for (i = find_first_bit(map, bits); i < bits; i = find_next_bit(map, bits, i + 1)) body] *)
Fixpoint for_each_bit {A} (fuel : nat) (map : list Z) (bits i : Z) (body : Z -> A -> option A) (a : A) : option A :=
  if i <? bits then
    match fuel with
    | O => None
    | S fuel => a ← body i a; i ← bf_next map bits (i + 1); for_each_bit fuel map bits i body a
    end
  else Some a.

(** [same] is [dst == src]. *)
Definition bitmap_remap (same : bool) (dst src old new : list Z) (bits : Z) : option (list Z) :=
  if same then Some dst
  else
    dst ← bitmap_zero dst bits;
    w ← __bitmap_weight new bits;
    i ← bf_first src bits;
    for_each_bit (Z.to_nat bits) src bits i (fun oldbit dst =>
      n ← bitmap_pos_to_ord old oldbit bits;
      if (n <? 0) || (w =? 0) then set_bit oldbit dst
      else pos ← bitmap_ord_to_pos new (n mod w) bits; set_bit pos dst) dst.

Definition bitmap_bitremap (oldbit : Z) (old new : list Z) (bits : Z) : option Z :=
  w ← __bitmap_weight new bits;
  n ← bitmap_pos_to_ord old oldbit bits;
  if (n <? 0) || (w =? 0) then Some oldbit else bitmap_ord_to_pos new (n mod w) bits.

Definition bitmap_onto (same : bool) (dst orig relmap : list Z) (bits : Z) : option (list Z) :=
  if same then Some dst
  else
    dst ← bitmap_zero dst bits;
    n ← bf_first relmap bits;
    '(dst, _) ← for_each_bit (Z.to_nat bits) relmap bits n (fun n '(dst, m) =>
      b ← test_bit m orig;
      dst ← (if (b : bool) then set_bit n dst else Some dst);
      Some (dst, m + 1)) (dst, 0);
    Some dst.

Definition bitmap_fold (same : bool) (dst orig : list Z) (sz bits : Z) : option (list Z) :=
  if same then Some dst
  else
    dst ← bitmap_zero dst bits;
    i ← bf_first orig bits;
    for_each_bit (Z.to_nat bits) orig bits i (fun oldbit dst => set_bit (oldbit mod sz) dst) dst.

End Remap.

(** ** Aligned regions *)

Inductive reg_op := REG_OP_ISFREE | REG_OP_ALLOC | REG_OP_RELEASE.

(** [for (i = 0; i < nlongs_reg; i++) bitmap[index + i] = f(bitmap[index + i], mask)] *)
Fixpoint reg_words (f : Z -> Z) (bitmap : list Z) (k n : nat) : option (list Z) :=
  match n with
  | O => Some bitmap
  | S n => w ← bitmap !! k; bitmap ← store_word bitmap k (f w); reg_words f bitmap (S k) n
  end.

(** A negative [pos] would be an access before the bitmap: [None]. *)
Definition __reg_op (bitmap : list Z) (pos order : Z) (op : reg_op) : option (list Z * Z) :=
  if pos <? 0 then None else
  let nbits_reg := Z.shiftl 1 order in
  let index := pos / BITS_PER_LONG in
  let offset := pos - index * BITS_PER_LONG in
  let nlongs_reg := BITS_TO_LONGS nbits_reg in
  let nbitsinlong := Z.min nbits_reg BITS_PER_LONG in
  let mask := shl32 1 (nbitsinlong - 1) in
  let mask := u32 (mask + (mask - 1)) in
  let mask := shl32 mask offset in
  match op with
  | REG_OP_ISFREE =>
      busy ← any_word (fun k => w ← bitmap !! k; Some (Z.land w mask)) (Z.to_nat index) nlongs_reg;
      Some (bitmap, if (busy : bool) then 0 else 1)
  | REG_OP_ALLOC =>
      bitmap ← reg_words (fun w => Z.lor w mask) bitmap (Z.to_nat index) nlongs_reg; Some (bitmap, 0)
  | REG_OP_RELEASE =>
      bitmap ← reg_words (fun w => Z.land w (not32 mask)) bitmap (Z.to_nat index) nlongs_reg; Some (bitmap, 0)
  end.

(** [pos] and [end] are [int]s: the sum wraps. *)
Fixpoint find_region_loop (fuel : nat) (bitmap : list Z) (bits order pos : Z) : option (list Z * Z) :=
  let end_ := s32 (pos + Z.shiftl 1 order) in
  if end_ <=? bits then
    match fuel with
    | O => None
    | S fuel =>
        '(_, isfree) ← __reg_op bitmap pos order REG_OP_ISFREE;
        if isfree =? 0 then find_region_loop fuel bitmap bits order end_
        else '(bitmap, _) ← __reg_op bitmap pos order REG_OP_ALLOC; Some (bitmap, pos)
    end
  else Some (bitmap, - ENOMEM).

Definition bitmap_find_free_region (bitmap : list Z) (bits order : Z) : option (list Z * Z) :=
  find_region_loop (S (Z.to_nat bits)) bitmap bits order 0.

Definition bitmap_release_region (bitmap : list Z) (pos order : Z) : option (list Z) :=
  fst <$> __reg_op bitmap pos order REG_OP_RELEASE.

Definition bitmap_allocate_region (bitmap : list Z) (pos order : Z) : option (list Z * Z) :=
  '(_, isfree) ← __reg_op bitmap pos order REG_OP_ISFREE;
  if isfree =? 0 then Some (bitmap, - EBUSY)
  else '(bitmap, _) ← __reg_op bitmap pos order REG_OP_ALLOC; Some (bitmap, 0).

(** ** Bits of a function of words *)

Definition fbit (x : nat -> Z) (i : Z) : bool :=
  Z.testbit (x (Z.to_nat (i / BITS_PER_LONG))) (i mod BITS_PER_LONG).

(** The words of an array, 0 beyond its end. *)
Definition wd (addr : list Z) (k : nat) : Z := default 0 (addr !! k).

Lemma bit_fbit addr i : bit addr i = fbit (wd addr) i.
Proof. unfold bit, fbit, wd. destruct (addr !! _); [done|]. simpl. by rewrite Z.bits_0. Qed.

Lemma wd_word addr k : words addr -> is_u32 (wd addr k).
Proof.
  intros Hw. unfold wd. destruct (addr !! k) eqn:E; [by eapply Forall_lookup_1|]. simpl. unfold is_u32. lia.
Qed.

Lemma lookup_wd addr k : (k < length addr)%nat -> addr !! k = Some (wd addr k).
Proof. intros Hk. unfold wd. destruct (lookup_lt_is_Some_2 addr k Hk) as [w ->]. done. Qed.

Lemma fbit_at x k j : 0 <= j < 32 -> fbit x (32 * Z.of_nat k + j) = Z.testbit (x k) j.
Proof.
  intros Hj. unfold fbit, BITS_PER_LONG. rewrite (Z.mul_comm 32), Z.add_comm, Z.div_add, Z.mod_add by lia.
  rewrite Z.div_small, Z.mod_small by lia. by rewrite Z.add_0_l, Nat2Z.id.
Qed.

(** Every bit number is a word and a position in it. *)
Lemma bit_split i : 0 <= i -> exists k j, 0 <= j < 32 /\ i = 32 * Z.of_nat k + j.
Proof.
  intros Hi. exists (Z.to_nat (i / 32)), (i mod 32). split; [apply Z.mod_pos_bound; lia|].
  rewrite Z2Nat.id by (apply Z.div_pos; lia). apply Z.div_mod. lia.
Qed.

Lemma word_some_bit w : is_u32 w -> w <> 0 <-> exists j, 0 <= j < 32 /\ Z.testbit w j = true.
Proof.
  intros Hw. split.
  - intros Hnz. destruct (__ffs_spec w Hw Hnz) as [(H0 & Hb & _) H32]. by exists (__ffs w).
  - intros (j & _ & Hb) ->. by rewrite Z.bits_0 in Hb.
Qed.

Lemma testbit_ones_mask n j : 0 <= n < 32 -> 0 <= j -> Z.testbit (shl32 1 n - 1) j = (j <? n).
Proof.
  intros Hn Hj. unfold shl32. rewrite Z.shiftl_1_l.
  rewrite u32_id by (unfold is_u32; split; [apply Z.pow_nonneg; lia|apply Z.pow_lt_mono_r; lia]).
  replace (2 ^ n - 1) with (Z.ones n) by (rewrite Z.ones_equiv; lia).
  destruct (Z.ltb_spec j n); [apply Z.ones_spec_low; lia|apply Z.ones_spec_high; lia].
Qed.

Lemma testbit_last_mask bits j :
  bits mod 32 <> 0 -> 0 <= j -> Z.testbit (BITMAP_LAST_WORD_MASK bits) j = (j <? bits mod 32).
Proof.
  intros Hm Hj. unfold BITMAP_LAST_WORD_MASK, BITS_PER_LONG. destruct (Z.eqb_spec (bits mod 32) 0); [done|]. simpl.
  pose proof (Z.mod_pos_bound bits 32 ltac:(lia)). by apply testbit_ones_mask.
Qed.

(** ** The tests *)

Lemma any_word_ok f x : forall n k,
  (forall j, (k <= j < k + n)%nat -> f j = Some (x j)) ->
  exists b, any_word f k n = Some b /\ (b = true <-> exists j, (k <= j < k + n)%nat /\ x j <> 0).
Proof.
  induction n as [|n IH]; intros k Hf; simpl.
  { exists false. split; [done|]. split; [done|]. intros (j & Hj & _). lia. }
  rewrite (Hf k) by lia. simpl. destruct (Z.eqb_spec (x k) 0) as [E|E]; simpl.
  - destruct (IH (S k)) as (b & -> & Hb); [intros j Hj; apply Hf; lia|]. exists b. split; [done|]. rewrite Hb.
    split; intros (j & Hj & Hx); exists j; (split; [|done]); [lia|].
    assert (j <> k) by congruence. lia.
  - exists true. split; [done|]. split; [|done]. intros _. exists k. split; [lia|done].
Qed.

(** The number of words is enough for the bits, and no more than needed. *)
Lemma longs_bound bits :
  0 <= bits -> 32 * Z.of_nat (BITS_TO_LONGS bits) - 32 < bits <= 32 * Z.of_nat (BITS_TO_LONGS bits) \/
               bits = 0 /\ BITS_TO_LONGS bits = O.
Proof.
  intros Hb. unfold BITS_TO_LONGS, BITS_PER_LONG. rewrite Z2Nat.id by (apply Z.div_pos; lia).
  pose proof (Z.div_mod (bits + 32 - 1) 32 ltac:(lia)). pose proof (Z.mod_pos_bound (bits + 32 - 1) 32 ltac:(lia)). lia.
Qed.

Lemma any_bit_ok f x bits :
  0 <= bits -> (forall k, (k < BITS_TO_LONGS bits)%nat -> f k = Some (x k)) -> (forall k, is_u32 (x k)) ->
  exists b, any_bit f bits = Some b /\ (b = true <-> exists i, 0 <= i < bits /\ fbit x i = true).
Proof.
  intros Hb Hf Hx. unfold any_bit, BITS_PER_LONG. pose proof (longs_bound bits Hb) as Hl.
  pose proof (Z.div_mod bits 32 ltac:(lia)) as Hdm. pose proof (Z.mod_pos_bound bits 32 ltac:(lia)) as Hm.
  set (lim := Z.to_nat (bits / 32)).
  assert (Elim : bits = 32 * Z.of_nat lim + bits mod 32)
    by (unfold lim; rewrite Z2Nat.id by (apply Z.div_pos; lia); lia).
  destruct (any_word_ok f x lim 0) as (b & -> & Hb0); [intros j Hj; apply Hf; lia|]. simpl. clearbody lim.
  assert (Hlow : b = true -> exists i, 0 <= i < bits /\ fbit x i = true).
  { intros H. apply Hb0 in H as (k & Hk & Hnz). apply word_some_bit in Hnz as (j & Hj & Hbit); [|done].
    exists (32 * Z.of_nat k + j). split; [lia|]. by rewrite fbit_at. }
  assert (Hhigh : b = false -> forall i, 0 <= i < bits -> fbit x i = true -> 32 * Z.of_nat lim <= i).
  { intros -> i Hi Hbit. destruct (Z.lt_ge_cases i (32 * Z.of_nat lim)); [|lia].
    destruct (bit_split i ltac:(lia)) as (k & j & Hj & ->). rewrite fbit_at in Hbit by done.
    assert (false = true); [|done]. apply Hb0. exists k. split; [lia|]. intros E. by rewrite E, Z.bits_0 in Hbit. }
  destruct b; [exists true; split; [done|]; split; [auto|done]|].
  destruct (Z.eqb_spec (bits mod 32) 0) as [E|E]; cbn [negb].
  { exists false. split; [done|]. split; [done|]. intros (i & Hi & Hbit). specialize (Hhigh eq_refl i Hi Hbit). lia. }
  rewrite (Hf lim) by lia. simpl. eexists. split; [done|]. rewrite negb_true_iff, Z.eqb_neq, word_some_bit by (by apply land_word).
  split.
  - intros (j & Hj & Hbit). rewrite Z.land_spec, testbit_last_mask in Hbit by lia.
    apply andb_true_iff in Hbit as [Hbit Hlt%Z.ltb_lt]. exists (32 * Z.of_nat lim + j). split; [lia|]. by rewrite fbit_at.
  - intros (i & Hi & Hbit). specialize (Hhigh eq_refl i Hi Hbit). exists (i - 32 * Z.of_nat lim). split; [lia|].
    rewrite Z.land_spec, testbit_last_mask by lia. replace i with (32 * Z.of_nat lim + (i - 32 * Z.of_nat lim)) in Hbit by lia.
    rewrite fbit_at in Hbit by lia. rewrite Hbit. apply Z.ltb_lt. lia.
Qed.

Lemma any_bit_none f x bits :
  0 <= bits -> (forall k, (k < BITS_TO_LONGS bits)%nat -> f k = Some (x k)) -> (forall k, is_u32 (x k)) ->
  exists b, negb <$> any_bit f bits = Some b /\ (b = true <-> forall i, 0 <= i < bits -> fbit x i = false).
Proof.
  intros Hb Hf Hx. destruct (any_bit_ok f x bits Hb Hf Hx) as (b & -> & H). exists (negb b). split; [done|].
  rewrite negb_true_iff, <- not_true_iff_false, H. split.
  - intros Hn i Hi. apply not_true_iff_false. intros Hbit. apply Hn. by exists i.
  - intros Ha (i & Hi & Hbit). rewrite Ha in Hbit; done.
Qed.

(** An array with room for [bits] bits. *)
Definition holds (bits : Z) (addr : list Z) : Prop := words addr /\ 0 <= bits <= 32 * zlen addr.

Lemma holds_lookup bits addr k :
  holds bits addr -> (k < BITS_TO_LONGS bits)%nat -> addr !! k = Some (wd addr k).
Proof.
  intros [_ Hl] Hk. apply lookup_wd. destruct (longs_bound bits ltac:(lia)); unfold zlen in Hl; lia.
Qed.

(** An operation on words that acts on each bit alone. *)
Record bitwise (op : Z -> Z -> Z) (opb : bool -> bool -> bool) : Prop := {
  bw_word : forall a b, is_u32 a -> is_u32 b -> is_u32 (op a b);
  bw_bit : forall a b j, 0 <= j < 32 -> Z.testbit (op a b) j = opb (Z.testbit a j) (Z.testbit b j);
}.

Lemma bitwise_and : bitwise Z.land andb.
Proof. split; [intros; by apply land_word|intros; apply Z.land_spec]. Qed.

Lemma bitwise_or : bitwise Z.lor orb.
Proof. split; [intros; by apply lor_word|intros; apply Z.lor_spec]. Qed.

Lemma bitwise_xor : bitwise Z.lxor xorb.
Proof.
  split; [|intros; apply Z.lxor_spec]. intros x y Hx Hy.
  replace (Z.lxor x y) with (u32 (Z.lxor x y)); [apply u32_range|].
  apply Z.bits_inj'. intros i Hi. rewrite testbit_u32, Z.lxor_spec by lia. destruct (Z.ltb_spec i 32); [done|].
  by rewrite !testbit_high.
Qed.

Lemma bitwise_andnot : bitwise (fun a b => Z.land a (not32 b)) (fun a b => a && negb b).
Proof.
  split; [intros; by apply land_word|]. intros a b j Hj. rewrite Z.land_spec, testbit_not32 by done. done.
Qed.

Create HintDb bitmap discriminated.
#[local] Hint Resolve bitwise_and bitwise_or bitwise_xor bitwise_andnot wd_word : bitmap.

(** The words of a binary operation and their bits. *)
Lemma word2_words op opb bits b1 b2 k :
  bitwise op opb -> holds bits b1 -> holds bits b2 -> (k < BITS_TO_LONGS bits)%nat ->
  word2 op b1 b2 k = Some (op (wd b1 k) (wd b2 k)).
Proof.
  intros Hop H1 H2 Hk. unfold word2. by rewrite (holds_lookup bits b1), (holds_lookup bits b2) by done.
Qed.

Lemma fbit_op op opb b1 b2 i :
  bitwise op opb -> 0 <= i -> fbit (fun k => op (wd b1 k) (wd b2 k)) i = opb (bit b1 i) (bit b2 i).
Proof.
  intros Hop Hi. destruct (bit_split i Hi) as (k & j & Hj & ->). rewrite !bit_fbit, !fbit_at by done.
  by apply (bw_bit _ _ Hop).
Qed.

(** The tests on bitmaps look at exactly the bits below the size: [__bitmap_empty],
    [__bitmap_full], [__bitmap_equal], [__bitmap_subset] and [__bitmap_intersects] decide
    the set relations they are named after, whatever the unused bits of the last word
    hold, and read no word outside the arrays. *)
Theorem bitmap_tests_correct b1 b2 bits :
  holds bits b1 -> holds bits b2 ->
  (exists r, __bitmap_empty b1 bits = Some r /\ (r = true <-> forall i, 0 <= i < bits -> bit b1 i = false)) /\
  (exists r, __bitmap_full b1 bits = Some r /\ (r = true <-> forall i, 0 <= i < bits -> bit b1 i = true)) /\
  (exists r, __bitmap_equal b1 b2 bits = Some r /\ (r = true <-> forall i, 0 <= i < bits -> bit b1 i = bit b2 i)) /\
  (exists r, __bitmap_subset b1 b2 bits = Some r /\
     (r = true <-> forall i, 0 <= i < bits -> bit b1 i = true -> bit b2 i = true)) /\
  (exists r, __bitmap_intersects b1 b2 bits = Some r /\
     (r = true <-> exists i, 0 <= i < bits /\ bit b1 i = true /\ bit b2 i = true)).
Proof.
  intros H1 H2. pose proof H1 as [W1 L1]. pose proof H2 as [W2 L2].
  assert (Hun : forall op opb, bitwise op opb -> exists r, negb <$> any_bit (word2 op b1 b2) bits = Some r /\
    (r = true <-> forall i, 0 <= i < bits -> opb (bit b1 i) (bit b2 i) = false)).
  { intros op opb Hop. destruct (any_bit_none (word2 op b1 b2) (fun k => op (wd b1 k) (wd b2 k)) bits) as (r & E & Hr);
      [lia|intros k Hk; by eapply word2_words|intros k; apply (bw_word _ _ Hop); auto with bitmap|].
    exists r. split; [done|]. rewrite Hr. split; intros H i Hi; specialize (H i Hi);
      rewrite (fbit_op op opb) in * by (done || lia); done. }
  split; [|split; [|split; [|split]]].
  - destruct (any_bit_none (fun k => b1 !! k) (wd b1) bits) as (r & E & Hr);
      [lia|intros k Hk; by apply (holds_lookup bits)|auto with bitmap|].
    exists r. split; [done|]. rewrite Hr. split; intros H i Hi; specialize (H i Hi); by rewrite bit_fbit in *.
  - destruct (any_bit_none (fun k => not32 <$> b1 !! k) (fun k => not32 (wd b1 k)) bits) as (r & E & Hr);
      [lia|intros k Hk; by rewrite (holds_lookup bits)|intros k; apply not32_range|].
    exists r. split; [done|]. rewrite Hr. assert (Hn : forall i, 0 <= i -> fbit (fun k => not32 (wd b1 k)) i = negb (bit b1 i)).
    { intros i Hi. destruct (bit_split i Hi) as (k & j & Hj & ->). rewrite bit_fbit, !fbit_at by done. by apply testbit_not32. }
    split; intros H i Hi; specialize (H i Hi); rewrite Hn in * by lia; [by apply negb_false_iff|by rewrite H].
  - destruct (Hun _ _ bitwise_xor) as (r & E & Hr). exists r. split; [done|]. rewrite Hr.
    split; intros H i Hi; specialize (H i Hi); [by apply xorb_eq|rewrite H; apply xorb_nilpotent].
  - destruct (Hun _ _ bitwise_andnot) as (r & E & Hr). exists r. split; [done|]. rewrite Hr.
    split; intros H i Hi; specialize (H i Hi); destruct (bit b1 i), (bit b2 i); naive_solver.
  - destruct (any_bit_ok (word2 Z.land b1 b2) (fun k => Z.land (wd b1 k) (wd b2 k)) bits) as (r & E & Hr);
      [lia|intros k Hk; eapply word2_words; eauto with bitmap|intros k; apply land_word; auto with bitmap|].
    exists r. split; [done|]. rewrite Hr. split; intros (i & Hi & Hb); exists i; (split; [done|]);
      rewrite (fbit_op _ _ _ _ _ bitwise_and) in * by lia; by apply andb_true_iff.
Qed.

Lemma bitmap_tests_correct_witness :
  __bitmap_equal [5; 0xF3] [5; 0xC3] 36 = Some true /\ forall i, 0 <= i < 36 -> bit [5; 0xF3] i = bit [5; 0xC3] i.
Proof.
  destruct (bitmap_tests_correct [5; 0xF3] [5; 0xC3] 36) as (_ & _ & (r & E & Hr) & _);
    [split; [repeat constructor; lia|done]..|].
  assert (E' : __bitmap_equal [5; 0xF3] [5; 0xC3] 36 = Some true) by reflexivity.
  rewrite E in E'. injection E' as ->. split; [exact E|]. by apply Hr.
Defined.

(** ** The assignments *)

Lemma store_word_ok dst k w :
  (k < length dst)%nat -> exists dst', store_word dst k w = Some dst' /\ length dst' = length dst /\
    (forall j, wd dst' j = if decide (j = k) then w else wd dst j) /\ (words dst -> is_u32 w -> words dst').
Proof.
  intros Hk. unfold store_word. rewrite decide_True by done. eexists. split; [done|].
  split; [by rewrite length_insert|]. split.
  - intros j. unfold wd. case_decide as Hd; [subst; by rewrite list_lookup_insert_eq|by rewrite list_lookup_insert_ne].
  - intros Hw Hu. by apply Forall_insert.
Qed.

Lemma store_words_ok f x : forall n k dst result,
  (forall j, (k <= j < k + n)%nat -> f j = Some (x j)) -> (k + n <= length dst)%nat ->
  exists dst' result', store_words f dst result k n = Some (dst', result') /\ length dst' = length dst /\
    (forall j, wd dst' j = if decide (k <= j < k + n)%nat then x j else wd dst j) /\
    (words dst -> (forall j, is_u32 (x j)) -> words dst') /\
    (result' <> 0 <-> result <> 0 \/ exists j, (k <= j < k + n)%nat /\ x j <> 0).
Proof.
  induction n as [|n IH]; intros k dst result Hf Hl; simpl.
  { exists dst, result. split; [done|]. split; [done|]. split; [intros j; rewrite decide_False by lia; done|].
    split; [done|]. split; [by left|]. intros [?|(j & Hj & _)]; [done|lia]. }
  rewrite (Hf k) by lia. simpl. destruct (store_word_ok dst k (x k) ltac:(lia)) as (d1 & -> & L1 & B1 & W1). simpl.
  destruct (IH (S k) d1 (Z.lor result (x k))) as (d2 & r2 & -> & L2 & B2 & W2 & R2); [intros j Hj; apply Hf; lia|lia|].
  exists d2, r2. split; [done|]. split; [congruence|]. split; [|split].
  - intros j. rewrite B2, B1. repeat case_decide; subst; done || lia.
  - intros Hw Hx. by apply W2; [apply W1|].
  - rewrite R2. assert (Hor : Z.lor result (x k) <> 0 <-> result <> 0 \/ x k <> 0) by (rewrite Z.lor_eq_0_iff; lia).
    rewrite Hor. split.
    + intros [[?|?]|(j & Hj & ?)]; [by left|right; exists k; split; [lia|done]|right; exists j; split; [lia|done]].
    + intros [?|(j & Hj & ?)]; [by left; left|]. destruct (decide (j = k)) as [->|]; [by left; right|].
      right. exists j. split; [lia|done].
Qed.

Lemma fbit_ext x y i : (forall k j, 0 <= j < 32 -> i = 32 * Z.of_nat k + j -> x k = y k) -> 0 <= i -> fbit x i = fbit y i.
Proof. intros H Hi. destruct (bit_split i Hi) as (k & j & Hj & E). rewrite E, !fbit_at by done. by rewrite (H k j). Qed.

(** A loop over all the words of [bits] bits. *)
Lemma assign_ok f x dst bits :
  holds bits dst -> (forall k, (k < BITS_TO_LONGS bits)%nat -> f k = Some (x k)) -> (forall k, is_u32 (x k)) ->
  exists dst' result, store_words f dst 0 0 (BITS_TO_LONGS bits) = Some (dst', result) /\ holds bits dst' /\
    (forall i, 0 <= i < bits -> bit dst' i = fbit x i) /\
    (forall i, 32 * Z.of_nat (BITS_TO_LONGS bits) <= i -> bit dst' i = bit dst i) /\
    (result <> 0 <-> exists i, 0 <= i < 32 * Z.of_nat (BITS_TO_LONGS bits) /\ fbit x i = true).
Proof.
  intros [Hw Hl] Hf Hx. pose proof (longs_bound bits ltac:(lia)) as Hb.
  destruct (store_words_ok f x (BITS_TO_LONGS bits) 0 dst 0) as (d & r & -> & L & B & W & R);
    [intros j Hj; apply Hf; lia|unfold zlen in Hl; lia|].
  exists d, r. split; [done|]. split; [split; [by apply W|unfold zlen in *; rewrite L; lia]|]. split; [|split].
  - intros i Hi. rewrite bit_fbit. apply fbit_ext; [|lia]. intros k j Hj ->. rewrite B, decide_True by lia. done.
  - intros i Hi. rewrite !bit_fbit. apply fbit_ext; [|lia]. intros k j Hj ->. rewrite B, decide_False by lia. done.
  - rewrite R. split.
    + intros [?|(k & Hk & Hnz)]; [done|]. apply word_some_bit in Hnz as (j & Hj & Hbit); [|done].
      exists (32 * Z.of_nat k + j). split; [lia|]. by rewrite fbit_at.
    + intros (i & Hi & Hbit). right. destruct (bit_split i ltac:(lia)) as (k & j & Hj & ->). rewrite fbit_at in Hbit by done.
      exists k. split; [lia|]. intros E. by rewrite E, Z.bits_0 in Hbit.
Qed.

(** The last word of a complement or a fill is masked. *)
Lemma masked_last_ok dst bits w (x : nat -> Z) :
  let lim := Z.to_nat (bits / 32) in
  words dst -> 0 <= bits <= 32 * zlen dst -> is_u32 w -> bits mod 32 <> 0 ->
  (forall j, (j < lim)%nat -> wd dst j = x j) -> x lim = w ->
  exists dst', store_word dst lim (Z.land w (BITMAP_LAST_WORD_MASK bits)) = Some dst' /\ holds bits dst' /\
    (forall i, 0 <= i < bits -> bit dst' i = fbit x i).
Proof.
  intros lim Hw Hl Hu Hm Hlow Hx. pose proof (Z.mod_pos_bound bits 32 ltac:(lia)).
  assert (Elim : bits = 32 * Z.of_nat lim + bits mod 32)
    by (unfold lim; rewrite Z2Nat.id by (apply Z.div_pos; lia); apply Z.div_mod; lia).
  destruct (store_word_ok dst lim (Z.land w (BITMAP_LAST_WORD_MASK bits))) as (d & -> & L & B & W); [unfold zlen in Hl; lia|].
  exists d. split; [done|]. split; [split; [apply W; [done|by apply land_word]|unfold zlen in *; rewrite L; lia]|].
  intros i Hi. rewrite bit_fbit. destruct (bit_split i ltac:(lia)) as (k & j & Hj & ->). rewrite !fbit_at, B by done.
  case_decide as Hd; [|rewrite Hlow by lia; done]. subst k. rewrite Z.land_spec, testbit_last_mask by lia.
  rewrite Hx. destruct (Z.ltb_spec j (bits mod 32)); [apply andb_true_r|lia].
Qed.

Lemma complement_ok dst b bits :
  holds bits dst -> holds bits b ->
  exists d, __bitmap_complement dst b bits = Some d /\ holds bits d /\
    forall i, 0 <= i < bits -> bit d i = negb (bit b i).
Proof.
  intros [Wd Ld] [Wb Lb]. unfold __bitmap_complement, BITS_PER_LONG. set (lim := Z.to_nat (bits / 32)).
  pose proof (Z.mod_pos_bound bits 32 ltac:(lia)).
  assert (Elim : bits = 32 * Z.of_nat lim + bits mod 32)
    by (unfold lim; rewrite Z2Nat.id by (apply Z.div_pos; lia); apply Z.div_mod; lia).
  assert (Hn : forall i, 0 <= i -> fbit (fun k => not32 (wd b k)) i = negb (bit b i)).
  { intros i Hi. destruct (bit_split i Hi) as (k & j & Hj & ->). rewrite bit_fbit, !fbit_at by done. by apply testbit_not32. }
  destruct (store_words_ok (fun k => not32 <$> b !! k) (fun k => not32 (wd b k)) lim 0 dst 0) as (d & r & -> & L & B & W & _);
    [intros j Hj; rewrite lookup_wd; [done|unfold zlen in *; lia]|unfold zlen in *; lia|]. cbn [mbind option_bind].
  assert (Wd' : words d) by (apply W; [done|intros j; apply not32_range]).
  destruct (Z.eqb_spec (bits mod 32) 0) as [E|E]; cbn [negb].
  - exists d. split; [done|]. split; [split; [done|unfold zlen in *; rewrite L; lia]|]. intros i Hi.
    rewrite <- Hn, bit_fbit by lia. apply fbit_ext; [|lia]. intros k j Hj ->. rewrite B, decide_True by lia. done.
  - rewrite (lookup_wd b lim) by (unfold zlen in *; lia). cbn [mbind option_bind].
    destruct (masked_last_ok d bits (not32 (wd b lim)) (fun k => not32 (wd b k))) as (d' & E' & Hh & B');
      [done|unfold zlen in *; rewrite L; lia|apply not32_range|done| |done|].
    { intros j Hj. fold lim in Hj. rewrite B, decide_True by lia. done. }
    exists d'. split; [done|]. split; [done|]. intros i Hi. rewrite B' by done. apply Hn. lia.
Qed.

(** The operations on bitmaps compute, for every bit below the size, the Boolean
    operation they are named after; the words after the last one they use are left as
    they were.  The value that [__bitmap_and] and [__bitmap_andnot] return tells whether
    a bit of those words is set. *)
Theorem bitmap_algebra_correct dst b1 b2 bits :
  holds bits dst -> holds bits b1 -> holds bits b2 ->
  (exists d r, __bitmap_and dst b1 b2 bits = Some (d, r) /\ holds bits d /\
     (forall i, 0 <= i < bits -> bit d i = bit b1 i && bit b2 i) /\
     (r = true <-> exists i, 0 <= i < 32 * Z.of_nat (BITS_TO_LONGS bits) /\ bit b1 i && bit b2 i = true)) /\
  (exists d r, __bitmap_andnot dst b1 b2 bits = Some (d, r) /\ holds bits d /\
     (forall i, 0 <= i < bits -> bit d i = bit b1 i && negb (bit b2 i)) /\
     (r = true <-> exists i, 0 <= i < 32 * Z.of_nat (BITS_TO_LONGS bits) /\ bit b1 i && negb (bit b2 i) = true)) /\
  (exists d, __bitmap_or dst b1 b2 bits = Some d /\ holds bits d /\
     forall i, 0 <= i < bits -> bit d i = bit b1 i || bit b2 i) /\
  (exists d, __bitmap_xor dst b1 b2 bits = Some d /\ holds bits d /\
     forall i, 0 <= i < bits -> bit d i = xorb (bit b1 i) (bit b2 i)) /\
  (exists d, __bitmap_complement dst b1 bits = Some d /\ holds bits d /\
     forall i, 0 <= i < bits -> bit d i = negb (bit b1 i)).
Proof.
  intros Hd H1 H2. pose proof H1 as [W1 L1]. pose proof H2 as [W2 L2].
  assert (Hop : forall op opb, bitwise op opb -> exists d r,
    store_words (word2 op b1 b2) dst 0 0 (BITS_TO_LONGS bits) = Some (d, r) /\ holds bits d /\
    (forall i, 0 <= i < bits -> bit d i = opb (bit b1 i) (bit b2 i)) /\
    (negb (r =? 0) = true <-> exists i, 0 <= i < 32 * Z.of_nat (BITS_TO_LONGS bits) /\ opb (bit b1 i) (bit b2 i) = true)).
  { intros op opb Hop. destruct (assign_ok (word2 op b1 b2) (fun k => op (wd b1 k) (wd b2 k)) dst bits Hd)
      as (d & r & E & Hh & B & _ & R); [intros k Hk; by eapply word2_words|intros k; apply (bw_word _ _ Hop); auto with bitmap|].
    exists d, r. split; [done|]. split; [done|]. split; [intros i Hi; rewrite B by done; apply (fbit_op _ _ _ _ _ Hop); lia|].
    rewrite negb_true_iff, Z.eqb_neq, R. split; intros (i & Hi & Hb); exists i; (split; [done|]);
      rewrite (fbit_op _ _ _ _ _ Hop) in * by lia; done. }
  unfold __bitmap_and, __bitmap_andnot, __bitmap_or, __bitmap_xor.
  split; [|split; [|split; [|split]]].
  - destruct (Hop _ _ bitwise_and) as (d & r & -> & Hh & B & R). by eexists _, _.
  - destruct (Hop _ _ bitwise_andnot) as (d & r & -> & Hh & B & R). by eexists _, _.
  - destruct (Hop _ _ bitwise_or) as (d & r & -> & Hh & B & R). by eexists.
  - destruct (Hop _ _ bitwise_xor) as (d & r & -> & Hh & B & R). by eexists.
  - by apply complement_ok.
Qed.

Lemma bitmap_algebra_correct_witness :
  exists d, __bitmap_or [0; 0] [5; 1] [2; 2] 36 = Some d /\ bit d 33 = true.
Proof.
  destruct (bitmap_algebra_correct [0; 0] [5; 1] [2; 2] 36) as (_ & _ & (d & E & _ & B) & _);
    [split; [repeat constructor; lia|done]..|].
  exists d. split; [exact E|]. rewrite B by lia. reflexivity.
Defined.

(** Contrary to the rule that unused bits affect no result, the value [__bitmap_and]
    returns depends on them: the intersection of two bitmaps of one bit is empty, and
    the function says that it is not. *)
Theorem bitmap_and_counts_unused_bits :
  exists d, __bitmap_and [0] [2] [3] 1 = Some (d, true) /\ __bitmap_empty d 1 = Some true /\
    __bitmap_intersects [2] [3] 1 = Some false.
Proof. eexists. split; [reflexivity|]. split; reflexivity. Qed.

(** ** Weight *)

(** The number of positions below [n] at which [f] holds. *)
Fixpoint count (f : Z -> bool) (n : nat) : Z :=
  match n with
  | O => 0
  | S n => count f n + b2z (f (Z.of_nat n))
  end.

Lemma count_ext f g n : (forall i, 0 <= i < Z.of_nat n -> f i = g i) -> count f n = count g n.
Proof. induction n as [|n IH]; intros H; cbn [count]; [done|].
  rewrite IH by (intros; apply H; lia). by rewrite H by lia.
Qed.

Lemma count_split f m n : count f (m + n) = count f m + count (fun i => f (Z.of_nat m + i)) n.
Proof.
  induction n as [|n IH]; [rewrite Nat.add_0_r; simpl; lia|]. rewrite Nat.add_succ_r. simpl. rewrite IH.
  replace (Z.of_nat (m + n)) with (Z.of_nat m + Z.of_nat n) by lia. lia.
Qed.

Lemma count_bounds f n : 0 <= count f n <= Z.of_nat n.
Proof. induction n as [|n IH]; [done|]. simpl count. unfold b2z. destruct (f _); lia. Qed.

Lemma popcount_count n x : popcount n x = count (Z.testbit x) n.
Proof.
  revert x. induction n as [|n IH]; intros x; [done|]. change (S n) with (1 + n)%nat at 2. rewrite count_split.
  cbn [popcount]. rewrite IH. cbn [count]. rewrite Z.add_0_l. f_equal.
  - rewrite <- Z.bit0_mod. unfold b2z, Z.b2z. done.
  - apply count_ext. intros i Hi. change 2 with (2 ^ 1). rewrite Z.div_pow2_bits by lia. f_equal. lia.
Qed.

Lemma weight_words_ok b : forall n k w,
  words b -> (k + n <= length b)%nat -> 0 <= w -> w + 32 * Z.of_nat n < 2 ^ 32 ->
  weight_words b k n w = Some (w + count (fun i => bit b (32 * Z.of_nat k + i)) (32 * n)).
Proof.
  induction n as [|n IH]; intros k w Hw Hl H0 Hb; cbn [weight_words].
  { rewrite Nat.mul_0_r. simpl. f_equal. lia. }
  rewrite (lookup_wd b k) by lia. cbn [mbind option_bind].
  destruct (hweight32_spec (wd b k) (wd_word b k Hw)) as [E B]. unfold hweight_long.
  rewrite u32_id by (unfold is_u32; lia). rewrite IH by (done || lia). f_equal.
  replace (32 * S n)%nat with (32 + 32 * n)%nat by lia. rewrite count_split, <- Z.add_assoc. f_equal. rewrite E, popcount_count. f_equal.
  - apply count_ext. intros i Hi. rewrite bit_fbit, fbit_at by lia. done.
  - apply count_ext. intros i Hi. f_equal. lia.
Qed.

Lemma weight_ok b bits :
  holds bits b -> bits < 2 ^ 31 -> __bitmap_weight b bits = Some (count (bit b) (Z.to_nat bits)).
Proof.
  intros [Hw Hl] Hb. unfold __bitmap_weight, BITS_PER_LONG. set (lim := Z.to_nat (bits / 32)).
  pose proof (Z.mod_pos_bound bits 32 ltac:(lia)).
  assert (Elim : bits = 32 * Z.of_nat lim + bits mod 32)
    by (unfold lim; rewrite Z2Nat.id by (apply Z.div_pos; lia); apply Z.div_mod; lia).
  rewrite weight_words_ok by (try done; unfold zlen in *; lia). cbn [mbind option_bind]. rewrite Z.add_0_l.
  rewrite (count_ext _ (bit b)) by (intros; f_equal; lia).
  destruct (Z.eqb_spec (bits mod 32) 0) as [E|E]; cbn [negb].
  { do 2 f_equal. lia. }
  rewrite (lookup_wd b lim) by (unfold zlen in *; lia). cbn [mbind option_bind]. f_equal. unfold hweight_long.
  destruct (hweight32_spec (Z.land (wd b lim) (BITMAP_LAST_WORD_MASK bits))) as [Ew Bw]; [by apply land_word, wd_word|].
  pose proof (count_bounds (bit b) (32 * lim)). rewrite u32_id by (unfold is_u32; lia).
  replace (Z.to_nat bits) with (32 * lim + Z.to_nat (bits mod 32))%nat by lia. rewrite count_split. f_equal.
  rewrite Ew, popcount_count.
  assert (Hsum : forall g, count g 32 = count g (Z.to_nat (bits mod 32)) +
    count (fun i => g (Z.of_nat (Z.to_nat (bits mod 32)) + i)) (32 - Z.to_nat (bits mod 32)))
    by (intros g; rewrite <- count_split; f_equal; lia).
  rewrite Hsum.
  assert (Hz : count (fun i => Z.testbit (Z.land (wd b lim) (BITMAP_LAST_WORD_MASK bits)) (Z.of_nat (Z.to_nat (bits mod 32)) + i))
    (32 - Z.to_nat (bits mod 32)) = count (fun _ => false) (32 - Z.to_nat (bits mod 32))).
  { apply count_ext. intros i Hi. rewrite Z.land_spec, testbit_last_mask by lia.
    destruct (Z.ltb_spec (Z.of_nat (Z.to_nat (bits mod 32)) + i) (bits mod 32)); [lia|apply andb_false_r]. }
  rewrite Hz. assert (Hz0 : forall n, count (fun _ => false) n = 0) by (induction n as [|n IH]; [done|]; simpl; by rewrite IH).
  rewrite Hz0, Z.add_0_r. apply count_ext. intros i Hi. cbv beta. rewrite Z.land_spec, testbit_last_mask by lia.
  replace (Z.of_nat (32 * lim) + i) with (32 * Z.of_nat lim + i) by lia. rewrite bit_fbit, fbit_at by lia.
  destruct (Z.ltb_spec i (bits mod 32)); [apply andb_true_r|lia].
Qed.

(** ** Shifts *)

Lemma testbit_shl32 x n j : 0 <= n -> 0 <= j < 32 -> Z.testbit (shl32 x n) j = (n <=? j) && Z.testbit x (j - n).
Proof.
  intros Hn Hj. unfold shl32. rewrite testbit_u32, Z.shiftl_spec by lia. destruct (Z.ltb_spec j 32); [|lia].
  destruct (Z.leb_spec n j); [done|]. apply Z.testbit_neg_r. lia.
Qed.

(** [w & mask] when [c], which is all there is to see of [w] below [lim]. *)
Lemma testbit_cut (c : bool) w left j :
  0 <= left < 32 -> 0 <= j ->
  Z.testbit (if negb (left =? 0) && c then Z.land w (shl32 1 left - 1) else w) j =
  Z.testbit w j && (negb (negb (left =? 0) && c) || (j <? left)).
Proof.
  intros Hl Hj. destruct (negb (left =? 0) && c); simpl; [|by rewrite andb_true_r].
  rewrite Z.land_spec, testbit_ones_mask by done. done.
Qed.

Lemma cut_word (c : bool) w m : is_u32 w -> is_u32 (if c then Z.land w m else w).
Proof. intros Hw. destruct c; [by apply land_word|done]. Qed.

Section Shift.
Context (inplace : bool) (src : list Z) (s : nat -> Z) (off rem lim left : Z).
Context (Hoff : 0 <= off <= lim) (Hrem : 0 <= rem < 32) (Hleft : 0 <= left < 32) (Hs : forall k, is_u32 (s k)).

(** The source is the array [src], or what the destination was at first. *)
Definition reads (d : list Z) (k : nat) : Prop :=
  source inplace d src !! k = Some (s k).

(** The word [__bitmap_shift_left] makes of the words [k] and [k - 1]. *)
Definition left_word (k : nat) : Z :=
  let lower := if negb (rem =? 0) && (0 <? Z.of_nat k) then s (k - 1) else 0 in
  let upper := if negb (left =? 0) && (Z.of_nat k =? lim - 1) then Z.land (s k) (shl32 1 left - 1) else s k in
  let w := Z.lor (shr32 lower (32 - rem)) (shl32 upper rem) in
  if negb (left =? 0) && (Z.of_nat k + off =? lim - 1) then Z.land w (shl32 1 left - 1) else w.

Lemma left_word_range k : is_u32 (left_word k).
Proof.
  unfold left_word. apply cut_word. apply lor_word; [|apply u32_range].
  apply shr32_word; [|lia]. destruct (_ && _); [done|unfold is_u32; lia].
Qed.

Lemma reads_store d k w d' j :
  store_word d k w = Some d' -> j <> k -> reads d j -> reads d' j.
Proof.
  unfold reads, source, store_word. intros E Hne H. case_decide; [|done]. injection E as <-.
  destruct inplace; [|done]. by rewrite list_lookup_insert_ne.
Qed.

Lemma shift_left_loop_ok n : forall d,
  words d -> (Z.of_nat n + off <= zlen d) -> (forall j, (j < n)%nat -> reads d j) ->
  exists d', shift_left_loop inplace d src off rem lim left n = Some d' /\ words d' /\ length d' = length d /\
    forall j, wd d' j = if decide (off <= Z.of_nat j < off + Z.of_nat n) then left_word (j - Z.to_nat off) else wd d j.
Proof.
  induction n as [|k IH]; intros d Hw Hl Hr; cbn [shift_left_loop].
  { exists d. do 3 (split; [done|]). intros j. by rewrite decide_False by lia. }
  unfold shift_left_word, BITS_PER_LONG.
  assert (E1 : (if negb (rem =? 0) && (0 <? Z.of_nat k) then source inplace d src !! (k - 1)%nat else Some 0) =
    Some (if negb (rem =? 0) && (0 <? Z.of_nat k) then s (k - 1) else 0)).
  { destruct (_ && _) eqn:Ek; [|done]. apply andb_true_iff in Ek as [_ Ek%Z.ltb_lt]. apply (Hr (k - 1)%nat). lia. }
  rewrite E1. cbn [mbind option_bind]. rewrite (Hr k) by lia. cbn [mbind option_bind].
  fold (left_word k).
  destruct (store_word_ok d (Z.to_nat (Z.of_nat k + off)) (left_word k)) as (d1 & E & L1 & B1 & W1); [unfold zlen in Hl; lia|].
  rewrite E. cbn [mbind option_bind].
  destruct (IH d1) as (d2 & -> & W2 & L2 & B2).
  - apply W1; [done|apply left_word_range].
  - unfold zlen in *. lia.
  - intros j Hj. eapply reads_store; [exact E|lia|]. apply Hr. lia.
  - exists d2. split; [done|]. split; [done|]. split; [congruence|]. intros j. rewrite B2, B1.
    repeat case_decide; try lia; try done. f_equal. lia.
Qed.

Definition right_word (k : nat) : Z :=
  let here := off + Z.of_nat k in
  let upper := if (rem =? 0) || (lim <=? here + 1) then 0
    else if (here + 1 =? lim - 1) && negb (left =? 0) then Z.land (s (Z.to_nat (here + 1))) (shl32 1 left - 1)
    else s (Z.to_nat (here + 1)) in
  let lower := if negb (left =? 0) && (here =? lim - 1) then Z.land (s (Z.to_nat here)) (shl32 1 left - 1)
    else s (Z.to_nat here) in
  let w := Z.lor (shl32 upper (32 - rem)) (shr32 lower rem) in
  if negb (left =? 0) && (Z.of_nat k =? lim - 1) then Z.land w (shl32 1 left - 1) else w.

Lemma right_word_range k : is_u32 (right_word k).
Proof.
  unfold right_word. apply cut_word. apply lor_word; [apply u32_range|]. apply shr32_word; [|lia]. by apply cut_word.
Qed.

Lemma shift_right_loop_ok n : forall k d,
  words d -> (Z.of_nat k + Z.of_nat n + off <= lim) -> (k + n <= length d)%nat ->
  (forall j, (k <= j < Z.to_nat lim)%nat -> reads d j) ->
  exists d', shift_right_loop inplace d src off rem lim left k n = Some d' /\ words d' /\ length d' = length d /\
    forall j, wd d' j = if decide (k <= j < k + n)%nat then right_word j else wd d j.
Proof.
  induction n as [|n IH]; intros k d Hw Hl Hd Hr; cbn [shift_right_loop].
  { exists d. do 3 (split; [done|]). intros j. by rewrite decide_False by lia. }
  unfold shift_right_word, BITS_PER_LONG.
  assert (E1 : (if (rem =? 0) || (lim <=? off + Z.of_nat k + 1) then Some 0
     else u ← source inplace d src !! Z.to_nat (off + Z.of_nat k + 1);
          Some (if (off + Z.of_nat k + 1 =? lim - 1) && negb (left =? 0) then Z.land u (shl32 1 left - 1) else u)) =
    Some (if (rem =? 0) || (lim <=? off + Z.of_nat k + 1) then 0
      else if (off + Z.of_nat k + 1 =? lim - 1) && negb (left =? 0)
           then Z.land (s (Z.to_nat (off + Z.of_nat k + 1))) (shl32 1 left - 1) else s (Z.to_nat (off + Z.of_nat k + 1)))).
  { destruct (_ || _) eqn:Ek; [done|]. apply orb_false_iff in Ek as [_ Ek%Z.leb_gt].
    rewrite (Hr (Z.to_nat (off + Z.of_nat k + 1))) by lia. done. }
  rewrite E1. cbn [mbind option_bind]. rewrite (Hr (Z.to_nat (off + Z.of_nat k))) by lia. cbn [mbind option_bind].
  destruct (store_word_ok d k (right_word k)) as (d1 & E & L1 & B1 & W1); [lia|].
  fold (right_word k). rewrite E. cbn [mbind option_bind].
  destruct (IH (S k) d1) as (d2 & -> & W2 & L2 & B2).
  - apply W1; [done|apply right_word_range].
  - lia.
  - lia.
  - intros j Hj. eapply reads_store; [exact E|lia|]. apply Hr. lia.
  - exists d2. split; [done|]. split; [done|]. split; [congruence|]. intros j. rewrite B2, B1.
    repeat case_decide; try lia; by subst.
Qed.

(** The bits of the words made: [shift = 32 * off + rem], [bits] is the size. *)
Lemma left_word_bits bits k j :
  bits mod 32 = left -> 32 * lim - 32 < bits <= 32 * lim -> 0 <= j < 32 -> 32 * (Z.of_nat k + off) + j < bits ->
  Z.testbit (left_word k) j =
  (32 * off + rem <=? 32 * (Z.of_nat k + off) + j) && fbit s (32 * Z.of_nat k + j - rem).
Proof.
  intros Hm Hb Hj Hi.
  assert (Hfull : left = 0 -> bits = 32 * lim) by (pose proof (Z.div_mod bits 32 ltac:(lia)); lia).
  assert (Hpart : left <> 0 -> bits = 32 * (lim - 1) + left) by (pose proof (Z.div_mod bits 32 ltac:(lia)); lia).
  unfold left_word. rewrite testbit_cut by lia.
  assert (Hc : negb (negb (left =? 0) && (Z.of_nat k + off =? lim - 1)) || (j <? left) = true).
  { destruct (Z.eqb_spec left 0); [done|]. destruct (Z.eqb_spec (Z.of_nat k + off) (lim - 1)); [|done].
    apply orb_true_iff. right. apply Z.ltb_lt. specialize (Hpart n). lia. }
  rewrite Hc, andb_true_r, Z.lor_spec, testbit_shl32 by lia. unfold shr32. rewrite Z.shiftr_spec by lia.
  destruct (Z.leb_spec rem j) as [Hge|Hlt]; cbn [andb].
  - rewrite testbit_cut by lia. destruct (Z.leb_spec (32 * off + rem) (32 * (Z.of_nat k + off) + j)); [|lia].
    replace (32 * Z.of_nat k + j - rem) with (32 * Z.of_nat k + (j - rem)) by lia. rewrite fbit_at by lia.
    rewrite (testbit_high _ (j + (32 - rem))); [|destruct (negb (rem =? 0) && (0 <? Z.of_nat k)); [apply Hs|unfold is_u32; lia]|lia]. cbn [orb].
    destruct (Z.eqb_spec left 0); [apply andb_true_r|]. destruct (Z.eqb_spec (Z.of_nat k) (lim - 1)); [|apply andb_true_r].
    destruct (Z.ltb_spec (j - rem) left); [apply andb_true_r|]. specialize (Hpart n). lia.
  - rewrite orb_false_r. destruct (Z.eqb_spec rem 0); [lia|]. cbn [negb andb].
    destruct (Z.ltb_spec 0 (Z.of_nat k)); destruct (Z.leb_spec (32 * off + rem) (32 * (Z.of_nat k + off) + j)); try lia.
    + replace (32 * Z.of_nat k + j - rem) with (32 * Z.of_nat (k - 1) + (j + (32 - rem))) by lia. by rewrite fbit_at by lia.
    + apply Z.bits_0.
Qed.

Lemma right_word_bits bits k j :
  bits mod 32 = left -> 32 * lim - 32 < bits <= 32 * lim -> 0 <= j < 32 -> 32 * Z.of_nat k + j < bits ->
  Z.of_nat k + off < lim ->
  Z.testbit (right_word k) j =
  (32 * Z.of_nat k + j + (32 * off + rem) <? bits) && fbit s (32 * Z.of_nat k + j + (32 * off + rem)).
Proof.
  intros Hm Hb Hj Hi Hk.
  assert (Hfull : left = 0 -> bits = 32 * lim) by (pose proof (Z.div_mod bits 32 ltac:(lia)); lia).
  assert (Hpart : left <> 0 -> bits = 32 * (lim - 1) + left) by (pose proof (Z.div_mod bits 32 ltac:(lia)); lia).
  unfold right_word. rewrite testbit_cut by lia.
  assert (Hc : negb (negb (left =? 0) && (Z.of_nat k =? lim - 1)) || (j <? left) = true).
  { destruct (Z.eqb_spec left 0); [done|]. destruct (Z.eqb_spec (Z.of_nat k) (lim - 1)); [|done].
    apply orb_true_iff. right. apply Z.ltb_lt. specialize (Hpart n). lia. }
  rewrite Hc, andb_true_r, Z.lor_spec, testbit_shl32 by lia. unfold shr32. rewrite Z.shiftr_spec by lia.
  rewrite (testbit_cut _ (s (Z.to_nat (off + Z.of_nat k)))) by lia.
  destruct (Z.leb_spec (32 - rem) j) as [Hge|Hlt]; cbn [andb].
  - rewrite (testbit_high _ (j + rem)); [|apply Hs|lia]. cbn [andb]. rewrite orb_false_r.
    destruct (Z.eqb_spec rem 0); [lia|]. cbn [orb].
    destruct (Z.leb_spec lim (off + Z.of_nat k + 1)).
    { rewrite Z.bits_0. destruct (Z.ltb_spec (32 * Z.of_nat k + j + (32 * off + rem)) bits); [lia|done]. }
    rewrite (andb_comm (_ =? lim - 1)), testbit_cut by lia.
    replace (32 * Z.of_nat k + j + (32 * off + rem)) with (32 * Z.of_nat (Z.to_nat (off + Z.of_nat k + 1)) + (j - (32 - rem))) by lia.
    rewrite fbit_at by lia. rewrite andb_comm. f_equal.
    destruct (Z.eqb_spec left 0) as [E|E]; [specialize (Hfull E)|specialize (Hpart E)]; cbn [negb andb orb].
    + symmetry. apply Z.ltb_lt. lia.
    + destruct (Z.eqb_spec (off + Z.of_nat k + 1) (lim - 1)); cbn [negb orb].
      * apply eq_true_iff_eq. rewrite !Z.ltb_lt. lia.
      * symmetry. apply Z.ltb_lt. lia.
  - replace (32 * Z.of_nat k + j + (32 * off + rem)) with (32 * Z.of_nat (Z.to_nat (off + Z.of_nat k)) + (j + rem)) by lia.
    rewrite fbit_at by lia. cbn [orb]. rewrite andb_comm. f_equal.
    destruct (Z.eqb_spec left 0) as [E|E]; [specialize (Hfull E)|specialize (Hpart E)]; cbn [negb andb orb].
    + symmetry. apply Z.ltb_lt. lia.
    + destruct (Z.eqb_spec (off + Z.of_nat k) (lim - 1)); cbn [negb orb].
      * apply eq_true_iff_eq. rewrite !Z.ltb_lt. lia.
      * symmetry. apply Z.ltb_lt. lia.
Qed.

End Shift.

Lemma zero_words_ok d k n :
  (k + n <= length d)%nat -> words d ->
  exists d', zero_words d k n = Some d' /\ words d' /\ length d' = length d /\
    forall j, wd d' j = if decide (k <= j < k + n)%nat then 0 else wd d j.
Proof.
  intros Hl Hw. unfold zero_words.
  destruct (store_words_ok (fun _ => Some 0) (fun _ => 0) n k d 0) as (d' & r & -> & L & B & W & _); [done|done|].
  exists d'. simpl. split; [done|]. split; [apply W; [done|intros; unfold is_u32; lia]|done].
Qed.

(** What both shifts need of the sizes. *)
Lemma shift_sizes bits shift :
  0 < bits -> 0 <= shift -> shift / 32 <= Z.of_nat (BITS_TO_LONGS bits) ->
  0 <= shift / 32 <= Z.of_nat (BITS_TO_LONGS bits) /\ 0 <= shift mod 32 < 32 /\ 0 <= bits mod 32 < 32 /\
  32 * Z.of_nat (BITS_TO_LONGS bits) - 32 < bits <= 32 * Z.of_nat (BITS_TO_LONGS bits) /\
  shift = 32 * (shift / 32) + shift mod 32.
Proof.
  intros Hb Hs Hl. split; [split; [apply Z.div_pos; lia|done]|]. do 2 (split; [apply Z.mod_pos_bound; lia|]).
  split; [destruct (longs_bound bits ltac:(lia)); lia|]. apply Z.div_mod. lia.
Qed.

Lemma shift_reads inplace dst src bits :
  holds bits dst -> holds bits src -> forall j, (j < BITS_TO_LONGS bits)%nat ->
  reads inplace src (wd (source inplace dst src)) dst j.
Proof.
  intros Hd Hs j Hj. unfold reads, source. destruct inplace; by apply (holds_lookup bits).
Qed.

Lemma shift_left_ok inplace dst src shift bits :
  holds bits dst -> holds bits src -> 0 < bits -> 0 <= shift -> shift / 32 <= Z.of_nat (BITS_TO_LONGS bits) ->
  exists d, __bitmap_shift_left inplace dst src shift bits = Some d /\ holds bits d /\
    forall i, 0 <= i < bits -> bit d i = (shift <=? i) && bit (source inplace dst src) (i - shift).
Proof.
  intros Hd Hs Hb Hsh Hl. destruct (shift_sizes bits shift Hb Hsh Hl) as (S1 & S2 & S3 & S4 & S5).
  pose proof Hd as [Wd Ld]. pose proof Hs as [Ws Ls]. unfold __bitmap_shift_left, BITS_PER_LONG.
  set (lim := BITS_TO_LONGS bits) in *. set (off := shift / 32) in *. set (rem := shift mod 32) in *.
  assert (Hsw : forall k, is_u32 (wd (source inplace dst src) k)) by (intros k; apply wd_word; by destruct inplace).
  destruct (shift_left_loop_ok inplace src (wd (source inplace dst src)) off rem (Z.of_nat lim) (bits mod 32)
    S1 S2 Hsw (Z.to_nat (Z.of_nat lim - off)) dst) as (d1 & -> & W1 & L1 & B1);
    [done|unfold zlen in *; lia|intros j Hj; apply (shift_reads inplace dst src bits); [done|done|fold lim; lia]|].
  cbn [mbind option_bind].
  assert (Hz : exists d, (if negb (off =? 0) then zero_words d1 0 (Z.to_nat off) else Some d1) = Some d /\ words d /\
    length d = length dst /\ forall j, wd d j = if decide (Z.of_nat j < off) then 0 else wd d1 j).
  { destruct (Z.eqb_spec off 0) as [E|E]; cbn [negb].
    - exists d1. do 3 (split; [done|]). intros j. by rewrite decide_False by lia.
    - destruct (zero_words_ok d1 0 (Z.to_nat off)) as (d & -> & W & L & B); [unfold zlen in *; lia|done|].
      exists d. split; [done|]. split; [done|]. split; [congruence|]. intros j. rewrite B. repeat case_decide; lia || done. }
  destruct Hz as (d & -> & W & L & B). exists d. split; [done|]. split; [split; [done|unfold zlen in *; rewrite L; lia]|].
  intros i Hi. rewrite !bit_fbit. destruct (bit_split i ltac:(lia)) as (k & j & Hj & ->). rewrite fbit_at, B, B1 by done.
  case_decide as D1.
  - rewrite Z.bits_0. destruct (Z.leb_spec shift (32 * Z.of_nat k + j)); [lia|done].
  - rewrite decide_True by lia. rewrite (left_word_bits _ off rem _ _ S1 S2 S3 Hsw bits) by (done || lia).
    replace (Z.of_nat (k - Z.to_nat off) + off) with (Z.of_nat k) by lia. rewrite <- S5. do 2 f_equal. lia.
Qed.

Lemma shift_right_ok inplace dst src shift bits :
  holds bits dst -> holds bits src -> 0 < bits -> 0 <= shift -> shift / 32 <= Z.of_nat (BITS_TO_LONGS bits) ->
  exists d, __bitmap_shift_right inplace dst src shift bits = Some d /\ holds bits d /\
    forall i, 0 <= i < bits -> bit d i = (i + shift <? bits) && bit (source inplace dst src) (i + shift).
Proof.
  intros Hd Hs Hb Hsh Hl. destruct (shift_sizes bits shift Hb Hsh Hl) as (S1 & S2 & S3 & S4 & S5).
  pose proof Hd as [Wd Ld]. pose proof Hs as [Ws Ls]. unfold __bitmap_shift_right, BITS_PER_LONG.
  set (lim := BITS_TO_LONGS bits) in *. set (off := shift / 32) in *. set (rem := shift mod 32) in *.
  assert (Hsw : forall k, is_u32 (wd (source inplace dst src) k)) by (intros k; apply wd_word; by destruct inplace).
  destruct (shift_right_loop_ok inplace src (wd (source inplace dst src)) off rem (Z.of_nat lim) (bits mod 32)
    S1 S2 Hsw (Z.to_nat (Z.of_nat lim - off)) 0 dst) as (d1 & -> & W1 & L1 & B1);
    [done|lia|unfold zlen in *; lia|intros j Hj; apply (shift_reads inplace dst src bits); [done|done|fold lim; lia]|].
  cbn [mbind option_bind].
  assert (Hz : exists d, (if negb (off =? 0) then if off <=? Z.of_nat lim then
      zero_words d1 (Z.to_nat (Z.of_nat lim - off)) (Z.to_nat off) else None else Some d1) = Some d /\ words d /\
    length d = length dst /\ forall j, (j < lim)%nat -> wd d j = if decide (Z.of_nat j + off < Z.of_nat lim) then wd d1 j else 0).
  { destruct (Z.eqb_spec off 0) as [E|E]; cbn [negb].
    - exists d1. do 3 (split; [done|]). intros j Hj. by rewrite decide_True by lia.
    - destruct (Z.leb_spec off (Z.of_nat lim)); [|lia].
      destruct (zero_words_ok d1 (Z.to_nat (Z.of_nat lim - off)) (Z.to_nat off)) as (d & -> & W & L & B); [unfold zlen in *; lia|done|].
      exists d. split; [done|]. split; [done|]. split; [congruence|]. intros j Hj. rewrite B. repeat case_decide; lia || done. }
  destruct Hz as (d & -> & W & L & B). exists d. split; [done|]. split; [split; [done|unfold zlen in *; rewrite L; lia]|].
  intros i Hi. rewrite !bit_fbit. destruct (bit_split i ltac:(lia)) as (k & j & Hj & ->). rewrite fbit_at, B, B1 by (done || lia).
  case_decide as D1.
  - rewrite decide_True by lia. rewrite (right_word_bits _ off rem _ _ S1 S2 S3 Hsw bits) by (done || lia).
    by rewrite <- S5.
  - rewrite Z.bits_0. destruct (Z.ltb_spec (32 * Z.of_nat k + j + shift) bits); [lia|done].
Qed.

(** The shifts of a bitmap move every bit by [shift] positions, across words, feed in
    zeros and drop the bits that leave the size; the result is the same when the bitmap
    is shifted in place, although then the loop reads the array it is overwriting.  A
    shift may be as large as the array. *)
Theorem bitmap_shifts_correct inplace dst src shift bits :
  holds bits dst -> holds bits src -> 0 < bits -> 0 <= shift -> shift / 32 <= Z.of_nat (BITS_TO_LONGS bits) ->
  (exists d, __bitmap_shift_left inplace dst src shift bits = Some d /\ holds bits d /\
    forall i, 0 <= i < bits -> bit d i = (shift <=? i) && bit (if inplace then dst else src) (i - shift)) /\
  (exists d, __bitmap_shift_right inplace dst src shift bits = Some d /\ holds bits d /\
    forall i, 0 <= i < bits -> bit d i = (i + shift <? bits) && bit (if inplace then dst else src) (i + shift)).
Proof. intros. split; [by apply shift_left_ok|by apply shift_right_ok]. Qed.

Lemma bitmap_shifts_correct_witness :
  exists d, __bitmap_shift_left true [0x80000001; 3] [] 33 40 = Some d /\ bit d 33 = true.
Proof.
  destruct (bitmap_shifts_correct true [0x80000001; 3] [0; 0] 33 40) as ((d & E & _ & B) & _);
    [split; [repeat constructor; lia|done]..|lia|lia|done|].
  exists d. split; [exact E|]. rewrite B by lia. reflexivity.
Defined.

(** ** Aligned regions *)

Lemma reg_words_ok f : forall n b k,
  (k + n <= length b)%nat -> words b -> (forall w, is_u32 w -> is_u32 (f w)) ->
  exists d, reg_words f b k n = Some d /\ words d /\ length d = length b /\
    forall j, wd d j = if decide (k <= j < k + n)%nat then f (wd b j) else wd b j.
Proof.
  induction n as [|n IH]; intros b k Hl Hw Hf; cbn [reg_words].
  { exists b. do 3 (split; [done|]). intros j. by rewrite decide_False by lia. }
  rewrite (lookup_wd b k) by lia. cbn [mbind option_bind].
  destruct (store_word_ok b k (f (wd b k)) ltac:(lia)) as (d1 & -> & L1 & B1 & W1). cbn [mbind option_bind].
  destruct (IH d1 (S k)) as (d & -> & W & L & B); [lia|apply W1; [done|by apply Hf, wd_word]|done|].
  exists d. split; [done|]. split; [done|]. split; [congruence|]. intros j. rewrite B, !B1.
  repeat case_decide; subst; done || lia.
Qed.

(** The region of [2 ^ order] bits at [pos]. *)
Definition in_region (pos order i : Z) : bool := (pos <=? i) && (i <? pos + 2 ^ order).

Definition region_mask (pos order : Z) : Z :=
  let m := shl32 1 (Z.min (Z.shiftl 1 order) 32 - 1) in shl32 (u32 (m + (m - 1))) (pos - pos / 32 * 32).

Lemma region_mask_ones m : 1 <= m <= 32 -> u32 (shl32 1 (m - 1) + (shl32 1 (m - 1) - 1)) = Z.ones m.
Proof.
  intros Hm. unfold shl32. rewrite Z.shiftl_1_l.
  assert (0 < 2 ^ (m - 1) <= 2 ^ 31) by (split; [apply Z.pow_pos_nonneg; lia|apply Z.pow_le_mono_r; lia]).
  rewrite (u32_id (2 ^ (m - 1))) by (unfold is_u32; lia). rewrite Z.ones_equiv.
  replace (2 ^ m) with (2 * 2 ^ (m - 1)) by (rewrite <- Z.pow_succ_r by lia; f_equal; lia).
  rewrite u32_id by (unfold is_u32; lia). lia.
Qed.

(** The sizes that [__reg_op] computes: one word, or whole words. *)
Lemma region_words pos order :
  0 <= order <= 30 -> 0 <= pos -> pos mod 2 ^ order = 0 ->
  let k := Z.to_nat (pos / 32) in let n := BITS_TO_LONGS (Z.shiftl 1 order) in
  32 * Z.of_nat k <= pos /\ pos + 2 ^ order <= 32 * Z.of_nat (k + n) /\ is_u32 (region_mask pos order) /\
  (forall j i, (k <= j < k + n)%nat -> 0 <= i < 32 -> Z.testbit (region_mask pos order) i = in_region pos order (32 * Z.of_nat j + i)) /\
  (forall i, in_region pos order i = true -> 32 * Z.of_nat k <= i < 32 * Z.of_nat (k + n)).
Proof.
  intros Ho Hp Ha. cbv zeta. unfold region_mask, in_region. rewrite Z.shiftl_1_l.
  assert (H2 : 0 < 2 ^ order) by (apply Z.pow_pos_nonneg; lia).
  pose proof (Z.div_mod pos 32 ltac:(lia)) as Hdm. pose proof (Z.mod_pos_bound pos 32 ltac:(lia)) as Hm.
  set (q := pos / 32) in *. assert (Hq : 0 <= q) by (apply Z.div_pos; lia).
  destruct (Z.le_gt_cases 5 order) as [H5|H5].
  - assert (E : 2 ^ order = 32 * 2 ^ (order - 5)) by (change 32 with (2 ^ 5); rewrite <- Z.pow_add_r by lia; f_equal; lia).
    assert (0 < 2 ^ (order - 5)) by (apply Z.pow_pos_nonneg; lia).
    assert (Hp32 : pos mod 32 = 0).
    { apply Z.mod_divide; [lia|]. apply Z.mod_divide in Ha; [|lia]. destruct Ha as [c Hc]. exists (c * 2 ^ (order - 5)). lia. }
    assert (En : BITS_TO_LONGS (2 ^ order) = Z.to_nat (2 ^ (order - 5))).
    { unfold BITS_TO_LONGS, BITS_PER_LONG. f_equal. symmetry. apply Z.div_unique with 31; lia. }
    rewrite En, Z.min_r by lia. rewrite region_mask_ones by lia. replace (pos - q * 32) with 0 by lia.
    assert (Em : shl32 (Z.ones 32) 0 = not32 0) by reflexivity. rewrite Em.
    split; [lia|]. split; [lia|]. split; [apply not32_range|]. split.
    + intros j i Hj Hi. rewrite testbit_ones32 by lia.
      destruct (Z.ltb_spec i 32), (Z.leb_spec pos (32 * Z.of_nat j + i)), (Z.ltb_spec (32 * Z.of_nat j + i) (pos + 2 ^ order)); done || lia.
    + intros i Hi. apply andb_true_iff in Hi as [?%Z.leb_le ?%Z.ltb_lt]. lia.
  - assert (Hlt : 2 ^ order <= 16) by (change 16 with (2 ^ 4); apply Z.pow_le_mono_r; lia).
    assert (En : BITS_TO_LONGS (2 ^ order) = 1%nat).
    { unfold BITS_TO_LONGS, BITS_PER_LONG. assert ((2 ^ order + 32 - 1) / 32 = 1) as ->; [|done].
      symmetry. apply Z.div_unique with (2 ^ order - 1); lia. }
    assert (Hfit : pos mod 32 + 2 ^ order <= 32).
    { assert (H32 : (2 ^ order | 32)).
      { exists (2 ^ (5 - order)). change 32 with (2 ^ 5). rewrite <- Z.pow_add_r by lia. f_equal. lia. }
      assert (Hd : (2 ^ order | pos mod 32)).
      { apply Z.mod_divide in Ha; [|lia]. apply Z.mod_divide; [lia|]. rewrite Z.mod_mod_divide by done.
        by apply Z.mod_divide; [lia|]. }
      destruct Hd as [c Hc], H32 as [e He].
      assert (c < e) by nia. nia. }
    rewrite En, Z.min_l by lia. rewrite region_mask_ones by lia. replace (pos - q * 32) with (pos mod 32) by lia.
    split; [lia|]. split; [lia|]. split; [apply u32_range|]. split.
    + intros j i Hj Hi. assert (Z.of_nat j = q) by lia. rewrite testbit_shl32 by lia.
      destruct (Z.leb_spec (pos mod 32) i), (Z.leb_spec pos (32 * Z.of_nat j + i)); try lia; try done.
      destruct (Z.ltb_spec (32 * Z.of_nat j + i) (pos + 2 ^ order)); cbn [andb];
        [apply Z.ones_spec_low; lia|apply Z.ones_spec_high; lia].
    + intros i Hi. apply andb_true_iff in Hi as [?%Z.leb_le ?%Z.ltb_lt]. lia.
Qed.

Lemma region_fits b bits pos order :
  holds bits b -> 0 <= order <= 30 -> 0 <= pos -> pos mod 2 ^ order = 0 -> pos + 2 ^ order <= bits ->
  (Z.to_nat (pos / 32) + BITS_TO_LONGS (Z.shiftl 1 order) <= length b)%nat.
Proof.
  intros [_ Hl] Ho Hp Ha Hfit. unfold zlen in Hl. rewrite Z.shiftl_1_l.
  assert (H2 : 0 < 2 ^ order) by (apply Z.pow_pos_nonneg; lia).
  pose proof (Z.div_mod pos 32 ltac:(lia)) as Hdm. pose proof (Z.mod_pos_bound pos 32 ltac:(lia)) as Hm.
  assert (Hq : 0 <= pos / 32) by (apply Z.div_pos; lia).
  destruct (longs_bound (2 ^ order) ltac:(lia)) as [Hb|[? _]]; [|lia].
  destruct (Z.le_gt_cases 5 order) as [H5|H5].
  - assert (Hp32 : pos mod 32 = 0).
    { apply Z.mod_divide; [lia|]. apply Z.mod_divide in Ha; [|lia]. destruct Ha as [c Hc]. exists (c * 2 ^ (order - 5)).
      rewrite <- Z.mul_assoc. change 32 with (2 ^ 5). rewrite <- Z.pow_add_r by lia. rewrite Hc. do 2 f_equal. lia. }
    assert (H32 : (2 ^ order) mod 32 = 0).
    { apply Z.mod_divide; [lia|]. exists (2 ^ (order - 5)). change 32 with (2 ^ 5). rewrite <- Z.pow_add_r by lia. f_equal. lia. }
    pose proof (Z.div_mod (2 ^ order) 32 ltac:(lia)). lia.
  - assert (2 ^ order <= 16) by (change 16 with (2 ^ 4); apply Z.pow_le_mono_r; lia). lia.
Qed.

(** [__reg_op] looks at, sets or clears exactly the bits of the region. *)
Lemma reg_op_ok b bits pos order :
  holds bits b -> 0 <= order <= 30 -> 0 <= pos -> pos mod 2 ^ order = 0 -> pos + 2 ^ order <= bits ->
  (exists r, __reg_op b pos order REG_OP_ISFREE = Some (b, r) /\
     (r <> 0 <-> forall i, in_region pos order i = true -> bit b i = false)) /\
  (exists d, __reg_op b pos order REG_OP_ALLOC = Some (d, 0) /\ holds bits d /\
     forall i, 0 <= i -> bit d i = bit b i || in_region pos order i) /\
  (exists d, __reg_op b pos order REG_OP_RELEASE = Some (d, 0) /\ holds bits d /\
     forall i, 0 <= i -> bit d i = bit b i && negb (in_region pos order i)).
Proof.
  intros [Hw Hl] Ho Hp Ha Hfit.
  destruct (region_words pos order Ho Hp Ha) as (R1 & R2 & R3 & R4 & R5).
  unfold __reg_op, BITS_PER_LONG. rewrite (proj2 (Z.ltb_ge pos 0) Hp). fold (region_mask pos order).
  set (k := Z.to_nat (pos / 32)) in *. set (n := BITS_TO_LONGS (Z.shiftl 1 order)) in *.
  set (mask := region_mask pos order) in *. clearbody mask.
  assert (Hkn : (k + n <= length b)%nat) by (apply (region_fits b bits pos order); done).
  assert (Hlast : forall f opb, (forall w, is_u32 w -> is_u32 (f w)) ->
    (forall w j, is_u32 w -> 0 <= j < 32 -> Z.testbit (f w) j = opb (Z.testbit w j) (Z.testbit mask j)) ->
    (forall c, opb c false = c) ->
    exists d, reg_words f b k n = Some d /\ holds bits d /\
      forall i, 0 <= i -> bit d i = opb (bit b i) (in_region pos order i)).
  { intros f opb Hf Hb H0. destruct (reg_words_ok f n b k Hkn Hw Hf) as (d & -> & W & L & B). exists d. split; [done|].
    split; [split; [done|unfold zlen in *; rewrite L; lia]|]. intros i Hi. rewrite !bit_fbit.
    destruct (bit_split i Hi) as (m & j & Hj & ->). rewrite !fbit_at, B by done. case_decide as D.
    - rewrite Hb by (done || by apply wd_word). by rewrite (R4 m j).
    - destruct (in_region pos order (32 * Z.of_nat m + j)) eqn:E; [|done]. apply R5 in E. lia. }
  split; [|split].
  - destruct (any_word_ok (fun k => w ← b !! k; Some (Z.land w mask)) (fun k => Z.land (wd b k) mask) n k) as (r & -> & Hr).
    { intros j Hj. by rewrite lookup_wd by lia. }
    cbn [mbind option_bind]. eexists. split; [done|]. transitivity (r = false); [by destruct r|].
    rewrite <- not_true_iff_false, Hr. split.
    + intros Hn i Hi. apply not_true_iff_false. intros Hb. apply Hn. pose proof (R5 i Hi).
      destruct (bit_split i ltac:(lia)) as (m & j & Hj & ->). exists m. split; [lia|]. rewrite bit_fbit, fbit_at in Hb by done.
      apply word_some_bit; [by apply land_word, wd_word|]. exists j. split; [done|]. rewrite Z.land_spec, Hb, (R4 m j); [done|lia|done].
    + intros Hno (m & Hm & Hnz). apply word_some_bit in Hnz as (j & Hj & Hb); [|by apply land_word, wd_word].
      rewrite Z.land_spec, (R4 m j) in Hb by done. apply andb_true_iff in Hb as [Hb1 Hb2].
      specialize (Hno _ Hb2). by rewrite bit_fbit, fbit_at, Hb1 in Hno.
  - destruct (Hlast (fun w => Z.lor w mask) orb) as (d & -> & Hh & B).
    + intros w Hwu. by apply lor_word.
    + intros w j _ _. apply Z.lor_spec.
    + apply orb_false_r.
    + by exists d.
  - destruct (Hlast (fun w => Z.land w (not32 mask)) (fun a b => a && negb b)) as (d & -> & Hh & B).
    + intros w Hwu. by apply land_word.
    + intros w j _ Hj. by rewrite Z.land_spec, testbit_not32.
    + intros c. apply andb_true_r.
    + by exists d.
Qed.

(** The region at [p] is all clear. *)
Definition region_free (b : list Z) (p order : Z) : Prop := forall i, in_region p order i = true -> bit b i = false.

Lemma find_region_loop_ok b bits order fuel : forall pos,
  holds bits b -> 0 <= order <= 30 -> bits + 2 ^ order < 2 ^ 31 ->
  0 <= pos <= bits -> pos mod 2 ^ order = 0 -> bits < pos + Z.of_nat fuel ->
  exists d r, find_region_loop fuel b bits order pos = Some (d, r) /\
    ((r = - ENOMEM /\ d = b /\
      forall p, pos <= p -> p mod 2 ^ order = 0 -> p + 2 ^ order <= bits -> ~ region_free b p order) \/
     (pos <= r /\ r mod 2 ^ order = 0 /\ r + 2 ^ order <= bits /\ region_free b r order /\
      (forall p, pos <= p < r -> p mod 2 ^ order = 0 -> ~ region_free b p order) /\ holds bits d /\
      forall i, 0 <= i -> bit d i = bit b i || in_region r order i)).
Proof.
  induction fuel as [|fuel IH]; intros pos Hh Ho Hb [Hp Hpb] Ha Hf; cbn [find_region_loop]; rewrite Z.shiftl_1_l;
    assert (H2 : 0 < 2 ^ order) by (apply Z.pow_pos_nonneg; lia); rewrite s32_id by lia; destruct (Z.leb_spec (pos + 2 ^ order) bits); try lia.
  2: exists b, (- ENOMEM); split; [done|]; left; do 2 (split; [done|]); intros p Hp1 Hp2 Hp3; lia.
  destruct (reg_op_ok b bits pos order) as ((r & -> & Hr) & (d & E2 & Hd & Bd) & _); try done. cbn [mbind option_bind].
  destruct (Z.eqb_spec r 0) as [->|Hnz].
  - destruct (IH (pos + 2 ^ order)) as (d' & r' & -> & Hres); [done|done|done|lia| |lia|].
    { rewrite Z.add_mod, Ha, Z.mod_same by lia. by rewrite Z.mod_0_l by lia. }
    assert (Hnot : forall p, pos <= p < pos + 2 ^ order -> p mod 2 ^ order = 0 -> ~ region_free b p order).
    { intros p Hp1 Hp2. replace p with pos; [intros Hfree; by apply Hr in Hfree|].
      apply Z.mod_divide in Hp2 as [c Hc]; [|lia]. apply Z.mod_divide in Ha as [e He]; [|lia]. assert (c = e) by nia. lia. }
    exists d', r'. split; [done|]. destruct Hres as [(-> & -> & Hn)|(H1 & H3 & H4 & H5 & H6 & H7 & H8)]; [left|right].
    + do 2 (split; [done|]). intros p Hp1 Hp2 Hp3.
      destruct (Z.lt_ge_cases p (pos + 2 ^ order)); [apply Hnot; [lia|done]|by apply Hn].
    + split; [lia|]. do 3 (split; [done|]). split; [|done]. intros p Hp1 Hp2.
      destruct (Z.lt_ge_cases p (pos + 2 ^ order)); [apply Hnot; [lia|done]|apply H6; [lia|done]].
  - rewrite E2. cbn [mbind option_bind]. exists d, pos. split; [done|]. right. split; [lia|]. do 2 (split; [done|]).
    split; [exact (proj1 Hr Hnz)|]. split; [lia|]. done.
Qed.

Lemma allocate_region_ok b bits pos order :
  holds bits b -> 0 <= order <= 30 -> 0 <= pos -> pos mod 2 ^ order = 0 -> pos + 2 ^ order <= bits ->
  (~ region_free b pos order /\ bitmap_allocate_region b pos order = Some (b, - EBUSY)) \/
  (region_free b pos order /\ exists d, bitmap_allocate_region b pos order = Some (d, 0) /\
     forall i, 0 <= i -> bit d i = bit b i || in_region pos order i).
Proof.
  intros Hh Ho Hp Ha Hf. destruct (reg_op_ok b bits pos order) as ((r & E1 & Hr) & (d & E2 & _ & B) & _); try done.
  unfold bitmap_allocate_region. rewrite E1. cbn [mbind option_bind]. destruct (Z.eqb_spec r 0) as [->|Hnz].
  - left. split; [|done]. intros H. by apply (proj2 Hr).
  - right. split; [exact (proj1 Hr Hnz)|]. rewrite E2. by exists d.
Qed.

(** Where the end of a region does not fit an [int] it wraps to a negative number, which
    is below [bits]: in a bitmap of [2^30] bits of which the first is set, the search
    for a region of that size goes on to look at the word after the bitmap. *)
Lemma find_region_wraps b :
  words b -> zlen b = 2 ^ 25 -> bit b 0 = true -> bitmap_find_free_region b (2 ^ 30) 30 = None.
Proof.
  intros Hw Hl H0.
  assert (Hh : holds (2 ^ 30) b) by (split; [done|rewrite Hl; lia]).
  destruct (reg_op_ok b (2 ^ 30) 0 30) as ((r & E & Hr) & _); [done|lia|lia|done|lia|].
  assert (r = 0) as ->.
  { destruct (Z.eqb_spec r 0) as [|Hnz]; [done|]. rewrite (proj1 Hr Hnz 0 eq_refl) in H0. done. }
  unfold bitmap_find_free_region. destruct (Z.to_nat (2 ^ 30)) as [|fuel] eqn:Ef; [lia|].
  cbn [find_region_loop]. rewrite E.
  change (s32 (0 + Z.shiftl 1 30)) with (2 ^ 30). rewrite Z.leb_refl.
  cbn [mbind option_bind]. rewrite Z.eqb_refl.
  change (s32 (2 ^ 30 + Z.shiftl 1 30)) with (- 2 ^ 31).
  replace (- 2 ^ 31 <=? 2 ^ 30) with true by done.
  assert (Hnone : b !! Z.to_nat (2 ^ 25) = None) by (apply lookup_ge_None; unfold zlen in Hl; lia).
  assert (E2 : __reg_op b (2 ^ 30) 30 REG_OP_ISFREE = None); [|by rewrite E2].
  unfold __reg_op. replace (2 ^ 30 <? 0) with false by done.
  change (2 ^ 30 / BITS_PER_LONG) with (2 ^ 25).
  assert (Ei : exists n, BITS_TO_LONGS (Z.shiftl 1 30) = S n).
  { exists (Z.to_nat (2 ^ 25 - 1)). unfold BITS_TO_LONGS, BITS_PER_LONG.
    change ((Z.shiftl 1 30 + 32 - 1) / 32) with (2 ^ 25). lia. }
  destruct Ei as [n ->]. cbn [any_word]. by rewrite Hnone.
Qed.

(** C36. The region allocator: [bitmap_find_free_region] returns the lowest position,
    aligned to the region's size, at which a free region of [2^order] bits lies within
    the bitmap, and marks exactly that region; it returns [-ENOMEM], and changes nothing,
    only when there is no such position.  [bitmap_release_region] of the result gives
    back every bit as it was.  [bitmap_allocate_region] at an aligned position marks
    exactly that region when it is free and otherwise returns [-EBUSY] and changes
    nothing.  The search computes the end of a region as an [int]: the bitmap is small
    enough ([bits + 2^order] below [2^31]) that the sum does not wrap, without which
    the search goes on past the bitmap ([find_region_wraps]). *)
Theorem region_allocator_correct b bits order :
  holds bits b -> 0 <= order <= 30 -> bits + 2 ^ order < 2 ^ 31 ->
  (exists d r, bitmap_find_free_region b bits order = Some (d, r) /\
    ((r = - ENOMEM /\ d = b /\
      forall p, 0 <= p -> p mod 2 ^ order = 0 -> p + 2 ^ order <= bits -> ~ region_free b p order) \/
     (0 <= r /\ r mod 2 ^ order = 0 /\ r + 2 ^ order <= bits /\ region_free b r order /\
      (forall p, 0 <= p < r -> p mod 2 ^ order = 0 -> ~ region_free b p order) /\
      (forall i, 0 <= i -> bit d i = bit b i || in_region r order i) /\
      exists d', bitmap_release_region d r order = Some d' /\ forall i, 0 <= i -> bit d' i = bit b i))) /\
  forall pos, 0 <= pos -> pos mod 2 ^ order = 0 -> pos + 2 ^ order <= bits ->
    (~ region_free b pos order /\ bitmap_allocate_region b pos order = Some (b, - EBUSY)) \/
    (region_free b pos order /\ exists d, bitmap_allocate_region b pos order = Some (d, 0) /\
       forall i, 0 <= i -> bit d i = bit b i || in_region pos order i).
Proof.
  intros Hh Ho Hb. split; [|by intros; apply (allocate_region_ok b bits)].
  pose proof Hh as [_ Hl]. assert (H2 : 0 < 2 ^ order) by (apply Z.pow_pos_nonneg; lia).
  destruct (find_region_loop_ok b bits order (S (Z.to_nat bits)) 0) as (d & r & E & Hres);
    [done|done|done|lia|by rewrite Z.mod_0_l by lia|lia|].
  exists d, r. split; [done|]. destruct Hres as [?|(H1 & H3 & H4 & H5 & H6 & H7 & H8)]; [by left|right].
  do 6 (split; [done|]). destruct (reg_op_ok d bits r order) as (_ & _ & (d' & E' & _ & B')); try done.
  exists d'. unfold bitmap_release_region. rewrite E'. split; [done|]. intros i Hi. rewrite B', H8 by done.
  destruct (in_region r order i) eqn:Er; [|by rewrite orb_false_r, andb_true_r].
  rewrite andb_false_r. symmetry. by apply H5.
Qed.

Lemma region_allocator_correct_witness :
  exists d, bitmap_find_free_region [0x1F; 0] 40 3 = Some (d, 8) /\ holds 40 [0x1F; 0].
Proof.
  assert (Hh : holds 40 [0x1F; 0]) by (split; [repeat constructor; lia|done]).
  destruct (region_allocator_correct [0x1F; 0] 40 3) as [(d & r & E & _) _]; [exact Hh|lia|lia|].
  assert (E' : exists d, bitmap_find_free_region [0x1F; 0] 40 3 = Some (d, 8)) by (eexists; reflexivity).
  destruct E' as [d' E']. exists d'. split; [exact E'|exact Hh].
Defined.

(** ** Single bits *)

Lemma bit_word_index nr (addr : list Z) :
  0 <= nr < 32 * zlen addr -> exists k j, BIT_WORD nr = k /\ nr mod 32 = j /\ (k < length addr)%nat /\ 0 <= j < 32 /\
    nr = 32 * Z.of_nat k + j.
Proof.
  intros Hn. unfold BIT_WORD, BITS_PER_LONG, zlen in *. eexists _, _. do 2 (split; [done|]).
  pose proof (Z.div_mod nr 32 ltac:(lia)). pose proof (Z.mod_pos_bound nr 32 ltac:(lia)).
  assert (0 <= nr / 32) by (apply Z.div_pos; lia). lia.
Qed.

Lemma testbit_BIT_MASK nr j : 0 <= j < 32 -> Z.testbit (BIT_MASK nr) j = (j =? nr mod 32).
Proof.
  intros Hj. unfold BIT_MASK, BITS_PER_LONG. pose proof (Z.mod_pos_bound nr 32 ltac:(lia)). rewrite testbit_shl32 by lia.
  destruct (Z.leb_spec (nr mod 32) j), (Z.eqb_spec j (nr mod 32)); try lia; try done.
  - subst j. by rewrite Z.sub_diag.
  - destruct (j - nr mod 32) eqn:E; [lia|by destruct p|lia].
Qed.

Lemma set_bit_ok nr addr bits :
  holds bits addr -> 0 <= nr < bits ->
  exists d, set_bit nr addr = Some d /\ holds bits d /\ forall i, 0 <= i -> bit d i = bit addr i || (i =? nr).
Proof.
  intros [Hw Hl] Hn. destruct (bit_word_index nr addr ltac:(lia)) as (k & j & Ek & Ej & Hk & Hj & E).
  unfold set_bit. rewrite Ek, lookup_wd by done. cbn [mbind option_bind].
  destruct (store_word_ok addr k (Z.lor (wd addr k) (BIT_MASK nr)) Hk) as (d & -> & L & B & W). exists d. split; [done|].
  split; [split; [apply W; [done|apply lor_word; [by apply wd_word|apply u32_range]]|unfold zlen in *; rewrite L; lia]|].
  intros i Hi. rewrite !bit_fbit. destruct (bit_split i Hi) as (m & n & Hm & ->). rewrite !fbit_at, B by done.
  case_decide as D.
  - subst m. rewrite Z.lor_spec, testbit_BIT_MASK, Ej by done. f_equal. apply eq_true_iff_eq. rewrite !Z.eqb_eq. lia.
  - destruct (Z.eqb_spec (32 * Z.of_nat m + n) nr); [lia|by rewrite orb_false_r].
Qed.

Lemma test_bit_ok nr addr bits : holds bits addr -> 0 <= nr < bits -> test_bit nr addr = Some (bit addr nr).
Proof.
  intros [Hw Hl] Hn. destruct (bit_word_index nr addr ltac:(lia)) as (k & j & Ek & Ej & Hk & Hj & E).
  unfold test_bit. rewrite Ek, lookup_wd by done. cbn [mbind option_bind]. f_equal.
  unfold BITS_PER_LONG. change (32 - 1) with (Z.ones 5). rewrite Z.land_ones by lia. change (2 ^ 5) with 32. rewrite Ej.
  rewrite bit_fbit, E, fbit_at by done. rewrite Z.land_comm. change 1 with (Z.ones 1). rewrite Z.land_ones by lia.
  change (2 ^ 1) with 2. rewrite <- Z.bit0_mod. unfold shr32. rewrite Z.shiftr_spec, Z.add_0_l by lia.
  by destruct (Z.testbit (wd addr k) j).
Qed.

Lemma bitmap_zero_ok dst bits :
  holds bits dst -> exists d, bitmap_zero dst bits = Some d /\ holds bits d /\ forall i, 0 <= i < bits -> bit d i = false.
Proof.
  intros Hd. unfold bitmap_zero, zero_words.
  destruct (assign_ok (fun _ => Some 0) (fun _ => 0) dst bits Hd) as (d & r & -> & Hh & B & _ & _);
    [done|intros; unfold is_u32; lia|]. exists d. split; [done|]. split; [done|]. intros i Hi. rewrite B by done. apply Z.bits_0.
Qed.

(** ** Ordinals *)

Lemma count_first_in f a b r : 0 <= a -> first_in f a b r -> count f (Z.to_nat r) = count f (Z.to_nat a).
Proof.
  intros Ha (H1 & H2 & _). replace (Z.to_nat r) with (Z.to_nat a + Z.to_nat (r - a))%nat by lia. rewrite count_split.
  rewrite (count_ext (fun i => f (Z.of_nat (Z.to_nat a) + i)) (fun _ => false)) by (intros i Hi; apply H2; lia).
  assert (Hz : forall n, count (fun _ => false) n = 0) by (induction n as [|n IH]; [done|]; simpl; by rewrite IH).
  rewrite Hz. lia.
Qed.

Lemma count_succ f i : 0 <= i -> count f (Z.to_nat (i + 1)) = count f (Z.to_nat i) + b2z (f i).
Proof. intros Hi. replace (Z.to_nat (i + 1)) with (S (Z.to_nat i)) by lia. cbn [count]. by rewrite Z2Nat.id. Qed.

Section RemapSpec.
Context {BF : BitFinder} (bits : Z) (Hbits : 0 < bits < 2 ^ 31).

Lemma next_ok b i :
  holds bits b -> 0 <= i <= bits ->
  exists r, bf_next b bits i = Some r /\ first_in (bit b) i bits r.
Proof.
  intros [Hw Hl] Hi. destruct (bf_next_spec b bits i) as (r & E & Hr); [done|lia|unfold is_u32; lia|apply Hl|].
  exists r. split; [done|]. destruct (Z.leb_spec bits i); [|done]. subst r. assert (i = bits) by lia. subst i.
  split; [lia|]. split; intros; lia.
Qed.

Lemma first_ok b : holds bits b -> exists r, bf_first b bits = Some r /\ first_in (bit b) 0 bits r.
Proof. intros [Hw Hl]. apply bf_first_spec; [done|unfold is_u32; lia|apply Hl]. Qed.

(** A rule for the loops over the set bits: [P i a] holds when the bits below [i] have
    been visited. *)
Lemma for_each_bit_inv {A} (P : Z -> A -> Prop) b (body : Z -> A -> option A) fuel : forall i0 i a,
  holds bits b -> 0 <= i0 <= i -> i <= bits -> bits <= i + Z.of_nat fuel -> first_in (bit b) i0 bits i -> P i0 a ->
  (forall i j a, 0 <= i <= j -> j <= bits -> (forall k, i <= k < j -> bit b k = false) -> P i a -> P j a) ->
  (forall i a, 0 <= i < bits -> bit b i = true -> P i a -> exists a', body i a = Some a' /\ P (i + 1) a') ->
  exists a', for_each_bit fuel b bits i body a = Some a' /\ P bits a'.
Proof.
  induction fuel as [|fuel IH]; intros i0 i a Hh H0 Hi Hf Hfi HP Hskip Hbody; cbn [for_each_bit];
    destruct Hfi as (F1 & F2 & F3); destruct (Z.ltb_spec i bits); try lia.
  1, 3: assert (i = bits) by lia; subst i; exists a; split; [done|]; eapply Hskip; [| |exact F2|exact HP]; lia.
  assert (HPi : P i a) by (eapply Hskip; [| |exact F2|exact HP]; lia).
  destruct (Hbody i a ltac:(lia) (F3 ltac:(lia)) HPi) as (a' & -> & HP'). cbn [mbind option_bind].
  destruct (next_ok b (i + 1) Hh ltac:(lia)) as (r & -> & Hr). cbn [mbind option_bind].
  pose proof Hr as (R1 & _). apply (IH (i + 1)); try done; lia.
Qed.

Lemma pos_to_ord_loop_ok b pos fuel : forall i ord,
  holds bits b -> 0 <= i <= pos -> pos < bits -> bit b pos = true -> bit b i = true -> ord = count (bit b) (Z.to_nat i) ->
  pos - i <= Z.of_nat fuel ->
  pos_to_ord_loop fuel b pos bits i ord = Some (pos, count (bit b) (Z.to_nat pos)).
Proof.
  induction fuel as [|fuel IH]; intros i ord Hh Hi Hp Hbp Hbi -> Hf; cbn [pos_to_ord_loop];
    destruct (Z.ltb_spec i pos); try lia.
  1, 3: assert (i = pos) by lia; by subst.
  destruct (next_ok b (i + 1) Hh ltac:(lia)) as (r & -> & Hr). cbn [mbind option_bind].
  pose proof (count_first_in (bit b) (i + 1) bits r ltac:(lia) Hr) as Hc. destruct Hr as (R1 & R2 & R3).
  assert (r <= pos).
  { destruct (Z.le_gt_cases r pos); [done|]. rewrite R2 in Hbp by lia. done. }
  apply IH; [done|lia|done|done|apply R3; lia| |lia].
  rewrite Hc, count_succ by lia. rewrite Hbi. done.
Qed.

Lemma pos_to_ord_ok b pos :
  holds bits b ->
  bitmap_pos_to_ord b pos bits =
  Some (if (0 <=? pos) && (pos <? bits) && bit b pos then count (bit b) (Z.to_nat pos) else -1).
Proof.
  intros Hh. unfold bitmap_pos_to_ord.
  destruct (Z.ltb_spec pos 0), (Z.leb_spec bits pos), (Z.leb_spec 0 pos), (Z.ltb_spec pos bits); try lia; try done. simpl.
  rewrite (test_bit_ok pos b bits) by (done || lia). cbn [mbind option_bind]. destruct (bit b pos) eqn:Hb; [|done]. cbn [negb].
  destruct (first_ok b Hh) as (i & -> & Hi). cbn [mbind option_bind].
  pose proof (count_first_in (bit b) 0 bits i ltac:(lia) Hi) as Hc. destruct Hi as (I1 & I2 & I3).
  assert (i <= pos) by (destruct (Z.le_gt_cases i pos); [done|]; rewrite I2 in Hb by lia; done).
  rewrite (pos_to_ord_loop_ok b pos) by (done || lia || apply I3; lia). cbn [mbind option_bind]. by rewrite Z.eqb_refl.
Qed.
(** [p] is the position of the set bit with ordinal [n]. *)
Definition nth_set (b : list Z) (n p : Z) : Prop :=
  0 <= p < bits /\ bit b p = true /\ count (bit b) (Z.to_nat p) = n.

Definition weight (b : list Z) : Z := count (bit b) (Z.to_nat bits).

Lemma ord_to_pos_loop_ok b fuel : forall i ord,
  holds bits b -> 0 <= i <= bits -> 0 <= ord <= Z.of_nat fuel -> (i < bits -> bit b i = true) ->
  exists i' ord', ord_to_pos_loop fuel b bits i ord = Some (i', ord') /\
    ((ord' = 0 /\ i' < bits /\ nth_set b (count (bit b) (Z.to_nat i) + ord) i') \/
     (i' = bits /\ weight b <= count (bit b) (Z.to_nat i) + ord)).
Proof.
  induction fuel as [|fuel IH]; intros i ord Hh Hi Ho Hb; cbn [ord_to_pos_loop];
    destruct (Z.ltb_spec i bits); cbn [andb]; destruct (Z.ltb_spec 0 ord); try lia.
  all: try (exists i, ord; split; [done|]; right; assert (i = bits) by lia; subst i; split; [done|]; unfold weight; lia).
  all: try (exists i, ord; split; [done|]; left; split; [lia|]; split; [done|]; split; [lia|]; split; [by apply Hb|lia]).
  destruct (next_ok b (i + 1) Hh ltac:(lia)) as (r & -> & Hr). cbn [mbind option_bind].
  pose proof (count_first_in (bit b) (i + 1) bits r ltac:(lia) Hr) as Hc. destruct Hr as (R1 & R2 & R3).
  destruct (IH r (ord - 1)) as (i' & ord' & -> & Hres); [done|lia|lia|done|].
  exists i', ord'. split; [done|]. rewrite Hc, count_succ, Hb in Hres by lia.
  unfold b2z in Hres. replace (count (bit b) (Z.to_nat i) + 1 + (ord - 1)) with (count (bit b) (Z.to_nat i) + ord) in Hres by lia. done.
Qed.

Lemma ord_to_pos_ok b ord :
  holds bits b -> 0 <= ord ->
  exists p, bitmap_ord_to_pos b ord bits = Some p /\ 0 <= p < bits /\
    (ord < weight b -> nth_set b ord p) /\ (weight b <= ord -> p = 0).
Proof.
  intros Hh Ho. unfold bitmap_ord_to_pos. pose proof (count_bounds (bit b) (Z.to_nat bits)) as Hw. fold (weight b) in Hw.
  destruct (Z.leb_spec 0 ord); [|lia]. cbn [andb].
  destruct (Z.ltb_spec ord bits); [|exists 0; split; [done|]; split; [lia|]; split; [lia|done]].
  destruct (first_ok b Hh) as (i & -> & Hi). cbn [mbind option_bind].
  pose proof (count_first_in (bit b) 0 bits i ltac:(lia) Hi) as Hc. destruct Hi as (I1 & I2 & I3).
  destruct (ord_to_pos_loop_ok b (Z.to_nat ord) i ord) as (i' & ord' & -> & Hres); [done|lia|lia|done|]. cbn [mbind option_bind].
  change (count (bit b) (Z.to_nat 0)) with 0 in Hc. rewrite Hc, Z.add_0_l in Hres.
  destruct Hres as [(-> & Hlt & Hn)|(-> & Hle)].
  - destruct (Z.ltb_spec i' bits); [|lia]. exists i'. split; [done|]. split; [apply Hn|]. split; [done|].
    intros Hge. destruct Hn as (N1 & N2 & N3). exfalso.
    pose proof (count_bounds (fun j => bit b (Z.of_nat (Z.to_nat (i' + 1)) + j)) (Z.to_nat (bits - (i' + 1)))).
    unfold weight in Hge. replace (Z.to_nat bits) with (Z.to_nat (i' + 1) + Z.to_nat (bits - (i' + 1)))%nat in Hge by lia.
    rewrite count_split, count_succ, N2, N3 in Hge by lia. unfold b2z in Hge. lia.
  - rewrite Z.ltb_irrefl. exists 0. split; [done|]. split; [lia|]. split; [lia|done].
Qed.

Lemma nth_set_unique b n p q : nth_set b n p -> nth_set b n q -> p = q.
Proof.
  intros (P1 & P2 & P3) (Q1 & Q2 & Q3).
  assert (H : forall x y, 0 <= x < y -> bit b x = true -> count (bit b) (Z.to_nat x) < count (bit b) (Z.to_nat y)).
  { intros x y Hxy Hb. replace (Z.to_nat y) with (Z.to_nat (x + 1) + Z.to_nat (y - (x + 1)))%nat by lia.
    rewrite count_split, count_succ, Hb by lia. unfold b2z.
    pose proof (count_bounds (fun j => bit b (Z.of_nat (Z.to_nat (x + 1)) + j)) (Z.to_nat (y - (x + 1)))). lia. }
  destruct (Z.lt_trichotomy p q) as [Hlt|[Heq|Hgt]]; [|done|].
  - specialize (H p q ltac:(lia) P2). lia.
  - specialize (H q p ltac:(lia) Q2). lia.
Qed.

(** [bitmap_pos_to_ord] and [bitmap_ord_to_pos] are inverse to each other: a set bit
    is mapped to the number of set bits below it (a clear one to -1), an ordinal below
    the weight to the set bit that has it, and both searches end without reaching the
    BUG_ON. *)
Theorem ordinals_inverse b :
  holds bits b ->
  (forall pos, 0 <= pos < bits -> bit b pos = true ->
     exists n, bitmap_pos_to_ord b pos bits = Some n /\ 0 <= n < weight b /\ bitmap_ord_to_pos b n bits = Some pos) /\
  (forall n, 0 <= n < weight b ->
     exists pos, bitmap_ord_to_pos b n bits = Some pos /\ bit b pos = true /\ bitmap_pos_to_ord b pos bits = Some n) /\
  (forall pos, 0 <= pos < bits -> bit b pos = false -> bitmap_pos_to_ord b pos bits = Some (-1)).
Proof.
  intros Hh. assert (Hord : forall pos, 0 <= pos < bits -> bit b pos = true ->
    bitmap_pos_to_ord b pos bits = Some (count (bit b) (Z.to_nat pos)) /\ nth_set b (count (bit b) (Z.to_nat pos)) pos).
  { intros pos Hp Hb. split; [|by split]. rewrite pos_to_ord_ok by done. rewrite Hb.
    destruct (Z.leb_spec 0 pos), (Z.ltb_spec pos bits); lia || done. }
  split; [|split].
  - intros pos Hp Hb. destruct (Hord pos Hp Hb) as [E Hn]. eexists. split; [done|].
    assert (Hlt : count (bit b) (Z.to_nat pos) < weight b).
    { unfold weight. replace (Z.to_nat bits) with (Z.to_nat (pos + 1) + Z.to_nat (bits - (pos + 1)))%nat by lia.
      rewrite count_split, count_succ, Hb by lia. unfold b2z.
      pose proof (count_bounds (fun j => bit b (Z.of_nat (Z.to_nat (pos + 1)) + j)) (Z.to_nat (bits - (pos + 1)))). lia. }
    pose proof (count_bounds (bit b) (Z.to_nat pos)). split; [lia|].
    destruct (ord_to_pos_ok b (count (bit b) (Z.to_nat pos)) Hh ltac:(lia)) as (q & -> & _ & Hq & _).
    f_equal. eapply nth_set_unique; [by apply Hq|done].
  - intros n Hn. destruct (ord_to_pos_ok b n Hh ltac:(lia)) as (q & E & Hq & Hs & _). exists q. split; [done|].
    destruct (Hs ltac:(lia)) as (_ & Hb & Hc). split; [done|]. destruct (Hord q Hq Hb) as [-> _]. by rewrite Hc.
  - intros pos Hp Hb. rewrite pos_to_ord_ok, Hb by done. by rewrite andb_false_r.
Qed.
Lemma onto_ok dst orig relmap :
  holds bits dst -> holds bits orig -> holds bits relmap ->
  exists d, bitmap_onto false dst orig relmap bits = Some d /\ holds bits d /\
    forall n, 0 <= n < bits -> bit d n = bit relmap n && bit orig (count (bit relmap) (Z.to_nat n)).
Proof.
  intros Hd Ho Hr. unfold bitmap_onto. destruct (bitmap_zero_ok dst bits Hd) as (z & -> & Hz & Bz). cbn [mbind option_bind].
  destruct (first_ok relmap Hr) as (i & -> & Hi). cbn [mbind option_bind].
  destruct (for_each_bit_inv (fun i (x : list Z * Z) => let '(d, m) := x in
      holds bits d /\ m = count (bit relmap) (Z.to_nat i) /\
      forall n, 0 <= n < bits -> bit d n = (n <? i) && (bit relmap n && bit orig (count (bit relmap) (Z.to_nat n))))
    relmap (fun n '(dst, m) => b ← test_bit m orig; dst ← (if (b : bool) then set_bit n dst else Some dst); Some (dst, m + 1))
    (Z.to_nat bits) 0 i (z, 0)) as ([d m] & -> & Hd' & _ & B); try done; [pose proof Hi as (? & _); lia..| | | |].
  - split; [done|]. split; [done|]. intros n Hn. rewrite Bz by done. destruct (Z.ltb_spec n 0); [lia|done].
  - intros x y [d m] Hxy Hy Hclear (Hh & -> & B). split; [done|]. split.
    { symmetry. apply (count_first_in (bit relmap) x y y); [lia|]. split; [lia|]. split; [done|lia]. }
    intros n Hn. rewrite B by done. destruct (Z.ltb_spec n x), (Z.ltb_spec n y); try lia; try done.
    by rewrite Hclear by lia.
  - intros x [d m] Hx Hbx (Hh & -> & B). pose proof (count_bounds (bit relmap) (Z.to_nat x)) as Hc.
    rewrite (test_bit_ok _ orig bits) by (done || lia). cbn [mbind option_bind].
    assert (Hset : exists d', (if bit orig (count (bit relmap) (Z.to_nat x)) then set_bit x d else Some d) = Some d' /\ holds bits d' /\
      forall n, 0 <= n -> bit d' n = bit d n || ((n =? x) && bit orig (count (bit relmap) (Z.to_nat x)))).
    { destruct (bit orig _).
      - destruct (set_bit_ok x d bits Hh Hx) as (d' & -> & Hh' & B'). exists d'. do 2 (split; [done|]). intros n Hn.
        rewrite B' by done. by rewrite andb_true_r.
      - exists d. do 2 (split; [done|]). intros n Hn. by rewrite andb_false_r, orb_false_r. }
    destruct Hset as (d' & -> & Hh' & B'). cbn [mbind option_bind]. eexists. split; [done|]. split; [done|].
    split; [rewrite count_succ, Hbx by lia; done|]. intros n Hn. rewrite B', B by lia.
    destruct (Z.ltb_spec n x), (Z.ltb_spec n (x + 1)), (Z.eqb_spec n x); try lia; subst; cbn [andb orb];
      rewrite ?orb_false_r, ?Hbx; done.
  - exists d. split; [done|]. split; [done|]. intros n Hn. rewrite B by done. destruct (Z.ltb_spec n bits); [done|lia].
Qed.

(** The loops of [bitmap_remap] and [bitmap_fold]: bit [o] of the source sets bit [g o]. *)
Lemma image_loop src (g : Z -> Z) (body : Z -> list Z -> option (list Z)) z i :
  holds bits src -> holds bits z -> (forall n, 0 <= n < bits -> bit z n = false) -> first_in (bit src) 0 bits i ->
  (forall o, 0 <= o < bits -> bit src o = true -> 0 <= g o < bits /\ forall d, body o d = set_bit (g o) d) ->
  exists d, for_each_bit (Z.to_nat bits) src bits i body z = Some d /\ holds bits d /\
    forall p, 0 <= p < bits -> bit d p = true <-> exists o, 0 <= o < bits /\ bit src o = true /\ p = g o.
Proof.
  intros Hs Hz Bz Hi Hg.
  destruct (for_each_bit_inv (fun i d => holds bits d /\
      forall p, 0 <= p < bits -> bit d p = true <-> exists o, 0 <= o < i /\ bit src o = true /\ p = g o)
    src body (Z.to_nat bits) 0 i z) as (d & E & Hd); try done; [pose proof Hi as (? & _); lia..| | | |].
  - split; [done|]. intros p Hp. rewrite Bz by done. split; [done|]. intros (o & Ho & _). lia.
  - intros x y d Hxy Hy Hclear (Hh & B). split; [done|]. intros p Hp. rewrite B by done.
    split; intros (o & Ho & Hb & Hpo); exists o; (split; [|done]); [lia|].
    destruct (Z.lt_ge_cases o x); [lia|]. rewrite Hclear in Hb by lia. done.
  - intros x d Hx Hbx (Hh & B). destruct (Hg x Hx Hbx) as [Hr Hbody]. rewrite Hbody.
    destruct (set_bit_ok (g x) d bits Hh Hr) as (d' & -> & Hh' & B'). exists d'. do 2 (split; [done|]).
    intros p Hp. rewrite B', orb_true_iff, Z.eqb_eq, B by lia. split.
    + intros [(o & Ho & Hb & Hpo)| ->]; [exists o|exists x]; (split; [lia|]); done.
    + intros (o & Ho & Hb & Hpo). destruct (decide (o = x)) as [->|]; [by right|left]. exists o. split; [lia|done].
  - by exists d.
Qed.

Lemma fold_ok dst orig sz :
  holds bits dst -> holds bits orig -> 0 < sz ->
  exists d, bitmap_fold false dst orig sz bits = Some d /\ holds bits d /\
    forall p, 0 <= p < bits -> bit d p = true <-> exists o, 0 <= o < bits /\ bit orig o = true /\ p = o mod sz.
Proof.
  intros Hd Ho Hsz. unfold bitmap_fold. destruct (bitmap_zero_ok dst bits Hd) as (z & -> & Hz & Bz). cbn [mbind option_bind].
  destruct (first_ok orig Ho) as (i & -> & Hi). cbn [mbind option_bind].
  apply (image_loop orig (fun o => o mod sz)); try done. intros o Hob _. split; [|done].
  pose proof (Z.mod_pos_bound o sz ltac:(lia)). pose proof (Z.mod_le o sz ltac:(lia) ltac:(lia)). lia.
Qed.

(** Where a bit goes. *)
Definition remapped (old new : list Z) (o : Z) : Z :=
  default 0 (bitmap_bitremap o old new bits).

Lemma bitremap_ok old new o :
  holds bits old -> holds bits new -> 0 <= o < bits ->
  bitmap_bitremap o old new bits = Some (remapped old new o) /\ 0 <= remapped old new o < bits /\
  (bit old o = false \/ weight new = 0 -> remapped old new o = o) /\
  (bit old o = true -> 0 < weight new ->
     nth_set new (count (bit old) (Z.to_nat o) mod weight new) (remapped old new o)).
Proof.
  intros Ho Hn Hb. unfold remapped, bitmap_bitremap. rewrite weight_ok by (done || lia). cbn [mbind option_bind].
  fold (weight new). pose proof (count_bounds (bit new) (Z.to_nat bits)) as Hw. fold (weight new) in Hw.
  rewrite pos_to_ord_ok by done. cbn [mbind option_bind].
  destruct (Z.leb_spec 0 o), (Z.ltb_spec o bits); try lia. cbn [andb].
  pose proof (count_bounds (bit old) (Z.to_nat o)) as Hc.
  destruct (bit old o) eqn:Hbo; cbn [orb]; [|rewrite orb_true_l; simpl; repeat split; try done; lia].
  destruct (Z.ltb_spec (count (bit old) (Z.to_nat o)) 0); [lia|]. cbn [orb].
  destruct (Z.eqb_spec (weight new) 0) as [E|E]; [simpl; repeat split; try done; lia|].
  pose proof (Z.mod_pos_bound (count (bit old) (Z.to_nat o)) (weight new) ltac:(lia)) as Hm.
  destruct (ord_to_pos_ok new (count (bit old) (Z.to_nat o) mod weight new) Hn ltac:(lia)) as (p & -> & Hp & Hs & _). simpl.
  split; [done|]. split; [done|]. split; [intros [?|?]; done|]. intros _ _. apply Hs. lia.
Qed.

Lemma remap_ok dst src old new :
  holds bits dst -> holds bits src -> holds bits old -> holds bits new ->
  exists d, bitmap_remap false dst src old new bits = Some d /\ holds bits d /\
    forall p, 0 <= p < bits -> bit d p = true <-> exists o, 0 <= o < bits /\ bit src o = true /\ p = remapped old new o.
Proof.
  intros Hd Hs Ho Hn. unfold bitmap_remap. destruct (bitmap_zero_ok dst bits Hd) as (z & -> & Hz & Bz). cbn [mbind option_bind].
  rewrite weight_ok by (done || lia). cbn [mbind option_bind].
  destruct (first_ok src Hs) as (i & -> & Hi). cbn [mbind option_bind].
  apply (image_loop src (remapped old new)); try done. intros o Hob Hbit.
  destruct (bitremap_ok old new o Ho Hn Hob) as (E & Hr & _). split; [done|]. intros d.
  unfold bitmap_bitremap in E. rewrite weight_ok in E by (done || lia). cbn [mbind option_bind] in E.
  destruct (bitmap_pos_to_ord old o bits) as [n|]; [|done]. cbn [mbind option_bind] in E |- *.
  destruct ((n <? 0) || _); [injection E as E; by rewrite <- E|]. rewrite E. done.
Qed.

(** The translations between bitmaps: [bitmap_remap] sets exactly the images of the
    source's bits under the map that [bitmap_bitremap] computes, which sends the n-th
    set bit of [old] to the set bit of [new] with ordinal [n mod weight] and leaves the
    other bits alone; [bitmap_onto] sets bit [n] exactly when it is the m-th set bit of
    [relmap] for an [m] set in [orig]; [bitmap_fold] sets the bits modulo the size. *)
Theorem bitmap_translations_correct dst src old new relmap sz :
  holds bits dst -> holds bits src -> holds bits old -> holds bits new -> holds bits relmap -> 0 < sz ->
  (exists d, bitmap_remap false dst src old new bits = Some d /\
     forall p, 0 <= p < bits -> bit d p = true <->
       exists o, 0 <= o < bits /\ bit src o = true /\ bitmap_bitremap o old new bits = Some p) /\
  (forall o p, 0 <= o < bits -> bitmap_bitremap o old new bits = Some p ->
     if bit old o && (0 <? weight new) then nth_set new (count (bit old) (Z.to_nat o) mod weight new) p else p = o) /\
  (exists d, bitmap_onto false dst src relmap bits = Some d /\
     forall n, 0 <= n < bits -> bit d n = bit relmap n && bit src (count (bit relmap) (Z.to_nat n))) /\
  (exists d, bitmap_fold false dst src sz bits = Some d /\
     forall p, 0 <= p < bits -> bit d p = true <-> exists o, 0 <= o < bits /\ bit src o = true /\ p = o mod sz).
Proof.
  intros Hd Hs Ho Hn Hr Hsz. split; [|split; [|split]].
  - destruct (remap_ok dst src old new Hd Hs Ho Hn) as (d & E & _ & B). exists d. split; [done|]. intros p Hp. rewrite B by done.
    split; intros (o & Hob & Hb & Hpo); exists o; do 2 (split; [done|]);
      destruct (bitremap_ok old new o Ho Hn Hob) as (E' & _); rewrite E' in *; congruence.
  - intros o p Hob E. destruct (bitremap_ok old new o Ho Hn Hob) as (E' & _ & H1 & H2). rewrite E' in E. injection E as <-.
    pose proof (count_bounds (bit new) (Z.to_nat bits)) as Hw. fold (weight new) in Hw.
    destruct (bit old o) eqn:Hb; [|apply H1; by left]. cbn [andb]. destruct (Z.ltb_spec 0 (weight new)); [by apply H2|].
    apply H1. right. lia.
  - destruct (onto_ok dst src relmap Hd Hs Hr) as (d & E & _ & B). by exists d.
  - destruct (fold_ok dst src sz Hd Hs Hsz) as (d & E & _ & B). by exists d.
Qed.
End RemapSpec.

Lemma ordinals_inverse_witness :
  holds 8 [0xF0] /\ bitmap_pos_to_ord (BF := find_next_bit_c) [0xF0] 6 8 = Some 2 /\
  bitmap_ord_to_pos (BF := find_next_bit_c) [0xF0] 2 8 = Some 6.
Proof.
  assert (Hh : holds 8 [0xF0]) by (split; [repeat constructor; lia|done]). split; [exact Hh|].
  destruct (ordinals_inverse (BF := find_next_bit_c) 8 ltac:(lia) [0xF0] Hh) as (H & _).
  destruct (H 6 ltac:(lia) eq_refl) as (n & E & _ & E'). split; [reflexivity|]. reflexivity.
Defined.

Lemma bitmap_translations_correct_witness :
  exists d, bitmap_remap (BF := find_next_bit_c) false [0] [0xA2] [0xF0] [0xF000] 16 = Some d /\ bit d 13 = true.
Proof.
  destruct (bitmap_translations_correct (BF := find_next_bit_c) 16 ltac:(lia) [0] [0xA2] [0xF0] [0xF000] [0] 1)
    as ((d & E & B) & _); [split; [repeat constructor; lia|done]..|lia|].
  exists d. split; [exact E|]. apply B; [lia|]. exists 5. split; [lia|]. split; reflexivity.
Defined.

End Bitmap.
