(* ===== verification/Memcopy.v ===== *)
(** * lib/memcopy.c, include/linux/memcopy.h, memcpy and memmove of lib/string.c

    Memory copies by words: the destination is brought to a word boundary byte by byte,
    then whole words are copied in unrolled loops that are entered in the middle and that
    load a word ahead of the one they store; when the source is not aligned with the
    destination two loaded words are shifted and merged for each one stored; the last
    bytes are copied singly.  [memmove] copies downwards when the blocks overlap so that
    copying upwards would destroy the source.

    Memory is one array of bytes indexed by the address, so that source and destination
    may overlap.  A load or store outside it, or of a word at an address that is not a
    multiple of 4, makes the result [None].  The machine is little-endian. *)
From S2P Require Import Prelude Bitops.
Import Bitops.

Module Memcopy.

(** ** Memory *)

Definition OPSIZ : Z := 4.
Definition OP_T_THRESHOLD : Z := 16.

Definition is_bytes (m : list Z) : Prop := Forall (fun b => 0 <= b < 256) m.

Definition load_byte (m : list Z) (a : Z) : option Z :=
  if in_bounds m a 1 then Some (znth m a) else None.

Definition store_byte (m : list Z) (a v : Z) : option (list Z) := write_bytes m a [v].

(** Byte [i] of a word, the lowest first. *)
Definition byte (w i : Z) : Z := Z.shiftr w (8 * i) mod 256.

Definition load_word (m : list Z) (a : Z) : option Z :=
  if (a mod OPSIZ =? 0) && in_bounds m a OPSIZ
  then Some (znth m a + 2 ^ 8 * (znth m (a + 1) + 2 ^ 8 * (znth m (a + 2) + 2 ^ 8 * znth m (a + 3))))
  else None.

Definition store_word (m : list Z) (a w : Z) : option (list Z) :=
  if a mod OPSIZ =? 0 then write_bytes m a [byte w 0; byte w 1; byte w 2; byte w 3] else None.

(** Little-endian. *)
Definition MERGE (w0 sh_1 w1 sh_2 : Z) : Z := Z.lor (shr32 w0 sh_1) (shl32 w1 sh_2).

(** ** Bytes *)

Fixpoint byte_copy_fwd (n : nat) (m : list Z) (dst_bp src_bp : Z) : option (list Z) :=
  match n with
  | O => Some m
  | S n => x ← load_byte m src_bp; m ← store_byte m dst_bp x; byte_copy_fwd n m (dst_bp + 1) (src_bp + 1)
  end.

(** The macro: the memory and the two pointers afterwards. *)
Definition BYTE_COPY_FWD (m : list Z) (dst_bp src_bp nbytes : Z) : option (list Z * Z * Z) :=
  m ← byte_copy_fwd (Z.to_nat nbytes) m dst_bp src_bp; Some (m, dst_bp + nbytes, src_bp + nbytes).

Fixpoint byte_copy_bwd (n : nat) (m : list Z) (dst_ep src_ep : Z) : option (list Z) :=
  match n with
  | O => Some m
  | S n => x ← load_byte m (src_ep - 1); m ← store_byte m (dst_ep - 1) x; byte_copy_bwd n m (dst_ep - 1) (src_ep - 1)
  end.

Definition BYTE_COPY_BWD (m : list Z) (dst_ep src_ep nbytes : Z) : option (list Z * Z * Z) :=
  m ← byte_copy_bwd (Z.to_nat nbytes) m dst_ep src_ep; Some (m, dst_ep - nbytes, src_ep - nbytes).

(** ** Words: the unrolled loops *)

(** The variables of the functions with two registers. *)
Record regs2 := mk2 { mem2 : list Z; srcp2 : Z; dstp2 : Z; len2 : Z; a0_2 : Z; a1_2 : Z }.

(** Label [do<i>] of _wordcopy_fwd_aligned: [a0 = srcp[8 - i]; dstp[8 - i] = a1] for even
    [i], with [a0] and [a1] exchanged for odd [i]. *)
Definition fwd_do (i : nat) (s : regs2) : option regs2 :=
  let k := 8 - Z.of_nat i in
  v ← load_word (mem2 s) (srcp2 s + k * OPSIZ);
  if Nat.even i then
    m ← store_word (mem2 s) (dstp2 s + k * OPSIZ) (a1_2 s);
    Some (mk2 m (srcp2 s) (dstp2 s) (len2 s) v (a1_2 s))
  else
    m ← store_word (mem2 s) (dstp2 s + k * OPSIZ) (a0_2 s);
    Some (mk2 m (srcp2 s) (dstp2 s) (len2 s) (a0_2 s) v).

(** From label [do<i>] through [do1]. *)
Fixpoint fwd_from (i : nat) (s : regs2) : option regs2 :=
  match i with
  | O => Some s
  | S j => s ← fwd_do i s; fwd_from j s
  end.

(** The do-while loop entered at label [do<i>], then [do0]. *)
Fixpoint fwd_loop (fuel : nat) (i : nat) (s : regs2) : option (list Z) :=
  match fuel with
  | O => None
  | S fuel =>
      s ← fwd_from i s;
      let s := mk2 (mem2 s) (srcp2 s + 8 * OPSIZ) (dstp2 s + 8 * OPSIZ) (u32 (len2 s - 8)) (a0_2 s) (a1_2 s) in
      if len2 s =? 0 then store_word (mem2 s) (dstp2 s) (a1_2 s) else fwd_loop fuel 8 s
  end.

Definition _wordcopy_fwd_aligned (m : list Z) (dstp srcp len : Z) : option (list Z) :=
  let fuel := Z.to_nat len in
  let start sadj dadj ladj i (even : bool) :=
    v ← load_word m srcp;
    fwd_loop fuel i (mk2 m (srcp - sadj * OPSIZ) (dstp - dadj * OPSIZ) (u32 (len + ladj))
                       (if even then v else 0) (if even then 0 else v)) in
  match Z.to_nat (len mod 8) with
  | 2%nat => start 6 7 6 1%nat true
  | 3%nat => start 5 6 5 2%nat false
  | 4%nat => start 4 5 4 3%nat true
  | 5%nat => start 3 4 3 4%nat false
  | 6%nat => start 2 3 2 5%nat true
  | 7%nat => start 1 2 1 6%nat false
  | 0%nat => if (OP_T_THRESHOLD <=? 3 * OPSIZ) && (len =? 0) then Some m else start 0 1 0 7%nat true
  | 1%nat =>
      if (OP_T_THRESHOLD <=? 3 * OPSIZ) && (len - 1 =? 0)
      then v ← load_word m srcp; store_word m dstp v
      else start (-1) 0 (-1) 8%nat false
  | _ => None
  end.

(** Label [do<i>] of _wordcopy_bwd_aligned: [a0 = srcp[i - 1]; dstp[i - 1] = a1] for even
    [i]. *)
Definition bwd_do (i : nat) (s : regs2) : option regs2 :=
  let k := Z.of_nat i - 1 in
  v ← load_word (mem2 s) (srcp2 s + k * OPSIZ);
  if Nat.even i then
    m ← store_word (mem2 s) (dstp2 s + k * OPSIZ) (a1_2 s);
    Some (mk2 m (srcp2 s) (dstp2 s) (len2 s) v (a1_2 s))
  else
    m ← store_word (mem2 s) (dstp2 s + k * OPSIZ) (a0_2 s);
    Some (mk2 m (srcp2 s) (dstp2 s) (len2 s) (a0_2 s) v).

Fixpoint bwd_from (i : nat) (s : regs2) : option regs2 :=
  match i with
  | O => Some s
  | S j => s ← bwd_do i s; bwd_from j s
  end.

Fixpoint bwd_loop (fuel : nat) (i : nat) (s : regs2) : option (list Z) :=
  match fuel with
  | O => None
  | S fuel =>
      s ← bwd_from i s;
      let s := mk2 (mem2 s) (srcp2 s - 8 * OPSIZ) (dstp2 s - 8 * OPSIZ) (u32 (len2 s - 8)) (a0_2 s) (a1_2 s) in
      if len2 s =? 0 then store_word (mem2 s) (dstp2 s + 7 * OPSIZ) (a1_2 s) else bwd_loop fuel 8 s
  end.

(** [start r ...]: [srcp -= r; dstp -= r - 1; a = srcp[r - 1]]. *)
Definition _wordcopy_bwd_aligned (m : list Z) (dstp srcp len : Z) : option (list Z) :=
  let fuel := Z.to_nat len in
  let start sadj dadj idx ladj i (even : bool) :=
    let srcp := srcp - sadj * OPSIZ in
    let dstp := dstp - dadj * OPSIZ in
    v ← load_word m (srcp + idx * OPSIZ);
    bwd_loop fuel i (mk2 m srcp dstp (u32 (len + ladj)) (if even then v else 0) (if even then 0 else v)) in
  match Z.to_nat (len mod 8) with
  | 2%nat => start 2 1 1 6 1%nat true
  | 3%nat => start 3 2 2 5 2%nat false
  | 4%nat => start 4 3 3 4 3%nat true
  | 5%nat => start 5 4 4 3 4%nat false
  | 6%nat => start 6 5 5 2 5%nat true
  | 7%nat => start 7 6 6 1 6%nat false
  | 0%nat => if (OP_T_THRESHOLD <=? 3 * OPSIZ) && (len =? 0) then Some m else start 8 7 7 0 7%nat true
  | 1%nat =>
      if (OP_T_THRESHOLD <=? 3 * OPSIZ) && (len - 1 =? 0)
      then v ← load_word m (srcp - 9 * OPSIZ + 8 * OPSIZ); store_word m (dstp - 8 * OPSIZ + 7 * OPSIZ) v
      else start 9 8 8 (-1) 8%nat false
  | _ => None
  end.

(** The variables of the functions with four registers. *)
Record regs4 := mk4 { mem4 : list Z; srcp4 : Z; dstp4 : Z; len4 : Z; r0 : Z; r1 : Z; r2 : Z; r3 : Z }.

Definition with_mem4 (m : list Z) (s : regs4) : regs4 :=
  mk4 m (srcp4 s) (dstp4 s) (len4 s) (r0 s) (r1 s) (r2 s) (r3 s).

(** [a<i> = v]. *)
Definition set_reg (i : nat) (v : Z) (s : regs4) : regs4 :=
  match i with
  | 0%nat => mk4 (mem4 s) (srcp4 s) (dstp4 s) (len4 s) v (r1 s) (r2 s) (r3 s)
  | 1%nat => mk4 (mem4 s) (srcp4 s) (dstp4 s) (len4 s) (r0 s) v (r2 s) (r3 s)
  | 2%nat => mk4 (mem4 s) (srcp4 s) (dstp4 s) (len4 s) (r0 s) (r1 s) v (r3 s)
  | _ => mk4 (mem4 s) (srcp4 s) (dstp4 s) (len4 s) (r0 s) (r1 s) (r2 s) v
  end.

(** [((op_t * ) dstp)[k] = MERGE (w0, sh_1, w1, sh_2)]. *)
Definition store4 (sh_1 sh_2 k w0 w1 : Z) (s : regs4) : option regs4 :=
  m ← store_word (mem4 s) (dstp4 s + k * OPSIZ) (MERGE w0 sh_1 w1 sh_2); Some (with_mem4 m s).

(** [a<i> = ((op_t * ) srcp)[k]]. *)
Definition load4 (i : nat) (k : Z) (s : regs4) : option regs4 :=
  v ← load_word (mem4 s) (srcp4 s + k * OPSIZ); Some (set_reg i v s).

(** Labels [do4] to [do1] of _wordcopy_fwd_dest_aligned. *)
Definition fwd4_do (sh_1 sh_2 : Z) (i : nat) (s : regs4) : option regs4 :=
  match i with
  | 4%nat => s ← load4 0 0 s; store4 sh_1 sh_2 0 (r2 s) (r3 s) s
  | 3%nat => s ← load4 1 1 s; store4 sh_1 sh_2 1 (r3 s) (r0 s) s
  | 2%nat => s ← load4 2 2 s; store4 sh_1 sh_2 2 (r0 s) (r1 s) s
  | _ => s ← load4 3 3 s; store4 sh_1 sh_2 3 (r1 s) (r2 s) s
  end.

Fixpoint fwd4_from (sh_1 sh_2 : Z) (i : nat) (s : regs4) : option regs4 :=
  match i with
  | O => Some s
  | S j => s ← fwd4_do sh_1 sh_2 i s; fwd4_from sh_1 sh_2 j s
  end.

(** [srcp += 4 * OPSIZ; dstp += 4 * OPSIZ; len -= 4], or downwards. *)
Definition advance4 (delta : Z) (s : regs4) : regs4 :=
  mk4 (mem4 s) (srcp4 s + delta * OPSIZ) (dstp4 s + delta * OPSIZ) (u32 (len4 s - 4))
    (r0 s) (r1 s) (r2 s) (r3 s).

Fixpoint fwd4_loop (fuel : nat) (sh_1 sh_2 : Z) (i : nat) (s : regs4) : option (list Z) :=
  match fuel with
  | O => None
  | S fuel =>
      s ← fwd4_from sh_1 sh_2 i s;
      let s := advance4 4 s in
      if len4 s =? 0 then store_word (mem4 s) (dstp4 s) (MERGE (r2 s) sh_1 (r3 s) sh_2)
      else fwd4_loop fuel sh_1 sh_2 4 s
  end.

Definition _wordcopy_fwd_dest_aligned (m : list Z) (dstp srcp len : Z) : option (list Z) :=
  let fuel := Z.to_nat len in
  let sh_1 := 8 * (srcp mod OPSIZ) in
  let sh_2 := 8 * OPSIZ - sh_1 in
  let srcp := Z.land srcp (- OPSIZ) in
  let start lo hi sadj dadj ladj i :=
    s ← load4 lo 0 (mk4 m srcp dstp len 0 0 0 0);
    s ← load4 hi 1 s;
    fwd4_loop fuel sh_1 sh_2 i
      (mk4 m (srcp - sadj * OPSIZ) (dstp - dadj * OPSIZ) (u32 (len + ladj)) (r0 s) (r1 s) (r2 s) (r3 s)) in
  match Z.to_nat (len mod 4) with
  | 2%nat => start 1%nat 2%nat 1 3 2 1%nat
  | 3%nat => start 0%nat 1%nat 0 2 1 2%nat
  | 0%nat => if (OP_T_THRESHOLD <=? 3 * OPSIZ) && (len =? 0) then Some m
             else start 3%nat 0%nat (-1) 1 0 3%nat
  | 1%nat =>
      if (OP_T_THRESHOLD <=? 3 * OPSIZ) && (len - 1 =? 0) then
        a2 ← load_word m srcp; a3 ← load_word m (srcp + OPSIZ);
        store_word m dstp (MERGE a2 sh_1 a3 sh_2)
      else start 2%nat 3%nat (-2) 0 (-1) 4%nat
  | _ => None
  end.

(** Labels [do4] to [do1] of _wordcopy_bwd_dest_aligned. *)
Definition bwd4_do (sh_1 sh_2 : Z) (i : nat) (s : regs4) : option regs4 :=
  match i with
  | 4%nat => s ← load4 3 3 s; store4 sh_1 sh_2 3 (r0 s) (r1 s) s
  | 3%nat => s ← load4 2 2 s; store4 sh_1 sh_2 2 (r3 s) (r0 s) s
  | 2%nat => s ← load4 1 1 s; store4 sh_1 sh_2 1 (r2 s) (r3 s) s
  | _ => s ← load4 0 0 s; store4 sh_1 sh_2 0 (r1 s) (r2 s) s
  end.

Fixpoint bwd4_from (sh_1 sh_2 : Z) (i : nat) (s : regs4) : option regs4 :=
  match i with
  | O => Some s
  | S j => s ← bwd4_do sh_1 sh_2 i s; bwd4_from sh_1 sh_2 j s
  end.

Fixpoint bwd4_loop (fuel : nat) (sh_1 sh_2 : Z) (i : nat) (s : regs4) : option (list Z) :=
  match fuel with
  | O => None
  | S fuel =>
      s ← bwd4_from sh_1 sh_2 i s;
      let s := advance4 (-4) s in
      if len4 s =? 0 then store_word (mem4 s) (dstp4 s + 3 * OPSIZ) (MERGE (r0 s) sh_1 (r1 s) sh_2)
      else bwd4_loop fuel sh_1 sh_2 4 s
  end.

Definition _wordcopy_bwd_dest_aligned (m : list Z) (dstp srcp len : Z) : option (list Z) :=
  let fuel := Z.to_nat len in
  let sh_1 := 8 * (srcp mod OPSIZ) in
  let sh_2 := 8 * OPSIZ - sh_1 in
  let srcp := Z.land srcp (- OPSIZ) + OPSIZ in
  let start sadj dadj hi khi lo klo ladj i :=
    s ← load4 hi khi (mk4 m (srcp - sadj * OPSIZ) (dstp - dadj * OPSIZ) (u32 (len + ladj)) 0 0 0 0);
    s ← load4 lo klo s;
    bwd4_loop fuel sh_1 sh_2 i s in
  match Z.to_nat (len mod 4) with
  | 2%nat => start 3 1 2%nat 2 1%nat 1 2 1%nat
  | 3%nat => start 4 2 3%nat 3 2%nat 2 1 2%nat
  | 0%nat => if (OP_T_THRESHOLD <=? 3 * OPSIZ) && (len =? 0) then Some m
             else start 5 3 0%nat 4 3%nat 3 0 3%nat
  | 1%nat =>
      if (OP_T_THRESHOLD <=? 3 * OPSIZ) && (len - 1 =? 0) then
        let srcp := srcp - 6 * OPSIZ in
        let dstp := dstp - 4 * OPSIZ in
        a1 ← load_word m (srcp + 5 * OPSIZ); a0 ← load_word m (srcp + 4 * OPSIZ);
        store_word m (dstp + 3 * OPSIZ) (MERGE a0 sh_1 a1 sh_2)
      else start 6 4 1%nat 5 0%nat 4 (-1) 4%nat
  | _ => None
  end.

(** ** Whole copies *)

(** The macros: the memory, the two pointers and [nbytes_left] afterwards. *)
Definition WORD_COPY_FWD (m : list Z) (dst_bp src_bp nbytes : Z) : option (list Z * Z * Z * Z) :=
  m ← (if src_bp mod OPSIZ =? 0 then _wordcopy_fwd_aligned m dst_bp src_bp (nbytes / OPSIZ)
       else _wordcopy_fwd_dest_aligned m dst_bp src_bp (nbytes / OPSIZ));
  Some (m, dst_bp + Z.land nbytes (- OPSIZ), src_bp + Z.land nbytes (- OPSIZ), nbytes mod OPSIZ).

Definition WORD_COPY_BWD (m : list Z) (dst_ep src_ep nbytes : Z) : option (list Z * Z * Z * Z) :=
  m ← (if src_ep mod OPSIZ =? 0 then _wordcopy_bwd_aligned m dst_ep src_ep (nbytes / OPSIZ)
       else _wordcopy_bwd_dest_aligned m dst_ep src_ep (nbytes / OPSIZ));
  Some (m, dst_ep - Z.land nbytes (- OPSIZ), src_ep - Z.land nbytes (- OPSIZ), nbytes mod OPSIZ).

Definition mem_copy_fwd (m : list Z) (dstp srcp count : Z) : option (list Z) :=
  '(m, dstp, srcp, count) ←
    (if OP_T_THRESHOLD <=? count then
       let count' := u32 (count - u32 (- dstp) mod OPSIZ) in
       '(m, dstp, srcp) ← BYTE_COPY_FWD m dstp srcp (u32 (- dstp) mod OPSIZ);
       WORD_COPY_FWD m dstp srcp count'
     else Some (m, dstp, srcp, count));
  '(m, _, _) ← BYTE_COPY_FWD m dstp srcp count; Some m.

Definition mem_copy_bwd (m : list Z) (dstp srcp count : Z) : option (list Z) :=
  let srcp := u32 (srcp + count) in
  let dstp := u32 (dstp + count) in
  '(m, dstp, srcp, count) ←
    (if OP_T_THRESHOLD <=? count then
       let count' := u32 (count - dstp mod OPSIZ) in
       '(m, dstp, srcp) ← BYTE_COPY_BWD m dstp srcp (dstp mod OPSIZ);
       WORD_COPY_BWD m dstp srcp count'
     else Some (m, dstp, srcp, count));
  '(m, _, _) ← BYTE_COPY_BWD m dstp srcp count; Some m.

(** The pointer [dest] and the memory. *)
Definition memcpy (m : list Z) (dest src count : Z) : option (Z * list Z) :=
  m ← mem_copy_fwd m dest src count; Some (dest, m).

Definition memmove (m : list Z) (dest src count : Z) : option (Z * list Z) :=
  m ← (if count <=? u32 (dest - src) then mem_copy_fwd m dest src count
       else mem_copy_bwd m dest src count);
  Some (dest, m).

(** ** Specification

    [copied m m' d n k]: the bytes [d, d + n) of [m'] are those [k] further in [m], the
    others are unchanged. *)
Definition copied (m m' : list Z) (d n k : Z) : Prop :=
  zlen m' = zlen m /\
  forall a, 0 <= a < zlen m -> znth m' a = if (d <=? a) && (a <? d + n) then znth m (a + k) else znth m a.

(** ** Bytes of words *)

Lemma is_bytes_znth m a : is_bytes m -> 0 <= znth m a < 256.
Proof.
  intros H. unfold znth. rewrite nth_lookup. destruct (m !! Z.to_nat a) eqn:E; [|simpl; lia].
  exact (Forall_lookup_1 _ _ _ _ H E).
Qed.

Lemma is_bytes_intro m : (forall a, 0 <= a < zlen m -> 0 <= znth m a < 256) -> is_bytes m.
Proof.
  intros H. apply Forall_lookup. intros i x E. specialize (H (Z.of_nat i)).
  unfold znth, zlen in H. rewrite Nat2Z.id, nth_lookup, E in H. apply H.
  apply lookup_lt_Some in E. lia.
Qed.

Lemma copied_bytes m m' d n k : is_bytes m -> copied m m' d n k -> is_bytes m'.
Proof.
  intros Hb [Hl H]. apply is_bytes_intro. intros a Ha. rewrite H by lia.
  destruct (_ && _); apply is_bytes_znth, Hb.
Qed.

Lemma testbit_mod256 x i : 0 <= i -> Z.testbit (x mod 256) i = (i <? 8) && Z.testbit x i.
Proof.
  intros. change 256 with (2 ^ 8). destruct (Z.ltb_spec i 8); simpl.
  - apply Z.mod_pow2_bits_low. lia.
  - apply Z.mod_pow2_bits_high. lia.
Qed.

Lemma byte_MERGE w0 w1 o i :
  0 < o < 4 -> 0 <= i < 4 -> is_u32 w0 -> is_u32 w1 ->
  byte (MERGE w0 (8 * o) w1 (8 * OPSIZ - 8 * o)) i = if i + o <? 4 then byte w0 (i + o) else byte w1 (i + o - 4).
Proof.
  intros Ho Hi H0 H1. apply Z.bits_inj'. intros j Hj. unfold byte, MERGE, shr32, shl32, OPSIZ, u32.
  assert (Hhi : forall w k, is_u32 w -> 32 <= k -> Z.testbit w k = false).
  { intros w k Hw Hk. unfold is_u32 in Hw. rewrite <- (Z.mod_small w (2 ^ 32)) by lia.
    apply Z.mod_pow2_bits_high. lia. }
  rewrite testbit_mod256, Z.shiftr_spec, Z.lor_spec, Z.shiftr_spec by lia.
  destruct (Z.ltb_spec (i + o) 4).
  - rewrite testbit_mod256, Z.shiftr_spec by lia. destruct (Z.ltb_spec j 8); [|done]. simpl.
    rewrite Z.mod_pow2_bits_low, Z.shiftl_spec_low by lia. rewrite orb_false_r. f_equal. lia.
  - rewrite testbit_mod256, Z.shiftr_spec by lia. destruct (Z.ltb_spec j 8); [|done]. simpl.
    rewrite (Hhi w0) by (done || lia). rewrite Z.mod_pow2_bits_low, Z.shiftl_spec by lia. simpl. f_equal. lia.
Qed.

Lemma load_word_ok m a :
  is_bytes m -> a mod 4 = 0 -> 0 <= a -> a + 4 <= zlen m ->
  exists w, load_word m a = Some w /\ is_u32 w /\ forall i, 0 <= i < 4 -> byte w i = znth m (a + i).
Proof.
  intros Hb Ha H0 H1. unfold load_word, OPSIZ. rewrite Ha.
  rewrite (proj2 (in_bounds_spec m a 4)) by lia. simpl. eexists; split; [done|].
  pose proof (is_bytes_znth m a Hb). pose proof (is_bytes_znth m (a + 1) Hb).
  pose proof (is_bytes_znth m (a + 2) Hb). pose proof (is_bytes_znth m (a + 3) Hb).
  split; [unfold is_u32; lia|]. intros i Hi. unfold byte. rewrite Z.shiftr_div_pow2 by lia.
  assert (i = 0 \/ i = 1 \/ i = 2 \/ i = 3) as [-> | [-> | [-> | ->]]] by lia; cbn [Z.mul Pos.mul Z.pow Z.pow_pos Pos.iter];
    rewrite ?Z.add_0_r; Z.to_euclidean_division_equations; lia.
Qed.

Lemma store_aligned_ok m a w :
  a mod 4 = 0 -> 0 <= a -> a + 4 <= zlen m ->
  exists m', store_word m a w = Some m' /\ zlen m' = zlen m /\
    forall b, 0 <= b < zlen m -> znth m' b = if (a <=? b) && (b <? a + 4) then byte w (b - a) else znth m b.
Proof.
  intros Ha H0 H1. unfold store_word, OPSIZ. rewrite Ha. simpl.
  destruct (write_bytes_Some m a [byte w 0; byte w 1; byte w 2; byte w 3]) as (m' & -> & Hl & H); [done..|].
  exists m'. split; [done|]. split; [done|]. intros b Hb. rewrite H by done.
  change (zlen [byte w 0; byte w 1; byte w 2; byte w 3]) with 4.
  destruct (_ && _) eqn:E; [|done]. apply andb_prop in E as [E1 E2]. apply Z.leb_le in E1. apply Z.ltb_lt in E2.
  assert (b - a = 0 \/ b - a = 1 \/ b - a = 2 \/ b - a = 3) as [-> | [-> | [-> | ->]]] by lia; done.
Qed.

(** ** Byte loops *)

(** Copying upwards, the bytes still to be read are not yet written. *)
Definition fwd_safe (n k : Z) : Prop := 0 <= k \/ n <= - k.
Definition bwd_safe (n k : Z) : Prop := k <= 0 \/ n <= k.

Lemma byte_step m d k :
  0 <= d < zlen m -> 0 <= d + k < zlen m ->
  exists m', (x ← load_byte m (d + k); store_byte m d x) = Some m' /\ copied m m' d 1 k.
Proof.
  intros Hd Hs. unfold load_byte, store_byte. rewrite (proj2 (in_bounds_spec m (d + k) 1)) by lia.
  simpl. destruct (write_bytes_Some m d [znth m (d + k)]) as (m' & -> & Hl & H); [unfold zlen; simpl; unfold zlen in *; lia..|].
  exists m'. split; [done|]. split; [done|]. intros a Ha. rewrite H by done. change (zlen [znth m (d + k)]) with 1.
  zbool. replace (a - d) with 0 by lia. unfold znth at 1. simpl. f_equal. lia.
Qed.

Lemma copied_app m0 m1 m2 d n1 n2 k :
  fwd_safe (n1 + n2) k -> 0 <= n1 -> 0 <= n2 ->
  (0 <= d /\ d + n1 + n2 <= zlen m0 /\ 0 <= d + k /\ d + k + n1 + n2 <= zlen m0) ->
  copied m0 m1 d n1 k -> copied m1 m2 (d + n1) n2 k -> copied m0 m2 d (n1 + n2) k.
Proof.
  intros Hs H1 H2 Hr [L1 C1] [L2 C2]. split; [lia|]. intros a Ha. rewrite C2 by lia.
  unfold fwd_safe in Hs. zbool; rewrite C1 by lia; zbool.
Qed.

Lemma copied_app_bwd m0 m1 m2 e n1 n2 k :
  bwd_safe (n1 + n2) k -> 0 <= n1 -> 0 <= n2 ->
  (e <= zlen m0 /\ 0 <= e - n1 - n2 /\ 0 <= e - n1 - n2 + k /\ e + k <= zlen m0) ->
  copied m0 m1 (e - n1) n1 k -> copied m1 m2 (e - n1 - n2) n2 k -> copied m0 m2 (e - (n1 + n2)) (n1 + n2) k.
Proof.
  intros Hs H1 H2 Hr [L1 C1] [L2 C2]. split; [lia|]. intros a Ha. rewrite C2 by lia.
  unfold bwd_safe in Hs. zbool; rewrite C1 by lia; zbool.
Qed.

Lemma copied_0 m d k : copied m m d 0 k.
Proof. split; [done|]. intros a Ha. zbool. Qed.

Lemma byte_copy_fwd_ok n m d k :
  fwd_safe (Z.of_nat n) k -> 0 <= d -> d + Z.of_nat n <= zlen m -> 0 <= d + k -> d + k + Z.of_nat n <= zlen m ->
  exists m', byte_copy_fwd n m d (d + k) = Some m' /\ copied m m' d (Z.of_nat n) k.
Proof.
  revert m d. induction n as [|n IH]; intros m d Hs H0 H1 H2 H3; cbn [byte_copy_fwd].
  { exists m. split; [done|]. apply copied_0. }
  destruct (byte_step m d k) as (m1 & E & C1); [lia..|].
  destruct (load_byte m (d + k)) as [x|]; [simpl in E |- *|discriminate]. rewrite E. simpl.
  assert (L1 := proj1 C1). destruct (IH m1 (d + 1)) as (m' & E' & C'); [unfold fwd_safe in *; lia..|].
  exists m'. replace (d + k + 1) with (d + 1 + k) by lia. split; [done|].
  replace (Z.of_nat (S n)) with (1 + Z.of_nat n) by lia.
  apply copied_app with m1; [unfold fwd_safe in *; lia|lia..|done|done].
Qed.

Lemma byte_copy_bwd_ok n m e k :
  bwd_safe (Z.of_nat n) k -> e <= zlen m -> 0 <= e - Z.of_nat n -> 0 <= e - Z.of_nat n + k -> e + k <= zlen m ->
  exists m', byte_copy_bwd n m e (e + k) = Some m' /\ copied m m' (e - Z.of_nat n) (Z.of_nat n) k.
Proof.
  revert m e. induction n as [|n IH]; intros m e Hs H0 H1 H2 H3; cbn [byte_copy_bwd].
  { exists m. split; [done|]. apply copied_0. }
  destruct (byte_step m (e - 1) k) as (m1 & E & C1); [lia..|].
  replace (e + k - 1) with (e - 1 + k) by lia.
  destruct (load_byte m (e - 1 + k)) as [x|]; [simpl in E |- *|discriminate]. rewrite E. simpl.
  assert (L1 := proj1 C1). destruct (IH m1 (e - 1)) as (m' & E' & C'); [unfold bwd_safe in *; lia..|].
  exists m'. split; [done|].
  replace (Z.of_nat (S n)) with (1 + Z.of_nat n) by lia.
  apply copied_app_bwd with m1; [unfold bwd_safe in *; lia|lia..|done|done].
Qed.

(** ** The word loops are software pipelines

    Each step loads the next word, stores the one the registers hold and moves on; the
    last store has no load. *)
Section Pipe.
Context {W : Type} (out : W -> Z) (shift : W -> Z -> W) (delta : Z).

Fixpoint pipe (n : nat) (m : list Z) (s d : Z) (w : W) : option (list Z) :=
  match n with
  | O => store_word m d (out w)
  | S n => v ← load_word m s; m ← store_word m d (out w); pipe n m (s + delta) (d + delta) (shift w v)
  end.

(** [wr d a]: address [a] has been written when the next store is at [d].  [good d w]: the
    registers [w] hold the word to be stored at [d].  A load for the step at [d] is at
    [d + c]. *)
Context (m0 : list Z) (lo hi k c : Z) (wr : Z -> Z -> bool) (good : Z -> W -> Prop).
Hypothesis Hbytes : is_bytes m0.
Hypothesis Hlo : lo mod 4 = 0 /\ 0 <= lo /\ hi <= zlen m0.
Hypothesis Hdelta : delta mod 4 = 0.
Hypothesis wr_step : forall d a, lo <= d -> d + 4 <= hi -> d mod 4 = 0 ->
  wr (d + delta) a = wr d a || ((d <=? a) && (a <? d + 4)).
Hypothesis good_out : forall d w i, lo <= d -> d + 4 <= hi -> good d w -> 0 <= i < 4 ->
  byte (out w) i = znth m0 (d + i + k).
Hypothesis good_shift : forall d w v, good d w -> lo <= d + delta -> d + delta + 4 <= hi -> is_u32 v ->
  (forall i, 0 <= i < 4 -> lo + k <= d + c + i < hi + k -> byte v i = znth m0 (d + c + i)) ->
  good (d + delta) (shift w v).
Hypothesis load_safe : forall d i, lo <= d + delta -> d + delta + 4 <= hi -> 0 <= i < 4 ->
  lo + k <= d + c + i < hi + k -> wr d (d + c + i) = false.
Hypothesis load_range : forall d, d mod 4 = 0 -> lo <= d -> d + 4 <= hi -> lo <= d + delta -> d + delta + 4 <= hi ->
  0 <= d + c /\ d + c + 4 <= zlen m0 /\ (d + c) mod 4 = 0.

Definition part (d : Z) (m : list Z) : Prop :=
  zlen m = zlen m0 /\
  forall a, 0 <= a < zlen m0 -> znth m a = if wr d a then znth m0 (a + k) else znth m0 a.

Lemma pipe_eq n n' m s s' d d' w w' :
  n = n' -> s = s' -> d = d' -> w = w' -> pipe n m s d w = pipe n' m s' d' w'.
Proof. by intros -> -> -> ->. Qed.

Lemma part_store d w m :
  part d m -> good d w -> lo <= d -> d + 4 <= hi -> d mod 4 = 0 ->
  exists m', store_word m d (out w) = Some m' /\ part (d + delta) m'.
Proof.
  intros [Hl H] Hg Hd1 Hd2 Hd. destruct (store_aligned_ok m d (out w)) as (m' & -> & Hl' & H'); [done|lia..|].
  exists m'. split; [done|]. split; [lia|]. intros a Ha. rewrite H', wr_step, H by (done || lia).
  destruct (_ && _) eqn:E; [|rewrite orb_false_r; done]. rewrite orb_true_r.
  apply andb_prop in E as [E1 E2]. apply Z.leb_le in E1. apply Z.ltb_lt in E2.
  rewrite (good_out d w) by (done || lia). f_equal. lia.
Qed.

Lemma pipe_ok n m d w :
  part d m -> good d w -> d mod 4 = 0 -> lo <= d -> d + 4 <= hi ->
  lo <= d + delta * Z.of_nat n -> d + delta * Z.of_nat n + 4 <= hi ->
  exists m', pipe n m (d + c) d w = Some m' /\ part (d + delta * Z.of_nat (S n)) m'.
Proof.
  revert m d w. induction n as [|n IH]; intros m d w Hp Hg Hd H1 H2 H3 H4; cbn [pipe].
  { replace (d + delta * Z.of_nat 1) with (d + delta) by lia. by apply part_store. }
  assert (lo <= d + delta /\ d + delta + 4 <= hi) as [N1 N2] by (destruct (Z.le_ge_cases 0 delta); nia).
  destruct (load_range d) as (R1 & R2 & R3); [done..|]. assert (Hl := proj1 Hp).
  assert (Hm : is_bytes m).
  { apply is_bytes_intro. intros a Ha. rewrite (proj2 Hp) by lia. destruct (wr d a); by apply is_bytes_znth. }
  destruct (load_word_ok m (d + c)) as (v & -> & Hv & Hvb); [done|done|lia..|]. simpl.
  destruct (part_store d w m) as (m1 & -> & Hp1); [done..|]. simpl.
  replace (d + c + delta) with (d + delta + c) by lia.
  replace (d + delta * Z.of_nat (S (S n))) with (d + delta + delta * Z.of_nat (S n)) by lia.
  apply IH; try done; try lia.
  - apply good_shift; [done..|]. intros i Hi Hsrc. rewrite Hvb, (proj2 Hp), load_safe by (done || lia). done.
  - rewrite Z.add_mod, Hd, Hdelta by lia. done.
Qed.
End Pipe.

(** The two kinds of registers. *)
Abbreviation pipe1 := (pipe (fun w : Z => w) (fun _ v => v)).
Definition out2 (o : Z) (w : Z * Z) : Z := MERGE w.1 (8 * o) w.2 (8 * OPSIZ - 8 * o).
Definition up2 (w : Z * Z) (v : Z) : Z * Z := (w.2, v).
Definition down2 (w : Z * Z) (v : Z) : Z * Z := (v, w.1).

(** *** Two registers *)

Definition pend (i : nat) (s : regs2) : Z := if Nat.even i then a1_2 s else a0_2 s.

Lemma fwd_from_pipe i n s :
  pipe1 4 (i + n) (mem2 s) (srcp2 s + (8 - Z.of_nat i) * 4) (dstp2 s + (8 - Z.of_nat i) * 4) (pend i s) =
  s' ← fwd_from i s; pipe1 4 n (mem2 s') (srcp2 s' + 32) (dstp2 s' + 32) (a1_2 s').
Proof.
  revert s. induction i as [|i IH]; intros s; [done|].
  cbn [fwd_from Nat.add pipe]. unfold fwd_do, OPSIZ. destruct (load_word _ _) as [v|]; [|done]. cbn [mbind option_bind].
  unfold pend. rewrite Nat.even_succ, <- Nat.negb_even.
  destruct (Nat.even i) eqn:E; cbn [negb]; destruct (store_word _ _ _) as [m|]; try done; cbn [mbind option_bind];
    rewrite <- IH; cbn [mem2 srcp2 dstp2]; unfold pend; rewrite E; f_equal; lia.
Qed.

Lemma fwd_from_len i s s' : fwd_from i s = Some s' -> len2 s' = len2 s.
Proof.
  revert s. induction i as [|i IH]; intros s; cbn [fwd_from]; [by intros [= ->]|].
  unfold fwd_do. intros H. repeat case_match; simplify_option_eq; apply IH in H; done.
Qed.

Lemma fwd_loop_pipe fuel q i s :
  len2 s = 8 * (Z.of_nat q + 1) -> len2 s < 2 ^ 32 -> (q < fuel)%nat ->
  fwd_loop fuel i s =
  pipe1 4 (i + 8 * q) (mem2 s) (srcp2 s + (8 - Z.of_nat i) * 4) (dstp2 s + (8 - Z.of_nat i) * 4) (pend i s).
Proof.
  revert q i s. induction fuel as [|fuel IH]; intros q i s Hlen Hw Hq; [lia|].
  rewrite fwd_from_pipe. cbn [fwd_loop]. destruct (fwd_from i s) as [s'|] eqn:E; [|done]. cbn [mbind option_bind].
  apply fwd_from_len in E. cbn [len2 mem2 dstp2 a1_2]. rewrite u32_id by (unfold is_u32; lia). destruct q as [|q].
  - replace (len2 s' - 8) with 0 by lia. done.
  - destruct (Z.eqb_spec (len2 s' - 8) 0); [lia|]. rewrite (IH q) by (cbn [len2]; lia). cbn [mem2 srcp2 dstp2 a1_2]. unfold OPSIZ, pend.
    apply pipe_eq; [lia..|done].
Qed.

(** Every case of the switch: [srcp] is moved by [7 - i] words, [dstp] by [8 - i]. *)
Lemma fwd_start i m d s len v x y :
  (1 <= i <= 8)%nat -> 2 <= len < 2 ^ 31 -> (len + 7 - Z.of_nat i) mod 8 = 0 -> (i = 8%nat -> 9 <= len) ->
  (if Nat.even i then y else x) = v ->
  fwd_loop (Z.to_nat len) i (mk2 m (s - (7 - Z.of_nat i) * 4) (d - (8 - Z.of_nat i) * 4) (u32 (len + (7 - Z.of_nat i))) x y) =
  pipe1 4 (Z.to_nat (len - 1)) m (s + 4) d v.
Proof.
  intros Hi Hl Hm H8 <-. apply Z.mod_divide in Hm as [q Hq]; [|lia].
  rewrite u32_id by (unfold is_u32; lia).
  rewrite (fwd_loop_pipe _ (Z.to_nat (q - 1))) by (cbn [len2]; lia). cbn [mem2 srcp2 dstp2].
  apply pipe_eq; [lia..|done].
Qed.

(** Split on a remainder. *)
Ltac mod_cases len k :=
  let r := fresh "r" in let Hr := fresh "Hr" in let Hc := fresh "Hc" in
  assert (Hr := Z.mod_pos_bound len k ltac:(lia));
  assert (Hdm := Z.div_mod len k ltac:(lia));
  set (r := len mod k) in *; clearbody r;
  first [ assert (r = 0 \/ r = 1 \/ r = 2 \/ r = 3) as Hc by lia
        | assert (r = 0 \/ r = 1 \/ r = 2 \/ r = 3 \/ r = 4 \/ r = 5 \/ r = 6 \/ r = 7) as Hc by lia ];
  repeat (destruct Hc as [-> | Hc]); try subst r;
  repeat match goal with
  | |- context [Z.to_nat ?x] =>
      lazymatch x with Z0 => idtac | Zpos _ => idtac end;
      let y := eval compute in (Z.to_nat x) in change (Z.to_nat x) with y
  end; cbv iota.

Ltac solve_mod := Z.to_euclidean_division_equations; lia.

Lemma fwd_aligned_pipe m d s len :
  2 <= len < 2 ^ 31 ->
  _wordcopy_fwd_aligned m d s len = v ← load_word m s; pipe1 4 (Z.to_nat (len - 1)) m (s + 4) d v.
Proof.
  intros Hl. unfold _wordcopy_fwd_aligned, OPSIZ. cbv beta zeta.
  mod_cases len 8; (destruct (load_word m s) as [v|]; [|done]); cbn [mbind option_bind];
    (eapply fwd_start; [lia|lia|solve_mod|lia|done]).
Qed.

Lemma bwd_from_pipe i n s :
  pipe1 (-4) (i + n) (mem2 s) (srcp2 s + (Z.of_nat i - 1) * 4) (dstp2 s + (Z.of_nat i - 1) * 4) (pend i s) =
  s' ← bwd_from i s; pipe1 (-4) n (mem2 s') (srcp2 s' - 4) (dstp2 s' - 4) (a1_2 s').
Proof.
  revert s. induction i as [|i IH]; intros s; [done|].
  cbn [bwd_from Nat.add pipe]. unfold bwd_do, OPSIZ. destruct (load_word _ _) as [v|]; [|done]. cbn [mbind option_bind].
  unfold pend. rewrite Nat.even_succ, <- Nat.negb_even.
  destruct (Nat.even i) eqn:E; cbn [negb]; destruct (store_word _ _ _) as [m|]; try done; cbn [mbind option_bind];
    rewrite <- IH; cbn [mem2 srcp2 dstp2]; unfold pend; rewrite E; apply pipe_eq; lia || done.
Qed.

Lemma bwd_from_len i s s' : bwd_from i s = Some s' -> len2 s' = len2 s.
Proof.
  revert s. induction i as [|i IH]; intros s; cbn [bwd_from]; [by intros [= ->]|].
  unfold bwd_do. intros H. repeat case_match; simplify_option_eq; apply IH in H; done.
Qed.

Lemma bwd_loop_pipe fuel q i s :
  len2 s = 8 * (Z.of_nat q + 1) -> len2 s < 2 ^ 32 -> (q < fuel)%nat ->
  bwd_loop fuel i s =
  pipe1 (-4) (i + 8 * q) (mem2 s) (srcp2 s + (Z.of_nat i - 1) * 4) (dstp2 s + (Z.of_nat i - 1) * 4) (pend i s).
Proof.
  revert q i s. induction fuel as [|fuel IH]; intros q i s Hlen Hw Hq; [lia|].
  rewrite bwd_from_pipe. cbn [bwd_loop]. destruct (bwd_from i s) as [s'|] eqn:E; [|done]. cbn [mbind option_bind].
  apply bwd_from_len in E. cbn [len2 mem2 dstp2 a1_2]. rewrite u32_id by (unfold is_u32; lia). destruct q as [|q].
  - replace (len2 s' - 8) with 0 by lia. cbn [Nat.mul pipe]. unfold OPSIZ. f_equal. lia.
  - destruct (Z.eqb_spec (len2 s' - 8) 0); [lia|]. rewrite (IH q) by (cbn [len2]; lia).
    cbn [mem2 srcp2 dstp2 a1_2]. unfold OPSIZ, pend. apply pipe_eq; [lia..|done].
Qed.

Lemma bwd_start i m d s len v x y :
  (1 <= i <= 8)%nat -> 2 <= len < 2 ^ 31 -> (len + 7 - Z.of_nat i) mod 8 = 0 -> (i = 8%nat -> 9 <= len) ->
  (if Nat.even i then y else x) = v ->
  bwd_loop (Z.to_nat len) i (mk2 m (s - (Z.of_nat i + 1) * 4) (d - Z.of_nat i * 4) (u32 (len + (7 - Z.of_nat i))) x y) =
  pipe1 (-4) (Z.to_nat (len - 1)) m (s - 8) (d - 4) v.
Proof.
  intros Hi Hl Hm H8 <-. apply Z.mod_divide in Hm as [q Hq]; [|lia].
  rewrite u32_id by (unfold is_u32; lia).
  rewrite (bwd_loop_pipe _ (Z.to_nat (q - 1))) by (cbn [len2]; lia). cbn [mem2 srcp2 dstp2].
  apply pipe_eq; [lia..|done].
Qed.

Lemma bwd_aligned_pipe m d s len :
  2 <= len < 2 ^ 31 ->
  _wordcopy_bwd_aligned m d s len = v ← load_word m (s - 4); pipe1 (-4) (Z.to_nat (len - 1)) m (s - 8) (d - 4) v.
Proof.
  intros Hl. unfold _wordcopy_bwd_aligned, OPSIZ. cbv beta zeta.
  assert (Hs : forall i j, j = i + 1 -> s - j * 4 + i * 4 = s - 4) by lia.
  mod_cases len 8;
    rewrite Hs by done;
    (destruct (load_word m (s - 4)) as [v|]; [|done]); cbn [mbind option_bind];
    (eapply bwd_start; [lia|lia|solve_mod|lia|done]).
Qed.

(** *** Four registers *)

(** The two words merged at label [do<i>]. *)
Definition pend_up (i : nat) (s : regs4) : Z * Z :=
  match i with
  | 3%nat => (r3 s, r0 s) | 2%nat => (r0 s, r1 s) | 1%nat => (r1 s, r2 s) | _ => (r2 s, r3 s)
  end.

Definition pend_down (i : nat) (s : regs4) : Z * Z :=
  match i with
  | 3%nat => (r3 s, r0 s) | 2%nat => (r2 s, r3 s) | 1%nat => (r1 s, r2 s) | _ => (r0 s, r1 s)
  end.

Abbreviation pipe_up o := (pipe (out2 o) up2 4).
Abbreviation pipe_down o := (pipe (out2 o) down2 (-4)).

Ltac four i := destruct i as [|[|[|[|[|i]]]]]; try lia.

Ltac step4 :=
  cbn [pipe fwd4_do bwd4_do]; unfold load4, store4, OPSIZ;
  cbn [Z.of_nat Pos.of_succ_nat Pos.succ Z.sub Z.add Z.opp Pos.pred_double Z.pos_sub Pos.add Z.mul Pos.mul Z.succ_double Z.pred_double Z.double];
  destruct (load_word _ _) as [v|]; [|done]; cbn [mbind option_bind mem4 set_reg dstp4 r0 r1 r2 r3 pend_up pend_down];
  unfold out2, OPSIZ, up2, down2; cbn [fst snd];
  destruct (store_word _ _ _) as [m|]; [|done]; cbn [mbind option_bind with_mem4 mem4 srcp4 dstp4 set_reg r0 r1 r2 r3 pend_up pend_down];
  apply pipe_eq; lia || done.

Lemma fwd4_do_pipe o i n s :
  (i < 4)%nat ->
  pipe_up o (S n) (mem4 s) (srcp4 s + (3 - Z.of_nat i) * 4) (dstp4 s + (3 - Z.of_nat i) * 4) (pend_up (S i) s) =
  s' ← fwd4_do (8 * o) (8 * OPSIZ - 8 * o) (S i) s;
  pipe_up o n (mem4 s') (srcp4 s' + (4 - Z.of_nat i) * 4) (dstp4 s' + (4 - Z.of_nat i) * 4) (pend_up i s').
Proof. intros Hi. four i; step4. Qed.

Lemma bwd4_do_pipe o i n s :
  (i < 4)%nat ->
  pipe_down o (S n) (mem4 s) (srcp4 s + Z.of_nat i * 4) (dstp4 s + Z.of_nat i * 4) (pend_down (S i) s) =
  s' ← bwd4_do (8 * o) (8 * OPSIZ - 8 * o) (S i) s;
  pipe_down o n (mem4 s') (srcp4 s' + (Z.of_nat i - 1) * 4) (dstp4 s' + (Z.of_nat i - 1) * 4) (pend_down i s').
Proof. intros Hi. four i; step4. Qed.

Lemma fwd4_from_pipe o i n s :
  (i <= 4)%nat ->
  pipe_up o (i + n) (mem4 s) (srcp4 s + (4 - Z.of_nat i) * 4) (dstp4 s + (4 - Z.of_nat i) * 4) (pend_up i s) =
  s' ← fwd4_from (8 * o) (8 * OPSIZ - 8 * o) i s;
  pipe_up o n (mem4 s') (srcp4 s' + 16) (dstp4 s' + 16) (r2 s', r3 s').
Proof.
  revert s. induction i as [|i IH]; intros s Hi; [done|].
  cbn [fwd4_from Nat.add]. replace (4 - Z.of_nat (S i)) with (3 - Z.of_nat i) by lia.
  rewrite fwd4_do_pipe by lia. destruct (fwd4_do _ _ _ _) as [s'|]; [|done]. apply IH. lia.
Qed.

Lemma bwd4_from_pipe o i n s :
  (i <= 4)%nat ->
  pipe_down o (i + n) (mem4 s) (srcp4 s + (Z.of_nat i - 1) * 4) (dstp4 s + (Z.of_nat i - 1) * 4) (pend_down i s) =
  s' ← bwd4_from (8 * o) (8 * OPSIZ - 8 * o) i s;
  pipe_down o n (mem4 s') (srcp4 s' - 4) (dstp4 s' - 4) (r0 s', r1 s').
Proof.
  revert s. induction i as [|i IH]; intros s Hi; [done|].
  cbn [bwd4_from Nat.add]. replace (Z.of_nat (S i) - 1) with (Z.of_nat i) by lia.
  rewrite bwd4_do_pipe by lia. destruct (bwd4_do _ _ _ _) as [s'|]; [|done]. apply IH. lia.
Qed.

Lemma load_store_len4 i k sh_1 sh_2 k' (f g : regs4 -> Z) s s' :
  (s ← load4 i k s; store4 sh_1 sh_2 k' (f s) (g s) s) = Some s' -> len4 s' = len4 s.
Proof. unfold load4, store4, set_reg, with_mem4. intros H. simplify_option_eq. repeat case_match; done. Qed.

Lemma fwd4_from_len sh_1 sh_2 i s s' : fwd4_from sh_1 sh_2 i s = Some s' -> len4 s' = len4 s.
Proof.
  revert s. induction i as [|i IH]; intros s; cbn [fwd4_from]; [by intros [= ->]|]. intros H.
  destruct (fwd4_do _ _ _ _) as [s1|] eqn:E; [|done]. apply IH in H. rewrite H. revert E. unfold fwd4_do.
  repeat case_match; apply (load_store_len4 _ _ _ _ _ _ _ s s1).
Qed.

Lemma bwd4_from_len sh_1 sh_2 i s s' : bwd4_from sh_1 sh_2 i s = Some s' -> len4 s' = len4 s.
Proof.
  revert s. induction i as [|i IH]; intros s; cbn [bwd4_from]; [by intros [= ->]|]. intros H.
  destruct (bwd4_do _ _ _ _) as [s1|] eqn:E; [|done]. apply IH in H. rewrite H. revert E. unfold bwd4_do.
  repeat case_match; apply (load_store_len4 _ _ _ _ _ _ _ s s1).
Qed.

Lemma fwd4_loop_pipe o fuel q i s :
  len4 s = 4 * (Z.of_nat q + 1) -> len4 s < 2 ^ 32 -> (q < fuel)%nat -> (i <= 4)%nat ->
  fwd4_loop fuel (8 * o) (8 * OPSIZ - 8 * o) i s =
  pipe_up o (i + 4 * q) (mem4 s) (srcp4 s + (4 - Z.of_nat i) * 4) (dstp4 s + (4 - Z.of_nat i) * 4) (pend_up i s).
Proof.
  revert q i s. induction fuel as [|fuel IH]; intros q i s Hlen Hw Hq Hi; [lia|].
  rewrite fwd4_from_pipe by done. cbn [fwd4_loop]. destruct (fwd4_from _ _ i s) as [s'|] eqn:E; [|done].
  cbn [mbind option_bind]. apply fwd4_from_len in E. unfold advance4. cbn [len4].
  rewrite u32_id by (unfold is_u32; lia). destruct q as [|q].
  - replace (len4 s' - 4) with 0 by lia. done.
  - destruct (Z.eqb_spec (len4 s' - 4) 0); [lia|]. rewrite (IH q) by (cbn [len4]; lia).
    cbn [mem4 srcp4 dstp4 r0 r1 r2 r3 pend_up]. unfold OPSIZ. apply pipe_eq; [lia..|done].
Qed.

Lemma bwd4_loop_pipe o fuel q i s :
  len4 s = 4 * (Z.of_nat q + 1) -> len4 s < 2 ^ 32 -> (q < fuel)%nat -> (i <= 4)%nat ->
  bwd4_loop fuel (8 * o) (8 * OPSIZ - 8 * o) i s =
  pipe_down o (i + 4 * q) (mem4 s) (srcp4 s + (Z.of_nat i - 1) * 4) (dstp4 s + (Z.of_nat i - 1) * 4) (pend_down i s).
Proof.
  revert q i s. induction fuel as [|fuel IH]; intros q i s Hlen Hw Hq Hi; [lia|].
  rewrite bwd4_from_pipe by done. cbn [bwd4_loop]. destruct (bwd4_from _ _ i s) as [s'|] eqn:E; [|done].
  cbn [mbind option_bind]. apply bwd4_from_len in E. unfold advance4. cbn [len4].
  rewrite u32_id by (unfold is_u32; lia). destruct q as [|q].
  - replace (len4 s' - 4) with 0 by lia. cbn [Z.eqb Nat.mul Nat.add pipe dstp4 mem4 r0 r1].
    apply f_equal3; [done|unfold OPSIZ; lia|done].
  - destruct (Z.eqb_spec (len4 s' - 4) 0); [lia|]. rewrite (IH q) by (cbn [len4]; lia).
    cbn [mem4 srcp4 dstp4 r0 r1 r2 r3 pend_down]. unfold OPSIZ. apply pipe_eq; [lia..|done].
Qed.

Lemma fwd4_start o i m d s len w x0 x1 x2 x3 :
  (1 <= i <= 4)%nat -> 2 <= len < 2 ^ 31 -> (len + 3 - Z.of_nat i) mod 4 = 0 -> (i = 4%nat -> 5 <= len) ->
  pend_up i (mk4 m s d len x0 x1 x2 x3) = w ->
  fwd4_loop (Z.to_nat len) (8 * o) (8 * OPSIZ - 8 * o) i
    (mk4 m (s - (2 - Z.of_nat i) * OPSIZ) (d - (4 - Z.of_nat i) * OPSIZ) (u32 (len + (3 - Z.of_nat i))) x0 x1 x2 x3) =
  pipe_up o (Z.to_nat (len - 1)) m (s + 8) d w.
Proof.
  intros Hi Hl Hm H8 <-. apply Z.mod_divide in Hm as [q Hq]; [|lia].
  rewrite u32_id by (unfold is_u32; lia).
  rewrite (fwd4_loop_pipe _ _ (Z.to_nat (q - 1))) by (cbn [len4]; lia). cbn [mem4 srcp4 dstp4]. unfold OPSIZ.
  apply pipe_eq; [lia..|]. by four i.
Qed.

Lemma fwd_dest_aligned_pipe m d s len :
  2 <= len < 2 ^ 31 ->
  let a := Z.land s (- OPSIZ) in
  _wordcopy_fwd_dest_aligned m d s len =
  w0 ← load_word m a; w1 ← load_word m (a + 4); pipe_up (s mod OPSIZ) (Z.to_nat (len - 1)) m (a + 8) d (w0, w1).
Proof.
  intros Hl a. unfold _wordcopy_fwd_dest_aligned, load4. cbv beta zeta. fold a. clearbody a. cbn [mem4 srcp4].
  assert (Hs0 : a + 0 * OPSIZ = a) by lia. assert (Hs1 : a + 1 * OPSIZ = a + 4) by (unfold OPSIZ; lia).
  mod_cases len 4; rewrite Hs0; (destruct (load_word m a) as [w0|]; [|done]); cbn [mbind option_bind set_reg mem4 srcp4];
    rewrite Hs1;
    (destruct (load_word m (a + 4)) as [w1|]; [|done]); cbn [mbind option_bind set_reg r0 r1 r2 r3];
    (eapply fwd4_start; [lia|lia|solve_mod|lia|done]).
Qed.

Lemma bwd4_start o i m d s len w x0 x1 x2 x3 :
  (1 <= i <= 4)%nat -> 2 <= len < 2 ^ 31 -> (len + 3 - Z.of_nat i) mod 4 = 0 -> (i = 4%nat -> 5 <= len) ->
  pend_down i (mk4 m s d len x0 x1 x2 x3) = w ->
  bwd4_loop (Z.to_nat len) (8 * o) (8 * OPSIZ - 8 * o) i
    (mk4 m (s - (Z.of_nat i + 2) * OPSIZ) (d - Z.of_nat i * OPSIZ) (u32 (len + (3 - Z.of_nat i))) x0 x1 x2 x3) =
  pipe_down o (Z.to_nat (len - 1)) m (s - 12) (d - 4) w.
Proof.
  intros Hi Hl Hm H8 <-. apply Z.mod_divide in Hm as [q Hq]; [|lia].
  rewrite u32_id by (unfold is_u32; lia).
  rewrite (bwd4_loop_pipe _ _ (Z.to_nat (q - 1))) by (cbn [len4]; lia). cbn [mem4 srcp4 dstp4]. unfold OPSIZ.
  apply pipe_eq; [lia..|]. by four i.
Qed.

Lemma bwd_dest_aligned_pipe m d s len :
  2 <= len < 2 ^ 31 ->
  let a := Z.land s (- OPSIZ) in
  _wordcopy_bwd_dest_aligned m d s len =
  w1 ← load_word m a; w0 ← load_word m (a - 4); pipe_down (s mod OPSIZ) (Z.to_nat (len - 1)) m (a - 8) (d - 4) (w0, w1).
Proof.
  intros Hl a. unfold _wordcopy_bwd_dest_aligned, load4. cbv beta zeta. fold a. clearbody a. cbn [mem4 srcp4].
  assert (Hs1 : forall i j, j = i + 1 -> a + OPSIZ - j * OPSIZ + i * OPSIZ = a) by (unfold OPSIZ; lia).
  assert (Hs2 : forall i j, j = i + 2 -> a + OPSIZ - j * OPSIZ + i * OPSIZ = a - 4) by (unfold OPSIZ; lia).
  mod_cases len 4;
    [rewrite (Hs1 4 5) by done|rewrite (Hs1 5 6) by done|rewrite (Hs1 2 3) by done|rewrite (Hs1 3 4) by done];
    (destruct (load_word m a) as [w1|]; [|done]); cbn [mbind option_bind set_reg mem4 srcp4];
    rewrite Hs2 by done;
    (destruct (load_word m (a - 4)) as [w0|]; [|done]); cbn [mbind option_bind set_reg r0 r1 r2 r3];
    (replace (a - 8) with (a + OPSIZ - 12) by (unfold OPSIZ; lia));
    (eapply bwd4_start; [lia|lia|solve_mod|lia|done]).
Qed.

(** ** The word loops copy *)

Definition wr_up (lo d a : Z) : bool := (lo <=? a) && (a <? d).
Definition wr_down (hi d a : Z) : bool := (d + 4 <=? a) && (a <? hi).

(** Word [w] holds the bytes at [b] of the original memory that belong to the source. *)
Definition holds (m : list Z) (lo hi : Z) (b w : Z) : Prop :=
  is_u32 w /\ forall i, 0 <= i < 4 -> lo <= b + i < hi -> byte w i = znth m (b + i).

Definition holds2 (m : list Z) (lo hi b : Z) (w : Z * Z) : Prop :=
  holds m lo hi b w.1 /\ holds m lo hi (b + 4) w.2.

Lemma part_up m m' lo n k : part m k (wr_up lo) (lo + n) m' -> copied m m' lo n k.
Proof. intros [Hl H]. split; [done|]. intros a Ha. by rewrite H by done. Qed.

Lemma part_down m m' lo n k : part m k (wr_down (lo + n)) (lo - 4) m' -> copied m m' lo n k.
Proof. intros [Hl H]. split; [done|]. intros a Ha. rewrite H by done. unfold wr_down. zbool. Qed.

Lemma wr_up_step lo d a :
  lo <= d -> wr_up lo (d + 4) a = wr_up lo d a || ((d <=? a) && (a <? d + 4)).
Proof. intros. unfold wr_up. zbool. Qed.

Lemma wr_down_step hi d a :
  d + 4 <= hi -> wr_down hi (d + -4) a = wr_down hi d a || ((d <=? a) && (a <? d + 4)).
Proof. intros. unfold wr_down. zbool. Qed.

Lemma holds2_out m lo hi d k w i :
  let o := (lo + k) mod 4 in
  0 < o -> lo <= d -> d + 4 <= hi -> 0 <= i < 4 -> holds2 m (lo + k) (hi + k) (d + k - o) w ->
  byte (out2 o w) i = znth m (d + i + k).
Proof.
  intros o Ho H1 H2 Hi [[U0 B0] [U1 B1]]. assert (o < 4) by (apply Z.mod_pos_bound; lia).
  unfold out2. rewrite byte_MERGE by (done || lia). destruct (Z.ltb_spec (i + o) 4).
  - rewrite B0 by lia. f_equal. lia.
  - rewrite B1 by lia. f_equal. lia.
Qed.

(** The block moved: [n] words at [d], word-aligned, from [d + k]. *)
Definition block (m : list Z) (d n k : Z) : Prop :=
  is_bytes m /\ zlen m mod 4 = 0 /\ d mod 4 = 0 /\ 0 <= d /\ d + 4 * n <= zlen m /\
  0 <= d + k /\ d + k + 4 * n <= zlen m.

Lemma load_holds m lo hi b :
  is_bytes m -> b mod 4 = 0 -> 0 <= b -> b + 4 <= zlen m -> exists w, load_word m b = Some w /\ holds m lo hi b w.
Proof. intros Hb Ha H0 H1. destruct (load_word_ok m b) as (w & -> & Hu & Hw); [done..|]. exists w. split; [done|]. split; auto. Qed.

Section Copies.
Context {W : Type} (out : W -> Z) (shift : W -> Z -> W) (good : Z -> W -> Prop) (m : list Z) (d n k c : Z).
Hypothesis Hblock : block m d n k.
Hypothesis Hn : 1 <= n.
Hypothesis good_out : forall d' w i, d <= d' -> d' + 4 <= d + 4 * n -> good d' w -> 0 <= i < 4 ->
  byte (out w) i = znth m (d' + i + k).

Lemma pipe_copies_up w :
  fwd_safe (4 * n) k -> k <= c -> good d w ->
  (forall d' w v, good d' w -> d <= d' + 4 -> d' + 4 + 4 <= d + 4 * n ->
     holds m (d + k) (d + 4 * n + k) (d' + c) v -> good (d' + 4) (shift w v)) ->
  (forall d', d' mod 4 = 0 -> d <= d' -> d' + 8 <= d + 4 * n ->
     0 <= d' + c /\ d' + c + 4 <= zlen m /\ (d' + c) mod 4 = 0) ->
  exists m', pipe out shift 4 (Z.to_nat (n - 1)) m (d + c) d w = Some m' /\ copied m m' d (4 * n) k.
Proof.
  intros Hs Hc Hg Hsh Hr. destruct Hblock as (Hb & Hz & Hd & H0 & H1 & H2 & H3). unfold fwd_safe in Hs.
  edestruct (pipe_ok out shift 4 m d (d + 4 * n) k c (wr_up d) good) as (m' & E & P); cycle -1.
  { exists m'. split; [exact E|]. apply part_up. by replace (d + 4 * n) with (d + 4 * Z.of_nat (S (Z.to_nat (n - 1)))) by lia. }
  all: try done; try lia.
  - intros. by apply wr_up_step.
  - intros d' w' v G A B Hv Hvb. by apply Hsh.
  - intros d' i A B Hi Hsrc. unfold wr_up. zbool.
  - intros d' A B C D E. apply Hr; lia.
  - split; [done|]. intros a Ha. unfold wr_up. zbool.
Qed.

Lemma pipe_copies_down w :
  bwd_safe (4 * n) k -> c <= k -> good (d + 4 * n - 4) w ->
  (forall d' w v, good d' w -> d <= d' - 4 -> d' <= d + 4 * n ->
     holds m (d + k) (d + 4 * n + k) (d' + c) v -> good (d' - 4) (shift w v)) ->
  (forall d', d' mod 4 = 0 -> d <= d' - 4 -> d' + 4 <= d + 4 * n ->
     0 <= d' + c /\ d' + c + 4 <= zlen m /\ (d' + c) mod 4 = 0) ->
  exists m', pipe out shift (-4) (Z.to_nat (n - 1)) m (d + 4 * n - 4 + c) (d + 4 * n - 4) w = Some m' /\
    copied m m' d (4 * n) k.
Proof.
  intros Hs Hc Hg Hsh Hr. destruct Hblock as (Hb & Hz & Hd & H0 & H1 & H2 & H3). unfold bwd_safe in Hs.
  edestruct (pipe_ok out shift (-4) m d (d + 4 * n) k c (wr_down (d + 4 * n)) good) as (m' & E & P); cycle -1.
  { exists m'. split; [exact E|]. apply part_down.
    by replace (d - 4) with (d + 4 * n - 4 + -4 * Z.of_nat (S (Z.to_nat (n - 1)))) by lia. }
  all: try done; try lia.
  - intros. by apply wr_down_step.
  - intros d' w' v G A B Hv Hvb. apply Hsh; [done|lia..|done].
  - intros d' i A B Hi Hsrc. unfold wr_down. zbool.
  - intros d' A B C D E. apply Hr; lia.
  - split; [done|]. intros a Ha. unfold wr_down. zbool.
  - solve_mod.
Qed.
End Copies.

Lemma fwd_aligned_ok m d n k :
  block m d n k -> k mod 4 = 0 -> 2 <= n < 2 ^ 31 -> fwd_safe (4 * n) k ->
  exists m', _wordcopy_fwd_aligned m d (d + k) n = Some m' /\ copied m m' d (4 * n) k.
Proof.
  intros Hblk Hk Hn Hs. rewrite fwd_aligned_pipe by done. pose proof Hblk as (Hb & Hz & Hd & H0 & H1 & H2 & H3).
  destruct (load_holds m (d + k) (d + 4 * n + k) (d + k)) as (v & -> & Hv); [done|solve_mod|lia..|]. cbn [mbind option_bind].
  replace (d + k + 4) with (d + (k + 4)) by lia.
  apply (pipe_copies_up _ _ (fun d' => holds m (d + k) (d + 4 * n + k) (d' + k))); [done|lia| |done|lia|done| |].
  - intros d' w i A B G Hi. rewrite (proj2 G) by lia. f_equal. lia.
  - intros d' w v' G A B. by replace (d' + 4 + k) with (d' + (k + 4)) by lia.
  - intros d' A B C. split; [lia|]. split; [lia|]. solve_mod.
Qed.

Lemma bwd_aligned_ok m d n k :
  block m d n k -> k mod 4 = 0 -> 2 <= n < 2 ^ 31 -> bwd_safe (4 * n) k ->
  exists m', _wordcopy_bwd_aligned m (d + 4 * n) (d + 4 * n + k) n = Some m' /\ copied m m' d (4 * n) k.
Proof.
  intros Hblk Hk Hn Hs. rewrite bwd_aligned_pipe by done. pose proof Hblk as (Hb & Hz & Hd & H0 & H1 & H2 & H3).
  destruct (load_holds m (d + k) (d + 4 * n + k) (d + 4 * n + k - 4)) as (v & -> & Hv); [done|solve_mod|lia..|]. cbn [mbind option_bind].
  replace (d + 4 * n + k - 8) with (d + 4 * n - 4 + (k - 4)) by lia.
  apply (pipe_copies_down _ _ (fun d' => holds m (d + k) (d + 4 * n + k) (d' + k))); [done|lia| |done|lia| | |].
  - intros d' w i A B G Hi. rewrite (proj2 G) by lia. f_equal. lia.
  - by replace (d + 4 * n - 4 + k) with (d + 4 * n + k - 4) by lia.
  - intros d' w v' G A B. by replace (d' - 4 + k) with (d' + (k - 4)) by lia.
  - intros d' A B C. split; [lia|]. split; [lia|]. solve_mod.
Qed.

Lemma land_opsiz s : Z.land s (- OPSIZ) = s - s mod 4.
Proof.
  change (- OPSIZ) with (Z.lnot (Z.ones 2)). rewrite <- Z.ldiff_land, Z.ldiff_ones_r, Z.shiftl_mul_pow2, Z.shiftr_div_pow2 by lia.
  change (2 ^ 2) with 4. solve_mod.
Qed.

Lemma fwd_dest_aligned_ok m d n k :
  block m d n k -> k mod 4 <> 0 -> 2 <= n < 2 ^ 31 -> fwd_safe (4 * n) k ->
  exists m', _wordcopy_fwd_dest_aligned m d (d + k) n = Some m' /\ copied m m' d (4 * n) k.
Proof.
  intros Hblk Hk Hn Hs. rewrite fwd_dest_aligned_pipe, land_opsiz by done. pose proof Hblk as (Hb & Hz & Hd & H0 & H1 & H2 & H3).
  unfold OPSIZ. set (o := (d + k) mod 4). assert (Ho : 0 < o < 4) by (subst o; solve_mod).
  assert (Ha : (d + k - o) mod 4 = 0) by (subst o; solve_mod).
  assert (Hz' : forall b, b mod 4 = 0 -> b < zlen m -> b + 4 <= zlen m) by (intros; solve_mod).
  destruct (load_holds m (d + k) (d + 4 * n + k) (d + k - o)) as (w0 & -> & Hw0); [done|done|solve_mod|lia|]. cbn [mbind option_bind].
  destruct (load_holds m (d + k) (d + 4 * n + k) (d + k - o + 4)) as (w1 & -> & Hw1); [done|solve_mod|solve_mod|lia|]. cbn [mbind option_bind].
  replace (d + k - o + 8) with (d + (k - o + 8)) by lia.
  apply (pipe_copies_up _ _ (fun d' => holds2 m (d + k) (d + 4 * n + k) (d' + k - o))); [done|lia| |done|lia|done| |].
  - intros d' w i A B G Hi. eapply (holds2_out m d (d + 4 * n)); done || lia.
  - intros d' w v' [G1 G2] A B Hv. split; cbn [up2 fst snd].
    + by replace (d' + 4 + k - o) with (d' + k - o + 4) by lia.
    + by replace (d' + 4 + k - o + 4) with (d' + (k - o + 8)) by lia.
  - intros d' A B C. assert ((d' + (k - o + 8)) mod 4 = 0) by (clear -A Ha Hd; solve_mod).
    split; [lia|]. split; [|done]. apply Hz'; [done|lia].
Qed.

Lemma bwd_dest_aligned_ok m d n k :
  block m d n k -> k mod 4 <> 0 -> 2 <= n < 2 ^ 31 -> bwd_safe (4 * n) k ->
  exists m', _wordcopy_bwd_dest_aligned m (d + 4 * n) (d + 4 * n + k) n = Some m' /\ copied m m' d (4 * n) k.
Proof.
  intros Hblk Hk Hn Hs. rewrite bwd_dest_aligned_pipe, land_opsiz by done. pose proof Hblk as (Hb & Hz & Hd & H0 & H1 & H2 & H3).
  unfold OPSIZ. set (o := (d + k) mod 4). assert (Ho : 0 < o < 4) by (subst o; solve_mod).
  replace ((d + 4 * n + k) mod 4) with o by (subst o; rewrite <- (Z.mod_add (d + k) n) by lia; f_equal; lia).
  assert (Ha : (d + k - o) mod 4 = 0) by (subst o; solve_mod).
  assert (Hz' : forall b, b mod 4 = 0 -> b < zlen m -> b + 4 <= zlen m) by (intros; solve_mod).
  assert (H0' : forall b, b mod 4 = 0 -> 0 < b + 4 -> 0 <= b) by (intros; solve_mod).
  set (a := d + 4 * n + k - o). assert (Ha' : a mod 4 = 0) by (subst a; solve_mod).
  destruct (load_holds m (d + k) (d + 4 * n + k) a) as (w1 & -> & Hw1); [done|done|apply H0'; [done|lia]|apply Hz'; [done|lia]|].
  assert ((a - 4) mod 4 = 0) by (clear -Ha'; solve_mod).
  cbn [mbind option_bind].
  destruct (load_holds m (d + k) (d + 4 * n + k) (a - 4)) as (w0 & -> & Hw0); [done|done|apply H0'; [done|lia]|apply Hz'; [done|lia]|].
  cbn [mbind option_bind].
  replace (a - 8) with (d + 4 * n - 4 + (k - o - 4)) by lia.
  apply (pipe_copies_down _ _ (fun d' => holds2 m (d + k) (d + 4 * n + k) (d' + k - o))); [done|lia| |done|lia| | |].
  - intros d' w i A B G Hi. eapply (holds2_out m d (d + 4 * n)); done || lia.
  - replace (d + 4 * n - 4 + k - o) with (a - 4) by lia. split; cbn [fst snd]; [done|].
    by replace (a - 4 + 4) with a by lia.
  - intros d' w v' [G1 G2] A B Hv. split; cbn [down2 fst snd].
    + by replace (d' - 4 + k - o) with (d' + (k - o - 4)) by lia.
    + by replace (d' - 4 + k - o + 4) with (d' + k - o) by lia.
  - intros d' A B C. assert ((d' + (k - o - 4)) mod 4 = 0) by (clear -A Ha Hd; solve_mod).
    split; [apply H0'; [done|lia]|]. split; [|done]. apply Hz'; [done|lia].
Qed.

(** ** Whole copies *)

(** A range that lies in the memory and a source that does. *)
Definition fits (m : list Z) (d n k : Z) : Prop :=
  0 <= n /\ 0 <= d /\ d + n <= zlen m /\ 0 <= d + k /\ d + k + n <= zlen m.

Definition ram (m : list Z) : Prop := is_bytes m /\ zlen m mod 4 = 0 /\ zlen m < 2 ^ 32.

Lemma ram_copied m m' d n k : ram m -> copied m m' d n k -> ram m'.
Proof. intros (Hb & Hz & Hl) C. split; [by eapply copied_bytes|]. by rewrite (proj1 C). Qed.

Lemma fits_copied m m' d n k d' n' : copied m m' d n k -> fits m d' n' k -> fits m' d' n' k.
Proof. intros [Hl _]. unfold fits. by rewrite Hl. Qed.

Lemma BYTE_COPY_FWD_ok m d n k :
  fits m d n k -> fwd_safe n k ->
  exists m', BYTE_COPY_FWD m d (d + k) n = Some (m', d + n, d + k + n) /\ copied m m' d n k.
Proof.
  intros (H0 & H1 & H2 & H3 & H4) Hs. unfold BYTE_COPY_FWD.
  destruct (byte_copy_fwd_ok (Z.to_nat n) m d k) as (m' & -> & C); rewrite ?Z2Nat.id by lia; try done; try lia.
  rewrite Z2Nat.id in C by lia. by exists m'.
Qed.

Lemma BYTE_COPY_BWD_ok m e n k :
  fits m (e - n) n k -> bwd_safe n k ->
  exists m', BYTE_COPY_BWD m e (e + k) n = Some (m', e - n, e + k - n) /\ copied m m' (e - n) n k.
Proof.
  intros (H0 & H1 & H2 & H3 & H4) Hs. unfold BYTE_COPY_BWD.
  destruct (byte_copy_bwd_ok (Z.to_nat n) m e k) as (m' & -> & C); rewrite ?Z2Nat.id by lia; try done; try lia.
  rewrite Z2Nat.id in C by lia. by exists m'.
Qed.

Lemma WORD_COPY_FWD_ok m d n k :
  ram m -> d mod 4 = 0 -> 8 <= n -> fits m d n k -> fwd_safe n k ->
  let w := n - n mod 4 in
  exists m', WORD_COPY_FWD m d (d + k) n = Some (m', d + w, d + k + w, n mod 4) /\ copied m m' d w k.
Proof.
  intros (Hb & Hz & Hl) Hd Hn (H0 & H1 & H2 & H3 & H4) Hs w. unfold WORD_COPY_FWD. rewrite land_opsiz. fold w.
  unfold OPSIZ. assert (Hw : w = 4 * (n / 4)) by (subst w; solve_mod). rewrite Hw. assert (w <= n) by (subst w; solve_mod).
  assert (block m d (n / 4) k) by (repeat split; lia || done).
  assert (fwd_safe (4 * (n / 4)) k) by (unfold fwd_safe in *; lia).
  assert (2 <= n / 4 < 2 ^ 31) by (Z.to_euclidean_division_equations; lia).
  destruct (Z.eqb_spec ((d + k) mod 4) 0).
  - destruct (fwd_aligned_ok m d (n / 4) k) as (m' & -> & C); [done|solve_mod|done..|]. by exists m'.
  - destruct (fwd_dest_aligned_ok m d (n / 4) k) as (m' & -> & C); [done|solve_mod|done..|]. by exists m'.
Qed.

Lemma WORD_COPY_BWD_ok m e n k :
  ram m -> e mod 4 = 0 -> 8 <= n -> fits m (e - n) n k -> bwd_safe n k ->
  let w := n - n mod 4 in
  exists m', WORD_COPY_BWD m e (e + k) n = Some (m', e - w, e + k - w, n mod 4) /\ copied m m' (e - w) w k.
Proof.
  intros (Hb & Hz & Hl) Hd Hn (H0 & H1 & H2 & H3 & H4) Hs w. unfold WORD_COPY_BWD. rewrite land_opsiz. fold w.
  unfold OPSIZ. assert (Hw : w = 4 * (n / 4)) by (subst w; solve_mod). rewrite Hw. assert (w <= n) by (subst w; solve_mod).
  assert (block m (e - 4 * (n / 4)) (n / 4) k) by (repeat split; lia || done || solve_mod).
  assert (bwd_safe (4 * (n / 4)) k) by (unfold bwd_safe in *; lia).
  assert (2 <= n / 4 < 2 ^ 31) by (Z.to_euclidean_division_equations; lia).
  destruct (Z.eqb_spec ((e + k) mod 4) 0).
  - destruct (bwd_aligned_ok m (e - 4 * (n / 4)) (n / 4) k) as (m' & E & C); [done|solve_mod|done..|].
    rewrite !Z.sub_add in E. rewrite E. by exists m'.
  - destruct (bwd_dest_aligned_ok m (e - 4 * (n / 4)) (n / 4) k) as (m' & E & C); [done|solve_mod|done..|].
    rewrite !Z.sub_add in E. rewrite E. by exists m'.
Qed.

Lemma mem_copy_fwd_ok m d n k :
  ram m -> fits m d n k -> fwd_safe n k ->
  exists m', mem_copy_fwd m d (d + k) n = Some m' /\ copied m m' d n k.
Proof.
  intros Hram Hfit Hs. unfold mem_copy_fwd, OP_T_THRESHOLD.
  destruct (Z.leb_spec 16 n) as [Hn|Hn]; cbn [mbind option_bind]; cycle 1.
  { destruct (BYTE_COPY_FWD_ok m d n k) as (m' & -> & C); [done..|]. by exists m'. }
  pose proof Hram as (_ & _ & Hz). pose proof Hfit as (H0 & H1 & H2 & H3 & H4).
  replace (u32 (- d) mod OPSIZ) with ((- d) mod 4) by (symmetry; apply u32_mod_pow2; exists 2; done).
  set (p := (- d) mod 4). assert (Hp : 0 <= p < 4) by (apply Z.mod_pos_bound; lia).
  assert (Hd : (d + p) mod 4 = 0) by (subst p; solve_mod). clearbody p.
  rewrite u32_id by (unfold is_u32; lia). unfold fwd_safe in Hs.
  destruct (BYTE_COPY_FWD_ok m d p k) as (m1 & -> & C1); [unfold fits; lia|unfold fwd_safe; lia|].
  cbn [mbind option_bind]. replace (d + k + p) with (d + p + k) by lia.
  assert (Hm1 : ram m1) by (by eapply ram_copied).
  assert (Hr : 0 <= (n - p) mod 4 < 4) by (apply Z.mod_pos_bound; lia). assert (Hrle : (n - p) mod 4 <= n - p) by (apply Z.mod_le; lia).
  destruct (WORD_COPY_FWD_ok m1 (d + p) (n - p) k) as (m2 & -> & C2);
    [done|done|lia|eapply fits_copied; [done|unfold fits; lia]|unfold fwd_safe; lia|].
  cbn [mbind option_bind]. set (r := (n - p) mod 4) in *. clearbody r.
  assert (C12 : copied m m2 d (p + (n - p - r)) k) by (apply copied_app with m1; [unfold fwd_safe; lia|lia..|done|done]).
  replace (d + p + (n - p - r)) with (d + (p + (n - p - r))) by lia.
  replace (d + p + k + (n - p - r)) with (d + (p + (n - p - r)) + k) by lia.
  destruct (BYTE_COPY_FWD_ok m2 (d + (p + (n - p - r))) r k) as (m3 & -> & C3);
    [eapply fits_copied; [done|unfold fits; lia]|unfold fwd_safe; lia|].
  exists m3. split; [done|]. replace n with (p + (n - p - r) + r) by lia.
  apply copied_app with m2; [unfold fwd_safe; lia|lia..|done|done].
Qed.

Lemma mem_copy_bwd_ok m d n k :
  ram m -> fits m d n k -> bwd_safe n k ->
  exists m', mem_copy_bwd m d (d + k) n = Some m' /\ copied m m' d n k.
Proof.
  intros Hram Hfit Hs. unfold mem_copy_bwd, OP_T_THRESHOLD.
  pose proof Hram as (_ & _ & Hz). pose proof Hfit as (H0 & H1 & H2 & H3 & H4).
  rewrite (u32_id (d + k + n)), (u32_id (d + n)) by (unfold is_u32; lia). replace (d + k + n) with (d + n + k) by lia.
  remember (d + n) as e eqn:He. replace d with (e - n) by lia.
  destruct (Z.leb_spec 16 n) as [Hn|Hn]; cbn [mbind option_bind]; cycle 1.
  { destruct (BYTE_COPY_BWD_ok m e n k) as (m' & -> & C); [unfold fits; lia|done|]. by exists m'. }
  change OPSIZ with 4. set (p := e mod 4). assert (Hp : 0 <= p < 4) by (apply Z.mod_pos_bound; lia).
  assert (Hd : (e - p) mod 4 = 0) by (subst p; solve_mod). clearbody p.
  rewrite u32_id by (unfold is_u32; lia). unfold bwd_safe in Hs.
  destruct (BYTE_COPY_BWD_ok m e p k) as (m1 & -> & C1); [unfold fits; lia|unfold bwd_safe; lia|].
  cbn [mbind option_bind]. replace (e + k - p) with (e - p + k) by lia.
  assert (Hm1 : ram m1) by (by eapply ram_copied).
  assert (Hr : 0 <= (n - p) mod 4 < 4) by (apply Z.mod_pos_bound; lia). assert (Hrle : (n - p) mod 4 <= n - p) by (apply Z.mod_le; lia).
  destruct (WORD_COPY_BWD_ok m1 (e - p) (n - p) k) as (m2 & -> & C2);
    [done|done|lia|eapply fits_copied; [done|unfold fits; lia]|unfold bwd_safe; lia|].
  cbn [mbind option_bind]. set (r := (n - p) mod 4) in *. clearbody r.
  assert (C12 : copied m m2 (e - (p + (n - p - r))) (p + (n - p - r)) k) by (apply copied_app_bwd with m1; [unfold bwd_safe; lia|lia..|done|done]).
  replace (e - p - (n - p - r)) with (e - (p + (n - p - r))) by lia.
  replace (e - p + k - (n - p - r)) with (e - (p + (n - p - r)) + k) by lia.
  destruct (BYTE_COPY_BWD_ok m2 (e - (p + (n - p - r))) r k) as (m3 & -> & C3);
    [eapply fits_copied; [done|unfold fits; lia]|unfold bwd_safe; lia|].
  exists m3. split; [done|]. replace n with (p + (n - p - r) + r) by lia.
  apply copied_app_bwd with m2; [unfold bwd_safe; lia|lia..|done|done].
Qed.

(** The reference: all the source is read, then written. *)
Lemma copied_reference m m' dest src count :
  fits m dest count (src - dest) -> copied m m' dest count (src - dest) ->
  Prelude.memcpy m dest m src count = Some m'.
Proof.
  intros (H0 & H1 & H2 & H3 & H4) [Hl H]. unfold Prelude.memcpy.
  destruct (read_bytes_Some m src count) as (bs & -> & Hbs & Hn); [lia..|]. cbn [mbind option_bind].
  destruct (write_bytes_Some m dest bs) as (m2 & -> & Hl2 & H'); [lia..|]. f_equal.
  apply znth_ext; [lia|]. intros a Ha. rewrite H', H, Hbs by lia.
  zbool. rewrite Hn by lia. f_equal. lia.
Qed.

Lemma memcpy_reference m dest src count :
  ram m -> 0 <= count -> 0 <= dest -> dest + count <= zlen m -> 0 <= src -> src + count <= zlen m ->
  dest <= src \/ src + count <= dest ->
  exists m', Prelude.memcpy m dest m src count = Some m' /\ memcpy m dest src count = Some (dest, m').
Proof.
  intros Hram H0 H1 H2 H3 H4 Hs. assert (fits m dest count (src - dest)) by (unfold fits; lia).
  unfold memcpy. assert (Hk : src = dest + (src - dest)) by lia.
  destruct (mem_copy_fwd_ok m dest count (src - dest)) as (m' & E & C); [done..|unfold fwd_safe; lia|].
  exists m'. split; [by apply copied_reference|]. rewrite <- Hk in E. by rewrite E.
Qed.

(** C27. For any two ranges of the memory, however they overlap and however they are
    aligned, [memmove] returns [dest] and leaves the memory in which the [count] bytes at
    [dest] are those that were at [src] and every other byte is unchanged; no access is
    outside the memory and no word access is misaligned.  [memcpy] does the same when the
    ranges do not overlap or the destination starts below the source. *)
Theorem memmove_correct m dest src count :
  ram m -> 0 <= count -> 0 <= dest -> dest + count <= zlen m -> 0 <= src -> src + count <= zlen m ->
  exists m', Prelude.memcpy m dest m src count = Some m' /\ memmove m dest src count = Some (dest, m') /\
    (dest <= src \/ src + count <= dest -> memcpy m dest src count = Some (dest, m')).
Proof.
  intros Hram H0 H1 H2 H3 H4. assert (fits m dest count (src - dest)) by (unfold fits; lia).
  pose proof Hram as (_ & _ & Hz).
  assert (Hk : src = dest + (src - dest)) by lia.
  assert (exists m', Prelude.memcpy m dest m src count = Some m' /\ memmove m dest src count = Some (dest, m')) as (m' & R & E).
  { unfold memmove. destruct (Z.leb_spec count (u32 (dest - src))) as [Hc|Hc].
    - destruct (mem_copy_fwd_ok m dest count (src - dest)) as (m' & E & C); [done..| |].
      { unfold fwd_safe. destruct (Z.leb_spec 0 (src - dest)); [lia|]. rewrite u32_id in Hc by (unfold is_u32; lia). lia. }
      exists m'. split; [by apply copied_reference|]. rewrite <- Hk in E. by rewrite E.
    - destruct (mem_copy_bwd_ok m dest count (src - dest)) as (m' & E & C); [done..| |].
      { unfold bwd_safe. destruct (Z.leb_spec (src - dest) 0); [lia|]. unfold u32 in Hc.
        rewrite <- (Z.mod_add _ 1), Z.mod_small in Hc by lia. lia. }
      exists m'. split; [by apply copied_reference|]. rewrite <- Hk in E. by rewrite E. }
  exists m'. split; [done|]. split; [done|]. intros Hs.
  destruct (memcpy_reference m dest src count) as (m2 & R2 & E2); [done..|]. congruence.
Qed.

Lemma memmove_correct_witness :
  exists m', memmove (List.map Z.of_nat (seq 0 40)) 5 3 21 = Some (5, m') /\
    znth m' 25 = 23 /\ znth m' 5 = 3 /\ znth m' 26 = 26.
Proof.
  destruct (memmove_correct (List.map Z.of_nat (seq 0 40)) 5 3 21) as (m' & R & E & _).
  - split; [|split; vm_compute; done]. unfold is_bytes. apply List.Forall_map, Forall_seq. lia.
  - lia.
  - lia.
  - vm_compute. discriminate.
  - lia.
  - vm_compute. discriminate.
  - exists m'. split; [exact E|]. vm_compute in R. injection R as <-. repeat split.
Defined.

End Memcopy.
