(* ===== verification/Ctype.v ===== *)
(** * lib/ctype.c and include/linux/ctype.h: character classes

    The table of 256 masks and the macros that test it.  A character is a byte, a [Z] in
    [[0, 256)]; the macros convert their argument to [unsigned char] first. *)
From S2P Require Import Prelude.

Module Ctype.

Definition _U : Z := 0x01.
Definition _L : Z := 0x02.
Definition _D : Z := 0x04.
Definition _C : Z := 0x08.
Definition _P : Z := 0x10.
Definition _S : Z := 0x20.
Definition _X : Z := 0x40.
Definition _SP : Z := 0x80.

Definition _ctype : list Z :=
  [
   _C; _C; _C; _C; _C; _C; _C; _C; _C; Z.lor _C _S; Z.lor _C _S; Z.lor _C _S; Z.lor _C _S; Z.lor _C _S; _C; _C;
   _C; _C; _C; _C; _C; _C; _C; _C; _C; _C; _C; _C; _C; _C; _C; _C;
   Z.lor _S _SP; _P; _P; _P; _P; _P; _P; _P; _P; _P; _P; _P; _P; _P; _P; _P;
   _D; _D; _D; _D; _D; _D; _D; _D; _D; _D; _P; _P; _P; _P; _P; _P;
   _P; Z.lor _U _X; Z.lor _U _X; Z.lor _U _X; Z.lor _U _X; Z.lor _U _X; Z.lor _U _X; _U; _U; _U; _U; _U; _U; _U; _U; _U;
   _U; _U; _U; _U; _U; _U; _U; _U; _U; _U; _U; _P; _P; _P; _P; _P;
   _P; Z.lor _L _X; Z.lor _L _X; Z.lor _L _X; Z.lor _L _X; Z.lor _L _X; Z.lor _L _X; _L; _L; _L; _L; _L; _L; _L; _L; _L;
   _L; _L; _L; _L; _L; _L; _L; _L; _L; _L; _L; _P; _P; _P; _P; _C;
   0; 0; 0; 0; 0; 0; 0; 0; 0; 0; 0; 0; 0; 0; 0; 0;
   0; 0; 0; 0; 0; 0; 0; 0; 0; 0; 0; 0; 0; 0; 0; 0;
   Z.lor _S _SP; _P; _P; _P; _P; _P; _P; _P; _P; _P; _P; _P; _P; _P; _P; _P;
   _P; _P; _P; _P; _P; _P; _P; _P; _P; _P; _P; _P; _P; _P; _P; _P;
   _U; _U; _U; _U; _U; _U; _U; _U; _U; _U; _U; _U; _U; _U; _U; _U;
   _U; _U; _U; _U; _U; _U; _U; _P; _U; _U; _U; _U; _U; _U; _U; _L;
   _L; _L; _L; _L; _L; _L; _L; _L; _L; _L; _L; _L; _L; _L; _L; _L;
   _L; _L; _L; _L; _L; _L; _L; _P; _L; _L; _L; _L; _L; _L; _L; _L].

Definition u8 (c : Z) : Z := c mod 256.

Definition __ismask (x : Z) : Z := znth _ctype (u8 x).

Definition ismask (c mask : Z) : bool := negb (Z.land (__ismask c) mask =? 0).

Definition isalnum (c : Z) : bool := ismask c (Z.lor (Z.lor _U _L) _D).
Definition isalpha (c : Z) : bool := ismask c (Z.lor _U _L).
Definition isdigit (c : Z) : bool := ismask c _D.
Definition islower (c : Z) : bool := ismask c _L.
Definition isupper (c : Z) : bool := ismask c _U.
Definition isspace (c : Z) : bool := ismask c _S.
Definition isxdigit (c : Z) : bool := ismask c (Z.lor _D _X).

(** [c -= 'A' - 'a'] in an [unsigned char]. *)
Definition tolower (c : Z) : Z := if isupper c then u8 (c - (65 - 97)) else c.
Definition toupper (c : Z) : Z := if islower c then u8 (c - (97 - 65)) else c.

(** ** Facts about the table *)

(** A property of bytes is decided by trying all of them. *)
Lemma all_bytes (P : Z -> bool) :
  forallb P (List.map Z.of_nat (seq 0 256)) = true -> forall c, 0 <= c < 256 -> P c = true.
Proof.
  intros H c Hc. rewrite forallb_forall in H. apply H. apply in_map_iff.
  exists (Z.to_nat c). split; [lia|]. apply in_seq. lia.
Qed.

Lemma all_bytes_eq (f g : Z -> bool) :
  forallb (fun c => eqb (f c) (g c)) (List.map Z.of_nat (seq 0 256)) = true -> forall c, 0 <= c < 256 -> f c = g c.
Proof. intros H c Hc. apply eqb_prop. by apply (all_bytes (fun c => eqb (f c) (g c))). Qed.

Ltac by_bytes := refine (all_bytes_eq _ _ _); vm_compute; reflexivity.

Lemma isdigit_spec : forall c, 0 <= c < 256 -> isdigit c = ((48 <=? c) && (c <=? 57)).
Proof. by_bytes. Qed.

Lemma isspace_spec : forall c, 0 <= c < 256 ->
  isspace c = (((9 <=? c) && (c <=? 13)) || (c =? 32) || (c =? 160)).
Proof. by_bytes. Qed.

Lemma isxdigit_spec : forall c, 0 <= c < 256 ->
  isxdigit c = (((48 <=? c) && (c <=? 57)) || ((65 <=? c) && (c <=? 70)) || ((97 <=? c) && (c <=? 102))).
Proof. by_bytes. Qed.

Lemma tolower_byte c : 0 <= c < 256 -> 0 <= tolower c < 256.
Proof. intros. unfold tolower, u8. destruct (isupper c); [apply Z.mod_pos_bound; lia|lia]. Qed.

(** Only the terminator folds to itself as the terminator. *)
Lemma tolower_zero : forall c, 0 <= c < 256 -> (tolower c =? 0) = (c =? 0).
Proof. by_bytes. Qed.

Lemma tolower_idemp c : 0 <= c < 256 -> tolower (tolower c) = tolower c.
Proof.
  intros Hc. apply Z.eqb_eq. revert c Hc. apply (all_bytes (fun c => tolower (tolower c) =? tolower c)).
  vm_compute. reflexivity.
Qed.

End Ctype.
