(* ===== verification/CString.v ===== *)
(** * lib/string.c: NUL-terminated strings

    The C versions of lib/string.c; the loops run on one byte memory with addresses, so
    that strings may overlap or alias.  An access outside the memory gives [None].  A
    pointer that may be [NULL] is an [option Z].  The loops that scan for a terminator
    have as fuel the size of the memory: each iteration moves to the next address, so more
    iterations would leave the memory.  A [char] is unsigned on this machine. *)
From S2P Require Import Prelude Bitops Memcopy Ctype.
Import Memcopy Ctype.

Module CString.

Definition fuel_of (m : list Z) : nat := S (length m).

(** ** Length *)

(** [for (sc = s; *sc != 0; ++sc)]: where [sc] stops. *)
Fixpoint strend (fuel : nat) (m : list Z) (sc : Z) : option Z :=
  match fuel with
  | O => None
  | S fuel => c ← load_byte m sc; if c =? 0 then Some sc else strend fuel m (sc + 1)
  end.

Definition strlen (m : list Z) (s : Z) : option Z :=
  sc ← strend (fuel_of m) m s; Some (sc - s).

Fixpoint strnlen_loop (fuel : nat) (m : list Z) (sc count : Z) : option Z :=
  match fuel with
  | O => None
  | S fuel =>
      if count =? 0 then Some sc
      else c ← load_byte m sc; if c =? 0 then Some sc else strnlen_loop fuel m (sc + 1) (count - 1)
  end.

Definition strnlen (m : list Z) (s count : Z) : option Z :=
  sc ← strnlen_loop (fuel_of m) m s count; Some (sc - s).

(** ** Comparison *)

(** The two characters when the loop is left. *)
Fixpoint strnicmp_loop (fuel : nat) (m : list Z) (s1 s2 len : Z) : option (Z * Z) :=
  match fuel with
  | O => None
  | S fuel =>
      c1 ← load_byte m s1;
      c2 ← load_byte m s2;
      if (c1 =? 0) || (c2 =? 0) then Some (c1, c2)
      else
        let '(d1, d2) := if c1 =? c2 then (c1, c2) else (tolower c1, tolower c2) in
        if negb (d1 =? d2) then Some (d1, d2)
        else if len - 1 =? 0 then Some (d1, d2)
        else strnicmp_loop fuel m (s1 + 1) (s2 + 1) (len - 1)
  end.

Definition strnicmp (m : list Z) (s1 s2 len : Z) : option Z :=
  '(c1, c2) ← (if negb (len =? 0) then strnicmp_loop (fuel_of m) m s1 s2 len else Some (0, 0));
  Some (c1 - c2).

Fixpoint strcasecmp_loop (fuel : nat) (m : list Z) (s1 s2 : Z) : option Z :=
  match fuel with
  | O => None
  | S fuel =>
      x1 ← load_byte m s1;
      x2 ← load_byte m s2;
      let c1 := tolower x1 in
      let c2 := tolower x2 in
      if (c1 =? c2) && negb (c1 =? 0) then strcasecmp_loop fuel m (s1 + 1) (s2 + 1) else Some (c1 - c2)
  end.

Definition strcasecmp (m : list Z) (s1 s2 : Z) : option Z := strcasecmp_loop (fuel_of m) m s1 s2.

Fixpoint strncasecmp_loop (fuel : nat) (m : list Z) (s1 s2 n : Z) : option Z :=
  match fuel with
  | O => None
  | S fuel =>
      x1 ← load_byte m s1;
      x2 ← load_byte m s2;
      let c1 := tolower x1 in
      let c2 := tolower x2 in
      let n := u32 (n - 1) in
      if (0 <? n) && (c1 =? c2) && negb (c1 =? 0) then strncasecmp_loop fuel m (s1 + 1) (s2 + 1) n
      else Some (c1 - c2)
  end.

Definition strncasecmp (m : list Z) (s1 s2 n : Z) : option Z := strncasecmp_loop (fuel_of m) m s1 s2 n.

Fixpoint strcmp_loop (fuel : nat) (m : list Z) (cs ct : Z) : option Z :=
  match fuel with
  | O => None
  | S fuel =>
      c1 ← load_byte m cs;
      c2 ← load_byte m ct;
      if negb (c1 =? c2) then Some (if c1 <? c2 then -1 else 1)
      else if c1 =? 0 then Some 0
      else strcmp_loop fuel m (cs + 1) (ct + 1)
  end.

Definition strcmp (m : list Z) (cs ct : Z) : option Z := strcmp_loop (fuel_of m) m cs ct.

Fixpoint strncmp_loop (fuel : nat) (m : list Z) (cs ct count : Z) : option Z :=
  match fuel with
  | O => None
  | S fuel =>
      if count =? 0 then Some 0
      else
        c1 ← load_byte m cs;
        c2 ← load_byte m ct;
        if negb (c1 =? c2) then Some (if c1 <? c2 then -1 else 1)
        else if c1 =? 0 then Some 0
        else strncmp_loop fuel m (cs + 1) (ct + 1) (count - 1)
  end.

Definition strncmp (m : list Z) (cs ct count : Z) : option Z := strncmp_loop (fuel_of m) m cs ct count.

Fixpoint memcmp_loop (n : nat) (m : list Z) (su1 su2 res : Z) : option Z :=
  match n with
  | O => Some res
  | S n =>
      c1 ← load_byte m su1;
      c2 ← load_byte m su2;
      let res := c1 - c2 in
      if negb (res =? 0) then Some res else memcmp_loop n m (su1 + 1) (su2 + 1) res
  end.

Definition memcmp (m : list Z) (cs ct count : Z) : option Z := memcmp_loop (Z.to_nat count) m cs ct 0.

(** [while ( *s1 && *s1 == *s2)]: where the two pointers stop. *)
Fixpoint streq_loop (fuel : nat) (m : list Z) (s1 s2 : Z) : option (Z * Z) :=
  match fuel with
  | O => None
  | S fuel =>
      c1 ← load_byte m s1;
      if c1 =? 0 then Some (s1, s2)
      else c2 ← load_byte m s2; if c1 =? c2 then streq_loop fuel m (s1 + 1) (s2 + 1) else Some (s1, s2)
  end.

Definition sysfs_streq (m : list Z) (s1 s2 : Z) : option bool :=
  '(s1, s2) ← streq_loop (fuel_of m) m s1 s2;
  c1 ← load_byte m s1;
  c2 ← load_byte m s2;
  if c1 =? c2 then Some true
  else
    r ← (if (c1 =? 0) && (c2 =? 10) then n ← load_byte m (s2 + 1); Some (n =? 0) else Some false);
    if (r : bool) then Some true
    else if c1 =? 10 then n ← load_byte m (s1 + 1); Some ((n =? 0) && (c2 =? 0))
    else Some false.

(** ** Searches *)

Fixpoint strchr_loop (fuel : nat) (m : list Z) (s c : Z) : option (option Z) :=
  match fuel with
  | O => None
  | S fuel =>
      x ← load_byte m s;
      if negb (x =? u8 c) then if x =? 0 then Some None else strchr_loop fuel m (s + 1) c
      else Some (Some s)
  end.

Definition strchr (m : list Z) (s c : Z) : option (option Z) := strchr_loop (fuel_of m) m s c.

Fixpoint strrchr_loop (fuel : nat) (m : list Z) (s p c : Z) : option (option Z) :=
  match fuel with
  | O => None
  | S fuel =>
      x ← load_byte m p;
      if x =? u8 c then Some (Some p)
      else if s <=? u32 (p - 1) then strrchr_loop fuel m s (u32 (p - 1)) c else Some None
  end.

Definition strrchr (m : list Z) (s c : Z) : option (option Z) :=
  n ← strlen m s; strrchr_loop (fuel_of m) m s (s + n) c.

Fixpoint strnchr_loop (fuel : nat) (m : list Z) (s count c : Z) : option (option Z) :=
  match fuel with
  | O => None
  | S fuel =>
      if count =? 0 then Some None
      else
        x ← load_byte m s;
        if x =? 0 then Some None
        else if x =? u8 c then Some (Some s)
        else strnchr_loop fuel m (s + 1) (count - 1) c
  end.

Definition strnchr (m : list Z) (s count c : Z) : option (option Z) := strnchr_loop (fuel_of m) m s count c.

(** [for (a = accept; *a != 0; ++a) if ( *p == *a) break]: whether the break was taken. *)
Fixpoint among (fuel : nat) (m : list Z) (x a : Z) : option bool :=
  match fuel with
  | O => None
  | S fuel =>
      y ← load_byte m a;
      if y =? 0 then Some false else if x =? y then Some true else among fuel m x (a + 1)
  end.

Fixpoint strspn_loop (fuel : nat) (m : list Z) (p accept count : Z) : option Z :=
  match fuel with
  | O => None
  | S fuel =>
      x ← load_byte m p;
      if x =? 0 then Some count
      else b ← among (fuel_of m) m x accept;
           if (b : bool) then strspn_loop fuel m (p + 1) accept (count + 1) else Some count
  end.

Definition strspn (m : list Z) (s accept : Z) : option Z := strspn_loop (fuel_of m) m s accept 0.

Fixpoint strcspn_loop (fuel : nat) (m : list Z) (p reject count : Z) : option Z :=
  match fuel with
  | O => None
  | S fuel =>
      x ← load_byte m p;
      if x =? 0 then Some count
      else b ← among (fuel_of m) m x reject;
           if (b : bool) then Some count else strcspn_loop fuel m (p + 1) reject (count + 1)
  end.

Definition strcspn (m : list Z) (s reject : Z) : option Z := strcspn_loop (fuel_of m) m s reject 0.

Fixpoint strpbrk_loop (fuel : nat) (m : list Z) (sc1 ct : Z) : option (option Z) :=
  match fuel with
  | O => None
  | S fuel =>
      x ← load_byte m sc1;
      if x =? 0 then Some None
      else b ← among (fuel_of m) m x ct;
           if (b : bool) then Some (Some sc1) else strpbrk_loop fuel m (sc1 + 1) ct
  end.

Definition strpbrk (m : list Z) (cs ct : Z) : option (option Z) := strpbrk_loop (fuel_of m) m cs ct.

(** [strsep(&p, ct)]: the token, [p] afterwards and the memory. *)
Definition strsep (m : list Z) (s : option Z) (ct : Z) : option (option Z * option Z * list Z) :=
  match s with
  | None => Some (None, None, m)
  | Some sbegin =>
      e ← strpbrk m sbegin ct;
      match e with
      | Some e => m ← store_byte m e 0; Some (Some sbegin, Some (e + 1), m)
      | None => Some (Some sbegin, None, m)
      end
  end.

Fixpoint strstr_loop (fuel : nat) (m : list Z) (s1 s2 l1 l2 : Z) : option (option Z) :=
  match fuel with
  | O => None
  | S fuel =>
      if l2 <=? l1 then
        r ← memcmp m s1 s2 l2;
        if r =? 0 then Some (Some s1) else strstr_loop fuel m (s1 + 1) s2 (l1 - 1) l2
      else Some None
  end.

Definition strstr (m : list Z) (s1 s2 : Z) : option (option Z) :=
  l2 ← strlen m s2;
  if l2 =? 0 then Some (Some s1)
  else l1 ← strlen m s1; strstr_loop (fuel_of m) m s1 s2 l1 l2.

Fixpoint memscan_loop (n : nat) (m : list Z) (p c : Z) : option Z :=
  match n with
  | O => Some p
  | S n => x ← load_byte m p; if x =? c then Some p else memscan_loop n m (p + 1) c
  end.

Definition memscan (m : list Z) (addr c size : Z) : option Z := memscan_loop (Z.to_nat size) m addr c.

Fixpoint memchr_loop (n : nat) (m : list Z) (p c : Z) : option (option Z) :=
  match n with
  | O => Some None
  | S n => x ← load_byte m p; if u8 c =? x then Some (Some p) else memchr_loop n m (p + 1) c
  end.

Definition memchr (m : list Z) (s c n : Z) : option (option Z) := memchr_loop (Z.to_nat n) m s c.

(** ** Copies *)

Fixpoint strcpy_loop (fuel : nat) (m : list Z) (dest src : Z) : option (list Z) :=
  match fuel with
  | O => None
  | S fuel =>
      c ← load_byte m src;
      m ← store_byte m dest c;
      if negb (c =? 0) then strcpy_loop fuel m (dest + 1) (src + 1) else Some m
  end.

Definition strcpy (m : list Z) (dest src : Z) : option (Z * list Z) :=
  m' ← strcpy_loop (fuel_of m) m dest src; Some (dest, m').

Fixpoint strncpy_loop (count : nat) (m : list Z) (tmp src : Z) : option (list Z) :=
  match count with
  | O => Some m
  | S count =>
      c ← load_byte m src;
      m ← store_byte m tmp c;
      strncpy_loop count m (tmp + 1) (if negb (c =? 0) then src + 1 else src)
  end.

Definition strncpy (m : list Z) (dest src count : Z) : option (Z * list Z) :=
  m' ← strncpy_loop (Z.to_nat count) m dest src; Some (dest, m').

Definition strlcpy (m : list Z) (dest src size : Z) : option (Z * list Z) :=
  ret ← strlen m src;
  if negb (size =? 0) then
    let len := if size <=? ret then size - 1 else ret in
    '(_, m) ← Memcopy.memcpy m dest src len;
    m ← store_byte m (dest + len) 0;
    Some (ret, m)
  else Some (ret, m).

Definition strcat (m : list Z) (dest src : Z) : option (Z * list Z) :=
  e ← strend (fuel_of m) m dest; m' ← strcpy_loop (fuel_of m) m e src; Some (dest, m').

Fixpoint strncat_loop (fuel : nat) (m : list Z) (dest src count : Z) : option (list Z) :=
  match fuel with
  | O => None
  | S fuel =>
      c ← load_byte m src;
      m ← store_byte m dest c;
      if negb (c =? 0) then
        if count - 1 =? 0 then store_byte m (dest + 1) 0
        else strncat_loop fuel m (dest + 1) (src + 1) (count - 1)
      else Some m
  end.

Definition strncat (m : list Z) (dest src count : Z) : option (Z * list Z) :=
  if negb (count =? 0) then
    e ← strend (fuel_of m) m dest; m' ← strncat_loop (fuel_of m) m e src count; Some (dest, m')
  else Some (dest, m).

Definition strlcat (m : list Z) (dest src count : Z) : option (kres (Z * list Z)) :=
  dsize ← strlen m dest;
  len ← strlen m src;
  let res := u32 (dsize + len) in
  if count <=? dsize then Some Bug
  else
    let dest := dest + dsize in
    let count := count - dsize in
    let len := if count <=? len then count - 1 else len in
    '(_, m) ← Memcopy.memcpy m dest src len;
    m ← store_byte m (dest + len) 0;
    Some (Val (res, m)).

(** [while (end >= s && isspace( *end)) end--]. *)
Fixpoint strip_end (fuel : nat) (m : list Z) (s e : Z) : option Z :=
  match fuel with
  | O => None
  | S fuel =>
      if s <=? e then x ← load_byte m e; if isspace x then strip_end fuel m s (u32 (e - 1)) else Some e
      else Some e
  end.

(** [while ( *s && isspace( *s)) s++]. *)
Fixpoint skip_start (fuel : nat) (m : list Z) (s : Z) : option Z :=
  match fuel with
  | O => None
  | S fuel =>
      x ← load_byte m s;
      if negb (x =? 0) && isspace x then skip_start fuel m (s + 1) else Some s
  end.

Definition strstrip (m : list Z) (s : Z) : option (Z * list Z) :=
  size ← strlen m s;
  if size =? 0 then Some (s, m)
  else
    e ← strip_end (fuel_of m) m s (s + size - 1);
    m ← store_byte m (e + 1) 0;
    p ← skip_start (fuel_of m) m s;
    Some (p, m).

Fixpoint memset_loop (n : nat) (m : list Z) (xs c : Z) : option (list Z) :=
  match n with
  | O => Some m
  | S n => m ← store_byte m xs (u8 c); memset_loop n m (xs + 1) c
  end.

Definition memset (m : list Z) (s c count : Z) : option (Z * list Z) :=
  m' ← memset_loop (Z.to_nat count) m s c; Some (s, m').

(** ** Strings in memory *)

Ltac bnd := cbn [mbind option_bind].

(** The string [s], of bytes that are not NUL, is at [a], with its terminator. *)
Fixpoint cstr (m : list Z) (a : Z) (s : list Z) : Prop :=
  match s with
  | [] => load_byte m a = Some 0
  | c :: s => load_byte m a = Some c /\ c <> 0 /\ cstr m (a + 1) s
  end.

Lemma load_byte_Some m a c : load_byte m a = Some c <-> 0 <= a < zlen m /\ c = znth m a.
Proof.
  unfold load_byte. destruct (in_bounds m a 1) eqn:E.
  - apply in_bounds_spec in E. split; [intros [= <-]; lia|intros [? ->]; done].
  - split; [done|]. intros [H _]. rewrite (proj2 (in_bounds_spec m a 1)) in E by lia. done.
Qed.

Lemma cstr_bounds m a s : cstr m a s -> 0 <= a /\ a + zlen s < zlen m.
Proof.
  revert a. induction s as [|c s IH]; intros a; simpl.
  - intros H. apply load_byte_Some in H. change (zlen []) with 0. lia.
  - intros (H & _ & Hs). apply load_byte_Some in H. apply IH in Hs. unfold zlen in *. simpl. lia.
Qed.

Lemma cstr_fuel m a s : cstr m a s -> (length s < fuel_of m)%nat.
Proof. intros H. apply cstr_bounds in H. unfold zlen, fuel_of in *. lia. Qed.

Lemma cstr_bytes m a s : is_bytes m -> cstr m a s -> Forall (fun c => 0 < c < 256) s.
Proof.
  intros Hm. revert a. induction s as [|c s IH]; intros a; [constructor|]. simpl. intros (H & Hc & Hs).
  constructor; [|by eapply IH]. apply load_byte_Some in H as [_ ->]. pose proof (is_bytes_znth m a Hm). lia.
Qed.

Lemma cstr_load m a s i : cstr m a s -> 0 <= i <= zlen s -> load_byte m (a + i) = Some (znth (s ++ [0]) i).
Proof.
  revert a i. induction s as [|c s IH]; intros a i H Hi.
  - change (zlen []) with 0 in Hi. replace i with 0 by lia. rewrite Z.add_0_r. done.
  - destruct H as (H & Hc & Hs). destruct (Z.eqb_spec i 0) as [->|]; [rewrite Z.add_0_r; done|].
    replace (a + i) with (a + 1 + (i - 1)) by lia. unfold zlen in *. simpl in Hi. rewrite IH by (done || lia).
    f_equal. unfold znth. replace (Z.to_nat i) with (S (Z.to_nat (i - 1))) by lia. done.
Qed.

(** ** Length *)

Lemma strend_ok m a s fuel : cstr m a s -> (length s < fuel)%nat -> strend fuel m a = Some (a + zlen s).
Proof.
  revert a fuel. induction s as [|c s IH]; intros a [|fuel] H Hf; simpl in Hf; try lia; simpl.
  - simpl in H. rewrite H. simpl. f_equal. unfold zlen. simpl. lia.
  - destruct H as (-> & Hc & H). simpl. destruct (Z.eqb_spec c 0); [done|]. rewrite IH by (done || lia).
    f_equal. unfold zlen. simpl. lia.
Qed.

Lemma strlen_ok m a s : cstr m a s -> strlen m a = Some (zlen s).
Proof.
  intros H. unfold strlen. rewrite (strend_ok _ _ s) by (eauto using cstr_fuel). simpl. f_equal. lia.
Qed.

Lemma strnlen_ok m a s n : cstr m a s -> 0 <= n -> strnlen m a n = Some (Z.min (zlen s) n).
Proof.
  intros H Hn. unfold strnlen.
  assert (E : forall s a n fuel, cstr m a s -> 0 <= n -> (length s < fuel)%nat ->
    strnlen_loop fuel m a n = Some (a + Z.min (zlen s) n)).
  { clear. induction s as [|c s IH]; intros a n [|fuel] H Hn Hf; simpl in Hf; try lia; cbn [strnlen_loop cstr] in *.
    - change (zlen []) with 0. rewrite H. simpl. destruct (n =? 0); f_equal; lia.
    - destruct H as (-> & Hc & H). destruct (Z.eqb_spec n 0); [f_equal; unfold zlen; simpl; lia|]. simpl.
      destruct (Z.eqb_spec c 0); [done|]. rewrite IH by (done || lia). f_equal. unfold zlen. simpl. lia. }
  rewrite (E s) by (eauto using cstr_fuel). simpl. f_equal. lia.
Qed.

(** ** Comparison *)

(** Lexicographic comparison by [key]: the difference of the keys where the strings first
    differ, the end of a string counting as 0. *)
Fixpoint lexdiff (key : Z -> Z) (s t : list Z) : Z :=
  match s, t with
  | [], [] => 0
  | [], d :: _ => - key d
  | c :: _, [] => key c
  | c :: s, d :: t => if key c =? key d then lexdiff key s t else key c - key d
  end.

Definition lexcmp (s t : list Z) : Z := Z.sgn (lexdiff (fun c => c) s t).

Definition bytes1 (s : list Z) : Prop := Forall (fun c => 0 < c < 256) s.

Lemma lexdiff_eq (key : Z -> Z) s t :
  (forall c, 0 < c < 256 -> 0 < key c) -> bytes1 s -> bytes1 t ->
  lexdiff key s t = 0 <-> List.map key s = List.map key t.
Proof.
  intros Hk. revert t. induction s as [|c s IH]; intros [|d t] Hs Ht; simpl; [done|..].
  - inversion_clear Ht as [|? ? Hd _]. apply Hk in Hd. split; [lia|done].
  - inversion_clear Hs as [|? ? Hd _]. apply Hk in Hd. split; [lia|done].
  - inversion_clear Hs. inversion_clear Ht. destruct (Z.eqb_spec (key c) (key d)) as [->|].
    + rewrite IH by done. split; [intros ->; done|intros [= ?]; done].
    + split; [lia|]. intros [= ? ?]. done.
Qed.

Lemma lexdiff_sym key s t : lexdiff key t s = - lexdiff key s t.
Proof.
  revert t. induction s as [|c s IH]; intros [|d t]; simpl; try lia.
  rewrite (Z.eqb_sym (key d)). destruct (key c =? key d); [apply IH|lia].
Qed.

Lemma take_cons_Z {A} n (c : A) s : 0 < n -> take (Z.to_nat n) (c :: s) = c :: take (Z.to_nat (n - 1)) s.
Proof. intros. replace (Z.to_nat n) with (S (Z.to_nat (n - 1))) by lia. done. Qed.

(** What lies at an address, without a terminator. *)
Fixpoint bytes_at (m : list Z) (a : Z) (bs : list Z) : Prop :=
  match bs with [] => True | c :: bs => load_byte m a = Some c /\ bytes_at m (a + 1) bs end.

Section Compare.
Context (m : list Z) (Hm : is_bytes m).

(** Replace the fuel by a variable larger than the string. *)
Ltac fuel_gen H :=
  let Hf := fresh "Hf" in
  pose proof (cstr_fuel _ _ _ H) as Hf; generalize dependent (fuel_of m); intros fuel Hf.

(** Read the characters the two strings start with. *)
Ltac heads Ha Hb :=
  pose proof (cstr_bytes m _ _ Hm Ha); pose proof (cstr_bytes m _ _ Hm Hb); cbn [cstr] in Ha, Hb;
  repeat match goal with
  | H : load_byte _ _ = Some _ /\ _ /\ _ |- _ => destruct H as (-> & ? & ?)
  | H : load_byte _ _ = Some 0 |- _ => rewrite H; clear H
  | H : Forall _ (_ :: _) |- _ => inversion_clear H
  end; bnd.

Lemma strcmp_ok s t a b : cstr m a s -> cstr m b t -> strcmp m a b = Some (lexcmp s t).
Proof.
  intros Ha Hb. unfold strcmp, lexcmp. fuel_gen Ha. revert t a b fuel Ha Hb Hf.
  induction s as [|c s IH]; intros [|d t] a b [|fuel] Ha Hb Hf; cbn [length] in Hf; try lia;
    cbn [strcmp_loop lexdiff]; heads Ha Hb.
  - done.
  - zbool. f_equal. lia.
  - zbool. f_equal. lia.
  - destruct (Z.eqb_spec c d) as [->|]; simpl; [|destruct (Z.ltb_spec c d); f_equal; lia].
    destruct (Z.eqb_spec d 0); [done|]. apply IH; done || lia.
Qed.

Lemma strncmp_ok s t a b n :
  cstr m a s -> cstr m b t -> 0 <= n -> strncmp m a b n = Some (lexcmp (take (Z.to_nat n) s) (take (Z.to_nat n) t)).
Proof.
  intros Ha Hb Hn. unfold strncmp, lexcmp. fuel_gen Ha. revert t a b n fuel Ha Hb Hn Hf.
  induction s as [|c s IH]; intros [|d t] a b n [|fuel] Ha Hb Hn Hf; cbn [length] in Hf; try lia;
    cbn [strncmp_loop]; (destruct (Z.eqb_spec n 0) as [->|]; [done|]); rewrite ?take_nil, ?take_cons_Z by lia;
    cbn [lexdiff]; heads Ha Hb.
  - done.
  - zbool. f_equal. lia.
  - zbool. f_equal. lia.
  - destruct (Z.eqb_spec c d) as [->|]; simpl; [|destruct (Z.ltb_spec c d); f_equal; lia].
    destruct (Z.eqb_spec d 0); [done|]. apply IH; done || lia.
Qed.

Lemma tolower_pos c : 0 < c < 256 -> 0 < tolower c.
Proof.
  intros Hc. assert (tolower c <> 0); [|pose proof (tolower_byte c); lia].
  intros E. pose proof (tolower_zero c ltac:(lia)) as Hz. rewrite E in Hz. destruct (Z.eqb_spec c 0); [lia|discriminate Hz].
Qed.

Lemma strcasecmp_ok s t a b : cstr m a s -> cstr m b t -> strcasecmp m a b = Some (lexdiff tolower s t).
Proof.
  intros Ha Hb. unfold strcasecmp. fuel_gen Ha. revert t a b fuel Ha Hb Hf.
  induction s as [|c s IH]; intros [|d t] a b [|fuel] Ha Hb Hf; cbn [length] in Hf; try lia;
    cbn [strcasecmp_loop lexdiff]; heads Ha Hb; cbv zeta; change (tolower 0) with 0.
  - done.
  - pose proof (tolower_pos d). zbool; f_equal; lia.
  - pose proof (tolower_pos c). zbool; f_equal; lia.
  - pose proof (tolower_pos c). destruct (Z.eqb_spec (tolower c) (tolower d)) as [E|]; cbn [andb]; [|done].
    destruct (Z.eqb_spec (tolower c) 0); [lia|]. apply IH; done || lia.
Qed.

Lemma strncasecmp_ok s t a b n :
  cstr m a s -> cstr m b t -> 0 < n < 2 ^ 32 ->
  strncasecmp m a b n = Some (lexdiff tolower (take (Z.to_nat n) s) (take (Z.to_nat n) t)).
Proof.
  intros Ha Hb Hn. unfold strncasecmp. fuel_gen Ha. revert t a b n fuel Ha Hb Hn Hf.
  induction s as [|c s IH]; intros [|d t] a b n [|fuel] Ha Hb Hn Hf; cbn [length] in Hf; try lia;
    cbn [strncasecmp_loop]; rewrite ?take_nil, ?take_cons_Z by lia; cbn [lexdiff]; heads Ha Hb;
    rewrite u32_id by (unfold is_u32; lia); cbv zeta; change (tolower 0) with 0.
  - rewrite andb_false_r. done.
  - pose proof (tolower_pos d). zbool; f_equal; lia.
  - pose proof (tolower_pos c). zbool; f_equal; lia.
  - pose proof (tolower_pos c). destruct (Z.eqb_spec (tolower c) (tolower d)) as [E|]; [|rewrite andb_false_r; done].
    destruct (Z.eqb_spec (tolower c) 0); [lia|]. destruct (Z.ltb_spec 0 (n - 1)); cbn [andb negb].
    + apply IH; done || lia.
    + replace (n - 1) with 0 by lia. rewrite !firstn_O. cbn [lexdiff]. f_equal. lia.
Qed.

Lemma strnicmp_ok s t a b n :
  cstr m a s -> cstr m b t -> 0 <= n ->
  exists r, strnicmp m a b n = Some r /\ Z.sgn r = Z.sgn (lexdiff tolower (take (Z.to_nat n) s) (take (Z.to_nat n) t)).
Proof.
  intros Ha Hb Hn. unfold strnicmp. destruct (Z.eqb_spec n 0) as [->|Hn0]; simpl negb; cbv iota; [by exists 0|].
  fuel_gen Ha.
  assert (exists c d, strnicmp_loop fuel m a b n = Some (c, d) /\
    Z.sgn (c - d) = Z.sgn (lexdiff tolower (take (Z.to_nat n) s) (take (Z.to_nat n) t))) as (c & d & -> & E).
  { revert t a b n fuel Ha Hb Hn Hn0 Hf.
    induction s as [|c s IH]; intros [|d t] a b n [|fuel] Ha Hb Hn Hn0 Hf; cbn [length] in Hf; try lia;
      cbn [strnicmp_loop]; rewrite ?take_nil, ?take_cons_Z by lia; cbn [lexdiff]; heads Ha Hb.
    - by exists 0, 0.
    - exists 0, d. split; [done|]. pose proof (tolower_pos d). lia.
    - exists c, 0. pose proof (tolower_pos c). rewrite orb_true_r. split; [done|]. lia.
    - destruct (Z.eqb_spec c 0); [lia|]. destruct (Z.eqb_spec d 0); [lia|]. cbn [orb].
      destruct (Z.eqb_spec c d) as [->|Hcd].
      + rewrite !Z.eqb_refl. cbn [negb]. destruct (Z.eqb_spec (n - 1) 0) as [E|]; [|apply IH; done || lia].
        exists d, d. split; [done|]. rewrite E, !firstn_O. cbn [lexdiff]. lia.
      + destruct (Z.eqb_spec (tolower c) (tolower d)) as [->|]; cbn [negb]; [|by exists (tolower c), (tolower d)].
        destruct (Z.eqb_spec (n - 1) 0) as [E|]; [|apply IH; done || lia].
        exists (tolower d), (tolower d). split; [done|]. rewrite E, !firstn_O. cbn [lexdiff]. lia. }
  bnd. by exists (c - d).
Qed.

Lemma memcmp_ok s t a b :
  bytes_at m a s -> bytes_at m b t -> length s = length t ->
  exists r, memcmp m a b (zlen s) = Some r /\ r = lexdiff (fun c => c) s t.
Proof.
  unfold memcmp, zlen. rewrite Nat2Z.id. intros Ha Hb Hl. eexists; split; [|reflexivity].
  revert t a b Ha Hb Hl. induction s as [|c s IH]; intros [|d t] a b Ha Hb Hl; try done.
  destruct Ha as [Ha1 Ha]. destruct Hb as [Hb1 Hb]. cbn [length memcmp_loop lexdiff]. rewrite Ha1, Hb1. bnd.
  destruct (Z.eqb_spec (c - d) 0) as [E|E]; cbn [negb]; destruct (Z.eqb_spec c d); try lia; [|done].
  rewrite E. apply IH; [done..|]. simpl in Hl. lia.
Qed.

Lemma sysfs_streq_ok s t a b :
  cstr m a s -> cstr m b t ->
  exists r, sysfs_streq m a b = Some r /\ (r = true <-> s = t \/ s = t ++ [10] \/ t = s ++ [10]).
Proof.
  intros Ha Hb. unfold sysfs_streq. fuel_gen Ha. revert t a b fuel Ha Hb Hf.
  induction s as [|c s IH]; intros [|d t] a b [|fuel] Ha Hb Hf; cbn [length] in Hf; try lia; cbn [streq_loop cstr] in *.
  - rewrite Ha. bnd. cbn [Z.eqb]. bnd. rewrite Ha, Hb. bnd. exists true. naive_solver.
  - destruct Hb as (Hb1 & Hd & Hb). rewrite Ha. bnd. cbn [Z.eqb]. bnd. rewrite Ha, Hb1. bnd.
    destruct (Z.eqb_spec 0 d); [lia|]. cbn [andb]. destruct (Z.eqb_spec d 10) as [->|]; bnd; cbn [Z.eqb].
    + destruct t as [|e t]; cbn [cstr] in Hb.
      * rewrite Hb. bnd. exists true. naive_solver.
      * destruct Hb as (-> & He & Hb). bnd. destruct (Z.eqb_spec e 0); [done|]. exists false. naive_solver.
    + exists false. naive_solver.
  - destruct Ha as (Ha1 & Hc & Ha). rewrite Ha1. bnd. destruct (Z.eqb_spec c 0); [done|]. rewrite Hb. bnd.
    destruct (Z.eqb_spec c 0); [done|]. bnd. rewrite Ha1, Hb. bnd. destruct (Z.eqb_spec c 0); [done|]. cbn [andb]. bnd.
    destruct (Z.eqb_spec c 10) as [->|].
    + destruct s as [|e s]; cbn [cstr] in Ha.
      * rewrite Ha. bnd. exists true. naive_solver.
      * destruct Ha as (-> & He & Ha). bnd. destruct (Z.eqb_spec e 0); [done|]. exists false. naive_solver.
    + exists false. naive_solver.
  - destruct Ha as (Ha1 & Hc & Ha). destruct Hb as (Hb1 & Hd & Hb). rewrite Ha1. bnd. destruct (Z.eqb_spec c 0); [done|].
    rewrite Hb1. bnd. destruct (Z.eqb_spec c d) as [->|Hcd].
    + edestruct (IH t (a + 1) (b + 1) fuel) as (r & E & Hr); [done|done|lia|]. exists r. split; [exact E|]. naive_solver.
    + bnd. rewrite Ha1, Hb1. bnd. destruct (Z.eqb_spec c d); [done|]. destruct (Z.eqb_spec c 0); [done|]. cbn [andb]. bnd.
      exists false. split; [|naive_solver]. destruct (Z.eqb_spec c 10) as [->|]; [|done].
      destruct s as [|e s]; cbn [cstr] in Ha; [rewrite Ha|destruct Ha as (-> & _)]; bnd; destruct (Z.eqb_spec d 0); try done; by rewrite andb_false_r.
Qed.

End Compare.

(** ** Searches *)

Fixpoint first_idx (p : Z -> bool) (s : list Z) : option Z :=
  match s with
  | [] => None
  | c :: s => if p c then Some 0 else (fun i => 1 + i) <$> first_idx p s
  end.

Definition mem (t : list Z) (x : Z) : bool := existsb (Z.eqb x) t.

Lemma first_idx_spec p s :
  match first_idx p s with
  | Some i => 0 <= i < zlen s /\ p (znth s i) = true /\ forall j, 0 <= j < i -> p (znth s j) = false
  | None => forall j, 0 <= j < zlen s -> p (znth s j) = false
  end.
Proof.
  assert (Hz : forall c s j, 0 < j -> znth (c :: s) j = znth s (j - 1)).
  { clear. intros c s j Hj. unfold znth. replace (Z.to_nat j) with (S (Z.to_nat (j - 1))) by lia. done. }
  induction s as [|c s IH]; cbn [first_idx]; [unfold zlen; simpl; lia|]. unfold zlen in *. cbn [length].
  destruct (p c) eqn:E; [repeat split; done || lia|]. destruct (first_idx p s) as [i|]; cbn [fmap option_fmap option_map].
  - destruct IH as (Hi & Hp & Hj). repeat split; try lia.
    + rewrite Hz by lia. by replace (1 + i - 1) with i by lia.
    + intros j Hj'. destruct (Z.eqb_spec j 0) as [->|]; [done|]. rewrite Hz by lia. apply Hj. lia.
  - intros j Hj. destruct (Z.eqb_spec j 0) as [->|]; [done|]. rewrite Hz by lia. apply IH. lia.
Qed.

Section Search.
Context (m : list Z).

Ltac start H :=
  let Hf := fresh "Hf" in
  pose proof (cstr_fuel _ _ _ H) as Hf; generalize dependent (fuel_of m); intros fuel Hf.

Lemma add_first a (r : option Z) :
  (fun i => a + 1 + i) <$> r = (fun i => a + i) <$> ((fun i => 1 + i) <$> r).
Proof. destruct r; simpl; f_equal. lia. Qed.

Lemma strchr_ok a s c :
  cstr m a s -> strchr m a c = Some ((fun i => a + i) <$> first_idx (fun x => x =? u8 c) (s ++ [0])).
Proof.
  intros H. unfold strchr. start H. revert a fuel H Hf.
  induction s as [|x s IH]; intros a [|fuel] H Hf; cbn [length] in Hf; try lia; cbn [strchr_loop cstr app first_idx] in *.
  - rewrite H. bnd. destruct (0 =? u8 c); simpl; f_equal. f_equal. lia.
  - destruct H as (-> & Hx & H). bnd. destruct (x =? u8 c); cbn [negb]; [simpl; do 2 f_equal; lia|].
    destruct (Z.eqb_spec x 0); [done|]. rewrite IH by (done || lia). f_equal. apply add_first.
Qed.

Lemma strnchr_ok a s n c :
  cstr m a s -> 0 <= n ->
  strnchr m a n c = Some ((fun i => a + i) <$> first_idx (fun x => x =? u8 c) (take (Z.to_nat n) s)).
Proof.
  intros H Hn. unfold strnchr. start H. revert a n fuel H Hn Hf.
  induction s as [|x s IH]; intros a n [|fuel] H Hn Hf; cbn [length] in Hf; try lia; cbn [strnchr_loop cstr] in *;
    (destruct (Z.eqb_spec n 0) as [->|]; [done|]).
  - rewrite take_nil, H. done.
  - destruct H as (-> & Hx & H). bnd. rewrite take_cons_Z by lia. cbn [first_idx].
    destruct (Z.eqb_spec x 0); [done|]. destruct (x =? u8 c); [simpl; do 2 f_equal; lia|].
    rewrite IH by (done || lia). f_equal. apply add_first.
Qed.

Lemma among_ok b t x : cstr m b t -> among (fuel_of m) m x b = Some (mem t x).
Proof.
  intros H. start H. revert b fuel H Hf.
  induction t as [|y t IH]; intros b [|fuel] H Hf; cbn [length] in Hf; try lia; cbn [among cstr mem existsb] in *.
  - rewrite H. done.
  - destruct H as (-> & Hy & H). bnd. destruct (Z.eqb_spec y 0); [done|]. destruct (x =? y); [done|]. cbn [orb].
    apply IH; done || lia.
Qed.

Lemma strpbrk_ok a s b t :
  cstr m a s -> cstr m b t -> strpbrk m a b = Some ((fun i => a + i) <$> first_idx (mem t) s).
Proof.
  intros H Ht. unfold strpbrk. pose proof (cstr_fuel _ _ _ H) as Hf. revert Hf. generalize (fuel_of m) at 1 2. intros fuel Hf.
  revert a fuel H Hf. induction s as [|x s IH]; intros a [|fuel] H Hf; cbn [length] in Hf; try lia; cbn [strpbrk_loop cstr first_idx] in *.
  - rewrite H. done.
  - destruct H as (-> & Hx & H). bnd. destruct (Z.eqb_spec x 0); [done|]. rewrite (among_ok b t) by done. bnd.
    destruct (mem t x); [simpl; do 2 f_equal; lia|]. rewrite IH by (done || lia). f_equal. apply add_first.
Qed.

Lemma add_default k (r : option Z) n : k + 1 + default n r = k + default (1 + n) ((fun i => 1 + i) <$> r).
Proof. destruct r; simpl; lia. Qed.

Lemma strcspn_ok a s b t :
  cstr m a s -> cstr m b t -> strcspn m a b = Some (default (zlen s) (first_idx (mem t) s)).
Proof.
  intros H Ht. unfold strcspn. pose proof (cstr_fuel _ _ _ H) as Hf. revert Hf. generalize (fuel_of m). intros fuel Hf.
  assert (E : forall k, strcspn_loop fuel m a b k = Some (k + default (zlen s) (first_idx (mem t) s))); [|rewrite E; f_equal; lia].
  revert a fuel H Hf. induction s as [|x s IH]; intros a [|fuel] H Hf k; cbn [length] in Hf; try lia; cbn [strcspn_loop cstr first_idx] in *.
  - rewrite H. simpl. f_equal. unfold zlen. simpl. lia.
  - destruct H as (-> & Hx & H). bnd. destruct (Z.eqb_spec x 0); [done|]. rewrite (among_ok b t) by done. bnd.
    destruct (mem t x); [simpl; f_equal; lia|]. rewrite IH by (done || lia). f_equal. rewrite add_default. unfold zlen. cbn [length].
    do 2 f_equal. lia.
Qed.

Lemma strspn_ok a s b t :
  cstr m a s -> cstr m b t -> strspn m a b = Some (default (zlen s) (first_idx (fun x => negb (mem t x)) s)).
Proof.
  intros H Ht. unfold strspn. pose proof (cstr_fuel _ _ _ H) as Hf. revert Hf. generalize (fuel_of m). intros fuel Hf.
  assert (E : forall k, strspn_loop fuel m a b k = Some (k + default (zlen s) (first_idx (fun x => negb (mem t x)) s))); [|rewrite E; f_equal; lia].
  revert a fuel H Hf. induction s as [|x s IH]; intros a [|fuel] H Hf k; cbn [length] in Hf; try lia; cbn [strspn_loop cstr first_idx] in *.
  - rewrite H. simpl. f_equal. unfold zlen. simpl. lia.
  - destruct H as (-> & Hx & H). bnd. destruct (Z.eqb_spec x 0); [done|]. rewrite (among_ok b t) by done. bnd.
    destruct (mem t x); cbn [negb]; [|simpl; f_equal; lia]. rewrite IH by (done || lia). f_equal. rewrite add_default. unfold zlen. cbn [length].
    do 2 f_equal. lia.
Qed.

Lemma memchr_ok a bs c :
  bytes_at m a bs -> memchr m a c (zlen bs) = Some ((fun i => a + i) <$> first_idx (fun x => u8 c =? x) bs).
Proof.
  unfold memchr, zlen. rewrite Nat2Z.id. revert a. induction bs as [|x bs IH]; intros a; [done|]. cbn [bytes_at length memchr_loop first_idx].
  intros [-> H]. bnd. destruct (u8 c =? x); [simpl; do 2 f_equal; lia|]. rewrite IH by done. f_equal. apply add_first.
Qed.

Lemma memscan_ok a bs c :
  bytes_at m a bs -> memscan m a c (zlen bs) = Some (a + default (zlen bs) (first_idx (fun x => x =? c) bs)).
Proof.
  unfold memscan, zlen. rewrite Nat2Z.id. revert a. induction bs as [|x bs IH]; intros a; cbn [bytes_at length memscan_loop first_idx].
  { intros _. simpl. f_equal. lia. }
  intros [-> H]. bnd. destruct (x =? c); [simpl; f_equal; lia|]. rewrite IH by done. f_equal. rewrite add_default. do 2 f_equal. lia.
Qed.

(** The last one at or below [i]. *)
Lemma strrchr_loop_ok a s c i fuel :
  cstr m a s -> 0 < a -> zlen m < 2 ^ 32 -> 0 <= i <= zlen s -> i < Z.of_nat fuel ->
  exists r, strrchr_loop fuel m a (a + i) c = Some r /\
    match r with
    | Some p => exists k, p = a + k /\ 0 <= k <= i /\ znth (s ++ [0]) k = u8 c /\ forall j, k < j <= i -> znth (s ++ [0]) j <> u8 c
    | None => forall j, 0 <= j <= i -> znth (s ++ [0]) j <> u8 c
    end.
Proof.
  intros H Ha Hm. revert i. induction fuel as [|fuel IH]; intros i Hi Hf; [lia|]. cbn [strrchr_loop].
  pose proof (cstr_bounds _ _ _ H). rewrite (cstr_load _ _ s) by (done || lia). bnd.
  destruct (Z.eqb_spec (znth (s ++ [0]) i) (u8 c)) as [E|E].
  { eexists; split; [done|]. exists i. repeat split; try done; try lia. }
  rewrite u32_id by (unfold is_u32; lia). replace (a + i - 1) with (a + (i - 1)) by lia.
  destruct (Z.leb_spec a (a + (i - 1))).
  - destruct (IH (i - 1)) as (r & -> & Hr); [lia..|]. exists r. split; [done|]. destruct r as [p|].
    + destruct Hr as (k & -> & Hk & Hc & Hj). exists k. repeat split; try done; try lia.
      intros j Hj'. destruct (Z.eqb_spec j i) as [->|]; [done|]. apply Hj. lia.
    + intros j Hj'. destruct (Z.eqb_spec j i) as [->|]; [done|]. apply Hr. lia.
  - exists None. split; [done|]. intros j Hj. replace j with i by lia. done.
Qed.

(** [t] occurs in [s] at [i]. *)
Definition occurs (s t : list Z) (i : Z) : Prop := take (length t) (drop (Z.to_nat i) s) = t.

Lemma cstr_drop a s i : cstr m a s -> 0 <= i <= zlen s -> cstr m (a + i) (drop (Z.to_nat i) s).
Proof.
  revert a i. induction s as [|c s IH]; intros a i H Hi; unfold zlen in *; cbn [length] in Hi.
  - replace i with 0 by lia. rewrite Z.add_0_r. done.
  - destruct (Z.eqb_spec i 0) as [->|]; [rewrite Z.add_0_r; done|]. destruct H as (_ & _ & H).
    replace (Z.to_nat i) with (S (Z.to_nat (i - 1))) by lia. cbn [drop]. replace (a + i) with (a + 1 + (i - 1)) by lia.
    apply IH; [done|lia].
Qed.

Lemma cstr_bytes_at a s n : cstr m a s -> bytes_at m a (take n s).
Proof.
  revert a n. induction s as [|c s IH]; intros a [|n] H; try done. destruct H as (H & _ & Hs). split; [done|]. by apply IH.
Qed.

Lemma strstr_ok a s b t :
  is_bytes m -> cstr m a s -> cstr m b t ->
  exists r, strstr m a b = Some r /\
    match r with
    | Some p => exists i, p = a + i /\ 0 <= i /\ occurs s t i /\ forall j, 0 <= j < i -> ~ occurs s t j
    | None => forall j, 0 <= j -> ~ occurs s t j
    end.
Proof.
  intros Hm Ha Hb. unfold strstr. rewrite (strlen_ok m b t), (strlen_ok m a s) by done. bnd.
  destruct (Z.eqb_spec (zlen t) 0) as [Ht|Ht].
  { exists (Some a). split; [done|]. exists 0. destruct t; [|unfold zlen in Ht; simpl in Ht; lia].
    split; [lia|]. split; [lia|]. split; [done|]. intros. lia. }
  assert (L : forall fuel i, 0 <= i <= zlen s -> (zlen s - i < Z.of_nat fuel) -> (forall j, 0 <= j < i -> ~ occurs s t j) ->
    exists r, strstr_loop fuel m (a + i) b (zlen s - i) (zlen t) = Some r /\
    match r with
    | Some p => exists i, p = a + i /\ 0 <= i /\ occurs s t i /\ forall j, 0 <= j < i -> ~ occurs s t j
    | None => forall j, 0 <= j -> ~ occurs s t j
    end).
  { induction fuel as [|fuel IH]; intros i Hi Hf Hno; [lia|]. cbn [strstr_loop]. destruct (Z.leb_spec (zlen t) (zlen s - i)).
    - destruct (memcmp_ok m (take (length t) (drop (Z.to_nat i) s)) t (a + i) b) as (r & E & Hr).
      + by apply cstr_bytes_at, cstr_drop.
      + rewrite <- (firstn_all t). by apply cstr_bytes_at.
      + rewrite length_take, length_drop. unfold zlen in *. lia.
      + replace (zlen (take (length t) (drop (Z.to_nat i) s))) with (zlen t) in E
          by (unfold zlen in *; rewrite length_take, length_drop; lia).
        rewrite E. bnd. assert (Hz : r = 0 <-> occurs s t i).
        { rewrite Hr, lexdiff_eq, !List.map_id; [done|lia|..].
          - apply Forall_take, Forall_drop. by eapply cstr_bytes.
          - by eapply cstr_bytes. }
        destruct (Z.eqb_spec r 0) as [E0|E0]; [exists (Some (a + i)); split; [done|]; exists i; naive_solver lia|].
        replace (a + i + 1) with (a + (i + 1)) by lia. replace (zlen s - i - 1) with (zlen s - (i + 1)) by lia.
        pose proof (zlen_nonneg t). apply IH; [lia..|]. intros j Hj. destruct (Z.eqb_spec j i) as [->|]; [tauto|]. apply Hno. lia.
    - exists None. split; [done|]. intros j Hj. destruct (Z.ltb_spec j i); [apply Hno; lia|]. unfold occurs. intros E.
      apply (f_equal length) in E. rewrite length_take, length_drop in E. unfold zlen in *. lia. }
  destruct (L (fuel_of m) 0) as (r & E & Hr); [pose proof (zlen_nonneg s); lia|..].
  - pose proof (cstr_fuel _ _ _ Ha). unfold zlen. lia.
  - intros. lia.
  - rewrite Z.add_0_r, Z.sub_0_r in E. by exists r.
Qed.

Lemma strrchr_ok a s c :
  cstr m a s -> 0 < a -> zlen m < 2 ^ 32 ->
  exists r, strrchr m a c = Some r /\
    match r with
    | Some p => exists k, p = a + k /\ 0 <= k <= zlen s /\ znth (s ++ [0]) k = u8 c /\
                  forall j, k < j <= zlen s -> znth (s ++ [0]) j <> u8 c
    | None => forall j, 0 <= j <= zlen s -> znth (s ++ [0]) j <> u8 c
    end.
Proof.
  intros H Ha Hm. unfold strrchr. rewrite (strlen_ok m a s) by done. bnd. pose proof (zlen_nonneg s).
  apply strrchr_loop_ok; try done; try lia. pose proof (cstr_fuel _ _ _ H). unfold zlen. lia.
Qed.

End Search.

(** The searches of a string [s] find what they say: [strchr] the first and [strrchr]
    the last position of a character, the terminator included, [strnchr] the first within
    a length; [strspn], [strcspn] and [strpbrk] the first character outside or inside a
    set; [strstr] the first position at which [t] occurs, and [NULL] only if it occurs
    nowhere.  All of them terminate without leaving the memory. *)
Theorem string_searches_correct m a s b t c n :
  is_bytes m -> zlen m < 2 ^ 32 -> 0 < a -> cstr m a s -> cstr m b t -> 0 <= n ->
  let at_c := fun x => x =? u8 c in
  strlen m a = Some (zlen s) /\ strnlen m a n = Some (Z.min (zlen s) n) /\
  strchr m a c = Some ((fun i => a + i) <$> first_idx at_c (s ++ [0])) /\
  strnchr m a n c = Some ((fun i => a + i) <$> first_idx at_c (take (Z.to_nat n) s)) /\
  strspn m a b = Some (default (zlen s) (first_idx (fun x => negb (mem t x)) s)) /\
  strcspn m a b = Some (default (zlen s) (first_idx (mem t) s)) /\
  strpbrk m a b = Some ((fun i => a + i) <$> first_idx (mem t) s) /\
  (exists r, strrchr m a c = Some r /\
    match r with
    | Some p => exists k, p = a + k /\ 0 <= k <= zlen s /\ znth (s ++ [0]) k = u8 c /\
                  forall j, k < j <= zlen s -> znth (s ++ [0]) j <> u8 c
    | None => forall j, 0 <= j <= zlen s -> znth (s ++ [0]) j <> u8 c
    end) /\
  (exists r, strstr m a b = Some r /\
    match r with
    | Some p => exists i, p = a + i /\ 0 <= i /\ occurs s t i /\ forall j, 0 <= j < i -> ~ occurs s t j
    | None => forall j, 0 <= j -> ~ occurs s t j
    end).
Proof.
  intros Hm Hl Ha Hs Ht Hn at_c. split_and!; auto using strlen_ok, strnlen_ok, strchr_ok, strnchr_ok, strspn_ok, strcspn_ok, strpbrk_ok, strrchr_ok, strstr_ok.
Qed.

Lemma string_searches_correct_witness :
  strstr [0; 97; 98; 97; 99; 0; 97; 99; 0] 1 6 = Some (Some 3) /\
  strrchr [0; 97; 98; 97; 99; 0; 97; 99; 0] 1 97 = Some (Some 3).
Proof.
  destruct (string_searches_correct [0; 97; 98; 97; 99; 0; 97; 99; 0] 1 [97; 98; 97; 99] 6 [97; 99] 97 2)
    as (_ & _ & _ & _ & _ & _ & _ & (r & E & Hr) & (r' & E' & Hr')).
  - repeat (constructor; [lia|]). constructor.
  - reflexivity.
  - reflexivity.
  - repeat split; done.
  - repeat split; done.
  - done.
  - rewrite E, E'. vm_compute in E, E'. injection E as <-. injection E' as <-. done.
Defined.

(** The comparisons order strings: [strcmp] and [strncmp] by bytes, [strcasecmp],
    [strncasecmp] and [strnicmp] after folding case (the last by its sign only), each
    limited to the first [n] characters where it takes a length; a comparison is 0 exactly
    when the (folded, limited) strings are equal.  [memcmp] compares areas of equal
    length, and [sysfs_streq] is equality up to one trailing newline. *)
Theorem string_compare_correct m a s b t n :
  is_bytes m -> cstr m a s -> cstr m b t -> 0 < n < 2 ^ 32 ->
  let s' := take (Z.to_nat n) s in
  let t' := take (Z.to_nat n) t in
  strcmp m a b = Some (lexcmp s t) /\ (lexcmp s t = 0 <-> s = t) /\
  strncmp m a b n = Some (lexcmp s' t') /\ (lexcmp s' t' = 0 <-> s' = t') /\
  strcasecmp m a b = Some (lexdiff tolower s t) /\
  (lexdiff tolower s t = 0 <-> List.map tolower s = List.map tolower t) /\
  strncasecmp m a b n = Some (lexdiff tolower s' t') /\
  (exists r, strnicmp m a b n = Some r /\ Z.sgn r = Z.sgn (lexdiff tolower s' t')) /\
  (lexdiff tolower s' t' = 0 <-> List.map tolower s' = List.map tolower t') /\
  (zlen s = zlen t -> memcmp m a b (zlen s) = Some (lexdiff (fun c => c) s t)) /\
  (exists r, sysfs_streq m a b = Some r /\ (r = true <-> s = t \/ s = t ++ [10] \/ t = s ++ [10])).
Proof.
  intros Hm Ha Hb Hn s' t'.
  pose proof (cstr_bytes m a s Hm Ha) as Bs. pose proof (cstr_bytes m b t Hm Hb) as Bt.
  assert (Bs' : bytes1 s') by by apply Forall_take. assert (Bt' : bytes1 t') by by apply Forall_take.
  assert (Hlex : forall x y, bytes1 x -> bytes1 y -> lexcmp x y = 0 <-> x = y).
  { intros x y Hx Hy. unfold lexcmp. rewrite Z.sgn_null_iff, lexdiff_eq, !List.map_id; [done|lia|done..]. }
  split_and!; auto using strcmp_ok, strcasecmp_ok, strncasecmp_ok, sysfs_streq_ok.
  - apply strncmp_ok; done || lia.
  - apply lexdiff_eq; [|done..]. intros. by apply tolower_pos.
  - by apply strncasecmp_ok.
  - apply strnicmp_ok; done || lia.
  - apply lexdiff_eq; [|done..]. intros. by apply tolower_pos.
  - intros Hl. destruct (memcmp_ok m s t a b) as (r & E & ->); [..|done].
    + rewrite <- (firstn_all s). by apply cstr_bytes_at.
    + rewrite <- (firstn_all t). by apply cstr_bytes_at.
    + unfold zlen in Hl. lia.
Qed.

Lemma string_compare_correct_witness :
  strcmp [65; 98; 0; 97; 66; 0] 0 3 = Some (-1) /\ strcasecmp [65; 98; 0; 97; 66; 0] 0 3 = Some 0.
Proof.
  destruct (string_compare_correct [65; 98; 0; 97; 66; 0] 0 [65; 98] 3 [97; 66] 2)
    as (E & _ & _ & _ & E' & _).
  - repeat (constructor; [lia|]). constructor.
  - repeat split; done.
  - repeat split; done.
  - lia.
  - split; [exact E|exact E'].
Defined.

(** A length of 0 is no limit for [strncasecmp]: it compares first and decrements the
    length afterwards, so that two strings of which no character should be compared are
    reported different. *)
Theorem strncasecmp_zero_compares : strncasecmp [97; 0; 98; 0] 0 2 0 = Some (-1).
Proof. reflexivity. Qed.

(** ** Writing strings *)

Lemma write_bytes_app m d xs ys :
  0 <= d -> d + zlen xs + zlen ys <= zlen m ->
  (m1 ← write_bytes m d xs; write_bytes m1 (d + zlen xs) ys) = write_bytes m d (xs ++ ys).
Proof.
  intros H0 H1. pose proof (zlen_nonneg xs). pose proof (zlen_nonneg ys).
  destruct (write_bytes_Some m d xs) as (m1 & -> & L1 & E1); [lia..|]. bnd.
  destruct (write_bytes_Some m1 (d + zlen xs) ys) as (m2 & -> & L2 & E2); [lia..|].
  destruct (write_bytes_Some m d (xs ++ ys)) as (m3 & -> & L3 & E3); [rewrite ?zlen_app; lia..|].
  f_equal. apply znth_ext; [lia|]. intros i Hi. rewrite E2, E3, zlen_app by lia. destruct (Z.ltb_spec i (d + zlen xs)).
  - rewrite E1 by lia. zbool. rewrite znth_app_l by lia. done.
  - zbool; [rewrite znth_app_r by lia; f_equal; lia|rewrite E1 by lia; zbool].
Qed.

Lemma write_bytes_cons m d c bs :
  0 <= d -> d + 1 + zlen bs <= zlen m ->
  (m1 ← store_byte m d c; write_bytes m1 (d + 1) bs) = write_bytes m d (c :: bs).
Proof. apply (write_bytes_app m d [c] bs). Qed.

Lemma write_bytes_inv m d bs m' :
  write_bytes m d bs = Some m' ->
  0 <= d /\ d + zlen bs <= zlen m /\ zlen m' = zlen m /\
  forall i, 0 <= i < zlen m -> znth m' i = if (d <=? i) && (i <? d + zlen bs) then znth bs (i - d) else znth m i.
Proof.
  intros H. assert (E : in_bounds m d (zlen bs) = true) by (unfold write_bytes in H; destruct (in_bounds _ _ _); done).
  apply in_bounds_spec in E. destruct (write_bytes_Some m d bs) as (m2 & E2 & L & Hz); [lia..|].
  rewrite H in E2. injection E2 as <-. repeat split; done || lia.
Qed.

Lemma load_frame m d bs m' x :
  write_bytes m d bs = Some m' -> x < d \/ d + zlen bs <= x -> load_byte m' x = load_byte m x.
Proof.
  intros (_ & _ & L & Hz)%write_bytes_inv Hx. unfold load_byte. destruct (in_bounds m x 1) eqn:E.
  - apply in_bounds_spec in E. rewrite (proj2 (in_bounds_spec m' x 1)) by lia. f_equal. rewrite Hz by lia. zbool.
  - unfold in_bounds in *. rewrite L, E. done.
Qed.

Lemma load_written m d c m' : store_byte m d c = Some m' -> load_byte m' d = Some c.
Proof.
  intros (H0 & H1 & L & Hz)%write_bytes_inv. change (zlen [c]) with 1 in *. apply load_byte_Some. split; [lia|].
  rewrite Hz by lia. zbool. by replace (d - d) with 0 by lia.
Qed.

Lemma cstr_frame m d bs m' a s :
  write_bytes m d bs = Some m' -> a + zlen s < d \/ d + zlen bs <= a -> cstr m a s -> cstr m' a s.
Proof.
  intros H. revert a. induction s as [|c s IH]; intros a Ha Hs; unfold zlen in Ha; cbn [length] in Ha; cbn [cstr] in *.
  - rewrite (load_frame _ _ _ _ _ H) by (unfold zlen; lia). done.
  - destruct Hs as (H1 & Hc & Hs). rewrite (load_frame _ _ _ _ _ H) by (unfold zlen; lia). split; [done|]. split; [done|].
    apply IH; [unfold zlen; lia|done].
Qed.

Lemma write_bytes_ram m d bs m' :
  ram m -> write_bytes m d bs = Some m' -> Forall (fun b => 0 <= b < 256) bs -> ram m'.
Proof.
  intros (Hb & Hz & Hl) H Hbs. unfold write_bytes in H. destruct (in_bounds m d (zlen bs)) eqn:E; [|done].
  apply in_bounds_spec in E. injection H as <-. split.
  - apply Forall_app. split; [by apply Forall_take|]. apply Forall_app. split; [done|by apply Forall_drop].
  - rewrite !zlen_app. unfold zlen in *. rewrite length_take, length_drop.
    replace (_ + _) with (Z.of_nat (length m)) by lia. done.
Qed.

(** The string just written can be read back. *)
Lemma cstr_written m d s m' :
  Forall (fun c => c <> 0) s -> write_bytes m d (s ++ [0]) = Some m' -> cstr m' d s.
Proof.
  intros Hs. revert m d. induction s as [|c s IH]; intros m d H; [by eapply load_written|].
  inversion_clear Hs as [|? ? Hc Hs']. pose proof (write_bytes_inv _ _ _ _ H) as (H0 & H1 & _).
  cbn [app] in H. rewrite <- write_bytes_cons in H by (unfold zlen in *; cbn [app length] in *; lia).
  destruct (store_byte m d c) as [m1|] eqn:E1; [|done]. cbn [mbind option_bind] in H.
  cbn [cstr]. split; [|split; [done|by apply (IH Hs' m1)]]. rewrite (load_frame _ _ _ _ d H) by lia. by eapply load_written.
Qed.

(** [n] bytes at [d] that the string [s] at [a], with its terminator, does not touch. *)
Definition apart (m : list Z) (d n a : Z) (s : list Z) : Prop :=
  0 <= d /\ d + n <= zlen m /\ (a + zlen s < d \/ d + n <= a).

Lemma strcpy_loop_ok m d a s fuel :
  cstr m a s -> apart m d (zlen s + 1) a s -> (length s < fuel)%nat ->
  exists m', strcpy_loop fuel m d a = Some m' /\ write_bytes m d (s ++ [0]) = Some m'.
Proof.
  revert m d a fuel. induction s as [|c s IH]; intros m d a [|fuel] H (H0 & H1 & H2) Hf; cbn [length] in Hf; try lia;
    cbn [strcpy_loop cstr app] in *.
  - rewrite H. bnd. change (zlen [] + 1) with (zlen [0]) in *. destruct (write_bytes_Some m d [0]) as (m' & E & _); [lia..|].
    unfold store_byte. rewrite E. by exists m'.
  - destruct H as (-> & Hc & H). bnd. destruct (Z.eqb_spec c 0); [done|]. cbn [negb]. unfold zlen in *. cbn [length] in *.
    rewrite <- write_bytes_cons by (unfold zlen; rewrite ?length_app; simpl; lia).
    destruct (write_bytes_Some m d [c]) as (m1 & E & L & _); [lia|unfold zlen; simpl; lia|]. unfold store_byte. rewrite E. bnd.
    apply IH; [|unfold apart, zlen in *; lia|lia]. eapply cstr_frame; [exact E|change (zlen [c]) with 1; unfold zlen; lia|done].
Qed.

(** [n] bytes of [s], padded with NULs. *)
Definition padded (n : nat) (s : list Z) : list Z := take n (s ++ replicate n 0).

Lemma padded_length n s : length (padded n s) = n.
Proof. unfold padded. rewrite length_take, length_app, length_replicate. lia. Qed.

Lemma padded_nil n : padded (S n) [] = 0 :: padded n [].
Proof. unfold padded. simpl. rewrite !firstn_all2; rewrite ?length_replicate; done || lia. Qed.

Lemma padded_cons n c s : padded (S n) (c :: s) = c :: padded n s.
Proof.
  unfold padded. cbn [app take]. f_equal. rewrite !take_app. f_equal. rewrite !take_replicate. f_equal. lia.
Qed.

Lemma store_ok m d c : 0 <= d < zlen m -> exists m', store_byte m d c = Some m' /\ write_bytes m d [c] = Some m' /\ zlen m' = zlen m.
Proof. intros Hd. destruct (write_bytes_Some m d [c]) as (m' & E & L & _); [lia|change (zlen [c]) with 1; lia|]. by exists m'. Qed.

Lemma strncpy_loop_ok n m d a s :
  cstr m a s -> apart m d (Z.of_nat n) a s ->
  exists m', strncpy_loop n m d a = Some m' /\ write_bytes m d (padded n s) = Some m'.
Proof.
  revert m d a s. induction n as [|n IH]; intros m d a s H (H0 & H1 & H2).
  { exists m. split; [done|]. unfold padded, write_bytes. rewrite firstn_O, (proj2 (in_bounds_spec m d _)) by (unfold zlen in *; simpl; lia).
    cbn [app length]. rewrite Nat.add_0_r, take_drop. done. }
  cbn [strncpy_loop]. destruct s as [|c s].
  - pose proof H as Hl. cbn [cstr] in Hl. rewrite Hl. bnd. change (negb (0 =? 0)) with false. cbv iota.
    rewrite padded_nil, <- write_bytes_cons by (unfold zlen; rewrite ?padded_length; unfold zlen in *; lia).
    destruct (store_ok m d 0) as (m1 & -> & E & L); [lia|]. bnd. apply IH; [|unfold apart, zlen in *; lia].
    eapply cstr_frame; [exact E|change (zlen [0]) with 1; unfold zlen in *; simpl in *; lia|done].
  - destruct H as (Hl & Hc & H). rewrite Hl. bnd. destruct (Z.eqb_spec c 0); [done|]. cbn [negb].
    rewrite padded_cons, <- write_bytes_cons by (unfold zlen; rewrite ?padded_length; unfold zlen in *; lia).
    unfold zlen in *. cbn [length] in *.
    destruct (store_ok m d c) as (m1 & -> & E & L); [unfold zlen; lia|]. bnd. apply IH; [|unfold apart, zlen in *; lia].
    eapply cstr_frame; [exact E|change (zlen [c]) with 1; unfold zlen; lia|done].
Qed.

Lemma strncat_loop_ok m d a s n fuel :
  cstr m a s -> 0 < n -> apart m d (Z.min (zlen s) n + 1) a s -> (length s < fuel)%nat ->
  exists m', strncat_loop fuel m d a n = Some m' /\ write_bytes m d (take (Z.to_nat n) s ++ [0]) = Some m'.
Proof.
  revert m d a n fuel. induction s as [|c s IH]; intros m d a n [|fuel] H Hn (H0 & H1 & H2) Hf; cbn [length] in Hf; try lia;
    cbn [strncat_loop cstr] in *.
  - rewrite H, take_nil. bnd. change (zlen []) with 0 in *. destruct (store_ok m d 0) as (m' & -> & E & _); [lia|]. by exists m'.
  - destruct H as (-> & Hc & H). bnd. destruct (Z.eqb_spec c 0); [done|]. cbn [negb]. unfold zlen in *. cbn [length] in *.
    rewrite take_cons_Z by lia. cbn [app]. rewrite <- write_bytes_cons by (unfold zlen; rewrite ?length_app, ?length_take; simpl; lia).
    destruct (store_ok m d c) as (m1 & -> & E & L); [unfold zlen; lia|]. bnd. unfold zlen in *.
    destruct (Z.eqb_spec (n - 1) 0) as [->|].
    + rewrite firstn_O. cbn [app]. destruct (store_ok m1 (d + 1) 0) as (m2 & -> & E2 & _); [unfold zlen; lia|]. by exists m2.
    + apply IH; [|lia|unfold apart, zlen in *; lia|lia]. eapply cstr_frame; [exact E|change (zlen [c]) with 1; unfold zlen; lia|done].
Qed.

(** The block copy, the string and the terminator that [strlcpy] and [strlcat] write. *)
Lemma memcpy_terminate m d a s n :
  ram m -> cstr m a s -> 0 <= n <= zlen s -> apart m d (n + 1) a s ->
  exists m1 m', Memcopy.memcpy m d a n = Some (d, m1) /\ store_byte m1 (d + n) 0 = Some m' /\
    write_bytes m d (take (Z.to_nat n) s ++ [0]) = Some m'.
Proof.
  intros Hram Hs Hn (H0 & H1 & H2). pose proof (cstr_bounds _ _ _ Hs).
  destruct (memcpy_reference m d a n) as (m1 & R & E); [done|lia..|]. rewrite E.
  destruct (read_bytes_Some m a n) as (bs & Hr & Hl & Hb); [lia..|].
  assert (bs = take (Z.to_nat n) s) as ->.
  { apply znth_ext; [rewrite zlen_take; lia|]. intros i Hi. rewrite Hb, znth_take by lia.
    pose proof (cstr_load m a s i Hs ltac:(lia)) as HL. rewrite znth_app_l in HL by lia. apply load_byte_Some in HL. symmetry. apply HL. }
  unfold Prelude.memcpy in R. rewrite Hr in R. cbn [mbind option_bind] in R.
  assert (L1 := write_bytes_inv _ _ _ _ R). destruct (store_ok m1 (d + n) 0) as (m' & E' & W & _); [lia|].
  exists m1, m'. split; [done|]. split; [done|]. rewrite <- write_bytes_app by (rewrite ?zlen_take; change (zlen [0]) with 1; lia).
  rewrite R, zlen_take by lia. done.
Qed.

Lemma not_NUL m a s : cstr m a s -> Forall (fun c => c <> 0) s.
Proof. revert a. induction s as [|c s IH]; intros a; [constructor|]. intros (_ & Hc & H). constructor; [done|by eapply IH]. Qed.

Lemma memset_loop_ok n m d c :
  0 <= d -> d + Z.of_nat n <= zlen m ->
  exists m', memset_loop n m d c = Some m' /\ write_bytes m d (replicate n (u8 c)) = Some m'.
Proof.
  revert m d. induction n as [|n IH]; intros m d H0 H1; cbn [memset_loop replicate].
  { exists m. split; [done|]. unfold write_bytes. rewrite (proj2 (in_bounds_spec m d _)) by (unfold zlen in *; simpl; lia).
    cbn [app length]. rewrite Nat.add_0_r, take_drop. done. }
  rewrite <- write_bytes_cons by (unfold zlen in *; rewrite ?length_replicate; lia).
  destruct (store_ok m d (u8 c)) as (m1 & -> & E & L); [lia|]. bnd. apply IH; lia.
Qed.

(** C38. The string copies write exactly the bytes they should at [dest] and nothing else:
    [strcpy] the string and its terminator, [strncpy] exactly [n] bytes, cut or padded
    with NULs, [strlcpy] the part that fits and a terminator, so that the result can be
    read back as a string; [strlcpy] returns the length of the source.  [memset] writes
    [n] times the low byte of [c]. *)
Theorem string_copies_correct m dest src s n c :
  ram m -> cstr m src s -> 0 < n ->
  (0 <= dest -> dest + n <= zlen m ->
     exists m', memset m dest c n = Some (dest, m') /\ write_bytes m dest (replicate (Z.to_nat n) (u8 c)) = Some m') /\
  (apart m dest (zlen s + 1) src s ->
     exists m', strcpy m dest src = Some (dest, m') /\ write_bytes m dest (s ++ [0]) = Some m' /\ cstr m' dest s) /\
  (apart m dest n src s ->
     exists m', strncpy m dest src n = Some (dest, m') /\ write_bytes m dest (padded (Z.to_nat n) s) = Some m') /\
  (apart m dest n src s ->
     exists m', let kept := take (Z.to_nat (n - 1)) s in
       strlcpy m dest src n = Some (zlen s, m') /\ write_bytes m dest (kept ++ [0]) = Some m' /\ cstr m' dest kept).
Proof.
  intros Hram Hs Hn. pose proof (not_NUL _ _ _ Hs) as Hz. split_and!.
  - intros H0 H1. unfold memset. destruct (memset_loop_ok (Z.to_nat n) m dest c) as (m' & -> & W); [lia..|]. by exists m'.
  - intros Ha. unfold strcpy. destruct (strcpy_loop_ok m dest src s (fuel_of m)) as (m' & -> & W); [done..|by eapply cstr_fuel|].
    exists m'. split; [done|]. split; [done|by eapply cstr_written].
  - intros Ha. unfold strncpy. destruct (strncpy_loop_ok (Z.to_nat n) m dest src s) as (m' & -> & W); [done|by rewrite Z2Nat.id by lia|].
    by exists m'.
  - intros (H0 & H1 & H2). unfold strlcpy. rewrite (strlen_ok m src s) by done. bnd. destruct (Z.eqb_spec n 0); [lia|]. cbn [negb].
    pose proof (zlen_nonneg s). set (len := if n <=? zlen s then n - 1 else zlen s).
    assert (Hlen : len = Z.min (n - 1) (zlen s)) by (subst len; zbool). clearbody len.
    destruct (memcpy_terminate m dest src s len) as (m1 & m' & -> & E & W); [done|done|lia|unfold apart; lia|]. bnd. rewrite E. bnd.
    assert (take (Z.to_nat (n - 1)) s = take (Z.to_nat len) s) as ->.
    { destruct (Z.leb_spec (zlen s) (n - 1)); [|by replace len with (n - 1) by lia].
      rewrite !firstn_all2; unfold zlen in *; done || lia. }
    exists m'. split; [done|]. split; [done|]. eapply cstr_written; [|done]. by apply Forall_take.
Qed.

Lemma string_copies_correct_witness :
  exists m', strlcpy [97; 98; 0; 9; 9; 9; 9; 9] 4 0 2 = Some (2, m') /\ m' = [97; 98; 0; 9; 97; 0; 9; 9].
Proof.
  destruct (string_copies_correct [97; 98; 0; 9; 9; 9; 9; 9] 4 0 [97; 98] 2 0) as (_ & _ & _ & H).
  - split; [repeat (constructor; [lia|]); constructor|split; done].
  - repeat split; done.
  - done.
  - destruct H as (m' & E & W & _).
    + split; [done|]. split; [vm_compute; discriminate|left; done].
    + exists m'. split; [exact E|]. vm_compute in W. injection W as <-. done.
Defined.

(** The appending functions keep the string at [dest] and continue it: [strcat] by the
    whole source, [strncat] by at most [n] of its characters, [strlcat] by what fits in a
    buffer of [n] bytes; each terminates the result.  [strlcat] returns the length it tried
    to create, and a buffer that is already full is a [BUG]. *)
Theorem string_appends_correct m dest t src s n :
  ram m -> cstr m dest t -> cstr m src s -> 0 < n ->
  let e := dest + zlen t in
  (apart m e (zlen s + 1) src s ->
     exists m', strcat m dest src = Some (dest, m') /\ write_bytes m e (s ++ [0]) = Some m') /\
  (apart m e (n + 1) src s ->
     exists m', strncat m dest src n = Some (dest, m') /\ write_bytes m e (take (Z.to_nat n) s ++ [0]) = Some m') /\
  (n <= zlen t -> strlcat m dest src n = Some Bug) /\
  (zlen t < n -> apart m e (n - zlen t) src s ->
     exists m', strlcat m dest src n = Some (Val (u32 (zlen t + zlen s), m')) /\
       write_bytes m e (take (Z.to_nat (n - zlen t - 1)) s ++ [0]) = Some m').
Proof.
  intros Hram Ht Hs Hn e. pose proof (cstr_fuel _ _ _ Ht). pose proof (cstr_fuel _ _ _ Hs). pose proof (zlen_nonneg s). pose proof (zlen_nonneg t). split_and!.
  - intros Ha. unfold strcat. rewrite (strend_ok m dest t) by done. bnd. fold e.
    destruct (strcpy_loop_ok m e src s (fuel_of m)) as (m' & -> & W); [done..|]. by exists m'.
  - intros (A0 & A1 & A2). unfold strncat. destruct (Z.eqb_spec n 0); [lia|]. cbn [negb]. rewrite (strend_ok m dest t) by done. bnd. fold e.
    destruct (strncat_loop_ok m e src s n (fuel_of m)) as (m' & -> & W); [done|done|unfold apart; lia|done|]. by exists m'.
  - intros Hf. unfold strlcat. rewrite (strlen_ok m dest t), (strlen_ok m src s) by done. bnd. zbool. done.
  - intros Hf (A0 & A1 & A2). unfold strlcat. rewrite (strlen_ok m dest t), (strlen_ok m src s) by done. bnd.
    destruct (Z.leb_spec n (zlen t)); [lia|]. fold e. set (len := if n - zlen t <=? zlen s then n - zlen t - 1 else zlen s).
    assert (Hlen : len = Z.min (n - zlen t - 1) (zlen s)) by (subst len; zbool). clearbody len. cbv zeta.
    destruct (memcpy_terminate m e src s len) as (m1 & m' & -> & E & W); [done|done|lia|unfold apart; lia|]. bnd. rewrite E. bnd.
    exists m'. split; [done|]. rewrite <- W. do 2 f_equal. destruct (Z.leb_spec (zlen s) (n - zlen t - 1)); [|by replace len with (n - zlen t - 1) by lia].
    rewrite !firstn_all2; unfold zlen in *; done || lia.
Qed.

Lemma string_appends_correct_witness :
  exists m', strcat [97; 0; 9; 9; 98; 99; 0; 0] 0 4 = Some (0, m') /\ m' = [97; 98; 99; 0; 98; 99; 0; 0].
Proof.
  destruct (string_appends_correct [97; 0; 9; 9; 98; 99; 0; 0] 0 [97] 4 [98; 99] 2) as (H & _).
  - split; [repeat (constructor; [lia|]); constructor|split; done].
  - repeat split; done.
  - repeat split; done.
  - done.
  - destruct H as (m' & E & W).
    + split; [done|]. split; [vm_compute; discriminate|right; vm_compute; discriminate].
    + exists m'. split; [exact E|]. vm_compute in W. injection W as <-. done.
Defined.

(** ** Tokens *)

(** The strings between the characters of [s] that satisfy [p]. *)
Fixpoint split (p : Z -> bool) (s : list Z) : list (list Z) :=
  match s with
  | [] => [[]]
  | c :: s =>
      if p c then [] :: split p s
      else match split p s with x :: xs => (c :: x) :: xs | [] => [[c]] end
  end.

Lemma split_first p s :
  split p s =
  match first_idx p s with
  | Some i => take (Z.to_nat i) s :: split p (drop (Z.to_nat (i + 1)) s)
  | None => [s]
  end.
Proof.
  induction s as [|c s IH]; [done|]. cbn [split first_idx]. destruct (p c); [done|].
  pose proof (first_idx_spec p s) as Hi. destruct (first_idx p s) as [i|]; simpl; rewrite IH; [|done].
  replace (Z.to_nat (1 + i)) with (S (Z.to_nat i)) by lia. by replace (Z.to_nat (1 + i + 1)) with (S (Z.to_nat (i + 1))) by lia.
Qed.

Lemma cstr_take m a s i m' :
  cstr m a s -> 0 <= i < zlen s -> store_byte m (a + i) 0 = Some m' -> cstr m' a (take (Z.to_nat i) s).
Proof.
  intros H Hi E. revert a i H Hi E. induction s as [|c s IH]; intros a i H Hi E; unfold zlen in *; cbn [length] in Hi; [lia|].
  destruct (Z.eqb_spec i 0) as [->|].
  - cbn [Z.to_nat take cstr]. rewrite Z.add_0_r in E. by eapply load_written.
  - rewrite take_cons_Z by lia. destruct H as (H & Hc & Hs). cbn [cstr].
    rewrite (load_frame _ _ _ _ a E) by lia. split; [done|]. split; [done|]. apply (IH (a + 1) (i - 1)); [done|lia|].
    by replace (a + 1 + (i - 1)) with (a + i) by lia.
Qed.

Lemma strsep_ok m a s b t :
  cstr m a s -> cstr m b t -> a + zlen s < b \/ b + zlen t < a ->
  match first_idx (mem t) s with
  | None => strsep m (Some a) b = Some (Some a, None, m)
  | Some i =>
      exists m', strsep m (Some a) b = Some (Some a, Some (a + i + 1), m') /\ store_byte m (a + i) 0 = Some m' /\
        cstr m' a (take (Z.to_nat i) s) /\ cstr m' (a + i + 1) (drop (Z.to_nat (i + 1)) s) /\ cstr m' b t
  end.
Proof.
  intros Hs Ht Hd. unfold strsep. rewrite (strpbrk_ok m a s b t) by done. pose proof (first_idx_spec (mem t) s) as Hi.
  destruct (first_idx (mem t) s) as [i|]; bnd; [|done]. destruct Hi as (Hi & _ & _). pose proof (cstr_bounds _ _ _ Hs).
  cbn [fmap option_fmap option_map]. destruct (store_ok m (a + i) 0) as (m' & -> & E & _); [lia|]. bnd.
  exists m'. split; [done|]. split; [done|]. split; [by eapply cstr_take|]. change (zlen [0]) with 1 in *. split.
  - replace (a + i + 1) with (a + (i + 1)) by lia. eapply cstr_frame; [exact E|change (zlen [0]) with 1; lia|].
    apply cstr_drop; [done|lia].
  - eapply cstr_frame; [exact E|change (zlen [0]) with 1; lia|done].
Qed.

(** [while ((tok = strsep(&s, ct)) != NULL)]: the tokens, and the memory at the end. *)
Fixpoint strsep_all (fuel : nat) (m : list Z) (s : option Z) (ct : Z) : option (list Z * list Z) :=
  match fuel with
  | O => None
  | S fuel =>
      '(tok, s, m) ← strsep m s ct;
      match tok with
      | None => Some ([], m)
      | Some tok => '(toks, m) ← strsep_all fuel m s ct; Some (tok :: toks, m)
      end
  end.

Lemma cstr_ext m m' a s :
  (forall x, a <= x <= a + zlen s -> load_byte m' x = load_byte m x) -> cstr m a s -> cstr m' a s.
Proof.
  revert a. induction s as [|c s IH]; intros a H; cbn [cstr]; unfold zlen in *; cbn [length] in H.
  - by rewrite H by lia.
  - intros (H1 & Hc & Hs). rewrite H by lia. split; [done|]. split; [done|]. apply IH; [|done]. intros. apply H. lia.
Qed.

(** Called until it returns [NULL], [strsep] cuts a string into the fields between its
    delimiters, empty fields included: each token it returns is one of them, in order, as
    a string of its own; bytes outside the string are not touched. *)
Theorem strsep_splits m a s b t fuel :
  cstr m a s -> cstr m b t -> a + zlen s < b \/ b + zlen t < a -> (length s + 2 <= fuel)%nat ->
  exists toks m', strsep_all fuel m (Some a) b = Some (toks, m') /\ Forall2 (cstr m') toks (split (mem t) s) /\
    forall x, x < a \/ a + zlen s < x -> load_byte m' x = load_byte m x.
Proof.
  revert m a s. induction fuel as [|fuel IH]; intros m a s Hs Ht Hd Hf; [lia|]. cbn [strsep_all].
  pose proof (strsep_ok m a s b t Hs Ht Hd) as H. rewrite split_first. pose proof (first_idx_spec (mem t) s) as Hi.
  destruct (first_idx (mem t) s) as [i|].
  - destruct H as (m1 & -> & W & H1 & H2 & H3). bnd. destruct Hi as (Hi & _ & _). set (rest := drop _ s) in *.
    assert (Hl : zlen rest = zlen s - (i + 1)) by (apply zlen_drop; lia).
    assert (Ht1 : zlen (take (Z.to_nat i) s) = i) by (apply zlen_take; lia).
    destruct (IH m1 (a + i + 1) rest) as (toks & m' & -> & F & Fr); [done|done|lia|unfold zlen in *; lia|]. bnd.
    exists (a :: toks), m'. split; [done|]. split.
    + constructor; [|done]. eapply cstr_ext; [|done]. intros x Hx. rewrite Fr by lia. done.
    + intros x Hx. rewrite Fr by lia. apply (load_frame _ _ _ _ x W). change (zlen [0]) with 1. lia.
  - rewrite H. bnd. destruct fuel as [|fuel]; [lia|]. cbn [strsep_all strsep]. bnd. exists [a], m. split; [done|]. split; [by repeat constructor|done].
Qed.

Lemma strsep_splits_witness :
  exists toks m', strsep_all 6 [97; 44; 44; 98; 0; 44; 0] (Some 0) 5 = Some (toks, m') /\ toks = [0; 2; 3] /\ length (split (mem [44]) [97; 44; 44; 98]) = 3%nat.
Proof.
  destruct (strsep_splits [97; 44; 44; 98; 0; 44; 0] 0 [97; 44; 44; 98] 5 [44] 6) as (toks & m' & E & F & _).
  - repeat split; done.
  - repeat split; done.
  - left. done.
  - simpl. lia.
  - exists toks, m'. split; [exact E|]. vm_compute in E. injection E as <- <-. done.
Defined.

(** ** Stripping *)

Fixpoint lstrip (s : list Z) : list Z :=
  match s with c :: s' => if isspace c then lstrip s' else s | [] => [] end.

Definition rstrip (s : list Z) : list Z := rev (lstrip (rev s)).

Lemma rstrip_snoc s c : rstrip (s ++ [c]) = if isspace c then rstrip s else s ++ [c].
Proof. unfold rstrip. rewrite rev_app_distr. simpl. destruct (isspace c); [done|]. simpl. by rewrite rev_involutive. Qed.

Lemma rstrip_prefix s : exists k, 0 <= k <= zlen s /\ rstrip s = take (Z.to_nat k) s.
Proof.
  induction s as [|c s IH] using rev_ind; [by exists 0|]. rewrite rstrip_snoc. pose proof (zlen_nonneg s). destruct (isspace c).
  - destruct IH as (k & Hk & ->). exists k. rewrite zlen_app. change (zlen [c]) with 1. split; [lia|].
    rewrite take_app_le; [done|unfold zlen in *; lia].
  - exists (zlen (s ++ [c])). split; [rewrite zlen_app; change (zlen [c]) with 1; lia|]. by rewrite take_zlen.
Qed.

Lemma strip_end_ok m a s k fuel :
  cstr m a s -> 0 < a -> zlen m < 2 ^ 32 -> 0 <= k <= zlen s -> k < Z.of_nat fuel ->
  strip_end fuel m a (a + k - 1) = Some (a + zlen (rstrip (take (Z.to_nat k) s)) - 1).
Proof.
  intros Hs Ha Hm. pose proof (cstr_bounds _ _ _ Hs). revert k. induction fuel as [|fuel IH]; intros k Hk Hf; [lia|]. cbn [strip_end].
  destruct (Z.leb_spec a (a + k - 1)).
  - replace (a + k - 1) with (a + (k - 1)) by lia. pose proof (cstr_load m a s (k - 1) Hs ltac:(lia)) as E. rewrite E. bnd.
    rewrite znth_app_l by lia. rewrite znth_app_l in E by lia.
    assert (take (Z.to_nat k) s = take (Z.to_nat (k - 1)) s ++ [znth s (k - 1)]) as ->.
    { replace (Z.to_nat k) with (S (Z.to_nat (k - 1))) by lia. apply take_S_r. unfold znth. rewrite nth_lookup.
      destruct (s !! Z.to_nat (k - 1)) eqn:L; [done|]. apply lookup_ge_None in L. unfold zlen in *. lia. }
    rewrite rstrip_snoc. destruct (isspace _).
    + rewrite u32_id by (unfold is_u32; lia). apply IH; lia.
    + f_equal. rewrite zlen_app, zlen_take by lia. change (zlen [_]) with 1. lia.
  - replace k with 0 by lia. f_equal.
Qed.

Lemma skip_start_ok m a s fuel :
  cstr m a s -> (length s < fuel)%nat ->
  exists p, skip_start fuel m a = Some p /\ p = a + zlen s - zlen (lstrip s) /\ cstr m p (lstrip s).
Proof.
  revert a fuel. induction s as [|c s IH]; intros a [|fuel] Hs Hf; cbn [length] in Hf; try lia; cbn [skip_start cstr lstrip] in *.
  - rewrite Hs. exists a. split; [done|]. split; [unfold zlen; simpl; lia|done].
  - destruct Hs as (H1 & Hc & Hs). rewrite H1. bnd. destruct (Z.eqb_spec c 0); [done|]. cbn [negb andb].
    destruct (isspace c).
    + destruct (IH (a + 1) fuel) as (p & -> & -> & Hp); [done|lia|]. eexists. split; [done|]. split; [unfold zlen; cbn [length]; lia|done].
    + exists a. split; [done|]. split; [lia|]. done.
Qed.

(** [strstrip] terminates with a pointer to the string without its leading and trailing
    white space, changing at most one byte of the string; a string of white space becomes
    the empty string. *)
Theorem strstrip_correct m a s :
  ram m -> cstr m a s -> 0 < a ->
  exists p m', strstrip m a = Some (p, m') /\ cstr m' p (lstrip (rstrip s)) /\ a <= p <= a + zlen s /\
    (m' = m \/ exists x, a <= x <= a + zlen s /\ store_byte m x 0 = Some m').
Proof.
  intros (_ & _ & Hm) Hs Ha. unfold strstrip. rewrite (strlen_ok m a s) by done. bnd. pose proof (zlen_nonneg s).
  destruct (Z.eqb_spec (zlen s) 0) as [E0|E0].
  { destruct s; [|unfold zlen in E0; simpl in E0; lia]. exists a, m. split; [done|]. split; [done|]. change (zlen []) with 0. split; [lia|by left]. }
  pose proof (cstr_fuel _ _ _ Hs). pose proof (cstr_bounds _ _ _ Hs).
  rewrite (strip_end_ok m a s (zlen s)), take_zlen by (done || unfold zlen in *; lia). bnd.
  destruct (rstrip_prefix s) as (k & Hk & Er). assert (Hl : zlen (rstrip s) = k) by (rewrite Er; apply zlen_take; lia). rewrite Hl.
  replace (a + k - 1 + 1) with (a + k) by lia. destruct (store_ok m (a + k) 0) as (m' & E & W & L); [lia|]. rewrite E. bnd.
  assert (Hr : cstr m' a (rstrip s)).
  { rewrite Er. destruct (Z.eqb_spec k (zlen s)) as [->|].
    - rewrite take_zlen. eapply cstr_ext; [|exact Hs]. intros x Hx. destruct (Z.eqb_spec x (a + zlen s)) as [->|].
      + rewrite (load_written _ _ _ _ E). rewrite (cstr_load m a s) by (done || lia). rewrite znth_app_r by lia.
        by replace (zlen s - zlen s) with 0 by lia.
      + apply (load_frame _ _ _ _ x W). change (zlen [0]) with 1. lia.
    - eapply cstr_take; [done|lia|done]. }
  destruct (skip_start_ok m' a (rstrip s) (fuel_of m')) as (p & -> & -> & Hp); [done|unfold fuel_of, zlen in *; lia|]. bnd.
  eexists _, m'. split; [done|]. split; [done|]. rewrite Hl. pose proof (zlen_nonneg (lstrip (rstrip s))).
  assert (zlen (lstrip (rstrip s)) <= k).
  { rewrite <- Hl. generalize (rstrip s). clear. induction l as [|c l IH]; simpl; [lia|]. destruct (isspace c); unfold zlen in *; cbn [length]; lia. }
  split; [lia|]. right. exists (a + k). split; [lia|done].
Qed.

Lemma strstrip_correct_witness :
  exists p m', strstrip [0; 32; 97; 32; 98; 10; 0; 0] 1 = Some (p, m') /\ cstr m' p [97; 32; 98].
Proof.
  destruct (strstrip_correct [0; 32; 97; 32; 98; 10; 0; 0] 1 [32; 97; 32; 98; 10]) as (p & m' & E & H & _).
  - split; [repeat (constructor; [lia|]); constructor|split; done].
  - repeat split; done.
  - done.
  - exists p, m'. split; [exact E|exact H].
Defined.

End CString.
