(* ===== verification/Number.v ===== *)
(** * lib/vsprintf.c: reading and printing numbers

    The conversions of strings to numbers, and [number], which prints one into a buffer.
    Memory is the byte memory of lib/string.c, an access outside it is [None].  An
    [unsigned long] has 32 bits, an [unsigned long long] 64; where two functions of the
    source differ only in that width, [w] is the width.  An [int] wraps around ([s32]): the
    kernel is built with [-fno-strict-overflow]. *)
From S2P Require Import Prelude Bitops Memcopy Ctype CString.
Import Memcopy Ctype CString.

Module Number.

Definition wrap (w x : Z) : Z := x mod 2 ^ w.
Definition swrap (w x : Z) : Z := let y := x mod 2 ^ w in if y <? 2 ^ (w - 1) then y else y - 2 ^ w.

(** ** Reading *)

Definition TOLOWER (x : Z) : Z := Z.lor x 0x20.

Definition simple_guess_base (m : list Z) (cp : Z) : option Z :=
  c0 ← load_byte m cp;
  if c0 =? 48 then
    c1 ← load_byte m (cp + 1);
    if TOLOWER c1 =? 120 then
      c2 ← load_byte m (cp + 2);
      Some (if isxdigit c2 then 16 else 8)
    else Some 8
  else Some 10.

Definition digit_value (c : Z) : Z := if isdigit c then c - 48 else TOLOWER c - 97 + 10.

(** The loop: the number and where it stops. *)
Fixpoint strto_loop (fuel : nat) (w : Z) (m : list Z) (base result cp : Z) : option (Z * Z) :=
  match fuel with
  | O => None
  | S fuel =>
      c ← load_byte m cp;
      if isxdigit c then
        let value := digit_value c in
        if base <=? value then Some (result, cp)
        else strto_loop fuel w m base (wrap w (result * base + value)) (cp + 1)
      else Some (result, cp)
  end.

Definition simple_strto (w : Z) (m : list Z) (cp base : Z) : option (Z * Z) :=
  base ← (if base =? 0 then simple_guess_base m cp else Some base);
  pfx ← (if base =? 16 then
           c0 ← load_byte m cp;
           if c0 =? 48 then c1 ← load_byte m (cp + 1); Some (TOLOWER c1 =? 120) else Some false
         else Some false);
  strto_loop (fuel_of m) w m base 0 (if (pfx : bool) then cp + 2 else cp).

Definition simple_strtoul := simple_strto 32.
Definition simple_strtoull := simple_strto 64.

(** [simple_strtol] and [simple_strtoll] *)
Definition simple_strto_signed (w : Z) (m : list Z) (cp base : Z) : option (Z * Z) :=
  c ← load_byte m cp;
  if c =? 45 then '(r, e) ← simple_strto w m (cp + 1) base; Some (swrap w (- r), e)
  else '(r, e) ← simple_strto w m cp base; Some (swrap w r, e).

Definition simple_strtol := simple_strto_signed 32.
Definition simple_strtoll := simple_strto_signed 64.

(** [strict_strtoul] and [strict_strtoull]: the return value and [*res]. *)
Definition strict_strto (w : Z) (m : list Z) (cp base : Z) : option (Z * Z) :=
  len ← strlen m cp;
  if len =? 0 then Some (- EINVAL, 0)
  else
    '(val, tail) ← simple_strto w m cp base;
    if tail =? cp then Some (- EINVAL, 0)
    else
      c ← load_byte m tail;
      if (c =? 0) || ((len =? (tail - cp) + 1) && (c =? 10)) then Some (0, val) else Some (- EINVAL, 0).

Definition strict_strtoul := strict_strto 32.
Definition strict_strtoull := strict_strto 64.

(** [strict_strtol] and [strict_strtoll] *)
Definition strict_strto_signed (w : Z) (m : list Z) (cp base : Z) : option (Z * Z) :=
  c ← load_byte m cp;
  if c =? 45 then
    '(ret, res) ← strict_strto w m (cp + 1) base;
    Some (ret, if ret =? 0 then swrap w (- swrap w res) else swrap w res)
  else '(ret, res) ← strict_strto w m cp base; Some (ret, swrap w res).

Definition strict_strtol := strict_strto_signed 32.
Definition strict_strtoll := strict_strto_signed 64.

(** ** Decimal digits *)

(** [buf] is what was written so far; the digits come least significant first. *)
Definition put_dec_trunc (buf : list Z) (q : Z) : list Z :=
  let d1 := Z.land (Z.shiftr q 4) 0xf in
  let d2 := Z.land (Z.shiftr q 8) 0xf in
  let d3 := Z.shiftr q 12 in
  let d0 := u32 (6 * (d3 + d2 + d1) + Z.land q 0xf) in
  let q := Z.shiftr (u32 (d0 * 0xcd)) 11 in
  let d0 := u32 (d0 - 10 * q) in
  let buf := buf ++ [u8 (d0 + 48)] in
  let d1 := u32 (q + 9 * d3 + 5 * d2 + d1) in
  if negb (d1 =? 0) then
    let q := Z.shiftr (u32 (d1 * 0xcd)) 11 in
    let d1 := u32 (d1 - 10 * q) in
    let buf := buf ++ [u8 (d1 + 48)] in
    let d2 := u32 (q + 2 * d2) in
    if negb (d2 =? 0) || negb (d3 =? 0) then
      let q := Z.shiftr (u32 (d2 * 0xd)) 7 in
      let d2 := u32 (d2 - 10 * q) in
      let buf := buf ++ [u8 (d2 + 48)] in
      let d3 := u32 (q + 4 * d3) in
      if negb (d3 =? 0) then
        let q := Z.shiftr (u32 (d3 * 0xcd)) 11 in
        let d3 := u32 (d3 - 10 * q) in
        let buf := buf ++ [u8 (d3 + 48)] in
        if negb (q =? 0) then buf ++ [u8 (q + 48)] else buf
      else buf
    else buf
  else buf.

Definition put_dec_full (buf : list Z) (q : Z) : list Z :=
  let d1 := Z.land (Z.shiftr q 4) 0xf in
  let d2 := Z.land (Z.shiftr q 8) 0xf in
  let d3 := Z.shiftr q 12 in
  let d0 := u32 (6 * (d3 + d2 + d1) + Z.land q 0xf) in
  let q := Z.shiftr (u32 (d0 * 0xcd)) 11 in
  let d0 := u32 (d0 - 10 * q) in
  let buf := buf ++ [u8 (d0 + 48)] in
  let d1 := u32 (q + 9 * d3 + 5 * d2 + d1) in
  let q := Z.shiftr (u32 (d1 * 0xcd)) 11 in
  let d1 := u32 (d1 - 10 * q) in
  let buf := buf ++ [u8 (d1 + 48)] in
  let d2 := u32 (q + 2 * d2) in
  let q := Z.shiftr (u32 (d2 * 0xd)) 7 in
  let d2 := u32 (d2 - 10 * q) in
  let buf := buf ++ [u8 (d2 + 48)] in
  let d3 := u32 (q + 4 * d3) in
  let q := Z.shiftr (u32 (d3 * 0xcd)) 11 in
  let d3 := u32 (d3 - 10 * q) in
  let buf := buf ++ [u8 (d3 + 48)] in
  buf ++ [u8 (q + 48)].

Fixpoint put_dec (fuel : nat) (buf : list Z) (num : Z) : option (list Z) :=
  match fuel with
  | O => None
  | S fuel =>
      if num <? 100000 then Some (put_dec_trunc buf num)
      else put_dec fuel (put_dec_full buf (num mod 100000)) (num / 100000)
  end.

(** ** Printing *)

Definition ZEROPAD : Z := 1.
Definition SIGN : Z := 2.
Definition PLUS : Z := 4.
Definition SPACE : Z := 8.
Definition LEFT : Z := 16.
Definition SMALL : Z := 32.
Definition SPECIAL : Z := 64.

Definition flag (flags f : Z) : bool := negb (Z.land flags f =? 0).

Inductive format_type :=
  | FORMAT_TYPE_NONE | FORMAT_TYPE_WIDTH | FORMAT_TYPE_PRECISION | FORMAT_TYPE_CHAR | FORMAT_TYPE_STR
  | FORMAT_TYPE_PTR | FORMAT_TYPE_PERCENT_CHAR | FORMAT_TYPE_INVALID | FORMAT_TYPE_LONG_LONG
  | FORMAT_TYPE_ULONG | FORMAT_TYPE_LONG | FORMAT_TYPE_UBYTE | FORMAT_TYPE_BYTE | FORMAT_TYPE_USHORT
  | FORMAT_TYPE_SHORT | FORMAT_TYPE_UINT | FORMAT_TYPE_INT | FORMAT_TYPE_NRCHARS | FORMAT_TYPE_SIZE_T
  | FORMAT_TYPE_PTRDIFF.

Record printf_spec := mkspec { type : format_type; flags : Z; field_width : Z; base : Z; precision : Z; qualifier : Z }.


Definition digits : list Z := [48; 49; 50; 51; 52; 53; 54; 55; 56; 57; 65; 66; 67; 68; 69; 70].

Fixpoint put_pow2 (fuel : nat) (tmp : list Z) (num mask shift locase : Z) : option (list Z) :=
  match fuel with
  | O => None
  | S fuel =>
      let tmp := tmp ++ [Z.lor (znth digits (Z.land (u8 num) mask)) locase] in
      let num := Z.shiftr num shift in
      if num =? 0 then Some tmp else put_pow2 fuel tmp num mask shift locase
  end.

(** [if (buf < end) *buf = c; ++buf;] *)
Definition put_char (m : list Z) (buf end_ c : Z) : option (list Z * Z) :=
  m ← (if buf <? end_ then store_byte m buf c else Some m);
  Some (m, buf + 1).

(** [while (--n >= 0)] put [c]; [n] afterwards *)
Fixpoint pad_loop (fuel : nat) (m : list Z) (buf end_ c n : Z) : option (list Z * Z * Z) :=
  let n := s32 (n - 1) in
  if 0 <=? n then
    match fuel with
    | O => None
    | S fuel => '(m, buf) ← put_char m buf end_ c; pad_loop fuel m buf end_ c n
    end
  else Some (m, buf, n).

Definition pad (m : list Z) (buf end_ c n : Z) : option (list Z * Z * Z) := pad_loop (Z.to_nat (s32 (n - 1) + 1)) m buf end_ c n.

Fixpoint put_digits (tmp : list Z) (m : list Z) (buf end_ : Z) : option (list Z * Z) :=
  match tmp with
  | [] => Some (m, buf)
  | c :: tmp => '(m, buf) ← put_char m buf end_ c; put_digits tmp m buf end_
  end.

(** [num] has 64 bits, [tmp] has room for 66 characters. *)
Definition number (m : list Z) (buf end_ num : Z) (spec : printf_spec) : option (list Z * Z) :=
  let need_pfx := flag (flags spec) SPECIAL && negb (base spec =? 10) in
  let locase := Z.land (flags spec) SMALL in
  let fl := if flag (flags spec) LEFT then Z.land (flags spec) (Z.lnot ZEROPAD) else flags spec in
  let '(sign, num, fw) :=
    if flag fl SIGN then
      if swrap 64 num <? 0 then (45, wrap 64 (- swrap 64 num), s32 (field_width spec - 1))
      else if flag fl PLUS then (43, num, s32 (field_width spec - 1))
      else if flag fl SPACE then (32, num, s32 (field_width spec - 1))
      else (0, num, field_width spec)
    else (0, num, field_width spec) in
  let fw := if need_pfx then (if base spec =? 16 then s32 (s32 (fw - 1) - 1) else s32 (fw - 1)) else fw in
  tmp ← (if num =? 0 then Some [48]
         else if negb (base spec =? 10) then
           put_pow2 22 [] num (base spec - 1) (if base spec =? 16 then 4 else 3) locase
         else put_dec 4 [] num);
  if 66 <? zlen tmp then None
  else
    let i := zlen tmp in
    let prec := if precision spec <? i then i else precision spec in
    let fw := s32 (fw - prec) in
    '(m, buf, fw) ← (if negb (flag fl (ZEROPAD + LEFT)) then pad m buf end_ 32 fw else Some (m, buf, fw));
    '(m, buf) ← (if negb (sign =? 0) then put_char m buf end_ sign else Some (m, buf));
    '(m, buf) ← (if need_pfx then
                   '(m, buf) ← put_char m buf end_ 48;
                   if base spec =? 16 then put_char m buf end_ (Z.lor 88 locase) else Some (m, buf)
                 else Some (m, buf));
    '(m, buf, fw) ← (if negb (flag fl LEFT) then pad m buf end_ (if flag fl ZEROPAD then 48 else 32) fw else Some (m, buf, fw));
    '(m, buf, _) ← pad m buf end_ 48 (prec - i);
    '(m, buf) ← put_digits (rev tmp) m buf end_;
    '(m, buf, _) ← pad m buf end_ 32 fw;
    Some (m, buf).

(** ** Numerals

    Digits least significant first, and their value. *)
Definition value (b : Z) (ds : list Z) : Z := foldr (fun d v => d + b * v) 0 ds.

(** The way to write [n] in base [b] without leading zeros. *)
Definition numeral (b : Z) (ds : list Z) (n : Z) : bool :=
  forallb (fun d => (0 <=? d) && (d <? b)) ds && (value b ds =? n) &&
  match ds with [] => false | [_] => true | _ => negb (List.last ds 0 =? 0) end.

Lemma value_app b ds es : value b (ds ++ es) = value b ds + b ^ zlen ds * value b es.
Proof.
  induction ds as [|d ds IH]; [change (zlen []) with 0; simpl; lia|]. unfold value in *. simpl. rewrite IH.
  replace (zlen (d :: ds)) with (1 + zlen ds) by (unfold zlen; simpl; lia). rewrite Z.pow_add_r by (unfold zlen; lia). lia.
Qed.

Lemma numeral_spec b ds n :
  numeral b ds n = true <-> Forall (fun d => 0 <= d < b) ds /\ value b ds = n /\ ds <> [] /\ (2 <= zlen ds -> List.last ds 0 <> 0).
Proof.
  unfold numeral. rewrite !andb_true_iff, forallb_forall, Z.eqb_eq. assert (Hf : (forall x, In x ds -> (0 <=? x) && (x <? b) = true) <-> Forall (fun d => 0 <= d < b) ds).
  { rewrite List.Forall_forall. split; intros H x Hx; specialize (H x Hx); [apply andb_true_iff in H; lia|apply andb_true_iff; lia]. }
  rewrite Hf. destruct ds as [|d [|e ds]].
  - split; [intros [_ ?]; done|intros (_ & _ & ? & _); done].
  - split; [intros [[? ?] _]; split_and!; try done; unfold zlen; simpl; lia|intros (? & ? & _); done].
  - split; [intros [[? ?] Hlast%negb_true_iff]; split_and!; try done; intros _; by apply Z.eqb_neq|intros (? & ? & _ & H); split; [done|]]. apply negb_true_iff, Z.eqb_neq, H. unfold zlen. simpl. lia.
Qed.

Lemma last_app_ne (ds es : list Z) x : es <> [] -> List.last (ds ++ es) x = List.last es x.
Proof. intros H. induction ds as [|d ds IH]; [done|]. simpl. destruct (ds ++ es) eqn:E; [destruct ds; simpl in E; congruence|done]. Qed.

Lemma last_map (f : Z -> Z) ds x : List.last (List.map f ds) (f x) = f (List.last ds x).
Proof. induction ds as [|d [|e ds] IH]; [done|done|]. apply IH. Qed.

Lemma numeral_app b ds es k n :
  0 < b -> Forall (fun d => 0 <= d < b) ds -> value b ds = k -> numeral b es n = true -> 0 < n -> numeral b (ds ++ es) (k + b ^ zlen ds * n) = true.
Proof.
  intros Hb Hd Hv (H1 & H2 & H3 & H4)%numeral_spec Hn. apply numeral_spec. split_and!.
  - by apply Forall_app.
  - by rewrite value_app, Hv, H2.
  - by destruct ds, es.
  - intros _. rewrite last_app_ne by done. destruct (decide (2 <= zlen es)) as [Hl|Hl]; [by apply H4|]. destruct es as [|e [|f es]]; [done| |unfold zlen in Hl; simpl in Hl; lia].
    simpl in *. lia.
Qed.

(** ** Decimal digits *)

Definition all_below (n : nat) (P : Z -> bool) : bool := (fix go (k : nat) (i : Z) := match k with O => true | S k => P i && go k (i + 1) end) n 0.

Lemma all_below_spec n P : all_below n P = true -> forall q, 0 <= q < Z.of_nat n -> P q = true.
Proof.
  unfold all_below. assert (H : forall k i, (fix go (k : nat) (i : Z) := match k with O => true | S k => P i && go k (i + 1) end) k i = true -> forall q, i <= q < i + Z.of_nat k -> P q = true).
  { induction k as [|k IH]; intros i H q Hq; [lia|]. apply andb_true_iff in H as [H1 H2]. destruct (decide (q = i)) as [->|]; [done|]. apply (IH (i + 1)); [done|lia]. }
  intros H' q Hq. apply (H n 0 H'). lia.
Qed.

Lemma put_dec_trunc_app buf q : put_dec_trunc buf q = buf ++ put_dec_trunc [] q.
Proof. unfold put_dec_trunc. cbv zeta. repeat (destruct (negb _ || _) || destruct (negb _)); simpl; rewrite <- ?app_assoc; done. Qed.

Lemma put_dec_full_app buf q : put_dec_full buf q = buf ++ put_dec_full [] q.
Proof. unfold put_dec_full. cbv zeta. simpl. rewrite <- !app_assoc. done. Qed.

(** The two ways to divide by ten with a multiplication and a shift, within their ranges. *)
Lemma div10_cd x : 0 <= x < 1024 -> Z.shiftr (u32 (x * 0xcd)) 11 = x / 10.
Proof. intros Hx. apply Z.eqb_eq. apply (all_below_spec 1024 (fun x => Z.shiftr (u32 (x * 0xcd)) 11 =? x / 10)); [vm_compute; reflexivity|lia]. Qed.

Lemma div10_d x : 0 <= x < 69 -> Z.shiftr (u32 (x * 0xd)) 7 = x / 10.
Proof. intros Hx. apply Z.eqb_eq. apply (all_below_spec 69 (fun x => Z.shiftr (u32 (x * 0xd)) 7 =? x / 10)); [vm_compute; reflexivity|lia]. Qed.

Lemma u32_mod10 x : 0 <= x < 1024 -> u32 (x - 10 * (x / 10)) = x mod 10.
Proof. intros Hx. rewrite Z.mod_eq by lia. apply u32_id. unfold is_u32. pose proof (Z.mod_pos_bound x 10). rewrite Z.mod_eq in * by lia. lia. Qed.

(** The hexadecimal digits of [q], and what the code adds up for each decimal digit. *)
Record hexsums (q a d1 d2 d3 x0 x1 x2 x3 : Z) : Prop := {
  hs_a : 0 <= a < 16; hs_1 : 0 <= d1 < 16; hs_2 : 0 <= d2 < 16; hs_3 : 0 <= d3 <= 24;
  hs_q : q = a + 16 * d1 + 256 * d2 + 4096 * d3;
  hs_x0 : x0 = 6 * (d3 + d2 + d1) + a; hs_x1 : x1 = x0 / 10 + 9 * d3 + 5 * d2 + d1; hs_x2 : x2 = x1 / 10 + 2 * d2; hs_x3 : x3 = x2 / 10 + 4 * d3;
  hs_b0 : 0 <= x0 < 1024; hs_b1 : 0 <= x1 < 1024; hs_b2 : 0 <= x2 < 69; hs_b3 : 0 <= x3 < 1024; hs_b4 : 0 <= x3 / 10 < 10;
  hs_sum : q = x0 mod 10 + 10 * (x1 mod 10 + 10 * (x2 mod 10 + 10 * (x3 mod 10 + 10 * (x3 / 10)))) }.

Lemma hexsums_ok q : 0 <= q < 100000 ->
  let a := Z.land q 0xf in let d1 := Z.land (Z.shiftr q 4) 0xf in let d2 := Z.land (Z.shiftr q 8) 0xf in let d3 := Z.shiftr q 12 in
  let x0 := 6 * (d3 + d2 + d1) + a in let x1 := x0 / 10 + 9 * d3 + 5 * d2 + d1 in let x2 := x1 / 10 + 2 * d2 in let x3 := x2 / 10 + 4 * d3 in
  hexsums q a d1 d2 d3 x0 x1 x2 x3.
Proof.
  intros Hq a d1 d2 d3. assert (Ha : a = q mod 16) by (unfold a; change 0xf with (Z.ones 4); by rewrite Z.land_ones).
  assert (H1 : d1 = q / 16 mod 16) by (unfold d1; change 0xf with (Z.ones 4); by rewrite Z.land_ones, Z.shiftr_div_pow2).
  assert (H2 : d2 = q / 256 mod 16) by (unfold d2; change 0xf with (Z.ones 4); by rewrite Z.land_ones, Z.shiftr_div_pow2).
  assert (H3 : d3 = q / 4096) by (unfold d3; by rewrite Z.shiftr_div_pow2).
  clearbody a d1 d2 d3. intros x0 x1 x2 x3. assert (Hs : q = a + 16 * d1 + 256 * d2 + 4096 * d3) by (subst a d1 d2 d3; Z.to_euclidean_division_equations; lia).
  assert (B : 0 <= a < 16 /\ 0 <= d1 < 16 /\ 0 <= d2 < 16 /\ 0 <= d3 <= 24) by (subst a d1 d2 d3; Z.to_euclidean_division_equations; lia). clear Ha H1 H2 H3.
  assert (E0 : x0 = 10 * (x0 / 10) + x0 mod 10) by (apply Z.div_mod; lia). assert (E1 : x1 = 10 * (x1 / 10) + x1 mod 10) by (apply Z.div_mod; lia).
  assert (E2 : x2 = 10 * (x2 / 10) + x2 mod 10) by (apply Z.div_mod; lia). assert (E3 : x3 = 10 * (x3 / 10) + x3 mod 10) by (apply Z.div_mod; lia).
  pose proof (Z.mod_pos_bound x0 10 ltac:(lia)). pose proof (Z.mod_pos_bound x1 10 ltac:(lia)). pose proof (Z.mod_pos_bound x2 10 ltac:(lia)). pose proof (Z.mod_pos_bound x3 10 ltac:(lia)).
  assert (Q : q = x0 mod 10 + 10 * (x1 mod 10 + 10 * (x2 mod 10 + 10 * (x3 mod 10 + 10 * (x3 / 10))))) by lia. split; try lia; try done.
Qed.

Definition dec_chars (ds : list Z) : list Z := List.map (fun d => d + 48) ds.

Lemma dec_char d : 0 <= d < 10 -> u8 (d + 48) = d + 48.
Proof. intros. unfold u8. apply Z.mod_small. lia. Qed.

(** The state of the two functions after the arithmetic is done. *)
Ltac hex_stages q Hq :=
  let H := fresh "H" in pose proof (hexsums_ok q Hq) as H; cbv zeta in H;
  set (a := Z.land q 0xf) in *; set (d1 := Z.land (Z.shiftr q 4) 0xf) in *; set (d2 := Z.land (Z.shiftr q 8) 0xf) in *; set (d3 := Z.shiftr q 12) in *;
  set (x0 := 6 * (d3 + d2 + d1) + a) in *; set (x1 := x0 / 10 + 9 * d3 + 5 * d2 + d1) in *; set (x2 := x1 / 10 + 2 * d2) in *; set (x3 := x2 / 10 + 4 * d3) in *;
  destruct H as [Ha H1 H2 H3 Hs _ _ _ _ B0 B1 B2 B3 B4 Hsum];
  rewrite (u32_id x0) by (unfold is_u32; lia); rewrite (div10_cd x0), (u32_mod10 x0) by lia;
  change (x0 / 10 + 9 * d3 + 5 * d2 + d1) with x1; rewrite (u32_id x1) by (unfold is_u32; lia); rewrite (div10_cd x1), (u32_mod10 x1) by lia;
  change (x1 / 10 + 2 * d2) with x2; rewrite (u32_id x2) by (unfold is_u32; lia); rewrite (div10_d x2), (u32_mod10 x2) by lia;
  change (x2 / 10 + 4 * d3) with x3; rewrite (u32_id x3) by (unfold is_u32; lia); rewrite (div10_cd x3), (u32_mod10 x3) by lia;
  pose proof (Z.mod_pos_bound x0 10 ltac:(lia)); pose proof (Z.mod_pos_bound x1 10 ltac:(lia)); pose proof (Z.mod_pos_bound x2 10 ltac:(lia)); pose proof (Z.mod_pos_bound x3 10 ltac:(lia));
  rewrite ?(dec_char (x0 mod 10)), ?(dec_char (x1 mod 10)), ?(dec_char (x2 mod 10)), ?(dec_char (x3 mod 10)), ?(dec_char (x3 / 10)) by lia;
  assert (X0 : x0 = 6 * (d3 + d2 + d1) + a) by reflexivity; assert (X1 : x1 = x0 / 10 + 9 * d3 + 5 * d2 + d1) by reflexivity;
  assert (X2 : x2 = x1 / 10 + 2 * d2) by reflexivity; assert (X3 : x3 = x2 / 10 + 4 * d3) by reflexivity;
  pose proof (Z.div_mod x0 10 ltac:(lia)); pose proof (Z.div_mod x1 10 ltac:(lia)); pose proof (Z.div_mod x2 10 ltac:(lia)); pose proof (Z.div_mod x3 10 ltac:(lia));
  clearbody x0 x1 x2 x3 a d1 d2 d3.

Lemma full_digits q : 0 <= q < 100000 -> exists ds, put_dec_full [] q = dec_chars ds /\ Forall (fun d => 0 <= d < 10) ds /\ value 10 ds = q /\ zlen ds = 5.
Proof.
  intros Hq. unfold put_dec_full. cbv zeta. hex_stages q Hq. exists [x0 mod 10; x1 mod 10; x2 mod 10; x3 mod 10; x3 / 10]. split; [done|]. split; [|split; [simpl; lia|done]].
  repeat (constructor; [lia|]). constructor.
Qed.

Lemma trunc_digits q : 0 <= q < 100000 -> exists ds, put_dec_trunc [] q = dec_chars ds /\ numeral 10 ds q = true /\ zlen ds <= 5.
Proof.
  intros Hq. unfold put_dec_trunc. cbv zeta. hex_stages q Hq. setoid_rewrite numeral_spec.
  destruct (Z.eqb_spec x1 0) as [E1|E1]; cbn [negb].
  { exists [x0 mod 10]. split; [done|]. split; [|done]. split_and!; [repeat (constructor; [lia|]); constructor|simpl|done|unfold zlen; simpl; lia]. lia. }
  destruct (Z.eqb_spec x2 0) as [E2|E2], (Z.eqb_spec d3 0) as [E3|E3]; cbn [negb orb].
  1: { exists [x0 mod 10; x1 mod 10]. split; [done|]. split; [|unfold zlen; simpl; lia]. split_and!; [repeat (constructor; [lia|]); constructor|simpl; lia|done|intros _; simpl; lia]. }
  all: destruct (Z.eqb_spec x3 0) as [E4|E4]; cbn [negb].
  all: try (exists [x0 mod 10; x1 mod 10; x2 mod 10]; split; [done|]; split; [|unfold zlen; simpl; lia]; split_and!; [repeat (constructor; [lia|]); constructor|simpl; lia|done|intros _; simpl; lia]).
  all: destruct (Z.eqb_spec (x3 / 10) 0) as [E5|E5]; cbn [negb];
    [exists [x0 mod 10; x1 mod 10; x2 mod 10; x3 mod 10]|exists [x0 mod 10; x1 mod 10; x2 mod 10; x3 mod 10; x3 / 10]];
    (split; [done|]); (split; [|unfold zlen; simpl; lia]); (split_and!; [repeat (constructor; [lia|]); constructor|simpl; lia|done|intros _; simpl; lia]).
Qed.

Lemma put_dec_ok fuel : forall buf num, 0 <= num < 100000 ^ Z.of_nat fuel -> (0 < fuel)%nat ->
  exists ds, put_dec fuel buf num = Some (buf ++ dec_chars ds) /\ numeral 10 ds num = true /\ zlen ds <= 5 * Z.of_nat fuel.
Proof.
  induction fuel as [|fuel IH]; intros buf num Hn Hf; [lia|]. cbn [put_dec]. destruct (Z.ltb_spec num 100000) as [Hs|Hs].
  - destruct (trunc_digits num ltac:(lia)) as (ds & E & Hd & Hl). exists ds. rewrite put_dec_trunc_app, E. split; [done|]. split; [done|lia].
  - destruct (full_digits (num mod 100000)) as (ds & E & Hd & Hv & Hl); [apply Z.mod_pos_bound; lia|]. rewrite put_dec_full_app, E.
    rewrite Nat2Z.inj_succ, Z.pow_succ_r in Hn by lia. destruct (IH (buf ++ dec_chars ds) (num / 100000)) as (es & -> & He & Hle); [| |].
    { split; [apply Z.div_pos; lia|apply Z.div_lt_upper_bound; lia]. }
    { destruct fuel; [simpl in Hn; lia|lia]. }
    exists (ds ++ es). unfold dec_chars. rewrite List.map_app, <- app_assoc. split; [done|]. split; [|rewrite zlen_app; lia].
    pose proof (Z.div_mod num 100000 ltac:(lia)) as Hdm. assert (En : num = num mod 100000 + 10 ^ zlen ds * (num / 100000)) by (rewrite Hl; change (10 ^ 5) with 100000; lia).
    rewrite En. apply numeral_app; [lia|done|done|done|]. apply Z.div_str_pos. lia.
Qed.

Definition dchar (locase d : Z) : Z := Z.lor (znth digits d) locase.

Lemma dchar_dec locase ds : Forall (fun d => 0 <= d < 10) ds -> locase = 0 \/ locase = 32 -> dec_chars ds = List.map (dchar locase) ds.
Proof.
  intros Hd Hl. induction Hd as [|d ds Hd _ IH]; [done|]. simpl. f_equal; [|done]. assert (d = 0 \/ d = 1 \/ d = 2 \/ d = 3 \/ d = 4 \/ d = 5 \/ d = 6 \/ d = 7 \/ d = 8 \/ d = 9) as Hc by lia.
  destruct Hl as [-> | ->]; repeat (destruct Hc as [->|Hc]; [reflexivity|]); subst; reflexivity.
Qed.

Lemma put_pow2_ok sh locase fuel : 0 < sh <= 8 -> forall tmp num, 0 <= num < 2 ^ (sh * Z.of_nat fuel) -> (0 < fuel)%nat ->
  exists ds, put_pow2 fuel tmp num (2 ^ sh - 1) sh locase = Some (tmp ++ List.map (dchar locase) ds) /\ numeral (2 ^ sh) ds num = true /\ zlen ds <= Z.of_nat fuel.
Proof.
  intros Hsh. assert (Hb : 2 <= 2 ^ sh) by (change 2 with (2 ^ 1) at 1; apply Z.pow_le_mono_r; lia).
  induction fuel as [|fuel IH]; intros tmp num Hn Hf; [lia|]. cbn [put_pow2]. rewrite Z.shiftr_div_pow2 by lia.
  assert (Hd : Z.land (u8 num) (2 ^ sh - 1) = num mod 2 ^ sh).
  { replace (2 ^ sh - 1) with (Z.ones sh) by (rewrite Z.ones_equiv; lia). rewrite Z.land_ones by lia. unfold u8. change 256 with (2 ^ 8).
    apply Z.mod_mod_divide. exists (2 ^ (8 - sh)). rewrite <- Z.pow_add_r by lia. f_equal. lia. }
  rewrite Hd. pose proof (Z.mod_pos_bound num (2 ^ sh) ltac:(lia)) as Hm. pose proof (Z.div_mod num (2 ^ sh) ltac:(lia)) as Hdm. destruct (Z.eqb_spec (num / 2 ^ sh) 0) as [E|E].
  - exists [num mod 2 ^ sh]. split; [done|]. split; [|unfold zlen; simpl; lia]. apply numeral_spec. split_and!; [apply Forall_singleton; lia|simpl; lia|done|unfold zlen; simpl; lia].
  - assert (Hq : 0 < num / 2 ^ sh) by (pose proof (Z.div_pos num (2 ^ sh)); lia). destruct fuel as [|fuel].
    { exfalso. rewrite Z.mul_1_r in Hn. rewrite Z.div_small in E; lia. }
    destruct (IH (tmp ++ [dchar locase (num mod 2 ^ sh)]) (num / 2 ^ sh)) as (ds & E' & Hds & Hl); [|lia|].
    { split; [lia|]. apply Z.div_lt_upper_bound; [lia|]. rewrite <- Z.pow_add_r by lia. replace (sh + sh * Z.of_nat (S fuel)) with (sh * Z.of_nat (S (S fuel))) by lia. lia. }
    unfold dchar in E' at 1. rewrite E'. exists (num mod 2 ^ sh :: ds). rewrite <- app_assoc. split; [done|]. split; [|unfold zlen in *; simpl; lia].
    replace num with (num mod 2 ^ sh + (2 ^ sh) ^ zlen [num mod 2 ^ sh] * (num / 2 ^ sh)) at 2 by (change (zlen [num mod 2 ^ sh]) with 1; rewrite Z.pow_1_r; lia).
    apply (numeral_app _ [num mod 2 ^ sh]); [lia|apply Forall_singleton; lia|simpl; lia|done|done].
Qed.

(** ** The text that [number] writes *)

Definition signed_value (spec : printf_spec) (num : Z) : Z := if flag (flags spec) SIGN then swrap 64 num else num.

Definition sign_text (spec : printf_spec) (num : Z) : list Z :=
  if flag (flags spec) SIGN then
    if signed_value spec num <? 0 then [45] else if flag (flags spec) PLUS then [43] else if flag (flags spec) SPACE then [32] else []
  else [].

Definition prefix_text (spec : printf_spec) : list Z :=
  if flag (flags spec) SPECIAL && negb (base spec =? 10) then
    if base spec =? 16 then [48; Z.lor 88 (Z.land (flags spec) SMALL)] else [48]
  else [].

Definition fill (n c : Z) : list Z := replicate (Z.to_nat n) c.

(** Sign, prefix and digits, extended with zeros to the precision and filled up to the
    width: on the right, with zeros after the prefix, or on the left. *)
Definition number_text (spec : printf_spec) (num : Z) (ds : list Z) : list Z :=
  let D := rev (List.map (dchar (Z.land (flags spec) SMALL)) ds) in
  let P := fill (precision spec - zlen D) 48 ++ D in
  let S := sign_text spec num in
  let X := prefix_text spec in
  let f := field_width spec - zlen S - zlen X - zlen P in
  if flag (flags spec) LEFT then S ++ X ++ P ++ fill f 32
  else if flag (flags spec) ZEROPAD then S ++ X ++ fill f 48 ++ P
  else fill f 32 ++ S ++ X ++ P.

Lemma swrap_id w x : 0 < w -> - 2 ^ (w - 1) <= x < 2 ^ (w - 1) -> swrap w x = x.
Proof.
  intros Hw Hx. assert (H2 : 2 ^ w = 2 * 2 ^ (w - 1)) by (rewrite <- Z.pow_succ_r by lia; f_equal; lia). unfold swrap. cbv zeta. destruct (Z.ltb_spec x 0).
  - replace (x mod 2 ^ w) with (x + 2 ^ w) by (apply Z.mod_unique with (-1); lia). destruct (Z.ltb_spec (x + 2 ^ w) (2 ^ (w - 1))); lia.
  - rewrite Z.mod_small by lia. destruct (Z.ltb_spec x (2 ^ (w - 1))); lia.
Qed.

(** What is in memory after the text [s] was printed at [buf] with the limit [e]. *)
Definition printed (m : list Z) (buf e : Z) (s m' : list Z) : Prop :=
  zlen m' = zlen m /\ forall i, 0 <= i < zlen m -> znth m' i = if (buf <=? i) && (i <? Z.min e (buf + zlen s)) then znth s (i - buf) else znth m i.

Lemma put_digits_ok s : forall m buf e, 0 <= buf -> e <= zlen m -> exists m', put_digits s m buf e = Some (m', buf + zlen s) /\ printed m buf e s m'.
Proof.
  induction s as [|c s IH]; intros m buf e Hb He; cbn [put_digits].
  - exists m. change (zlen []) with 0. rewrite Z.add_0_r. split; [done|]. split; [done|]. intros i Hi. change (zlen []) with 0. zbool; lia.
  - assert (Hl : zlen (c :: s) = 1 + zlen s) by (unfold zlen; simpl; lia). pose proof (zlen_nonneg s). unfold put_char. destruct (Z.ltb_spec buf e) as [Hlt|Hge].
    + destruct (write_bytes_Some m buf [c]) as (m1 & E & L1 & W1); [lia|change (zlen [c]) with 1; lia|]. unfold store_byte. rewrite E. cbn [mbind option_bind].
      destruct (IH m1 (buf + 1) e) as (m' & -> & L' & W'); [lia|lia|]. exists m'. split; [do 2 f_equal; lia|]. split; [lia|]. intros i Hi. rewrite W', W1 by lia. change (zlen [c]) with 1. rewrite Hl.
      destruct (Z.eq_dec i buf) as [->|Hne]; [zbool; try lia; by rewrite Z.sub_diag|]. zbool; try lia.
      unfold znth. replace (Z.to_nat (i - buf)) with (S (Z.to_nat (i - (buf + 1)))) by lia. done.
    + cbn [mbind option_bind]. destruct (IH m (buf + 1) e) as (m' & -> & L' & W'); [lia|lia|]. exists m'. split; [do 2 f_equal; lia|]. split; [lia|]. intros i Hi. rewrite W' by lia. zbool; lia.
Qed.

Lemma put_digits_app a b m buf e : put_digits (a ++ b) m buf e = ('(m, buf) ← put_digits a m buf e; put_digits b m buf e).
Proof. revert m buf. induction a as [|c a IH]; intros m buf; [done|]. simpl. destruct (put_char m buf e c) as [[m1 b1]|]; [|done]. cbn [mbind option_bind]. apply IH. Qed.

Lemma put_char_digits m buf e c : put_char m buf e c = put_digits [c] m buf e.
Proof. simpl. destruct (put_char m buf e c) as [[m1 b1]|]; done. Qed.

Lemma pad_digits m buf e c n : - 2 ^ 31 < n < 2 ^ 31 -> pad m buf e c n = ('(m, buf) ← put_digits (fill n c) m buf e; Some (m, buf, if n <=? 0 then n - 1 else -1)).
Proof.
  intros Hn. unfold pad, fill. rewrite s32_id by lia. destruct (Z.leb_spec n 0) as [H|H].
  - replace (Z.to_nat (n - 1 + 1)) with 0%nat by lia. replace (Z.to_nat n) with 0%nat by lia. simpl. rewrite s32_id by lia. destruct (Z.leb_spec 0 (n - 1)); [lia|done].
  - assert (Hk : forall k m buf, Z.of_nat k < 2 ^ 31 -> pad_loop k m buf e c (Z.of_nat k) = ('(m, buf) ← put_digits (replicate k c) m buf e; Some (m, buf, -1))).
    { clear. induction k as [|k IH]; intros m buf Hk; [done|]. cbn [pad_loop replicate put_digits]. cbv zeta. rewrite s32_id by lia. destruct (Z.leb_spec 0 (Z.of_nat (S k) - 1)); [|lia].
      destruct (put_char m buf e c) as [[m1 b1]|]; [|done]. cbn [mbind option_bind]. replace (Z.of_nat (S k) - 1) with (Z.of_nat k) by lia. apply IH. lia. }
    rewrite Z.sub_add. replace n with (Z.of_nat (Z.to_nat n)) at 2 by lia. apply Hk. lia.
Qed.

(** ** Flags *)

Lemma flag_or x a b : flag x (Z.lor a b) = flag x a || flag x b.
Proof.
  unfold flag. rewrite Z.land_lor_distr_r. destruct (Z.eqb_spec (Z.lor (Z.land x a) (Z.land x b)) 0) as [E|E].
  - apply Z.lor_eq_0_iff in E as [-> ->]. done.
  - destruct (Z.eqb_spec (Z.land x a) 0) as [Ea|]; [|done]. destruct (Z.eqb_spec (Z.land x b) 0) as [Eb|]; [|done]. rewrite Ea, Eb in E. done.
Qed.

Lemma small_cases x : Z.land x SMALL = 0 \/ Z.land x SMALL = 32.
Proof.
  assert (E : Z.land x SMALL = if Z.testbit x 5 then 32 else 0); [|destruct (Z.testbit x 5); auto].
  apply Z.bits_inj'. intros n Hn. unfold SMALL. rewrite Z.land_spec. change 32 with (2 ^ 5). rewrite Z.pow2_bits_eqb by lia. destruct (Z.eqb_spec 5 n) as [<-|Hne].
  - rewrite andb_true_r. destruct (Z.testbit x 5); [by rewrite Z.pow2_bits_true by lia|done].
  - rewrite andb_false_r. destruct (Z.testbit x 5); [by rewrite Z.pow2_bits_false by lia|by rewrite Z.bits_0].
Qed.

(** Field width and precision stay clear of the limits of [int]. *)
Definition widths_ok (spec : printf_spec) : Prop := Z.abs (field_width spec) <= 10 ^ 9 /\ Z.abs (precision spec) <= 10 ^ 9.

Definition eff_flags (x : Z) : Z := if flag x LEFT then Z.land x (Z.lnot ZEROPAD) else x.

Lemma eff_flag x f : f = SIGN \/ f = PLUS \/ f = SPACE \/ f = LEFT -> flag (eff_flags x) f = flag x f.
Proof.
  intros Hf. unfold eff_flags. destruct (flag x LEFT); [|done]. unfold flag. rewrite <- Z.land_assoc. replace (Z.land (Z.lnot ZEROPAD) f) with f; [done|].
  destruct Hf as [->|[->|[->| ->]]]; reflexivity.
Qed.

Lemma eff_zeropad x : flag (eff_flags x) ZEROPAD = flag x ZEROPAD && negb (flag x LEFT).
Proof.
  unfold eff_flags. destruct (flag x LEFT); [|by rewrite andb_true_r]. rewrite andb_false_r. unfold flag. rewrite <- Z.land_assoc. change (Z.land (Z.lnot ZEROPAD) ZEROPAD) with 0. by rewrite Z.land_0_r.
Qed.

Lemma eff_zeropad_left x : flag (eff_flags x) (ZEROPAD + LEFT) = flag x ZEROPAD || flag x LEFT.
Proof. change (ZEROPAD + LEFT) with (Z.lor ZEROPAD LEFT). rewrite flag_or, eff_zeropad, eff_flag by auto. destruct (flag x ZEROPAD), (flag x LEFT); done. Qed.

Lemma swrap_range x : - 2 ^ 63 <= swrap 64 x < 2 ^ 63.
Proof. unfold swrap. cbv zeta. pose proof (Z.mod_pos_bound x (2 ^ 64) ltac:(lia)). change (64 - 1) with 63. destruct (Z.ltb_spec (x mod 2 ^ 64) (2 ^ 63)); lia. Qed.

(** The sign, the magnitude and the rest of the width *)
Lemma sign_stage spec num : 0 <= num < 2 ^ 64 -> widths_ok spec ->
  exists sign, (if flag (eff_flags (flags spec)) SIGN then
      if swrap 64 num <? 0 then (45, wrap 64 (- swrap 64 num), s32 (field_width spec - 1))
      else if flag (eff_flags (flags spec)) PLUS then (43, num, s32 (field_width spec - 1))
      else if flag (eff_flags (flags spec)) SPACE then (32, num, s32 (field_width spec - 1))
      else (0, num, field_width spec)
    else (0, num, field_width spec)) = (sign, Z.abs (signed_value spec num), field_width spec - zlen (sign_text spec num)) /\
    sign_text spec num = (if negb (sign =? 0) then [sign] else []) /\ 0 <= Z.abs (signed_value spec num) < 2 ^ 64.
Proof.
  intros Hn [Hw _]. rewrite (s32_id (field_width spec - 1)) by lia. rewrite !eff_flag by auto. unfold sign_text, signed_value. destruct (flag (flags spec) SIGN).
  2: { exists 0. change (zlen []) with 0. rewrite Z.abs_eq, Z.sub_0_r by lia. split_and!; [done|done|lia|lia]. }
  pose proof (swrap_range num) as Hr. destruct (Z.ltb_spec (swrap 64 num) 0) as [Hneg|Hpos].
  - exists 45. change (zlen [45]) with 1. rewrite Z.abs_neq by lia. unfold wrap. rewrite Z.mod_small by lia. split_and!; [done|done|lia|lia].
  - assert (Hs : swrap 64 num = num). { unfold swrap in *. cbv zeta in *. rewrite Z.mod_small in * by lia. change (64 - 1) with 63 in *. destruct (Z.ltb_spec num (2 ^ 63)); lia. }
    rewrite Hs, Z.abs_eq by lia. destruct (flag (flags spec) PLUS); [exists 43; change (zlen [43]) with 1; split_and!; [done|done|lia|lia]|].
    destruct (flag (flags spec) SPACE); [exists 32; change (zlen [32]) with 1|exists 0; change (zlen []) with 0; rewrite Z.sub_0_r]; split_and!; [done|done|lia|lia|done|done|lia|lia].
Qed.

(** The digits *)
Lemma digits_stage b num locase : b = 8 \/ b = 10 \/ b = 16 -> locase = 0 \/ locase = 32 -> 0 <= num < 2 ^ 64 ->
  exists ds, (if num =? 0 then Some [48]
      else if negb (b =? 10) then put_pow2 22 [] num (b - 1) (if b =? 16 then 4 else 3) locase else put_dec 4 [] num) = Some (List.map (dchar locase) ds) /\
    numeral b ds num = true /\ zlen ds <= 22.
Proof.
  intros Hb Hl Hn. destruct (Z.eqb_spec num 0) as [->|Hnz].
  - exists [0]. split; [destruct Hl as [-> | ->]; done|]. split; [destruct Hb as [->|[->| ->]]; done|done].
  - destruct Hb as [->|[->| ->]]; simpl negb; cbv iota.
    + destruct (put_pow2_ok 3 locase 22 ltac:(lia) [] num ltac:(simpl; lia) ltac:(lia)) as (ds & E & Hd & Hln). by exists ds.
    + destruct (put_dec_ok 4 [] num ltac:(simpl; lia) ltac:(lia)) as (ds & E & Hd & Hln). exists ds. split; [|split; [done|lia]]. rewrite E. f_equal. simpl. apply dchar_dec; [|done]. by apply numeral_spec in Hd as [? _].
    + destruct (put_pow2_ok 4 locase 22 ltac:(lia) [] num ltac:(simpl; lia) ltac:(lia)) as (ds & E & Hd & Hln). by exists ds.
Qed.

Lemma zlen_rev (l : list Z) : zlen (rev l) = zlen l.
Proof. unfold zlen. by rewrite length_rev. Qed.

Lemma zlen_map (f : Z -> Z) l : zlen (List.map f l) = zlen l.
Proof. unfold zlen. by rewrite List.length_map. Qed.

Lemma zlen_fill n c : zlen (fill n c) = Z.max 0 n.
Proof. unfold zlen, fill. rewrite length_replicate. lia. Qed.

Lemma fill_neg n c : n <= 0 -> fill n c = [].
Proof. intros H. unfold fill. by replace (Z.to_nat n) with 0%nat by lia. Qed.

Lemma number_eq m buf e num spec :
  base spec = 8 \/ base spec = 10 \/ base spec = 16 -> 0 <= num < 2 ^ 64 -> widths_ok spec ->
  exists ds, numeral (base spec) ds (Z.abs (signed_value spec num)) = true /\ zlen ds <= 22 /\ number m buf e num spec = put_digits (number_text spec num ds) m buf e.
Proof.
  intros Hb Hn Hw. unfold number. fold (eff_flags (flags spec)). cbv zeta. destruct (sign_stage spec num Hn Hw) as (sign & -> & Hsign & Habs).
  destruct (digits_stage (base spec) (Z.abs (signed_value spec num)) (Z.land (flags spec) SMALL) Hb (small_cases _) Habs) as (ds & -> & Hds & Hlen). exists ds. split; [done|]. split; [done|].
  cbn [mbind option_bind]. rewrite zlen_map. destruct (Z.ltb_spec 66 (zlen ds)); [lia|]. unfold number_text. rewrite zlen_rev, zlen_map.
  set (D := rev (List.map _ ds)). set (S := sign_text spec num) in *.
  assert (HX : forall m buf, (if flag (flags spec) SPECIAL && negb (base spec =? 10) then
      '(m, buf) ← put_char m buf e 48; if base spec =? 16 then put_char m buf e (Z.lor 88 (Z.land (flags spec) SMALL)) else Some (m, buf)
      else Some (m, buf)) = put_digits (prefix_text spec) m buf e).
  { intros m0 b0. unfold prefix_text. destruct (flag (flags spec) SPECIAL && negb (base spec =? 10)); [|done].
    destruct (base spec =? 16); simpl; destruct (put_char m0 b0 e 48) as [[m1 b1]|]; try done; cbn [mbind option_bind]. by destruct (put_char m1 b1 e _) as [[? ?]|]. }
  assert (HS : forall m buf, (if negb (sign =? 0) then put_char m buf e sign else Some (m, buf)) = put_digits S m buf e).
  { intros m0 b0. rewrite Hsign. destruct (negb (sign =? 0)); [apply put_char_digits|done]. }
  assert (Hfw : forall a, - 2 ^ 31 + 2 <= a < 2 ^ 31 -> (if flag (flags spec) SPECIAL && negb (base spec =? 10) then if base spec =? 16 then s32 (s32 (a - 1) - 1) else s32 (a - 1) else a) = a - zlen (prefix_text spec)).
  { intros a Ha. rewrite (s32_id (a - 1)), s32_id by lia. unfold prefix_text. destruct (flag (flags spec) SPECIAL && negb (base spec =? 10)); [destruct (base spec =? 16)|]; unfold zlen; simpl; lia. }
  assert (HS1 : 0 <= zlen S <= 1) by (rewrite Hsign; destruct (negb (sign =? 0)); unfold zlen; simpl; lia). assert (HX2 : 0 <= zlen (prefix_text spec) <= 2) by (unfold prefix_text; destruct (_ && _), (base spec =? 16); unfold zlen; simpl; lia).
  destruct Hw as [Hw1 Hw2]. rewrite Hfw by lia. rewrite eff_zeropad_left, eff_zeropad, eff_flag by auto. set (X := prefix_text spec) in *. set (prec := if precision spec <? zlen ds then zlen ds else precision spec).
  set (P := fill (precision spec - zlen ds) 48 ++ D).
  assert (HP : zlen P = prec) by (unfold P, D, prec; rewrite zlen_app, zlen_fill, zlen_rev, zlen_map; destruct (Z.ltb_spec (precision spec) (zlen ds)); lia).
  assert (Hfill : fill (prec - zlen ds) 48 = fill (precision spec - zlen ds) 48) by (unfold prec; destruct (Z.ltb_spec (precision spec) (zlen ds)); [rewrite !fill_neg by lia; done|done]).
  assert (Hprec : - 10 ^ 9 <= prec <= 10 ^ 9) by (unfold prec; destruct (Z.ltb_spec (precision spec) (zlen ds)); lia). rewrite s32_id by lia. rewrite <- HP. set (f := field_width spec - zlen S - zlen X - zlen P). rewrite HP in *. assert (Hf : - 2 ^ 31 + 3 < f < 2 ^ 31) by (unfold f; lia).
  assert (Hend : forall m buf k, - 2 ^ 31 < k < 0 -> ('(m, buf, _) ← pad m buf e 32 k; Some (m, buf)) = Some (m, buf)) by (intros m0 b0 k Hk; rewrite pad_digits by lia; rewrite fill_neg by lia; done).
  assert (Hmid : forall m buf k, ('(m, buf, _) ← pad m buf e 48 (prec - zlen ds); '(m, buf) ← put_digits D m buf e; '(m, buf, _) ← pad m buf e 32 k; Some (m, buf)) =
    ('(m, buf) ← put_digits P m buf e; '(m, buf, _) ← pad m buf e 32 k; Some (m, buf))).
  { intros m0 b0 k. rewrite pad_digits by (pose proof (zlen_nonneg ds); lia). rewrite Hfill. unfold P. rewrite put_digits_app. destruct (put_digits _ m0 b0 e) as [[m1 b1]|]; [|done]. done. }
  destruct (flag (flags spec) LEFT) eqn:HL; [|destruct (flag (flags spec) ZEROPAD) eqn:HZ]; rewrite ?orb_true_r; cbn [negb andb orb]; rewrite ?andb_false_r; cbn [mbind option_bind].
  - rewrite HS, put_digits_app. destruct (put_digits S m buf e) as [[m1 b1]|]; [|done]. cbn [mbind option_bind]. rewrite HX, put_digits_app. destruct (put_digits X m1 b1 e) as [[m2 b2]|]; [|done].
    cbn [mbind option_bind]. rewrite Hmid, put_digits_app. destruct (put_digits P m2 b2 e) as [[m3 b3]|]; [|done]. cbn [mbind option_bind]. rewrite pad_digits by lia. by destruct (put_digits (fill f 32) m3 b3 e) as [[? ?]|].
  - rewrite HS, put_digits_app. destruct (put_digits S m buf e) as [[m1 b1]|]; [|done]. cbn [mbind option_bind]. rewrite HX, put_digits_app. destruct (put_digits X m1 b1 e) as [[m2 b2]|]; [|done].
    cbn [mbind option_bind]. rewrite pad_digits by lia. rewrite put_digits_app. destruct (put_digits (fill f 48) m2 b2 e) as [[m3 b3]|]; [|done]. cbn [mbind option_bind]. rewrite Hmid.
    destruct (put_digits P m3 b3 e) as [[m4 b4]|]; [|done]. cbn [mbind option_bind]. apply Hend. destruct (Z.leb_spec f 0); lia.
  - rewrite pad_digits by lia. rewrite put_digits_app. destruct (put_digits (fill f 32) m buf e) as [[m0 b0]|]; [|done]. cbn [mbind option_bind]. rewrite HS, put_digits_app.
    destruct (put_digits S m0 b0 e) as [[m1 b1]|]; [|done]. cbn [mbind option_bind]. rewrite HX, put_digits_app. destruct (put_digits X m1 b1 e) as [[m2 b2]|]; [|done]. cbn [mbind option_bind].
    set (k := if f <=? 0 then f - 1 else -1). assert (Hk : - 2 ^ 31 + 2 < k < 0) by (unfold k; destruct (Z.leb_spec f 0); lia). rewrite pad_digits by lia. rewrite fill_neg by lia. cbn [put_digits mbind option_bind]. rewrite Hmid.
    destruct (put_digits P m2 b2 e) as [[m4 b4]|]; [|done]. cbn [mbind option_bind]. apply Hend. destruct (Z.leb_spec k 0); lia.
Qed.

(** The digits of a number, least significant first *)
Fixpoint digits_of (fuel : nat) (b n : Z) : list Z :=
  match fuel with
  | O => []
  | S fuel => if n <? b then [n] else n mod b :: digits_of fuel b (n / b)
  end.

Lemma numeral_tail b d ds n : 0 < b -> numeral b (d :: ds) n = true -> ds <> [] -> n mod b = d /\ b <= n /\ numeral b ds (n / b) = true.
Proof.
  intros Hb (H1 & H2 & _ & H4)%numeral_spec Hne. apply Forall_cons in H1 as [Hd H1]. change (value b (d :: ds)) with (d + b * value b ds) in H2.
  assert (Hlast : List.last ds 0 <> 0) by (destruct ds as [|e ds]; [done|]; apply H4; unfold zlen; simpl; lia).
  assert (Hpos : 0 < value b ds).
  { clear - Hb H1 Hlast. induction H1 as [|e ds He H1 IH]; [done|]. change (value b (e :: ds)) with (e + b * value b ds). destruct ds as [|f ds]; [simpl in *; lia|]. specialize (IH Hlast). nia. }
  assert (Hdiv : n / b = value b ds) by (symmetry; apply Z.div_unique with d; lia). split; [symmetry; apply Z.mod_unique with (value b ds); lia|]. split; [nia|].
  rewrite Hdiv. apply numeral_spec. split_and!; done.
Qed.

Lemma digits_of_numeral b : 0 < b -> forall fuel ds n, numeral b ds n = true -> (length ds <= fuel)%nat -> digits_of fuel b n = ds.
Proof.
  intros Hb. induction fuel as [|fuel IH]; intros ds n Hn Hl; [by destruct ds; [apply numeral_spec in Hn as (_ & _ & ? & _)|simpl in Hl; lia]|]. cbn [digits_of].
  destruct ds as [|d [|e ds]]; [by apply numeral_spec in Hn as (_ & _ & ? & _)| |].
  - apply numeral_spec in Hn as (H1 & H2 & _). apply Forall_cons in H1 as [Hd _]. simpl in H2. destruct (Z.ltb_spec n b); [f_equal; lia|lia].
  - destruct (numeral_tail b d (e :: ds) n Hb Hn ltac:(done)) as (Hm & Hge & Ht). destruct (Z.ltb_spec n b); [lia|]. rewrite Hm, (IH (e :: ds)); [done|done|simpl in Hl |- *; lia].
Qed.

(** What [number] prints *)
Definition number_output (spec : printf_spec) (num : Z) : list Z := number_text spec num (digits_of 22 (base spec) (Z.abs (signed_value spec num))).

Lemma number_ok m buf e num spec :
  base spec = 8 \/ base spec = 10 \/ base spec = 16 -> 0 <= num < 2 ^ 64 -> widths_ok spec ->
  number m buf e num spec = put_digits (number_output spec num) m buf e /\ numeral (base spec) (digits_of 22 (base spec) (Z.abs (signed_value spec num))) (Z.abs (signed_value spec num)) = true /\
  zlen (digits_of 22 (base spec) (Z.abs (signed_value spec num))) <= 22.
Proof.
  intros Hb Hn Hw. destruct (number_eq m buf e num spec Hb Hn Hw) as (ds & Hds & H22 & E). unfold number_output. rewrite (digits_of_numeral (base spec) ltac:(lia) 22 ds _ Hds) by (unfold zlen in H22; lia). done.
Qed.

(** ** What is read *)

Definition valid (b c : Z) : bool := isxdigit c && (digit_value c <? b).

(** The values of the leading characters that are digits of the base *)
Fixpoint lead (b : Z) (s : list Z) : list Z :=
  match s with
  | c :: s => if valid b c then digit_value c :: lead b s else []
  | [] => []
  end.

Lemma zlen_cons (x : Z) l : zlen (x :: l) = 1 + zlen l.
Proof. unfold zlen. simpl. lia. Qed.

Definition horner (b r : Z) (ds : list Z) : Z := fold_left (fun r d => r * b + d) ds r.

Definition guess_base (s : list Z) : Z :=
  if nth 0 s 0 =? 48 then if (TOLOWER (nth 1 s 0) =? 120) && isxdigit (nth 2 s 0) then 16 else 8 else 10.

Definition has_prefix (s : list Z) : bool := (nth 0 s 0 =? 48) && (TOLOWER (nth 1 s 0) =? 120).

(** The number and the length of what is read: the base is guessed if it is 0, [0x] is
    skipped in base 16, and the number is taken modulo [2 ^ w]. *)
Definition parse (w b : Z) (s : list Z) : Z * Z :=
  let b := if b =? 0 then guess_base s else b in
  let k := if (b =? 16) && has_prefix s then 2%nat else 0%nat in
  let ds := lead b (drop k s) in
  (wrap w (horner b 0 ds), Z.of_nat k + zlen ds).

Lemma strto_loop_ok w m b s : 0 <= w -> forall a fuel r, cstr m a s -> (length s < fuel)%nat ->
  strto_loop fuel w m b (wrap w r) a = Some (wrap w (horner b r (lead b s)), a + zlen (lead b s)).
Proof.
  intros Hw. induction s as [|c s IH]; intros a fuel r H Hf; (destruct fuel as [|fuel]; [simpl in Hf; lia|]); cbn [strto_loop].
  - simpl in H. rewrite H. cbn [mbind option_bind]. change (isxdigit 0) with false. cbv iota. simpl. change (zlen []) with 0. by rewrite Z.add_0_r.
  - destruct H as (Hl & Hc & H). rewrite Hl. cbn [mbind option_bind]. cbn [lead]. unfold valid. destruct (isxdigit c); cbn [andb]; [|simpl; change (zlen []) with 0; by rewrite Z.add_0_r].
    rewrite Z.ltb_antisym. destruct (b <=? digit_value c); cbn [negb]; [simpl; change (zlen []) with 0; by rewrite Z.add_0_r|]. cbv zeta.
    replace (wrap w (wrap w r * b + digit_value c)) with (wrap w (r * b + digit_value c)) by (unfold wrap; rewrite <- (Z.add_mod_idemp_l (r mod 2 ^ w * b)), Z.mul_mod_idemp_l, Z.add_mod_idemp_l by lia; done).
    rewrite IH; [|done|simpl in Hf; lia]. unfold horner. cbn [fold_left]. replace (zlen (digit_value c :: lead b s)) with (1 + zlen (lead b s)) by (unfold zlen; simpl; lia). do 2 f_equal. lia.
Qed.

Lemma cstr_nth m a s i : cstr m a s -> (i <= length s)%nat -> load_byte m (a + Z.of_nat i) = Some (nth i s 0).
Proof.
  intros H Hi. rewrite (cstr_load m a s (Z.of_nat i) H) by (unfold zlen; lia). unfold znth. rewrite Nat2Z.id. f_equal.
  destruct (Nat.eq_dec i (length s)) as [->|]; [rewrite app_nth2, Nat.sub_diag, (nth_overflow s) by lia; done|by rewrite app_nth1 by lia].
Qed.

Lemma nth_zero (s : list Z) i : nth i s 0 <> 0 -> (i < length s)%nat.
Proof. intros H. destruct (Nat.lt_ge_cases i (length s)) as [|Hge]; [done|]. by rewrite nth_overflow in H. Qed.

Lemma guess_base_ok m a s : cstr m a s -> simple_guess_base m a = Some (guess_base s).
Proof.
  intros H. unfold simple_guess_base, guess_base. replace a with (a + Z.of_nat 0) at 1 by lia. rewrite (cstr_nth m a s 0 H) by lia. cbn [mbind option_bind].
  destruct (Z.eqb_spec (nth 0 s 0) 48) as [E0|]; [|done]. pose proof (nth_zero s 0 ltac:(lia)). change (a + 1) with (a + Z.of_nat 1). rewrite (cstr_nth m a s 1 H) by lia. cbn [mbind option_bind].
  destruct (Z.eqb_spec (TOLOWER (nth 1 s 0)) 120) as [E1|]; [|done]. assert (nth 1 s 0 <> 0) by (intros E; rewrite E in E1; done). pose proof (nth_zero s 1 ltac:(done)).
  change (a + 2) with (a + Z.of_nat 2). rewrite (cstr_nth m a s 2 H) by lia. cbn [mbind option_bind andb]. by destruct (isxdigit (nth 2 s 0)).
Qed.

Lemma simple_strto_ok w m a s b : 0 <= w -> cstr m a s -> simple_strto w m a b = Some (fst (parse w b s), a + snd (parse w b s)).
Proof.
  intros Hw H. unfold simple_strto, parse. cbv zeta. set (b' := if b =? 0 then guess_base s else b).
  assert (Eb : (if b =? 0 then simple_guess_base m a else Some b) = Some b') by (unfold b'; destruct (b =? 0); [by apply guess_base_ok|done]). rewrite Eb. cbn [mbind option_bind].
  assert (Ep : (if b' =? 16 then c0 ← load_byte m a; if c0 =? 48 then c1 ← load_byte m (a + 1); Some (TOLOWER c1 =? 120) else Some false else Some false) = Some ((b' =? 16) && has_prefix s)).
  { destruct (b' =? 16); [|done]. unfold has_prefix. replace a with (a + Z.of_nat 0) at 1 by lia. rewrite (cstr_nth m a s 0 H) by lia. cbn [mbind option_bind].
    destruct (Z.eqb_spec (nth 0 s 0) 48) as [E0|]; [|done]. pose proof (nth_zero s 0 ltac:(lia)). change (a + 1) with (a + Z.of_nat 1). rewrite (cstr_nth m a s 1 H) by lia. done. }
  rewrite Ep. cbn [mbind option_bind]. change 0 with (wrap w 0) at 1. pose proof (cstr_fuel m a s H) as Hf. destruct ((b' =? 16) && has_prefix s) eqn:E.
  - apply andb_true_iff in E as [_ [E0 E1]%andb_true_iff]. assert (nth 1 s 0 <> 0) by (intros E; rewrite E in E1; done). pose proof (nth_zero s 1 ltac:(done)).
    rewrite (strto_loop_ok w m b' (drop 2 s)); [|done| |rewrite length_drop; lia]; [cbn [fst snd]; do 2 f_equal; lia|]. apply (cstr_drop m a s 2 H). unfold zlen. lia.
  - rewrite (strto_loop_ok w m b' s); [|done|done|lia]. cbn [fst snd drop]. do 2 f_equal; lia.
Qed.

(** ** What is printed is read back *)

Lemma dchar_valid b locase d : locase = 0 \/ locase = 32 -> b <= 16 -> 0 <= d < b -> valid b (dchar locase d) = true /\ digit_value (dchar locase d) = d.
Proof.
  intros Hl Hb Hd. assert (H : isxdigit (dchar locase d) && (digit_value (dchar locase d) =? d) = true).
  { destruct Hl as [-> | ->]; [apply (all_below_spec 16 (fun d => isxdigit (dchar 0 d) && (digit_value (dchar 0 d) =? d)))|apply (all_below_spec 16 (fun d => isxdigit (dchar 32 d) && (digit_value (dchar 32 d) =? d)))];
      [vm_compute; reflexivity|lia|vm_compute; reflexivity|lia]. }
  apply andb_true_iff in H as [H1 H2%Z.eqb_eq]. unfold valid. rewrite H1, H2. split; [|done]. simpl. apply Z.ltb_lt. lia.
Qed.

(** No digit is NUL, a minus sign or an [x]. *)
Lemma dchar_range locase d : locase = 0 \/ locase = 32 -> 0 <= d < 16 -> 48 <= dchar locase d <= 102 /\ TOLOWER (dchar locase d) <> 120 /\ (dchar locase d = 48 -> d = 0).
Proof.
  intros Hl Hd. set (P := fun l d => (48 <=? dchar l d) && (dchar l d <=? 102) && negb (TOLOWER (dchar l d) =? 120) && (negb (dchar l d =? 48) || (d =? 0))).
  assert (H : P locase d = true) by (destruct Hl as [-> | ->]; [apply (all_below_spec 16 (P 0))|apply (all_below_spec 16 (P 32))]; [vm_compute; reflexivity|lia|vm_compute; reflexivity|lia]).
  unfold P in H. rewrite !andb_true_iff, orb_true_iff, !negb_true_iff in H. destruct H as [[[? ?] ?] ?]. split_and!; try lia.
Qed.

Lemma lead_digits b locase es : locase = 0 \/ locase = 32 -> b <= 16 -> Forall (fun d => 0 <= d < b) es -> lead b (List.map (dchar locase) es) = es.
Proof. intros Hl Hb. induction 1 as [|d es Hd _ IH]; [done|]. simpl. destruct (dchar_valid b locase d Hl Hb Hd) as [-> ->]. by rewrite IH. Qed.

Lemma horner_rev b ds : horner b 0 (rev ds) = value b ds.
Proof. unfold horner, value. induction ds as [|d ds IH]; [done|]. simpl. rewrite fold_left_app, IH. simpl. lia. Qed.

(** A prefix as [number] puts it, and what is read with it in front of a numeral *)
Definition base_prefix (b locase : Z) : list Z := if b =? 10 then [] else if b =? 16 then [48; Z.lor 88 locase] else [48].

Lemma rev_numeral b ds n : numeral b ds n = true -> exists d es, rev ds = d :: es /\ Forall (fun d => 0 <= d < b) (d :: es) /\ (d = 0 -> es = []).
Proof.
  intros (H1 & _ & H3 & H4)%numeral_spec. destruct (rev ds) as [|d es] eqn:E; [apply (f_equal (@rev Z)) in E; rewrite rev_involutive in E; done|].
  exists d, es. split; [done|]. split; [rewrite <- E; by apply Forall_rev|]. intros ->. destruct es as [|e es]; [done|]. exfalso.
  assert (Hds : ds = rev (e :: es) ++ [0]) by (rewrite <- (rev_involutive ds), E; done). apply H4; [|rewrite Hds; by rewrite last_app_ne].
  rewrite Hds, zlen_app, zlen_rev. unfold zlen. simpl. lia.
Qed.

Lemma parse_printed w b locase ds n :
  b = 8 \/ b = 10 \/ b = 16 -> locase = 0 \/ locase = 32 -> numeral b ds n = true ->
  let s := base_prefix b locase ++ rev (List.map (dchar locase) ds) in parse w 0 s = (wrap w n, zlen s).
Proof.
  intros Hb Hl Hn s. destruct (rev_numeral b ds n Hn) as (d & es & E & Hf & Hz). pose proof (proj1 (proj2 (proj1 (numeral_spec _ _ _) Hn))) as Hv.
  rewrite <- horner_rev, E in Hv. assert (Hd : 0 <= d < 16) by (apply Forall_cons in Hf as [? _]; lia). destruct (dchar_range locase d Hl Hd) as (Hr & Hx & H0).
  assert (Hlead : lead b (List.map (dchar locase) (d :: es)) = d :: es) by (apply lead_digits; [done|lia|done]).
  assert (Hz' : zlen (rev (List.map (dchar locase) ds)) = zlen (d :: es)) by (rewrite <- E, zlen_rev, zlen_map, zlen_rev; done).
  unfold s. rewrite zlen_app, Hz', <- List.map_rev, E. clear s Hz'. unfold parse. change (0 =? 0) with true. cbv iota.
  set (D := List.map (dchar locase) (d :: es)) in *. assert (HD : D = dchar locase d :: List.map (dchar locase) es) by done. destruct Hb as [->|[->| ->]].
  - change (base_prefix 8 locase) with [48]. assert (Hg : guess_base ([48] ++ D) = 8) by (rewrite HD; unfold guess_base; cbn [app nth]; rewrite (proj2 (Z.eqb_neq _ _) Hx); done).
    rewrite Hg. change (8 =? 16) with false. cbn [andb]. cbv iota zeta. rewrite drop_0. change (lead 8 ([48] ++ D)) with (0 :: lead 8 D). rewrite Hlead, <- Hv. unfold zlen. simpl. f_equal; lia.
  - change (base_prefix 10 locase) with (@nil Z). cbn [app]. destruct (decide (d = 0)) as [->|Hd0]; [assert (es = []) as -> by auto; subst n; destruct Hl as [-> | ->]; reflexivity|].
    assert (Hg : guess_base D = 10) by (rewrite HD; unfold guess_base; cbn [nth]; destruct (Z.eqb_spec (dchar locase d) 48); [tauto|done]).
    rewrite Hg. change (10 =? 16) with false. cbn [andb]. cbv iota zeta. rewrite drop_0. rewrite Hlead, <- Hv. f_equal.
  - change (base_prefix 16 locase) with [48; Z.lor 88 locase]. assert (Hxd : isxdigit (dchar locase d) = true) by (destruct (dchar_valid 16 locase d Hl ltac:(lia) Hd) as [[? _]%andb_true_iff _]; done).
    assert (HX : (TOLOWER (Z.lor 88 locase) =? 120) = true) by (destruct Hl as [-> | ->]; done).
    assert (Hg : guess_base ([48; Z.lor 88 locase] ++ D) = 16) by (rewrite HD; unfold guess_base; cbn [app nth]; rewrite HX, Hxd; done).
    assert (Hp : has_prefix ([48; Z.lor 88 locase] ++ D) = true) by (unfold has_prefix; cbn [app nth]; rewrite HX; done).
    rewrite Hg, Hp. change (16 =? 16) with true. cbn [andb]. cbv iota zeta. change (drop 2 ([48; Z.lor 88 locase] ++ D)) with D. rewrite Hlead, <- Hv. f_equal.
Qed.

Lemma cstr_intro s : forall m a, 0 <= a -> a + zlen s < zlen m -> (forall i, 0 <= i <= zlen s -> znth m (a + i) = znth (s ++ [0]) i) -> Forall (fun c => c <> 0) s -> cstr m a s.
Proof.
  induction s as [|c s IH]; intros m a Ha Hl H Hz.
  - apply load_byte_Some. change (zlen []) with 0 in *. split; [lia|]. specialize (H 0 ltac:(lia)). rewrite Z.add_0_r in H. by rewrite H.
  - assert (Hn : zlen (c :: s) = 1 + zlen s) by (unfold zlen; simpl; lia). pose proof (zlen_nonneg s). rewrite Hn in *. apply Forall_cons in Hz as [Hc Hz]. cbn [cstr]. split_and!.
    + apply load_byte_Some. split; [lia|]. specialize (H 0 ltac:(lia)). rewrite Z.add_0_r in H. by rewrite H.
    + done.
    + apply IH; [lia|lia| |done]. intros i Hi. replace (a + 1 + i) with (a + (1 + i)) by lia. rewrite H by lia. unfold znth. replace (Z.to_nat (1 + i)) with (S (Z.to_nat i)) by lia. done.
Qed.

(** A text that was printed with room to spare, and a NUL behind it *)
Lemma printed_cstr m buf e s m' : 0 <= buf -> buf + zlen s < e <= zlen m -> Forall (fun c => c <> 0) s -> printed m buf e s m' ->
  exists m'', store_byte m' (buf + zlen s) 0 = Some m'' /\ cstr m'' buf s.
Proof.
  intros Hb He Hz [Hl Hp]. pose proof (zlen_nonneg s). destruct (write_bytes_Some m' (buf + zlen s) [0]) as (m'' & E & L & W); [lia|change (zlen [0]) with 1; lia|]. exists m''. split; [done|].
  apply cstr_intro; [done|lia| |done]. intros i Hi. rewrite W by lia. change (zlen [0]) with 1. destruct (Z.eq_dec i (zlen s)) as [->|Hne].
  - zbool; try lia. rewrite Z.sub_diag. unfold znth, zlen. rewrite app_nth2, Nat2Z.id, Nat.sub_diag by lia. done.
  - zbool; try lia. rewrite Hp by lia. zbool; try lia. replace (buf + i - buf) with i by lia. unfold znth. rewrite app_nth1 by (unfold zlen in *; lia). done.
Qed.

(** The conversions whose output is C notation for the number, and nothing else *)
Definition plain (spec : printf_spec) : bool :=
  (field_width spec <=? 0) && (precision spec <=? 0) && ((base spec =? 10) || flag (flags spec) SPECIAL) && negb (flag (flags spec) PLUS) && negb (flag (flags spec) SPACE).

Lemma plain_text spec num ds : base spec = 8 \/ base spec = 10 \/ base spec = 16 -> plain spec = true -> number_text spec num ds =
  (if flag (flags spec) SIGN && (signed_value spec num <? 0) then [45] else []) ++ base_prefix (base spec) (Z.land (flags spec) SMALL) ++ rev (List.map (dchar (Z.land (flags spec) SMALL)) ds).
Proof.
  intros Hb H. unfold plain in H. rewrite !andb_true_iff, !negb_true_iff in H. destruct H as ((((Hfw & Hpr) & Hsp) & HP) & HS). apply Z.leb_le in Hfw, Hpr.
  assert (HX : prefix_text spec = base_prefix (base spec) (Z.land (flags spec) SMALL)).
  { unfold prefix_text, base_prefix. destruct (Z.eqb_spec (base spec) 10) as [E|]; [by rewrite andb_false_r|]. simpl in Hsp. rewrite Hsp. done. }
  unfold number_text. set (D := rev _). pose proof (zlen_nonneg D). rewrite (fill_neg (precision spec - zlen D)), HX by lia. cbn [app].
  assert (HSg : sign_text spec num = if flag (flags spec) SIGN && (signed_value spec num <? 0) then [45] else []).
  { unfold sign_text. destruct (flag (flags spec) SIGN); [|done]. rewrite HP, HS. by destruct (signed_value spec num <? 0). }
  rewrite <- HSg. set (X := base_prefix _ _). pose proof (zlen_nonneg (sign_text spec num)). pose proof (zlen_nonneg X).
  rewrite !fill_neg by lia. rewrite !app_nil_r. destruct (flag (flags spec) LEFT), (flag (flags spec) ZEROPAD); done.
Qed.

Lemma dchars_nonzero b locase ds n : b = 8 \/ b = 10 \/ b = 16 -> locase = 0 \/ locase = 32 -> numeral b ds n = true ->
  Forall (fun c => c <> 0 /\ c <> 45) (base_prefix b locase ++ rev (List.map (dchar locase) ds)).
Proof.
  intros Hb Hl [Hd _]%numeral_spec. apply Forall_app. split.
  - destruct Hb as [->|[->| ->]], Hl as [-> | ->]; repeat constructor; done.
  - apply Forall_rev, List.Forall_map. eapply Forall_impl; [exact Hd|]. intros d Hx. simpl in Hx. assert (Hd16 : 0 <= d < 16) by lia. destruct (dchar_range locase d Hl Hd16) as [? _]. lia.
Qed.

(** ** Strict reading *)

(** What is read reaches the end of the string, or only a newline is left. *)
Definition accepted (w b : Z) (s : list Z) : option Z :=
  let '(v, n) := parse w b s in
  if n =? 0 then None else if (n =? zlen s) || ((n + 1 =? zlen s) && (znth s n =? 10)) then Some v else None.

Lemma parse_bounds w b s : 0 <= snd (parse w b s) <= zlen s.
Proof.
  unfold parse. cbv zeta. cbn [snd]. set (k := if _ && _ then 2%nat else 0%nat). generalize (if b =? 0 then guess_base s else b). intros b'.
  assert (Hl : forall s, 0 <= zlen (lead b' s) <= zlen s). { clear. induction s as [|c s IH]; [done|]. simpl. unfold zlen in *. destruct (valid b' c); simpl; lia. }
  assert (Hk : Z.of_nat k <= zlen s).
  { unfold k. destruct (_ && has_prefix s) eqn:E; [|unfold zlen; lia]. apply andb_true_iff in E as [_ [_ E]%andb_true_iff]. assert (nth 1 s 0 <> 0) as Hn by (intros E'; rewrite E' in E; done). apply nth_zero in Hn. unfold zlen. lia. }
  specialize (Hl (drop k s)). unfold zlen in *. rewrite length_drop in *. lia.
Qed.

Lemma strict_strto_ok w m a s b : 0 <= w -> cstr m a s -> strict_strto w m a b = Some (match accepted w b s with Some v => (0, v) | None => (- EINVAL, 0) end).
Proof.
  intros Hw H. unfold strict_strto, accepted. rewrite (strlen_ok m a s H), (simple_strto_ok w m a s b Hw H). cbn [mbind option_bind]. pose proof (parse_bounds w b s) as Hn.
  destruct (parse w b s) as [v n]. cbn [fst snd] in *. destruct (Z.eqb_spec (zlen s) 0); [by replace n with 0 by lia|]. destruct (Z.eqb_spec n 0) as [->|Hn0]; [rewrite Z.add_0_r, Z.eqb_refl; done|].
  destruct (Z.eqb_spec (a + n) a); [lia|]. rewrite (cstr_load m a s n H Hn). cbn [mbind option_bind]. replace (zlen s =? a + n - a + 1) with (n + 1 =? zlen s) by (zbool; lia).
  pose proof (not_NUL m a s H) as Hz. destruct (Z.eqb_spec n (zlen s)) as [->|Hne].
  - unfold znth at 1, zlen. rewrite app_nth2, Nat2Z.id, Nat.sub_diag by lia. done.
  - assert (E : znth (s ++ [0]) n = znth s n) by (unfold znth; rewrite app_nth1 by (unfold zlen in *; lia); done). rewrite E.
    assert (Hnz : znth s n <> 0) by (rewrite List.Forall_forall in Hz; apply Hz, nth_In; unfold zlen in *; lia). destruct (Z.eqb_spec (znth s n) 0); [done|]. cbn [orb]. by destruct ((n + 1 =? zlen s) && _).
Qed.

Lemma swrap_swrap w x : 0 < w -> swrap w (- swrap w x) = swrap w (- x).
Proof.
  intros Hw. unfold swrap at 1 3. cbv zeta. replace (- swrap w x mod 2 ^ w) with (- x mod 2 ^ w); [done|]. unfold swrap. cbv zeta. destruct (x mod 2 ^ w <? 2 ^ (w - 1)).
  - rewrite <- !(Z.sub_0_l). by rewrite <- Zminus_mod_idemp_r.
  - replace (- (x mod 2 ^ w - 2 ^ w)) with (- (x mod 2 ^ w) + 1 * 2 ^ w) by lia. rewrite Z.mod_add by lia. rewrite <- !(Z.sub_0_l). by rewrite <- Zminus_mod_idemp_r.
Qed.

(** What a signed conversion makes of a string: [f] reads what follows the sign. *)
Definition with_sign {A} (f : (Z -> Z) -> list Z -> A) (s : list Z) : A :=
  if nth 0 s 0 =? 45 then f Z.opp (drop 1 s) else f (fun x => x) s.

Lemma cstr_tail m a s : cstr m a s -> nth 0 s 0 = 45 -> cstr m (a + 1) (drop 1 s).
Proof. intros H E. destruct s as [|c s]; [done|]. by destruct H as (_ & _ & H). Qed.

Lemma cstr_head m a s : cstr m a s -> load_byte m a = Some (nth 0 s 0).
Proof. intros H. pose proof (cstr_nth m a s 0 H ltac:(lia)) as E. by rewrite Z.add_0_r in E. Qed.

Lemma strict_strto_signed_ok w m a s b : 0 < w -> cstr m a s ->
  strict_strto_signed w m a b = Some (with_sign (fun sg s => match accepted w b s with Some v => (0, swrap w (sg v)) | None => (- EINVAL, 0) end) s).
Proof.
  intros Hw H. unfold strict_strto_signed, with_sign. rewrite (cstr_head m a s H). cbn [mbind option_bind].
  assert (Z0 : swrap w 0 = 0) by (unfold swrap; cbv zeta; rewrite Z.mod_0_l by lia; destruct (Z.ltb_spec 0 (2 ^ (w - 1))); lia).
  destruct (Z.eqb_spec (nth 0 s 0) 45) as [E|E].
  - rewrite (strict_strto_ok w m (a + 1) (drop 1 s) b) by (lia || by apply cstr_tail). cbn [mbind option_bind]. destruct (accepted w b (drop 1 s)); [|change (- EINVAL =? 0) with false; simpl; by rewrite Z0].
    change (0 =? 0) with true. simpl. by rewrite swrap_swrap.
  - rewrite (strict_strto_ok w m a s b) by (lia || done). cbn [mbind option_bind]. destruct (accepted w b s); [done|]. by rewrite Z0.
Qed.

Lemma simple_strto_signed_ok w m a s b : 0 <= w -> cstr m a s ->
  simple_strto_signed w m a b = Some (with_sign (fun sg s' => (swrap w (sg (fst (parse w b s'))), a + zlen s - zlen s' + snd (parse w b s'))) s).
Proof.
  intros Hw H. unfold simple_strto_signed, with_sign. rewrite (cstr_head m a s H). cbn [mbind option_bind]. destruct (Z.eqb_spec (nth 0 s 0) 45) as [E|E].
  - rewrite (simple_strto_ok w m (a + 1) (drop 1 s) b) by (lia || by apply cstr_tail). cbn [mbind option_bind]. do 2 f_equal. destruct s as [|c s]; [done|]. assert (Hs : zlen (c :: s) = 1 + zlen s) by (unfold zlen; simpl; lia). rewrite Hs. change (drop 1 (c :: s)) with s. lia.
  - rewrite (simple_strto_ok w m a s b) by (lia || done). cbn [mbind option_bind]. do 2 f_equal. lia.
Qed.

Lemma accepted_all w b s v : parse w b s = (v, zlen s) -> s <> [] -> accepted w b s = Some v.
Proof. intros E Hs. unfold accepted. rewrite E. destruct (Z.eqb_spec (zlen s) 0) as [E0|_]; [destruct s; [done|unfold zlen in E0; simpl in E0; lia]|]. by rewrite Z.eqb_refl. Qed.

(** [number] prints a number: for the bases it is called with and every 64-bit number,
    it ends, and the text it prints is [number_output]: the sign, the prefix and the digits
    of the number's magnitude (its numeral without leading zeros), padded to the precision
    with zeros and to the field width as the flags say.  Of that text, what lies below the
    limit [e] is written, everything else of memory is as before, and the end of the whole
    text is returned. *)
Theorem number_correct m buf e num spec :
  base spec = 8 \/ base spec = 10 \/ base spec = 16 -> 0 <= num < 2 ^ 64 -> widths_ok spec -> 0 <= buf -> e <= zlen m ->
  let n := Z.abs (signed_value spec num) in
  numeral (base spec) (digits_of 22 (base spec) n) n = true /\
  exists m', number m buf e num spec = Some (m', buf + zlen (number_output spec num)) /\ printed m buf e (number_output spec num) m'.
Proof.
  intros Hb Hn Hw H0 He n. destruct (number_ok m buf e num spec Hb Hn Hw) as (E & Hds & _). split; [done|]. rewrite E. by apply put_digits_ok.
Qed.

Lemma number_correct_witness :
  let spec := mkspec FORMAT_TYPE_UINT (SPECIAL + ZEROPAD + SMALL) 6 16 (-1) (-1) in
  number_output spec 255 = [48; 120; 48; 48; 102; 102] /\ numeral 16 [15; 15] 255 = true /\
  exists m', number (replicate 8 1) 1 6 255 spec = Some (m', 7) /\ printed (replicate 8 1) 1 6 (number_output spec 255) m'.
Proof.
  intros spec. split; [reflexivity|]. apply (number_correct (replicate 8 1) 1 6 255 spec); [simpl; lia|lia|split; simpl; lia|lia|unfold zlen; simpl; lia].
Defined.

(** C16. What [number] prints is read back: a number printed without padding, in base 10 or
    with the prefix of base 8 or 16, and ended with a NUL, is what [simple_strtoll] (if it
    was printed as a signed number; [simple_strtoull] if not) reads with the base left to
    be guessed, up to the NUL, and what [strict_strtoll] and [strict_strtoull] accept. *)
Theorem number_reads_back m buf e num spec :
  base spec = 8 \/ base spec = 10 \/ base spec = 16 -> 0 <= num < 2 ^ 64 -> widths_ok spec -> 0 <= buf -> buf + 26 <= e <= zlen m -> plain spec = true ->
  exists m' p m'', number m buf e num spec = Some (m', p) /\ store_byte m' p 0 = Some m'' /\
    if flag (flags spec) SIGN then simple_strtoll m'' buf 0 = Some (swrap 64 num, p) /\ strict_strtoll m'' buf 0 = Some (0, swrap 64 num)
    else simple_strtoull m'' buf 0 = Some (num, p) /\ strict_strtoull m'' buf 0 = Some (0, num).
Proof.
  intros Hb Hn Hw H0 He Hpl. destruct (number_eq m buf e num spec Hb Hn Hw) as (ds & Hds & H22 & E).
  destruct (put_digits_ok (number_text spec num ds) m buf e H0 ltac:(lia)) as (m' & E' & P). pose proof (plain_text spec num ds Hb Hpl) as Ht.
  set (l := Z.land (flags spec) SMALL) in *. pose proof (small_cases (flags spec)) as Hl. fold l in Hl. pose proof (dchars_nonzero _ l ds _ Hb Hl Hds) as Hnz.
  pose proof (fun w => parse_printed w (base spec) l ds _ Hb Hl Hds) as Hp. cbv zeta in Hp. set (T := base_prefix (base spec) l ++ rev (List.map (dchar l) ds)) in *.
  assert (HT : T <> []) by (intros HT; apply (f_equal (@length Z)) in HT; unfold T in HT; rewrite length_app, length_rev, List.length_map in HT; destruct ds; [by apply numeral_spec in Hds as (_ & _ & ? & _)|simpl in HT; lia]).
  set (neg := flag (flags spec) SIGN && (signed_value spec num <? 0)) in *.
  assert (HlT : zlen T <= 24) by (unfold T; rewrite zlen_app, zlen_rev, zlen_map; unfold base_prefix; destruct (base spec =? 10), (base spec =? 16); unfold zlen in *; simpl; lia).
  assert (Hlen : zlen (number_text spec num ds) <= 25) by (rewrite Ht, zlen_app; destruct neg; [change (zlen [45]) with 1|change (zlen []) with 0]; lia).
  destruct (printed_cstr m buf e (number_text spec num ds) m' H0 ltac:(lia)) as (m'' & Es & Hc); [|done|].
  { rewrite Ht. apply Forall_app. split; [destruct neg; repeat constructor; done|]. eapply Forall_impl; [exact Hnz|]. by intros ? [? _]. }
  exists m', (buf + zlen (number_text spec num ds)), m''. rewrite E. split; [done|]. split; [done|]. rewrite Ht in Hc |- *. clear E E' P Hlen Es Ht. unfold simple_strtoll, simple_strtoull, strict_strtoll, strict_strtoull.
  pose proof (accepted_all 64 0 T _ (Hp 64) HT) as Ha. unfold signed_value in *. unfold neg in *. pose proof (swrap_range num) as Hr. destruct (flag (flags spec) SIGN); cbn [andb] in *.
  - rewrite (simple_strto_signed_ok 64 m'' buf _ 0 ltac:(lia) Hc), (strict_strto_signed_ok 64 m'' buf _ 0 ltac:(lia) Hc). unfold with_sign. destruct (Z.ltb_spec (swrap 64 num) 0) as [Hs|Hs]; cbn [app nth].
    + change (45 =? 45) with true. cbv iota. change (drop 1 (45 :: T)) with T. rewrite (Hp 64), Ha. cbn [fst snd]. unfold wrap. rewrite Z.mod_small, Z.abs_neq, Z.opp_involutive, (swrap_id 64) by lia. split; [do 2 f_equal; lia|done].
    + destruct (Z.eqb_spec (nth 0 T 0) 45) as [E45|_]; [destruct T as [|c T']; [done|]; apply Forall_cons in Hnz as [[_ ?] _]; done|]. rewrite (Hp 64), Ha. cbn [fst snd].
      unfold wrap. rewrite Z.mod_small, Z.abs_eq, (swrap_id 64) by lia. split; [do 2 f_equal; lia|done].
  - cbn [app] in *. rewrite (simple_strto_ok 64 m'' buf T 0 ltac:(lia) Hc), (strict_strto_ok 64 m'' buf T 0 ltac:(lia) Hc), (Hp 64), Ha. cbn [fst snd]. unfold wrap. rewrite Z.mod_small, Z.abs_eq by lia. done.
Qed.

Lemma number_reads_back_witness :
  exists m' p m'', number (replicate 32 1) 3 32 (2 ^ 64 - 1234567) (mkspec FORMAT_TYPE_INT SIGN (-1) 10 (-1) (-1)) = Some (m', p) /\ store_byte m' p 0 = Some m'' /\
    (simple_strtoll m'' 3 0 = Some (-1234567, p) /\ strict_strtoll m'' 3 0 = Some (0, -1234567)).
Proof. apply (number_reads_back (replicate 32 1) 3 32 (2 ^ 64 - 1234567) (mkspec FORMAT_TYPE_INT SIGN (-1) 10 (-1) (-1))); [simpl; lia|lia|split; simpl; lia|lia|unfold zlen; simpl; lia|reflexivity]. Defined.

(** *** What a string says

    The text of a number, in terms of characters alone: the digits [0-9], [A-F] and
    [a-f], the prefixes [0x] and [0X], and the base that a string shows. *)
Definition digit_char (c : Z) : option Z :=
  if (48 <=? c) && (c <=? 57) then Some (c - 48)
  else if (65 <=? c) && (c <=? 70) then Some (c - 55)
  else if (97 <=? c) && (c <=? 102) then Some (c - 87)
  else None.

Fixpoint leading_digits (b : Z) (s : list Z) : list Z :=
  match s with
  | c :: s => match digit_char c with Some d => if d <? b then d :: leading_digits b s else [] | None => [] end
  | [] => []
  end.

Definition hex_prefix (s : list Z) : bool :=
  match s with x :: c :: _ => (x =? 48) && ((c =? 88) || (c =? 120)) | _ => false end.

Definition shown_base (s : list Z) : Z :=
  match s with
  | x :: t => if x =? 48 then if hex_prefix s && bool_decide (is_Some (digit_char (nth 1 t 0))) then 16 else 8 else 10
  | [] => 10
  end.

(** The number at the beginning of a string, and how many characters it takes *)
Definition number_at (w b : Z) (s : list Z) : Z * Z :=
  let b := if b =? 0 then shown_base s else b in
  let k := if (b =? 16) && hex_prefix s then 2%nat else 0%nat in
  let ds := leading_digits b (drop k s) in
  (horner b 0 ds mod 2 ^ w, Z.of_nat k + zlen ds).

(** That number, if it takes at least one character and is followed by nothing, or by a
    newline and nothing *)
Definition whole_number (w b : Z) (s : list Z) : option Z :=
  let '(v, n) := number_at w b s in
  if n =? 0 then None
  else match drop (Z.to_nat n) s with [] => Some v | [c] => if c =? 10 then Some v else None | _ => None end.

Definition is_byte (c : Z) : Prop := 0 <= c < 256.

Lemma digit_char_spec c : is_byte c -> digit_char c = if isxdigit c then Some (digit_value c) else None.
Proof.
  intros Hc. apply (bool_decide_eq_true_1 _). revert c Hc.
  apply (all_bytes (fun c => bool_decide (digit_char c = if isxdigit c then Some (digit_value c) else None))). vm_compute. reflexivity.
Qed.

Lemma is_x_spec c : is_byte c -> (TOLOWER c =? 120) = (c =? 88) || (c =? 120).
Proof. revert c. refine (all_bytes_eq _ _ _). vm_compute. reflexivity. Qed.

Lemma leading_digits_spec b s : Forall is_byte s -> leading_digits b s = lead b s.
Proof.
  induction 1 as [|c s Hc Hs IH]; [done|]. simpl. rewrite (digit_char_spec c Hc). unfold valid.
  destruct (isxdigit c); [|done]. simpl. by rewrite IH.
Qed.

Lemma hex_prefix_spec s : Forall is_byte s -> hex_prefix s = has_prefix s.
Proof.
  intros Hs. unfold has_prefix. destruct s as [|x [|c s]]; [done|by cbn; rewrite andb_false_r|].
  inversion_clear Hs as [|?? _ Ht]. inversion_clear Ht as [|?? Hc _]. cbn [hex_prefix nth]. by rewrite is_x_spec.
Qed.

Lemma shown_base_spec s : Forall is_byte s -> shown_base s = guess_base s.
Proof.
  intros Hs. unfold shown_base, guess_base. destruct s as [|x t]; [done|]. rewrite (hex_prefix_spec _ Hs). unfold has_prefix.
  cbn [nth]. destruct (x =? 48); [|done]. cbn [andb].
  assert (Hb : is_byte (nth 1 t 0)).
  { inversion_clear Hs as [|?? _ Ht]. destruct (nth_in_or_default 1 t 0) as [Hin| ->]; [|unfold is_byte; lia].
    rewrite Forall_forall in Ht. apply Ht. by apply list_elem_of_In. }
  rewrite (digit_char_spec _ Hb). destruct (isxdigit (nth 1 t 0)); [rewrite bool_decide_true by eauto|rewrite bool_decide_false by (intros [? ?]; done)]; done.
Qed.

Lemma number_at_spec w b s : Forall is_byte s -> number_at w b s = parse w b s.
Proof.
  intros Hs. unfold number_at, parse. rewrite (shown_base_spec s Hs), (hex_prefix_spec s Hs). cbv zeta.
  rewrite leading_digits_spec; [done|]. by apply Forall_drop.
Qed.

Lemma whole_number_spec w b s : Forall is_byte s -> whole_number w b s = accepted w b s.
Proof.
  intros Hs. unfold whole_number, accepted. rewrite (number_at_spec w b s Hs). pose proof (parse_bounds w b s) as Hb.
  destruct (parse w b s) as [v n]. cbn [snd] in Hb. destruct (n =? 0); [done|].
  assert (Hl : zlen (drop (Z.to_nat n) s) = zlen s - n) by (unfold zlen in *; rewrite length_drop; lia).
  assert (Hz : znth s n = nth 0 (drop (Z.to_nat n) s) 0).
  { unfold znth. by rewrite nth_skipn, Nat.add_0_r. }
  rewrite Hz. destruct (drop (Z.to_nat n) s) as [|c [|c' t]]; unfold zlen at 1 in Hl; cbn [length nth] in *.
  - replace (n =? zlen s) with true by (symmetry; apply Z.eqb_eq; lia). done.
  - replace (n =? zlen s) with false by (symmetry; apply Z.eqb_neq; lia).
    replace (n + 1 =? zlen s) with true by (symmetry; apply Z.eqb_eq; lia). done.
  - replace (n =? zlen s) with false by (symmetry; apply Z.eqb_neq; lia).
    replace (n + 1 =? zlen s) with false by (symmetry; apply Z.eqb_neq; lia). done.
Qed.

(** C33. The conversions of a string of bytes.  The simple ones read the longest run of
    digits of the base at its beginning, behind a prefix [0x] that is skipped in base 16,
    and return the number modulo the width and where it ends; base 0 stands for the base
    the string shows.  The signed ones negate what follows a minus sign.  The strict ones
    return 0 and that number exactly if it takes at least one character, counting the
    prefix, and is followed by the end of the string or by one final newline; for any
    other string they return [-EINVAL] and the result 0.  So the prefix alone is accepted
    as 0 in base 16 and a number too large for the type is accepted modulo the width
    ([strict_accepts_no_digits], [strict_accepts_overflow]). *)
Theorem strto_correct w m a s b :
  w = 32 \/ w = 64 -> is_bytes m -> cstr m a s ->
  simple_strto w m a b = Some (fst (number_at w b s), a + snd (number_at w b s)) /\
  simple_strto_signed w m a b = Some (with_sign (fun sg t => (swrap w (sg (fst (number_at w b t))), a + zlen s - zlen t + snd (number_at w b t))) s) /\
  strict_strto w m a b = Some (match whole_number w b s with Some v => (0, v) | None => (- EINVAL, 0) end) /\
  strict_strto_signed w m a b = Some (with_sign (fun sg t => match whole_number w b t with Some v => (0, swrap w (sg v)) | None => (- EINVAL, 0) end) s).
Proof.
  intros Hw Hm H. assert (0 < w) by lia. unfold with_sign.
  assert (Hs : Forall is_byte s) by (eapply Forall_impl; [exact (cstr_bytes m a s Hm H)|unfold is_byte; lia]). pose proof (Forall_drop _ 1 s Hs) as Hs1.
  rewrite !number_at_spec, !whole_number_spec by done.
  split_and!; [by apply simple_strto_ok; [lia|]|by apply simple_strto_signed_ok; [lia|]|by apply strict_strto_ok; [lia|]|by apply strict_strto_signed_ok].
Qed.

Lemma strto_correct_witness :
  simple_strto 32 [48; 120; 49; 70; 10; 0] 0 0 = Some (31, 4) /\ simple_strto_signed 32 [48; 120; 49; 70; 10; 0] 0 0 = Some (31, 4) /\
  strict_strto 32 [48; 120; 49; 70; 10; 0] 0 0 = Some (0, 31) /\ strict_strto_signed 32 [48; 120; 49; 70; 10; 0] 0 0 = Some (0, 31).
Proof. apply (strto_correct 32 [48; 120; 49; 70; 10; 0] 0 [48; 120; 49; 70; 10] 0); [auto|repeat constructor; done|repeat split; done]. Defined.

(** The strict conversions let two kinds of string through that are no number of the type:
    a prefix with no digit behind it, and a number too large for the type. *)
Lemma strict_accepts_no_digits : strict_strto 32 [48; 120; 0] 0 16 = Some (0, 0).
Proof. reflexivity. Qed.

(** "4294967297" *)
Lemma strict_accepts_overflow : strict_strto 32 [52; 50; 57; 52; 57; 54; 55; 50; 57; 55; 0] 0 10 = Some (0, 1).
Proof. reflexivity. Qed.

End Number.
