(* ===== verification/Addrstr.v ===== *)
(** * lib/vsprintf.c: strings, resources and addresses

    The conversions of [%s] and of the extensions of [%p] that print what a pointer leads to:
    the range of a resource, hardware addresses, IPv4 and IPv6 addresses.  Memory is the byte
    memory of lib/string.c, an access outside it is [None]; an array the code itself holds (a
    literal or a local one) is a memory of its own.  The second part says what the text is,
    the third that the text is what is printed. *)
From S2P Require Import Prelude Bitops Memcopy Ctype CString Number.
Import Memcopy Ctype CString Number.

Module Addrstr.

Definition PAGE_SIZE : Z := 4096.

(** ** Strings *)

(** Where a string is: in memory, or in an array of the code's own. *)
Inductive source :=
  | Mem (a : Z)
  | Local (bytes : list Z).

Definition src_load (m : list Z) (s : source) (i : Z) : option Z :=
  match s with Mem a => load_byte m (a + i) | Local l => load_byte l i end.

Definition src_strnlen (m : list Z) (s : source) (n : Z) : option Z :=
  match s with Mem a => strnlen m a n | Local l => strnlen l 0 n end.

Definition NULL_text : list Z := [60; 78; 85; 76; 76; 62].
Definition null_text : list Z := [40; 110; 117; 108; 108; 41].

(** [while (len < spec.field_width--)] put a space; the field width afterwards *)
Fixpoint pad_field (fuel : nat) (m : list Z) (buf end_ len fw : Z) : option (list Z * Z * Z) :=
  if len <? fw then
    match fuel with
    | O => None
    | S fuel => '(m, buf) ← put_char m buf end_ 32; pad_field fuel m buf end_ len (s32 (fw - 1))
    end
  else Some (m, buf, s32 (fw - 1)).

(** [*s] is read only for a character that is written. *)
Fixpoint string_copy (n : nat) (m : list Z) (buf end_ : Z) (s : source) (i : Z) : option (list Z * Z) :=
  match n with
  | O => Some (m, buf)
  | S n =>
      m ← (if buf <? end_ then c ← src_load m s i; store_byte m buf c else Some m);
      string_copy n m (buf + 1) end_ s (i + 1)
  end.

Definition string (m : list Z) (buf end_ : Z) (s : source) (spec : printf_spec) : option (list Z * Z) :=
  let s := match s with Mem a => if a <? PAGE_SIZE then Local (NULL_text ++ [0]) else s | Local _ => s end in
  len ← src_strnlen m s (u32 (precision spec));
  let fw := field_width spec in
  '(m, buf, fw) ← (if negb (flag (flags spec) LEFT) then pad_field (Z.to_nat (fw - len)) m buf end_ len fw else Some (m, buf, fw));
  '(m, buf) ← string_copy (Z.to_nat len) m buf end_ s 0;
  '(m, buf, _) ← pad_field (Z.to_nat (fw - len)) m buf end_ len fw;
  Some (m, buf).

(** ** Pointers *)

(** [*p++ = c] in a local array *)
Definition putc (p : list Z * Z) (c : Z) : option (list Z * Z) := a ← store_byte (fst p) (snd p) c; Some (a, snd p + 1).

(** A local array of [n] characters; what it holds at first is never read. *)
Definition array (n : nat) : list Z * Z := (replicate n 0, 0).

(** [*p = '\0'], and the array *)
Definition terminate (p : list Z * Z) : option (list Z) := store_byte (fst p) (snd p) 0.

Definition hex_asc : list Z := [48; 49; 50; 51; 52; 53; 54; 55; 56; 57; 97; 98; 99; 100; 101; 102].
Definition hex_asc_lo (x : Z) : Z := znth hex_asc (Z.land x 0x0f).
Definition hex_asc_hi (x : Z) : Z := znth hex_asc (Z.shiftr (Z.land x 0xf0) 4).

Definition pack_hex_byte (p : list Z * Z) (byte : Z) : option (list Z * Z) :=
  p ← putc p (hex_asc_hi byte); putc p (hex_asc_lo byte).

Definition IORESOURCE_IO : Z := 0x100.
Definition IORESOURCE_MEM : Z := 0x200.
Definition IO_RSRC_PRINTK_SIZE : Z := 4.
Definition MEM_RSRC_PRINTK_SIZE : Z := 8.

(** The fields [start], [end] and [flags] of a [struct resource] are its words 0, 1 and 3. *)
Definition resource_string (m : list Z) (buf end_ res : Z) (spec : printf_spec) : option (list Z * Z) :=
  let '(sym, p) := array 24 in
  let pend := 24 in
  rflags ← load_word m (res + 12);
  let size := if flag rflags IORESOURCE_IO then IO_RSRC_PRINTK_SIZE
              else if flag rflags IORESOURCE_MEM then MEM_RSRC_PRINTK_SIZE else -1 in
  let num_spec := mkspec FORMAT_TYPE_NONE (Z.lor (Z.lor SPECIAL SMALL) ZEROPAD) size 16 (-1) 0 in
  '(sym, p) ← putc (sym, p) 91;
  start ← load_word m res;
  '(sym, p) ← number sym p pend start num_spec;
  '(sym, p) ← putc (sym, p) 45;
  rend ← load_word m (res + 4);
  '(sym, p) ← number sym p pend rend num_spec;
  '(sym, p) ← putc (sym, p) 93;
  sym ← terminate (sym, p);
  string m buf end_ (Local sym) spec.

(** [fmt0] is [fmt[0]]. *)
Fixpoint mac_loop (n : nat) (m : list Z) (p : list Z * Z) (addr i fmt0 : Z) : option (list Z * Z) :=
  match n with
  | O => Some p
  | S n =>
      b ← load_byte m (addr + i);
      p ← pack_hex_byte p b;
      p ← (if (fmt0 =? 77) && negb (i =? 5) then putc p 58 else Some p);
      mac_loop n m p addr (i + 1) fmt0
  end.

Definition mac_address_string (m : list Z) (buf end_ addr : Z) (spec : printf_spec) (fmt0 : Z) : option (list Z * Z) :=
  p ← mac_loop 6 m (array 18) addr 0 fmt0;
  mac_addr ← terminate p;
  string m buf end_ (Local mac_addr) spec.

Fixpoint putcs (p : list Z * Z) (cs : list Z) : option (list Z * Z) :=
  match cs with [] => Some p | c :: cs => p ← putc p c; putcs p cs end.

(** The quads of the four bytes [addr]; [temp] has room for 3 digits. *)
Fixpoint ip4_loop (p : list Z * Z) (addr : list Z) (i : Z) (leading_zeros : bool) : option (list Z * Z) :=
  match addr with
  | [] => Some p
  | a :: addr =>
      let temp := put_dec_trunc [] a in
      if 3 <? zlen temp then None
      else
        p ← (if leading_zeros then
               p ← (if zlen temp <? 3 then putc p 48 else Some p);
               if zlen temp <? 2 then putc p 48 else Some p
             else Some p);
        p ← putcs p (rev temp);
        p ← (if i <? 3 then putc p 46 else Some p);
        ip4_loop p addr (i + 1) leading_zeros
  end.

(** The position it returns is that of the NUL. *)
Definition ip4_string (p : list Z * Z) (addr : list Z) (leading_zeros : bool) : option (list Z * Z) :=
  p ← ip4_loop p addr 0 leading_zeros;
  a ← terminate p; Some (a, snd p).

(** ** IPv6 addresses

    The 16 bytes of an address; [s6_addr16 a i] and [s6_addr32 a i] in host order. *)
Definition s6_addr16 (a : list Z) (i : Z) : Z := 256 * znth a (2 * i) + znth a (2 * i + 1).
Definition s6_addr32 (a : list Z) (i : Z) : Z := 2 ^ 16 * s6_addr16 a (2 * i) + s6_addr16 a (2 * i + 1).

Definition ipv6_addr_v4mapped (a : list Z) : bool :=
  Z.lor (Z.lor (s6_addr32 a 0) (s6_addr32 a 1)) (Z.lxor (s6_addr32 a 2) 0x0000ffff) =? 0.

Definition ipv6_addr_is_isatap (a : list Z) : bool := Z.lor (s6_addr32 a 2) 0x02000000 =? 0x02005EFE.

(** The inner loop: [zerolength[i]], from [j] on *)
Fixpoint zerolength (n : nat) (a : list Z) (j : Z) : Z :=
  match n with
  | O => 0
  | S n => if negb (s6_addr16 a j =? 0) then 0 else 1 + zerolength n a (j + 1)
  end.

(** The second loop: [longest] and [colonpos] *)
Fixpoint find_longest (n : nat) (a : list Z) (i longest colonpos : Z) : Z * Z :=
  match n with
  | O => (longest, colonpos)
  | S k => let zl := zerolength n a i in
           if longest <? zl then find_longest k a (i + 1) zl i else find_longest k a (i + 1) longest colonpos
  end.

(** A word in hexadecimal, without leading zeros *)
Definition put_word (p : list Z * Z) (word : Z) : option (list Z * Z) :=
  let hi := Z.shiftr word 8 in
  let lo := Z.land word 0xff in
  p ← (if negb (hi =? 0) then if 0x0f <? hi then pack_hex_byte p hi else putc p (hex_asc_lo hi) else Some p);
  if negb (hi =? 0) || (0x0f <? lo) then pack_hex_byte p lo else putc p (hex_asc_lo lo).

Fixpoint ip6_emit (fuel : nat) (a : list Z) (p : list Z * Z) (i range longest colonpos : Z) (needcolon : bool) : option (list Z * Z * bool) :=
  if i <? range then
    match fuel with
    | O => None
    | S fuel =>
        if i =? colonpos then
          p ← (if needcolon || (i =? 0) then putc p 58 else Some p);
          p ← putc p 58;
          ip6_emit fuel a p (i + (longest - 1) + 1) range longest colonpos false
        else
          p ← (if needcolon then putc p 58 else Some p);
          p ← put_word p (s6_addr16 a i);
          ip6_emit fuel a p (i + 1) range longest colonpos true
    end
  else Some (p, needcolon).

Definition ip6_compressed_string (p : list Z * Z) (in6 : list Z) : option (list Z * Z) :=
  let useIPv4 := ipv6_addr_v4mapped in6 || ipv6_addr_is_isatap in6 in
  let range := if useIPv4 then 6 else 8 in
  let '(longest, colonpos) := find_longest (Z.to_nat range) in6 0 1 (-1) in
  '(p, needcolon) ← ip6_emit 8 in6 p 0 range longest colonpos false;
  p ← (if useIPv4 then
         p ← (if (needcolon : bool) then putc p 58 else Some p);
         ip4_string p (drop 12 in6) false
       else Some p);
  a ← terminate p; Some (a, snd p).

Fixpoint ip6_loop (n : nat) (addr : list Z) (p : list Z * Z) (i fmt0 : Z) : option (list Z * Z) :=
  match n with
  | O => Some p
  | S n =>
      p ← pack_hex_byte p (znth addr (2 * i));
      p ← pack_hex_byte p (znth addr (2 * i + 1));
      p ← (if (fmt0 =? 73) && negb (i =? 7) then putc p 58 else Some p);
      ip6_loop n addr p (i + 1) fmt0
  end.

Definition ip6_string (p : list Z * Z) (addr : list Z) (fmt0 : Z) : option (list Z * Z) :=
  p ← ip6_loop 8 addr p 0 fmt0;
  a ← terminate p; Some (a, snd p).

(** [n] bytes of memory *)
Fixpoint load_bytes (m : list Z) (a : Z) (n : nat) : option (list Z) :=
  match n with
  | O => Some []
  | S n => b ← load_byte m a; bs ← load_bytes m (a + 1) n; Some (b :: bs)
  end.

Definition ip6_addr_string (m : list Z) (buf end_ addr : Z) (spec : printf_spec) (fmt : list Z) : option (list Z * Z) :=
  bytes ← load_bytes m addr 16;
  '(ip6_addr, _) ← (if (nth 0 fmt 0 =? 73) && (nth 2 fmt 0 =? 99) then ip6_compressed_string (array 46) bytes
                    else ip6_string (array 46) bytes (nth 0 fmt 0));
  string m buf end_ (Local ip6_addr) spec.

Definition ip4_addr_string (m : list Z) (buf end_ addr : Z) (spec : printf_spec) (fmt0 : Z) : option (list Z * Z) :=
  bytes ← load_bytes m addr 4;
  '(ip4_addr, _) ← ip4_string (array 16) bytes (fmt0 =? 105);
  string m buf end_ (Local ip4_addr) spec.

(** ** The text of a conversion *)

Definition join (sep : list Z) (l : list (list Z)) : list Z :=
  match l with [] => [] | x :: l => x ++ flat_map (fun y => sep ++ y) l end.

(** A string cut to the precision and padded to the field width *)
Definition clip (n : Z) (t : list Z) : list Z := if zlen t <=? n then t else take (Z.to_nat n) t.

Definition padded_text (spec : printf_spec) (t : list Z) : list Z :=
  let f := fill (field_width spec - zlen t) 32 in
  if flag (flags spec) LEFT then t ++ f else f ++ t.

Definition string_text (spec : printf_spec) (t : list Z) : list Z := padded_text spec (clip (u32 (precision spec)) t).

(** Numbers in a fixed number of digits or without leading zeros *)
Definition decimal (n : Z) : list Z := rev (List.map (fun d => d + 48) (digits_of 5 10 n)).
Definition hex (n : Z) : list Z := rev (List.map (dchar 32) (digits_of 4 16 n)).
Definition hex2 (b : Z) : list Z := [hex_asc_hi b; hex_asc_lo b].

Definition mac_text (colons : bool) (bytes : list Z) : list Z := join (if colons then [58] else []) (List.map hex2 bytes).

Definition quad (leading_zeros : bool) (a : Z) : list Z := (if leading_zeros then fill (3 - zlen (decimal a)) 48 else []) ++ decimal a.

Definition ip4_text (leading_zeros : bool) (bytes : list Z) : list Z := join [46] (List.map (quad leading_zeros) bytes).

Definition words (a : list Z) (n : nat) : list Z := List.map (fun i => s6_addr16 a (Z.of_nat i)) (seq 0 n).

Definition ip6_text (colons : bool) (bytes : list Z) : list Z :=
  join (if colons then [58] else []) (List.map (fun w => hex2 (Z.shiftr w 8) ++ hex2 (Z.land w 0xff)) (words bytes 8)).

(** The words in hexadecimal, with [::] in place of the [len] words at [pos] ([pos = None]:
    of none) *)
Definition squeezed (ws : list Z) (pos : option (nat * nat)) : list Z :=
  match pos with
  | None => join [58] (List.map hex ws)
  | Some (p, len) => join [58] (List.map hex (take p ws)) ++ [58; 58] ++ join [58] (List.map hex (drop (p + len) ws))
  end.

(** The first of the longest runs of at least two zero words *)
Fixpoint run (ws : list Z) : nat := match ws with 0 :: ws => S (run ws) | _ => O end.

Fixpoint longest_run (ws : list Z) (i : nat) (best : option (nat * nat)) : option (nat * nat) :=
  match ws with
  | [] => best
  | _ :: t => let n := run ws in
              longest_run t (S i) (if (match best with Some (_, b) => b | None => 1 end <? n)%nat then Some (i, n) else best)
  end.

(** An address with an IPv4 address inside ends with it; a colon separates the two unless
    the words before end in [::]. *)
Definition ip6_compressed_text (a : list Z) : list Z :=
  let v4 := ipv6_addr_v4mapped a || ipv6_addr_is_isatap a in
  let ws := words a (if v4 then 6 else 8) in
  let pos := longest_run ws 0 None in
  let open_ := match pos with Some (p, len) => (length ws <=? p + len)%nat | None => false end in
  squeezed ws pos ++ if v4 then (if open_ then [] else [58]) ++ ip4_text false (drop 12 a) else [].

(** ** Arrays of the code's own *)

Lemma putcs_app p s t : putcs p (s ++ t) = (p ← putcs p s; putcs p t).
Proof. revert p. induction s as [|c s IH]; intros p; [done|]. simpl. destruct (putc p c) as [p'|]; [|done]. simpl. apply IH. Qed.

(** An array of [n] characters that starts with [t], the next one to be written behind it *)
Definition holds (p : list Z * Z) (n : Z) (t : list Z) : Prop := zlen (fst p) = n /\ snd p = zlen t /\ take (length t) (fst p) = t.

Lemma holds_array n : holds (array n) (Z.of_nat n) [].
Proof. unfold holds, array, zlen. simpl. by rewrite length_replicate. Qed.

Lemma store_next a n t c : zlen a = n -> take (length t) a = t -> zlen t < n ->
  exists a', store_byte a (zlen t) c = Some a' /\ zlen a' = n /\ take (length (t ++ [c])) a' = t ++ [c].
Proof.
  intros Hn Ht Hl. unfold store_byte, write_bytes. change (zlen [c]) with 1. rewrite (proj2 (in_bounds_spec a (zlen t) 1)) by (pose proof (zlen_nonneg t); lia). eexists. split; [done|].
  replace (Z.to_nat (zlen t)) with (length t) by (unfold zlen; lia). rewrite Ht. split.
  - rewrite !zlen_app. unfold zlen in *. rewrite length_drop. simpl. lia.
  - rewrite app_assoc. rewrite take_app_length. done.
Qed.

Lemma putc_ok p n t c : holds p n t -> zlen t < n -> exists p', putc p c = Some p' /\ holds p' n (t ++ [c]).
Proof.
  intros (H1 & H2 & H3) Hl. destruct (store_next (fst p) n t c H1 H3 Hl) as (a' & E & Ha & Ht). exists (a', snd p + 1). unfold putc. rewrite H2, E. split; [done|].
  split; [done|]. split; [|done]. simpl. rewrite zlen_app. change (zlen [c]) with 1. lia.
Qed.

Lemma putcs_ok n cs : forall p t, holds p n t -> zlen t + zlen cs <= n -> exists p', putcs p cs = Some p' /\ holds p' n (t ++ cs).
Proof.
  induction cs as [|c cs IH]; intros p t H Hl; [exists p; by rewrite app_nil_r|]. assert (Hc : zlen (c :: cs) = 1 + zlen cs) by (unfold zlen; simpl; lia). pose proof (zlen_nonneg cs).
  destruct (putc_ok p n t c H ltac:(lia)) as (p1 & E1 & H1). destruct (IH p1 _ H1) as (p2 & E2 & H2); [rewrite zlen_app; change (zlen [c]) with 1; lia|].
  exists p2. simpl. rewrite E1. split; [done|]. by rewrite <- app_assoc in H2.
Qed.

Lemma terminate_ok p n t : holds p n t -> zlen t < n -> exists a, terminate p = Some a /\ zlen a = n /\ take (length t + 1) a = t ++ [0].
Proof.
  intros (H1 & H2 & H3) Hl. destruct (store_next (fst p) n t 0 H1 H3 Hl) as (a' & E & Ha & Ht). exists a'. unfold terminate. rewrite H2, E. split; [done|]. split; [done|].
  by rewrite length_app in Ht.
Qed.

(** An array that holds the string [t] *)
Definition holds_string (a t : list Z) : Prop := take (length t + 1) a = t ++ [0] /\ Forall (fun c => c <> 0) t.

Lemma holds_cstr a t : holds_string a t -> cstr a 0 t.
Proof.
  intros [H Hz]. assert (Hl : (length t + 1 <= length a)%nat) by (apply (f_equal length) in H; rewrite length_take, length_app in H; simpl in H; lia).
  apply cstr_intro; [lia|unfold zlen; lia| |done]. intros i Hi. rewrite Z.add_0_l, <- H. unfold zlen in Hi. replace (length t + 1)%nat with (Z.to_nat (zlen t + 1)) by (unfold zlen; lia). rewrite znth_take; [done|unfold zlen; lia].
Qed.

(** A whole text and its NUL *)
Lemma put_string n t : zlen t < Z.of_nat n -> Forall (fun c => c <> 0) t -> exists p a, putcs (array n) t = Some p /\ snd p = zlen t /\ terminate p = Some a /\ holds_string a t.
Proof.
  intros Hl Hz. destruct (putcs_ok (Z.of_nat n) t (array n) [] (holds_array n)) as (p & E & H); [change (zlen []) with 0; lia|]. destruct (terminate_ok p _ t H Hl) as (a & Ea & _ & Ht).
  exists p, a. split; [done|]. split; [by destruct H as (_ & ? & _)|]. done.
Qed.

(** ** Digits *)

Lemma decimal_ok q : 0 <= q < 100000 -> rev (put_dec_trunc [] q) = decimal q /\ 1 <= zlen (decimal q) <= 5 /\ (q < 1000 -> zlen (decimal q) <= 3) /\ Forall (fun c => c <> 0) (decimal q).
Proof.
  intros Hq. destruct (trunc_digits q Hq) as (ds & E & Hd & Hl). unfold decimal. rewrite (digits_of_numeral 10 ltac:(lia) 5 ds q Hd) by (unfold zlen in Hl; lia). rewrite E. split; [done|].
  unfold zlen in *. rewrite length_rev, List.length_map. pose proof Hd as Hd'. apply numeral_spec in Hd' as (H1 & H2 & H3 & H4). split_and!; [destruct ds; [done|simpl; lia]|lia| |].
  - intros Hq3. destruct ds as [|d0 [|d1 [|d2 [|d3 ds]]]]; simpl; try lia. exfalso. assert (Hlast : List.last (d0 :: d1 :: d2 :: d3 :: ds) 0 <> 0) by (apply H4; unfold zlen; simpl; lia).
    destruct ds as [|d4 [|d5 ds]]; [| |simpl in Hl; lia]; cbn [List.last value foldr] in *; repeat match goal with H : Forall _ (_ :: _) |- _ => apply Forall_cons in H as [? H] end; lia.
  - apply Forall_rev, List.Forall_map. eapply Forall_impl; [exact H1|]. intros d Hd'. simpl in *. lia.
Qed.

Lemma hex_asc_ok d : 0 <= d < 16 -> znth hex_asc d = dchar 32 d /\ znth hex_asc d <> 0.
Proof.
  intros Hd. pose proof (all_below_spec 16 (fun d => (znth hex_asc d =? dchar 32 d) && negb (znth hex_asc d =? 0)) eq_refl d Hd) as H. apply andb_true_iff in H as [H1 H2]. split; lia.
Qed.

Lemma hex_lo x : 0 <= x -> hex_asc_lo x = dchar 32 (x mod 16).
Proof. intros Hx. unfold hex_asc_lo. change 0x0f with (Z.ones 4). rewrite Z.land_ones by lia. apply hex_asc_ok, Z.mod_pos_bound. lia. Qed.

Lemma hex_hi x : 0 <= x < 256 -> hex_asc_hi x = dchar 32 (x / 16).
Proof.
  intros Hx. unfold hex_asc_hi. rewrite Z.shiftr_land. change (Z.shiftr 0xf0 4) with (Z.ones 4). rewrite Z.land_ones, Z.shiftr_div_pow2 by lia. change (2 ^ 4) with 16.
  rewrite (Z.mod_small (x / 16)) by (split; [apply Z.div_pos; lia|apply Z.div_lt_upper_bound; lia]). apply hex_asc_ok. split; [apply Z.div_pos; lia|apply Z.div_lt_upper_bound; lia].
Qed.

Lemma pack_hex_byte_eq p b : pack_hex_byte p b = putcs p (hex2 b).
Proof. unfold pack_hex_byte, hex2. simpl. destruct (putc p (hex_asc_hi b)) as [p'|]; [|done]. simpl. by destruct (putc p' (hex_asc_lo b)). Qed.

Lemma putc_eq p c : putc p c = putcs p [c].
Proof. simpl. by destruct (putc p c). Qed.

Lemma hex_digits w ds : Forall (fun d => 0 <= d < 16) ds -> value 16 ds = w -> ds <> [] -> (2 <= zlen ds -> List.last ds 0 <> 0) -> (length ds <= 4)%nat -> hex w = rev (List.map (dchar 32) ds).
Proof. intros. unfold hex. rewrite (digits_of_numeral 16 ltac:(lia) 4 ds w); [done|by apply numeral_spec|done]. Qed.

Lemma hex_props w : 0 <= w < 2 ^ 16 -> 1 <= zlen (hex w) <= 4 /\ Forall (fun c => c <> 0) (hex w).
Proof.
  intros Hw. assert (Hd : forall d, 0 <= d < 16 -> dchar 32 d <> 0) by (intros d Hd; pose proof (dchar_range 32 d ltac:(auto) Hd); lia). unfold hex.
  assert (H : forall k n, 0 <= n < 16 ^ Z.of_nat k -> (length (digits_of k 16 n) <= k)%nat /\ (0 < k -> 0 < length (digits_of k 16 n))%nat /\ Forall (fun c => 0 <= c < 16) (digits_of k 16 n)).
  { induction k as [|k IH]; intros n Hn; [simpl; repeat constructor; lia|]. cbn [digits_of]. destruct (Z.ltb_spec n 16); [simpl; split_and!; [lia|lia|repeat constructor; lia]|].
    destruct (IH (n / 16)) as (H1 & H2 & H3); [split; [apply Z.div_pos; lia|apply Z.div_lt_upper_bound; [lia|]]; rewrite Nat2Z.inj_succ, Z.pow_succ_r in Hn by lia; lia|]. simpl. split_and!; [lia|lia|].
    constructor; [apply Z.mod_pos_bound; lia|done]. }
  destruct (H 4%nat w Hw) as (H1 & H2 & H3). unfold zlen. rewrite length_rev, List.length_map. split; [lia|]. apply Forall_rev, List.Forall_map. eapply Forall_impl; [exact H3|]. exact Hd.
Qed.

Lemma put_word_eq p w : 0 <= w < 2 ^ 16 -> put_word p w = putcs p (hex w).
Proof.
  intros Hw. unfold put_word. cbv zeta. change 0xff with (Z.ones 8). rewrite Z.land_ones, Z.shiftr_div_pow2 by lia. change (2 ^ 8) with 256. set (hi := w / 256). set (lo := w mod 256).
  assert (E : w = 256 * hi + lo) by (apply Z.div_mod; lia). assert (Hlo : 0 <= lo < 256) by (apply Z.mod_pos_bound; lia). assert (Hhi : 0 <= hi < 256) by (split; [apply Z.div_pos; lia|apply Z.div_lt_upper_bound; lia]).
  clearbody hi lo. subst w. assert (HP : forall p b, 0 <= b < 256 -> pack_hex_byte p b = putcs p [dchar 32 (b / 16); dchar 32 (b mod 16)]) by (intros q b Hb; rewrite pack_hex_byte_eq; unfold hex2; rewrite hex_lo, hex_hi by lia; done).
  assert (Dh : hi = 16 * (hi / 16) + hi mod 16) by (apply Z.div_mod; lia). assert (Dl : lo = 16 * (lo / 16) + lo mod 16) by (apply Z.div_mod; lia).
  pose proof (Z.mod_pos_bound hi 16 ltac:(lia)) as Mh. pose proof (Z.mod_pos_bound lo 16 ltac:(lia)) as Ml.
  assert (Qh : 0 <= hi / 16 < 16) by (split; [apply Z.div_pos; lia|apply Z.div_lt_upper_bound; lia]). assert (Ql : 0 <= lo / 16 < 16) by (split; [apply Z.div_pos; lia|apply Z.div_lt_upper_bound; lia]).
  destruct (Z.eqb_spec hi 0) as [H0|H0]; cbn [negb orb].
  - cbn [mbind option_bind]. destruct (Z.ltb_spec 15 lo).
    + rewrite (hex_digits _ [lo mod 16; lo / 16]); [by apply HP|repeat constructor; lia|simpl; lia|done|simpl; lia|simpl; lia].
    + rewrite (hex_digits _ [lo mod 16]); [by rewrite hex_lo, putc_eq by lia|repeat constructor; lia|simpl; lia|done|unfold zlen; simpl; lia|simpl; lia].
  - destruct (Z.ltb_spec 15 hi).
    + rewrite (hex_digits _ ([lo mod 16; lo / 16] ++ [hi mod 16; hi / 16])), List.map_app, rev_app_distr, putcs_app, HP; [|lia|repeat constructor; lia|simpl; lia|done|simpl; lia|simpl; lia].
      change (rev (List.map (dchar 32) [hi mod 16; hi / 16])) with [dchar 32 (hi / 16); dchar 32 (hi mod 16)]. destruct (putcs p _); [by apply HP|done].
    + rewrite (hex_digits _ ([lo mod 16; lo / 16] ++ [hi mod 16])), List.map_app, rev_app_distr, putcs_app, hex_lo, putc_eq; [|lia|repeat constructor; lia|simpl; lia|done|simpl; lia|simpl; lia].
      change (rev (List.map (dchar 32) [hi mod 16])) with [dchar 32 (hi mod 16)]. destruct (putcs p _); [by apply HP|done].
Qed.

Lemma hex2_props b : 0 <= b < 256 -> zlen (hex2 b) = 2 /\ Forall (fun c => c <> 0) (hex2 b).
Proof.
  intros Hb. split; [done|]. unfold hex2. rewrite hex_lo, hex_hi by lia. repeat constructor; apply Z.neq_sym, Z.lt_neq.
  - pose proof (dchar_range 32 (b / 16) ltac:(auto) ltac:(split; [apply Z.div_pos; lia|apply Z.div_lt_upper_bound; lia])). lia.
  - pose proof (dchar_range 32 (b mod 16) ltac:(auto) (Z.mod_pos_bound b 16 ltac:(lia))). lia.
Qed.

(** ** Addresses *)

Lemma quad_eq p z a : 0 <= a < 256 ->
  (let temp := put_dec_trunc [] a in
   if 3 <? zlen temp then None
   else p ← (if z : bool then p ← (if zlen temp <? 3 then putc p 48 else Some p); if zlen temp <? 2 then putc p 48 else Some p else Some p); putcs p (rev temp)) = putcs p (quad z a).
Proof.
  intros Ha. cbv zeta. destruct (decimal_ok a ltac:(lia)) as (E & Hl & H3 & _). specialize (H3 ltac:(lia)). rewrite <- (zlen_rev (put_dec_trunc [] a)), E. destruct (Z.ltb_spec 3 (zlen (decimal a))); [lia|].
  unfold quad. destruct z; [|done]. rewrite putcs_app. assert (zlen (decimal a) = 1 \/ zlen (decimal a) = 2 \/ zlen (decimal a) = 3) as [-> | [-> | ->]] by lia; simpl; [|by rewrite putc_eq|done].
  destruct (putc p 48) as [p'|]; [|done]. simpl. by destruct (putc p' 48).
Qed.

Lemma quad_props z a : 0 <= a < 256 -> 1 <= zlen (quad z a) <= 3 /\ Forall (fun c => c <> 0) (quad z a).
Proof.
  intros Ha. destruct (decimal_ok a ltac:(lia)) as (_ & Hl & H3 & Hz). specialize (H3 ltac:(lia)). unfold quad. rewrite zlen_app. destruct z.
  - rewrite zlen_fill. split; [lia|]. apply Forall_app. split; [|done]. unfold fill. by apply Forall_replicate.
  - change (zlen []) with 0. split; [lia|done].
Qed.

Lemma join_cons sep x l : l <> [] -> join sep (x :: l) = x ++ sep ++ join sep l.
Proof. intros H. destruct l as [|y l]; [done|]. simpl. by rewrite <- app_assoc. Qed.

Lemma join_one sep x : join sep [x] = x.
Proof. apply app_nil_r. Qed.

Lemma load_bytes_length m n : forall a bs, load_bytes m a n = Some bs -> length bs = n.
Proof.
  induction n as [|n IH]; intros a bs H; simpl in H; [by injection H as <-|]. destruct (load_byte m a) as [b|]; [|done]. simpl in H.
  destruct (load_bytes m (a + 1) n) as [l|] eqn:E; [|done]. simpl in H. injection H as <-. simpl. f_equal. by eapply IH.
Qed.

Lemma mac_loop_eq m f addr n : forall p i bs, load_bytes m (addr + i) n = Some bs -> i + Z.of_nat n = 6 -> mac_loop n m p addr i f = putcs p (mac_text (f =? 77) bs).
Proof.
  induction n as [|n IH]; intros p i bs H Hi; simpl in H; [by injection H as <-|]. cbn [mac_loop]. destruct (load_byte m (addr + i)) as [b|]; [|done]. cbn [mbind option_bind] in *.
  destruct (load_bytes m (addr + i + 1) n) as [l|] eqn:E; [|done]. injection H as <-. pose proof (load_bytes_length _ _ _ _ E) as Hl. replace (addr + i + 1) with (addr + (i + 1)) in E by lia.
  rewrite pack_hex_byte_eq. unfold mac_text. cbn [List.map]. destruct l as [|c l].
  - simpl in Hl. subst n. replace (i =? 5) with true by (symmetry; apply Z.eqb_eq; lia). rewrite andb_false_r. cbn [List.map seq]. rewrite join_one. by destruct (putcs p (hex2 b)).
  - rewrite join_cons, putcs_app by done. destruct (putcs p (hex2 b)) as [p1|]; [|done]. cbn [mbind option_bind]. simpl in Hl. replace (i =? 5) with false by (symmetry; apply Z.eqb_neq; lia). rewrite andb_true_r, putcs_app.
    specialize (fun p => IH p (i + 1) (c :: l) E ltac:(lia)). destruct (f =? 77).
    + rewrite putc_eq. destruct (putcs p1 [58]) as [p2|]; [|done]. cbn [mbind option_bind]. apply IH.
    + cbn [putcs mbind option_bind]. apply IH.
Qed.

Lemma ip4_loop_eq z bs : forall p i, Forall (fun b => 0 <= b < 256) bs -> i + zlen bs = 4 -> ip4_loop p bs i z = putcs p (ip4_text z bs).
Proof.
  induction bs as [|b bs IH]; intros p i Hb Hi; [done|]. apply Forall_cons in Hb as [Hb Hbs]. pose proof (quad_eq p z b Hb) as Hq. cbn [ip4_loop]. cbv zeta in *. unfold zlen in Hi. simpl in Hi.
  assert (E : forall k, (if 3 <? zlen (put_dec_trunc [] b) then None
      else p ← (if z then p ← (if zlen (put_dec_trunc [] b) <? 3 then putc p 48 else Some p); if zlen (put_dec_trunc [] b) <? 2 then putc p 48 else Some p else Some p);
        p ← putcs p (rev (put_dec_trunc [] b)); k p) = (p ← putcs p (quad z b); k p : option (list Z * Z))).
  { intros k. rewrite <- Hq. destruct (3 <? zlen (put_dec_trunc [] b)); [done|]. by destruct (if z then _ else Some p) as [p1|]. }
  rewrite E. unfold ip4_text in *. cbn [List.map]. destruct bs as [|c bs].
  - cbn [List.map seq]. rewrite join_one. destruct (putcs p (quad z b)) as [p1|]; [|done]. cbn [mbind option_bind]. simpl in Hi. by replace (i <? 3) with false by (symmetry; apply Z.ltb_ge; lia).
  - rewrite join_cons, putcs_app by done. destruct (putcs p (quad z b)) as [p1|]; [|done]. cbn [mbind option_bind]. simpl in Hi. replace (i <? 3) with true by (symmetry; apply Z.ltb_lt; lia).
    rewrite putcs_app, putc_eq. destruct (putcs p1 [46]) as [p2|]; [|done]. cbn [mbind option_bind]. apply IH; [done|unfold zlen; simpl; lia].
Qed.

Lemma byte_split h l : 0 <= h < 256 -> 0 <= l < 256 -> Z.shiftr (256 * h + l) 8 = h /\ Z.land (256 * h + l) 0xff = l.
Proof.
  intros Hh Hl. change 0xff with (Z.ones 8). rewrite Z.land_ones, Z.shiftr_div_pow2 by lia. change (2 ^ 8) with 256.
  split; [symmetry; apply Z.div_unique with l; lia|symmetry; apply Z.mod_unique with h; lia].
Qed.

Definition is_address (a : list Z) : Prop := Forall (fun b => 0 <= b < 256) a.

Lemma znth_byte a i : is_address a -> 0 <= znth a i < 256.
Proof. intros H. unfold znth. destruct (Nat.lt_ge_cases (Z.to_nat i) (length a)) as [Hlt|Hge]; [|rewrite nth_overflow by lia; lia]. unfold is_address in H. rewrite List.Forall_forall in H. apply H, nth_In, Hlt. Qed.

Lemma s6_addr16_range a i : is_address a -> 0 <= s6_addr16 a i < 2 ^ 16.
Proof. intros H. unfold s6_addr16. pose proof (znth_byte a (2 * i) H). pose proof (znth_byte a (2 * i + 1) H). lia. Qed.

Lemma ip6_loop_eq a f n : is_address a -> forall p i, (i + n = 8)%nat ->
  ip6_loop n a p (Z.of_nat i) f = putcs p (join (if f =? 73 then [58] else []) (List.map (fun w => hex2 (Z.shiftr w 8) ++ hex2 (Z.land w 0xff)) (List.map (fun i => s6_addr16 a (Z.of_nat i)) (seq i n)))).
Proof.
  intros Ha. induction n as [|n IH]; intros p i Hi; [done|]. cbn [ip6_loop seq List.map]. unfold s6_addr16 at 1 2. destruct (byte_split _ _ (znth_byte a (2 * Z.of_nat i) Ha) (znth_byte a (2 * Z.of_nat i + 1) Ha)) as [-> ->].
  assert (E : forall k, (p ← pack_hex_byte p (znth a (2 * Z.of_nat i)); p ← pack_hex_byte p (znth a (2 * Z.of_nat i + 1)); k p) = (p ← putcs p (hex2 (znth a (2 * Z.of_nat i)) ++ hex2 (znth a (2 * Z.of_nat i + 1))); k p : option (list Z * Z))).
  { intros k. rewrite pack_hex_byte_eq, putcs_app. destruct (putcs p (hex2 _)) as [p1|]; [|done]. cbn [mbind option_bind]. by rewrite pack_hex_byte_eq. }
  rewrite E. clear E. set (H := hex2 _ ++ hex2 _). specialize (fun p => IH p (S i) ltac:(lia)). destruct n as [|n].
  - replace (Z.of_nat i =? 7) with true by (symmetry; apply Z.eqb_eq; lia). rewrite andb_false_r. cbn [List.map seq]. rewrite join_one. by destruct (putcs p H).
  - rewrite join_cons, putcs_app by done. destruct (putcs p H) as [p1|]; [|done]. cbn [mbind option_bind]. replace (Z.of_nat i =? 7) with false by (symmetry; apply Z.eqb_neq; lia).
    rewrite andb_true_r, putcs_app. replace (Z.of_nat i + 1) with (Z.of_nat (S i)) by lia. destruct (f =? 73).
    + rewrite putc_eq. destruct (putcs p1 [58]) as [p2|]; [|done]. cbn [mbind option_bind]. apply IH.
    + cbn [putcs mbind option_bind]. apply IH.
Qed.

(** ** Compressed IPv6 addresses *)

(** [n] words from word [i] on *)
Definition words_from (a : list Z) (i n : nat) : list Z := List.map (fun i => s6_addr16 a (Z.of_nat i)) (seq i n).

Lemma zerolength_run a n : forall j, zerolength n a (Z.of_nat j) = Z.of_nat (run (words_from a j n)).
Proof.
  induction n as [|n IH]; intros j; [done|]. cbn [zerolength]. unfold words_from. cbn [seq List.map run]. destruct (Z.eqb_spec (s6_addr16 a (Z.of_nat j)) 0) as [->|Hne]; cbn [negb].
  - replace (Z.of_nat j + 1) with (Z.of_nat (S j)) by lia. rewrite IH. unfold words_from. lia.
  - by destruct (s6_addr16 a (Z.of_nat j)).
Qed.

Definition encode (best : option (nat * nat)) : Z * Z := match best with Some (p, len) => (Z.of_nat len, Z.of_nat p) | None => (1, -1) end.

Lemma find_longest_run a n : forall i best, (forall L C, encode best = (L, C) -> find_longest n a (Z.of_nat i) L C = encode (longest_run (words_from a i n) i best)).
Proof.
  induction n as [|n IH]; intros i best L C E; [done|]. cbn [find_longest]. cbv zeta. rewrite zerolength_run. unfold words_from. cbn [seq List.map longest_run]. fold (words_from a (S i) n). cbv zeta.
  change (s6_addr16 a (Z.of_nat i) :: words_from a (S i) n) with (words_from a i (S n)). replace (Z.of_nat i + 1) with (Z.of_nat (S i)) by lia. set (k := run (words_from a i (S n))).
  assert (Hc : (L <? Z.of_nat k) = (match best with Some (_, b) => b | None => 1 end <? k)%nat) by (destruct best as [[? ?]|]; injection E as <- <-; apply eq_true_iff_eq; rewrite Z.ltb_lt, Nat.ltb_lt; lia).
  rewrite Hc. destruct (_ <? k)%nat; [|by apply IH]. by apply IH.
Qed.

Lemma run_length ws : (run ws <= length ws)%nat.
Proof. induction ws as [|w ws IH]; [done|]. simpl. destruct w; simpl; lia. Qed.

(** A run found lies in the address and has at least two words. *)
Lemma longest_run_bounds ws : forall i best,
  match best with Some (p, len) => (p + len <= i + length ws)%nat /\ (2 <= len)%nat | None => True end ->
  match longest_run ws i best with Some (p, len) => (p + len <= i + length ws)%nat /\ (2 <= len)%nat | None => True end.
Proof.
  induction ws as [|w ws IH]; intros i best Hb; [done|]. cbn [longest_run]. cbv zeta. pose proof (run_length (w :: ws)) as Hr. set (k := run (w :: ws)) in *. replace (i + length (w :: ws))%nat with (S i + length ws)%nat by (simpl; lia).
  apply IH. simpl in Hr. destruct best as [[p b]|]; simpl in Hb; [destruct (Nat.ltb_spec b k)|destruct (Nat.ltb_spec 1 k)]; simpl in *; lia.
Qed.

Lemma ip6_emit_tail a L C : is_address a -> forall k i fuel p nc, (k <= fuel)%nat -> C < Z.of_nat i ->
  ip6_emit fuel a p (Z.of_nat i) (Z.of_nat (i + k)) L C nc =
  (p' ← putcs p (if nc : bool then flat_map (fun y => [58] ++ y) (List.map hex (words_from a i k)) else join [58] (List.map hex (words_from a i k))); Some (p', nc || (0 <? k)%nat)).
Proof.
  intros Ha. induction k as [|k IH]; intros i fuel p nc Hf HC.
  - assert (E : (Z.of_nat i <? Z.of_nat (i + 0)) = false) by (apply Z.ltb_ge; lia). destruct fuel; cbn [ip6_emit]; rewrite E; destruct nc; done.
  - destruct fuel as [|fuel]; [lia|]. cbn [ip6_emit]. destruct (Z.ltb_spec (Z.of_nat i) (Z.of_nat (i + S k))); [|lia]. destruct (Z.eqb_spec (Z.of_nat i) C); [lia|].
    unfold words_from. cbn [seq List.map]. fold (words_from a (S i) k). set (h := s6_addr16 a (Z.of_nat i)). assert (Hh : 0 <= h < 2 ^ 16) by by apply s6_addr16_range.
    assert (E : (if nc then flat_map (fun y => [58] ++ y) (hex h :: List.map hex (words_from a (S i) k)) else join [58] (hex h :: List.map hex (words_from a (S i) k))) =
      (if nc then [58] else []) ++ hex h ++ flat_map (fun y => [58] ++ y) (List.map hex (words_from a (S i) k))) by by destruct nc.
    rewrite E, putcs_app. assert (E2 : (if nc then putc p 58 else Some p) = putcs p (if nc then [58] else [])) by (destruct nc; [apply putc_eq|done]). rewrite E2. destruct (putcs p _) as [p1|]; [|done]. cbn [mbind option_bind].
    rewrite put_word_eq, putcs_app by done. destruct (putcs p1 (hex h)) as [p2|]; [|done]. cbn [mbind option_bind]. replace (Z.of_nat i + 1) with (Z.of_nat (S i)) by lia. replace (i + S k)%nat with (S i + k)%nat by lia.
    rewrite IH by lia. by rewrite orb_true_r.
Qed.

Lemma ip6_emit_gap a len r : is_address a -> (0 < len)%nat -> forall k i fuel p nc, (k + 1 + r <= fuel)%nat -> nc = true \/ i = 0%nat ->
  ip6_emit fuel a p (Z.of_nat i) (Z.of_nat (i + k + len + r)) (Z.of_nat len) (Z.of_nat (i + k)) nc =
  (p' ← putcs p ((if nc : bool then flat_map (fun y => [58] ++ y) (List.map hex (words_from a i k)) else join [58] (List.map hex (words_from a i k))) ++
                 [58; 58] ++ join [58] (List.map hex (words_from a (i + k + len) r))); Some (p', (0 <? r)%nat)).
Proof.
  intros Ha Hlen. induction k as [|k IH]; intros i fuel p nc Hf Hnc; (destruct fuel as [|fuel]; [lia|]); cbn [ip6_emit].
  - destruct (Z.ltb_spec (Z.of_nat i) (Z.of_nat (i + 0 + len + r))); [|lia]. destruct (Z.eqb_spec (Z.of_nat i) (Z.of_nat (i + 0))); [|lia].
    assert (E : nc || (Z.of_nat i =? 0) = true) by (destruct Hnc as [-> | ->]; [done|by rewrite orb_true_r]). rewrite E.
    replace (if nc then flat_map _ (List.map hex (words_from a i 0)) else join [58] (List.map hex (words_from a i 0))) with (@nil Z) by by destruct nc. cbn [app]. cbn [putcs].
    destruct (putc p 58) as [p1|]; [|done]. cbn [mbind option_bind]. destruct (putc p1 58) as [p2|]; [|done]. cbn [mbind option_bind].
    replace (Z.of_nat i + (Z.of_nat len - 1) + 1) with (Z.of_nat (i + 0 + len)) by lia. rewrite ip6_emit_tail by (done || lia). done.
  - destruct (Z.ltb_spec (Z.of_nat i) (Z.of_nat (i + S k + len + r))); [|lia]. destruct (Z.eqb_spec (Z.of_nat i) (Z.of_nat (i + S k))); [lia|].
    unfold words_from at 1 2. cbn [seq List.map]. fold (words_from a (S i) k). set (h := s6_addr16 a (Z.of_nat i)). assert (Hh : 0 <= h < 2 ^ 16) by by apply s6_addr16_range. set (T := [58; 58] ++ _).
    assert (E : (if nc then flat_map (fun y => [58] ++ y) (hex h :: List.map hex (words_from a (S i) k)) else join [58] (hex h :: List.map hex (words_from a (S i) k))) ++ T =
      (if nc then [58] else []) ++ hex h ++ flat_map (fun y => [58] ++ y) (List.map hex (words_from a (S i) k)) ++ T) by (destruct nc; [simpl; by rewrite <- app_assoc|simpl; by rewrite <- app_assoc]).
    rewrite E, putcs_app. assert (E2 : (if nc then putc p 58 else Some p) = putcs p (if nc then [58] else [])) by (destruct nc; [apply putc_eq|done]). rewrite E2. destruct (putcs p _) as [p1|]; [|done]. cbn [mbind option_bind].
    rewrite put_word_eq, putcs_app by done. destruct (putcs p1 (hex h)) as [p2|]; [|done]. cbn [mbind option_bind]. replace (Z.of_nat i + 1) with (Z.of_nat (S i)) by lia. unfold T. replace (i + S k)%nat with (S i + k)%nat by lia.
    apply IH; [lia|by left].
Qed.

Lemma join_zlen sep c l : 0 <= c -> Forall (fun x => zlen x <= c) l -> zlen (join sep l) <= Z.max 0 ((c + zlen sep) * zlen l - zlen sep).
Proof.
  intros Hc H. pose proof (zlen_nonneg sep). induction H as [|x l Hx Hl IH]; [simpl; unfold zlen in *; simpl; lia|]. assert (Hn : zlen (x :: l) = 1 + zlen l) by (unfold zlen; simpl; lia). rewrite Hn. destruct l as [|y l].
  - rewrite join_one. change (zlen []) with 0. lia.
  - rewrite join_cons, !zlen_app by done. assert (1 <= zlen (y :: l)) by (unfold zlen; simpl; lia). nia.
Qed.

Lemma join_forall (P : Z -> Prop) sep l : Forall P sep -> Forall (Forall P) l -> Forall P (join sep l).
Proof.
  intros Hs H. induction H as [|x l Hx Hl IH]; [constructor|]. destruct l as [|y l]; [by rewrite join_one|]. rewrite join_cons by done. apply Forall_app. split; [done|]. by apply Forall_app.
Qed.

Lemma hex_words_props a i n : is_address a -> Forall (fun x => zlen x <= 4) (List.map hex (words_from a i n)) /\ Forall (Forall (fun c => c <> 0)) (List.map hex (words_from a i n)).
Proof. intros Ha. split; apply List.Forall_map, List.Forall_map, List.Forall_forall; intros k _; by apply hex_props, s6_addr16_range. Qed.

Lemma words_from_length a i n : length (words_from a i n) = n.
Proof. unfold words_from. by rewrite List.length_map, length_seq. Qed.

Lemma words_take a n p : (p <= n)%nat -> take p (words a n) = words_from a 0 p.
Proof. intros H. unfold words, words_from. rewrite firstn_map. f_equal. replace n with (p + (n - p))%nat by lia. rewrite seq_app, take_app_length'; [done|by rewrite length_seq]. Qed.

Lemma words_drop a n p : (p <= n)%nat -> drop p (words a n) = words_from a p (n - p).
Proof. intros H. unfold words, words_from. rewrite skipn_map. f_equal. replace n with (p + (n - p))%nat at 1 by lia. rewrite seq_app, drop_app_length'; [done|by rewrite length_seq]. Qed.

Lemma words_zlen a i n : is_address a -> zlen (join [58] (List.map hex (words_from a i n))) <= Z.max 0 (5 * Z.of_nat n - 1).
Proof.
  intros Ha. etrans; [apply (join_zlen [58] 4); [lia|by apply hex_words_props]|]. change (zlen [58]) with 1. unfold zlen. rewrite List.length_map, words_from_length. lia.
Qed.

Lemma squeezed_props a n : is_address a -> (2 <= n)%nat ->
  let t := squeezed (words a n) (longest_run (words a n) 0 None) in zlen t <= 5 * Z.of_nat n - 1 /\ Forall (fun c => c <> 0) t.
Proof.
  intros Ha Hn. pose proof (longest_run_bounds (words a n) 0 None I) as Hb. change (length (words a n)) with (length (words_from a 0 n)) in Hb. rewrite words_from_length in Hb. destruct (longest_run (words a n) 0 None) as [[p len]|]; cbn [squeezed].
  - destruct Hb as [Hb H2]. rewrite words_take, words_drop by lia. pose proof (words_zlen a 0 p Ha). pose proof (words_zlen a (p + len) (n - (p + len)) Ha). rewrite !zlen_app. change (zlen [58; 58]) with 2. split; [lia|].
    apply Forall_app. split; [apply join_forall; [by repeat constructor|by apply hex_words_props]|]. apply Forall_app. split; [by repeat constructor|]. apply join_forall; [by repeat constructor|by apply hex_words_props].
  - change (words a n) with (words_from a 0 n). pose proof (words_zlen a 0 n Ha). split; [lia|]. apply join_forall; [by repeat constructor|by apply hex_words_props].
Qed.

Lemma ip4_text_props z bs : Forall (fun b => 0 <= b < 256) bs -> zlen bs = 4 -> zlen (ip4_text z bs) <= 15 /\ Forall (fun c => c <> 0) (ip4_text z bs).
Proof.
  intros Hb Hl. unfold ip4_text. split.
  - etrans; [apply (join_zlen [46] 3); [lia|]|]; [|unfold zlen at 2; rewrite List.length_map; fold (zlen bs); change (zlen [46]) with 1; lia]. apply List.Forall_map. eapply Forall_impl; [exact Hb|]. intros b H. by apply quad_props.
  - apply join_forall; [by repeat constructor|]. apply List.Forall_map. eapply Forall_impl; [exact Hb|]. intros b H. by apply quad_props.
Qed.

Lemma ip6_emit_eq a n p : is_address a -> (2 <= n <= 8)%nat ->
  (let '(longest, colonpos) := find_longest n a 0 1 (-1) in ip6_emit 8 a p 0 (Z.of_nat n) longest colonpos false) =
  (p' ← putcs p (squeezed (words a n) (longest_run (words a n) 0 None));
   Some (p', negb (match longest_run (words a n) 0 None with Some (q, len) => (length (words a n) <=? q + len)%nat | None => false end))).
Proof.
  intros Ha Hn. pose proof (find_longest_run a n 0 None 1 (-1) eq_refl) as Hf. change (Z.of_nat 0) with 0 in Hf. rewrite Hf. change (words_from a 0 n) with (words a n).
  pose proof (longest_run_bounds (words a n) 0 None I) as Hb. assert (Hlen : length (words a n) = n) by apply (words_from_length a 0 n). rewrite Hlen in *. destruct (longest_run (words a n) 0 None) as [[q len]|]; cbn [encode squeezed].
  - destruct Hb as [Hb H2]. rewrite words_take, words_drop by lia. pose proof (ip6_emit_gap a len (n - (q + len)) Ha ltac:(lia) q 0 8 p false ltac:(lia) ltac:(by right)) as E.
    replace (0 + q + len + (n - (q + len)))%nat with n in E by lia. cbn [Nat.add] in E. change (Z.of_nat 0) with 0 in E. rewrite E. destruct (putcs p _) as [p'|]; [|done]. cbn [mbind option_bind]. do 2 f_equal.
    apply eq_true_iff_eq. rewrite negb_true_iff, Nat.leb_gt, Nat.ltb_lt. lia.
  - pose proof (ip6_emit_tail a 1 (-1) Ha n 0 8 p false ltac:(lia) ltac:(lia)) as E. cbn [Nat.add] in E. change (Z.of_nat 0) with 0 in E. rewrite E. change (words_from a 0 n) with (words a n). destruct (putcs p _) as [p'|]; [|done]. cbn [mbind option_bind]. do 2 f_equal.
    destruct n; [lia|done].
Qed.

(** ** Strings

    The buffer is [[lo, e)]; what may be read lies outside it. *)

Definition reader (m : list Z) (lo e x : Z) : option Z := if (lo <=? x) && (x <? e) then None else load_byte m x.

(** The memories that differ from [m] in the buffer only *)
Definition outside (lo e : Z) (m m' : list Z) : Prop := zlen m' = zlen m /\ forall x, reader m' lo e x = reader m lo e x.

Lemma outside_refl lo e m : outside lo e m m.
Proof. done. Qed.

Lemma outside_trans lo e m1 m2 m3 : outside lo e m1 m2 -> outside lo e m2 m3 -> outside lo e m1 m3.
Proof. intros [H1 H2] [H3 H4]. split; [lia|]. intros x. by rewrite H4. Qed.

Lemma outside_printed lo e m buf t m' : lo <= buf -> printed m buf e t m' -> outside lo e m m'.
Proof.
  intros Hlo [Hl H]. split; [done|]. intros x. unfold reader. destruct (Z.leb_spec lo x); [destruct (Z.ltb_spec x e); [done|]|]; cbn [andb]; unfold load_byte, in_bounds; rewrite Hl;
    (destruct ((0 <=? x) && (0 <=? 1) && (x + 1 <=? zlen m)) eqn:E; [|done]); rewrite !andb_true_iff, !Z.leb_le in E; rewrite H by lia; zbool; done || lia.
Qed.

Lemma outside_put lo e m buf c m' b' : lo <= buf -> 0 <= buf -> e <= zlen m -> put_char m buf e c = Some (m', b') -> outside lo e m m' /\ b' = buf + 1.
Proof.
  intros Hlo H0 He H. rewrite put_char_digits in H. destruct (put_digits_ok [c] m buf e H0 He) as (m1 & E & P). rewrite E in H. injection H as <- <-. split; [by apply (outside_printed lo e m buf [c])|done].
Qed.

Lemma outside_load lo e m m' x c : outside lo e m m' -> reader m lo e x = Some c -> load_byte m' x = Some c.
Proof. intros [_ H] Hr. rewrite <- H in Hr. unfold reader in Hr. by destruct ((lo <=? x) && (x <? e)). Qed.

(** A string of at most [n] characters *)
Fixpoint read_string (fuel : nat) (rd : Z -> option Z) (a n : Z) : option (list Z) :=
  if n =? 0 then Some []
  else
    match fuel with
    | O => None
    | S fuel => c ← rd a; if c =? 0 then Some [] else t ← read_string fuel rd (a + 1) (n - 1); Some (c :: t)
    end.

(** The characters of [t] are at [s]. *)
Definition src_reads (m : list Z) (lo e : Z) (s : source) (t : list Z) : Prop :=
  forall k, 0 <= k < zlen t -> match s with Mem a => reader m lo e (a + k) | Local l => load_byte l k end = Some (znth t k).

Lemma string_copy_eq m lo e s t : src_reads m lo e s t -> forall n i m' buf, Z.of_nat n + i = zlen t -> 0 <= i -> outside lo e m m' -> lo <= buf -> 0 <= buf -> e <= zlen m' ->
  string_copy n m' buf e s i = put_digits (drop (Z.to_nat i) t) m' buf e.
Proof.
  intros Hr. induction n as [|n IH]; intros i m' buf Hn Hi Ho Hlo H0 He.
  - rewrite drop_ge by (unfold zlen in Hn; lia). done.
  - specialize (Hr i ltac:(lia)). assert (Hd : drop (Z.to_nat i) t = znth t i :: drop (Z.to_nat (i + 1)) t).
    { rewrite (drop_S t (znth t i) (Z.to_nat i)); [do 2 f_equal; lia|]. unfold znth. destruct (lookup_lt_is_Some_2 t (Z.to_nat i)) as [x Hx]; [unfold zlen in Hn; lia|]. by rewrite nth_lookup, Hx. }
    rewrite Hd. cbn [string_copy put_digits]. assert (Hload : src_load m' s i = Some (znth t i)) by (destruct s as [a|l]; [by apply (outside_load lo e m m')|done]).
    assert (E : (m'0 ← (if buf <? e then c ← src_load m' s i; store_byte m' buf c else Some m'); string_copy n m'0 (buf + 1) e s (i + 1)) = ('(m'0, b) ← put_char m' buf e (znth t i); string_copy n m'0 b e s (i + 1))).
    { unfold put_char. rewrite Hload. cbn [mbind option_bind]. destruct (buf <? e); [|done]. by destruct (store_byte m' buf (znth t i)). }
    rewrite E. destruct (put_char m' buf e (znth t i)) as [[m1 b1]|] eqn:Ep; [|done]. destruct (outside_put lo e m' buf _ m1 b1 Hlo H0 He Ep) as [Ho1 ->]. cbn [mbind option_bind].
    apply IH; [lia|lia|by eapply outside_trans|lia|lia|]. destruct Ho1 as [-> _]. done.
Qed.

Lemma pad_field_eq m buf e len fw : - 2 ^ 31 < fw < 2 ^ 31 -> 0 <= len ->
  pad_field (Z.to_nat (fw - len)) m buf e len fw = ('(m, buf) ← put_digits (fill (fw - len) 32) m buf e; Some (m, buf, if len <? fw then len - 1 else fw - 1)).
Proof.
  intros Hf Hl. unfold fill. remember (Z.to_nat (fw - len)) as n eqn:En. revert m buf fw Hf En. induction n as [|n IH]; intros m buf fw Hf En; cbn [pad_field replicate put_digits].
  - destruct (Z.ltb_spec len fw); [lia|]. by rewrite s32_id by lia.
  - destruct (Z.ltb_spec len fw); [|lia]. destruct (put_char m buf e 32) as [[m1 b1]|]; [|done]. cbn [mbind option_bind]. rewrite s32_id by lia. rewrite IH by lia.
    destruct (put_digits (replicate n 32) m1 b1 e) as [[m2 b2]|]; [|done]. cbn [mbind option_bind]. do 2 f_equal. destruct (Z.ltb_spec len (fw - 1)); lia.
Qed.

(** The printing of a string of [len] characters that are known *)
Lemma string_eq m lo e m' buf s t spec :
  match s with Mem a => PAGE_SIZE <= a | Local _ => True end -> src_strnlen m' s (u32 (precision spec)) = Some (zlen t) -> src_reads m lo e s t ->
  outside lo e m m' -> lo <= buf -> 0 <= buf -> e <= zlen m' -> widths_ok spec -> string m' buf e s spec = put_digits (padded_text spec t) m' buf e.
Proof.
  intros Hs Hlen Hr Ho Hlo H0 He [Hw _]. unfold string. assert (E : match s with Mem a => if a <? PAGE_SIZE then Local (NULL_text ++ [0]) else s | Local _ => s end = s).
  { destruct s as [a|]; [|done]. destruct (Z.ltb_spec a PAGE_SIZE); [lia|done]. }
  rewrite E, Hlen. cbn [mbind option_bind]. clear E. pose proof (zlen_nonneg t) as Hz. pose proof (fun m1 b1 => string_copy_eq m lo e s t Hr (length t) 0 m1 b1) as Hc.
  replace (Z.to_nat (zlen t)) with (length t) by (unfold zlen; lia). unfold padded_text. destruct (flag (flags spec) LEFT); cbn [negb mbind option_bind].
  - rewrite Hc by (done || unfold zlen; lia). rewrite drop_0, put_digits_app. cbn [mbind option_bind]. destruct (put_digits t m' buf e) as [[m1 b1]|]; [|done]. cbn [mbind option_bind].
    rewrite pad_field_eq by lia. by destruct (put_digits (fill _ 32) m1 b1 e) as [[m2 b2]|].
  - rewrite pad_field_eq by lia. rewrite put_digits_app. destruct (put_digits_ok (fill (field_width spec - zlen t) 32) m' buf e H0 He) as (m1 & E1 & P1). rewrite E1. cbn [mbind option_bind].
    pose proof (zlen_nonneg (fill (field_width spec - zlen t) 32)). rewrite Hc; [|unfold zlen; lia|lia|by eapply outside_trans; [|eapply (outside_printed lo)]|lia|lia|by destruct P1 as [-> _]]. rewrite drop_0.
    destruct (put_digits t m1 _ e) as [[m2 b2]|]; [|done]. cbn [mbind option_bind]. set (fw := if zlen t <? field_width spec then zlen t - 1 else field_width spec - 1).
    assert (Hfw : - 2 ^ 31 < fw < 2 ^ 31 /\ fw <= zlen t - 1) by (unfold fw; destruct (Z.ltb_spec (zlen t) (field_width spec)); lia). rewrite pad_field_eq by lia. rewrite fill_neg by lia. done.
Qed.

Lemma clip_zlen n t : 0 <= n -> zlen (clip n t) = Z.min (zlen t) n.
Proof. intros Hn. unfold clip. destruct (Z.leb_spec (zlen t) n); [lia|]. rewrite zlen_take; lia. Qed.

Lemma clip_znth n t k : 0 <= k < zlen (clip n t) -> znth (clip n t) k = znth t k.
Proof.
  unfold clip. destruct (Z.leb_spec (zlen t) n) as [H|H]; [done|]. intros Hk. assert (k < n) by (unfold zlen in *; rewrite length_take in Hk; lia). by rewrite znth_take by lia.
Qed.

Lemma local_string_eq m buf e l t spec : holds_string l t -> 0 <= buf -> e <= zlen m -> widths_ok spec -> string m buf e (Local l) spec = put_digits (string_text spec t) m buf e.
Proof.
  intros Hl H0 He Hw. pose proof (holds_cstr l t Hl) as Hc. pose proof (u32_range (precision spec)) as Hn. unfold is_u32 in Hn. apply (string_eq m buf e); try done.
  - simpl. rewrite (strnlen_ok l 0 t) by (done || lia). by rewrite clip_zlen by lia.
  - intros k Hk. pose proof (clip_zlen (u32 (precision spec)) t ltac:(lia)) as Hz. rewrite clip_znth by done. pose proof (cstr_load l 0 t k Hc ltac:(lia)) as E. rewrite Z.add_0_l in E. rewrite E. f_equal. apply znth_app_l. lia.
Qed.

Lemma null_string_eq m buf e a spec : a < PAGE_SIZE -> 0 <= buf -> e <= zlen m -> widths_ok spec -> string m buf e (Mem a) spec = put_digits (string_text spec NULL_text) m buf e.
Proof.
  intros Ha H0 He Hw. rewrite <- (local_string_eq m buf e (NULL_text ++ [0]) NULL_text spec); try done.
  - unfold string. by rewrite (proj2 (Z.ltb_lt _ _) Ha).
  - split; [done|]. by repeat constructor.
Qed.

Lemma read_string_spec m lo e m' : outside lo e m m' -> forall fuel a n t f, read_string fuel (reader m lo e) a n = Some t -> 0 <= n -> (length t < f)%nat ->
  strnlen_loop f m' a n = Some (a + zlen t) /\ src_reads m lo e (Mem a) t /\ Forall (fun c => c <> 0) t.
Proof.
  intros Ho. induction fuel as [|fuel IH]; intros a n t f H Hn Hf; (destruct f as [|f]; [lia|]); cbn [read_string strnlen_loop] in *; (destruct (Z.eqb_spec n 0) as [->|Hn0]; [injection H as <-; split_and!; [f_equal; unfold zlen; simpl; lia|intros k Hk; unfold zlen in Hk; simpl in Hk; lia|constructor]|]); [done|].
  destruct (reader m lo e a) as [c|] eqn:Ec; [|done]. cbn [mbind option_bind] in H. rewrite (outside_load lo e m m' a c Ho Ec). cbn [mbind option_bind]. destruct (Z.eqb_spec c 0) as [->|Hc].
  - injection H as <-. split_and!; [f_equal; unfold zlen; simpl; lia|intros k Hk; unfold zlen in Hk; simpl in Hk; lia|constructor].
  - destruct (read_string fuel (reader m lo e) (a + 1) (n - 1)) as [t'|] eqn:E; [|done]. injection H as <-. destruct (IH (a + 1) (n - 1) t' f E ltac:(lia) ltac:(simpl in Hf; lia)) as (H1 & H2 & H3). split_and!; [|intros k Hk|by constructor].
    + rewrite H1. f_equal. unfold zlen. simpl. lia.
    + destruct (Z.eq_dec k 0) as [->|Hk0]; [by rewrite Z.add_0_r|]. specialize (H2 (k - 1)). simpl in H2. replace (a + 1 + (k - 1)) with (a + k) in H2 by lia. assert (0 <= k - 1 < zlen t') as Hk' by (unfold zlen in *; simpl in Hk; lia).
      specialize (H2 Hk'). simpl. rewrite H2. f_equal. unfold znth. by replace (Z.to_nat k) with (S (Z.to_nat (k - 1))) by lia.
Qed.

Lemma read_string_length m lo e : forall fuel a n t, read_string fuel (reader m lo e) a n = Some t -> 0 <= a -> 0 <= n -> zlen t = 0 \/ a + zlen t <= zlen m.
Proof.
  induction fuel as [|fuel IH]; intros a n t H Ha Hn; cbn [read_string] in H; (destruct (Z.eqb_spec n 0) as [->|Hn0]; [injection H as <-; by left|]); [done|].
  destruct (reader m lo e a) as [c|] eqn:Ec; [|done]. cbn [mbind option_bind] in H. destruct (Z.eqb_spec c 0) as [->|Hc]; [injection H as <-; by left|].
  destruct (read_string fuel (reader m lo e) (a + 1) (n - 1)) as [t'|] eqn:E; [|done]. injection H as <-. right. assert (Hl : load_byte m a = Some c) by (unfold reader in Ec; by destruct ((lo <=? a) && (a <? e))).
  apply load_byte_Some in Hl as [Hl _]. destruct (IH (a + 1) (n - 1) t' E) as [H'|H']; [lia|lia| |]; unfold zlen in *; simpl; lia.
Qed.

Lemma mem_string_eq m lo e m' buf fuel a t spec :
  PAGE_SIZE <= a -> read_string fuel (reader m lo e) a (u32 (precision spec)) = Some t ->
  outside lo e m m' -> lo <= buf -> 0 <= buf -> e <= zlen m' -> widths_ok spec -> string m' buf e (Mem a) spec = put_digits (padded_text spec t) m' buf e.
Proof.
  intros Ha Hr Ho Hlo H0 He Hw. pose proof (u32_range (precision spec)) as Hn. unfold is_u32 in Hn. assert (Hf : (length t < fuel_of m')%nat).
  { destruct (read_string_length m lo e fuel a _ t Hr) as [H|H]; [unfold PAGE_SIZE in Ha; lia|lia| |]; unfold fuel_of, zlen, PAGE_SIZE in *; [lia|]. destruct Ho as [Hz _]. unfold zlen in Hz. lia. }
  destruct (read_string_spec m lo e m' Ho fuel a _ t (fuel_of m') Hr ltac:(lia) Hf) as (H1 & H2 & _). apply (string_eq m lo e); try done. simpl. unfold strnlen. rewrite H1. simpl. f_equal. lia.
Qed.

(** ** The strings in the local arrays *)

Lemma put_digits_putcs e t : forall a k, k + zlen t <= e -> put_digits t a k e = putcs (a, k) t.
Proof.
  induction t as [|c t IH]; intros a k H; [done|]. assert (Hc : zlen (c :: t) = 1 + zlen t) by (unfold zlen; simpl; lia). pose proof (zlen_nonneg t). cbn [put_digits putcs]. unfold put_char, putc. simpl fst. simpl snd.
  destruct (Z.ltb_spec k e); [|lia]. destruct (store_byte a k c) as [a'|]; [|done]. cbn [mbind option_bind]. apply IH. lia.
Qed.

Lemma digits_of_length b : 1 < b -> forall fuel k n, 0 <= n < b ^ Z.of_nat k -> (length (digits_of fuel b n) <= Nat.max 1 k)%nat.
Proof.
  intros Hb. induction fuel as [|fuel IH]; intros k n Hn; [simpl; lia|]. cbn [digits_of]. destruct (Z.ltb_spec n b); [simpl; lia|]. destruct k as [|k]; [simpl in Hn; lia|]. rewrite Nat2Z.inj_succ, Z.pow_succ_r in Hn by lia.
  destruct k as [|k]; [simpl in Hn; lia|]. specialize (IH (S k) (n / b)). simpl length. assert (0 <= n / b < b ^ Z.of_nat (S k)) as Hd by (split; [apply Z.div_pos; lia|apply Z.div_lt_upper_bound; lia]). specialize (IH Hd). lia.
Qed.

Definition resource_spec (size : Z) : printf_spec := mkspec FORMAT_TYPE_NONE (Z.lor (Z.lor SPECIAL SMALL) ZEROPAD) size 16 (-1) 0.

Definition resource_size (rflags : Z) : Z :=
  if flag rflags IORESOURCE_IO then IO_RSRC_PRINTK_SIZE else if flag rflags IORESOURCE_MEM then MEM_RSRC_PRINTK_SIZE else -1.

Definition resource_text (rflags start rend : Z) : list Z :=
  let spec := resource_spec (resource_size rflags) in [91] ++ number_output spec start ++ [45] ++ number_output spec rend ++ [93].

Lemma resource_number_props size n : size <= 8 -> 0 <= n < 2 ^ 32 -> zlen (number_output (resource_spec size) n) <= 10 /\ Forall (fun c => c <> 0) (number_output (resource_spec size) n).
Proof.
  intros Hs Hn. unfold number_output. change (signed_value (resource_spec size) n) with n. change (base (resource_spec size)) with 16. rewrite Z.abs_eq by lia. assert (Hd : zlen (digits_of 22 16 n) <= 8) by (pose proof (digits_of_length 16 ltac:(lia) 22 8 n ltac:(lia)); unfold zlen; lia).
  assert (Hf : Forall (fun d => 0 <= d < 16) (digits_of 22 16 n)).
  { clear Hd. assert (H : 0 <= n < 16 ^ Z.of_nat 22) by (simpl; lia). clear Hn. revert n H. generalize 22%nat as k. induction k as [|k IH]; intros n H; [constructor|]. cbn [digits_of]. destruct (Z.ltb_spec n 16); [repeat constructor; lia|].
    constructor; [apply Z.mod_pos_bound; lia|]. apply IH. rewrite Nat2Z.inj_succ, Z.pow_succ_r in H by lia. split; [apply Z.div_pos; lia|apply Z.div_lt_upper_bound; lia]. }
  unfold number_text. change (sign_text (resource_spec size) n) with (@nil Z). change (flag (flags (resource_spec size)) LEFT) with false. change (flag (flags (resource_spec size)) ZEROPAD) with true. cbv iota.
  change (prefix_text (resource_spec size)) with [48; 120]. change (Z.land (flags (resource_spec size)) SMALL) with 32. set (ds := digits_of 22 16 n) in *. set (D := rev (List.map (dchar 32) ds)). change (precision (resource_spec size)) with (-1). change (field_width (resource_spec size)) with size.
  assert (HD : zlen D = zlen ds) by (unfold D; by rewrite zlen_rev, zlen_map). pose proof (zlen_nonneg ds). rewrite (fill_neg (-1 - zlen D)) by lia. cbn [app]. change (zlen []) with 0. change (zlen [48; 120]) with 2. split.
  - unfold zlen at 1. cbn [length]. rewrite length_app. unfold zlen in HD, Hd. pose proof (zlen_fill (size - 0 - 2 - zlen D) 48) as Hz. unfold zlen in Hz. unfold zlen. lia.
  - constructor; [done|]. constructor; [done|]. apply Forall_app. split; [unfold fill; by apply Forall_replicate|]. unfold D. apply Forall_rev, List.Forall_map. eapply Forall_impl; [exact Hf|]. intros d Hd'. pose proof (dchar_range 32 d ltac:(auto) Hd'). lia.
Qed.

Lemma resource_text_props rflags start rend : 0 <= start < 2 ^ 32 -> 0 <= rend < 2 ^ 32 -> zlen (resource_text rflags start rend) < 24 /\ Forall (fun c => c <> 0) (resource_text rflags start rend).
Proof.
  intros Hs He. assert (Hsz : resource_size rflags <= 8) by (unfold resource_size, IO_RSRC_PRINTK_SIZE, MEM_RSRC_PRINTK_SIZE; destruct (flag rflags _); [lia|destruct (flag rflags _); lia]).
  destruct (resource_number_props _ start Hsz Hs) as [Hl1 Hz1]. destruct (resource_number_props _ rend Hsz He) as [Hl2 Hz2]. unfold resource_text. cbv zeta. rewrite !zlen_app. change (zlen [91]) with 1. change (zlen [45]) with 1. change (zlen [93]) with 1. split; [lia|].
  rewrite !Forall_app. split_and!; done || by repeat constructor.
Qed.

Lemma ip6_plain_eq bs f : is_address bs -> exists a q, ip6_string (array 46) bs f = Some (a, q) /\ holds_string a (ip6_text (f =? 73) bs).
Proof.
  intros Hb. unfold ip6_string. change 0 with (Z.of_nat 0) at 1. rewrite (ip6_loop_eq bs f 8 Hb (array 46) 0) by done. fold (words bs 8). change (join _ _) with (ip6_text (f =? 73) bs).
  assert (Hw16 : Forall (fun w => 0 <= w < 2 ^ 16) (words bs 8)) by (apply List.Forall_map, List.Forall_forall; intros i _; by apply s6_addr16_range).
  assert (Hx : forall w, 0 <= w < 2 ^ 16 -> 0 <= Z.shiftr w 8 < 256 /\ 0 <= Z.land w 255 < 256).
  { intros w Hx. change 255 with (Z.ones 8). rewrite Z.land_ones, Z.shiftr_div_pow2 by lia. split; [split; [apply Z.div_pos; lia|apply Z.div_lt_upper_bound; lia]|]. change 256 with (2 ^ 8). apply Z.mod_pos_bound. lia. }
  destruct (put_string 46 (ip6_text (f =? 73) bs)) as (p & a & -> & _ & Ha & Hs).
  - unfold ip6_text. eapply Z.le_lt_trans; [apply (join_zlen _ 4); [lia|]|]; [apply List.Forall_map; eapply Forall_impl; [exact Hw16|]; intros w Hx'; rewrite zlen_app; done|]. destruct (f =? 73); unfold zlen; simpl; lia.
  - apply join_forall; [destruct (f =? 73); by repeat constructor|]. apply List.Forall_map. eapply Forall_impl; [exact Hw16|]. intros w Hx'. destruct (Hx w Hx'). apply Forall_app. split; by apply hex2_props.
  - cbn [mbind option_bind]. rewrite Ha. cbn [mbind option_bind]. eauto.
Qed.

Lemma holds_again p n t : holds p n t -> zlen t < n -> exists a, terminate p = Some a /\ holds (a, snd p) n t.
Proof.
  intros H Hl. destruct (terminate_ok p n t H Hl) as (a & Ea & Hn & Ht). exists a. split; [done|]. split; [done|]. split; [apply H|]. simpl. apply (f_equal (take (length t))) in Ht. rewrite take_take, Nat.min_l, take_app_length in Ht by lia. done.
Qed.

Lemma ip6_compressed_eq bs : is_address bs -> length bs = 16%nat -> exists a q, ip6_compressed_string (array 46) bs = Some (a, q) /\ holds_string a (ip6_compressed_text bs).
Proof.
  intros Hb Hl. unfold ip6_compressed_string, ip6_compressed_text. cbv zeta. destruct (ipv6_addr_v4mapped bs || ipv6_addr_is_isatap bs).
  - pose proof (ip6_emit_eq bs 6 (array 46) Hb ltac:(lia)) as E. change (Z.to_nat 6) with 6%nat. change (Z.of_nat 6) with 6 in E. destruct (find_longest 6 bs 0 1 (-1)) as [L C]. rewrite E. clear E.
    destruct (squeezed_props bs 6 Hb ltac:(lia)) as [Hs1 Hs2]. set (pos := longest_run (words bs 6) 0 None) in *. set (T := squeezed (words bs 6) pos) in *. set (op := match pos with Some (_, _) => _ | None => false end).
    assert (Hd : Forall (fun b => 0 <= b < 256) (drop 12 bs)) by by apply Forall_drop. assert (Hd4 : zlen (drop 12 bs) = 4) by (unfold zlen; rewrite length_drop; lia). destruct (ip4_text_props false (drop 12 bs) Hd Hd4) as [Hv1 Hv2]. set (V := ip4_text false (drop 12 bs)) in *.
    assert (HT : zlen (T ++ (if op then [] else [58]) ++ V) <= 45) by (rewrite !zlen_app; destruct op; unfold zlen in *; simpl; lia). destruct (putcs_ok 46 (T ++ (if op then [] else [58]) ++ V) (array 46) [] (holds_array 46)) as (p & Ep & Hp); [change (zlen []) with 0; lia|]. rewrite !putcs_app in Ep.
    destruct (putcs (array 46) T) as [p1|]; [|done]. cbn [mbind option_bind] in Ep |- *. rewrite putcs_app in Ep. assert (E2 : (if negb op then putc p1 58 else Some p1) = putcs p1 (if op then [] else [58])) by (destruct op; [done|apply putc_eq]). rewrite E2. destruct (putcs p1 (if op then [] else [58])) as [p2|]; [|done]. cbn [mbind option_bind] in Ep |- *.
    unfold ip4_string. rewrite ip4_loop_eq by (done || lia). fold V. rewrite Ep. cbn [mbind option_bind]. cbn [app] in Hp. destruct (holds_again p 46 _ Hp ltac:(lia)) as (a1 & -> & Ha1). cbn [mbind option_bind].
    destruct (terminate_ok (a1, snd p) 46 _ Ha1 ltac:(lia)) as (a2 & -> & _ & Ha2). cbn [mbind option_bind]. exists a2, (snd p). split; [done|]. split; [done|]. rewrite !Forall_app. split_and!; [done|destruct op; by repeat constructor|done].
  - pose proof (ip6_emit_eq bs 8 (array 46) Hb ltac:(lia)) as E. change (Z.to_nat 8) with 8%nat. change (Z.of_nat 8) with 8 in E. destruct (find_longest 8 bs 0 1 (-1)) as [L C]. rewrite E. clear E.
    destruct (squeezed_props bs 8 Hb ltac:(lia)) as [Hs1 Hs2]. set (pos := longest_run (words bs 8) 0 None) in *. rewrite app_nil_r. set (T := squeezed (words bs 8) pos) in *. destruct (put_string 46 T) as (p & a & -> & _ & Ha & Hs); [lia|done|]. cbn [mbind option_bind]. rewrite Ha. cbn [mbind option_bind]. eauto.
Qed.

(** What may be read: bytes and words *)
Fixpoint rd_bytes (rd : Z -> option Z) (a : Z) (n : nat) : option (list Z) :=
  match n with
  | O => Some []
  | S n => b ← rd a; bs ← rd_bytes rd (a + 1) n; Some (b :: bs)
  end.

Definition rd_word (rd : Z -> option Z) (a : Z) : option Z :=
  if a mod OPSIZ =? 0 then bs ← rd_bytes rd a 4; Some (value 256 bs) else None.

Section strings.
Context (m m' : list Z) (lo e buf : Z) (spec : printf_spec).
Hypotheses (Hm : is_bytes m) (Ho : outside lo e m m') (H0 : 0 <= buf) (He : e <= zlen m') (Hw : widths_ok spec).

Lemma rd_bytes_load n : forall a bs, rd_bytes (reader m lo e) a n = Some bs -> load_bytes m' a n = Some bs /\ Forall (fun b => 0 <= b < 256) bs /\ length bs = n.
Proof using Hm Ho.
  induction n as [|n IH]; intros a bs H; cbn [rd_bytes load_bytes] in *; [injection H as <-; done|]. destruct (reader m lo e a) as [b|] eqn:Eb; [|done]. cbn [mbind option_bind] in H.
  destruct (rd_bytes (reader m lo e) (a + 1) n) as [l|] eqn:El; [|done]. injection H as <-. destruct (IH _ _ El) as (H1 & H2 & H3). rewrite (outside_load lo e m m' a b Ho Eb). cbn [mbind option_bind]. rewrite H1. split; [done|].
  split; [|simpl; lia]. constructor; [|done]. unfold reader in Eb. destruct ((lo <=? a) && (a <? e)); [done|]. apply load_byte_Some in Eb as [Hb ->]. by apply znth_byte.
Qed.

Lemma rd_word_load a w : rd_word (reader m lo e) a = Some w -> load_word m' a = Some w /\ 0 <= w < 2 ^ 32.
Proof using Hm Ho.
  unfold rd_word, load_word. destruct (a mod OPSIZ =? 0); [|done]. destruct (rd_bytes (reader m lo e) a 4) as [bs|] eqn:E; [|done]. intros H. injection H as <-. destruct (rd_bytes_load 4 a bs E) as (H1 & H2 & H3).
  destruct bs as [|b0 [|b1 [|b2 [|b3 [|? ?]]]]]; try done. cbn [load_bytes] in H1. repeat match type of H1 with context [load_byte m' ?x] => destruct (load_byte m' x) as [?|] eqn:?; [cbn [mbind option_bind] in H1|done] end.
  injection H1 as -> -> -> ->. repeat match goal with H : load_byte _ _ = Some _ |- _ => apply load_byte_Some in H as [? ->] end. rewrite (proj2 (in_bounds_spec m' a OPSIZ)) by (unfold OPSIZ; lia). cbn [andb].
  replace (a + 1 + 1) with (a + 2) in * by lia. replace (a + 2 + 1) with (a + 3) in * by lia. repeat (apply Forall_cons in H2 as [? H2]). split; [f_equal; unfold value; simpl foldr; lia|]. unfold value. simpl foldr. lia.
Qed.

Lemma mac_address_eq addr f bs : rd_bytes (reader m lo e) addr 6 = Some bs -> mac_address_string m' buf e addr spec f = put_digits (string_text spec (mac_text (f =? 77) bs)) m' buf e.
Proof using Hm Ho H0 He Hw.
  intros H. destruct (rd_bytes_load 6 addr bs H) as (H1 & H2 & H3). unfold mac_address_string. rewrite (mac_loop_eq m' f addr 6 (array 18) 0 bs) by (by rewrite Z.add_0_r || done).
  destruct (put_string 18 (mac_text (f =? 77) bs)) as (p & a & -> & _ & Ha & Hs).
  - unfold mac_text. eapply Z.le_lt_trans; [apply (join_zlen _ 2); [lia|]|]; [apply List.Forall_map; eapply Forall_impl; [exact H2|]; intros b Hb; by rewrite (proj1 (hex2_props b Hb))|].
    unfold zlen at 2. rewrite List.length_map, H3. destruct (f =? 77); unfold zlen; simpl; lia.
  - apply join_forall; [destruct (f =? 77); by repeat constructor|]. apply List.Forall_map. eapply Forall_impl; [exact H2|]. intros b Hb. by apply hex2_props.
  - cbn [mbind option_bind]. rewrite Ha. cbn [mbind option_bind]. by apply local_string_eq.
Qed.

Lemma ip4_addr_eq addr f bs : rd_bytes (reader m lo e) addr 4 = Some bs -> ip4_addr_string m' buf e addr spec f = put_digits (string_text spec (ip4_text (f =? 105) bs)) m' buf e.
Proof using Hm Ho H0 He Hw.
  intros H. destruct (rd_bytes_load 4 addr bs H) as (H1 & H2 & H3). unfold ip4_addr_string, ip4_string. rewrite H1. cbn [mbind option_bind]. assert (Hl : zlen bs = 4) by (unfold zlen; lia).
  rewrite ip4_loop_eq by (done || lia). destruct (ip4_text_props (f =? 105) bs H2 Hl) as [Hp1 Hp2]. destruct (put_string 16 (ip4_text (f =? 105) bs)) as (p & a & -> & _ & Ha & Hs); [lia|done|]. cbn [mbind option_bind]. rewrite Ha. cbn [mbind option_bind]. by apply local_string_eq.
Qed.

Lemma ip6_addr_eq addr fmt bs : rd_bytes (reader m lo e) addr 16 = Some bs ->
  ip6_addr_string m' buf e addr spec fmt = put_digits (string_text spec (if (nth 0 fmt 0 =? 73) && (nth 2 fmt 0 =? 99) then ip6_compressed_text bs else ip6_text (nth 0 fmt 0 =? 73) bs)) m' buf e.
Proof using Hm Ho H0 He Hw.
  intros H. destruct (rd_bytes_load 16 addr bs H) as (H1 & H2 & H3). unfold ip6_addr_string. rewrite H1. cbn [mbind option_bind]. destruct ((nth 0 fmt 0 =? 73) && (nth 2 fmt 0 =? 99)).
  - destruct (ip6_compressed_eq bs H2 H3) as (a & q & -> & Ha). cbn [mbind option_bind]. by apply local_string_eq.
  - destruct (ip6_plain_eq bs (nth 0 fmt 0) H2) as (a & q & -> & Ha). cbn [mbind option_bind]. by apply local_string_eq.
Qed.

Lemma resource_eq res rflags start rend :
  rd_word (reader m lo e) (res + 12) = Some rflags -> rd_word (reader m lo e) res = Some start -> rd_word (reader m lo e) (res + 4) = Some rend ->
  resource_string m' buf e res spec = put_digits (string_text spec (resource_text rflags start rend)) m' buf e.
Proof using Hm Ho H0 He Hw.
  intros [Ef _]%rd_word_load [Es Hs]%rd_word_load [Ee Hee]%rd_word_load. unfold resource_string. cbn [array]. rewrite Ef, Es, Ee. cbn [mbind option_bind]. fold (resource_size rflags). fold (resource_spec (resource_size rflags)). set (rs := resource_spec (resource_size rflags)).
  destruct (resource_text_props rflags start rend Hs Hee) as [Hl Hz]. assert (Hsz : -1 <= resource_size rflags <= 8) by (unfold resource_size, IO_RSRC_PRINTK_SIZE, MEM_RSRC_PRINTK_SIZE; destruct (flag rflags _); [lia|destruct (flag rflags _); lia]).
  assert (Hn : forall a k n, 0 <= n < 2 ^ 32 -> k + zlen (number_output rs n) <= 24 -> number a k 24 n rs = putcs (a, k) (number_output rs n)).
  { intros a k n Hn Hk. destruct (number_ok a k 24 n rs) as [-> _]; [simpl; lia|lia|split; simpl; lia|]. by apply put_digits_putcs. }
  assert (Hlen : zlen (resource_text rflags start rend) = 3 + zlen (number_output rs start) + zlen (number_output rs rend)) by (unfold resource_text; cbv zeta; rewrite !zlen_app; change (zlen [91]) with 1; change (zlen [45]) with 1; change (zlen [93]) with 1; fold rs; lia).
  destruct (put_string 24 (resource_text rflags start rend) ltac:(lia) Hz) as (p & a & Ep & _ & Ha & Hs'). unfold resource_text in Ep. cbv zeta in Ep. fold rs in Ep. rewrite putcs_app in Ep. unfold array in Ep.
  assert (Hsnd : forall (p q : list Z * Z) t, putcs p t = Some q -> snd q = snd p + zlen t).
  { clear. intros p q t. revert p. induction t as [|c t IH]; intros p H; [injection H as ->; unfold zlen; simpl; lia|]. simpl in H. unfold putc in H. destruct (store_byte p.1 p.2 c) as [a|]; [|done]. simpl in H. rewrite (IH _ H). unfold zlen. simpl. lia. }
  pose proof (zlen_nonneg (number_output rs start)). pose proof (zlen_nonneg (number_output rs rend)).
  rewrite putc_eq. destruct (putcs (replicate 24 0, 0) [91]) as [[a1 k1]|] eqn:E1; [|done]. apply Hsnd in E1. simpl in E1. change (zlen [91]) with 1 in E1. cbn [mbind option_bind] in Ep |- *. rewrite Hn by lia. rewrite putcs_app in Ep.
  destruct (putcs (a1, k1) (number_output rs start)) as [[a2 k2]|] eqn:E2; [|done]. apply Hsnd in E2. simpl in E2. cbn [mbind option_bind] in Ep |- *. rewrite putc_eq. rewrite putcs_app in Ep.
  destruct (putcs (a2, k2) [45]) as [[a3 k3]|] eqn:E3; [|done]. apply Hsnd in E3. simpl in E3. change (zlen [45]) with 1 in E3. cbn [mbind option_bind] in Ep |- *. rewrite Hn by lia. rewrite putcs_app in Ep.
  destruct (putcs (a3, k3) (number_output rs rend)) as [[a4 k4]|] eqn:E4; [|done]. cbn [mbind option_bind] in Ep |- *. rewrite putc_eq, Ep. cbn [mbind option_bind]. destruct p as [ap kp]. rewrite Ha. cbn [mbind option_bind]. by apply local_string_eq.
Qed.

End strings.

(** ** The run of zeros that is left out *)

Lemma run_zeros ws : take (run ws) ws = replicate (run ws) 0.
Proof. induction ws as [|w ws IH]; [done|]. destruct w; [|done|done]. simpl. by rewrite IH. Qed.

(** [best] is the first of the longest runs of two zeros or more among those that start
    below [n]. *)
Definition best_run (W : list Z) (n : nat) (best : option (nat * nat)) : Prop :=
  match best with
  | None => forall i, (i < n)%nat -> (run (drop i W) < 2)%nat
  | Some (p, len) => (p < n)%nat /\ (2 <= len)%nat /\ run (drop p W) = len /\ forall i, (i < n)%nat -> (run (drop i W) <= len)%nat /\ ((i < p)%nat -> (run (drop i W) < len)%nat)
  end.

Lemma longest_run_best W ws : forall i best, ws = drop i W -> best_run W i best -> best_run W (i + length ws) (longest_run ws i best).
Proof.
  induction ws as [|w ws IH]; intros i best Hws Hb; [by rewrite Nat.add_0_r|]. cbn [longest_run]. cbv zeta. replace (i + length (w :: ws))%nat with (S i + length ws)%nat by (simpl; lia).
  apply IH; [rewrite <- (drop_drop _ 1), <- Hws || replace (S i) with (i + 1)%nat by lia; rewrite <- drop_drop, <- Hws; done|]. rewrite Hws. set (k := run (drop i W)). clear IH Hws.
  destruct best as [[p b]|]; cbn [best_run] in Hb.
  - destruct Hb as (H1 & H2 & H3 & H4). destruct (Nat.ltb_spec b k) as [Hlt|Hge]; cbn [best_run].
    + split_and!; [lia|lia|done|]. intros j Hj. destruct (Nat.eq_dec j i) as [->|Hne]; [unfold k; lia|]. destruct (H4 j ltac:(lia)). lia.
    + split_and!; [lia|lia|done|]. intros j Hj. destruct (Nat.eq_dec j i) as [->|Hne]; [fold k; lia|]. destruct (H4 j ltac:(lia)). lia.
  - destruct (Nat.ltb_spec 1 k) as [Hlt|Hge]; cbn [best_run].
    + split_and!; [lia|lia|done|]. intros j Hj. destruct (Nat.eq_dec j i) as [->|Hne]; [unfold k; lia|]. specialize (Hb j ltac:(lia)). lia.
    + intros j Hj. destruct (Nat.eq_dec j i) as [->|Hne]; [fold k; lia|]. apply Hb. lia.
Qed.

(** C32. The compressed form of an IPv6 address ([%pI6c]): the code finds room for it in its
    array, and the array then holds the words in hexadecimal without leading zeros, with
    [::] in place of the first of the longest runs of at least two zero words, followed by
    the last four bytes in decimal if the address is a mapped IPv4 or an ISATAP one. *)
Theorem ip6_compressed_correct a :
  is_address a -> length a = 16%nat ->
  (exists s q, ip6_compressed_string (array 46) a = Some (s, q) /\ cstr s 0 (ip6_compressed_text a)) /\
  let v4 := ipv6_addr_v4mapped a || ipv6_addr_is_isatap a in
  let ws := words a (if v4 then 6 else 8) in
  best_run ws (length ws) (longest_run ws 0 None) /\
  match longest_run ws 0 None with
  | Some (p, len) => ws = take p ws ++ replicate len 0 ++ drop (p + len) ws /\
      ip6_compressed_text a = join [58] (List.map hex (take p ws)) ++ [58; 58] ++ join [58] (List.map hex (drop (p + len) ws)) ++
        (if v4 then (if (length ws <=? p + len)%nat then [] else [58]) ++ ip4_text false (drop 12 a) else [])
  | None => ip6_compressed_text a = join [58] (List.map hex ws) ++ if v4 then [58] ++ ip4_text false (drop 12 a) else []
  end.
Proof.
  intros Ha Hl. split.
  - destruct (ip6_compressed_eq a Ha Hl) as (s & q & E & Hs). exists s, q. split; [done|]. by apply holds_cstr.
  - intros v4 ws. pose proof (longest_run_best ws ws 0 None eq_refl) as Hb. cbn [Nat.add] in Hb. assert (best_run ws 0 None) as H0 by (intros i Hi; lia). specialize (Hb H0). split; [done|].
    unfold ip6_compressed_text. cbv zeta. fold v4. fold ws. destruct (longest_run ws 0 None) as [[p len]|]; cbn [squeezed].
    + destruct Hb as (H1 & H2 & H3 & _). split; [|by rewrite <- !app_assoc]. pose proof (run_zeros (drop p ws)) as Hz. rewrite H3 in Hz. rewrite <- Hz, <- drop_drop, take_drop, take_drop. done.
    + by destruct v4.
Qed.

Lemma ip6_compressed_correct_witness :
  let a := [0x20; 0x01; 0x0d; 0xb8; 0; 0; 0; 0; 0; 0; 0; 0; 0; 0; 0; 1] in
  (exists s q, ip6_compressed_string (array 46) a = Some (s, q) /\ cstr s 0 [50; 48; 48; 49; 58; 100; 98; 56; 58; 58; 49]) /\
  longest_run (words a 8) 0 None = Some (2, 5)%nat /\ words a 8 = take 2 (words a 8) ++ replicate 5 0 ++ drop 7 (words a 8).
Proof.
  intros a. destruct (ip6_compressed_correct a) as [H1 [_ [H2 _]]]; [repeat constructor; done|reflexivity|]. split; [exact H1|]. split; [reflexivity|exact H2].
Defined.

End Addrstr.
