(* ===== verification/Vsprintf.v ===== *)
(** * lib/vsprintf.c: formatted printing

    [format_decode], [pointer], [vsnprintf] and the functions around it.

    The buffer, the strings and the structures the arguments point to lie in one memory.
    The format is a constant string, given by what is left of it: its first character is
    [*fmt] (NUL at the end) and [++fmt] at its end is [None].  A [va_list] is the list of
    the arguments that are left, each of one or two words; fetching one of the wrong size
    is [None].  Pointers do not wrap: a text that runs past the end of the address space is
    outside the model. *)
From S2P Require Import Prelude Bitops Memcopy Ctype CString Number Addrstr.
Import Memcopy Ctype CString Number Addrstr.

Module Vsprintf.

Definition INT_MAX : Z := 2 ^ 31 - 1.

(** ** Formats *)

(** [++fmt] *)
Definition next (fmt : list Z) : option (list Z) := match fmt with [] => None | _ :: t => Some t end.

(** [*fmt] *)
Definition cur (fmt : list Z) : Z := nth 0 fmt 0.

(** [while (isdigit( **s)) i = i*10 + *(( *s)++) - '0'] *)
Fixpoint skip_atoi (fmt : list Z) (i : Z) : Z * list Z :=
  match fmt with
  | [] => (i, [])
  | c :: t => if isdigit c then skip_atoi t (s32 (i * 10 + c - 48)) else (i, fmt)
  end.

Fixpoint skip_text (fmt : list Z) : list Z :=
  match fmt with
  | [] => []
  | c :: t => if c =? 37 then fmt else skip_text t
  end.

Definition flag_of (c : Z) : option Z :=
  if c =? 45 then Some LEFT else if c =? 43 then Some PLUS else if c =? 32 then Some SPACE
  else if c =? 35 then Some SPECIAL else if c =? 48 then Some ZEROPAD else None.

(** Entered before [++fmt] *)
Fixpoint skip_flags (fmt : list Z) (fl : Z) : option (Z * list Z) :=
  match fmt with
  | [] => None
  | _ :: t => match flag_of (cur t) with
              | Some f => skip_flags t (Z.lor fl f)
              | None => Some (fl, t)
              end
  end.

Definition set_type (spec : printf_spec) t := mkspec t (flags spec) (field_width spec) (base spec) (precision spec) (qualifier spec).
Definition set_flags (spec : printf_spec) f := mkspec (type spec) f (field_width spec) (base spec) (precision spec) (qualifier spec).
Definition set_field_width (spec : printf_spec) w := mkspec (type spec) (flags spec) w (base spec) (precision spec) (qualifier spec).
Definition set_base (spec : printf_spec) b := mkspec (type spec) (flags spec) (field_width spec) b (precision spec) (qualifier spec).
Definition set_precision (spec : printf_spec) p := mkspec (type spec) (flags spec) (field_width spec) (base spec) p (qualifier spec).
Definition set_qualifier (spec : printf_spec) q := mkspec (type spec) (flags spec) (field_width spec) (base spec) (precision spec) q.

(** The type of an integer conversion, from the qualifier and the sign *)
Definition integer_type (spec : printf_spec) : format_type :=
  let q := qualifier spec in
  let sg := flag (flags spec) SIGN in
  if q =? 76 then FORMAT_TYPE_LONG_LONG
  else if q =? 108 then if sg then FORMAT_TYPE_LONG else FORMAT_TYPE_ULONG
  else if (q =? 90) || (q =? 122) then FORMAT_TYPE_SIZE_T
  else if q =? 116 then FORMAT_TYPE_PTRDIFF
  else if q =? 72 then if sg then FORMAT_TYPE_BYTE else FORMAT_TYPE_UBYTE
  else if q =? 104 then if sg then FORMAT_TYPE_SHORT else FORMAT_TYPE_USHORT
  else if sg then FORMAT_TYPE_INT else FORMAT_TYPE_UINT.

(** The conversion character; what is left of the format *)
Definition decode_conversion (fmt : list Z) (spec : printf_spec) : option (printf_spec * list Z) :=
  let spec := set_base spec 10 in
  let done t := t' ← next fmt; Some (set_type spec t, t') in
  let integer spec := t' ← next fmt; Some (set_type spec (integer_type spec), t') in
  let c := cur fmt in
  if c =? 99 then done FORMAT_TYPE_CHAR
  else if c =? 115 then done FORMAT_TYPE_STR
  else if c =? 112 then Some (set_type spec FORMAT_TYPE_PTR, fmt)
  else if c =? 110 then done FORMAT_TYPE_NRCHARS
  else if c =? 37 then done FORMAT_TYPE_PERCENT_CHAR
  else if c =? 111 then integer (set_base spec 8)
  else if c =? 120 then integer (set_base (set_flags spec (Z.lor (flags spec) SMALL)) 16)
  else if c =? 88 then integer (set_base spec 16)
  else if (c =? 100) || (c =? 105) then integer (set_flags spec (Z.lor (flags spec) SIGN))
  else if c =? 117 then integer spec
  else Some (set_type spec FORMAT_TYPE_INVALID, fmt).

(** From the label [qualifier] on *)
Definition decode_qualifier (fmt : list Z) (spec : printf_spec) : option (printf_spec * list Z) :=
  let spec := set_qualifier spec (-1) in
  let c := cur fmt in
  if (c =? 104) || (c =? 108) || (c =? 76) || (c =? 90) || (c =? 122) || (c =? 116) then
    fmt ← next fmt;
    if c =? cur fmt then
      if c =? 108 then fmt ← next fmt; decode_conversion fmt (set_qualifier spec 76)
      else if c =? 104 then fmt ← next fmt; decode_conversion fmt (set_qualifier spec 72)
      else decode_conversion fmt (set_qualifier spec c)
    else decode_conversion fmt (set_qualifier spec c)
  else decode_conversion fmt spec.

(** From the label [precision] on *)
Definition decode_precision (fmt : list Z) (spec : printf_spec) : option (printf_spec * list Z) :=
  let spec := set_precision spec (-1) in
  if cur fmt =? 46 then
    fmt ← next fmt;
    if isdigit (cur fmt) then
      let '(p, fmt) := skip_atoi fmt 0 in
      decode_qualifier fmt (set_precision spec (if p <? 0 then 0 else p))
    else if cur fmt =? 42 then fmt ← next fmt; Some (set_type spec FORMAT_TYPE_PRECISION, fmt)
    else decode_qualifier fmt spec
  else decode_qualifier fmt spec.

(** A new token: text up to a [%], or a conversion up to its precision *)
Definition decode_token (fmt : list Z) (spec : printf_spec) : option (printf_spec * list Z) :=
  let spec := set_type spec FORMAT_TYPE_NONE in
  let t := skip_text fmt in
  if negb (length t =? length fmt)%nat || (cur t =? 0) then Some (spec, t)
  else
    '(fl, t) ← skip_flags t 0;
    let spec := set_field_width (set_flags spec fl) (-1) in
    if isdigit (cur t) then
      let '(w, t) := skip_atoi t 0 in decode_precision t (set_field_width spec w)
    else if cur t =? 42 then t ← next t; Some (set_type spec FORMAT_TYPE_WIDTH, t)
    else decode_precision t spec.

Definition format_decode (fmt : list Z) (spec : printf_spec) : option (printf_spec * list Z) :=
  match type spec with
  | FORMAT_TYPE_WIDTH =>
      let spec := if field_width spec <? 0 then set_flags (set_field_width spec (s32 (- field_width spec))) (Z.lor (flags spec) LEFT) else spec in
      decode_precision fmt (set_type spec FORMAT_TYPE_NONE)
  | FORMAT_TYPE_PRECISION =>
      let spec := if precision spec <? 0 then set_precision spec 0 else spec in
      decode_qualifier fmt (set_type spec FORMAT_TYPE_NONE)
  | _ => decode_token fmt spec
  end.

(** ** vsnprintf *)

Inductive arg :=
  | Word (z : Z)
  | Dword (z : Z).

Definition va_word (args : list arg) : option (Z * list arg) := match args with Word z :: args => Some (z, args) | _ => None end.
Definition va_dword (args : list arg) : option (Z * list arg) := match args with Dword z :: args => Some (z, args) | _ => None end.

(** The number an integer conversion fetches: the argument converted to the type, and from
    there to [unsigned long long] *)
Definition fetch_number (t : format_type) (args : list arg) : option (Z * list arg) :=
  match t with
  | FORMAT_TYPE_LONG_LONG => va_dword args
  | FORMAT_TYPE_ULONG | FORMAT_TYPE_SIZE_T => va_word args
  | FORMAT_TYPE_LONG | FORMAT_TYPE_PTRDIFF | FORMAT_TYPE_INT => '(z, args) ← va_word args; Some (wrap 64 (swrap 32 z), args)
  | FORMAT_TYPE_UBYTE => '(z, args) ← va_word args; Some (wrap 8 z, args)
  | FORMAT_TYPE_BYTE => '(z, args) ← va_word args; Some (wrap 64 (swrap 8 z), args)
  | FORMAT_TYPE_USHORT => '(z, args) ← va_word args; Some (wrap 16 z, args)
  | FORMAT_TYPE_SHORT => '(z, args) ← va_word args; Some (wrap 64 (swrap 16 z), args)
  | _ => va_word args
  end.

(** [while (--spec.field_width > 0)] put a space *)
Fixpoint pad_char (fuel : nat) (m : list Z) (buf end_ fw : Z) : option (list Z * Z * Z) :=
  let fw := s32 (fw - 1) in
  if 0 <? fw then
    match fuel with
    | O => None
    | S fuel => '(m, buf) ← put_char m buf end_ 32; pad_char fuel m buf end_ fw
    end
  else Some (m, buf, fw).

(** [while (isalnum( *fmt)) fmt++] *)
Fixpoint skip_alnum (fmt : list Z) : list Z :=
  match fmt with
  | [] => []
  | c :: t => if isalnum c then skip_alnum t else fmt
  end.

Section vsnprintf.

(** The names of addresses come from tables the build generates and from loaded modules:
    [symbol ext value] is the string [sprint_symbol] ([kallsyms_lookup] if [ext] is ['f'] or
    ['s']) leaves in [sym]. *)
Context (symbol : Z -> Z -> list Z).

Definition symbol_string (m : list Z) (buf end_ ptr : Z) (spec : printf_spec) (ext : Z) : option (list Z * Z) :=
  string m buf end_ (Local (symbol ext ptr ++ [0])) spec.

Definition pointer (fmt m : list Z) (buf end_ ptr : Z) (spec : printf_spec) : option (list Z * Z) :=
  if ptr =? 0 then string m buf end_ (Local (null_text ++ [0])) spec
  else
    let c := cur fmt in
    let plain :=
      let spec := set_flags spec (Z.lor (flags spec) SMALL) in
      let spec := if field_width spec =? -1 then set_flags (set_field_width spec 8) (Z.lor (flags spec) ZEROPAD) else spec in
      number m buf end_ ptr (set_base spec 16) in
    if (c =? 70) || (c =? 102) || (c =? 115) || (c =? 83) then symbol_string m buf end_ ptr spec c
    else if c =? 82 then resource_string m buf end_ ptr spec
    else if (c =? 77) || (c =? 109) then mac_address_string m buf end_ ptr spec c
    else if (c =? 73) || (c =? 105) then
      if nth 1 fmt 0 =? 54 then ip6_addr_string m buf end_ ptr spec fmt
      else if nth 1 fmt 0 =? 52 then ip4_addr_string m buf end_ ptr spec c
      else plain
    else plain.

(** One turn of the loop: [old] is the format before [format_decode], [fmt] behind it. *)
Definition convert (m : list Z) (buf str end_ : Z) (old fmt : list Z) (spec : printf_spec) (args : list arg)
    : option (list Z * Z * list Z * printf_spec * list arg) :=
  match type spec with
  | FORMAT_TYPE_NONE =>
      let read := zlen old - zlen fmt in
      m ← (if str <? end_ then write_bytes m str (take (Z.to_nat (if end_ - str <? read then end_ - str else read)) old) else Some m);
      Some (m, str + read, fmt, spec, args)
  | FORMAT_TYPE_WIDTH => '(z, args) ← va_word args; Some (m, str, fmt, set_field_width spec (s32 z), args)
  | FORMAT_TYPE_PRECISION => '(z, args) ← va_word args; Some (m, str, fmt, set_precision spec (s32 z), args)
  | FORMAT_TYPE_CHAR =>
      let fw := field_width spec in
      '(m, str, fw) ← (if negb (flag (flags spec) LEFT) then pad_char (Z.to_nat (s32 (fw - 1))) m str end_ fw else Some (m, str, fw));
      '(c, args) ← va_word args;
      '(m, str) ← put_char m str end_ (wrap 8 c);
      '(m, str, fw) ← pad_char (Z.to_nat (s32 (fw - 1))) m str end_ fw;
      Some (m, str, fmt, set_field_width spec fw, args)
  | FORMAT_TYPE_STR =>
      '(s, args) ← va_word args;
      '(m, str) ← string m str end_ (Mem s) spec;
      Some (m, str, fmt, spec, args)
  | FORMAT_TYPE_PTR =>
      '(p, args) ← va_word args;
      rest ← next fmt;
      '(m, str) ← pointer rest m str end_ p spec;
      Some (m, str, skip_alnum fmt, spec, args)
  | FORMAT_TYPE_PERCENT_CHAR | FORMAT_TYPE_INVALID =>
      '(m, str) ← put_char m str end_ 37;
      Some (m, str, fmt, spec, args)
  | FORMAT_TYPE_NRCHARS =>
      '(ip, args) ← va_word args;
      m ← store_word m ip (u32 (str - buf));
      Some (m, str, fmt, spec, args)
  | t =>
      '(num, args) ← fetch_number t args;
      '(m, str) ← number m str end_ num spec;
      Some (m, str, fmt, spec, args)
  end.

(** How the loop [while ( *fmt)] comes out: it ends, it does something undefined, or it is
    still running when the turns it was given are over. *)
Inductive outcome :=
  | Ended (r : list Z * Z * list arg)
  | Undefined
  | Running.

Fixpoint vsn_loop (turns : nat) (m : list Z) (buf str end_ : Z) (fmt : list Z) (spec : printf_spec) (args : list arg) : outcome :=
  if cur fmt =? 0 then Ended (m, str, args)
  else
    match turns with
    | O => Running
    | S turns =>
        match format_decode fmt spec with
        | None => Undefined
        | Some (spec, rest) =>
            match convert m buf str end_ fmt rest spec args with
            | None => Undefined
            | Some (m, str, rest, spec, args) => vsn_loop turns m buf str end_ rest spec args
            end
        end
    end.

Definition spec0 : printf_spec := mkspec FORMAT_TYPE_NONE 0 0 0 0 0.

(** The memory, the value returned and the arguments that are left *)
Definition vsnprintf (m : list Z) (buf size : Z) (fmt : list Z) (args : list arg) : option (list Z * Z * list arg) :=
  if s32 size <? 0 then Some (m, 0, args)
  else
    let end_ := u32 (buf + size) in
    let '(end_, size) := if end_ <? buf then (2 ^ 32 - 1, 2 ^ 32 - 1 - buf) else (end_, size) in
    '(m, str, args) ← match vsn_loop (2 * length fmt) m buf buf end_ fmt spec0 args with Ended r => Some r | Undefined | Running => None end;
    m ← (if 0 <? size then if str <? end_ then store_byte m str 0 else store_byte m (end_ - 1) 0 else Some m);
    Some (m, s32 (str - buf), args).

(** [i >= size] compares as [size_t]. *)
Definition vscnprintf (m : list Z) (buf size : Z) (fmt : list Z) (args : list arg) : option (list Z * Z * list arg) :=
  '(m, i, args) ← vsnprintf m buf size fmt args;
  Some (m, if size <=? u32 i then s32 (size - 1) else i, args).

(** The functions with [...] pass on their arguments. *)
Definition snprintf (m : list Z) (buf size : Z) (fmt : list Z) (args : list arg) : option (list Z * Z) :=
  '(m, i, _) ← vsnprintf m buf size fmt args; Some (m, i).

Definition scnprintf (m : list Z) (buf size : Z) (fmt : list Z) (args : list arg) : option (list Z * Z) :=
  '(m, i, _) ← vsnprintf m buf size fmt args; Some (m, if size <=? u32 i then s32 (size - 1) else i).

Definition vsprintf (m : list Z) (buf : Z) (fmt : list Z) (args : list arg) : option (list Z * Z * list arg) :=
  vsnprintf m buf INT_MAX fmt args.

Definition sprintf (m : list Z) (buf : Z) (fmt : list Z) (args : list arg) : option (list Z * Z) :=
  '(m, i, _) ← vsnprintf m buf INT_MAX fmt args; Some (m, i).

End vsnprintf.

(** ** The text of a decoded format

    The text of each conversion that [format_decode] finds, with the buffer left out: a step
    between [vsnprintf] and the meaning of a format in [Printf].  [rd] gives the bytes that
    may be read, [lim] bounds the length of a string.  [%n], which prints nothing, and
    widths near the limits of [int] are left out. *)
Section text.
Context (symbol : Z -> Z -> list Z) (rd : Z -> option Z) (lim : nat).

Definition widths_okb (spec : printf_spec) : bool := (Z.abs (field_width spec) <=? 10 ^ 9) && (Z.abs (precision spec) <=? 10 ^ 9).

(** A pointer as a number *)
Definition pointer_spec (spec : printf_spec) : printf_spec :=
  let spec := set_flags spec (Z.lor (flags spec) SMALL) in
  let spec := if field_width spec =? -1 then set_flags (set_field_width spec 8) (Z.lor (flags spec) ZEROPAD) else spec in
  set_base spec 16.

Definition pointer_text (fmt : list Z) (ptr : Z) (spec : printf_spec) : option (list Z) :=
  if ptr =? 0 then Some (string_text spec null_text)
  else
    let c := cur fmt in
    let plain := Some (number_output (pointer_spec spec) ptr) in
    if (c =? 70) || (c =? 102) || (c =? 115) || (c =? 83) then Some (string_text spec (symbol c ptr))
    else if c =? 82 then
      fl ← rd_word rd (ptr + 12); start ← rd_word rd ptr; rend ← rd_word rd (ptr + 4);
      Some (string_text spec (resource_text fl start rend))
    else if (c =? 77) || (c =? 109) then bs ← rd_bytes rd ptr 6; Some (string_text spec (mac_text (c =? 77) bs))
    else if (c =? 73) || (c =? 105) then
      if nth 1 fmt 0 =? 54 then
        bs ← rd_bytes rd ptr 16;
        Some (string_text spec (if (c =? 73) && (nth 2 fmt 0 =? 99) then ip6_compressed_text bs else ip6_text (c =? 73) bs))
      else if nth 1 fmt 0 =? 52 then bs ← rd_bytes rd ptr 4; Some (string_text spec (ip4_text (c =? 105) bs))
      else plain
    else plain.

(** The field width [%c] leaves behind *)
Definition char_width (spec : printf_spec) : Z :=
  let w := if 0 <? field_width spec - 1 then 0 else field_width spec - 1 in
  if flag (flags spec) LEFT then w else w - 1.

Definition convert_text (old fmt : list Z) (spec : printf_spec) (args : list arg) : option (list Z * list Z * printf_spec * list arg) :=
  match type spec with
  | FORMAT_TYPE_NONE => if (length fmt <=? length old)%nat then Some (take (length old - length fmt) old, fmt, spec, args) else None
  | FORMAT_TYPE_WIDTH => '(z, args) ← va_word args; Some ([], fmt, set_field_width spec (s32 z), args)
  | FORMAT_TYPE_PRECISION => '(z, args) ← va_word args; Some ([], fmt, set_precision spec (s32 z), args)
  | FORMAT_TYPE_PERCENT_CHAR | FORMAT_TYPE_INVALID => Some ([37], fmt, spec, args)
  | FORMAT_TYPE_NRCHARS => None
  | t =>
      if widths_okb spec then
        match t with
        | FORMAT_TYPE_CHAR => '(c, args) ← va_word args; Some (padded_text spec [wrap 8 c], fmt, set_field_width spec (char_width spec), args)
        | FORMAT_TYPE_STR =>
            '(s, args) ← va_word args;
            t ← (if s <? PAGE_SIZE then Some (string_text spec NULL_text) else t ← read_string lim rd s (u32 (precision spec)); Some (padded_text spec t));
            Some (t, fmt, spec, args)
        | FORMAT_TYPE_PTR =>
            '(p, args) ← va_word args;
            if (0 <=? p) && (p <? 2 ^ 32) then
              rest ← next fmt; t ← pointer_text rest p spec; Some (t, skip_alnum fmt, spec, args)
            else None
        | _ =>
            '(num, args) ← fetch_number t args;
            if (0 <=? num) && (num <? 2 ^ 64) && ((base spec =? 8) || (base spec =? 10) || (base spec =? 16)) then Some (number_output spec num, fmt, spec, args) else None
        end
      else None
  end.

Fixpoint format_text (fuel : nat) (fmt : list Z) (spec : printf_spec) (args : list arg) : option (list Z * list arg) :=
  if cur fmt =? 0 then Some ([], args)
  else
    match fuel with
    | O => None
    | S fuel =>
        '(spec, rest) ← format_decode fmt spec;
        '(t, rest, spec, args) ← convert_text fmt rest spec args;
        '(t', args) ← format_text fuel rest spec args;
        Some (t ++ t', args)
    end.

End text.

(** ** Printing a text *)

Lemma put_digits_write t m str e : 0 <= str -> e <= zlen m ->
  put_digits t m str e = (m' ← (if str <? e then write_bytes m str (take (Z.to_nat (if e - str <? zlen t then e - str else zlen t)) t) else Some m); Some (m', str + zlen t)).
Proof.
  intros H0 He. destruct (put_digits_ok t m str e H0 He) as (m1 & E & Hl & Hp). rewrite E. pose proof (zlen_nonneg t). destruct (Z.ltb_spec str e) as [Hlt|Hge].
  - set (n := if e - str <? zlen t then e - str else zlen t). assert (Hn : 0 <= n <= zlen t /\ n = Z.min (e - str) (zlen t)) by (unfold n; destruct (Z.ltb_spec (e - str) (zlen t)); lia).
    assert (Hz : zlen (take (Z.to_nat n) t) = n) by (apply zlen_take; lia). destruct (write_bytes_Some m str (take (Z.to_nat n) t)) as (m2 & E2 & L2 & W2); [done|lia|]. rewrite E2. cbn [mbind option_bind]. do 2 f_equal.
    apply znth_ext; [lia|]. intros i Hi. rewrite Hp, W2 by lia. rewrite Hz. zbool; try lia; try done. by rewrite znth_take by lia.
  - cbn [mbind option_bind]. do 2 f_equal. apply znth_ext; [done|]. intros i Hi. rewrite Hp by lia. zbool; done || lia.
Qed.

Lemma pad_char_eq m buf e fw : - 2 ^ 31 < fw < 2 ^ 31 ->
  pad_char (Z.to_nat (s32 (fw - 1))) m buf e fw = ('(m, buf) ← put_digits (fill (fw - 1) 32) m buf e; Some (m, buf, if 0 <? fw - 1 then 0 else fw - 1)).
Proof.
  intros Hf. rewrite s32_id by lia. unfold fill. remember (Z.to_nat (fw - 1)) as n eqn:En. revert m buf fw Hf En. induction n as [|n IH]; intros m buf fw Hf En; cbn [pad_char replicate put_digits]; cbv zeta; rewrite s32_id by lia.
  - by destruct (Z.ltb_spec 0 (fw - 1)); [lia|].
  - destruct (Z.ltb_spec 0 (fw - 1)); [|lia]. destruct (put_char m buf e 32) as [[m1 b1]|]; [|done]. cbn [mbind option_bind]. rewrite IH by lia.
    destruct (put_digits (replicate n 32) m1 b1 e) as [[m2 b2]|]; [|done]. cbn [mbind option_bind]. do 2 f_equal. destruct (Z.ltb_spec 0 (fw - 1 - 1)); lia.
Qed.

Lemma widths_okb_spec spec : widths_okb spec = true -> widths_ok spec.
Proof. unfold widths_okb, widths_ok. rewrite andb_true_iff, !Z.leb_le. done. Qed.

(** ** One conversion *)
Section convert.
Context (symbol : Z -> Z -> list Z) (lim : nat) (m m' : list Z) (lo e str : Z).
Hypotheses (Hsym : forall c v, Forall (fun x => x <> 0) (symbol c v)) (Hm : is_bytes m) (Ho : outside lo e m m') (Hlo : lo <= str) (H0 : 0 <= str) (He : e <= zlen m').

Lemma literal_eq t spec : Forall (fun x => x <> 0) t -> widths_ok spec -> string m' str e (Local (t ++ [0])) spec = put_digits (string_text spec t) m' str e.
Proof using H0 He. intros Ht Hw. apply local_string_eq; [|done|done|done]. split; [|done]. apply take_ge. rewrite length_app. simpl. lia. Qed.

Lemma pointer_eq fmt ptr spec t : 0 <= ptr < 2 ^ 32 -> widths_ok spec -> pointer_text symbol (reader m lo e) fmt ptr spec = Some t -> pointer symbol fmt m' str e ptr spec = put_digits t m' str e.
Proof using Hsym Hm Ho H0 He.
  intros Hp Hw Ht. unfold pointer_text, pointer in *. destruct (ptr =? 0); [injection Ht as <-; by apply literal_eq; [repeat constructor|]|]. cbv zeta in *. fold (pointer_spec spec).
  assert (Hplain : number m' str e ptr (pointer_spec spec) = put_digits (number_output (pointer_spec spec) ptr) m' str e).
  { apply number_ok; [simpl; lia|lia|]. destruct Hw. unfold pointer_spec. cbv zeta. destruct (field_width _ =? -1); split; simpl; lia. }
  set (c := cur fmt) in *. destruct ((c =? 70) || (c =? 102) || (c =? 115) || (c =? 83)); [injection Ht as <-; by apply literal_eq|]. destruct (c =? 82).
  { destruct (rd_word _ (ptr + 12)) as [fl|] eqn:E1; [|done]. destruct (rd_word _ ptr) as [st|] eqn:E2; [|done]. destruct (rd_word _ (ptr + 4)) as [en|] eqn:E3; [|done]. injection Ht as <-. by apply (resource_eq m m' lo e). }
  destruct ((c =? 77) || (c =? 109)). { destruct (rd_bytes _ ptr 6) as [bs|] eqn:E1; [|done]. injection Ht as <-. by apply (mac_address_eq m m' lo e). }
  destruct ((c =? 73) || (c =? 105)); [|injection Ht as <-; exact Hplain]. destruct (nth 1 fmt 0 =? 54).
  { destruct (rd_bytes _ ptr 16) as [bs|] eqn:E1; [|done]. injection Ht as <-. by apply (ip6_addr_eq m m' lo e). }
  destruct (nth 1 fmt 0 =? 52); [|injection Ht as <-; exact Hplain]. destruct (rd_bytes _ ptr 4) as [bs|] eqn:E1; [|done]. injection Ht as <-. by apply (ip4_addr_eq m m' lo e).
Qed.

Lemma char_eq c spec : widths_ok spec ->
  ('(m, str, fw) ← (if negb (flag (flags spec) LEFT) then pad_char (Z.to_nat (s32 (field_width spec - 1))) m' str e (field_width spec) else Some (m', str, field_width spec));
   '(m, str) ← put_char m str e c;
   '(m, str, fw) ← pad_char (Z.to_nat (s32 (fw - 1))) m str e fw; Some (m, str, fw)) =
  ('(m, str) ← put_digits (padded_text spec [c]) m' str e; Some (m, str, char_width spec)).
Proof using Type.
  intros [Hw _]. unfold padded_text, char_width. cbv zeta. change (zlen [c]) with 1. set (fw := field_width spec) in *. destruct (flag (flags spec) LEFT); cbn [negb mbind option_bind].
  - rewrite put_digits_app, put_char_digits. destruct (put_digits [c] m' str e) as [[m1 s1]|]; [|done]. cbn [mbind option_bind]. rewrite pad_char_eq by lia. by destruct (put_digits (fill _ 32) m1 s1 e) as [[? ?]|].
  - rewrite pad_char_eq, put_digits_app by lia. destruct (put_digits (fill _ 32) m' str e) as [[m1 s1]|]; [|done]. cbn [mbind option_bind]. rewrite put_char_digits. destruct (put_digits [c] m1 s1 e) as [[m2 s2]|]; [|done]. cbn [mbind option_bind].
    set (w := if 0 <? fw - 1 then 0 else fw - 1). assert (Hww : - 2 ^ 31 < w < 2 ^ 31 /\ w <= 0) by (unfold w; destruct (Z.ltb_spec 0 (fw - 1)); lia). rewrite pad_char_eq by lia. rewrite fill_neg by lia. cbn [put_digits mbind option_bind].
    destruct (Z.ltb_spec 0 (w - 1)); [lia|done].
Qed.

Lemma convert_eq buf old fmt spec args t rest spec' args' :
  convert_text symbol (reader m lo e) lim old fmt spec args = Some (t, rest, spec', args') ->
  convert symbol m' buf str e old fmt spec args = ('(m1, s1) ← put_digits t m' str e; Some (m1, s1, rest, spec', args')).
Proof using Hsym Hm Ho Hlo H0 He.
  unfold convert_text, convert. destruct (type spec) eqn:Et;
    try (intros H; destruct (widths_okb spec) eqn:Hw; [apply widths_okb_spec in Hw|discriminate H]; destruct (fetch_number _ args) as [[num args1]|] eqn:Ef; [|discriminate H]; cbn [mbind option_bind] in H |- *;
      destruct ((0 <=? num) && (num <? 2 ^ 64) && _) eqn:Hn; [|discriminate H]; injection H as <- <- <- <-; apply andb_true_iff in Hn as [[H1 H2]%andb_true_iff H3];
      rewrite (proj1 (number_ok m' str e num spec ltac:(rewrite !orb_true_iff, !Z.eqb_eq in H3; tauto) ltac:(lia) Hw)); done).
  - destruct (Nat.leb_spec (length fmt) (length old)) as [Hle|]; [|done]. intros H. injection H as <- <- <- <-. rewrite put_digits_write by done. set (T := take (length old - length fmt) old).
    assert (HT : zlen T = zlen old - zlen fmt) by (unfold T, zlen; rewrite length_take; lia). rewrite <- HT. destruct (str <? e); [|done]. set (n := if e - str <? zlen T then e - str else zlen T).
    assert (E : take (Z.to_nat n) old = take (Z.to_nat n) T). { unfold T. rewrite take_take. f_equal. unfold n. unfold zlen in *. destruct (Z.ltb_spec (e - str) (Z.of_nat (length T))); lia. }
    rewrite E. by destruct (write_bytes m' str (take (Z.to_nat n) T)).
  - destruct (va_word args) as [[z a]|]; [|done]. intros H. injection H as <- <- <- <-. done.
  - destruct (va_word args) as [[z a]|]; [|done]. intros H. injection H as <- <- <- <-. done.
  - intros H. destruct (widths_okb spec) eqn:Hw; [apply widths_okb_spec in Hw|done]. destruct (va_word args) as [[c a]|]; [|done]. injection H as <- <- <- <-. pose proof (char_eq (wrap 8 c) spec Hw) as Hc. cbv zeta. cbn [mbind option_bind] in *.
    destruct (if negb (flag (flags spec) LEFT) then _ else _) as [[[m1 s1] f1]|]; [|by destruct (put_digits (padded_text spec [wrap 8 c]) m' str e) as [[? ?]|]]. cbn [mbind option_bind] in *.
    destruct (put_char m1 s1 e (wrap 8 c)) as [[m2 s2]|]; [|by destruct (put_digits (padded_text spec [wrap 8 c]) m' str e) as [[? ?]|]]. cbn [mbind option_bind] in *.
    destruct (pad_char _ m2 s2 e f1) as [[[m3 s3] f3]|]; destruct (put_digits (padded_text spec [wrap 8 c]) m' str e) as [[m4 s4]|]; try done. cbn [mbind option_bind] in *. injection Hc as -> -> ->. done.
  - intros H. destruct (widths_okb spec) eqn:Hw; [apply widths_okb_spec in Hw|done]. destruct (va_word args) as [[s a]|]; [|done]. cbn [mbind option_bind] in *. destruct (Z.ltb_spec s PAGE_SIZE) as [Hs|Hs].
    + cbn [mbind option_bind] in H. injection H as <- <- <- <-. by rewrite null_string_eq.
    + destruct (read_string lim _ s _) as [t'|] eqn:Er; [|done]. cbn [mbind option_bind] in H. injection H as <- <- <- <-. by rewrite (mem_string_eq m lo e m' str lim s t' spec).
  - intros H. destruct (widths_okb spec) eqn:Hw; [apply widths_okb_spec in Hw|done]. destruct (va_word args) as [[p a]|]; [|done]. cbn [mbind option_bind] in *. destruct ((0 <=? p) && (p <? 2 ^ 32)) eqn:Hp; [|done].
    destruct (next fmt) as [r|]; [|done]. cbn [mbind option_bind] in *. destruct (pointer_text _ _ r p spec) as [t'|] eqn:Er; [|done]. injection H as <- <- <- <-. apply andb_true_iff in Hp as [? ?]. by rewrite (pointer_eq r p spec t') by (done || lia).
  - intros H. injection H as <- <- <- <-. by rewrite put_char_digits.
  - intros H. injection H as <- <- <- <-. by rewrite put_char_digits.
  - done.
Qed.

End convert.

(** ** The loop *)

Lemma vsn_loop_eq symbol lim m lo e buf :
  (forall c v, Forall (fun x => x <> 0) (symbol c v)) -> is_bytes m -> e <= zlen m ->
  forall fuel m' str fmt spec args T args', outside lo e m m' -> lo <= str -> 0 <= str ->
  format_text symbol (reader m lo e) lim fuel fmt spec args = Some (T, args') ->
  exists m1 s1, put_digits T m' str e = Some (m1, s1) /\ vsn_loop symbol fuel m' buf str e fmt spec args = Ended (m1, s1, args').
Proof.
  intros Hsym Hm He. induction fuel as [|fuel IH]; intros m' str fmt spec args T args' Ho Hlo H0 H; cbn [format_text vsn_loop] in *; (destruct (cur fmt =? 0); [injection H as <- <-; by exists m', str|]); [done|].
  destruct (format_decode fmt spec) as [[spec1 rest]|]; [|done]. cbn [mbind option_bind] in *. destruct (convert_text symbol _ lim fmt rest spec1 args) as [[[[t r] spec2] args2]|] eqn:Ec; [|done]. cbn [mbind option_bind] in H.
  destruct (format_text symbol _ lim fuel r spec2 args2) as [[t' args3]|] eqn:Ef; [|done]. injection H as <- <-. assert (He' : e <= zlen m') by (destruct Ho as [-> _]; done).
  rewrite (convert_eq symbol lim m m' lo e str Hsym Hm Ho Hlo H0 He' buf fmt rest spec1 args t r spec2 args2 Ec). rewrite put_digits_app. destruct (put_digits_ok t m' str e H0 He') as (m1 & E1 & P1). rewrite E1. cbn [mbind option_bind].
  pose proof (zlen_nonneg t). apply (IH m1 (str + zlen t) r spec2 args2 t' args3); [|lia|lia|done]. eapply outside_trans; [exact Ho|]. by apply (outside_printed lo e m' str t).
Qed.

(** ** Termination *)

(** What [format_decode] leaves is shorter, unless it continues a conversion. *)
Definition pending (spec : printf_spec) : bool := match type spec with FORMAT_TYPE_WIDTH | FORMAT_TYPE_PRECISION => true | _ => false end.



















Lemma vsnprintf_ok symbol lim m buf size fmt args T args' :
  (forall c v, Forall (fun x => x <> 0) (symbol c v)) -> is_bytes m -> zlen m < 2 ^ 32 -> 0 <= buf -> 0 <= size < 2 ^ 31 -> buf + size <= zlen m ->
  format_text symbol (reader m buf (buf + size)) lim (2 * length fmt) fmt spec0 args = Some (T, args') -> zlen T < 2 ^ 31 ->
  exists m', vsnprintf symbol m buf size fmt args = Some (m', zlen T, args') /\
    if size =? 0 then m' = m else write_bytes m buf (clip (size - 1) T ++ [0]) = Some m'.
Proof.
  intros Hsym Hm Hz H0 Hs Hb HT HTl. unfold vsnprintf. rewrite s32_id by lia. destruct (Z.ltb_spec size 0); [lia|]. rewrite (u32_id (buf + size)) by (unfold is_u32; lia). destruct (Z.ltb_spec (buf + size) buf); [lia|]. cbv iota beta.
  destruct (vsn_loop_eq symbol lim m buf (buf + size) buf Hsym Hm Hb (2 * length fmt) m buf fmt spec0 args T args' (outside_refl _ _ _) ltac:(lia) H0 HT) as (m1' & s1 & Ep & ->).
  destruct (put_digits_ok T m buf (buf + size) H0 Hb) as (m1 & E1 & L1 & P1). rewrite E1 in Ep. injection Ep as <- <-. cbn [mbind option_bind]. pose proof (zlen_nonneg T). rewrite (s32_id (buf + zlen T - buf)) by lia. replace (buf + zlen T - buf) with (zlen T) by lia.
  destruct (Z.eqb_spec size 0) as [->|Hne].
  - exists m1. split; [done|]. apply znth_ext; [done|]. intros i Hi. rewrite P1 by lia. zbool; done || lia.
  - destruct (Z.ltb_spec 0 size); [|lia]. set (k := Z.min (zlen T) (size - 1)). assert (Hk : (if buf + zlen T <? buf + size then store_byte m1 (buf + zlen T) 0 else store_byte m1 (buf + size - 1) 0) = store_byte m1 (buf + k) 0).
    { unfold k. destruct (Z.ltb_spec (buf + zlen T) (buf + size)); f_equal; lia. }
    rewrite Hk. destruct (write_bytes_Some m1 (buf + k) [0]) as (m2 & E2 & L2 & W2); [lia|change (zlen [0]) with 1; lia|]. unfold store_byte. rewrite E2. cbn [mbind option_bind]. exists m2. split; [done|].
    assert (Hc : zlen (clip (size - 1) T) = k) by (rewrite clip_zlen; lia). destruct (write_bytes_Some m buf (clip (size - 1) T ++ [0])) as (m3 & E3 & L3 & W3); [done|rewrite zlen_app, Hc; change (zlen [0]) with 1; lia|].
    rewrite E3. f_equal. apply znth_ext; [lia|]. intros i Hi. rewrite W2, W3 by lia. rewrite zlen_app, Hc. change (zlen [0]) with 1. destruct (Z.eq_dec i (buf + k)) as [->|Hik].
    + zbool; try lia. replace (buf + k - (buf + k)) with 0 by lia. replace (buf + k - buf) with k by lia. rewrite znth_app_r by lia. by rewrite Hc, Z.sub_diag.
    + rewrite P1 by lia. zbool; try lia; try done. rewrite znth_app_l by lia. by rewrite clip_znth by lia.
Qed.

(** [vscnprintf] and [scnprintf] print the same and return the number of characters in
    the buffer in front of the NUL.  With no room they return -1 (their comment says 0). *)
Theorem vscnprintf_correct symbol lim m buf size fmt args T args' :
  (forall c v, Forall (fun x => x <> 0) (symbol c v)) -> is_bytes m -> zlen m < 2 ^ 32 -> 0 <= buf -> 0 <= size < 2 ^ 31 -> buf + size <= zlen m ->
  format_text symbol (reader m buf (buf + size)) lim (2 * length fmt) fmt spec0 args = Some (T, args') -> zlen T < 2 ^ 31 ->
  exists m', let n := if size =? 0 then -1 else zlen (clip (size - 1) T) in
    vscnprintf symbol m buf size fmt args = Some (m', n, args') /\ scnprintf symbol m buf size fmt args = Some (m', n) /\
    if size =? 0 then m' = m else write_bytes m buf (clip (size - 1) T ++ [0]) = Some m'.
Proof.
  intros Hsym Hm Hz H0 Hs Hb HT HTl. destruct (vsnprintf_ok symbol lim m buf size fmt args T args' Hsym Hm Hz H0 Hs Hb HT HTl) as (m' & E & Hw). exists m'. intros n. unfold vscnprintf, scnprintf. rewrite E. cbn [mbind option_bind].
  pose proof (zlen_nonneg T). rewrite (u32_id (zlen T)) by (unfold is_u32; lia). rewrite (s32_id (size - 1)) by lia. assert (En : (if size <=? zlen T then size - 1 else zlen T) = n).
  { unfold n. destruct (Z.eqb_spec size 0) as [->|Hne]; [destruct (Z.leb_spec 0 (zlen T)); lia|]. rewrite clip_zlen by lia. destruct (Z.leb_spec size (zlen T)); lia. }
  rewrite En. done.
Qed.

Lemma vscnprintf_correct_witness :
  let m := replicate 4 1 in
  (exists m', vscnprintf (fun _ _ => []) m 1 3 [97; 98; 99] [] = Some (m', 2, []) /\ scnprintf (fun _ _ => []) m 1 3 [97; 98; 99] [] = Some (m', 2) /\ write_bytes m 1 [97; 98; 0] = Some m') /\
  exists m', vscnprintf (fun _ _ => []) m 1 0 [97; 98; 99] [] = Some (m', -1, []) /\ scnprintf (fun _ _ => []) m 1 0 [97; 98; 99] [] = Some (m', -1) /\ m' = m.
Proof.
  intros m. assert (Hb : is_bytes m) by (by apply Forall_replicate). split.
  - apply (vscnprintf_correct (fun _ _ => []) 8 m 1 3 [97; 98; 99] [] [97; 98; 99] []); try done.
  - apply (vscnprintf_correct (fun _ _ => []) 8 m 1 0 [97; 98; 99] [] [97; 98; 99] []); try done.
Defined.

(** "ab%n" stores 2 where the argument points, although the comment says that [%n] is
    ignored. *)
Lemma percent_n_stores : vsnprintf (fun _ _ => []) (replicate 8 1) 0 4 [97; 98; 37; 110] [Word 4] = Some ([97; 98; 0; 1; 2; 0; 0; 0], 2, []).
Proof. reflexivity. Qed.

(** ** Conversions as they are written *)

(** What may stand between [%] and the conversion character, and the [printf_spec] for it *)
Definition flag_value (c : Z) : Z := default 0 (flag_of c).
Definition all_flags (fs : list Z) : Z := fold_left (fun fl c => Z.lor fl (flag_value c)) fs 0.
Definition number_of (n : Z) : list Z := rev (List.map (fun d => d + 48) (digits_of 10 10 n)).
Definition width_of (w : option Z) : list Z := match w with Some n => number_of n | None => [] end.
Definition precision_of (p : option Z) : list Z := match p with Some n => 46 :: number_of n | None => [] end.

Definition qualifiers : list (list Z * Z) :=
  [([], -1); ([104], 104); ([104; 104], 72); ([108], 108); ([108; 108], 76); ([76], 76); ([90], 90); ([122], 122); ([116], 116)].

(** A character that ends the part before it: no digit, point, star or qualifier *)
Definition ends (c : Z) : bool := negb (isdigit c) && negb (existsb (fun x => c =? x) [46; 42; 104; 108; 76; 90; 122; 116]).

Lemma horner_ge es : forall i, 0 <= i -> Forall (fun d => 0 <= d < 10) es -> i <= horner 10 i es.
Proof. induction es as [|d es IH]; intros i Hi H; [done|]. apply Forall_cons in H as [Hd H]. unfold horner in *. cbn [fold_left]. specialize (IH (i * 10 + d) ltac:(lia) H). lia. Qed.

Lemma isdigit_digit d : 0 <= d < 10 -> isdigit (d + 48) = true.
Proof. intros Hd. apply (all_below_spec 10 (fun d => isdigit (d + 48))); [reflexivity|lia]. Qed.

Lemma skip_atoi_digits tail es : isdigit (cur tail) = false -> forall i, 0 <= i -> Forall (fun d => 0 <= d < 10) es -> horner 10 i es < 2 ^ 31 -> skip_atoi (List.map (fun d => d + 48) es ++ tail) i = (horner 10 i es, tail).
Proof.
  intros Ht. induction es as [|d es IH]; intros i Hi H Hh.
  - cbn [List.map app]. destruct tail as [|c t]; [done|]. cbn [skip_atoi]. unfold cur in Ht. simpl in Ht. by rewrite Ht.
  - apply Forall_cons in H as [Hd H]. cbn [List.map app skip_atoi]. rewrite isdigit_digit by done. replace (i * 10 + (d + 48) - 48) with (i * 10 + d) by lia. unfold horner in *. cbn [fold_left] in *.
    pose proof (horner_ge es (i * 10 + d) ltac:(lia) H) as Hg. unfold horner in Hg. rewrite s32_id by lia. apply IH; [lia|done|done].
Qed.

Lemma number_of_ok n : 0 <= n < 2 ^ 31 -> exists d es, number_of n = List.map (fun d => d + 48) (d :: es) /\ Forall (fun d => 0 <= d < 10) (d :: es) /\ horner 10 0 (d :: es) = n /\ (0 < n -> d <> 0).
Proof.
  intros Hn. destruct (put_dec_ok 2 [] n ltac:(simpl; lia) ltac:(lia)) as (ds & _ & Hd & Hl). unfold number_of. rewrite (digits_of_numeral 10 ltac:(lia) 10 ds n Hd) by (unfold zlen in Hl; simpl in Hl; lia).
  destruct (rev_numeral 10 ds n Hd) as (d & es & E & Hf & Hz). exists d, es. rewrite <- List.map_rev, E. split; [done|]. split; [done|]. rewrite <- E, horner_rev. apply numeral_spec in Hd as (_ & Hv & _). split; [done|].
  intros Hp ->. rewrite (Hz eq_refl) in E. rewrite <- horner_rev, E in Hv. simpl in Hv. lia.
Qed.

Lemma skip_number tail n : 0 <= n < 2 ^ 31 -> isdigit (cur tail) = false -> skip_atoi (number_of n ++ tail) 0 = (n, tail) /\ isdigit (cur (number_of n ++ tail)) = true.
Proof.
  intros Hn Ht. destruct (number_of_ok n Hn) as (d & es & -> & Hf & Hh & _). split; [rewrite (skip_atoi_digits tail _ Ht 0) by (done || lia); by rewrite Hh|]. unfold cur. simpl. apply isdigit_digit. by apply Forall_cons in Hf as [? _].
Qed.

Lemma skip_flags_cons x t fl : skip_flags (x :: t) fl = match flag_of (cur t) with Some f => skip_flags t (Z.lor fl f) | None => Some (fl, t) end.
Proof. done. Qed.

Lemma skip_flags_app tail fs : flag_of (cur tail) = None -> Forall (fun c => flag_of c <> None) fs -> forall x fl, skip_flags (x :: fs ++ tail) fl = Some (fold_left (fun fl c => Z.lor fl (flag_value c)) fs fl, tail).
Proof.
  intros Ht Hf. induction Hf as [|c fs Hc Hf IH]; intros x fl; cbn [app]; rewrite skip_flags_cons; [by rewrite Ht|]. change (cur (c :: fs ++ tail)) with c. destruct (flag_of c) as [f|] eqn:E; [|done]. rewrite IH. cbn [fold_left]. replace (flag_value c) with f by (unfold flag_value; by rewrite E). done.
Qed.

Lemma decode_qualifier_of q v tail spec : In (q, v) qualifiers -> ends (cur tail) = true -> decode_qualifier (q ++ tail) spec = decode_conversion tail (set_qualifier spec v).
Proof.
  intros Hq He. unfold ends in He. rewrite andb_true_iff, !negb_true_iff in He. destruct He as [_ He]. cbn [existsb] in He. rewrite !orb_false_iff in He. destruct He as (H1 & H2 & H3 & H4 & H5 & H6 & H7 & H8 & _).
  assert (G : forall x, (cur tail =? x) = false -> (x =? cur tail) = false) by (intros x Hx; by rewrite Z.eqb_sym). unfold decode_qualifier. set (c := cur tail) in *.
  cbn [qualifiers In] in Hq. repeat (destruct Hq as [Hq|Hq]); try done; injection Hq as <- <-; cbn [app]; cbv zeta; [fold c; rewrite H3, H4, H5, H6, H7, H8; reflexivity|..]; cbn [next mbind option_bind]; repeat match goal with |- context [cur (?x :: ?t)] => change (cur (x :: t)) with x end; fold c;
    try (rewrite (G _ H3) || rewrite (G _ H4) || rewrite (G _ H5) || rewrite (G _ H6) || rewrite (G _ H7) || rewrite (G _ H8)); reflexivity.
Qed.

Lemma decode_precision_of p q v tail spec : match p with Some n => 0 <= n < 2 ^ 31 | None => True end -> In (q, v) qualifiers -> ends (cur tail) = true ->
  decode_precision (precision_of p ++ q ++ tail) spec = decode_conversion tail (set_qualifier (set_precision spec (default (-1) p)) v).
Proof.
  intros Hp Hq He. assert (Hcq : isdigit (cur (q ++ tail)) = false /\ (cur (q ++ tail) =? 46) = false).
  { unfold ends in He. rewrite andb_true_iff, !negb_true_iff in He. destruct He as [Hd He]. cbn [existsb] in He. rewrite !orb_false_iff in He. destruct He as (H1 & _). cbn [qualifiers In] in Hq.
    repeat (destruct Hq as [Hq|Hq]); try done; injection Hq as <- <-; done. }
  unfold decode_precision. cbv zeta. destruct p as [n|]; cbn [precision_of app default].
  - change (cur (46 :: number_of n ++ q ++ tail)) with 46. change (46 =? 46) with true. cbn [next mbind option_bind]. destruct (skip_number (q ++ tail) n Hp (proj1 Hcq)) as [E ->]. rewrite E. cbv iota beta. destruct (Z.ltb_spec n 0); [lia|]. by apply decode_qualifier_of.
  - rewrite (proj2 Hcq). by apply decode_qualifier_of.
Qed.

(** What follows the width neither continues it nor is a star. *)
Lemma after_width p q v tail : In (q, v) qualifiers -> ends (cur tail) = true -> flag_of (cur tail) = None ->
  let t := precision_of p ++ q ++ tail in isdigit (cur t) = false /\ (cur t =? 42) = false /\ flag_of (cur t) = None.
Proof.
  intros Hq He Hf. unfold ends in He. rewrite andb_true_iff, !negb_true_iff in He. destruct He as [Hd He]. cbn [existsb] in He. rewrite !orb_false_iff in He. destruct He as (_ & H2 & _). cbn [qualifiers In] in Hq.
  destruct p as [n|]; [done|]. repeat (destruct Hq as [Hq|Hq]); try done; injection Hq as <- <-; done.
Qed.

Lemma decode_token_percent t spec : decode_token (37 :: t) spec = ('(fl, t) ← skip_flags (37 :: t) 0;
  let spec := set_field_width (set_flags (set_type spec FORMAT_TYPE_NONE) fl) (-1) in
  if isdigit (cur t) then let '(w, t) := skip_atoi t 0 in decode_precision t (set_field_width spec w)
  else if cur t =? 42 then t ← next t; Some (set_type spec FORMAT_TYPE_WIDTH, t) else decode_precision t spec).
Proof. unfold decode_token. cbv zeta. cbn [skip_text]. change (37 =? 37) with true. cbv iota. rewrite Nat.eqb_refl. done. Qed.

Lemma format_decode_token fmt spec : pending spec = false -> format_decode fmt spec = decode_token fmt spec.
Proof. unfold pending, format_decode. by destruct (type spec). Qed.

Lemma skip_text_app txt rest : Forall (fun c => c <> 37) txt -> rest = [] \/ cur rest = 37 -> skip_text (txt ++ rest) = rest.
Proof.
  intros Ht Hr. induction Ht as [|c txt Hc Ht IH]; cbn [app].
  - destruct Hr as [-> | Hr]; [done|]. destruct rest as [|c r]; [done|]. cbn [skip_text]. change (cur (c :: r)) with c in Hr. by rewrite Hr.
  - cbn [skip_text]. destruct (Z.eqb_spec c 37); done.
Qed.

(** [format_decode] takes a format apart: text up to the next [%] is one token; of a
    conversion, the flags, the width, the precision and the qualifier are what is written,
    whatever combination of them is there, and the conversion character and what follows
    are left to be decoded with them; a width of [*] ends the token, for the width to be
    fetched. *)
Theorem format_decode_correct txt rest fs w p q v tail spec :
  pending spec = false -> Forall (fun c => c <> 37) txt -> txt <> [] -> rest = [] \/ cur rest = 37 ->
  Forall (fun c => flag_of c <> None) fs -> match w with Some n => 0 < n < 2 ^ 31 | None => True end -> match p with Some n => 0 <= n < 2 ^ 31 | None => True end ->
  In (q, v) qualifiers -> ends (cur tail) = true -> flag_of (cur tail) = None ->
  format_decode (txt ++ rest) spec = Some (set_type spec FORMAT_TYPE_NONE, rest) /\
  format_decode (37 :: fs ++ width_of w ++ precision_of p ++ q ++ tail) spec =
    decode_conversion tail (mkspec FORMAT_TYPE_NONE (all_flags fs) (default (-1) w) (base spec) (default (-1) p) v) /\
  format_decode (37 :: fs ++ 42 :: tail) spec = Some (mkspec FORMAT_TYPE_WIDTH (all_flags fs) (-1) (base spec) (precision spec) (qualifier spec), tail).
Proof.
  intros Hpd Htxt Hne Hrest Hfs Hw Hp Hq He Hf. rewrite !format_decode_token, !decode_token_percent by done. split; [|split].
  - unfold decode_token. cbv zeta. rewrite skip_text_app by done. assert (E : (length rest =? length (txt ++ rest))%nat = false) by (apply Nat.eqb_neq; rewrite length_app; destruct txt; [done|simpl; lia]). by rewrite E.
  - destruct (after_width p q v tail Hq He Hf) as (Ht1 & Ht2 & Ht3). destruct w as [n|]; cbn [width_of default].
    + destruct (number_of_ok n ltac:(lia)) as (d & es & En & Hde & _ & Hnz). specialize (Hnz ltac:(lia)). apply Forall_cons in Hde as [Hd _].
      assert (Hfl : flag_of (cur (number_of n ++ precision_of p ++ q ++ tail)) = None) by (rewrite En; change (cur _) with (d + 48); unfold flag_of; zbool; done || (exfalso; lia)).
      rewrite skip_flags_app by done. cbn [mbind option_bind]. cbv zeta. destruct (skip_number (precision_of p ++ q ++ tail) n ltac:(lia) Ht1) as [E ->]. rewrite E. cbv iota beta. by rewrite (decode_precision_of p q v tail).
    + cbn [app]. rewrite skip_flags_app by done. cbn [mbind option_bind]. cbv zeta. rewrite Ht1, Ht2. by rewrite (decode_precision_of p q v tail).
  - rewrite skip_flags_app by done. cbn [mbind option_bind]. done.
Qed.

(** "%-+5.2lld" behind the text "ab" *)
Lemma format_decode_correct_witness :
  format_decode [97; 98; 37; 100] spec0 = Some (spec0, [37; 100]) /\
  format_decode [37; 45; 43; 53; 46; 50; 108; 108; 100] spec0 = Some (mkspec FORMAT_TYPE_LONG_LONG (LEFT + PLUS + SIGN) 5 10 2 76, []) /\
  format_decode [37; 45; 43; 42; 100] spec0 = Some (mkspec FORMAT_TYPE_WIDTH (LEFT + PLUS) (-1) 0 0 0, [100]).
Proof.
  apply (format_decode_correct [97; 98] [37; 100] [45; 43] (Some 5) (Some 2) [108; 108] 76 [100] spec0); try done; try lia; try (by right); try (by repeat constructor).
Defined.

(** "%zd" of -1: the argument is fetched as a [size_t] and prints as 4294967295. *)
Lemma percent_zd_unsigned :
  vsnprintf (fun _ _ => []) (replicate 12 1) 0 12 [37; 122; 100] [Word (2 ^ 32 - 1)] = Some ([52; 50; 57; 52; 57; 54; 55; 50; 57; 53; 0; 1], 10, []).
Proof. reflexivity. Qed.


Lemma format_step symbol rd lim fuel fmt spec args spec' rest t rest' spec'' args' t' args'' : (cur fmt =? 0) = false -> format_decode fmt spec = Some (spec', rest) -> convert_text symbol rd lim fmt rest spec' args = Some (t, rest', spec'', args') ->
  format_text symbol rd lim fuel rest' spec'' args' = Some (t', args'') -> format_text symbol rd lim (S fuel) fmt spec args = Some (t ++ t', args'').
Proof. intros H1 H2 H3 H4. cbn [format_text]. rewrite H1, H2. cbn [mbind option_bind]. rewrite H3. cbn [mbind option_bind]. rewrite H4. done. Qed.

(** A string of the memory read by [rd] *)
Lemma read_cstr rd m s : forall a lim n, cstr m a s -> (forall x v, a <= x <= a + zlen s -> load_byte m x = Some v -> rd x = Some v) -> (length s < lim)%nat -> zlen s < n -> read_string lim rd a n = Some s.
Proof.
  induction s as [|c s IH]; intros a lim n Hc Hrd Hl Hn; (destruct lim as [|lim]; [simpl in Hl; lia|]); cbn [read_string cstr] in *.
  - change (zlen []) with 0 in *. destruct (Z.eqb_spec n 0); [lia|]. rewrite (Hrd a 0) by (lia || done). done.
  - rewrite zlen_cons in *. pose proof (zlen_nonneg s). destruct Hc as (Ha & Hc0 & Hc). destruct (Z.eqb_spec n 0); [lia|]. rewrite (Hrd a c) by (lia || done). cbn [mbind option_bind]. destruct (Z.eqb_spec c 0); [done|].
    rewrite (IH (a + 1) lim (n - 1)); [done|done|intros x v Hx; apply Hrd; lia|simpl in Hl; lia|lia].
Qed.

(** ** Printing piece by piece *)

Lemma clip_nil n : clip n [] = [].
Proof. unfold clip. destruct (zlen [] <=? n); [done|apply take_nil]. Qed.

Lemma clip_app n t u : 0 <= n -> clip n (t ++ u) = clip n t ++ clip (n - zlen (clip n t)) u.
Proof.
  intros Hn. rewrite clip_zlen by lia. unfold clip. rewrite zlen_app. pose proof (zlen_nonneg t). pose proof (zlen_nonneg u). destruct (Z.leb_spec (zlen t) n) as [Ht|Ht].
  - rewrite Z.min_l by lia. destruct (Z.leb_spec (zlen t + zlen u) n), (Z.leb_spec (zlen u) (n - zlen t)); try lia; [done|]. rewrite take_app_ge by (unfold zlen in *; lia). do 2 f_equal. unfold zlen. lia.
  - destruct (Z.leb_spec (zlen t + zlen u) n); [lia|]. rewrite Z.min_r, Z.sub_diag by lia. rewrite take_app_le by (unfold zlen in *; lia). destruct (Z.leb_spec (zlen u) 0); [assert (u = []) as -> by (destruct u; [done|unfold zlen in *; simpl in *; lia])|]; by rewrite app_nil_r.
Qed.

Lemma write_over m0 buf A m B m' : write_bytes m0 buf (A ++ [0]) = Some m -> write_bytes m (buf + zlen A) (B ++ [0]) = Some m' -> write_bytes m0 buf (A ++ B ++ [0]) = Some m'.
Proof.
  intros H1 H2. apply write_bytes_inv in H1 as (H0 & Hl & Hm & W1). apply write_bytes_inv in H2 as (_ & Hl2 & Hm2 & W2). rewrite !zlen_app in *. change (zlen [0]) with 1 in *. pose proof (zlen_nonneg A). pose proof (zlen_nonneg B).
  destruct (write_bytes_Some m0 buf (A ++ B ++ [0])) as (m2 & E & L & W); [done|rewrite !zlen_app; change (zlen [0]) with 1; lia|]. rewrite E. f_equal. apply znth_ext; [lia|]. intros i Hi. rewrite W, W2, W1 by lia. rewrite !zlen_app. change (zlen [0]) with 1. zbool; try lia; try done; first [rewrite znth_app_r by lia; f_equal; lia|by rewrite !znth_app_l by lia].
Qed.

(** [T] has been printed into the buffer, as far as it fits. *)
Definition shown (m0 : list Z) (buf buflen : Z) (T m : list Z) (len : Z) : Prop := write_bytes m0 buf (clip (buflen - 1) T ++ [0]) = Some m /\ len = zlen (clip (buflen - 1) T).

Section shown.
Context (symbol : Z -> Z -> list Z) (Hsym : forall c v, Forall (fun x => x <> 0) (symbol c v)).
Context (m0 : list Z) (buf buflen : Z).
Hypotheses (Hm0 : is_bytes m0) (Hz : zlen m0 < 2 ^ 32) (Hbuf : 0 <= buf) (Hlen : 1 <= buflen < 2 ^ 31) (Hroom : buf + buflen <= zlen m0).

Lemma shown_len T m len : shown m0 buf buflen T m len -> 0 <= len <= buflen - 1 /\ zlen m = zlen m0.
Proof using Hlen. intros [H ->]. apply write_bytes_inv in H as (_ & _ & Hm & _). rewrite clip_zlen by lia. pose proof (zlen_nonneg T). lia. Qed.

Lemma shown_bytes T m len : Forall (fun c => 0 < c < 256) T -> shown m0 buf buflen T m len -> is_bytes m.
Proof using Hm0.
  intros HT [H _]. unfold write_bytes in H. destruct (in_bounds m0 buf _); [|done]. injection H as <-. unfold is_bytes in *. rewrite !Forall_app. split; [by apply Forall_take|]. split; [|by apply Forall_drop]. split; [|repeat constructor; lia].
  apply (Forall_impl (fun c => 0 < c < 256)); [|intros c Hc; simpl; lia]. unfold clip. destruct (zlen T <=? buflen - 1); [done|by apply Forall_take].
Qed.

Lemma shown_next T m len fmt args U args' lim : Forall (fun c => 0 < c < 256) T -> shown m0 buf buflen T m len ->
  format_text symbol (reader m (buf + len) (buf + len + (buflen - len))) lim (2 * length fmt) fmt spec0 args = Some (U, args') -> zlen U < 2 ^ 31 ->
  exists m' n, scnprintf symbol m (buf + len) (u32 (buflen - len)) fmt args = Some (m', n) /\ shown m0 buf buflen (T ++ U) m' (len + n).
Proof using All.
  intros HT Hs HU HUl. destruct (shown_len T m len Hs) as [Hl Hml]. rewrite u32_id by (unfold is_u32; lia).
  destruct (vscnprintf_correct symbol lim m (buf + len) (buflen - len) fmt args U args' Hsym (shown_bytes T m len HT Hs) ltac:(lia) ltac:(lia) ltac:(lia) ltac:(lia) HU HUl) as (m' & _ & E & Hw).
  destruct (Z.eqb_spec (buflen - len) 0); [lia|]. eexists m', _. split; [exact E|]. destruct Hs as [Hs Hle]. assert (Hc : clip (buflen - 1) (T ++ U) = clip (buflen - 1) T ++ clip (buflen - len - 1) U) by (rewrite clip_app by lia; rewrite <- Hle; do 2 f_equal; lia). unfold shown. rewrite Hc. split.
  - rewrite <- app_assoc. subst len. eapply write_over; [exact Hs|exact Hw].
  - rewrite zlen_app, <- Hle. done.
Qed.

Lemma shown_s32 T m len : shown m0 buf buflen T m len -> shown m0 buf buflen T m (s32 len).
Proof using Hlen. intros Hs. destruct (shown_len T m len Hs) as [Hl _]. by rewrite s32_id by lia. Qed.

Lemma shown_step T m len fmt args U args' lim : Forall (fun c => 0 < c < 256) T -> shown m0 buf buflen T m len ->
  format_text symbol (reader m (buf + len) (buf + len + (buflen - len))) lim (2 * length fmt) fmt spec0 args = Some (U, args') -> zlen U < 2 ^ 31 ->
  exists m' n, scnprintf symbol m (buf + len) (u32 (buflen - len)) fmt args = Some (m', n) /\ shown m0 buf buflen (T ++ U) m' (s32 (len + n)).
Proof using All. intros HT Hs HU HUl. destruct (shown_next T m len fmt args U args' lim HT Hs HU HUl) as (m' & n & E & Hs'). exists m', n. split; [done|by apply shown_s32]. Qed.

(** The first piece: nothing is in the buffer before it. *)
Lemma shown_first fmt args U args' lim :
  format_text symbol (reader m0 (buf + 0) (buf + 0 + (buflen - 0))) lim (2 * length fmt) fmt spec0 args = Some (U, args') -> zlen U < 2 ^ 31 ->
  exists m' n, scnprintf symbol m0 (buf + 0) (u32 (buflen - 0)) fmt args = Some (m', n) /\ shown m0 buf buflen U m' (0 + n).
Proof using All.
  rewrite Z.add_0_r, Z.sub_0_r, u32_id by (unfold is_u32; lia). intros HU HUl. destruct (vscnprintf_correct symbol lim m0 buf buflen _ _ _ _ Hsym Hm0 ltac:(lia) ltac:(lia) ltac:(lia) ltac:(lia) HU HUl) as (m' & _ & E & Hwr).
  destruct (Z.eqb_spec buflen 0); [lia|]. eexists m', _. split; [exact E|]. split; [exact Hwr|]. by rewrite Z.add_0_l.
Qed.

(** Nothing yet, or [T], has been printed. *)
Definition printed (T m : list Z) (len : Z) : Prop := (T = [] /\ m = m0 /\ len = 0) \/ shown m0 buf buflen T m len.

Lemma printed_step T m len fmt args U args' lim : Forall (fun c => 0 < c < 256) T -> printed T m len ->
  format_text symbol (reader m (buf + len) (buf + len + (buflen - len))) lim (2 * length fmt) fmt spec0 args = Some (U, args') -> zlen U < 2 ^ 31 ->
  exists m' n, scnprintf symbol m (buf + len) (u32 (buflen - len)) fmt args = Some (m', n) /\ shown m0 buf buflen (T ++ U) m' (len + n).
Proof using All. intros HT [(-> & -> & ->)|Hs]; [apply shown_first|by apply shown_next]. Qed.

(** What is outside the buffer is read as it was. *)
Lemma printed_load T m len x v : printed T m len -> load_byte m0 x = Some v -> x < buf \/ buf + buflen <= x -> reader m (buf + len) (buf + len + (buflen - len)) x = Some v.
Proof using Hlen.
  intros Hs Hx Hout. unfold reader. destruct ((buf + len <=? x) && (x <? buf + len + (buflen - len))) eqn:E.
  - apply andb_true_iff in E as [E1 E2]. destruct Hs as [(_ & _ & ->)|Hs]; [lia|]. destruct (shown_len T m len Hs). lia.
  - destruct Hs as [(_ & -> & _)|Hs]; [done|]. destruct (shown_len T m len Hs) as [Hl Hm]. destruct Hs as [Hs Hle]. apply write_bytes_inv in Hs as (_ & Hb & _ & W). apply load_byte_Some in Hx as [Hx Hv]. apply load_byte_Some. split; [lia|]. rewrite W by lia. rewrite zlen_app in *. change (zlen [0]) with 1 in *. rewrite <- Hle. zbool; try lia; done.
Qed.

End shown.

End Vsprintf.
