(* ===== verification/Printf.v ===== *)
(** * Formats, and what they mean

    The formats that the comment on [vsnprintf] describes, as a programmer writes them: a
    list of directives, [render] the characters of it.  What a directive prints is taken
    from ISO C99 (7.19.6.1), which the comment refers to, and from the list of the kernel's
    extensions for pointers; nothing of the decoder is used for it.  [vsnprintf_correct]
    shows that [vsnprintf] prints what a format means.

    Where the code departs from C99 the meaning is left open ([departs], [expected]); the
    lemmas at the end show what is printed there. *)
From S2P Require Import Prelude Bitops Memcopy Ctype CString Number Addrstr Vsprintf.
Import Memcopy Ctype CString Number Addrstr Vsprintf.

Module Printf.

(** ** Formats *)

Inductive flag_char := Minus | Plus | Blank | Hash | Zero.

(** A width or a precision: a number that is written, or the next argument *)
Inductive count := Written (n : Z) | Star.

Inductive modifier := Mnone | Mhh | Mh | Ml | Mll | ML | Mz | MZ | Mt.

Inductive integer_conversion := Cd | Ci | Cu | Co | Cx | CX.

(** What may follow [%p] *)
Inductive extension := Eplain | ES | Es | EF | Ef | ER | EM | Em | EI4 | Ei4 | EI6 | Ei6 | EI6c.

Inductive conversion :=
  | Integer (k : integer_conversion)
  | Character
  | String
  | Pointer (e : extension).

Inductive directive :=
  | Text (t : list Z)
  | Percent
  | Conversion (fs : list flag_char) (w p : option count) (q : modifier) (c : conversion).

Definition flag_code (f : flag_char) : Z := match f with Minus => 45 | Plus => 43 | Blank => 32 | Hash => 35 | Zero => 48 end.
Definition count_chars (c : count) : list Z := match c with Written n => number_of n | Star => [42] end.
Definition width_chars (w : option count) : list Z := match w with Some c => count_chars c | None => [] end.
Definition precision_chars (p : option count) : list Z := match p with Some c => 46 :: count_chars c | None => [] end.
Definition modifier_chars (q : modifier) : list Z :=
  match q with Mnone => [] | Mhh => [104; 104] | Mh => [104] | Ml => [108] | Mll => [108; 108] | ML => [76] | Mz => [122] | MZ => [90] | Mt => [116] end.
Definition integer_char (k : integer_conversion) : Z := match k with Cd => 100 | Ci => 105 | Cu => 117 | Co => 111 | Cx => 120 | CX => 88 end.
Definition extension_chars (e : extension) : list Z :=
  match e with
  | Eplain => [] | ES => [83] | Es => [115] | EF => [70] | Ef => [102] | ER => [82] | EM => [77] | Em => [109]
  | EI4 => [73; 52] | Ei4 => [105; 52] | EI6 => [73; 54] | Ei6 => [105; 54] | EI6c => [73; 54; 99]
  end.
Definition conversion_chars (c : conversion) : list Z :=
  match c with Integer k => [integer_char k] | Character => [99] | String => [115] | Pointer e => 112 :: extension_chars e end.

Definition directive_chars (d : directive) : list Z :=
  match d with
  | Text t => t
  | Percent => [37; 37]
  | Conversion fs w p q c => 37 :: List.map flag_code fs ++ width_chars w ++ precision_chars p ++ modifier_chars q ++ conversion_chars c
  end.

Fixpoint render (ds : list directive) : list Z := match ds with [] => [] | d :: ds => directive_chars d ++ render ds end.

(** A format is written in one way only: a text has no [%], is not empty and is not
    followed by another text; a written width does not start with 0, which is a flag; a
    length belongs to an integer; what follows a pointer is no letter or digit. *)
Definition count_ok (lo : Z) (c : option count) : bool := match c with Some (Written n) => (lo <=? n) && (n <=? 10 ^ 9) | _ => true end.
Definition no_modifier (q : modifier) : bool := match q with Mnone => true | _ => false end.

Definition directive_ok (d : directive) (ds : list directive) : bool :=
  match d with
  | Text t => negb (length t =? 0)%nat && forallb (fun c => negb (c =? 37) && negb (c =? 0)) t && match ds with Text _ :: _ => false | _ => true end
  | Percent => true
  | Conversion fs w p q c =>
      count_ok 1 w && count_ok 0 p &&
      match c with Integer _ => true | Pointer _ => no_modifier q && negb (isalnum (cur (render ds))) | _ => no_modifier q end
  end.

Fixpoint format_ok (ds : list directive) : bool := match ds with [] => true | d :: ds => directive_ok d ds && format_ok ds end.

(** ** What a format means *)

(** The flags, the width and the precision of a conversion *)
Record field := mkfield { f_left : bool; f_plus : bool; f_blank : bool; f_alt : bool; f_zero : bool; f_width : option Z; f_prec : option Z }.

Definition is_flag (f g : flag_char) : bool := flag_code f =? flag_code g.
Definition has (fs : list flag_char) (f : flag_char) : bool := existsb (is_flag f) fs.

(** A count, and the arguments behind it *)
Definition fetch_count (c : option count) (args : list arg) : option (option Z * list arg) :=
  match c with
  | None => Some (None, args)
  | Some (Written n) => Some (Some n, args)
  | Some Star => '(z, args) ← va_word args; Some (Some (s32 z), args)
  end.

Definition expected_count (c : option Z) : bool := match c with Some n => n <=? 10 ^ 9 | None => true end.

(** A negative width argument is a [-] flag and a width. (A negative precision should
    count as none and is left open, as are numbers above 10^9.) *)
Definition field_of (fs : list flag_char) (w p : option count) (args : list arg) : option (field * list arg) :=
  '(w, args) ← fetch_count w args;
  '(p, args) ← fetch_count p args;
  let negative := match w with Some n => n <? 0 | None => false end in
  let w := option_map Z.abs w in
  if expected_count w && expected_count p && match p with Some n => 0 <=? n | None => true end then
    Some (mkfield (has fs Minus || negative) (has fs Plus) (has fs Blank) (has fs Hash) (has fs Zero) w p, args)
  else None.

(** Blanks around a text, up to the width *)
Definition justified (f : field) (t : list Z) : list Z :=
  let blanks := fill (default 0 (f_width f) - zlen t) 32 in
  if f_left f then t ++ blanks else blanks ++ t.

(** At most as many characters as the precision says *)
Definition string_limit (f : field) : Z := default (2 ^ 32 - 1) (f_prec f).
Definition string_field (f : field) (t : list Z) : list Z := justified f (clip (string_limit f) t).

Definition signed (k : integer_conversion) : bool := match k with Cd | Ci => true | _ => false end.
Definition radix (k : integer_conversion) : Z := match k with Co => 8 | Cx | CX => 16 | _ => 10 end.
Definition capital (k : integer_conversion) : bool := match k with CX => true | _ => false end.

(** The width of the type that the length names, on a 32-bit machine *)
Definition bits (q : modifier) : Z := match q with Mhh => 8 | Mh => 16 | Mll | ML => 64 | _ => 32 end.

(** The argument, converted to that type *)
Definition integer_argument (q : modifier) (k : integer_conversion) (args : list arg) : option (Z * list arg) :=
  '(z, args) ← (if bits q =? 64 then va_dword args else va_word args);
  Some (if signed k then swrap (bits q) z else wrap (bits q) z, args).

(** [%zd] and [%tu], whose arguments have the other signedness, are left open. *)
Definition expected (q : modifier) (k : integer_conversion) : bool := match q with Mz | MZ => negb (signed k) | Mt => signed k | _ => true end.

Definition digit (upper : bool) (d : Z) : Z := if d <? 10 then 48 + d else (if upper then 65 else 97) + (d - 10).
Definition digit_chars (k : integer_conversion) (v : Z) : list Z := rev (List.map (digit (capital k)) (digits_of 22 (radix k) (Z.abs v))).

(** The digits, with zeros in front up to the precision; 0 with precision 0 has none.  [#]
    makes the first digit of an octal number a zero. *)
Definition integer_digits (f : field) (k : integer_conversion) (v : Z) : list Z :=
  let D := if (v =? 0) && (default 1 (f_prec f) =? 0) then [] else digit_chars k v in
  let D := fill (default 1 (f_prec f) - zlen D) 48 ++ D in
  if f_alt f && (radix k =? 8) && negb (nth 0 D 0 =? 48) then 48 :: D else D.

Definition integer_sign (f : field) (k : integer_conversion) (v : Z) : list Z :=
  if signed k then if v <? 0 then [45] else if f_plus f then [43] else if f_blank f then [32] else [] else [].

(** [#] puts 0x or 0X in front of a hexadecimal number that is not 0. *)
Definition integer_prefix (f : field) (k : integer_conversion) (v : Z) : list Z :=
  if f_alt f && (radix k =? 16) && negb (v =? 0) then [48; if capital k then 88 else 120] else [].

(** The flag [0] counts if there is neither a [-] nor a precision. *)
Definition integer_text (f : field) (k : integer_conversion) (v : Z) : list Z :=
  let S := integer_sign f k v ++ integer_prefix f k v in
  let D := integer_digits f k v in
  if f_zero f && negb (f_left f) && match f_prec f with None => true | _ => false end
  then S ++ fill (default 0 (f_width f) - zlen S - zlen D) 48 ++ D
  else justified f (S ++ D).

(** Where the code prints something else: [0] with a precision, [#] with 0, [#o] with more
    zeros from the precision, and 0 with precision 0 *)
Definition departs (f : field) (k : integer_conversion) (v : Z) : bool :=
  (f_zero f && negb (f_left f) && match f_prec f with None => false | _ => true end)
  || (f_alt f && negb (radix k =? 10) && (v =? 0))
  || (f_alt f && (radix k =? 8) && (zlen (digit_chars k v) <? default 1 (f_prec f)))
  || ((v =? 0) && (default 1 (f_prec f) =? 0)).

Section meaning.
Context (symbol : Z -> Z -> list Z) (rd : Z -> option Z) (lim : nat).

(** A null pointer prints as such; a pointer without extension as eight hexadecimal digits,
    unless there is a width. *)
Definition pointer_meaning (f : field) (e : extension) (p : Z) : option (list Z) :=
  if p =? 0 then Some (string_field f null_text)
  else
    match e with
    | Eplain =>
        let f := match f_width f with None => mkfield (f_left f) (f_plus f) (f_blank f) (f_alt f) true (Some 8) (f_prec f) | _ => f end in
        if departs f Cx p then None else Some (integer_text f Cx p)
    | ES => Some (string_field f (symbol 83 p))
    | Es => Some (string_field f (symbol 115 p))
    | EF => Some (string_field f (symbol 70 p))
    | Ef => Some (string_field f (symbol 102 p))
    | ER =>
        fl ← rd_word rd (p + 12); start ← rd_word rd p; end_ ← rd_word rd (p + 4);
        Some (string_field f (resource_text fl start end_))
    | EM => bs ← rd_bytes rd p 6; Some (string_field f (mac_text true bs))
    | Em => bs ← rd_bytes rd p 6; Some (string_field f (mac_text false bs))
    | EI4 => bs ← rd_bytes rd p 4; Some (string_field f (ip4_text false bs))
    | Ei4 => bs ← rd_bytes rd p 4; Some (string_field f (ip4_text true bs))
    | EI6 => bs ← rd_bytes rd p 16; Some (string_field f (ip6_text true bs))
    | Ei6 => bs ← rd_bytes rd p 16; Some (string_field f (ip6_text false bs))
    | EI6c => bs ← rd_bytes rd p 16; Some (string_field f (ip6_compressed_text bs))
    end.

Definition conversion_meaning (f : field) (q : modifier) (c : conversion) (args : list arg) : option (list Z * list arg) :=
  match c with
  | Integer k =>
      '(v, args) ← integer_argument q k args;
      if expected q k && negb (departs f k v) then Some (integer_text f k v, args) else None
  | Character => '(z, args) ← va_word args; Some (justified f [wrap 8 z], args)
  | String =>
      '(s, args) ← va_word args;
      t ← (if s <? PAGE_SIZE then Some (string_field f NULL_text) else t ← read_string lim rd s (string_limit f); Some (justified f t));
      Some (t, args)
  | Pointer e => '(p, args) ← va_word args; t ← pointer_meaning f e p; Some (t, args)
  end.

Definition directive_meaning (d : directive) (args : list arg) : option (list Z * list arg) :=
  match d with
  | Text t => Some (t, args)
  | Percent => Some ([37], args)
  | Conversion fs w p q c => '(f, args) ← field_of fs w p args; conversion_meaning f q c args
  end.

Fixpoint meaning (ds : list directive) (args : list arg) : option (list Z * list arg) :=
  match ds with
  | [] => Some ([], args)
  | d :: ds => '(t, args) ← directive_meaning d args; '(t', args) ← meaning ds args; Some (t ++ t', args)
  end.

End meaning.

(** The words of a [va_list] *)
Definition arg_ok (a : arg) : Prop := match a with Word z => 0 <= z < 2 ^ 32 | Dword z => 0 <= z < 2 ^ 64 end.


(** ** The flags, and what the decoder makes of them *)

Definition flag_bit (f : flag_char) : Z := match f with Minus => LEFT | Plus => PLUS | Blank => SPACE | Hash => SPECIAL | Zero => ZEROPAD end.

Lemma flag_lor x y g : flag (Z.lor x y) g = flag x g || flag y g.
Proof.
  unfold flag. rewrite Z.land_lor_distr_l. destruct (Z.eqb_spec (Z.land x g) 0) as [->|Hx]; [done|]. destruct (Z.eqb_spec (Z.lor (Z.land x g) (Z.land y g)) 0) as [E|]; [|done]. apply Z.lor_eq_0_iff in E as [? _]. done.
Qed.

Lemma flag_bit_is f g : flag (flag_bit f) (flag_bit g) = is_flag g f.
Proof. by destruct f, g. Qed.

Lemma all_flags_has g fs : flag (all_flags (List.map flag_code fs)) (flag_bit g) = has fs g.
Proof.
  unfold all_flags. assert (H : forall fl, flag (fold_left (fun fl c => Z.lor fl (flag_value c)) (List.map flag_code fs) fl) (flag_bit g) = flag fl (flag_bit g) || has fs g); [|by rewrite H].
  induction fs as [|f fs IH]; intros fl; cbn [List.map fold_left]; [by rewrite orb_false_r|]. rewrite IH, flag_lor. replace (flag_value (flag_code f)) with (flag_bit f) by (by destruct f). rewrite flag_bit_is. unfold has. cbn [existsb]. by rewrite orb_assoc.
Qed.

Lemma all_flags_plain g fs : g = SIGN \/ g = SMALL -> flag (all_flags (List.map flag_code fs)) g = false.
Proof.
  intros Hg. unfold all_flags. assert (H : forall fl, flag fl g = false -> flag (fold_left (fun fl c => Z.lor fl (flag_value c)) (List.map flag_code fs) fl) g = false); [|by apply H; destruct Hg as [->| ->]].
  induction fs as [|f fs IH]; intros fl Hfl; cbn [List.map fold_left]; [done|]. apply IH. rewrite flag_lor, Hfl. by destruct Hg as [->| ->]; destruct f.
Qed.

Lemma flags_written fs : Forall (fun c => flag_of c <> None) (List.map flag_code fs).
Proof. induction fs as [|f fs IH]; constructor; [by destruct f|done]. Qed.

(** [spec] has the flags, the width and the precision of [f]. *)
Record stands (spec : printf_spec) (f : field) : Prop := {
  st_left : flag (flags spec) LEFT = f_left f;
  st_plus : flag (flags spec) PLUS = f_plus f;
  st_blank : flag (flags spec) SPACE = f_blank f;
  st_alt : flag (flags spec) SPECIAL = f_alt f;
  st_zero : flag (flags spec) ZEROPAD = f_zero f;
  st_width : field_width spec = default (-1) (f_width f);
  st_prec : precision spec = default (-1) (f_prec f);
}.

Definition counts_ok (f : field) : Prop := (forall n, f_width f = Some n -> 0 <= n <= 10 ^ 9) /\ (forall n, f_prec f = Some n -> 0 <= n <= 10 ^ 9).

Lemma stands_widths spec f : stands spec f -> counts_ok f -> widths_okb spec = true.
Proof.
  intros S [Hw Hp]. unfold widths_okb. rewrite (st_width _ _ S), (st_prec _ _ S). rewrite andb_true_iff, !Z.leb_le. destruct (f_width f) as [w|], (f_prec f) as [p|]; simpl; try specialize (Hw w eq_refl); try specialize (Hp p eq_refl); lia.
Qed.

Lemma justified_eq spec f t : stands spec f -> padded_text spec t = justified f t.
Proof.
  intros S. unfold padded_text, justified. rewrite (st_left _ _ S), (st_width _ _ S). cbv zeta. assert (E : fill (default (-1) (f_width f) - zlen t) 32 = fill (default 0 (f_width f) - zlen t) 32); [|by rewrite E].
  destruct (f_width f) as [w|]; [done|]. cbn [default]. pose proof (zlen_nonneg t). by rewrite !fill_neg by lia.
Qed.

Lemma string_limit_eq spec f : stands spec f -> counts_ok f -> u32 (precision spec) = string_limit f.
Proof. intros S [_ Hp]. rewrite (st_prec _ _ S). unfold string_limit. destruct (f_prec f) as [p|]; [|done]. simpl. specialize (Hp p eq_refl). apply u32_id. unfold is_u32. lia. Qed.

Lemma string_field_eq spec f t : stands spec f -> counts_ok f -> string_text spec t = string_field f t.
Proof. intros S C. unfold string_text, string_field. rewrite (string_limit_eq spec f) by done. by apply justified_eq. Qed.

(** ** Integers *)

(** The case of the letters: only those of base 16 matter. *)
Definition letters (k : integer_conversion) : Z := match k with Cx => SMALL | _ => 0 end.

Lemma digit_dchar k d : 0 <= d < radix k -> dchar (letters k) d = digit (capital k) d.
Proof.
  intros Hd. apply Z.eqb_eq, (all_below_spec (Z.to_nat (radix k)) (fun d => dchar (letters k) d =? digit (capital k) d)); [by destruct k|]. rewrite Z2Nat.id; [done|by destruct k].
Qed.

(** The digits of a number of 64 bits *)
Lemma digit_chars_numeral k v : Z.abs v < 2 ^ 64 -> numeral (radix k) (digits_of 22 (radix k) (Z.abs v)) (Z.abs v) = true.
Proof.
  intros Hv. set (spec := mkspec FORMAT_TYPE_NONE 0 0 (radix k) 0 0). destruct (number_ok [] 0 0 (Z.abs v) spec) as (_ & H & _); [destruct k; simpl; lia|lia|split; simpl; lia|].
  unfold signed_value in H. change (flag (flags spec) SIGN) with false in H. change (base spec) with (radix k) in H. cbv iota in H. by rewrite Z.abs_idemp in H.
Qed.

Lemma digit_chars_eq k v : Z.abs v < 2 ^ 64 -> rev (List.map (dchar (letters k)) (digits_of 22 (radix k) (Z.abs v))) = digit_chars k v.
Proof.
  intros Hv. pose proof (digit_chars_numeral k v Hv) as [Hd _]%numeral_spec. unfold digit_chars. f_equal. induction Hd as [|d ds Hd _ IH]; [done|]. cbn [List.map]. by rewrite digit_dchar, IH.
Qed.

(** There is a digit, and the first one is 0 only for 0. *)
Lemma digit_chars_first k v : Z.abs v < 2 ^ 64 -> 1 <= zlen (digit_chars k v) /\ (v <> 0 -> (nth 0 (digit_chars k v) 0 =? 48) = false).
Proof.
  intros Hv. pose proof (digit_chars_numeral k v Hv) as Hn. unfold digit_chars. rewrite <- List.map_rev. destruct (rev_numeral _ _ _ Hn) as (d & es & E & Hf & Hz). rewrite E. split; [unfold zlen; simpl; lia|]. intros Hv0. apply Z.eqb_neq. cbn [List.map nth].
  apply Forall_cons in Hf as [Hd _]. assert (d <> 0).
  { intros ->. rewrite (Hz eq_refl) in E. apply numeral_spec in Hn as (_ & Hval & _). apply (f_equal (@rev Z)) in E. rewrite rev_involutive in E. rewrite E in Hval. simpl in Hval. lia. }
  unfold digit. destruct (d <? 10) eqn:Ed; [lia|]. apply Z.ltb_ge in Ed. destruct (capital k); lia.
Qed.

Lemma fill_default w n c : 0 <= n -> fill (default (-1) w - n) c = fill (default 0 w - n) c.
Proof. intros Hn. destruct w as [w|]; [done|]. simpl. by rewrite !fill_neg by lia. Qed.

Lemma fill_cons n c t : fill n c ++ c :: t = c :: fill n c ++ t.
Proof. unfold fill. induction (Z.to_nat n) as [|k IH]; [done|]. cbn [replicate app]. by rewrite IH. Qed.

(** Sign, prefix and digits in a field *)
Definition layout (f : field) (zero : bool) (S D : list Z) : list Z :=
  if zero && negb (f_left f) then S ++ fill (default 0 (f_width f) - zlen S - zlen D) 48 ++ D else justified f (S ++ D).

Lemma layout_eq f (zero : bool) S X P :
  (if f_left f then S ++ X ++ P ++ fill (default (-1) (f_width f) - zlen S - zlen X - zlen P) 32
   else if zero then S ++ X ++ fill (default (-1) (f_width f) - zlen S - zlen X - zlen P) 48 ++ P
   else fill (default (-1) (f_width f) - zlen S - zlen X - zlen P) 32 ++ S ++ X ++ P) = layout f zero (S ++ X) P.
Proof.
  pose proof (zlen_nonneg S). pose proof (zlen_nonneg X). pose proof (zlen_nonneg P). replace (default (-1) (f_width f) - zlen S - zlen X - zlen P) with (default (-1) (f_width f) - (zlen S + zlen X + zlen P)) by lia. rewrite !fill_default by lia.
  unfold layout, justified. rewrite !zlen_app. replace (default 0 (f_width f) - (zlen S + zlen X) - zlen P) with (default 0 (f_width f) - (zlen S + zlen X + zlen P)) by lia.
  destruct (f_left f); [rewrite andb_false_r; by rewrite <- !app_assoc|]. destruct zero; by rewrite <- !app_assoc.
Qed.

(** The zero of an octal number is a prefix as well as a digit. *)
Lemma layout_zero f zero S D : layout f zero (S ++ [48]) D = layout f zero S (48 :: D).
Proof.
  unfold layout. rewrite zlen_app, (zlen_cons 48 D). change (zlen [48]) with 1. rewrite <- ?app_assoc. cbn [app]. destruct (zero && negb (f_left f)); [|done]. rewrite fill_cons. do 4 f_equal. lia.
Qed.

Lemma integer_text_layout f k v : integer_text f k v = layout f (f_zero f && match f_prec f with None => true | _ => false end) (integer_sign f k v ++ integer_prefix f k v) (integer_digits f k v).
Proof. unfold integer_text, layout. cbv zeta. replace (f_zero f && negb (f_left f) && _) with (f_zero f && match f_prec f with None => true | _ => false end && negb (f_left f)); [done|]. by destruct (f_zero f), (f_left f), (f_prec f). Qed.

(** What [number] prints is the integer in its field. *)
Lemma integer_eq spec f k num v :
  stands spec f -> base spec = radix k -> Z.land (flags spec) SMALL = letters k -> flag (flags spec) SIGN = signed k -> Z.abs v < 2 ^ 64 -> signed_value spec num = v -> departs f k v = false ->
  number_output spec num = integer_text f k v.
Proof.
  intros S Hb Hl Hs Hv Hval Hd. unfold departs in Hd. rewrite !orb_false_iff in Hd. destruct Hd as (((Hd1 & Hd2) & Hd3) & Hd4). destruct (digit_chars_first k v Hv) as [Hlen Hfirst].
  unfold number_output, number_text. rewrite Hval, Hb, Hl, digit_chars_eq by done. cbv zeta. rewrite (st_left _ _ S), (st_zero _ _ S), (st_width _ _ S), (st_prec _ _ S).
  assert (Hsign : sign_text spec num = integer_sign f k v) by (unfold sign_text, integer_sign; by rewrite Hs, Hval, (st_plus _ _ S), (st_blank _ _ S)).
  assert (Hfill : fill (default (-1) (f_prec f) - zlen (digit_chars k v)) 48 = fill (default 1 (f_prec f) - zlen (digit_chars k v)) 48) by (destruct (f_prec f); [done|]; cbn [default from_option]; by rewrite !fill_neg by lia).
  rewrite layout_eq, Hsign, Hfill, integer_text_layout. unfold integer_digits, integer_prefix, prefix_text. rewrite Hd4, (st_alt _ _ S), Hb, Hl.
  assert (Hz : layout f (f_zero f) = layout f (f_zero f && match f_prec f with None => true | _ => false end)).
  { unfold layout. destruct (f_zero f), (f_left f), (f_prec f); simpl in Hd1; done. }
  rewrite Hz. destruct (f_alt f); [|done]. cbn [andb] in *. destruct (Z.eqb_spec (radix k) 8) as [E8|E8].
  - rewrite E8 in *. cbn [negb andb] in Hd2, Hd3 |- *. apply Z.eqb_neq in Hd2. apply Z.ltb_ge in Hd3. rewrite fill_neg by lia. cbn [app]. rewrite (Hfirst Hd2). cbn [negb]. rewrite app_nil_r. apply layout_zero.
  - cbn [andb]. destruct k; cbn [radix letters capital] in *; try done; change (negb (16 =? 10) && (v =? 0)) with (v =? 0) in Hd2; by rewrite Hd2.
Qed.

(** ** The argument of an integer conversion *)

Lemma swrap_bounds w z : 0 < w -> - 2 ^ (w - 1) <= swrap w z < 2 ^ (w - 1).
Proof.
  intros Hw. assert (H2 : 2 ^ w = 2 * 2 ^ (w - 1)) by (rewrite <- Z.pow_succ_r by lia; f_equal; lia). unfold swrap. cbv zeta. pose proof (Z.mod_pos_bound z (2 ^ w) ltac:(lia)). destruct (Z.ltb_spec (z mod 2 ^ w) (2 ^ (w - 1))); lia.
Qed.

Lemma swrap_wrap_id x : - 2 ^ 63 <= x < 2 ^ 63 -> swrap 64 (wrap 64 x) = x.
Proof. intros Hx. unfold swrap, wrap. cbv zeta. rewrite Z.mod_mod by lia. exact (swrap_id 64 x ltac:(lia) Hx). Qed.

Definition modifier_value (q : modifier) : Z := match q with Mnone => -1 | Mhh => 72 | Mh => 104 | Ml => 108 | Mll | ML => 76 | Mz => 122 | MZ => 90 | Mt => 116 end.

Lemma modifier_in q : In (modifier_chars q, modifier_value q) qualifiers.
Proof. destruct q; cbn; tauto. Qed.

(** The type the decoder derives has the bits and the sign of the conversion. *)
Lemma fetch_integer q k args v args1 spec :
  Forall arg_ok args -> expected q k = true -> qualifier spec = modifier_value q -> flag (flags spec) SIGN = signed k -> integer_argument q k args = Some (v, args1) ->
  exists num, fetch_number (integer_type spec) args = Some (num, args1) /\ 0 <= num < 2 ^ 64 /\ signed_value spec num = v /\ Z.abs v < 2 ^ 64.
Proof.
  intros Ha He Hq Hs H. unfold integer_argument in H. unfold integer_type, signed_value. rewrite Hq, Hs. cbv zeta.
  assert (Hz : exists z, (if bits q =? 64 then va_dword args else va_word args) = Some (z, args1) /\ 0 <= z < (if bits q =? 64 then 2 ^ 64 else 2 ^ 32) /\ v = (if signed k then swrap (bits q) z else wrap (bits q) z)).
  { destruct args as [|[z|z] args]; destruct (bits q =? 64); cbn [va_word va_dword mbind option_bind] in *; try done; injection H as <- <-; exists z; apply Forall_cons in Ha as [Ha _]; done. }
  clear H. destruct Hz as (z & Hz & Hr & ->). pose proof (swrap_bounds (bits q) z ltac:(by destruct q)) as Hsr. pose proof (Z.mod_pos_bound z (2 ^ bits q) ltac:(by destruct q)) as Hwr. fold (wrap (bits q) z) in Hwr.
  assert (Hunsigned : signed k = false -> bits q <= 64 -> 0 <= wrap (bits q) z < 2 ^ 64) by (intros _ Hb; assert (2 ^ bits q <= 2 ^ 64) by (apply Z.pow_le_mono_r; lia); lia).
  assert (Hsigned : bits q <= 64 -> swrap 64 (wrap 64 (swrap (bits q) z)) = swrap (bits q) z /\ 0 <= wrap 64 (swrap (bits q) z) < 2 ^ 64 /\ Z.abs (swrap (bits q) z) < 2 ^ 64).
  { intros Hb. assert (2 ^ (bits q - 1) <= 2 ^ (64 - 1)) by (apply Z.pow_le_mono_r; lia). split; [apply swrap_wrap_id; lia|]. split; [apply Z.mod_pos_bound; lia|]. lia. }
  destruct q, k; cbn [bits signed expected negb modifier_value] in *; try done; cbn [Z.eqb Pos.eqb orb] in *; cbv iota in *; cbn [fetch_number]; rewrite Hz; cbn [mbind option_bind]; eexists; (split; [reflexivity|]);
    first [split_and!; [lia|lia|exact (eq_refl (swrap 64 z))|lia] | specialize (Hsigned ltac:(lia)) as (? & ? & ?); split_and!; (lia || done) | specialize (Hunsigned eq_refl ltac:(lia)); split_and!; (lia || unfold wrap; rewrite ?Z.mod_small by lia; (lia || done))].
Qed.

Definition integer_kind (t : format_type) : Prop := exists s, t = integer_type s.

Lemma convert_integer symbol rd lim old rest spec args num args1 :
  integer_kind (type spec) -> widths_okb spec = true -> base spec = 8 \/ base spec = 10 \/ base spec = 16 -> 0 <= num < 2 ^ 64 -> fetch_number (type spec) args = Some (num, args1) ->
  convert_text symbol rd lim old rest spec args = Some (number_output spec num, rest, spec, args1) /\ pending spec = false.
Proof.
  intros [s Hk] Hw Hb Hn Hf. assert (Hg : (0 <=? num) && (num <? 2 ^ 64) && ((base spec =? 8) || (base spec =? 10) || (base spec =? 16)) = true) by (rewrite !andb_true_iff, !orb_true_iff, !Z.eqb_eq; split; [lia|tauto]).
  unfold convert_text, pending. unfold integer_type in Hk. cbv zeta in Hk. repeat match type of Hk with context [if ?b then _ else _] => destruct b end; rewrite Hk in *; rewrite Hw, Hf; cbn [mbind option_bind]; rewrite Hg; done.
Qed.

(** ** One conversion *)

Lemma stands_lor spec spec' f x : x = SIGN \/ x = SMALL \/ x = 0 -> stands spec f -> flags spec' = Z.lor (flags spec) x -> field_width spec' = field_width spec -> precision spec' = precision spec -> stands spec' f.
Proof.
  intros Hx [] Hf Hw Hp. split; try congruence; rewrite Hf, flag_lor; (destruct Hx as [->|[->| ->]]; rewrite orb_false_r; done).
Qed.

Lemma stands_typed spec f t : stands spec f -> stands (set_type (set_base spec 10) t) f.
Proof. intros S. by apply (stands_lor spec _ f 0); [tauto|done|symmetry; apply Z.lor_0_r|..]. Qed.

Lemma land_flag x g : flag x g = false -> Z.land x g = 0.
Proof. unfold flag. rewrite negb_false_iff. apply Z.eqb_eq. Qed.

(** What the conversion character adds *)
Definition conversion_flags (k : integer_conversion) : Z := match k with Cd | Ci => SIGN | Cx => SMALL | _ => 0 end.

Definition integer_spec (k : integer_conversion) (spec : printf_spec) : printf_spec :=
  let spec := mkspec (type spec) (Z.lor (flags spec) (conversion_flags k)) (field_width spec) (radix k) (precision spec) (qualifier spec) in
  set_type spec (integer_type spec).

Lemma decode_integer k tail spec : decode_conversion (integer_char k :: tail) spec = Some (integer_spec k spec, tail).
Proof. destruct spec, k; unfold integer_spec; cbn [conversion_flags flags]; rewrite ?Z.lor_0_r; reflexivity. Qed.

Lemma skip_alnum_app e tail : isalnum (cur tail) = false -> skip_alnum (112 :: extension_chars e ++ tail) = tail.
Proof.
  intros Ht. assert (H : skip_alnum tail = tail) by (destruct tail as [|c tail]; [done|]; cbn [skip_alnum]; change (cur (c :: tail)) with c in Ht; by rewrite Ht). by destruct e; cbn [extension_chars app].
Qed.

(** None of the letters that extend [%p] *)
Lemma not_alnum c : isalnum c = false -> forallb (fun x => negb (c =? x)) [70; 102; 115; 83; 82; 77; 109; 73; 105; 54; 52; 99] = true.
Proof. intros H. apply forallb_forall. intros x Hx. apply negb_true_iff, Z.eqb_neq. intros ->. cbn [In] in Hx. repeat (destruct Hx as [<-|Hx]; [done|]). done. Qed.

Section one.
Context (symbol : Z -> Z -> list Z) (rd : Z -> option Z) (lim : nat).

Lemma pointer_meaning_eq spec f e p t tail :
  stands spec f -> counts_ok f -> flag (flags spec) SIGN = false -> flag (flags spec) SMALL = false -> 0 <= p < 2 ^ 32 -> isalnum (cur tail) = false ->
  pointer_meaning symbol rd f e p = Some t -> pointer_text symbol rd (extension_chars e ++ tail) p spec = Some t.
Proof.
  intros S C Hsg Hsm Hp Ht H. unfold pointer_meaning, pointer_text in *. rewrite (string_field_eq spec f) by done. destruct (p =? 0) eqn:E0; [done|]. apply Z.eqb_neq in E0. cbv zeta. apply not_alnum in Ht. cbn [forallb] in Ht. rewrite !andb_true_iff, !negb_true_iff in Ht. destruct Ht as (T1 & T2 & T3 & T4 & T5 & T6 & T7 & T8 & T9 & T10 & T11 & T12 & _).
  destruct e; cbn [extension_chars app] in *; repeat match goal with |- context [cur (?x :: ?l)] => change (cur (x :: l)) with x end;
    repeat match goal with |- context [nth 1 (?x :: ?y :: ?l) 0] => change (nth 1 (x :: y :: l) 0) with y end; cbn [Z.eqb Pos.eqb orb andb]; cbv iota;
    repeat match goal with |- (mbind _ ?o) = _ => destruct o; [cbn [mbind option_bind] in *|done] end; rewrite ?(string_field_eq spec f) by done; try exact H.
  - rewrite T1, T2, T3, T4, T5, T6, T7, T8, T9. cbn [orb]. cbv iota. set (f' := match f_width f with None => _ | _ => _ end) in *. destruct (departs f' Cx p) eqn:Ed; [done|]. rewrite <- H. f_equal. apply integer_eq; try done.
    + unfold pointer_spec, f'. cbv zeta. cbn [field_width set_flags]. rewrite (st_width _ _ S). destruct S. destruct (f_width f) as [w|] eqn:Ew; cbn [default from_option id].
      * assert (Hw : 0 <= w) by (by apply (proj1 C)). destruct (Z.eqb_spec w (-1)); [lia|]. split; cbn [flags set_base set_flags field_width precision]; rewrite ?flag_lor, ?orb_false_r; try done. by rewrite Ew.
      * change (-1 =? -1) with true. cbv iota. split; cbn [flags set_base set_flags set_field_width field_width precision f_left f_plus f_blank f_alt f_zero f_width f_prec]; rewrite ?flag_lor, ?orb_true_r, ?orb_false_r; done.
    + unfold pointer_spec. cbv zeta. destruct (_ =? -1); cbn [flags set_base set_flags set_field_width]; rewrite ?Z.land_lor_distr_l, (land_flag _ _ Hsm); done.
    + unfold pointer_spec. cbv zeta. destruct (_ =? -1); cbn [flags set_base set_flags set_field_width]; rewrite ?flag_lor, Hsg; done.
    + lia.
    + unfold signed_value, pointer_spec. cbv zeta. destruct (_ =? -1); cbn [flags set_base set_flags set_field_width]; rewrite ?flag_lor, Hsg; done.
  - change (nth 2 (73 :: 54 :: tail) 0) with (cur tail). rewrite T12. exact H.
Qed.

(** The decoder and the converter do what a conversion means. *)
Lemma conversion_step f q c tail args t args' fl w b p :
  let spec := mkspec FORMAT_TYPE_NONE fl w b p (modifier_value q) in
  stands spec f -> counts_ok f -> flag fl SIGN = false -> flag fl SMALL = false -> Forall arg_ok args ->
  (match c with Pointer _ => isalnum (cur tail) = false | _ => True end) -> conversion_meaning symbol rd lim f q c args = Some (t, args') ->
  exists spec2 rest spec3, decode_conversion (conversion_chars c ++ tail) spec = Some (spec2, rest) /\
    (forall old, convert_text symbol rd lim old rest spec2 args = Some (t, tail, spec3, args')) /\ pending spec3 = false.
Proof.
  intros spec S C Hsg Hsm Ha Ht H. pose proof (stands_widths spec f S C) as Hw. destruct c as [k| | |e]; cbn [conversion_meaning conversion_chars app] in *.
  - destruct (integer_argument q k args) as [[v a]|] eqn:Ei; [|done]. cbn [mbind option_bind] in H. destruct (expected q k && negb (departs f k v)) eqn:Ed; [|done]. injection H as <- <-. apply andb_true_iff in Ed as [He Hd%negb_true_iff].
    assert (Hs : flag (flags (integer_spec k spec)) SIGN = signed k) by (cbn [integer_spec set_type flags spec]; rewrite flag_lor, Hsg; by destruct k).
    set (sp := mkspec FORMAT_TYPE_NONE (Z.lor fl (conversion_flags k)) w (radix k) p (modifier_value q)).
    destruct (fetch_integer q k args v a sp Ha He eq_refl Hs Ei) as (num & Ef & Hn & Hval & Habs). exists (integer_spec k spec), tail, (integer_spec k spec). split; [apply decode_integer|].
    assert (S' : stands (integer_spec k spec) f) by (apply (stands_lor spec _ f (conversion_flags k)); try done; destruct k; cbn [conversion_flags]; tauto).
    destruct (convert_integer symbol rd lim [] tail (integer_spec k spec) args num a) as [_ Hp]; [by exists sp|by apply (stands_widths _ f)|destruct k; simpl; lia|done|done|]. split; [|done]. intros old.
    destruct (convert_integer symbol rd lim old tail (integer_spec k spec) args num a) as [-> _]; [by exists sp|by apply (stands_widths _ f)|destruct k; simpl; lia|done|done|]. rewrite (integer_eq (integer_spec k spec) f k num v); try done.
    cbn [integer_spec set_type flags spec]. rewrite Z.land_lor_distr_l, (land_flag _ _ Hsm). by destruct k.
  - destruct (va_word args) as [[z a]|] eqn:Ea; [|done]. injection H as <- <-. set (sp := set_type (set_base spec 10) FORMAT_TYPE_CHAR). exists sp, tail, (set_field_width sp (char_width sp)). split; [reflexivity|]. split; [|reflexivity]. intros old. unfold convert_text. cbn [type set_type sp]. replace (widths_okb _) with true by (symmetry; exact Hw). rewrite Ea. cbn [mbind option_bind].
    rewrite (justified_eq sp f) by (by apply stands_typed). reflexivity.
  - destruct (va_word args) as [[z a]|] eqn:Ea; [|done]. cbn [mbind option_bind] in H. set (sp := set_type (set_base spec 10) FORMAT_TYPE_STR). exists sp, tail, sp. split; [reflexivity|]. split; [|reflexivity]. intros old. unfold convert_text. cbn [type set_type sp]. replace (widths_okb _) with true by (symmetry; exact Hw). rewrite Ea. cbn [mbind option_bind].
    pose proof (stands_typed spec f FORMAT_TYPE_STR S : stands sp f) as S'. rewrite (string_limit_eq sp f), (string_field_eq sp f) by done. destruct (z <? PAGE_SIZE); [cbn [mbind option_bind] in *; by injection H as <- <-|].
    destruct (read_string lim rd z (string_limit f)) as [u|]; [|done]. cbn [mbind option_bind] in *. injection H as <- <-. by rewrite (justified_eq sp f).
  - destruct (va_word args) as [[z a]|] eqn:Ea; [|done]. cbn [mbind option_bind] in H. destruct (pointer_meaning symbol rd f e z) as [u|] eqn:Ep; [|done]. injection H as <- <-.
    set (sp := set_type (set_base spec 10) FORMAT_TYPE_PTR). exists sp, (112 :: extension_chars e ++ tail), sp. split; [reflexivity|]. split; [|reflexivity]. intros old. unfold convert_text. cbn [type set_type sp]. replace (widths_okb _) with true by (symmetry; exact Hw). rewrite Ea. cbn [mbind option_bind next].
    assert (Hz : 0 <= z < 2 ^ 32) by (destruct args as [|[z'|z'] args]; try done; injection Ea as <- <-; by apply Forall_cons in Ha as [? _]). destruct (Z.leb_spec 0 z); [|lia]. destruct (Z.ltb_spec z (2 ^ 32)); [|lia]. cbn [andb].
    pose proof (stands_typed spec f FORMAT_TYPE_PTR S : stands sp f) as S'. rewrite (pointer_meaning_eq sp f e z u tail) by done. cbn [mbind option_bind]. by rewrite skip_alnum_app.
Qed.

(** ** The parts in front of the conversion character *)

Lemma format_text_more n : forall n' fmt spec args r, (n <= n')%nat -> format_text symbol rd lim n fmt spec args = Some r -> format_text symbol rd lim n' fmt spec args = Some r.
Proof.
  induction n as [|n IH]; intros [|n'] fmt spec args r Hn H; try done; cbn [format_text] in *; (destruct (cur fmt =? 0); [done|]); [done|lia|]. destruct (format_decode fmt spec) as [[s1 rest]|]; [|done]. cbn [mbind option_bind] in *.
  destruct (convert_text symbol rd lim fmt rest s1 args) as [[[[t r1] s2] a2]|]; [|done]. cbn [mbind option_bind] in *. destruct (format_text symbol rd lim n r1 s2 a2) as [r2|] eqn:E; [|done]. rewrite (IH n' _ _ _ r2) by (done || lia). done.
Qed.

(** From [fmt] with [args] the loop comes to [fmt'] with [args'] and has printed nothing. *)
Definition reaches (fmt : list Z) (spec : printf_spec) (args : list arg) (fmt' : list Z) (spec' : printf_spec) (args' : list arg) : Prop :=
  forall fuel r, format_text symbol rd lim fuel fmt' spec' args' = Some r -> format_text symbol rd lim (S fuel) fmt spec args = Some r.

Lemma reaches_refl fmt spec args : reaches fmt spec args fmt spec args.
Proof. intros fuel r H. apply (format_text_more fuel); [lia|done]. Qed.

(** The type of the decoded token asks for a width or a precision. *)
Lemma reaches_star fmt spec args spec1 rest z args' :
  (cur fmt =? 0) = false -> format_decode fmt spec = Some (spec1, rest) -> va_word args = Some (z, args') ->
  (type spec1 = FORMAT_TYPE_WIDTH -> reaches fmt spec args rest (set_field_width spec1 (s32 z)) args') /\
  (type spec1 = FORMAT_TYPE_PRECISION -> reaches fmt spec args rest (set_precision spec1 (s32 z)) args').
Proof.
  intros Hc Hd Ha. split; intros Ht fuel [T a] H; refine (format_step symbol rd lim fuel fmt spec args spec1 rest [] rest _ args' T a Hc Hd _ H); unfold convert_text; by rewrite Ht, Ha.
Qed.

Lemma fetch_count_inv c args v args1 : fetch_count c args = Some (v, args1) ->
  (c = None /\ v = None /\ args1 = args) \/ (exists n, c = Some (Written n) /\ v = Some n /\ args1 = args) \/ (exists z, c = Some Star /\ va_word args = Some (z, args1) /\ v = Some (s32 z)).
Proof. destruct c as [[n|]|]; cbn [fetch_count]; [intros H; injection H as <- <-; right; left; by exists n|destruct (va_word args) as [[z a]|]; [|done]; intros H; injection H as <- <-; right; right; by exists z|intros H; injection H as <- <-; by left]. Qed.

Lemma cur_app_nonzero q tail : (cur tail =? 0) = false -> (cur (modifier_chars q ++ tail) =? 0) = false.
Proof. intros H. by destruct q. Qed.

(** From the precision on *)
Lemma reach_precision fmt spec args args1 p pv q tail fl w b pr qu :
  (cur fmt =? 0) = false -> format_decode fmt spec = decode_precision (precision_chars p ++ modifier_chars q ++ tail) (mkspec FORMAT_TYPE_NONE fl w b pr qu) ->
  fetch_count p args = Some (pv, args1) -> match pv with Some n => 0 <= n <= 10 ^ 9 | None => True end -> ends (cur tail) = true -> (cur tail =? 0) = false ->
  exists fmt' spec', reaches fmt spec args fmt' spec' args1 /\ (cur fmt' =? 0) = false /\ format_decode fmt' spec' = decode_conversion tail (mkspec FORMAT_TYPE_NONE fl w b (default (-1) pv) (modifier_value q)).
Proof.
  intros Hc Hd Hp Hr He Ht. destruct (fetch_count_inv p args pv args1 Hp) as [(-> & -> & ->)|[(n & -> & -> & ->)|(z & -> & Hz & ->)]]; cbn [precision_chars count_chars app] in Hd.
  - exists fmt, spec. split; [apply reaches_refl|]. split; [done|]. rewrite Hd. exact (decode_precision_of None _ _ tail (mkspec FORMAT_TYPE_NONE fl w b pr qu) I (modifier_in q) He).
  - exists fmt, spec. split; [apply reaches_refl|]. split; [done|]. rewrite Hd. exact (decode_precision_of (Some n) _ _ tail (mkspec FORMAT_TYPE_NONE fl w b pr qu) ltac:(cbv beta iota in *; lia) (modifier_in q) He).
  - eexists (modifier_chars q ++ tail), _. split; [eapply reaches_star; [done|rewrite Hd; reflexivity|exact Hz|done]|]. split; [by apply cur_app_nonzero|]. unfold format_decode. cbn [type set_precision precision set_type default from_option id].
    destruct (Z.ltb_spec (s32 z) 0); [lia|]. by rewrite (decode_qualifier_of _ _ _ _ (modifier_in q) He).
Qed.

Definition negative (w : option Z) : bool := match w with Some n => n <? 0 | None => false end.

(** The flags of a conversion with the width [w] *)
Definition flag_word (fs : list flag_char) (w : option Z) : Z := let fl := all_flags (List.map flag_code fs) in if negative w then Z.lor fl LEFT else fl.

Lemma after_flags p q tail : ends (cur tail) = true -> flag_of (cur tail) = None -> (cur tail =? 0) = false ->
  let R := precision_chars p ++ modifier_chars q ++ tail in isdigit (cur R) = false /\ (cur R =? 42) = false /\ flag_of (cur R) = None /\ (cur R =? 0) = false.
Proof.
  intros He Hf H0. destruct p as [c|]; [done|]. destruct (after_width None _ _ tail (modifier_in q) He Hf) as (H1 & H2 & H3). cbn [precision_of precision_chars app] in *. split_and!; try done. by apply cur_app_nonzero.
Qed.

(** From the flags on *)
Lemma reach_width spec args args1 fs w wv p q tail :
  pending spec = false -> count_ok 1 w = true -> fetch_count w args = Some (wv, args1) -> match wv with Some n => Z.abs n <= 10 ^ 9 | None => True end ->
  ends (cur tail) = true -> flag_of (cur tail) = None -> (cur tail =? 0) = false ->
  let R := precision_chars p ++ modifier_chars q ++ tail in
  exists fmt' spec', reaches (37 :: List.map flag_code fs ++ width_chars w ++ R) spec args fmt' spec' args1 /\ (cur fmt' =? 0) = false /\
    format_decode fmt' spec' = decode_precision R (mkspec FORMAT_TYPE_NONE (flag_word fs wv) (default (-1) (option_map Z.abs wv)) (base spec) (precision spec) (qualifier spec)).
Proof.
  intros Hpd Hok Hw Hr He Hf H0 R. destruct (after_flags p q tail He Hf H0) as (R1 & R2 & R3 & R4). fold R in R1, R2, R3, R4.
  pose proof (format_decode_token (37 :: List.map flag_code fs ++ width_chars w ++ R) spec Hpd) as Hd. rewrite decode_token_percent in Hd.
  destruct (fetch_count_inv w args wv args1 Hw) as [(-> & -> & ->)|[(n & -> & -> & ->)|(z & -> & Hz & ->)]]; cbn [width_chars count_chars app] in *.
  - exists (37 :: List.map flag_code fs ++ R), spec. split; [apply reaches_refl|]. split; [done|]. rewrite Hd, skip_flags_app by (done || apply flags_written). cbn [mbind option_bind]. cbv zeta. rewrite R1, R2. reflexivity.
  - exists (37 :: List.map flag_code fs ++ number_of n ++ R), spec. split; [apply reaches_refl|]. split; [done|]. cbn [count_ok] in Hok. apply andb_true_iff in Hok as [Hn1%Z.leb_le Hn2%Z.leb_le].
    destruct (number_of_ok n ltac:(lia)) as (d & es & En & Hde & _ & Hnz). specialize (Hnz ltac:(lia)). apply Forall_cons in Hde as [Hdd _].
    assert (Hfl : flag_of (cur (number_of n ++ R)) = None) by (rewrite En; change (cur _) with (d + 48); unfold flag_of; zbool; done || (exfalso; lia)).
    rewrite Hd, skip_flags_app by (done || apply flags_written). cbn [mbind option_bind]. cbv zeta. destruct (skip_number R n ltac:(lia) R1) as [E ->]. rewrite E. cbv iota beta. unfold flag_word, negative. destruct (Z.ltb_spec n 0); [lia|]. cbn [option_map default from_option id]. rewrite Z.abs_eq by lia. reflexivity.
  - rewrite skip_flags_app in Hd by (done || apply flags_written). cbn [mbind option_bind next] in Hd. cbv zeta in Hd. change (isdigit (cur (42 :: R))) with false in Hd. change (cur (42 :: R) =? 42) with true in Hd. cbv iota in Hd.
    eexists R, _. split; [exact (proj1 (reaches_star (37 :: List.map flag_code fs ++ 42 :: R) _ _ _ _ _ _ eq_refl Hd Hz) eq_refl)|]. split; [done|]. unfold format_decode. cbn [type set_type set_field_width set_flags field_width flags]. unfold flag_word, negative. cbn [option_map default from_option id]. destruct (Z.ltb_spec (s32 z) 0) as [Hneg|Hpos].
    + rewrite (s32_id (- s32 z)), Z.abs_neq by lia. reflexivity.
    + rewrite Z.abs_eq by lia. reflexivity.
Qed.

(** The field that the decoder has read *)
Lemma flag_word_stands fs wv pv fw b p v :
  fw = default (-1) (option_map Z.abs wv) -> p = default (-1) pv ->
  let spec := mkspec FORMAT_TYPE_NONE (flag_word fs wv) fw b p v in
  stands spec (mkfield (has fs Minus || negative wv) (has fs Plus) (has fs Blank) (has fs Hash) (has fs Zero) (option_map Z.abs wv) pv) /\
  flag (flag_word fs wv) SIGN = false /\ flag (flag_word fs wv) SMALL = false.
Proof.
  intros -> -> spec. pose proof (fun g => all_flags_has g fs) as Hh. pose proof (Hh Minus). pose proof (Hh Plus). pose proof (Hh Blank). pose proof (Hh Hash). pose proof (Hh Zero). pose proof (all_flags_plain SIGN fs (or_introl eq_refl)). pose proof (all_flags_plain SMALL fs (or_intror eq_refl)). cbn [flag_bit] in *.
  split; [split|]; cbn [spec flags field_width precision f_left f_plus f_blank f_alt f_zero f_width f_prec]; unfold flag_word; cbv zeta; try done; destruct (negative wv); rewrite ?flag_lor, ?orb_true_r, ?orb_false_r; try done; split; rewrite ?flag_lor, ?orb_false_r; done.
Qed.

Lemma field_of_inv fs w p args f args2 : field_of fs w p args = Some (f, args2) ->
  exists wv args1 pv, fetch_count w args = Some (wv, args1) /\ fetch_count p args1 = Some (pv, args2) /\ f = mkfield (has fs Minus || negative wv) (has fs Plus) (has fs Blank) (has fs Hash) (has fs Zero) (option_map Z.abs wv) pv /\
    match wv with Some n => Z.abs n <= 10 ^ 9 | None => True end /\ match pv with Some n => 0 <= n <= 10 ^ 9 | None => True end.
Proof.
  unfold field_of. intros H. destruct (fetch_count w args) as [[wv args1]|]; [|done]. cbn [mbind option_bind] in H. destruct (fetch_count p args1) as [[pv a2]|] eqn:Ep; [|done]. cbn [mbind option_bind] in H. cbv zeta in H. destruct (_ && _) eqn:Eq in H; [|done]. injection H as <- <-.
  exists wv, args1, pv. rewrite !andb_true_iff in Eq. destruct Eq as [[E1 E2] E3]. split_and!; try done; [destruct wv; [by apply Z.leb_le in E1|done]|destruct pv; [apply Z.leb_le in E2, E3; lia|done]].
Qed.

(** ** Whole formats *)

Lemma va_word_ok args z a : Forall arg_ok args -> va_word args = Some (z, a) -> Forall arg_ok a.
Proof. intros H E. destruct args as [|[z'|z'] args]; try done. injection E as _ <-. by apply Forall_cons in H as [_ H]. Qed.

Lemma va_dword_ok args z a : Forall arg_ok args -> va_dword args = Some (z, a) -> Forall arg_ok a.
Proof. intros H E. destruct args as [|[z'|z'] args]; try done. injection E as _ <-. by apply Forall_cons in H as [_ H]. Qed.

Lemma fetch_count_ok c args v a : Forall arg_ok args -> fetch_count c args = Some (v, a) -> Forall arg_ok a.
Proof. intros H [(_ & _ & ->)|[(n & _ & _ & ->)|(z & _ & E & _)]]%fetch_count_inv; try done. by apply (va_word_ok _ _ _ H E). Qed.

Lemma conversion_meaning_ok f q c args t a : Forall arg_ok args -> conversion_meaning symbol rd lim f q c args = Some (t, a) -> Forall arg_ok a.
Proof.
  intros Ha H. unfold conversion_meaning, integer_argument in H.
  repeat match type of H with
  | (match c with _ => _ end) = _ => destruct c
  | context [if bits q =? 64 then _ else _] => destruct (bits q =? 64)
  | (mbind _ (mbind _ ?o)) = _ => destruct o as [[? ?]|] eqn:?; [cbn [mbind option_bind] in H|done]
  | (mbind _ (va_word args)) = _ => destruct (va_word args) as [[? ?]|] eqn:?; [cbn [mbind option_bind] in H|done]
  | (mbind _ ?o) = _ => destruct o; [cbn [mbind option_bind] in H|done]
  | (if ?b then _ else _) = _ => destruct b; [|done]
  | Some _ = Some _ => injection H as _ <-
  end; eauto using va_word_ok, va_dword_ok.
Qed.

Lemma text_step t rest spec args fuel T a :
  pending spec = false -> t <> [] -> Forall (fun c => c <> 37 /\ c <> 0) t -> rest = [] \/ cur rest = 37 ->
  (forall spec', pending spec' = false -> format_text symbol rd lim fuel rest spec' args = Some (T, a)) -> format_text symbol rd lim (S fuel) (t ++ rest) spec args = Some (t ++ T, a).
Proof.
  intros Hp Hne Ht Hr H. apply (format_step symbol rd lim fuel (t ++ rest) spec args (set_type spec FORMAT_TYPE_NONE) rest t rest (set_type spec FORMAT_TYPE_NONE) args T a); [| | |by apply H].
  - destruct t as [|c t]; [done|]. apply Forall_cons in Ht as [[_ Hc] _]. by apply Z.eqb_neq.
  - rewrite format_decode_token by done. unfold decode_token. cbv zeta. rewrite skip_text_app; [|by eapply Forall_impl; [exact Ht|intros c [? _]]|done]. assert (E : (length rest =? length (t ++ rest))%nat = false) by (apply Nat.eqb_neq; rewrite length_app; destruct t; [done|simpl; lia]). by rewrite E.
  - unfold convert_text. cbn [type set_type]. rewrite length_app. destruct (Nat.leb_spec (length rest) (length t + length rest)); [|lia]. replace (length t + length rest - length rest)%nat with (length t) by lia. by rewrite take_app_length.
Qed.

Lemma percent_step rest spec args fuel T a :
  pending spec = false -> (forall spec', pending spec' = false -> format_text symbol rd lim fuel rest spec' args = Some (T, a)) -> format_text symbol rd lim (S fuel) (37 :: 37 :: rest) spec args = Some (37 :: T, a).
Proof.
  intros Hp H. eapply (format_step symbol rd lim fuel (37 :: 37 :: rest) spec args _ _ [37]); [done|rewrite format_decode_token, decode_token_percent by done; reflexivity|reflexivity|by apply H].
Qed.

Lemma conversion_chars_first c tail : let t := conversion_chars c ++ tail in ends (cur t) = true /\ flag_of (cur t) = None /\ (cur t =? 0) = false.
Proof. by destruct c as [[]| | |e]. Qed.

Lemma directive_step fs w p q c rest spec args fuel t args1 T a :
  pending spec = false -> count_ok 1 w = true -> Forall arg_ok args -> (match c with Pointer _ => isalnum (cur rest) = false | _ => True end) ->
  directive_meaning symbol rd lim (Conversion fs w p q c) args = Some (t, args1) ->
  (forall spec', pending spec' = false -> format_text symbol rd lim fuel rest spec' args1 = Some (T, a)) ->
  format_text symbol rd lim (3 + fuel) (directive_chars (Conversion fs w p q c) ++ rest) spec args = Some (t ++ T, a).
Proof.
  intros Hp Hw Ha Hrest Hm H. cbn [directive_meaning] in Hm. destruct (field_of fs w p args) as [[f args']|] eqn:Ef; [|done]. cbn [mbind option_bind] in Hm. apply field_of_inv in Ef as (wv & a1 & pv & Ew & Ep & -> & Hwv & Hpv).
  assert (Ha' : Forall arg_ok args') by (eapply fetch_count_ok; [eapply fetch_count_ok; [exact Ha|exact Ew]|exact Ep]). destruct (conversion_chars_first c rest) as (C1 & C2 & C3).
  replace (directive_chars (Conversion fs w p q c) ++ rest) with (37 :: List.map flag_code fs ++ width_chars w ++ precision_chars p ++ modifier_chars q ++ conversion_chars c ++ rest) by (cbn [directive_chars app]; by rewrite <- !app_assoc).
  destruct (reach_width spec args a1 fs w wv p q (conversion_chars c ++ rest) Hp Hw Ew Hwv C1 C2 C3) as (fmt1 & spec1 & Hr1 & Hc1 & Hd1).
  destruct (reach_precision fmt1 spec1 a1 args' p pv q _ _ _ _ _ _ Hc1 Hd1 Ep Hpv C1 C3) as (fmt2 & spec2 & Hr2 & Hc2 & Hd2). destruct (flag_word_stands fs wv pv _ (base spec) _ (modifier_value q) eq_refl eq_refl) as (S & F1 & F2).
  edestruct (conversion_step _ q c rest args' t args1 _ _ _ _ S) as (spec3 & r3 & spec4 & Hd3 & Hc3 & Hp3); [|exact F1|exact F2|exact Ha'|exact Hrest|exact Hm|].
  { split; cbn [f_width f_prec]; intros n; [destruct wv; intros E; [injection E as <-; lia|done]|intros ->; done]. }
  apply Hr1, Hr2. eapply format_step; [exact Hc2|rewrite Hd2; exact Hd3|apply Hc3|by apply H].
Qed.

Lemma render_first d ds : directive_ok d ds = true -> match d with Text _ => False | _ => True end -> cur (render (d :: ds)) = 37.
Proof. by destruct d. Qed.

Lemma format_meaning ds : forall spec args T a, format_ok ds = true -> pending spec = false -> Forall arg_ok args -> meaning symbol rd lim ds args = Some (T, a) ->
  format_text symbol rd lim (2 * length (render ds)) (render ds) spec args = Some (T, a).
Proof.
  induction ds as [|d ds IH]; intros spec args T a Hok Hp Ha H; [by injection H as <- <-|]. cbn [format_ok meaning] in *. apply andb_true_iff in Hok as [Hd Hok]. destruct (directive_meaning symbol rd lim d args) as [[t a1]|] eqn:Em; [|done]. cbn [mbind option_bind] in H.
  destruct (meaning symbol rd lim ds a1) as [[T' a2]|] eqn:Er; [|done]. injection H as <- <-. cbn [render]. set (n := length (render ds)).
  assert (Hnext : Forall arg_ok a1 -> forall spec', pending spec' = false -> format_text symbol rd lim (2 * n) (render ds) spec' a1 = Some (T', a2)) by (intros Ha1 spec' Hp'; by apply IH).
  destruct d as [t'| |fs w p q c].
  - injection Em as <- <-. cbn [directive_ok] in Hd. rewrite !andb_true_iff in Hd. destruct Hd as [[H1 H2] H3]. apply negb_true_iff, Nat.eqb_neq in H1. apply (format_text_more (S (2 * n))); [cbn [directive_chars]; rewrite length_app; fold n; lia|]. apply text_step; try done; [by destruct t'| | |by apply Hnext].
    + apply List.Forall_forall. intros c Hc. rewrite forallb_forall in H2. specialize (H2 c Hc). by rewrite andb_true_iff, !negb_true_iff, !Z.eqb_neq in H2.
    + destruct ds as [|d ds]; [by left|]. right. apply render_first with (ds := ds); [|by destruct d]. cbn [format_ok] in Hok. by apply andb_true_iff in Hok as [? _].
  - injection Em as <- <-. apply (format_text_more (S (2 * n))); [simpl; fold n; lia|]. apply percent_step; [done|by apply Hnext].
  - apply (format_text_more (3 + 2 * n)); [rewrite length_app; fold n; cbn [directive_chars length]; rewrite !length_app; destruct c; simpl; lia|]. cbn [directive_ok] in Hd. rewrite !andb_true_iff in Hd. destruct Hd as [[H1 H2] H3].
    apply (directive_step _ _ _ _ _ _ _ _ _ _ a1); try done; [destruct c; try done; by apply andb_true_iff in H3 as [_ ?%negb_true_iff]|]. apply Hnext. cbn [directive_meaning] in Em. destruct (field_of fs w p args) as [[f args']|] eqn:Ef; [|done]. cbn [mbind option_bind] in Em.
    apply field_of_inv in Ef as (wv & a3 & pv & Ew & Ep & _). eapply conversion_meaning_ok; [|exact Em]. eapply fetch_count_ok; [eapply fetch_count_ok; [exact Ha|exact Ew]|exact Ep].
Qed.

End one.
(** C15. [vsnprintf] prints what the format means, and no more than fits.  For every format
    (any sequence of texts, [%%] and conversions [d i u o x X c s p] with any flags, width,
    precision, [*], length and pointer extension) whose meaning is [T]: the number of
    characters of [T] is returned, the arguments that [T] needs have been fetched, and
    memory differs from before only in the buffer, which holds the first [size - 1]
    characters of [T] and a NUL behind them; with no room nothing is written.  The strings
    and structures the arguments point to lie outside the buffer.  The meaning is that of
    C99 and leaves open what C99 wants otherwise than the code prints: [%zd], [%tu], a
    negative precision argument, and the cases of [departs]. *)
Theorem vsnprintf_correct symbol lim m buf size ds args T args' :
  (forall c v, Forall (fun x => x <> 0) (symbol c v)) -> is_bytes m -> zlen m < 2 ^ 32 -> 0 <= buf -> 0 <= size < 2 ^ 31 -> buf + size <= zlen m ->
  format_ok ds = true -> Forall arg_ok args -> meaning symbol (reader m buf (buf + size)) lim ds args = Some (T, args') -> zlen T < 2 ^ 31 ->
  exists m', vsnprintf symbol m buf size (render ds) args = Some (m', zlen T, args') /\
    if size =? 0 then m' = m else write_bytes m buf (clip (size - 1) T ++ [0]) = Some m'.
Proof. intros Hsym Hm Hz H0 Hs Hb Hok Ha HT Hl. by apply (vsnprintf_ok symbol lim); [..|apply format_meaning|]. Qed.

(** "%s=%#o %*x%hd%%" with room for thirteen characters; the string "hi" is at address
    4096, the width is -4 and the short is 65535. *)
Lemma vsnprintf_correct_witness :
  let m := replicate 16 1 ++ replicate 4080 0 ++ [104; 105; 0] in
  let ds := [Conversion [] None None Mnone String; Text [61]; Conversion [Hash] None None Mnone (Integer Co); Text [32]; Conversion [] (Some Star) None Ml (Integer Cx); Conversion [] None None Mh (Integer Cd); Percent] in
  render ds = [37; 115; 61; 37; 35; 111; 32; 37; 42; 108; 120; 37; 104; 100; 37; 37] /\
  exists m', vsnprintf (fun _ _ => []) m 0 13 (render ds) [Word 4096; Word 8; Word (2 ^ 32 - 4); Word 255; Word 65535] = Some (m', 14, []) /\
    write_bytes m 0 ([104; 105] ++ [61] ++ [48; 49; 48] ++ [32] ++ [102; 102; 32; 32] ++ [45] ++ [0]) = Some m'.
Proof.
  intros m ds. split; [reflexivity|].
  apply (vsnprintf_correct (fun _ _ => []) 8 m 0 13 ds [Word 4096; Word 8; Word (2 ^ 32 - 4); Word 255; Word 65535] [104; 105; 61; 48; 49; 48; 32; 102; 102; 32; 32; 45; 49; 37] []);
    [constructor| |unfold m, zlen; simpl; lia|lia|lia|unfold m, zlen; simpl; lia|reflexivity|repeat (constructor; [cbn [arg_ok]; lia|]); constructor|vm_compute; reflexivity|unfold zlen; simpl; lia].
  unfold m, is_bytes. rewrite !Forall_app. split_and!; [by apply Forall_replicate|by apply Forall_replicate|repeat constructor; lia].
Defined.

(** ** Where the code departs from C99 *)

Definition prints (fmt : list Z) (args : list arg) : option (list Z) := '(m', n, _) ← vsnprintf (fun _ _ => []) (replicate 24 1) 0 24 fmt args; Some (take (Z.to_nat n) m').

(** "%#x" of 0 prints 0x0 instead of 0, "%#o" of 0 prints 00 instead of 0. *)
Lemma alternate_zero : prints [37; 35; 120] [Word 0] = Some [48; 120; 48] /\ prints [37; 35; 111] [Word 0] = Some [48; 48].
Proof. split; reflexivity. Qed.

(** "%#.3o" of 8 prints 0010 instead of 010. *)
Lemma alternate_octal_precision : prints [37; 35; 46; 51; 111] [Word 8] = Some [48; 48; 49; 48].
Proof. vm_compute. reflexivity. Qed.

(** "%05.2d" of 7 prints 00007 instead of 07 after three blanks. *)
Lemma zero_flag_with_precision : prints [37; 48; 53; 46; 50; 100] [Word 7] = Some [48; 48; 48; 48; 55].
Proof. vm_compute. reflexivity. Qed.

(** "%.0d" of 0 prints 0 instead of nothing. *)
Lemma zero_with_precision_zero : prints [37; 46; 48; 100] [Word 0] = Some [48].
Proof. vm_compute. reflexivity. Qed.

(** "%tx" of 4294967295 prints sixteen digits. *)
Lemma percent_tx_extended : prints [37; 116; 120] [Word (2 ^ 32 - 1)] = Some (replicate 16 102).
Proof. vm_compute. reflexivity. Qed.

(** "%.*s" with the precision -1 prints nothing instead of the whole string, and "%.s" the
    whole string instead of nothing. *)
Lemma string_precision_lost :
  let m := replicate 16 1 ++ replicate 4080 0 ++ [104; 105; 0] in
  let run fmt args := '(m', n, _) ← vsnprintf (fun _ _ => []) m 0 8 fmt args; Some (take 4 m', n) in
  run [37; 46; 42; 115] [Word (2 ^ 32 - 1); Word 4096] = Some ([0; 1; 1; 1], 0) /\ run [37; 46; 115] [Word 4096] = Some ([104; 105; 0; 1], 2).
Proof. split; vm_compute; reflexivity. Qed.

End Printf.
