(* ===== verification/Cmdline.v ===== *)
(** * lib/cmdline.c: numbers and lists of numbers in options

    A string is in the byte memory of lib/string.c, a pointer to it is an address or NULL
    ([None]).  The integers that are read go into an array of their own; a store outside it
    is [None]. *)
From S2P Require Import Prelude Bitops Memcopy Ctype CString Number.
Import Memcopy Ctype CString Number.

Module Cmdline.

Definition get_int (ints : list Z) (i : Z) : option Z := if 0 <=? i then ints !! Z.to_nat i else None.

Definition set_int (ints : list Z) (i v : Z) : option (list Z) := if (0 <=? i) && (i <? zlen ints) then Some (<[Z.to_nat i := v]> ints) else None.

(** The result, what is stored in [*pint], if anything, and [*str] *)
Definition get_option (m : list Z) (str : option Z) : option (Z * option Z * option Z) :=
  match str with
  | None => Some (0, None, None)
  | Some cur =>
      c ← load_byte m cur;
      if c =? 0 then Some (0, None, Some cur)
      else
        '(v, e) ← simple_strtol m cur 0;
        if cur =? e then Some (0, Some v, Some e)
        else
          c ← load_byte m e;
          Some (if c =? 44 then (2, Some v, Some (e + 1)) else if c =? 45 then (3, Some v, Some e) else (1, Some v, Some e))
  end.

Fixpoint range_loop (n : nat) (ints : list Z) (i x : Z) : option (list Z) :=
  match n with
  | O => Some ints
  | S n => ints ← set_int ints i x; range_loop n ints (i + 1) (x + 1)
  end.

(** The result, the array and [*str]; [pint] is [ints + i]. *)
Definition get_range (m : list Z) (str : Z) (ints : list Z) (i : Z) : option (Z * list Z * Z) :=
  let str := str + 1 in
  '(upper_range, _) ← simple_strtol m str 0;
  x ← get_int ints i;
  let inc_counter := s32 (upper_range - x) in
  ints ← range_loop (Z.to_nat (upper_range - x)) ints i x;
  Some (inc_counter, ints, str).

Fixpoint options_loop (fuel : nat) (m : list Z) (str : option Z) (nints : Z) (ints : list Z) (i : Z) : option (option Z * list Z * Z) :=
  match fuel with
  | O => None
  | S fuel =>
      if negb (i <? nints) then Some (str, ints, i)
      else
        '(res, v, str) ← get_option m str;
        ints ← match v with Some v => set_int ints i v | None => Some ints end;
        if res =? 0 then Some (str, ints, i)
        else if res =? 3 then
          p ← str;
          '(range_nums, ints, p) ← get_range m p ints i;
          if range_nums <? 0 then Some (Some p, ints, i)
          else options_loop fuel m (Some p) nints ints (s32 (s32 (i + (range_nums - 1)) + 1))
        else if res =? 1 then Some (str, ints, s32 (i + 1))
        else options_loop fuel m str nints ints (s32 (i + 1))
  end.

(** [ints] and where the parse ended *)
Definition get_options (m : list Z) (str : option Z) (nints : Z) (ints : list Z) : option (option Z * list Z) :=
  '(str, ints, i) ← options_loop (fuel_of m) m str nints ints 1;
  ints ← set_int ints 0 (s32 (i - 1));
  Some (str, ints).

(** The value and [endptr] *)
Definition memparse (m : list Z) (ptr : Z) : option (Z * Z) :=
  '(ret, endptr) ← simple_strtoull m ptr 0;
  c ← load_byte m endptr;
  let shl x := wrap 64 (Z.shiftl x 10) in
  Some (if (c =? 71) || (c =? 103) then (shl (shl (shl ret)), endptr + 1)
        else if (c =? 77) || (c =? 109) then (shl (shl ret), endptr + 1)
        else if (c =? 75) || (c =? 107) then (shl ret, endptr + 1)
        else (ret, endptr)).


(** ** Decimal numbers and what follows them *)

Definition dec (n : Z) : list Z := rev (List.map (dchar 0) (digits_of 22 10 n)).

(** What ends a decimal number *)
Definition stops (rest : list Z) : Prop := match rest with [] => True | c :: _ => isxdigit c = false /\ TOLOWER c <> 120 end.

Lemma dec_numeral n : 0 <= n < 2 ^ 64 -> numeral 10 (digits_of 22 10 n) n = true.
Proof.
  intros Hn. destruct (number_ok [] 0 0 n (mkspec FORMAT_TYPE_UINT 0 (-1) 10 (-1) (-1))) as (_ & H & _); [simpl; lia|done|split; simpl; lia|]. change (signed_value _ n) with n in H. cbn [base] in H. by rewrite Z.abs_eq in H by lia.
Qed.

Lemma dec_chars_of n : 0 <= n < 2 ^ 64 -> exists d es, dec n = List.map (dchar 0) (d :: es) /\ Forall (fun d => 0 <= d < 10) (d :: es) /\ (d = 0 -> es = []) /\ horner 10 0 (d :: es) = n.
Proof.
  intros Hn. pose proof (dec_numeral n Hn) as Hnum. destruct (rev_numeral 10 _ n Hnum) as (d & es & E & Hf & Hz). exists d, es. unfold dec. rewrite <- List.map_rev, E. split; [done|]. split; [done|]. split; [done|]. rewrite <- E, horner_rev. apply (proj1 (proj2 (proj1 (numeral_spec _ _ _) Hnum))).
Qed.

Lemma lead_stop b es rest : b <= 16 -> Forall (fun d => 0 <= d < b) es -> stops rest -> lead b (List.map (dchar 0) es ++ rest) = es.
Proof.
  intros Hb H Hr. induction H as [|d es Hd _ IH]; simpl.
  - destruct rest as [|c rest]; [done|]. simpl. unfold valid. by destruct Hr as [-> _].
  - destruct (dchar_valid b 0 d ltac:(by left) Hb Hd) as [-> ->]. by rewrite IH.
Qed.

Lemma parse_dec w n rest : 0 <= n < 2 ^ 64 -> stops rest -> parse w 0 (dec n ++ rest) = (wrap w n, zlen (dec n)).
Proof.
  intros Hn Hr. destruct (dec_chars_of n Hn) as (d & es & -> & Hf & Hz & Hv). assert (Hd : 0 <= d < 10) by by apply Forall_cons in Hf as [? _]. destruct (dchar_range 0 d ltac:(by left) ltac:(lia)) as (_ & Hx & H0). unfold parse. change (0 =? 0) with true. cbv iota. rewrite zlen_map. destruct (decide (d = 0)) as [->|Hd0].
  - assert (es = []) as -> by auto. subst n. assert (Hg : guess_base (List.map (dchar 0) [0] ++ rest) = 8).
    { unfold guess_base. cbn [List.map app nth]. change (dchar 0 0 =? 48) with true. cbv iota. destruct rest as [|c rest]; [done|]. cbn [nth]. destruct Hr as [_ Hr]. by rewrite (proj2 (Z.eqb_neq _ _) Hr). }
    rewrite Hg. change (8 =? 16) with false. cbn [andb]. cbv iota zeta. rewrite drop_0. rewrite lead_stop; [done|lia|repeat constructor; lia|done].
  - assert (Hg : guess_base (List.map (dchar 0) (d :: es) ++ rest) = 10) by (unfold guess_base; cbn [List.map app nth]; destruct (Z.eqb_spec (dchar 0 d) 48); [tauto|done]).
    rewrite Hg. change (10 =? 16) with false. cbn [andb]. cbv iota zeta. rewrite drop_0. rewrite lead_stop, Hv by (lia || done). done.
Qed.

Lemma dec_head n : 0 <= n < 2 ^ 64 -> exists c cs, dec n = c :: cs /\ 48 <= c <= 102.
Proof.
  intros Hn. destruct (dec_chars_of n Hn) as (d & es & -> & Hf & _). apply Forall_cons in Hf as [Hd _]. destruct (dchar_range 0 d ltac:(by left) ltac:(lia)) as [Hr _]. eexists _, _. split; [reflexivity|done].
Qed.

Lemma cstr_app_drop m a s t : cstr m a (s ++ t) -> cstr m (a + zlen s) t.
Proof. intros H. pose proof (cstr_drop m a (s ++ t) (zlen s) H ltac:(rewrite zlen_app; unfold zlen; lia)) as Hd. unfold zlen in Hd at 2. rewrite Nat2Z.id, drop_app_length in Hd. done. Qed.

Lemma strtol_dec m a n rest : 0 <= n < 2 ^ 31 -> stops rest -> cstr m a (dec n ++ rest) -> simple_strtol m a 0 = Some (n, a + zlen (dec n)).
Proof.
  intros Hn Hr Hc. unfold simple_strtol. rewrite (simple_strto_signed_ok 32 m a _ 0 ltac:(lia) Hc). unfold with_sign. destruct (dec_head n ltac:(lia)) as (c & cs & E & Hcr). rewrite E at 1. cbn [app nth]. destruct (Z.eqb_spec c 45); [lia|]. rewrite (parse_dec 32 n rest ltac:(lia) Hr). cbn [fst snd]. unfold wrap. rewrite Z.mod_small, swrap_id by lia. do 2 f_equal. lia.
Qed.

Lemma get_option_dec m a n rest : 0 <= n < 2 ^ 31 -> stops rest -> cstr m a (dec n ++ rest) ->
  get_option m (Some a) = Some (match rest with 44 :: _ => (2, Some n, Some (a + zlen (dec n) + 1)) | 45 :: _ => (3, Some n, Some (a + zlen (dec n))) | _ => (1, Some n, Some (a + zlen (dec n))) end).
Proof.
  intros Hn Hr Hc. destruct (dec_head n ltac:(lia)) as (c & cs & E & Hcr). unfold get_option. rewrite (cstr_head m a _ Hc). rewrite E at 1. cbn [app nth mbind option_bind]. destruct (Z.eqb_spec c 0); [lia|]. rewrite (strtol_dec m a n rest Hn Hr Hc). cbn [mbind option_bind].
  assert (0 < zlen (dec n)) by (rewrite E; unfold zlen; simpl; lia). destruct (Z.eqb_spec a (a + zlen (dec n))); [lia|]. rewrite (cstr_head _ _ _ (cstr_app_drop _ _ _ _ Hc)). cbn [mbind option_bind]. f_equal. destruct rest as [|x rest]; [done|]. cbn [nth].
  destruct (Z.eqb_spec x 44) as [->|H44]; [done|]. destruct (Z.eqb_spec x 45) as [->|H45]; [done|]. destruct x as [|x|x]; [done| |done]. do 6 (destruct x as [x|x|]; try done).
Qed.


(** ** Lists of numbers and ranges *)

Inductive item := One (n : Z) | Range (lo hi : Z).

Definition item_ok (x : item) : Prop := match x with One n => 0 <= n < 2 ^ 31 | Range lo hi => 0 <= lo /\ lo <= hi < 2 ^ 31 end.

(** How it is written *)
Definition item_text (x : item) : list Z := match x with One n => dec n | Range lo hi => dec lo ++ 45 :: dec hi end.

Fixpoint options_text (l : list item) : list Z :=
  match l with
  | [] => []
  | [x] => item_text x
  | x :: l => item_text x ++ 44 :: options_text l
  end.

(** What it stands for *)
Definition item_values (x : item) : list Z := match x with One n => [n] | Range lo hi => seqZ lo (hi - lo + 1) end.

Definition options_values (l : list item) : list Z := concat (List.map item_values l).

Definition tokens (l : list item) : nat := list_sum (List.map (fun x => match x with One _ => 1 | Range _ _ => 2 end)%nat l).

Lemma set_int_app pre x old v : set_int (pre ++ x :: old) (zlen pre) v = Some (pre ++ v :: old).
Proof.
  unfold set_int. pose proof (zlen_nonneg pre). rewrite zlen_app. assert (zlen (x :: old) = 1 + zlen old) as -> by (unfold zlen; simpl; lia). pose proof (zlen_nonneg old). destruct (Z.leb_spec 0 (zlen pre)), (Z.ltb_spec (zlen pre) (zlen pre + (1 + zlen old))); try lia. cbn [andb]. f_equal. unfold zlen. rewrite Nat2Z.id. rewrite insert_app_r_alt by lia. by rewrite Nat.sub_diag.
Qed.

Lemma get_int_app pre x old : get_int (pre ++ x :: old) (zlen pre) = Some x.
Proof. unfold get_int. destruct (Z.leb_spec 0 (zlen pre)); [|unfold zlen in *; lia]. unfold zlen. rewrite Nat2Z.id, lookup_app_r, Nat.sub_diag by lia. done. Qed.

Lemma range_loop_ok n : forall pre old x, (n <= length old)%nat -> range_loop n (pre ++ old) (zlen pre) x = Some (pre ++ seqZ x (Z.of_nat n) ++ drop n old).
Proof.
  induction n as [|n IH]; intros pre old x Hn; cbn [range_loop]; [rewrite seqZ_nil by lia; by rewrite drop_0|]. destruct old as [|y old]; [simpl in Hn; lia|]. rewrite set_int_app. cbn [mbind option_bind]. rewrite (app_assoc pre [x] old : pre ++ x :: old = _).
  replace (zlen pre + 1) with (zlen (pre ++ [x])) by (rewrite zlen_app; done). rewrite IH by (simpl in Hn; lia). rewrite <- app_assoc. rewrite (seqZ_cons x (Z.of_nat (S n))) by lia. replace (Z.pred (Z.of_nat (S n))) with (Z.of_nat n) by lia. done.
Qed.

Lemma stops_comma l : stops (44 :: l).
Proof. by split. Qed.

Lemma stops_minus l : stops (45 :: l).
Proof. by split. Qed.

Lemma options_text_range lo hi l : options_text (Range lo hi :: l) = dec lo ++ 45 :: options_text (One hi :: l).
Proof. destruct l as [|y l]; cbn [options_text item_text]; [done|]. by rewrite <- app_assoc. Qed.


Lemma options_loop_ok m nints : nints < 2 ^ 31 -> forall k l fuel a pre old, (tokens l <= k)%nat -> l <> [] -> Forall item_ok l -> cstr m a (options_text l) -> (k < fuel)%nat ->
  zlen (pre ++ old) = nints -> (length (options_values l) <= length old)%nat -> 1 <= zlen pre ->
  options_loop fuel m (Some a) nints (pre ++ old) (zlen pre) = Some (Some (a + zlen (options_text l)), pre ++ options_values l ++ drop (length (options_values l)) old, zlen pre + zlen (options_values l)).
Proof.
  intros Hn31. induction k as [|k IH]; intros l fuel a pre old Hk Hne Hok Hc Hf Hlen Hroom Hpre; (destruct l as [|x l]; [done|]); [destruct x; unfold tokens in Hk; simpl in Hk; lia|]. destruct fuel as [|fuel]; [lia|]. cbn [options_loop]. apply Forall_cons in Hok as [Hx Hok].
  assert (Hold : exists y old', old = y :: old'). { destruct old as [|y old']; [|by eexists _, _]. exfalso. unfold options_values in Hroom. cbn [List.map concat] in Hroom. rewrite length_app in Hroom. destruct x as [n|lo hi]; cbn [item_values] in Hroom; [simpl in Hroom; lia|]. rewrite length_seqZ in Hroom. destruct Hx. simpl in Hroom. lia. }
  destruct Hold as (y & old' & ->). assert (Hi : zlen pre < nints) by (rewrite <- Hlen, zlen_app; unfold zlen; simpl; lia). destruct (Z.ltb_spec (zlen pre) nints); [|lia]. cbn [negb].
  assert (Hs32 : forall z, 0 <= z <= nints -> s32 z = z) by (intros z Hz; apply s32_id; lia).
  destruct x as [n|lo hi].
  - assert (Hval : options_values (One n :: l) = n :: options_values l) by done. rewrite Hval in *. assert (Hpre' : zlen pre + 1 = zlen (pre ++ [n])) by (rewrite zlen_app; done). destruct l as [|x' l].
    + cbn [options_text item_text] in *. rewrite <- (app_nil_r (dec n)) in Hc. rewrite (get_option_dec m a n [] Hx I Hc). cbn [mbind option_bind]. rewrite set_int_app. cbn [mbind option_bind]. change (1 =? 0) with false. change (1 =? 3) with false. change (1 =? 1) with true. cbv iota. rewrite Hs32 by lia. done.
    + change (options_text (One n :: x' :: l)) with (dec n ++ 44 :: options_text (x' :: l)) in *. rewrite (get_option_dec m a n _ Hx (stops_comma _) Hc). cbn [mbind option_bind]. rewrite set_int_app. cbn [mbind option_bind]. change (2 =? 0) with false. change (2 =? 3) with false. change (2 =? 1) with false. cbv iota. rewrite Hs32 by lia.
      rewrite Hpre', (app_assoc pre [n] old' : pre ++ n :: old' = _). rewrite (IH (x' :: l) fuel (a + zlen (dec n) + 1) (pre ++ [n]) old'); try done.
      * rewrite <- app_assoc, !zlen_app. cbn [app length drop]. change (zlen [n]) with 1. rewrite (zlen_cons 44), (zlen_cons n). do 2 f_equal; [do 2 f_equal; lia|lia].
      * unfold tokens in *. simpl in *. lia.
      * apply cstr_app_drop in Hc. by destruct Hc as (_ & _ & Hc).
      * lia.
      * rewrite <- Hlen, !zlen_app. unfold zlen. simpl. lia.
      * simpl in Hroom. lia.
      * rewrite zlen_app. unfold zlen in *. simpl. lia.
  - destruct Hx as [Hlo Hhi]. rewrite options_text_range in *. rewrite (get_option_dec m a lo _ ltac:(lia) (stops_minus _) Hc). cbn [mbind option_bind]. rewrite set_int_app. cbn [mbind option_bind]. change (3 =? 0) with false. change (3 =? 3) with true. cbv iota. unfold get_range. cbv zeta. pose proof (cstr_app_drop _ _ _ _ Hc) as (_ & _ & Hc').
    assert (Hval : options_values (Range lo hi :: l) = seqZ lo (hi - lo) ++ options_values (One hi :: l)). { unfold options_values. cbn [List.map concat item_values]. rewrite seqZ_app by lia. rewrite <- app_assoc. do 2 f_equal. replace (lo + (hi - lo)) with hi by lia. done. }
    rewrite Hval in *. rewrite length_app, length_seqZ in Hroom.
    assert (Hstr : simple_strtol m (a + zlen (dec lo) + 1) 0 = Some (hi, a + zlen (dec lo) + 1 + zlen (dec hi))). { destruct l as [|x' l]; cbn [options_text item_text] in Hc'; [apply (strtol_dec m _ hi []); [lia|done|by rewrite app_nil_r]|apply (strtol_dec m _ hi (44 :: options_text (x' :: l))); [lia|apply stops_comma|done]]. }
    rewrite Hstr. cbn [mbind option_bind]. rewrite get_int_app. cbn [mbind option_bind]. rewrite (range_loop_ok (Z.to_nat (hi - lo)) pre (lo :: old') lo) by (simpl in *; lia). rewrite Z2Nat.id by lia. cbn [mbind option_bind]. assert (Hvh : options_values (One hi :: l) = hi :: options_values l) by done. assert (Hzl : zlen (pre ++ y :: old') = zlen pre + 1 + zlen old') by (rewrite zlen_app; unfold zlen; simpl; lia).
    assert (Hd : hi - lo <= zlen old') by (rewrite Hvh in Hroom; unfold zlen; simpl in Hroom; lia). rewrite (s32_id (hi - lo)) by lia. destruct (Z.ltb_spec (hi - lo) 0); [lia|]. rewrite !(s32_id) by (rewrite ?s32_id by lia; lia).
    assert (Hsz : zlen (seqZ lo (hi - lo)) = hi - lo) by (unfold zlen; rewrite length_seqZ; lia). replace (zlen pre + (hi - lo - 1) + 1) with (zlen (pre ++ seqZ lo (hi - lo))) by (rewrite zlen_app, Hsz; lia). rewrite (app_assoc pre).
    rewrite (IH (One hi :: l) fuel (a + zlen (dec lo) + 1) (pre ++ seqZ lo (hi - lo)) (drop (Z.to_nat (hi - lo)) (lo :: old'))); try done.
    + rewrite <- !app_assoc, !zlen_app, Hsz, drop_drop, length_app, length_seqZ. assert (Hdr : drop (Z.to_nat (hi - lo) + length (options_values (One hi :: l))) (lo :: old') = drop (Z.to_nat (hi - lo) + length (options_values (One hi :: l))) (y :: old')) by (rewrite Hvh; simpl; by rewrite Nat.add_succ_r). rewrite Hdr.
      rewrite (zlen_cons 45). do 2 f_equal; [do 2 f_equal; lia|lia].
    + unfold tokens in *. simpl in *. lia.
    + constructor; [simpl; lia|done].
    + lia.
    + rewrite <- Hlen, !zlen_app. unfold zlen at 2. rewrite length_seqZ. unfold zlen. rewrite length_drop. simpl in *. lia.
    + rewrite length_drop. simpl in *. lia.
    + rewrite zlen_app. pose proof (zlen_nonneg (seqZ lo (hi - lo))). lia.
Qed.


Lemma dec_length n : 0 <= n < 2 ^ 64 -> (1 <= length (dec n))%nat.
Proof. intros Hn. destruct (dec_head n Hn) as (c & cs & -> & _). simpl. lia. Qed.

Lemma tokens_length l : Forall item_ok l -> (tokens l <= length (options_text l))%nat.
Proof.
  induction 1 as [|x l Hx _ IH]; [done|]. assert (Hi : (tokens [x] <= length (item_text x))%nat).
  { destruct x as [n|lo hi]; unfold tokens; simpl in *; [pose proof (dec_length n ltac:(lia)); lia|]. rewrite length_app. pose proof (dec_length lo ltac:(lia)). simpl. lia. }
  unfold tokens in *. destruct l as [|y l]; [exact Hi|]. change (options_text (x :: y :: l)) with (item_text x ++ 44 :: options_text (y :: l)). rewrite length_app. cbn [List.map list_sum foldr] in *. simpl in *. lia.
Qed.

(** C26. [get_options] reads back a list of numbers and ranges: written as decimal numbers with hyphens and commas, the list fills the array with its values in order, each range from its lower to its upper end, and their number in front, if there is room for all of them; the rest of the array stays as it is, and the end of the string is returned. *)
Theorem get_options_correct m a l nints ints : l <> [] -> Forall item_ok l -> cstr m a (options_text l) -> zlen ints = nints -> nints < 2 ^ 31 -> zlen (options_values l) < nints ->
  get_options m (Some a) nints ints = Some (Some (a + zlen (options_text l)), zlen (options_values l) :: options_values l ++ drop (S (length (options_values l))) ints).
Proof.
  intros Hne Hok Hc Hlen Hn31 Hroom. destruct ints as [|x old]; [pose proof (zlen_nonneg (options_values l)); change (zlen []) with 0 in Hlen; lia|]. unfold get_options. rewrite zlen_cons in Hlen. pose proof (cstr_fuel m a _ Hc). pose proof (tokens_length l Hok).
  pose proof (options_loop_ok m nints Hn31 (tokens l) l (fuel_of m) a [x] old ltac:(lia) Hne Hok Hc ltac:(lia)) as E. change (zlen [x]) with 1 in E. change ([x] ++ old) with (x :: old) in E. rewrite E; [|by rewrite zlen_cons|unfold zlen in *; lia|lia]. cbn [mbind option_bind].
  pose proof (zlen_nonneg (options_values l)). rewrite s32_id by lia. replace (1 + zlen (options_values l) - 1) with (zlen (options_values l)) by lia. pose proof (set_int_app [] x (options_values l ++ drop (length (options_values l)) old) (zlen (options_values l))) as Hs. change (zlen []) with 0 in Hs. cbn [app] in Hs |- *. rewrite Hs. done.
Qed.

(** "1,3-5,8" *)
Lemma get_options_correct_witness : options_text [One 1; Range 3 5; One 8] = [49; 44; 51; 45; 53; 44; 56] /\ get_options [49; 44; 51; 45; 53; 44; 56; 0] (Some 0) 8 (replicate 8 (-1)) = Some (Some 7, [5; 1; 3; 4; 5; 8; -1; -1]).
Proof.
  split; [reflexivity|]. apply (get_options_correct [49; 44; 51; 45; 53; 44; 56; 0] 0 [One 1; Range 3 5; One 8] 8 (replicate 8 (-1))); [done|repeat constructor; simpl; lia|repeat split; done|done|lia|done].
Defined.

(** A range is written without a look at the size of the array: "1-9" into four integers *)
Lemma get_range_overflows : get_options [49; 45; 57; 0] (Some 0) 4 (replicate 4 (-1)) = None.
Proof. reflexivity. Qed.

(** A hyphen with no digit is read as the number 0. *)
Lemma get_option_hyphen : get_option [45; 0] (Some 0) = Some (1, Some 0, Some 1).
Proof. reflexivity. Qed.

(** The power of two a suffix stands for *)
Definition suffix (c : Z) : Z := if (c =? 71) || (c =? 103) then 30 else if (c =? 77) || (c =? 109) then 20 else if (c =? 75) || (c =? 107) then 10 else 0.

Lemma shl_plain x : wrap 64 (Z.shiftl x 10) = wrap 64 (x * 2 ^ 10).
Proof. by rewrite Z.shiftl_mul_pow2 by lia. Qed.

Lemma shl_wrap x : wrap 64 (Z.shiftl (wrap 64 x) 10) = wrap 64 (x * 2 ^ 10).
Proof. unfold wrap. rewrite Z.shiftl_mul_pow2 by lia. by rewrite Z.mul_mod_idemp_l by lia. Qed.

(** [memparse] reads the longest prefix that is a number, in C notation, and multiplies it by what its suffix stands for, modulo 2^64. *)
Theorem memparse_correct m a s : cstr m a s ->
  let '(v, n) := parse 64 0 s in let k := suffix (nth (Z.to_nat n) s 0) in memparse m a = Some (wrap 64 (v * 2 ^ k), a + n + (if k =? 0 then 0 else 1)).
Proof.
  intros Hc. destruct (parse 64 0 s) as [v n] eqn:E. unfold memparse, simple_strtoull. rewrite (simple_strto_ok 64 m a s 0 ltac:(lia) Hc), E. cbn [mbind option_bind fst snd]. pose proof (parse_bounds 64 0 s) as Hb. rewrite E in Hb. cbn [snd] in Hb.
  replace (a + n) with (a + Z.of_nat (Z.to_nat n)) at 1 by lia. rewrite (cstr_nth m a s (Z.to_nat n) Hc) by (unfold zlen in Hb; lia). cbn [mbind option_bind]. assert (Hv : wrap 64 v = v) by (unfold parse in E; injection E as <- _; unfold wrap; apply Z.mod_mod; lia). set (c := nth (Z.to_nat n) s 0). unfold suffix.
  destruct ((c =? 71) || (c =? 103)); [rewrite (shl_plain v), (shl_wrap (v * 2 ^ 10)), ?(shl_wrap (v * 2 ^ 10 * 2 ^ 10)); replace (v * 2 ^ 10 * 2 ^ 10 * 2 ^ 10) with (v * 2 ^ 30) by lia; done|]. destruct ((c =? 77) || (c =? 109)); [rewrite (shl_plain v), (shl_wrap (v * 2 ^ 10)), ?(shl_wrap (v * 2 ^ 10 * 2 ^ 10)); replace (v * 2 ^ 10 * 2 ^ 10) with (v * 2 ^ 20) by lia; done|]. destruct ((c =? 75) || (c =? 107)); [by rewrite shl_plain|]. change (0 =? 0) with true. cbv iota. rewrite Z.mul_1_r, Hv, Z.add_0_r. done.
Qed.

(** "0x10M" *)
Lemma memparse_correct_witness : memparse [48; 120; 49; 48; 77; 0] 0 = Some (16 * 2 ^ 20, 5).
Proof. exact (memparse_correct [48; 120; 49; 48; 77; 0] 0 [48; 120; 49; 48; 77] ltac:(repeat split; done)). Defined.

End Cmdline.
