(* ===== verification/BitmapText.v ===== *)
(** * lib/bitmap.c: bitmaps as lists

    The list form of a bitmap: [bitmap_scnlistprintf] and [bitmap_parselist].  Texts are
    in the byte memory of lib/string.c, the bitmap is an array of words of its own. *)
From S2P Require Import Prelude Bitops FindBit Bitmap Memcopy Ctype CString Number Addrstr Vsprintf Cmdline.
Import Bitops Memcopy Ctype CString Number Addrstr Vsprintf Cmdline FindBit.FindBit.

Module BitmapText.

Definition ERANGE : Z := 34.

Definition BASEDEC : Z := 10.

(** ** Printing *)

Section print.
Context (symbol : Z -> Z -> list Z).
Context {finder : BitFinder}.

(** ",", "%d" and "%d-%d" *)
Definition bscnl_emit (m : list Z) (buf buflen rbot rtop len : Z) : option (list Z * Z) :=
  '(m, len) ← (if 0 <? len then '(m, n) ← scnprintf symbol m (buf + len) (u32 (buflen - len)) [44] []; Some (m, s32 (len + n)) else Some (m, len));
  '(m, n) ← (if rbot =? rtop then scnprintf symbol m (buf + len) (u32 (buflen - len)) [37; 100] [Word (u32 rbot)]
             else scnprintf symbol m (buf + len) (u32 (buflen - len)) [37; 100; 45; 37; 100] [Word (u32 rbot); Word (u32 rtop)]);
  Some (m, s32 (len + n)).

Fixpoint list_loop (fuel : nat) (m : list Z) (buf buflen : Z) (maskp : list Z) (nmaskbits rbot cur len : Z) : option (list Z * Z) :=
  if cur <? nmaskbits then
    match fuel with
    | O => None
    | S fuel =>
        let rtop := cur in
        cur ← bf_next maskp nmaskbits (cur + 1);
        if (nmaskbits <=? cur) || (rtop + 1 <? cur) then
          '(m, len) ← bscnl_emit m buf buflen rbot rtop len;
          list_loop fuel m buf buflen maskp nmaskbits cur cur len
        else list_loop fuel m buf buflen maskp nmaskbits rbot cur len
    end
  else Some (m, len).

Definition bitmap_scnlistprintf (m : list Z) (buf buflen : Z) (maskp : list Z) (nmaskbits : Z) : option (list Z * Z) :=
  if buflen =? 0 then Some (m, 0)
  else
    m ← store_byte m buf 0;
    cur ← bf_first maskp nmaskbits;
    list_loop (Z.to_nat nmaskbits) m buf buflen maskp nmaskbits cur cur 0.
End print.

(** ** Parsing *)

Fixpoint set_bits (n : nat) (maskp : list Z) (a : Z) : option (list Z) :=
  match n with
  | O => Some maskp
  | S n => maskp ← Bitmap.set_bit a maskp; set_bits n maskp (a + 1)
  end.

(** The result and the bitmap *)
Fixpoint parselist_loop (fuel : nat) (m : list Z) (bp : Z) (maskp : list Z) (nmaskbits : Z) : option (Z * list Z) :=
  match fuel with
  | O => None
  | S fuel =>
      c ← load_byte m bp;
      if negb (isdigit c) then Some (- EINVAL, maskp)
      else
        '(a, bp) ← simple_strtoul m bp BASEDEC;
        c ← load_byte m bp;
        let continue b bp :=
          if negb (a <=? b) then Some (- EINVAL, maskp)
          else if nmaskbits <=? b then Some (- ERANGE, maskp)
          else
            maskp ← set_bits (Z.to_nat (b - a + 1)) maskp a;
            c ← load_byte m bp;
            let bp := if c =? 44 then bp + 1 else bp in
            c ← load_byte m bp;
            if negb (c =? 0) && negb (c =? 10) then parselist_loop fuel m bp maskp nmaskbits else Some (0, maskp) in
        if c =? 45 then
          c ← load_byte m (bp + 1);
          if negb (isdigit c) then Some (- EINVAL, maskp)
          else '(b, bp) ← simple_strtoul m (bp + 1) BASEDEC; continue b bp
        else continue a bp
  end.

Definition bitmap_parselist (m : list Z) (bp : Z) (maskp : list Z) (nmaskbits : Z) : option (Z * list Z) :=
  maskp ← Bitmap.bitmap_zero maskp nmaskbits;
  parselist_loop (fuel_of m) m bp maskp nmaskbits.

(** ** Texts of the formats *)

(** "%d" *)
Definition int_spec : printf_spec := mkspec FORMAT_TYPE_INT SIGN (-1) 10 (-1) (-1).

Lemma int_output n : 0 <= n < 2 ^ 31 -> number_output int_spec n = dec n.
Proof.
  intros Hn. unfold number_output. rewrite plain_text by (simpl; lia || done). change (flag (flags int_spec) SIGN) with true. assert (Hs : signed_value int_spec n = n) by (unfold signed_value; change (flag (flags int_spec) SIGN) with true; cbv iota; apply swrap_id; lia). rewrite Hs.
  destruct (Z.ltb_spec n 0); [lia|]. cbn [andb app]. change (base_prefix (base int_spec) (Z.land (flags int_spec) SMALL)) with (@nil Z). rewrite Z.abs_eq by lia. done.
Qed.

Lemma convert_int symbol rd lim old rest n args : 0 <= n < 2 ^ 31 -> convert_text symbol rd lim old rest int_spec (Word (u32 n) :: args) = Some (dec n, rest, int_spec, args).
Proof.
  intros Hn. unfold convert_text. cbn [type int_spec]. change (widths_okb _) with true. cbv iota. cbn [fetch_number va_word mbind option_bind]. rewrite u32_id by (unfold is_u32; lia). rewrite swrap_id by lia. unfold wrap. rewrite Z.mod_small by lia. destruct (Z.leb_spec 0 n), (Z.ltb_spec n (2 ^ 64)); try lia. cbn [andb]. change (base int_spec =? 10) with true. rewrite orb_true_r. cbv iota. cbn [orb]. rewrite int_output by done. done.
Qed.

Section formats.
Context (symbol : Z -> Z -> list Z) (rd : Z -> option Z) (lim : nat).

Lemma format_comma : format_text symbol rd lim 2 [44] spec0 [] = Some ([44], []).
Proof. reflexivity. Qed.

Lemma format_one n : 0 <= n < 2 ^ 31 -> format_text symbol rd lim 4 [37; 100] spec0 [Word (u32 n)] = Some (dec n, []).
Proof.
  intros Hn. rewrite <- (app_nil_r (dec n)). eapply format_step; [reflexivity|reflexivity|by apply convert_int|reflexivity].
Qed.

Lemma format_range lo hi : 0 <= lo < 2 ^ 31 -> 0 <= hi < 2 ^ 31 -> format_text symbol rd lim 10 [37; 100; 45; 37; 100] spec0 [Word (u32 lo); Word (u32 hi)] = Some (dec lo ++ 45 :: dec hi, []).
Proof.
  intros Hlo Hhi. eapply format_step; [reflexivity|reflexivity|by apply convert_int|]. change (45 :: dec hi) with ([45] ++ dec hi). eapply format_step; [reflexivity|reflexivity|reflexivity|]. rewrite <- (app_nil_r (dec hi)). eapply format_step; [reflexivity|reflexivity|by apply convert_int|reflexivity].
Qed.

End formats.

(** ** The runs of a bitmap *)

Definition run_item (lo hi : Z) : item := if lo =? hi then One lo else Range lo hi.

(** The maximal runs of set bits from [pos] to [n], in order *)
Inductive runs (f : Z -> bool) (n : Z) : Z -> list item -> Prop :=
  | runs_end pos : (forall i, pos <= i < n -> f i = false) -> runs f n pos []
  | runs_more pos lo hi l : pos <= lo -> lo <= hi -> hi < n -> (forall i, pos <= i < lo -> f i = false) -> (forall i, lo <= i <= hi -> f i = true) -> (hi + 1 < n -> f (hi + 1) = false) ->
      runs f n (hi + 1) l -> runs f n pos (run_item lo hi :: l).

Lemma runs_skip f n a b l : a <= b -> (forall i, a <= i < b -> f i = false) -> runs f n b l -> runs f n a l.
Proof.
  intros Hab H Hr. destruct Hr as [b Hb|b lo hi l H1 H2 H3 H4 H5 H6 H7].
  - constructor. intros i Hi. destruct (decide (i < b)); [apply H|apply Hb]; lia.
  - constructor; try done; [lia|]. intros i Hi. destruct (decide (i < b)); [apply H|apply H4]; lia.
Qed.

Lemma run_item_ok lo hi : 0 <= lo -> lo <= hi < 2 ^ 31 -> item_ok (run_item lo hi).
Proof. intros H1 H2. unfold run_item. destruct (Z.eqb_spec lo hi); simpl; lia. Qed.

Lemma runs_ok f n pos l : 0 <= pos -> n < 2 ^ 31 -> runs f n pos l -> Forall item_ok l.
Proof. intros Hp Hn H. induction H as [|pos lo hi l H1 H2 H3 _ _ _ _ IH]; [constructor|]. constructor; [apply run_item_ok; lia|apply IH; lia]. Qed.

(** ** The texts are bytes *)

Lemma dec_bytes n : 0 <= n < 2 ^ 64 -> Forall (fun c => 0 < c < 256) (dec n) /\ zlen (dec n) <= 22.
Proof.
  intros Hn. destruct (dec_chars_of n Hn) as (d & es & E & Hf & _). split.
  - rewrite E. apply Forall_map. eapply Forall_impl; [exact Hf|]. intros x Hx. cbv beta in Hx. destruct (dchar_range 0 x ltac:(by left) ltac:(lia)) as [? _]. change (0 < dchar 0 x < 256). lia.
  - destruct (number_ok [] 0 0 n (mkspec FORMAT_TYPE_UINT 0 (-1) 10 (-1) (-1))) as (_ & _ & H); [simpl; lia|done|split; simpl; lia|]. change (signed_value _ n) with n in H. cbn [base] in H. rewrite Z.abs_eq in H by lia. unfold dec. by rewrite zlen_rev, zlen_map.
Qed.

Lemma item_bytes x : item_ok x -> Forall (fun c => 0 < c < 256) (item_text x) /\ zlen (item_text x) <= 45 /\ item_text x <> [].
Proof.
  destruct x as [n|lo hi]; simpl; intros H.
  - destruct (dec_bytes n ltac:(lia)). split; [done|]. split; [lia|]. pose proof (dec_length n ltac:(lia)) as Hd. intros E. rewrite E in Hd. simpl in Hd. lia.
  - destruct (dec_bytes lo ltac:(lia)), (dec_bytes hi ltac:(lia)). split; [apply Forall_app; split; [done|]; constructor; [lia|done]|]. split; [rewrite zlen_app, zlen_cons; lia|]. by destruct (dec lo).
Qed.

Lemma options_text_snoc l x : l <> [] -> options_text (l ++ [x]) = options_text l ++ 44 :: item_text x.
Proof.
  induction l as [|y l IH]; [done|]. intros _. destruct l as [|z l]; [done|]. change (options_text ((y :: z :: l) ++ [x])) with (item_text y ++ 44 :: options_text ((z :: l) ++ [x])). rewrite IH by done. change (options_text (y :: z :: l)) with (item_text y ++ 44 :: options_text (z :: l)). by rewrite <- app_assoc.
Qed.

Lemma options_bytes l : Forall item_ok l -> Forall (fun c => 0 < c < 256) (options_text l).
Proof.
  induction 1 as [|x l Hx Hl IH]; [constructor|]. destruct (item_bytes x Hx) as [Hb _]. destruct l as [|y l]; [done|]. change (options_text (x :: y :: l)) with (item_text x ++ 44 :: options_text (y :: l)). apply Forall_app. split; [done|]. constructor; [lia|done].
Qed.

Lemma options_nonempty l : Forall item_ok l -> l <> [] -> options_text l <> [].
Proof.
  intros H Hne. destruct H as [|x l Hx Hl]; [done|]. destruct (item_bytes x Hx) as (_ & _ & Hi). destruct l as [|y l]; [done|]. change (options_text (x :: y :: l)) with (item_text x ++ 44 :: options_text (y :: l)). by destruct (item_text x).
Qed.

Section list_print.
Context (symbol : Z -> Z -> list Z) (Hsym : forall c v, Forall (fun x => x <> 0) (symbol c v)).
Context (m0 : list Z) (buf buflen : Z).
Hypotheses (Hm0 : is_bytes m0) (Hz : zlen m0 < 2 ^ 32) (Hbuf : 0 <= buf) (Hlen : 1 <= buflen < 2 ^ 31) (Hroom : buf + buflen <= zlen m0).

Local Abbreviation shown := (shown m0 buf buflen).

Lemma emit_item T m len lo hi : Forall (fun c => 0 < c < 256) T -> shown T m len -> 0 <= lo -> lo <= hi < 2 ^ 31 ->
  exists m' n, (if lo =? hi then scnprintf symbol m (buf + len) (u32 (buflen - len)) [37; 100] [Word (u32 lo)] else scnprintf symbol m (buf + len) (u32 (buflen - len)) [37; 100; 45; 37; 100] [Word (u32 lo); Word (u32 hi)]) = Some (m', n) /\
    shown (T ++ item_text (run_item lo hi)) m' (s32 (len + n)).
Proof using All.
  intros HT Hs Hlo Hhi. pose proof (item_bytes _ (run_item_ok lo hi Hlo Hhi)) as (_ & Hb & _). unfold run_item in *. destruct (Z.eqb_spec lo hi) as [->|Hne].
  - apply (shown_step symbol Hsym m0 buf buflen Hm0 Hz Hbuf Hlen Hroom T m len [37; 100] [Word (u32 hi)] (dec hi) [] 0 HT Hs); [apply format_one; lia|simpl in Hb; lia].
  - apply (shown_step symbol Hsym m0 buf buflen Hm0 Hz Hbuf Hlen Hroom T m len [37; 100; 45; 37; 100] [Word (u32 lo); Word (u32 hi)] (dec lo ++ 45 :: dec hi) [] 0 HT Hs); [apply format_range; lia|simpl in Hb; lia].
Qed.

Lemma emit_ok l m len lo hi : Forall item_ok l -> shown (options_text l) m len -> 0 <= lo -> lo <= hi < 2 ^ 31 ->
  exists m' len', bscnl_emit symbol m buf buflen lo hi len = Some (m', len') /\ shown (options_text (l ++ [run_item lo hi])) m' len'.
Proof using All.
  intros Hl Hs Hlo Hhi. pose proof (options_bytes l Hl) as Hb. unfold bscnl_emit. destruct l as [|x l].
  - destruct Hs as [Hs ->]. change (options_text []) with (@nil Z) in *. pose proof (clip_nil (buflen - 1)) as Hc. rewrite Hc in Hs |- *. change (0 <? zlen []) with false. cbv iota. cbn [mbind option_bind].
    destruct (emit_item [] m 0 lo hi Hb) as (m' & n & E & H'); [split; by rewrite Hc|done|done|]. change (zlen []) with 0. rewrite E. cbn [mbind option_bind]. by eexists _, _.
  - rewrite options_text_snoc by done. pose proof (options_nonempty (x :: l) Hl ltac:(done)) as Hne. set (T := options_text (x :: l)) in *. destruct (Z.ltb_spec 0 len) as [Hpos|Hneg].
    + destruct (shown_step symbol Hsym m0 buf buflen Hm0 Hz Hbuf Hlen Hroom T m len [44] [] [44] [] 0 Hb Hs (format_comma _ _ _) ltac:(done)) as (m1 & n1 & -> & Hs1). cbn [mbind option_bind].
      destruct (emit_item (T ++ [44]) m1 (s32 (len + n1)) lo hi) as (m' & n & E & H'); [apply Forall_app; split; [done|repeat constructor; lia]|done|done|done|]. rewrite E. cbn [mbind option_bind]. eexists _, _. split; [done|]. by rewrite <- app_assoc in H'.
    + cbn [mbind option_bind]. destruct (emit_item T m len lo hi Hb Hs Hlo Hhi) as (m' & n & E & H'). rewrite E. cbn [mbind option_bind]. eexists _, _. split; [done|]. destruct Hs as [_ Hle]. rewrite clip_zlen in Hle by lia. assert (0 < zlen T) by (destruct T; [done|unfold zlen; simpl; lia]). assert (buflen = 1) by lia.
      assert (Hc : forall U, clip (buflen - 1) U = []) by (intros [|u U]; [apply clip_nil|]; unfold clip; rewrite (proj2 (Z.leb_gt _ _)) by (unfold zlen; simpl; lia); by replace (buflen - 1) with 0 by lia).
      unfold Vsprintf.shown in *. by rewrite !Hc in *.
Qed.

Context {finder : BitFinder} (maskp : list Z) (nbits : Z).
Hypotheses (Hw : words maskp) (Hn : 0 <= nbits < 2 ^ 31) (Hnw : nbits <= BITS_PER_LONG * zlen maskp).

Lemma list_loop_ok : forall fuel l0 m len rbot cur, Forall item_ok l0 -> shown (options_text l0) m len -> 0 <= rbot -> rbot <= cur <= nbits -> (cur < nbits -> forall i, rbot <= i <= cur -> bit maskp i = true) -> (cur = nbits -> rbot = cur) -> (Z.to_nat (nbits - cur) <= fuel)%nat ->
  exists m' len' l, list_loop symbol fuel m buf buflen maskp nbits rbot cur len = Some (m', len') /\ shown (options_text (l0 ++ l)) m' len' /\ runs (bit maskp) nbits rbot l.
Proof using All.
  induction fuel as [|fuel IH]; intros l0 m len rbot cur Hl0 Hs Hr Hrc Hbits Hend Hf; cbn [list_loop]; destruct (Z.ltb_spec cur nbits) as [Hlt|Hge]; try lia.
  1,3: exists m, len, []; split; [done|]; rewrite app_nil_r; split; [done|]; constructor; intros i Hi; lia.
  destruct (bf_next_spec maskp nbits (cur + 1) Hw ltac:(lia) ltac:(unfold is_u32; lia) Hnw) as (c2 & E & Hc2). rewrite E. cbn [mbind option_bind]. assert (Hfirst : first_in (bit maskp) (cur + 1) nbits c2).
  { destruct (Z.leb_spec nbits (cur + 1)); [|done]. subst c2. split; [lia|]. split; [intros i Hi; lia|lia]. }
  destruct Hfirst as (Hc2r & Hclear & Hset). destruct ((nbits <=? c2) || (cur + 1 <? c2)) eqn:Ec.
  - destruct (emit_ok l0 m len rbot cur Hl0 Hs Hr ltac:(lia)) as (m1 & len1 & -> & Hs1). cbn [mbind option_bind]. destruct (IH (l0 ++ [run_item rbot cur]) m1 len1 c2 c2) as (m' & len' & l & E' & Hs' & Hruns); try lia; try done.
    + apply Forall_app. split; [done|]. constructor; [apply run_item_ok; lia|constructor].
    + intros Hc i Hi. replace i with c2 by lia. by apply Hset.
    + exists m', len', (run_item rbot cur :: l). split; [done|]. split; [by rewrite <- app_assoc in Hs'|]. apply orb_true_iff in Ec. apply (runs_more _ _ rbot rbot cur l); [lia|lia|lia|intros i Hi; lia|intros i Hi; apply Hbits; lia| |].
      * intros Hc. apply Hclear. destruct Ec as [Ec%Z.leb_le|Ec%Z.ltb_lt]; lia.
      * apply (runs_skip _ _ (cur + 1) c2); [lia|done|done].
  - apply orb_false_iff in Ec as [Ec1%Z.leb_gt Ec2%Z.ltb_ge]. assert (c2 = cur + 1) by lia. subst c2. apply IH; try lia; try done. intros _ i Hi. destruct (decide (i = cur + 1)) as [->|]; [apply Hset; lia|apply Hbits; lia].
Qed.

End list_print.

(** ** Reading a list *)

Definition item_has (i : Z) (x : item) : bool := match x with One n => i =? n | Range lo hi => (lo <=? i) && (i <=? hi) end.

Definition in_items (l : list item) (i : Z) : bool := existsb (item_has i) l.

Definition item_below (n : Z) (x : item) : Prop := match x with One k => k < n | Range _ hi => hi < n end.

Lemma run_item_has lo hi i : lo <= hi -> item_has i (run_item lo hi) = (lo <=? i) && (i <=? hi).
Proof. intros H. unfold run_item. destruct (Z.eqb_spec lo hi) as [->|]; [|done]. simpl. zbool; lia. Qed.

Lemma runs_before f n pos l i : runs f n pos l -> i < pos -> in_items l i = false.
Proof.
  intros H. revert i. induction H as [|pos lo hi l H1 H2 H3 _ _ _ _ IH]; intros i Hi; [done|]. unfold in_items in *. cbn [existsb]. rewrite run_item_has, IH by lia. zbool; lia.
Qed.

Lemma runs_bits f n pos l i : runs f n pos l -> pos <= i < n -> in_items l i = f i.
Proof.
  intros H. revert i. induction H as [pos H|pos lo hi l H1 H2 H3 H4 H5 H6 H7 IH]; intros i Hi; [symmetry; by apply H|]. unfold in_items in *. cbn [existsb]. rewrite run_item_has by lia. destruct (decide (i <= hi)) as [Hle|Hgt].
  - assert (E : existsb (item_has i) l = false) by (apply (runs_before f n (hi + 1) l i H7); lia). rewrite E, orb_false_r. destruct (decide (i < lo)); [rewrite H4 by lia; zbool; lia|rewrite H5 by lia; zbool; lia].
  - rewrite IH by lia. destruct (Z.leb_spec i hi); [lia|]. by rewrite andb_false_r.
Qed.

Lemma runs_below f n pos l : runs f n pos l -> Forall (item_below n) l.
Proof. induction 1 as [|pos lo hi l H1 H2 H3 _ _ _ _ IH]; constructor; [|done]. unfold run_item. destruct (Z.eqb_spec lo hi); simpl; lia. Qed.

Lemma set_bits_ok nbits n : forall maskp a, Bitmap.holds nbits maskp -> 0 <= a -> a + Z.of_nat n <= nbits ->
  exists d, set_bits n maskp a = Some d /\ Bitmap.holds nbits d /\ forall i, 0 <= i -> bit d i = bit maskp i || ((a <=? i) && (i <? a + Z.of_nat n)).
Proof.
  induction n as [|n IH]; intros maskp a Hh Ha Hn; cbn [set_bits].
  - exists maskp. split; [done|]. split; [done|]. intros i Hi. replace ((a <=? i) && (i <? a + Z.of_nat 0)) with false by (zbool; lia). by rewrite orb_false_r.
  - destruct (Bitmap.set_bit_ok a maskp nbits Hh ltac:(lia)) as (d1 & -> & H1 & B1). cbn [mbind option_bind]. destruct (IH d1 (a + 1) H1 ltac:(lia) ltac:(lia)) as (d & -> & H2 & B2). exists d. split; [done|]. split; [done|]. intros i Hi. rewrite B2, B1 by done. destruct (bit maskp i); [done|]. cbn [orb]. zbool; lia.
Qed.

Lemma parse_dec10 n rest : 0 <= n < 2 ^ 32 -> stops rest -> parse 32 10 (dec n ++ rest) = (n, zlen (dec n)).
Proof.
  intros Hn Hr. destruct (dec_chars_of n ltac:(lia)) as (d & es & -> & Hf & _ & Hv). unfold parse. change (10 =? 0) with false. change (10 =? 16) with false. cbv iota zeta. cbn [andb]. rewrite drop_0, lead_stop, Hv by (lia || done). unfold wrap. rewrite Z.mod_small by lia. by rewrite zlen_map.
Qed.

Lemma strtoul_dec m a n rest : 0 <= n < 2 ^ 32 -> stops rest -> cstr m a (dec n ++ rest) -> simple_strtoul m a BASEDEC = Some (n, a + zlen (dec n)).
Proof. intros Hn Hr Hc. unfold simple_strtoul. rewrite (simple_strto_ok 32 m a _ BASEDEC ltac:(lia) Hc). unfold BASEDEC. by rewrite parse_dec10. Qed.

Lemma dec_digit n : 0 <= n < 2 ^ 64 -> exists c cs, dec n = c :: cs /\ isdigit c = true /\ 48 <= c <= 57.
Proof.
  intros Hn. destruct (dec_chars_of n Hn) as (d & es & -> & Hf & _). apply Forall_cons in Hf as [Hd _]. eexists _, _. split; [reflexivity|]. assert (H : isdigit (dchar 0 d) && (48 <=? dchar 0 d) && (dchar 0 d <=? 57) = true) by (apply (all_below_spec 10 (fun d => isdigit (dchar 0 d) && (48 <=? dchar 0 d) && (dchar 0 d <=? 57))); [vm_compute; reflexivity|lia]).
  rewrite !andb_true_iff in H. destruct H as [[H1 H2] H3]. split; [done|lia].
Qed.

Lemma options_head l : Forall item_ok l -> l <> [] -> exists c cs, options_text l = c :: cs /\ isdigit c = true /\ 48 <= c <= 57.
Proof.
  intros H Hne. destruct H as [|x l Hx _]; [done|]. assert (Hi : exists n rest, item_text x = dec n ++ rest /\ 0 <= n < 2 ^ 64) by (destruct x as [n|lo hi]; simpl in *; [exists n, []; split; [by rewrite app_nil_r|lia]|exists lo, (45 :: dec hi); split; [done|lia]]).
  destruct Hi as (n & rest & E & Hn). destruct (dec_digit n Hn) as (c & cs & Ec & Hc). exists c. destruct l as [|y l]; [exists (cs ++ rest)|exists (cs ++ rest ++ 44 :: options_text (y :: l))]; (split; [|done]); [cbn [options_text]; by rewrite E, Ec|]. change (options_text (x :: y :: l)) with (item_text x ++ 44 :: options_text (y :: l)). rewrite E, Ec. cbn [app]. by rewrite <- app_assoc.
Qed.

(** What is behind an item *)
Definition behind (l : list item) : list Z := match l with [] => [] | _ => 44 :: options_text l end.

Lemma options_text_cons x l : options_text (x :: l) = item_text x ++ behind l.
Proof. destruct l; [by rewrite app_nil_r|done]. Qed.

Lemma behind_stops l : stops (behind l).
Proof. destruct l; [done|apply stops_comma]. Qed.

(** The numbers of an item *)
Definition item_low (x : item) : Z := match x with One n => n | Range lo _ => lo end.
Definition item_high (x : item) : Z := match x with One n => n | Range _ hi => hi end.

Lemma item_has_bounds i x : item_has i x = (item_low x <=? i) && (i <=? item_high x).
Proof. destruct x as [n|lo hi]; [|done]. simpl. zbool; lia. Qed.

(** The rest of a turn of the loop, from the bounds and the place behind them on *)
Lemma parselist_ok m nbits : 0 <= nbits < 2 ^ 31 -> forall l fuel a maskp, Forall item_ok l -> Forall (item_below nbits) l -> l <> [] -> cstr m a (options_text l) -> (length l <= fuel)%nat -> Bitmap.holds nbits maskp ->
  exists d, parselist_loop fuel m a maskp nbits = Some (0, d) /\ Bitmap.holds nbits d /\ forall i, 0 <= i -> bit d i = bit maskp i || in_items l i.
Proof.
  intros Hnb. induction l as [|x l IH]; intros fuel a maskp Hok Hbel Hne Hc Hf Hh; [done|]. destruct fuel as [|fuel]; [simpl in Hf; lia|]. pose proof (options_head (x :: l) Hok Hne) as (c0 & cs0 & E0 & Hd0 & _). apply Forall_cons in Hok as [Hx Hok]. apply Forall_cons in Hbel as [Hbx Hbel]. cbn [parselist_loop]. rewrite (cstr_head _ _ _ Hc). rewrite E0. cbn [nth mbind option_bind]. rewrite Hd0. cbn [negb]. rewrite options_text_cons in Hc.
  assert (Hends : 0 <= item_low x /\ item_low x <= item_high x < nbits) by (destruct x; simpl in *; lia). destruct (set_bits_ok nbits (Z.to_nat (item_high x - item_low x + 1)) maskp (item_low x) Hh ltac:(lia) ltac:(lia)) as (d1 & Es & Hh1 & B1).
  assert (Hcont : forall e, cstr m e (behind l) -> exists d, (if negb (item_low x <=? item_high x) then Some (- EINVAL, maskp) else if nbits <=? item_high x then Some (- ERANGE, maskp) else
      maskp ← set_bits (Z.to_nat (item_high x - item_low x + 1)) maskp (item_low x); c ← load_byte m e; let bp := if c =? 44 then e + 1 else e in c ← load_byte m bp; if negb (c =? 0) && negb (c =? 10) then parselist_loop fuel m bp maskp nbits else Some (0, maskp)) = Some (0, d) /\
      Bitmap.holds nbits d /\ forall i, 0 <= i -> bit d i = bit maskp i || in_items (x :: l) i).
  { intros e He. destruct (Z.leb_spec (item_low x) (item_high x)); [|lia]. destruct (Z.leb_spec nbits (item_high x)); [lia|]. cbn [negb]. rewrite Es. cbn [mbind option_bind]. assert (Hbit : forall i, 0 <= i -> bit d1 i = bit maskp i || item_has i x) by (intros i Hi; rewrite B1, item_has_bounds by done; f_equal; zbool; lia).
    rewrite (cstr_head _ _ _ He). cbn [mbind option_bind]. destruct l as [|y l]; cbn [behind nth].
    - change (0 =? 44) with false. cbv iota zeta. cbn [behind cstr] in He. rewrite He. cbn [mbind option_bind]. change (0 =? 0) with true. cbn [negb andb]. exists d1. split; [done|]. split; [done|]. intros i Hi. rewrite Hbit by done. unfold in_items. cbn [existsb]. by rewrite orb_false_r.
    - change (44 =? 44) with true. cbv iota zeta. destruct He as (_ & _ & He). destruct (options_head (y :: l) Hok ltac:(done)) as (c1 & cs1 & E1 & _ & Hc1). rewrite (cstr_head _ _ _ He). rewrite E1. cbn [nth mbind option_bind]. destruct (Z.eqb_spec c1 0), (Z.eqb_spec c1 10); try lia. cbn [negb andb].
      destruct (IH fuel (e + 1) d1 Hok Hbel ltac:(done) He ltac:(simpl in *; lia) Hh1) as (d & E & Hh2 & B2). exists d. split; [done|]. split; [done|]. intros i Hi. rewrite B2, Hbit by done. by rewrite <- orb_assoc. }
  destruct x as [n|lo hi]; cbn [item_text item_low item_high] in *.
  - rewrite (strtoul_dec m a n (behind l) ltac:(simpl in *; lia) (behind_stops l) Hc). cbn [mbind option_bind]. pose proof (cstr_app_drop _ _ _ _ Hc) as Hc'. pose proof (Hcont _ Hc') as Hco. rewrite (cstr_head _ _ _ Hc') in Hco |- *. cbn [mbind option_bind] in Hco |- *. assert (Hn45 : (nth 0 (behind l) 0 =? 45) = false) by by destruct l. rewrite Hn45. exact Hco.
  - rewrite <- app_assoc in Hc. rewrite (strtoul_dec m a lo (45 :: dec hi ++ behind l) ltac:(simpl in *; lia) (stops_minus _) Hc). cbn [mbind option_bind]. pose proof (cstr_app_drop _ _ _ _ Hc) as Hc'. cbn [app] in Hc'. rewrite (cstr_head _ _ _ Hc'). cbn [nth mbind option_bind]. change (45 =? 45) with true. cbv iota. destruct Hc' as (_ & _ & Hc').
    destruct (dec_digit hi ltac:(simpl in *; lia)) as (ch & chs & Eh & Hdh & _). rewrite (cstr_head _ _ _ Hc'). rewrite Eh. cbn [app nth mbind option_bind]. rewrite Hdh. cbn [negb]. rewrite (strtoul_dec m _ hi (behind l) ltac:(simpl in *; lia) (behind_stops l) Hc'). cbn [mbind option_bind]. apply Hcont. by apply cstr_app_drop in Hc'.
Qed.

(** C25. A bitmap as a list: [bitmap_scnlistprintf] prints the maximal runs of set bits in order, single bits as a number and others as a range, cut to the buffer and ended with a NUL, and returns the number of characters in the buffer.  If the whole text fits and is not empty, [bitmap_parselist] reads exactly the bitmap back from it.  The text of a bitmap without bits is empty, and [bitmap_parselist] rejects it with -EINVAL. *)
Theorem bitmap_list_correct `{finder : BitFinder} symbol m buf buflen maskp nbits : (forall c v, Forall (fun x => x <> 0) (symbol c v)) -> is_bytes m -> zlen m < 2 ^ 32 -> 0 <= buf -> 1 <= buflen < 2 ^ 31 -> buf + buflen <= zlen m -> nbits < 2 ^ 31 -> Bitmap.holds nbits maskp ->
  exists l m', let T := options_text l in
    runs (bit maskp) nbits 0 l /\ bitmap_scnlistprintf symbol m buf buflen maskp nbits = Some (m', zlen (clip (buflen - 1) T)) /\ write_bytes m buf (clip (buflen - 1) T ++ [0]) = Some m' /\
    (zlen T < buflen -> forall dst, Bitmap.holds nbits dst -> exists d,
       if bool_decide (l = []) then bitmap_parselist m' buf dst nbits = Some (- EINVAL, d)
       else bitmap_parselist m' buf dst nbits = Some (0, d) /\ forall i, 0 <= i < nbits -> bit d i = bit maskp i).
Proof.
  intros Hsym Hm Hz Hbuf Hlen Hroom Hnb [Hw Hnw]. unfold bitmap_scnlistprintf. destruct (Z.eqb_spec buflen 0); [lia|]. destruct (write_bytes_Some m buf [0]) as (m1 & E1 & _); [done|change (zlen [0]) with 1; lia|]. unfold store_byte. rewrite E1. cbn [mbind option_bind].
  destruct (bf_first_spec maskp nbits Hw ltac:(unfold is_u32; lia) ltac:(unfold BITS_PER_LONG; lia)) as (cur & E & Hc & Hclear & Hset). rewrite E. cbn [mbind option_bind].
  destruct (list_loop_ok symbol Hsym m buf buflen Hm Hz Hbuf Hlen Hroom maskp nbits Hw ltac:(lia) ltac:(unfold BITS_PER_LONG; lia) (Z.to_nat nbits) [] m1 0 cur cur) as (m' & len & l & E2 & [Hs Hle] & Hruns); try lia; [constructor|split; change (options_text []) with (@nil Z); by rewrite clip_nil|intros Hlt i Hi; replace i with cur by lia; by apply Hset|].
  cbn [app] in *. exists l, m'. cbv zeta. apply (runs_skip _ _ 0 cur l ltac:(lia) Hclear) in Hruns. split; [done|]. split; [by rewrite E2, Hle|]. split; [done|]. intros HT dst Hdst. pose proof (runs_ok _ _ 0 l ltac:(lia) Hnb Hruns) as Hok. pose proof (options_bytes l Hok) as Hby.
  assert (Hcl : clip (buflen - 1) (options_text l) = options_text l) by (unfold clip; by rewrite (proj2 (Z.leb_le _ _)) by lia). rewrite Hcl in Hs. assert (Hcs : cstr m' buf (options_text l)) by (apply (cstr_written m); [eapply Forall_impl; [exact Hby|]; intros c; simpl; lia|done]). unfold bitmap_parselist. destruct (Bitmap.bitmap_zero_ok dst nbits Hdst) as (d0 & -> & Hd0 & B0). cbn [mbind option_bind]. case_bool_decide as Hnil.
  - subst l. exists d0. change (fuel_of m') with (S (length m')). cbn [parselist_loop]. change (options_text []) with (@nil Z) in Hcs. simpl in Hcs. rewrite Hcs. done.
  - destruct (parselist_ok m' nbits ltac:(lia) l (fuel_of m') buf d0 Hok (runs_below _ _ _ _ Hruns) Hnil Hcs) as (d & Ed & _ & B); [|done|exists d; split; [done|]; intros i Hi; rewrite B, B0 by lia; cbn [orb]; by apply (runs_bits _ nbits 0)].
    pose proof (cstr_fuel m' buf _ Hcs). pose proof (tokens_length l Hok). assert (length l <= tokens l)%nat; [|lia]. clear. unfold tokens. induction l as [|x l IH]; [done|]. simpl. destruct x; lia.
Qed.

(** Bits 1, 4, 5 and 6 *)
Lemma bitmap_list_correct_witness : bitmap_scnlistprintf (fun _ _ => []) (replicate 16 1) 2 10 [0x72] 32 = Some ([1; 1; 49; 44; 52; 45; 54; 0; 1; 1; 1; 1; 1; 1; 1; 1], 5) /\
  exists l m', runs (bit [0x72]) 32 0 l /\ bitmap_scnlistprintf (fun _ _ => []) (replicate 16 1) 2 10 [0x72] 32 = Some (m', zlen (clip (10 - 1) (options_text l))).
Proof.
  split; [vm_compute; reflexivity|]. destruct (bitmap_list_correct (fun _ _ => []) (replicate 16 1) 2 10 [0x72] 32) as (l & m' & Hr & E & _); [intros; constructor|by apply Forall_replicate|vm_compute; reflexivity|lia|lia|vm_compute; discriminate|lia|split; [repeat constructor; unfold is_u32; lia|unfold zlen; simpl; lia]|exists l, m'; exact (conj Hr E)].
Defined.

End BitmapText.
