(* ===== verification/BitmapHex.v ===== *)
(** * lib/bitmap.c: bitmaps in hexadecimal

    [bitmap_scnprintf] prints a bitmap as chunks of 32 bits with commas between them,
    [__bitmap_parse] reads them back.  The text that is parsed is the list of the bytes
    from the start of the buffer on. *)
From S2P Require Import Prelude Bitops FindBit Bitmap Memcopy Ctype CString Number Addrstr Vsprintf Cmdline BitmapText.
Import Bitops Memcopy Ctype CString Number Addrstr Vsprintf Cmdline FindBit.FindBit BitmapText.

Module BitmapHex.

Definition EOVERFLOW : Z := 75.

Definition CHUNKSZ : Z := 32.
Definition nbits_to_hold_value (val : Z) : Z := fls false val.
Definition unhex (c : Z) : Z := if isdigit c then c - 48 else toupper c - 65 + 10.

(** ** Printing *)

Section print.
Context (symbol : Z -> Z -> list Z).
(** The addresses of the literals "" and "," *)
Context (empty_str comma_str : Z).

(** "%s%0*lx" *)
Definition chunk_format : list Z := [37; 115; 37; 48; 42; 108; 120].

Fixpoint chunk_loop (fuel : nat) (m : list Z) (buf buflen : Z) (maskp : list Z) (i chunksz sep len : Z) : option (list Z * Z) :=
  if 0 <=? i then
    match fuel with
    | O => None
    | S fuel =>
        let chunkmask := u32 (2 ^ chunksz - 1) in
        w ← maskp !! Z.to_nat (i / BITS_PER_LONG);
        let val := Z.land (Z.shiftr w (i mod BITS_PER_LONG)) chunkmask in
        '(m, n) ← scnprintf symbol m (buf + len) (u32 (buflen - len)) chunk_format [Word sep; Word ((chunksz + 3) / 4); Word val];
        chunk_loop fuel m buf buflen maskp (i - CHUNKSZ) CHUNKSZ comma_str (s32 (len + n))
    end
  else Some (m, len).

Definition bitmap_scnprintf (m : list Z) (buf buflen : Z) (maskp : list Z) (nmaskbits : Z) : option (list Z * Z) :=
  let chunksz := Z.land nmaskbits (CHUNKSZ - 1) in
  let chunksz := if chunksz =? 0 then CHUNKSZ else chunksz in
  let i := Z.land (nmaskbits + (CHUNKSZ - 1)) (Z.lnot (CHUNKSZ - 1)) - CHUNKSZ in
  chunk_loop (Z.to_nat (nmaskbits + CHUNKSZ)) m buf buflen maskp i chunksz empty_str 0.

End print.

(** ** Parsing *)

(** The loop over the characters of a chunk: the error, or the chunk with its digits, the
    last character and what is left of the buffer.  [is_user]: a character that cannot be
    read is a fault. *)
Fixpoint chunk_chars (is_user : bool) (buf : list Z) (buflen : nat) (c totaldigits ndigits chunk : Z) : option (Z + Z * Z * Z * Z * list Z * nat) :=
  match buflen with
  | O => Some (inr (c, totaldigits, ndigits, chunk, buf, O))
  | S buflen =>
      let old_c := c in
      match buf with
      | [] => if is_user then Some (inl (- EFAULT)) else None
      | c :: buf =>
          if isspace c then chunk_chars is_user buf buflen c totaldigits ndigits chunk
          else if negb (totaldigits =? 0) && negb (c =? 0) && isspace old_c then Some (inl (- EINVAL))
          else if (c =? 0) || (c =? 44) then Some (inr (c, totaldigits, ndigits, chunk, buf, buflen))
          else if negb (isxdigit c) then Some (inl (- EINVAL))
          else if negb (Z.land chunk (not32 (2 ^ (CHUNKSZ - 4) - 1)) =? 0) then Some (inl (- EOVERFLOW))
          else chunk_chars is_user buf buflen c (totaldigits + 1) (ndigits + 1) (Z.lor (u32 (Z.shiftl chunk 4)) (unhex c))
      end
  end.

Fixpoint parse_loop (fuel : nat) (is_user : bool) (buf : list Z) (buflen : nat) (maskp : list Z) (nmaskbits c totaldigits nchunks nbits : Z) : option (Z * list Z) :=
  match fuel with
  | O => None
  | S fuel =>
      r ← chunk_chars is_user buf buflen c totaldigits 0 0;
      match r with
      | inl err => Some (err, maskp)
      | inr (c, totaldigits, ndigits, chunk, buf, buflen) =>
          if ndigits =? 0 then Some (- EINVAL, maskp)
          else
            let more maskp nchunks nbits :=
              if negb (bool_decide (buflen = O)) && (c =? 44) then parse_loop fuel is_user buf buflen maskp nmaskbits c totaldigits nchunks nbits
              else Some (0, maskp) in
            if (nchunks =? 0) && (chunk =? 0) then more maskp nchunks nbits
            else
              maskp ← Bitmap.__bitmap_shift_left true maskp maskp CHUNKSZ nmaskbits;
              w ← maskp !! O;
              maskp ← Bitmap.store_word maskp O (Z.lor w chunk);
              let nchunks := nchunks + 1 in
              let nbits := nbits + (if nchunks =? 1 then nbits_to_hold_value chunk else CHUNKSZ) in
              if nmaskbits <? nbits then Some (- EOVERFLOW, maskp) else more maskp nchunks nbits
      end
  end.

(** [buf] is the memory at the buffer. *)
Definition __bitmap_parse (buf : list Z) (buflen : Z) (is_user : bool) (maskp : list Z) (nmaskbits : Z) : option (Z * list Z) :=
  maskp ← Bitmap.bitmap_zero maskp nmaskbits;
  parse_loop (S (Z.to_nat buflen)) is_user buf (Z.to_nat buflen) maskp nmaskbits 0 0 0 0.

(** [access_ok] is what the check of the address range says. *)
Definition bitmap_parse_user (access_ok : bool) (ubuf : list Z) (ulen : Z) (maskp : list Z) (nmaskbits : Z) : option (Z * list Z) :=
  if negb access_ok then Some (- EFAULT, maskp) else __bitmap_parse ubuf ulen true maskp nmaskbits.


(** ** Chunks as text *)

Definition hexdigits (w v : Z) : list Z := let D := rev (digits_of 22 16 v) in replicate (Z.to_nat (w - zlen D)) 0 ++ D.

(** [v] in [w] lower case digits *)
Definition hexpad (w v : Z) : list Z := List.map (dchar 32) (hexdigits w v).

Lemma value_pos b ds : 0 <= b -> Forall (fun d => 0 <= d < b) ds -> 0 <= value b ds.
Proof. intros Hb. induction 1 as [|d ds Hd _ IH]; [done|]. change (value b (d :: ds)) with (d + b * value b ds). nia. Qed.

Lemma numeral_length b ds n w : 1 < b -> 1 <= w -> 0 <= n < b ^ w -> numeral b ds n = true -> zlen ds <= w.
Proof.
  intros Hb Hw Hn (H1 & Hv & _ & H4)%numeral_spec. destruct (decide (zlen ds <= w)) as [|Hgt]; [done|]. exfalso. assert (Hl : 1 < zlen ds) by lia. specialize (H4 ltac:(lia)). destruct (exists_last (l := ds)) as (ds' & x & ->); [intros ->; unfold zlen in Hl; simpl in Hl; lia|]. rewrite List.last_last in H4. apply Forall_app in H1 as [H1 Hx]. apply Forall_cons in Hx as [Hx _].
  rewrite value_app in Hv. rewrite zlen_app in Hgt. change (zlen [x]) with 1 in Hgt. change (value b [x]) with (x + b * 0) in Hv. pose proof (value_pos b ds' ltac:(lia) H1). pose proof (Z.pow_le_mono_r b w (zlen ds') ltac:(lia) ltac:(lia)). nia.
Qed.

Lemma hex_numeral v : 0 <= v < 2 ^ 64 -> numeral 16 (digits_of 22 16 v) v = true.
Proof.
  intros Hn. destruct (number_ok [] 0 0 v (mkspec FORMAT_TYPE_UINT 0 (-1) 16 (-1) (-1))) as (_ & H & _); [simpl; lia|done|split; simpl; lia|]. change (signed_value _ v) with v in H. cbn [base] in H. by rewrite Z.abs_eq in H by lia.
Qed.

Lemma horner_zeros b n ds : horner b 0 (replicate n 0 ++ ds) = horner b 0 ds.
Proof. induction n as [|n IH]; [done|]. cbn [replicate app]. unfold horner in *. cbn [fold_left]. by rewrite Z.mul_0_l. Qed.

Lemma hexdigits_ok w v : 1 <= w <= 8 -> 0 <= v < 16 ^ w -> Forall (fun d => 0 <= d < 16) (hexdigits w v) /\ zlen (hexdigits w v) = w /\ horner 16 0 (hexdigits w v) = v.
Proof.
  intros Hw Hv. assert (Hv64 : 0 <= v < 2 ^ 64) by (pose proof (Z.pow_le_mono_r 16 w 8 ltac:(lia) ltac:(lia)); lia). pose proof (hex_numeral v Hv64) as Hn. pose proof (numeral_length 16 _ v w ltac:(lia) ltac:(lia) Hv Hn) as Hl. apply numeral_spec in Hn as (H1 & H2 & _). unfold hexdigits. cbv zeta. split; [|split].
  - apply Forall_app. split; [apply Forall_replicate; lia|by apply Forall_rev].
  - rewrite zlen_app, zlen_rev. unfold zlen at 1. rewrite length_replicate. lia.
  - by rewrite horner_zeros, horner_rev.
Qed.

(** "%0*lx" with its width *)
Definition hex_spec (w : Z) : printf_spec := mkspec FORMAT_TYPE_ULONG (ZEROPAD + SMALL) w 16 (-1) 108.

Lemma hex_output w v : 1 <= w <= 8 -> 0 <= v < 16 ^ w -> number_output (hex_spec w) v = hexpad w v.
Proof.
  intros Hw Hv. assert (Hv64 : 0 <= v < 2 ^ 32) by (pose proof (Z.pow_le_mono_r 16 w 8 ltac:(lia) ltac:(lia)); lia). unfold number_output, number_text. change (signed_value (hex_spec w) v) with v. cbn [flags field_width base precision hex_spec]. rewrite Z.abs_eq by lia. change (flag (ZEROPAD + SMALL) LEFT) with false. change (flag (ZEROPAD + SMALL) ZEROPAD) with true. change (Z.land (ZEROPAD + SMALL) SMALL) with 32. cbv iota zeta.
  change (sign_text (hex_spec w) v) with (@nil Z). change (prefix_text (hex_spec w)) with (@nil Z). change (zlen []) with 0. cbn [app]. pose proof (zlen_nonneg (rev (List.map (dchar 32) (digits_of 22 16 v)))) as Hz. rewrite (fill_neg (-1 - _)) by lia. cbn [app]. rewrite !zlen_rev, zlen_map.
  unfold hexpad, hexdigits. cbv zeta. rewrite List.map_app, <- List.map_rev, zlen_rev. f_equal. unfold fill. replace (w - 0 - 0 - zlen (digits_of 22 16 v)) with (w - zlen (digits_of 22 16 v)) by lia. generalize (Z.to_nat (w - zlen (digits_of 22 16 v))) as k. induction k as [|k IH]; [done|]. simpl. by rewrite IH.
Qed.

Lemma format_chunk symbol rd sep T w v : PAGE_SIZE <= sep -> read_string 2 rd sep (2 ^ 32 - 1) = Some T -> 1 <= w <= 8 -> 0 <= v < 16 ^ w ->
  format_text symbol rd 2 14 chunk_format spec0 [Word sep; Word w; Word v] = Some (T ++ hexpad w v, []).
Proof.
  intros Hs HT Hw Hv. assert (Hv32 : 0 <= v < 2 ^ 32) by (pose proof (Z.pow_le_mono_r 16 w 8 ltac:(lia) ltac:(lia)); lia). 
  apply (format_step symbol rd 2 13 chunk_format spec0 _ (mkspec FORMAT_TYPE_STR 0 (-1) 10 (-1) (-1)) [37; 48; 42; 108; 120] T [37; 48; 42; 108; 120] (mkspec FORMAT_TYPE_STR 0 (-1) 10 (-1) (-1)) [Word w; Word v] (hexpad w v) []); [reflexivity|reflexivity| |].
  - unfold convert_text. cbn [type]. change (widths_okb _) with true. cbv iota. cbn [va_word mbind option_bind]. destruct (Z.ltb_spec sep PAGE_SIZE); [lia|]. change (u32 (precision _)) with (2 ^ 32 - 1). rewrite HT. cbn [mbind option_bind]. unfold padded_text. cbn [flags field_width]. change (flag 0 LEFT) with false. cbv iota zeta. rewrite fill_neg by (pose proof (zlen_nonneg T); lia). reflexivity.
  - apply (format_step symbol rd 2 12 [37; 48; 42; 108; 120] _ _ (mkspec FORMAT_TYPE_WIDTH 1 (-1) 10 (-1) (-1)) [108; 120] [] [108; 120] (mkspec FORMAT_TYPE_WIDTH 1 w 10 (-1) (-1)) [Word v] (hexpad w v) []); [reflexivity|reflexivity|cbn; by rewrite s32_id by lia|].
    rewrite <- (app_nil_r (hexpad w v)). apply (format_step symbol rd 2 11 [108; 120] _ _ (hex_spec w) [] (hexpad w v) [] (hex_spec w) [] [] []); [reflexivity|unfold format_decode; cbn [type field_width]; destruct (Z.ltb_spec w 0); [lia|reflexivity]| |reflexivity].
    unfold convert_text. cbn [type hex_spec]. fold (hex_spec w). assert (Hwi : widths_okb (hex_spec w) = true) by (unfold widths_okb; cbn [field_width precision hex_spec]; destruct (Z.leb_spec (Z.abs w) (10 ^ 9)); [done|lia]). rewrite Hwi. cbn [fetch_number va_word mbind option_bind]. destruct (Z.leb_spec 0 v), (Z.ltb_spec v (2 ^ 64)); try lia. cbn [andb]. change (base (hex_spec w) =? 8) with false. change (base (hex_spec w) =? 10) with false. change (base (hex_spec w) =? 16) with true. cbn [orb]. by rewrite hex_output.
Qed.


(** ** The value of chunks *)

Definition foldv (V : Z) (cs : list Z) : Z := fold_left (fun v c => v * 2 ^ 32 + c) cs V.

Lemma testbit_chunk V c i : 0 <= c < 2 ^ 32 -> 0 <= i -> Z.testbit (V * 2 ^ 32 + c) i = if i <? 32 then Z.testbit c i else Z.testbit V (i - 32).
Proof.
  intros Hc Hi. destruct (Z.ltb_spec i 32) as [Hlt|Hge].
  - rewrite <- (Z.mod_pow2_bits_low _ 32 i) by lia. rewrite Z.add_comm, Z.mod_add, Z.mod_small by lia. done.
  - replace i with ((i - 32) + 32) at 1 by lia. rewrite <- Z.div_pow2_bits by lia. rewrite Z.add_comm, Z.div_add, Z.div_small by lia. done.
Qed.

(** [V] is the bits of [f] from [p] to [n]. *)
Definition top (f : Z -> bool) (n p V : Z) : Prop := 0 <= V /\ forall i, 0 <= i -> Z.testbit V i = (i + p <? n) && f (i + p).

Lemma top_step f n p V c : top f n p V -> 0 <= c < 2 ^ 32 -> (forall r, 0 <= r < 32 -> Z.testbit c r = (r + (p - 32) <? n) && f (r + (p - 32))) -> top f n (p - 32) (V * 2 ^ 32 + c).
Proof.
  intros [HV Hb] Hc Hr. split; [lia|]. intros i Hi. rewrite testbit_chunk by done. destruct (Z.ltb_spec i 32) as [Hlt|Hge]; [by apply Hr|]. rewrite Hb by lia. by replace (i - 32 + p) with (i + (p - 32)) by lia.
Qed.

Lemma top_bound f n V : 0 <= n -> top f n 0 V -> V < 2 ^ n.
Proof.
  intros Hn [HV Hb]. destruct (decide (V = 0)) as [->|Hne]; [lia|]. apply Z.log2_lt_pow2; [lia|]. destruct (decide (Z.log2 V < n)) as [|Hge]; [done|]. exfalso. pose proof (Z.bit_log2 V ltac:(lia)) as Hbit. pose proof (Z.log2_nonneg V). rewrite Hb, Z.add_0_r in Hbit by lia. apply andb_true_iff in Hbit as [Hbit _]. lia.
Qed.

Definition hex_tail (cs : list Z) : list Z := concat (List.map (fun c => 44 :: hexpad 8 c) cs).

Lemma hexpad_bytes w v : 1 <= w <= 8 -> 0 <= v < 16 ^ w -> Forall (fun c => 0 < c < 256) (hexpad w v) /\ zlen (hexpad w v) = w.
Proof.
  intros Hw Hv. destruct (hexdigits_ok w v Hw Hv) as (Hf & Hl & _). unfold hexpad. split; [|by rewrite zlen_map]. apply Forall_map. eapply Forall_impl; [exact Hf|]. intros x Hx. cbv beta in Hx. destruct (dchar_range 32 x ltac:(by right) ltac:(lia)) as [? _]. change (0 < dchar 32 x < 256). lia.
Qed.

(** Bits of a word of the bitmap *)
Lemma bit_at maskp k w r : maskp !! k = Some w -> 0 <= r < 32 -> bit maskp (r + 32 * Z.of_nat k) = Z.testbit w r.
Proof.
  intros E Hr. unfold bit, BITS_PER_LONG. replace (r + 32 * Z.of_nat k) with (Z.of_nat k * 32 + r) by lia. rewrite Z.div_add_l, Z.div_small, Z.add_0_r, Nat2Z.id, E by lia. f_equal. rewrite Z.add_comm, Z.mod_add, Z.mod_small by lia. done.
Qed.

Lemma chunk_width sz c : 1 <= sz <= 32 -> 0 <= c < 2 ^ sz -> 1 <= (sz + 3) / 4 <= 8 /\ 0 <= c < 16 ^ ((sz + 3) / 4).
Proof.
  intros Hsz Hc. assert (Hwd : 1 <= (sz + 3) / 4 <= 8 /\ sz <= 4 * ((sz + 3) / 4)) by (pose proof (Z.div_mod (sz + 3) 4 ltac:(lia)); pose proof (Z.mod_pos_bound (sz + 3) 4 ltac:(lia)); lia). split; [lia|]. change 16 with (2 ^ 4). rewrite <- Z.pow_mul_r by lia. pose proof (Z.pow_le_mono_r 2 sz (4 * ((sz + 3) / 4)) ltac:(lia) ltac:(lia)). lia.
Qed.

(** The number of bits of the first chunk *)
Definition top_size (n : Z) : Z := n - 32 * ((n - 1) / 32).

Definition hex_text (n : Z) (cs : list Z) : list Z := match cs with [] => [] | c :: cs => hexpad ((top_size n + 3) / 4) c ++ hex_tail cs end.

Lemma top_size_spec n : 1 <= n -> 1 <= top_size n <= 32 /\ 32 * ((n - 1) / 32) + top_size n = n.
Proof. intros Hn. unfold top_size. pose proof (Z.div_mod (n - 1) 32 ltac:(lia)). pose proof (Z.mod_pos_bound (n - 1) 32 ltac:(lia)). lia. Qed.

Lemma first_size n : 1 <= n -> (if Z.land n (CHUNKSZ - 1) =? 0 then CHUNKSZ else Z.land n (CHUNKSZ - 1)) = top_size n.
Proof.
  intros Hn. change (CHUNKSZ - 1) with (Z.ones 5). rewrite Z.land_ones by lia. change (2 ^ 5) with 32. unfold CHUNKSZ. destruct (top_size_spec n Hn) as [Hs E]. set (q := (n - 1) / 32) in *. assert (Em : n mod 32 = top_size n mod 32) by (rewrite <- E at 1; rewrite (Z.mul_comm 32), Z.add_comm, Z.mod_add by lia; done). rewrite Em. destruct (decide (top_size n = 32)) as [-> |]; [done|]. rewrite Z.mod_small by lia. destruct (Z.eqb_spec (top_size n) 0); [lia|done].
Qed.

Lemma align_down n : 1 <= n -> Z.land (n + (CHUNKSZ - 1)) (Z.lnot (CHUNKSZ - 1)) - CHUNKSZ = 32 * ((n - 1) / 32).
Proof.
  intros Hn. change (CHUNKSZ - 1) with (Z.ones 5). rewrite <- Z.ldiff_land, Z.ldiff_ones_r by lia. rewrite Z.shiftl_mul_pow2, Z.shiftr_div_pow2 by lia. change (2 ^ 5) with 32. change (Z.ones 5) with 31. unfold CHUNKSZ. replace (n + 31) with ((n - 1) + 1 * 32) by lia. rewrite Z.div_add by lia. lia.
Qed.

Section hex_print.
Context (symbol : Z -> Z -> list Z) (Hsym : forall c v, Forall (fun x => x <> 0) (symbol c v)).
Context (m0 : list Z) (buf buflen empty_str comma_str : Z).
Hypotheses (Hm0 : is_bytes m0) (Hz : zlen m0 < 2 ^ 32) (Hbuf : 0 <= buf) (Hlen : 1 <= buflen < 2 ^ 31) (Hroom : buf + buflen <= zlen m0).

(** A string outside the buffer *)
Definition literal (a : Z) (T : list Z) : Prop := PAGE_SIZE <= a /\ cstr m0 a T /\ (a + zlen T < buf \/ buf + buflen <= a).

Local Abbreviation shown := (shown m0 buf buflen).

Lemma literal_read rd a S : (forall x v, load_byte m0 x = Some v -> x < buf \/ buf + buflen <= x -> rd x = Some v) -> literal a S -> S = [] \/ S = [44] -> read_string 2 rd a (2 ^ 32 - 1) = Some S.
Proof using All.
  intros Hrd (Hp & Hc & Hout) HS. apply (read_cstr _ m0); [done|intros x v Hx Hv; apply Hrd; [done|lia]| |]; destruct HS as [-> | ->]; simpl; lia || done.
Qed.

Hypotheses (Hempty : literal empty_str []) (Hcomma : literal comma_str [44]).
Context (maskp : list Z) (n : Z).
Hypotheses (Hw : words maskp) (Hn : 1 <= n < 2 ^ 31) (Hnw : n <= 32 * zlen maskp).

(** The value of a chunk *)
Lemma chunk_value j sz V : 1 <= sz <= 32 -> (j < length maskp)%nat -> 32 * Z.of_nat j + sz <= n -> sz = 32 \/ n = 32 * Z.of_nat j + sz -> top (bit maskp) n (32 * Z.of_nat j + 32) V ->
  exists w c, maskp !! j = Some w /\ c = Z.land (Z.shiftr w 0) (u32 (2 ^ sz - 1)) /\ 0 <= c < 2 ^ sz /\ c < 2 ^ 32 /\ top (bit maskp) n (32 * Z.of_nat j) (V * 2 ^ 32 + c).
Proof using All.
  intros Hsz Hj Hjn Hlast HV. destruct (lookup_lt_is_Some_2 maskp j Hj) as [w Ew]. pose proof (proj1 (Forall_lookup _ _) Hw j w Ew) as Hu. unfold is_u32 in Hu. assert (Hp32 : 0 < 2 ^ sz <= 2 ^ 32) by (pose proof (Z.pow_pos_nonneg 2 sz); pose proof (Z.pow_le_mono_r 2 sz 32); lia).
  assert (Ec : Z.land (Z.shiftr w 0) (u32 (2 ^ sz - 1)) = w mod 2 ^ sz) by (rewrite Z.shiftr_0_r, u32_id by (unfold is_u32; lia); rewrite Z.sub_1_r, <- Z.ones_equiv, Z.land_ones by lia; done). set (c := Z.land (Z.shiftr w 0) (u32 (2 ^ sz - 1))) in *. pose proof (Z.mod_pos_bound w (2 ^ sz) ltac:(lia)) as Hc. rewrite <- Ec in Hc.
  exists w, c. split; [done|]. split; [done|]. split; [lia|]. split; [lia|]. replace (32 * Z.of_nat j) with (32 * Z.of_nat j + 32 - 32) by lia. apply top_step; [done|lia|]. intros r Hr. replace (r + (32 * Z.of_nat j + 32 - 32)) with (r + 32 * Z.of_nat j) by lia. rewrite (bit_at maskp j w r Ew Hr), Ec.
  destruct (Z.ltb_spec r sz) as [Hrs|Hrs]; [rewrite Z.mod_pow2_bits_low by lia; destruct (Z.ltb_spec (r + 32 * Z.of_nat j) n); [done|lia]|]. rewrite Z.mod_pow2_bits_high by lia. destruct (Z.ltb_spec (r + 32 * Z.of_nat j) n); [lia|done].
Qed.

Lemma format_sep rd sep S sz c : (forall x v, load_byte m0 x = Some v -> x < buf \/ buf + buflen <= x -> rd x = Some v) -> literal sep S -> S = [] \/ S = [44] -> 1 <= sz <= 32 -> 0 <= c < 2 ^ sz ->
  format_text symbol rd 2 (2 * length chunk_format) chunk_format spec0 [Word sep; Word ((sz + 3) / 4); Word c] = Some (S ++ hexpad ((sz + 3) / 4) c, []) /\ zlen (S ++ hexpad ((sz + 3) / 4) c) < 2 ^ 31.
Proof using All.
  intros Hrd Hlit HS Hsz Hc. destruct (chunk_width sz c Hsz Hc) as [Hwd Hc16]. split.
  - apply format_chunk; [by destruct Hlit|by apply literal_read|done|done].
  - destruct (hexpad_bytes _ c Hwd Hc16) as [_ Hhl]. rewrite zlen_app, Hhl. destruct HS as [-> | ->]; [change (zlen []) with 0|change (zlen [44]) with 1]; lia.
Qed.

(** The first chunk: nothing is in the buffer before it. *)
Lemma chunk_first sz c : 1 <= sz <= 32 -> 0 <= c < 2 ^ sz ->
  exists m' k, scnprintf symbol m0 (buf + 0) (u32 (buflen - 0)) chunk_format [Word empty_str; Word ((sz + 3) / 4); Word c] = Some (m', k) /\ shown (hexpad ((sz + 3) / 4) c) m' (s32 (0 + k)).
Proof using All.
  intros Hsz Hc. destruct (format_sep (reader m0 (buf + 0) (buf + 0 + (buflen - 0))) empty_str [] sz c) as [HU HUl]; [|done|by left|done|done|].
  { intros x v. apply (printed_load m0 buf buflen Hlen []). by left. }
  destruct (shown_first symbol Hsym m0 buf buflen Hm0 Hz Hbuf Hlen Hroom _ _ _ [] 2 HU HUl) as (m' & k & E & Hs). exists m', k. split; [done|by apply shown_s32].
Qed.

(** The chunks behind it *)
Lemma chunk_step T m len c : Forall (fun c => 0 < c < 256) T -> shown T m len -> 0 <= c < 2 ^ 32 ->
  exists m' k, scnprintf symbol m (buf + len) (u32 (buflen - len)) chunk_format [Word comma_str; Word ((32 + 3) / 4); Word c] = Some (m', k) /\ shown (T ++ [44] ++ hexpad 8 c) m' (s32 (len + k)).
Proof using All.
  intros HT Hs Hc. destruct (format_sep (reader m (buf + len) (buf + len + (buflen - len))) comma_str [44] 32 c) as [HU HUl]; [intros x v; apply (printed_load m0 buf buflen Hlen T); by right|done|by right|lia|done|].
  apply (shown_step symbol Hsym m0 buf buflen Hm0 Hz Hbuf Hlen Hroom T m len chunk_format _ _ [] 2 HT Hs HU HUl).
Qed.

Lemma rest_loop : forall j fuel T m len V, (j <= fuel)%nat -> (j < length maskp)%nat -> 32 * Z.of_nat j <= n -> Forall (fun c => 0 < c < 256) T -> shown T m len -> top (bit maskp) n (32 * Z.of_nat j) V ->
  exists m' len' cs, chunk_loop symbol comma_str fuel m buf buflen maskp (32 * Z.of_nat j - 32) 32 comma_str len = Some (m', len') /\ shown (T ++ hex_tail cs) m' len' /\ Forall (fun c => 0 <= c < 2 ^ 32) cs /\ top (bit maskp) n 0 (foldv V cs) /\ length cs = j.
Proof using All.
  induction j as [|j IH]; intros fuel T m len V Hf Hj Hjn HT Hs HV.
  - exists m, len, []. split; [|split; [by rewrite app_nil_r|split; [constructor|done]]]. destruct fuel; done.
  - destruct fuel as [|fuel]; [lia|]. cbn [chunk_loop]. replace (32 * Z.of_nat (S j) - 32) with (32 * Z.of_nat j) by lia. destruct (Z.leb_spec 0 (32 * Z.of_nat j)); [|lia]. cbv zeta. unfold BITS_PER_LONG, CHUNKSZ. replace (32 * Z.of_nat j / 32) with (Z.of_nat j) by (rewrite Z.mul_comm, Z.div_mul by lia; done). replace (32 * Z.of_nat j mod 32) with 0 by (rewrite Z.mul_comm, Z.mod_mul by lia; done). rewrite Nat2Z.id.
    destruct (chunk_value j 32 V ltac:(lia) ltac:(lia) ltac:(lia) ltac:(by left)) as (w & c & -> & Ec & Hc & _ & HV1); [by replace (32 * Z.of_nat j + 32) with (32 * Z.of_nat (S j)) by lia|]. cbn [mbind option_bind]. rewrite <- Ec. destruct (chunk_step T m len c HT Hs Hc) as (m1 & k & -> & Hs1). cbn [mbind option_bind].
    destruct (hexpad_bytes 8 c ltac:(lia) ltac:(change (16 ^ 8) with (2 ^ 32); lia)) as [Hhb _]. destruct (IH fuel (T ++ [44] ++ hexpad 8 c) m1 (s32 (len + k)) (V * 2 ^ 32 + c)) as (m' & len' & cs & E' & Hs' & Hcs & HV' & Hl); [lia|lia|lia|apply Forall_app; split; [done|]; constructor; [lia|done]|done|done|].
    exists m', len', (c :: cs). split; [done|]. split; [|split; [by constructor|split; [done|simpl; lia]]]. rewrite <- !app_assoc in Hs'. done.
Qed.

Lemma print_ok : exists c cs m', bitmap_scnprintf symbol empty_str comma_str m0 buf buflen maskp n = Some (m', zlen (clip (buflen - 1) (hex_text n (c :: cs)))) /\ write_bytes m0 buf (clip (buflen - 1) (hex_text n (c :: cs)) ++ [0]) = Some m' /\
    0 <= c < 2 ^ top_size n /\ Forall (fun c => 0 <= c < 2 ^ 32) cs /\ top (bit maskp) n 0 (foldv 0 (c :: cs)).
Proof using All.
  unfold bitmap_scnprintf. rewrite first_size, align_down by lia. set (j := Z.to_nat ((n - 1) / 32)). destruct (top_size_spec n ltac:(lia)) as [Hsz Hnj]. assert (Hj : (n - 1) / 32 = Z.of_nat j) by (pose proof (Z.div_pos (n - 1) 32 ltac:(lia) ltac:(lia)); lia). rewrite Hj in *.
  assert (Hjl : (j < length maskp)%nat) by (unfold zlen in Hnw; lia). destruct (Z.to_nat (n + CHUNKSZ)) as [|fuel] eqn:Ef; [unfold CHUNKSZ in Ef; lia|]. unfold CHUNKSZ in Ef. cbn [chunk_loop]. destruct (Z.leb_spec 0 (32 * Z.of_nat j)); [|lia]. cbv zeta. unfold BITS_PER_LONG, CHUNKSZ.
  replace (32 * Z.of_nat j / 32) with (Z.of_nat j) by (rewrite Z.mul_comm, Z.div_mul by lia; done). replace (32 * Z.of_nat j mod 32) with 0 by (rewrite Z.mul_comm, Z.mod_mul by lia; done). rewrite Nat2Z.id.
  destruct (chunk_value j (top_size n) 0 Hsz Hjl ltac:(lia) ltac:(by right; lia)) as (w & c & -> & Ec & Hc & Hc32 & HV); [split; [lia|]; intros i Hi; rewrite Z.bits_0; destruct (Z.ltb_spec (i + (32 * Z.of_nat j + 32)) n); [lia|done]|]. cbn [mbind option_bind]. rewrite <- Ec. destruct (chunk_first (top_size n) c Hsz Hc) as (m1 & k & -> & Hs1). cbn [mbind option_bind].
  destruct (chunk_width _ c Hsz Hc) as [Hwd Hc16]. destruct (rest_loop j fuel _ m1 _ _ ltac:(lia) Hjl ltac:(lia) (proj1 (hexpad_bytes _ c Hwd Hc16)) Hs1 HV) as (m' & len & cs & -> & [Hs ->] & Hcs & HV' & _). exists c, cs, m'. done.
Qed.

End hex_print.


(** ** Reading chunks *)

Lemma hex_char d : 0 <= d < 16 -> let c := dchar 32 d in isspace c = false /\ isxdigit c = true /\ (c =? 0) = false /\ (c =? 44) = false /\ unhex c = d.
Proof.
  intros Hd c. set (P := fun d => let c := dchar 32 d in negb (isspace c) && isxdigit c && negb (c =? 0) && negb (c =? 44) && (unhex c =? d)). assert (H : P d = true) by (apply (all_below_spec 16 P); [vm_compute; reflexivity|lia]).
  unfold P in H. cbv zeta in H. fold c in H. rewrite !andb_true_iff, !negb_true_iff, Z.eqb_eq in H. tauto.
Qed.

(** There is room for four more bits. *)
Lemma chunk_room x d : 0 <= x < 2 ^ 28 -> 0 <= d < 16 -> (Z.land x (not32 (2 ^ (CHUNKSZ - 4) - 1)) =? 0) = true /\ Z.lor (u32 (Z.shiftl x 4)) d = x * 16 + d.
Proof.
  intros Hx Hd. split.
  - apply Z.eqb_eq. change (not32 (2 ^ (CHUNKSZ - 4) - 1)) with (Z.shiftl 15 28). apply Z.bits_inj'. intros i Hi. rewrite Z.land_spec, Z.bits_0. destruct (decide (i < 28)); [rewrite Z.shiftl_spec_low by lia; apply andb_false_r|]. replace x with (x mod 2 ^ 28) by (apply Z.mod_small; lia). by rewrite Z.mod_pow2_bits_high by lia.
  - rewrite u32_id by (unfold is_u32; rewrite Z.shiftl_mul_pow2 by lia; lia). apply Z.bits_inj'. intros i Hi. rewrite Z.lor_spec. destruct (decide (i < 4)).
    + rewrite Z.shiftl_spec_low by lia. cbn [orb]. rewrite <- (Z.mod_pow2_bits_low (x * 16 + d) 4 i) by lia. change (2 ^ 4) with 16. rewrite Z.add_comm, Z.mod_add, Z.mod_small by lia. done.
    + rewrite Z.shiftl_spec by lia. replace (Z.testbit d i) with false by (replace d with (d mod 2 ^ 4) by (apply Z.mod_small; lia); by rewrite Z.mod_pow2_bits_high by lia). rewrite orb_false_r. replace i with ((i - 4) + 4) at 2 by lia. rewrite <- Z.div_pow2_bits by lia. change (2 ^ 4) with 16. rewrite Z.div_add_l, Z.div_small by lia. by rewrite Z.add_0_r.
Qed.

Section hex_parse.
Context (is_user : bool).

Lemma chunk_digits rest bl ds : Forall (fun d => 0 <= d < 16) ds -> forall c td nd x, isspace c = false -> 0 <= x < 16 ^ (8 - zlen ds) -> zlen ds <= 8 ->
  exists c', isspace c' = false /\ chunk_chars is_user (List.map (dchar 32) ds ++ rest) (length ds + bl) c td nd x = chunk_chars is_user rest bl c' (td + zlen ds) (nd + zlen ds) (horner 16 x ds).
Proof using Type.
  induction 1 as [|d ds Hd _ IH]; intros c td nd x Hsp Hx Hl.
  - exists c. split; [done|]. change (zlen []) with 0. by rewrite !Z.add_0_r.
  - rewrite zlen_cons in *. pose proof (zlen_nonneg ds). cbn [List.map app length Nat.add chunk_chars]. destruct (hex_char d Hd) as (H1 & H2 & H3 & H4 & H5). rewrite H1, H2, H3, H4, H5, Hsp. rewrite andb_false_r. cbn [orb negb].
    assert (Hx28 : 0 <= x < 2 ^ 28) by (pose proof (Z.pow_le_mono_r 16 (8 - (1 + zlen ds)) 7 ltac:(lia) ltac:(lia)); lia). destruct (chunk_room x d Hx28 Hd) as [-> ->]. cbn [negb]. assert (E16 : 16 ^ (8 - zlen ds) = 16 * 16 ^ (8 - (1 + zlen ds))) by (rewrite <- Z.pow_succ_r by lia; f_equal; lia).
    destruct (IH (dchar 32 d) (td + 1) (nd + 1) (x * 16 + d) H1 ltac:(lia) ltac:(lia)) as (c' & Hc' & E). exists c'. split; [done|]. rewrite E. by rewrite <- !Z.add_assoc.
Qed.

(** What may follow the text: the end of the buffer, or a NUL *)
Definition text_end (bl : nat) (tl : list Z) : Prop := bl = O \/ exists tl', tl = 0 :: tl' /\ (0 < bl)%nat.

Lemma chunk_read rest bl c td w v : isspace c = false -> 1 <= w <= 8 -> 0 <= v < 16 ^ w ->
  exists c', isspace c' = false /\ chunk_chars is_user (hexpad w v ++ rest) (Z.to_nat w + bl) c td 0 0 = chunk_chars is_user rest bl c' (td + w) w v.
Proof using Type.
  intros Hc Hw Hv. destruct (hexdigits_ok w v Hw Hv) as (Hf & Hl & Hh). destruct (chunk_digits rest bl _ Hf c td 0 0 Hc ltac:(rewrite Hl; pose proof (Z.pow_pos_nonneg 16 (8 - w)); lia) ltac:(lia)) as (c' & Hc' & E). exists c'. split; [done|]. rewrite Hl, Hh, Z.add_0_l in E. rewrite <- E. unfold hexpad. do 2 f_equal. unfold zlen in Hl. lia.
Qed.

Lemma chunk_read_end tl bl c td w v : isspace c = false -> 1 <= w <= 8 -> 0 <= v < 16 ^ w -> text_end bl tl ->
  exists c' td' b' bl', chunk_chars is_user (hexpad w v ++ tl) (Z.to_nat w + bl) c td 0 0 = Some (inr (c', td', w, v, b', bl')) /\ negb (bool_decide (bl' = O)) && (c' =? 44) = false.
Proof using Type.
  intros Hc Hw Hv He. destruct (chunk_read tl bl c td w v Hc Hw Hv) as (c' & Hc' & E). rewrite E. destruct He as [-> | (tl' & -> & Hbl)].
  - exists c', (td + w), tl, O. split; [by destruct tl|done].
  - destruct bl as [|bl]; [lia|]. cbn [chunk_chars]. change (isspace 0) with false. change (0 =? 0) with true. cbn [negb]. rewrite !andb_false_r. cbn [andb orb]. eexists _, _, _, _. split; [reflexivity|]. apply andb_false_r.
Qed.

Lemma chunk_read_comma r bl c td w v : isspace c = false -> 1 <= w <= 8 -> 0 <= v < 16 ^ w ->
  chunk_chars is_user (hexpad w v ++ 44 :: r) (Z.to_nat w + S bl) c td 0 0 = Some (inr (44, td + w, w, v, r, bl)).
Proof using Type.
  intros Hc Hw Hv. destruct (chunk_read (44 :: r) (S bl) c td w v Hc Hw Hv) as (c' & Hc' & E). rewrite E. cbn [chunk_chars]. change (isspace 44) with false. rewrite Hc', andb_false_r. done.
Qed.

Context (n : Z).
Hypotheses (Hn : 1 <= n < 2 ^ 31).

(** The bitmap is the number [V], and [nbits] its size. *)
Definition holds_value (maskp : list Z) (V nchunks nbits : Z) : Prop :=
  Bitmap.holds n maskp /\ 0 <= V /\ 0 <= nchunks /\ (nchunks =? 0) = (V =? 0) /\ nbits = (if V =? 0 then 0 else Z.log2 V + 1) /\ forall i, 0 <= i < n -> bit maskp i = Z.testbit V i.

Lemma push_chunk maskp V nchunks nbits c : holds_value maskp V nchunks nbits -> 0 <= c < 2 ^ 32 -> V * 2 ^ 32 + c < 2 ^ n -> (nchunks =? 0) && (c =? 0) = false ->
  exists d w d', Bitmap.__bitmap_shift_left true maskp maskp CHUNKSZ n = Some d /\ d !! O = Some w /\ Bitmap.store_word d O (Z.lor w c) = Some d' /\
    let nbits' := nbits + (if nchunks + 1 =? 1 then nbits_to_hold_value c else CHUNKSZ) in holds_value d' (V * 2 ^ 32 + c) (nchunks + 1) nbits' /\ (n <? nbits') = false.
Proof using Hn.
  intros (Hh & HV & Hk & Hk0 & Hnb & Hbits) Hc Hlt Hnz. destruct (Bitmap.shift_left_ok true maskp maskp CHUNKSZ n Hh Hh ltac:(lia) ltac:(done)) as (d & E & Hd & Hbd); [change (CHUNKSZ / 32) with 1; destruct (Bitmap.longs_bound n ltac:(lia)) as [|[? _]]; lia|].
  pose proof Hd as [Wd Ld]. assert (Hl0 : (0 < length d)%nat) by (unfold zlen in Ld; lia). destruct (lookup_lt_is_Some_2 d 0 Hl0) as [w Ew]. pose proof (proj1 (Forall_lookup _ _) Wd 0%nat w Ew) as Hu. destruct (Bitmap.store_word_ok d 0 (Z.lor w c) Hl0) as (d' & E' & L' & B' & W').
  exists d, w, d'. do 3 (split; [done|]). cbv zeta. set (x := V * 2 ^ 32 + c) in *. assert (Hx0 : 0 < x) by (unfold x; rewrite Hk0 in Hnz; destruct (Z.eqb_spec V 0), (Z.eqb_spec c 0); simpl in Hnz; try done; lia).
  assert (Hsize : nbits + (if nchunks + 1 =? 1 then nbits_to_hold_value c else CHUNKSZ) = Z.log2 x + 1).
  { rewrite Hnb. destruct (Z.eqb_spec V 0) as [HV0|HV0]; [|rewrite Z.eqb_neq in Hk0]; [rewrite Z.eqb_eq in Hk0; rewrite Hk0|].
    - change (0 + 1 =? 1) with true. cbv iota. unfold nbits_to_hold_value. rewrite fls_spec by done. replace x with c by lia. destruct (Z.eqb_spec c 0); lia.
    - destruct (Z.eqb_spec (nchunks + 1) 1); [lia|]. unfold CHUNKSZ. pose proof (Z.log2_spec V ltac:(lia)) as Hl2. pose proof (Z.log2_nonneg V). assert (El : Z.log2 x = Z.log2 V + 32); [|lia]. apply Z.log2_unique; [lia|]. rewrite Z.pow_succ_r in Hl2 by lia. rewrite Z.pow_succ_r, Z.pow_add_r by lia. unfold x. nia. }
  rewrite Hsize. split.
  - split; [split; [by apply W'; [|apply lor_word]|unfold zlen in *; lia]|]. split; [lia|]. split; [lia|]. split; [destruct (Z.eqb_spec (nchunks + 1) 0), (Z.eqb_spec x 0); lia|]. split; [destruct (Z.eqb_spec x 0); lia|].
    intros i Hi. unfold x. rewrite testbit_chunk by lia. rewrite Bitmap.bit_fbit. destruct (Z.ltb_spec i 32) as [Hi32|Hi32].
    + replace i with (32 * Z.of_nat 0 + i) at 1 by lia. rewrite Bitmap.fbit_at, B' by lia. rewrite decide_True, Z.lor_spec by done. pose proof (bit_at d 0 w i Ew ltac:(lia)) as Hb. replace (i + 32 * Z.of_nat 0) with i in Hb by lia. rewrite <- Hb, Hbd by lia. unfold CHUNKSZ. destruct (Z.leb_spec 32 i); [lia|done].
    + destruct (Bitmap.bit_split i ltac:(lia)) as (k & j & Hj & Ei). rewrite Ei at 1. rewrite Bitmap.fbit_at, B' by done. rewrite decide_False by lia. rewrite <- Bitmap.fbit_at by done. rewrite <- Ei, <- Bitmap.bit_fbit, Hbd by done. unfold CHUNKSZ. destruct (Z.leb_spec 32 i); [|lia]. cbn [andb Bitmap.source]. by apply Hbits; lia.
  - apply Z.ltb_ge. assert (Z.log2 x < n); [by apply Z.log2_lt_pow2|lia].
Qed.

(** One turn of the loop *)
Lemma parse_turn fuel buf bl maskp c td nchunks nbits V c' td' w v b' bl' : chunk_chars is_user buf bl c td 0 0 = Some (inr (c', td', w, v, b', bl')) -> 1 <= w -> holds_value maskp V nchunks nbits -> 0 <= v < 2 ^ 32 -> V * 2 ^ 32 + v < 2 ^ n ->
  exists d k nb, holds_value d (V * 2 ^ 32 + v) k nb /\ parse_loop (S fuel) is_user buf bl maskp n c td nchunks nbits =
    if negb (bool_decide (bl' = O)) && (c' =? 44) then parse_loop fuel is_user b' bl' d n c' td' k nb else Some (0, d).
Proof using Hn.
  intros E Hw Hh Hv Hlt. cbn [parse_loop]. rewrite E. cbn [mbind option_bind]. destruct (Z.eqb_spec w 0); [lia|]. cbv zeta. destruct ((nchunks =? 0) && (v =? 0)) eqn:Ez.
  - apply andb_true_iff in Ez as [Ek Ev%Z.eqb_eq]. pose proof Hh as (_ & _ & _ & Hk0 & _). rewrite Ek in Hk0. symmetry in Hk0. apply Z.eqb_eq in Hk0. exists maskp, nchunks, nbits. split; [|done]. replace (V * 2 ^ 32 + v) with V by lia. done.
  - destruct (push_chunk maskp V nchunks nbits v Hh Hv Hlt Ez) as (d & wd & d' & -> & Ew & Es & Hh' & Hnb). cbn [mbind option_bind]. rewrite Ew. cbn [mbind option_bind]. rewrite Es. cbn [mbind option_bind]. rewrite Hnb. eexists d', _, _. split; [exact Hh'|done].
Qed.

Lemma foldv_mono cs : Forall (fun c => 0 <= c < 2 ^ 32) cs -> forall V, 0 <= V -> V <= foldv V cs.
Proof using Type. induction 1 as [|c cs Hc _ IH]; intros V HV; [done|]. change (foldv V (c :: cs)) with (foldv (V * 2 ^ 32 + c) cs). specialize (IH (V * 2 ^ 32 + c) ltac:(lia)). lia. Qed.

Lemma parse_chunks tl bl : text_end bl tl -> forall cs fuel w v maskp c td nchunks nbits V, Forall (fun c => 0 <= c < 2 ^ 32) cs -> (length cs < fuel)%nat -> isspace c = false -> 1 <= w <= 8 -> 0 <= v < 16 ^ w -> holds_value maskp V nchunks nbits -> foldv V (v :: cs) < 2 ^ n ->
  exists d k nb, parse_loop fuel is_user (hexpad w v ++ hex_tail cs ++ tl) (Z.to_nat w + (length (hex_tail cs) + bl)) maskp n c td nchunks nbits = Some (0, d) /\ holds_value d (foldv V (v :: cs)) k nb.
Proof using Hn.
  intros He cs. induction cs as [|x cs IH]; intros fuel w v maskp c td nchunks nbits V Hcs Hf Hc Hw Hv Hh Hlt; (destruct fuel as [|fuel]; [simpl in Hf; lia|]); pose proof Hh as (_ & HV & _); assert (Hv32 : 0 <= v < 2 ^ 32) by (pose proof (Z.pow_le_mono_r 16 w 8 ltac:(lia) ltac:(lia)); lia).
  - cbn [hex_tail concat List.map app length Nat.add]. destruct (chunk_read_end tl bl c td w v Hc Hw Hv He) as (c' & td' & b' & bl' & E & Hmore). destruct (parse_turn fuel _ _ maskp c td nchunks nbits V _ _ _ _ _ _ E ltac:(lia) Hh Hv32 Hlt) as (d & k & nb & Hd & ->). rewrite Hmore. exists d, k, nb. done.
  - apply Forall_cons in Hcs as [Hx Hcs]. change (foldv V (v :: x :: cs)) with (foldv (V * 2 ^ 32 + v) (x :: cs)) in *. assert (Hlt' : V * 2 ^ 32 + v < 2 ^ n) by (pose proof (foldv_mono (x :: cs) ltac:(by constructor) (V * 2 ^ 32 + v) ltac:(lia)); lia).
    change (hex_tail (x :: cs)) with (44 :: hexpad 8 x ++ hex_tail cs). cbn [app length]. rewrite length_app. cbn [Nat.add]. destruct (hexpad_bytes 8 x ltac:(lia) ltac:(change (16 ^ 8) with (2 ^ 32); lia)) as [_ Hl8]. replace (length (hexpad 8 x)) with (Z.to_nat 8) by (unfold zlen in Hl8; lia). rewrite <- Nat.add_assoc, <- (app_assoc (hexpad 8 x)).
    pose proof (chunk_read_comma (hexpad 8 x ++ hex_tail cs ++ tl) (Z.to_nat 8 + (length (hex_tail cs) + bl)) c td w v Hc Hw Hv) as E. destruct (parse_turn fuel _ _ maskp c td nchunks nbits V _ _ _ _ _ _ E ltac:(lia) Hh Hv32 Hlt') as (d & k & nb & Hd & ->). rewrite bool_decide_eq_false_2 by (change (Z.to_nat 8) with 8%nat; lia). change (44 =? 44) with true. cbn [negb andb].
    apply IH; [done|simpl in Hf; lia|reflexivity|lia|change (16 ^ 8) with (2 ^ 32); lia|done|done].
Qed.

End hex_parse.

Lemma hex_tail_length cs : (length cs <= length (hex_tail cs))%nat.
Proof. induction cs as [|c cs IH]; [done|]. change (hex_tail (c :: cs)) with ((44 :: hexpad 8 c) ++ hex_tail cs). rewrite length_app. simpl. lia. Qed.

(** The text of chunks read into a bitmap *)
Lemma parse_ok is_user n c cs tl bl dst : 1 <= n < 2 ^ 31 -> Bitmap.holds n dst -> 0 <= c < 2 ^ top_size n -> Forall (fun c => 0 <= c < 2 ^ 32) cs -> foldv 0 (c :: cs) < 2 ^ n -> text_end bl tl ->
  exists d, __bitmap_parse (hex_text n (c :: cs) ++ tl) (zlen (hex_text n (c :: cs)) + Z.of_nat bl) is_user dst n = Some (0, d) /\ Bitmap.holds n d /\ forall i, 0 <= i < n -> bit d i = Z.testbit (foldv 0 (c :: cs)) i.
Proof.
  intros Hn Hd Hc Hcs Hlt He. destruct (chunk_width _ c (proj1 (top_size_spec n ltac:(lia))) Hc) as [Hw Hc16]. destruct (hexpad_bytes _ c Hw Hc16) as [_ Hhl]. unfold __bitmap_parse. destruct (Bitmap.bitmap_zero_ok dst n Hd) as (d0 & -> & Hd0 & B0). cbn [mbind option_bind]. cbn [hex_text]. rewrite zlen_app, <- app_assoc.
  set (w := (top_size n + 3) / 4) in *. replace (Z.to_nat (zlen (hexpad w c) + zlen (hex_tail cs) + Z.of_nat bl)) with (Z.to_nat w + (length (hex_tail cs) + bl))%nat by (rewrite Hhl; unfold zlen; lia).
  destruct (parse_chunks is_user n Hn tl bl He cs (S (Z.to_nat w + (length (hex_tail cs) + bl))) w c d0 0 0 0 0 0 Hcs) as (d & k & nb & -> & (Hh & _ & _ & _ & _ & B)); [pose proof (hex_tail_length cs); lia|done|lia|done| |done|exists d; done].
  split; [done|]. do 4 (split; [done|]). intros i Hi. by rewrite B0, Z.bits_0.
Qed.



Lemma drop_written m buf T m' : write_bytes m buf (T ++ [0]) = Some m' -> exists tl, drop (Z.to_nat buf) m' = T ++ 0 :: tl.
Proof.
  intros H. unfold write_bytes in H. destruct (in_bounds m buf _) eqn:Eb; [|done]. injection H as <-. unfold in_bounds in Eb. rewrite zlen_app in Eb. change (zlen [0]) with 1 in Eb. pose proof (zlen_nonneg T). apply andb_true_iff in Eb as [E1 E2]. unfold zlen in *.
  rewrite drop_app_length' by (rewrite length_take; lia). rewrite <- app_assoc. eexists. reflexivity.
Qed.

(** C24. A bitmap in hexadecimal: [bitmap_scnprintf] prints the bits as one number of exactly [n] bits in chunks of 32, the first one in as few digits as its bits need and the others in eight, with commas between them, cut to the buffer and ended with a NUL, and returns the number of characters in the buffer.  If the whole text fits, [__bitmap_parse] reads exactly the bitmap back from the buffer, from user space and from the kernel. *)
Theorem bitmap_hex_correct symbol m buf buflen empty_str comma_str maskp n : (forall c v, Forall (fun x => x <> 0) (symbol c v)) -> is_bytes m -> zlen m < 2 ^ 32 -> 0 <= buf -> 1 <= buflen < 2 ^ 31 -> buf + buflen <= zlen m ->
  literal m buf buflen empty_str [] -> literal m buf buflen comma_str [44] -> 1 <= n < 2 ^ 31 -> Bitmap.holds n maskp ->
  exists c cs m', let T := hex_text n (c :: cs) in
    bitmap_scnprintf symbol empty_str comma_str m buf buflen maskp n = Some (m', zlen (clip (buflen - 1) T)) /\ write_bytes m buf (clip (buflen - 1) T ++ [0]) = Some m' /\
    0 <= c < 2 ^ top_size n /\ Forall (fun c => 0 <= c < 2 ^ 32) cs /\ top (bit maskp) n 0 (foldv 0 (c :: cs)) /\
    (zlen T < buflen -> forall is_user dst, Bitmap.holds n dst -> exists d,
       __bitmap_parse (drop (Z.to_nat buf) m') buflen is_user dst n = Some (0, d) /\ Bitmap.holds n d /\ forall i, 0 <= i < n -> bit d i = bit maskp i).
Proof.
  intros Hsym Hm Hz Hbuf Hlen Hroom Hes Hcs Hn [Hw Hnw]. destruct (print_ok symbol Hsym m buf buflen empty_str comma_str Hm Hz Hbuf Hlen Hroom Hes Hcs maskp n Hw Hn ltac:(lia)) as (c & cs & m' & E & Hwr & Hc & Hcs' & HV). exists c, cs, m'. cbv zeta. do 5 (split; [done|]). intros HT is_user dst Hdst.
  set (T := hex_text n (c :: cs)) in *. assert (Hcl : clip (buflen - 1) T = T) by (unfold clip; by rewrite (proj2 (Z.leb_le _ _)) by lia). rewrite Hcl in Hwr. destruct (drop_written _ _ _ _ Hwr) as [tl ->].
  destruct (parse_ok is_user n c cs (0 :: tl) (Z.to_nat (buflen - zlen T)) dst Hn Hdst Hc Hcs' (top_bound _ n _ ltac:(lia) HV)) as (d & Ed & Hd & B); [right; exists tl; split; [done|lia]|]. fold T in Ed. replace (zlen T + Z.of_nat (Z.to_nat (buflen - zlen T))) with buflen in Ed by lia.
  exists d. split; [done|]. split; [done|]. intros i Hi. rewrite B by done. destruct HV as [_ ->]; [|lia]. rewrite Z.add_0_r. destruct (Z.ltb_spec i n); [done|lia].
Qed.

(** 36 bits; the literals are behind the buffer. *)
Lemma bitmap_hex_correct_witness : let m := replicate 4100 1 ++ [0; 44; 0] in
  option_map snd (bitmap_scnprintf (fun _ _ => []) 4100 4101 m 10 20 [0x12abc; 5] 36) = Some 10 /\
  exists c cs m', bitmap_scnprintf (fun _ _ => []) 4100 4101 m 10 20 [0x12abc; 5] 36 = Some (m', zlen (clip (20 - 1) (hex_text 36 (c :: cs)))) /\ top (bit [0x12abc; 5]) 36 0 (foldv 0 (c :: cs)).
Proof.
  cbv zeta. split; [vm_compute; reflexivity|]. destruct (bitmap_hex_correct (fun _ _ => []) (replicate 4100 1 ++ [0; 44; 0]) 10 20 4100 4101 [0x12abc; 5] 36) as (c & cs & m' & E & _ & _ & _ & HV & _).
  - intros; constructor.
  - apply Forall_app. split; [by apply Forall_replicate|repeat constructor; lia].
  - vm_compute. reflexivity.
  - lia.
  - lia.
  - vm_compute. discriminate.
  - split; [vm_compute; discriminate|]. split; [vm_compute; reflexivity|right; vm_compute; discriminate].
  - split; [vm_compute; discriminate|]. split; [split; [vm_compute; reflexivity|split; [vm_compute; discriminate|vm_compute; reflexivity]]|right; vm_compute; discriminate].
  - lia.
  - split; [repeat constructor; unfold is_u32; lia|unfold zlen; simpl; lia].
  - exists c, cs, m'. exact (conj E HV).
Defined.

(** A comma behind the last chunk is an error, but not if it is the last byte of the buffer. *)
Lemma parse_trailing_comma : __bitmap_parse [52; 52; 44; 0] 4 false [0] 32 = Some (- EINVAL, [0x44]) /\ __bitmap_parse [52; 52; 44] 3 false [0] 32 = Some (0, [0x44]).
Proof. vm_compute. done. Qed.

(** The errors: no digit, an illegal character, a blank inside, a chunk with more than 32 bits, more bits than the bitmap has. *)
Lemma parse_errors :
  __bitmap_parse [] 0 false [7] 32 = Some (- EINVAL, [0]) /\ __bitmap_parse [44; 52; 52; 0] 4 false [7] 32 = Some (- EINVAL, [0]) /\ __bitmap_parse [49; 103; 0] 3 false [7] 32 = Some (- EINVAL, [0]) /\
  __bitmap_parse [49; 32; 49; 0] 4 false [7] 32 = Some (- EINVAL, [0]) /\ __bitmap_parse (replicate 9 49 ++ [0]) 10 false [7] 32 = Some (- EOVERFLOW, [0]) /\ __bitmap_parse [49; 48; 0] 3 false [7] 4 = Some (- EOVERFLOW, [16]) /\
  bitmap_parse_user true [49] 2 [7] 32 = Some (- EFAULT, [0]) /\ bitmap_parse_user false [49] 1 [7] 32 = Some (- EFAULT, [7]).
Proof. vm_compute. done. Qed.

End BitmapHex.
