(* ===== verification/Crc.v ===== *)
(** * Checksums: lib/crc32.c, lib/crc16.c, lib/crc-ccitt.c, lib/crc-itu-t.c, lib/crc-t10dif.c, lib/crc7.c

    The functions that use tables, on the byte memory of lib/string.c, and the bit by bit
    computation they stand for; of lib/crc32.c both are in the source (CRC_LE_BITS 8 and 1).
    The tables of lib/crc32.c are made when the kernel is built, by lib/gen_crc32table.c,
    which is here as a function.  The machine is little-endian. *)
From S2P Require Import Prelude Bitops Memcopy Ctype CString Number.
Import Bitops Memcopy CString Number.

Module Crc.

(** ** The tables of lib/crc32.c *)

Definition CRCPOLY_LE : Z := 0xedb88320.
Definition CRCPOLY_BE : Z := 0x04c11db7.
Definition CRC_LE_BITS : Z := 8.
Definition CRC_BE_BITS : Z := 8.
Definition LE_TABLE_SIZE : Z := Z.shiftl 1 CRC_LE_BITS.
Definition BE_TABLE_SIZE : Z := Z.shiftl 1 CRC_BE_BITS.

Definition set_entry (tab : list Z) (i v : Z) : option (list Z) := if (0 <=? i) && (i <? zlen tab) then Some (<[Z.to_nat i := v]> tab) else None.

(** One bit, the lowest first and the highest first *)
Definition le_bit (crc : Z) : Z := Z.lxor (Z.shiftr crc 1) (if negb (Z.land crc 1 =? 0) then CRCPOLY_LE else 0).
Definition be_bit (crc : Z) : Z := Z.lxor (u32 (Z.shiftl crc 1)) (if negb (Z.land crc 0x80000000 =? 0) then CRCPOLY_BE else 0).

Fixpoint fill_le (fuel : nat) (tab : list Z) (i j crc : Z) : option (list Z) :=
  if j <? LE_TABLE_SIZE then
    match fuel with
    | O => None
    | S fuel => v ← tab !! Z.to_nat j; tab ← set_entry tab (i + j) (Z.lxor crc v); fill_le fuel tab i (j + 2 * i) crc
    end
  else Some tab.

Fixpoint init_le_loop (fuel : nat) (tab : list Z) (i crc : Z) : option (list Z) :=
  if i =? 0 then Some tab
  else
    match fuel with
    | O => None
    | S fuel => let crc := le_bit crc in tab ← fill_le (Z.to_nat LE_TABLE_SIZE) tab i 0 crc; init_le_loop fuel tab (Z.shiftr i 1) crc
    end.

Definition crc32init_le : option (list Z) :=
  tab ← set_entry (replicate (Z.to_nat LE_TABLE_SIZE) 0) 0 0;
  init_le_loop (Z.to_nat CRC_LE_BITS) tab (Z.shiftl 1 (CRC_LE_BITS - 1)) 1.

Fixpoint fill_be (fuel : nat) (tab : list Z) (i j crc : Z) : option (list Z) :=
  if j <? i then
    match fuel with
    | O => None
    | S fuel => v ← tab !! Z.to_nat j; tab ← set_entry tab (i + j) (Z.lxor crc v); fill_be fuel tab i (j + 1) crc
    end
  else Some tab.

Fixpoint init_be_loop (fuel : nat) (tab : list Z) (i crc : Z) : option (list Z) :=
  if i <? BE_TABLE_SIZE then
    match fuel with
    | O => None
    | S fuel => let crc := be_bit crc in tab ← fill_be (Z.to_nat BE_TABLE_SIZE) tab i 0 crc; init_be_loop fuel tab (Z.shiftl i 1) crc
    end
  else Some tab.

Definition crc32init_be : option (list Z) :=
  tab ← set_entry (replicate (Z.to_nat BE_TABLE_SIZE) 0) 0 0;
  init_be_loop (Z.to_nat CRC_BE_BITS) tab 1 0x80000000.

Definition swab32 (x : Z) : Z :=
  Z.lor (Z.lor (Z.lor (u32 (Z.shiftl (Z.land x 0x000000ff) 24)) (u32 (Z.shiftl (Z.land x 0x0000ff00) 8))) (Z.shiftr (Z.land x 0x00ff0000) 8)) (Z.shiftr (Z.land x 0xff000000) 24).

(** The generated file: the entries with [tole] and [tobe] *)
Definition crc32table_le : list Z := default [] crc32init_le.
Definition crc32table_be : list Z := List.map swab32 (default [] crc32init_be).

(** ** lib/crc32.c *)

Definition DO_CRC (tab : list Z) (crc x : Z) : option Z :=
  t ← tab !! Z.to_nat (Z.land (Z.lxor crc x) 255); Some (Z.lxor t (Z.shiftr crc 8)).

(** To the next word boundary *)
Fixpoint align_loop (fuel : nat) (tab m : list Z) (crc b len : Z) : option (Z * Z * Z) :=
  match fuel with
  | O => None
  | S fuel =>
      c ← load_byte m b;
      crc ← DO_CRC tab crc c;
      let b := b + 1 in
      let len := len - 1 in
      if negb (len =? 0) && negb (Z.land b 3 =? 0) then align_loop fuel tab m crc b len else Some (crc, b, len)
  end.

Fixpoint word_loop (n : nat) (tab m : list Z) (crc b : Z) : option (Z * Z) :=
  match n with
  | O => Some (crc, b)
  | S n =>
      w ← load_word m b;
      let crc := Z.lxor crc w in
      crc ← DO_CRC tab crc 0; crc ← DO_CRC tab crc 0; crc ← DO_CRC tab crc 0; crc ← DO_CRC tab crc 0;
      word_loop n tab m crc (b + 4)
  end.

Fixpoint byte_loop (n : nat) (tab m : list Z) (crc b : Z) : option Z :=
  match n with
  | O => Some crc
  | S n => c ← load_byte m b; crc ← DO_CRC tab crc c; byte_loop n tab m crc (b + 1)
  end.

(** What the two functions have in common *)
Definition crc32_body (tab m : list Z) (crc p len : Z) : option Z :=
  '(crc, b, len) ← (if negb (Z.land p 3 =? 0) && negb (len =? 0) then align_loop 4 tab m crc p len else Some (crc, p, len));
  '(crc, b, len) ← (if 4 <=? len then '(crc, b) ← word_loop (Z.to_nat (Z.shiftr len 2)) tab m crc b; Some (crc, b, Z.land len 3) else Some (crc, b, len));
  byte_loop (Z.to_nat len) tab m crc b.

Definition crc32_le (crc : Z) (m : list Z) (p len : Z) : option Z := crc32_body crc32table_le m crc p len.

Definition crc32_be (crc : Z) (m : list Z) (p len : Z) : option Z :=
  crc ← crc32_body crc32table_be m (swab32 crc) p len; Some (swab32 crc).

(** The same for CRC_LE_BITS and CRC_BE_BITS of 1 *)
Definition crc32_le_1 (crc : Z) (bs : list Z) : Z := fold_left (fun crc c => Nat.iter 8 le_bit (Z.lxor crc c)) bs crc.
Definition crc32_be_1 (crc : Z) (bs : list Z) : Z := fold_left (fun crc c => Nat.iter 8 be_bit (Z.lxor crc (Z.shiftl c 24))) bs crc.

(** ** The other checksums *)

Definition crc16_table : list Z :=
  [
   0x0000; 0xc0c1; 0xc181; 0x0140; 0xc301; 0x03c0; 0x0280; 0xc241; 0xc601; 0x06c0; 0x0780; 0xc741; 0x0500; 0xc5c1; 0xc481; 0x0440;
   0xcc01; 0x0cc0; 0x0d80; 0xcd41; 0x0f00; 0xcfc1; 0xce81; 0x0e40; 0x0a00; 0xcac1; 0xcb81; 0x0b40; 0xc901; 0x09c0; 0x0880; 0xc841;
   0xd801; 0x18c0; 0x1980; 0xd941; 0x1b00; 0xdbc1; 0xda81; 0x1a40; 0x1e00; 0xdec1; 0xdf81; 0x1f40; 0xdd01; 0x1dc0; 0x1c80; 0xdc41;
   0x1400; 0xd4c1; 0xd581; 0x1540; 0xd701; 0x17c0; 0x1680; 0xd641; 0xd201; 0x12c0; 0x1380; 0xd341; 0x1100; 0xd1c1; 0xd081; 0x1040;
   0xf001; 0x30c0; 0x3180; 0xf141; 0x3300; 0xf3c1; 0xf281; 0x3240; 0x3600; 0xf6c1; 0xf781; 0x3740; 0xf501; 0x35c0; 0x3480; 0xf441;
   0x3c00; 0xfcc1; 0xfd81; 0x3d40; 0xff01; 0x3fc0; 0x3e80; 0xfe41; 0xfa01; 0x3ac0; 0x3b80; 0xfb41; 0x3900; 0xf9c1; 0xf881; 0x3840;
   0x2800; 0xe8c1; 0xe981; 0x2940; 0xeb01; 0x2bc0; 0x2a80; 0xea41; 0xee01; 0x2ec0; 0x2f80; 0xef41; 0x2d00; 0xedc1; 0xec81; 0x2c40;
   0xe401; 0x24c0; 0x2580; 0xe541; 0x2700; 0xe7c1; 0xe681; 0x2640; 0x2200; 0xe2c1; 0xe381; 0x2340; 0xe101; 0x21c0; 0x2080; 0xe041;
   0xa001; 0x60c0; 0x6180; 0xa141; 0x6300; 0xa3c1; 0xa281; 0x6240; 0x6600; 0xa6c1; 0xa781; 0x6740; 0xa501; 0x65c0; 0x6480; 0xa441;
   0x6c00; 0xacc1; 0xad81; 0x6d40; 0xaf01; 0x6fc0; 0x6e80; 0xae41; 0xaa01; 0x6ac0; 0x6b80; 0xab41; 0x6900; 0xa9c1; 0xa881; 0x6840;
   0x7800; 0xb8c1; 0xb981; 0x7940; 0xbb01; 0x7bc0; 0x7a80; 0xba41; 0xbe01; 0x7ec0; 0x7f80; 0xbf41; 0x7d00; 0xbdc1; 0xbc81; 0x7c40;
   0xb401; 0x74c0; 0x7580; 0xb541; 0x7700; 0xb7c1; 0xb681; 0x7640; 0x7200; 0xb2c1; 0xb381; 0x7340; 0xb101; 0x71c0; 0x7080; 0xb041;
   0x5000; 0x90c1; 0x9181; 0x5140; 0x9301; 0x53c0; 0x5280; 0x9241; 0x9601; 0x56c0; 0x5780; 0x9741; 0x5500; 0x95c1; 0x9481; 0x5440;
   0x9c01; 0x5cc0; 0x5d80; 0x9d41; 0x5f00; 0x9fc1; 0x9e81; 0x5e40; 0x5a00; 0x9ac1; 0x9b81; 0x5b40; 0x9901; 0x59c0; 0x5880; 0x9841;
   0x8801; 0x48c0; 0x4980; 0x8941; 0x4b00; 0x8bc1; 0x8a81; 0x4a40; 0x4e00; 0x8ec1; 0x8f81; 0x4f40; 0x8d01; 0x4dc0; 0x4c80; 0x8c41;
   0x4400; 0x84c1; 0x8581; 0x4540; 0x8701; 0x47c0; 0x4680; 0x8641; 0x8201; 0x42c0; 0x4380; 0x8341; 0x4100; 0x81c1; 0x8081; 0x4040].

Definition crc_ccitt_table : list Z :=
  [
   0x0000; 0x1189; 0x2312; 0x329b; 0x4624; 0x57ad; 0x6536; 0x74bf; 0x8c48; 0x9dc1; 0xaf5a; 0xbed3; 0xca6c; 0xdbe5; 0xe97e; 0xf8f7;
   0x1081; 0x0108; 0x3393; 0x221a; 0x56a5; 0x472c; 0x75b7; 0x643e; 0x9cc9; 0x8d40; 0xbfdb; 0xae52; 0xdaed; 0xcb64; 0xf9ff; 0xe876;
   0x2102; 0x308b; 0x0210; 0x1399; 0x6726; 0x76af; 0x4434; 0x55bd; 0xad4a; 0xbcc3; 0x8e58; 0x9fd1; 0xeb6e; 0xfae7; 0xc87c; 0xd9f5;
   0x3183; 0x200a; 0x1291; 0x0318; 0x77a7; 0x662e; 0x54b5; 0x453c; 0xbdcb; 0xac42; 0x9ed9; 0x8f50; 0xfbef; 0xea66; 0xd8fd; 0xc974;
   0x4204; 0x538d; 0x6116; 0x709f; 0x0420; 0x15a9; 0x2732; 0x36bb; 0xce4c; 0xdfc5; 0xed5e; 0xfcd7; 0x8868; 0x99e1; 0xab7a; 0xbaf3;
   0x5285; 0x430c; 0x7197; 0x601e; 0x14a1; 0x0528; 0x37b3; 0x263a; 0xdecd; 0xcf44; 0xfddf; 0xec56; 0x98e9; 0x8960; 0xbbfb; 0xaa72;
   0x6306; 0x728f; 0x4014; 0x519d; 0x2522; 0x34ab; 0x0630; 0x17b9; 0xef4e; 0xfec7; 0xcc5c; 0xddd5; 0xa96a; 0xb8e3; 0x8a78; 0x9bf1;
   0x7387; 0x620e; 0x5095; 0x411c; 0x35a3; 0x242a; 0x16b1; 0x0738; 0xffcf; 0xee46; 0xdcdd; 0xcd54; 0xb9eb; 0xa862; 0x9af9; 0x8b70;
   0x8408; 0x9581; 0xa71a; 0xb693; 0xc22c; 0xd3a5; 0xe13e; 0xf0b7; 0x0840; 0x19c9; 0x2b52; 0x3adb; 0x4e64; 0x5fed; 0x6d76; 0x7cff;
   0x9489; 0x8500; 0xb79b; 0xa612; 0xd2ad; 0xc324; 0xf1bf; 0xe036; 0x18c1; 0x0948; 0x3bd3; 0x2a5a; 0x5ee5; 0x4f6c; 0x7df7; 0x6c7e;
   0xa50a; 0xb483; 0x8618; 0x9791; 0xe32e; 0xf2a7; 0xc03c; 0xd1b5; 0x2942; 0x38cb; 0x0a50; 0x1bd9; 0x6f66; 0x7eef; 0x4c74; 0x5dfd;
   0xb58b; 0xa402; 0x9699; 0x8710; 0xf3af; 0xe226; 0xd0bd; 0xc134; 0x39c3; 0x284a; 0x1ad1; 0x0b58; 0x7fe7; 0x6e6e; 0x5cf5; 0x4d7c;
   0xc60c; 0xd785; 0xe51e; 0xf497; 0x8028; 0x91a1; 0xa33a; 0xb2b3; 0x4a44; 0x5bcd; 0x6956; 0x78df; 0x0c60; 0x1de9; 0x2f72; 0x3efb;
   0xd68d; 0xc704; 0xf59f; 0xe416; 0x90a9; 0x8120; 0xb3bb; 0xa232; 0x5ac5; 0x4b4c; 0x79d7; 0x685e; 0x1ce1; 0x0d68; 0x3ff3; 0x2e7a;
   0xe70e; 0xf687; 0xc41c; 0xd595; 0xa12a; 0xb0a3; 0x8238; 0x93b1; 0x6b46; 0x7acf; 0x4854; 0x59dd; 0x2d62; 0x3ceb; 0x0e70; 0x1ff9;
   0xf78f; 0xe606; 0xd49d; 0xc514; 0xb1ab; 0xa022; 0x92b9; 0x8330; 0x7bc7; 0x6a4e; 0x58d5; 0x495c; 0x3de3; 0x2c6a; 0x1ef1; 0x0f78].

Definition crc_itu_t_table : list Z :=
  [
   0x0000; 0x1021; 0x2042; 0x3063; 0x4084; 0x50a5; 0x60c6; 0x70e7; 0x8108; 0x9129; 0xa14a; 0xb16b; 0xc18c; 0xd1ad; 0xe1ce; 0xf1ef;
   0x1231; 0x0210; 0x3273; 0x2252; 0x52b5; 0x4294; 0x72f7; 0x62d6; 0x9339; 0x8318; 0xb37b; 0xa35a; 0xd3bd; 0xc39c; 0xf3ff; 0xe3de;
   0x2462; 0x3443; 0x0420; 0x1401; 0x64e6; 0x74c7; 0x44a4; 0x5485; 0xa56a; 0xb54b; 0x8528; 0x9509; 0xe5ee; 0xf5cf; 0xc5ac; 0xd58d;
   0x3653; 0x2672; 0x1611; 0x0630; 0x76d7; 0x66f6; 0x5695; 0x46b4; 0xb75b; 0xa77a; 0x9719; 0x8738; 0xf7df; 0xe7fe; 0xd79d; 0xc7bc;
   0x48c4; 0x58e5; 0x6886; 0x78a7; 0x0840; 0x1861; 0x2802; 0x3823; 0xc9cc; 0xd9ed; 0xe98e; 0xf9af; 0x8948; 0x9969; 0xa90a; 0xb92b;
   0x5af5; 0x4ad4; 0x7ab7; 0x6a96; 0x1a71; 0x0a50; 0x3a33; 0x2a12; 0xdbfd; 0xcbdc; 0xfbbf; 0xeb9e; 0x9b79; 0x8b58; 0xbb3b; 0xab1a;
   0x6ca6; 0x7c87; 0x4ce4; 0x5cc5; 0x2c22; 0x3c03; 0x0c60; 0x1c41; 0xedae; 0xfd8f; 0xcdec; 0xddcd; 0xad2a; 0xbd0b; 0x8d68; 0x9d49;
   0x7e97; 0x6eb6; 0x5ed5; 0x4ef4; 0x3e13; 0x2e32; 0x1e51; 0x0e70; 0xff9f; 0xefbe; 0xdfdd; 0xcffc; 0xbf1b; 0xaf3a; 0x9f59; 0x8f78;
   0x9188; 0x81a9; 0xb1ca; 0xa1eb; 0xd10c; 0xc12d; 0xf14e; 0xe16f; 0x1080; 0x00a1; 0x30c2; 0x20e3; 0x5004; 0x4025; 0x7046; 0x6067;
   0x83b9; 0x9398; 0xa3fb; 0xb3da; 0xc33d; 0xd31c; 0xe37f; 0xf35e; 0x02b1; 0x1290; 0x22f3; 0x32d2; 0x4235; 0x5214; 0x6277; 0x7256;
   0xb5ea; 0xa5cb; 0x95a8; 0x8589; 0xf56e; 0xe54f; 0xd52c; 0xc50d; 0x34e2; 0x24c3; 0x14a0; 0x0481; 0x7466; 0x6447; 0x5424; 0x4405;
   0xa7db; 0xb7fa; 0x8799; 0x97b8; 0xe75f; 0xf77e; 0xc71d; 0xd73c; 0x26d3; 0x36f2; 0x0691; 0x16b0; 0x6657; 0x7676; 0x4615; 0x5634;
   0xd94c; 0xc96d; 0xf90e; 0xe92f; 0x99c8; 0x89e9; 0xb98a; 0xa9ab; 0x5844; 0x4865; 0x7806; 0x6827; 0x18c0; 0x08e1; 0x3882; 0x28a3;
   0xcb7d; 0xdb5c; 0xeb3f; 0xfb1e; 0x8bf9; 0x9bd8; 0xabbb; 0xbb9a; 0x4a75; 0x5a54; 0x6a37; 0x7a16; 0x0af1; 0x1ad0; 0x2ab3; 0x3a92;
   0xfd2e; 0xed0f; 0xdd6c; 0xcd4d; 0xbdaa; 0xad8b; 0x9de8; 0x8dc9; 0x7c26; 0x6c07; 0x5c64; 0x4c45; 0x3ca2; 0x2c83; 0x1ce0; 0x0cc1;
   0xef1f; 0xff3e; 0xcf5d; 0xdf7c; 0xaf9b; 0xbfba; 0x8fd9; 0x9ff8; 0x6e17; 0x7e36; 0x4e55; 0x5e74; 0x2e93; 0x3eb2; 0x0ed1; 0x1ef0].

Definition t10_dif_crc_table : list Z :=
  [
   0x0000; 0x8bb7; 0x9cd9; 0x176e; 0xb205; 0x39b2; 0x2edc; 0xa56b; 0xefbd; 0x640a; 0x7364; 0xf8d3; 0x5db8; 0xd60f; 0xc161; 0x4ad6;
   0x54cd; 0xdf7a; 0xc814; 0x43a3; 0xe6c8; 0x6d7f; 0x7a11; 0xf1a6; 0xbb70; 0x30c7; 0x27a9; 0xac1e; 0x0975; 0x82c2; 0x95ac; 0x1e1b;
   0xa99a; 0x222d; 0x3543; 0xbef4; 0x1b9f; 0x9028; 0x8746; 0x0cf1; 0x4627; 0xcd90; 0xdafe; 0x5149; 0xf422; 0x7f95; 0x68fb; 0xe34c;
   0xfd57; 0x76e0; 0x618e; 0xea39; 0x4f52; 0xc4e5; 0xd38b; 0x583c; 0x12ea; 0x995d; 0x8e33; 0x0584; 0xa0ef; 0x2b58; 0x3c36; 0xb781;
   0xd883; 0x5334; 0x445a; 0xcfed; 0x6a86; 0xe131; 0xf65f; 0x7de8; 0x373e; 0xbc89; 0xabe7; 0x2050; 0x853b; 0x0e8c; 0x19e2; 0x9255;
   0x8c4e; 0x07f9; 0x1097; 0x9b20; 0x3e4b; 0xb5fc; 0xa292; 0x2925; 0x63f3; 0xe844; 0xff2a; 0x749d; 0xd1f6; 0x5a41; 0x4d2f; 0xc698;
   0x7119; 0xfaae; 0xedc0; 0x6677; 0xc31c; 0x48ab; 0x5fc5; 0xd472; 0x9ea4; 0x1513; 0x027d; 0x89ca; 0x2ca1; 0xa716; 0xb078; 0x3bcf;
   0x25d4; 0xae63; 0xb90d; 0x32ba; 0x97d1; 0x1c66; 0x0b08; 0x80bf; 0xca69; 0x41de; 0x56b0; 0xdd07; 0x786c; 0xf3db; 0xe4b5; 0x6f02;
   0x3ab1; 0xb106; 0xa668; 0x2ddf; 0x88b4; 0x0303; 0x146d; 0x9fda; 0xd50c; 0x5ebb; 0x49d5; 0xc262; 0x6709; 0xecbe; 0xfbd0; 0x7067;
   0x6e7c; 0xe5cb; 0xf2a5; 0x7912; 0xdc79; 0x57ce; 0x40a0; 0xcb17; 0x81c1; 0x0a76; 0x1d18; 0x96af; 0x33c4; 0xb873; 0xaf1d; 0x24aa;
   0x932b; 0x189c; 0x0ff2; 0x8445; 0x212e; 0xaa99; 0xbdf7; 0x3640; 0x7c96; 0xf721; 0xe04f; 0x6bf8; 0xce93; 0x4524; 0x524a; 0xd9fd;
   0xc7e6; 0x4c51; 0x5b3f; 0xd088; 0x75e3; 0xfe54; 0xe93a; 0x628d; 0x285b; 0xa3ec; 0xb482; 0x3f35; 0x9a5e; 0x11e9; 0x0687; 0x8d30;
   0xe232; 0x6985; 0x7eeb; 0xf55c; 0x5037; 0xdb80; 0xccee; 0x4759; 0x0d8f; 0x8638; 0x9156; 0x1ae1; 0xbf8a; 0x343d; 0x2353; 0xa8e4;
   0xb6ff; 0x3d48; 0x2a26; 0xa191; 0x04fa; 0x8f4d; 0x9823; 0x1394; 0x5942; 0xd2f5; 0xc59b; 0x4e2c; 0xeb47; 0x60f0; 0x779e; 0xfc29;
   0x4ba8; 0xc01f; 0xd771; 0x5cc6; 0xf9ad; 0x721a; 0x6574; 0xeec3; 0xa415; 0x2fa2; 0x38cc; 0xb37b; 0x1610; 0x9da7; 0x8ac9; 0x017e;
   0x1f65; 0x94d2; 0x83bc; 0x080b; 0xad60; 0x26d7; 0x31b9; 0xba0e; 0xf0d8; 0x7b6f; 0x6c01; 0xe7b6; 0x42dd; 0xc96a; 0xde04; 0x55b3].

Definition crc7_syndrome_table : list Z :=
  [
   0x00; 0x09; 0x12; 0x1b; 0x24; 0x2d; 0x36; 0x3f; 0x48; 0x41; 0x5a; 0x53; 0x6c; 0x65; 0x7e; 0x77;
   0x19; 0x10; 0x0b; 0x02; 0x3d; 0x34; 0x2f; 0x26; 0x51; 0x58; 0x43; 0x4a; 0x75; 0x7c; 0x67; 0x6e;
   0x32; 0x3b; 0x20; 0x29; 0x16; 0x1f; 0x04; 0x0d; 0x7a; 0x73; 0x68; 0x61; 0x5e; 0x57; 0x4c; 0x45;
   0x2b; 0x22; 0x39; 0x30; 0x0f; 0x06; 0x1d; 0x14; 0x63; 0x6a; 0x71; 0x78; 0x47; 0x4e; 0x55; 0x5c;
   0x64; 0x6d; 0x76; 0x7f; 0x40; 0x49; 0x52; 0x5b; 0x2c; 0x25; 0x3e; 0x37; 0x08; 0x01; 0x1a; 0x13;
   0x7d; 0x74; 0x6f; 0x66; 0x59; 0x50; 0x4b; 0x42; 0x35; 0x3c; 0x27; 0x2e; 0x11; 0x18; 0x03; 0x0a;
   0x56; 0x5f; 0x44; 0x4d; 0x72; 0x7b; 0x60; 0x69; 0x1e; 0x17; 0x0c; 0x05; 0x3a; 0x33; 0x28; 0x21;
   0x4f; 0x46; 0x5d; 0x54; 0x6b; 0x62; 0x79; 0x70; 0x07; 0x0e; 0x15; 0x1c; 0x23; 0x2a; 0x31; 0x38;
   0x41; 0x48; 0x53; 0x5a; 0x65; 0x6c; 0x77; 0x7e; 0x09; 0x00; 0x1b; 0x12; 0x2d; 0x24; 0x3f; 0x36;
   0x58; 0x51; 0x4a; 0x43; 0x7c; 0x75; 0x6e; 0x67; 0x10; 0x19; 0x02; 0x0b; 0x34; 0x3d; 0x26; 0x2f;
   0x73; 0x7a; 0x61; 0x68; 0x57; 0x5e; 0x45; 0x4c; 0x3b; 0x32; 0x29; 0x20; 0x1f; 0x16; 0x0d; 0x04;
   0x6a; 0x63; 0x78; 0x71; 0x4e; 0x47; 0x5c; 0x55; 0x22; 0x2b; 0x30; 0x39; 0x06; 0x0f; 0x14; 0x1d;
   0x25; 0x2c; 0x37; 0x3e; 0x01; 0x08; 0x13; 0x1a; 0x6d; 0x64; 0x7f; 0x76; 0x49; 0x40; 0x5b; 0x52;
   0x3c; 0x35; 0x2e; 0x27; 0x18; 0x11; 0x0a; 0x03; 0x74; 0x7d; 0x66; 0x6f; 0x50; 0x59; 0x42; 0x4b;
   0x17; 0x1e; 0x05; 0x0c; 0x33; 0x3a; 0x21; 0x28; 0x5f; 0x56; 0x4d; 0x44; 0x7b; 0x72; 0x69; 0x60;
   0x0e; 0x07; 0x1c; 0x15; 0x2a; 0x23; 0x38; 0x31; 0x46; 0x4f; 0x54; 0x5d; 0x62; 0x6b; 0x70; 0x79].

(** [while (len--) crc = step(crc, *buffer++)] *)
Fixpoint crc_loop (step : Z -> Z -> option Z) (n : nat) (m : list Z) (crc buffer : Z) : option Z :=
  match n with
  | O => Some crc
  | S n => c ← load_byte m buffer; crc ← step crc c; crc_loop step n m crc (buffer + 1)
  end.

Definition crc16_byte (crc data : Z) : option Z := t ← crc16_table !! Z.to_nat (Z.land (Z.lxor crc data) 0xff); Some (Z.lxor (Z.shiftr crc 8) t).
Definition crc16 (crc : Z) (m : list Z) (buffer len : Z) : option Z := crc_loop crc16_byte (Z.to_nat len) m crc buffer.

Definition crc_ccitt_byte (crc c : Z) : option Z := t ← crc_ccitt_table !! Z.to_nat (Z.land (Z.lxor crc c) 0xff); Some (Z.lxor (Z.shiftr crc 8) t).
Definition crc_ccitt (crc : Z) (m : list Z) (buffer len : Z) : option Z := crc_loop crc_ccitt_byte (Z.to_nat len) m crc buffer.

Definition crc_itu_t_byte (crc data : Z) : option Z := t ← crc_itu_t_table !! Z.to_nat (Z.land (Z.lxor (Z.shiftr crc 8) data) 0xff); Some (Z.lxor (Z.shiftl crc 8) t mod 2 ^ 16).
Definition crc_itu_t (crc : Z) (m : list Z) (buffer len : Z) : option Z := crc_loop crc_itu_t_byte (Z.to_nat len) m crc buffer.

Definition t10dif_byte (crc c : Z) : option Z := t ← t10_dif_crc_table !! Z.to_nat (Z.land (Z.lxor (Z.shiftr crc 8) c) 0xff); Some (Z.lxor (Z.shiftl crc 8) t mod 2 ^ 16).
Definition crc_t10dif (m : list Z) (buffer len : Z) : option Z := crc_loop t10dif_byte (Z.to_nat len) m 0 buffer.

Definition crc7_byte (crc data : Z) : option Z := crc7_syndrome_table !! Z.to_nat (Z.lxor (Z.shiftl crc 1) data).
Definition crc7 (crc : Z) (m : list Z) (buffer len : Z) : option Z := crc_loop crc7_byte (Z.to_nat len) m crc buffer.

(** ** Bit by bit *)

(** The lowest bit first: the register is divided by the polynomial [P], whose lowest bit
    stands for the highest power. *)
Definition lsb (P x : Z) : Z := Z.lxor (Z.shiftr x 1) (if Z.testbit x 0 then P else 0).
Definition lsb_crc (P crc : Z) (bs : list Z) : Z := fold_left (fun crc c => Nat.iter 8 (lsb P) (Z.lxor crc c)) bs crc.

(** The highest bit of [w] first *)
Definition msb (w P x : Z) : Z := Z.lxor (Z.shiftl x 1 mod 2 ^ w) (if Z.testbit x (w - 1) then P else 0).
Definition msb_crc (w P crc : Z) (bs : list Z) : Z := fold_left (fun crc c => Nat.iter 8 (msb w P) (Z.lxor crc (Z.shiftl c (w - 8)))) bs crc.


Lemma if_xor (a b : bool) (P : Z) : (if xorb a b then P else 0) = Z.lxor (if a then P else 0) (if b then P else 0).
Proof. destruct a, b; simpl; rewrite ?Z.lxor_nilpotent, ?Z.lxor_0_r, ?Z.lxor_0_l; done. Qed.

(** Four operands in another order *)
Lemma lxor_swap a b c d : Z.lxor (Z.lxor a b) (Z.lxor c d) = Z.lxor (Z.lxor a c) (Z.lxor b d).
Proof. rewrite !Z.lxor_assoc. f_equal. rewrite <- !Z.lxor_assoc. f_equal. apply Z.lxor_comm. Qed.

Lemma mod_lxor x y w : 0 <= w -> Z.lxor x y mod 2 ^ w = Z.lxor (x mod 2 ^ w) (y mod 2 ^ w).
Proof.
  intros Hw. apply Z.bits_inj'. intros i Hi. rewrite Z.lxor_spec. destruct (decide (i < w)); [by rewrite !Z.mod_pow2_bits_low, Z.lxor_spec by lia|by rewrite !Z.mod_pow2_bits_high by lia].
Qed.

Lemma lxor_bound x y w : 0 <= w -> 0 <= x < 2 ^ w -> 0 <= y < 2 ^ w -> 0 <= Z.lxor x y < 2 ^ w.
Proof.
  intros Hw Hx Hy. rewrite <- (Z.mod_small x (2 ^ w)), <- (Z.mod_small y (2 ^ w)), <- mod_lxor by lia. apply Z.mod_pos_bound. lia.
Qed.

(** A number as two parts *)
Lemma split_lxor x k : 0 <= k -> x = Z.lxor (x mod 2 ^ k) (Z.shiftl (Z.shiftr x k) k).
Proof.
  intros Hk. apply Z.bits_inj'. intros i Hi. rewrite Z.lxor_spec, Z.shiftl_spec by done. destruct (decide (i < k)).
  - rewrite Z.mod_pow2_bits_low, (Z.testbit_neg_r _ (i - k)) by lia. by rewrite xorb_false_r.
  - rewrite Z.mod_pow2_bits_high, Z.shiftr_spec by lia. by replace (i - k + k) with i by lia.
Qed.

Section linear.
Context (f : Z -> Z) (Hf : forall x y, f (Z.lxor x y) = Z.lxor (f x) (f y)).

Lemma iter_lxor n : forall x y, Nat.iter n f (Z.lxor x y) = Z.lxor (Nat.iter n f x) (Nat.iter n f y).
Proof using Hf. induction n as [|n IH]; intros x y; [done|]. cbn [Nat.iter nat_rect]. change (nat_rect _ ?z _ n) with (Nat.iter n f z). by rewrite IH, Hf. Qed.

End linear.

Section lsb.
Context (P : Z).

Lemma lsb_lxor x y : lsb P (Z.lxor x y) = Z.lxor (lsb P x) (lsb P y).
Proof. unfold lsb. by rewrite Z.shiftr_lxor, Z.lxor_spec, if_xor, lxor_swap. Qed.

Lemma lsb_shift n : forall x, Nat.iter n (lsb P) (Z.shiftl x (Z.of_nat n)) = x.
Proof.
  induction n as [|n IH]; intros x; [apply Z.shiftl_0_r|]. rewrite Nat2Z.inj_succ. replace (Nat.iter (S n) (lsb P) (Z.shiftl x (Z.succ (Z.of_nat n)))) with (Nat.iter n (lsb P) (lsb P (Z.shiftl x (Z.succ (Z.of_nat n))))) by (symmetry; apply Nat.iter_succ_r). unfold lsb at 2. rewrite Z.shiftl_spec_low by lia. cbn [Z.lxor]. rewrite Z.lxor_0_r, Z.shiftr_shiftl_l by lia. replace (Z.succ (Z.of_nat n) - 1) with (Z.of_nat n) by lia. apply IH.
Qed.

(** A byte at once *)
Lemma lsb_byte x : Nat.iter 8 (lsb P) x = Z.lxor (Nat.iter 8 (lsb P) (x mod 256)) (Z.shiftr x 8).
Proof. rewrite (split_lxor x 8) at 1 by lia. rewrite (iter_lxor _ lsb_lxor). f_equal. apply (lsb_shift 8). Qed.

End lsb.

Section msb.
Context (w P : Z) (Hw : 8 <= w) (HP : 0 <= P < 2 ^ w).

Lemma msb_lxor x y : msb w P (Z.lxor x y) = Z.lxor (msb w P x) (msb w P y).
Proof using Hw. unfold msb. by rewrite Z.shiftl_lxor, mod_lxor, Z.lxor_spec, if_xor, lxor_swap by lia. Qed.

Lemma msb_bound x : 0 <= msb w P x < 2 ^ w.
Proof using Hw HP. unfold msb. apply lxor_bound; [lia|apply Z.mod_pos_bound; lia|]. destruct (Z.testbit _ _); lia. Qed.

Lemma msb_shift n x : Z.of_nat n <= w -> 0 <= x < 2 ^ (w - Z.of_nat n) -> Nat.iter n (msb w P) x = x * 2 ^ Z.of_nat n.
Proof using Hw.
  intros Hn Hx. induction n as [|n IH]; [simpl; lia|]. rewrite Nat2Z.inj_succ in *. cbn [Nat.iter nat_rect]. change (nat_rect _ x _ n) with (Nat.iter n (msb w P) x). assert (Hp : 2 ^ (w - Z.of_nat n) = 2 * 2 ^ (w - Z.succ (Z.of_nat n))) by (rewrite <- Z.pow_succ_r by lia; f_equal; lia). rewrite IH by lia.
  assert (Hb : 0 <= x * 2 ^ Z.of_nat n < 2 ^ (w - 1)). { replace (w - 1) with (w - Z.succ (Z.of_nat n) + Z.of_nat n) by lia. rewrite Z.pow_add_r by lia. nia. }
  unfold msb. replace (Z.testbit (x * 2 ^ Z.of_nat n) (w - 1)) with false by (replace (x * 2 ^ Z.of_nat n) with ((x * 2 ^ Z.of_nat n) mod 2 ^ (w - 1)) by (apply Z.mod_small; lia); by rewrite Z.mod_pow2_bits_high by lia). rewrite Z.lxor_0_r, Z.shiftl_mul_pow2 by lia. assert (Hw1 : 2 ^ w = 2 * 2 ^ (w - 1)) by (rewrite <- Z.pow_succ_r by lia; f_equal; lia). rewrite Z.mod_small by lia. rewrite Z.pow_succ_r by lia. lia.
Qed.

Lemma msb_byte x : 0 <= x < 2 ^ w -> Nat.iter 8 (msb w P) x = Z.lxor (Nat.iter 8 (msb w P) (Z.shiftl (Z.shiftr x (w - 8)) (w - 8))) (Z.shiftl x 8 mod 2 ^ w).
Proof using Hw.
  intros Hx. rewrite (split_lxor x (w - 8)) at 1 by lia. rewrite (iter_lxor _ msb_lxor), Z.lxor_comm. f_equal. rewrite (msb_shift 8) by (simpl; lia || apply Z.mod_pos_bound; lia). change (Z.of_nat 8) with 8. rewrite Z.shiftl_mul_pow2 by lia. replace (2 ^ w) with (2 ^ (w - 8) * 2 ^ 8) by (rewrite <- Z.pow_add_r by lia; f_equal; lia). by rewrite Zmult_mod_distr_r.
Qed.

End msb.


(** ** Swapping bytes *)

Lemma land_pow2 x k : 0 <= k -> negb (Z.land x (2 ^ k) =? 0) = Z.testbit x k.
Proof.
  intros Hk. destruct (Z.testbit x k) eqn:E.
  - apply negb_true_iff, Z.eqb_neq. intros H. assert (Hb : Z.testbit (Z.land x (2 ^ k)) k = true) by (by rewrite Z.land_spec, E, Z.pow2_bits_true). by rewrite H, Z.bits_0 in Hb.
  - apply negb_false_iff, Z.eqb_eq. apply Z.bits_inj'. intros i Hi. rewrite Z.land_spec, Z.bits_0, Z.pow2_bits_eqb by done. destruct (Z.eqb_spec k i) as [<-|]; [by rewrite E|apply andb_false_r].
Qed.

Lemma mask_bit s k : 0 <= s -> Z.testbit (Z.shiftl 255 s) k = (s <=? k) && (k <? s + 8).
Proof.
  intros Hs. destruct (decide (k < s)) as [Hk|Hk].
  - assert (E : Z.testbit (Z.shiftl 255 s) k = false) by (destruct (decide (k < 0)); [by apply Z.testbit_neg_r|by apply Z.shiftl_spec_low]). rewrite E. destruct (Z.leb_spec s k); [lia|done].
  - rewrite Z.shiftl_spec by lia. change 255 with (Z.ones 8). rewrite Z.testbit_ones_nonneg by lia. destruct (Z.ltb_spec (k - s) 8), (Z.leb_spec s k), (Z.ltb_spec k (s + 8)); (lia || done).
Qed.

Definition swab_pos (i : Z) : Z := i + 24 - 16 * (i / 8).

Lemma swab_bit x i : 0 <= i -> Z.testbit (swab32 x) i = (i <? 32) && Z.testbit x (swab_pos i).
Proof.
  intros Hi. unfold swab32, swab_pos. change 0x000000ff with (Z.shiftl 255 0). change 0x0000ff00 with (Z.shiftl 255 8). change 0x00ff0000 with (Z.shiftl 255 16). change 0xff000000 with (Z.shiftl 255 24).
  rewrite !Z.lor_spec, !Z.shiftr_spec by done. destruct (Z.ltb_spec i 32) as [Hlt|Hge]; cbn [andb]; cycle 1.
  - unfold u32. rewrite !Z.mod_pow2_bits_high, !Z.land_spec, !mask_bit by lia. destruct (Z.ltb_spec (i + 8) (16 + 8)), (Z.ltb_spec (i + 24) (24 + 8)); lia.
  - unfold u32. rewrite !Z.mod_pow2_bits_low, !Z.shiftl_spec, !Z.land_spec, !mask_bit by lia. pose proof (Z.div_mod i 8 ltac:(lia)). pose proof (Z.mod_pos_bound i 8 ltac:(lia)). assert (Hq : i / 8 = 0 \/ i / 8 = 1 \/ i / 8 = 2 \/ i / 8 = 3) by lia.
    destruct Hq as [Hq|[Hq|[Hq|Hq]]]; rewrite Hq; zbool; try lia; cbn [andb orb]; rewrite ?andb_false_r, ?andb_true_r, ?orb_false_r; cbn [orb]; f_equal; lia.
Qed.


Lemma swab_pos_range i : 0 <= i < 32 -> 0 <= swab_pos i < 32 /\ swab_pos (swab_pos i) = i.
Proof.
  intros Hi. unfold swab_pos. pose proof (Z.div_mod i 8 ltac:(lia)). pose proof (Z.mod_pos_bound i 8 ltac:(lia)). set (q := i / 8) in *. split; [lia|]. replace ((i + 24 - 16 * q) / 8) with (3 - q); [lia|]. apply (Z.div_unique _ _ _ (i mod 8)); lia.
Qed.

Lemma bits_u32 x : (forall i, 32 <= i -> Z.testbit x i = false) -> is_u32 x.
Proof.
  intros H. assert (E : x = x mod 2 ^ 32) by (apply Z.bits_inj'; intros i Hi; destruct (decide (i < 32)); [by rewrite Z.mod_pow2_bits_low by lia|rewrite Z.mod_pow2_bits_high by lia; apply H; lia]). unfold is_u32. rewrite E. apply Z.mod_pos_bound. lia.
Qed.

Lemma u32_bit x i : is_u32 x -> 32 <= i -> Z.testbit x i = false.
Proof. intros Hx Hi. rewrite <- (Z.mod_small x (2 ^ 32)) by (unfold is_u32 in Hx; lia). by apply Z.mod_pow2_bits_high. Qed.

Lemma swab_u32 x : is_u32 (swab32 x).
Proof. apply bits_u32. intros i Hi. rewrite swab_bit by lia. by destruct (Z.ltb_spec i 32); [lia|]. Qed.

Lemma swab_swab x : is_u32 x -> swab32 (swab32 x) = x.
Proof.
  intros Hx. apply Z.bits_inj'. intros i Hi. rewrite swab_bit by done. destruct (Z.ltb_spec i 32); cbn [andb]; [|by rewrite u32_bit by (done || lia)]. destruct (swab_pos_range i ltac:(lia)) as [Hp E]. rewrite swab_bit, E by lia. by destruct (Z.ltb_spec (swab_pos i) 32); [|lia].
Qed.

Lemma swab_lxor x y : swab32 (Z.lxor x y) = Z.lxor (swab32 x) (swab32 y).
Proof. apply Z.bits_inj'. intros i Hi. rewrite Z.lxor_spec, !swab_bit, Z.lxor_spec by done. by destruct (i <? 32). Qed.

Lemma swab_shift x : is_u32 x -> swab32 (Z.shiftl x 8 mod 2 ^ 32) = Z.shiftr (swab32 x) 8.
Proof.
  intros Hx. apply Z.bits_inj'. intros i Hi. rewrite Z.shiftr_spec, !swab_bit by lia. destruct (Z.ltb_spec i 32), (Z.ltb_spec (i + 8) 32); cbn [andb]; try done; try lia.
  - destruct (swab_pos_range i ltac:(lia)) as [Hp _]. rewrite Z.mod_pow2_bits_low, Z.shiftl_spec by lia. f_equal. unfold swab_pos. replace ((i + 8) / 8) with (i / 8 + 1) by (rewrite <- Z.div_add by lia; f_equal; lia). lia.
  - destruct (swab_pos_range i ltac:(lia)) as [Hp _]. rewrite Z.mod_pow2_bits_low, Z.shiftl_spec by lia. apply Z.testbit_neg_r. unfold swab_pos. assert (i / 8 = 3) by (symmetry; apply (Z.div_unique _ _ _ (i - 24)); lia). lia.
Qed.

Lemma swab_low x : is_u32 x -> Z.land (swab32 x) 255 = Z.shiftr x 24.
Proof.
  intros Hx. apply Z.bits_inj'. intros i Hi. rewrite Z.land_spec, Z.shiftr_spec, swab_bit by lia. change 255 with (Z.ones 8). rewrite Z.testbit_ones_nonneg by lia. destruct (Z.ltb_spec i 8).
  - destruct (Z.ltb_spec i 32); [|lia]. rewrite andb_true_r. cbn [andb]. unfold swab_pos. rewrite Z.div_small by lia. f_equal. lia.
  - rewrite andb_false_r. symmetry. apply u32_bit; [done|lia].
Qed.

Lemma swab_byte c : 0 <= c < 256 -> swab32 (Z.shiftl c 24) = c.
Proof. intros Hc. apply Z.eqb_eq. apply (all_below_spec 256 (fun c => swab32 (Z.shiftl c 24) =? c)); [vm_compute; reflexivity|lia]. Qed.

(** ** The table loops *)

(** [n] bytes from [a] on *)
Definition slice (m : list Z) (a : Z) (n : nat) : list Z := take n (drop (Z.to_nat a) m).

Lemma slice_S m a n : 0 <= a < zlen m -> slice m a (S n) = znth m a :: slice m (a + 1) n.
Proof.
  intros Ha. unfold slice, zlen in *. destruct (lookup_lt_is_Some_2 m (Z.to_nat a) ltac:(lia)) as [x Hx]. rewrite (drop_S m x) by done. replace (Z.to_nat (a + 1)) with (S (Z.to_nat a)) by lia. cbn [take]. f_equal. unfold znth. by rewrite nth_lookup, Hx.
Qed.

Lemma slice_app m a n k : 0 <= a -> slice m a (n + k) = slice m a n ++ slice m (a + Z.of_nat n) k.
Proof. intros Ha. unfold slice. replace (Z.to_nat (a + Z.of_nat n)) with (Z.to_nat a + n)%nat by lia. by rewrite <- drop_drop, take_take_drop. Qed.

Lemma load_at m a : 0 <= a < zlen m -> load_byte m a = Some (znth m a).
Proof. intros Ha. by apply load_byte_Some. Qed.

Lemma mem_byte m : is_bytes m -> forall i, 0 <= znth m i < 256.
Proof. intros Hm i. unfold znth. rewrite nth_lookup. destruct (m !! Z.to_nat i) as [x|] eqn:E; [|simpl; lia]. exact (proj1 (Forall_lookup _ _) Hm _ _ E). Qed.

Section tables.
Context (tab : list Z) (F : Z -> Z) (Htab : forall i, 0 <= i < 256 -> tab !! Z.to_nat i = Some (F i)).

(** A byte at once *)
Definition byte_step (crc c : Z) : Z := Z.lxor (F (Z.land (Z.lxor crc c) 255)) (Z.shiftr crc 8).

Lemma land_255 x : Z.land x 255 = x mod 256.
Proof. change 255 with (Z.ones 8). by rewrite Z.land_ones. Qed.

Lemma DO_CRC_ok crc c : DO_CRC tab crc c = Some (byte_step crc c).
Proof using Htab. unfold DO_CRC. rewrite Htab; [done|]. rewrite land_255. apply Z.mod_pos_bound. lia. Qed.

(** A byte of the word in the register, or of the memory *)
Lemma byte_step_word z c W : 0 <= c < 256 -> byte_step (Z.lxor z (c + 2 ^ 8 * W)) 0 = Z.lxor (byte_step z c) W.
Proof using Type.
  intros Hc. unfold byte_step. rewrite Z.lxor_0_r, Z.shiftr_lxor, !land_255. change 256 with (2 ^ 8). rewrite !mod_lxor by lia. replace ((c + 2 ^ 8 * W) mod 2 ^ 8) with (c mod 2 ^ 8) by (rewrite (Z.mul_comm (2 ^ 8)), Z.mod_add by lia; done).
  replace (Z.shiftr (c + 2 ^ 8 * W) 8) with W by (rewrite Z.shiftr_div_pow2 by lia; rewrite (Z.mul_comm (2 ^ 8)), Z.div_add, Z.div_small by lia; lia). by rewrite Z.lxor_assoc.
Qed.


Lemma word_ok z b0 b1 b2 b3 : Forall (fun b => 0 <= b < 256) [b0; b1; b2; b3] ->
  byte_step (byte_step (byte_step (byte_step (Z.lxor z (b0 + 2 ^ 8 * (b1 + 2 ^ 8 * (b2 + 2 ^ 8 * b3)))) 0) 0) 0) 0 = fold_left byte_step [b0; b1; b2; b3] z.
Proof using Type.
  intros H. repeat match goal with H : Forall _ (_ :: _) |- _ => apply Forall_cons in H as [? H] end. cbv beta in *. rewrite byte_step_word by done. rewrite byte_step_word by done. rewrite byte_step_word by done. replace b3 with (b3 + 2 ^ 8 * 0) at 1 by lia. rewrite byte_step_word by done. by rewrite Z.lxor_0_r.
Qed.

Context (m : list Z) (Hm : is_bytes m).

Lemma byte_loop_ok n : forall crc b, 0 <= b -> b + Z.of_nat n <= zlen m -> byte_loop n tab m crc b = Some (fold_left byte_step (slice m b n) crc).
Proof using Htab.
  induction n as [|n IH]; intros crc b Hb Hn; [done|]. rewrite slice_S by lia. cbn [byte_loop fold_left]. rewrite load_at by lia. cbn [mbind option_bind]. rewrite DO_CRC_ok. cbn [mbind option_bind]. apply IH; lia.
Qed.

Lemma word_loop_ok n : forall crc b, b mod 4 = 0 -> 0 <= b -> b + 4 * Z.of_nat n <= zlen m -> word_loop n tab m crc b = Some (fold_left byte_step (slice m b (4 * n)) crc, b + 4 * Z.of_nat n).
Proof using Htab Hm.
  induction n as [|n IH]; intros crc b Ha Hb Hn; [simpl; by rewrite Z.add_0_r|]. replace (4 * S n)%nat with (S (S (S (S (4 * n))))) by lia. rewrite !slice_S by lia. cbn [word_loop]. unfold load_word, OPSIZ. rewrite Ha. rewrite (proj2 (in_bounds_spec m b 4)) by lia. cbn [Z.eqb andb mbind option_bind]. rewrite !DO_CRC_ok. cbn [mbind option_bind]. rewrite !DO_CRC_ok. cbn [mbind option_bind]. rewrite DO_CRC_ok. cbn [mbind option_bind]. rewrite DO_CRC_ok. cbn [mbind option_bind].
  rewrite word_ok by (repeat constructor; apply (mem_byte m Hm)). rewrite IH by (lia || (rewrite <- Z.add_mod_idemp_l by lia; by rewrite Ha)). cbn [fold_left]. replace (b + 1 + 1) with (b + 2) by lia. replace (b + 2 + 1) with (b + 3) by lia. replace (b + 3 + 1) with (b + 4) by lia. do 2 f_equal. lia.
Qed.

Lemma align_loop_ok fuel : forall crc b len, b mod 4 <> 0 -> 4 - b mod 4 <= Z.of_nat fuel -> 0 < len -> 0 <= b -> b + len <= zlen m ->
  exists k, 0 < Z.of_nat k <= len /\ align_loop fuel tab m crc b len = Some (fold_left byte_step (slice m b k) crc, b + Z.of_nat k, len - Z.of_nat k) /\ (len = Z.of_nat k \/ (b + Z.of_nat k) mod 4 = 0).
Proof using Htab.
  induction fuel as [|fuel IH]; intros crc b len Ha Hf Hl Hb Hn; pose proof (Z.mod_pos_bound b 4 ltac:(lia)); [lia|]. cbn [align_loop]. rewrite load_at by lia. cbn [mbind option_bind]. rewrite DO_CRC_ok. cbn [mbind option_bind]. cbv zeta. change 3 with (Z.ones 2). rewrite Z.land_ones by lia. change (2 ^ 2) with 4.
  assert (Hb1 : (b + 1) mod 4 = if decide (b mod 4 = 3) then 0 else b mod 4 + 1) by (rewrite <- Z.add_mod_idemp_l by lia; case_decide as E; [by rewrite E|apply Z.mod_small; lia]). destruct (Z.eqb_spec (len - 1) 0) as [E1|E1]; cbn [negb andb]; [|destruct (Z.eqb_spec ((b + 1) mod 4) 0) as [E2|E2]; cbn [negb]].
  - exists 1%nat. split; [lia|]. rewrite slice_S by lia. split; [done|]. left. lia.
  - exists 1%nat. split; [lia|]. rewrite slice_S by lia. split; [done|]. by right.
  - rewrite Hb1 in E2. case_decide; [done|]. destruct (IH (byte_step crc (znth m b)) (b + 1) (len - 1)) as (k & Hk & E & Hend); [lia|lia|lia|lia|lia|]. exists (S k). split; [lia|]. rewrite slice_S by lia. cbn [fold_left]. rewrite E. split; [do 2 f_equal; [f_equal; lia|lia]|]. destruct Hend as [Hend|Hend]; [left; lia|right; rewrite <- Hend; f_equal; lia].
Qed.

Lemma crc32_body_ok crc p len : 0 <= p -> 0 <= len -> p + len <= zlen m -> crc32_body tab m crc p len = Some (fold_left byte_step (slice m p (Z.to_nat len)) crc).
Proof using Htab Hm.
  intros Hp Hl Hn. assert (Hrest : forall crc b len, (len = 0 \/ b mod 4 = 0) -> 0 <= b -> 0 <= len -> b + len <= zlen m ->
    ('(crc, b, len) ← (if 4 <=? len then '(crc, b) ← word_loop (Z.to_nat (Z.shiftr len 2)) tab m crc b; Some (crc, b, Z.land len 3) else Some (crc, b, len)); byte_loop (Z.to_nat len) tab m crc b) = Some (fold_left byte_step (slice m b (Z.to_nat len)) crc)).
  { clear crc p len Hp Hl Hn. intros crc b len Ha Hb Hl Hn. destruct (Z.leb_spec 4 len) as [H4|H4]; [|cbn [mbind option_bind]; apply byte_loop_ok; lia]. change 3 with (Z.ones 2). rewrite Z.land_ones, Z.shiftr_div_pow2 by lia. change (2 ^ 2) with 4. pose proof (Z.div_mod len 4 ltac:(lia)). pose proof (Z.mod_pos_bound len 4 ltac:(lia)). pose proof (Z.div_pos len 4 ltac:(lia) ltac:(lia)).
    rewrite word_loop_ok by lia. cbn [mbind option_bind]. rewrite byte_loop_ok by lia. rewrite <- fold_left_app. do 2 f_equal. replace (Z.to_nat len) with (4 * Z.to_nat (len / 4) + Z.to_nat (len mod 4))%nat by lia. rewrite slice_app by lia. do 2 f_equal. lia. }
  unfold crc32_body. assert (E3 : Z.land p 3 = p mod 4) by (change 3 with (Z.ones 2); by rewrite Z.land_ones). rewrite E3. destruct (Z.eqb_spec (p mod 4) 0) as [E|E]; cbn [negb andb]; [apply (Hrest crc p len); [by right|lia|lia|lia]|]. destruct (Z.eqb_spec len 0) as [->|E0]; cbn [negb]; [apply (Hrest crc p 0); [by left|lia|lia|lia]|].
  destruct (align_loop_ok 4 crc p len E ltac:(pose proof (Z.mod_pos_bound p 4); lia) ltac:(lia) Hp Hn) as (k & Hk & -> & Hend). etransitivity; [exact (Hrest (fold_left byte_step (slice m p k) crc) (p + Z.of_nat k) (len - Z.of_nat k) ltac:(destruct Hend; [left; lia|by right]) ltac:(lia) ltac:(lia) ltac:(lia))|]. rewrite <- fold_left_app. do 2 f_equal. replace (Z.to_nat len) with (k + Z.to_nat (len - Z.of_nat k))%nat by lia. by rewrite slice_app by lia.
Qed.

End tables.


(** ** The tables are right *)

Lemma iter_ext (f g : Z -> Z) n x : (forall x, f x = g x) -> Nat.iter n f x = Nat.iter n g x.
Proof. intros H. induction n as [|n IH]; [done|]. cbn [Nat.iter nat_rect]. change (nat_rect _ x _ n) with (Nat.iter n f x) at 1. change (nat_rect _ x _ n) with (Nat.iter n g x). by rewrite IH, H. Qed.

Lemma le_bit_lsb x : le_bit x = lsb CRCPOLY_LE x.
Proof. unfold le_bit, lsb. change (Z.land x 1) with (Z.land x (2 ^ 0)). by rewrite land_pow2. Qed.

Lemma be_bit_msb x : be_bit x = msb 32 CRCPOLY_BE x.
Proof. unfold be_bit, msb. change 0x80000000 with (2 ^ (32 - 1)). by rewrite land_pow2. Qed.

(** A table that agrees with [F] *)
Definition tableb (tab : list Z) (F : Z -> Z) : bool := all_below 256 (fun i => bool_decide (tab !! Z.to_nat i = Some (F i))).

Lemma tableb_spec tab F : tableb tab F = true -> forall i, 0 <= i < 256 -> tab !! Z.to_nat i = Some (F i).
Proof. intros H i Hi. pose proof (all_below_spec 256 _ H i ltac:(lia)) as Hb. by apply bool_decide_eq_true_1 in Hb. Qed.

Definition F_le (i : Z) : Z := Nat.iter 8 (lsb CRCPOLY_LE) i.
Definition F_be (i : Z) : Z := swab32 (Nat.iter 8 (msb 32 CRCPOLY_BE) (Z.shiftl i 24)).

Lemma table_le_ok i : 0 <= i < 256 -> crc32table_le !! Z.to_nat i = Some (F_le i).
Proof. apply tableb_spec. vm_compute. reflexivity. Qed.

Lemma table_be_ok i : 0 <= i < 256 -> crc32table_be !! Z.to_nat i = Some (F_be i).
Proof. apply tableb_spec. vm_compute. reflexivity. Qed.

(** The lowest bit first: a table step is eight bit steps. *)
Lemma lsb_table P z c : 0 <= c < 256 -> Z.lxor (Nat.iter 8 (lsb P) (Z.land (Z.lxor z c) 255)) (Z.shiftr z 8) = Nat.iter 8 (lsb P) (Z.lxor z c).
Proof.
  intros Hc. rewrite (lsb_byte P (Z.lxor z c)), land_255. f_equal. rewrite Z.shiftr_lxor. replace (Z.shiftr c 8) with 0 by (rewrite Z.shiftr_div_pow2 by lia; by rewrite Z.div_small). by rewrite Z.lxor_0_r.
Qed.

Lemma step_le z c : 0 <= c < 256 -> byte_step F_le z c = Nat.iter 8 le_bit (Z.lxor z c).
Proof. intros Hc. rewrite (iter_ext le_bit (lsb CRCPOLY_LE)) by apply le_bit_lsb. by apply lsb_table. Qed.

(** Two folds in step *)
Lemma fold_rel (f g : Z -> Z -> Z) (h : Z -> Z) (R : Z -> Prop) : (forall z c, R z -> 0 <= c < 256 -> f (h z) c = h (g z c) /\ R (g z c)) ->
  forall bs z, Forall (fun c => 0 <= c < 256) bs -> R z -> fold_left f bs (h z) = h (fold_left g bs z) /\ R (fold_left g bs z).
Proof.
  intros H bs. induction bs as [|c bs IH]; intros z Hb Hz; [done|]. apply Forall_cons in Hb as [Hc Hb]. cbn [fold_left]. destruct (H z c Hz Hc) as [-> Hg]. by apply IH.
Qed.

Lemma fold_le bs z : Forall (fun c => 0 <= c < 256) bs -> fold_left (byte_step F_le) bs z = crc32_le_1 z bs.
Proof. intros Hb. apply (fold_rel (byte_step F_le) (fun crc c => Nat.iter 8 le_bit (Z.lxor crc c)) (fun z => z) (fun _ => True)); [|done|done]. intros x c _ Hc. split; [by apply step_le|done]. Qed.

Lemma iter_msb_bound w P n x : 8 <= w -> 0 <= P < 2 ^ w -> 0 <= x < 2 ^ w -> 0 <= Nat.iter n (msb w P) x < 2 ^ w.
Proof. intros Hw HP Hx. destruct n; [done|]. by apply msb_bound. Qed.

Lemma be_input z c : is_u32 z -> 0 <= c < 256 -> is_u32 (Z.lxor z (Z.shiftl c 24)).
Proof. intros Hz Hc. unfold is_u32 in *. apply lxor_bound; [lia|lia|]. rewrite Z.shiftl_mul_pow2 by lia. lia. Qed.

Lemma step_be z c : is_u32 z -> 0 <= c < 256 -> byte_step F_be (swab32 z) c = swab32 (Nat.iter 8 be_bit (Z.lxor z (Z.shiftl c 24))).
Proof.
  intros Hz Hc. set (y := Z.lxor z (Z.shiftl c 24)). assert (Hy : is_u32 y) by by apply be_input. rewrite (iter_ext be_bit (msb 32 CRCPOLY_BE)) by apply be_bit_msb. rewrite (msb_byte 32 CRCPOLY_BE ltac:(lia) y Hy), swab_lxor, swab_shift by done. unfold byte_step, F_be.
  assert (Es : swab32 y = Z.lxor (swab32 z) c) by (unfold y; by rewrite swab_lxor, swab_byte). rewrite <- Es, swab_low by done. f_equal. rewrite Es, Z.shiftr_lxor. replace (Z.shiftr c 8) with 0 by (rewrite Z.shiftr_div_pow2 by lia; by rewrite Z.div_small). by rewrite Z.lxor_0_r.
Qed.

Lemma be_bits_u32 z : is_u32 z -> is_u32 (Nat.iter 8 be_bit z).
Proof. intros Hz. rewrite (iter_ext be_bit (msb 32 CRCPOLY_BE)) by apply be_bit_msb. by apply (iter_msb_bound 32 CRCPOLY_BE 8). Qed.

Lemma fold_be bs z : Forall (fun c => 0 <= c < 256) bs -> is_u32 z -> fold_left (byte_step F_be) bs (swab32 z) = swab32 (crc32_be_1 z bs) /\ is_u32 (crc32_be_1 z bs).
Proof.
  intros Hb Hz. apply (fold_rel (byte_step F_be) (fun crc c => Nat.iter 8 be_bit (Z.lxor crc (Z.shiftl c 24))) swab32 is_u32); [|done|done]. intros x c Hx Hc. split; [by apply step_be|]. by apply be_bits_u32, be_input.
Qed.

Lemma word_of_bytes r : is_u32 r -> r = byte r 0 + 2 ^ 8 * (byte r 1 + 2 ^ 8 * (byte r 2 + 2 ^ 8 * byte r 3)).
Proof.
  intros [H0 H1]. assert (Hb : forall i, 0 <= i -> Z.shiftr r (8 * i) = r / 2 ^ (8 * i)) by (intros i Hi; apply Z.shiftr_div_pow2; lia). unfold byte. rewrite !Hb by lia. assert (E2 : r / 2 ^ (8 * 2) = r / 2 ^ (8 * 1) / 256) by (rewrite Z.div_div by lia; done). assert (E3 : r / 2 ^ (8 * 3) = r / 2 ^ (8 * 2) / 256) by (rewrite Z.div_div by lia; done). assert (E1 : r / 2 ^ (8 * 1) = r / 2 ^ (8 * 0) / 256) by (rewrite Z.div_div by lia; done). assert (E0 : r / 2 ^ (8 * 0) = r) by apply Z.div_1_r.
  assert (H3 : 0 <= r / 2 ^ (8 * 3) < 256) by (split; [apply Z.div_pos; lia|apply Z.div_lt_upper_bound; lia]). rewrite E0 in *. pose proof (Z.div_mod r 256 ltac:(lia)) as D0. rewrite <- E1 in D0. pose proof (Z.div_mod (r / 2 ^ (8 * 1)) 256 ltac:(lia)) as D1. rewrite <- E2 in D1. pose proof (Z.div_mod (r / 2 ^ (8 * 2)) 256 ltac:(lia)) as D2. rewrite <- E3 in D2. rewrite (Z.mod_small (r / 2 ^ (8 * 3))) by done. lia.
Qed.


Lemma slice_bytes m a n : is_bytes m -> Forall (fun c => 0 <= c < 256) (slice m a n).
Proof. intros Hm. by apply Forall_take, Forall_drop. Qed.

Lemma read_slice m a n : 0 <= a -> 0 <= n -> a + n <= zlen m -> read_bytes m a n = Some (slice m a (Z.to_nat n)).
Proof. intros Ha Hn Hl. unfold read_bytes, slice. by rewrite (proj2 (in_bounds_spec m a n)) by lia. Qed.

Lemma le_bits_u32 z : is_u32 z -> is_u32 (Nat.iter 8 le_bit z).
Proof.
  rewrite (iter_ext le_bit (lsb CRCPOLY_LE)) by apply le_bit_lsb. generalize 8%nat as n. intros n Hz. induction n as [|n IH]; [done|]. cbn [Nat.iter nat_rect]. change (nat_rect _ z _ n) with (Nat.iter n (lsb CRCPOLY_LE) z). unfold lsb at 1. unfold is_u32 in *. apply lxor_bound; [lia| |destruct (Z.testbit _ 0); [by vm_compute|lia]]. rewrite Z.shiftr_div_pow2 by lia. change (2 ^ 1) with 2. split; [apply Z.div_pos; lia|apply Z.div_lt_upper_bound; lia].
Qed.

Lemma crc32_le_1_u32 bs z : Forall (fun c => 0 <= c < 256) bs -> is_u32 z -> is_u32 (crc32_le_1 z bs).
Proof.
  intros Hb Hz. apply (fold_rel (fun crc c => Nat.iter 8 le_bit (Z.lxor crc c)) (fun crc c => Nat.iter 8 le_bit (Z.lxor crc c)) (fun z => z) is_u32); [|done|done]. intros x c Hx Hc. split; [done|]. apply le_bits_u32. unfold is_u32 in *. apply lxor_bound; lia.
Qed.

Lemma crc32_le_1_app z a b : crc32_le_1 z (a ++ b) = crc32_le_1 (crc32_le_1 z a) b.
Proof. apply fold_left_app. Qed.

(** The register runs empty over its own bytes. *)
Lemma crc32_le_own r : is_u32 r -> crc32_le_1 r [byte r 0; byte r 1; byte r 2; byte r 3] = 0.
Proof.
  intros Hr. assert (Hb : Forall (fun c => 0 <= c < 256) [byte r 0; byte r 1; byte r 2; byte r 3]) by (repeat constructor; apply Z.mod_pos_bound; lia). rewrite <- fold_le by done. rewrite <- (word_ok F_le r _ _ _ _ Hb). rewrite <- (word_of_bytes r Hr), Z.lxor_nilpotent. vm_compute. reflexivity.
Qed.

(** C28. [crc32_le] and [crc32_be], which read whole words and use the tables that are generated when the kernel is built, compute for every buffer, however it is aligned, what the loops over single bits compute that the source has for CRC_LE_BITS and CRC_BE_BITS of 1, and read nothing outside the buffer.  A message followed by its own checksum, the lowest byte first, has the checksum 0. *)
Theorem crc32_correct crc m p len : is_bytes m -> is_u32 crc -> 0 <= p -> 0 <= len -> p + len <= zlen m ->
  exists bs, read_bytes m p len = Some bs /\ crc32_le crc m p len = Some (crc32_le_1 crc bs) /\ crc32_be crc m p len = Some (crc32_be_1 crc bs) /\
    let r := crc32_le_1 crc bs in crc32_le_1 crc (bs ++ [byte r 0; byte r 1; byte r 2; byte r 3]) = 0.
Proof.
  intros Hm Hc Hp Hl Hn. set (bs := slice m p (Z.to_nat len)). pose proof (slice_bytes m p (Z.to_nat len) Hm) as Hb. fold bs in Hb. exists bs. split; [by apply read_slice|]. split; [|split].
  - unfold crc32_le. rewrite (crc32_body_ok crc32table_le F_le table_le_ok m Hm) by done. fold bs. by rewrite fold_le.
  - unfold crc32_be. rewrite (crc32_body_ok crc32table_be F_be table_be_ok m Hm) by done. fold bs. destruct (fold_be bs crc Hb Hc) as [-> Hu]. cbn [mbind option_bind]. by rewrite swab_swab.
  - cbv zeta. rewrite crc32_le_1_app. apply crc32_le_own. by apply crc32_le_1_u32.
Qed.

(** The check value of CRC-32: "123456789" *)
Lemma crc32_correct_witness : let m := [0; 49; 50; 51; 52; 53; 54; 55; 56; 57; 0; 0] in
  crc32_le 0xffffffff m 1 9 = Some (Z.lxor 0xcbf43926 0xffffffff) /\ exists bs, read_bytes m 1 9 = Some bs /\ crc32_be 0xffffffff m 1 9 = Some (crc32_be_1 0xffffffff bs).
Proof.
  cbv zeta. split; [vm_compute; reflexivity|]. destruct (crc32_correct 0xffffffff [0; 49; 50; 51; 52; 53; 54; 55; 56; 57; 0; 0] 1 9) as (bs & E & _ & Eb & _); [repeat constructor; lia|unfold is_u32; lia|lia|lia|vm_compute; discriminate|]. exists bs. exact (conj E Eb).
Defined.

(** ** The checksums of 16 and 7 bits *)

Lemma crc_loop_ok step (g : Z -> Z -> Z) (h : Z -> Z) (R : Z -> Prop) m : is_bytes m -> (forall z c, R z -> 0 <= c < 256 -> step (h z) c = Some (h (g z c)) /\ R (g z c)) ->
  forall n z b, R z -> 0 <= b -> b + Z.of_nat n <= zlen m -> crc_loop step n m (h z) b = Some (h (fold_left g (slice m b n) z)).
Proof.
  intros Hm H n. induction n as [|n IH]; intros z b Hz Hb Hn; [done|]. rewrite slice_S by lia. cbn [crc_loop fold_left]. rewrite load_at by lia. cbn [mbind option_bind]. destruct (H z (znth m b) Hz (mem_byte m Hm b)) as [-> Hg]. cbn [mbind option_bind]. by apply IH; [|lia..].
Qed.

Section lsb16.
Context (tab : list Z) (P : Z) (Htab : tableb tab (fun i => Nat.iter 8 (lsb P) i) = true).

Lemma lsb_step z c : 0 <= c < 256 -> (t ← tab !! Z.to_nat (Z.land (Z.lxor z c) 255); Some (Z.lxor (Z.shiftr z 8) t)) = Some (Nat.iter 8 (lsb P) (Z.lxor z c)).
Proof using Htab.
  intros Hc. rewrite (tableb_spec tab _ Htab) by (rewrite land_255; apply Z.mod_pos_bound; lia). cbn [mbind option_bind]. f_equal. rewrite Z.lxor_comm. by apply lsb_table.
Qed.

End lsb16.

Section msb16.
Context (tab : list Z) (P : Z) (HP : 0 <= P < 2 ^ 16) (Htab : tableb tab (fun i => Nat.iter 8 (msb 16 P) (Z.shiftl i 8)) = true).

Lemma msb_step z c : 0 <= z < 2 ^ 16 -> 0 <= c < 256 -> (t ← tab !! Z.to_nat (Z.land (Z.lxor (Z.shiftr z 8) c) 255); Some (Z.lxor (Z.shiftl z 8) t mod 2 ^ 16)) = Some (Nat.iter 8 (msb 16 P) (Z.lxor z (Z.shiftl c (16 - 8)))) /\ 0 <= Nat.iter 8 (msb 16 P) (Z.lxor z (Z.shiftl c (16 - 8))) < 2 ^ 16.
Proof using HP Htab.
  intros Hz Hc. change (16 - 8) with 8. set (y := Z.lxor z (Z.shiftl c 8)). assert (Hy : 0 <= y < 2 ^ 16) by (apply lxor_bound; [lia|lia|]; rewrite Z.shiftl_mul_pow2 by lia; lia). split; [|by apply iter_msb_bound].
  assert (Ey : Z.shiftr y 8 = Z.lxor (Z.shiftr z 8) c) by (unfold y; rewrite Z.shiftr_lxor, Z.shiftr_shiftl_l by lia; by rewrite Z.shiftl_0_r). assert (Hr : 0 <= Z.shiftr y 8 < 256) by (rewrite Z.shiftr_div_pow2 by lia; split; [apply Z.div_pos; lia|apply Z.div_lt_upper_bound; lia]).
  rewrite <- Ey, land_255, Z.mod_small by done. rewrite (tableb_spec tab _ Htab) by done. cbn [mbind option_bind]. f_equal. rewrite (msb_byte 16 P ltac:(lia) y Hy). change (16 - 8) with 8. rewrite mod_lxor, Z.lxor_comm by lia. f_equal.
  - apply Z.mod_small. apply iter_msb_bound; [lia|done|]. rewrite Z.shiftl_mul_pow2 by lia. lia.
  - unfold y. rewrite Z.shiftl_lxor, mod_lxor, Z.shiftl_shiftl by lia. rewrite (Z.shiftl_mul_pow2 c) by lia. change (8 + 8) with 16. rewrite Z.mod_mul by lia. by rewrite Z.lxor_0_r.
Qed.

End msb16.

(** Eight steps for a checksum of seven bits, in the upper bits of a byte *)
Definition seven (z : Z) : Z := Nat.iter 8 (msb 8 0x12) z.

Lemma seven_even z : 0 <= z < 256 -> Z.shiftl (Z.shiftr (seven z) 1) 1 = seven z.
Proof. intros Hz. apply Z.eqb_eq. revert z Hz. apply (all_below_spec 256 (fun z => Z.shiftl (Z.shiftr (seven z) 1) 1 =? seven z)). vm_compute. reflexivity. Qed.

Lemma seven_table i : 0 <= i < 256 -> crc7_syndrome_table !! Z.to_nat i = Some (Z.shiftr (seven i) 1).
Proof. apply (tableb_spec crc7_syndrome_table (fun i => Z.shiftr (seven i) 1)). vm_compute. reflexivity. Qed.

Lemma seven_crc z bs : msb_crc 8 0x12 z bs = fold_left (fun crc c => seven (Z.lxor crc (Z.shiftl c (8 - 8)))) bs z.
Proof. unfold msb_crc, seven. reflexivity. Qed.

Lemma crc7_step z c : 0 <= z < 256 /\ Z.shiftl (Z.shiftr z 1) 1 = z -> 0 <= c < 256 ->
  let y := seven (Z.lxor z (Z.shiftl c (8 - 8))) in crc7_byte (Z.shiftr z 1) c = Some (Z.shiftr y 1) /\ 0 <= y < 256 /\ Z.shiftl (Z.shiftr y 1) 1 = y.
Proof.
  intros [Hz Ez] Hc. change (8 - 8) with 0. rewrite Z.shiftl_0_r. assert (Hy : 0 <= Z.lxor z c < 256) by (apply (lxor_bound z c 8); lia). cbv zeta. split; [|split].
  - unfold crc7_byte. rewrite Ez. by apply seven_table.
  - exact (iter_msb_bound 8 0x12 8 (Z.lxor z c) ltac:(lia) ltac:(lia) Hy).
  - by apply seven_even.
Qed.

(** The checksums of 16 and 7 bits with their tables compute what division by their polynomials bit by bit computes: 0x8005 and 0x1021 (x^16 + x^15 + x^2 + 1 and x^16 + x^12 + x^5 + 1) the lowest bit first, 0x1021 and 0x8bb7 the highest bit first, and x^7 + x^3 + 1 in the upper seven bits of a byte. *)
Theorem crc16_correct m p len crc crc' : is_bytes m -> 0 <= p -> 0 <= len -> p + len <= zlen m -> 0 <= crc < 2 ^ 16 -> 0 <= crc' < 2 ^ 7 ->
  exists bs, read_bytes m p len = Some bs /\ crc16 crc m p len = Some (lsb_crc 0xa001 crc bs) /\ crc_ccitt crc m p len = Some (lsb_crc 0x8408 crc bs) /\
    crc_itu_t crc m p len = Some (msb_crc 16 0x1021 crc bs) /\ crc_t10dif m p len = Some (msb_crc 16 0x8bb7 0 bs) /\ crc7 crc' m p len = Some (Z.shiftr (msb_crc 8 0x12 (Z.shiftl crc' 1) bs) 1).
Proof.
  intros Hm Hp Hl Hn Hc Hc'. exists (slice m p (Z.to_nat len)). split; [by apply read_slice|]. assert (Hn' : p + Z.of_nat (Z.to_nat len) <= zlen m) by lia. split_and!.
  - apply (crc_loop_ok crc16_byte (fun crc c => Nat.iter 8 (lsb 0xa001) (Z.lxor crc c)) (fun z => z) (fun _ => True) m Hm); [|done|done|done]. intros z c _ Hb. split; [|done]. apply (lsb_step crc16_table 0xa001); [vm_compute; reflexivity|done].
  - apply (crc_loop_ok crc_ccitt_byte (fun crc c => Nat.iter 8 (lsb 0x8408) (Z.lxor crc c)) (fun z => z) (fun _ => True) m Hm); [|done|done|done]. intros z c _ Hb. split; [|done]. apply (lsb_step crc_ccitt_table 0x8408); [vm_compute; reflexivity|done].
  - apply (crc_loop_ok crc_itu_t_byte (fun crc c => Nat.iter 8 (msb 16 0x1021) (Z.lxor crc (Z.shiftl c (16 - 8)))) (fun z => z) (fun z => 0 <= z < 2 ^ 16) m Hm); [|done|done|done]. intros z c Hz Hb. apply (msb_step crc_itu_t_table 0x1021); [lia|vm_compute; reflexivity|done|done].
  - apply (crc_loop_ok t10dif_byte (fun crc c => Nat.iter 8 (msb 16 0x8bb7) (Z.lxor crc (Z.shiftl c (16 - 8)))) (fun z => z) (fun z => 0 <= z < 2 ^ 16) m Hm); [|lia|done|done]. intros z c Hz Hb. apply (msb_step t10_dif_crc_table 0x8bb7); [lia|vm_compute; reflexivity|done|done].
  - assert (Hs : Z.shiftr (Z.shiftl crc' 1) 1 = crc') by (rewrite Z.shiftr_shiftl_l by lia; apply Z.shiftl_0_r). rewrite <- Hs at 1. rewrite seven_crc. unfold crc7. apply (crc_loop_ok crc7_byte (fun crc c => seven (Z.lxor crc (Z.shiftl c (8 - 8)))) (fun z => Z.shiftr z 1) (fun z => 0 <= z < 256 /\ Z.shiftl (Z.shiftr z 1) 1 = z) m Hm); [|split; [rewrite Z.shiftl_mul_pow2 by lia; lia|by rewrite Hs]|done|done]. intros z c Hz Hb. by apply crc7_step.
Qed.

(** The check values of the catalogues, for "123456789" *)
Lemma crc16_correct_witness : let m := [49; 50; 51; 52; 53; 54; 55; 56; 57] in
  crc16 0 m 0 9 = Some 0xbb3d /\ crc_itu_t 0 m 0 9 = Some 0x31c3 /\ crc_t10dif m 0 9 = Some 0xd0db /\ crc7 0 m 0 9 = Some 0x75 /\ exists bs, read_bytes m 0 9 = Some bs /\ crc_ccitt 0 m 0 9 = Some (lsb_crc 0x8408 0 bs).
Proof.
  cbv zeta. do 4 (split; [vm_compute; reflexivity|]). destruct (crc16_correct [49; 50; 51; 52; 53; 54; 55; 56; 57] 0 9 0 0) as (bs & E & _ & Ec & _); [repeat constructor; lia|lia|lia|vm_compute; discriminate|lia|lia|]. exists bs. exact (conj E Ec).
Defined.

End Crc.
