(* ===== verification/Rwsem.v ===== *)
(** * lib/rwsem-spinlock.c: reader/writer semaphores

    The semaphore is the active count and the queue of waiters.  The functions that work
    under [wait_lock] are functions of it; they return the tasks whose [waiter->task] they
    clear, in the order in which they wake them.

    A system is a semaphore shared by any number of threads.  A section under [wait_lock]
    changes the semaphore and clears the [task] fields in one step; the calls of
    [wake_up_process] it makes follow one by one while the lock is still held, so that no
    other section starts before the last of them, while the waiters, which poll
    [waiter.task] without the lock, may run in between.  The waiting loop is modelled with
    its three points: the test of [waiter.task], [schedule] and [set_task_state]. *)
From S2P Require Import Prelude.

Module Rwsem.

Definition RWSEM_WAITING_FOR_READ : Z := 0x00000001.
Definition RWSEM_WAITING_FOR_WRITE : Z := 0x00000002.

(** ** The semaphore *)

Record rwsem_waiter := mkwaiter { task : nat; flags : Z }.

Record rw_semaphore := mksem { activity : Z; wait_list : list rwsem_waiter }.

Definition __init_rwsem : rw_semaphore := mksem 0 [].

Definition list_empty {A} (l : list A) : bool := match l with [] => true | _ => false end.

Definition has_flag (w : rwsem_waiter) (f : Z) : bool := negb (Z.land (flags w) f =? 0).

(** The readers taken off the front of the queue. *)
Fixpoint wake_readers (l : list rwsem_waiter) : list rwsem_waiter * list rwsem_waiter :=
  match l with
  | [] => ([], [])
  | w :: l' =>
      if has_flag w RWSEM_WAITING_FOR_READ
      then let '(woken, rest) := wake_readers l' in (w :: woken, rest)
      else ([], l)
  end.

(** The semaphore and the tasks woken.  The queue must not be empty. *)
Definition __rwsem_do_wake (sem : rw_semaphore) (wakewrite : bool) : option (rw_semaphore * list nat) :=
  match wait_list sem with
  | [] => None
  | waiter :: rest =>
      if negb wakewrite && has_flag waiter RWSEM_WAITING_FOR_WRITE then Some (sem, [])
      else if wakewrite && has_flag waiter RWSEM_WAITING_FOR_WRITE
      then Some (mksem (-1) rest, [task waiter])
      else
        let '(woken, rest) := wake_readers (wait_list sem) in
        Some (mksem (s32 (activity sem + Z.of_nat (length woken))) rest, List.map task woken)
  end.

Definition __rwsem_wake_one_writer (sem : rw_semaphore) : option (rw_semaphore * list nat) :=
  match wait_list sem with
  | [] => None
  | waiter :: rest => Some (mksem (-1) rest, [task waiter])
  end.

(** The section of [__down_read]: whether the lock was granted at once; otherwise the task
    has been queued. *)
Definition __down_read (sem : rw_semaphore) (tsk : nat) : rw_semaphore * bool :=
  if (0 <=? activity sem) && list_empty (wait_list sem)
  then (mksem (s32 (activity sem + 1)) (wait_list sem), true)
  else (mksem (activity sem) (wait_list sem ++ [mkwaiter tsk RWSEM_WAITING_FOR_READ]), false).

Definition __down_read_trylock (sem : rw_semaphore) : rw_semaphore * bool :=
  if (0 <=? activity sem) && list_empty (wait_list sem)
  then (mksem (s32 (activity sem + 1)) (wait_list sem), true)
  else (sem, false).

Definition __down_write_nested (sem : rw_semaphore) (tsk : nat) : rw_semaphore * bool :=
  if (activity sem =? 0) && list_empty (wait_list sem)
  then (mksem (-1) (wait_list sem), true)
  else (mksem (activity sem) (wait_list sem ++ [mkwaiter tsk RWSEM_WAITING_FOR_WRITE]), false).

Definition __down_write (sem : rw_semaphore) (tsk : nat) : rw_semaphore * bool := __down_write_nested sem tsk.

Definition __down_write_trylock (sem : rw_semaphore) : rw_semaphore * bool :=
  if (activity sem =? 0) && list_empty (wait_list sem)
  then (mksem (-1) (wait_list sem), true)
  else (sem, false).

Definition __up_read (sem : rw_semaphore) : option (rw_semaphore * list nat) :=
  let sem := mksem (s32 (activity sem - 1)) (wait_list sem) in
  if (activity sem =? 0) && negb (list_empty (wait_list sem)) then __rwsem_wake_one_writer sem
  else Some (sem, []).

Definition __up_write (sem : rw_semaphore) : option (rw_semaphore * list nat) :=
  let sem := mksem 0 (wait_list sem) in
  if negb (list_empty (wait_list sem)) then __rwsem_do_wake sem true else Some (sem, []).

Definition __downgrade_write (sem : rw_semaphore) : option (rw_semaphore * list nat) :=
  let sem := mksem 1 (wait_list sem) in
  if negb (list_empty (wait_list sem)) then __rwsem_do_wake sem false else Some (sem, []).

(** ** Threads *)

(** Where a waiting thread is in [for (;;)]. *)
Inductive point := AtTest | AtSchedule | AtSetState.

Inductive place :=
| Out                          (** does not hold the semaphore *)
| Wait (f : Z) (p : point)     (** in the waiting loop of a read or a write *)
| Holds (f : Z).               (** has returned from a read or a write *)

Inductive task_state := TASK_RUNNING | TASK_UNINTERRUPTIBLE.

(** [waiting]: [waiter.task] is not [NULL]. *)
Record thread := mkthread { pc : place; state : task_state; waiting : bool }.

Record sys := mksys { sem : rw_semaphore; threads : list thread; wakes : list nat }.

Definition start (n : nat) : sys := mksys __init_rwsem (replicate n (mkthread Out TASK_RUNNING false)) [].

Inductive event :=
| Down_read (t : nat) | Down_read_trylock (t : nat)
| Down_write (t : nat) | Down_write_trylock (t : nat)
| Up_read (t : nat) | Up_write (t : nat) | Downgrade (t : nat)
| Run (t : nat)       (** a step of the waiting loop of [t] *)
| Wake                (** the next call of wake_up_process by the holder of the lock *)
| Spurious (t : nat). (** a wake-up from elsewhere *)

Definition put (s : sys) (sm : rw_semaphore) (t : nat) (th : thread) : sys :=
  mksys sm (<[t := th]> (threads s)) (wakes s).

(** A section that may queue the caller. *)
Definition acquire (s : sys) (t : nat) (f : Z) (r : rw_semaphore * bool) : sys :=
  put s r.1 t (if r.2 then mkthread (Holds f) TASK_RUNNING false
               else mkthread (Wait f AtTest) TASK_UNINTERRUPTIBLE true).

Definition try (s : sys) (t : nat) (f : Z) (r : rw_semaphore * bool) : sys :=
  put s r.1 t (if r.2 then mkthread (Holds f) TASK_RUNNING false else mkthread Out TASK_RUNNING false).

(** [waiter->task = NULL] for the tasks woken. *)
Definition clear_task (th : thread) : thread := mkthread (pc th) (state th) false.
Definition clear_tasks (ts : list nat) (ths : list thread) : list thread :=
  fold_left (fun ths t => alter clear_task t ths) ts ths.

(** A section that may wake others; the caller is left at [p]. *)
Definition release (s : sys) (t : nat) (p : place) (r : option (rw_semaphore * list nat)) : option sys :=
  '(sm, woken) ← r;
  Some (mksys sm (clear_tasks woken (<[t := mkthread p TASK_RUNNING false]> (threads s))) woken).

Definition run (s : sys) (t : nat) (th : thread) : option sys :=
  match pc th with
  | Wait f AtTest =>
      Some (put s (sem s) t (if waiting th then mkthread (Wait f AtSchedule) (state th) true
                             else mkthread (Holds f) TASK_RUNNING false))
  | Wait f AtSchedule =>
      match state th with
      | TASK_RUNNING => Some (put s (sem s) t (mkthread (Wait f AtSetState) TASK_RUNNING (waiting th)))
      | TASK_UNINTERRUPTIBLE => None
      end
  | Wait f AtSetState => Some (put s (sem s) t (mkthread (Wait f AtTest) TASK_UNINTERRUPTIBLE (waiting th)))
  | _ => None
  end.

Definition set_running (th : thread) : thread := mkthread (pc th) TASK_RUNNING (waiting th).

Definition is_out (th : thread) : bool := match pc th with Out => true | _ => false end.
Definition is_holder (f : Z) (th : thread) : bool := match pc th with Holds g => f =? g | _ => false end.

(** An event happens where its guard holds: the sections take [wait_lock], which the
    pending wake-ups still hold, and a release is by a thread that has the lock. *)
Definition step (s : sys) (e : event) : option sys :=
  let free := list_empty (wakes s) in
  let thread_if t (g : thread -> bool) (k : thread -> option sys) :=
    th ← threads s !! t; if g th then k th else None in
  let locked t g k := if (free : bool) then thread_if t g k else None in
  let READ := RWSEM_WAITING_FOR_READ in
  let WRITE := RWSEM_WAITING_FOR_WRITE in
  match e with
  | Down_read t => locked t is_out (fun _ => Some (acquire s t READ (__down_read (sem s) t)))
  | Down_write t => locked t is_out (fun _ => Some (acquire s t WRITE (__down_write (sem s) t)))
  | Down_read_trylock t => locked t is_out (fun _ => Some (try s t READ (__down_read_trylock (sem s))))
  | Down_write_trylock t => locked t is_out (fun _ => Some (try s t WRITE (__down_write_trylock (sem s))))
  | Up_read t => locked t (is_holder READ) (fun _ => release s t Out (__up_read (sem s)))
  | Up_write t => locked t (is_holder WRITE) (fun _ => release s t Out (__up_write (sem s)))
  | Downgrade t => locked t (is_holder WRITE) (fun _ => release s t (Holds READ) (__downgrade_write (sem s)))
  | Run t => thread_if t (fun _ => true) (run s t)
  | Wake =>
      match wakes s with
      | [] => None
      | t :: rest => Some (mksys (sem s) (alter set_running t (threads s)) rest)
      end
  | Spurious t => thread_if t (fun _ => true) (fun _ => Some (mksys (sem s) (alter set_running t (threads s)) (wakes s)))
  end.

Inductive reachable (n : nat) : sys -> Prop :=
| reach_start : reachable n (start n)
| reach_step s e s' : reachable n s -> step s e = Some s' -> reachable n s'.

(** ** Counting owners *)

Abbreviation READ := RWSEM_WAITING_FOR_READ.
Abbreviation WRITE := RWSEM_WAITING_FOR_WRITE.

(** The thread has been given the lock, whether it has noticed or not. *)
Definition owns (f : Z) (th : thread) : bool :=
  match pc th with
  | Out => false
  | Holds g => f =? g
  | Wait g _ => (f =? g) && negb (waiting th)
  end.

Fixpoint total (f : Z) (ths : list thread) : Z :=
  match ths with [] => 0 | th :: ths => b2z (owns f th) + total f ths end.

(** The thread is in the queue, for [f]. *)
Definition queued (f : Z) (th : thread) : Prop := waiting th = true /\ exists p, pc th = Wait f p.

Lemma b2z_range b : 0 <= b2z b <= 1.
Proof. destruct b; simpl; lia. Qed.

Lemma total_range f ths : 0 <= total f ths <= zlen ths.
Proof.
  induction ths as [|th ths IH]; simpl; [unfold zlen; simpl; lia|]. pose proof (b2z_range (owns f th)).
  unfold zlen in *. cbn [length]. lia.
Qed.

Lemma total_insert f ths t th th' :
  ths !! t = Some th -> total f (<[t := th']> ths) = total f ths - b2z (owns f th) + b2z (owns f th').
Proof.
  revert t. induction ths as [|x ths IH]; intros [|t] H; simpl in *; try done; [simplify_eq; lia|]. rewrite (IH t) by done. lia.
Qed.

Lemma total_pos f ths t th : ths !! t = Some th -> owns f th = true -> 0 < total f ths.
Proof.
  revert t. induction ths as [|x ths IH]; intros [|t] H Ho; simpl in *; try done.
  - simplify_eq. rewrite Ho. pose proof (total_range f ths). simpl. lia.
  - pose proof (IH t H Ho). pose proof (b2z_range (owns f x)). lia.
Qed.

(** At most one owner if the total is 1. *)
Lemma total_two f ths t u th th' :
  ths !! t = Some th -> ths !! u = Some th' -> t <> u -> owns f th = true -> owns f th' = true -> 2 <= total f ths.
Proof.
  revert t u. induction ths as [|x ths IH]; intros [|t] [|u] H H' Htu Ho Ho'; simpl in *; try done.
  - simplify_eq. rewrite Ho. pose proof (total_pos f ths u th' H' Ho'). simpl. lia.
  - simplify_eq. rewrite Ho'. pose proof (total_pos f ths t th H Ho). simpl. lia.
  - pose proof (IH t u H H' ltac:(lia) Ho Ho'). pose proof (b2z_range (owns f x)). lia.
Qed.

Lemma clear_lookup ts ths t :
  clear_tasks ts ths !! t = if decide (t ∈ ts) then clear_task <$> ths !! t else ths !! t.
Proof.
  revert ths. unfold clear_tasks. induction ts as [|u ts IH]; intros ths; simpl; [done|]. rewrite IH.
  destruct (decide (t = u)) as [->|Hne].
  - rewrite list_lookup_alter_eq. destruct (ths !! u) as [th|]; simpl; destruct (decide (u ∈ ts)), (decide (u ∈ u :: ts)) as [|Hn]; try done; destruct Hn; apply elem_of_cons; auto.
  - rewrite list_lookup_alter_ne by done. destruct (decide (t ∈ ts)), (decide (t ∈ u :: ts)) as [Hy|Hn]; try done;
      rewrite elem_of_cons in *; naive_solver.
Qed.

Lemma clear_length ts ths : length (clear_tasks ts ths) = length ths.
Proof. revert ths. unfold clear_tasks. induction ts as [|u ts IH]; intros ths; simpl; [done|]. rewrite IH. apply length_alter. Qed.

(** Clearing the [task] fields of queued threads makes them owners. *)
Lemma total_clear f g ts ths :
  NoDup ts -> (forall t, t ∈ ts -> exists th, ths !! t = Some th /\ queued g th) ->
  total f (clear_tasks ts ths) = total f ths + (if f =? g then zlen ts else 0).
Proof.
  revert ths. induction ts as [|u ts IH]; intros ths Hn Hq; [destruct (f =? g); unfold zlen; simpl; lia|].
  inversion_clear Hn as [|? ? Hu Hn']. destruct (Hq u) as (th & Hth & Hw & p & Hp); [set_solver|].
  change (clear_tasks (u :: ts) ths) with (clear_tasks ts (alter clear_task u ths)).
  assert (alter clear_task u ths = <[u := clear_task th]> ths) as ->.
  { apply list_eq. intros i. destruct (decide (i = u)) as [->|].
    - rewrite list_lookup_alter_eq, Hth, list_lookup_insert_eq; [done|]. by eapply lookup_lt_Some.
    - by rewrite list_lookup_alter_ne, list_lookup_insert_ne by done. }
  rewrite IH; [|done|].
  - rewrite (total_insert f ths u th) by done. unfold owns, clear_task. cbn [pc waiting]. rewrite Hp, Hw. simpl.
    rewrite andb_false_r, andb_true_r. unfold zlen. cbn [length]. destruct (f =? g); simpl; lia.
  - intros t Ht. destruct (Hq t) as (th' & ? & ?); [set_solver|]. exists th'. rewrite list_lookup_insert_ne; [done|]. set_solver.
Qed.

(** ** The invariant *)

Definition is_flag (f : Z) : Prop := f = READ \/ f = WRITE.

Definition sane (th : thread) : Prop :=
  match pc th with
  | Out => waiting th = false
  | Wait f _ => is_flag f
  | Holds f => is_flag f /\ waiting th = false
  end.

Definition counted (a : Z) (ths : list thread) : Prop :=
  (0 <= a /\ total READ ths = a /\ total WRITE ths = 0) \/ (a = -1 /\ total READ ths = 0 /\ total WRITE ths = 1).

(** A queue in front of a free semaphore, or of readers with a reader at its head, would
    wait for nothing. *)
Definition head_ok (sm : rw_semaphore) : Prop :=
  match wait_list sm with [] => True | w :: _ => activity sm <> 0 /\ (0 < activity sm -> flags w = WRITE) end.

Record inv (n : nat) (s : sys) : Prop := {
  inv_length : length (threads s) = n;
  inv_sane : forall t th, threads s !! t = Some th -> sane th;
  inv_counted : counted (activity (sem s)) (threads s);
  inv_queue : forall t f, mkwaiter t f ∈ wait_list (sem s) <-> exists th, threads s !! t = Some th /\ queued f th;
  inv_nodup : NoDup (List.map task (wait_list (sem s)));
  inv_head : head_ok (sem s);
  inv_sleep : forall t f, threads s !! t = Some (mkthread (Wait f AtSchedule) TASK_UNINTERRUPTIBLE false) -> t ∈ wakes s;
}.

Lemma inv_start n : inv n (start n).
Proof.
  assert (Hl : forall t th, replicate n (mkthread Out TASK_RUNNING false) !! t = Some th -> th = mkthread Out TASK_RUNNING false).
  { intros t th H. apply lookup_replicate in H as [-> _]. done. }
  split; simpl.
  - apply length_replicate.
  - intros t th H. by rewrite (Hl t th H).
  - left. assert (forall f, total f (replicate n (mkthread Out TASK_RUNNING false)) = 0) as E.
    { intros f. induction n as [|n IH]; simpl; [done|]. rewrite IH; [done|]. intros t th H. apply (Hl (S t)). done. }
    by rewrite !E.
  - intros t f. split; [by intros ?%elem_of_nil|]. intros (th & H & Hw & _). rewrite (Hl t th H) in Hw. done.
  - constructor.
  - done.
  - intros t f H. apply Hl in H. done.
Qed.

(** A step of one thread that neither takes nor leaves the lock or the queue. *)
Lemma inv_quiet n s t th th' ws :
  inv n s -> threads s !! t = Some th -> sane th' -> (forall f, owns f th' = owns f th) -> (forall f, queued f th' <-> queued f th) ->
  (forall f, th' <> mkthread (Wait f AtSchedule) TASK_UNINTERRUPTIBLE false) -> (forall u, u ∈ wakes s -> u <> t -> u ∈ ws) ->
  inv n (mksys (sem s) (<[t := th']> (threads s)) ws).
Proof.
  intros [Hlen Hsane Hcnt Hq Hnd Hh Hsl] Ht Hth' Ho Hqq Hns Hws.
  assert (Hlt : (t < length (threads s))%nat) by (by eapply lookup_lt_Some).
  assert (Htot : forall f, total f (<[t := th']> (threads s)) = total f (threads s)).
  { intros f. rewrite (total_insert f _ t th) by done. rewrite Ho. lia. }
  split; simpl.
  - by rewrite length_insert.
  - intros u x Hu. destruct (decide (u = t)) as [->|]; [rewrite list_lookup_insert_eq in Hu by done; congruence|].
    rewrite list_lookup_insert_ne in Hu by done. eauto.
  - unfold counted. by rewrite !Htot.
  - intros u f. rewrite Hq. destruct (decide (u = t)) as [->|]; [|by rewrite list_lookup_insert_ne by done].
    rewrite list_lookup_insert_eq by done. rewrite Ht. split; intros (x & [= <-] & Hx); eexists; split; try done; by apply Hqq.
  - done.
  - done.
  - intros u f Hu. destruct (decide (u = t)) as [->|]; [rewrite list_lookup_insert_eq in Hu by done; naive_solver|].
    rewrite list_lookup_insert_ne in Hu by done. eauto.
Qed.

Lemma owns_out f st w : owns f (mkthread Out st w) = false.
Proof. done. Qed.

Lemma owns_holds f g st w : owns f (mkthread (Holds g) st w) = (f =? g).
Proof. done. Qed.

Lemma not_queued_idle f th : waiting th = false -> ~ queued f th.
Proof. intros H [H' _]. congruence. Qed.

(** A thread that is neither waiting nor owner gets the lock at once, or fails to. *)
Lemma inv_grant n s t th p a :
  inv n s -> threads s !! t = Some th -> pc th = Out -> wait_list (sem s) = [] ->
  sane (mkthread p TASK_RUNNING false) -> (forall f q, p <> Wait f q) ->
  counted a (<[t := mkthread p TASK_RUNNING false]> (threads s)) ->
  inv n (mksys (mksem a []) (<[t := mkthread p TASK_RUNNING false]> (threads s)) (wakes s)).
Proof.
  intros [Hlen Hsane Hcnt Hq Hnd Hh Hsl] Ht Hpc Hempty Hp Hnw Hc.
  assert (Hlt : (t < length (threads s))%nat) by (by eapply lookup_lt_Some).
  pose proof (Hsane t th Ht) as Hth. unfold sane in Hth. rewrite Hpc in Hth.
  split; simpl.
  - by rewrite length_insert.
  - intros u x Hu. destruct (decide (u = t)) as [->|]; [rewrite list_lookup_insert_eq in Hu by done; congruence|].
    rewrite list_lookup_insert_ne in Hu by done. eauto.
  - done.
  - intros u f. rewrite <- Hempty, Hq. destruct (decide (u = t)) as [->|]; [|by rewrite list_lookup_insert_ne by done].
    rewrite list_lookup_insert_eq, Ht by done. split; intros (x & [= <-] & Hx); by apply not_queued_idle in Hx.
  - constructor.
  - done.
  - intros u f Hu. destruct (decide (u = t)) as [->|]; [rewrite list_lookup_insert_eq in Hu by done; naive_solver|].
    rewrite list_lookup_insert_ne in Hu by done. eauto.
Qed.

(** A thread joins the queue. *)
Lemma inv_enqueue n s t th f :
  inv n s -> threads s !! t = Some th -> pc th = Out -> is_flag f ->
  (wait_list (sem s) = [] -> activity (sem s) <> 0 /\ (0 < activity (sem s) -> f = WRITE)) ->
  inv n (mksys (mksem (activity (sem s)) (wait_list (sem s) ++ [mkwaiter t f]))
           (<[t := mkthread (Wait f AtTest) TASK_UNINTERRUPTIBLE true]> (threads s)) (wakes s)).
Proof.
  intros [Hlen Hsane Hcnt Hq Hnd Hh Hsl] Ht Hpc Hf Hempty.
  assert (Hlt : (t < length (threads s))%nat) by (by eapply lookup_lt_Some).
  pose proof (Hsane t th Ht) as Hth. unfold sane in Hth. rewrite Hpc in Hth.
  assert (Hnq : forall g, mkwaiter t g ∉ wait_list (sem s)).
  { intros g Hg. apply Hq in Hg as (x & Hx & Hx'). rewrite Ht in Hx. injection Hx as <-. by apply not_queued_idle in Hx'. }
  split; simpl.
  - by rewrite length_insert.
  - intros u x Hu. destruct (decide (u = t)) as [->|]; [rewrite list_lookup_insert_eq in Hu by done; by simplify_eq|].
    rewrite list_lookup_insert_ne in Hu by done. eauto.
  - unfold counted. rewrite !(total_insert _ _ t th) by done. unfold owns at 1 2 3 4 5 6 7 8. rewrite Hpc. cbn [pc waiting negb].
    rewrite !andb_false_r. simpl. rewrite !Z.sub_0_r, !Z.add_0_r. done.
  - intros u g. rewrite elem_of_app, list_elem_of_singleton. destruct (decide (u = t)) as [->|Hne].
    + rewrite list_lookup_insert_eq by done. split.
      * intros [H|[= ->]]; [by apply Hnq in H|]. eexists. split; [done|]. split; [done|by exists AtTest].
      * intros (x & [= <-] & _ & p & Hp). injection Hp as -> _. by right.
    + rewrite list_lookup_insert_ne by done. rewrite <- Hq. split; [intros [H|[= -> _]]; done|by left].
  - rewrite map_app. apply NoDup_app. split; [done|]. split; [|repeat constructor; by intros ?%elem_of_nil].
    intros u Hu ->%list_elem_of_singleton. simpl in Hu. apply list_elem_of_In, in_map_iff in Hu as ([u g] & E & Hin). simpl in E. subst u.
    by apply list_elem_of_In, Hnq in Hin.
  - unfold head_ok in *. cbn [wait_list activity]. destruct (wait_list (sem s)) as [|w l]; [|done]. simpl. by apply Hempty.
  - intros u g Hu. destruct (decide (u = t)) as [->|]; [rewrite list_lookup_insert_eq in Hu by done; naive_solver|].
    rewrite list_lookup_insert_ne in Hu by done. eauto.
Qed.

(** The owner [t] goes to [p] and the waiters [W], all for [g], are taken off the front of
    the queue and given the lock. *)
Lemma inv_release n s t th f p W rest g a :
  inv n s -> wakes s = [] -> threads s !! t = Some th -> pc th = Holds f ->
  sane (mkthread p TASK_RUNNING false) -> (forall g q, p <> Wait g q) ->
  wait_list (sem s) = W ++ rest -> Forall (fun w => flags w = g) W -> is_flag g ->
  (forall ths, (forall x, total x ths = total x (threads s) - b2z (x =? f) + b2z (owns x (mkthread p TASK_RUNNING false)) +
                                        (if x =? g then zlen W else 0)) -> counted a ths) ->
  head_ok (mksem a rest) ->
  inv n (mksys (mksem a rest) (clear_tasks (List.map task W) (<[t := mkthread p TASK_RUNNING false]> (threads s))) (List.map task W)).
Proof.
  intros [Hlen Hsane Hcnt Hq Hnd Hh Hsl] Hws Ht Hpc Hp Hnw HW Hg Hfg Hc Hho.
  assert (Hlt : (t < length (threads s))%nat) by (by eapply lookup_lt_Some).
  pose proof (Hsane t th Ht) as Hth. unfold sane in Hth. rewrite Hpc in Hth. destruct Hth as [_ Hth].
  rewrite HW, map_app in Hnd. apply NoDup_app in Hnd as (Hnd1 & Hnd12 & Hnd2).
  assert (HinW : forall u, u ∈ List.map task W -> mkwaiter u g ∈ W).
  { intros u Hu. apply list_elem_of_In, in_map_iff in Hu as ([v h] & E & Hin). simpl in E. subst v. apply list_elem_of_In in Hin.
    rewrite Forall_forall in Hg. specialize (Hg _ Hin). simpl in Hg. by subst h. }
  assert (Hqu : forall u, u ∈ List.map task W -> exists x, threads s !! u = Some x /\ queued g x).
  { intros u Hu. apply Hq. rewrite HW. apply elem_of_app. left. by apply HinW. }
  assert (Ht' : t ∉ List.map task W).
  { intros Hu. apply Hqu in Hu as (x & Hx & Hx'). rewrite Ht in Hx. injection Hx as <-. by apply not_queued_idle in Hx'. }
  set (ths := <[t := mkthread p TASK_RUNNING false]> (threads s)).
  assert (Hths : forall u, u <> t -> ths !! u = threads s !! u) by (intros; by apply list_lookup_insert_ne).
  assert (Htt : ths !! t = Some (mkthread p TASK_RUNNING false)) by (by apply list_lookup_insert_eq).
  split; cbn [sem threads wakes activity wait_list].
  - rewrite clear_length. unfold ths. by rewrite length_insert.
  - intros u x. rewrite clear_lookup. destruct (decide (u ∈ List.map task W)) as [Hu|Hu].
    + destruct (decide (u = t)) as [->|]; [done|]. rewrite Hths by done. destruct (threads s !! u) as [y|] eqn:Hy; [|done].
      intros [= <-]. specialize (Hsane u y Hy). unfold sane in *. simpl. destruct (pc y); naive_solver.
    + destruct (decide (u = t)) as [->|]; [rewrite Htt; intros [= <-]; done|]. rewrite Hths by done. eauto.
  - apply Hc. intros x. rewrite (total_clear x g); [|done|].
    + unfold ths. rewrite (total_insert x _ t th) by done. unfold owns at 1. rewrite Hpc. unfold zlen. rewrite length_map. lia.
    + intros u Hu. rewrite Hths by (intros ->; done). by apply Hqu.
  - intros u h. rewrite clear_lookup. destruct (decide (u ∈ List.map task W)) as [Hu|Hu].
    + split.
      * intros H. exfalso. apply (Hnd12 u Hu). apply list_elem_of_In, in_map_iff. exists (mkwaiter u h). split; [done|by apply list_elem_of_In].
      * intros (x & Hx & Hx'). destruct (ths !! u); [|done]. injection Hx as <-. by apply not_queued_idle in Hx'.
    + destruct (decide (u = t)) as [->|Hne].
      * rewrite Htt. split; [|intros (x & [= <-] & Hx); by apply not_queued_idle in Hx]. intros H.
        assert (H' : mkwaiter t h ∈ wait_list (sem s)) by (rewrite HW; apply elem_of_app; by right).
        apply Hq in H' as (x & Hx & Hx'). rewrite Ht in Hx. injection Hx as <-. by apply not_queued_idle in Hx'.
      * rewrite Hths, <- Hq, HW, elem_of_app by done. split; [by right|]. intros [H|H]; [|done]. exfalso. apply Hu.
        apply list_elem_of_In, in_map_iff. exists (mkwaiter u h). split; [done|by apply list_elem_of_In].
  - done.
  - done.
  - intros u h. rewrite clear_lookup. destruct (decide (u ∈ List.map task W)) as [Hu|Hu]; [done|].
    destruct (decide (u = t)) as [->|]; [rewrite Htt; naive_solver|]. rewrite Hths by done.
    intros Hu'. apply Hsl in Hu'. rewrite Hws in Hu'. by apply elem_of_nil in Hu'.
Qed.

(** The readers woken are a prefix of the queue, and what follows starts with a writer. *)
Lemma wake_readers_spec l :
  (forall w, w ∈ l -> is_flag (flags w)) ->
  let '(W, rest) := wake_readers l in
  l = W ++ rest /\ Forall (fun w => flags w = READ) W /\ match rest with [] => True | w :: _ => flags w = WRITE end.
Proof.
  induction l as [|w l IH]; intros Hl; simpl; [repeat split; constructor|].
  destruct (Hl w) as [E|E]; [apply elem_of_cons; by left|..]; unfold has_flag; rewrite E; simpl.
  - destruct (wake_readers l) as [W rest]. destruct IH as (-> & HW & Hr); [intros x Hx; apply Hl; apply elem_of_cons; by right|].
    repeat split; [by constructor|done].
  - repeat split; [constructor|done].
Qed.

(** The side conditions of [inv_release] that need no arithmetic. *)
Ltac release_side :=
  try done;
  lazymatch goal with
  | |- is_flag _ => first [by left | by right]
  | |- Forall _ _ => solve [repeat constructor; auto]
  | El : wait_list _ = _ |- wait_list _ = _ => by rewrite El
  | _ => idtac
  end.

Section Steps.
Context (n : nat) (Hn : Z.of_nat n < 2 ^ 31 - 1).

Lemma inv_flags s w : inv n s -> w ∈ wait_list (sem s) -> is_flag (flags w).
Proof.
  intros H Hw. destruct w as [t f]. apply (inv_queue n s H) in Hw as (th & Ht & _ & p & Hp).
  pose proof (inv_sane n s H t th Ht) as Hs. unfold sane in Hs. by rewrite Hp in Hs.
Qed.

Lemma activity_bound s : inv n s -> -1 <= activity (sem s) <= Z.of_nat n.
Proof.
  intros H. pose proof (total_range READ (threads s)) as Hr. unfold zlen in Hr. rewrite (inv_length n s H) in Hr.
  destruct (inv_counted n s H) as [?|?]; lia.
Qed.

(** The caller holds the lock in the way it says. *)
Lemma holder_counts s t th f :
  inv n s -> threads s !! t = Some th -> pc th = Holds f ->
  (f = READ -> 0 < activity (sem s)) /\ (f = WRITE -> activity (sem s) = -1).
Proof.
  intros H Ht Hp. assert (Ho : owns f th = true) by (unfold owns; rewrite Hp; apply Z.eqb_refl).
  pose proof (total_pos f _ _ _ Ht Ho). destruct (inv_counted n s H) as [?|?]; split; intros ->; lia.
Qed.

Lemma up_read_inv s t th s' :
  inv n s -> wakes s = [] -> threads s !! t = Some th -> pc th = Holds READ ->
  release s t Out (__up_read (sem s)) = Some s' -> inv n s'.
Proof.
  intros H Hw Ht Hp. pose proof (proj1 (holder_counts s t th READ H Ht Hp) eq_refl) as Ha. pose proof (activity_bound s H) as Hb.
  pose proof (inv_counted n s H) as Hc. pose proof (inv_head n s H) as Hh. unfold head_ok in Hh.
  unfold release, __up_read, __rwsem_wake_one_writer. rewrite s32_id by lia. cbn [activity wait_list].
  destruct (wait_list (sem s)) as [|w l] eqn:El; cbn [list_empty negb]; [rewrite andb_false_r|rewrite andb_true_r].
  - cbn. intros [= <-]. eapply (inv_release n s t th READ Out [] [] READ); release_side.
    intros ths Htot. left. rewrite !Htot. unfold owns. simpl. unfold zlen. simpl. unfold counted in Hc. lia.
  - destruct Hh as [_ Hh]. destruct (Z.eqb_spec (activity (sem s) - 1) 0); cbn; intros [= <-].
    + eapply (inv_release n s t th READ Out [w] l WRITE); release_side.
      * intros ths Htot. right. rewrite !Htot. unfold owns. simpl. unfold zlen. simpl. unfold counted in Hc. lia.
      * unfold head_ok. cbn. destruct l; [done|]. split; [lia|lia].
    + eapply (inv_release n s t th READ Out [] (w :: l) READ); release_side.
      * intros ths Htot. left. rewrite !Htot. unfold owns. simpl. unfold zlen. simpl. unfold counted in Hc. lia.
      * unfold head_ok. cbn. split; [lia|]. intros _. by apply Hh.
Qed.

(** [__up_write] and [__downgrade_write]: [a] is the count before the queue is looked at. *)
Lemma do_wake_inv s t th p a wakewrite s' :
  inv n s -> wakes s = [] -> threads s !! t = Some th -> pc th = Holds WRITE ->
  (p = Out /\ a = 0 /\ wakewrite = true \/ p = Holds READ /\ a = 1 /\ wakewrite = false) ->
  release s t p (let sm := mksem a (wait_list (sem s)) in
                 if negb (list_empty (wait_list sm)) then __rwsem_do_wake sm wakewrite else Some (sm, [])) = Some s' ->
  inv n s'.
Proof.
  intros H Hw Ht Hp Hcase. pose proof (proj2 (holder_counts s t th WRITE H Ht Hp) eq_refl) as Ha.
  pose proof (inv_counted n s H) as Hc. unfold counted in Hc.
  assert (Hsane : sane (mkthread p TASK_RUNNING false)) by (destruct Hcase as [(-> & _)|(-> & _)]; [done|split; [by left|done]]).
  assert (Hnw : forall g q, p <> Wait g q) by (destruct Hcase as [(-> & _)|(-> & _)]; done).
  assert (Hown : owns READ (mkthread p TASK_RUNNING false) = (a =? 1) /\ owns WRITE (mkthread p TASK_RUNNING false) = false)
    by (destruct Hcase as [(-> & -> & _)|(-> & -> & _)]; done).
  destruct Hown as [Ho1 Ho2]. assert (Ha01 : 0 <= a <= 1) by lia.
  unfold release, __rwsem_do_wake. cbn [wait_list].
  destruct (wait_list (sem s)) as [|w l] eqn:El; cbn [list_empty negb].
  - cbn. intros [= <-]. eapply (inv_release n s t th WRITE p [] [] READ); release_side.
    intros ths Htot. left. rewrite !Htot, Ho1, Ho2. unfold zlen. cbn. destruct (Z.eqb_spec a 1); simpl; lia.
  - destruct (inv_flags s w H) as [Ef|Ef]; [rewrite El; apply elem_of_cons; by left|..].
    + (* a reader at the head *)
      replace (has_flag w RWSEM_WAITING_FOR_WRITE) with false by (unfold has_flag; by rewrite Ef). rewrite !andb_false_r.
      pose proof (wake_readers_spec (w :: l)) as Hwr. destruct (wake_readers (w :: l)) as [W rest].
      destruct Hwr as (E & HW & Hr); [intros x Hx; apply (inv_flags s); [done|by rewrite El]|]. cbn [mbind option_bind].
      intros [= <-].
      assert (HlW : zlen W < 2 ^ 31 - 1).
      { pose proof (total_range READ (clear_tasks (List.map task W) (threads s))) as Hr2. pose proof (inv_nodup n s H) as Hnd.
        rewrite El, E, map_app in Hnd. apply NoDup_app in Hnd as (Hnd & _ & _).
        rewrite (total_clear READ READ), Z.eqb_refl in Hr2; [|done|].
        - unfold zlen in *. rewrite clear_length, length_map, (inv_length n s H) in Hr2. lia.
        - intros u Hu. apply list_elem_of_In, in_map_iff in Hu as ([v h] & Ev & Hin). simpl in Ev. subst v. apply list_elem_of_In in Hin.
          rewrite Forall_forall in HW. specialize (HW _ Hin). simpl in HW. subst h. apply (inv_queue n s H). rewrite El, E. apply elem_of_app. by left. }
      unfold zlen in HlW. rewrite s32_id by lia.
      eapply (inv_release n s t th WRITE p W rest READ); release_side.
      * intros ths Htot. left. rewrite !Htot, Ho1, Ho2. unfold zlen. cbn. destruct (Z.eqb_spec a 1); simpl; lia.
      * unfold head_ok. cbn. destruct rest as [|w' rest]; [done|]. split; [|done].
        destruct W as [|w0 W0]; simpl in E; [injection E as -> ->; rewrite Ef in Hr; discriminate Hr|]. cbn [length]. lia.
    + (* a writer at the head *)
      replace (has_flag w RWSEM_WAITING_FOR_WRITE) with true by (unfold has_flag; by rewrite Ef). rewrite !andb_true_r.
      destruct Hcase as [(-> & -> & ->)|(-> & -> & ->)]; cbn; intros [= <-].
      * eapply (inv_release n s t th WRITE Out [w] l WRITE); release_side.
        -- intros ths Htot. right. rewrite !Htot, Ho1, Ho2. unfold zlen. cbn. lia.
        -- unfold head_ok. cbn. destruct l; [done|]. lia.
      * eapply (inv_release n s t th WRITE (Holds READ) [] (w :: l) READ); release_side.
        -- intros ths Htot. left. rewrite !Htot, Ho1, Ho2. unfold zlen. cbn. lia.
Qed.

Lemma list_empty_spec {A} (l : list A) : list_empty l = true <-> l = [].
Proof. destruct l; done. Qed.

(** The lock is taken at once for [f], leaving the count at [a]. *)
Lemma take_inv s t th f a :
  inv n s -> threads s !! t = Some th -> pc th = Out -> wait_list (sem s) = [] ->
  (f = READ /\ 0 <= activity (sem s) /\ a = activity (sem s) + 1 \/ f = WRITE /\ activity (sem s) = 0 /\ a = -1) ->
  inv n (mksys (mksem a []) (<[t := mkthread (Holds f) TASK_RUNNING false]> (threads s)) (wakes s)).
Proof.
  intros H Ht Hp Hl Hc. pose proof (inv_counted n s H) as Hcnt. unfold counted in Hcnt. eapply inv_grant; try done.
  - split; [destruct Hc as [(-> & _)|(-> & _)]; [by left|by right]|done].
  - unfold counted. rewrite !(total_insert _ _ t th), !owns_holds by done. unfold owns. rewrite !Hp.
    destruct Hc as [(-> & Ha & ->)|(-> & Ha & ->)]; [left|right]; cbn; lia.
Qed.

(** A failed attempt changes nothing. *)
Lemma fail_inv s t th :
  inv n s -> threads s !! t = Some th -> pc th = Out ->
  inv n (mksys (sem s) (<[t := mkthread Out TASK_RUNNING false]> (threads s)) (wakes s)).
Proof.
  intros H Ht Hp. pose proof (inv_sane n s H t th Ht) as Hs. unfold sane in Hs. rewrite Hp in Hs.
  eapply inv_quiet; try done.
  - intros f. unfold owns. by rewrite Hp.
  - intros f. split; intros Hq; [by apply not_queued_idle in Hq|]. by apply (not_queued_idle f th) in Hs.
Qed.

Lemma down_inv s t th s' :
  inv n s -> threads s !! t = Some th -> pc th = Out ->
  (s' = acquire s t READ (__down_read (sem s) t) \/ s' = acquire s t WRITE (__down_write (sem s) t) \/
   s' = try s t READ (__down_read_trylock (sem s)) \/ s' = try s t WRITE (__down_write_trylock (sem s))) ->
  inv n s'.
Proof.
  intros H Ht Hp Hc. pose proof (activity_bound s H) as Hb. unfold acquire, try, put in Hc.
  destruct Hc as [->|[->|[->| ->]]]; unfold __down_read, __down_write, __down_write_nested, __down_read_trylock, __down_write_trylock;
    destruct (list_empty (wait_list (sem s))) eqn:El; rewrite ?andb_false_r, ?andb_true_r; cbn [fst snd].
  all: try (eapply fail_inv; done).
  all: try (apply inv_enqueue with th; [done|done|done|first [by left|by right]|intros Hl; rewrite Hl in El; done]).
  all: apply list_empty_spec in El.
  1,3: destruct (Z.leb_spec 0 (activity (sem s))); cbn [fst snd].
  5,6: destruct (Z.eqb_spec (activity (sem s)) 0); cbn [fst snd].
  all: try (eapply fail_inv; done).
  all: try (apply inv_enqueue with th; [done|done|done|first [by left|by right]|intros _; split; [lia|]; done || lia]).
  all: rewrite ?s32_id by lia; rewrite El; eapply take_inv; [done..|]; naive_solver lia.
Qed.

Lemma wake_inv s t ws :
  inv n s -> (forall u, u ∈ wakes s -> u <> t -> u ∈ ws) ->
  inv n (mksys (sem s) (alter set_running t (threads s)) ws).
Proof.
  intros H Hws. destruct (threads s !! t) as [th|] eqn:Ht.
  - assert (alter set_running t (threads s) = <[t := set_running th]> (threads s)) as ->.
    { apply list_eq. intros i. destruct (decide (i = t)) as [->|].
      - rewrite list_lookup_alter_eq, Ht, list_lookup_insert_eq; [done|]. by eapply lookup_lt_Some.
      - by rewrite list_lookup_alter_ne, list_lookup_insert_ne by done. }
    apply (inv_quiet n s t th); [done|done|exact (inv_sane n s H t th Ht)|done|done|by intros f [=]|done].
  - assert (alter set_running t (threads s) = threads s) as ->.
    { apply list_eq. intros i. destruct (decide (i = t)) as [->|]; [by rewrite list_lookup_alter_eq, Ht|by rewrite list_lookup_alter_ne by done]. }
    destruct H as [Hlen Hsane Hcnt Hq Hnd Hh Hsl]. split; try done. intros u f Hu. apply Hws; [eauto|].
    intros ->. simpl in Hu. congruence.
Qed.

Lemma run_inv s t th s' : inv n s -> threads s !! t = Some th -> run s t th = Some s' -> inv n s'.
Proof.
  intros H Ht. pose proof (inv_sane n s H t th Ht) as Hs. unfold run, put, sane in *. destruct th as [p st w]. cbn [pc state waiting] in *.
  destruct p as [|f [| |]|f]; try done.
  - intros [= <-]. destruct w.
    + eapply inv_quiet; try done. intros g. split; intros (_ & p & [= ->]); (split; [done|]); eexists; done.
    + eapply inv_quiet; try done.
      * intros g. unfold owns. simpl. by rewrite andb_true_r.
      * intros g. split; intros Hq; by apply not_queued_idle in Hq.
  - destruct st; [|done]. intros [= <-]. eapply inv_quiet; try done.
    intros g. split; intros (Hw & p & [= ->]); (split; [done|]); eexists; done.
  - intros [= <-]. eapply inv_quiet; try done.
    intros g. split; intros (Hw & p & [= ->]); (split; [done|]); eexists; done.
Qed.

Lemma step_inv s e s' : inv n s -> step s e = Some s' -> inv n s'.
Proof.
  intros H Hs. unfold step in Hs. destruct e as [t|t|t|t|t|t|t|t| |t]; cbv zeta in Hs.
  all: try (destruct (list_empty (wakes s)) eqn:Ew; [apply list_empty_spec in Ew|done]).
  all: try (destruct (threads s !! t) as [th|] eqn:Ht; [cbn [mbind option_bind] in Hs|done]).
  1-4: destruct (is_out th) eqn:Eo; [|done]; injection Hs as Hs; eapply (down_inv s t th s'); [done|done|by unfold is_out in Eo; destruct (pc th)|naive_solver].
  1-3: destruct (is_holder _ th) eqn:Eh; [|done]; unfold is_holder in Eh; destruct (pc th) eqn:Ep; try done; apply Z.eqb_eq in Eh; subst f.
  - by eapply up_read_inv.
  - eapply (do_wake_inv s t th Out 0 true); try done. by left.
  - eapply (do_wake_inv s t th (Holds READ) 1 false); try done. by right.
  - by eapply run_inv.
  - destruct (wakes s) as [|t ws] eqn:Ew; [done|]. injection Hs as <-. apply wake_inv; [done|]. rewrite Ew.
    intros u Hu Hne. apply elem_of_cons in Hu as [->|]; done.
  - injection Hs as <-. by apply wake_inv.
Qed.

Lemma reachable_inv s : reachable n s -> inv n s.
Proof. induction 1; [apply inv_start|by eapply step_inv]. Qed.

End Steps.

(** ** Properties *)

(** C29. In every state that any interleaving of the operations by [n] threads can reach:
    the active count is the number of readers that have the lock, or -1 when one writer
    and nobody else has it; the queue holds exactly the threads that wait, each once, and
    a waiter at its head never waits for nothing: the count is then not 0, and if readers
    have the lock the head is a writer.  So [__up_read] may take the head of the queue for
    a writer without looking.  No thread that was given the lock sleeps without a wake-up
    on its way. *)
Theorem rwsem_invariant n s : Z.of_nat n < 2 ^ 31 - 1 -> reachable n s -> inv n s.
Proof. intros Hn Hr. by apply reachable_inv. Qed.

Definition execute (s : sys) (es : list event) : option sys :=
  fold_left (fun r e => s ← r; step s e) es (Some s).

Lemma execute_reachable n s es s' : reachable n s -> execute s es = Some s' -> reachable n s'.
Proof.
  unfold execute. revert s. induction es as [|e es IH]; intros s Hr; simpl; [by intros [= <-]|].
  destruct (step s e) as [s1|] eqn:E; [apply IH; by eapply reach_step|].
  intros H. exfalso. revert H. clear. induction es as [|e es IH]; simpl; [done|exact IH].
Qed.

Lemma rwsem_invariant_witness :
  exists s, execute (start 3) [Down_read 0; Down_write 1; Down_read 2; Run 1; Up_read 0; Wake] = Some s /\ inv 3 s /\
    activity (sem s) = -1 /\ wait_list (sem s) = [mkwaiter 2 READ].
Proof.
  eexists. split; [reflexivity|]. split; [|done]. apply rwsem_invariant; [done|].
  apply (execute_reachable 3 (start 3) [Down_read 0; Down_write 1; Down_read 2; Run 1; Up_read 0; Wake]); [apply reach_start|reflexivity].
Defined.

(** While one thread has the semaphore for writing no other thread has it. *)
Theorem rwsem_mutual_exclusion n s t u th th' f :
  Z.of_nat n < 2 ^ 31 - 1 -> reachable n s ->
  threads s !! t = Some th -> threads s !! u = Some th' -> t <> u -> pc th = Holds WRITE -> pc th' <> Holds f.
Proof.
  intros Hn Hr Ht Hu Htu Hp Hp'. pose proof (reachable_inv n Hn s Hr) as H. pose proof (inv_sane n s H u th' Hu) as Hs.
  unfold sane in Hs. rewrite Hp' in Hs. destruct Hs as [Hf _].
  assert (Ho : owns WRITE th = true) by (unfold owns; by rewrite Hp).
  assert (Ho' : owns f th' = true) by (unfold owns; rewrite Hp'; apply Z.eqb_refl).
  pose proof (total_pos _ _ _ _ Ht Ho). destruct (inv_counted n s H) as [?|?]; [lia|].
  destruct Hf as [->| ->]; [pose proof (total_pos _ _ _ _ Hu Ho'); lia|pose proof (total_two _ _ _ _ _ _ Ht Hu Htu Ho Ho'); lia].
Qed.

Lemma rwsem_mutual_exclusion_witness :
  exists s, execute (start 2) [Down_write 0; Down_read_trylock 1] = Some s /\
    forall th', threads s !! 1%nat = Some th' -> pc th' <> Holds READ.
Proof.
  eexists. split; [reflexivity|]. intros th' H.
  refine (rwsem_mutual_exclusion 2 _ 0 1 (mkthread (Holds WRITE) TASK_RUNNING false) th' READ _ _ _ H _ _); try done.
  apply (execute_reachable 2 (start 2) [Down_write 0; Down_read_trylock 1]); [apply reach_start|reflexivity].
Defined.

(** The waiters in front of [t]. *)
Fixpoint ahead (t : nat) (l : list rwsem_waiter) : Z :=
  match l with
  | [] => 0
  | w :: l => if Nat.eqb (task w) t then 0 else 1 + ahead t l
  end.

Definition waits_in (t : nat) (s : sys) : Prop := exists th f, threads s !! t = Some th /\ queued f th.

Definition holders (s : sys) : Z := total READ (threads s) + total WRITE (threads s).

Definition is_up (e : event) : Z := match e with Up_read _ | Up_write _ => 1 | _ => 0 end.

(** An execution during which [t] is in the queue all the time. *)
Inductive waits (t : nat) : sys -> list event -> sys -> Prop :=
| waits_nil s : waits_in t s -> waits t s [] s
| waits_cons s e s1 es s' : waits_in t s -> step s e = Some s1 -> waits t s1 es s' -> waits t s (e :: es) s'.

Fixpoint ups (es : list event) : Z := match es with [] => 0 | e :: es => is_up e + ups es end.

Definition in_queue (t : nat) (l : list rwsem_waiter) : Prop := t ∈ List.map task l.

Lemma waits_in_queue n s t : inv n s -> waits_in t s -> in_queue t (wait_list (sem s)).
Proof.
  intros H (th & f & Hq). assert (Hin : mkwaiter t f ∈ wait_list (sem s)) by (apply (inv_queue n s H); by exists th).
  apply list_elem_of_In, in_map_iff. exists (mkwaiter t f). split; [done|by apply list_elem_of_In].
Qed.

Lemma holders_activity n s : inv n s -> holders s = Z.abs (activity (sem s)).
Proof. intros H. unfold holders. destruct (inv_counted n s H) as [?|?]; lia. Qed.

Lemma ahead_app t W rest :
  NoDup (List.map task (W ++ rest)) -> in_queue t rest -> ahead t (W ++ rest) = zlen W + ahead t rest.
Proof.
  induction W as [|w W IH]; simpl; [unfold zlen; simpl; lia|]. intros Hn Ht. inversion_clear Hn as [|? ? Hw Hn'].
  destruct (Nat.eqb_spec (task w) t) as [E|].
  - exfalso. apply Hw. rewrite E, map_app. apply elem_of_app. by right.
  - rewrite IH by done. unfold zlen. cbn [length]. lia.
Qed.

Lemma ahead_cons t w l :
  NoDup (List.map task (w :: l)) -> in_queue t l -> ahead t (w :: l) = 1 + ahead t l.
Proof. apply (ahead_app t [w] l). Qed.

Lemma ahead_snoc t l w : in_queue t l -> ahead t (l ++ [w]) = ahead t l.
Proof.
  unfold in_queue. induction l as [|x l IH]; simpl; [by intros ?%elem_of_nil|]. intros [->|Ht]%elem_of_cons.
  - by rewrite Nat.eqb_refl.
  - destruct (Nat.eqb_spec (task x) t); [done|]. by rewrite IH.
Qed.

Lemma ahead_nonneg t l : 0 <= ahead t l.
Proof. induction l as [|w l IH]; simpl; [lia|]. destruct (Nat.eqb _ _); lia. Qed.

(** What a release does to the count and the queue. *)
Lemma wake_measure t sm wakewrite sm' woken :
  NoDup (List.map task (wait_list sm)) -> (forall w, w ∈ wait_list sm -> is_flag (flags w)) ->
  0 <= activity sm -> activity sm + zlen (wait_list sm) < 2 ^ 31 -> (wakewrite = true -> activity sm = 0) ->
  __rwsem_do_wake sm wakewrite = Some (sm', woken) -> in_queue t (wait_list sm') ->
  Z.abs (activity sm') + ahead t (wait_list sm') = activity sm + ahead t (wait_list sm).
Proof.
  intros Hnd Hfl Ha Hb Hw. unfold __rwsem_do_wake. destruct sm as [a l]. cbn [wait_list activity] in *. destruct l as [|w l]; [done|].
  destruct (Hfl w) as [Ef|Ef]; [apply elem_of_cons; by left|..].
  - replace (has_flag w RWSEM_WAITING_FOR_WRITE) with false by (unfold has_flag; by rewrite Ef). rewrite !andb_false_r.
    pose proof (wake_readers_spec (w :: l) Hfl) as Hwr. destruct (wake_readers (w :: l)) as [W rest]. destruct Hwr as (E & _ & _).
    intros [= <- <-] Ht. cbn [wait_list activity] in *. rewrite E in *. rewrite ahead_app by done. rewrite zlen_app in Hb.
    pose proof (zlen_nonneg rest). unfold zlen in *. rewrite s32_id by lia. lia.
  - replace (has_flag w RWSEM_WAITING_FOR_WRITE) with true by (unfold has_flag; by rewrite Ef). rewrite !andb_true_r.
    destruct wakewrite; cbn [negb]; intros [= <- <-] Ht; cbn [wait_list activity] in *; [|lia].
    rewrite (ahead_cons t w l) by done. rewrite Hw by done. lia.
Qed.

Section Waiting.
Context (n : nat) (Hn : Z.of_nat n < 2 ^ 31 - 1) (t : nat).

Definition queue_measure (sm : rw_semaphore) : Z := Z.abs (activity sm) + ahead t (wait_list sm).

Lemma queue_length s : inv n s -> zlen (wait_list (sem s)) <= Z.of_nat n.
Proof.
  intros H. pose proof (inv_nodup n s H) as Hnd. unfold zlen. rewrite <- (length_map task).
  assert (Hsub : List.map task (wait_list (sem s)) ⊆ seq 0 n).
  { intros u Hu. apply list_elem_of_In, in_map_iff in Hu as ([v f] & Ev & Hin). simpl in Ev. subst v.
    apply list_elem_of_In in Hin. apply (inv_queue n s H) in Hin as (th & Hu & _). apply lookup_lt_Some in Hu.
    rewrite (inv_length n s H) in Hu. apply elem_of_seq. lia. }
  pose proof (submseteq_length _ _ (NoDup_submseteq _ _ Hnd Hsub)) as Hl. rewrite length_seq in Hl. lia.
Qed.

Lemma section_measure s u th e s' :
  inv n s -> in_queue t (wait_list (sem s)) -> in_queue t (wait_list (sem s')) -> threads s !! u = Some th ->
  match e with
  | Up_read _ => pc th = Holds READ /\ release s u Out (__up_read (sem s)) = Some s'
  | Up_write _ => pc th = Holds WRITE /\ release s u Out (__up_write (sem s)) = Some s'
  | Downgrade _ => pc th = Holds WRITE /\ release s u (Holds READ) (__downgrade_write (sem s)) = Some s'
  | _ => False
  end ->
  queue_measure (sem s') = queue_measure (sem s) - is_up e.
Proof.
  intros H Ht Ht' Hu He. pose proof (inv_nodup n s H) as Hnd. pose proof (queue_length s H) as Hql.
  pose proof (fun w => inv_flags n s w H) as Hfl. unfold queue_measure.
  destruct e as [| | | |v|v|v|v| |v]; try done; destruct He as [Hp He]; destruct (holder_counts n s u th _ H Hu Hp) as [H1 H2].
  - specialize (H1 eq_refl). pose proof (activity_bound n s H). unfold release, __up_read, __rwsem_wake_one_writer in He.
    rewrite s32_id in He by lia. cbn [activity wait_list] in He. destruct (wait_list (sem s)) as [|w l] eqn:El; [by apply elem_of_nil in Ht|].
    cbn [list_empty negb] in He. rewrite andb_true_r in He. destruct (Z.eqb_spec (activity (sem s) - 1) 0) as [E|E]; cbn [mbind option_bind] in He;
      injection He as <-; cbn [sem activity wait_list is_up] in *; [|lia].
    rewrite (ahead_cons t w l) by done. lia.
  - specialize (H2 eq_refl). unfold release, __up_write in He. cbn [wait_list] in He.
    destruct (list_empty (wait_list (sem s))) eqn:El; cbn [negb] in He; [apply list_empty_spec in El; rewrite El in Ht; by apply elem_of_nil in Ht|].
    destruct (__rwsem_do_wake _ _) as [[sm' wk]|] eqn:Ew; [|done]. cbn [mbind option_bind] in He. injection He as <-. cbn [sem] in *.
    rewrite (wake_measure t _ _ _ _) with (6 := Ew); cbn [activity wait_list is_up]; try done; lia.
  - specialize (H2 eq_refl). unfold release, __downgrade_write in He. cbn [wait_list] in He.
    destruct (list_empty (wait_list (sem s))) eqn:El; cbn [negb] in He; [apply list_empty_spec in El; rewrite El in Ht; by apply elem_of_nil in Ht|].
    destruct (__rwsem_do_wake _ _) as [[sm' wk]|] eqn:Ew; [|done]. cbn [mbind option_bind] in He. injection He as <-. cbn [sem] in *.
    rewrite (wake_measure t _ _ _ _) with (6 := Ew); cbn [activity wait_list is_up]; try done; lia.
Qed.

(** A thread that asks for the lock while [t] waits is queued behind it or refused. *)
Lemma arrive_measure s u f r s' :
  in_queue t (wait_list (sem s)) ->
  (r = __down_read (sem s) u \/ r = __down_write (sem s) u) /\ s' = acquire s u f r \/
  (r = __down_read_trylock (sem s) \/ r = __down_write_trylock (sem s)) /\ s' = try s u f r ->
  queue_measure (sem s') = queue_measure (sem s).
Proof.
  intros Ht Hc. assert (El : list_empty (wait_list (sem s)) = false)
    by (destruct (wait_list (sem s)); [by apply elem_of_nil in Ht|done]).
  destruct Hc as [[[->| ->] ->]|[[->| ->] ->]]; unfold __down_read, __down_write, __down_write_nested, __down_read_trylock, __down_write_trylock, queue_measure;
    rewrite El, !andb_false_r; cbn [acquire try put sem fst snd activity wait_list]; rewrite ?ahead_snoc; done.
Qed.

Lemma step_measure s e s' :
  inv n s -> waits_in t s -> waits_in t s' -> step s e = Some s' -> queue_measure (sem s') = queue_measure (sem s) - is_up e.
Proof.
  intros H Ht Ht' Hs. pose proof (step_inv n Hn s e s' H Hs) as H'.
  apply (waits_in_queue n) in Ht; [|done]. apply (waits_in_queue n) in Ht'; [|done].
  unfold step in Hs. destruct e as [u|u|u|u|u|u|u|u| |u]; cbv zeta in Hs.
  all: try (destruct (list_empty (wakes s)) eqn:Ew; [|done]).
  all: try (destruct (threads s !! u) as [th|] eqn:Hu; [cbn [mbind option_bind] in Hs|done]).
  1-4: destruct (is_out th); [|done]; injection Hs as <-; cbn [is_up]; rewrite Z.sub_0_r; eapply arrive_measure; [done|naive_solver].
  1-3: destruct (is_holder _ th) eqn:Eh; [|done]; unfold is_holder in Eh; destruct (pc th) eqn:Ep; try done; apply Z.eqb_eq in Eh; subst f.
  - by eapply (section_measure s u th (Up_read u)).
  - by eapply (section_measure s u th (Up_write u)).
  - by eapply (section_measure s u th (Downgrade u)).
  - unfold run in Hs. assert (sem s' = sem s) as ->; [|cbn; lia]. repeat case_match; simplify_eq; done.
  - destruct (wakes s); [done|]. injection Hs as <-. cbn. lia.
  - injection Hs as <-. cbn. lia.
Qed.

Lemma waits_measure s es s' :
  inv n s -> waits t s es s' -> inv n s' /\ waits_in t s' /\ ups es + queue_measure (sem s') = queue_measure (sem s).
Proof.
  intros H Hw. induction Hw as [s Hs|s e s1 es s' Hs Hstep Hw IH]; cbn [ups]; [split_and!; done || lia|].
  destruct IH as (Hi & Hws & E); [by eapply step_inv|]. split; [done|]. split; [done|].
  assert (waits_in t s1) by (by inversion Hw). rewrite <- (Z.sub_add (is_up e) (queue_measure (sem s))).
  rewrite <- (step_measure s e s1) by done. lia.
Qed.

End Waiting.

(** C35. Waiting is bounded: while a thread [t] stays in the queue, every release brings it
    nearer to the lock and nothing takes it further away.  The releases made so far, the
    threads that have the lock and the waiters in front of [t] add up to a constant, so at
    most as many releases can happen before [t] gets the lock as there were owners and
    waiters ahead of it; and as long as it waits somebody has the lock who can release
    it. *)
Theorem rwsem_bounded_wait n s t es s' :
  Z.of_nat n < 2 ^ 31 - 1 -> reachable n s -> waits t s es s' ->
  ups es + holders s' + ahead t (wait_list (sem s')) = holders s + ahead t (wait_list (sem s)) /\
  0 < holders s' /\ ups es < holders s + ahead t (wait_list (sem s)).
Proof.
  intros Hn Hr Hw. pose proof (reachable_inv n Hn s Hr) as H.
  destruct (waits_measure n Hn t s es s' H Hw) as (H' & Ht' & E). unfold queue_measure in E.
  rewrite (holders_activity n s), (holders_activity n s') by done. pose proof (ahead_nonneg t (wait_list (sem s'))).
  apply (waits_in_queue n) in Ht'; [|done]. pose proof (inv_head n s' H') as Hh. unfold head_ok in Hh.
  destruct (wait_list (sem s')) as [|w l]; [by apply elem_of_nil in Ht'|]. lia.
Qed.

Lemma rwsem_bounded_wait_witness :
  exists s s', execute (start 3) [Down_read 0; Down_write 1; Down_read 2] = Some s /\
    waits 2 s [Up_read 0; Wake; Run 1] s' /\ ups [Up_read 0; Wake; Run 1] < holders s + ahead 2 (wait_list (sem s)).
Proof.
  eexists. eexists. split; [reflexivity|].
  match goal with |- waits ?t ?s ?es ?s' /\ _ =>
    assert (W : waits t s es s') by
      (repeat (eapply waits_cons; [eexists _, READ; split; [reflexivity|split; [reflexivity|eexists; reflexivity]]|reflexivity|]);
       apply waits_nil; eexists _, READ; split; [reflexivity|split; [reflexivity|eexists; reflexivity]]) end.
  split; [exact W|]. eapply (rwsem_bounded_wait 3); [done| |exact W].
  apply (execute_reachable 3 (start 3) [Down_read 0; Down_write 1; Down_read 2]); [apply reach_start|reflexivity].
Defined.

(** [k] steps of the waiting loop of [t]. *)
Fixpoint run_loop (k : nat) (t : nat) (s : sys) : option sys :=
  match k with O => Some s | S k => s ← step s (Run t); run_loop k t s end.

(** No wake-up is lost: once the wake-ups of the releasing section are done, a waiter
    whose [task] field has been cleared is never asleep, wherever in its loop the release
    found it: within three steps of its own it leaves the loop with the lock. *)
Theorem rwsem_granted_returns n s t th f p :
  Z.of_nat n < 2 ^ 31 - 1 -> reachable n s -> wakes s = [] ->
  threads s !! t = Some th -> pc th = Wait f p -> waiting th = false ->
  exists k s', (1 <= k <= 3)%nat /\ run_loop k t s = Some s' /\
    threads s' !! t = Some (mkthread (Holds f) TASK_RUNNING false) /\ sem s' = sem s.
Proof.
  intros Hn Hr Hw Ht Hp Hwt. pose proof (reachable_inv n Hn s Hr) as H. destruct th as [pc0 st w]. simpl in Hp, Hwt. subst pc0 w.
  assert (Hlt : (t < length (threads s))%nat) by (by eapply lookup_lt_Some).
  assert (R1 : forall s th', (t < length (threads s))%nat -> (put s (sem s) t th').(threads) !! t = Some th')
    by (intros; by apply list_lookup_insert_eq).
  destruct p.
  - exists 1%nat. eexists. cbn [run_loop step]. rewrite Ht. cbn. split; [lia|]. split; [done|]. split; [by apply R1|done].
  - exists 3%nat. destruct st.
    + eexists. cbn [run_loop step]. rewrite Ht. cbn. rewrite list_lookup_insert_eq by done. cbn.
      rewrite list_lookup_insert_eq by (by rewrite length_insert). cbn. split; [lia|]. split; [done|].
      split; [|done]. cbn [put threads]. rewrite list_lookup_insert_eq; [done|by rewrite ?length_insert].
    + pose proof (inv_sleep n s H t f Ht) as Hs. rewrite Hw in Hs. by apply elem_of_nil in Hs.
  - exists 2%nat. eexists. cbn [run_loop step]. rewrite Ht. cbn. rewrite list_lookup_insert_eq by done. cbn. split; [lia|]. split; [done|].
    split; [|done]. cbn [put threads]. rewrite list_lookup_insert_eq; [done|by rewrite ?length_insert].
Qed.

Lemma rwsem_granted_returns_witness :
  exists s, execute (start 2) [Down_write 0; Down_write 1; Run 1; Up_write 0; Wake] = Some s /\
    exists k s', (1 <= k <= 3)%nat /\ run_loop k 1 s = Some s' /\
      threads s' !! 1%nat = Some (mkthread (Holds WRITE) TASK_RUNNING false) /\ sem s' = sem s.
Proof.
  eexists. split; [reflexivity|].
  refine (rwsem_granted_returns 2 _ 1 (mkthread (Wait WRITE AtSchedule) TASK_RUNNING false) WRITE AtSchedule _ _ _ _ _ _); try done.
  apply (execute_reachable 2 (start 2) [Down_write 0; Down_write 1; Run 1; Up_write 0; Wake]); [apply reach_start|reflexivity].
Defined.

End Rwsem.
