(* ===== verification/Semaphore.v ===== *)
(** * kernel/semaphore.c: counting semaphores

    All the functions run under the spinlock of the semaphore except for the sleep in
    [schedule_timeout], so a system of threads advances by whole sections: a call up to the
    point where it sleeps, and from the return of [schedule_timeout] to the next sleep or
    to the end of the call.  When a sleeper resumes, how many jiffies have passed and which
    signals are pending are given with the event; a sleeper may also resume for no
    reason. *)
From S2P Require Import Prelude.

Module Semaphore.

Definition ETIME : Z := 62.
Definition TASK_INTERRUPTIBLE : Z := 1.
Definition TASK_UNINTERRUPTIBLE : Z := 2.
Definition TASK_WAKEKILL : Z := 128.
Definition TASK_KILLABLE : Z := Z.lor TASK_WAKEKILL TASK_UNINTERRUPTIBLE.
Definition MAX_SCHEDULE_TIMEOUT : Z := 2 ^ 31 - 1.

(** The semaphore: the permits and the tasks that wait, in order. *)
Record semaphore := mksem { count : Z; wait_list : list nat }.

Definition sema_init (val : Z) : semaphore := mksem (u32 val) [].

(** What the thread sees of its signals. *)
Record signals := mksig { pending : bool; fatal : bool }.

Definition signal_pending_state (st : Z) (p : signals) : bool :=
  if Z.land st (Z.lor TASK_INTERRUPTIBLE TASK_WAKEKILL) =? 0 then false
  else if negb (pending p) then false
  else negb (Z.land st TASK_INTERRUPTIBLE =? 0) || fatal p.

(** What is left of [timeout] when the sleep took [elapsed] jiffies. *)
Definition schedule_timeout (timeout elapsed : Z) : Z :=
  if timeout =? MAX_SCHEDULE_TIMEOUT then timeout
  else let left := s32 (timeout - elapsed) in if left <? 0 then 0 else left.

(** How a section ends: the call returns, or it sleeps. *)
Inductive outcome := Return (r : Z) | Sleep (st timeout : Z).

(** [list_del]. *)
Definition list_del (t : nat) (l : list nat) : list nat := List.filter (fun u => negb (Nat.eqb u t)) l.

(** The loop of [__down_common] from its start to [schedule_timeout]. *)
Definition down_loop (sem : semaphore) (t : nat) (st timeout : Z) (p : signals) : semaphore * outcome :=
  if signal_pending_state st p then (mksem (count sem) (list_del t (wait_list sem)), Return (- EINTR))
  else if timeout <=? 0 then (mksem (count sem) (list_del t (wait_list sem)), Return (- ETIME))
  else (sem, Sleep st timeout).

Definition __down_common (sem : semaphore) (t : nat) (st timeout : Z) (p : signals) : semaphore * outcome :=
  down_loop (mksem (count sem) (wait_list sem ++ [t])) t st timeout p.

Definition __down (sem : semaphore) (t : nat) (p : signals) : semaphore * outcome :=
  __down_common sem t TASK_UNINTERRUPTIBLE MAX_SCHEDULE_TIMEOUT p.
Definition __down_interruptible (sem : semaphore) (t : nat) (p : signals) : semaphore * outcome :=
  __down_common sem t TASK_INTERRUPTIBLE MAX_SCHEDULE_TIMEOUT p.
Definition __down_killable (sem : semaphore) (t : nat) (p : signals) : semaphore * outcome :=
  __down_common sem t TASK_KILLABLE MAX_SCHEDULE_TIMEOUT p.
Definition __down_timeout (sem : semaphore) (t : nat) (jiffies : Z) (p : signals) : semaphore * outcome :=
  __down_common sem t TASK_UNINTERRUPTIBLE jiffies p.

(** After [schedule_timeout] has returned [timeout]; [up] is [waiter.up]. *)
Definition down_resume (sem : semaphore) (t : nat) (st timeout : Z) (up : bool) (p : signals) : semaphore * outcome :=
  if up then (sem, Return 0) else down_loop sem t st timeout p.

Definition down (sem : semaphore) (t : nat) (p : signals) : semaphore * outcome :=
  if 0 <? count sem then (mksem (count sem - 1) (wait_list sem), Return 0) else __down sem t p.

Definition down_interruptible (sem : semaphore) (t : nat) (p : signals) : semaphore * outcome :=
  if 0 <? count sem then (mksem (count sem - 1) (wait_list sem), Return 0) else __down_interruptible sem t p.

Definition down_killable (sem : semaphore) (t : nat) (p : signals) : semaphore * outcome :=
  if 0 <? count sem then (mksem (count sem - 1) (wait_list sem), Return 0) else __down_killable sem t p.

Definition down_timeout (sem : semaphore) (t : nat) (jiffies : Z) (p : signals) : semaphore * outcome :=
  if 0 <? count sem then (mksem (count sem - 1) (wait_list sem), Return 0) else __down_timeout sem t jiffies p.

(** 0 when the semaphore was taken, 1 when not; [count] is an [int] here. *)
Definition down_trylock (sem : semaphore) : semaphore * Z :=
  let c := s32 (count sem - 1) in
  if 0 <=? c then (mksem c (wait_list sem), 0) else (sem, 1).

(** The task whose [up] is set, if any. *)
Definition __up (sem : semaphore) : semaphore * option nat :=
  match wait_list sem with
  | [] => (sem, None)
  | t :: rest => (mksem (count sem) rest, Some t)
  end.

Definition up (sem : semaphore) : semaphore * option nat :=
  match wait_list sem with
  | [] => (mksem (u32 (count sem + 1)) [], None)
  | _ => __up sem
  end.

(** ** Threads *)

Inductive call := Down | Down_interruptible | Down_killable | Down_timeout (jiffies : Z).

Definition enter (c : call) (sem : semaphore) (t : nat) (p : signals) : semaphore * outcome :=
  match c with
  | Down => down sem t p
  | Down_interruptible => down_interruptible sem t p
  | Down_killable => down_killable sem t p
  | Down_timeout j => down_timeout sem t j p
  end.

(** A thread is outside, with the result of its last call, or asleep in one. *)
Inductive thread :=
| Idle (last : option (call * Z))
| Asleep (c : call) (st timeout : Z) (up : bool).

(** [taken] and [given] count the permits handed to callers and the calls of [up]. *)
Record sys := mksys { sem : semaphore; threads : list thread; taken : Z; given : Z }.

Definition start (n : nat) (val : Z) : sys := mksys (sema_init val) (replicate n (Idle None)) 0 0.

Inductive event :=
| Call (t : nat) (c : call) (p : signals)
| Resume (t : nat) (elapsed : Z) (p : signals)
| Trylock (t : nat)
| Up.

Definition finish (s : sys) (t : nat) (c : call) (r : semaphore * outcome) : sys :=
  match r.2 with
  | Return v => mksys r.1 (<[t := Idle (Some (c, v))]> (threads s)) (if v =? 0 then taken s + 1 else taken s) (given s)
  | Sleep st timeout => mksys r.1 (<[t := Asleep c st timeout false]> (threads s)) (taken s) (given s)
  end.

Definition set_up (th : thread) : thread :=
  match th with Asleep c st timeout _ => Asleep c st timeout true | _ => th end.

Definition step (s : sys) (e : event) : option sys :=
  match e with
  | Call t c p =>
      match threads s !! t with
      | Some (Idle _) => Some (finish s t c (enter c (sem s) t p))
      | _ => None
      end
  | Resume t elapsed p =>
      match threads s !! t with
      | Some (Asleep c st timeout u) =>
          if elapsed <? 0 then None
          else Some (finish s t c (down_resume (sem s) t st (schedule_timeout timeout elapsed) u p))
      | _ => None
      end
  | Trylock t =>
      match threads s !! t with
      | Some (Idle l) =>
          let '(sm, r) := down_trylock (sem s) in
          Some (mksys sm (threads s) (if r =? 0 then taken s + 1 else taken s) (given s))
      | _ => None
      end
  | Up =>
      let '(sm, w) := up (sem s) in
      Some (mksys sm (match w with Some t => alter set_up t (threads s) | None => threads s end) (taken s) (given s + 1))
  end.

Inductive reachable (n : nat) (val : Z) : sys -> Prop :=
| reach_start : reachable n val (start n val)
| reach_step s e s' : reachable n val s -> step s e = Some s' -> reachable n val s'.

(** ** The invariant *)

(** The thread has been given a permit and has not returned yet. *)
Definition granted (th : thread) : bool := match th with Asleep _ _ _ u => u | _ => false end.

Fixpoint pending_grants (ths : list thread) : Z :=
  match ths with [] => 0 | th :: ths => b2z (granted th) + pending_grants ths end.

Definition waits (th : thread) : bool := match th with Asleep _ _ _ u => negb u | _ => false end.

(** What a call may return, and how it may sleep. *)
Definition result_ok (c : call) (r : Z) : Prop :=
  r = 0 \/ (r = - EINTR /\ (c = Down_interruptible \/ c = Down_killable)) \/ (r = - ETIME /\ exists j, c = Down_timeout j).

Definition sleep_ok (c : call) (st timeout : Z) : Prop :=
  match c with
  | Down => st = TASK_UNINTERRUPTIBLE /\ timeout = MAX_SCHEDULE_TIMEOUT
  | Down_interruptible => st = TASK_INTERRUPTIBLE /\ timeout = MAX_SCHEDULE_TIMEOUT
  | Down_killable => st = TASK_KILLABLE /\ timeout = MAX_SCHEDULE_TIMEOUT
  | Down_timeout _ => st = TASK_UNINTERRUPTIBLE
  end.

Definition thread_ok (th : thread) : Prop :=
  match th with
  | Idle None => True
  | Idle (Some (c, r)) => result_ok c r
  | Asleep c st timeout _ => sleep_ok c st timeout
  end.

Record inv (n : nat) (val : Z) (s : sys) : Prop := {
  inv_length : length (threads s) = n;
  inv_threads : forall t th, threads s !! t = Some th -> thread_ok th;
  inv_queue : forall t, t ∈ wait_list (sem s) <-> exists th, threads s !! t = Some th /\ waits th = true;
  inv_nodup : NoDup (wait_list (sem s));
  inv_free : 0 <= count (sem s) /\ (0 < count (sem s) -> wait_list (sem s) = []);
  inv_permits : count (sem s) + taken s + pending_grants (threads s) = val + given s;
}.

Lemma pending_nonneg ths : 0 <= pending_grants ths.
Proof. induction ths as [|th ths IH]; simpl; [lia|]. destruct (granted th); simpl; lia. Qed.

Lemma pending_insert ths t th th' :
  ths !! t = Some th -> pending_grants (<[t := th']> ths) = pending_grants ths - b2z (granted th) + b2z (granted th').
Proof.
  revert t. induction ths as [|x ths IH]; intros [|t] H; simpl in *; try done; [simplify_eq; lia|]. rewrite (IH t) by done. lia.
Qed.

Lemma list_del_in t u l : u ∈ list_del t l <-> u <> t /\ u ∈ l.
Proof.
  unfold list_del. rewrite list_elem_of_In, filter_In, list_elem_of_In.
  destruct (Nat.eqb_spec u t); simpl; naive_solver.
Qed.

Lemma list_del_nodup t l : NoDup l -> NoDup (list_del t l).
Proof.
  induction 1 as [|u l Hu Hn IH]; simpl; [constructor|]. destruct (Nat.eqb_spec u t); simpl; [done|].
  constructor; [|done]. rewrite list_del_in. naive_solver.
Qed.

Lemma list_del_snoc t l : t ∉ l -> list_del t (l ++ [t]) = l.
Proof.
  unfold list_del. rewrite List.filter_app. simpl. rewrite Nat.eqb_refl. simpl. rewrite app_nil_r. intros Ht.
  induction l as [|u l IH]; simpl; [done|]. apply not_elem_of_cons in Ht as [H1 H2].
  destruct (Nat.eqb_spec u t); [congruence|]. simpl. by rewrite IH.
Qed.

Lemma start_inv n val : 0 <= val < 2 ^ 31 -> inv n val (start n val).
Proof.
  intros Hv. assert (Hl : forall t th, replicate n (Idle None) !! t = Some th -> th = Idle None)
    by (intros t th H; by apply lookup_replicate in H as [-> _]).
  split; simpl.
  - apply length_replicate.
  - intros t th H. by rewrite (Hl t th H).
  - intros t. split; [by intros ?%elem_of_nil|]. intros (th & H & Hw). by rewrite (Hl t th H) in Hw.
  - constructor.
  - rewrite u32_id by (unfold is_u32; lia). split; [lia|done].
  - rewrite u32_id by (unfold is_u32; lia). clear. induction n as [|n IH]; simpl in *; lia.
Qed.

(** Thread [t] moves to [th'] and the semaphore to [sm], the queue losing or gaining at
    most [t]. *)
Lemma inv_update n val s t th th' sm k :
  inv n val s -> threads s !! t = Some th -> thread_ok th' ->
  (forall u, u <> t -> u ∈ wait_list sm <-> u ∈ wait_list (sem s)) -> (t ∈ wait_list sm <-> waits th' = true) ->
  NoDup (wait_list sm) -> 0 <= count sm -> (0 < count sm -> wait_list sm = []) ->
  count sm + k + b2z (granted th') = count (sem s) + taken s + b2z (granted th) ->
  inv n val (mksys sm (<[t := th']> (threads s)) k (given s)).
Proof.
  intros [Hlen Hth Hq Hnd Hfree Hp] Ht Hok Hu Htt Hn H0 H1 Hk.
  assert (Hlt : (t < length (threads s))%nat) by (by eapply lookup_lt_Some). split; simpl; try done.
  - by rewrite length_insert.
  - intros u x Hx. destruct (decide (u = t)) as [->|]; [rewrite list_lookup_insert_eq in Hx by done; congruence|].
    rewrite list_lookup_insert_ne in Hx by done. eauto.
  - intros u. destruct (decide (u = t)) as [->|]; [rewrite list_lookup_insert_eq by done; naive_solver|].
    rewrite list_lookup_insert_ne by done. rewrite Hu by done. apply Hq.
  - rewrite (pending_insert _ t th) by done. lia.
Qed.

(** The loop of [__down_common] run by a thread whose waiter is in the queue. *)
Lemma loop_inv n val s t th c st timeout p l :
  inv n val s -> threads s !! t = Some th -> granted th = false -> count (sem s) = 0 ->
  NoDup l -> t ∈ l -> (forall u, u <> t -> u ∈ l <-> u ∈ wait_list (sem s)) ->
  sleep_ok c st timeout ->
  inv n val (finish s t c (down_loop (mksem (count (sem s)) l) t st timeout p)).
Proof.
  intros H Ht Hg Hc Hnd Htl Hu Hs. unfold down_loop, finish. cbn [count wait_list].
  assert (Hdel : forall u, u <> t -> u ∈ list_del t l <-> u ∈ wait_list (sem s)) by (intros u Hne; rewrite list_del_in, <- Hu by done; naive_solver).
  assert (Hgone : t ∈ list_del t l <-> False) by (rewrite list_del_in; naive_solver).
  destruct (signal_pending_state st p) eqn:Esig; [|destruct (Z.leb_spec timeout 0)]; cbn [fst snd].
  - change (- EINTR =? 0) with false. cbv iota. apply (inv_update n val s t th); [done|done| |done|by rewrite Hgone|by apply list_del_nodup|cbn; lia|cbn; intros; lia|cbn; rewrite Hg; cbn; lia].
    destruct c as [| | |j]; simpl in Hs.
    + destruct Hs as [-> _]. done.
    + right. left. split; [done|by left].
    + right. left. split; [done|by right].
    + subst st. done.
  - change (- ETIME =? 0) with false. cbv iota. apply (inv_update n val s t th); [done|done| |done|by rewrite Hgone|by apply list_del_nodup|cbn; lia|cbn; intros; lia|cbn; rewrite Hg; cbn; lia].
    unfold result_ok. destruct c as [| | |j]; simpl in Hs; unfold MAX_SCHEDULE_TIMEOUT in Hs; try lia. right. right. split; [done|by exists j].
  - apply (inv_update n val s t th); [done|done|done|done|done|done|cbn; lia|cbn; intros; lia|cbn; rewrite Hg; cbn; lia].
Qed.

Lemma call_inv n val s t last c p :
  inv n val s -> threads s !! t = Some (Idle last) -> inv n val (finish s t c (enter c (sem s) t p)).
Proof.
  intros H Ht. pose proof (inv_free n val s H) as [Hc Hfree].
  assert (Htl : t ∉ wait_list (sem s)).
  { intros Hin. apply (inv_queue n val s H) in Hin as (th & Hth & Hw). rewrite Ht in Hth. injection Hth as <-. done. }
  destruct (Z.ltb_spec 0 (count (sem s))) as [Hpos|Hz].
  - assert (enter c (sem s) t p = (mksem (count (sem s) - 1) (wait_list (sem s)), Return 0)) as ->.
    { apply Z.ltb_lt in Hpos. destruct c; cbn; unfold down, down_interruptible, down_killable, down_timeout; by rewrite Hpos. }
    unfold finish. cbn [snd fst Z.eqb].
    apply (inv_update n val s t (Idle last)); [done|done|by left|done| |exact (inv_nodup n val s H)|cbn; lia|cbn; auto|cbn; lia].
    cbn. split; [done|discriminate].
  - assert (Hz' : (0 <? count (sem s)) = false) by (by apply Z.ltb_ge). assert (Hc0 : count (sem s) = 0) by lia.
    assert (Hl : forall st timeout, sleep_ok c st timeout ->
      inv n val (finish s t c (down_loop (mksem (count (sem s)) (wait_list (sem s) ++ [t])) t st timeout p))).
    { intros st timeout Hs. apply (loop_inv n val s t (Idle last)); try done.
      - apply NoDup_app. split; [exact (inv_nodup n val s H)|]. split; [|apply NoDup_singleton]. intros u Hu ->%list_elem_of_singleton. done.
      - apply elem_of_app. right. by apply list_elem_of_singleton.
      - intros u Hne. rewrite elem_of_app, list_elem_of_singleton. naive_solver. }
    destruct c; cbn [enter]; unfold down, down_interruptible, down_killable, down_timeout; rewrite Hz'; by apply Hl.
Qed.

Lemma resume_inv n val s t c st timeout u elapsed p :
  inv n val s -> threads s !! t = Some (Asleep c st timeout u) ->
  inv n val (finish s t c (down_resume (sem s) t st (schedule_timeout timeout elapsed) u p)).
Proof.
  intros H Ht. pose proof (inv_free n val s H) as [Hc Hfree]. pose proof (inv_threads n val s H t _ Ht) as Hs. simpl in Hs.
  unfold down_resume. destruct u.
  - unfold finish. cbn [snd fst Z.eqb].
    apply (inv_update n val s t (Asleep c st timeout true)); [done|done|by left|done| |exact (inv_nodup n val s H)|done|done|cbn; lia].
    cbn. split; [|discriminate]. intros (th & Hth & Hw)%(inv_queue n val s H). rewrite Ht in Hth. by injection Hth as <-.
  - assert (Hin : t ∈ wait_list (sem s)) by (apply (inv_queue n val s H); eexists; split; [done|done]).
    assert (Hc0 : count (sem s) = 0).
    { destruct (Z.ltb_spec 0 (count (sem s))) as [Hp|]; [|lia]. rewrite (Hfree Hp) in Hin. by apply elem_of_nil in Hin. }
    destruct (sem s) as [cnt l] eqn:Es. rewrite <- (eq_refl : count (mksem cnt l) = cnt) at 1. rewrite <- Es at 1.
    apply (loop_inv n val s t (Asleep c st timeout false)); try done; rewrite ?Es; try done.
    + rewrite <- (eq_refl : wait_list (mksem cnt l) = l), <- Es. exact (inv_nodup n val s H).
    + destruct c; simpl in *; try done; destruct Hs as [-> ->]; split; done.
Qed.

Lemma trylock_inv n val s t last :
  inv n val s -> val + given s < 2 ^ 31 -> threads s !! t = Some (Idle last) -> 0 <= taken s ->
  let '(sm, r) := down_trylock (sem s) in
  inv n val (mksys sm (threads s) (if r =? 0 then taken s + 1 else taken s) (given s)).
Proof.
  intros [Hlen Hth Hq Hnd [Hc Hfree] Hp] Hb Ht Htk. pose proof (pending_nonneg (threads s)). unfold down_trylock.
  rewrite s32_id by lia. destruct (Z.leb_spec 0 (count (sem s) - 1)); cbn [Z.eqb].
  - split; cbn [sem threads taken given count wait_list]; try done; [split; [lia|auto with lia]|lia].
  - split; done.
Qed.

Lemma up_inv n val s :
  inv n val s -> val + given s < 2 ^ 31 -> 0 <= taken s ->
  let '(sm, w) := up (sem s) in
  inv n val (mksys sm (match w with Some t => alter set_up t (threads s) | None => threads s end) (taken s) (given s + 1)).
Proof.
  intros H Hb Htk. pose proof H as [Hlen Hth Hq Hnd [Hc Hfree] Hp]. pose proof (pending_nonneg (threads s)). unfold up, __up.
  destruct (wait_list (sem s)) as [|t rest] eqn:El.
  - split; cbn [sem threads taken given count wait_list]; try done.
    + rewrite u32_id by (unfold is_u32; lia). split; [lia|done].
    + rewrite u32_id by (unfold is_u32; lia). lia.
  - assert (Hc0 : count (sem s) = 0) by (destruct (Z.ltb_spec 0 (count (sem s))) as [Hpos|]; [by apply Hfree in Hpos|lia]).
    destruct (proj1 (Hq t)) as (th & Hth' & Hw); [apply elem_of_cons; by left|].
    destruct th as [|c st timeout u]; [done|]. simpl in Hw. destruct u; [done|].
    assert (alter set_up t (threads s) = <[t := Asleep c st timeout true]> (threads s)) as ->.
    { apply list_eq. intros i. destruct (decide (i = t)) as [->|].
      - rewrite list_lookup_alter_eq, Hth', list_lookup_insert_eq; [done|]. by eapply lookup_lt_Some.
      - by rewrite list_lookup_alter_ne, list_lookup_insert_ne by done. }
    inversion_clear Hnd as [|? ? Hnt Hnd'].
    enough (Hx : inv n (val + 1) (mksys (mksem (count (sem s)) rest) (<[t := Asleep c st timeout true]> (threads s)) (taken s) (given s))).
    { destruct Hx as [X1 X2 X3 X4 X5 X6]. split; try done. cbn in *. lia. }
    apply (inv_update n (val + 1) (mksys (sem s) (threads s) (taken s + 1) (given s)) t (Asleep c st timeout false)).
    + destruct H as [Y1 Y2 Y3 Y4 Y5 Y6]. split; cbn; try done. lia.
    + done.
    + exact (Hth t _ Hth').
    + intros v Hv. cbn. rewrite El, elem_of_cons. naive_solver.
    + cbn. split; [intros ?; done|discriminate].
    + done.
    + cbn. lia.
    + cbn. lia.
    + cbn. lia.
Qed.

Lemma step_monotone s e s' : step s e = Some s' -> given s <= given s' /\ taken s <= taken s'.
Proof.
  unfold step, finish. destruct e; repeat case_match; intros; simplify_eq; cbn; try lia; case_match; cbn; try lia; case_match; lia.
Qed.

Lemma reachable_taken n val s : reachable n val s -> 0 <= taken s /\ 0 <= given s.
Proof. induction 1 as [|s e s' Hr IH Hs]; [simpl; lia|]. apply step_monotone in Hs. lia. Qed.

Lemma sem_reachable_inv n val s : 0 <= val -> reachable n val s -> val + given s < 2 ^ 31 -> inv n val s.
Proof.
  intros Hv Hr. induction Hr as [|s e s' Hr IH Hs]; intros Hb; [apply start_inv; simpl in Hb; lia|].
  pose proof (step_monotone _ _ _ Hs). specialize (IH ltac:(lia)). pose proof (reachable_taken _ _ _ Hr) as [Htk _].
  destruct e as [t c p|t el p|t|]; cbn [step] in Hs.
  - destruct (threads s !! t) as [[last|]|] eqn:Ht; try done. injection Hs as <-. by eapply call_inv.
  - destruct (threads s !! t) as [[last|c st timeout u]|] eqn:Ht; try done. destruct (el <? 0); [done|]. injection Hs as <-. by apply resume_inv.
  - destruct (threads s !! t) as [[last|]|] eqn:Ht; try done. pose proof (trylock_inv n val s t last IH ltac:(lia) Ht Htk) as Hx.
    destruct (down_trylock (sem s)) as [sm r]. by injection Hs as <-.
  - pose proof (up_inv n val s IH ltac:(lia) Htk) as Hx. destruct (up (sem s)) as [sm w]. by injection Hs as <-.
Qed.

(** ** Properties *)

(** C37. However [n] threads call the semaphore, sleep, are woken, time out or are
    interrupted: the permits are conserved (those free, those taken by callers and those
    handed to sleepers that have not yet returned add up to the initial ones and the calls
    of [up]), permits are free only when nobody waits, and the queue holds exactly the
    sleepers that have not been given one. *)
Theorem semaphore_permits n val s :
  0 <= val -> reachable n val s -> val + given s < 2 ^ 31 -> inv n val s.
Proof. apply sem_reachable_inv. Qed.

Definition execute (s : sys) (es : list event) : option sys :=
  fold_left (fun r e => s ← r; step s e) es (Some s).

Lemma sem_execute_reachable n val s es s' : reachable n val s -> execute s es = Some s' -> reachable n val s'.
Proof.
  unfold execute. revert s. induction es as [|e es IH]; intros s Hr; simpl; [by intros [= <-]|].
  destruct (step s e) as [s1|] eqn:E; [apply IH; by eapply reach_step|].
  intros H. exfalso. revert H. clear. induction es as [|e es IH]; simpl; [done|exact IH].
Qed.

Definition quiet : signals := mksig false false.

Lemma semaphore_permits_witness :
  exists s, execute (start 3 1) [Call 0 Down quiet; Call 1 Down_interruptible quiet; Call 2 (Down_timeout 5) quiet; Up; Resume 1 0 quiet] = Some s /\
    inv 3 1 s /\ taken s = 2 /\ wait_list (sem s) = [2%nat].
Proof.
  eexists. split; [reflexivity|]. split; [|done]. apply semaphore_permits; [done| |done].
  apply (sem_execute_reachable 3 1 (start 3 1) [Call 0 Down quiet; Call 1 Down_interruptible quiet; Call 2 (Down_timeout 5) quiet; Up; Resume 1 0 quiet]);
    [apply reach_start|reflexivity].
Defined.

(** A call returns 0 exactly with a permit: [down] never fails, [-EINTR] comes only
    from the interruptible and the killable call and [-ETIME] only from the one with a
    timeout; a sleeper that was given a permit returns 0 with it even if by then a signal
    is pending or its time is over, and one that fails has left the queue. *)
Theorem semaphore_results n val s t :
  0 <= val -> reachable n val s -> val + given s < 2 ^ 31 ->
  (forall c r, threads s !! t = Some (Idle (Some (c, r))) -> result_ok c r /\ t ∉ wait_list (sem s)) /\
  (forall c st timeout elapsed p, threads s !! t = Some (Asleep c st timeout true) -> 0 <= elapsed ->
     exists s', step s (Resume t elapsed p) = Some s' /\ threads s' !! t = Some (Idle (Some (c, 0))) /\
       sem s' = sem s /\ taken s' = taken s + 1).
Proof.
  intros Hv Hr Hb. pose proof (sem_reachable_inv n val s Hv Hr Hb) as H. split.
  - intros c r Ht. split; [exact (inv_threads n val s H t _ Ht)|]. intros Hin.
    apply (inv_queue n val s H) in Hin as (th & Hth & Hw). rewrite Ht in Hth. by injection Hth as <-.
  - intros c st timeout elapsed p Ht He. cbn [step]. rewrite Ht. destruct (Z.ltb_spec elapsed 0); [lia|]. cbn.
    eexists. split; [done|]. cbn. split; [|done]. apply list_lookup_insert_eq. by eapply lookup_lt_Some.
Qed.

Lemma semaphore_results_witness :
  exists s, execute (start 2 0) [Call 0 Down_killable quiet; Up] = Some s /\
    exists s', step s (Resume 0 7 (mksig true true)) = Some s' /\ threads s' !! 0%nat = Some (Idle (Some (Down_killable, 0))).
Proof.
  eexists. split; [reflexivity|].
  match goal with |- exists s', step ?s _ = _ /\ _ => destruct (semaphore_results 2 0 s 0) as [_ H] end.
  - done.
  - apply (sem_execute_reachable 2 0 (start 2 0) [Call 0 Down_killable quiet; Up]); [apply reach_start|reflexivity].
  - done.
  - destruct (H Down_killable TASK_KILLABLE MAX_SCHEDULE_TIMEOUT 7 (mksig true true)) as (s' & E & Ht & _); [done|done|]. by exists s'.
Defined.

(** *** First come, first served *)

Fixpoint ahead (t : nat) (l : list nat) : Z :=
  match l with [] => 0 | u :: l => if Nat.eqb u t then 0 else 1 + ahead t l end.

Definition is_up (e : event) : Z := match e with Up => 1 | _ => 0 end.

Fixpoint ups (es : list event) : Z := match es with [] => 0 | e :: es => is_up e + ups es end.

(** An execution during which [t] is in the queue all the time. *)
Inductive in_line (t : nat) : sys -> list event -> sys -> Prop :=
| line_nil s : t ∈ wait_list (sem s) -> in_line t s [] s
| line_cons s e s1 es s' : t ∈ wait_list (sem s) -> step s e = Some s1 -> in_line t s1 es s' -> in_line t s (e :: es) s'.

Lemma line_nonneg t l : 0 <= ahead t l.
Proof. induction l as [|u l IH]; simpl; [lia|]. destruct (Nat.eqb _ _); lia. Qed.

Lemma line_snoc t l u : t ∈ l -> ahead t (l ++ [u]) = ahead t l.
Proof.
  induction l as [|x l IH]; simpl; [by intros ?%elem_of_nil|]. intros [->|Ht]%elem_of_cons; [by rewrite Nat.eqb_refl|].
  destruct (Nat.eqb_spec x t); [done|]. by rewrite IH.
Qed.

Lemma ahead_del t u l : t <> u -> ahead t (list_del u l) <= ahead t l.
Proof.
  intros Hne. unfold list_del. induction l as [|x l IH]; cbn [List.filter ahead]; [lia|].
  destruct (Nat.eqb_spec x u); cbn [negb ahead]; destruct (Nat.eqb_spec x t); try congruence; lia.
Qed.

Lemma down_loop_ahead t sm u st timeout p :
  t ∈ wait_list (down_loop sm u st timeout p).1 -> ahead t (wait_list (down_loop sm u st timeout p).1) <= ahead t (wait_list sm).
Proof.
  unfold down_loop. destruct (signal_pending_state st p); [|destruct (timeout <=? 0)]; cbn [fst wait_list]; try lia;
    intros [Hne _]%list_del_in; by apply ahead_del.
Qed.

Lemma step_ahead t s e s' :
  t ∈ wait_list (sem s) -> t ∈ wait_list (sem s') -> NoDup (wait_list (sem s)) -> step s e = Some s' ->
  is_up e + ahead t (wait_list (sem s')) <= ahead t (wait_list (sem s)).
Proof.
  intros Ht Ht' Hn Hs. destruct e as [u c p|u el p|u|]; cbn [step is_up] in *.
  - destruct (threads s !! u) as [[last|]|]; try done. injection Hs as <-.
    assert (Hf : forall r, sem (finish s u c r) = r.1) by (intros [sm []]; done). rewrite Hf in *.
    assert (Hc : forall st timeout, t ∈ wait_list (__down_common (sem s) u st timeout p).1 ->
      ahead t (wait_list (__down_common (sem s) u st timeout p).1) <= ahead t (wait_list (sem s))).
    { intros st timeout Hin. unfold __down_common in *. rewrite <- (line_snoc t (wait_list (sem s)) u) by done.
      by apply (down_loop_ahead t (mksem (count (sem s)) (wait_list (sem s) ++ [u]))). }
    destruct c; cbn [enter] in *; unfold down, down_interruptible, down_killable, down_timeout in *;
      (destruct (0 <? count (sem s)); [cbn; lia|by apply Hc]).
  - destruct (threads s !! u) as [[last|c st timeout up0]|]; try done. destruct (el <? 0); [done|]. injection Hs as <-.
    assert (Hf : forall r, sem (finish s u c r) = r.1) by (intros [sm []]; done). rewrite Hf in *.
    unfold down_resume in *. destruct up0; [cbn; lia|]. by apply down_loop_ahead.
  - destruct (threads s !! u) as [[last|]|]; try done. unfold down_trylock in Hs. destruct (0 <=? _); injection Hs as <-; cbn in *; lia.
  - unfold up, __up in Hs. destruct (wait_list (sem s)) as [|x l]; [by apply elem_of_nil in Ht|]. injection Hs as <-. cbn in *.
    inversion_clear Hn as [|? ? Hx _]. destruct (Nat.eqb_spec x t) as [->|]; [done|lia].
Qed.

(** Waiters are served in the order of their arrival: while [t] stays in the queue no
    event adds a waiter in front of it and every [up] serves one, so there are at most as
    many calls of [up] in that time as there were waiters ahead of [t]. *)
Theorem semaphore_fifo n val s t es s' :
  0 <= val -> reachable n val s -> in_line t s es s' -> val + given s' < 2 ^ 31 ->
  ups es + ahead t (wait_list (sem s')) <= ahead t (wait_list (sem s)).
Proof.
  intros Hv Hr Hl. revert Hr. induction Hl as [s Ht|s e s1 es s' Ht Hs Hl IH]; intros Hr Hb; cbn [ups]; [lia|].
  assert (Hr1 : reachable n val s1) by (by eapply reach_step). specialize (IH Hr1 Hb).
  assert (Hg : given s1 <= given s').
  { clear -Hl. induction Hl as [|s e s1 es s' Ht Hs Hl IH]; [lia|]. apply step_monotone in Hs. lia. }
  pose proof (step_monotone _ _ _ Hs). assert (Hn : NoDup (wait_list (sem s))) by (apply (inv_nodup n val), sem_reachable_inv; done || lia).
  assert (Ht1 : t ∈ wait_list (sem s1)) by (by inversion Hl).
  pose proof (step_ahead t s e s1 Ht Ht1 Hn Hs). lia.
Qed.

Lemma semaphore_fifo_witness :
  exists s s', execute (start 3 0) [Call 0 Down quiet; Call 1 Down quiet] = Some s /\ in_line 1 s [Up; Call 2 Down quiet] s' /\
    ups [Up; Call 2 Down quiet] + ahead 1 (wait_list (sem s')) <= ahead 1 (wait_list (sem s)).
Proof.
  eexists. eexists. split; [reflexivity|].
  match goal with |- in_line ?t ?s ?es ?s' /\ _ =>
    assert (W : in_line t s es s') by
      (eapply line_cons; [cbn; set_solver|reflexivity|]; eapply line_cons; [cbn; set_solver|reflexivity|]; apply line_nil; cbn; set_solver) end.
  split; [exact W|]. eapply (semaphore_fifo 3 0); [done| |exact W|done].
  apply (sem_execute_reachable 3 0 (start 3 0) [Call 0 Down quiet; Call 1 Down quiet]); [apply reach_start|reflexivity].
Defined.

End Semaphore.
