(* ===== verification/Resource.v ===== *)
(** * kernel/resource.c: the tree of I/O and memory resources

    Resources live at addresses in one store.  The children of a resource, which the code
    links through [sibling] from [child] on, are the list of their addresses: [child] is its
    first element and the [sibling] of a child is the one behind it in the list of its
    parent.  Reading or writing an address that holds no resource (NULL, freed) is [None].
    Sizes and addresses ([resource_size_t]) have 32 bits.  Everything runs under
    [resource_lock] and is atomic. *)
From stdpp Require Import sorting relations.
From S2P Require Import Prelude.

Module Resource.

Record resource := mkres {
  r_start : Z;
  r_end : Z;
  r_name : list Z;
  r_flags : Z;
  r_parent : option Z;
  r_children : list Z }.

Abbreviation store := (gmap Z resource).

Definition set_range (b e : Z) (r : resource) : resource := mkres b e (r_name r) (r_flags r) (r_parent r) (r_children r).
Definition set_parent (p : option Z) (r : resource) : resource := mkres (r_start r) (r_end r) (r_name r) (r_flags r) p (r_children r).
Definition set_children (l : list Z) (r : resource) : resource := mkres (r_start r) (r_end r) (r_name r) (r_flags r) (r_parent r) l.

Definition update (s : store) (a : Z) (f : resource -> resource) : option store := r ← s !! a; Some (<[a := f r]> s).

Definition IORESOURCE_SIZEALIGN : Z := 0x00020000.
Definition IORESOURCE_STARTALIGN : Z := 0x00040000.
Definition IORESOURCE_EXCLUSIVE : Z := 0x08000000.
Definition IORESOURCE_BUSY : Z := 0x80000000.

Definition has_flag (r : resource) (f : Z) : bool := negb (Z.land (r_flags r) f =? 0).

(** ** Request and release *)

(** The walk over the children: the list with [new] in it, or the child in the way *)
Fixpoint place (s : store) (b e new : Z) (l : list Z) : option (list Z + Z) :=
  match l with
  | [] => Some (inl [new])
  | tmp :: t =>
      r ← s !! tmp;
      if e <? r_start r then Some (inl (new :: l))
      else if r_end r <? b then
        res ← place s b e new t;
        Some (match res with inl t => inl (tmp :: t) | inr c => inr c end)
      else Some (inr tmp)
  end.

(** The store, and the resource in conflict, if there is one *)
Definition __request_resource (s : store) (root new : Z) : option (store * option Z) :=
  nr ← s !! new;
  rr ← s !! root;
  let b := r_start nr in
  let e := r_end nr in
  if e <? b then Some (s, Some root)
  else if b <? r_start rr then Some (s, Some root)
  else if r_end rr <? e then Some (s, Some root)
  else
    res ← place s b e new (r_children rr);
    match res with
    | inr tmp => Some (s, Some tmp)
    | inl l =>
        s ← update s root (set_children l);
        s ← update s new (set_parent (Some root));
        Some (s, None)
    end.

(** Take [old] out of the list, if it is there. *)
Fixpoint unlink (old : Z) (l : list Z) : option (list Z) :=
  match l with
  | [] => None
  | tmp :: t => if tmp =? old then Some t else t ← unlink old t; Some (tmp :: t)
  end.

Definition __release_resource (s : store) (old : Z) : option (store * Z) :=
  o ← s !! old;
  p ← r_parent o;
  pr ← s !! p;
  match unlink old (r_children pr) with
  | Some l =>
      s ← update s p (set_children l);
      s ← update s old (set_parent None);
      Some (s, 0)
  | None => Some (s, - EINVAL)
  end.

Definition request_resource (s : store) (root new : Z) : option (store * Z) :=
  '(s, conflict) ← __request_resource s root new;
  Some (s, match conflict with Some _ => - EBUSY | None => 0 end).

Definition release_resource (s : store) (old : Z) : option (store * Z) := __release_resource s old.

(** ** Insertion *)

(** The list up to [first], and from there on *)
Fixpoint split_at (first : Z) (l : list Z) : option (list Z * list Z) :=
  match l with
  | [] => None
  | x :: t => if x =? first then Some ([], l) else '(a, b) ← split_at first t; Some (x :: a, b)
  end.

(** The second loop: the run of children inside the new resource and what follows it, or the
    child that sticks out.  The list starts at [first]. *)
Fixpoint covered (s : store) (b e : Z) (l : list Z) : option ((list Z * list Z) + Z) :=
  match l with
  | [] => None
  | next :: t =>
      r ← s !! next;
      if (r_start r <? b) || (e <? r_end r) then Some (inr next)
      else
        match t with
        | [] => Some (inl ([next], []))
        | sib :: _ =>
            sr ← s !! sib;
            if e <? r_start sr then Some (inl ([next], t))
            else
              res ← covered s b e t;
              Some (match res with inl (run, rest) => inl (next :: run, rest) | inr c => inr c end)
        end
  end.

Fixpoint adopt (s : store) (new : Z) (l : list Z) : option store :=
  match l with
  | [] => Some s
  | c :: t => s ← update s c (set_parent (Some new)); adopt s new t
  end.

(** The descent: the parent and the child in conflict where the loop is left, or the
    result of the request *)
Fixpoint insert_descend (fuel : nat) (s : store) (parent new : Z) : option (store * option Z + Z * Z) :=
  match fuel with
  | O => None
  | S fuel =>
      '(s', first) ← __request_resource s parent new;
      match first with
      | None => Some (inl (s', None))
      | Some first =>
          if first =? parent then Some (inl (s', Some first))
          else
            f ← s' !! first;
            n ← s' !! new;
            if (r_start n <? r_start f) || (r_end f <? r_end n) then Some (inr (parent, first))
            else if (r_start f =? r_start n) && (r_end f =? r_end n) then Some (inr (parent, first))
            else insert_descend fuel s' first new
      end
  end.

Definition __insert_resource (s : store) (parent new : Z) : option (store * option Z) :=
  d ← insert_descend (S (size s)) s parent new;
  match d with
  | inl res => Some res
  | inr (parent, first) =>
      n ← s !! new;
      pr ← s !! parent;
      '(before, rest) ← split_at first (r_children pr);
      res ← covered s (r_start n) (r_end n) rest;
      match res with
      | inr next => Some (s, Some next)
      | inl (run, after) =>
          s ← update s new (fun r => set_children run (set_parent (Some parent) r));
          s ← adopt s new run;
          s ← update s parent (set_children (before ++ new :: after));
          Some (s, None)
      end
  end.

Definition insert_resource (s : store) (parent new : Z) : option (store * Z) :=
  '(s, conflict) ← __insert_resource s parent new;
  Some (s, match conflict with Some _ => - EBUSY | None => 0 end).

Fixpoint expand_loop (fuel : nat) (s : store) (root new : Z) : option store :=
  match fuel with
  | O => None
  | S fuel =>
      '(s, conflict) ← __insert_resource s root new;
      match conflict with
      | None => Some s
      | Some c =>
          if c =? root then Some s
          else
            cr ← s !! c;
            n ← s !! new;
            let b := if r_start cr <? r_start n then r_start cr else r_start n in
            let e := if r_end n <? r_end cr then r_end cr else r_end n in
            s ← update s new (set_range b e);
            expand_loop fuel s root new
      end
  end.

Definition insert_resource_expand_to_fit (s : store) (root new : Z) : option store :=
  n ← s !! new;
  match r_parent n with
  | Some _ => Some s
  | None => expand_loop (S (size s)) s root new
  end.

(** ** The invariant *)

Definition child (s : store) (c p : Z) : Prop := exists r, s !! p = Some r /\ c ∈ r_children r.

(** [a] lies before [b]. *)
Definition before (s : store) (a b : Z) : Prop := exists ra rb, s !! a = Some ra /\ s !! b = Some rb /\ r_end ra < r_start rb.

Definition inside (s : store) (p : resource) (c : Z) : Prop :=
  exists r, s !! c = Some r /\ r_start p <= r_start r /\ r_start r <= r_end r /\ r_end r <= r_end p.

Record wf (s : store) : Prop := {
  wf_range : forall a r, s !! a = Some r -> is_u32 (r_start r) /\ is_u32 (r_end r);
  wf_inside : forall p r c, s !! p = Some r -> c ∈ r_children r -> inside s r c;
  wf_parent : forall c rc p, s !! c = Some rc -> (r_parent rc = Some p <-> child s c p);
  wf_sorted : forall p r, s !! p = Some r -> StronglySorted (before s) (r_children r);
  wf_acyclic : forall a, Acc (child s) a }.

(** The part of the invariant that is about one resource and the list of its children *)
Lemma child_lookup s c p : wf s -> child s c p -> exists r rc, s !! p = Some r /\ c ∈ r_children r /\ s !! c = Some rc /\ r_parent rc = Some p /\ r_start r <= r_start rc /\ r_start rc <= r_end rc /\ r_end rc <= r_end r.
Proof.
  intros H (r & Hp & Hc). destruct (wf_inside s H p r c Hp Hc) as (rc & E & ?). exists r, rc. split_and!; try tauto; try lia. apply (wf_parent s H c rc p E). by exists r.
Qed.

Lemma child_unique s c p q : wf s -> child s c p -> child s c q -> p = q.
Proof.
  intros H Hp Hq. destruct (child_lookup s c p H Hp) as (r & rc & _ & _ & E & E1 & _). destruct (child_lookup s c q H Hq) as (r' & rc' & _ & _ & E' & E2 & _). congruence.
Qed.

Lemma before_irrefl s p r c : wf s -> s !! p = Some r -> c ∈ r_children r -> ~ before s c c.
Proof. intros H Hp Hc (ra & rb & E1 & E2 & Hlt). destruct (wf_inside s H p r c Hp Hc) as (rc & E & ?). assert (ra = rc) by congruence. assert (rb = rc) by congruence. subst. lia. Qed.

Lemma children_nodup s p r : wf s -> s !! p = Some r -> NoDup (r_children r).
Proof.
  intros H Hp. pose proof (wf_sorted s H p r Hp) as Hs. assert (Hi : forall c, c ∈ r_children r -> ~ before s c c) by (intros c; by eapply before_irrefl).
  induction Hs as [|c l Hs IH Hf]; [constructor|]. apply NoDup_cons. split; [|apply IH; set_solver]. intros Hc. rewrite Forall_forall in Hf. apply (Hi c); [set_solver|auto].
Qed.

Lemma child_irrefl s a : wf s -> ~ child s a a.
Proof. intros H Hc. pose proof (wf_acyclic s H a) as Ha. induction Ha as [a _ IH]. exact (IH a Hc Hc). Qed.

(** ** The walk over the children *)

Definition overlaps (r : resource) (b e : Z) : Prop := r_start r <= e /\ b <= r_end r.

Definition all_in (s : store) (l : list Z) : Prop := forall c, c ∈ l -> is_Some (s !! c).

Lemma place_spec s b e new l : all_in s l -> StronglySorted (before s) l -> (forall c r, c ∈ l -> s !! c = Some r -> r_start r <= r_end r) -> b <= e ->
  (exists l1 l2, place s b e new l = Some (inl (l1 ++ new :: l2)) /\ l = l1 ++ l2 /\
     (forall c r, c ∈ l1 -> s !! c = Some r -> r_end r < b) /\ (forall c r, c ∈ l2 -> s !! c = Some r -> e < r_start r)) \/
  (exists l1 c l2 r, place s b e new l = Some (inr c) /\ l = l1 ++ c :: l2 /\ s !! c = Some r /\ overlaps r b e /\
     (forall d r, d ∈ l1 -> s !! d = Some r -> r_end r < b)).
Proof.
  intros Ha Hs Hr Hbe. induction Hs as [|x l Hs IH Hf]; [left; exists [], []; split_and!; try done; intros; set_solver|]. destruct (Ha x ltac:(set_solver)) as [xr Ex]. cbn [place]. rewrite Ex. cbn [mbind option_bind].
  assert (Hx : r_start xr <= r_end xr) by (apply (Hr x); [set_solver|done]). rewrite Forall_forall in Hf. destruct (Z.ltb_spec e (r_start xr)) as [H1|H1].
  - left. exists [], (x :: l). split_and!; try done; [intros; set_solver|]. intros c r [->|Hc]%elem_of_cons E; [assert (r = xr) by congruence; by subst|].
    destruct (Hf c Hc) as (ra & rb & Ea & Eb & Hlt). assert (ra = xr) by congruence. assert (rb = r) by congruence. subst. lia.
  - destruct (Z.ltb_spec (r_end xr) b) as [H2|H2].
    + destruct IH as [(l1 & l2 & -> & -> & H3 & H4)|(l1 & c & l2 & r & -> & -> & H3 & H4 & H5)]; [intros d Hd; apply Ha; set_solver|intros d r Hd; apply Hr; set_solver| |].
      * left. exists (x :: l1), l2. split_and!; try done. intros d r [->|Hd]%elem_of_cons E; [assert (r = xr) by congruence; by subst|by eapply H3].
      * right. exists (x :: l1), c, l2, r. split_and!; try done. intros d r' [->|Hd]%elem_of_cons E; [assert (r' = xr) by congruence; by subst|by eapply H5].
    + right. exists [], x, l, xr. split_and!; try done. intros; set_solver.
Qed.

Lemma children_all_in s p r : wf s -> s !! p = Some r -> all_in s (r_children r).
Proof. intros H Hp c Hc. destruct (wf_inside s H p r c Hp Hc) as (rc & E & _). by exists rc. Qed.

Lemma children_range s p r : wf s -> s !! p = Some r -> forall c rc, c ∈ r_children r -> s !! c = Some rc -> r_start rc <= r_end rc.
Proof. intros H Hp c rc Hc E. destruct (wf_inside s H p r c Hp Hc) as (rc' & E' & ?). assert (rc = rc') by congruence. subst. lia. Qed.

(** ** Linking a resource *)

(** [new] is no child of any resource, and [root] is none below it. *)
Definition detached (s : store) (root new : Z) (nr : resource) : Prop := s !! new = Some nr /\ r_parent nr = None /\ ~ rtc (child s) root new /\ forall c, c ∈ r_children nr -> inside s nr c.

Definition link (s : store) (root : Z) (rr : resource) (new : Z) (nr : resource) (l : list Z) : store :=
  <[new := set_parent (Some root) nr]> (<[root := set_children l rr]> s).

Lemma acc_add (R R' : Z -> Z -> Prop) new root :
  (forall a, Acc R a) -> (forall c p, R' c p -> R c p \/ (c = new /\ p = root)) -> ~ rtc R root new -> forall a, Acc R' a.
Proof.
  intros HR HR' Hn. assert (Hbelow : forall x, rtc R x new -> Acc R' x).
  { intros x. induction (HR x) as [x _ IH]. intros Hx. constructor. intros y Hy. destruct (HR' y x Hy) as [H|[-> ->]]; [|by destruct Hn]. apply IH; [done|]. by eapply rtc_l. }
  intros a. induction (HR a) as [a _ IH]. constructor. intros y Hy. destruct (HR' y a Hy) as [H|[-> ->]]; [by apply IH|]. apply Hbelow. done.
Qed.

(** What [before] and [inside] depend on *)
Definition rng (s : store) (a : Z) : option (Z * Z) := (fun r => (r_start r, r_end r)) <$> s !! a.

Lemma rng_Some s a r : s !! a = Some r -> rng s a = Some (r_start r, r_end r).
Proof. unfold rng. by intros ->. Qed.

Lemma rng_lookup s a b e : rng s a = Some (b, e) -> exists r, s !! a = Some r /\ r_start r = b /\ r_end r = e.
Proof. unfold rng. destruct (s !! a) as [r|]; [|done]. intros H. injection H as <- <-. by exists r. Qed.

Lemma before_rng s s' a b : rng s' a = rng s a -> rng s' b = rng s b -> before s a b -> before s' a b.
Proof.
  intros Ha Hb (ra & rb & Ea & Eb & Hlt). rewrite (rng_Some s a ra Ea) in Ha. rewrite (rng_Some s b rb Eb) in Hb. apply rng_lookup in Ha as (ra' & Ea' & H1 & H2). apply rng_lookup in Hb as (rb' & Eb' & H3 & H4).
  exists ra', rb'. split_and!; try done. lia.
Qed.

Lemma inside_rng s s' p p' c : rng s' c = rng s c -> r_start p' = r_start p -> r_end p' = r_end p -> inside s p c -> inside s' p' c.
Proof.
  intros Hc Hs He (r & E & H). rewrite (rng_Some s c r E) in Hc. apply rng_lookup in Hc as (r' & E' & H1 & H2). exists r'. split; [done|]. lia.
Qed.

Lemma sorted_rng s s' l : (forall c, c ∈ l -> rng s' c = rng s c) -> StronglySorted (before s) l -> StronglySorted (before s') l.
Proof.
  intros H Hs. induction Hs as [|c l Hs IH Hf]; constructor; [apply IH; set_solver|]. rewrite Forall_forall in *. intros d Hd. eapply before_rng; [apply H; set_solver|apply H; set_solver|auto].
Qed.

Lemma sorted_between s l1 x l2 : StronglySorted (before s) (l1 ++ l2) -> (forall c, c ∈ l1 -> before s c x) -> (forall c, c ∈ l2 -> before s x c) -> StronglySorted (before s) (l1 ++ x :: l2).
Proof.
  intros Hs H1 H2. induction l1 as [|c l1 IH]; cbn [app] in *; [constructor; [done|by apply Forall_forall]|]. apply StronglySorted_inv in Hs as [Hs Hf]. constructor; [apply IH; [done|]; intros; apply H1; set_solver|].
  rewrite Forall_app in *. destruct Hf. split; [done|]. constructor; [apply H1; set_solver|done].
Qed.

Section link.
Context (s : store) (root new : Z) (rr nr : resource) (l1 l2 : list Z).
Hypotheses (Hwf : wf s) (Hr : s !! root = Some rr) (Hd : detached s root new nr) (Hl : r_children rr = l1 ++ l2).
Hypotheses (Hb : r_start rr <= r_start nr) (Hm : r_start nr <= r_end nr) (He : r_end nr <= r_end rr).
Hypotheses (H1 : forall c r, c ∈ l1 -> s !! c = Some r -> r_end r < r_start nr) (H2 : forall c r, c ∈ l2 -> s !! c = Some r -> r_end nr < r_start r).

Local Abbreviation s' := (link s root rr new nr (l1 ++ new :: l2)).

Lemma link_ne : root <> new.
Proof using Hd. intros E. destruct Hd as (_ & _ & Hn & _). apply Hn. rewrite E. apply rtc_refl. Qed.

Lemma link_lookup a : s' !! a = if decide (a = new) then Some (set_parent (Some root) nr) else if decide (a = root) then Some (set_children (l1 ++ new :: l2) rr) else s !! a.
Proof using Type. unfold link. destruct (decide (a = new)) as [->|]; [by rewrite lookup_insert_eq|]. rewrite lookup_insert_ne by done. destruct (decide (a = root)) as [->|]; [by rewrite lookup_insert_eq|]. by rewrite lookup_insert_ne. Qed.

Lemma link_rng a : rng s' a = rng s a.
Proof using Hr Hd. unfold rng. rewrite link_lookup. destruct (decide (a = new)) as [->|]; [destruct Hd as (-> & _); done|]. destruct (decide (a = root)) as [->|]; [by rewrite Hr|done]. Qed.

Lemma link_child c p : child s' c p <-> child s c p \/ (c = new /\ p = root).
Proof using All.
  pose proof link_ne as Hne. unfold child. rewrite link_lookup. destruct (decide (p = new)) as [->|Hp].
  - destruct Hd as (E & _). split; [intros (r & H & Hc); injection H as <-; left; by exists nr|]. intros [(r & H & Hc)|[_ H]]; [|done]. exists (set_parent (Some root) nr). split; [done|]. by assert (r = nr) as -> by congruence.
  - destruct (decide (p = root)) as [->|Hp'].
    + split; [intros (r & H & Hc); injection H as <-; cbn [set_children r_children] in Hc; rewrite elem_of_app, elem_of_cons in Hc; destruct Hc as [Hc|[->|Hc]]; [left|by right|left]; exists rr; (split; [done|]); rewrite Hl; set_solver|].
      intros [(r & H & Hc)|[-> _]]; eexists; (split; [done|]); cbn [set_children r_children]; [|set_solver]. assert (r = rr) by congruence. subst r. rewrite Hl in Hc. set_solver.
    + split; [by left|]. intros [H|[_ H]]; [done|done].
Qed.

Lemma wf_link : wf s'.
Proof using All.
  destruct Hd as (En & Hpn & Hrt & Hin). pose proof link_ne as Hne. split.
  - intros a r. rewrite link_lookup. destruct (decide (a = new)) as [->|]; [intros H; injection H as <-; exact (wf_range s Hwf new nr En)|]. destruct (decide (a = root)) as [->|]; [intros H; injection H as <-; exact (wf_range s Hwf root rr Hr)|]. apply (wf_range s Hwf).
  - intros p r c. rewrite link_lookup. destruct (decide (p = new)) as [->|]; [intros H Hc; injection H as <-; by eapply inside_rng; [apply link_rng| | |by apply Hin]|]. destruct (decide (p = root)) as [->|].
    + intros H Hc. injection H as <-. cbn [set_children r_children] in Hc. rewrite elem_of_app, elem_of_cons in Hc. assert (c = new \/ c ∈ r_children rr) as [->|Hc'] by (rewrite Hl; set_solver).
      * exists (set_parent (Some root) nr). rewrite link_lookup, decide_True by done. split; [done|]. simpl. lia.
      * eapply inside_rng; [apply link_rng| | |by apply (wf_inside s Hwf root)]; done.
    + intros H Hc. eapply inside_rng; [apply link_rng|done|done|by apply (wf_inside s Hwf p)].
  - intros c rc p. rewrite link_child, link_lookup. destruct (decide (c = new)) as [->|Hcn].
    + intros H. injection H as <-. simpl. split; [intros H; injection H as <-; by right|]. intros [H|[_ ->]]; [|done]. apply (wf_parent s Hwf new nr p En) in H. congruence.
    + destruct (decide (c = root)) as [->|Hcr].
      * intros H. injection H as <-. simpl. rewrite (wf_parent s Hwf root rr p Hr). split; [by left|]. by intros [?|[? _]].
      * intros H. rewrite (wf_parent s Hwf c rc p H). split; [by left|]. by intros [?|[? _]].
  - intros p r. rewrite link_lookup. destruct (decide (p = new)) as [->|]; [intros H; injection H as <-; simpl; eapply sorted_rng; [intros; apply link_rng|by apply (wf_sorted s Hwf new)]|]. destruct (decide (p = root)) as [->|].
    + intros H. injection H as <-. cbn [set_children r_children]. apply sorted_between.
      * rewrite <- Hl. eapply sorted_rng; [intros; apply link_rng|by apply (wf_sorted s Hwf root)].
      * intros c Hc. destruct (children_all_in s root rr Hwf Hr c) as [cr Ec]; [rewrite Hl; set_solver|]. eapply before_rng; [apply link_rng|apply link_rng|]. exists cr, nr. split_and!; try done. by eapply H1.
      * intros c Hc. destruct (children_all_in s root rr Hwf Hr c) as [cr Ec]; [rewrite Hl; set_solver|]. eapply before_rng; [apply link_rng|apply link_rng|]. exists nr, cr. split_and!; try done. by eapply H2.
    + intros H. eapply sorted_rng; [intros; apply link_rng|by apply (wf_sorted s Hwf p)].
  - apply (acc_add (child s) (child s') new root); [apply (wf_acyclic s Hwf)| |done]. intros c p. apply link_child.
Qed.

End link.

(** ** Request *)

Definition fits (rr nr : resource) : Prop := r_start rr <= r_start nr /\ r_start nr <= r_end nr /\ r_end nr <= r_end rr.

Lemma request_cases s root new rr nr : wf s -> s !! root = Some rr -> s !! new = Some nr -> root <> new ->
  (__request_resource s root new = Some (s, Some root) /\ ~ fits rr nr) \/
  (exists l1 c l2 cr, __request_resource s root new = Some (s, Some c) /\ fits rr nr /\ r_children rr = l1 ++ c :: l2 /\ s !! c = Some cr /\ overlaps cr (r_start nr) (r_end nr) /\
     (forall d r, d ∈ l1 -> s !! d = Some r -> r_end r < r_start nr)) \/
  (exists l1 l2, __request_resource s root new = Some (link s root rr new nr (l1 ++ new :: l2), None) /\ fits rr nr /\ r_children rr = l1 ++ l2 /\
     (forall c r, c ∈ l1 -> s !! c = Some r -> r_end r < r_start nr) /\ (forall c r, c ∈ l2 -> s !! c = Some r -> r_end nr < r_start r)).
Proof.
  intros Hwf Hr Hn Hne. unfold __request_resource, fits. rewrite Hr, Hn. cbn [mbind option_bind]. destruct (Z.ltb_spec (r_end nr) (r_start nr)) as [|Ha]; [left; split; [done|lia]|]. destruct (Z.ltb_spec (r_start nr) (r_start rr)) as [|Hb]; [left; split; [done|lia]|].
  destruct (Z.ltb_spec (r_end rr) (r_end nr)) as [|Hc]; [left; split; [done|lia]|]. right.
  destruct (place_spec s (r_start nr) (r_end nr) new (r_children rr)) as [(l1 & l2 & -> & El & H1 & H2)|(l1 & c & l2 & cr & -> & El & Ec & Ho & H1)];
    [by eapply children_all_in|by eapply wf_sorted|by eapply children_range|done| |]; cbn [mbind option_bind].
  - right. exists l1, l2. split_and!; try done. unfold update. rewrite Hr. cbn [mbind option_bind]. rewrite lookup_insert_ne, Hn by done. done.
  - left. exists l1, c, l2, cr. split_and!; done.
Qed.

(** Nothing is in the way. *)
Definition free (s : store) (rr nr : resource) : Prop := fits rr nr /\ forall c r, c ∈ r_children rr -> s !! c = Some r -> ~ overlaps r (r_start nr) (r_end nr).

Lemma request_free s root new rr nr : wf s -> s !! root = Some rr -> s !! new = Some nr -> root <> new -> free s rr nr ->
  exists l1 l2, __request_resource s root new = Some (link s root rr new nr (l1 ++ new :: l2), None) /\ r_children rr = l1 ++ l2 /\
     (forall c r, c ∈ l1 -> s !! c = Some r -> r_end r < r_start nr) /\ (forall c r, c ∈ l2 -> s !! c = Some r -> r_end nr < r_start r).
Proof.
  intros Hwf Hr Hn Hne [Hf Ho]. destruct (request_cases s root new rr nr Hwf Hr Hn Hne) as [[_ H]|[(l1 & c & l2 & cr & _ & _ & El & Ec & Hc & _)|(l1 & l2 & E & _ & El & H1 & H2)]]; [done| |by exists l1, l2].
  exfalso. apply (Ho c cr); [rewrite El; set_solver|done|done].
Qed.

Lemma request_busy s root new rr nr : wf s -> s !! root = Some rr -> s !! new = Some nr -> root <> new -> ~ free s rr nr ->
  exists c, __request_resource s root new = Some (s, Some c) /\ (c = root /\ ~ fits rr nr \/ fits rr nr /\ c ∈ r_children rr /\ exists cr, s !! c = Some cr /\ overlaps cr (r_start nr) (r_end nr)).
Proof.
  intros Hwf Hr Hn Hne Hf. destruct (request_cases s root new rr nr Hwf Hr Hn Hne) as [[E H]|[(l1 & c & l2 & cr & E & Hft & El & Ec & Hc & _)|(l1 & l2 & E & Hft & El & H1 & H2)]].
  - exists root. split; [done|]. by left.
  - exists c. split; [done|]. right. split; [done|]. split; [rewrite El; set_solver|by exists cr].
  - destruct Hf. split; [done|]. intros c r Hc Er [Ho1 Ho2]. rewrite El, elem_of_app in Hc. destruct Hc as [Hc|Hc]; [pose proof (H1 c r Hc Er)|pose proof (H2 c r Hc Er)]; lia.
Qed.

(** ** Release *)

Lemma unlink_spec old l1 l2 : old ∉ l1 -> unlink old (l1 ++ old :: l2) = Some (l1 ++ l2).
Proof.
  induction l1 as [|c l1 IH]; intros H; cbn [app unlink]; [by rewrite Z.eqb_refl|]. destruct (Z.eqb_spec c old) as [->|]; [set_solver|]. rewrite IH by set_solver. done.
Qed.

Definition unlinked (s : store) (p old : Z) (pr o : resource) (l : list Z) : store := <[old := set_parent None o]> (<[p := set_children l pr]> s).

Section unlink.
Context (s : store) (p old : Z) (pr o : resource) (l1 l2 : list Z).
Hypotheses (Hwf : wf s) (Hp : s !! p = Some pr) (Ho : s !! old = Some o) (Hop : r_parent o = Some p) (Hl : r_children pr = l1 ++ old :: l2).

Local Abbreviation s' := (unlinked s p old pr o (l1 ++ l2)).

Lemma unlink_ne : p <> old.
Proof using All. intros ->. apply (child_irrefl s old Hwf). exists pr. split; [done|]. rewrite Hl. set_solver. Qed.

Lemma unlink_notin : old ∉ l1 ++ l2.
Proof using All. pose proof (children_nodup s p pr Hwf Hp) as Hn. rewrite Hl, <- Permutation_middle in Hn. by apply NoDup_cons in Hn as [? _]. Qed.

Lemma unlinked_lookup a : s' !! a = if decide (a = old) then Some (set_parent None o) else if decide (a = p) then Some (set_children (l1 ++ l2) pr) else s !! a.
Proof using Type. unfold unlinked. destruct (decide (a = old)) as [->|]; [by rewrite lookup_insert_eq|]. rewrite lookup_insert_ne by done. destruct (decide (a = p)) as [->|]; [by rewrite lookup_insert_eq|]. by rewrite lookup_insert_ne. Qed.

Lemma unlinked_rng a : rng s' a = rng s a.
Proof using Hp Ho. unfold rng. rewrite unlinked_lookup. destruct (decide (a = old)) as [->|]; [by rewrite Ho|]. destruct (decide (a = p)) as [->|]; [by rewrite Hp|done]. Qed.

Lemma unlinked_child c q : child s' c q <-> child s c q /\ c <> old.
Proof using All.
  pose proof unlink_notin as Hni. pose proof unlink_ne as Hne. assert (Hchild : forall q, child s old q -> q = p) by (intros q' H; apply (wf_parent s Hwf old o q' Ho) in H; congruence).
  unfold child at 1. rewrite unlinked_lookup. destruct (decide (q = old)) as [->|Hq].
  - split; [intros (r & H & Hc); injection H as <-; split; [by exists o|]; intros ->; apply (child_irrefl s old Hwf); by exists o|]. intros [(r & H & Hc) _]. exists (set_parent None o). split; [done|]. by assert (r = o) as -> by congruence.
  - destruct (decide (q = p)) as [->|Hq'].
    + split; [intros (r & H & Hc); injection H as <-; cbn [set_children r_children] in Hc; split; [exists pr; split; [done|]; rewrite Hl; set_solver|set_solver]|]. intros [(r & H & Hc) Hco]. eexists; split; [done|]. cbn [set_children r_children]. assert (r = pr) by congruence. subst r. rewrite Hl in Hc. set_solver.
    + split; [|intros [H _]; done]. intros H. split; [done|]. intros ->. apply Hq'. by apply Hchild.
Qed.

Lemma wf_unlinked : wf s'.
Proof using All.
  pose proof unlink_ne as Hne. split.
  - intros a r. rewrite unlinked_lookup. destruct (decide (a = old)) as [->|]; [intros H; injection H as <-; exact (wf_range s Hwf old o Ho)|]. destruct (decide (a = p)) as [->|]; [intros H; injection H as <-; exact (wf_range s Hwf p pr Hp)|]. apply (wf_range s Hwf).
  - intros q r c Hq Hc. assert (Hch : child s' c q) by (by exists r). apply unlinked_child in Hch as [(rq & Eq & Hcq) _]. pose proof (rng_Some _ _ _ Hq) as E1. rewrite unlinked_rng, (rng_Some s q rq Eq) in E1. injection E1 as E1 E2.
    eapply inside_rng; [apply unlinked_rng| | |by apply (wf_inside s Hwf q rq)]; done.
  - intros c rc q Hc. rewrite unlinked_child. rewrite unlinked_lookup in Hc. destruct (decide (c = old)) as [->|Hco]; [injection Hc as <-; simpl; split; [done|tauto]|]. destruct (decide (c = p)) as [->|].
    + injection Hc as <-. simpl. rewrite (wf_parent s Hwf p pr q Hp). tauto.
    + rewrite (wf_parent s Hwf c rc q Hc). tauto.
  - intros q r. rewrite unlinked_lookup. destruct (decide (q = old)) as [->|]; [intros H; injection H as <-; eapply sorted_rng; [intros; apply unlinked_rng|exact (wf_sorted s Hwf old o Ho)]|]. destruct (decide (q = p)) as [->|].
    + intros H. injection H as <-. cbn [set_children r_children]. eapply sorted_rng; [intros; apply unlinked_rng|]. pose proof (wf_sorted s Hwf p pr Hp) as Hs. rewrite Hl in Hs. clear - Hs. induction l1 as [|c l IH]; cbn [app] in *; apply StronglySorted_inv in Hs as [Hs Hf]; [done|].
      constructor; [by apply IH|]. rewrite Forall_app in *. destruct Hf as [? Hf]. split; [done|]. by apply Forall_cons in Hf as [_ ?].
    + intros H. eapply sorted_rng; [intros; apply unlinked_rng|by apply (wf_sorted s Hwf q)].
  - intros a. induction (wf_acyclic s Hwf a) as [a _ IH]. constructor. intros c Hc. apply unlinked_child in Hc as [Hc _]. by apply IH.
Qed.

Lemma release_spec : __release_resource s old = Some (s', 0).
Proof using All.
  pose proof unlink_ne as Hne. pose proof unlink_notin as Hni. unfold __release_resource. rewrite Ho. cbn [mbind option_bind]. rewrite Hop. cbn [mbind option_bind]. rewrite Hp. cbn [mbind option_bind]. rewrite Hl, unlink_spec by set_solver.
  unfold update. rewrite Hp. cbn [mbind option_bind]. rewrite lookup_insert_ne, Ho by done. done.
Qed.

End unlink.

Lemma set_parent_None r : r_parent r = None -> set_parent None r = r.
Proof. destruct r; simpl. by intros ->. Qed.

Lemma set_children_same r : set_children (r_children r) r = r.
Proof. by destruct r. Qed.

(** ** Paths down the tree *)

Lemma tc_last (R : Z -> Z -> Prop) x y : tc R x y -> exists z, rtc R x z /\ R z y.
Proof. induction 1 as [x y H|x y z H _ (w & Hw & Hz)]; [exists x; split; [apply rtc_refl|done]|]. exists w. split; [by eapply rtc_l|done]. Qed.

Lemma tc_first (R : Z -> Z -> Prop) x y : tc R x y -> exists z, R x z.
Proof. intros H. destruct H; eauto. Qed.

Lemma tc_irrefl s a : wf s -> ~ tc (child s) a a.
Proof.
  intros Hwf. induction (wf_acyclic s Hwf a) as [a _ IH]. intros H. apply tc_last in H as (z & Hz & Hc). apply (IH z Hc). eapply tc_rtc_r; [by apply tc_once|done].
Qed.

(** [vis] are resources above [q]. *)
Definition above (s : store) (q : Z) (vis : list Z) : Prop := NoDup vis /\ forall v, v ∈ vis -> is_Some (s !! v) /\ tc (child s) q v.

Lemma above_nil s q : above s q [].
Proof. split; [constructor|]. intros v Hv. set_solver. Qed.

Lemma above_step s q vis c : wf s -> above s q vis -> child s c q -> above s c (q :: vis).
Proof.
  intros Hwf [Hn Hv] Hc. split.
  - apply NoDup_cons. split; [|done]. intros Hq. by apply (tc_irrefl s q Hwf), Hv.
  - intros v [->|H]%elem_of_cons; [split; [destruct Hc as (r & E & _); by exists r|by apply tc_once]|]. destruct (Hv v H) as [? ?]. split; [done|]. by eapply tc_l.
Qed.

Lemma nodup_size (s : store) l : NoDup l -> (forall v, v ∈ l -> is_Some (s !! v)) -> (length l <= size s)%nat.
Proof.
  intros Hn Hv. rewrite <- (size_list_to_set (C := gset Z)) by done. rewrite <- size_dom. apply subseteq_size. intros v. rewrite elem_of_list_to_set, elem_of_dom. apply Hv.
Qed.

Lemma above_size s q vis : wf s -> above s q vis -> is_Some (s !! q) -> (S (length vis) <= size s)%nat.
Proof.
  intros Hwf [Hn Hv] Hq. apply (nodup_size s (q :: vis)).
  - apply NoDup_cons. split; [|done]. intros H. by apply (tc_irrefl s q Hwf), Hv.
  - intros v [->|H]%elem_of_cons; [done|by apply Hv].
Qed.

(** ** Insertion *)

(** A descriptor that is in no tree *)
Definition unused (s : store) (new : Z) (nr : resource) : Prop := s !! new = Some nr /\ r_parent nr = None /\ r_children nr = [].

Lemma unused_detached s root new nr : unused s new nr -> root <> new -> detached s root new nr.
Proof.
  intros (E & Hp & Hc) Hne. split; [done|]. split; [done|]. split; [|rewrite Hc; set_solver]. intros H. apply rtc_inv_r in H as [?|(z & _ & (r & Er & Hz))]; [done|]. assert (r = nr) by congruence. subst. rewrite Hc in Hz. set_solver.
Qed.

Lemma unused_no_child s new nr p : wf s -> unused s new nr -> ~ child s new p.
Proof. intros Hwf (E & Hp & _) Hc. apply (wf_parent s Hwf new nr p E) in Hc. congruence. Qed.

Definition same_range (a b : resource) : Prop := r_start a = r_start b /\ r_end a = r_end b.

(** Where the descent ends: at [q], where the request succeeds, fails because the range does
    not fit (only at the start), or meets a child that does not properly contain it *)
Definition descent (s : store) (parent new : Z) (nr : resource) (d : store * option Z + Z * Z) : Prop :=
  match d with
  | inl (s', None) => exists q qr l1 l2, rtc (child s) q parent /\ s !! q = Some qr /\ s' = link s q qr new nr (l1 ++ new :: l2) /\ fits qr nr /\ r_children qr = l1 ++ l2 /\
      (forall c r, c ∈ l1 -> s !! c = Some r -> r_end r < r_start nr) /\ (forall c r, c ∈ l2 -> s !! c = Some r -> r_end nr < r_start r)
  | inl (s', Some c) => s' = s /\ c = parent /\ exists pr, s !! parent = Some pr /\ ~ fits pr nr
  | inr (q, first) => exists qr fr l1 l2, rtc (child s) q parent /\ s !! q = Some qr /\ fits qr nr /\ r_children qr = l1 ++ first :: l2 /\ s !! first = Some fr /\ overlaps fr (r_start nr) (r_end nr) /\
      (forall d r, d ∈ l1 -> s !! d = Some r -> r_end r < r_start nr) /\ (~ fits fr nr \/ same_range fr nr)
  end.

Lemma descend_spec s new nr : wf s -> unused s new nr -> forall fuel vis parent, is_Some (s !! parent) -> parent <> new -> above s parent vis -> (size s < fuel + S (length vis))%nat ->
  (forall pr, vis <> [] -> s !! parent = Some pr -> fits pr nr) -> exists d, insert_descend fuel s parent new = Some d /\ descent s parent new nr d.
Proof.
  intros Hwf Hu. induction fuel as [|fuel IH]; intros vis parent [pr Ep] Hne Hab Hf Hfit; [pose proof (above_size s parent vis Hwf Hab ltac:(by exists pr)); lia|]. cbn [insert_descend]. pose proof Hu as (En & _).
  destruct (request_cases s parent new pr nr Hwf Ep En Hne) as [[-> H]|[(l1 & c & l2 & cr & -> & Hft & El & Ec & Ho & H1)|(l1 & l2 & -> & Hft & El & H1 & H2)]]; cbn [mbind option_bind].
  - rewrite Z.eqb_refl. eexists. split; [done|]. split; [done|]. split; [done|]. by exists pr.
  - assert (Hch : child s c parent) by (exists pr; split; [done|rewrite El; set_solver]). destruct (Z.eqb_spec c parent) as [->|Hcp]; [by apply child_irrefl in Hch|]. rewrite Ec, En. cbn [mbind option_bind].
    destruct ((r_start nr <? r_start cr) || (r_end cr <? r_end nr)) eqn:E1.
    { eexists. split; [done|]. exists pr, cr, l1, l2. split_and!; try done. left. intros (?&?&?). apply orb_true_iff in E1 as [E1|E1]; lia. }
    apply orb_false_iff in E1 as [E1 E1']. destruct ((r_start cr =? r_start nr) && (r_end cr =? r_end nr)) eqn:E2.
    { eexists. split; [done|]. exists pr, cr, l1, l2. split_and!; try done. right. apply andb_true_iff in E2 as [E2 E3]. split; lia. }
    assert (Hcn : c <> new) by (intros ->; by apply (unused_no_child s new nr parent Hwf Hu)). assert (Hfc : fits cr nr) by (destruct Hft as (?&?&?); split; lia).
    destruct (IH (parent :: vis) c) as (d & Ed & Hd); [by exists cr|done|by apply above_step|simpl; lia|intros pr' _ E'; by assert (pr' = cr) as -> by congruence|]. exists d. split; [done|]. destruct d as [[s' [c'|]]|[q first]].
    + destruct Hd as (_ & -> & pr' & Ep' & Hnf). exfalso. apply Hnf. by assert (pr' = cr) as -> by congruence.
    + destruct Hd as (q & qr & m1 & m2 & Hq & Hd). exists q, qr, m1, m2. split; [by eapply rtc_r|done].
    + destruct Hd as (qr & fr & m1 & m2 & Hq & Hd). exists qr, fr, m1, m2. split; [by eapply rtc_r|done].
  - eexists. split; [done|]. exists parent, pr, l1, l2. split_and!; done.
Qed.

Lemma split_at_spec first l1 l2 : first ∉ l1 -> split_at first (l1 ++ first :: l2) = Some (l1, first :: l2).
Proof. induction l1 as [|c l1 IH]; intros H; cbn [app split_at]; [by rewrite Z.eqb_refl|]. destruct (Z.eqb_spec c first) as [->|]; [set_solver|]. rewrite IH by set_solver. done. Qed.

(** The run of children that become children of the new resource *)
Lemma covered_spec s b e l : all_in s l -> StronglySorted (before s) l -> (forall c r, c ∈ l -> s !! c = Some r -> r_start r <= r_end r) -> l <> [] -> b <= e -> (forall f r, head l = Some f -> s !! f = Some r -> r_start r <= e) ->
  (exists run rest, covered s b e l = Some (inl (run, rest)) /\ l = run ++ rest /\ run <> [] /\
     (forall c r, c ∈ run -> s !! c = Some r -> b <= r_start r /\ r_end r <= e) /\ (forall c r, c ∈ rest -> s !! c = Some r -> e < r_start r)) \/
  (exists c r, covered s b e l = Some (inr c) /\ c ∈ l /\ s !! c = Some r /\ r_start r <= e /\ (r_start r < b \/ e < r_end r)).
Proof.
  intros Ha Hs Hr Hne Hbe Hh. induction Hs as [|x l Hs IH Hf]; [done|]. destruct (Ha x ltac:(set_solver)) as [xr Ex]. pose proof (Hh x xr eq_refl Ex) as Hx. cbn [covered]. rewrite Ex. cbn [mbind option_bind].
  destruct ((r_start xr <? b) || (e <? r_end xr)) eqn:E1; [right; exists x, xr; split_and!; try done; [set_solver|apply orb_true_iff in E1 as [?|?]; lia]|]. apply orb_false_iff in E1 as [E1 E2]. rewrite Forall_forall in Hf.
  destruct l as [|y l]; [left; exists [x], []; split_and!; try done; [intros c r Hc E; assert (c = x) as -> by set_solver; assert (r = xr) as -> by congruence; lia|set_solver]|].
  destruct (Ha y ltac:(set_solver)) as [yr Ey]. rewrite Ey. cbn [mbind option_bind]. destruct (Z.ltb_spec e (r_start yr)) as [Hlt|Hge].
  - left. exists [x], (y :: l). split_and!; try done; [intros c r Hc E; assert (c = x) as -> by set_solver; assert (r = xr) as -> by congruence; lia|]. intros c r [->|Hc]%elem_of_cons E; [by assert (r = yr) as -> by congruence|].
    apply StronglySorted_inv in Hs as [_ Hfy]. rewrite Forall_forall in Hfy. destruct (Hfy c Hc) as (ra & rb & Ea & Eb & ?). assert (ra = yr) by congruence. assert (rb = r) by congruence. subst. pose proof (Hr y yr ltac:(set_solver) Ey). lia.
  - destruct IH as [(run & rest & -> & El & Hrun & H1 & H2)|(c & r & -> & Hc & Ec & H1 & H2)].
    + intros c Hc. apply Ha. set_solver.
    + intros c r Hc. apply Hr. set_solver.
    + done.
    + intros f r Hf' Er. injection Hf' as <-. assert (r = yr) as -> by congruence. lia.
    + left. exists (x :: run), rest. cbn [mbind option_bind]. split_and!; try done; [by rewrite El|]. intros c r [->|Hc]%elem_of_cons E; [assert (r = xr) as -> by congruence; lia|by eapply H1].
    + right. exists c, r. split_and!; try done. set_solver.
Qed.

Lemma adopt_spec new l : forall s, all_in s l -> exists s', adopt s new l = Some s' /\ forall a, s' !! a = if decide (a ∈ l) then set_parent (Some new) <$> s !! a else s !! a.
Proof.
  induction l as [|c l IH]; intros s Ha; [by exists s|]. destruct (Ha c ltac:(set_solver)) as [r Ec]. cbn [adopt]. unfold update. rewrite Ec. cbn [mbind option_bind].
  destruct (IH (<[c := set_parent (Some new) r]> s)) as (s' & E & H); [intros d Hd; destruct (decide (d = c)) as [->|]; [rewrite lookup_insert_eq; done|rewrite lookup_insert_ne by done; apply Ha; set_solver]|].
  exists s'. split; [done|]. intros a. rewrite H. destruct (decide (a = c)) as [->|Hac].
  - rewrite lookup_insert_eq, (decide_True (P := c ∈ c :: l)) by set_solver. rewrite Ec. by destruct (decide (c ∈ l)).
  - rewrite lookup_insert_ne by done. destruct (decide (a ∈ l)); [by rewrite decide_True by set_solver|by rewrite decide_False by set_solver].
Qed.

(** The tree with [new] between [q] and a run of its children *)
Record inserted (s s' : store) (q new : Z) (qr nr : resource) (l1 run rest : list Z) : Prop := {
  in_q : s !! q = Some qr;
  in_new : unused s new nr;
  in_ne : q <> new;
  in_split : r_children qr = l1 ++ run ++ rest;
  in_fits : fits qr nr;
  in_l1 : forall c r, c ∈ l1 -> s !! c = Some r -> r_end r < r_start nr;
  in_run : forall c r, c ∈ run -> s !! c = Some r -> r_start nr <= r_start r /\ r_end r <= r_end nr;
  in_rest : forall c r, c ∈ rest -> s !! c = Some r -> r_end nr < r_start r;
  in_lookup : forall a, s' !! a = if decide (a = new) then Some (set_children run (set_parent (Some q) nr))
    else if decide (a = q) then Some (set_children (l1 ++ new :: rest) qr)
    else if decide (a ∈ run) then set_parent (Some new) <$> s !! a else s !! a }.

Section inserted.
Context (s s' : store) (q new : Z) (qr nr : resource) (l1 run rest : list Z).
Hypotheses (Hwf : wf s) (Hi : inserted s s' q new qr nr l1 run rest).

Lemma run_child c : c ∈ run -> child s c q.
Proof using Hwf Hi. intros Hc. exists qr. split; [apply Hi|]. rewrite (in_split _ _ _ _ _ _ _ _ _ Hi). set_solver. Qed.

Lemma inserted_rng a : rng s' a = rng s a.
Proof using Hwf Hi.
  unfold rng. rewrite (in_lookup _ _ _ _ _ _ _ _ _ Hi). destruct (decide (a = new)) as [->|]; [destruct (in_new _ _ _ _ _ _ _ _ _ Hi) as (-> & _); done|]. destruct (decide (a = q)) as [->|]; [by rewrite (in_q _ _ _ _ _ _ _ _ _ Hi)|].
  destruct (decide (a ∈ run)); [by destruct (s !! a)|done].
Qed.

Lemma inserted_children p r : s' !! p = Some r -> exists r0, s !! p = Some r0 /\ same_range r r0 /\
  r_children r = (if decide (p = new) then run else if decide (p = q) then l1 ++ new :: rest else r_children r0).
Proof using Hwf Hi.
  rewrite (in_lookup _ _ _ _ _ _ _ _ _ Hi). destruct (decide (p = new)) as [->|]; [intros H; injection H as <-; exists nr; split; [apply Hi|done]|]. destruct (decide (p = q)) as [->|]; [intros H; injection H as <-; exists qr; split; [apply Hi|done]|].
  destruct (decide (p ∈ run)); [destruct (s !! p) as [r0|]; [|done]; intros H; injection H as <-; by exists r0|]. intros H. by exists r.
Qed.

Lemma inserted_child c p : child s' c p <-> (p = new /\ c ∈ run) \/ (c = new /\ p = q) \/ (child s c p /\ c ∉ run).
Proof using Hwf Hi.
  pose proof (in_q _ _ _ _ _ _ _ _ _ Hi) as Eq. pose proof (in_new _ _ _ _ _ _ _ _ _ Hi) as Hu. pose proof (in_ne _ _ _ _ _ _ _ _ _ Hi) as Hne. pose proof (in_split _ _ _ _ _ _ _ _ _ Hi) as El. pose proof (children_nodup s q qr Hwf Eq) as Hnd. rewrite El in Hnd.
  assert (Hrun : forall c p, child s c p -> c ∈ run -> p = q) by (intros c' p' H Hc; by apply (child_unique s c' p' q Hwf H), run_child). unfold child at 1. split.
  - intros (r & Hp & Hc). destruct (inserted_children p r Hp) as (r0 & E0 & _ & Ec). rewrite Ec in Hc. destruct (decide (p = new)) as [->|]; [by left|]. destruct (decide (p = q)) as [->|Hpq].
    + rewrite elem_of_app, elem_of_cons in Hc. destruct (decide (c = new)) as [->|Hcn]; [by right; left|]. right. right. split; [exists qr; split; [done|]; rewrite El; set_solver|]. intros Hr.
      rewrite !NoDup_app in Hnd. destruct Hnd as (_ & Hd1 & _ & Hd2 & _). destruct Hc as [Hc|[->|Hc]]; [by apply (Hd1 c Hc), elem_of_app; left|done|by apply (Hd2 c)].
    + right. right. assert (Hch : child s c p) by (by exists r0). split; [done|]. intros Hr. apply Hpq. by apply (Hrun c).
  - assert (Hex : forall p, is_Some (s !! p) -> is_Some (s' !! p)).
    { intros x [r0 E]. pose proof (inserted_rng x) as Hr. rewrite (rng_Some _ _ _ E) in Hr. apply rng_lookup in Hr as (r & -> & _). done. }
    assert (Hin : is_Some (s !! p) -> c ∈ (if decide (p = new) then run else if decide (p = q) then l1 ++ new :: rest else match s !! p with Some r0 => r_children r0 | None => [] end) -> exists r, s' !! p = Some r /\ c ∈ r_children r).
    { intros [r0 E0] Hc. destruct (Hex p ltac:(by exists r0)) as [r Er]. exists r. split; [done|]. destruct (inserted_children p r Er) as (r1 & E1 & _ & ->). by rewrite E1 in Hc. }
    intros [[-> Hc]|[[-> ->]|[(r & Er & Hc) Hnr]]]; apply Hin.
    + destruct Hu as (-> & _). done.
    + by rewrite decide_True.
    + done.
    + rewrite decide_False, decide_True by done. set_solver.
    + by exists r.
    + rewrite Er. destruct (decide (p = new)) as [->|]; [exfalso; destruct Hu as (E & _ & Hn); assert (r = nr) by congruence; subst; rewrite Hn in Hc; set_solver|]. destruct (decide (p = q)) as [->|]; [|done]. assert (r = qr) by congruence. subst. rewrite El in Hc. set_solver.
Qed.

Lemma wf_inserted : wf s'.
Proof using Hwf Hi.
  pose proof (in_q _ _ _ _ _ _ _ _ _ Hi) as Eq. pose proof (in_new _ _ _ _ _ _ _ _ _ Hi) as Hu. pose proof Hu as (En & Hpn & Hcn). pose proof (in_ne _ _ _ _ _ _ _ _ _ Hi) as Hne. pose proof (in_split _ _ _ _ _ _ _ _ _ Hi) as El. pose proof (in_fits _ _ _ _ _ _ _ _ _ Hi) as (Hf1 & Hf2 & Hf3).
  pose proof (wf_sorted s Hwf q qr Eq) as Hs. rewrite El in Hs. assert (Hins : forall c, c ∈ l1 ++ run ++ rest -> inside s qr c) by (intros c Hc; apply (wf_inside s Hwf q qr c Eq); by rewrite El). split.
  - intros a r Hr. destruct (inserted_children a r Hr) as (r0 & E0 & [-> ->] & _). by apply (wf_range s Hwf a).
  - intros p r c Hp Hc. destruct (inserted_children p r Hp) as (r0 & E0 & [Hrs Hre] & Ec). rewrite Ec in Hc. destruct (decide (p = new)) as [->|].
    + assert (r0 = nr) by congruence. subst r0. destruct (Hins c ltac:(set_solver)) as (rc & Erc & ?). destruct (in_run _ _ _ _ _ _ _ _ _ Hi c rc Hc Erc). eapply (inside_rng s s' nr); [apply inserted_rng|done|done|]. exists rc. split; [done|lia].
    + destruct (decide (p = q)) as [->|].
      * assert (r0 = qr) by congruence. subst r0. eapply (inside_rng s s' qr); [apply inserted_rng|done|done|]. rewrite elem_of_app, elem_of_cons in Hc. destruct (decide (c = new)) as [->|]; [by exists nr|]. apply Hins. set_solver.
      * eapply (inside_rng s s' r0); [apply inserted_rng|done|done|by apply (wf_inside s Hwf p)].
  - intros c rc p Hc. rewrite inserted_child. assert (Hnot : new ∉ run) by (intros H; by apply (unused_no_child s new nr q Hwf Hu), run_child). rewrite (in_lookup _ _ _ _ _ _ _ _ _ Hi) in Hc. destruct (decide (c = new)) as [->|Hcn'].
    + injection Hc as <-. simpl. split; [intros H; injection H as <-; tauto|]. intros [[_ H]|[[_ ->]|[H _]]]; [done|done|]. by apply (unused_no_child s new nr p Hwf Hu) in H.
    + destruct (decide (c = q)) as [->|Hcq].
      * injection Hc as <-. simpl. rewrite (wf_parent s Hwf q qr p Eq). assert (q ∉ run) by (intros H; by apply (child_irrefl s q Hwf), run_child). tauto.
      * destruct (decide (c ∈ run)) as [Hr|Hr].
        -- destruct (s !! c) as [r0|] eqn:E0; [|done]. injection Hc as <-. simpl. split; [intros H; injection H as <-; tauto|]. intros [[-> _]|[[? _]|[_ ?]]]; done.
        -- rewrite (wf_parent s Hwf c rc p Hc). tauto.
  - intros p r Hp. destruct (inserted_children p r Hp) as (r0 & E0 & _ & ->). eapply sorted_rng; [intros; apply inserted_rng|]. destruct (decide (p = new)) as [->|].
    + clear - Hs. induction l1 as [|x l IH]; cbn [app] in Hs; [|apply StronglySorted_inv in Hs as [Hs _]; by apply IH]. induction run as [|x l IH]; [constructor|]. cbn [app] in Hs. apply StronglySorted_inv in Hs as [Hs Hf]. constructor; [by apply IH|]. by apply Forall_app in Hf as [? _].
    + destruct (decide (p = q)) as [->|]; [|by apply (wf_sorted s Hwf p)]. apply sorted_between.
      * clear - Hs. induction l1 as [|x l IH]; cbn [app] in *; [induction run as [|x l IH]; [done|]; cbn [app] in Hs; apply StronglySorted_inv in Hs as [Hs _]; by apply IH|]. apply StronglySorted_inv in Hs as [Hs Hf]. constructor; [by apply IH|]. rewrite !Forall_app in *. tauto.
      * intros c Hc. destruct (Hins c ltac:(set_solver)) as (rc & Erc & _). exists rc, nr. split_and!; try done. by eapply (in_l1 _ _ _ _ _ _ _ _ _ Hi).
      * intros c Hc. destruct (Hins c ltac:(set_solver)) as (rc & Erc & _). exists nr, rc. split_and!; try done. by eapply (in_rest _ _ _ _ _ _ _ _ _ Hi).
  - assert (Hold : forall a, a <> new -> Acc (child s') a).
    { intros a. induction (wf_acyclic s Hwf a) as [a _ IH]. intros Han. constructor. intros c Hc. apply inserted_child in Hc as [[-> _]|[[-> ->]|[Hc _]]]; [done| |apply IH; [done|]; intros ->; by apply (unused_no_child s new nr a Hwf Hu) in Hc].
      constructor. intros c Hc. apply inserted_child in Hc as [[_ Hc]|[[_ Hc]|[Hc _]]]; [apply IH; [by apply run_child|]; intros ->; by apply (unused_no_child s new nr q Hwf Hu), run_child|by subst|]. destruct Hc as (r & E & Hc). assert (r = nr) by congruence. subst. rewrite Hcn in Hc. set_solver. }
    intros a. destruct (decide (a = new)) as [->|]; [|by apply Hold]. constructor. intros c Hc. apply Hold. intros ->. apply inserted_child in Hc as [[_ Hc]|[[_ ?]|[Hc _]]]; [by apply (unused_no_child s new nr q Hwf Hu), run_child|congruence|by apply (unused_no_child s new nr new Hwf Hu) in Hc].
Qed.

End inserted.

(** They overlap and neither contains the other. *)
Definition partial_overlap (cr nr : resource) : Prop := overlaps cr (r_start nr) (r_end nr) /\ ~ fits cr nr /\ ~ fits nr cr.

Lemma link_inserted s q new qr nr l1 l2 : unused s new nr -> s !! q = Some qr -> q <> new -> fits qr nr -> r_children qr = l1 ++ l2 ->
  (forall c r, c ∈ l1 -> s !! c = Some r -> r_end r < r_start nr) -> (forall c r, c ∈ l2 -> s !! c = Some r -> r_end nr < r_start r) ->
  inserted s (link s q qr new nr (l1 ++ new :: l2)) q new qr nr l1 [] l2.
Proof.
  intros Hu Eq Hne Hf El H1 H2. split; try done; [intros; set_solver|]. intros a. rewrite link_lookup. destruct (decide (a = new)) as [->|]; [|destruct (decide (a = q)); [done|by rewrite decide_False by set_solver]].
  destruct Hu as (_ & _ & Hc). destruct nr. simpl in *. by subst.
Qed.

Lemma fits_child s c p q pr cr : wf s -> rtc (child s) q p -> child s c q -> s !! p = Some pr -> s !! c = Some cr -> r_start pr <= r_start cr /\ r_end cr <= r_end pr.
Proof.
  intros Hwf Hq Hc Ep Ec. revert c cr Hc Ec. induction Hq as [q|q x p Hqx Hxp IH]; intros c cr Hc Ec.
  - destruct (child_lookup s c q Hwf Hc) as (r & rc & E1 & _ & E2 & _ & ?). assert (r = pr) by congruence. assert (rc = cr) by congruence. subst. lia.
  - destruct (child_lookup s c q Hwf Hc) as (r & rc & E1 & _ & E2 & _ & ?). assert (rc = cr) by congruence. subst. destruct (IH Ep q r Hqx E1). lia.
Qed.

Lemma insert_spec s parent new pr nr : wf s -> unused s new nr -> s !! parent = Some pr -> parent <> new ->
  (exists s' q qr l1 run rest, __insert_resource s parent new = Some (s', None) /\ rtc (child s) q parent /\ inserted s s' q new qr nr l1 run rest) \/
  (__insert_resource s parent new = Some (s, Some parent) /\ ~ fits pr nr) \/
  (exists c cr q, __insert_resource s parent new = Some (s, Some c) /\ fits pr nr /\ rtc (child s) q parent /\ child s c q /\ s !! c = Some cr /\ partial_overlap cr nr).
Proof.
  intros Hwf Hu Ep Hne. unfold __insert_resource. destruct (descend_spec s new nr Hwf Hu (S (size s)) [] parent ltac:(by exists pr) Hne (above_nil s parent) ltac:(simpl; lia) ltac:(done)) as (d & -> & Hd). cbn [mbind option_bind].
  assert (Hqn : forall q, rtc (child s) q parent -> q <> new). { intros q Hq ->. apply rtc_inv in Hq as [?|(x & Hx & _)]; [congruence|]. by apply (unused_no_child s new nr x Hwf Hu). }
  destruct d as [[s' [c|]]|[q first]].
  - destruct Hd as (-> & -> & pr' & E & H). right. left. split; [done|]. by assert (pr' = pr) as <- by congruence.
  - destruct Hd as (q & qr & l1 & l2 & Hq & Eq & -> & Hf & El & H1 & H2). left. eexists _, q, qr, l1, [], l2. split; [done|]. split; [done|]. apply link_inserted; auto.
  - destruct Hd as (qr & fr & l1 & l2 & Hq & Eq & Hf & El & Ef & Ho & H1 & H2). pose proof Hu as (En & _). rewrite En, Eq. cbn [mbind option_bind]. pose proof (children_nodup s q qr Hwf Eq) as Hnd. rewrite El in Hnd.
    rewrite El, split_at_spec by (rewrite NoDup_app in Hnd; destruct Hnd as (_ & Hnd & _); intros H; apply (Hnd first H); set_solver). cbn [mbind option_bind].
    pose proof (wf_sorted s Hwf q qr Eq) as Hs. rewrite El in Hs. assert (Hs2 : StronglySorted (before s) (first :: l2)) by (clear - Hs; induction l1 as [|x l IH]; [done|]; cbn [app] in Hs; apply StronglySorted_inv in Hs as [Hs _]; auto).
    pose proof (children_all_in s q qr Hwf Eq) as Hall. rewrite El in Hall. pose proof (children_range s q qr Hwf Eq) as Hrg. rewrite El in Hrg. destruct Hf as (Hf1 & Hf2 & Hf3).
    destruct (covered_spec s (r_start nr) (r_end nr) (first :: l2)) as [(run & rest & -> & Er & Hrun & H3 & H4)|(c & cr & -> & Hc & Ec & H3 & H4)].
    + intros c Hc. apply Hall. set_solver.
    + done.
    + intros c r Hc. apply Hrg. set_solver.
    + done.
    + done.
    + intros f r Hh E. injection Hh as <-. assert (r = fr) by congruence. subst. apply Ho.
    + cbn [mbind option_bind]. left. unfold update. rewrite En. cbn [mbind option_bind]. pose proof (Hqn q Hq) as Hqn'. assert (Hrn : new ∉ run).
      { intros H. apply (unused_no_child s new nr q Hwf Hu). exists qr. split; [done|]. rewrite El, Er. set_solver. }
      assert (Hrq : q ∉ run). { intros H. apply (child_irrefl s q Hwf). exists qr. split; [done|]. rewrite El, Er. set_solver. }
      destruct (adopt_spec new run (<[new:=set_children run (set_parent (Some q) nr)]> s)) as (s2 & -> & Hs2'). { intros c Hc. rewrite lookup_insert_ne by set_solver. apply Hall. rewrite Er. set_solver. }
      cbn [mbind option_bind]. assert (Eq2 : s2 !! q = Some qr) by (rewrite Hs2', decide_False, lookup_insert_ne by done; done). rewrite Eq2. cbn [mbind option_bind]. eexists _, q, qr, l1, run, rest. split; [done|]. split; [done|]. split; try done.
      * by rewrite El, Er.
      * intros a. destruct (decide (a = new)) as [->|Han]; [rewrite lookup_insert_ne by done; rewrite Hs2', decide_False by done; by rewrite lookup_insert_eq|]. destruct (decide (a = q)) as [->|Haq]; [by rewrite lookup_insert_eq|].
        rewrite lookup_insert_ne by done. rewrite Hs2', lookup_insert_ne by done. done.
    + cbn [mbind option_bind]. right. right. assert (Hch : child s c q) by (exists qr; split; [done|]; rewrite El; set_solver). exists c, cr, q. split; [done|]. split.
      { destruct (fits_child s first parent q pr fr Hwf Hq ltac:(exists qr; split; [done|]; rewrite El; set_solver) Ep Ef). destruct (rtc_inv _ _ Hq) as [->|(x & Hx & Hxp)]; [assert (pr = qr) by congruence; by subst|].
        destruct (fits_child s q parent x pr qr Hwf Hxp Hx Ep Eq). split; lia. }
      split; [done|]. split; [done|]. split; [done|]. pose proof (Hrg c cr ltac:(set_solver) Ec) as Hcr. apply elem_of_cons in Hc as [->|Hc].
      * assert (cr = fr) by congruence. subst cr. split; [done|]. split; [|intros (?&?&?); lia]. destruct H2 as [?|[H2 H5]]; [done|]. intros _. lia.
      * apply StronglySorted_inv in Hs2 as [_ Hf2']. rewrite Forall_forall in Hf2'. destruct (Hf2' c Hc) as (ra & rb & Ea & Eb & ?). assert (ra = fr) by congruence. assert (rb = cr) by congruence. subst. destruct Ho as [Ho1 Ho2]. split; [split; lia|]. split; intros (?&?&?); lia.
Qed.

(** ** Changing a resource that is in no tree *)

Section loose.
Context (s : store) (new : Z) (r0 : option resource) (nr : resource).
Hypotheses (Hwf : wf s) (H0 : s !! new = r0) (Hr0 : match r0 with Some r => r_parent r = None /\ r_children r = [] | None => True end).
Hypotheses (Hu : is_u32 (r_start nr)) (Hu' : is_u32 (r_end nr)) (Hp : r_parent nr = None) (Hc : r_children nr = []).

Lemma loose_not_child p : ~ child s new p.
Proof using All. intros H. destruct (child_lookup s new p Hwf H) as (r & rc & _ & _ & E & E' & _). rewrite H0 in E. rewrite E in Hr0. destruct Hr0. congruence. Qed.

Lemma loose_child c p : child (<[new := nr]> s) c p <-> child s c p.
Proof using Hwf H0 Hr0 Hc.
  unfold child. destruct (decide (p = new)) as [->|]; [|by rewrite lookup_insert_ne]. rewrite lookup_insert_eq. split; [intros (r & E & H); injection E as <-; rewrite Hc in H; by apply elem_of_nil in H|].
  intros (r & E & H). rewrite H0 in E. rewrite E in Hr0. destruct Hr0 as [_ Hr1]. rewrite Hr1 in H. by apply elem_of_nil in H.
Qed.

Lemma loose_rng c : c <> new -> rng (<[new := nr]> s) c = rng s c.
Proof using Type. intros H. unfold rng. by rewrite lookup_insert_ne. Qed.

Lemma wf_loose : wf (<[new := nr]> s).
Proof using All.
  assert (Hne : forall p r c, s !! p = Some r -> c ∈ r_children r -> c <> new) by (intros p r c E H ->; apply (loose_not_child p); by exists r). split.
  - intros a r. destruct (decide (a = new)) as [->|]; [rewrite lookup_insert_eq; intros H; by injection H as <-|]. rewrite lookup_insert_ne by done. apply (wf_range s Hwf).
  - intros p r c. destruct (decide (p = new)) as [->|]; [rewrite lookup_insert_eq; intros H Hin; injection H as <-; rewrite Hc in Hin; set_solver|]. rewrite lookup_insert_ne by done. intros E Hin. eapply inside_rng; [apply loose_rng; by eapply Hne|done|done|by eapply wf_inside].
  - intros c rc p. rewrite loose_child. destruct (decide (c = new)) as [->|]; [|rewrite lookup_insert_ne by done; apply (wf_parent s Hwf)]. rewrite lookup_insert_eq. intros H. injection H as <-. rewrite Hp. split; [done|]. intros H. by apply loose_not_child in H.
  - intros p r. destruct (decide (p = new)) as [->|]; [rewrite lookup_insert_eq; intros H; injection H as <-; rewrite Hc; constructor|]. rewrite lookup_insert_ne by done. intros E. eapply sorted_rng; [intros c Hin; apply loose_rng; by eapply Hne|by eapply wf_sorted].
  - intros a. induction (wf_acyclic s Hwf a) as [a _ IH]. constructor. intros c H. apply loose_child in H. by apply IH.
Qed.

End loose.

Lemma wf_alloc s a nr : wf s -> s !! a = None -> is_u32 (r_start nr) -> is_u32 (r_end nr) -> r_parent nr = None -> r_children nr = [] ->
  wf (<[a := nr]> s) /\ (forall c p, child (<[a := nr]> s) c p <-> child s c p).
Proof. intros Hwf E H1 H2 H3 H4. split; [by apply (wf_loose s a None)|]. intros c p. by apply (loose_child s a None). Qed.

(** ** Expansion *)

Definition hull (cr nr : resource) : resource := set_range (if r_start cr <? r_start nr then r_start cr else r_start nr) (if r_end nr <? r_end cr then r_end cr else r_end nr) nr.

(** The resources that lie inside [nr] *)
Definition inside_set (s : store) (nr : resource) : gset Z := dom (filter (fun '(_, r) => r_start nr <= r_start r /\ r_end r <= r_end nr) s).

Lemma expand_spec root pr : forall fuel s new nr, wf s -> unused s new nr -> s !! root = Some pr -> root <> new -> fits pr nr -> (size s < fuel + size (inside_set s nr))%nat ->
  exists s' nr', expand_loop fuel s root new = Some s' /\ wf s' /\ fits nr' nr /\ fits pr nr' /\
    exists q qr l1 run rest, rtc (child s) q root /\ inserted (<[new := nr']> s) s' q new qr nr' l1 run rest.
Proof.
  induction fuel as [|fuel IH]; intros s new nr Hwf Hu Ep Hne Hf Hfuel.
  { exfalso. assert (size (inside_set s nr) <= size s)%nat; [|lia]. unfold inside_set. rewrite size_dom. apply map_size_filter. }
  cbn [expand_loop]. pose proof Hu as (En & Hpn & Hcn). assert (Hsame : <[new := nr]> s = s) by by apply insert_id.
  destruct (insert_spec s root new pr nr Hwf Hu Ep Hne) as [(s' & q & qr & l1 & run & rest & -> & Hq & Hi)|[[_ H]|(c & cr & q & -> & _ & Hq & Hc & Ec & Hov & Hn1 & Hn2)]]; [|done|]; cbn [mbind option_bind].
  - exists s', nr. split; [done|]. split; [by eapply wf_inserted|]. split; [destruct Hf as (?&?&?); by split|]. split; [done|]. rewrite Hsame. by exists q, qr, l1, run, rest.
  - assert (Hcr : c <> root). { intros ->. apply (tc_irrefl s root Hwf). eapply tc_rtc_r; [by apply tc_once|done]. }
    destruct (Z.eqb_spec c root); [done|]. rewrite Ec, En. cbn [mbind option_bind]. unfold update. rewrite En. cbn [mbind option_bind]. fold (hull cr nr). set (nr' := hull cr nr).
    destruct (fits_child s c root q pr cr Hwf Hq Hc Ep Ec) as [Hc1 Hc2]. destruct (child_lookup s c q Hwf Hc) as (_ & cr' & _ & _ & Ec' & _ & _ & Hcc & _). assert (cr' = cr) by congruence. subst cr'.
    assert (Hh : r_start nr' = Z.min (r_start cr) (r_start nr) /\ r_end nr' = Z.max (r_end cr) (r_end nr)) by (unfold nr', hull; simpl; split; zbool). destruct Hh as [Hh1 Hh2]. destruct Hf as (Hf1 & Hf2 & Hf3).
    pose proof (wf_range s Hwf new nr En) as [Hu1 Hu2]. pose proof (wf_range s Hwf c cr Ec) as [Hu3 Hu4]. unfold is_u32 in *.
    assert (Hwf' : wf (<[new := nr']> s)) by (apply (wf_loose s new (Some nr)); [done|done|done|unfold is_u32; lia|unfold is_u32; lia|done|done]).
    assert (Hch : forall x y, child (<[new := nr']> s) x y <-> child s x y) by (intros x y; by apply (loose_child s new (Some nr))).
    destruct (IH (<[new := nr']> s) new nr') as (s' & nr2 & E & Hw' & Hf' & Hfp & q' & qr & l1 & run & rest & Hq' & Hi).
    + done.
    + split; [by rewrite lookup_insert_eq|done].
    + by rewrite lookup_insert_ne.
    + done.
    + split; lia.
    + rewrite map_size_insert, En. unfold id. enough (S (size (inside_set s nr)) <= size (inside_set (<[new := nr']> s) nr'))%nat by lia. assert (Hcin : c ∉ inside_set s nr).
      { unfold inside_set. rewrite elem_of_dom. intros [x Hx]. apply map_lookup_filter_Some in Hx as [Hx Hx2]. assert (x = cr) by congruence. subst x. apply Hn2. split; lia. }
      assert (Hcnew : c <> new) by (intros ->; by apply (unused_no_child s new nr q Hwf Hu)).
      change (S (size (inside_set s nr))) with (1 + size (inside_set s nr))%nat. rewrite <- (size_singleton (C := gset Z) c), <- size_union by set_solver. apply subseteq_size. intros x [->%elem_of_singleton|Hx]%elem_of_union.
      * unfold inside_set. apply elem_of_dom. exists cr. apply map_lookup_filter_Some. rewrite lookup_insert_ne by done. split; [done|]. lia.
      * unfold inside_set in *. apply elem_of_dom in Hx as [xr Hx]. apply map_lookup_filter_Some in Hx as [Hx Hx2]. apply elem_of_dom. destruct (decide (x = new)) as [->|].
        -- exists nr'. apply map_lookup_filter_Some. rewrite lookup_insert_eq. split; [done|lia].
        -- exists xr. apply map_lookup_filter_Some. rewrite lookup_insert_ne by done. split; [done|]. lia.
    + exists s', nr2. split; [done|]. split; [done|]. split; [destruct Hf' as (?&?&?); split; lia|]. split; [done|]. exists q', qr, l1, run, rest. split; [|by rewrite insert_insert_eq in Hi].
      clear - Hq' Hch. induction Hq' as [|x y z Hxy _ IH]; [apply rtc_refl|]. eapply rtc_l; [by apply Hch|done].
Qed.

(** ** Ranges of resources in one tree *)

Lemma below_inside s a c ar cr : wf s -> rtc (child s) a c -> s !! a = Some ar -> s !! c = Some cr -> r_start cr <= r_start ar /\ r_end ar <= r_end cr.
Proof.
  intros Hwf H Ea Ec. apply rtc_inv in H as [->|(x & Hx & Hxc)]; [assert (ar = cr) by congruence; subst; lia|]. by apply (fits_child s a c x cr ar Hwf).
Qed.

Lemma sorted_distinct s l a b : StronglySorted (before s) l -> a ∈ l -> b ∈ l -> a <> b -> before s a b \/ before s b a.
Proof.
  induction 1 as [|x l Hs IH Hf]; intros Ha Hb Hne; [set_solver|]. rewrite Forall_forall in Hf. apply elem_of_cons in Ha as [->|Ha], Hb as [->|Hb]; [done|left; auto|right; auto|by apply IH].
Qed.

Definition disjoint_ranges (a b : resource) : Prop := r_end a < r_start b \/ r_end b < r_start a.

Lemma child_store s c p : wf s -> child s c p -> exists cr, s !! c = Some cr.
Proof. intros Hwf H. destruct (child_lookup s c p Hwf H) as (r & rc & _ & _ & E & _). by exists rc. Qed.

(** Two resources below one are on one path or apart. *)
Lemma laminar s p : wf s -> forall a b ar br, rtc (child s) a p -> rtc (child s) b p -> s !! a = Some ar -> s !! b = Some br ->
  rtc (child s) a b \/ rtc (child s) b a \/ disjoint_ranges ar br.
Proof.
  intros Hwf. induction (wf_acyclic s Hwf p) as [p _ IH]. intros a b ar br Ha Hb Ea Eb. apply rtc_inv_r in Ha as [->|(c1 & Ha & H1)]; [by right; left|]. apply rtc_inv_r in Hb as [->|(c2 & Hb & H2)]; [left; by eapply rtc_r|].
  destruct (decide (c1 = c2)) as [->|Hne]; [by apply (IH c2)|]. right. right. destruct (child_store s c1 p Hwf H1) as [r1 E1], (child_store s c2 p Hwf H2) as [r2 E2].
  destruct (below_inside s a c1 ar r1 Hwf Ha Ea E1), (below_inside s b c2 br r2 Hwf Hb Eb E2). destruct H1 as (r & E & H1), H2 as (r' & E' & H2). assert (r' = r) by congruence. subst r'. unfold disjoint_ranges.
  destruct (sorted_distinct s _ c1 c2 (wf_sorted s Hwf p r E) H1 H2 Hne) as [(x & y & Ex & Ey & ?)|(x & y & Ex & Ey & ?)]; simplify_eq; lia.
Qed.

(** ** What request and release do *)

Lemma link_released s root rr new nr l1 l2 : wf s -> s !! root = Some rr -> detached s root new nr -> r_children rr = l1 ++ l2 -> wf (link s root rr new nr (l1 ++ new :: l2)) ->
  release_resource (link s root rr new nr (l1 ++ new :: l2)) new = Some (s, 0).
Proof.
  intros Hwf Hr Hd Hl Hw. pose proof (link_ne s root new nr Hd) as Hne. destruct Hd as (En & Hp & _). unfold release_resource.
  rewrite (release_spec _ root new (set_children (l1 ++ new :: l2) rr) (set_parent (Some root) nr) l1 l2 Hw); try done; try (rewrite link_lookup; by rewrite ?decide_False, ?decide_True by done).
  do 2 f_equal. apply map_eq. intros a. rewrite unlinked_lookup, link_lookup. destruct (decide (a = new)) as [->|].
  - rewrite En. f_equal. destruct nr; simpl in *. by subst.
  - destruct (decide (a = root)) as [->|]; [|done]. rewrite Hr. f_equal. rewrite <- Hl. destruct rr; done.
Qed.

Lemma below_range s c p cr : wf s -> tc (child s) c p -> s !! c = Some cr -> r_start cr <= r_end cr.
Proof.
  intros Hwf H E. assert (exists q, child s c q) as [q Hc] by by eapply tc_first. destruct (child_lookup s c q Hwf Hc) as (? & rc & _ & _ & E' & _ & ?). assert (rc = cr) by congruence. subst. lia.
Qed.

(** What is below [parent] and overlaps the range, and neither holds it nor lies in it *)
Definition crossed (s : store) (parent : Z) (nr : resource) : Prop := exists c cr, tc (child s) c parent /\ s !! c = Some cr /\ partial_overlap cr nr.

Lemma inserted_not_crossed s s' parent q new qr nr l1 run rest : wf s -> rtc (child s) q parent -> inserted s s' q new qr nr l1 run rest -> ~ crossed s parent nr.
Proof.
  intros Hwf Hq Hi (c & cr & Hc & Ec & [Ho1 Ho2] & Hn1 & Hn2). pose proof (in_q _ _ _ _ _ _ _ _ _ Hi) as Eq. pose proof (in_fits _ _ _ _ _ _ _ _ _ Hi) as (Hf1 & Hf2 & Hf3). pose proof (in_split _ _ _ _ _ _ _ _ _ Hi) as El.
  destruct (laminar s parent Hwf c q cr qr (tc_rtc _ _ Hc) Hq Ec Eq) as [H|[H|[H|H]]]; [| |lia|lia].
  - pose proof (below_range s c parent cr Hwf Hc Ec) as Hcc.
    apply rtc_inv_r in H as [->|(d & Hd & Hdq)]; [assert (cr = qr) by congruence; subst; apply Hn1; split; lia|]. destruct (child_store s d q Hwf Hdq) as [dr Ed]. destruct (below_inside s c d cr dr Hwf Hd Ec Ed). destruct Hdq as (r & Er & Hin). assert (r = qr) by congruence. subst r.
    rewrite El, !elem_of_app in Hin. destruct Hin as [Hin|[Hin|Hin]]; [pose proof (in_l1 _ _ _ _ _ _ _ _ _ Hi d dr Hin Ed); lia| |pose proof (in_rest _ _ _ _ _ _ _ _ _ Hi d dr Hin Ed); lia].
    pose proof (in_run _ _ _ _ _ _ _ _ _ Hi d dr Hin Ed). apply Hn2. split; lia.
  - destruct (below_inside s q c qr cr Hwf H Eq Ec). apply Hn1. split; lia.
Qed.

(** ** A check of the invariant, for stores in which parents have smaller addresses *)

Definition beforeb (s : store) (a b : Z) : bool := match s !! a, s !! b with Some ra, Some rb => r_end ra <? r_start rb | _, _ => false end.

Fixpoint sortedb (s : store) (l : list Z) : bool := match l with [] => true | a :: t => forallb (beforeb s a) t && sortedb s t end.

Definition childb (s : store) (m p : Z) (r : resource) (c : Z) : bool :=
  match s !! c with
  | Some rc => (r_start r <=? r_start rc) && (r_start rc <=? r_end rc) && (r_end rc <=? r_end r) && bool_decide (r_parent rc = Some p) && (p <? c) && (c <=? m)
  | None => false
  end.

Definition resourceb (s : store) (m a : Z) (r : resource) : bool :=
  (0 <=? r_start r) && (r_start r <? 2 ^ 32) && (0 <=? r_end r) && (r_end r <? 2 ^ 32) && forallb (childb s m a r) (r_children r) && sortedb s (r_children r) &&
  match r_parent r with None => true | Some p => match s !! p with Some pr => bool_decide (a ∈ r_children pr) | None => false end end.

Definition wfb (m : Z) (s : store) : bool := forallb (fun ar => resourceb s m ar.1 ar.2) (map_to_list s).

Lemma sortedb_spec s l : sortedb s l = true -> StronglySorted (before s) l.
Proof.
  induction l as [|a l IH]; intros H; [constructor|]. cbn [sortedb] in H. apply andb_true_iff in H as [H1 H2]. constructor; [by apply IH|]. rewrite forallb_forall in H1. apply Forall_forall. intros b Hb. specialize (H1 b ltac:(by apply list_elem_of_In)). unfold beforeb in H1. destruct (s !! a) as [ra|] eqn:Ea; [|done]. destruct (s !! b) as [rb|] eqn:Eb; [|done]. exists ra, rb. split; [done|]. split; [done|]. lia.
Qed.

Lemma wfb_spec m s : wfb m s = true -> wf s.
Proof.
  intros H. unfold wfb in H. rewrite forallb_forall in H. assert (Ha : forall a r, s !! a = Some r -> resourceb s m a r = true) by (intros a r E; apply (H (a, r)), list_elem_of_In; by apply elem_of_map_to_list).
  assert (Hc : forall a r c, s !! a = Some r -> c ∈ r_children r -> childb s m a r c = true). { intros a r c E Hin. specialize (Ha a r E). unfold resourceb in Ha. rewrite !andb_true_iff in Ha. destruct Ha as [[[_ Hf] _] _]. rewrite forallb_forall in Hf. by apply Hf, list_elem_of_In. }
  assert (Hcp : forall c p, child s c p -> exists r rc, s !! p = Some r /\ s !! c = Some rc /\ r_parent rc = Some p /\ r_start r <= r_start rc <= r_end rc /\ r_end rc <= r_end r /\ p < c <= m).
  { intros c p (r & E & Hin). pose proof (Hc p r c E Hin) as Hb. unfold childb in Hb. destruct (s !! c) as [rc|] eqn:Ec; [|done]. rewrite !andb_true_iff, bool_decide_eq_true in Hb. exists r, rc. split_and!; try done; try apply Hb; lia. }
  split.
  - intros a r E. specialize (Ha a r E). unfold resourceb in Ha. rewrite !andb_true_iff in Ha. unfold is_u32. lia.
  - intros p r c E Hin. destruct (Hcp c p ltac:(by exists r)) as (r' & rc & E' & Ec & _ & ? & ? & _). simplify_eq. exists rc. split; [done|lia].
  - intros c rc p E. split; [|intros Hch; destruct (Hcp c p Hch) as (r' & rc' & _ & Ec & Hp & _); congruence]. intros Hp. specialize (Ha c rc E). unfold resourceb in Ha. rewrite !andb_true_iff, Hp in Ha. destruct Ha as [_ Hin]. destruct (s !! p) as [pr|] eqn:Ep; [|done]. exists pr. split; [done|by apply bool_decide_eq_true in Hin].
  - intros p r E. specialize (Ha p r E). unfold resourceb in Ha. rewrite !andb_true_iff in Ha. apply sortedb_spec, Ha.
  - assert (Hn : forall n a, (Z.to_nat (m - a) < n)%nat -> Acc (child s) a); [|intros a; by eapply (Hn (S (Z.to_nat (m - a)))); lia]. induction n as [|n IH]; intros a Hlt; [lia|]. constructor. intros c Hch. destruct (Hcp c a Hch) as (_ & _ & _ & _ & _ & _ & _ & Hac). apply IH. lia.
Qed.

(** ** The operations are correct *)

(** [request_resource] of a descriptor that is in no tree returns 0 if its range is one of [root] that no child of [root] overlaps, and links it there in order; the tree stays well formed and [release_resource] takes exactly that back.  In every other case it returns -EBUSY and changes nothing. *)
Theorem request_resource_correct s root new rr nr : wf s -> s !! root = Some rr -> detached s root new nr ->
  (free s rr nr -> exists s' l1 l2, request_resource s root new = Some (s', 0) /\ wf s' /\ r_children rr = l1 ++ l2 /\ s' = link s root rr new nr (l1 ++ new :: l2) /\ release_resource s' new = Some (s, 0)) /\
  (~ free s rr nr -> request_resource s root new = Some (s, - EBUSY)).
Proof.
  intros Hwf Hr Hd. pose proof (link_ne s root new nr Hd) as Hne. pose proof Hd as (En & _). unfold request_resource. split; intros Hf.
  - destruct (request_free s root new rr nr Hwf Hr En Hne Hf) as (l1 & l2 & -> & El & H1 & H2). cbn [mbind option_bind]. destruct Hf as [(?&?&?) _]. assert (Hw : wf (link s root rr new nr (l1 ++ new :: l2))) by by apply wf_link. eexists _, l1, l2. split; [done|]. split; [done|]. split; [done|]. split; [done|]. by apply link_released.
  - destruct (request_busy s root new rr nr Hwf Hr En Hne Hf) as (c & -> & _). done.
Qed.

(** C21. [insert_resource] goes down to the smallest resource that holds the range and links the descriptor there, as the parent of the children that lie in its range; the tree stays well formed.  It fails, with -EBUSY and no change, exactly if the range is not one of [parent] or there is a resource below [parent] that it crosses.  [insert_resource_expand_to_fit] never fails on a range of [root]: it ends, and inserts a range that holds the one asked for. *)
Theorem insert_resource_correct s parent new pr nr : wf s -> unused s new nr -> s !! parent = Some pr -> parent <> new ->
  (exists s' err, insert_resource s parent new = Some (s', err) /\ wf s' /\
    (err = 0 /\ fits pr nr /\ ~ crossed s parent nr /\ (exists q qr l1 run rest, rtc (child s) q parent /\ inserted s s' q new qr nr l1 run rest) \/
     err = - EBUSY /\ s' = s /\ (~ fits pr nr \/ crossed s parent nr))) /\
  (fits pr nr -> exists s' nr', insert_resource_expand_to_fit s parent new = Some s' /\ wf s' /\ fits nr' nr /\ fits pr nr' /\
    exists q qr l1 run rest, rtc (child s) q parent /\ inserted (<[new := nr']> s) s' q new qr nr' l1 run rest).
Proof.
  intros Hwf Hu Ep Hne. split.
  - unfold insert_resource. destruct (insert_spec s parent new pr nr Hwf Hu Ep Hne) as [(s' & q & qr & l1 & run & rest & -> & Hq & Hi)|[[-> H]|(c & cr & q & -> & Hf & Hq & Hc & Ec & Ho)]]; cbn [mbind option_bind]; eexists _, _; (split; [done|]).
    + split; [by eapply wf_inserted|]. left. split; [done|]. destruct (in_fits _ _ _ _ _ _ _ _ _ Hi) as (?&?&?). destruct (below_inside s q parent qr pr Hwf Hq (in_q _ _ _ _ _ _ _ _ _ Hi) Ep). split; [split; lia|]. split; [by eapply inserted_not_crossed|]. by exists q, qr, l1, run, rest.
    + split; [done|]. right. split; [done|]. split; [done|by left].
    + split; [done|]. right. split; [done|]. split; [done|]. right. exists c, cr. split; [eapply tc_rtc_r; [by apply tc_once|done]|done].
  - intros Hf. unfold insert_resource_expand_to_fit. pose proof Hu as (En & Hp & _). rewrite En. cbn [mbind option_bind]. rewrite Hp. apply (expand_spec parent pr (S (size s)) s new nr Hwf Hu Ep Hne Hf). lia.
Qed.

(** ** An example *)

Definition tree : store := list_to_map [(1, mkres 0 0xffff [] 0 None [2; 3]); (2, mkres 0x1000 0x1fff [] 0 (Some 1) [4]); (3, mkres 0x4000 0x4fff [] 0 (Some 1) []); (4, mkres 0x1100 0x11ff [] IORESOURCE_BUSY (Some 2) []); (5, mkres 0x2000 0x2fff [] 0 None [])].

Lemma tree_wf : wf tree.
Proof. by apply (wfb_spec 9). Qed.

Lemma tree_unused : unused tree 5 (mkres 0x2000 0x2fff [] 0 None []).
Proof. done. Qed.

Lemma tree_free : free tree (mkres 0 0xffff [] 0 None [2; 3]) (mkres 0x2000 0x2fff [] 0 None []).
Proof.
  split; [by split|]. intros c r Hc E. apply elem_of_cons in Hc as [->|Hc]; [|apply elem_of_cons in Hc as [->|Hc]; [|set_solver]]; vm_compute in E; injection E as <-; intros [H1 H2]; simpl in *; lia.
Qed.

Lemma request_resource_correct_witness : exists s', request_resource tree 1 5 = Some (s', 0) /\ wf s' /\ release_resource s' 5 = Some (tree, 0).
Proof.
  destruct (request_resource_correct tree 1 5 _ _ tree_wf eq_refl (unused_detached tree 1 5 _ tree_unused ltac:(done))) as [H _]. destruct (H tree_free) as (s' & l1 & l2 & E & Hw & _ & _ & Hrel). by exists s'.
Defined.

(** A resource around one child, and one that crosses it *)
Definition around : store := <[6 := mkres 0x800 0x2fff [] 0 None []]> tree.

Lemma around_wf : wf around.
Proof. by apply (wfb_spec 9). Qed.

Lemma insert_resource_correct_witness : snd <$> insert_resource around 1 6 = Some 0 /\ (exists s' err, insert_resource around 1 6 = Some (s', err) /\ wf s') /\ exists s', insert_resource_expand_to_fit around 1 6 = Some s' /\ wf s'.
Proof.
  split; [by vm_compute|]. destruct (insert_resource_correct around 1 6 _ _ around_wf (conj eq_refl (conj eq_refl eq_refl)) eq_refl ltac:(done)) as [(s' & err & E & Hw & _) H]. split; [by exists s', err|]. destruct H as (s2 & nr' & E2 & Hw2 & _); [by split|by exists s2].
Defined.

End Resource.
