(* ===== verification/ResAlloc.v ===== *)
(** * kernel/resource.c: allocation and adjustment of resources

    [find_resource] looks for the first gap that is large enough, [allocate_resource] takes
    it; [adjust_resource] moves the bounds of a resource that is in the tree. *)
From stdpp Require Import sorting relations.
From S2P Require Import Prelude.
From S2P Require Import Resource.

Module ResAlloc.

Import Resource.

(** ** Allocation *)

Definition ALIGN (x a : Z) : Z := Z.land (u32 (x + u32 (a - 1))) (u32 (Z.lnot (u32 (a - 1)))).

Section find.
(** [alignf], if there is one: the range it leaves in [new] *)
Context (alignf : option (Z -> Z -> Z -> Z -> Z * Z)).

(** The loop: the error, and the range in [new] at the end *)
Fixpoint find_loop (s : store) (rend size min max align ns : Z) (this : list Z) : option (Z * Z * Z) :=
  ne ← (match this with [] => Some rend | t :: _ => tr ← s !! t; Some (u32 (r_start tr - 1)) end);
  let ns := if ns <? min then min else ns in
  let ne := if max <? ne then max else ne in
  let ns := ALIGN ns align in
  let '(ns, ne) := match alignf with Some f => f ns ne size align | None => (ns, ne) end in
  if (ns <? ne) && (u32 (size - 1) <=? u32 (ne - ns)) then Some (0, ns, u32 (ns + size - 1))
  else
    match this with
    | [] => Some (- EBUSY, ns, ne)
    | t :: this => tr ← s !! t; find_loop s rend size min max align (u32 (r_end tr + 1)) this
    end.

Definition find_resource (s : store) (root new size min max align : Z) : option (store * Z) :=
  rr ← s !! root;
  '(ns, this) ← (match r_children rr with
                 | [] => Some (r_start rr, [])
                 | t :: rest => tr ← s !! t; Some (if r_start tr =? 0 then (u32 (r_end tr + 1), rest) else (r_start rr, t :: rest))
                 end);
  '(err, ns, ne) ← find_loop s (r_end rr) size min max align ns this;
  s ← update s new (set_range ns ne);
  Some (s, err).

Definition allocate_resource (s : store) (root new size min max align : Z) : option (store * Z) :=
  '(s, err) ← find_resource s root new size min max align;
  if 0 <=? err then
    '(s, conflict) ← __request_resource s root new;
    Some (s, match conflict with Some _ => - EBUSY | None => err end)
  else Some (s, err).
End find.

(** ** Adjustment *)

Fixpoint all_within (s : store) (b e : Z) (l : list Z) : option bool :=
  match l with
  | [] => Some true
  | c :: t => r ← s !! c; if (r_start r <? b) || (e <? r_end r) then Some false else all_within s b e t
  end.

Definition adjust_resource (s : store) (res b sz : Z) : option (store * Z) :=
  r ← s !! res;
  p ← r_parent r;
  pr ← s !! p;
  let e := u32 (b + sz - 1) in
  if (b <? r_start pr) || (r_end pr <? e) then Some (s, - EBUSY)
  else
    ok ← all_within s b e (r_children r);
    if negb ok then Some (s, - EBUSY)
    else
      '(before, rest) ← split_at res (r_children pr);
      blocked ← (match rest with _ :: sib :: _ => sr ← s !! sib; Some (r_start sr <=? e) | _ => Some false end);
      if (blocked : bool) then Some (s, - EBUSY)
      else
        blocked ← (match last before with Some tmp => tr ← s !! tmp; Some (b <=? r_end tr) | None => Some false end);
        if (blocked : bool) then Some (s, - EBUSY)
        else
          s ← update s res (set_range b e);
          Some (s, 0).

Definition resource_size (r : resource) : Z := u32 (r_end r - r_start r + 1).

Definition resource_alignment (s : store) (res : Z) : option Z :=
  r ← s !! res;
  let f := Z.land (r_flags r) (Z.lor IORESOURCE_SIZEALIGN IORESOURCE_STARTALIGN) in
  Some (if f =? IORESOURCE_SIZEALIGN then resource_size r else if f =? IORESOURCE_STARTALIGN then r_start r else 0).

(** ** Allocation *)

Lemma ALIGN_div x a : pow2 a -> ALIGN x a = u32 (x + a - 1) / a * a.
Proof.
  intros Ha. pose proof (pow2_u32 a Ha) as Hu. pose proof (pow2_pos a Ha) as Hp. unfold is_u32 in Hu. unfold ALIGN. rewrite (u32_id (a - 1)) by (unfold is_u32; lia). replace (x + (a - 1)) with (x + a - 1) by lia. pose proof (u32_range (x + a - 1)) as Hy. set (y := u32 (x + a - 1)) in *. unfold is_u32 in Hy.
  replace (u32 (Z.lnot (a - 1))) with (Z.land (Z.lnot (a - 1)) (Z.ones 32)) by (rewrite Z.land_ones by lia; done). rewrite Z.land_assoc, <- Z.ldiff_land. destruct Ha as (k & Hk & ->). rewrite Z.sub_1_r, <- Z.ones_equiv, Z.ldiff_ones_r, Z.shiftl_mul_pow2, Z.shiftr_div_pow2 by lia.
  rewrite Z.land_ones by lia. apply Z.mod_small. pose proof (Z.mul_div_le y (2 ^ k) Hp). split; [|lia]. apply Z.mul_nonneg_nonneg; [apply Z.div_pos|]; lia.
Qed.

Lemma ALIGN_spec x a : pow2 a -> is_u32 x -> (a | ALIGN x a) /\ is_u32 (ALIGN x a) /\ (x <= ALIGN x a \/ ALIGN x a = 0) /\ forall y, is_u32 y -> x <= y -> (a | y) -> x <= ALIGN x a <= y.
Proof.
  intros Ha Hx. pose proof (pow2_pos a Ha) as Hp. pose proof (pow2_u32 a Ha) as Hu. rewrite (ALIGN_div x a Ha). unfold is_u32 in *. pose proof (u32_range (x + a - 1)) as Hy. unfold is_u32 in Hy. pose proof (Z.mul_div_le (u32 (x + a - 1)) a Hp). assert (0 <= u32 (x + a - 1) / a) by (apply Z.div_pos; lia).
  split; [by exists (u32 (x + a - 1) / a)|]. split; [nia|]. destruct (decide (x + a - 1 < 2 ^ 32)) as [Hlt|Hge].
  - rewrite u32_id in * by (unfold is_u32; lia). assert (x <= (x + a - 1) / a * a) by (pose proof (Z.mod_pos_bound (x + a - 1) a Hp); pose proof (Z.div_mod (x + a - 1) a ltac:(lia)); lia). split; [by left|]. intros y Hyr Hxy [z ->]. split; [done|]. apply Z.mul_le_mono_nonneg_r; [lia|]. apply Z.lt_succ_r, Z.div_lt_upper_bound; nia.
  - assert (E : u32 (x + a - 1) = x + a - 1 - 2 ^ 32) by (unfold u32; symmetry; apply (Z.mod_unique _ _ 1); lia). rewrite E, Z.div_small by lia. split; [by right|]. intros y Hyr Hxy [z ->]. exfalso.
    destruct (pow2_divide a Ha) as [w Hw]. rewrite Hw in *. assert (z < w) by (apply (Z.mul_lt_mono_pos_r a); lia). pose proof (Z.mul_le_mono_nonneg_r z (w - 1) a ltac:(lia) ltac:(lia)). lia.
Qed.

(** Away from the top of the address space nothing wraps around. *)
Lemma ALIGN_ge x a : pow2 a -> 0 <= x -> x + a <= 2 ^ 32 -> x <= ALIGN x a.
Proof.
  intros Ha H0 Hx. pose proof (pow2_pos a Ha) as Hp. rewrite (ALIGN_div x a Ha), u32_id by (unfold is_u32; lia).
  pose proof (Z.mod_pos_bound (x + a - 1) a Hp). pose proof (Z.div_mod (x + a - 1) a ltac:(lia)). lia.
Qed.

(** No start of a gap is so near the top of the address space that it wraps around when
    it is rounded up. *)
Definition rounds_up (s : store) (rr : resource) (min align : Z) : Prop :=
  min + align <= 2 ^ 32 /\ r_start rr + align <= 2 ^ 32 /\
  forall c r, c ∈ r_children rr -> s !! c = Some r -> u32 (r_end r + 1) + align <= 2 ^ 32.

(** The range is aligned, within the bounds and free below [rr]. *)
Definition admissible (s : store) (rr nr : resource) (size min max align a : Z) : Prop := (align | a) /\ min <= a /\ a + size - 1 <= max /\ free s rr (set_range a (a + size - 1) nr).

Section find.
Context (s : store) (root : Z) (rr nr : resource) (size min max align : Z).
Hypotheses (Hwf : wf s) (Hr : s !! root = Some rr) (Hal : pow2 align) (Hmin : is_u32 min) (Hmax : is_u32 max) (Hsz : 1 <= size < 2 ^ 32).

(** What the gap in front of [this] ends with *)
Lemma gap_end_range this : all_in s this -> exists ne, (match this with [] => Some (r_end rr) | t :: _ => tr ← s !! t; Some (u32 (r_start tr - 1)) end) = Some ne /\ is_u32 ne.
Proof using Hwf Hr.
  intros Ha. destruct this as [|t this]; [exists (r_end rr); split; [done|by apply (wf_range s Hwf root rr Hr)]|]. destruct (Ha t ltac:(apply elem_of_cons; by left)) as [tr ->]. cbn [mbind option_bind]. eexists. split; [done|apply u32_range].
Qed.

Lemma find_loop_sound : forall this ns, all_in s this -> is_u32 ns -> ns + align <= 2 ^ 32 -> min + align <= 2 ^ 32 -> (forall c r, c ∈ this -> s !! c = Some r -> u32 (r_end r + 1) + align <= 2 ^ 32) -> exists err a e, find_loop None s (r_end rr) size min max align ns this = Some (err, a, e) /\ is_u32 a /\ is_u32 e /\
  (err = 0 /\ e = a + size - 1 /\ (align | a) /\ min <= a /\ e <= max \/ err = - EBUSY).
Proof using All.
  induction this as [|t this IH]; intros ns Ha Hns Hnt Hmt Hct; cbn [find_loop]; destruct (gap_end_range _ Ha) as (ne & -> & Hne); cbn [mbind option_bind]; set (n1 := if ns <? min then min else ns); set (e1 := if max <? ne then max else ne);
    (assert (Hn1 : is_u32 n1 /\ min <= n1) by (unfold n1, is_u32 in *; zbool)); (assert (Hn2 : n1 + align <= 2 ^ 32) by (unfold n1; zbool)); (assert (He1 : is_u32 e1 /\ e1 <= max) by (unfold e1, is_u32 in *; zbool)); destruct (ALIGN_spec n1 align Hal (proj1 Hn1)) as (Hd & Hu & _ & _); pose proof (ALIGN_ge n1 align Hal (proj1 (proj1 Hn1)) Hn2) as Hlow; unfold is_u32 in *;
    (destruct ((ALIGN n1 align <? e1) && (u32 (size - 1) <=? u32 (e1 - ALIGN n1 align))) eqn:E; [apply andb_true_iff in E as [E1%Z.ltb_lt E2%Z.leb_le]; rewrite !u32_id in E2 by (unfold is_u32; lia); exists 0, (ALIGN n1 align), (u32 (ALIGN n1 align + size - 1)); rewrite u32_id by (unfold is_u32; lia); split; [done|]; split; [lia|]; split; [lia|]; left; split_and!; try done; lia|]).
  - exists (- EBUSY), (ALIGN n1 align), e1. split; [done|]. split; [lia|]. split; [lia|]. by right.
  - destruct (Ha t ltac:(set_solver)) as [tr Et]. rewrite Et. cbn [mbind option_bind]. apply IH; [intros c Hc; apply Ha; set_solver|apply u32_range|apply (Hct t); [set_solver|done]|done|intros c r Hc; apply Hct; set_solver].
Qed.

Lemma find_loop_first a : 2 <= size -> is_u32 a -> admissible s rr nr size min max align a -> forall this l0 ns, r_children rr = l0 ++ this -> is_u32 ns -> r_start rr <= ns <= a ->
  (forall c r, c ∈ l0 -> s !! c = Some r -> r_end r < ns) -> (forall c r, c ∈ this -> s !! c = Some r -> 0 < r_start r) ->
  exists a', find_loop None s (r_end rr) size min max align ns this = Some (0, a', a' + size - 1) /\ a' <= a /\ admissible s rr nr size min max align a'.
Proof using All.
  intros Hs2 Hua (Had & Hamin & Hamax & (Hf1 & Hf2 & Hf3) & Hov). cbn [set_range r_start r_end] in *. pose proof (wf_range s Hwf root rr Hr) as [Hrr1 Hrr2]. unfold is_u32 in *.
  induction this as [|t this IH]; intros l0 ns El Hns Hna Hl0 Hpos; cbn [find_loop]; [cbn [mbind option_bind]|].
  - set (n1 := if ns <? min then min else ns). set (e1 := if max <? r_end rr then max else r_end rr). assert (Hn1 : ns <= n1 <= a /\ min <= n1) by (unfold n1; zbool). assert (He1 : a + size - 1 <= e1 <= r_end rr /\ e1 <= max) by (unfold e1; zbool).
    destruct (ALIGN_spec n1 align Hal ltac:(unfold is_u32; lia)) as (Hd & Hu & _ & Hleast). pose proof (Hleast a ltac:(unfold is_u32; lia) ltac:(lia) Had) as Hle. unfold is_u32 in *. set (x := ALIGN n1 align) in *.
    destruct (Z.ltb_spec x e1); [|lia]. destruct (Z.leb_spec (u32 (size - 1)) (u32 (e1 - x))) as [_|Hn]; [|rewrite !u32_id in Hn by (unfold is_u32; lia); lia]. cbn [andb]. rewrite u32_id by (unfold is_u32; lia). exists x. split; [done|]. split; [lia|]. split; [done|]. split; [lia|]. split; [lia|].
    split; [split; cbn [set_range r_start r_end]; lia|]. intros c r Hc Er. cbn [set_range r_start r_end]. rewrite El, app_nil_r in Hc. pose proof (Hl0 c r Hc Er). unfold overlaps. lia.
  - destruct (children_all_in s root rr Hwf Hr t ltac:(rewrite El; set_solver)) as [tr Et]. rewrite Et. cbn [mbind option_bind]. pose proof (wf_range s Hwf t tr Et) as [Ht1 Ht2]. unfold is_u32 in *. pose proof (Hpos t tr ltac:(set_solver) Et) as Hpt. rewrite (u32_id (r_start tr - 1)) by (unfold is_u32; lia).
    pose proof (wf_sorted s Hwf root rr Hr) as Hsort. rewrite El in Hsort. assert (Hst : StronglySorted (before s) (t :: this)) by (clear - Hsort; induction l0 as [|y l IH]; [done|]; cbn [app] in Hsort; apply StronglySorted_inv in Hsort as [Hsort _]; auto). apply StronglySorted_inv in Hst as [_ Hbef]. rewrite Forall_forall in Hbef.
    pose proof (children_range s root rr Hwf Hr t tr ltac:(rewrite El; set_solver) Et) as Htr.
    set (n1 := if ns <? min then min else ns). set (e1 := if max <? r_start tr - 1 then max else r_start tr - 1). assert (Hn1 : ns <= n1 <= a /\ min <= n1) by (unfold n1; zbool). assert (He1 : 0 <= e1 <= r_start tr - 1 /\ e1 <= max) by (unfold e1; zbool).
    destruct (ALIGN_spec n1 align Hal ltac:(unfold is_u32; lia)) as (Hd & Hu & _ & Hleast). pose proof (Hleast a ltac:(unfold is_u32; lia) ltac:(lia) Had) as Hle. unfold is_u32 in *. set (x := ALIGN n1 align) in *.
    destruct ((x <? e1) && (u32 (size - 1) <=? u32 (e1 - x))) eqn:E.
    + apply andb_true_iff in E as [E1%Z.ltb_lt E2%Z.leb_le]. rewrite !u32_id in E2 by (unfold is_u32; lia). rewrite u32_id by (unfold is_u32; lia). exists x. split; [done|]. split; [lia|]. split; [done|]. split; [lia|]. split; [lia|].
      destruct (wf_inside s Hwf root rr t Hr ltac:(rewrite El; set_solver)) as (tr' & Et' & ?). assert (tr' = tr) by congruence. subst tr'.
      split; [split; cbn [set_range r_start r_end]; lia|]. intros c r Hc Er. cbn [set_range r_start r_end]. unfold overlaps. rewrite El, elem_of_app, elem_of_cons in Hc. destruct Hc as [Hc|[->|Hc]]; [pose proof (Hl0 c r Hc Er); lia|assert (r = tr) by congruence; subst; lia|].
      destruct (Hbef c Hc) as (ra & rb & Ea & Eb & ?). simplify_eq. lia.
    + assert (Hta : r_end tr < a). { destruct (decide (r_end tr < a)) as [|Hn]; [done|]. exfalso. pose proof (Hov t tr ltac:(rewrite El; set_solver) Et) as Ho. unfold overlaps in Ho. assert (a + size - 1 <= e1) by (unfold e1; zbool). rewrite !u32_id in E by (unfold is_u32; lia). apply andb_false_iff in E as [E%Z.ltb_ge|E%Z.leb_gt]; lia. }
      destruct (wf_inside s Hwf root rr t Hr ltac:(rewrite El; set_solver)) as (tr' & Et' & ?). assert (tr' = tr) by congruence. subst tr'. rewrite (u32_id (r_end tr + 1)) by (unfold is_u32; lia). apply (IH (l0 ++ [t])); [by rewrite <- app_assoc|lia|lia| |intros c r Hc; apply Hpos; set_solver].
      intros c r [Hc|Hc]%elem_of_app Er; [|apply list_elem_of_singleton in Hc; subst c; assert (r = tr) by congruence; subst; lia]. assert (Hct : before s c t).
      { clear - Hsort Hc. induction l0 as [|y l IH]; [set_solver|]. cbn [app] in Hsort. apply StronglySorted_inv in Hsort as [Hsort Hf]. rewrite Forall_forall in Hf. apply elem_of_cons in Hc as [->|Hc]; [apply Hf; set_solver|by apply IH]. }
      destruct Hct as (ra & rb & Ea & Eb & ?). simplify_eq. lia.
Qed.

End find.

Section allocate.
Context (s : store) (root new : Z) (rr nr : resource) (size min max align : Z).
Hypotheses (Hwf : wf s) (Hr : s !! root = Some rr) (Hu : unused s new nr) (Hne : root <> new) (Hal : pow2 align) (Hmin : is_u32 min) (Hmax : is_u32 max) (Hsz : 1 <= size < 2 ^ 32).

Lemma find_start_first a : 2 <= size -> is_u32 a -> admissible s rr nr size min max align a -> exists a', find_resource None s root new size min max align = Some (<[new := set_range a' (a' + size - 1) nr]> s, 0) /\ a' <= a /\ admissible s rr nr size min max align a'.
Proof using All.
  intros H2 Hua Had. pose proof Had as (_ & _ & _ & (Hf1 & Hf2 & Hf3) & Hov). cbn [set_range r_start r_end] in *. pose proof (wf_range s Hwf root rr Hr) as [Hrr1 Hrr2]. unfold is_u32 in *. destruct Hu as (En & _). unfold find_resource, update. rewrite Hr, En. cbn [mbind option_bind].
  destruct (r_children rr) as [|t rest] eqn:El; cbn [mbind option_bind].
  - destruct (find_loop_first s root rr nr size min max align Hwf Hr Hal Hmin Hmax Hsz a H2 Hua Had [] [] (r_start rr)) as (a' & -> & Ha'); [by rewrite El|done|lia|intros; set_solver|intros; set_solver|]. cbn [mbind option_bind]. by exists a'.
  - destruct (children_all_in s root rr Hwf Hr t ltac:(rewrite El; set_solver)) as [tr Et]. rewrite Et. cbn [mbind option_bind]. destruct (wf_inside s Hwf root rr t Hr ltac:(rewrite El; set_solver)) as (tr' & Et' & Hin). assert (tr' = tr) by congruence. subst tr'. pose proof (wf_range s Hwf t tr Et) as [Ht1 Ht2]. unfold is_u32 in *.
    pose proof (wf_sorted s Hwf root rr Hr) as Hsort. rewrite El in Hsort. apply StronglySorted_inv in Hsort as [_ Hbef]. rewrite Forall_forall in Hbef. assert (Hpos : forall c r, c ∈ rest -> s !! c = Some r -> 0 < r_start r) by (intros c r Hc Er; destruct (Hbef c Hc) as (ra & rb & Ea & Eb & ?); simplify_eq; lia).
    destruct (Z.eqb_spec (r_start tr) 0) as [H0|H0]; cbn [mbind option_bind].
    + assert (r_end tr < a). { pose proof (Hov t tr ltac:(set_solver) Et) as Ho. unfold overlaps in Ho. lia. } rewrite u32_id by (unfold is_u32; lia).
      destruct (find_loop_first s root rr nr size min max align Hwf Hr Hal Hmin Hmax Hsz a H2 Hua Had rest [t] (r_end tr + 1)) as (a' & -> & Ha'); [by rewrite El|unfold is_u32; lia|lia| |done|cbn [mbind option_bind]; by exists a']. intros c r Hc Er. assert (c = t) by set_solver. subst c. assert (r = tr) by congruence. subst. lia.
    + destruct (find_loop_first s root rr nr size min max align Hwf Hr Hal Hmin Hmax Hsz a H2 Hua Had (t :: rest) [] (r_start rr)) as (a' & -> & Ha'); [by rewrite El|done|lia|intros; set_solver| |cbn [mbind option_bind]; by exists a']. intros c r [->|Hc]%elem_of_cons Er; [assert (r = tr) by congruence; subst; lia|by eapply Hpos].
Qed.

Lemma find_start_sound : rounds_up s rr min align -> exists err a e, find_resource None s root new size min max align = Some (<[new := set_range a e nr]> s, err) /\ is_u32 a /\ is_u32 e /\
  (err = 0 /\ e = a + size - 1 /\ (align | a) /\ min <= a /\ e <= max \/ err = - EBUSY).
Proof using All.
  intros (Hup1 & Hup2 & Hup3). pose proof (wf_range s Hwf root rr Hr) as [Hrr _]. pose proof (children_all_in s root rr Hwf Hr) as Hall. destruct Hu as (En & _). unfold find_resource, update. rewrite Hr, En. cbn [mbind option_bind].
  assert (exists ns this, (match r_children rr with [] => Some (r_start rr, []) | t :: rest => tr ← s !! t; Some (if r_start tr =? 0 then (u32 (r_end tr + 1), rest) else (r_start rr, t :: rest)) end) = Some (ns, this) /\ is_u32 ns /\ all_in s this /\ ns + align <= 2 ^ 32 /\ forall c, c ∈ this -> c ∈ r_children rr) as (ns & this & -> & Hns & Hth & Hnt & Hsub).
  { destruct (r_children rr) as [|t rest]; [by exists (r_start rr), []|]. destruct (Hall t ltac:(set_solver)) as [tr Et]. rewrite Et. cbn [mbind option_bind]. pose proof (Hup3 t tr ltac:(set_solver) Et).
    destruct (r_start tr =? 0); eexists _, _; (split; [done|]); (split; [apply u32_range || done|]); (split; [intros c Hc; apply Hall; set_solver|]); (split; [done|set_solver]). }
  cbn [mbind option_bind]. destruct (find_loop_sound s root rr nr size min max align Hwf Hr Hal Hmin Hmax Hsz this ns Hth Hns Hnt Hup1) as (err & a & e & -> & H); [intros c r Hc; by apply Hup3, Hsub|]. cbn [mbind option_bind]. by exists err, a, e.
Qed.

(** The descriptor with its new range is still in no tree. *)
Lemma ranged_unused a e : is_u32 a -> is_u32 e -> wf (<[new := set_range a e nr]> s) /\ (<[new := set_range a e nr]> s) !! root = Some rr /\ unused (<[new := set_range a e nr]> s) new (set_range a e nr).
Proof using Hwf Hr Hu Hne.
  intros Ha He. destruct Hu as (En & Hp & Hc). split; [by apply (wf_loose s new (Some nr))|]. split; [by rewrite lookup_insert_ne|]. split; [by rewrite lookup_insert_eq|done].
Qed.

Lemma ranged_free a e nr' : free (<[new := set_range a e nr]> s) rr nr' <-> free s rr nr'.
Proof using All.
  assert (Hcn : forall c, c ∈ r_children rr -> c <> new) by (intros c Hc ->; apply (unused_no_child s new nr root Hwf Hu); by exists rr). unfold free. split; (intros [Hf Ho]; split; [done|]; intros c r Hc Er; apply (Ho c); [done|]); [rewrite lookup_insert_ne; [done|]; intros Hn; by apply (Hcn c)|rewrite lookup_insert_ne in Er; [done|]; intros Hn; by apply (Hcn c)].
Qed.

Lemma allocate_ok : rounds_up s rr min align -> exists s' err, allocate_resource None s root new size min max align = Some (s', err) /\ wf s' /\
  (err = 0 /\ (exists a l1 l2, let nr' := set_range a (a + size - 1) nr in (align | a) /\ min <= a /\ a + size - 1 <= max /\ free s rr nr' /\ r_children rr = l1 ++ l2 /\ s' = link (<[new := nr']> s) root rr new nr' (l1 ++ new :: l2) /\
      (2 <= size -> forall a', is_u32 a' -> admissible s rr nr size min max align a' -> a <= a' /\ admissible s rr nr size min max align a)) \/
   err = - EBUSY /\ (exists b e, s' = <[new := set_range b e nr]> s) /\ (2 <= size -> forall a', is_u32 a' -> ~ admissible s rr nr size min max align a')).
Proof using All.
  intros Hup. unfold allocate_resource. destruct (find_start_sound Hup) as (err & a & e & E & Ha & He & H). rewrite E. cbn [mbind option_bind]. destruct (ranged_unused a e Ha He) as (Hw & Hr' & Hu'). pose proof (Hu') as (En & _).
  destruct H as [(-> & -> & Hd & Hlow & Hhi)| ->].
  - cbn [Z.leb]. change (0 <=? 0) with true. cbn [mbind option_bind].
    assert (Hfirst : 2 <= size -> forall a', is_u32 a' -> admissible s rr nr size min max align a' -> a <= a' /\ admissible s rr nr size min max align a).
    { intros H2 a' Hua Had. destruct (find_start_first a' H2 Hua Had) as (a2 & E2 & Hle & Had2). rewrite E in E2. injection E2 as E2. apply (f_equal (fun m : store => m !! new)) in E2. rewrite !lookup_insert_eq in E2. injection E2 as E2 E3. by subst a2. }
    destruct (request_cases _ root new rr (set_range a (a + size - 1) nr) Hw Hr' En Hne) as [[-> H]|[(l1 & c & l2 & cr & -> & Hft & El & Ec & Hc & _)|(l1 & l2 & -> & Hft & El & H1 & H2)]]; cbn [mbind option_bind].
    + eexists _, _. split; [done|]. split; [done|]. right. split; [done|]. split; [by eexists _, _|]. intros H2 a' Hua Had. destruct (Hfirst H2 a' Hua Had) as [_ (_ & _ & _ & Hf & _)]. done.
    + eexists _, _. split; [done|]. split; [done|]. right. split; [done|]. split; [by eexists _, _|]. intros H2 a' Hua Had. destruct (Hfirst H2 a' Hua Had) as [_ (_ & _ & _ & Hfr)]. apply (ranged_free a (a + size - 1)) in Hfr as [_ Hfr]. apply (Hfr c cr); [rewrite El; set_solver|done|done].
    + eexists _, _. split; [done|]. destruct Hft as (Hf1 & Hf2 & Hf3). split; [apply wf_link; try done; by apply unused_detached|]. left. split; [done|]. exists a, l1, l2. split; [done|]. split; [done|]. split; [done|]. split; [|done]. apply (ranged_free a (a + size - 1)). split; [done|]. intros c r Hc Er [Ho1 Ho2]. rewrite El, elem_of_app in Hc. destruct Hc as [Hc|Hc]; [pose proof (H1 c r Hc Er)|pose proof (H2 c r Hc Er)]; lia.
  - change (0 <=? - EBUSY) with false. eexists _, _. split; [done|]. split; [done|]. right. split; [done|]. split; [by eexists _, _|]. intros H2 a' Hua Had. destruct (find_start_first a' H2 Hua Had) as (a2 & E2 & _). rewrite E in E2. by injection E2.
Qed.

End allocate.

(** ** Adjustment *)

Lemma all_within_spec s b e l : all_in s l -> exists ok, all_within s b e l = Some ok /\ (ok = true <-> forall c r, c ∈ l -> s !! c = Some r -> b <= r_start r /\ r_end r <= e).
Proof.
  induction l as [|c l IH]; intros Ha; [exists true; split; [done|]; split; [|done]; intros; set_solver|]. destruct (Ha c ltac:(set_solver)) as [r Er]. cbn [all_within]. rewrite Er. cbn [mbind option_bind]. destruct ((r_start r <? b) || (e <? r_end r)) eqn:E.
  - exists false. split; [done|]. split; [done|]. intros H. destruct (H c r ltac:(set_solver) Er). apply orb_true_iff in E as [?|?]; lia.
  - apply orb_false_iff in E as [E1 E2]. destruct IH as (ok & -> & Hok); [intros d Hd; apply Ha; set_solver|]. exists ok. split; [done|]. rewrite Hok. split; [|intros H d dr Hd; apply H; set_solver]. intros H d dr [->|Hd]%elem_of_cons Ed; [assert (dr = r) by congruence; subst; lia|by eapply H].
Qed.

Section adjust.
Context (s : store) (res p : Z) (r pr : resource) (l1 l2 : list Z) (b sz : Z).
Hypotheses (Hwf : wf s) (Hr : s !! res = Some r) (Hp : r_parent r = Some p) (Epr : s !! p = Some pr) (El : r_children pr = l1 ++ res :: l2).
Hypotheses (Hsz : 1 <= sz) (Hb : is_u32 b) (He : is_u32 (b + sz - 1)).

Local Abbreviation e := (b + sz - 1).
Local Abbreviation s' := (<[res := set_range b e r]> s).

(** The new range holds the children and lies in the parent, between the neighbours. *)
Definition adjustable : Prop := (r_start pr <= b /\ e <= r_end pr) /\ (forall c cr, c ∈ r_children r -> s !! c = Some cr -> b <= r_start cr /\ r_end cr <= e) /\
  (forall d dr, d ∈ l2 -> s !! d = Some dr -> e < r_start dr) /\ (forall d dr, d ∈ l1 -> s !! d = Some dr -> r_end dr < b).

Lemma adjust_sorted : StronglySorted (before s) l1 /\ StronglySorted (before s) l2 /\ (forall c d, c ∈ l1 -> d ∈ l2 -> before s c d) /\ (res ∉ l1) /\ (res ∉ l2).
Proof using Hwf Epr El.
  pose proof (wf_sorted s Hwf p pr Epr) as Hs. pose proof (children_nodup s p pr Hwf Epr) as Hnd. rewrite El in *. clear - Hs Hnd. rewrite NoDup_app, NoDup_cons in Hnd. destruct Hnd as (_ & Hnd & Hnd2 & _). assert (res ∉ l1) by (intros H; apply (Hnd res H), elem_of_cons; by left). induction l1 as [|x l IH]; cbn [app] in Hs; apply StronglySorted_inv in Hs as [Hs Hf].
  - split_and!; try done; [constructor|]. intros c d Hc. set_solver.
  - rewrite Forall_forall in Hf. destruct IH as (H1 & H2 & H3 & H4 & H5); [done|intros y Hy; apply Hnd; set_solver|set_solver|]. split_and!; try done.
    + constructor; [done|]. apply Forall_forall. intros y Hy. apply Hf. set_solver.
    + intros c d [->|Hc]%elem_of_cons Hd; [apply Hf; set_solver|by apply H3].
Qed.

Lemma adjusted_child c q : child s' c q <-> child s c q.
Proof using Hr. unfold child. destruct (decide (q = res)) as [->|]; [|by rewrite lookup_insert_ne]. rewrite lookup_insert_eq, Hr. split; intros (x & E & Hx); injection E as <-; eauto. Qed.

Lemma wf_adjusted : adjustable -> wf s'.
Proof using All.
  intros ((Ha1 & Ha2) & Hc & Hd2 & Hd1). destruct adjust_sorted as (Hs1 & Hs2 & Hs12 & Hn1 & Hn2). assert (Hrng : forall c, c <> res -> rng s' c = rng s c) by (intros c H; unfold rng; by rewrite lookup_insert_ne). assert (Hne : p <> res) by (intros ->; apply (child_irrefl s res Hwf); exists pr; split; [done|rewrite El; set_solver]).
  assert (Honly : forall q qr c, s !! q = Some qr -> q <> p -> c ∈ r_children qr -> c <> res). { intros q qr c Eq Hq Hin ->. apply Hq. apply (child_unique s res); [done|by exists qr|exists pr; split; [done|rewrite El; set_solver]]. }
  assert (Hself : forall c, c ∈ r_children r -> c <> res) by (intros c Hin; by apply (Honly res r)). split.
  - intros a x. destruct (decide (a = res)) as [->|]; [rewrite lookup_insert_eq; intros H; by injection H as <-|]. rewrite lookup_insert_ne by done. apply (wf_range s Hwf).
  - intros q x c. destruct (decide (q = res)) as [->|Hq].
    + rewrite lookup_insert_eq. intros H Hin. injection H as <-. cbn [set_range r_children] in Hin. destruct (wf_inside s Hwf res r c Hr Hin) as (cr & Ec & ?). destruct (Hc c cr Hin Ec). exists cr. rewrite lookup_insert_ne by (symmetry; by apply Hself). split; [done|]. cbn [set_range r_start r_end]. lia.
    + rewrite lookup_insert_ne by done. intros Eq Hin. destruct (decide (c = res)) as [->|Hcr]; [|eapply inside_rng; [by apply Hrng|done|done|by eapply wf_inside]].
      assert (q = p) as -> by (destruct (decide (q = p)); [done|]; exfalso; by apply (Honly q x res)). assert (x = pr) by congruence. subst. exists (set_range b e r). rewrite lookup_insert_eq. split; [done|]. cbn [set_range r_start r_end]. lia.
  - intros c rc q. rewrite adjusted_child. destruct (decide (c = res)) as [->|]; [|rewrite lookup_insert_ne by done; apply (wf_parent s Hwf)]. rewrite lookup_insert_eq. intros H. injection H as <-. apply (wf_parent s Hwf res r q Hr).
  - intros q x. destruct (decide (q = res)) as [->|Hq]; [rewrite lookup_insert_eq; intros H; injection H as <-; eapply sorted_rng; [intros c Hin; by apply Hrng, Hself|exact (wf_sorted s Hwf res r Hr)]|]. rewrite lookup_insert_ne by done. intros Eq.
    destruct (decide (q = p)) as [->|Hqp]; [|eapply sorted_rng; [intros c Hin; apply Hrng; by eapply Honly|by eapply wf_sorted]]. assert (x = pr) by congruence. subst x. rewrite El. assert (Hall : forall c, c ∈ l1 ++ l2 -> exists cr, s !! c = Some cr) by (intros c Hin; apply (children_all_in s p pr Hwf Epr); rewrite El; set_solver). apply sorted_between.
    + eapply (sorted_rng s); [intros c Hin; apply Hrng; set_solver|]. pose proof (wf_sorted s Hwf p pr Epr) as Hs. rewrite El in Hs. clear - Hs. induction l1 as [|y l IH]; cbn [app] in *; apply StronglySorted_inv in Hs as [Hs Hf]; [done|]. constructor; [by apply IH|]. rewrite Forall_app, Forall_cons in *. tauto.
    + intros c Hin. destruct (Hall c ltac:(set_solver)) as [cr Ec]. exists cr, (set_range b e r). rewrite lookup_insert_eq, lookup_insert_ne by set_solver. split; [done|]. split; [done|]. by apply (Hd1 c).
    + intros c Hin. destruct (Hall c ltac:(set_solver)) as [cr Ec]. exists (set_range b e r), cr. rewrite lookup_insert_eq, lookup_insert_ne by set_solver. split; [done|]. split; [done|]. by apply (Hd2 c).
  - intros a. induction (wf_acyclic s Hwf a) as [a _ IH]. constructor. intros c H. apply adjusted_child in H. by apply IH.
Qed.

Lemma adjust_ok : adjust_resource s res b sz = Some (s', 0) /\ adjustable \/ adjust_resource s res b sz = Some (s, - EBUSY) /\ ~ adjustable.
Proof using All.
  destruct adjust_sorted as (Hs1 & Hs2 & _ & Hn1 & Hn2). assert (Hall : all_in s (l1 ++ l2)) by (intros c Hin; apply (children_all_in s p pr Hwf Epr); rewrite El; set_solver). pose proof (children_range s p pr Hwf Epr) as Hrg. unfold adjust_resource. rewrite Hr. cbn [mbind option_bind]. rewrite Hp. cbn [mbind option_bind]. rewrite Epr. cbn [mbind option_bind]. rewrite (u32_id e He). unfold adjustable.
  destruct ((b <? r_start pr) || (r_end pr <? e)) eqn:E1; [right; split; [done|]; apply orb_true_iff in E1 as [?|?]; lia|]. apply orb_false_iff in E1 as [E1 E1'].
  destruct (all_within_spec s b e (r_children r)) as (ok & -> & Hok); [by eapply children_all_in|]. cbn [mbind option_bind]. destruct ok; cbn [negb]; [|right; split; [done|]; intros (_ & H & _); by apply Hok in H]. rewrite El, split_at_spec by done. cbn [mbind option_bind].
  assert (Hnext : exists bl : bool, (match res :: l2 with _ :: sib :: _ => sr ← s !! sib; Some (r_start sr <=? e) | _ => Some false end) = Some bl /\ (bl = false <-> forall d dr, d ∈ l2 -> s !! d = Some dr -> e < r_start dr)).
  { destruct l2 as [|d l]; [exists false; split; [done|]; split; [|done]; intros; set_solver|]. destruct (Hall d ltac:(set_solver)) as [dr Ed]. rewrite Ed. cbn [mbind option_bind]. eexists. split; [done|]. rewrite Z.leb_gt. split; [|intros H; apply (H d); [set_solver|done]]. intros H x xr [->|Hx]%elem_of_cons Ex; [assert (xr = dr) by congruence; by subst|].
    apply StronglySorted_inv in Hs2 as [_ Hf]. rewrite Forall_forall in Hf. destruct (Hf x Hx) as (ra & rb & Ea & Eb & ?). simplify_eq. pose proof (Hrg d dr ltac:(rewrite El; set_solver) Ed). lia. }
  assert (Hprev : exists bl : bool, (match last l1 with Some tmp => tr ← s !! tmp; Some (b <=? r_end tr) | None => Some false end) = Some bl /\ (bl = false <-> forall d dr, d ∈ l1 -> s !! d = Some dr -> r_end dr < b)).
  { destruct (last l1) as [t|] eqn:Et; [|apply last_None in Et; subst; exists false; split; [done|]; split; [|done]; intros; set_solver]. apply last_Some in Et as (l & ->). destruct (Hall t ltac:(set_solver)) as [tr Etr]. rewrite Etr. cbn [mbind option_bind]. eexists. split; [done|]. rewrite Z.leb_gt. split; [|intros H; apply (H t); [set_solver|done]].
    intros H x xr Hx Ex. destruct (decide (x = t)) as [->|Hxt]; [assert (xr = tr) by congruence; by subst|]. destruct (sorted_distinct s _ x t Hs1 Hx ltac:(set_solver) Hxt) as [(ra & rb & Ea & Eb & ?)|Hbt]; [simplify_eq; pose proof (Hrg t tr ltac:(rewrite El; set_solver) Etr); lia|].
    exfalso. assert (Hxl : x ∈ l) by set_solver. clear - Hs1 Hxl Hbt Hrg El Etr Ex Hwf Epr. assert (before s x t). { clear - Hs1 Hxl. induction l as [|y l IH]; [set_solver|]. cbn [app] in Hs1. apply StronglySorted_inv in Hs1 as [Hs1 Hf]. rewrite Forall_forall in Hf. apply elem_of_cons in Hxl as [->|Hxl]; [apply Hf; set_solver|by apply IH]. }
    destruct H as (ra & rb & Ea & Eb & ?), Hbt as (rc & rd & Ec & Ed & ?). simplify_eq. pose proof (Hrg t tr ltac:(rewrite El; set_solver) Etr). pose proof (Hrg x xr ltac:(rewrite El; set_solver) Ex). lia. }
  destruct Hnext as (bl & -> & Hbl), Hprev as (bl' & -> & Hbl'). cbn [mbind option_bind]. destruct bl; [right; split; [done|]; intros (_ & _ & H & _); by apply Hbl in H|]. destruct bl'; [right; split; [done|]; intros (_ & _ & _ & H); by apply Hbl' in H|]. left. unfold update. rewrite Hr. cbn [mbind option_bind]. split; [done|]. split; [lia|]. split; [by apply Hok|]. split; [by apply Hbl|by apply Hbl'].
Qed.

End adjust.

(** ** The operations are correct *)

(** C22. [allocate_resource] without an alignment function ends with a well formed tree.
    Here [min] and [max] bound the addresses of the range, and no start of a gap wraps
    around when it is rounded up to the alignment ([rounds_up]; [allocate_below_min]
    shows that this is needed).  If it returns 0, the range it put into the tree has the
    size asked for, is aligned, lies between [min] and [max] and is free below [root]; if
    two bytes or more were asked for, no lower range is aligned, within the bounds and
    free.  -EBUSY leaves the tree as it was, and means, for two bytes or more, that there
    is no such range. *)
Theorem allocate_resource_correct s root new rr nr size min max align : wf s -> s !! root = Some rr -> unused s new nr -> root <> new -> pow2 align -> is_u32 min -> is_u32 max -> 1 <= size < 2 ^ 32 -> rounds_up s rr min align ->
  exists s' err, allocate_resource None s root new size min max align = Some (s', err) /\ wf s' /\
  (err = 0 /\ (exists a l1 l2, let nr' := set_range a (a + size - 1) nr in (align | a) /\ min <= a /\ a + size - 1 <= max /\ free s rr nr' /\ r_children rr = l1 ++ l2 /\ s' = link (<[new := nr']> s) root rr new nr' (l1 ++ new :: l2) /\
      (2 <= size -> forall a', is_u32 a' -> admissible s rr nr size min max align a' -> a <= a' /\ admissible s rr nr size min max align a)) \/
   err = - EBUSY /\ (exists b e, s' = <[new := set_range b e nr]> s) /\ (2 <= size -> forall a', is_u32 a' -> ~ admissible s rr nr size min max align a')).
Proof. intros. by apply allocate_ok. Qed.

(** [adjust_resource], for a range that does not wrap around, changes the range and returns 0 exactly if the new range is one of the parent, holds the children and stays between the neighbours; the tree is well formed.  If not, it returns -EBUSY and changes nothing. *)
Theorem adjust_resource_correct s res p r pr l1 l2 b sz : wf s -> s !! res = Some r -> r_parent r = Some p -> s !! p = Some pr -> r_children pr = l1 ++ res :: l2 -> 1 <= sz -> is_u32 b -> is_u32 (b + sz - 1) ->
  (adjustable s r pr l1 l2 b sz -> adjust_resource s res b sz = Some (<[res := set_range b (b + sz - 1) r]> s, 0) /\ wf (<[res := set_range b (b + sz - 1) r]> s)) /\
  (~ adjustable s r pr l1 l2 b sz -> adjust_resource s res b sz = Some (s, - EBUSY)).
Proof.
  intros Hwf Hr Hp Epr El Hsz Hb He. destruct (adjust_ok s res p r pr l1 l2 b sz Hwf Hr Hp Epr El Hsz Hb He) as [[E H]|[E H]].
  - split; [intros _; split; [exact E|by apply (wf_adjusted s res p r pr l1 l2)]|intros H'; by destruct (H' H)].
  - split; [intros H'; by destruct (H H')|intros _; exact E].
Qed.

Lemma allocate_resource_correct_witness : snd <$> allocate_resource None tree 1 5 0x1000 0 0xffff 0x1000 = Some 0 /\ exists s' err, allocate_resource None tree 1 5 0x1000 0 0xffff 0x1000 = Some (s', err) /\ wf s'.
Proof.
  split; [by vm_compute|]. destruct (allocate_resource_correct tree 1 5 _ _ 0x1000 0 0xffff 0x1000 tree_wf eq_refl tree_unused) as (s' & err & E & Hw & _); [done|by exists 12|done|done|done| |by exists s', err].
  split; [done|]. split; [done|]. intros c r Hc E. cbn in Hc. repeat (apply elem_of_cons in Hc as [->|Hc]; [vm_compute in E; injection E as <-; done|]). set_solver.
Defined.

(** The start is rounded up past the top of the address space and becomes 0, below [min]. *)
Definition wide : store := list_to_map [(1, mkres 0 0xffffffff [] 0 None []); (2, mkres 0 0 [] 0 None [])].

Lemma allocate_below_min : (fun '(s, err) => (r_start <$> s !! 2, err)) <$> allocate_resource None wide 1 2 0x10 0xfffff800 0xffffffff 0x1000 = Some (Some 0, 0).
Proof. by vm_compute. Qed.

(** A gap of one byte is never given out, although it can be requested. *)
Definition narrow : store := list_to_map [(1, mkres 0 0xff [] 0 None [2; 3]); (2, mkres 0 0xf [] 0 (Some 1) []); (3, mkres 0x11 0xff [] 0 (Some 1) []); (4, mkres 0x10 0x10 [] 0 None [])].

Lemma allocate_one_byte : snd <$> allocate_resource None narrow 1 4 1 0 0xff 1 = Some (- EBUSY) /\ snd <$> request_resource narrow 1 4 = Some 0.
Proof. by vm_compute. Qed.

Lemma adjust_resource_correct_witness : exists s', adjust_resource tree 3 0x3000 0x2000 = Some (s', 0) /\ wf s'.
Proof.
  destruct (adjust_resource_correct tree 3 1 _ _ [2] [] 0x3000 0x2000 tree_wf eq_refl eq_refl eq_refl eq_refl) as [H _]; [done|done|done|]. destruct H as [E Hw]; [|by eexists].
  split; [done|]. split; [intros; set_solver|]. split; [intros; set_solver|]. intros d dr Hd E. assert (d = 2) by set_solver. subst d. vm_compute in E. injection E as <-. done.
Defined.

End ResAlloc.
