(* ===== verification/Region.v ===== *)
(** * kernel/resource.c: regions, reservations and walks over the tree

    [__request_region] and [__release_region] are how drivers take ranges of the tree,
    [__reserve_region_with_split] takes what is left of a range, and [r_next] walks over
    the tree for the checks of mappings. *)
From stdpp Require Import sorting relations.
From S2P Require Import Prelude.
From S2P Require Import Resource.

Module Region.

Import Resource.

(** ** Regions *)

Section alloc.
(** [kzalloc]: the address of a new object, if there is memory. *)
Context (kzalloc : store -> option Z).

Fixpoint __reserve_region_with_split (fuel : nat) (s : store) (root b e : Z) (name : list Z) : option store :=
  match fuel with
  | O => None
  | S fuel =>
      match kzalloc s with
      | None => Some s
      | Some res =>
          let s := <[res := mkres b e name IORESOURCE_BUSY None []]> s in
          '(s, conflict) ← __request_resource s root res;
          match conflict with
          | None => Some s
          | Some c =>
              let s := delete res s in
              cr ← s !! c;
              if (r_start cr <=? b) && (e <=? r_end cr) then Some s
              else
                s ← (if b <? r_start cr then __reserve_region_with_split fuel s root b (u32 (r_start cr - 1)) name else Some s);
                cr ← s !! c;
                if r_end cr <? e then __reserve_region_with_split fuel s root (u32 (r_end cr + 1)) e name else Some s
          end
      end
  end.

(** The loop of [__request_region]: the resource stays or is freed. *)
Fixpoint region_loop (fuel : nat) (s : store) (parent res : Z) : option (store * option Z) :=
  match fuel with
  | O => None
  | S fuel =>
      '(s, conflict) ← __request_resource s parent res;
      match conflict with
      | None => Some (s, Some res)
      | Some c =>
          if c =? parent then Some (delete res s, None)
          else
            cr ← s !! c;
            if negb (has_flag cr IORESOURCE_BUSY) then region_loop fuel s c res
            else Some (delete res s, None)
      end
  end.

Definition __request_region (s : store) (parent b n : Z) (name : list Z) (flags : Z) : option (store * option Z) :=
  match kzalloc s with
  | None => Some (s, None)
  | Some res =>
      let s := <[res := mkres b (u32 (b + n - 1)) name (Z.lor IORESOURCE_BUSY flags) None []]> s in
      region_loop (S (size s)) s parent res
  end.

(** "check-region" *)
Definition check_region_name : list Z := [99; 104; 101; 99; 107; 45; 114; 101; 103; 105; 111; 110].

Definition __check_region (s : store) (parent b n : Z) : option (store * Z) :=
  '(s, res) ← __request_region s parent b n check_region_name 0;
  match res with
  | None => Some (s, - EBUSY)
  | Some res => '(s, _) ← release_resource s res; Some (delete res s, 0)
  end.
End alloc.

(** The walk of [__release_region]: the resource whose list is changed, and the region
    taken from it *)
Fixpoint release_loop (fuel : nat) (s : store) (p : Z) (l : list Z) (b e : Z) : option (option (Z * Z)) :=
  match fuel with
  | O => None
  | S fuel =>
      match l with
      | [] => Some None
      | res :: t =>
          r ← s !! res;
          if (r_start r <=? b) && (e <=? r_end r) then
            if negb (has_flag r IORESOURCE_BUSY) then release_loop fuel s res (r_children r) b e
            else if negb (r_start r =? b) || negb (r_end r =? e) then Some None
            else Some (Some (p, res))
          else release_loop fuel s p t b e
      end
  end.

(** The flag tells whether there was such a region; if not, a warning is printed. *)
Definition __release_region (s : store) (parent b n : Z) : option (store * bool) :=
  let e := u32 (b + n - 1) in
  pr ← s !! parent;
  found ← release_loop (S (size s)) s parent (r_children pr) b e;
  match found with
  | None => Some (s, false)
  | Some (p, res) =>
      pr ← s !! p;
      l ← unlink res (r_children pr);
      s ← update s p (set_children l);
      Some (delete res s, true)
  end.

(** ** Walks over the tree *)

(** What follows [a] in the list of its parent *)
Fixpoint after (a : Z) (l : list Z) : option Z :=
  match l with
  | x :: (y :: _) as t => if x =? a then Some y else after a t
  | _ => None
  end.

Definition sibling (s : store) (a : Z) : option (option Z) :=
  r ← s !! a;
  match r_parent r with
  | None => Some None
  | Some p => pr ← s !! p; Some (after a (r_children pr))
  end.

(** [while (!p->sibling && p->parent) p = p->parent; return p->sibling] *)
Fixpoint climb (fuel : nat) (s : store) (p : Z) : option (option Z) :=
  match fuel with
  | O => None
  | S fuel =>
      sib ← sibling s p;
      match sib with
      | Some q => Some (Some q)
      | None => r ← s !! p; match r_parent r with Some q => climb fuel s q | None => Some None end
      end
  end.

Definition r_next (s : store) (p : Z) : option (option Z) :=
  r ← s !! p;
  match r_children r with
  | c :: _ => Some (Some c)
  | [] => climb (S (size s)) s p
  end.

Definition PFN_DOWN (x : Z) : Z := Z.shiftr x 12.

(** The loop of [iomem_map_sanity_check] *)
Fixpoint sanity_loop (fuel : nat) (s : store) (p : option Z) (addr sz : Z) : option Z :=
  match p with
  | None => Some 0
  | Some p =>
      match fuel with
      | O => None
      | S fuel =>
          r ← s !! p;
          let continue := p ← r_next s p; sanity_loop fuel s p addr sz in
          if u32 (addr + sz) <=? r_start r then continue
          else if r_end r <? addr then continue
          else if (PFN_DOWN (r_start r) <=? PFN_DOWN addr) && (PFN_DOWN (u32 (addr + sz - 1)) <=? PFN_DOWN (r_end r)) then continue
          else if has_flag r IORESOURCE_BUSY then continue
          else Some (-1)
      end
  end.

Definition iomem_map_sanity_check (s : store) (iomem addr sz : Z) : option Z :=
  r ← s !! iomem; sanity_loop (size s) s (head (r_children r)) addr sz.

(** The loop of [iomem_is_exclusive]; the sums are those of a [u64]. *)
Fixpoint exclusive_loop (fuel : nat) (s : store) (p : option Z) (addr : Z) : option Z :=
  match p with
  | None => Some 0
  | Some p =>
      match fuel with
      | O => None
      | S fuel =>
          r ← s !! p;
          let continue := p ← r_next s p; exclusive_loop fuel s p addr in
          if addr + 4096 <=? r_start r then Some 0
          else if r_end r <? addr then continue
          else if has_flag r IORESOURCE_BUSY && has_flag r IORESOURCE_EXCLUSIVE then Some 1
          else continue
      end
  end.

(** [PAGE_MASK] has 32 bits. *)
Definition iomem_is_exclusive (strict : bool) (s : store) (iomem addr : Z) : option Z :=
  if negb strict then Some 0
  else
    let addr := Z.land addr 0xfffff000 in
    r ← s !! iomem; exclusive_loop (size s) s (head (r_children r)) addr.

(** ** Regions *)

Lemma chain s q x y : wf s -> rtc (child s) q x -> rtc (child s) q y -> rtc (child s) x y \/ rtc (child s) y x.
Proof.
  intros Hwf Hx. revert y. induction Hx as [q|q z x Hz Hx IH]; intros y Hy; [by left|]. destruct (rtc_inv _ _ Hy) as [->|(z' & Hz' & Hy')]; [right; by eapply rtc_l|]. assert (z' = z) as -> by by eapply child_unique. by apply IH.
Qed.

Lemma no_cycle s x y : wf s -> rtc (child s) x y -> tc (child s) y x -> False.
Proof. intros Hwf H1 H2. apply (tc_irrefl s x Hwf). by eapply tc_rtc_l. Qed.

Abbreviation busy r := (has_flag r IORESOURCE_BUSY).

(** What keeps the range from being granted below [parent] *)
Definition obstacle (s : store) (parent : Z) (nr : resource) : Prop :=
  exists c cr, tc (child s) c parent /\ s !! c = Some cr /\ overlaps cr (r_start nr) (r_end nr) /\ (busy cr = true \/ ~ fits cr nr).

(** [new] goes below [q], and what is above it up to [parent] is not busy. *)
Record granted (s s' : store) (parent new : Z) (nr : resource) : Prop := {
  gr_new : unused s new nr;
  gr_place : exists q qr l1 l2, rtc (child s) q parent /\ s !! q = Some qr /\ q <> new /\ s' = link s q qr new nr (l1 ++ new :: l2) /\ fits qr nr /\ r_children qr = l1 ++ l2 /\
      (forall c r, c ∈ l1 -> s !! c = Some r -> r_end r < r_start nr) /\ (forall c r, c ∈ l2 -> s !! c = Some r -> r_end nr < r_start r) /\
      (forall c cr, rtc (child s) q c -> tc (child s) c parent -> s !! c = Some cr -> busy cr = false) }.

Lemma region_spec s new nr : wf s -> unused s new nr -> forall fuel vis parent pr, s !! parent = Some pr -> parent <> new -> above s parent vis -> (size s < fuel + S (length vis))%nat ->
  (exists s', region_loop fuel s parent new = Some (s', Some new) /\ granted s s' parent new nr) \/
  (region_loop fuel s parent new = Some (delete new s, None) /\ (~ fits pr nr \/ obstacle s parent nr)).
Proof.
  intros Hwf Hu. induction fuel as [|fuel IH]; intros vis parent pr Ep Hne Hab Hf; [pose proof (above_size s parent vis Hwf Hab ltac:(by exists pr)); lia|]. cbn [region_loop]. pose proof Hu as (En & _).
  destruct (request_cases s parent new pr nr Hwf Ep En Hne) as [[-> H]|[(l1 & c & l2 & cr & -> & Hft & El & Ec & Ho & H1)|(l1 & l2 & -> & Hft & El & H1 & H2)]]; cbn [mbind option_bind].
  - rewrite Z.eqb_refl. right. split; [done|by left].
  - assert (Hch : child s c parent) by (exists pr; split; [done|rewrite El; set_solver]). destruct (Z.eqb_spec c parent) as [->|Hcp]; [by apply child_irrefl in Hch|]. rewrite Ec. cbn [mbind option_bind].
    destruct (busy cr) eqn:Eb; cbn [negb]; [right; split; [done|]; right; exists c, cr; split_and!; [by apply tc_once|done|done|by left]|].
    assert (Hcn : c <> new) by (intros ->; by apply (unused_no_child s new nr parent Hwf Hu)).
    destruct (IH (parent :: vis) c cr Ec Hcn ltac:(by apply above_step) ltac:(simpl; lia)) as [(s' & -> & _ & q & qr & m1 & m2 & Hq & Eq & Hqn & Es & Hfq & Em & H3 & H4 & H5)|[-> H]].
    + left. exists s'. split; [done|]. split; [done|]. exists q, qr, m1, m2. split_and!; try done; try apply Hfq; [by eapply rtc_r|]. intros x xr Hqx Hxp Ex. destruct (chain s q x c Hwf Hqx Hq) as [H|H].
      * apply rtc_tc in H as [->|H]; [by assert (xr = cr) as -> by congruence|]. by apply (H5 x).
      * apply rtc_inv in H as [->|(y & Hy & Hyx)]; [by assert (xr = cr) as -> by congruence|]. assert (y = parent) as -> by by eapply child_unique. exfalso. by eapply no_cycle.
    + right. split; [done|]. right. destruct H as [H|(x & xr & Hx & Ex & Hox & Hbx)].
      * exists c, cr. split_and!; [by apply tc_once|done|done|by right].
      * exists x, xr. split_and!; [by eapply tc_r|done|done|done].
  - left. eexists. split; [done|]. split; [done|]. exists parent, pr, l1, l2. split_and!; try done; try apply Hft. intros c cr Hpc Hcp. exfalso. by eapply no_cycle.
Qed.

Lemma granted_fits s s' parent new nr pr : wf s -> granted s s' parent new nr -> s !! parent = Some pr -> fits pr nr.
Proof.
  intros Hwf [_ (q & qr & l1 & l2 & Hq & Eq & _ & _ & (?&?&?) & _)] Ep. destruct (below_inside s q parent qr pr Hwf Hq Eq Ep). split; lia.
Qed.

Lemma granted_free s s' parent new nr : wf s -> granted s s' parent new nr -> ~ obstacle s parent nr.
Proof.
  intros Hwf [_ (q & qr & l1 & l2 & Hq & Eq & _ & _ & (Hf1 & Hf2 & Hf3) & El & H1 & H2 & H3)] (c & cr & Hc & Ec & [Ho1 Ho2] & Hb). assert (Hup : rtc (child s) q c -> False).
  { intros H. destruct Hb as [Hb|Hb]; [by rewrite (H3 c cr) in Hb|]. destruct (below_inside s q c qr cr Hwf H Eq Ec). apply Hb. split; lia. }
  destruct (laminar s parent Hwf c q cr qr (tc_rtc _ _ Hc) Hq Ec Eq) as [H|[H|[H|H]]]; [|by apply Hup|lia|lia]. apply rtc_inv_r in H as [->|(d & Hd & r & Er & Hin)]; [by apply Hup, rtc_refl|].
  assert (r = qr) by congruence. subst r. destruct (children_all_in s q qr Hwf Eq d Hin) as [dr Ed]. destruct (below_inside s c d cr dr Hwf Hd Ec Ed). rewrite El, elem_of_app in Hin. destruct Hin as [Hin|Hin]; [pose proof (H1 d dr Hin Ed)|pose proof (H2 d dr Hin Ed)]; lia.
Qed.

Lemma granted_wf s s' parent new nr : wf s -> granted s s' parent new nr -> wf s'.
Proof.
  intros Hwf [Hu (q & qr & l1 & l2 & Hq & Eq & Hqn & -> & (?&?&?) & El & Hl1 & Hl2 & _)]. apply wf_link; try done. by apply unused_detached.
Qed.

(** ** The walk of the release of a region *)

(** [vis] have been passed, and nothing in the rest of the walk is above one of them. *)
Definition visited (s : store) (vis l : list Z) : Prop := NoDup vis /\ (forall v, v ∈ vis -> is_Some (s !! v)) /\ forall v x, v ∈ vis -> x ∈ l -> ~ rtc (child s) v x.

Lemma visited_add s x vis l l' : wf s -> visited s vis l -> x ∈ l -> is_Some (s !! x) -> (forall y, y ∈ l' -> ~ rtc (child s) x y) -> (forall y, y ∈ l' -> rtc (child s) y x \/ y ∈ l) -> visited s (x :: vis) l'.
Proof.
  intros Hwf (Hn & Hs & Hv) Hx Ex Hxl Hl. split; [|split].
  - apply NoDup_cons. split; [|done]. intros H. by apply (Hv x x H Hx).
  - intros v [->|H]%elem_of_cons; [done|by apply Hs].
  - intros v y [->|H]%elem_of_cons Hy; [by apply Hxl|]. intros Hvy. destruct (Hl y Hy) as [Hyx|Hyl]; [|by apply (Hv v y)]. apply (Hv v x); [done|done|by etrans].
Qed.

Lemma siblings_apart s p x y : wf s -> child s x p -> child s y p -> x <> y -> ~ rtc (child s) x y.
Proof.
  intros Hwf Hx Hy Hne H. apply rtc_inv in H as [->|(z & Hz & H)]; [done|]. assert (z = p) as -> by by eapply child_unique. eapply no_cycle; [done|exact H|by apply tc_once].
Qed.

(** The region [res] below [q] is the one with the range. *)
Definition is_region (s : store) (b e q res : Z) : Prop := child s res q /\ exists r, s !! res = Some r /\ r_start r = b /\ r_end r = e /\ busy r = true.

(** [res] is reached from [x] through resources that are not busy. *)
Definition open_path (s : store) (q x : Z) : Prop := forall c r, rtc (child s) q c -> rtc (child s) c x -> s !! c = Some r -> busy r = false.

Lemma release_loop_spec s b e : wf s -> forall fuel vis p r l0 l, s !! p = Some r -> r_children r = l0 ++ l -> visited s vis l -> (size s < fuel + length vis)%nat ->
  exists out, release_loop fuel s p l b e = Some out /\
    (forall q res, out = Some (q, res) -> is_region s b e q res /\ rtc (child s) q p) /\
    (forall q res x, b <= e -> is_region s b e q res -> x ∈ l -> rtc (child s) res x -> open_path s q x -> out = Some (q, res)).
Proof.
  intros Hwf. induction fuel as [|fuel IH]; intros vis p r l0 l Ep El Hv Hf; [pose proof (nodup_size s vis (proj1 Hv) (proj1 (proj2 Hv))); lia|]. cbn [release_loop]. destruct l as [|x t]; [exists None; split; [done|]; split; [done|]; intros; set_solver|].
  assert (Hxp : child s x p) by (exists r; split; [done|rewrite El; set_solver]). destruct (child_store s x p Hwf Hxp) as [xr Ex]. rewrite Ex. cbn [mbind option_bind]. assert (Htp : forall y, y ∈ t -> child s y p /\ x <> y).
  { intros y Hy. split; [exists r; split; [done|rewrite El; set_solver]|]. pose proof (children_nodup s p r Hwf Ep) as Hnd. rewrite El, NoDup_app in Hnd. destruct Hnd as (_ & _ & Hnd). apply NoDup_cons in Hnd as [Hnd _]. by intros ->. }
  destruct ((r_start xr <=? b) && (e <=? r_end xr)) eqn:Eh.
  - apply andb_true_iff in Eh as [Eh1%Z.leb_le Eh2%Z.leb_le]. assert (Honly : forall q res y, b <= e -> is_region s b e q res -> y ∈ x :: t -> rtc (child s) res y -> y = x).
    { intros q res y Hbe (_ & rr & Er & Hb & He & _) [->|Hy]%elem_of_cons Hr; [done|]. exfalso. destruct (Htp y Hy) as [Hyp Hne]. destruct (child_store s y p Hwf Hyp) as [yr Ey]. destruct (below_inside s res y rr yr Hwf Hr Er Ey).
      destruct (laminar s p Hwf x y xr yr ltac:(by apply rtc_once) ltac:(by apply rtc_once) Ex Ey) as [H'|[H'|[H'|H']]]; [by apply (siblings_apart s p x y)|by apply (siblings_apart s p y x)|lia|lia]. }
    destruct (busy xr) eqn:Eb; cbn [negb].
    + assert (Hres : forall q res y, b <= e -> is_region s b e q res -> y ∈ x :: t -> rtc (child s) res y -> open_path s q y -> q = p /\ res = x).
      { intros q res y Hbe Hreg Hy Hr Hop. assert (y = x) as -> by by eapply Honly. apply rtc_inv in Hr as [->|(z & Hz & Hzx)]; [split; [by eapply child_unique; [done|apply Hreg|]|done]|]. assert (z = q) as -> by (eapply child_unique; [done|done|apply Hreg]). rewrite (Hop x xr Hzx (rtc_refl _ _) Ex) in Eb. done. }
      destruct (negb (r_start xr =? b) || negb (r_end xr =? e)) eqn:Er.
      * exists None. split; [done|]. split; [done|]. intros q res y Hbe Hreg Hy Hr Hop. destruct (Hres q res y Hbe Hreg Hy Hr Hop) as [-> ->]. destruct Hreg as (_ & rr & E & <- & <- & _). assert (rr = xr) by congruence. subst. rewrite !Z.eqb_refl in Er. done.
      * apply orb_false_iff in Er as [Er1 Er2]. exists (Some (p, x)). split; [done|]. split; [intros q res H; injection H as <- <-; split; [|apply rtc_refl]; split; [done|]; exists xr; split_and!; try done; lia|].
        intros q res y Hbe Hreg Hy Hr Hop. by destruct (Hres q res y Hbe Hreg Hy Hr Hop) as [-> ->].
    + destruct (IH (x :: vis) x xr [] (r_children xr) Ex eq_refl) as (out & E & H1 & H2); [|simpl; lia|].
      * assert (Hcx : forall y, y ∈ r_children xr -> child s y x) by (intros y Hy; by exists xr). apply (visited_add s x vis (x :: t)); [done|done|set_solver|by exists xr| |intros y Hy; left; by apply rtc_once, Hcx]. intros y Hy H. eapply no_cycle; [done|exact H|by apply tc_once, Hcx].
      * exists out. split; [done|]. split; [intros q res H; destruct (H1 q res H); split; [done|by eapply rtc_r]|]. intros q res y Hbe Hreg Hy Hr Hop. assert (y = x) as -> by by eapply Honly. destruct (rtc_inv_r _ _ Hr) as [->|(z & Hz & (r' & Er & Hzx))].
        -- destruct Hreg as (_ & rr & E' & _ & _ & Hb). assert (rr = xr) by congruence. subst. congruence.
        -- assert (r' = xr) by congruence. subst r'. apply (H2 q res z); try done. intros c cr Hc1 Hc2 Ec. apply (Hop c cr); [done| |done]. eapply rtc_r; [done|by exists xr].
  - destruct (IH (x :: vis) p r (l0 ++ [x]) t Ep ltac:(by rewrite <- app_assoc)) as (out & E & H1 & H2); [|simpl; lia|].
    + apply (visited_add s x vis (x :: t)); [done|done|set_solver|by exists xr| |intros y Hy; right; set_solver]. intros y Hy. destruct (Htp y Hy). by apply (siblings_apart s p).
    + exists out. split; [done|]. split; [done|]. intros q res y Hbe Hreg [->|Hy]%elem_of_cons Hr Hop; [|by apply (H2 q res y)]. exfalso. destruct Hreg as (_ & rr & Er & <- & <- & _). destruct (below_inside s res x rr xr Hwf Hr Er Ex). apply andb_false_iff in Eh as [Eh%Z.leb_gt|Eh%Z.leb_gt]; lia.
Qed.

(** ** Deleting a resource that is in no tree *)

Lemma delete_child s a o : wf s -> s !! a = Some o -> r_parent o = None -> r_children o = [] -> forall c p, child (delete a s) c p <-> child s c p.
Proof.
  intros Hwf E Hp Hc c p. unfold child. destruct (decide (p = a)) as [->|]; [|by rewrite lookup_delete_ne]. rewrite lookup_delete_eq, E. split; [intros (? & ? & _); done|]. intros (r & H & Hin). injection H as <-. rewrite Hc in Hin. set_solver.
Qed.

Lemma wf_delete s a o : wf s -> s !! a = Some o -> r_parent o = None -> r_children o = [] -> wf (delete a s).
Proof.
  intros Hwf E Hp Hc. pose proof (delete_child s a o Hwf E Hp Hc) as Hch. assert (Hin : forall p r c, delete a s !! p = Some r -> c ∈ r_children r -> s !! p = Some r /\ c <> a).
  { intros p r c H Hin. apply lookup_delete_Some in H as [Hpa H]. split; [done|]. intros ->. assert (Hca : child s a p) by (by exists r). apply (wf_parent s Hwf a o p E) in Hca. congruence. }
  assert (Hrng : forall c, c <> a -> rng (delete a s) c = rng s c) by (intros c H; unfold rng; by rewrite lookup_delete_ne). split.
  - intros x r H. apply lookup_delete_Some in H as [_ H]. by apply (wf_range s Hwf x).
  - intros p r c H Hcr. destruct (Hin p r c H Hcr) as [Hs Hca]. eapply inside_rng; [by apply Hrng|done|done|by eapply wf_inside].
  - intros c rc p H. rewrite Hch. apply lookup_delete_Some in H as [_ H]. by apply (wf_parent s Hwf).
  - intros p r H. eapply sorted_rng; [intros c Hcr; apply Hrng; by destruct (Hin p r c H Hcr)|]. apply lookup_delete_Some in H as [_ H]. by apply (wf_sorted s Hwf p).
  - intros x. induction (wf_acyclic s Hwf x) as [x _ IH]. constructor. intros c H. apply Hch in H. by apply IH.
Qed.

(** ** What a granted region looks like *)

Definition region (b n : Z) (name : list Z) (flags : Z) : resource := mkres b (u32 (b + n - 1)) name (Z.lor IORESOURCE_BUSY flags) None [].

Lemma region_busy b n name flags : busy (region b n name flags) = true.
Proof.
  unfold has_flag, region. cbn [r_flags]. replace (Z.land (Z.lor IORESOURCE_BUSY flags) IORESOURCE_BUSY) with IORESOURCE_BUSY; [done|]. apply Z.bits_inj'. intros k _. rewrite Z.land_spec, Z.lor_spec. by destruct (Z.testbit IORESOURCE_BUSY k), (Z.testbit flags k).
Qed.

(** A step up from what is not the new resource is one of the old tree. *)
Lemma link_path s q qr new nr l1 l2 : wf s -> s !! q = Some qr -> unused s new nr -> q <> new -> r_children qr = l1 ++ l2 -> forall x y, x <> new -> rtc (child (link s q qr new nr (l1 ++ new :: l2))) x y -> rtc (child s) x y /\ y <> new.
Proof.
  intros Hwf Eq Hu Hne El x y Hx H. pose proof (unused_detached s q new nr Hu Hne) as Hd. induction H as [x|x z y Hxz _ IH]; [done|]. assert (Hc : child s x z).
  { destruct Hxz as (r & Er & Hin). rewrite link_lookup in Er. destruct (decide (z = new)) as [->|]; [injection Er as <-; exists nr; split; [apply Hu|done]|]. destruct (decide (z = q)) as [->|]; [injection Er as <-; exists qr; split; [done|]; cbn [set_children r_children] in Hin; rewrite El; set_solver|by exists r]. }
  destruct IH as [IH Hy]; [|split; [by eapply rtc_l|done]]. intros ->. destruct Hc as (r & Er & Hin). destruct Hu as (E & _ & Hn). assert (r = nr) by congruence. subst. rewrite Hn in Hin. set_solver.
Qed.

Lemma link_is_region s q qr new nr l1 l2 : unused s new nr -> q <> new -> busy nr = true -> is_region (link s q qr new nr (l1 ++ new :: l2)) (r_start nr) (r_end nr) q new.
Proof.
  intros (En & _) Hne Hb. split; [eexists; rewrite link_lookup, decide_False, decide_True by done; split; [done|]; cbn [set_children r_children]; set_solver|]. eexists. rewrite link_lookup, decide_True by done. split; [done|]. by destruct nr.
Qed.

Lemma granted_open s q qr new nr l1 l2 parent x : wf s -> s !! q = Some qr -> unused s new nr -> q <> new -> r_children qr = l1 ++ l2 ->
  (forall c cr, rtc (child s) q c -> tc (child s) c parent -> s !! c = Some cr -> busy cr = false) -> parent <> new ->
  child (link s q qr new nr (l1 ++ new :: l2)) x parent -> open_path (link s q qr new nr (l1 ++ new :: l2)) q x.
Proof.
  intros Hwf Eq Hu Hne El H3 Hpn Hx c cr Hqc Hcx Ec. destruct (link_path s q qr new nr l1 l2 Hwf Eq Hu Hne El q c Hne Hqc) as [Hqc' Hcn]. destruct (link_path s q qr new nr l1 l2 Hwf Eq Hu Hne El c x Hcn Hcx) as [Hcx' Hxn].
  assert (Hxp : child s x parent). { destruct Hx as (r & Er & Hin). rewrite link_lookup, decide_False in Er by done. destruct (decide (parent = q)) as [->|]; [|by exists r]. injection Er as <-. exists qr. split; [done|]. cbn [set_children r_children] in Hin. rewrite El. set_solver. }
  rewrite link_lookup, decide_False in Ec by done. assert (Ht : tc (child s) c parent) by (eapply tc_rtc_l; [done|by apply tc_once]). destruct (decide (c = q)) as [->|]; [|by apply (H3 c)]. injection Ec as <-. by rewrite <- (H3 q qr).
Qed.

Lemma tc_mono (R R' : Z -> Z -> Prop) x y : (forall c p, R c p -> R' c p) -> tc R x y -> tc R' x y.
Proof. intros H. induction 1 as [x y Hxy|x y z Hxy _ IH]; [by apply tc_once, H|eapply tc_l; [by apply H|done]]. Qed.

Lemma obstacle_alloc s a nr parent x : wf s -> s !! a = None -> wf (<[a := x]> s) -> (forall c p, child (<[a := x]> s) c p <-> child s c p) -> obstacle (<[a := x]> s) parent nr <-> obstacle s parent nr.
Proof.
  intros Hwf Ea Hwf' Hch. split; intros (c & cr & Hc & Ec & H); exists c, cr; (split; [eapply tc_mono; [|exact Hc]; apply Hch|split; [|done]]).
  - destruct (decide (c = a)) as [->|]; [|by rewrite lookup_insert_ne in Ec]. exfalso. assert (exists q, child (<[a := x]> s) a q) as [q Hq] by by eapply tc_first. apply Hch in Hq. destruct (child_store s a q Hwf Hq). congruence.
  - rewrite lookup_insert_ne; [done|]. intros ->. congruence.
Qed.

Lemma link_path_mono s q qr new nr l1 l2 x y : s !! q = Some qr -> unused s new nr -> r_children qr = l1 ++ l2 -> rtc (child s) x y -> rtc (child (link s q qr new nr (l1 ++ new :: l2))) x y.
Proof.
  intros Eq (En & _ & Hn) El H. induction H as [|x z y (r & Er & Hin) _ IH]; [apply rtc_refl|]. eapply rtc_l; [|done]. unfold child. rewrite link_lookup. destruct (decide (z = new)) as [->|]; [assert (r = nr) by congruence; subst; rewrite Hn in Hin; set_solver|].
  destruct (decide (z = q)) as [->|]; [|by exists r]. eexists. split; [done|]. assert (r = qr) by congruence. subst. cbn [set_children r_children]. rewrite El in Hin. set_solver.
Qed.

Section regions.
Context (kzalloc : store -> option Z) (s : store) (parent b n : Z) (name : list Z) (flags a : Z) (pr : resource).
Hypotheses (Hwf : wf s) (Hb : is_u32 b) (Hk : kzalloc s = Some a) (Ha : s !! a = None) (Hp : s !! parent = Some pr).

Local Abbreviation nr := (region b n name flags).
Local Abbreviation s1 := (<[a := nr]> s).

Lemma region_alloc : wf s1 /\ (forall c p, child s1 c p <-> child s c p) /\ unused s1 a nr /\ s1 !! parent = Some pr /\ parent <> a.
Proof using Hwf Hb Ha Hp.
  assert (Hne : parent <> a) by congruence. destruct (wf_alloc s a nr Hwf Ha Hb (u32_range _) eq_refl eq_refl) as [H1 H2]. split; [done|]. split; [done|]. split; [split; [by rewrite lookup_insert_eq|done]|]. split; [by rewrite lookup_insert_ne|done].
Qed.

Lemma request_region_cases :
  (exists s', __request_region kzalloc s parent b n name flags = Some (s', Some a) /\ granted s1 s' parent a nr) \/
  (__request_region kzalloc s parent b n name flags = Some (s, None) /\ (~ fits pr nr \/ obstacle s parent nr)).
Proof using Hwf Hb Hk Ha Hp.
  destruct region_alloc as (Hw1 & Hch & Hu & Hp1 & Hne). unfold __request_region. rewrite Hk. fold nr.
  destruct (region_spec s1 a nr Hw1 Hu (S (size s1)) [] parent pr Hp1 Hne (above_nil _ _) ltac:(simpl; lia)) as [(s' & -> & Hg)|[-> H]]; [left; by exists s'|right]. rewrite delete_insert_id by done. split; [done|].
  destruct H as [H|H]; [by left|right]. by apply (obstacle_alloc s a nr parent nr) in H.
Qed.

Lemma request_region_grant s' : granted s1 s' parent a nr -> fits pr nr /\ ~ obstacle s parent nr.
Proof using Hwf Hb Ha Hp.
  destruct region_alloc as (Hw1 & Hch & Hu & Hp1 & Hne). intros Hg. split; [by eapply granted_fits|]. intros H. eapply granted_free; [exact Hw1|exact Hg|]. by apply (obstacle_alloc s a nr parent nr).
Qed.

(** The region can be released again. *)
Lemma region_released s' : granted s1 s' parent a nr -> __release_region s' parent b n = Some (s, true).
Proof using Hwf Hb Hk Ha Hp.
  destruct region_alloc as (Hw1 & Hch & Hu & Hp1 & Hne). intros Hg. pose proof (granted_wf _ _ _ _ _ Hw1 Hg) as Hw'. pose proof (granted_fits _ _ _ _ _ pr Hw1 Hg Hp1) as (_ & Hbe & _). destruct Hg as [_ (q & qr & l1 & l2 & Hq & Eq & Hqn & -> & _ & El & _ & _ & H3)].
  set (s' := link s1 q qr a nr (l1 ++ a :: l2)) in *. assert (Hps : exists pr', s' !! parent = Some pr'). { unfold s'. rewrite link_lookup, decide_False by done. destruct (decide (parent = q)); [by eexists|by exists pr]. }
  destruct Hps as [pr' Ep']. unfold __release_region. rewrite Ep'. cbn [mbind option_bind]. cbn [region r_start r_end] in Hbe.
  destruct (release_loop_spec s' b (u32 (b + n - 1)) Hw' (S (size s')) [] parent pr' [] (r_children pr') Ep' eq_refl) as (out & -> & _ & Hout); [split; [constructor|set_solver]|simpl; lia|]. cbn [mbind option_bind].
  assert (Hreg : is_region s' b (u32 (b + n - 1)) q a) by (apply (link_is_region s1 q qr a nr l1 l2 Hu Hqn), region_busy). assert (Hpath : tc (child s') a parent) by (eapply tc_rtc_r; [apply tc_once, Hreg|by apply link_path_mono]).
  apply tc_last in Hpath as (x & Hax & Hxp). assert (out = Some (q, a)) as -> by (apply (Hout q a x Hbe Hreg); [destruct Hxp as (r & Er & Hin); by assert (r = pr') as <- by congruence|done|by apply (granted_open s1 q qr a nr l1 l2 parent x)]). cbn [mbind option_bind].
  unfold s'. rewrite link_lookup, decide_False, decide_True by done. cbn [mbind option_bind set_children r_children]. pose proof (children_nodup s1 q qr Hw1 Eq) as Hnd. assert (Hni : a ∉ l1) by (intros H; apply (unused_no_child s1 a nr q Hw1 Hu); exists qr; split; [done|rewrite El; set_solver]).
  rewrite unlink_spec by done. cbn [mbind option_bind]. unfold update. rewrite link_lookup, decide_False, decide_True by done. cbn [mbind option_bind]. do 2 f_equal. apply map_eq. intros y. destruct (decide (y = a)) as [->|]; [by rewrite lookup_delete_eq|]. rewrite lookup_delete_ne by done.
  destruct (decide (y = q)) as [->|]; [rewrite lookup_insert_eq, <- El; rewrite lookup_insert_ne in Eq by done; rewrite Eq; by destruct qr|]. rewrite lookup_insert_ne, link_lookup, !decide_False, lookup_insert_ne by done. done.
Qed.

End regions.

(** The check takes the region it was granted back. *)
Lemma check_region_cases kzalloc s parent b n a pr : wf s -> is_u32 b -> kzalloc s = Some a -> s !! a = None -> s !! parent = Some pr ->
  let nr := region b n check_region_name 0 in
  __check_region kzalloc s parent b n = Some (s, 0) /\ fits pr nr /\ ~ obstacle s parent nr \/ __check_region kzalloc s parent b n = Some (s, - EBUSY) /\ (~ fits pr nr \/ obstacle s parent nr).
Proof.
  intros Hwf Hb Hk Ha Hp nr. unfold __check_region. destruct (request_region_cases kzalloc s parent b n check_region_name 0 a pr Hwf Hb Hk Ha Hp) as [(s' & -> & Hg)|[-> H]]; cbn [mbind option_bind]; [left|by right]. split; [|exact (request_region_grant s parent b n check_region_name 0 a pr Hwf Hb Ha Hp s' Hg)].
  destruct (region_alloc s parent b n check_region_name 0 a pr Hwf Hb Ha Hp) as (Hw1 & Hch & Hu & _). pose proof (granted_wf _ _ _ _ _ Hw1 Hg) as Hw'. destruct Hg as [_ (q & qr & l1 & l2 & Hq & Eq & Hqn & -> & _ & El & _)]. rewrite link_released; [|done|done|by apply unused_detached|done|done]. cbn [mbind option_bind]. by rewrite delete_insert_id.
Qed.

(** ** Exclusive regions *)

(** A busy resource has nothing below it. *)
Definition exclusive (s : store) : Prop := wf s /\ forall a r, s !! a = Some r -> busy r = true -> r_children r = [].

Lemma exclusive_disjoint s root a c ar cr : exclusive s -> rtc (child s) a root -> rtc (child s) c root -> a <> c -> s !! a = Some ar -> s !! c = Some cr -> busy ar = true -> busy cr = true -> disjoint_ranges ar cr.
Proof.
  intros [Hwf He] Ha Hc Hne Ea Ec Hba Hbc. assert (Hleaf : forall x y yr, x <> y -> s !! y = Some yr -> busy yr = true -> ~ rtc (child s) x y).
  { intros x y yr Hxy Ey Hby H. apply rtc_inv_r in H as [?|(z & _ & r & Er & Hin)]; [done|]. assert (r = yr) by congruence. subst. rewrite (He y yr) in Hin by done. set_solver. }
  destruct (laminar s root Hwf a c ar cr Ha Hc Ea Ec) as [H|[H|H]]; [exfalso; by eapply (Hleaf a c)|exfalso; by eapply (Hleaf c a)|done].
Qed.

Lemma exclusive_granted s s' parent new nr pr : exclusive s -> granted s s' parent new nr -> s !! parent = Some pr -> busy pr = false -> exclusive s'.
Proof.
  intros [Hwf He] Hg Ep Hbp. split; [by eapply granted_wf|]. destruct Hg as [Hu (q & qr & l1 & l2 & Hq & Eq & Hqn & -> & _ & El & _ & _ & H3)]. intros a r. rewrite link_lookup. destruct (decide (a = new)) as [->|]; [intros H _; injection H as <-; apply Hu|]. destruct (decide (a = q)) as [->|]; [|apply He].
  intros H Hb. injection H as <-. exfalso. change (busy qr = true) in Hb. enough (busy qr = false) by congruence. apply rtc_tc in Hq as [->|Hq]; [by assert (qr = pr) as -> by congruence|]. by apply (H3 q).
Qed.

Lemma filter_out (x : Z) (l : list Z) : x ∉ l -> filter (.≠ x) l = l.
Proof. induction l as [|y l IH]; [done|]. intros H. rewrite filter_cons_True by set_solver. rewrite IH by set_solver. done. Qed.

(** Releasing a region below which there is nothing *)
Lemma exclusive_release s parent b n : exclusive s -> is_Some (s !! parent) -> exists s' ok, __release_region s parent b n = Some (s', ok) /\
  exclusive s' /\ (if ok then exists q res qr, rtc (child s) q parent /\ is_region s b (u32 (b + n - 1)) q res /\ s !! q = Some qr /\ s' = delete res (<[q := set_children (filter (.≠ res) (r_children qr)) qr]> s) else s' = s).
Proof.
  intros Hex [pr Ep]. pose proof Hex as [Hwf He]. unfold __release_region. rewrite Ep. cbn [mbind option_bind].
  destruct (release_loop_spec s b (u32 (b + n - 1)) Hwf (S (size s)) [] parent pr [] (r_children pr) Ep eq_refl) as (out & -> & Hout & _); [split; [constructor|set_solver]|simpl; lia|]. cbn [mbind option_bind]. destruct out as [[q res]|]; [|by exists s, false].
  destruct (Hout q res eq_refl) as [Hreg Hq]. destruct Hreg as [Hch (o & Eo & Hb & Hend & Hbo)]. destruct (child_lookup s res q Hwf Hch) as (qr & o' & Eq & Hin & Eo' & Hop & _). assert (o' = o) by congruence. subst o'.
  rewrite Eq. cbn [mbind option_bind]. apply list_elem_of_split in Hin as (l1 & l2 & El). pose proof (unlink_ne s q res qr o l1 l2 Hwf Eq Eo Hop El) as Hne. pose proof (unlink_notin s q res qr o l1 l2 Hwf Eq Eo Hop El) as Hni. rewrite El, unlink_spec by set_solver. cbn [mbind option_bind]. unfold update. rewrite Eq. cbn [mbind option_bind]. eexists _, true. split; [done|].
  pose proof (wf_unlinked s q res qr o l1 l2 Hwf Eq Eo Hop El) as Hw. assert (Hdel : delete res (<[q:=set_children (l1 ++ l2) qr]> s) = delete res (unlinked s q res qr o (l1 ++ l2))) by (unfold unlinked; by rewrite delete_insert_eq).
  split; [split|].
  - rewrite Hdel. apply (wf_delete _ res (set_parent None o)); [done| |done|by apply (He res o)]. by rewrite unlinked_lookup, decide_True.
  - intros a r H Hbr. apply lookup_delete_Some in H as [Har H]. destruct (decide (a = q)) as [->|]; [|rewrite lookup_insert_ne in H by done; by apply (He a)]. rewrite lookup_insert_eq in H. injection H as <-. exfalso. assert (Hl : r_children qr = []) by by apply (He q qr). rewrite El in Hl. by destruct l1.
  - exists q, res, qr. split; [done|]. split; [split; [done|by exists o]|]. split; [done|]. do 3 f_equal. rewrite El. rewrite filter_app, filter_cons_False by (intros H; by apply H). rewrite <- filter_app. by rewrite filter_out.
Qed.

(** ** Reserving what is not yet taken *)

Definition fresh_alloc (kzalloc : store -> option Z) : Prop := forall s, exists a, kzalloc s = Some a /\ s !! a = None.

(** How many children of [root] do not end before [b] *)
Definition ends_from (s : store) (b c : Z) : Prop := match rng s c with Some (_, e) => b <= e | None => False end.

#[local] Instance ends_from_dec s b c : Decision (ends_from s b c).
Proof. unfold ends_from. destruct (rng s c) as [[x y]|]; apply _. Defined.

Definition ahead (s : store) (b : Z) (l : list Z) : nat := length (filter (ends_from s b) l).

Lemma count_lt (P Q : Z -> Prop) `{!forall x, Decision (P x)} `{!forall x, Decision (Q x)} l c : (forall x, x ∈ l -> P x -> Q x) -> c ∈ l -> Q c -> ~ P c -> (length (filter P l) < length (filter Q l))%nat.
Proof.
  intros HPQ Hc HQ HP. assert (Hle : forall l, (forall x, x ∈ l -> P x -> Q x) -> (length (filter P l) <= length (filter Q l))%nat).
  { clear. induction l as [|x l IH]; intros HPQ; [done|]. specialize (IH ltac:(intros y Hy; apply HPQ; set_solver)). rewrite !filter_cons. pose proof (HPQ x ltac:(set_solver)). destruct (decide (P x)), (decide (Q x)); simpl; try lia; tauto. }
  apply list_elem_of_split in Hc as (l1 & l2 & ->). rewrite !filter_app, !length_app, filter_cons_False, filter_cons_True by done. pose proof (Hle l1 ltac:(intros x Hx; apply HPQ; set_solver)). pose proof (Hle l2 ltac:(intros x Hx; apply HPQ; set_solver)). simpl. lia.
Qed.

Lemma ahead_rng s s' b l : (forall c, c ∈ l -> rng s' c = rng s c) -> ahead s' b l = ahead s b l.
Proof.
  unfold ahead. induction l as [|x l IH]; intros H; [done|]. specialize (IH ltac:(intros c Hc; apply H; set_solver)). rewrite !filter_cons. assert (Hx : ends_from s' b x <-> ends_from s b x) by (unfold ends_from; by rewrite H by set_solver).
  destruct (decide (ends_from s' b x)), (decide (ends_from s b x)); simpl; rewrite ?IH; tauto || done.
Qed.

Definition kept (s s' : store) (root : Z) : Prop := forall c, child s c root -> child s' c root /\ rng s' c = rng s c.

(** Every address from [b] to [e] lies in a child of [root]. *)
Definition taken (s : store) (root b e : Z) : Prop := forall x, b <= x <= e -> exists c r, child s c root /\ s !! c = Some r /\ r_start r <= x <= r_end r.

Lemma children_kept_trans s1 s2 s3 root : kept s1 s2 root -> kept s2 s3 root -> kept s1 s3 root.
Proof. intros H1 H2 c Hc. destruct (H1 c Hc) as [Hc' <-]. by apply H2. Qed.

Lemma kept_taken s s' root b e : kept s s' root -> taken s root b e -> taken s' root b e.
Proof.
  intros H Ht x Hx. destruct (Ht x Hx) as (c & r & Hc & Er & Hr). destruct (H c Hc) as [Hc' Hrng]. rewrite (rng_Some s c r Er) in Hrng. apply rng_lookup in Hrng as (r' & Er' & H1 & H2). exists c, r'. split; [done|]. split; [done|]. lia.
Qed.

Lemma taken_app s root b m e : taken s root b m -> taken s root (m + 1) e -> taken s root b e.
Proof. intros H1 H2 x Hx. destruct (decide (x <= m)); [apply H1|apply H2]; lia. Qed.

Lemma taken_child s root c r b e : child s c root -> s !! c = Some r -> r_start r <= b -> e <= r_end r -> taken s root b e.
Proof. intros Hc Er H1 H2 x Hx. exists c, r. split; [done|]. split; [done|]. lia. Qed.

Section reserve.
Context (kzalloc : store -> option Z) (name : list Z) (Hk : fresh_alloc kzalloc).

Abbreviation reserve := (__reserve_region_with_split kzalloc).
Abbreviation piece b e := (mkres b e name IORESOURCE_BUSY None []).

(** One call: the range is free, or the first child in the way splits it. *)
Lemma reserve_step fuel s root rr b e : wf s -> s !! root = Some rr -> is_u32 b -> is_u32 e -> r_start rr <= b -> b <= e -> e <= r_end rr ->
  (exists a l1 l2, reserve (S fuel) s root b e name = Some (link (<[a := piece b e]> s) root rr a (piece b e) (l1 ++ a :: l2)) /\ s !! a = None /\ r_children rr = l1 ++ l2 /\
     (forall c r, c ∈ l1 -> s !! c = Some r -> r_end r < b) /\ (forall c r, c ∈ l2 -> s !! c = Some r -> e < r_start r)) \/
  (exists c cr l1 l2, r_children rr = l1 ++ c :: l2 /\ s !! c = Some cr /\ overlaps cr b e /\ (forall d r, d ∈ l1 -> s !! d = Some r -> r_end r < b) /\
     reserve (S fuel) s root b e name =
       if (r_start cr <=? b) && (e <=? r_end cr) then Some s
       else s ← (if b <? r_start cr then reserve fuel s root b (u32 (r_start cr - 1)) name else Some s); cr ← s !! c; if r_end cr <? e then reserve fuel s root (u32 (r_end cr + 1)) e name else Some s).
Proof using Hk.
  intros Hwf Hr Hub Hue Hb Hbe He. cbn [__reserve_region_with_split]. destruct (Hk s) as (a & -> & Ha). assert (Hne : root <> a) by congruence. destruct (wf_alloc s a (piece b e) Hwf Ha Hub Hue eq_refl eq_refl) as [Hw1 Hch].
  assert (Hcs : forall c r, c ∈ r_children rr -> (<[a := piece b e]> s) !! c = Some r -> s !! c = Some r). { intros c r Hc Er. rewrite lookup_insert_ne in Er; [done|]. intros ->. destruct (children_all_in s root rr Hwf Hr c Hc). congruence. }
  assert (Hcs' : forall c r, s !! c = Some r -> (<[a := piece b e]> s) !! c = Some r) by (intros c r Er; rewrite lookup_insert_ne; [done|congruence]).
  destruct (request_cases (<[a := piece b e]> s) root a rr (piece b e) Hw1 ltac:(by rewrite lookup_insert_ne) ltac:(by rewrite lookup_insert_eq) Hne) as [[_ H]|[(l1 & c & l2 & cr & -> & Hft & El & Ec & Ho & H1)|(l1 & l2 & -> & Hft & El & H1 & H2)]]; [exfalso; apply H; by split|right|left]; cbn [mbind option_bind].
  - apply Hcs in Ec; [|rewrite El; set_solver]. exists c, cr, l1, l2. split; [done|]. split; [done|]. split; [done|]. split; [intros d r Hd Er; apply (H1 d); auto|]. rewrite delete_insert_id by done. rewrite Ec. cbn [mbind option_bind]. done.
  - exists a, l1, l2. split; [done|]. split; [done|]. split; [done|]. split; intros d r Hd Er; [apply (H1 d)|apply (H2 d)]; auto.
Qed.

(** The store with the piece in it *)
Lemma piece_linked s root rr a b e l1 l2 : wf s -> s !! root = Some rr -> is_u32 b -> is_u32 e -> r_start rr <= b -> b <= e -> e <= r_end rr -> s !! a = None -> r_children rr = l1 ++ l2 ->
  (forall c r, c ∈ l1 -> s !! c = Some r -> r_end r < b) -> (forall c r, c ∈ l2 -> s !! c = Some r -> e < r_start r) ->
  let s' := link (<[a := piece b e]> s) root rr a (piece b e) (l1 ++ a :: l2) in
  wf s' /\ s' !! root = Some (set_children (l1 ++ a :: l2) rr) /\ kept s s' root /\ taken s' root b e /\ (forall c, c <> a -> rng s' c = rng s c) /\ rng s' a = Some (b, e).
Proof using Hk.
  intros Hwf Hr Hub Hue Hb Hbe He Ha El H1 H2 s'. assert (Hne : root <> a) by congruence. destruct (wf_alloc s a (piece b e) Hwf Ha Hub Hue eq_refl eq_refl) as [Hw1 Hch].
  assert (Hcs : forall c r, c ∈ r_children rr -> (<[a := piece b e]> s) !! c = Some r -> s !! c = Some r). { intros c r Hc Er. rewrite lookup_insert_ne in Er; [done|]. intros ->. destruct (children_all_in s root rr Hwf Hr c Hc). congruence. }
  assert (Hroot : (<[a := piece b e]> s) !! root = Some rr) by by rewrite lookup_insert_ne. assert (Hd : detached (<[a := piece b e]> s) root a (piece b e)) by (apply unused_detached; [split; [by rewrite lookup_insert_eq|done]|done]).
  assert (Hrng : forall c, c <> a -> rng s' c = rng s c) by (intros c Hc; unfold s'; rewrite link_rng by done; unfold rng; by rewrite lookup_insert_ne). assert (Hra : rng s' a = Some (b, e)) by (unfold s', rng; by rewrite link_lookup, decide_True).
  split; [apply wf_link; try done; intros c r Hc Er; [apply (H1 c)|apply (H2 c)]; try done; apply Hcs; try done; rewrite El; set_solver|]. assert (Hsr : s' !! root = Some (set_children (l1 ++ a :: l2) rr)) by (unfold s'; by rewrite link_lookup, decide_False, decide_True).
  split; [done|]. split; [|split; [|done]].
  - intros c (r & Er & Hc). assert (r = rr) by congruence. subst r. split; [exists (set_children (l1 ++ a :: l2) rr); split; [done|]; cbn [set_children r_children]; rewrite El in Hc; set_solver|]. apply Hrng. intros ->. destruct (children_all_in s root rr Hwf Hr a Hc). congruence.
  - apply rng_lookup in Hra as (ra & Ea & E1 & E2). apply (taken_child s' root a ra); [exists (set_children (l1 ++ a :: l2) rr); split; [done|]; cbn [set_children r_children]; set_solver|done|lia|lia].
Qed.

Lemma reserve_covers root : forall fuel s rr b e, wf s -> s !! root = Some rr -> is_u32 b -> is_u32 e -> r_start rr <= b -> b <= e -> e <= r_end rr -> (ahead s b (r_children rr) < fuel)%nat ->
  exists s', reserve fuel s root b e name = Some s' /\ wf s' /\ kept s s' root /\ taken s' root b e.
Proof using Hk.
  induction fuel as [|fuel IH]; intros s rr b e Hwf Hr Hub Hue Hb Hbe He Hf; [lia|]. unfold is_u32 in *.
  destruct (reserve_step fuel s root rr b e Hwf Hr Hub Hue Hb Hbe He) as [(a & l1 & l2 & -> & Ha & El & H1 & H2)|(c & cr & l1 & l2 & El & Ec & [Ho1 Ho2] & H1 & ->)].
  { destruct (piece_linked s root rr a b e l1 l2 Hwf Hr Hub Hue Hb Hbe He Ha El H1 H2) as (Hw & _ & Hkp & Ht & _). by eexists. }
  assert (Hcin : c ∈ r_children rr) by (rewrite El; set_solver). assert (Hch : child s c root) by by exists rr. destruct (wf_inside s Hwf root rr c Hr Hcin) as (cr' & Ec' & Hin). assert (cr' = cr) by congruence. subst cr'. pose proof (wf_range s Hwf c cr Ec) as [Hc1 Hc2]. unfold is_u32 in *.
  destruct ((r_start cr <=? b) && (e <=? r_end cr)) eqn:E.
  { apply andb_true_iff in E as [E1%Z.leb_le E2%Z.leb_le]. exists s. split; [done|]. split; [done|]. split; [by intros d Hd|]. by eapply taken_child. }
  assert (Hcount : (ahead s (r_end cr + 1) (r_children rr) < fuel)%nat).
  { enough (ahead s (r_end cr + 1) (r_children rr) < ahead s b (r_children rr))%nat by lia. apply (count_lt _ _ _ c); [|done| |]; unfold ends_from; [intros x _; destruct (rng s x) as [[? ?]|]; [lia|done]| |]; rewrite (rng_Some s c cr Ec); lia. }
  assert (Hleft : exists s1 rr1, (if b <? r_start cr then reserve fuel s root b (u32 (r_start cr - 1)) name else Some s) = Some s1 /\ wf s1 /\ kept s s1 root /\ taken s1 root b (r_end cr) /\ s1 !! root = Some rr1 /\ same_range rr1 rr /\ (ahead s1 (r_end cr + 1) (r_children rr1) < fuel)%nat).
  { destruct (Z.ltb_spec b (r_start cr)) as [Hlt|Hge].
    - rewrite u32_id by (unfold is_u32; lia). destruct fuel as [|fuel]; [lia|].
      destruct (reserve_step fuel s root rr b (r_start cr - 1) Hwf Hr) as [(a & m1 & m2 & -> & Ha & Em & H3 & H4)|(d & dr & m1 & m2 & Em & Ed & [Hd1 Hd2] & _)]; try (unfold is_u32; lia).
      + destruct (piece_linked s root rr a b (r_start cr - 1) m1 m2 Hwf Hr) as (Hw & Hs1 & Hkp & Ht & Hrng & Hra); try done; try (unfold is_u32; lia). eexists _, _. split; [done|]. split; [done|]. split; [done|]. split; [|split; [done|split; [done|]]].
        * apply (taken_app _ _ _ (r_start cr - 1)); [done|]. eapply kept_taken; [done|]. eapply taken_child; [done|done|lia|lia].
        * cbn [set_children r_children]. assert (Ham : a ∉ r_children rr) by (intros H; destruct (children_all_in s root rr Hwf Hr a H); congruence). unfold ahead. rewrite filter_app, filter_cons_False by (unfold ends_from; rewrite Hra; lia). rewrite <- filter_app, <- Em. fold (ahead (link (<[a := piece b (r_start cr - 1)]> s) root rr a (piece b (r_start cr - 1)) (m1 ++ a :: m2)) (r_end cr + 1) (r_children rr)).
          rewrite (ahead_rng s); [done|]. intros x Hx. apply Hrng. by intros ->.
      + exfalso. assert (Hd : d ∈ l1 ++ c :: l2) by (rewrite <- El, Em; set_solver). pose proof (wf_sorted s Hwf root rr Hr) as Hs. destruct (decide (d = c)) as [->|Hdc]; [assert (dr = cr) by congruence; subst; lia|]. rewrite elem_of_app, elem_of_cons in Hd. destruct Hd as [Hd|[?|Hd]]; [pose proof (H1 d dr Hd Ed); lia|done|].
        rewrite El in Hs. clear - Hs Hd Hd1 Ed Ec Hin. induction l1 as [|y l IH]; cbn [app] in Hs; apply StronglySorted_inv in Hs as [Hs Hfa]; [|by apply IH]. rewrite Forall_forall in Hfa. destruct (Hfa d Hd) as (ra & rb & Ea & Eb & ?). simplify_eq. lia.
    - exists s, rr. split; [done|]. split; [done|]. split; [by intros d Hd|]. split; [by eapply taken_child|]. done. }
  destruct Hleft as (s1 & rr1 & -> & Hw1 & Hk1 & Ht1 & Hr1 & [Hrs Hre] & Hf1). cbn [mbind option_bind]. destruct (Hk1 c Hch) as [_ Hrc]. rewrite (rng_Some s c cr Ec) in Hrc. apply rng_lookup in Hrc as (cr1 & -> & Hc3 & Hc4). cbn [mbind option_bind]. rewrite Hc4.
  destruct (Z.ltb_spec (r_end cr) e) as [Hlt|Hge]; [|exists s1; split; [done|]; split; [done|]; split; [done|]; intros x Hx; apply Ht1; lia]. rewrite u32_id by (unfold is_u32; lia).
  destruct (IH s1 rr1 (r_end cr + 1) e Hw1 Hr1) as (s2 & E2 & Hw2 & Hk2 & Ht2); try (unfold is_u32; lia). exists s2. split; [done|]. split; [done|]. split; [by eapply children_kept_trans|]. apply (taken_app _ _ _ (r_end cr)); [by eapply kept_taken|done].
Qed.

(** Out of its bounds the root itself is in the way, and the rest is never smaller. *)
Lemma reserve_diverges root rr : forall fuel s b e, s !! root = Some rr -> is_u32 (r_start rr) -> is_u32 (r_end rr) -> is_u32 b -> is_u32 e -> b < r_start rr \/ r_end rr < e -> reserve fuel s root b e name = None.
Proof using Hk.
  induction fuel as [|fuel IH]; intros s b e Hr Hs1 He1 Hub Hue Hout; [done|]. unfold is_u32 in *. cbn [__reserve_region_with_split]. destruct (Hk s) as (a & -> & Ha). assert (Hne : root <> a) by congruence.
  assert (__request_resource (<[a := piece b e]> s) root a = Some (<[a := piece b e]> s, Some root)) as ->.
  { unfold __request_resource. rewrite lookup_insert_eq, lookup_insert_ne, Hr by done. cbn [mbind option_bind r_start r_end]. zbool; done. }
  cbn [mbind option_bind]. rewrite delete_insert_id by done. rewrite Hr. cbn [mbind option_bind]. assert ((r_start rr <=? b) && (e <=? r_end rr) = false) as -> by (apply andb_false_iff; destruct Hout; [left|right]; lia).
  destruct (Z.ltb_spec b (r_start rr)) as [Hlt|Hge]; [rewrite u32_id by (unfold is_u32; lia); rewrite IH; done || (unfold is_u32; lia)|]. cbn [mbind option_bind]. rewrite Hr. cbn [mbind option_bind]. destruct (Z.ltb_spec (r_end rr) e); [|lia]. rewrite u32_id by (unfold is_u32; lia). apply IH; done || (unfold is_u32; lia).
Qed.

End reserve.

(** ** Walks over a tree *)

(** What is left to visit after what is below [p]: the resources behind it, and those behind what is above it *)
Inductive pending (s : store) : Z -> list Z -> Prop :=
  | pending_root p r : s !! p = Some r -> r_parent r = None -> pending s p []
  | pending_child p r q qr l1 l2 L : s !! p = Some r -> r_parent r = Some q -> s !! q = Some qr -> r_children qr = l1 ++ p :: l2 -> p ∉ l1 -> pending s q L -> pending s p (l2 ++ L).

Lemma after_spec p l1 l2 : p ∉ l1 -> after p (l1 ++ p :: l2) = head l2.
Proof.
  induction l1 as [|x l1 IH]; intros H; cbn [app].
  - destruct l2 as [|y l2]; cbn [after]; [done|by rewrite Z.eqb_refl].
  - specialize (IH ltac:(set_solver)). cbn [after]. destruct (l1 ++ p :: l2) as [|y t] eqn:E; [by destruct l1|]. destruct (Z.eqb_spec x p); [set_solver|done].
Qed.

(** [vis] are resources below [p]. *)
Definition beneath (s : store) (p : Z) (vis : list Z) : Prop := NoDup vis /\ forall v, v ∈ vis -> is_Some (s !! v) /\ tc (child s) v p.

Lemma climb_spec s : wf s -> forall p L, pending s p L -> forall fuel vis, beneath s p vis -> (size s < fuel + S (length vis))%nat -> climb fuel s p = Some (head L).
Proof.
  intros Hwf. assert (Hfuel : forall p fuel vis, is_Some (s !! p) -> beneath s p vis -> (size s < fuel + S (length vis))%nat -> exists f, fuel = S f /\ NoDup (p :: vis)).
  { intros p fuel vis Ep [Hn Hv] Hf. assert (Hnd : NoDup (p :: vis)) by (apply NoDup_cons; split; [|done]; intros H; by apply (tc_irrefl s p Hwf), Hv). pose proof (nodup_size s (p :: vis) Hnd ltac:(intros v [->|H]%elem_of_cons; [done|by apply Hv])) as Hle. simpl in Hle. destruct fuel as [|f]; [lia|by exists f]. }
  induction 1 as [p r E Hp|p r q qr l1 l2 L E Hp Eq El Hn Hq IH]; intros fuel vis Hb Hf; destruct (Hfuel p fuel vis ltac:(by exists r) Hb Hf) as (f & -> & Hnd); cbn [climb]; unfold sibling; rewrite E; cbn [mbind option_bind]; rewrite Hp; cbn [mbind option_bind].
  - done.
  - rewrite Eq. cbn [mbind option_bind]. rewrite El, after_spec by done. destruct l2 as [|y l2]; [|done]. cbn [head app]. apply (IH f (p :: vis)); [|simpl; lia]. split; [done|]. assert (Hc : child s p q) by (exists qr; split; [done|rewrite El; set_solver]). intros v [->|H]%elem_of_cons; [split; [by exists r|by apply tc_once]|]. destruct Hb as [_ Hv]. destruct (Hv v H). split; [done|by eapply tc_r].
Qed.

Lemma pending_next s p y Y : wf s -> pending s p (y :: Y) -> pending s y Y.
Proof.
  intros Hwf H. remember (y :: Y) as L0 eqn:EL. induction H as [|p r q qr l1 l2 L E Hp Eq El Hn Hq IH]; [done|]. destruct l2 as [|z l2]; [by apply IH|]. injection EL as -> <-. assert (Hc : child s y q) by (exists qr; split; [done|rewrite El; set_solver]). destruct (child_lookup s y q Hwf Hc) as (_ & yr & _ & _ & Ey & Hyp & _).
  apply (pending_child s y yr q qr (l1 ++ [p]) l2 L); try done; [by rewrite <- app_assoc|]. pose proof (children_nodup s q qr Hwf Eq) as Hnd. rewrite El, cons_middle, app_assoc, NoDup_app in Hnd. destruct Hnd as (_ & Hnd & _). intros H. apply (Hnd y H). set_solver.
Qed.

Lemma next_spec s p r L : wf s -> s !! p = Some r -> pending s p L -> r_next s p = Some (head (r_children r ++ L)) /\ (forall c Y, r_children r ++ L = c :: Y -> pending s c Y).
Proof.
  intros Hwf E Hp. unfold r_next. rewrite E. cbn [mbind option_bind]. destruct (r_children r) as [|c cs] eqn:El; cbn [app head].
  - split; [|intros c Y ->; by apply (pending_next s p)]. apply (climb_spec s Hwf p L Hp (S (size s)) []); [split; [constructor|set_solver]|simpl; lia].
  - split; [done|]. intros x Y H. injection H as <- <-. assert (Hc : child s c p) by (exists r; split; [done|rewrite El; set_solver]). destruct (child_lookup s c p Hwf Hc) as (_ & cr & _ & _ & Ec & Hcp & _). apply (pending_child s c cr p r [] cs L); try done. set_solver.
Qed.

(** Both loops: [test] tells where to stop, and with what. *)
Fixpoint walk (test : resource -> option Z) (fuel : nat) (s : store) (p : option Z) : option Z :=
  match p with
  | None => Some 0
  | Some p =>
      match fuel with
      | O => None
      | S fuel => r ← s !! p; match test r with Some v => Some v | None => p ← r_next s p; walk test fuel s p end
      end
  end.

Definition below (s : store) (L : list Z) (z : Z) : Prop := exists x, x ∈ L /\ rtc (child s) z x.

Definition ranged (s : store) (L : list Z) : Prop := forall x, x ∈ L -> exists r, s !! x = Some r /\ r_start r <= r_end r.

Lemma before_apart s x y xr yr : wf s -> before s x y -> s !! x = Some xr -> s !! y = Some yr -> r_start xr <= r_end xr -> r_start yr <= r_end yr -> ~ rtc (child s) x y /\ ~ rtc (child s) y x.
Proof.
  intros Hwf (ra & rb & Ea & Eb & Hlt) Ex Ey Hx Hy. assert (ra = xr) by congruence. assert (rb = yr) by congruence. subst. split; intros H; [destruct (below_inside s x y _ _ Hwf H Ex Ey)|destruct (below_inside s y x _ _ Hwf H Ey Ex)]; lia.
Qed.

(** The stack after [p] *)
Lemma stack_step s p r L vis : wf s -> s !! p = Some r -> StronglySorted (before s) (p :: L) -> ranged s (p :: L) -> visited s vis (p :: L) ->
  StronglySorted (before s) (r_children r ++ L) /\ ranged s (r_children r ++ L) /\ visited s (p :: vis) (r_children r ++ L).
Proof.
  intros Hwf E Hs Hr Hv. apply StronglySorted_inv in Hs as [Hs Hf]. rewrite Forall_forall in Hf. destruct (Hr p ltac:(set_solver)) as (r' & E' & Hpr). assert (r' = r) by congruence. subst r'. assert (Hch : forall c, c ∈ r_children r -> child s c p) by (intros c Hc; by exists r).
  assert (Hr' : ranged s (r_children r ++ L)). { intros x [Hx|Hx]%elem_of_app; [|apply Hr; set_solver]. destruct (child_lookup s x p Hwf (Hch x Hx)) as (r0 & xr & _ & _ & Ex & _ & ?). exists xr. split; [done|lia]. }
  split; [|split; [done|]].
  - assert (Hcl : forall c y, c ∈ r_children r -> y ∈ L -> before s c y). { intros c y Hc Hy. destruct (child_lookup s c p Hwf (Hch c Hc)) as (r' & cr & E2 & _ & Ec & _ & ?). simplify_eq. destruct (Hf y Hy) as (ra & rb & Ea & Eb & ?). simplify_eq. exists cr, rb. split; [done|]. split; [done|]. lia. }
    pose proof (wf_sorted s Hwf p r E) as Hsc. clear - Hs Hsc Hcl. induction Hsc as [|c l Hsc IH Hfc]; [done|]. cbn [app]. constructor; [apply IH; intros x y Hx; apply Hcl; set_solver|]. apply Forall_app. split; [done|]. apply Forall_forall. intros y Hy. apply Hcl; [set_solver|done].
  - apply (visited_add s p vis (p :: L)); [done|done|set_solver|by exists r| |intros y [Hy|Hy]%elem_of_app; [left; by apply rtc_once, Hch|right; set_solver]].
    intros y [Hy|Hy]%elem_of_app H; [eapply no_cycle; [done|exact H|by apply tc_once, Hch]|]. destruct (Hr y ltac:(set_solver)) as (yr & Ey & Hyr). by destruct (before_apart s p y r yr Hwf (Hf y Hy) E Ey Hpr Hyr) as [? _].
Qed.

Lemma walk_spec test s : wf s -> forall fuel vis L, (forall p Y, L = p :: Y -> pending s p Y) -> StronglySorted (before s) L -> ranged s L -> visited s vis L -> (size s <= fuel + length vis)%nat ->
  exists v, walk test fuel s (head L) = Some v /\
    ((v = 0 /\ forall z r, below s L z -> s !! z = Some r -> test r = None) \/
     (exists x xr, below s L x /\ s !! x = Some xr /\ test xr = Some v /\ forall z r, below s L z -> s !! z = Some r -> test r = None \/ r_start xr <= r_start r)).
Proof.
  intros Hwf. induction fuel as [|fuel IH]; intros vis L Hpend Hs Hr Hv Hf; (destruct L as [|p L]; [exists 0; split; [done|]; left; split; [done|]; intros z r (x & Hx & _); set_solver|]); destruct (Hr p ltac:(set_solver)) as (pr & Ep & Hpr).
  { exfalso. pose proof (visited_add s p vis (p :: L) [] Hwf Hv ltac:(set_solver) ltac:(by exists pr) ltac:(set_solver) ltac:(set_solver)) as (Hn & Hv' & _). pose proof (nodup_size s (p :: vis) Hn Hv') as Hle. simpl in Hle. lia. }
  cbn [walk head]. rewrite Ep. cbn [mbind option_bind]. destruct (test pr) as [v|] eqn:Et.
  - exists v. split; [done|]. right. exists p, pr. split; [exists p; split; [set_solver|apply rtc_refl]|]. split; [done|]. split; [done|]. intros z r (x & Hx & Hz) Ez. right. destruct (Hr x Hx) as (xr & Ex & Hxr). destruct (below_inside s z x r xr Hwf Hz Ez Ex). apply elem_of_cons in Hx as [->|Hx]; [simplify_eq; lia|].
    apply StronglySorted_inv in Hs as [_ Hs]. rewrite Forall_forall in Hs. destruct (Hs x Hx) as (ra & rb & Ea & Eb & ?). simplify_eq. lia.
  - destruct (next_spec s p pr L Hwf Ep (Hpend p L eq_refl)) as [-> Hpend']. cbn [mbind option_bind]. destruct (stack_step s p pr L vis Hwf Ep Hs Hr Hv) as (Hs' & Hr' & Hv'). destruct (IH (p :: vis) (r_children pr ++ L) Hpend' Hs' Hr' Hv' ltac:(simpl; lia)) as (v & -> & H). exists v. split; [done|].
    assert (Hbel : forall z, below s (p :: L) z <-> z = p \/ below s (r_children pr ++ L) z).
    { intros z. split.
      - intros (x & [->|Hx]%elem_of_cons & Hz); [apply rtc_inv_r in Hz as [->|(c & Hz & (r & Er & Hc))]; [by left|right; simplify_eq; exists c; split; [set_solver|done]]|right; exists x; split; [set_solver|done]].
      - intros [->|(x & [Hx|Hx]%elem_of_app & Hz)]; [exists p; split; [set_solver|apply rtc_refl]| |exists x; split; [set_solver|done]]. exists p. split; [set_solver|]. eapply rtc_r; [done|by exists pr]. }
    destruct H as [[-> H]|(x & xr & Hx & Ex & Etx & H)]; [left|right].
    + split; [done|]. intros z r [->|Hz]%Hbel Ez; [by simplify_eq|by apply (H z)].
    + exists x, xr. split; [apply Hbel; by right|]. split; [done|]. split; [done|]. intros z r [->|Hz]%Hbel Ez; [left; by simplify_eq|by apply (H z)].
Qed.

(** The tests of the two loops *)
Definition sanity_test (addr sz : Z) (r : resource) : option Z :=
  if u32 (addr + sz) <=? r_start r then None
  else if r_end r <? addr then None
  else if (PFN_DOWN (r_start r) <=? PFN_DOWN addr) && (PFN_DOWN (u32 (addr + sz - 1)) <=? PFN_DOWN (r_end r)) then None
  else if busy r then None else Some (-1).

Definition exclusive_test (addr : Z) (r : resource) : option Z :=
  if addr + 4096 <=? r_start r then Some 0
  else if r_end r <? addr then None
  else if busy r && has_flag r IORESOURCE_EXCLUSIVE then Some 1 else None.

Lemma sanity_walk addr sz s : forall fuel p, sanity_loop fuel s p addr sz = walk (sanity_test addr sz) fuel s p.
Proof.
  induction fuel as [|fuel IH]; intros [p|]; try done. cbn [sanity_loop walk]. destruct (s !! p) as [r|]; [|done]. cbn [mbind option_bind]. unfold sanity_test. repeat match goal with |- context [if ?b then _ else _] => destruct b end; try done; destruct (r_next s p); done || apply IH.
Qed.

Lemma exclusive_walk addr s : forall fuel p, exclusive_loop fuel s p addr = walk (exclusive_test addr) fuel s p.
Proof.
  induction fuel as [|fuel IH]; intros [p|]; try done. cbn [exclusive_loop walk]. destruct (s !! p) as [r|]; [|done]. cbn [mbind option_bind]. unfold exclusive_test. repeat match goal with |- context [if ?b then _ else _] => destruct b end; try done; destruct (r_next s p); done || apply IH.
Qed.

(** The walk from the first child of a root on *)
Lemma root_walk test s p r : wf s -> s !! p = Some r -> r_parent r = None ->
  exists v, walk test (size s) s (head (r_children r)) = Some v /\
    ((v = 0 /\ forall z zr, tc (child s) z p -> s !! z = Some zr -> test zr = None) \/
     (exists x xr, tc (child s) x p /\ s !! x = Some xr /\ test xr = Some v /\ forall z zr, tc (child s) z p -> s !! z = Some zr -> test zr = None \/ r_start xr <= r_start zr)).
Proof.
  intros Hwf E Hp. assert (Hb : forall z, below s (r_children r) z <-> tc (child s) z p).
  { intros z. split; [intros (x & Hx & Hz); eapply tc_rtc_l; [done|apply tc_once; by exists r]|]. intros H. apply tc_last in H as (x & Hz & (r' & E' & Hx)). simplify_eq. by exists x. }
  destruct (next_spec s p r [] Hwf E (pending_root s p r E Hp)) as [_ Hn]. rewrite app_nil_r in Hn. destruct (walk_spec test s Hwf (size s) [] (r_children r) Hn (wf_sorted s Hwf p r E)) as (v & -> & H).
  - intros x Hx. destruct (wf_inside s Hwf p r x E Hx) as (xr & Ex & ?). exists xr. split; [done|lia].
  - split; [constructor|set_solver].
  - simpl. lia.
  - exists v. split; [done|]. setoid_rewrite Hb in H. done.
Qed.

(** ** The operations are correct *)

(** C20. [__request_region] grants a range exactly if it is one of [parent] and everything below [parent] that it overlaps holds it and is not busy.  The tree then is well formed and has the region as a child of a resource at or below [parent], and [__release_region] gives the tree from before back.  If not, nothing changes.  [__check_region] tells which of the two it is and changes nothing. *)
Theorem request_region_correct kzalloc s parent b n name flags a pr : wf s -> is_u32 b -> kzalloc s = Some a -> s !! a = None -> s !! parent = Some pr ->
  let nr := region b n name flags in
  (fits pr nr /\ ~ obstacle s parent nr -> exists s' q, __request_region kzalloc s parent b n name flags = Some (s', Some a) /\ wf s' /\ rtc (child s) q parent /\ is_region s' b (u32 (b + n - 1)) q a /\ __release_region s' parent b n = Some (s, true)) /\
  (~ (fits pr nr /\ ~ obstacle s parent nr) -> __request_region kzalloc s parent b n name flags = Some (s, None)) /\
  (fits pr nr /\ ~ obstacle s parent nr -> __check_region kzalloc s parent b n = Some (s, 0)) /\
  (~ (fits pr nr /\ ~ obstacle s parent nr) -> __check_region kzalloc s parent b n = Some (s, - EBUSY)).
Proof.
  intros Hwf Hb Hk Ha Hp nr. pose proof (request_region_cases kzalloc s parent b n name flags a pr Hwf Hb Hk Ha Hp) as Hcases. pose proof (check_region_cases kzalloc s parent b n a pr Hwf Hb Hk Ha Hp) as Hcheck. destruct Hcases as [(s' & E & Hg)|[E H]].
  - destruct (request_region_grant s parent b n name flags a pr Hwf Hb Ha Hp s' Hg) as [Hf Ho]. destruct (region_alloc s parent b n name flags a pr Hwf Hb Ha Hp) as (Hw1 & Hch & Hu & _). destruct Hcheck as [[Hcheck _]|[_ Hno]]; [|exfalso; destruct Hno as [Hno|Hno]; [exact (Hno Hf)|exact (Ho Hno)]].
    split; [|split; [tauto|split; [done|tauto]]]. intros _. pose proof (granted_wf _ _ _ _ _ Hw1 Hg) as Hw'. pose proof (region_released kzalloc s parent b n name flags a pr Hwf Hb Hk Ha Hp s' Hg) as Hrel. destruct Hg as [_ (q & qr & l1 & l2 & Hq & Eq & Hqn & -> & _)]. eexists _, q. split; [done|]. split; [done|]. split; [|split; [|done]].
    + clear - Hq Hch. induction Hq as [|x y z Hxy _ IH]; [apply rtc_refl|eapply rtc_l; [by apply Hch|done]].
    + apply (link_is_region _ q qr a nr l1 l2 Hu Hqn), region_busy.
  - destruct Hcheck as [[_ [Hy1 Hy2]]|[Hcheck _]]; [exfalso; destruct H as [H|H]; [exact (H Hy1)|exact (Hy2 H)]|]. tauto.
Qed.

(** Requests, checks and releases, of parents that are not busy *)
Inductive region_step (s : store) : store -> Prop :=
  | step_request kzalloc parent pr b n name flags a s' res : kzalloc s = Some a -> s !! a = None -> is_u32 b -> s !! parent = Some pr -> busy pr = false -> __request_region kzalloc s parent b n name flags = Some (s', res) -> region_step s s'
  | step_check kzalloc parent pr b n a s' err : kzalloc s = Some a -> s !! a = None -> is_u32 b -> s !! parent = Some pr -> __check_region kzalloc s parent b n = Some (s', err) -> region_step s s'
  | step_release parent b n s' ok : is_Some (s !! parent) -> __release_region s parent b n = Some (s', ok) -> region_step s s'.

Lemma region_step_exclusive s s' : exclusive s -> region_step s s' -> exclusive s'.
Proof.
  intros Hex H. pose proof Hex as [Hwf He]. destruct H as [kzalloc parent pr b n name flags a s' res Hk Ha Hb Hp Hbp E|kzalloc parent pr b n a s' err Hk Ha Hb Hp E|parent b n s' ok Hp E].
  - destruct (request_region_cases kzalloc s parent b n name flags a pr Hwf Hb Hk Ha Hp) as [(s2 & E2 & Hg)|[E2 _]]; [|by assert (s' = s) as -> by congruence]. assert (s2 = s') as -> by congruence. destruct (region_alloc s parent b n name flags a pr Hwf Hb Ha Hp) as (Hw1 & Hch & Hu & Hp1 & _).
    eapply exclusive_granted; [|exact Hg|exact Hp1|done]. split; [done|]. intros x r. destruct (decide (x = a)) as [->|]; [rewrite lookup_insert_eq; intros H _; by injection H as <-|]. rewrite lookup_insert_ne by done. apply He.
  - destruct (check_region_cases kzalloc s parent b n a pr Hwf Hb Hk Ha Hp) as [[E2 _]|[E2 _]]; by assert (s' = s) as -> by congruence.
  - destruct (exclusive_release s parent b n Hex Hp) as (s2 & ok2 & E2 & Hx & _). by assert (s' = s2) as -> by congruence.
Qed.

(** C19. From a tree in which nothing is below a busy resource, whatever regions are requested, checked and released: two busy regions of one tree never overlap, and a release always ends. *)
Theorem regions_exclusive s0 s : exclusive s0 -> rtc region_step s0 s ->
  (forall root a c ar cr, rtc (child s) a root -> rtc (child s) c root -> a <> c -> s !! a = Some ar -> s !! c = Some cr -> busy ar = true -> busy cr = true -> disjoint_ranges ar cr) /\
  (forall parent b n, is_Some (s !! parent) -> exists s' ok, __release_region s parent b n = Some (s', ok)).
Proof.
  intros Hex H. assert (Hs : exclusive s) by (induction H as [|x y z Hxy _ IH]; [done|]; apply IH; exact (region_step_exclusive _ _ Hex Hxy)). split; [intros root a c ar cr; by apply exclusive_disjoint|]. intros parent b n Hp. destruct (exclusive_release s parent b n Hs Hp) as (s' & ok & E & _). by exists s', ok.
Qed.

(** C23. [__reserve_region_with_split], with memory for every piece: within [root], depth one more than the number of children is enough, the children stay as they are, and afterwards each address of the range is in a child of [root].  If the range starts below [root] or ends above it, the recursion never ends. *)
Theorem reserve_region_correct kzalloc name s root rr b e : fresh_alloc kzalloc -> wf s -> s !! root = Some rr -> is_u32 b -> is_u32 e ->
  (r_start rr <= b /\ b <= e /\ e <= r_end rr -> exists s', __reserve_region_with_split kzalloc (S (length (r_children rr))) s root b e name = Some s' /\ wf s' /\ kept s s' root /\ taken s' root b e) /\
  (b < r_start rr \/ r_end rr < e -> forall fuel, __reserve_region_with_split kzalloc fuel s root b e name = None).
Proof.
  intros Hk Hwf Hr Hb He. split.
  - intros (H1 & H2 & H3). apply (reserve_covers kzalloc name Hk root _ s rr); try done. unfold ahead. pose proof (length_filter (ends_from s b) (r_children rr)). lia.
  - intros Hout fuel. destruct (wf_range s Hwf root rr Hr). by apply (reserve_diverges kzalloc name Hk root rr).
Qed.

(** [iomem_map_sanity_check], for a range that ends below the top of the address space, returns 0 exactly if each resource of the tree that the range overlaps holds all its pages or is busy, and -1 otherwise.  [iomem_is_exclusive] returns 1 exactly if there is a busy and exclusive resource in the page, although it stops at the first resource behind the page.  Both walks end. *)
Theorem iomem_checks_correct s iomem r : wf s -> s !! iomem = Some r -> r_parent r = None ->
  (forall addr sz, is_u32 addr -> 1 <= sz -> addr + sz < 2 ^ 32 -> exists v, iomem_map_sanity_check s iomem addr sz = Some v /\ (v = 0 \/ v = -1) /\
    (v = 0 <-> forall z zr, tc (child s) z iomem -> s !! z = Some zr -> overlaps zr addr (addr + sz - 1) -> busy zr = false -> PFN_DOWN (r_start zr) <= PFN_DOWN addr /\ PFN_DOWN (addr + sz - 1) <= PFN_DOWN (r_end zr))) /\
  (forall addr, let page := Z.land addr 0xfffff000 in exists v, iomem_is_exclusive true s iomem addr = Some v /\ (v = 0 \/ v = 1) /\
    (v = 1 <-> exists z zr, tc (child s) z iomem /\ s !! z = Some zr /\ overlaps zr page (page + 4095) /\ busy zr = true /\ has_flag zr IORESOURCE_EXCLUSIVE = true)).
Proof.
  intros Hwf E Hp. split.
  - intros addr sz Ha Hsz Hlt. unfold is_u32 in Ha. unfold iomem_map_sanity_check. rewrite E. cbn [mbind option_bind]. rewrite sanity_walk. destruct (root_walk (sanity_test addr sz) s iomem r Hwf E Hp) as (v & -> & H). exists v. split; [done|].
    assert (Ht : forall zr, sanity_test addr sz zr = None \/ sanity_test addr sz zr = Some (-1)) by (intros zr; unfold sanity_test; repeat case_match; tauto).
    assert (Hn : forall zr, sanity_test addr sz zr = None <-> (overlaps zr addr (addr + sz - 1) -> busy zr = false -> PFN_DOWN (r_start zr) <= PFN_DOWN addr /\ PFN_DOWN (addr + sz - 1) <= PFN_DOWN (r_end zr))).
    { intros zr. unfold sanity_test, overlaps. rewrite !u32_id by (unfold is_u32; lia). zbool; destruct (busy zr); split; try done; intros; try lia; try tauto. }
    destruct H as [[-> H]|(x & xr & Hx & Ex & Etx & _)].
    + split; [by left|]. split; [|done]. intros _ z zr Hz Ez. apply Hn. by apply (H z).
    + destruct (Ht xr) as [H|H]; rewrite H in Etx; [done|]. injection Etx as <-. split; [by right|]. split; [done|]. intros Hall. exfalso. assert (Hx0 : sanity_test addr sz xr = None) by (apply Hn; by apply (Hall x)). congruence.
  - intros addr page. unfold iomem_is_exclusive. cbn [negb]. fold page. rewrite E. cbn [mbind option_bind]. rewrite exclusive_walk. destruct (root_walk (exclusive_test page) s iomem r Hwf E Hp) as (v & -> & H). exists v. split; [done|].
    assert (Hsome : forall zr w, exclusive_test page zr = Some w -> (w = 0 /\ page + 4096 <= r_start zr) \/ (w = 1 /\ overlaps zr page (page + 4095) /\ busy zr = true /\ has_flag zr IORESOURCE_EXCLUSIVE = true)).
    { intros zr w. unfold exclusive_test, overlaps. zbool; destruct (busy zr) eqn:Eb, (has_flag zr IORESOURCE_EXCLUSIVE) eqn:Ee; simpl; intros Hw; try done; injection Hw as <-; try (left; lia). right. split; [done|]. split; [lia|done]. }
    assert (Hhit : forall zr, overlaps zr page (page + 4095) -> busy zr = true -> has_flag zr IORESOURCE_EXCLUSIVE = true -> exclusive_test page zr = Some 1). { intros zr [? ?] Eb Ee. unfold exclusive_test. rewrite Eb, Ee. zbool. done. }
    destruct H as [[-> H]|(x & xr & Hx & Ex & Etx & H)].
    + split; [by left|]. split; [done|]. intros (z & zr & Hz & Ez & Ho & Hb & He). pose proof (Hhit zr Ho Hb He) as Hh. rewrite (H z zr Hz Ez) in Hh. done.
    + destruct (Hsome xr v Etx) as [[-> Hs]|[-> (Ho & Hb & He)]]; [|split; [by right|]; split; [|done]; intros _; by exists x, xr]. split; [by left|]. split; [done|]. intros (z & zr & Hz & Ez & [Ho1 Ho2] & Hb & He). pose proof (Hhit zr (conj Ho1 Ho2) Hb He) as Hh. destruct (H z zr Hz Ez) as [H'|H']; [congruence|lia].
Qed.

(** ** Examples *)

Definition nine (s : store) : option Z := Some 9.

Lemma request_region_correct_witness : exists s' q, __request_region nine tree 1 0x1200 0x100 [] 0 = Some (s', Some 9) /\ wf s' /\ is_region s' 0x1200 0x12ff q 9 /\ __release_region s' 1 0x1200 0x100 = Some (tree, true).
Proof.
  destruct (request_region_correct nine tree 1 0x1200 0x100 [] 0 9 _ tree_wf ltac:(unfold is_u32; lia) eq_refl eq_refl eq_refl) as [H _].
  destruct (request_region_cases nine tree 1 0x1200 0x100 [] 0 9 _ tree_wf ltac:(unfold is_u32; lia) eq_refl eq_refl eq_refl) as [(s' & E & Hg)|[E _]]; [|exfalso; apply (f_equal (fmap snd)) in E; by vm_compute in E].
  destruct H as (s2 & q & E2 & Hw & _ & Hreg & Hrel); [exact (request_region_grant tree 1 0x1200 0x100 [] 0 9 _ tree_wf ltac:(unfold is_u32; lia) eq_refl eq_refl s' Hg)|by exists s2, q].
Defined.

Lemma tree_exclusive : exclusive tree.
Proof.
  split; [exact tree_wf|]. change (map_Forall (fun _ r => busy r = true -> r_children r = []) tree). apply (bool_decide_unpack _). by vm_compute.
Qed.

Lemma regions_exclusive_witness : exists s, __request_region nine tree 1 0x1200 0x100 [] 0 = Some (s, Some 9) /\ (forall parent b n, is_Some (s !! parent) -> exists s' ok, __release_region s parent b n = Some (s', ok)) /\
  forall a c ar cr, rtc (child s) a 1 -> rtc (child s) c 1 -> a <> c -> s !! a = Some ar -> s !! c = Some cr -> busy ar = true -> busy cr = true -> disjoint_ranges ar cr.
Proof.
  destruct (__request_region nine tree 1 0x1200 0x100 [] 0) as [[s res]|] eqn:E; [|by vm_compute in E]. assert (Hres : res = Some 9) by (apply (f_equal (fmap snd)) in E; vm_compute in E; by injection E as <-). subst res. exists s. split; [done|].
  destruct (regions_exclusive tree s tree_exclusive) as [H1 H2]; [apply rtc_once; eapply (step_request tree nine 1 _ 0x1200 0x100 [] 0 9); [reflexivity|reflexivity|unfold is_u32; lia|reflexivity|reflexivity|exact E]|]. split; [exact H2|]. intros a c ar cr. apply H1.
Defined.

Definition first_free (s : store) : option Z := Some (fresh (dom s : gset Z)).

Lemma first_free_fresh : fresh_alloc first_free.
Proof. intros s. eexists. split; [done|]. apply not_elem_of_dom, is_fresh. Qed.

Lemma reserve_region_correct_witness : (exists s', __reserve_region_with_split first_free 3 tree 1 0x800 0x5fff [] = Some s' /\ taken s' 1 0x800 0x5fff) /\ forall fuel, __reserve_region_with_split first_free fuel tree 2 0 0x1fff [] = None.
Proof.
  split.
  - destruct (reserve_region_correct first_free [] tree 1 _ 0x800 0x5fff first_free_fresh tree_wf eq_refl ltac:(unfold is_u32; lia) ltac:(unfold is_u32; lia)) as [H _]. destruct H as (s' & E & _ & _ & Ht); [done|by exists s'].
  - apply (reserve_region_correct first_free [] tree 2 _ 0 0x1fff first_free_fresh tree_wf eq_refl ltac:(unfold is_u32; lia) ltac:(unfold is_u32; lia)). left. done.
Defined.

Lemma iomem_checks_correct_witness : iomem_map_sanity_check tree 1 0x1800 0x2900 = Some (-1) /\ (exists v, iomem_map_sanity_check tree 1 0x1800 0x2900 = Some v /\ (v = 0 \/ v = -1)) /\ exists v, iomem_is_exclusive true tree 1 0x1234 = Some v /\ (v = 0 \/ v = 1).
Proof.
  split; [by vm_compute|]. destruct (iomem_checks_correct tree 1 _ tree_wf eq_refl eq_refl) as [H1 H2]. destruct (H1 0x1800 0x2900) as (v & E & Hv & _); [done|done|done|]. destruct (H2 0x1234) as (w & E' & Hw & _). split; [by exists v|by exists w].
Defined.

End Region.
