(* ===== verification/Sort.v ===== *)
(** * lib/sort.c: heapsort

    [sort] works in place on [num] elements of [size] bytes at [base] of a byte memory.
    The counters are scaled by [size] and are of type [int] while [size] is a [size_t], so
    that the comparisons in the loops are unsigned.  [cmp_func] is an argument of the
    model that sees the bytes of the two elements; [swap_func] may be given or [NULL]. *)
From S2P Require Import Prelude Memcopy.
From Stdlib Require Import Permutation.
Import Memcopy.

Module Sort.

(** Exchange the elements at two addresses. *)
Definition swap_fn : Type := list Z -> Z -> Z -> Z -> option (list Z).

Definition u32_swap : swap_fn := fun m a b _ =>
  t ← load_word m a;
  v ← load_word m b;
  m ← store_word m a v;
  store_word m b t.

(** [do { ... } while (--size > 0)]; the fuel is [size]. *)
Fixpoint swap_loop (fuel : nat) (m : list Z) (a b size : Z) : option (list Z) :=
  match fuel with
  | O => None
  | S fuel =>
      t ← load_byte m a;
      v ← load_byte m b;
      m ← store_byte m a v;
      m ← store_byte m b t;
      if 0 <? size - 1 then swap_loop fuel m (a + 1) (b + 1) (size - 1) else Some m
  end.

Definition generic_swap : swap_fn := fun m a b size => swap_loop (Z.to_nat size) m a b size.

Section Code.
Context (cmp_func : list Z -> list Z -> Z) (base size : Z).

(** The bytes of the element [off] bytes from [base]. *)
Definition elem (m : list Z) (off : Z) : option (list Z) := read_bytes m (base + off) size.

(** [for (r = i; r * 2 + size < n; r = c)]. *)
Fixpoint sift (fuel : nat) (swap : swap_fn) (m : list Z) (r n : Z) : option (list Z) :=
  match fuel with
  | O => None
  | S fuel =>
      if u32 (s32 (r * 2) + size) <? u32 n then
        let c := s32 (r * 2 + size) in
        c ← (if u32 c <? u32 (n - size) then
               x ← elem m c; y ← elem m (c + size);
               Some (if cmp_func x y <? 0 then s32 (c + size) else c)
             else Some c);
        x ← elem m r;
        y ← elem m c;
        if 0 <=? cmp_func x y then Some m
        else m ← swap m (base + r) (base + c) size; sift fuel swap m c n
      else Some m
  end.

(** [for ( ; i >= 0; i -= size)]. *)
Fixpoint heapify (fuel : nat) (swap : swap_fn) (m : list Z) (i n : Z) : option (list Z) :=
  match fuel with
  | O => None
  | S fuel =>
      if 0 <=? i then
        m ← sift (Z.to_nat n) swap m i n;
        heapify fuel swap m (s32 (i - size)) n
      else Some m
  end.

(** [for (i = n - size; i > 0; i -= size)]. *)
Fixpoint sort_down (fuel : nat) (swap : swap_fn) (m : list Z) (i : Z) : option (list Z) :=
  match fuel with
  | O => None
  | S fuel =>
      if 0 <? i then
        m ← swap m base (base + i) size;
        m ← sift (Z.to_nat i) swap m 0 i;
        sort_down fuel swap m (s32 (i - size))
      else Some m
  end.

Definition sort (m : list Z) (num : Z) (swap_func : option swap_fn) : option (list Z) :=
  let i := s32 (u32 (num / 2 - 1) * size) in
  let n := s32 (num * size) in
  let swap := match swap_func with
              | Some f => f
              | None => if size =? 4 then u32_swap else generic_swap
              end in
  m ← heapify (S (Z.to_nat num)) swap m i n;
  sort_down (S (Z.to_nat num)) swap m (s32 (n - size)).

End Code.

(** ** Specification *)

Lemma blocks_apart size i k : 0 < size -> i <> k -> k * size + size <= i * size \/ i * size + size <= k * size.
Proof. intros. destruct (Z.lt_ge_cases i k); [right|left]; nia. Qed.

Section Spec.
Context (cmp : list Z -> list Z -> Z) (base size num L : Z).
Hypothesis Hsize : 0 < size.
Hypothesis Hnum : 0 <= num.
Hypothesis Hbase : 0 <= base.
Hypothesis Hfit : base + num * size <= L.
Hypothesis Hint : num * size <= 2 ^ 30.

(** Element [k]. *)
Definition chunk (m : list Z) (k : Z) : list Z :=
  take (Z.to_nat size) (drop (Z.to_nat (base + k * size)) m).

Definition elements (m : list Z) : list (list Z) :=
  List.map (fun k => chunk m (Z.of_nat k)) (seq 0 (Z.to_nat num)).

Definition mem_ok (m : list Z) : Prop := is_bytes m /\ zlen m = L.

(** Two blocks of bytes have been exchanged. *)
Definition exchanged (m m' : list Z) (a b : Z) : Prop :=
  mem_ok m' /\
  forall x, 0 <= x < L ->
    znth m' x = if (a <=? x) && (x <? a + size) then znth m (x - a + b)
                else if (b <=? x) && (x <? b + size) then znth m (x - b + a) else znth m x.

(** What [sort] needs of [swap_func], for the addresses it uses. *)
Definition swaps (sw : swap_fn) : Prop :=
  forall m i j, mem_ok m -> 0 <= i < num -> 0 <= j < num -> i <> j ->
    exists m', sw m (base + i * size) (base + j * size) size = Some m' /\
      exchanged m m' (base + i * size) (base + j * size).

Lemma index_bound k : 0 <= k < num -> 0 <= k * size /\ k * size + size <= num * size.
Proof. intros Hk. split; [nia|]. assert (k + 1 <= num) by lia. nia. Qed.

Lemma znth_chunk m k i : mem_ok m -> 0 <= k < num -> 0 <= i < size -> znth (chunk m k) i = znth m (base + k * size + i).
Proof.
  intros _ Hk Hi. pose proof (index_bound k Hk). unfold chunk. rewrite znth_take, znth_drop by lia. done.
Qed.

Lemma zlen_chunk m k : mem_ok m -> 0 <= k < num -> zlen (chunk m k) = size.
Proof.
  intros [_ Hl] Hk. pose proof (index_bound k Hk). unfold chunk. rewrite zlen_take; [done|]. rewrite zlen_drop; lia.
Qed.

Lemma elem_chunk m k : mem_ok m -> 0 <= k < num -> elem base size m (k * size) = Some (chunk m k).
Proof.
  intros [_ Hl] Hk. pose proof (index_bound k Hk). unfold elem, read_bytes.
  rewrite (proj2 (in_bounds_spec m (base + k * size) size)) by lia. done.
Qed.

Lemma chunk_exchanged m m' i j k :
  mem_ok m -> 0 <= i < num -> 0 <= j < num -> 0 <= k < num ->
  exchanged m m' (base + i * size) (base + j * size) ->
  chunk m' k = if k =? i then chunk m j else if k =? j then chunk m i else chunk m k.
Proof.
  intros Hm Hi Hj Hk [Hm' H]. pose proof (index_bound k Hk). apply znth_ext.
  { repeat case_match; rewrite !zlen_chunk; done. }
  intros x Hx. rewrite zlen_chunk in Hx by done. rewrite znth_chunk, H by (done || lia).
  pose proof (blocks_apart size i k Hsize) as Bi. pose proof (blocks_apart size j k Hsize) as Bj.
  destruct (Z.eqb_spec k i) as [->|Hki]; [|destruct (Z.eqb_spec k j) as [->|Hkj]]; rewrite znth_chunk by done.
  - zbool; f_equal; lia.
  - specialize (Bi ltac:(lia)). zbool; f_equal; lia.
  - specialize (Bi ltac:(lia)). specialize (Bj ltac:(lia)). zbool.
Qed.

(** [m'] is [m] with the elements below [hi] in another order. *)
Record rearranged (hi : Z) (m m' : list Z) : Prop := {
  re_ok : mem_ok m';
  re_perm : Permutation (elements m) (elements m');
  re_below : forall k, 0 <= k < hi -> exists k', 0 <= k' < hi /\ chunk m' k = chunk m k';
  re_above : forall k, hi <= k < num -> chunk m' k = chunk m k;
  re_outside : forall x, 0 <= x < L -> x < base \/ base + num * size <= x -> znth m' x = znth m x;
}.

Lemma rearranged_refl hi m : mem_ok m -> rearranged hi m m.
Proof. intros H. split; try done. intros k Hk. by exists k. Qed.

Lemma rearranged_trans hi m m' m'' : rearranged hi m m' -> rearranged hi m' m'' -> rearranged hi m m''.
Proof.
  intros [A1 A2 A3 A4 A5] [B1 B2 B3 B4 B5]. split; try done.
  - by transitivity (elements m').
  - intros k Hk. destruct (B3 k Hk) as (k1 & Hk1 & E1). destruct (A3 k1 Hk1) as (k2 & Hk2 & E2). exists k2. split; [done|congruence].
  - intros k Hk. rewrite B4, A4; done.
  - intros x Hx Ho. rewrite B5, A5; done.
Qed.

Lemma rearranged_weaken hi hi' m m' : 0 <= hi <= hi' -> hi' <= num -> rearranged hi m m' -> rearranged hi' m m'.
Proof.
  intros Hh Hn [A1 A2 A3 A4 A5]. split; try done.
  - intros k Hk. destruct (Z.ltb_spec k hi); [|exists k; split; [done|apply A4; lia]].
    destruct (A3 k ltac:(lia)) as (k' & Hk' & E). exists k'. split; [lia|done].
  - intros k Hk. apply A4. lia.
Qed.

(** A transposition of indices. *)
Definition transp (i j k : nat) : nat := if Nat.eqb k i then j else if Nat.eqb k j then i else k.

Lemma transp_perm n i j : (i < n)%nat -> (j < n)%nat -> Permutation (seq 0 n) (List.map (transp i j) (seq 0 n)).
Proof.
  intros Hi Hj. apply NoDup_Permutation_bis.
  - apply seq_NoDup.
  - by rewrite length_map.
  - intros k Hk. apply in_seq in Hk. apply in_map_iff. exists (transp i j k). split.
    + unfold transp. destruct (Nat.eqb_spec k i) as [->|]; [destruct (Nat.eqb_spec j i) as [->|]; [done|by rewrite Nat.eqb_refl]|].
      destruct (Nat.eqb_spec k j) as [->|]; [by rewrite Nat.eqb_refl|].
      destruct (Nat.eqb_spec k i), (Nat.eqb_spec k j); done.
    + apply in_seq. unfold transp. destruct (Nat.eqb k i), (Nat.eqb k j); lia.
Qed.

Lemma rearranged_swap hi m m' i j :
  mem_ok m -> 0 <= i < hi -> 0 <= j < hi -> hi <= num -> exchanged m m' (base + i * size) (base + j * size) -> rearranged hi m m'.
Proof.
  intros Hm Hi Hj Hh Hx.
  assert (Hc : forall k, 0 <= k < num -> chunk m' k = if k =? i then chunk m j else if k =? j then chunk m i else chunk m k)
    by (intros k Hk; apply chunk_exchanged; done || lia).
  pose proof (index_bound i ltac:(lia)). pose proof (index_bound j ltac:(lia)). split.
  - exact (proj1 Hx).
  - unfold elements. rewrite (transp_perm (Z.to_nat num) (Z.to_nat i) (Z.to_nat j)) at 1 by lia. rewrite map_map.
    apply eq_subrelation; [typeclasses eauto|]. apply map_ext_in. intros k Hk%in_seq. rewrite Hc by lia. unfold transp.
    destruct (Nat.eqb_spec k (Z.to_nat i)), (Nat.eqb_spec k (Z.to_nat j)), (Z.eqb_spec (Z.of_nat k) i), (Z.eqb_spec (Z.of_nat k) j); try lia; f_equal; lia.
  - intros k Hk. rewrite Hc by lia. destruct (k =? i); [by exists j|]. destruct (k =? j); [by exists i|by exists k].
  - intros k Hk. rewrite Hc by lia. destruct (Z.eqb_spec k i); [lia|]. by destruct (Z.eqb_spec k j); [lia|].
  - intros x Hx0 Ho. rewrite (proj2 Hx) by lia. zbool; done.
Qed.

(** ** Heaps *)

(** The order [cmp_func] gives: [ge x y] when [x] does not come before [y]. *)
Definition ge (x y : list Z) : Prop := 0 <= cmp x y.

Class comparator : Prop := {
  ge_total : forall x y, ge x y \/ ge y x;
  ge_trans : forall x y z, ge x y -> ge y z -> ge x z;
}.
Context `{Hcmp : !comparator}.

Definition child (k j : Z) : Prop := j = 2 * k + 1 \/ j = 2 * k + 2.

(** Every element from [lo] on dominates its children below [hi]. *)
Definition heap (lo hi : Z) (f : Z -> list Z) : Prop :=
  forall k j, lo <= k -> child k j -> j < hi -> ge (f k) (f j).

(** The same except at [r], whose children are dominated by its parent. *)
Definition nearly (lo r hi : Z) (f : Z -> list Z) : Prop :=
  (forall k j, lo <= k -> child k j -> j < hi -> k <> r -> ge (f k) (f j)) /\
  (forall p j, lo <= p -> child p r -> child r j -> j < hi -> ge (f p) (f j)).

Lemma ge_refl x : ge x x.
Proof. by destruct (ge_total x x). Qed.

Lemma not_ge x y : cmp x y < 0 -> ge y x.
Proof. intros H. destruct (ge_total x y) as [?|?]; [unfold ge in *; lia|done]. Qed.

(** Moving the root of the hole down to its larger child [c]. *)
Lemma nearly_swap lo r c hi f g :
  0 <= lo <= r -> child r c -> c < hi -> nearly lo r hi f -> ge (f c) (f r) ->
  (forall j, child r j -> j < hi -> ge (f c) (f j)) ->
  (forall k, 0 <= k < hi -> g k = if k =? r then f c else if k =? c then f r else f k) ->
  nearly lo c hi g.
Proof.
  intros Hlo Hc Hch Hn Hcr Hmax Hg. unfold nearly, child in *. destruct Hn as [H1 H2]. split.
  - intros k j Hk Hj Hjh Hkc. rewrite !Hg by lia. destruct (Z.eqb_spec k r) as [->|Hkr].
    + destruct (Z.eqb_spec j r); [lia|]. destruct (Z.eqb_spec j c); [done|]. by apply Hmax.
    + destruct (Z.eqb_spec k c); [lia|]. destruct (Z.eqb_spec j r) as [->|].
      * apply H2; try done.
      * destruct (Z.eqb_spec j c); [lia|]. by apply H1.
  - intros p j Hp Hpc Hj Hjh. assert (p = r) as -> by lia. rewrite !Hg by lia.
    destruct (Z.eqb_spec r r); [|lia]. destruct (Z.eqb_spec j r); [lia|]. destruct (Z.eqb_spec j c); [lia|]. apply H1; lia.
Qed.

Lemma scale_lt a b : a * size < b * size <-> a < b.
Proof. nia. Qed.

(** The arithmetic of the loop does not overflow. *)
Lemma sift_arith r hi :
  0 <= r -> r < hi -> hi <= num ->
  (u32 (s32 (r * size * 2) + size) <? u32 (hi * size)) = (2 * r + 1 <? hi) /\
  (2 * r + 1 < hi -> s32 (r * size * 2 + size) = (2 * r + 1) * size /\
    (u32 ((2 * r + 1) * size) <? u32 (hi * size - size)) = (2 * r + 2 <? hi) /\
    s32 ((2 * r + 1) * size + size) = (2 * r + 2) * size).
Proof.
  intros H0 H1 H2. assert (hi * size <= num * size) by nia. assert (r * size + size <= hi * size) by nia. assert (0 <= r * size) by nia.
  rewrite (s32_id (r * size * 2)) by lia. rewrite !u32_id by (unfold is_u32; lia). split.
  - pose proof (scale_lt (2 * r + 1) hi). destruct (Z.ltb_spec (r * size * 2 + size) (hi * size)), (Z.ltb_spec (2 * r + 1) hi); lia || nia.
  - intros Hlt. assert ((2 * r + 1) * size < hi * size) by nia. rewrite !s32_id by lia. split; [lia|]. split; [|lia].
    pose proof (scale_lt (2 * r + 2) hi). destruct (Z.ltb_spec ((2 * r + 1) * size) (hi * size - size)), (Z.ltb_spec (2 * r + 2) hi); lia || nia.
Qed.

Lemma sift_ok sw lo hi fuel m r :
  swaps sw -> mem_ok m -> 0 <= lo <= r -> r < hi -> hi <= num -> hi - r <= Z.of_nat fuel -> nearly lo r hi (chunk m) ->
  exists m', sift cmp base size fuel sw m (r * size) (hi * size) = Some m' /\ rearranged hi m m' /\ heap lo hi (chunk m').
Proof.
  intros Hsw. revert m r. induction fuel as [|fuel IH]; intros m r Hm Hlo Hr Hh Hf Hn; [lia|]. cbn [sift].
  destruct (sift_arith r hi) as [-> Ha]; [lia..|]. destruct (Z.ltb_spec (2 * r + 1) hi) as [H1|H1]; cycle 1.
  { exists m. split; [done|]. split; [by apply rearranged_refl|]. intros k j Hk Hj Hjh. apply (proj1 Hn); try done.
    unfold child in Hj. intros ->. lia. }
  destruct (Ha H1) as (-> & -> & E2). clear Ha.
  assert (exists c, child r c /\ c < hi /\ (forall j, child r j -> j < hi -> ge (chunk m c) (chunk m j)) /\
    (if 2 * r + 2 <? hi
     then x ← elem base size m ((2 * r + 1) * size); y ← elem base size m ((2 * r + 1) * size + size);
          Some (if cmp x y <? 0 then s32 ((2 * r + 1) * size + size) else (2 * r + 1) * size)
     else Some ((2 * r + 1) * size)) = Some (c * size)) as (c & Hc & Hch & Hmax & ->).
  { unfold child. destruct (Z.ltb_spec (2 * r + 2) hi).
    - replace ((2 * r + 1) * size + size) with ((2 * r + 2) * size) in * by lia. rewrite !elem_chunk by (done || lia).
      cbn [mbind option_bind]. rewrite E2. destruct (Z.ltb_spec (cmp (chunk m (2 * r + 1)) (chunk m (2 * r + 2))) 0) as [Hl|Hl].
      + exists (2 * r + 2). split; [lia|]. split; [lia|]. split; [|done]. intros j [->| ->] Hj; [by apply not_ge|apply ge_refl].
      + exists (2 * r + 1). split; [lia|]. split; [lia|]. split; [|done]. intros j [->| ->] Hj; [apply ge_refl|done].
    - exists (2 * r + 1). split; [lia|]. split; [lia|]. split; [|done]. intros j [->| ->] Hj; [apply ge_refl|lia]. }
  cbn [mbind option_bind]. assert (r < c) by (unfold child in Hc; lia). rewrite !elem_chunk by (done || lia). cbn [mbind option_bind].
  destruct (Z.leb_spec 0 (cmp (chunk m r) (chunk m c))) as [Hge|Hlt].
  - exists m. split; [done|]. split; [by apply rearranged_refl|]. intros k j Hk Hj Hjh.
    destruct (Z.eqb_spec k r) as [->|]; [|by apply (proj1 Hn)]. apply ge_trans with (chunk m c); [done|by apply Hmax].
  - destruct (Hsw m r c) as (m1 & -> & Hx); [done|lia|lia|lia|]. cbn [mbind option_bind].
    assert (R1 : rearranged hi m m1) by (by apply rearranged_swap with r c; try done; lia).
    destruct (IH m1 c) as (m' & E & R & Hheap); [exact (re_ok _ _ _ R1)|lia|lia|lia|lia| |].
    + apply nearly_swap with r (chunk m); try done; [by apply not_ge|]. intros k Hk. apply chunk_exchanged; done || lia.
    + exists m'. split; [done|]. split; [by apply rearranged_trans with m1|done].
Qed.

Lemma heapify_ok sw fuel m i :
  swaps sw -> mem_ok m -> -1 <= i -> 2 * i + 1 < num \/ i = -1 -> i + 1 < Z.of_nat fuel -> heap (i + 1) num (chunk m) ->
  exists m', heapify cmp base size fuel sw m (i * size) (num * size) = Some m' /\ rearranged num m m' /\ heap 0 num (chunk m').
Proof.
  intros Hsw. revert m i. induction fuel as [|fuel IH]; intros m i Hm Hi Hin Hf Hh; [lia|]. cbn [heapify].
  destruct (Z.leb_spec 0 (i * size)) as [H0|H0]; cycle 1.
  { assert (i = -1) as -> by nia. exists m. split; [done|]. split; [by apply rearranged_refl|done]. }
  assert (0 <= i) by nia. destruct (sift_ok sw i num (Z.to_nat (num * size)) m i) as (m1 & -> & R & Hh1); try done; try lia.
  - nia.
  - split.
    + intros k j Hk Hj Hjh Hki. apply Hh; [lia|done|done].
    + unfold child. intros. lia.
  - cbn [mbind option_bind]. assert (i * size <= num * size) by nia. assert (size <= num * size) by nia. rewrite s32_id by lia. replace (i * size - size) with ((i - 1) * size) by lia.
    destruct (IH m1 (i - 1)) as (m' & E & R' & Hh'); [exact (re_ok _ _ _ R)|lia|lia|lia| |].
    + by replace (i - 1 + 1) with i by lia.
    + exists m'. split; [done|]. split; [by apply rearranged_trans with m1|done].
Qed.

(** The root dominates. *)
Lemma heap_root hi f k : heap 0 hi f -> 0 <= k < hi -> ge (f 0) (f k).
Proof.
  intros Hh Hk. assert (H : forall n, Z.of_nat n < hi -> ge (f 0) (f (Z.of_nat n))).
  { intros n. induction n as [n IH] using lt_wf_ind. intros Hn. destruct n as [|n]; [apply ge_refl|].
    apply ge_trans with (f (Z.of_nat (Nat.div n 2))).
    - assert (Nat.div n 2 <= n)%nat by (apply Nat.Div0.div_le_upper_bound; lia). apply IH; lia.
    - apply Hh; [lia| |done]. unfold child. rewrite Nat2Z.inj_div. change (Z.of_nat 2) with 2. Z.to_euclidean_division_equations. lia. }
  specialize (H (Z.to_nat k)). rewrite Z2Nat.id in H by lia. apply H. lia.
Qed.

(** The elements from [hi] on are in order and dominate the others. *)
Definition top_sorted (hi : Z) (f : Z -> list Z) : Prop :=
  forall a b, 0 <= a < b -> hi <= b < num -> ge (f b) (f a).

Lemma sort_down_ok sw fuel m hi :
  swaps sw -> mem_ok m -> 0 <= hi -> hi <= num -> hi < Z.of_nat fuel + 1 -> 1 <= Z.of_nat fuel -> heap 0 hi (chunk m) -> top_sorted hi (chunk m) ->
  exists m', sort_down cmp base size fuel sw m ((hi - 1) * size) = Some m' /\ rearranged num m m' /\ top_sorted 0 (chunk m').
Proof.
  intros Hsw. revert m hi. induction fuel as [|fuel IH]; intros m hi Hm H0 Hh Hf Hf1 Hheap Htop; [lia|]. cbn [sort_down].
  destruct (Z.ltb_spec 0 ((hi - 1) * size)) as [Hpos|Hneg]; cycle 1.
  { assert (hi <= 1) by nia. exists m. split; [done|]. split; [by apply rearranged_refl|]. intros a b Ha Hb. apply Htop; lia. }
  assert (2 <= hi) by nia. set (i := hi - 1) in *.
  destruct (Hsw m 0 i) as (m1 & Esw & Hx); [done|lia|lia|lia|]. replace (base + 0 * size) with base in Esw by lia. rewrite Esw. cbn [mbind option_bind].
  assert (R1 : rearranged hi m m1) by (apply rearranged_swap with 0 i; try done; lia).
  assert (Hc : forall k, 0 <= k < num -> chunk m1 k = if k =? 0 then chunk m i else if k =? i then chunk m 0 else chunk m k)
    by (intros k Hk; apply chunk_exchanged; done || lia).
  destruct (sift_ok sw 0 i (Z.to_nat (i * size)) m1 0) as (m2 & Esi & R2 & Hh2); [done|exact (re_ok _ _ _ R1)|lia|lia|lia|nia| |].
  { split; [|unfold child; intros; lia]. intros k j Hk Hj Hjh Hk0. unfold child in Hj. rewrite !Hc by lia.
    destruct (Z.eqb_spec k 0); [lia|]. destruct (Z.eqb_spec k i); [lia|]. destruct (Z.eqb_spec j 0); [lia|]. destruct (Z.eqb_spec j i); [lia|].
    apply Hheap; unfold child; lia. }
  rewrite Z.mul_0_l in Esi. rewrite Esi. cbn [mbind option_bind]. assert (i * size <= num * size) by nia. assert (size <= i * size) by nia. rewrite s32_id by lia. replace (i * size - size) with ((i - 1) * size) by lia.
  destruct (IH m2 i) as (m' & E & R3 & Ht3); [exact (re_ok _ _ _ R2)|lia|lia|lia|lia|done| |].
  - intros a b Ha Hb. rewrite (re_above _ _ _ R2 b) by lia.
    assert (exists a', 0 <= a' /\ a' < hi /\ a' <> i /\ chunk m2 a = chunk m1 a' \/ i <= a /\ chunk m2 a = chunk m1 a) as (a' & Ha').
    { destruct (Z.ltb_spec a i); [|exists 0; right; split; [lia|apply (re_above _ _ _ R2); lia]].
      destruct (re_below _ _ _ R2 a ltac:(lia)) as (a' & Ha' & E). exists a'. left. split_and!; done || lia. }
    rewrite (Hc b) by lia. destruct (Z.eqb_spec b 0); [lia|]. destruct (Z.eqb_spec b i) as [->|].
    + destruct Ha' as [(P1 & P2 & P3 & ->)|[? _]]; [|lia]. rewrite Hc by lia. destruct (Z.eqb_spec a' 0); [apply heap_root with hi; done || lia|].
      destruct (Z.eqb_spec a' i); [lia|]. apply heap_root with hi; done || lia.
    + destruct Ha' as [(P1 & P2 & P3 & ->)|[Hia ->]]; rewrite Hc by lia.
      * destruct (Z.eqb_spec a' 0); [apply Htop; lia|]. destruct (Z.eqb_spec a' i); apply Htop; lia.
      * destruct (Z.eqb_spec a 0); [lia|]. destruct (Z.eqb_spec a i); apply Htop; lia.
  - exists m'. split; [done|]. split; [|done]. apply rearranged_trans with m1; [by apply rearranged_weaken with hi|].
    apply rearranged_trans with m2; [apply rearranged_weaken with i; done || lia|done].
Qed.

End Spec.

(** ** The default swaps *)

(** The blocks of [n] bytes at [a] and [b] have been exchanged. *)
Definition exch (n : Z) (m m' : list Z) (a b : Z) : Prop :=
  zlen m' = zlen m /\
  forall x, 0 <= x < zlen m ->
    znth m' x = if (a <=? x) && (x <? a + n) then znth m (x - a + b)
                else if (b <=? x) && (x <? b + n) then znth m (x - b + a) else znth m x.

Definition two_blocks (m : list Z) (n a b : Z) : Prop :=
  0 <= a /\ 0 <= b /\ a + n <= zlen m /\ b + n <= zlen m /\ (a + n <= b \/ b + n <= a).

Lemma exch_bytes n m m' a b : is_bytes m -> exch n m m' a b -> is_bytes m'.
Proof.
  intros Hb [Hl H]. apply is_bytes_intro. intros x Hx. rewrite H by lia. repeat case_match; by apply is_bytes_znth.
Qed.

Lemma swap_loop_ok fuel m a b n :
  n = Z.of_nat fuel -> 0 < n -> two_blocks m n a b -> exists m', swap_loop fuel m a b n = Some m' /\ exch n m m' a b.
Proof.
  revert m a b n. induction fuel as [|fuel IH]; intros m a b n Hn Hpos (Ha & Hb & Ha' & Hb' & Hd); [lia|]. cbn [swap_loop].
  unfold load_byte, store_byte. rewrite (proj2 (in_bounds_spec m a 1)), (proj2 (in_bounds_spec m b 1)) by lia. cbn [mbind option_bind].
  destruct (write_bytes_Some m a [znth m b]) as (m1 & -> & L1 & Z1); [lia|change (zlen [_]) with 1; lia|]. cbn [mbind option_bind].
  destruct (write_bytes_Some m1 b [znth m a]) as (m2 & -> & L2 & Z2); [lia|change (zlen [_]) with 1; lia|]. cbn [mbind option_bind].
  change (zlen [znth m b]) with 1 in Z1. change (zlen [znth m a]) with 1 in Z2.
  assert (E1 : exch 1 m m2 a b).
  { split; [lia|]. intros x Hx. rewrite Z2, Z1 by lia. zbool; try (replace (x - a) with 0 by lia); try (replace (x - b) with 0 by lia); unfold znth at 1; simpl; f_equal; lia. }
  destruct (Z.ltb_spec 0 (n - 1)) as [Hr|Hr].
  - destruct (IH m2 (a + 1) (b + 1) (n - 1)) as (m' & E & L & H); [lia|lia|unfold two_blocks; lia|]. exists m'. split; [done|].
    split; [lia|]. intros x Hx. rewrite H by lia. destruct E1 as [_ E1]. zbool; rewrite E1 by lia; zbool; f_equal; lia.
  - exists m2. replace n with 1 by lia. done.
Qed.

Lemma u32_swap_ok m a b :
  is_bytes m -> a mod 4 = 0 -> b mod 4 = 0 -> two_blocks m 4 a b -> exists m', u32_swap m a b 4 = Some m' /\ exch 4 m m' a b.
Proof.
  intros Hm Ha4 Hb4 (Ha & Hb & Ha' & Hb' & Hd). unfold u32_swap.
  destruct (load_word_ok m a) as (wa & -> & _ & Wa); [done..|]. destruct (load_word_ok m b) as (wb & -> & _ & Wb); [done..|]. cbn [mbind option_bind].
  destruct (store_aligned_ok m a wb) as (m1 & -> & L1 & Z1); [done|lia..|]. cbn [mbind option_bind].
  destruct (store_aligned_ok m1 b wa) as (m2 & -> & L2 & Z2); [done|lia..|]. exists m2. split; [done|]. split; [lia|].
  intros x Hx. rewrite Z2 by lia. destruct (_ && _) eqn:E.
  - apply andb_prop in E as [E1 E2]. apply Z.leb_le in E1. apply Z.ltb_lt in E2. rewrite Wa by lia. zbool; f_equal; lia.
  - rewrite Z1 by lia. destruct ((a <=? x) && (x <? a + 4)) eqn:E'; [|done].
    apply andb_prop in E' as [E1 E2]. apply Z.leb_le in E1. apply Z.ltb_lt in E2. rewrite Wb by lia. f_equal. lia.
Qed.

Lemma exch_exchanged base size num L m m' i j :
  0 < size -> 0 <= base -> base + num * size <= L -> mem_ok L m -> 0 <= i < num -> 0 <= j < num ->
  exch size m m' (base + i * size) (base + j * size) -> exchanged size L m m' (base + i * size) (base + j * size).
Proof. intros Hs Hb Hl [Hm HL] Hi Hj E. split; [split; [by eapply exch_bytes|destruct E; lia]|]. rewrite <- HL. apply E. Qed.

Lemma default_swaps base size num L :
  0 < size -> 0 <= base -> base + num * size <= L -> (size = 4 -> base mod 4 = 0) ->
  swaps base size num L (if size =? 4 then u32_swap else generic_swap).
Proof.
  intros Hs Hb HL H4 m i j Hm Hi Hj Hij.
  assert (Ht : two_blocks m size (base + i * size) (base + j * size)).
  { destruct Hm as [_ Hm]. assert (i * size + size <= num * size) by nia. assert (j * size + size <= num * size) by nia.
    assert (0 <= i * size) by nia. assert (0 <= j * size) by nia. pose proof (blocks_apart size i j Hs Hij). unfold two_blocks. lia. }
  destruct (Z.eqb_spec size 4) as [->|Hne].
  - specialize (H4 eq_refl). destruct (u32_swap_ok m (base + i * 4) (base + j * 4)) as (m' & E & X); [exact (proj1 Hm)|..|done|].
    + rewrite Z.mod_add by lia. done.
    + rewrite Z.mod_add by lia. done.
    + exists m'. split; [done|]. by apply (exch_exchanged base 4 num).
  - destruct (swap_loop_ok (Z.to_nat size) m (base + i * size) (base + j * size) size) as (m' & E & X); [lia|done|done|].
    exists m'. split; [done|]. by apply (exch_exchanged base size num).
Qed.

(** C31. [sort] terminates and sorts: with any comparison function that is a total preorder,
    for any number of elements of any size within [int] range, and with a swap function
    that exchanges elements or with none given, the memory afterwards holds at [base] the
    same elements, in ascending order, and is otherwise unchanged. *)
Theorem sort_correct (cmp : list Z -> list Z -> Z) base size num m swap_func :
  comparator cmp -> 0 < size -> 0 <= num -> 0 <= base -> base + num * size <= zlen m -> num * size <= 2 ^ 30 -> size <= 2 ^ 30 -> is_bytes m ->
  match swap_func with
  | Some f => swaps base size num (zlen m) f
  | None => size = 4 -> base mod 4 = 0
  end ->
  exists m', sort cmp base size m num swap_func = Some m' /\ zlen m' = zlen m /\
    Permutation (elements base size num m) (elements base size num m') /\
    (forall a b, 0 <= a < b -> b < num -> 0 <= cmp (chunk base size m' b) (chunk base size m' a)) /\
    (forall x, 0 <= x < zlen m -> x < base \/ base + num * size <= x -> znth m' x = znth m x).
Proof.
  intros Hcmp Hs Hn Hb Hfit Hint Hs30 Hm Hsw. unfold sort. set (sw := match swap_func with Some f => f | None => _ end).
  assert (Hsw' : swaps base size num (zlen m) sw) by (subst sw; destruct swap_func; [done|by apply default_swaps]). clearbody sw.
  assert (0 <= num * size) by nia. rewrite (s32_id (num * size)) by lia.
  assert (Hi : s32 (u32 (num / 2 - 1) * size) = (num / 2 - 1) * size).
  { destruct (Z.leb_spec 2 num) as [H2|H2].
    - assert (1 <= num / 2) by (apply Z.div_le_lower_bound; lia). assert (num / 2 <= num) by (apply Z.div_le_upper_bound; lia).
      assert (num / 2 * size <= num * size) by nia. assert (num <= num * size) by nia. assert (size <= num / 2 * size) by nia.
      rewrite u32_id by (unfold is_u32; lia). apply s32_id. lia.
    - assert (num / 2 = 0) as -> by (apply Z.div_small; lia). rewrite <- (s32_id ((0 - 1) * size)) by lia. unfold s32.
      assert (u32 (u32 (0 - 1) * size) = u32 ((0 - 1) * size)) as ->; [|done]. unfold u32. apply Z.mul_mod_idemp_l. lia. }
  rewrite Hi. assert (Hmem : mem_ok (zlen m) m) by done.
  destruct (heapify_ok cmp base size num (zlen m) Hs Hn Hb Hfit Hint sw (S (Z.to_nat num)) m (num / 2 - 1)) as (m1 & -> & R1 & H1); try done.
  - assert (0 <= num / 2) by (apply Z.div_pos; lia). lia.
  - Z.to_euclidean_division_equations. lia.
  - assert (num / 2 <= num) by (apply Z.div_le_upper_bound; lia). lia.
  - intros k j Hk Hj Hjn. unfold child in Hj. Z.to_euclidean_division_equations. lia.
  - cbn [mbind option_bind]. rewrite s32_id by lia. replace (num * size - size) with ((num - 1) * size) by lia.
    destruct (sort_down_ok cmp base size num (zlen m) Hs Hn Hb Hfit Hint sw (S (Z.to_nat num)) m1 num) as (m' & E & R2 & Ht);
      [done|exact (re_ok _ _ _ _ _ _ _ R1)|lia|lia|lia|lia|done|intros a b Ha Hb'; lia|].
    pose proof (rearranged_trans _ _ _ _ _ _ _ _ R1 R2) as R. exists m'. split; [exact E|]. split; [exact (proj2 (re_ok _ _ _ _ _ _ _ R))|].
    split; [exact (re_perm _ _ _ _ _ _ _ R)|]. split; [|exact (re_outside _ _ _ _ _ _ _ R)]. intros a b Ha Hb'. apply Ht; lia.
Qed.

(** Elements compared by their first byte. *)
Definition by_first (x y : list Z) : Z := znth x 0 - znth y 0.

#[export] Instance by_first_comparator : comparator by_first.
Proof. split; unfold ge, by_first; intros; lia. Qed.

Lemma sort_correct_witness :
  exists m', sort by_first 1 2 [9; 5; 50; 3; 30; 4; 40; 8] 3 None = Some m' /\
    Permutation (elements 1 2 3 [9; 5; 50; 3; 30; 4; 40; 8]) (elements 1 2 3 m') /\ m' = [9; 3; 30; 4; 40; 5; 50; 8].
Proof.
  destruct (sort_correct by_first 1 2 3 [9; 5; 50; 3; 30; 4; 40; 8] None) as (m' & E & _ & P & _).
  - exact by_first_comparator.
  - done.
  - done.
  - done.
  - vm_compute. discriminate.
  - vm_compute. discriminate.
  - vm_compute. discriminate.
  - repeat (constructor; [lia|]). constructor.
  - discriminate.
  - exists m'. split; [exact E|]. split; [exact P|]. vm_compute in E. by injection E as <-.
Defined.

End Sort.
