(* ===== verification/Wakelock.v ===== *)
(** * kernel/power/wakelock.c: wake locks

    A wake lock keeps the machine from suspending (or from deep idle states) while it is
    active; it may expire by itself.  The structures are in a map from addresses, and the
    list of inactive locks and the lists of active locks, one per type, hold addresses, as
    the [link] fields do in C.  The timer and the work queue, which later sections start,
    are part of the state.  The configuration is the one of the phone: statistics are
    kept ([CONFIG_WAKELOCK_STAT]), one processor, [HZ] is 200.

    A section under [list_lock] runs with interrupts off: it sees one value of the clocks,
    the argument [c].  [ktime_t] values are nanoseconds in [Z].  A failed [BUG_ON], an
    address that is not a lock and the deletion of a list entry that is on no list give
    [None].  Messages to the console are left out. *)
From stdpp Require Import strings.
From S2P Require Import Prelude.

Module Wakelock.

Definition HZ : Z := 200.
Definition WAKE_LOCK_SUSPEND : Z := 0.
Definition WAKE_LOCK_IDLE : Z := 1.
Definition WAKE_LOCK_TYPE_COUNT : Z := 2.

Definition WAKE_LOCK_TYPE_MASK : Z := 0x0f.
Definition WAKE_LOCK_INITIALIZED : Z := 2 ^ 8.
Definition WAKE_LOCK_ACTIVE : Z := 2 ^ 9.
Definition WAKE_LOCK_AUTO_EXPIRE : Z := 2 ^ 10.
Definition WAKE_LOCK_PREVENTING_SUSPEND : Z := 2 ^ 11.

Record lock_stat := mkstat {
  count : Z; expire_count : Z; wakeup_count : Z;
  total_time : Z; prevent_suspend_time : Z; max_time : Z; last_time : Z }.

Record wake_lock := mklock {
  flags : Z; name : option string; expires : Z; stat : lock_stat }.

(** The works that run on [suspend_work_queue]. *)
Inductive work := suspend_work | early_suspend_work | late_resume_work.

#[export] Instance work_eq_dec : EqDecision work.
Proof. solve_decision. Defined.

Record state := mkstate {
  locks : gmap nat wake_lock;
  inactive_locks : list nat;
  active_wake_locks : list (list nat);
  current_event_num : Z;
  expire_timer : option Z;
  suspend_work_queue : list work;
  last_sleep_time_update : Z;
  wait_for_wakeup : bool }.

(** The static structures. *)
Definition main_wake_lock : nat := 0%nat.
Definition unknown_wakeup : nat := 1%nat.
Definition deleted_wake_locks : nat := 2%nat.

(** [current_kernel_time() + wall_to_monotonic] is [kernel_time], the monotonic time of
    the last tick. *)
Record clock := mkclock { jiffies : Z; ktime_get : Z; kernel_time : Z }.

(** ** Updates of single fields *)

Definition set_locks (s : state) m := mkstate m (inactive_locks s) (active_wake_locks s)
  (current_event_num s) (expire_timer s) (suspend_work_queue s) (last_sleep_time_update s) (wait_for_wakeup s).
Definition set_lists (s : state) ina act := mkstate (locks s) ina act
  (current_event_num s) (expire_timer s) (suspend_work_queue s) (last_sleep_time_update s) (wait_for_wakeup s).
Definition set_event_num (s : state) n := mkstate (locks s) (inactive_locks s) (active_wake_locks s)
  n (expire_timer s) (suspend_work_queue s) (last_sleep_time_update s) (wait_for_wakeup s).
Definition set_timer (s : state) t := mkstate (locks s) (inactive_locks s) (active_wake_locks s)
  (current_event_num s) t (suspend_work_queue s) (last_sleep_time_update s) (wait_for_wakeup s).
Definition set_queue (s : state) q := mkstate (locks s) (inactive_locks s) (active_wake_locks s)
  (current_event_num s) (expire_timer s) q (last_sleep_time_update s) (wait_for_wakeup s).
Definition set_sleep_update (s : state) t := mkstate (locks s) (inactive_locks s) (active_wake_locks s)
  (current_event_num s) (expire_timer s) (suspend_work_queue s) t (wait_for_wakeup s).
Definition set_wait (s : state) b := mkstate (locks s) (inactive_locks s) (active_wake_locks s)
  (current_event_num s) (expire_timer s) (suspend_work_queue s) (last_sleep_time_update s) b.

Definition set_flags (l : wake_lock) f := mklock f (name l) (expires l) (stat l).
Definition set_expires (l : wake_lock) e := mklock (flags l) (name l) e (stat l).
Definition set_stat (l : wake_lock) st := mklock (flags l) (name l) (expires l) st.

(** [lock->... = ...] *)
Definition upd (s : state) (lk : nat) (f : wake_lock -> wake_lock) : option state :=
  l ← locks s !! lk; Some (set_locks s (<[lk := f l]> (locks s))).

(** [lock->flags & mask] as a truth value; [flags |= mask]; [flags &= ~mask]. *)
Definition has (l : wake_lock) (mask : Z) : bool := negb (Z.land (flags l) mask =? 0).
Definition or_flags (mask : Z) (l : wake_lock) : wake_lock := set_flags l (Z.lor (flags l) mask).
Definition clear_flags (mask : Z) (l : wake_lock) : wake_lock := set_flags l (Z.land (flags l) (Z.lnot mask)).

(** ** Lists *)

Definition without (lk : nat) (l : list nat) : list nat := filter (fun x => x <> lk) l.

Definition on_list (s : state) (lk : nat) : bool :=
  bool_decide (lk ∈ inactive_locks s) || existsb (fun l => bool_decide (lk ∈ l)) (active_wake_locks s).

(** [list_del(&lock->link)] *)
Definition list_del (s : state) (lk : nat) : option state :=
  if on_list s lk
  then Some (set_lists s (without lk (inactive_locks s)) (map (without lk) (active_wake_locks s)))
  else None.

(** [list_add(&lock->link, &inactive_locks)] *)
Definition add_inactive (s : state) (lk : nat) : state :=
  set_lists s (lk :: inactive_locks s) (active_wake_locks s).

(** [list_add] and [list_add_tail] to [&active_wake_locks[type]] *)
Definition add_active (tail : bool) (s : state) (lk : nat) (type : Z) : option state :=
  l ← active_wake_locks s !! Z.to_nat type;
  Some (set_lists s (inactive_locks s)
          (<[Z.to_nat type := if tail then l ++ [lk] else lk :: l]> (active_wake_locks s))).

(** [queue_work]: nothing happens when the work is pending already. *)
Definition queue_work (s : state) (w : work) : state :=
  if bool_decide (w ∈ suspend_work_queue s) then s else set_queue s (suspend_work_queue s ++ [w]).

Section Clock.
Context (TICK_NSEC : Z) (c : clock).

(** [(long)(lock->expires - jiffies)] *)
Definition time_left (l : wake_lock) : Z := s32 (expires l - jiffies c).

(** ** Statistics *)

(** [Some t] when the lock has expired, at the time [t]. *)
Definition get_expired_time (l : wake_lock) : option Z :=
  if negb (has l WAKE_LOCK_AUTO_EXPIRE) then None
  else
    let timeout := time_left l in
    if 0 <? timeout then None
    else Some (kernel_time c - (- timeout) * TICK_NSEC).

Definition wake_unlock_stat_locked (last_sleep_time_update : Z) (l : wake_lock) (expired : bool) : wake_lock :=
  if negb (has l WAKE_LOCK_ACTIVE) then l
  else
    let '(expired, now) := match get_expired_time l with
                           | Some t => (true, t)
                           | None => (expired, ktime_get c)
                           end in
    let st := stat l in
    let duration := now - last_time st in
    let st' := mkstat (s32 (count st + 1))
                 (if expired : bool then s32 (expire_count st + 1) else expire_count st)
                 (wakeup_count st) (total_time st + duration) (prevent_suspend_time st)
                 (if max_time st <? duration then duration else max_time st) (ktime_get c) in
    if has l WAKE_LOCK_PREVENTING_SUSPEND
    then clear_flags WAKE_LOCK_PREVENTING_SUSPEND
           (set_stat l (mkstat (count st') (expire_count st') (wakeup_count st') (total_time st')
              (prevent_suspend_time st' + (now - last_sleep_time_update)) (max_time st') (last_time st')))
    else set_stat l st'.

(** The body of the loop of [update_sleep_wait_stats_locked]. *)
Definition sleep_wait_stats (s : state) (done : bool) (l : wake_lock) : wake_lock :=
  let elapsed := ktime_get c - last_sleep_time_update s in
  let etime := get_expired_time l in
  let l := if has l WAKE_LOCK_PREVENTING_SUSPEND
           then let add := match etime with Some t => t - last_sleep_time_update s | None => elapsed end in
                let st := stat l in
                set_stat l (mkstat (count st) (expire_count st) (wakeup_count st) (total_time st)
                              (prevent_suspend_time st + add) (max_time st) (last_time st))
           else l in
  if done || bool_decide (is_Some etime)
  then clear_flags WAKE_LOCK_PREVENTING_SUSPEND l
  else or_flags WAKE_LOCK_PREVENTING_SUSPEND l.

Fixpoint for_each_lock (f : wake_lock -> wake_lock) (s : state) (ids : list nat) : option state :=
  match ids with
  | [] => Some s
  | lk :: ids => s ← upd s lk f; for_each_lock f s ids
  end.

Definition update_sleep_wait_stats_locked (s : state) (done : bool) : option state :=
  ids ← active_wake_locks s !! Z.to_nat WAKE_LOCK_SUSPEND;
  s' ← for_each_lock (sleep_wait_stats s done) s ids;
  Some (set_sleep_update s' (ktime_get c)).

(** ** Expiry *)

Definition expire_wake_lock (s : state) (lk : nat) : option state :=
  s ← upd s lk (fun l => wake_unlock_stat_locked (last_sleep_time_update s) l true);
  s ← upd s lk (clear_flags (Z.lor WAKE_LOCK_ACTIVE WAKE_LOCK_AUTO_EXPIRE));
  s ← list_del s lk;
  Some (add_inactive s lk).

(** The loop reads the next entry before its body, which moves only the current one. *)
Fixpoint has_wake_lock_loop (s : state) (ids : list nat) (max_timeout : Z) : option (state * Z) :=
  match ids with
  | [] => Some (s, max_timeout)
  | lk :: n =>
      l ← locks s !! lk;
      if has l WAKE_LOCK_AUTO_EXPIRE then
        let timeout := time_left l in
        if timeout <=? 0 then s ← expire_wake_lock s lk; has_wake_lock_loop s n max_timeout
        else has_wake_lock_loop s n (if max_timeout <? timeout then timeout else max_timeout)
      else Some (s, -1)
  end.

Definition has_wake_lock_locked (s : state) (type : Z) : option (state * Z) :=
  if WAKE_LOCK_TYPE_COUNT <=? type then None
  else if type <? 0 then None
  else ids ← active_wake_locks s !! Z.to_nat type; has_wake_lock_loop s ids 0.

Definition has_wake_lock (s : state) (type : Z) : option (state * Z) := has_wake_lock_locked s type.

(** The handler of [expire_timer]. *)
Definition expire_wake_locks (s : state) : option state :=
  '(s, has_lock) ← has_wake_lock_locked s WAKE_LOCK_SUSPEND;
  Some (if has_lock =? 0 then queue_work s suspend_work else s).

(** Called by the suspend code with device interrupts off, before the machine sleeps. *)
Definition power_suspend_late (s : state) : option (state * Z) :=
  '(s, h) ← has_wake_lock s WAKE_LOCK_SUSPEND;
  Some (set_wait s true, if h =? 0 then 0 else - EAGAIN).

(** ** Locking and unlocking *)

Definition wake_lock_init (s : state) (lk : nat) (type : Z) (nm : option string) : option state :=
  l ← locks s !! lk;
  let nm := match nm with Some _ => nm | None => name l end in
  if bool_decide (nm = None) || on_list s lk then None
  else
    let l := mklock (Z.lor (Z.land type WAKE_LOCK_TYPE_MASK) WAKE_LOCK_INITIALIZED) nm (expires l)
               (mkstat 0 0 0 0 0 0 0) in
    Some (add_inactive (set_locks s (<[lk := l]> (locks s))) lk).

Definition wake_lock_destroy (s : state) (lk : nat) : option state :=
  s ← upd s lk (clear_flags WAKE_LOCK_INITIALIZED);
  l ← locks s !! lk;
  s ← (if count (stat l) =? 0 then Some s
       else upd s deleted_wake_locks (fun d => let st := stat d in
              set_stat d (mkstat (s32 (count st + count (stat l))) (s32 (expire_count st + expire_count (stat l)))
                (wakeup_count st) (total_time st + total_time (stat l))
                (prevent_suspend_time st + prevent_suspend_time (stat l)) (max_time st + max_time (stat l))
                (last_time st))));
  list_del s lk.

(** What a lock operation does with the timer and the work queue: [expire_in] is the
    result of [has_wake_lock_locked]. *)
Definition arm (s : state) (expire_in : Z) : state :=
  if 0 <? expire_in then set_timer s (Some (u32 (jiffies c + expire_in)))
  else
    let s := set_timer s None in
    if expire_in =? 0 then queue_work s suspend_work else s.

Definition wake_lock_active (s : state) (lk : nat) : option bool :=
  l ← locks s !! lk; Some (has l WAKE_LOCK_ACTIVE).

(** The lock that wakes the machine is counted. *)
Definition count_wakeup (s : state) (lk : nat) (type : Z) : option state :=
  if (type =? WAKE_LOCK_SUSPEND) && wait_for_wakeup s
  then upd (set_wait s false) lk (fun l => let st := stat l in
         set_stat l (mkstat (count st) (expire_count st) (s32 (wakeup_count st + 1)) (total_time st)
           (prevent_suspend_time st) (max_time st) (last_time st)))
  else Some s.

Definition set_last_time (t : Z) (l : wake_lock) : wake_lock :=
  let st := stat l in
  set_stat l (mkstat (count st) (expire_count st) (wakeup_count st) (total_time st)
    (prevent_suspend_time st) (max_time st) t).

(** The changes of [wake_lock_internal] to the structure up to [list_del]. *)
Definition activate (last_sleep_time_update : Z) (l : wake_lock) : wake_lock :=
  let l := if has l WAKE_LOCK_AUTO_EXPIRE && (time_left l <=? 0)
           then set_last_time (ktime_get c) (wake_unlock_stat_locked last_sleep_time_update l false)
           else l in
  if has l WAKE_LOCK_ACTIVE then l
  else set_last_time (ktime_get c) (or_flags WAKE_LOCK_ACTIVE l).

Definition wake_lock_internal (s : state) (lk : nat) (timeout : Z) (has_timeout : bool) : option state :=
  l ← locks s !! lk;
  let type := Z.land (flags l) WAKE_LOCK_TYPE_MASK in
  if (WAKE_LOCK_TYPE_COUNT <=? type) || negb (has l WAKE_LOCK_INITIALIZED) then None
  else
    s ← count_wakeup s lk type;
    s ← upd s lk (activate (last_sleep_time_update s));
    s ← list_del s lk;
    s ← (if has_timeout then
           s ← upd s lk (fun l => or_flags WAKE_LOCK_AUTO_EXPIRE (set_expires l (u32 (jiffies c + timeout))));
           add_active true s lk type
         else
           s ← upd s lk (fun l => clear_flags WAKE_LOCK_AUTO_EXPIRE (set_expires l (2 ^ 31 - 1)));
           add_active false s lk type);
    if type =? WAKE_LOCK_SUSPEND then
      let s := set_event_num s (s32 (current_event_num s + 1)) in
      s ← (if bool_decide (lk = main_wake_lock) then update_sleep_wait_stats_locked s true
           else
             b ← wake_lock_active s main_wake_lock;
             if (b : bool) then Some s else update_sleep_wait_stats_locked s false);
      '(s, expire_in) ← (if has_timeout then has_wake_lock_locked s type else Some (s, -1));
      Some (arm s expire_in)
    else Some s.

Definition wake_lock_ (s : state) (lk : nat) : option state := wake_lock_internal s lk 0 false.

Definition wake_lock_timeout (s : state) (lk : nat) (timeout : Z) : option state :=
  wake_lock_internal s lk timeout true.

Definition wake_unlock (s : state) (lk : nat) : option state :=
  l ← locks s !! lk;
  let type := Z.land (flags l) WAKE_LOCK_TYPE_MASK in
  s ← upd s lk (fun l => wake_unlock_stat_locked (last_sleep_time_update s) l false);
  s ← upd s lk (clear_flags (Z.lor WAKE_LOCK_ACTIVE WAKE_LOCK_AUTO_EXPIRE));
  s ← list_del s lk;
  let s := add_inactive s lk in
  if type =? WAKE_LOCK_SUSPEND then
    '(s, has_lock) ← has_wake_lock_locked s type;
    let s := arm s has_lock in
    if bool_decide (lk = main_wake_lock) then update_sleep_wait_stats_locked s false else Some s
  else Some s.

(** ** Audio *)

Fixpoint named_loop (s : state) (nm : string) (ids : list nat) : option bool :=
  match ids with
  | [] => Some false
  | lk :: ids =>
      l ← locks s !! lk;
      ln ← name l;
      if has l WAKE_LOCK_AUTO_EXPIRE then
        if (0 <? time_left l) && bool_decide (ln = nm) then Some true else named_loop s nm ids
      else if bool_decide (ln = nm) then Some true else named_loop s nm ids
  end.

Definition has_wake_lock_internal (s : state) (nm : string) : option bool :=
  ids ← active_wake_locks s !! Z.to_nat WAKE_LOCK_SUSPEND; named_loop s nm ids.

(** The three questions are asked in separate sections; here in one state. *)
Definition has_audio_wake_lock (s : state) : option bool :=
  a ← has_wake_lock_internal s "AudioOutLock";
  if (a : bool) then
    v ← has_wake_lock_internal s "vbus_present";
    if (v : bool) then Some false
    else b ← has_wake_lock_internal s "bt-rfkill"; Some (negb b)
  else Some false.

(** ** What /proc/wakelocks shows of a lock

    The columns of the line after the name. *)
Record stat_line := mkline {
  l_count : Z; l_expire_count : Z; l_wake_count : Z; l_active_since : Z;
  l_total_time : Z; l_sleep_time : Z; l_max_time : Z; l_last_change : Z }.

Definition print_lock_stat (last_sleep_time_update : Z) (l : wake_lock) : stat_line :=
  let st := stat l in
  if has l WAKE_LOCK_ACTIVE then
    let expired := get_expired_time l in
    let now := match expired with Some t => t | None => ktime_get c end in
    let add_time := now - last_time st in
    mkline (s32 (count st + 1))
      (match expired with Some _ => s32 (expire_count st + 1) | None => expire_count st end)
      (wakeup_count st)
      (match expired with Some _ => 0 | None => add_time end)
      (total_time st + add_time)
      (if has l WAKE_LOCK_PREVENTING_SUSPEND
       then prevent_suspend_time st + (now - last_sleep_time_update) else prevent_suspend_time st)
      (if max_time st <? add_time then add_time else max_time st)
      (last_time st)
  else mkline (count st) (expire_count st) (wakeup_count st) 0 (total_time st)
         (prevent_suspend_time st) (max_time st) (last_time st).

(** [print_active_locks]: the messages; [!debug_mask & DEBUG_EXPIRE] is parsed as
    [(!debug_mask) & DEBUG_EXPIRE]. *)
Inductive message := Left (nm : option string) (timeout : Z) | Expired (nm : option string) | Active (nm : option string).

Definition DEBUG_EXPIRE : Z := 2 ^ 3.

Fixpoint print_loop (s : state) (debug_mask : Z) (print_expired : bool) (ids : list nat) : option (list message) :=
  match ids with
  | [] => Some []
  | lk :: ids =>
      l ← locks s !! lk;
      if has l WAKE_LOCK_AUTO_EXPIRE then
        let timeout := time_left l in
        ms ← print_loop s debug_mask print_expired ids;
        Some (if 0 <? timeout then Left (name l) timeout :: ms
              else if print_expired then Expired (name l) :: ms else ms)
      else
        let print_expired := if Z.land (b2z (debug_mask =? 0)) DEBUG_EXPIRE =? 0 then print_expired else false in
        ms ← print_loop s debug_mask print_expired ids;
        Some (Active (name l) :: ms)
  end.

Definition print_active_locks (s : state) (debug_mask type : Z) : option (list message) :=
  if WAKE_LOCK_TYPE_COUNT <=? type then None
  else if type <? 0 then None
  else ids ← active_wake_locks s !! Z.to_nat type; print_loop s debug_mask true ids.

(** ** Initialisation

    [m] are the static structures before it; the results of the registrations and of the
    creation of the work queue are given. *)

Definition boot (m : gmap nat wake_lock) : state := mkstate m [] [[]; []] 0 None [] 0 false.

Definition wakelocks_init (m : gmap nat wake_lock) (device_register driver_register : Z) (workqueue : bool)
  : option (state * Z) :=
  let s := boot m in
  s ← wake_lock_init s deleted_wake_locks WAKE_LOCK_SUSPEND (Some "deleted_wake_locks"%string);
  s ← wake_lock_init s main_wake_lock WAKE_LOCK_SUSPEND (Some "main"%string);
  s ← wake_lock_ s main_wake_lock;
  s ← wake_lock_init s unknown_wakeup WAKE_LOCK_SUSPEND (Some "unknown_wakeups"%string);
  let ret := if negb (device_register =? 0) then device_register
             else if negb (driver_register =? 0) then driver_register
             else if workqueue then 0 else - ENOMEM in
  if ret =? 0 then Some (s, 0)
  else
    s ← wake_lock_destroy s unknown_wakeup;
    s ← wake_lock_destroy s main_wake_lock;
    s ← wake_lock_destroy s deleted_wake_locks;
    Some (s, ret).

End Clock.

(** ** Flags *)

Lemma has_testbit l k : 0 <= k -> has l (2 ^ k) = Z.testbit (flags l) k.
Proof.
  intros Hk. unfold has. destruct (Z.testbit (flags l) k) eqn:E.
  - destruct (Z.eqb_spec (Z.land (flags l) (2 ^ k)) 0) as [H|]; [|done].
    apply (f_equal (fun x => Z.testbit x k)) in H. rewrite Z.land_spec, E, Z.pow2_bits_true, Z.bits_0 in H by lia. done.
  - destruct (Z.eqb_spec (Z.land (flags l) (2 ^ k)) 0) as [|H]; [done|]. exfalso. apply H. apply Z.bits_inj'.
    intros n Hn. rewrite Z.land_spec, Z.bits_0. destruct (Z.eq_dec n k) as [->|Hne]; [by rewrite E|].
    rewrite Z.pow2_bits_false by lia. by rewrite andb_false_r.
Qed.

(** The masks that the code sets and clears, as facts about each flag. *)
Lemma has_or_flags m l k : 0 <= k -> has (or_flags m l) (2 ^ k) = has l (2 ^ k) || Z.testbit m k.
Proof. intros. by rewrite !has_testbit, <- Z.lor_spec by done. Qed.

Lemma has_clear_flags m l k : 0 <= k -> has (clear_flags m l) (2 ^ k) = has l (2 ^ k) && negb (Z.testbit m k).
Proof. intros. rewrite !has_testbit by done. unfold clear_flags. simpl. by rewrite Z.land_spec, Z.lnot_spec. Qed.

Definition type_of (l : wake_lock) : Z := Z.land (flags l) WAKE_LOCK_TYPE_MASK.

Lemma type_or_flags m l : Z.land m 15 = 0 -> type_of (or_flags m l) = type_of l.
Proof. intros H. unfold type_of, or_flags. simpl. unfold WAKE_LOCK_TYPE_MASK. by rewrite Z.land_lor_distr_l, H, Z.lor_0_r. Qed.

Lemma type_clear_flags m l : Z.land m 15 = 0 -> type_of (clear_flags m l) = type_of l.
Proof.
  intros H. unfold type_of, clear_flags, WAKE_LOCK_TYPE_MASK. simpl. rewrite <- Z.land_assoc. f_equal.
  apply Z.bits_inj'. intros n Hn. apply (f_equal (fun x => Z.testbit x n)) in H.
  rewrite Z.land_spec, Z.bits_0 in H. rewrite Z.land_spec, Z.lnot_spec by done.
  destruct (Z.testbit m n), (Z.testbit 15 n); done.
Qed.

(** The flags and the type of a lock, as one record. *)
Record view := mkview { v_type : Z; v_init : bool; v_active : bool; v_auto : bool }.

Definition view_of (l : wake_lock) : view :=
  mkview (type_of l) (has l WAKE_LOCK_INITIALIZED) (has l WAKE_LOCK_ACTIVE) (has l WAKE_LOCK_AUTO_EXPIRE).

Ltac solve_view :=
  unfold view_of, WAKE_LOCK_INITIALIZED, WAKE_LOCK_ACTIVE, WAKE_LOCK_AUTO_EXPIRE, WAKE_LOCK_PREVENTING_SUSPEND;
  rewrite ?has_or_flags, ?has_clear_flags by lia;
  rewrite ?type_or_flags, ?type_clear_flags by reflexivity;
  rewrite ?orb_false_r, ?andb_true_r; try done.

Lemma view_inv l v : view_of l = v ->
  type_of l = v_type v /\ has l WAKE_LOCK_INITIALIZED = v_init v /\ has l WAKE_LOCK_ACTIVE = v_active v /\
  has l WAKE_LOCK_AUTO_EXPIRE = v_auto v.
Proof. by intros <-. Qed.

Lemma view_set_stat l st : view_of (set_stat l st) = view_of l.
Proof. done. Qed.

Lemma view_set_expires l e : view_of (set_expires l e) = view_of l.
Proof. done. Qed.

Lemma view_or_preventing l : view_of (or_flags WAKE_LOCK_PREVENTING_SUSPEND l) = view_of l.
Proof. solve_view. Qed.

Lemma view_clear_preventing l : view_of (clear_flags WAKE_LOCK_PREVENTING_SUSPEND l) = view_of l.
Proof. solve_view. Qed.

Lemma view_or_active l :
  view_of (or_flags WAKE_LOCK_ACTIVE l) = mkview (type_of l) (has l WAKE_LOCK_INITIALIZED) true (has l WAKE_LOCK_AUTO_EXPIRE).
Proof. solve_view. f_equal; simpl; by rewrite ?orb_true_r, ?orb_false_r. Qed.

Lemma view_or_auto l :
  view_of (or_flags WAKE_LOCK_AUTO_EXPIRE l) = mkview (type_of l) (has l WAKE_LOCK_INITIALIZED) (has l WAKE_LOCK_ACTIVE) true.
Proof. solve_view. f_equal; simpl; by rewrite ?orb_true_r, ?orb_false_r. Qed.

Lemma view_clear_auto l :
  view_of (clear_flags WAKE_LOCK_AUTO_EXPIRE l) = mkview (type_of l) (has l WAKE_LOCK_INITIALIZED) (has l WAKE_LOCK_ACTIVE) false.
Proof. solve_view. f_equal; simpl; by rewrite ?andb_false_r, ?andb_true_r. Qed.

Lemma view_clear_both l :
  view_of (clear_flags (Z.lor WAKE_LOCK_ACTIVE WAKE_LOCK_AUTO_EXPIRE) l) =
  mkview (type_of l) (has l WAKE_LOCK_INITIALIZED) false false.
Proof. solve_view. f_equal; simpl; by rewrite ?andb_false_r, ?andb_true_r. Qed.

Lemma view_clear_init l :
  view_of (clear_flags WAKE_LOCK_INITIALIZED l) =
  mkview (type_of l) false (has l WAKE_LOCK_ACTIVE) (has l WAKE_LOCK_AUTO_EXPIRE).
Proof. solve_view. f_equal; simpl; by rewrite ?andb_false_r, ?andb_true_r. Qed.

Section Views.
Context (TICK_NSEC : Z) (c : clock).

Lemma view_wake_unlock_stat t l e : view_of (wake_unlock_stat_locked TICK_NSEC c t l e) = view_of l.
Proof.
  unfold wake_unlock_stat_locked. destruct (has l WAKE_LOCK_ACTIVE); [|done]. cbn [negb].
  destruct (get_expired_time TICK_NSEC c l), (has l WAKE_LOCK_PREVENTING_SUSPEND); cbn [fst snd];
    rewrite ?view_clear_preventing; apply view_set_stat.
Qed.

Lemma expires_wake_unlock_stat t l e : expires (wake_unlock_stat_locked TICK_NSEC c t l e) = expires l.
Proof.
  unfold wake_unlock_stat_locked. destruct (has l WAKE_LOCK_ACTIVE); [|done]. cbn [negb].
  by destruct (get_expired_time TICK_NSEC c l), (has l WAKE_LOCK_PREVENTING_SUSPEND).
Qed.

Lemma view_sleep_wait_stats s d l :
  view_of (sleep_wait_stats TICK_NSEC c s d l) = view_of l /\ expires (sleep_wait_stats TICK_NSEC c s d l) = expires l.
Proof.
  unfold sleep_wait_stats. destruct (d || _), (has l WAKE_LOCK_PREVENTING_SUSPEND);
    (split; [|done]); by rewrite ?view_clear_preventing, ?view_or_preventing, ?view_set_stat.
Qed.

Lemma view_activate t l :
  view_of (activate TICK_NSEC c t l) = mkview (type_of l) (has l WAKE_LOCK_INITIALIZED) true (has l WAKE_LOCK_AUTO_EXPIRE).
Proof.
  unfold activate. set (l1 := if has l WAKE_LOCK_AUTO_EXPIRE && _ then _ else _).
  assert (H : view_of l1 = view_of l).
  { unfold l1. destruct (has l WAKE_LOCK_AUTO_EXPIRE && _); [|done]. unfold set_last_time.
    by rewrite view_set_stat, view_wake_unlock_stat. }
  clearbody l1. pose proof (f_equal v_type H) as H1. pose proof (f_equal v_init H) as H2.
  pose proof (f_equal v_active H) as H3. pose proof (f_equal v_auto H) as H4. cbn in H1, H2, H3, H4.
  destruct (has l1 WAKE_LOCK_ACTIVE) eqn:E.
  - rewrite H. unfold view_of. by rewrite <- H3.
  - unfold set_last_time. rewrite view_set_stat, view_or_active. by rewrite H1, H2, H4.
Qed.

End Views.

(** ** The invariant of the state

    Only the flags, the type and the time of expiry of a lock matter for it. *)

Definition vw (s : state) (lk : nat) : option (view * Z) := (fun l => (view_of l, expires l)) <$> locks s !! lk.

Definition is_auto (s : state) (lk : nat) : bool :=
  match vw s lk with Some (v, _) => v_auto v | None => false end.

(** The locks without a timeout come first. *)
Definition ordered (s : state) (A : list nat) : Prop :=
  exists P T, A = P ++ T /\ Forall (fun x => is_auto s x = false) P /\ Forall (fun x => is_auto s x = true) T.

Definition active_of (s : state) (t : nat) : list nat := default [] (active_wake_locks s !! t).

Record wf (s : state) : Prop := {
  wf_two : length (active_wake_locks s) = 2%nat;
  wf_nodup : NoDup (inactive_locks s) /\ forall t, NoDup (active_of s t);
  wf_inactive : forall lk, lk ∈ inactive_locks s -> exists v e, vw s lk = Some (v, e) /\
    v_init v = true /\ v_active v = false /\ v_auto v = false /\ 0 <= v_type v < 2;
  wf_active : forall t lk, lk ∈ active_of s t -> exists v e, vw s lk = Some (v, e) /\
    v_init v = true /\ v_active v = true /\ v_type v = Z.of_nat t;
  wf_listed : forall lk v e, vw s lk = Some (v, e) -> v_init v = true ->
    lk ∈ inactive_locks s \/ exists t, (t < 2)%nat /\ lk ∈ active_of s t;
  wf_ordered : forall t, ordered s (active_of s t) }.

(** What a section leaves alone when it only moves locks between lists. *)
Definition rest (s : state) : Z * option Z * list work :=
  (current_event_num s, expire_timer s, suspend_work_queue s).

Lemma elem_of_without lk x l : x ∈ without lk l <-> x ∈ l /\ x <> lk.
Proof. unfold without. rewrite list_elem_of_filter. tauto. Qed.

Lemma active_of_lt s t lk : lk ∈ active_of s t -> length (active_wake_locks s) = 2%nat -> (t < 2)%nat.
Proof.
  unfold active_of. intros H Hl. destruct (active_wake_locks s !! t) eqn:E; [|set_solver].
  apply lookup_lt_Some in E. lia.
Qed.

Lemma on_list_spec s lk :
  on_list s lk = true <-> lk ∈ inactive_locks s \/ exists t, lk ∈ active_of s t.
Proof.
  unfold on_list, active_of. rewrite orb_true_iff, bool_decide_eq_true, existsb_exists. split.
  - intros [?|(l & Hl & H)]; [by left|right]. apply bool_decide_eq_true in H.
    apply list_elem_of_In, list_elem_of_lookup in Hl as [t Ht]. exists t. by rewrite Ht.
  - intros [?|[t H]]; [by left|right]. destruct (active_wake_locks s !! t) as [l|] eqn:E; simpl in H; [|set_solver].
    exists l. split; [|by apply bool_decide_eq_true]. apply list_elem_of_In. by eapply list_elem_of_lookup_2.
Qed.

Lemma active_of_without s lk m ina ev ti q ls w t :
  active_of (mkstate m ina (map (without lk) (active_wake_locks s)) ev ti q ls w) t = without lk (active_of s t).
Proof. unfold active_of. simpl. rewrite list_lookup_fmap. by destruct (active_wake_locks s !! t). Qed.

Lemma vw_upd s lk f l x :
  locks s !! lk = Some l ->
  vw (set_locks s (<[lk := f l]> (locks s))) x =
    if decide (x = lk) then Some (view_of (f l), expires (f l)) else vw s x.
Proof.
  intros Hl. unfold vw. simpl. case_decide as D.
  - subst x. by rewrite lookup_insert_eq.
  - by rewrite lookup_insert_ne by done.
Qed.

Lemma vw_Some s lk v e : vw s lk = Some (v, e) -> exists l, locks s !! lk = Some l /\ view_of l = v /\ expires l = e.
Proof. unfold vw. destruct (locks s !! lk) as [l|]; simpl; intros [=]. by exists l. Qed.

Lemma upd_ok s lk f v e :
  vw s lk = Some (v, e) ->
  exists s' l, locks s !! lk = Some l /\ view_of l = v /\ expires l = e /\ upd s lk f = Some s' /\
    (forall x, vw s' x = if decide (x = lk) then Some (view_of (f l), expires (f l)) else vw s x) /\
    inactive_locks s' = inactive_locks s /\ active_wake_locks s' = active_wake_locks s /\ rest s' = rest s.
Proof.
  intros H. destruct (vw_Some _ _ _ _ H) as (l & Hl & Hv & He). unfold upd. rewrite Hl.
  eexists _, l. do 4 (split; [done|]). split; [|done]. intros x. by apply vw_upd.
Qed.

Lemma ordered_ext s s' A :
  (forall x, x ∈ A -> is_auto s' x = is_auto s x) -> ordered s A -> ordered s' A.
Proof.
  intros H (P & T & -> & HP & HT). exists P, T. split; [done|].
  rewrite Forall_forall in HP. rewrite Forall_forall in HT.
  split; apply Forall_forall; intros x Hx; rewrite H by set_solver; auto.
Qed.

Lemma Forall_without (Q : nat -> Prop) lk l : Forall Q l -> Forall Q (without lk l).
Proof. rewrite !Forall_forall. intros H x Hx. apply elem_of_without in Hx as [Hx _]. auto. Qed.

Lemma ordered_without s lk A : ordered s A -> ordered s (without lk A).
Proof.
  intros (P & T & -> & HP & HT). exists (without lk P), (without lk T). unfold without.
  rewrite filter_app. split; [done|]. split; by apply Forall_without.
Qed.

(** A lock is taken off its list and put on another: [ina] and [act] are the lists with it
    added. *)
Definition relisted (s s' : state) (lk : nat) (v : view) (e : Z) (inact : bool) (tail : bool) : Prop :=
  (forall x, vw s' x = if decide (x = lk) then Some (v, e) else vw s x) /\
  inactive_locks s' = (if inact then [lk] else []) ++ without lk (inactive_locks s) /\
  length (active_wake_locks s') = length (active_wake_locks s) /\
  forall t, active_of s' t =
    (if negb inact && negb tail && (Z.of_nat t =? v_type v) then [lk] else []) ++ without lk (active_of s t) ++
    (if negb inact && tail && (Z.of_nat t =? v_type v) then [lk] else []).

Lemma NoDup_without lk l : NoDup l -> NoDup (without lk l).
Proof. apply NoDup_filter. Qed.

Lemma not_in_without lk l : lk ∉ without lk l.
Proof. rewrite elem_of_without. tauto. Qed.

Lemma is_auto_relisted s s' lk v e i tl x :
  relisted s s' lk v e i tl -> is_auto s' x = if decide (x = lk) then v_auto v else is_auto s x.
Proof. intros (H & _). unfold is_auto. rewrite H. by case_decide. Qed.

Lemma elem_of_opt (b : bool) (lk x : nat) : x ∈ (if b then [lk] else []) <-> b = true /\ x = lk.
Proof. destruct b; rewrite ?list_elem_of_singleton, ?elem_of_nil; naive_solver. Qed.

Lemma NoDup_opt (b : bool) (lk : nat) : NoDup (if b then [lk] else []).
Proof. destruct b; [apply NoDup_singleton|apply NoDup_nil_2]. Qed.

Lemma elem_of_relisted s s' lk v e i tl t x :
  relisted s s' lk v e i tl ->
  x ∈ active_of s' t <-> (x = lk /\ i = false /\ Z.of_nat t = v_type v) \/ (x ∈ active_of s t /\ x <> lk).
Proof.
  intros (_ & _ & _ & Ra). rewrite Ra, !elem_of_app, !elem_of_opt, elem_of_without, !andb_true_iff, !negb_true_iff, Z.eqb_eq.
  destruct i, tl; naive_solver.
Qed.

Lemma wf_relisted s s' lk v e inact tail :
  wf s -> relisted s s' lk v e inact tail -> v_init v = true -> 0 <= v_type v < 2 ->
  v_active v = negb inact -> v_auto v = negb inact && tail -> wf s'.
Proof.
  intros W R Hi Ht Ha Hau. pose proof R as (Rv & Ri & Rl & Ra). destruct W as [W1 [W2 W2'] W3 W4 W5 W6].
  pose proof (fun t x => elem_of_relisted s s' lk v e inact tail t x R) as Re.
  assert (Hin : forall x, x ∈ inactive_locks s' <-> (inact = true /\ x = lk) \/ (x ∈ inactive_locks s /\ x <> lk)).
  { intros x. by rewrite Ri, elem_of_app, elem_of_opt, elem_of_without. }
  split.
  - congruence.
  - split.
    + rewrite Ri. destruct inact; simpl; [constructor|]; auto using NoDup_without, not_in_without.
    + intros t. rewrite Ra. pose proof (NoDup_without lk _ (W2' t)) as HN. pose proof (not_in_without lk (active_of s t)).
      apply NoDup_app. split; [apply NoDup_opt|]. split.
      * intros x [Hb ->]%elem_of_opt. rewrite elem_of_app, elem_of_opt. destruct inact, tail; naive_solver.
      * apply NoDup_app. split; [done|]. split; [|apply NoDup_opt].
        intros x Hx [_ ->]%elem_of_opt. done.
  - intros x [[-> ->]|[Hx Hn]]%Hin; rewrite Rv; [rewrite decide_True by done; by exists v, e|].
    rewrite decide_False by done. by apply W3.
  - intros t x [(-> & -> & Et)|[Hx Hn]]%Re; rewrite Rv; [rewrite decide_True by done; by exists v, e|].
    rewrite decide_False by done. by apply W4.
  - intros x v' e' Hx Hv. rewrite Hin. setoid_rewrite Re. rewrite Rv in Hx. case_decide as D.
    + subst x. destruct inact; [left; auto|right]. exists (Z.to_nat (v_type v)). split; [lia|]. left. split; [done|]. split; [done|lia].
    + destruct (W5 _ _ _ Hx Hv) as [?|(t & Ht' & ?)]; [tauto|]. right. exists t. tauto.
  - intros t. destruct (W6 t) as (P & T & E & HP & HT). rewrite Ra, E. unfold without. rewrite filter_app.
    exists ((if negb inact && negb tail && (Z.of_nat t =? v_type v) then [lk] else []) ++ without lk P),
      (without lk T ++ if negb inact && tail && (Z.of_nat t =? v_type v) then [lk] else []).
    split; [by rewrite <- !app_assoc|].
    rewrite Forall_forall in HP. rewrite Forall_forall in HT.
    split; apply Forall_forall; intros x Hx; rewrite (is_auto_relisted _ _ _ _ _ _ _ _ R);
      rewrite elem_of_app, elem_of_without, elem_of_opt in Hx; case_decide as D.
    + destruct inact, tail; naive_solver.
    + destruct Hx as [[_ ?]|[? _]]; [done|by apply HP].
    + destruct inact, tail; naive_solver.
    + destruct Hx as [[? _]|[_ ?]]; [by apply HT|done].
Qed.

Lemma filter_all (Q : nat -> Prop) `{!forall x, Decision (Q x)} (l : list nat) : (forall x, x ∈ l -> Q x) -> filter Q l = l.
Proof.
  induction l as [|a l IH]; intros HQ; [done|]. rewrite filter_cons_True by (apply HQ; set_solver).
  f_equal. apply IH. intros x Hx. apply HQ. set_solver.
Qed.

Lemma filter_ext_in (Q Q' : nat -> Prop) `{!forall x, Decision (Q x), !forall x, Decision (Q' x)} (l : list nat) :
  (forall x, x ∈ l -> Q x <-> Q' x) -> filter Q l = filter Q' l.
Proof.
  induction l as [|a l IH]; intros HQ; [done|]. assert (Ha : Q a <-> Q' a) by (apply HQ; set_solver).
  assert (IH' : filter Q l = filter Q' l) by (apply IH; intros x Hx; apply HQ; set_solver).
  destruct (decide (Q a)); [rewrite !filter_cons_True by tauto|rewrite !filter_cons_False by tauto]; by rewrite IH'.
Qed.

Section Operations.
Context (TICK_NSEC : Z) (c : clock).

(** The common part of [expire_wake_lock] and [wake_unlock]. *)
Definition deact (expired : bool) (s : state) (lk : nat) : option state :=
  s ← upd s lk (fun l => wake_unlock_stat_locked TICK_NSEC c (last_sleep_time_update s) l expired);
  s ← upd s lk (clear_flags (Z.lor WAKE_LOCK_ACTIVE WAKE_LOCK_AUTO_EXPIRE));
  s ← list_del s lk;
  Some (add_inactive s lk).

Lemma wf_on_list s lk v e : wf s -> vw s lk = Some (v, e) -> v_init v = true -> on_list s lk = true.
Proof.
  intros W H Hi. apply on_list_spec. destruct (wf_listed s W _ _ _ H Hi) as [?|(t & _ & ?)]; [by left|right; by exists t].
Qed.

Lemma wf_type s lk v e : wf s -> vw s lk = Some (v, e) -> v_init v = true -> 0 <= v_type v < 2.
Proof.
  intros W H Hi. destruct (wf_listed s W _ _ _ H Hi) as [Hl|(t & Ht & Hl)].
  - destruct (wf_inactive s W _ Hl) as (v' & e' & E & ?). rewrite H in E. injection E as -> ->. tauto.
  - destruct (wf_active s W _ _ Hl) as (v' & e' & E & ? & ? & ?). rewrite H in E. injection E as -> ->. lia.
Qed.

Lemma on_list_ext s s' lk :
  inactive_locks s' = inactive_locks s -> active_wake_locks s' = active_wake_locks s -> on_list s' lk = on_list s lk.
Proof. unfold on_list. by intros -> ->. Qed.

Lemma deact_ok b s lk v e :
  wf s -> vw s lk = Some (v, e) -> v_init v = true ->
  exists s', deact b s lk = Some s' /\ wf s' /\ rest s' = rest s /\
    relisted s s' lk (mkview (v_type v) true false false) e true false.
Proof.
  intros W H Hi. unfold deact.
  destruct (upd_ok s lk (fun l => wake_unlock_stat_locked TICK_NSEC c (last_sleep_time_update s) l b) v e H)
    as (s1 & l1 & _ & V1 & X1 & -> & F1 & I1 & A1 & R1). cbn [mbind option_bind].
  assert (H1 : vw s1 lk = Some (v, e)).
  { by rewrite F1, decide_True, view_wake_unlock_stat, expires_wake_unlock_stat, V1, X1 by done. }
  destruct (upd_ok s1 lk (clear_flags (Z.lor WAKE_LOCK_ACTIVE WAKE_LOCK_AUTO_EXPIRE)) v e H1)
    as (s2 & l2 & _ & V2 & X2 & -> & F2 & I2 & A2 & R2). cbn [mbind option_bind].
  unfold list_del. rewrite (on_list_ext s s2), (wf_on_list s lk v e) by (done || congruence). cbn [mbind option_bind].
  eexists. split; [done|].
  assert (R : relisted s (add_inactive (set_lists s2 (without lk (inactive_locks s2)) (map (without lk) (active_wake_locks s2))) lk)
    lk (mkview (v_type v) true false false) e true false).
  { repeat split; simpl.
    - intros x. unfold vw in *. simpl. rewrite F2, F1. case_decide as D; [|done]. rewrite view_clear_both.
      subst v. simpl in *. unfold view_of in V2. injection V2 as E1 E2 _ _. rewrite E1, E2, Hi.
      by rewrite <- X2.
    - by rewrite I2, I1.
    - by rewrite length_map, A2, A1.
    - intros t. unfold active_of. simpl. rewrite list_lookup_fmap, A2, A1, app_nil_r. by destruct (active_wake_locks s !! t). }
  split; [|split; [|exact R]].
  - eapply wf_relisted; [done|exact R|done| |done|done]. simpl. by eapply wf_type.
  - unfold rest in *. simpl. congruence.
Qed.

Definition left_of (s : state) (lk : nat) : Z :=
  match vw s lk with Some (_, e) => s32 (e - jiffies c) | None => 0 end.

Definition expired (s : state) (lk : nat) : bool := is_auto s lk && (left_of s lk <=? 0).

(** The expired locks among [ids] have been moved to the inactive list. *)
Record swept (ids : list nat) (s s' : state) : Prop := {
  sw_wf : wf s';
  sw_rest : rest s' = rest s;
  sw_vw : forall x, vw s' x = if bool_decide (x ∈ ids) && expired s x
    then (fun '(v, e) => (mkview (v_type v) true false false, e)) <$> vw s x else vw s x;
  sw_active : forall t, active_of s' t = filter (fun x => bool_decide (x ∈ ids) && expired s x = false) (active_of s t) }.

Lemma swept_nil s : wf s -> swept [] s s.
Proof.
  intros W. split; [done|done|done|]. intros t. simpl. symmetry. apply filter_all. by intros.
Qed.

Lemma relisted_ext_other s s' lk v e x :
  relisted s s' lk v e true false -> x <> lk ->
  vw s' x = vw s x /\ is_auto s' x = is_auto s x /\ left_of s' x = left_of s x /\ expired s' x = expired s x.
Proof.
  intros (H & _) Hx. assert (E : vw s' x = vw s x) by (by rewrite H, decide_False).
  unfold expired, is_auto, left_of. by rewrite E.
Qed.

Lemma swept_cons_expired ids s s1 s' lk v e :
  wf s -> vw s lk = Some (v, e) -> v_init v = true -> lk ∉ ids -> expired s lk = true ->
  relisted s s1 lk (mkview (v_type v) true false false) e true false -> rest s1 = rest s ->
  swept ids s1 s' -> swept (lk :: ids) s s'.
Proof.
  intros W H Hi Hn He R Hr [S1 S2 S3 S4]. split; [done|congruence| |].
  - intros x. rewrite S3. destruct (decide (x = lk)) as [->|D].
    + rewrite (bool_decide_eq_false_2 (lk ∈ ids)) by done. rewrite bool_decide_eq_true_2 by set_solver. simpl.
      rewrite He, H. destruct R as [Rv _]. by rewrite Rv, decide_True by done.
    + destruct (relisted_ext_other _ _ _ _ _ _ R D) as (E1 & _ & _ & E2). rewrite E1, E2.
      rewrite (bool_decide_ext (x ∈ lk :: ids) (x ∈ ids)); [done|set_solver].
  - intros t. rewrite S4. pose proof R as (_ & _ & _ & Ra). rewrite Ra. simpl. rewrite app_nil_r. unfold without.
    rewrite list_filter_filter. apply filter_ext_in. intros x Hx. destruct (decide (x = lk)) as [->|D].
    + rewrite (bool_decide_eq_true_2 (lk ∈ lk :: ids)) by set_solver. rewrite He. naive_solver.
    + destruct (relisted_ext_other _ _ _ _ _ _ R D) as (_ & _ & _ & E2). rewrite E2.
      rewrite (bool_decide_ext (x ∈ lk :: ids) (x ∈ ids)); [tauto|set_solver].
Qed.

Lemma swept_cons_kept ids s s' lk : lk ∉ ids -> expired s lk = false -> swept ids s s' -> swept (lk :: ids) s s'.
Proof.
  intros Hn He [S1 S2 S3 S4].
  assert (E : forall x, bool_decide (x ∈ lk :: ids) && expired s x = bool_decide (x ∈ ids) && expired s x).
  { intros x. destruct (decide (x = lk)) as [->|D]; [by rewrite He, !andb_false_r|]. f_equal. apply bool_decide_ext. set_solver. }
  split; [done|done| |].
  - intros x. by rewrite E.
  - intros t. rewrite S4. apply filter_ext_in. intros x _. by rewrite E.
Qed.

(** The loop over locks that all have a timeout. *)
Lemma has_wake_lock_loop_ok ids : forall s m,
  wf s -> NoDup ids -> 0 <= m ->
  (forall x, x ∈ ids -> is_auto s x = true /\ exists v e, vw s x = Some (v, e) /\ v_init v = true) ->
  exists s' r, has_wake_lock_loop TICK_NSEC c s ids m = Some (s', r) /\ swept ids s s' /\ m <= r /\
    (forall x, x ∈ ids -> left_of s x <= r) /\ (r = m \/ exists x, x ∈ ids /\ left_of s x = r).
Proof.
  induction ids as [|lk ids IH]; intros s m W Hn Hm Hall.
  - exists s, m. split; [done|]. split; [by apply swept_nil|]. split; [lia|]. split; [set_solver|by left].
  - apply NoDup_cons in Hn as [Hlk Hn]. destruct (Hall lk ltac:(set_solver)) as (Ha & v & e & H & Hi).
    destruct (vw_Some _ _ _ _ H) as (l & El & Ev & Ee). simpl. rewrite El. cbn [mbind option_bind].
    assert (Ea : has l WAKE_LOCK_AUTO_EXPIRE = true) by (unfold is_auto in Ha; rewrite H in Ha; subst v; exact Ha).
    assert (Et : time_left c l = left_of s lk) by (unfold left_of, time_left; by rewrite H, Ee).
    rewrite Ea, Et. destruct (Z.leb_spec (left_of s lk) 0) as [Hle|Hgt].
    + change (expire_wake_lock TICK_NSEC c s lk) with (deact true s lk).
      destruct (deact_ok true s lk v e W H Hi) as (s1 & E1 & W1 & R1 & RL). rewrite E1. cbn [mbind option_bind].
      assert (Hx : expired s lk = true) by (unfold expired; rewrite Ha; by apply Z.leb_le).
      destruct (IH s1 m W1 Hn Hm) as (s' & r & E & Sw & Hr & Hall' & Hex).
      { intros x Hxi. destruct (relisted_ext_other _ _ _ _ _ x RL) as (X1 & X2 & _); [set_solver|]. rewrite X1, X2. apply Hall. set_solver. }
      assert (Hl : forall x, x ∈ ids -> left_of s1 x = left_of s x).
      { intros x Hxi. apply (relisted_ext_other _ _ _ _ _ x RL). set_solver. }
      exists s', r. split; [done|]. split; [by eapply swept_cons_expired|]. split; [lia|]. split.
      * intros x [->|Hxi]%elem_of_cons; [lia|]. rewrite <- Hl by done. auto.
      * destruct Hex as [?|(x & Hxi & Ex)]; [by left|right]. exists x. rewrite <- Hl by done. set_solver.
    + assert (Hx : expired s lk = false) by (unfold expired; rewrite Ha; by apply Z.leb_gt).
      set (m' := if m <? left_of s lk then left_of s lk else m).
      assert (Hm' : m <= m' /\ left_of s lk <= m' /\ (m' = m \/ m' = left_of s lk)) by (unfold m'; zbool; auto).
      destruct (IH s m' W Hn) as (s' & r & E & Sw & Hr & Hall' & Hex); [lia|intros; apply Hall; set_solver|].
      exists s', r. split; [done|]. split; [by apply swept_cons_kept|]. split; [lia|]. split.
      * intros x [->|Hxi]%elem_of_cons; [lia|auto].
      * destruct Hex as [->|(x & Hxi & Ex)]; [|right; exists x; set_solver].
        destruct Hm' as (_ & _ & [->| ->]); [by left|right; exists lk; set_solver].
Qed.

(** The result of [has_wake_lock] for the locks of type [t]: -1 when one has no timeout,
    and else the time until all have expired; those that have are made inactive. *)
Definition has_result (s : state) (t : nat) (s' : state) (r : Z) : Prop :=
  (r = -1 /\ s' = s /\ exists lk, lk ∈ active_of s t /\ is_auto s lk = false) \/
  (0 <= r /\ swept (active_of s t) s s' /\
   (forall lk, lk ∈ active_of s t -> is_auto s lk = true /\ left_of s lk <= r) /\
   (r = 0 \/ exists lk, lk ∈ active_of s t /\ left_of s lk = r)).

Lemma active_lookup s t : wf s -> (t < 2)%nat -> active_wake_locks s !! t = Some (active_of s t).
Proof.
  intros W Ht. unfold active_of. destruct (lookup_lt_is_Some_2 (active_wake_locks s) t) as [A ->]; [rewrite wf_two; done|done].
Qed.

Lemma has_wake_lock_locked_ok s t :
  wf s -> (t < 2)%nat ->
  exists s' r, has_wake_lock_locked TICK_NSEC c s (Z.of_nat t) = Some (s', r) /\ has_result s t s' r.
Proof.
  intros W Ht. unfold has_wake_lock_locked, WAKE_LOCK_TYPE_COUNT.
  destruct (Z.leb_spec 2 (Z.of_nat t)); [lia|]. destruct (Z.ltb_spec (Z.of_nat t) 0); [lia|].
  rewrite Nat2Z.id, (active_lookup s t W Ht). cbn [mbind option_bind].
  destruct (wf_ordered s W t) as (P & T & E & HP & HT). destruct P as [|lk P].
  - simpl in E. rewrite Forall_forall in HT.
    destruct (has_wake_lock_loop_ok (active_of s t) s 0) as (s' & r & El & Sw & Hr & Hall & Hex); [done|by apply wf_nodup|lia| |].
    { intros x Hx. split; [apply HT; by rewrite <- E|]. destruct (wf_active s W _ _ Hx) as (v & e & ? & ? & _). eauto. }
    exists s', r. split; [done|]. right. split; [done|]. split; [done|]. split; [|done].
    intros x Hx. split; [apply HT; by rewrite <- E|auto].
  - assert (Hlk : lk ∈ active_of s t) by (rewrite E; set_solver). apply Forall_cons in HP as [Hp _].
    destruct (wf_active s W _ _ Hlk) as (v & e & Hv & _). destruct (vw_Some _ _ _ _ Hv) as (l & El & Ev & Ee).
    exists s, (-1). split; [|left; eauto]. rewrite E. simpl. rewrite El. cbn [mbind option_bind].
    unfold is_auto in Hp. rewrite Hv in Hp. subst v. simpl in Hp. by rewrite Hp.
Qed.

Lemma has_result_wf s t s' r : wf s -> has_result s t s' r -> wf s' /\ rest s' = rest s.
Proof. intros W [(_ & -> & _)|(_ & Sw & _)]; [done|]. split; [eapply sw_wf|eapply sw_rest]; exact Sw. Qed.

(** ** Statistics do not matter *)

Definition same (s s' : state) : Prop :=
  (forall x, vw s' x = vw s x) /\ inactive_locks s' = inactive_locks s /\
  active_wake_locks s' = active_wake_locks s /\ rest s' = rest s.

Lemma same_refl s : same s s.
Proof. done. Qed.

Lemma same_trans s1 s2 s3 : same s1 s2 -> same s2 s3 -> same s1 s3.
Proof. intros (A1 & A2 & A3 & A4) (B1 & B2 & B3 & B4). split; [intros; by rewrite B1|]. split_and!; congruence. Qed.

Lemma same_active_of s s' t : same s s' -> active_of s' t = active_of s t.
Proof. intros (_ & _ & E & _). unfold active_of. by rewrite E. Qed.

Lemma same_is_auto s s' x : same s s' -> is_auto s' x = is_auto s x.
Proof. intros (E & _). unfold is_auto. by rewrite E. Qed.

Lemma wf_lists s s' :
  (forall x, vw s' x = vw s x) -> inactive_locks s' = inactive_locks s -> active_wake_locks s' = active_wake_locks s ->
  wf s -> wf s'.
Proof.
  intros E1 E2 E3 [W1 W2 W3 W4 W5 W6].
  assert (Ea : forall t, active_of s' t = active_of s t) by (intros; unfold active_of; by rewrite E3). split.
  - by rewrite E3.
  - rewrite E2. setoid_rewrite Ea. done.
  - intros lk. rewrite E2, E1. apply W3.
  - intros t lk. rewrite Ea, E1. apply W4.
  - intros lk v e. rewrite E1, E2. setoid_rewrite Ea. apply W5.
  - intros t. rewrite Ea. apply (ordered_ext s); [|done]. intros x _. unfold is_auto. by rewrite E1.
Qed.

Lemma same_wf s s' : same s s' -> wf s -> wf s'.
Proof. intros (E1 & E2 & E3 & _). by apply wf_lists. Qed.

Lemma same_relisted s s1 s2 lk v e i tl : relisted s s1 lk v e i tl -> same s1 s2 -> relisted s s2 lk v e i tl.
Proof.
  intros (R1 & R2 & R3 & R4) Hs. pose proof Hs as (E1 & E2 & E3 & _). split; [intros; by rewrite E1|].
  split; [congruence|]. split; [congruence|]. intros t. by rewrite (same_active_of s1).
Qed.

Lemma upd_same s lk f v e :
  vw s lk = Some (v, e) -> (forall l, view_of (f l) = view_of l /\ expires (f l) = expires l) ->
  exists s', upd s lk f = Some s' /\ same s s'.
Proof.
  intros H Hf. destruct (upd_ok s lk f v e H) as (s' & l & El & Ev & Ee & E & F & I & A & R).
  exists s'. split; [done|]. split; [|done]. intros x. rewrite F. case_decide; [subst x|done].
  destruct (Hf l) as [-> ->]. rewrite H. by subst.
Qed.

Lemma for_each_lock_same f ids : forall s,
  (forall l, view_of (f l) = view_of l /\ expires (f l) = expires l) ->
  (forall x, x ∈ ids -> is_Some (vw s x)) ->
  exists s', for_each_lock f s ids = Some s' /\ same s s'.
Proof.
  induction ids as [|lk ids IH]; intros s Hf Hall; simpl; [eexists; split; [done|apply same_refl]|].
  destruct (Hall lk ltac:(set_solver)) as [[v e] H]. destruct (upd_same s lk f v e H Hf) as (s1 & -> & S1).
  cbn [mbind option_bind]. destruct (IH s1 Hf) as (s' & E & S').
  { intros x Hx. destruct S1 as [-> _]. apply Hall. set_solver. }
  exists s'. split; [done|]. by eapply same_trans.
Qed.

Lemma update_sleep_wait_stats_same s d :
  wf s -> exists s', update_sleep_wait_stats_locked TICK_NSEC c s d = Some s' /\ same s s'.
Proof.
  intros W. unfold update_sleep_wait_stats_locked. change (Z.to_nat WAKE_LOCK_SUSPEND) with 0%nat.
  rewrite (active_lookup s 0 W) by lia. cbn [mbind option_bind].
  destruct (for_each_lock_same (sleep_wait_stats TICK_NSEC c s d) (active_of s 0) s) as (s' & -> & S).
  - intros l. apply view_sleep_wait_stats.
  - intros x Hx. destruct (wf_active s W _ _ Hx) as (v & e & -> & _). by eexists.
  - eexists. split; [done|]. exact S.
Qed.

Lemma arm_lists s r :
  (forall x, vw (arm c s r) x = vw s x) /\ inactive_locks (arm c s r) = inactive_locks s /\
  active_wake_locks (arm c s r) = active_wake_locks s /\ current_event_num (arm c s r) = current_event_num s.
Proof. unfold arm, queue_work. destruct (0 <? r), (r =? 0); try done; case_bool_decide; done. Qed.

Lemma arm_wf s r : wf s -> wf (arm c s r).
Proof. destruct (arm_lists s r) as (A1 & A2 & A3 & _). by apply wf_lists. Qed.

(** The lock operations, up to statistics: the lock is moved, and when it keeps the
    machine from suspending the timer and the work are brought up to date. *)
Definition updated (s1 : state) (type : Z) (s' : state) : Prop :=
  (type <> 0 /\ same s1 s') \/
  (type = 0 /\ exists s2 r, has_result s1 0 s2 r /\ same (arm c s2 r) s').

Lemma updated_wf s1 type s' : wf s1 -> updated s1 type s' -> wf s'.
Proof.
  intros W [[_ Hs]|(_ & s2 & r & Hr & Hs)]; [by eapply same_wf|].
  eapply same_wf; [exact Hs|]. apply arm_wf. by eapply has_result_wf.
Qed.

Lemma wake_unlock_ok s lk v e :
  wf s -> vw s lk = Some (v, e) -> v_init v = true ->
  exists s1 s', wake_unlock TICK_NSEC c s lk = Some s' /\ wf s1 /\ rest s1 = rest s /\
    relisted s s1 lk (mkview (v_type v) true false false) e true false /\ updated s1 (v_type v) s'.
Proof.
  intros W H Hi. destruct (deact_ok false s lk v e W H Hi) as (s1 & E1 & W1 & R1 & RL).
  destruct (vw_Some _ _ _ _ H) as (l & El & Ev & _).
  assert (Eq : wake_unlock TICK_NSEC c s lk =
    s1 ← deact false s lk;
    if type_of l =? 0 then
      '(s2, h) ← has_wake_lock_locked TICK_NSEC c s1 (type_of l);
      if bool_decide (lk = main_wake_lock) then update_sleep_wait_stats_locked TICK_NSEC c (arm c s2 h) false
      else Some (arm c s2 h)
    else Some s1).
  { unfold wake_unlock, deact. rewrite El. cbn [mbind option_bind].
    destruct (upd s lk _) as [s'|]; [|done]. cbn [mbind option_bind].
    destruct (upd s' lk _) as [s''|]; [|done]. cbn [mbind option_bind]. by destruct (list_del s'' lk). }
  rewrite Eq, E1. cbn [mbind option_bind]. replace (type_of l) with (v_type v) by (by subst v). exists s1.
  destruct (Z.eqb_spec (v_type v) 0) as [E0|E0]; [|exists s1; split_and!; [done..|]; by left].
  rewrite E0. destruct (has_wake_lock_locked_ok s1 0 W1) as (s2 & r & E2 & Hr); [lia|].
  change (Z.of_nat 0) with 0 in E2. rewrite E2. cbn [mbind option_bind].
  destruct (has_result_wf _ _ _ _ W1 Hr) as [W2 _]. rewrite E0 in RL.
  case_bool_decide as D.
  - destruct (update_sleep_wait_stats_same (arm c s2 r) false (arm_wf _ _ W2)) as (s' & -> & S).
    exists s'. split_and!; [done..|]. right. eauto.
  - eexists. split_and!; [done..|]. right. split; [done|]. exists s2, r. split; [done|]. apply same_refl.
Qed.

Definition after_lock (v : view) (has_timeout : bool) : view := mkview (v_type v) true true has_timeout.

Definition expiry (has_timeout : bool) (timeout : Z) : Z :=
  if has_timeout then u32 (jiffies c + timeout) else 2 ^ 31 - 1.

(** Up to the point where the list of the type is entered. *)
Definition lock_moves (s : state) (lk : nat) (type timeout : Z) (has_timeout : bool) : option state :=
  s ← count_wakeup s lk type;
  s ← upd s lk (activate TICK_NSEC c (last_sleep_time_update s));
  s ← list_del s lk;
  if has_timeout then
    s ← upd s lk (fun l => or_flags WAKE_LOCK_AUTO_EXPIRE (set_expires l (u32 (jiffies c + timeout))));
    add_active true s lk type
  else
    s ← upd s lk (fun l => clear_flags WAKE_LOCK_AUTO_EXPIRE (set_expires l (2 ^ 31 - 1)));
    add_active false s lk type.

Lemma count_wakeup_same s lk type v e :
  vw s lk = Some (v, e) -> exists s', count_wakeup s lk type = Some s' /\ same s s'.
Proof.
  intros H. unfold count_wakeup. destruct (_ && _); [|eexists; split; [done|apply same_refl]].
  destruct (upd_same (set_wait s false) lk (fun l => let st := stat l in
    set_stat l (mkstat (count st) (expire_count st) (s32 (wakeup_count st + 1)) (total_time st)
      (prevent_suspend_time st) (max_time st) (last_time st))) v e H ltac:(done)) as (s' & E & S).
  exists s'. split; [exact E|exact S].
Qed.

Lemma same_on_list s s' lk : same s s' -> on_list s' lk = on_list s lk.
Proof. intros (_ & E1 & E2 & _). by apply on_list_ext. Qed.

(** The end of [lock_moves], from the state [s3] in which the lock is on no list. *)
Lemma enter_list_ok s s3 lk v e t tl f :
  vw s3 lk = Some (v, e) -> v_type v = Z.of_nat t -> (t < 2)%nat -> length (active_wake_locks s) = 2%nat ->
  (forall x, x <> lk -> vw s3 x = vw s x) -> inactive_locks s3 = without lk (inactive_locks s) ->
  active_wake_locks s3 = map (without lk) (active_wake_locks s) -> rest s3 = rest s ->
  exists s1 l, view_of l = v /\ expires l = e /\
    (s3 ← upd s3 lk f; add_active tl s3 lk (v_type v)) = Some s1 /\ rest s1 = rest s /\
    (v_type (view_of (f l)) = v_type v -> relisted s s1 lk (view_of (f l)) (expires (f l)) false tl).
Proof.
  intros H Ht Htl Hlen Hx Hi Ha Hr. destruct (upd_ok s3 lk f v e H) as (s4 & l & _ & Ev & Ee & -> & F & I & A & R).
  cbn [mbind option_bind]. unfold add_active. rewrite Ht, Nat2Z.id, A, Ha, list_lookup_fmap.
  destruct (lookup_lt_is_Some_2 (active_wake_locks s) t) as [B HB]; [lia|]. rewrite HB. cbn.
  eexists _, l. do 3 (split; [done|]). split; [unfold rest in *; simpl; congruence|]. intros Htv. split_and!; simpl.
  - intros x. unfold vw in *. simpl. rewrite F. case_decide; [done|by apply Hx].
  - by rewrite I, Hi.
  - by rewrite length_insert, length_map.
  - intros t'. unfold active_of. simpl. rewrite Htv. destruct (decide (t' = t)) as [->|D].
    + rewrite list_lookup_insert_eq, HB by (rewrite length_map; lia). rewrite Z.eqb_refl. simpl.
      destruct tl; simpl; by rewrite ?app_nil_r.
    + rewrite list_lookup_insert_ne, list_lookup_fmap by done. destruct (Z.eqb_spec (Z.of_nat t') (Z.of_nat t)); [lia|].
      rewrite !andb_false_r. simpl. rewrite app_nil_r. by destruct (active_wake_locks s !! t').
Qed.

Lemma lock_moves_ok s lk v e timeout ht :
  wf s -> vw s lk = Some (v, e) -> v_init v = true ->
  exists s1, lock_moves s lk (v_type v) timeout ht = Some s1 /\ wf s1 /\ rest s1 = rest s /\
    relisted s s1 lk (after_lock v ht) (expiry ht timeout) false ht.
Proof.
  intros W H Hi. pose proof (wf_type s lk v e W H Hi) as Ht. unfold lock_moves.
  destruct (count_wakeup_same s lk (v_type v) v e H) as (s1 & -> & S1). cbn [mbind option_bind].
  assert (H1 : vw s1 lk = Some (v, e)) by (destruct S1 as [-> _]; done).
  destruct (upd_ok s1 lk (activate TICK_NSEC c (last_sleep_time_update s1)) v e H1)
    as (s2 & l2 & _ & V2 & X2 & -> & F2 & I2 & A2 & R2). cbn [mbind option_bind].
  unfold list_del. rewrite (on_list_ext s1 s2), (same_on_list s), (wf_on_list s lk v e) by done. cbn [mbind option_bind].
  set (s3 := set_lists s2 (without lk (inactive_locks s2)) (map (without lk) (active_wake_locks s2))).
  set (v1 := mkview (v_type v) true true (v_auto v)). pose proof S1 as (Sv & Si & Sa & Sr).
  set (e1 := expires (activate TICK_NSEC c (last_sleep_time_update s1) l2)).
  assert (H3 : vw s3 lk = Some (v1, e1)).
  { unfold vw, s3 in *. simpl. rewrite F2, decide_True, view_activate by done. unfold v1. subst v. simpl in *. by rewrite Hi. }
  assert (Hmv : forall f tl, (forall l, view_of l = v1 -> view_of (f l) = after_lock v tl /\ expires (f l) = expiry tl timeout) ->
    exists s4, (s3 ← upd s3 lk f; add_active tl s3 lk (v_type v)) = Some s4 /\ wf s4 /\ rest s4 = rest s /\
      relisted s s4 lk (after_lock v tl) (expiry tl timeout) false tl).
  { intros f tl Hf. destruct (enter_list_ok s s3 lk v1 e1 (Z.to_nat (v_type v)) tl f) as (s4 & l & Vl & _ & E4 & R4 & RL);
      [done|simpl; lia|lia|by apply wf_two| | | | |].
    - intros x Hx. unfold vw, s3 in *. simpl. by rewrite F2, decide_False, Sv.
    - simpl. by rewrite I2, Si.
    - simpl. by rewrite A2, Sa.
    - unfold s3, rest in *. simpl. congruence.
    - destruct (Hf l Vl) as [Ef Ex]. rewrite Ef, Ex in RL. specialize (RL eq_refl). exists s4. split; [exact E4|].
      split; [|done]. eapply wf_relisted; [exact W|exact RL|done|done|done|done]. }
  destruct ht; apply Hmv; intros l Vl;
    [rewrite view_or_auto; rewrite <- (view_set_expires l (u32 (jiffies c + timeout))) in Vl
    |rewrite view_clear_auto; rewrite <- (view_set_expires l (2 ^ 31 - 1)) in Vl];
    destruct (view_inv _ _ Vl) as (-> & -> & -> & _); done.
Qed.

Lemma wake_lock_internal_ok s lk v e timeout ht :
  wf s -> vw s lk = Some (v, e) -> v_init v = true -> is_Some (vw s main_wake_lock) ->
  exists s1 s', wake_lock_internal TICK_NSEC c s lk timeout ht = Some s' /\ wf s1 /\
    relisted s s1 lk (after_lock v ht) (expiry ht timeout) false ht /\
    rest s1 = (if v_type v =? 0 then s32 (current_event_num s + 1) else current_event_num s,
               expire_timer s, suspend_work_queue s) /\
    updated s1 (v_type v) s'.
Proof.
  intros W H Hi Hmain. destruct (lock_moves_ok s lk v e timeout ht W H Hi) as (s1 & E1 & W1 & R1 & RL).
  pose proof (wf_type s lk v e W H Hi) as Ht. destruct (vw_Some _ _ _ _ H) as (l & El & Ev & _).
  assert (Eq : wake_lock_internal TICK_NSEC c s lk timeout ht =
    s ← lock_moves s lk (v_type v) timeout ht;
    if v_type v =? WAKE_LOCK_SUSPEND then
      let s := set_event_num s (s32 (current_event_num s + 1)) in
      s ← (if bool_decide (lk = main_wake_lock) then update_sleep_wait_stats_locked TICK_NSEC c s true
           else b ← wake_lock_active s main_wake_lock;
                if (b : bool) then Some s else update_sleep_wait_stats_locked TICK_NSEC c s false);
      '(s, expire_in) ← (if ht then has_wake_lock_locked TICK_NSEC c s (v_type v) else Some (s, -1));
      Some (arm c s expire_in)
    else Some s).
  { unfold wake_lock_internal, lock_moves. rewrite El. cbn [mbind option_bind].
    change (Z.land (flags l) WAKE_LOCK_TYPE_MASK) with (type_of l). replace (type_of l) with (v_type v) by (by subst v).
    replace (has l WAKE_LOCK_INITIALIZED) with (v_init v) by (by subst v). rewrite Hi. unfold WAKE_LOCK_TYPE_COUNT.
    destruct (Z.leb_spec 2 (v_type v)); [lia|]. cbn [negb orb].
    destruct (count_wakeup s lk (v_type v)) as [s2|]; [|done]. cbn [mbind option_bind].
    destruct (upd s2 lk _) as [s3|]; [|done]. cbn [mbind option_bind]. destruct (list_del s3 lk) as [s4|]; [|done].
    cbn [mbind option_bind]. by destruct ht. }
  rewrite Eq, E1. cbn [mbind option_bind]. unfold WAKE_LOCK_SUSPEND. destruct (Z.eqb_spec (v_type v) 0) as [E0|E0].
  2:{ exists s1, s1. split_and!; [done..|]. left. split; [done|apply same_refl]. }
  cbv zeta. set (s2 := set_event_num s1 (s32 (current_event_num s1 + 1))).
  assert (W2 : wf s2) by (apply (wf_lists s1); done).
  assert (RL2 : relisted s s2 lk (after_lock v ht) (expiry ht timeout) false ht) by exact RL.
  assert (R2 : rest s2 = (s32 (current_event_num s + 1), expire_timer s, suspend_work_queue s)).
  { unfold rest in R1. injection R1 as R1a R1b R1c. unfold rest, s2. simpl. congruence. }
  assert (E2 : exists s3, (if bool_decide (lk = main_wake_lock) then update_sleep_wait_stats_locked TICK_NSEC c s2 true
           else b ← wake_lock_active s2 main_wake_lock;
                if (b : bool) then Some s2 else update_sleep_wait_stats_locked TICK_NSEC c s2 false) = Some s3 /\ same s2 s3).
  { case_bool_decide as D; [by apply update_sleep_wait_stats_same|]. unfold wake_lock_active.
    destruct Hmain as [[mv me] Hm]. assert (Hm2 : vw s2 main_wake_lock = Some (mv, me)).
    { destruct RL2 as [-> _]. by rewrite decide_False by congruence. }
    destruct (vw_Some _ _ _ _ Hm2) as (ml & -> & _). cbn [mbind option_bind].
    destruct (has ml WAKE_LOCK_ACTIVE); [eexists; split; [done|apply same_refl]|by apply update_sleep_wait_stats_same]. }
  destruct E2 as (s3 & E3 & S3). rewrite E3. cbn [mbind option_bind].
  assert (W3 : wf s3) by (by eapply same_wf). assert (RL3 : relisted s s3 lk (after_lock v ht) (expiry ht timeout) false ht)
    by (by eapply same_relisted). assert (R3 : rest s3 = rest s2) by apply S3. exists s3.
  rewrite E0. destruct ht.
  - destruct (has_wake_lock_locked_ok s3 0 W3) as (s4 & r & E4 & Hr); [lia|]. change (Z.of_nat 0) with 0 in E4.
    rewrite E4. cbn [mbind option_bind]. eexists. split_and!; [done|done|done|congruence|]. right. split; [done|].
    exists s4, r. split; [done|]. apply same_refl.
  - cbn [mbind option_bind]. eexists. split_and!; [done|done|done|congruence|]. right. split; [done|].
    exists s3, (-1). split; [|apply same_refl]. left. do 2 (split; [done|]). exists lk. split.
    + apply (elem_of_relisted _ _ _ _ _ _ _ 0 lk RL3). left. split; [done|]. split; [done|]. simpl. lia.
    + rewrite (is_auto_relisted _ _ _ _ _ _ _ lk RL3). by rewrite decide_True.
Qed.

Lemma without_id lk l : lk ∉ l -> without lk l = l.
Proof. intros H. apply filter_all. set_solver. Qed.

Lemma uninit_unlisted s lk v e :
  wf s -> vw s lk = Some (v, e) -> v_init v = false ->
  (lk ∉ inactive_locks s) /\ (forall t, lk ∉ active_of s t) /\ on_list s lk = false.
Proof.
  intros W H Hi. assert (H1 : lk ∉ inactive_locks s).
  { intros Hl. destruct (wf_inactive s W _ Hl) as (v' & e' & E & E' & _). congruence. }
  assert (H2 : forall t, lk ∉ active_of s t).
  { intros t Hl. destruct (wf_active s W _ _ Hl) as (v' & e' & E & E' & _). congruence. }
  split; [done|]. split; [done|]. apply not_true_is_false. rewrite on_list_spec. intros [?|[t ?]]; [done|by eapply H2].
Qed.

Lemma wake_lock_init_ok s lk v e type nm :
  wf s -> vw s lk = Some (v, e) -> v_init v = false -> 0 <= type < 2 ->
  exists s', wake_lock_init s lk type (Some nm) = Some s' /\ wf s' /\ rest s' = rest s /\
    relisted s s' lk (mkview type true false false) e true false.
Proof.
  intros W H Hi Ht. destruct (uninit_unlisted s lk v e W H Hi) as (N1 & N2 & N3).
  destruct (vw_Some _ _ _ _ H) as (l & El & Ev & Ee). unfold wake_lock_init. rewrite El, N3. cbn [mbind option_bind].
  rewrite bool_decide_eq_false_2 by done. cbn [orb]. eexists. split; [done|].
  match goal with |- wf ?s' /\ _ => assert (R : relisted s s' lk (mkview type true false false) e true false) end.
  { split_and!; simpl.
    - intros x. rewrite <- Ee. unfold vw. simpl. case_decide as D.
      + subst x. rewrite lookup_insert_eq. simpl. do 2 f_equal.
        assert (Hc : type = 0 \/ type = 1) by lia. by destruct Hc as [-> | ->].
      + by rewrite lookup_insert_ne.
    - by rewrite without_id.
    - done.
    - intros t. rewrite app_nil_r, without_id by done. done. }
  split; [|split; [done|exact R]]. by eapply wf_relisted.
Qed.

Lemma wf_removed s s' lk v e :
  wf s -> (forall x, vw s' x = if decide (x = lk) then Some (v, e) else vw s x) -> v_init v = false ->
  inactive_locks s' = without lk (inactive_locks s) -> length (active_wake_locks s') = 2%nat ->
  (forall t, active_of s' t = without lk (active_of s t)) -> wf s'.
Proof.
  intros [W1 [W2 W2'] W3 W4 W5 W6] Fv Hi Fi Fl Fa. split.
  - done.
  - rewrite Fi. split; [by apply NoDup_without|]. intros t. rewrite Fa. by apply NoDup_without.
  - intros x. rewrite Fi, elem_of_without, Fv. intros [Hx Hn]. rewrite decide_False by done. by apply W3.
  - intros t x. rewrite Fa, elem_of_without, Fv. intros [Hx Hn]. rewrite decide_False by done. by apply W4.
  - intros x v' e'. rewrite Fv, Fi. setoid_rewrite Fa. setoid_rewrite elem_of_without. case_decide as D; [congruence|].
    intros Hx Hv. destruct (W5 _ _ _ Hx Hv) as [?|(t & ? & ?)]; [tauto|]. right. exists t. tauto.
  - intros t. rewrite Fa. apply (ordered_ext s); [|by apply ordered_without].
    intros x [_ Hn]%elem_of_without. unfold is_auto. by rewrite Fv, decide_False.
Qed.

Lemma wake_lock_destroy_ok s lk v e :
  wf s -> vw s lk = Some (v, e) -> v_init v = true -> is_Some (vw s deleted_wake_locks) ->
  exists s', wake_lock_destroy s lk = Some s' /\ wf s' /\ rest s' = rest s /\
    (forall x, vw s' x = if decide (x = lk) then Some (mkview (v_type v) false (v_active v) (v_auto v), e) else vw s x) /\
    inactive_locks s' = without lk (inactive_locks s) /\ forall t, active_of s' t = without lk (active_of s t).
Proof.
  intros W H Hi Hd. unfold wake_lock_destroy.
  destruct (upd_ok s lk (clear_flags WAKE_LOCK_INITIALIZED) v e H) as (s1 & l & _ & V & X & -> & F & I & A & R).
  cbn [mbind option_bind]. rewrite view_clear_init in F. destruct (view_inv _ _ V) as (T1 & _ & T3 & T4). rewrite T1, T3, T4 in F.
  simpl in F. rewrite X in F.
  assert (H1 : vw s1 lk = Some (mkview (v_type v) false (v_active v) (v_auto v), e)) by (by rewrite F, decide_True).
  destruct (vw_Some _ _ _ _ H1) as (l1 & -> & _). cbn [mbind option_bind].
  assert (Hd1 : exists vd ed, vw s1 deleted_wake_locks = Some (vd, ed)).
  { rewrite F. case_decide; [eauto|]. destruct Hd as [[vd ed] ->]. eauto. }
  destruct Hd1 as (vd & ed & Hd1).
  match goal with |- context [if (count ?st =? 0) then Some s1 else ?u] =>
    assert (E2 : exists s2, (if (count st =? 0) then Some s1 else u) = Some s2 /\ same s1 s2) end.
  { destruct (_ =? 0); [eexists; split; [done|apply same_refl]|]. eapply upd_same; [exact Hd1|done]. }
  destruct E2 as (s2 & -> & S2). cbn [mbind option_bind]. unfold list_del.
  rewrite (same_on_list s1), (on_list_ext s), (wf_on_list s lk v e) by done. eexists. split; [done|].
  destruct S2 as (B1 & B2 & B3 & B4).
  set (s3 := set_lists s2 _ _).
  assert (Fv : forall x, vw s3 x = if decide (x = lk) then Some (mkview (v_type v) false (v_active v) (v_auto v), e) else vw s x).
  { intros x. unfold vw in *. simpl. by rewrite B1, F. }
  assert (Fi : inactive_locks s3 = without lk (inactive_locks s)) by (simpl; by rewrite B2, I).
  assert (Fa : forall t, active_of s3 t = without lk (active_of s t)).
  { intros t. unfold active_of. simpl. rewrite B3, A, list_lookup_fmap. by destruct (active_wake_locks s !! t). }
  split; [|split; [unfold rest in *; simpl; congruence|done]].
  eapply wf_removed; [exact W|exact Fv|done|exact Fi| |exact Fa]. simpl. rewrite length_map, B3, A. by apply wf_two.
Qed.

Lemma relisted_known s s' lk v e i tl x : relisted s s' lk v e i tl -> is_Some (vw s x) -> is_Some (vw s' x).
Proof. intros [-> _] Hx. by case_decide. Qed.

Lemma swept_known ids s s' x : swept ids s s' -> is_Some (vw s x) -> is_Some (vw s' x).
Proof. intros Sw [[v e] Hx]. rewrite (sw_vw _ _ _ Sw). destruct (_ && _); rewrite Hx; by eexists. Qed.

(** ** Calls of the interface *)

Inductive call :=
| Init (lk : nat) (type : Z) (nm : string)
| Destroy (lk : nat)
| Lock (lk : nat)
| Lock_timeout (lk : nat) (timeout : Z)
| Unlock (lk : nat)
| Has_lock (type : Z)
| Timer_fires
| Suspend_late.

Definition perform (s : state) (cl : call) : option state :=
  match cl with
  | Init lk type nm => wake_lock_init s lk type (Some nm)
  | Destroy lk => wake_lock_destroy s lk
  | Lock lk => wake_lock_ TICK_NSEC c s lk
  | Lock_timeout lk timeout => wake_lock_timeout TICK_NSEC c s lk timeout
  | Unlock lk => wake_unlock TICK_NSEC c s lk
  | Has_lock type => fst <$> has_wake_lock TICK_NSEC c s type
  | Timer_fires => expire_wake_locks TICK_NSEC c s
  | Suspend_late => fst <$> power_suspend_late TICK_NSEC c s
  end.

Definition initialised (s : state) (lk : nat) : bool :=
  match locks s !! lk with Some l => has l WAKE_LOCK_INITIALIZED | None => false end.

(** A lock is initialised once before it is used. *)
Definition allowed (s : state) (cl : call) : Prop :=
  match cl with
  | Init lk type _ => is_Some (locks s !! lk) /\ initialised s lk = false /\ 0 <= type < 2
  | Destroy lk | Lock lk | Lock_timeout lk _ | Unlock lk => initialised s lk = true
  | Has_lock type => 0 <= type < 2
  | Timer_fires | Suspend_late => True
  end.

Lemma initialised_vw s lk : initialised s lk = true -> exists v e, vw s lk = Some (v, e) /\ v_init v = true.
Proof. unfold initialised, vw. destruct (locks s !! lk) as [l|]; [|done]. intros H. simpl. eauto. Qed.

Lemma perform_ok s cl :
  wf s -> is_Some (locks s !! main_wake_lock) -> is_Some (locks s !! deleted_wake_locks) -> allowed s cl ->
  exists s', perform s cl = Some s' /\ wf s'.
Proof.
  intros W Hm Hd Hal.
  assert (Hk : forall x, is_Some (locks s !! x) -> is_Some (vw s x)) by (intros x [l E]; unfold vw; rewrite E; by eexists).
  destruct cl; simpl in *.
  - destruct Hal as ([l El] & Hi & Ht). unfold initialised in Hi. rewrite El in Hi.
    destruct (wake_lock_init_ok s lk (view_of l) (expires l) type nm) as (s' & E & W' & _); eauto.
    unfold vw. by rewrite El.
  - destruct (initialised_vw s lk Hal) as (v & e & H & Hi).
    destruct (wake_lock_destroy_ok s lk v e) as (s' & E & W' & _); eauto.
  - destruct (initialised_vw s lk Hal) as (v & e & H & Hi).
    destruct (wake_lock_internal_ok s lk v e 0 false) as (s1 & s' & E & W' & _ & _ & U); eauto using updated_wf.
  - destruct (initialised_vw s lk Hal) as (v & e & H & Hi).
    destruct (wake_lock_internal_ok s lk v e timeout true) as (s1 & s' & E & W' & _ & _ & U); eauto using updated_wf.
  - destruct (initialised_vw s lk Hal) as (v & e & H & Hi).
    destruct (wake_unlock_ok s lk v e) as (s1 & s' & E & W' & _ & _ & U); eauto using updated_wf.
  - destruct (has_wake_lock_locked_ok s (Z.to_nat type) W) as (s' & r & E & Hr); [lia|].
    unfold has_wake_lock. rewrite Z2Nat.id in E by lia. rewrite E. exists s'. split; [done|]. by eapply has_result_wf.
  - destruct (has_wake_lock_locked_ok s 0 W) as (s' & r & E & Hr); [lia|].
    unfold expire_wake_locks. change WAKE_LOCK_SUSPEND with (Z.of_nat 0). rewrite E. cbn [mbind option_bind].
    eexists. split; [done|]. assert (W' : wf s') by (by eapply has_result_wf). destruct (_ =? 0); [|done].
    unfold queue_work. case_bool_decide; [done|]. by apply (wf_lists s').
  - destruct (has_wake_lock_locked_ok s 0 W) as (s' & r & E & Hr); [lia|].
    unfold power_suspend_late, has_wake_lock. change WAKE_LOCK_SUSPEND with (Z.of_nat 0). rewrite E. cbn.
    eexists. split; [done|]. apply (wf_lists s'); [done..|]. by eapply has_result_wf.
Qed.

(** C39. Every call of the interface on a state that satisfies the invariant [wf], on
    locks that were initialised, is defined (no [BUG_ON] fires, no list entry is deleted
    twice) and gives a state that satisfies it: a lock is on the inactive list exactly
    when it is not active, and otherwise on the list of its type, with the locks without a
    timeout first. *)
Theorem wake_lock_invariant s cl :
  wf s -> is_Some (locks s !! main_wake_lock) -> is_Some (locks s !! deleted_wake_locks) -> allowed s cl ->
  exists s', perform s cl = Some s' /\ wf s'.
Proof. apply perform_ok. Qed.

(** [has_wake_lock] returns -1, and changes nothing, exactly when a lock without a
    timeout is active; and otherwise the time until the last active lock expires, having
    made inactive those that have expired and only those.  It is zero exactly when no lock
    that has not expired is active. *)
Theorem has_wake_lock_correct s t :
  wf s -> (t < 2)%nat ->
  exists s' r, has_wake_lock TICK_NSEC c s (Z.of_nat t) = Some (s', r) /\ has_result s t s' r /\
    (r <> 0 <-> exists lk, lk ∈ active_of s t /\ expired s lk = false) /\
    (r = 0 -> active_of s' t = []).
Proof.
  intros W Ht. destruct (has_wake_lock_locked_ok s t W Ht) as (s' & r & E & Hr). exists s', r.
  split; [exact E|]. split; [exact Hr|]. destruct Hr as [(-> & -> & lk & Hlk & Ha)|(H0 & Sw & Hall & Hex)].
  - split; [|done]. split; [|done]. intros _. exists lk. split; [done|]. unfold expired. by rewrite Ha.
  - assert (Hz : r = 0 -> forall lk, lk ∈ active_of s t -> expired s lk = true).
    { intros -> lk Hlk. destruct (Hall lk Hlk) as [Ha Hl]. unfold expired. rewrite Ha. by apply Z.leb_le. }
    split; [split|].
    + intros Hn. destruct Hex as [?|(lk & Hlk & El)]; [done|]. exists lk. split; [done|]. unfold expired.
      destruct (Hall lk Hlk) as [-> _]. rewrite El. apply Z.leb_gt. lia.
    + intros (lk & Hlk & Hx) ->. rewrite (Hz eq_refl lk Hlk) in Hx. done.
    + intros Hr. rewrite (sw_active _ _ _ Sw). destruct (filter _ _) as [|x l] eqn:Ef; [done|].
      assert (Hx : x ∈ filter (fun x => bool_decide (x ∈ active_of s t) && expired s x = false) (active_of s t)) by (rewrite Ef; set_solver).
      apply list_elem_of_filter in Hx as [Hx Hin]. rewrite bool_decide_eq_true_2, (Hz Hr x Hin) in Hx by done. done.
Qed.

(** What /proc/wakelocks shows of a lock is what its statistics would be were it
    unlocked now: the counts, the total and the maximal time and the time for which it
    prevented suspend. *)
Theorem print_lock_stat_agrees last l :
  let p := print_lock_stat TICK_NSEC c last l in
  let st := stat (wake_unlock_stat_locked TICK_NSEC c last l false) in
  l_count p = count st /\ l_expire_count p = expire_count st /\ l_wake_count p = wakeup_count st /\
  l_total_time p = total_time st /\ l_sleep_time p = prevent_suspend_time st /\ l_max_time p = max_time st.
Proof.
  unfold print_lock_stat, wake_unlock_stat_locked. destruct (has l WAKE_LOCK_ACTIVE); [|done]. cbn [negb].
  by destruct (get_expired_time TICK_NSEC c l), (has l WAKE_LOCK_PREVENTING_SUSPEND).
Qed.

(** The test of [debug_mask] in [print_active_locks] never succeeds: the messages do not
    depend on it. *)
Lemma print_active_locks_ignores_mask s mask mask' type :
  print_active_locks c s mask type = print_active_locks c s mask' type.
Proof.
  unfold print_active_locks. destruct (WAKE_LOCK_TYPE_COUNT <=? type), (type <? 0); try done.
  destruct (active_wake_locks s !! Z.to_nat type) as [ids|]; [|done]. cbn [mbind option_bind]. generalize true as b.
  assert (H : forall d, Z.land (b2z (d =? 0)) DEBUG_EXPIRE = 0) by (intros d; by destruct (d =? 0)).
  induction ids as [|lk ids IH]; intros b; simpl; [done|]. rewrite !H. simpl.
  destruct (locks s !! lk) as [l|]; [|done]. cbn [mbind option_bind]. by rewrite !IH.
Qed.

End Operations.

(** ** Two locks, one with a timeout *)

Definition ex_stat : lock_stat := mkstat 0 0 0 0 0 0 0.
Definition ex_clock : clock := mkclock 1000 77 70.
Definition ex_state : state :=
  mkstate {[ 0%nat := mklock 0x300 (Some "main"%string) (2 ^ 31 - 1) ex_stat; 2%nat := mklock 0x100 (Some "deleted"%string) 0 ex_stat;
             5%nat := mklock 0x700 (Some "radio"%string) 1100 ex_stat ]}
    [2%nat] [[0%nat; 5%nat]; []] 2 None [] 0 false.

Lemma ex_state_wf : wf ex_state.
Proof.
  assert (Ha : forall t lk, lk ∈ active_of ex_state t -> t = 0%nat /\ (lk = 0%nat \/ lk = 5%nat)).
  { intros [|[|t]] lk H; unfold active_of in H; simpl in H; set_solver. }
  split.
  - done.
  - split; [apply NoDup_singleton|]. intros [|[|t]]; unfold active_of; simpl; [|apply NoDup_nil_2..].
    apply NoDup_cons. split; [set_solver|apply NoDup_singleton].
  - intros lk Hlk. simpl in Hlk. apply list_elem_of_singleton in Hlk as ->. eexists _, _. split; [reflexivity|]. repeat split; vm_compute; congruence.
  - intros t lk H. destruct (Ha t lk H) as [-> [-> | ->]]; eexists _, _; (split; [reflexivity|done]).
  - intros lk v e H _. destruct (decide (lk = 0%nat)) as [->|]; [right; exists 0%nat; split; [lia|unfold active_of; simpl; set_solver]|].
    destruct (decide (lk = 5%nat)) as [->|]; [right; exists 0%nat; split; [lia|unfold active_of; simpl; set_solver]|].
    destruct (decide (lk = 2%nat)) as [->|]; [left; simpl; set_solver|]. exfalso. unfold vw, ex_state in H. simpl in H.
    rewrite !lookup_insert_ne, lookup_singleton_ne in H by done. done.
  - intros [|[|t]]; unfold active_of; simpl; [exists [0%nat], [5%nat]|exists [], []..]; repeat split; repeat constructor.
Qed.

Lemma wake_lock_invariant_witness :
  exists s', perform 5000000 ex_clock ex_state (Unlock 0) = Some s' /\ expire_timer s' = Some 1100.
Proof.
  destruct (wake_lock_invariant 5000000 ex_clock ex_state (Unlock 0)) as (s' & E & _);
    [exact ex_state_wf|by eexists|by eexists|reflexivity|].
  exists s'. split; [exact E|]. vm_compute in E. injection E as <-. reflexivity.
Defined.

Lemma has_wake_lock_correct_witness :
  exists s', has_wake_lock 5000000 ex_clock ex_state 0 = Some (s', -1).
Proof.
  destruct (has_wake_lock_correct 5000000 ex_clock ex_state 0) as (s' & r & E & _); [exact ex_state_wf|lia|].
  exists s'. change (Z.of_nat 0) with 0 in E. rewrite E. vm_compute in E. injection E as <- <-. reflexivity.
Defined.

End Wakelock.
