(* ===== verification/Earlysuspend.v ===== *)
(** * kernel/power/earlysuspend.c and the suspend work of kernel/power/wakelock.c

    The user asks for sleep or wake-up with [request_suspend_state].  The works
    [early_suspend], [late_resume] and [suspend] run one after the other on a work queue
    with one thread: the first calls the handlers that turn off the screen and the like and
    then gives up the main wake lock, the second calls the handlers that turn them on
    again, the third puts the machine to sleep when no wake lock is active.

    The system interleaves the worker, whose program counter is [worker], with the
    drivers' calls of the wake lock interface, the timer, the clock, the user's requests
    and the registration of handlers.  A section under [state_lock], under [list_lock] or,
    for the registrations, under [early_suspend_lock] is one step; the worker calls one
    handler per step, holding [early_suspend_lock].

    [now] counts the jiffies since the start, of which the code sees [jiffies] modulo
    [2^32].  The system runs for fewer than [2^31] of them (124 days), as the comparisons of
    the code require; the other clocks are given with each step.

    [CONFIG_S5P64XX_LPAUDIO] and [CONFIG_SND_S5P_RP] are not set in the phone's
    configuration, so their blocks are left out. *)
From stdpp Require Import strings sorting.
From S2P Require Import Prelude Wakelock.
Import Wakelock.

Module Earlysuspend.

Definition SUSPEND_REQUESTED : Z := 1.
Definition SUSPENDED : Z := 2.
Definition SUSPEND_REQUESTED_AND_SUSPENDED : Z := 3.

Definition PM_SUSPEND_ON : Z := 0.
Definition PM_SUSPEND_MEM : Z := 3.
Definition PM_SUSPEND_MAX : Z := 4.

(** [struct early_suspend] at the address [addr]; whether the hooks are not [NULL]. *)
Record early_suspend := mkhandler { addr : nat; level : Z; suspend_hook : bool; resume_hook : bool }.

#[export] Instance early_suspend_eq_dec : EqDecision early_suspend.
Proof. solve_decision. Defined.

(** Where the worker is. *)
Inductive point :=
| Idle
| S_start | S_event | S_pm (entry_event_num : Z) | S_slept (entry_event_num : Z) | S_after (entry_event_num : Z)
| E_start | E_handlers (to_call : list early_suspend) | E_end
| L_start | L_handlers (to_call : list early_suspend).

(** [suspended] are the registered handlers whose suspend hook was called last; [asked]
    is whether the last request was for sleep. *)
Record power := mkpower {
  wl : Wakelock.state;
  state : Z;
  requested_suspend_state : Z;
  early_suspend_handlers : list early_suspend;
  suspended : gset nat;
  worker : point;
  now : Z;
  asked : bool }.

Definition set_wl (s : power) w := mkpower w (state s) (requested_suspend_state s) (early_suspend_handlers s)
  (suspended s) (worker s) (now s) (asked s).
Definition set_state (s : power) x := mkpower (wl s) x (requested_suspend_state s) (early_suspend_handlers s)
  (suspended s) (worker s) (now s) (asked s).
Definition set_handlers (s : power) l su := mkpower (wl s) (state s) (requested_suspend_state s) l
  su (worker s) (now s) (asked s).
Definition set_worker (s : power) p := mkpower (wl s) (state s) (requested_suspend_state s) (early_suspend_handlers s)
  (suspended s) p (now s) (asked s).

(** [pos->suspend(pos)] and [pos->resume(pos)], when the hook is set. *)
Definition call_suspend (h : early_suspend) (su : gset nat) : gset nat :=
  if suspend_hook h then {[addr h]} ∪ su else su.
Definition call_resume (h : early_suspend) (su : gset nat) : gset nat :=
  if resume_hook h then su ∖ {[addr h]} else su.

(** ** Handlers *)

Fixpoint insert_handler (handler : early_suspend) (l : list early_suspend) : list early_suspend :=
  match l with
  | [] => [handler]
  | e :: l' => if level handler <? level e then handler :: e :: l' else e :: insert_handler handler l'
  end.

Definition register_early_suspend (s : power) (handler : early_suspend) : power :=
  let l := insert_handler handler (early_suspend_handlers s) in
  let su := if negb (Z.land (state s) SUSPENDED =? 0) then call_suspend handler (suspended s) else suspended s in
  set_handlers s l su.

Definition unregister_early_suspend (s : power) (a : nat) : option power :=
  if existsb (fun h => bool_decide (addr h = a)) (early_suspend_handlers s)
  then Some (set_handlers s (filter (fun h => addr h <> a) (early_suspend_handlers s)) (suspended s ∖ {[a]}))
  else None.

(** The counter starts five minutes before it wraps around. *)
Definition INITIAL_JIFFIES : Z := u32 (-300 * HZ).

(** The active locks that prevent suspend. *)
Abbreviation suspend_locks w := (active_of w 0).

Section Clocks.
Context (TICK_NSEC : Z) (ktime ktime_tick : Z).

Definition clock_at (t : Z) : clock := mkclock (u32 (INITIAL_JIFFIES + t)) ktime ktime_tick.
Definition clk (s : power) : clock := clock_at (now s).

(** ** Requests *)

Definition request_suspend_state (s : power) (new_state : Z) : option power :=
  let old_sleep := negb (Z.land (state s) SUSPEND_REQUESTED =? 0) in
  '(w, st) ← (if negb old_sleep && negb (new_state =? PM_SUSPEND_ON) then
                Some (queue_work (wl s) early_suspend_work, Z.lor (state s) SUSPEND_REQUESTED)
              else if old_sleep && (new_state =? PM_SUSPEND_ON) then
                w ← wake_lock_ TICK_NSEC (clk s) (wl s) main_wake_lock;
                Some (queue_work w late_resume_work, Z.land (state s) (Z.lnot SUSPEND_REQUESTED))
              else Some (wl s, state s));
  Some (mkpower w st new_state (early_suspend_handlers s) (suspended s) (worker s) (now s)
          (negb (new_state =? PM_SUSPEND_ON))).

(** ** The worker *)

Definition start_of (w : work) : point :=
  match w with suspend_work => S_start | early_suspend_work => E_start | late_resume_work => L_start end.

(** The thread of the work queue takes the next work. *)
Definition next_work (s : power) : option power :=
  match suspend_work_queue (wl s) with
  | [] => None
  | w :: q => Some (set_worker (set_wl s (set_queue (wl s) q)) (start_of w))
  end.

(** The work [suspend]; [late] tells whether [pm_suspend] reaches the point where it calls
    [power_suspend_late]. *)
Definition suspend_step (s : power) (late : bool) : option power :=
  match worker s with
  | S_start =>
      '(w, r) ← has_wake_lock TICK_NSEC (clk s) (wl s) WAKE_LOCK_SUSPEND;
      Some (set_worker (set_wl s w) (if r =? 0 then S_event else Idle))
  | S_event => Some (set_worker s (S_pm (current_event_num (wl s))))
  | S_pm e =>
      if late && (PM_SUSPEND_ON <? requested_suspend_state s) && (requested_suspend_state s <=? PM_SUSPEND_MAX) then
        '(w, r) ← power_suspend_late TICK_NSEC (clk s) (wl s);
        Some (set_worker (set_wl s w) (if r =? 0 then S_slept e else S_after e))
      else Some (set_worker s (S_after e))
  | S_slept e => Some (set_worker s (S_after e))
  | S_after e =>
      if current_event_num (wl s) =? e then
        w ← wake_lock_timeout TICK_NSEC (clk s) (wl s) unknown_wakeup (HZ / 2);
        Some (set_worker (set_wl s w) Idle)
      else Some (set_worker s Idle)
  | _ => None
  end.

(** The work [early_suspend]. *)
Definition early_suspend_step (s : power) : option power :=
  match worker s with
  | E_start =>
      if state s =? SUSPEND_REQUESTED
      then Some (set_worker (set_state s (Z.lor (state s) SUSPENDED)) (E_handlers (early_suspend_handlers s)))
      else Some (set_worker s E_end)
  | E_handlers (pos :: l) =>
      Some (set_worker (set_handlers s (early_suspend_handlers s) (call_suspend pos (suspended s))) (E_handlers l))
  | E_handlers [] => Some (set_worker s E_end)
  | E_end =>
      if state s =? SUSPEND_REQUESTED_AND_SUSPENDED then
        w ← wake_unlock TICK_NSEC (clk s) (wl s) main_wake_lock;
        Some (set_worker (set_wl s w) Idle)
      else Some (set_worker s Idle)
  | _ => None
  end.

(** The work [late_resume]. *)
Definition late_resume_step (s : power) : option power :=
  match worker s with
  | L_start =>
      if state s =? SUSPENDED
      then Some (set_worker (set_state s (Z.land (state s) (Z.lnot SUSPENDED))) (L_handlers (rev (early_suspend_handlers s))))
      else Some (set_worker s Idle)
  | L_handlers (pos :: l) =>
      Some (set_worker (set_handlers s (early_suspend_handlers s) (call_resume pos (suspended s))) (L_handlers l))
  | L_handlers [] => Some (set_worker s Idle)
  | _ => None
  end.

Definition worker_step (s : power) (late : bool) : option power :=
  match worker s with
  | Idle => next_work s
  | S_start | S_event | S_pm _ | S_slept _ | S_after _ => suspend_step s late
  | E_start | E_handlers _ | E_end => early_suspend_step s
  | L_start | L_handlers _ => late_resume_step s
  end.

(** ** The system *)

Inductive event :=
| Worker (late : bool)
| Driver (cl : Wakelock.call)
| Timer
| Tick
| Request (new_state : Z)
| Register (handler : early_suspend)
| Unregister (a : nat).

(** [early_suspend_lock] is free. *)
Definition unlocked (s : power) : bool :=
  match worker s with E_handlers _ | L_handlers _ => false | _ => true end.

Definition static_lock (lk : nat) : bool := bool_decide (lk ∈ [main_wake_lock; unknown_wakeup; deleted_wake_locks]).

(** The last jiffy of a run. *)
Definition horizon : Z := 2 ^ 31 - HZ.

(** Drivers use their own locks, after they have initialised them, and destroy them when
    they are not active; their timeouts end before the horizon. *)
Definition well_behaved (s : power) (cl : Wakelock.call) : bool :=
  match cl with
  | Init lk type _ => negb (static_lock lk) && bool_decide (is_Some (locks (wl s) !! lk)) &&
      negb (initialised (wl s) lk) && (0 <=? type) && (type <? 2)
  | Destroy lk => negb (static_lock lk) && initialised (wl s) lk && bool_decide (lk ∈ inactive_locks (wl s))
  | Lock lk | Unlock lk => negb (static_lock lk) && initialised (wl s) lk
  | Lock_timeout lk timeout => negb (static_lock lk) && initialised (wl s) lk &&
      (0 <=? now s + timeout) && (now s + timeout <? horizon)
  | Has_lock type => (0 <=? type) && (type <? 2)
  | Timer_fires | Suspend_late => false
  end.

Definition step (s : power) (ev : event) : option power :=
  match ev with
  | Worker late => worker_step s late
  | Driver cl => if well_behaved s cl then w ← perform TICK_NSEC (clk s) (wl s) cl; Some (set_wl s w) else None
  | Timer =>
      match expire_timer (wl s) with
      | Some T =>
          if 0 <=? s32 (jiffies (clk s) - T) then
            w ← expire_wake_locks TICK_NSEC (clk s) (set_timer (wl s) None); Some (set_wl s w)
          else None
      | None => None
      end
  | Tick =>
      if now s + 1 <? horizon
      then Some (mkpower (wl s) (state s) (requested_suspend_state s) (early_suspend_handlers s) (suspended s)
                   (worker s) (now s + 1) (asked s))
      else None
  | Request new_state => request_suspend_state s new_state
  | Register handler =>
      if unlocked s && negb (existsb (fun h => bool_decide (addr h = addr handler)) (early_suspend_handlers s))
      then Some (register_early_suspend s handler) else None
  | Unregister a => if unlocked s then unregister_early_suspend s a else None
  end.

(** ** The wake locks in the system

    The time, in jiffies since the start, at which a lock expires. *)
Definition deadline (w : Wakelock.state) (lk : nat) : Z :=
  match vw w lk with Some (_, e) => u32 (e - INITIAL_JIFFIES) | None => 0 end.

Definition permanent (w : Wakelock.state) : Prop := exists lk, lk ∈ suspend_locks w /\ is_auto w lk = false.

Definition times (w : Wakelock.state) : Prop :=
  forall lk, lk ∈ suspend_locks w -> is_auto w lk = true -> deadline w lk < 2 ^ 31.

(** The static locks exist; the main lock never has a timeout. *)
Definition statics (w : Wakelock.state) : Prop :=
  (exists v e, vw w main_wake_lock = Some (v, e) /\ v_init v = true /\ v_type v = 0 /\ v_auto v = false) /\
  (exists v e, vw w unknown_wakeup = Some (v, e) /\ v_init v = true /\ v_type v = 0) /\
  is_Some (vw w deleted_wake_locks).

(** When a lock that prevents suspend may still expire the timer is set, for a time at
    which all have expired. *)
Record winv (w : Wakelock.state) (t : Z) : Prop := {
  wi_wf : wf w;
  wi_statics : statics w;
  wi_times : times w;
  wi_timer : forall T, expire_timer w = Some T -> u32 (T - INITIAL_JIFFIES) < 2 ^ 31 /\
    forall lk, lk ∈ suspend_locks w -> is_auto w lk = true -> deadline w lk <= u32 (T - INITIAL_JIFFIES);
  wi_base : permanent w \/ is_Some (expire_timer w) \/
    forall lk, lk ∈ suspend_locks w -> deadline w lk <= t }.

(** Something will queue the suspend work, or it is queued. *)
Definition pend (w : Wakelock.state) : Prop :=
  permanent w \/ is_Some (expire_timer w) \/ suspend_work ∈ suspend_work_queue w.

Lemma left_deadline w lk t :
  0 <= t < 2 ^ 31 -> is_Some (vw w lk) -> deadline w lk < 2 ^ 31 -> left_of (clock_at t) w lk = deadline w lk - t.
Proof.
  unfold deadline, left_of. intros Ht [[v e] ->] Hd. simpl. set (J := INITIAL_JIFFIES) in *.
  replace (s32 (e - u32 (J + t))) with (s32 (u32 (e - J) - t)).
  - pose proof (u32_range (e - J)) as R. unfold is_u32 in R. apply s32_id. lia.
  - unfold s32. u32_norm. by replace (e - J - t) with (e - (J + t)) by lia.
Qed.

Lemma deadline_at t : 0 <= t < 2 ^ 32 -> u32 (u32 (INITIAL_JIFFIES + t) - INITIAL_JIFFIES) = t.
Proof. intros Ht. u32_norm. replace (INITIAL_JIFFIES + t - INITIAL_JIFFIES) with t by lia. by apply u32_id. Qed.

Lemma deadline_ext w w' x : vw w' x = vw w x -> deadline w' x = deadline w x /\ is_auto w' x = is_auto w x.
Proof. unfold deadline, is_auto. by intros ->. Qed.

Lemma active_known w t x : wf w -> x ∈ active_of w t -> is_Some (vw w x).
Proof. intros W Hx. destruct (wf_active w W _ _ Hx) as (v & e & -> & _). by eexists. Qed.

(** ** What a lock operation leaves *)

Record left_by (w w' : Wakelock.state) (t : Z) : Prop := {
  lb_inv : winv w' t;
  lb_pend : pend w';
  lb_event : current_event_num w' = current_event_num w;
  lb_sub : forall x, x ∈ suspend_locks w' -> x ∈ suspend_locks w;
  lb_perm : forall x, x ∈ suspend_locks w -> is_auto w x = false -> x ∈ suspend_locks w';
  lb_works : forall k, k <> suspend_work -> k ∈ suspend_work_queue w' <-> k ∈ suspend_work_queue w }.

Lemma winv_same w w' t : same w w' -> winv w t -> winv w' t.
Proof.
  intros Hs [W1 W2 W3 W4 W5]. pose proof Hs as (Ev & _ & _ & Er). unfold rest in Er. injection Er as E1 E2 E3.
  pose proof (same_active_of _ _ 0 Hs) as Ea.
  assert (Ex : forall x, deadline w' x = deadline w x /\ is_auto w' x = is_auto w x) by (intros; by apply deadline_ext).
  split.
  - by eapply same_wf.
  - unfold statics. setoid_rewrite Ev. done.
  - intros lk. destruct (Ex lk) as [-> ->]. rewrite Ea. apply W3.
  - intros T. rewrite E2. intros HT. destruct (W4 T HT) as [? H]. split; [done|]. intros lk. destruct (Ex lk) as [-> ->]. rewrite Ea. apply H.
  - rewrite E2. destruct W5 as [(lk & H1 & H2)|[?|H]]; [left|by right; left|right; right].
    + exists lk. destruct (Ex lk) as [_ ->]. by rewrite Ea.
    + intros lk. destruct (Ex lk) as [-> _]. rewrite Ea. apply H.
Qed.

Lemma pend_same w w' : same w w' -> pend w -> pend w'.
Proof.
  intros Hs H. pose proof Hs as (_ & _ & _ & Er). unfold rest in Er. injection Er as E1 E2 E3. unfold pend. rewrite E2, E3.
  destruct H as [(lk & ? & ?)|?]; [left|by right]. exists lk. by rewrite (same_active_of _ _ 0 Hs), (same_is_auto _ _ _ Hs).
Qed.

Lemma left_by_same w w1 w2 t : left_by w w1 t -> same w1 w2 -> left_by w w2 t.
Proof.
  intros [L1 L2 L3 L4 L5 L6] Hs. pose proof Hs as (_ & _ & _ & Er). unfold rest in Er. injection Er as E1 E2 E3.
  split; [by eapply winv_same|by eapply pend_same|congruence|..]; rewrite ?E3, ?(same_active_of _ _ 0 Hs); done.
Qed.

Lemma swept_kept c w w' x : swept c (suspend_locks w) w w' ->
  x ∈ suspend_locks w' <-> x ∈ suspend_locks w /\ expired c w x = false.
Proof.
  intros Sw. rewrite (sw_active _ _ _ _ Sw), list_elem_of_filter. split.
  - intros [H Hx]. by rewrite bool_decide_eq_true_2 in H by done.
  - intros [Hx He]. by rewrite He, andb_false_r.
Qed.

Lemma swept_vw c w w' x : swept c (suspend_locks w) w w' -> x ∉ suspend_locks w \/ expired c w x = false -> vw w' x = vw w x.
Proof.
  intros Sw Hx. rewrite (sw_vw _ _ _ _ Sw). destruct Hx as [Hx| ->]; [by rewrite bool_decide_eq_false_2|].
  by rewrite andb_false_r.
Qed.

Lemma swept_statics c w w' : wf w -> swept c (suspend_locks w) w w' -> statics w -> statics w'.
Proof.
  intros W Sw ((v & e & H1 & H2 & H3 & H4) & (v' & e' & U1 & U2 & U3) & Hd). split_and!.
  - exists v, e. split; [|done]. rewrite (swept_vw c w), H1; [done|done|]. right. unfold expired, is_auto. by rewrite H1, H4.
  - rewrite (sw_vw _ _ _ _ Sw). destruct (_ && _); rewrite U1; simpl; eauto.
  - by eapply swept_known.
Qed.

Lemma swept_times c w w' : swept c (suspend_locks w) w w' -> times w -> times w'.
Proof.
  intros Sw Ht lk Hlk. apply (swept_kept _ _ _ _ Sw) in Hlk as [Hl He].
  destruct (deadline_ext w w' lk) as [-> ->]; [by apply (swept_vw c); auto|by apply Ht].
Qed.

Lemma arm_left w1 w2 r t :
  wf w1 -> statics w1 -> times w1 -> 0 <= t < 2 ^ 31 -> has_result (clock_at t) w1 0 w2 r ->
  left_by w1 (arm (clock_at t) w2 r) t.
Proof.
  intros W St Ti Ht Hr. set (c := clock_at t) in *.
  destruct (arm_lists c w2 r) as (Av & Ai & Aa & Ae).
  destruct (has_result_wf _ _ _ _ _ W Hr) as [W2 R2]. unfold rest in R2. injection R2 as R2a R2b R2c.
  assert (Ax : forall x, deadline (arm c w2 r) x = deadline w2 x /\ is_auto (arm c w2 r) x = is_auto w2 x)
    by (intros; by apply deadline_ext).
  assert (As : suspend_locks (arm c w2 r) = suspend_locks w2) by (unfold active_of; by rewrite Aa).
  destruct Hr as [(-> & -> & lk & Hlk & Hp)|(H0 & Sw & Hall & Hex)].
  - assert (Hper : permanent (arm c w1 (-1))) by (exists lk; by destruct (Ax lk) as [_ ->]; rewrite As).
    split; [split|..].
    + by apply arm_wf.
    + unfold statics. by setoid_rewrite Av.
    + intros x. destruct (Ax x) as [-> ->]. rewrite As. apply Ti.
    + done.
    + by left.
    + by left.
    + done.
    + by rewrite As.
    + by rewrite As.
    + done.
  - assert (Hd : forall x, x ∈ suspend_locks w1 -> left_of c w1 x = deadline w1 x - t).
    { intros x Hx. apply left_deadline; [done|by eapply active_known|apply Ti; [done|by apply Hall]]. }
    assert (Hk : forall x, x ∈ suspend_locks w2 -> x ∈ suspend_locks w1 /\ deadline w2 x = deadline w1 x /\ is_auto w2 x = true).
    { intros x Hx. apply (swept_kept _ _ _ _ Sw) in Hx as [Hx He]. split; [done|].
      destruct (deadline_ext w1 w2 x) as [-> ->]; [by apply (swept_vw c); auto|]. split; [done|by apply Hall]. }
    assert (Hperm : forall x, x ∈ suspend_locks w1 -> is_auto w1 x = false -> x ∈ suspend_locks w2).
    { intros x Hx Hf. destruct (Hall x Hx) as [Ht' _]. congruence. }
    assert (Hwf : wf (arm c w2 r)) by (by apply arm_wf).
    assert (Hst : statics (arm c w2 r)) by (pose proof (swept_statics c w1 w2 W Sw St); unfold statics; by setoid_rewrite Av).
    assert (Hti : times (arm c w2 r)).
    { intros x. destruct (Ax x) as [-> ->]. rewrite As. by apply (swept_times c w1 w2). }
    destruct (decide (r = 0)) as [->|Hr0].
    + assert (He : suspend_locks w2 = []).
      { destruct (suspend_locks w2) as [|x l] eqn:E; [done|]. exfalso.
        assert (Hx : x ∈ suspend_locks w2) by (rewrite E; set_solver). apply (swept_kept _ _ _ _ Sw) in Hx as [Hx Hf].
        destruct (Hall x Hx) as [Ha Hl]. unfold expired in Hf. rewrite Ha in Hf. apply Z.leb_gt in Hf. lia. }
      assert (Hq : suspend_work ∈ suspend_work_queue (arm c w2 0) /\ expire_timer (arm c w2 0) = None /\
        forall k, k <> suspend_work -> k ∈ suspend_work_queue (arm c w2 0) <-> k ∈ suspend_work_queue w2).
      { unfold arm, queue_work. simpl. case_bool_decide; simpl; [done|]. split_and!; [set_solver|done|set_solver]. }
      destruct Hq as (Hq1 & Hq2 & Hq3).
      split; [split| | | | |]; rewrite ?Hq2, ?As, ?He; try done.
      * right. right. set_solver.
      * right. by right.
      * congruence.
      * set_solver.
      * intros x Hx Hf. specialize (Hperm x Hx Hf). by rewrite He in Hperm.
      * intros k Hk'. by rewrite Hq3, R2c.
    + destruct Hex as [?|(x & Hx & Ex)]; [done|]. rewrite Hd in Ex by done.
      assert (Hdx : deadline w1 x < 2 ^ 31) by (apply Ti; [done|by apply Hall]).
      assert (Et : expire_timer (arm c w2 r) = Some (u32 (u32 (INITIAL_JIFFIES + t) + r)) /\
        suspend_work_queue (arm c w2 r) = suspend_work_queue w2).
      { unfold arm. destruct (Z.ltb_spec 0 r); [done|lia]. }
      destruct Et as [Et Eq].
      assert (ET : u32 (u32 (u32 (INITIAL_JIFFIES + t) + r) - INITIAL_JIFFIES) = t + r).
      { rewrite u32_sub_l, <- Z.add_sub_assoc, u32_add_l.
        replace (INITIAL_JIFFIES + t + (r - INITIAL_JIFFIES)) with (t + r) by lia. apply u32_id. unfold is_u32. lia. }
      split; [split| | | | |]; rewrite ?Et, ?Eq, ?As; try done.
      * intros T [= <-]. rewrite ET. split; [lia|]. intros y Hy _. destruct (Ax y) as [-> _].
        destruct (Hk y Hy) as (Hy1 & -> & _). destruct (Hall y Hy1) as [_ Hl]. rewrite Hd in Hl by done. lia.
      * right. left. by eexists.
      * right. left. rewrite Et. by eexists.
      * congruence.
      * intros y Hy. by apply Hk.
      * intros k _. by rewrite R2c.
Qed.

(** An operation that does not concern the locks that prevent suspend. *)
Lemma frame_winv w w' t :
  winv w t -> wf w' -> statics w' -> rest w' = rest w -> suspend_locks w' = suspend_locks w ->
  (forall x, x ∈ suspend_locks w -> vw w' x = vw w x) ->
  winv w' t /\ (pend w -> pend w').
Proof.
  intros [W1 W2 W3 W4 W5] Hw Hs Hr HS Hv. unfold rest in Hr. injection Hr as E1 E2 E3.
  assert (Hx : forall x, x ∈ suspend_locks w -> deadline w' x = deadline w x /\ is_auto w' x = is_auto w x).
  { intros x Hx. by apply deadline_ext, Hv. }
  assert (Hp : permanent w -> permanent w').
  { intros (lk & Hl & Hf). exists lk. rewrite HS. split; [done|]. by destruct (Hx lk Hl) as [_ ->]. }
  split.
  - split; [done|done| | |].
    + intros lk. rewrite HS. intros Hl. destruct (Hx lk Hl) as [-> ->]. by apply W3.
    + intros T. rewrite E2, HS. intros HT. destruct (W4 T HT) as [? H]. split; [done|].
      intros lk Hl. destruct (Hx lk Hl) as [-> ->]. by apply H.
    + rewrite E2, HS. destruct W5 as [?|[?|H]]; [auto|auto|right; right]. intros lk Hl. destruct (Hx lk Hl) as [-> _]. by apply H.
  - unfold pend. rewrite E2, E3. intros [?|?]; auto.
Qed.

Lemma relisted_statics w w1 lk v' e' i tl :
  statics w -> relisted w w1 lk v' e' i tl -> v_init v' = true ->
  (lk = main_wake_lock -> v_type v' = 0 /\ v_auto v' = false) -> (lk = unknown_wakeup -> v_type v' = 0) -> statics w1.
Proof.
  intros ((v & e & H1 & H2) & (v2 & e2 & U1 & U2) & Hd) R Hi Hm Hu. pose proof R as [Rv _]. split_and!.
  - rewrite Rv. case_decide as D; [|by exists v, e]. exists v', e'. symmetry in D. destruct (Hm D). done.
  - rewrite Rv. case_decide as D; [|by exists v2, e2]. exists v', e'. symmetry in D. specialize (Hu D). done.
  - by eapply relisted_known.
Qed.

Lemma relisted_times w w1 lk v' e' i tl :
  times w -> relisted w w1 lk v' e' i tl -> (v_auto v' = true -> u32 (e' - INITIAL_JIFFIES) < 2 ^ 31) -> times w1.
Proof.
  intros Ht R He x Hx Ha. rewrite (is_auto_relisted _ _ _ _ _ _ _ x R) in Ha. pose proof R as [Rv _]. unfold deadline.
  rewrite Rv. case_decide as D; [by apply He|]. apply (elem_of_relisted _ _ _ _ _ _ _ 0 x R) in Hx.
  destruct Hx as [[? _]|[Hx _]]; [done|]. by apply (Ht x Hx).
Qed.

(** After an operation on one lock. *)
Record op_done (w w' : Wakelock.state) (t : Z) (lk : nat) : Prop := {
  od_inv : winv w' t;
  od_pend : pend w' \/ (current_event_num w' = current_event_num w /\ (pend w -> pend w'));
  od_main : lk <> main_wake_lock -> main_wake_lock ∈ suspend_locks w' <-> main_wake_lock ∈ suspend_locks w;
  od_works : forall k, k <> suspend_work -> k ∈ suspend_work_queue w' <-> k ∈ suspend_work_queue w }.

Lemma main_auto w : statics w -> is_auto w main_wake_lock = false.
Proof. intros ((v & e & H & _ & _ & Ha) & _). unfold is_auto. by rewrite H. Qed.

(** From the moved lock [w1] to the end of the operation. *)
Lemma updated_done w w1 w' t lk v v' e e' i tl :
  winv w t -> 0 <= t < 2 ^ 31 -> vw w lk = Some (v, e) -> v_init v = true -> v_type v' = v_type v -> v_init v' = true ->
  wf w1 -> relisted w w1 lk v' e' i tl -> updated (clock_at t) w1 (v_type v) w' ->
  (lk = main_wake_lock -> v_auto v' = false) -> (v_auto v' = true -> u32 (e' - INITIAL_JIFFIES) < 2 ^ 31) ->
  (v_type v <> 0 -> rest w1 = rest w) -> suspend_work_queue w1 = suspend_work_queue w ->
  op_done w w' t lk /\ (v_type v = 0 -> i = false -> lk = main_wake_lock -> main_wake_lock ∈ suspend_locks w') /\
  (i = true -> lk ∉ suspend_locks w').
Proof.
  intros Hw Ht Hv Hi Ety Hi' W1 R U Hmain Htime Hrest Hq.
  assert (St : statics w1).
  { destruct (wi_statics _ _ Hw) as ((vm & em & M1 & M2 & M3 & M4) & (vu & eu & U1 & U2 & U3) & _).
    eapply relisted_statics; [exact (wi_statics _ _ Hw)|exact R|done|..].
    - intros ->. split; [congruence|by apply Hmain].
    - intros ->. congruence. }
  assert (Ti : times w1) by (eapply relisted_times; [exact (wi_times _ _ Hw)|exact R|exact Htime]).
  pose proof (fun x => elem_of_relisted _ _ _ _ _ _ _ 0 x R) as Re.
  destruct U as [[Hty Hs]|(Hty & w2 & r & Hr & Hs)].
  - assert (Hlk : lk ∉ suspend_locks w).
    { intros Hl. destruct (wf_active _ (wi_wf _ _ Hw) _ _ Hl) as (v2 & e2 & E & _ & _ & E'). rewrite Hv in E. injection E as <- <-. done. }
    assert (HS : suspend_locks w1 = suspend_locks w).
    { pose proof R as (_ & _ & _ & Ra). rewrite Ra. rewrite Ety. destruct (Z.eqb_spec (Z.of_nat 0) (v_type v)) as [E|_]; [simpl in E; lia|].
      rewrite !andb_false_r. simpl. rewrite app_nil_r. by apply without_id. }
    destruct (frame_winv w w1 t Hw W1 St (Hrest Hty) HS) as [I1 P1].
    { intros x Hx. pose proof R as [-> _]. rewrite decide_False; [done|congruence]. }
    pose proof Hs as (_ & _ & _ & Er). rewrite Hrest in Er by done. unfold rest in Er. injection Er as E1 E2 E3.
    pose proof (same_active_of _ _ 0 Hs) as ES. split_and!.
    + split; [by eapply winv_same| |by rewrite ES, HS|by rewrite E3].
      right. split; [done|]. intros Hp. by eapply pend_same, P1.
    + done.
    + intros _. by rewrite ES, HS.
  - pose proof (arm_left w1 w2 r t W1 St Ti Ht Hr) as L. apply (left_by_same _ _ _ _ L) in Hs. destruct Hs as [L1 L2 L3 L4 L5 L6].
    split_and!.
    + split; [done|by left| |].
      * intros Hn. split; [intros Hm; apply L4, Re in Hm as [[? _]|[? _]]; [congruence|done]|].
        intros Hm. apply L5; [apply Re; right; split; [done|congruence]|by apply main_auto].
      * intros k Hk. by rewrite L6, Hq.
    + intros _ -> ->. apply L5; [apply Re; left; split; [done|split; [done|simpl; lia]]|by apply main_auto].
    + intros -> Hl. apply L4, Re in Hl as [(_ & ? & _)|[_ ?]]; done.
Qed.

Lemma lock_done w t lk v e timeout ht :
  winv w t -> 0 <= t < 2 ^ 31 -> vw w lk = Some (v, e) -> v_init v = true ->
  (ht = true -> lk <> main_wake_lock /\ 0 <= t + timeout < 2 ^ 31) ->
  exists w', wake_lock_internal TICK_NSEC (clock_at t) w lk timeout ht = Some w' /\ op_done w w' t lk /\
    (v_type v = 0 -> pend w') /\ (lk = main_wake_lock -> main_wake_lock ∈ suspend_locks w').
Proof.
  intros Hw Ht Hv Hi Hto.
  assert (Hm : is_Some (vw w main_wake_lock)) by (destruct (wi_statics _ _ Hw) as ((v' & e' & -> & _) & _); by eexists).
  destruct (wake_lock_internal_ok TICK_NSEC (clock_at t) w lk v e timeout ht (wi_wf _ _ Hw) Hv Hi Hm)
    as (w1 & w' & E & W1 & R & Rr & U). exists w'. split; [exact E|].
  assert (Htm : ht = true -> u32 (expiry (clock_at t) ht timeout - INITIAL_JIFFIES) < 2 ^ 31).
  { intros ->. destruct (Hto eq_refl) as [_ Hb]. unfold expiry. simpl. rewrite u32_add_l, u32_sub_l.
    replace (INITIAL_JIFFIES + t + timeout - INITIAL_JIFFIES) with (t + timeout) by lia.
    rewrite u32_id by (unfold is_u32; lia). lia. }
  unfold rest in Rr. injection Rr as Rr1 Rr2 Rr3.
  destruct (updated_done w w1 w' t lk v (after_lock v ht) e (expiry (clock_at t) ht timeout) false ht) as (D & Dm & _); try done.
  - intros ->. simpl. destruct ht; [|done]. by destruct (Hto eq_refl).
  - intros Hne. unfold rest. rewrite Rr1, Rr2, Rr3. by destruct (Z.eqb_spec (v_type v) 0).
  - split; [done|]. split.
    + intros H0. destruct U as [[? _]|(_ & w2 & r & Hr & Hs)]; [done|]. eapply pend_same; [exact Hs|].
      eapply (lb_pend w1). apply arm_left; try done.
      * eapply relisted_statics; [exact (wi_statics _ _ Hw)|exact R|done|..].
        -- intros ->. split; [done|]. simpl. destruct ht; [|done]. by destruct (Hto eq_refl).
        -- done.
      * eapply relisted_times; [exact (wi_times _ _ Hw)|exact R|exact Htm].
    + intros Hlk. apply Dm; [|done|done]. destruct (wi_statics _ _ Hw) as ((v' & e' & E' & _ & T' & _) & _). congruence.
Qed.

Lemma unlock_done w t lk v e :
  winv w t -> 0 <= t < 2 ^ 31 -> vw w lk = Some (v, e) -> v_init v = true ->
  exists w', wake_unlock TICK_NSEC (clock_at t) w lk = Some w' /\ op_done w w' t lk /\ (lk ∉ suspend_locks w').
Proof.
  intros Hw Ht Hv Hi.
  destruct (wake_unlock_ok TICK_NSEC (clock_at t) w lk v e (wi_wf _ _ Hw) Hv Hi) as (w1 & w' & E & W1 & Rr & R & U).
  exists w'. split; [exact E|]. pose proof Rr as Rr'. unfold rest in Rr'. injection Rr' as _ _ Rq.
  destruct (updated_done w w1 w' t lk v (mkview (v_type v) true false false) e e true false) as (D & _ & Dn); try done. auto.
Qed.

Lemma swept_done w w' t ids t' :
  winv w t -> 0 <= t < 2 ^ 31 -> ids = active_of w t' -> swept (clock_at t) ids w w' -> op_done w w' t unknown_wakeup.
Proof.
  intros Hw Ht -> Sw. pose proof (sw_rest _ _ _ _ Sw) as Er. pose proof Er as Er'. unfold rest in Er'. injection Er' as E1 E2 E3.
  set (c := clock_at t) in *.
  assert (Hin : forall x, x ∈ suspend_locks w' <-> x ∈ suspend_locks w /\ bool_decide (x ∈ active_of w t') && expired c w x = false).
  { intros x. rewrite (sw_active _ _ _ _ Sw), list_elem_of_filter. tauto. }
  assert (Hvw : forall x, x ∈ suspend_locks w' -> vw w' x = vw w x).
  { intros x Hx. apply Hin in Hx as [_ Hx]. rewrite (sw_vw _ _ _ _ Sw). by rewrite Hx. }
  assert (Hk : forall x, is_auto w x = false -> vw w' x = vw w x).
  { intros x Hf. rewrite (sw_vw _ _ _ _ Sw). unfold expired. by rewrite Hf, andb_false_r. }
  assert (Hx : forall x, x ∈ suspend_locks w' -> deadline w' x = deadline w x /\ is_auto w' x = is_auto w x).
  { intros x Hx. by apply deadline_ext, Hvw. }
  assert (Hp : permanent w -> permanent w').
  { intros (lk & Hl & Hf). exists lk. split; [apply Hin; split; [done|unfold expired; by rewrite Hf, andb_false_r]|].
    destruct (deadline_ext w w' lk) as [_ ->]; [by apply Hk|done]. }
  pose proof (main_auto w (wi_statics _ _ Hw)) as Hm. split.
  - split.
    + by eapply sw_wf.
    + destruct (wi_statics _ _ Hw) as ((v & e & M1 & M2) & (v2 & e2 & U1 & U2 & U3) & Hd). split_and!.
      * exists v, e. split; [|done]. by rewrite Hk.
      * rewrite (sw_vw _ _ _ _ Sw). destruct (_ && _); rewrite U1; simpl; eauto.
      * by eapply swept_known.
    + intros x Hl. destruct (Hx x Hl) as [-> ->]. apply (wi_times _ _ Hw). by apply Hin in Hl as [? _].
    + intros T. rewrite E2. intros HT. destruct (wi_timer _ _ Hw T HT) as [? H]. split; [done|].
      intros x Hl. destruct (Hx x Hl) as [-> ->]. apply H. by apply Hin in Hl as [? _].
    + rewrite E2. destruct (wi_base _ _ Hw) as [?|[?|H]]; [auto|auto|right; right]. intros x Hl. destruct (Hx x Hl) as [-> _].
      apply H. by apply Hin in Hl as [? _].
  - right. split; [done|]. unfold pend. rewrite E2, E3. intros [?|?]; auto.
  - intros _. rewrite Hin. unfold expired. rewrite Hm, andb_false_r. tauto.
  - intros k _. by rewrite E3.
Qed.

Lemma has_done w t t' w' r :
  winv w t -> 0 <= t < 2 ^ 31 -> has_result (clock_at t) w t' w' r -> op_done w w' t unknown_wakeup.
Proof.
  intros Hw Ht [(_ & -> & _)|(_ & Sw & _)]; [|by eapply swept_done].
  split; [done|by right|done|done].
Qed.

End Clocks.

(** ** The invariant of the system *)

#[local] Arguments Z.testbit : simpl never.

Definition main_held (s : power) : Prop := main_wake_lock ∈ active_of (wl s) 0.
Definition queued (s : power) (k : work) : Prop := k ∈ suspend_work_queue (wl s).

(** A pass of [suspend] that will take the lock [unknown_wakeup] unless a lock was taken
    since it read the event number. *)
Definition suspending (s : power) : Prop :=
  match worker s with
  | S_start | S_event => True
  | S_pm e | S_slept e | S_after e => current_event_num (wl s) = e
  | _ => False
  end.

(** The worker will still compare [state] with [SUSPEND_REQUESTED_AND_SUSPENDED]. *)
Definition will_unlock (s : power) : Prop :=
  match worker s with E_start | E_handlers _ | E_end => True | _ => False end.

Record es_ok (s : power) : Prop := {
  eo_range : state s = 0 \/ state s = 1 \/ state s = 2 \/ state s = 3;
  eo_main : state s <> 3 -> main_held s;
  eo_1 : state s = 1 -> queued s early_suspend_work \/ worker s = E_start;
  eo_2 : state s = 2 -> queued s late_resume_work \/ worker s = L_start;
  eo_3 : state s = 3 -> main_held s -> queued s early_suspend_work \/ will_unlock s }.

Definition is_down (s : power) (h : early_suspend) : Prop := suspend_hook h = true -> addr h ∈ suspended s.
Definition is_up (s : power) (h : early_suspend) : Prop :=
  suspend_hook h = true -> resume_hook h = true -> addr h ∉ suspended s.

(** [SUSPENDED] says which hooks have been called, except while the worker calls them. *)
Definition devices_ok (s : power) : Prop :=
  match worker s with
  | E_handlers l => Z.testbit (state s) 1 = true /\
      exists done, early_suspend_handlers s = done ++ l /\ Forall (is_down s) done /\ Forall (is_up s) l
  | L_handlers l => Z.testbit (state s) 1 = false /\
      exists done, rev (early_suspend_handlers s) = done ++ l /\ Forall (is_up s) done /\ Forall (is_down s) l
  | _ => Forall (if Z.testbit (state s) 1 then is_down s else is_up s) (early_suspend_handlers s)
  end.

Record hs_ok (s : power) : Prop := {
  ho_nodup : NoDup (map addr (early_suspend_handlers s));
  ho_sorted : StronglySorted (fun a b => level a <= level b) (early_suspend_handlers s);
  ho_known : forall a, a ∈ suspended s -> a ∈ map addr (early_suspend_handlers s);
  ho_devices : devices_ok s }.

Record inv (s : power) : Prop := {
  iv_time : 0 <= now s < horizon;
  iv_wl : winv (wl s) (now s);
  iv_pend : pend (wl s) \/ suspending s;
  iv_es : es_ok s;
  iv_hs : hs_ok s;
  iv_asked : Z.testbit (state s) 0 = asked s }.

Lemma horizon_bound t : 0 <= t < horizon -> 0 <= t < 2 ^ 31.
Proof. unfold horizon, HZ. lia. Qed.

Lemma es_ok_wl s w :
  es_ok s -> (main_wake_lock ∈ active_of w 0 <-> main_held s) ->
  (forall k, k <> suspend_work -> k ∈ suspend_work_queue w <-> queued s k) -> es_ok (set_wl s w).
Proof.
  intros [E1 E2 E3 E4 E5] Hm Hk. split; unfold main_held, queued, will_unlock in *; simpl.
  - done.
  - intros. by apply Hm, E2.
  - intros H. rewrite Hk by done. by apply E3.
  - intros H. rewrite Hk by done. by apply E4.
  - intros H Hm'. rewrite Hk by done. by apply E5, Hm.
Qed.

Lemma hs_ok_wl s w : hs_ok s -> hs_ok (set_wl s w).
Proof. intros [H1 H2 H3 H4]. split; [exact H1|exact H2|exact H3|exact H4]. Qed.

(** An operation on a lock other than the main one. *)
Lemma inv_op s w lk : inv s -> op_done (wl s) w (now s) lk -> lk <> main_wake_lock -> inv (set_wl s w).
Proof.
  intros [I1 I2 I3 I4 I5 I6] [D1 D2 D3 D4] Hlk. split; try done.
  - destruct D2 as [?|[He Hp]]; [by left|]. destruct I3 as [?|Hs]; [left; auto|right].
    unfold suspending in *. simpl. by rewrite He.
  - apply es_ok_wl; [done|by apply D3|done].
  - by apply hs_ok_wl.
Qed.

Lemma testbit_cases x : x = 0 \/ x = 1 \/ x = 2 \/ x = 3 ->
  Z.testbit x 0 = bool_decide (x = 1 \/ x = 3) /\ Z.testbit x 1 = bool_decide (x = 2 \/ x = 3) /\
  negb (Z.land x SUSPEND_REQUESTED =? 0) = Z.testbit x 0 /\ negb (Z.land x SUSPENDED =? 0) = Z.testbit x 1 /\
  Z.testbit (Z.lor x SUSPEND_REQUESTED) 0 = true /\ Z.testbit (Z.lor x SUSPEND_REQUESTED) 1 = Z.testbit x 1 /\
  Z.testbit (Z.land x (Z.lnot SUSPEND_REQUESTED)) 0 = false /\
  Z.testbit (Z.land x (Z.lnot SUSPEND_REQUESTED)) 1 = Z.testbit x 1.
Proof. by intros [->|[->|[->| ->]]]. Qed.

(** ** Handlers *)

Lemma insert_handler_perm h l : Permutation (insert_handler h l) (h :: l).
Proof.
  induction l as [|e l IH]; simpl; [done|]. destruct (_ <? _); [done|]. rewrite IH. apply perm_swap.
Qed.

Lemma Forall_insert (Q : early_suspend -> Prop) h l : Q h -> Forall Q l -> Forall Q (insert_handler h l).
Proof. intros. rewrite insert_handler_perm. by constructor. Qed.

Lemma insert_handler_sorted h l :
  StronglySorted (fun a b => level a <= level b) l -> StronglySorted (fun a b => level a <= level b) (insert_handler h l).
Proof.
  induction 1 as [|e l Hs IH Hf]; simpl; [repeat constructor|].
  destruct (Z.ltb_spec (level h) (level e)).
  - constructor; [by constructor|]. constructor; [lia|]. eapply Forall_impl; [exact Hf|]. simpl. lia.
  - constructor; [done|]. rewrite insert_handler_perm. constructor; [lia|done].
Qed.

Lemma is_down_call s h x : is_down s x -> is_down (set_handlers s (early_suspend_handlers s) (call_suspend h (suspended s))) x.
Proof. unfold is_down, call_suspend. simpl. destruct (suspend_hook h); set_solver. Qed.

Lemma is_up_call s h x : is_up s x -> is_up (set_handlers s (early_suspend_handlers s) (call_resume h (suspended s))) x.
Proof. unfold is_up, call_resume. simpl. destruct (resume_hook h); set_solver. Qed.

Lemma NoDup_addr_app d h l :
  NoDup (map addr (d ++ h :: l)) -> Forall (fun x => addr x <> addr h) d /\ Forall (fun x => addr x <> addr h) l.
Proof.
  rewrite map_app, NoDup_app. simpl. intros (_ & Hd & Hl). apply NoDup_cons in Hl as [Hl _].
  split; apply Forall_forall; intros x Hx E.
  - apply (Hd (addr x)); [by apply list_elem_of_fmap_2|]. rewrite E. set_solver.
  - apply Hl. rewrite <- E. by apply list_elem_of_fmap_2.
Qed.

(** The worker's loops over the handlers. *)
Lemma devices_suspend s h l :
  NoDup (map addr (early_suspend_handlers s)) -> worker s = E_handlers (h :: l) -> devices_ok s ->
  devices_ok (set_worker (set_handlers s (early_suspend_handlers s) (call_suspend h (suspended s))) (E_handlers l)).
Proof.
  intros Hn Hw Hd. unfold devices_ok in *. rewrite Hw in Hd. simpl. destruct Hd as (Hb & d & E & Hdn & Hup).
  split; [done|]. exists (d ++ [h]). rewrite E in Hn |- *. split; [by rewrite <- app_assoc|].
  apply Forall_cons in Hup as [_ Hup]. destruct (NoDup_addr_app d h l Hn) as [_ Hne]. split.
  - apply Forall_app. split; [eapply Forall_impl; [exact Hdn|]; intros x; apply is_down_call|].
    constructor; [|constructor]. unfold is_down, call_suspend. simpl. intros ->. set_solver.
  - rewrite Forall_forall in Hup. rewrite Forall_forall in Hne. apply Forall_forall. intros x Hx.
    specialize (Hup x Hx). specialize (Hne x Hx). unfold is_up, call_suspend in *. simpl. destruct (suspend_hook h); set_solver.
Qed.

Lemma NoDup_addr_rev l : NoDup (map addr (rev l)) <-> NoDup (map addr l).
Proof. by rewrite map_rev, <- Permutation_rev. Qed.

Lemma devices_resume s h l :
  NoDup (map addr (early_suspend_handlers s)) -> worker s = L_handlers (h :: l) -> devices_ok s ->
  devices_ok (set_worker (set_handlers s (early_suspend_handlers s) (call_resume h (suspended s))) (L_handlers l)).
Proof.
  intros Hn Hw Hd. unfold devices_ok in *. rewrite Hw in Hd. simpl. destruct Hd as (Hb & d & E & Hup & Hdn).
  split; [done|]. exists (d ++ [h]). rewrite <- NoDup_addr_rev, E in Hn. rewrite E. split; [by rewrite <- app_assoc|].
  apply Forall_cons in Hdn as [_ Hdn]. destruct (NoDup_addr_app d h l Hn) as [_ Hne]. split.
  - apply Forall_app. split; [eapply Forall_impl; [exact Hup|]; intros x; apply is_up_call|].
    constructor; [|constructor]. unfold is_up, call_resume. simpl. intros _ ->. set_solver.
  - rewrite Forall_forall in Hdn. rewrite Forall_forall in Hne. apply Forall_forall. intros x Hx.
    specialize (Hdn x Hx). specialize (Hne x Hx). unfold is_down, call_resume in *. simpl. destruct (resume_hook h); set_solver.
Qed.

Lemma devices_free s :
  unlocked s = true ->
  devices_ok s <-> Forall (if Z.testbit (state s) 1 then is_down s else is_up s) (early_suspend_handlers s).
Proof. unfold devices_ok, unlocked. by destruct (worker s). Qed.

Lemma not_registered (h : early_suspend) l :
  existsb (fun x => bool_decide (addr x = addr h)) l = false -> addr h ∉ map addr l.
Proof.
  intros H Hin. apply list_elem_of_fmap in Hin as (x & E & Hx). apply list_elem_of_In in Hx.
  assert (existsb (fun x => bool_decide (addr x = addr h)) l = true); [|congruence].
  apply existsb_exists. exists x. split; [done|]. by apply bool_decide_eq_true.
Qed.

Lemma hs_register s h :
  hs_ok s -> es_ok s -> unlocked s = true -> addr h ∉ map addr (early_suspend_handlers s) ->
  hs_ok (register_early_suspend s h).
Proof.
  intros [H1 H2 H4 H3] He Hu Hne. destruct (testbit_cases (state s) (eo_range _ He)) as (_ & _ & _ & Eb & _).
  assert (Hs : addr h ∉ suspended s) by (intros ?; by apply Hne, H4).
  apply (devices_free s Hu) in H3. unfold register_early_suspend. rewrite Eb. split; simpl.
  - rewrite insert_handler_perm. simpl. by apply NoDup_cons.
  - by apply insert_handler_sorted.
  - intros a. rewrite insert_handler_perm. simpl. rewrite elem_of_cons. unfold call_suspend.
    specialize (H4 a). destruct (Z.testbit (state s) 1), (suspend_hook h); rewrite ?elem_of_union, ?elem_of_singleton; naive_solver.
  - apply devices_free; [exact Hu|]. simpl. destruct (Z.testbit (state s) 1).
    + apply Forall_insert; [unfold is_down, call_suspend; simpl; intros ->; set_solver|].
      eapply Forall_impl; [exact H3|]. intros x. unfold is_down, call_suspend. simpl. destruct (suspend_hook h); set_solver.
    + apply Forall_insert; [unfold is_up; simpl; done|]. eapply Forall_impl; [exact H3|]. done.
Qed.

Lemma StronglySorted_filter a (l : list early_suspend) :
  StronglySorted (fun x y => level x <= level y) l ->
  StronglySorted (fun x y => level x <= level y) (filter (fun h => addr h <> a) l).
Proof.
  induction 1 as [|x l Hs IH Hf]; [constructor|]. destruct (decide (addr x = a)).
  - by rewrite filter_cons_False by tauto.
  - rewrite filter_cons_True by done. constructor; [done|]. rewrite Forall_forall in Hf. apply Forall_forall.
    intros y Hy. apply Hf. by apply list_elem_of_filter in Hy as [_ ?].
Qed.

Lemma hs_unregister s s' a : hs_ok s -> unlocked s = true -> unregister_early_suspend s a = Some s' -> hs_ok s'.
Proof.
  intros [H1 H2 H4 H3] Hu. unfold unregister_early_suspend. destruct (existsb _ _); [|done]. intros [= <-].
  apply (devices_free s Hu) in H3. rewrite Forall_forall in H3.
  split; simpl.
  - eapply sublist_NoDup; [exact H1|]. apply (fmap_sublist addr), sublist_filter.
  - by apply StronglySorted_filter.
  - intros b [Hb Hne]%elem_of_difference. specialize (H4 b Hb). apply list_elem_of_fmap in H4 as (x & -> & Hx).
    apply list_elem_of_fmap. exists x. split; [done|]. apply list_elem_of_filter. set_solver.
  - apply devices_free; [exact Hu|]. simpl. apply Forall_forall. intros x [Hn Hx]%list_elem_of_filter.
    specialize (H3 x Hx). unfold is_down, is_up in *. simpl. destruct (Z.testbit (state s) 1); set_solver.
Qed.

(** ** Every step keeps the invariant *)

Section Steps.
Context (TICK_NSEC ktime ktime_tick : Z).

Abbreviation ck := (clock_at ktime ktime_tick).

Lemma init_op w t lk v e type nm :
  winv w t -> vw w lk = Some (v, e) -> v_init v = false -> 0 <= type < 2 ->
  exists w', wake_lock_init w lk type (Some nm) = Some w' /\ op_done w w' t lk.
Proof.
  intros Hw Hv Hi Ht. destruct (wake_lock_init_ok w lk v e type nm (wi_wf _ _ Hw) Hv Hi Ht) as (w' & E & W' & R & RL).
  exists w'. split; [done|]. destruct (uninit_unlisted w lk v e (wi_wf _ _ Hw) Hv Hi) as (_ & N2 & _).
  destruct (wi_statics _ _ Hw) as ((vm & em & M1 & M2 & _) & (vu & eu & U1 & U2 & _) & _).
  assert (HS : suspend_locks w' = suspend_locks w).
  { pose proof RL as (_ & _ & _ & Ra). rewrite Ra. simpl. rewrite app_nil_r. by apply without_id. }
  destruct (frame_winv w w' t Hw W') as [I P]; [| |done| |].
  - eapply relisted_statics; [exact (wi_statics _ _ Hw)|exact RL|done|..]; intros ->; congruence.
  - done.
  - intros x Hx. pose proof RL as [-> _]. rewrite decide_False; [done|]. intros ->. by apply (N2 0%nat).
  - unfold rest in R. injection R as R1 R2 R3. split; [done|by right|by rewrite HS|by rewrite R3].
Qed.

Lemma destroy_op w t lk v e :
  winv w t -> vw w lk = Some (v, e) -> v_init v = true -> lk ∈ inactive_locks w -> static_lock lk = false ->
  exists w', wake_lock_destroy w lk = Some w' /\ op_done w w' t lk.
Proof.
  intros Hw Hv Hi Hin Hst. destruct (wi_statics _ _ Hw) as ((vm & em & M1 & M2) & (vu & eu & U1 & U2) & Hd).
  destruct (wake_lock_destroy_ok w lk v e (wi_wf _ _ Hw) Hv Hi Hd) as (w' & E & W' & R & Fv & _ & Fa).
  exists w'. split; [done|]. apply bool_decide_eq_false in Hst.
  assert (N : lk ∉ suspend_locks w).
  { intros Hl. destruct (wf_active _ (wi_wf _ _ Hw) _ _ Hl) as (v1 & e1 & X1 & _ & X2 & _).
    destruct (wf_inactive _ (wi_wf _ _ Hw) _ Hin) as (v2 & e2 & Y1 & _ & Y2 & _). congruence. }
  assert (HS : suspend_locks w' = suspend_locks w) by (rewrite Fa; by apply without_id).
  destruct (frame_winv w w' t Hw W') as [I P]; [| |done| |].
  - split_and!.
    + exists vm, em. rewrite Fv, decide_False; [done|]. intros <-. apply Hst. set_solver.
    + exists vu, eu. rewrite Fv, decide_False; [done|]. intros <-. apply Hst. set_solver.
    + rewrite Fv. case_decide; [by eexists|done].
  - done.
  - intros x Hx. rewrite Fv, decide_False; [done|]. by intros ->.
  - unfold rest in R. injection R as R1 R2 R3. split; [done|by right|by rewrite HS|by rewrite R3].
Qed.

Lemma static_main lk : static_lock lk = false -> lk <> main_wake_lock.
Proof. intros H ->. by apply bool_decide_eq_false in H as []; set_solver. Qed.

Lemma inv_driver s cl w :
  inv s -> well_behaved s cl = true -> perform TICK_NSEC (ck (now s)) (wl s) cl = Some w -> inv (set_wl s w).
Proof.
  intros I Hwb E. pose proof (iv_wl _ I) as Hw. pose proof (horizon_bound _ (iv_time _ I)) as Ht.
  destruct cl; simpl in *; rewrite ?andb_true_iff, ?negb_true_iff, ?Z.leb_le, ?Z.ltb_lt in Hwb.
  - destruct Hwb as ((((Hs & [l El]%bool_decide_eq_true) & Hi) & ?) & ?). unfold initialised in Hi. rewrite El in Hi.
    destruct (init_op (wl s) (now s) lk (view_of l) (expires l) type nm) as (w' & E' & D); [done|unfold vw; by rewrite El|done|lia|].
    rewrite E in E'. injection E' as <-. eapply inv_op; [done|exact D|by apply static_main].
  - destruct Hwb as [[Hs Hi] Hin%bool_decide_eq_true]. destruct (initialised_vw _ _ Hi) as (v & e & Hv & Hvi).
    destruct (destroy_op (wl s) (now s) lk v e) as (w' & E' & D); [done..|].
    rewrite E in E'. injection E' as <-. eapply inv_op; [done|exact D|by apply static_main].
  - destruct Hwb as [Hs Hi]. destruct (initialised_vw _ _ Hi) as (v & e & Hv & Hvi).
    destruct (lock_done TICK_NSEC ktime ktime_tick (wl s) (now s) lk v e 0 false) as (w' & E' & D & _); [done..|].
    unfold wake_lock_ in E. rewrite E in E'. injection E' as <-. eapply inv_op; [done|exact D|by apply static_main].
  - destruct Hwb as [[[Hs Hi] ?] ?]. destruct (initialised_vw _ _ Hi) as (v & e & Hv & Hvi).
    destruct (lock_done TICK_NSEC ktime ktime_tick (wl s) (now s) lk v e timeout true) as (w' & E' & D & _); [done..| |].
    { intros _. split; [by apply static_main|]. apply horizon_bound. lia. }
    unfold wake_lock_timeout in E. rewrite E in E'. injection E' as <-. eapply inv_op; [done|exact D|by apply static_main].
  - destruct Hwb as [Hs Hi]. destruct (initialised_vw _ _ Hi) as (v & e & Hv & Hvi).
    destruct (unlock_done TICK_NSEC ktime ktime_tick (wl s) (now s) lk v e) as (w' & E' & D & _); [done..|].
    rewrite E in E'. injection E' as <-. eapply inv_op; [done|exact D|by apply static_main].
  - destruct (has_wake_lock_locked_ok TICK_NSEC (ck (now s)) (wl s) (Z.to_nat type) (wi_wf _ _ Hw)) as (w' & r & E' & Hr); [lia|].
    unfold has_wake_lock in E. rewrite Z2Nat.id in E' by lia. rewrite E' in E. injection E as <-.
    eapply inv_op; [done|by eapply has_done|done].
  - done.
  - done.
Qed.

Lemma inv_timer s w T :
  inv s -> expire_timer (wl s) = Some T -> 0 <= s32 (u32 (INITIAL_JIFFIES + now s) - T) ->
  expire_wake_locks TICK_NSEC (ck (now s)) (set_timer (wl s) None) = Some w -> inv (set_wl s w).
Proof.
  intros I HT Hge E. pose proof (iv_wl _ I) as Hw. pose proof (horizon_bound _ (iv_time _ I)) as Ht.
  set (w0 := set_timer (wl s) None) in *.
  assert (W0 : wf w0) by (apply (wf_lists (wl s)); [done..|apply Hw]).
  destruct (has_wake_lock_locked_ok TICK_NSEC (ck (now s)) w0 0 W0) as (w' & r & E' & Hr); [lia|].
  unfold expire_wake_locks in E. change WAKE_LOCK_SUSPEND with (Z.of_nat 0) in E. rewrite E' in E.
  cbn [mbind option_bind] in E. injection E as <-.
  destruct (wi_timer _ _ Hw T HT) as [HT1 HT2].
  assert (Hdue : u32 (T - INITIAL_JIFFIES) <= now s).
  { replace (s32 (u32 (INITIAL_JIFFIES + now s) - T)) with (s32 (now s - u32 (T - INITIAL_JIFFIES))) in Hge.
    - pose proof (u32_range (T - INITIAL_JIFFIES)) as R. unfold is_u32 in R. rewrite s32_id in Hge by lia. lia.
    - unfold s32. u32_norm. by replace (now s - (T - INITIAL_JIFFIES)) with (INITIAL_JIFFIES + now s - T) by lia. }
  assert (Hle : r <= 0).
  { destruct Hr as [(-> & _)|(_ & _ & Hall & [->|(lk & Hlk & <-)])]; [lia|lia|].
    destruct (Hall lk Hlk) as [Ha _]. pose proof (HT2 lk Hlk Ha) as Hd. rewrite left_deadline; [|done| |].
    - change (deadline w0 lk) with (deadline (wl s) lk). lia.
    - by eapply active_known.
    - change (deadline w0 lk) with (deadline (wl s) lk). lia. }
  pose proof (arm_left ktime ktime_tick w0 w' r (now s) W0 (wi_statics _ _ Hw) (wi_times _ _ Hw) Ht Hr) as L.
  assert (Hs : same (arm (ck (now s)) w' r) (if r =? 0 then queue_work w' suspend_work else w')).
  { assert (Et : expire_timer w' = None).
    { destruct (has_result_wf _ _ _ _ _ W0 Hr) as [_ R]. unfold rest in R. by injection R as _ -> _. }
    unfold arm. destruct (Z.ltb_spec 0 r); [lia|]. unfold queue_work. simpl.
    destruct (r =? 0); [case_bool_decide|]; split_and!; try done; unfold rest; simpl; by rewrite Et. }
  apply (left_by_same _ _ _ _ L) in Hs. destruct Hs as [L1 L2 L3 L4 L5 L6].
  eapply (inv_op s _ unknown_wakeup); [done| |done]. split; [done|by left| |done].
  intros _. split; [apply L4|]. intros Hm. apply L5; [done|]. apply (main_auto w0). apply Hw.
Qed.

Lemma inv_tick s :
  inv s -> now s + 1 < horizon ->
  inv (mkpower (wl s) (state s) (requested_suspend_state s) (early_suspend_handlers s) (suspended s)
         (worker s) (now s + 1) (asked s)).
Proof.
  intros [I1 I2 I3 I4 I5 I6] Hn. split; simpl; try done; [lia|..].
  - destruct I2 as [W1 W2 W3 W4 W5]. split; try done. destruct W5 as [?|[?|H]]; [auto|auto|right; right].
    intros lk Hlk. specialize (H lk Hlk). lia.
  - by destruct I4.
  - by destruct I5.
Qed.

Lemma set_queue_winv w q t : winv w t -> winv (set_queue w q) t.
Proof. intros [W1 W2 W3 W4 W5]. split; try done. by apply (wf_lists w). Qed.

Lemma queue_work_spec w k t :
  winv w t -> winv (queue_work w k) t /\ (pend w -> pend (queue_work w k)) /\
    current_event_num (queue_work w k) = current_event_num w /\ active_of (queue_work w k) = active_of w /\
    k ∈ suspend_work_queue (queue_work w k) /\
    forall k', k' ∈ suspend_work_queue w -> k' ∈ suspend_work_queue (queue_work w k).
Proof.
  intros Hw. unfold queue_work. case_bool_decide as D; [done|]. split; [by apply set_queue_winv|].
  split_and!; [|done|done|set_solver|set_solver].
  intros [?|[?|?]]; [by left|right; by left|right; right]. set_solver.
Qed.

(** A change of [state] that does not touch [SUSPENDED]. *)
Lemma hs_ok_bits s s' :
  hs_ok s -> Z.testbit (state s') 1 = Z.testbit (state s) 1 -> early_suspend_handlers s' = early_suspend_handlers s ->
  suspended s' = suspended s -> worker s' = worker s -> hs_ok s'.
Proof.
  intros [H1 H2 H4 H3] Eb Eh Es Ew. split; [by rewrite Eh|by rewrite Eh|by rewrite Eh, Es|].
  unfold devices_ok, is_down, is_up in *. rewrite Eb, Eh, Es, Ew. done.
Qed.

Lemma main_vw w : statics w -> exists v e, vw w main_wake_lock = Some (v, e) /\ v_init v = true /\ v_type v = 0.
Proof. intros ((v & e & ? & ? & ? & _) & _). eauto. Qed.

Lemma pend_step s s' :
  pend (wl s) \/ suspending s -> worker s' = worker s -> current_event_num (wl s') = current_event_num (wl s) ->
  (pend (wl s) -> pend (wl s')) -> pend (wl s') \/ suspending s'.
Proof. intros [?|Hs] Ew Ee Hp; [left; auto|right]. unfold suspending in *. by rewrite Ew, Ee. Qed.

Lemma inv_request s s' new_state : inv s -> request_suspend_state TICK_NSEC ktime ktime_tick s new_state = Some s' -> inv s'.
Proof.
  intros [I1 I2 I3 I4 I5 I6] E. destruct (testbit_cases (state s) (eo_range _ I4)) as (T0 & T1 & T2 & _ & T4 & T5 & T6 & T7).
  unfold request_suspend_state in E. rewrite T2 in E. destruct I4 as [E1 E2 E3 E4 E5].
  destruct (Z.testbit (state s) 0) eqn:Eb; cbn [negb andb] in E; destruct (Z.eqb_spec new_state PM_SUSPEND_ON) as [En|En]; cbn [negb] in E.
  - destruct (main_vw _ (wi_statics _ _ I2)) as (v & e & Hv & Hi & Hty).
    destruct (lock_done TICK_NSEC ktime ktime_tick (wl s) (now s) main_wake_lock v e 0 false I2 (horizon_bound _ I1) Hv Hi ltac:(done))
      as (w & Ew & D & Dp & Dm).
    unfold wake_lock_, clk in E. rewrite Ew in E. cbn [mbind option_bind] in E. injection E as <-.
    destruct (queue_work_spec w late_resume_work (now s) (od_inv _ _ _ _ D)) as (Q1 & Q2 & Q3 & Q4 & Q5 & Q6).
    split; simpl; try done.
    + left. auto.
    + split; unfold main_held, queued, will_unlock; simpl; rewrite ?Q4.
      * destruct E1 as [->|[->|[->| ->]]]; vm_compute; auto.
      * auto.
      * intros H. destruct E1 as [Es|[Es|[Es|Es]]]; rewrite Es in H; done.
      * auto.
      * intros H. rewrite H in T6. done.
    + eapply hs_ok_bits; [exact I5|done..].
  - injection E as <-. split; simpl; try done; by destruct I5.
  - injection E as <-. split; simpl; try done; by destruct I5.
  - injection E as <-. destruct (queue_work_spec (wl s) early_suspend_work (now s) I2) as (Q1 & Q2 & Q3 & Q4 & Q5 & Q6).
    assert (Hc : state s = 0 \/ state s = 2) by (destruct E1 as [?|[H|[?|H]]]; auto; by rewrite H in Eb).
    split; simpl; try done.
    + match goal with |- _ \/ suspending ?s' => by apply (pend_step s s') end.
    + split; unfold main_held, queued, will_unlock; simpl; rewrite ?Q4.
      * destruct Hc as [-> | ->]; vm_compute; auto.
      * intros _. apply E2. lia.
      * auto.
      * destruct Hc as [-> | ->]; vm_compute; done.
      * auto.
    + eapply hs_ok_bits; [exact I5|done..].
Qed.

Lemma inv_register s h :
  inv s -> unlocked s = true -> existsb (fun x => bool_decide (addr x = addr h)) (early_suspend_handlers s) = false ->
  inv (register_early_suspend s h).
Proof.
  intros [I1 I2 I3 I4 I5 I6] Hu Hn. split; try done; [by destruct I4|].
  apply hs_register; try done. by apply not_registered.
Qed.

Lemma inv_unregister s s' a : inv s -> unlocked s = true -> unregister_early_suspend s a = Some s' -> inv s'.
Proof.
  intros [I1 I2 I3 I4 I5 I6] Hu E. pose proof (hs_unregister s s' a I5 Hu E) as Hh.
  unfold unregister_early_suspend in E. destruct (existsb _ _); [|done]. injection E as <-.
  split; try done. by destruct I4.
Qed.

(** The worker goes from one point of [suspend] to another. *)
Definition in_suspend (p : point) : bool :=
  match p with Idle | S_start | S_event | S_pm _ | S_slept _ | S_after _ => true | _ => false end.

Lemma es_set_worker s p :
  es_ok s -> (state s = 1 -> worker s = E_start -> p = E_start) -> (state s = 2 -> worker s = L_start -> p = L_start) ->
  (state s = 3 -> main_held s -> will_unlock s -> will_unlock (set_worker s p)) -> es_ok (set_worker s p).
Proof.
  intros [E1 E2 E3 E4 E5] F1 F2 F3. split; try done; simpl.
  - intros H. destruct (E3 H); auto.
  - intros H. destruct (E4 H); auto.
  - intros H Hm. destruct (E5 H Hm); auto.
Qed.

Lemma hs_set_worker s p : hs_ok s -> unlocked s = true -> unlocked (set_worker s p) = true -> hs_ok (set_worker s p).
Proof.
  intros [H1 H2 H4 H3] Hu Hu'. split; try done. apply (devices_free s Hu) in H3. by apply devices_free.
Qed.

Lemma inv_set_worker s p :
  inv s -> in_suspend (worker s) = true -> in_suspend p = true ->
  pend (wl s) \/ suspending (set_worker s p) -> inv (set_worker s p).
Proof.
  intros [I1 I2 I3 I4 I5 I6] Hs Hp Hpend. split; try done.
  - apply es_set_worker; [done| | |]; unfold will_unlock; destruct (worker s); done.
  - apply hs_set_worker; [done|unfold unlocked; by destruct (worker s)|unfold unlocked; simpl; by destruct p].
Qed.

Lemma not_suspending_pend s : inv s -> ~ suspending s -> pend (wl s).
Proof. intros I Hn. by destruct (iv_pend _ I). Qed.

Lemma inv_next_work s s' : inv s -> worker s = Idle -> next_work s = Some s' -> inv s'.
Proof.
  intros I Hw E. assert (Hp : pend (wl s)) by (apply not_suspending_pend; [done|unfold suspending; rewrite Hw; tauto]).
  destruct I as [I1 I2 I3 [E1 E2 E3 E4 E5] I5 I6]. unfold next_work, queued, will_unlock in *. rewrite Hw in *.
  destruct (suspend_work_queue (wl s)) as [|k q] eqn:Eq; [done|]. injection E as <-.
  split; simpl; try done.
  - by apply set_queue_winv.
  - unfold pend, suspending in *. simpl. rewrite Eq in Hp. destruct Hp as [?|[?|Hq]]; [by left; left|by left; right; left|].
    apply elem_of_cons in Hq as [<-|?]; [by right|by left; right; right].
  - split; unfold main_held, queued, will_unlock in *; simpl; try done.
    + intros H. destruct (E3 H) as [[<-|?]%elem_of_cons|?]; [by right|by left|done].
    + intros H. destruct (E4 H) as [[<-|?]%elem_of_cons|?]; [by right|by left|done].
    + intros H Hm. destruct (E5 H Hm) as [[<-|?]%elem_of_cons|?]; [by right|by left|done].
  - apply (hs_set_worker (set_wl s (set_queue (wl s) q))); [by apply hs_ok_wl|unfold unlocked; simpl; by rewrite Hw|by destruct k].
Qed.

Lemma held_pend s r w' :
  inv s -> has_result (ck (now s)) (wl s) 0 w' r -> r <> 0 -> pend (wl s).
Proof.
  intros I Hr Hn. pose proof (iv_wl _ I) as Hw. destruct Hr as [(_ & _ & Hp)|(H0 & _ & Hall & [?|(lk & Hlk & El)])]; [by left|done|].
  destruct (wi_base _ _ Hw) as [?|[?|Hx]]; [by left|by right; left|]. exfalso. destruct (Hall lk Hlk) as [Ha _].
  rewrite left_deadline in El; [|by apply horizon_bound, I|by eapply active_known, Hlk; apply Hw|by apply (wi_times _ _ Hw)].
  specialize (Hx lk Hlk). lia.
Qed.


Lemma op_done_same w w1 w2 t lk : op_done w w1 t lk -> same w1 w2 -> op_done w w2 t lk.
Proof.
  intros [D1 D2 D3 D4] Hs. pose proof Hs as (_ & _ & _ & Er). unfold rest in Er. injection Er as E1 E2 E3.
  split; [by eapply winv_same| |by rewrite (same_active_of _ _ 0 Hs)|by rewrite E3].
  destruct D2 as [?|[He Hp]]; [left; by eapply pend_same|right]. split; [congruence|]. intros. by eapply pend_same, Hp.
Qed.

Lemma power_suspend_late_ok s :
  inv s -> exists w1 w r, power_suspend_late TICK_NSEC (ck (now s)) (wl s) = Some (w, if r =? 0 then 0 else - EAGAIN) /\
    has_result (ck (now s)) (wl s) 0 w1 r /\ same w1 w /\ op_done (wl s) w (now s) unknown_wakeup.
Proof.
  intros I. pose proof (iv_wl _ I) as Hw.
  destruct (has_wake_lock_locked_ok TICK_NSEC (ck (now s)) (wl s) 0 (wi_wf _ _ Hw)) as (w1 & r & E & Hr); [lia|].
  unfold power_suspend_late, has_wake_lock. change WAKE_LOCK_SUSPEND with (Z.of_nat 0). rewrite E. cbn [mbind option_bind].
  exists w1, (set_wait w1 true), r. split; [done|]. split; [done|]. assert (Hs : same w1 (set_wait w1 true)) by done.
  split; [done|]. eapply op_done_same; [|exact Hs]. eapply has_done; [done|apply horizon_bound, I|exact Hr].
Qed.

Lemma inv_suspend_step s s' late : inv s -> suspend_step TICK_NSEC ktime ktime_tick s late = Some s' -> inv s'.
Proof.
  intros I E. pose proof (iv_wl _ I) as Hw. pose proof (horizon_bound _ (iv_time _ I)) as Ht.
  unfold suspend_step, clk in E. destruct (worker s) as [| | |e|e|e| | | | |] eqn:Ew; try done.
  - destruct (has_wake_lock_locked_ok TICK_NSEC (ck (now s)) (wl s) 0 (wi_wf _ _ Hw)) as (w & r & Eh & Hr); [lia|].
    unfold has_wake_lock in E. change WAKE_LOCK_SUSPEND with (Z.of_nat 0) in E. rewrite Eh in E. cbn [mbind option_bind] in E.
    injection E as <-. pose proof (has_done ktime ktime_tick _ _ _ _ _ Hw Ht Hr) as D.
    apply (inv_set_worker (set_wl s w)); [by eapply inv_op|simpl; by rewrite Ew|by destruct (r =? 0)|].
    destruct (Z.eqb_spec r 0) as [|Hn]; [by right|left]. simpl. pose proof (held_pend s r w I Hr Hn) as Hp.
    destruct (od_pend _ _ _ _ D) as [?|[_ ?]]; auto.
  - injection E as <-. apply inv_set_worker; [done|by rewrite Ew|done|by right].
  - destruct (late && _ && _).
    + destruct (power_suspend_late_ok s I) as (w1 & w & r & E1 & _ & _ & D). rewrite E1 in E. cbn [mbind option_bind] in E.
      injection E as <-. assert (I' : inv (set_wl s w)) by (by eapply inv_op).
      apply (inv_set_worker (set_wl s w)); [done|simpl; by rewrite Ew|by destruct (_ =? 0)|].
      destruct (iv_pend _ I') as [?|Hs]; [by left|right]. unfold suspending in *. simpl in *. rewrite Ew in Hs. by destruct (_ =? 0).
    + injection E as <-. apply inv_set_worker; [done|by rewrite Ew|done|].
      destruct (iv_pend _ I) as [?|Hs]; [by left|right]. unfold suspending in *. by rewrite Ew in Hs.
  - injection E as <-. apply inv_set_worker; [done|by rewrite Ew|done|].
    destruct (iv_pend _ I) as [?|Hs]; [by left|right]. unfold suspending in *. by rewrite Ew in Hs.
  - destruct (Z.eqb_spec (current_event_num (wl s)) e) as [He|He].
    + destruct (wi_statics _ _ Hw) as (_ & (v & e' & Hv & Hi & Hty) & _).
      destruct (lock_done TICK_NSEC ktime ktime_tick (wl s) (now s) unknown_wakeup v e' (HZ / 2) true) as (w & Ek & D & Dp & _); try done.
      { intros _. split; [done|]. pose proof (iv_time _ I) as Hb. unfold horizon in Hb. change (HZ / 2) with 100. unfold HZ in *. lia. }
      unfold wake_lock_timeout in E. rewrite Ek in E. cbn [mbind option_bind] in E. injection E as <-.
      apply (inv_set_worker (set_wl s w)); [by eapply inv_op|simpl; by rewrite Ew|done|left; by apply Dp].
    + injection E as <-. apply inv_set_worker; [done|by rewrite Ew|done|]. left.
      apply not_suspending_pend; [done|]. unfold suspending. by rewrite Ew.
Qed.

Lemma inv_early_suspend_step s s' : inv s -> early_suspend_step TICK_NSEC ktime ktime_tick s = Some s' -> inv s'.
Proof.
  intros I E. unfold early_suspend_step, clk in E. pose proof (iv_hs _ I) as [H1 H2 H4 H3].
  assert (Hns : forall l, worker s = E_start \/ worker s = E_handlers l \/ worker s = E_end -> pend (wl s)).
  { intros l Hl. apply not_suspending_pend; [done|]. unfold suspending. destruct Hl as [->|[->| ->]]; tauto. }
  destruct (worker s) as [| | | | | | |[|h l]| | |] eqn:Ew; try done; specialize (Hns []) as Hp.
  - specialize (Hp ltac:(auto)). destruct (Z.eqb_spec (state s) SUSPEND_REQUESTED) as [Es|Es]; injection E as <-;
      destruct I as [I1 I2 I3 [E1 E2 E3 E4 E5] I5 I6]; (split; simpl; try done); try (by left).
    + rewrite Es. split; simpl; try done; [by auto|]. intros _ _. by right.
    + split; simpl; try done. unfold devices_ok. simpl. rewrite Es. split; [done|]. exists []. split; [done|]. split; [constructor|].
      apply devices_free in H3; [|unfold unlocked; by rewrite Ew]. by rewrite Es in H3.
    + rewrite Es in I6 |- *. done.
    + apply es_set_worker; [done|by intros|by rewrite Ew|done].
    + apply hs_set_worker; [done|unfold unlocked; by rewrite Ew|done].
  - specialize (Hns [] ltac:(auto)). injection E as <-. destruct I as [I1 I2 I3 I4 I5 I6]. split; try done; [by left|..].
    + apply es_set_worker; [done|by rewrite Ew|by rewrite Ew|done].
    + split; try done. apply devices_free; [done|]. unfold devices_ok in H3. rewrite Ew in H3.
      destruct H3 as (Hb & d & Ed & Hd & _). simpl. rewrite Hb, Ed, app_nil_r. exact Hd.
  - specialize (Hns (h :: l) ltac:(auto)). injection E as <-. destruct I as [I1 I2 I3 I4 I5 I6]. split; try done; [by left|..].
    + destruct I4 as [E1 E2 E3 E4 E5]. rewrite Ew in E3, E4. split; try done; simpl.
      * intros H. destruct (E3 H); [by left|done].
      * intros H. destruct (E4 H); [by left|done].
      * intros _ _. by right.
    + pose proof (devices_suspend s h l H1 Ew H3) as Hd. unfold devices_ok in H3. rewrite Ew in H3.
      destruct H3 as (_ & d & Ed & _). split; try done. simpl. intros a. unfold call_suspend.
      assert (Hin : addr h ∈ map addr (early_suspend_handlers s)).
      { rewrite Ed. apply list_elem_of_fmap_2. set_solver. }
      specialize (H4 a). destruct (suspend_hook h); rewrite ?elem_of_union, ?elem_of_singleton; naive_solver.
  - specialize (Hp ltac:(auto)). destruct (Z.eqb_spec (state s) SUSPEND_REQUESTED_AND_SUSPENDED) as [Es|Es].
    + destruct (main_vw _ (wi_statics _ _ (iv_wl _ I))) as (v & e & Hv & Hi & Hty).
      destruct (unlock_done TICK_NSEC ktime ktime_tick (wl s) (now s) main_wake_lock v e) as (w & Eu & D & Dn);
        [apply I|apply horizon_bound, I|done|done|].
      rewrite Eu in E. cbn [mbind option_bind] in E. injection E as <-. destruct D as [D1 D2 D3 D4].
      destruct I as [I1 I2 I3 I4 I5 I6]. split; try done.
      * left. simpl. destruct D2 as [?|[_ ?]]; auto.
      * split; simpl; rewrite Es; unfold SUSPEND_REQUESTED_AND_SUSPENDED; [lia|lia|lia|lia|done].
      * apply (hs_set_worker (set_wl s w)); [by apply hs_ok_wl|unfold unlocked; simpl; by rewrite Ew|done].
    + injection E as <-. destruct I as [I1 I2 I3 I4 I5 I6]. split; try done; [by left|..].
      * apply es_set_worker; [done|by rewrite Ew|by rewrite Ew|by intros].
      * apply hs_set_worker; [done|unfold unlocked; by rewrite Ew|done].
Qed.

Lemma inv_late_resume_step s s' : inv s -> late_resume_step s = Some s' -> inv s'.
Proof.
  intros I E. unfold late_resume_step in E. pose proof (iv_hs _ I) as [H1 H2 H4 H3].
  destruct (worker s) as [| | | | | | | | | |[|h l]] eqn:Ew; try done;
    (assert (Hp : pend (wl s)) by (apply not_suspending_pend; [done|unfold suspending; rewrite Ew; tauto])).
  - destruct (Z.eqb_spec (state s) SUSPENDED) as [Es|Es]; injection E as <-;
      destruct I as [I1 I2 I3 I4 I5 I6]; (split; simpl; try done); try (by left).
    + destruct I4 as [E1 E2 E3 E4 E5]. assert (Hm : main_held s) by (apply E2; rewrite Es; done).
      split; simpl; rewrite Es; try done. by left.
    + split; simpl; try done. unfold devices_ok. simpl. rewrite Es. split; [done|]. exists []. split; [done|]. split; [constructor|].
      apply devices_free in H3; [|unfold unlocked; by rewrite Ew]. rewrite Es in H3. apply Forall_rev. exact H3.
    + rewrite Es in I6 |- *. done.
    + apply es_set_worker; [done|by rewrite Ew|by intros|]. unfold will_unlock. by rewrite Ew.
    + apply hs_set_worker; [done|unfold unlocked; by rewrite Ew|done].
  - injection E as <-. destruct I as [I1 I2 I3 I4 I5 I6]. split; try done; [by left|..].
    + apply es_set_worker; [done|by rewrite Ew|by rewrite Ew|]. unfold will_unlock. by rewrite Ew.
    + split; try done. apply devices_free; [done|]. unfold devices_ok in H3. rewrite Ew in H3.
      destruct H3 as (Hb & d & Ed & Hd & _). simpl. rewrite Hb. apply Forall_rev in Hd. rewrite app_nil_r in Ed.
      rewrite <- Ed, rev_involutive in Hd. exact Hd.
  - injection E as <-. destruct I as [I1 I2 I3 I4 I5 I6]. split; try done; [by left|..].
    + destruct I4 as [E1 E2 E3 E4 E5]. rewrite Ew in E3, E4. split; try done; simpl.
      * intros H. destruct (E3 H); [by left|done].
      * intros H. destruct (E4 H); [by left|done].
      * intros H Hm. destruct (E5 H Hm) as [?|Hu]; [by left|]. unfold will_unlock in Hu. by rewrite Ew in Hu.
    + pose proof (devices_resume s h l H1 Ew H3) as Hd. split; try done. simpl. intros a. unfold call_resume.
      specialize (H4 a). destruct (resume_hook h); rewrite ?elem_of_difference; naive_solver.
Qed.

Lemma inv_step s s' ev : inv s -> step TICK_NSEC ktime ktime_tick s ev = Some s' -> inv s'.
Proof.
  intros I E. destruct ev; simpl in E.
  - unfold worker_step in E. destruct (worker s) eqn:Ew; eauto using inv_next_work, inv_suspend_step, inv_early_suspend_step, inv_late_resume_step.
  - destruct (well_behaved s cl) eqn:Hwb; [|done]. destruct (perform _ _ _ _) as [w|] eqn:Ep; [|done]. cbn in E.
    injection E as <-. by eapply inv_driver.
  - destruct (expire_timer (wl s)) as [T|] eqn:HT; [|done]. destruct (Z.leb_spec 0 (s32 (u32 (INITIAL_JIFFIES + now s) - T))); [|done].
    destruct (expire_wake_locks _ _ _) as [w|] eqn:Ep; [|done]. cbn in E. injection E as <-. by eapply inv_timer.
  - destruct (Z.ltb_spec (now s + 1) horizon); [|done]. injection E as <-. by apply inv_tick.
  - by eapply inv_request.
  - destruct (unlocked s) eqn:Hu; [|done]. destruct (existsb _ _) eqn:Hx; [done|]. injection E as <-. by apply inv_register.
  - destruct (unlocked s) eqn:Hu; [|done]. by eapply inv_unregister.
Qed.

(** ** The start *)

Definition fresh (m : gmap nat wake_lock) : Prop :=
  is_Some (m !! main_wake_lock) /\ is_Some (m !! unknown_wakeup) /\ is_Some (m !! deleted_wake_locks) /\
  map_Forall (fun _ l => has l WAKE_LOCK_INITIALIZED = false) m.

Lemma boot_wf m : fresh m -> wf (boot m).
Proof.
  intros (_ & _ & _ & Hf). assert (Ha : forall t, active_of (boot m) t = []) by (intros [|[|t]]; done). split.
  - done.
  - split; [apply NoDup_nil_2|]. intros t. rewrite Ha. apply NoDup_nil_2.
  - intros lk Hlk. simpl in Hlk. set_solver.
  - intros t lk. rewrite Ha. set_solver.
  - intros lk v e Hv Hi. destruct (vw_Some _ _ _ _ Hv) as (l & El & <- & _). apply (Hf lk l) in El. simpl in Hi. congruence.
  - intros t. rewrite Ha. exists [], []. done.
Qed.

Lemma fresh_vw m lk : fresh m -> is_Some (m !! lk) -> exists v e, vw (boot m) lk = Some (v, e) /\ v_init v = false.
Proof.
  intros (_ & _ & _ & Hf) [l El]. exists (view_of l), (expires l). unfold vw. simpl. rewrite El. split; [done|]. by apply (Hf lk l).
Qed.

Lemma init_frame w w' lk e type :
  relisted w w' lk (mkview type true false false) e true false -> (forall t, lk ∉ active_of w t) ->
  vw w' lk = Some (mkview type true false false, e) /\ (forall x, x <> lk -> vw w' x = vw w x) /\
  forall t, active_of w' t = active_of w t.
Proof.
  intros (Rv & _ & _ & Ra) Hn. split_and!.
  - by rewrite Rv, decide_True.
  - intros x Hx. by rewrite Rv, decide_False.
  - intros t. rewrite Ra. simpl. rewrite app_nil_r. by apply without_id.
Qed.

Lemma wakelocks_init_ok m :
  fresh m -> exists w, wakelocks_init TICK_NSEC (ck 0) m 0 0 true = Some (w, 0) /\
    winv w 0 /\ permanent w /\ main_wake_lock ∈ suspend_locks w.
Proof.
  intros Hf. pose proof Hf as (Hm & Hu & Hd & _). pose proof (boot_wf m Hf) as W0.
  destruct (fresh_vw m _ Hf Hm) as (vm & em & Vm & Im). destruct (fresh_vw m _ Hf Hu) as (vu & eu & Vu & Iu).
  destruct (fresh_vw m _ Hf Hd) as (vd & ed & Vd & Id).
  assert (A0 : forall t, active_of (boot m) t = []) by (intros [|[|t]]; done).
  unfold wakelocks_init.
  destruct (wake_lock_init_ok (boot m) deleted_wake_locks vd ed WAKE_LOCK_SUSPEND "deleted_wake_locks"%string W0 Vd Id)
    as (w1 & -> & W1 & R1 & L1); [done|]. cbn [mbind option_bind].
  destruct (init_frame _ _ _ _ _ L1) as (V1 & F1 & A1); [intros; rewrite A0; set_solver|].
  destruct (wake_lock_init_ok w1 main_wake_lock vm em WAKE_LOCK_SUSPEND "main"%string W1) as (w2 & -> & W2 & R2 & L2);
    [by rewrite F1|done|done|]. cbn [mbind option_bind].
  destruct (init_frame _ _ _ _ _ L2) as (V2 & F2 & A2); [intros; rewrite A1, A0; set_solver|].
  destruct (wake_lock_internal_ok TICK_NSEC (ck 0) w2 main_wake_lock _ em 0 false W2 V2 eq_refl) as (w3 & w4 & E3 & W3 & L3 & R3 & U3);
    [by rewrite V2|]. unfold wake_lock_. rewrite E3. cbn [mbind option_bind].
  assert (S3 : forall x, x ∈ suspend_locks w3 <-> x = main_wake_lock).
  { intros x. rewrite (elem_of_relisted _ _ _ _ _ _ _ 0 x L3), A2, A1, A0. simpl. set_solver. }
  assert (P3 : is_auto w3 main_wake_lock = false).
  { rewrite (is_auto_relisted _ _ _ _ _ _ _ _ L3). by rewrite decide_True. }
  assert (Hs4 : same (arm (ck 0) w3 (-1)) w4).
  { destruct U3 as [[? _]|(_ & w' & r & Hr & Hs)]; [done|].
    destruct Hr as [(-> & -> & _)|(_ & _ & Hall & _)]; [done|]. destruct (Hall main_wake_lock) as [Ha _]; [by apply S3|congruence]. }
  destruct (arm_lists (ck 0) w3 (-1)) as (B1 & B2 & B3 & _).
  assert (V4 : forall x, vw w4 x = vw w3 x) by (intros x; destruct Hs4 as [-> _]; apply B1).
  assert (A4 : forall t, active_of w4 t = active_of w3 t).
  { intros t. rewrite (same_active_of _ _ t Hs4). unfold active_of. by rewrite B3. }
  assert (W4 : wf w4) by (eapply same_wf; [exact Hs4|by apply arm_wf]). pose proof L3 as [Lv3 _].
  assert (Vu4 : vw w4 unknown_wakeup = Some (vu, eu)).
  { rewrite V4, Lv3, decide_False, F2, F1 by done. done. }
  destruct (wake_lock_init_ok w4 unknown_wakeup vu eu WAKE_LOCK_SUSPEND "unknown_wakeups"%string W4 Vu4 Iu) as (w5 & -> & W5 & R5 & L5);
    [done|]. cbn [mbind option_bind].
  destruct (init_frame _ _ _ _ _ L5) as (V5 & F5 & A5).
  { intros t Hin. destruct (wf_active _ W4 _ _ Hin) as (v' & e' & E' & Hi' & _). congruence. }
  exists w5. simpl. split; [done|].
  assert (Et : expire_timer w5 = None).
  { unfold rest in R5. injection R5 as _ -> _. destruct Hs4 as (_ & _ & _ & R4). unfold rest in R4. by injection R4 as _ -> _. }
  assert (Hin : main_wake_lock ∈ suspend_locks w5) by (rewrite A5, A4; by apply S3).
  assert (Hau : is_auto w5 main_wake_lock = false).
  { unfold is_auto in *. by rewrite F5, V4 by done. }
  assert (Hperm : permanent w5) by (by exists main_wake_lock).
  split; [|done]. split.
  - done.
  - split_and!.
    + exists (after_lock (mkview 0 true false false) false), (expiry (ck 0) false 0). rewrite F5, V4, Lv3, decide_True by done. done.
    + eexists _, _. split; [exact V5|done].
    + rewrite F5, V4, Lv3, decide_False, F2, V1 by done. by eexists.
  - intros lk Hlk Ha. rewrite A5, A4 in Hlk. apply S3 in Hlk as ->. congruence.
  - intros T. by rewrite Et.
  - by left.
Qed.

Definition start (w : Wakelock.state) : power := mkpower w 0 PM_SUSPEND_MEM [] ∅ Idle 0 false.

Lemma power_start_inv w : winv w 0 -> permanent w -> main_wake_lock ∈ suspend_locks w -> inv (start w).
Proof.
  intros Hw Hp Hm. split; try done; [left; by left|..].
  - split; try done. by left.
  - split; try done; [apply NoDup_nil_2|constructor|]. simpl. constructor.
Qed.

End Steps.

(** The reachable states; each step sees its own values of the fine clocks. *)
Inductive reachable (TICK_NSEC : Z) : power -> Prop :=
| R_start m k x w : fresh m -> wakelocks_init TICK_NSEC (clock_at k x 0) m 0 0 true = Some (w, 0) -> reachable TICK_NSEC (start w)
| R_step s ev k x s' : reachable TICK_NSEC s -> step TICK_NSEC k x s ev = Some s' -> reachable TICK_NSEC s'.

Lemma power_reachable_inv T s : reachable T s -> inv s.
Proof.
  induction 1 as [m k x w Hf E|s ev k x s' _ IH E].
  - destruct (wakelocks_init_ok T k x m Hf) as (w' & E' & Hw & Hp & Hm). rewrite E in E'. injection E' as <-. by apply power_start_inv.
  - by eapply inv_step.
Qed.

(** ** Theorems *)

Section Theorems.
Context (TICK_NSEC : Z).

Abbreviation reachable := (reachable TICK_NSEC).

(** C11. The machine is put to sleep only when it should: when [power_suspend_late] lets the
    suspend go on, every active wake lock that prevents suspend has expired (and has been
    made inactive), the last request of the user was for sleep, [state] is
    [SUSPEND_REQUESTED_AND_SUSPENDED], and the suspend hook of every registered handler has
    been called. *)
Theorem suspend_safe s k x e late s' :
  reachable s -> worker s = S_pm e -> step TICK_NSEC k x s (Worker late) = Some s' -> worker s' = S_slept e ->
  (forall lk, lk ∈ active_of (wl s) 0 -> expired (clock_at k x (now s)) (wl s) lk = true) /\
  active_of (wl s') 0 = [] /\ asked s = true /\ state s = SUSPEND_REQUESTED_AND_SUSPENDED /\
  forall h, h ∈ early_suspend_handlers s -> suspend_hook h = true -> addr h ∈ suspended s.
Proof.
  intros HR Hw E Hs. pose proof (power_reachable_inv _ _ HR) as I. pose proof (iv_wl _ I) as Hwl.
  simpl in E. unfold worker_step, suspend_step, clk in E. rewrite Hw in E.
  destruct (late && _ && _); [|injection E as <-; done].
  destruct (power_suspend_late_ok TICK_NSEC k x s I) as (w1 & w & r & E1 & Hr & Sm & D). rewrite E1 in E. cbn [mbind option_bind] in E.
  injection E as <-. simpl in Hs. destruct (Z.eqb_spec r 0) as [Hr0|Hn]; [|done].
  destruct Hr as [(? & _)|(_ & Sw & Hall & _)]; [lia|].
  assert (Hx : forall lk, lk ∈ suspend_locks (wl s) -> expired (clock_at k x (now s)) (wl s) lk = true).
  { intros lk Hlk. destruct (Hall lk Hlk) as [Ha Hl]. unfold expired. rewrite Ha. apply Z.leb_le. lia. }
  assert (Hmain : ~ main_held s).
  { intros Hm. specialize (Hx _ Hm). unfold expired in Hx. rewrite (main_auto _ (wi_statics _ _ Hwl)) in Hx. done. }
  assert (Hst : state s = 3).
  { destruct (decide (state s = 3)) as [|Hne]; [done|]. by destruct Hmain; apply (eo_main _ (iv_es _ I)). }
  split; [done|]. split_and!.
  - simpl. rewrite (same_active_of _ _ 0 Sm). destruct (suspend_locks w1) as [|y l] eqn:El; [done|].
    assert (Hy : y ∈ suspend_locks w1) by (rewrite El; set_solver). apply (swept_kept _ _ _ _ Sw) in Hy as [Hy Hf].
    rewrite (Hx y Hy) in Hf. done.
  - rewrite <- (iv_asked _ I), Hst. done.
  - done.
  - pose proof (ho_devices _ (iv_hs _ I)) as Hd. apply devices_free in Hd; [|unfold unlocked; by rewrite Hw].
    rewrite Hst in Hd. rewrite Forall_forall in Hd. exact Hd.
Qed.

(** C12. No request to suspend is lost: whenever the worker rests, a wake lock without a
    timeout is active, or the suspend work is queued, or the timer is set, for a time at
    which every active lock has expired. *)
Theorem no_lost_suspend s :
  reachable s -> worker s = Idle ->
  (exists lk, lk ∈ active_of (wl s) 0 /\ is_auto (wl s) lk = false) \/
  suspend_work ∈ suspend_work_queue (wl s) \/
  (exists T, expire_timer (wl s) = Some T /\ u32 (T - INITIAL_JIFFIES) < 2 ^ 31 /\
     forall lk, lk ∈ active_of (wl s) 0 -> deadline (wl s) lk <= u32 (T - INITIAL_JIFFIES)).
Proof.
  intros HR Hw. pose proof (power_reachable_inv _ _ HR) as I.
  assert (Hp : pend (wl s)) by (apply not_suspending_pend; [done|unfold suspending; rewrite Hw; tauto]).
  destruct Hp as [?|[[T HT]|?]]; [by left| |by right; left].
  destruct (decide (Forall (fun lk => is_auto (wl s) lk = true) (suspend_locks (wl s)))) as [Ha|Hn].
  - right. right. exists T. destruct (wi_timer _ _ (iv_wl _ I) T HT) as [? H]. do 2 (split; [done|]).
    intros lk Hlk. rewrite Forall_forall in Ha. apply H; auto.
  - left. apply not_Forall_Exists in Hn; [|apply _]. apply Exists_exists in Hn as (lk & Hlk & Hf). exists lk.
    split; [done|]. by apply not_true_is_false.
Qed.

(** C13. The state settles on what the user asked for last: when no work is queued or runs,
    either the last request was for sleep (after at least one request), the main wake lock
    is given up and all handlers are suspended, or it was for wake-up, the main lock is
    held and all handlers are resumed. *)
Theorem early_suspend_settles s :
  reachable s -> worker s = Idle -> suspend_work_queue (wl s) = [] ->
  (asked s = true /\ state s = SUSPEND_REQUESTED_AND_SUSPENDED /\ (main_wake_lock ∉ active_of (wl s) 0) /\
   forall h, h ∈ early_suspend_handlers s -> suspend_hook h = true -> addr h ∈ suspended s) \/
  (asked s = false /\ state s = 0 /\ main_wake_lock ∈ active_of (wl s) 0 /\
   forall h, h ∈ early_suspend_handlers s -> suspend_hook h = true -> resume_hook h = true -> addr h ∉ suspended s).
Proof.
  intros HR Hw Hq. pose proof (power_reachable_inv _ _ HR) as [I1 I2 I3 [E1 E2 E3 E4 E5] I5 I6].
  pose proof (ho_devices _ I5) as Hd. apply devices_free in Hd; [|unfold unlocked; by rewrite Hw].
  unfold queued, will_unlock in *. rewrite Hq, Hw in *. rewrite Forall_forall in Hd.
  destruct E1 as [Es|[Es|[Es|Es]]]; rewrite Es in *.
  - right. split; [done|]. split; [done|]. split; [by apply E2|exact Hd].
  - destruct (E3 eq_refl); [set_solver|done].
  - destruct (E4 eq_refl); [set_solver|done].
  - left. split; [done|]. split; [done|]. split; [|exact Hd]. intros Hm. destruct (E5 eq_refl Hm); [set_solver|done].
Qed.

(** Handlers are called in the order of their levels, suspend hooks upwards and
    resume hooks downwards, and alternately: the list is sorted by level; while the worker
    calls suspend hooks those before the next one have been called and those from it on
    have not, and in the reverse order for resume; at all other times all handlers are
    suspended or all resumed, as [SUSPENDED] says. *)
Theorem early_suspend_handlers_correct s :
  reachable s ->
  StronglySorted (fun a b => level a <= level b) (early_suspend_handlers s) /\
  match worker s with
  | E_handlers l => Z.testbit (state s) 1 = true /\
      exists done, early_suspend_handlers s = done ++ l /\ Forall (is_down s) done /\ Forall (is_up s) l
  | L_handlers l => Z.testbit (state s) 1 = false /\
      exists done, rev (early_suspend_handlers s) = done ++ l /\ Forall (is_up s) done /\ Forall (is_down s) l
  | _ => Forall (if Z.testbit (state s) 1 then is_down s else is_up s) (early_suspend_handlers s)
  end.
Proof. intros HR. destruct (power_reachable_inv _ _ HR) as [_ _ _ _ [H1 H2 H4 H3] _]. split; [exact H2|exact H3]. Qed.

(** Nothing goes wrong: in every reachable state the work that is queued or running can
    go on, every call of a well-behaved driver, every request and the handler of the timer
    are defined, that is, no [BUG_ON] fires and no list is corrupted. *)
Theorem power_steps_defined s k x :
  reachable s ->
  (worker s <> Idle \/ suspend_work_queue (wl s) <> [] -> forall late, is_Some (step TICK_NSEC k x s (Worker late))) /\
  (forall cl, well_behaved s cl = true -> is_Some (step TICK_NSEC k x s (Driver cl))) /\
  (forall new_state, is_Some (step TICK_NSEC k x s (Request new_state))) /\
  (forall T, expire_timer (wl s) = Some T -> 0 <= s32 (u32 (INITIAL_JIFFIES + now s) - T) ->
     is_Some (step TICK_NSEC k x s Timer)).
Proof.
  intros HR. pose proof (power_reachable_inv _ _ HR) as I. pose proof (iv_wl _ I) as Hw. pose proof (horizon_bound _ (iv_time _ I)) as Ht.
  destruct (main_vw _ (wi_statics _ _ Hw)) as (v & e & Hv & Hi & Hty).
  destruct (wi_statics _ _ Hw) as (_ & (vu & eu & Hu & Hui & _) & Hd).
  assert (Hhas : forall w, wf w -> exists w' r, has_wake_lock_locked TICK_NSEC (clock_at k x (now s)) w 0 = Some (w', r)).
  { intros w W. destruct (has_wake_lock_locked_ok TICK_NSEC (clock_at k x (now s)) w 0 W) as (w' & r & E & _); [lia|eauto]. }
  split_and!.
  - intros Hor late. simpl. unfold worker_step, suspend_step, early_suspend_step, late_resume_step, next_work, clk.
    destruct (worker s) as [| | |e'|e'|e'| |[|h l]| | |[|h l]] eqn:Ew; try (by eexists).
    + destruct Hor as [?|Hq]; [done|]. destruct (suspend_work_queue (wl s)); [done|by eexists].
    + unfold has_wake_lock. change WAKE_LOCK_SUSPEND with 0. destruct (Hhas (wl s) (wi_wf _ _ Hw)) as (w & r & ->). by eexists.
    + destruct (late && _ && _); [|by eexists]. destruct (power_suspend_late_ok TICK_NSEC k x s I) as (w1 & w & r & -> & _). by eexists.
    + destruct (_ =? _); [|by eexists].
      destruct (lock_done TICK_NSEC k x (wl s) (now s) unknown_wakeup vu eu (HZ / 2) true) as (w & E & _); try done.
      { intros _. split; [done|]. pose proof (iv_time _ I) as Hb. unfold horizon in Hb. change (HZ / 2) with 100. unfold HZ in *. lia. }
      unfold wake_lock_timeout. rewrite E. by eexists.
    + destruct (_ =? _); by eexists.
    + destruct (_ =? _); [|by eexists].
      destruct (unlock_done TICK_NSEC k x (wl s) (now s) main_wake_lock v e) as (w & -> & _); done.
    + destruct (_ =? _); by eexists.
  - intros cl Hwb. simpl. rewrite Hwb. destruct (perform_ok TICK_NSEC (clk k x s) (wl s) cl) as (w & -> & _).
    + apply Hw.
    + destruct (vw_Some _ _ _ _ Hv) as (l & El & _). by eexists.
    + destruct Hd as [[vd ed] Hd]. destruct (vw_Some _ _ _ _ Hd) as (l & El & _). by eexists.
    + destruct cl; simpl in Hwb |- *; rewrite ?andb_true_iff, ?negb_true_iff, ?bool_decide_eq_true, ?Z.leb_le, ?Z.ltb_lt in Hwb; tauto || lia || idtac.
    + by eexists.
  - intros ns. simpl. unfold request_suspend_state, clk.
    destruct (lock_done TICK_NSEC k x (wl s) (now s) main_wake_lock v e 0 false) as (w & E & _); try done.
    unfold wake_lock_. rewrite E. destruct (Z.land _ _ =? 0), (ns =? PM_SUSPEND_ON); cbn; by eexists.
  - intros T HT Hge. simpl. rewrite HT. destruct (Z.leb_spec 0 (s32 (u32 (INITIAL_JIFFIES + now s) - T))); [|lia].
    unfold expire_wake_locks, clk. destruct (Hhas (set_timer (wl s) None)) as (w & r & E); [by apply (wf_lists (wl s)); [..|apply Hw]|].
    change WAKE_LOCK_SUSPEND with 0. rewrite E. by eexists.
Qed.

End Theorems.

(** ** A run: the user asks for sleep with one handler registered *)

Definition ex_lock : wake_lock := mklock 0 None 0 (mkstat 0 0 0 0 0 0 0).
Definition ex_memory : gmap nat wake_lock := {[ 0%nat := ex_lock; 1%nat := ex_lock; 2%nat := ex_lock; 3%nat := ex_lock ]}.
Definition ex_tick : Z := 5000000.

Fixpoint run (s : power) (evs : list event) : option power :=
  match evs with
  | [] => Some s
  | ev :: evs => s ← step ex_tick 1000 1000 s ev; run s evs
  end.

Definition ex_start : option power :=
  '(w, _) ← wakelocks_init ex_tick (clock_at 0 0 0) ex_memory 0 0 true; Some (start w).

Lemma run_reachable evs : forall s s', reachable ex_tick s -> run s evs = Some s' -> reachable ex_tick s'.
Proof.
  induction evs as [|ev evs IH]; intros s s' HR E; simpl in E; [by injection E as <-|].
  destruct (step ex_tick 1000 1000 s ev) as [s1|] eqn:Es; [|done]. eapply IH; [|exact E]. by eapply R_step.
Qed.

Lemma ex_fresh : fresh ex_memory.
Proof.
  repeat split; try (by eexists). intros i l H. unfold ex_memory in H.
  repeat (apply lookup_insert_Some in H as [[_ <-]|[_ H]]; [done|]). apply lookup_singleton_Some in H as [_ <-]. done.
Qed.

Lemma ex_reachable evs s : (s0 ← ex_start; run s0 evs) = Some s -> reachable ex_tick s.
Proof.
  unfold ex_start. destruct (wakelocks_init _ _ _ _ _ _) as [[w r]|] eqn:E; [|done]. cbn.
  destruct (wakelocks_init_ok ex_tick 0 0 ex_memory ex_fresh) as (w' & E' & _). rewrite E' in E. injection E as <- <-.
  apply run_reachable. eapply R_start; [apply ex_fresh|exact E'].
Qed.

Definition ex_handler : early_suspend := mkhandler 7 50 true true.

(** The worker runs [early_suspend] to its end and then [suspend] up to [pm_suspend]. *)
Definition ex_events : list event :=
  [Register ex_handler; Request 3; Worker true; Worker true; Worker true; Worker true; Worker true;
   Worker true; Worker true; Worker true].

Definition ex_at (n : nat) : power :=
  default (start (boot ∅)) (s0 ← ex_start; run s0 (take n ex_events)).

Lemma suspend_safe_witness :
  exists s s', reachable ex_tick s /\ step ex_tick 1000 1000 s (Worker true) = Some s' /\ worker s' = S_slept 1 /\
    state s = 3 /\ suspended s = {[7%nat]}.
Proof.
  assert (HR : reachable ex_tick (ex_at 10)) by (apply (ex_reachable (take 10 ex_events)); vm_compute; reflexivity).
  destruct (step ex_tick 1000 1000 (ex_at 10) (Worker true)) as [s'|] eqn:E; [|vm_compute in E; discriminate].
  assert (Hs : worker s' = S_slept 1) by (vm_compute in E; injection E as <-; reflexivity).
  destruct (suspend_safe ex_tick (ex_at 10) 1000 1000 1 true s' HR ltac:(vm_compute; reflexivity) E Hs)
    as (_ & _ & _ & Hst & _).
  exists (ex_at 10), s'. split; [exact HR|]. split; [exact E|]. split; [exact Hs|]. split; [exact Hst|vm_compute; reflexivity].
Defined.

Lemma no_lost_suspend_witness :
  reachable ex_tick (ex_at 7) /\ suspend_work ∈ suspend_work_queue (wl (ex_at 7)).
Proof.
  assert (HR : reachable ex_tick (ex_at 7)) by (apply (ex_reachable (take 7 ex_events)); vm_compute; reflexivity).
  split; [exact HR|].
  destruct (no_lost_suspend ex_tick (ex_at 7) HR ltac:(vm_compute; reflexivity)) as [(lk & Hlk & _)|[H|(T & HT & _)]].
  - exfalso. vm_compute in Hlk. inversion Hlk.
  - exact H.
  - vm_compute in HT. discriminate.
Defined.

Lemma early_suspend_settles_witness :
  reachable ex_tick (ex_at 1) /\ state (ex_at 1) = 0 /\ main_wake_lock ∈ active_of (wl (ex_at 1)) 0.
Proof.
  assert (HR : reachable ex_tick (ex_at 1)) by (apply (ex_reachable (take 1 ex_events)); vm_compute; reflexivity).
  split; [exact HR|].
  destruct (early_suspend_settles ex_tick (ex_at 1) HR ltac:(vm_compute; reflexivity) ltac:(vm_compute; reflexivity))
    as [(Ha & _)|(_ & Hs & Hm & _)].
  - vm_compute in Ha. discriminate.
  - split; [exact Hs|exact Hm].
Defined.

Lemma early_suspend_handlers_correct_witness :
  worker (ex_at 4) = E_handlers [ex_handler] /\ Z.testbit (state (ex_at 4)) 1 = true.
Proof.
  assert (HR : reachable ex_tick (ex_at 4)) by (apply (ex_reachable (take 4 ex_events)); vm_compute; reflexivity).
  assert (Hw : worker (ex_at 4) = E_handlers [ex_handler]) by (vm_compute; reflexivity).
  split; [exact Hw|]. destruct (early_suspend_handlers_correct ex_tick (ex_at 4) HR) as [_ H]. rewrite Hw in H. exact (proj1 H).
Defined.

Lemma power_steps_defined_witness :
  reachable ex_tick (ex_at 2) /\ is_Some (step ex_tick 1000 1000 (ex_at 2) (Worker false)).
Proof.
  assert (HR : reachable ex_tick (ex_at 2)) by (apply (ex_reachable (take 2 ex_events)); vm_compute; reflexivity).
  split; [exact HR|]. apply (power_steps_defined ex_tick (ex_at 2) 1000 1000 HR). right. vm_compute. discriminate.
Defined.

End Earlysuspend.
