(* ===== verification/Rbtree.v ===== *)
(** * lib/rbtree.c and include/linux/rbtree.h: red-black trees

    A node is named by the address of its structure.  The parent pointers are modelled by
    zippers: a pointer to a node is the subtree below it together with the path from it to
    the root, one frame per ancestor.  Following a null pointer gives [None].  The
    callers descend by themselves, link the new node with [rb_link_node] and call
    [rb_insert_color]; [insert] is that sequence.

    The red-black invariant bounds the depth; the in-order list of the nodes is what the
    callers rely on. *)
From S2P Require Import Prelude.

Module Rbtree.

Inductive color := Red | Black.

(** A node with its color, left child, address and right child. *)
Inductive tree := Leaf | Node (c : color) (l : tree) (x : Z) (r : tree).

Inductive dir := L | R.

(** An ancestor: on which side of it the path goes down, its color and address, and its
    other child. *)
Record frame := mkframe { f_dir : dir; f_color : color; f_node : Z; f_other : tree }.

Abbreviation path := (list frame).

Definition under (t : tree) (f : frame) : tree :=
  match f_dir f with
  | L => Node (f_color f) t (f_node f) (f_other f)
  | R => Node (f_color f) (f_other f) (f_node f) t
  end.

(** The whole tree, up to the root. *)
Definition plug (t : tree) (p : path) : tree := fold_left under p t.

(** ** Macros *)

Definition is_red (t : tree) : bool := match t with Node Red _ _ _ => true | _ => false end.

(** [!node || rb_is_black(node)] *)
Definition null_or_black (t : tree) : bool := negb (is_red t).

Definition set_color (c : color) (t : tree) : option tree :=
  match t with Leaf => None | Node _ l x r => Some (Node c l x r) end.

(** [rb_link_node]: a new node is red. *)
Definition rb_link_node (x : Z) : tree := Node Red Leaf x Leaf.

(** ** Rotations *)

Definition __rb_rotate_left (node : tree) : option tree :=
  match node with
  | Node c l x (Node cr rl y rr) => Some (Node cr (Node c l x rl) y rr)
  | _ => None
  end.

Definition __rb_rotate_right (node : tree) : option tree :=
  match node with
  | Node c (Node cl ll y lr) x r => Some (Node cl ll y (Node c lr x r))
  | _ => None
  end.

(** ** Insertion *)

(** The loop; after a rotation the parent of [node] is black, so that the loop ends. *)
Fixpoint insert_loop (node : tree) (p : path) {struct p} : option tree :=
  match p with
  | [] => Some node
  | parent :: p1 =>
      match f_color parent with
      | Black => Some (plug node p)
      | Red =>
          match p1 with
          | [] => None
          | gparent :: p2 =>
              let uncle := f_other gparent in
              if is_red uncle then
                uncle ← set_color Black uncle;
                ptree ← set_color Black (under node parent);
                insert_loop (under ptree (mkframe (f_dir gparent) Red (f_node gparent) uncle)) p2
              else
                match f_dir gparent with
                | L =>
                    ptree ← match f_dir parent with
                            | R => __rb_rotate_left (under node parent)
                            | L => Some (under node parent)
                            end;
                    ptree ← set_color Black ptree;
                    gtree ← __rb_rotate_right (Node Red ptree (f_node gparent) uncle);
                    Some (plug gtree p2)
                | R =>
                    ptree ← match f_dir parent with
                            | L => __rb_rotate_right (under node parent)
                            | R => Some (under node parent)
                            end;
                    ptree ← set_color Black ptree;
                    gtree ← __rb_rotate_left (Node Red uncle (f_node gparent) ptree);
                    Some (plug gtree p2)
                end
          end
      end
  end.

Definition rb_insert_color (node : tree) (p : path) : option tree :=
  root ← insert_loop node p; set_color Black root.

(** ** Removal *)

(** An iteration of the loop of [__rb_erase_color] for [parent->rb_left == node]: the loop
    goes on at a node, or the tree is finished. *)
Inductive progress := Again (node : tree) (p : path) | Finished (root : tree).

Definition erase_left (node : tree) (parent : frame) (p : path) : option progress :=
  '(parent, p, other) ←
    (if is_red (f_other parent) then
       (** [rb_set_black(other); rb_set_red(parent); __rb_rotate_left(parent, root)] *)
       match f_other parent with
       | Node _ ol y or => Some (mkframe L Red (f_node parent) ol, mkframe L Black y or :: p, ol)
       | Leaf => None
       end
     else Some (parent, p, f_other parent));
  match other with
  | Leaf => None
  | Node co ol y or =>
      if null_or_black ol && null_or_black or then
        Some (Again (Node (f_color parent) node (f_node parent) (Node Red ol y or)) p)
      else
        other ← (if null_or_black or then
                   ol ← set_color Black ol;
                   __rb_rotate_right (Node Red ol y or)
                 else Some other);
        match other with
        | Leaf => None
        | Node _ ol y or =>
            or ← set_color Black or;
            t ← __rb_rotate_left (Node Black node (f_node parent) (Node (f_color parent) ol y or));
            Some (Finished (plug t p))
        end
  end.

Definition erase_right (node : tree) (parent : frame) (p : path) : option progress :=
  '(parent, p, other) ←
    (if is_red (f_other parent) then
       match f_other parent with
       | Node _ ol y or => Some (mkframe R Red (f_node parent) or, mkframe R Black y ol :: p, or)
       | Leaf => None
       end
     else Some (parent, p, f_other parent));
  match other with
  | Leaf => None
  | Node co ol y or =>
      if null_or_black ol && null_or_black or then
        Some (Again (Node (f_color parent) (Node Red ol y or) (f_node parent) node) p)
      else
        other ← (if null_or_black ol then
                   or ← set_color Black or;
                   __rb_rotate_left (Node Red ol y or)
                 else Some other);
        match other with
        | Leaf => None
        | Node _ ol y or =>
            ol ← set_color Black ol;
            t ← __rb_rotate_right (Node Black (Node (f_color parent) ol y or) (f_node parent) node);
            Some (Finished (plug t p))
        end
  end.

(** [if (node) rb_set_black(node)] *)
Definition blacken (t : tree) : tree := match t with Leaf => Leaf | Node _ l x r => Node Black l x r end.

Fixpoint erase_loop (fuel : nat) (node : tree) (p : path) : option tree :=
  match p with
  | [] => Some (blacken node)
  | parent :: p1 =>
      if null_or_black node then
        match fuel with
        | O => None
        | S fuel =>
            r ← match f_dir parent with
                | L => erase_left node parent p1
                | R => erase_right node parent p1
                end;
            match r with
            | Again node p => erase_loop fuel node p
            | Finished root => Some (blacken root)
            end
        end
      else Some (plug (blacken node) p)
  end.

Definition __rb_erase_color (node : tree) (p : path) : option tree := erase_loop (S (S (length p))) node p.

(** Down the left children: the subtree at the last node and the path to it. *)
Fixpoint leftmost (t : tree) (p : path) : tree * path :=
  match t with
  | Node c (Node _ _ _ _ as l) x r => leftmost l (mkframe L c x r :: p)
  | _ => (t, p)
  end.

Fixpoint rightmost (t : tree) (p : path) : tree * path :=
  match t with
  | Node c l x (Node _ _ _ _ as r) => rightmost r (mkframe R c x l :: p)
  | _ => (t, p)
  end.

(** The end of [rb_erase]: [child] takes the place of the node that is taken out. *)
Definition erased (child : tree) (p : path) (c : color) : option tree :=
  match c with Black => __rb_erase_color child p | Red => Some (plug child p) end.

Definition rb_erase (node : tree) (p : path) : option tree :=
  match node with
  | Leaf => None
  | Node c Leaf _ r => erased r p c
  | Node c l _ Leaf => erased l p c
  | Node c l _ r =>
      (** the successor takes the place and the color of the node *)
      match leftmost r [] with
      | (Node cs _ s child, q) => erased child (q ++ mkframe R c s l :: p) cs
      | _ => None
      end
  end.

(** ** Walking *)

Definition node_of (t : tree) : option Z := match t with Leaf => None | Node _ _ x _ => Some x end.

Definition rb_first (root : tree) : option Z := node_of (fst (leftmost root [])).
Definition rb_last (root : tree) : option Z := node_of (fst (rightmost root [])).

(** [while ((parent = rb_parent(node)) && node == parent->rb_right) node = parent] *)
Fixpoint up_from (d : dir) (p : path) : option Z :=
  match p with
  | [] => None
  | f :: p => match d, f_dir f with
              | R, R | L, L => up_from d p
              | _, _ => Some (f_node f)
              end
  end.

Definition rb_next (node : tree) (p : path) : option Z :=
  match node with
  | Leaf => None
  | Node _ _ _ Leaf => up_from R p
  | Node _ _ _ r => node_of (fst (leftmost r []))
  end.

Definition rb_prev (node : tree) (p : path) : option Z :=
  match node with
  | Leaf => None
  | Node _ Leaf _ _ => up_from L p
  | Node _ l _ _ => node_of (fst (rightmost l []))
  end.

Definition rb_replace_node (victim : tree) (new : Z) (p : path) : option tree :=
  match victim with Leaf => None | Node c l _ r => Some (plug (Node c l new r) p) end.

(** ** What the callers do *)

(** From the root to an empty place; [go_left] is what the caller decides at each node and
    may fail. *)
Fixpoint descend (go_left : Z -> option bool) (t : tree) (p : path) : option path :=
  match t with
  | Leaf => Some p
  | Node c l x r =>
      b ← go_left x;
      if (b : bool) then descend go_left l (mkframe L c x r :: p) else descend go_left r (mkframe R c x l :: p)
  end.

Definition insert (go_left : Z -> option bool) (x : Z) (t : tree) : option tree :=
  p ← descend go_left t []; rb_insert_color (rb_link_node x) p.

(** The place of a node. *)
Fixpoint locate (x : Z) (t : tree) (p : path) : option (tree * path) :=
  match t with
  | Leaf => None
  | Node c l y r =>
      if y =? x then Some (t, p)
      else match locate x l (mkframe L c y r :: p) with
           | Some z => Some z
           | None => locate x r (mkframe R c y l :: p)
           end
  end.

Definition erase (x : Z) (t : tree) : option tree := '(n, p) ← locate x t []; rb_erase n p.

(** ** The in-order list *)

Fixpoint elements (t : tree) : list Z :=
  match t with Leaf => [] | Node _ l x r => elements l ++ x :: elements r end.

(** The nodes before and after those of the subtree at the end of a path. *)
Fixpoint before (p : path) : list Z :=
  match p with
  | [] => []
  | f :: p => before p ++ match f_dir f with L => [] | R => elements (f_other f) ++ [f_node f] end
  end.

Fixpoint after (p : path) : list Z :=
  match p with
  | [] => []
  | f :: p => match f_dir f with L => f_node f :: elements (f_other f) | R => [] end ++ after p
  end.

Lemma elements_plug p : forall t, elements (plug t p) = before p ++ elements t ++ after p.
Proof.
  induction p as [|f p IH]; intros t; simpl; [by rewrite app_nil_r|]. rewrite IH. unfold under.
  destruct (f_dir f); simpl; rewrite ?app_nil_r, <- !app_assoc; simpl; done.
Qed.

Lemma elements_set_color c t t' : set_color c t = Some t' -> elements t' = elements t.
Proof. destruct t; simpl; intros [=]. by subst. Qed.

Lemma elements_blacken t : elements (blacken t) = elements t.
Proof. by destruct t. Qed.

Lemma elements_rotate_left t t' : __rb_rotate_left t = Some t' -> elements t' = elements t.
Proof. destruct t as [|? ? ? [|]]; intros [=]; subst; simpl. by rewrite <- app_assoc. Qed.

Lemma elements_rotate_right t t' : __rb_rotate_right t = Some t' -> elements t' = elements t.
Proof. destruct t as [|? [|] ? ?]; intros [=]; subst; simpl. by rewrite <- app_assoc. Qed.

(** ** The red-black invariant

    [rb t c n]: the children of red nodes are black, every path down passes [n] black
    nodes, and the root has color [c] (an empty tree counts as black). *)
Inductive rb : tree -> color -> nat -> Prop :=
| rb_leaf : rb Leaf Black 0
| rb_red l x r n : rb l Black n -> rb r Black n -> rb (Node Red l x r) Red n
| rb_black l x r cl cr n : rb l cl n -> rb r cr n -> rb (Node Black l x r) Black (S n).

(** [hole p c n]: a subtree of color [c] and black height [n] completes the path to a
    red-black tree with a black root. *)
Inductive hole : path -> color -> nat -> Prop :=
| hole_root n : hole [] Black n
| hole_red d x o p n : rb o Black n -> hole p Red n -> hole (mkframe d Red x o :: p) Black n
| hole_black d x o co p c n : rb o co n -> hole p Black (S n) -> hole (mkframe d Black x o :: p) c n.

Definition wf (t : tree) : Prop := exists n, rb t Black n.

Create HintDb rbt.
#[export] Hint Constructors rb hole : rbt.

Lemma rb_plug t c n p : rb t c n -> hole p c n -> wf (plug t p).
Proof.
  intros Ht Hp. revert t Ht. induction Hp as [n|d x o p n Ho Hp IH|d x o co p c n Ho Hp IH]; intros t Ht; simpl.
  - by exists n.
  - apply IH. unfold under. destruct d; simpl; auto with rbt.
  - apply IH. unfold under. destruct d; simpl; eauto with rbt.
Qed.

Lemma rb_is_red t c n : rb t c n -> is_red t = match c with Red => true | Black => false end.
Proof. by destruct 1. Qed.

Lemma rb_red_inv t n : rb t Red n -> exists l x r, t = Node Red l x r /\ rb l Black n /\ rb r Black n.
Proof. inversion 1; subst; eauto 6. Qed.

Lemma rb_blacken t c n : rb t c n -> exists m, rb (blacken t) Black m.
Proof. destruct 1; simpl; eauto with rbt. Qed.

Lemma hole_weaken p c n : hole p c n -> hole p Black n.
Proof. destruct 1; eauto with rbt. Qed.

Lemma hole_red_inv p n : hole p Red n -> exists d x o co p', p = mkframe d Black x o :: p' /\ rb o co n /\ hole p' Black (S n).
Proof. inversion 1; subst; eauto 10. Qed.

(** Insertion repairs a red node below a red one. *)
Lemma insert_loop_ok k : forall p node n,
  (length p <= k)%nat -> rb node Red n -> hole p Black n ->
  exists root c m, insert_loop node p = Some root /\ rb root c m /\ elements root = before p ++ elements node ++ after p.
Proof.
  induction k as [|k IH]; intros p node n Hk Hn Hp; inversion Hp as [n' E1 E2|d x o p1 n' Ho Hp1|d x o co p1 c n' Ho Hp1]; subst; simpl in Hk; try lia.
  - exists node, Red, n. split; [done|]. split; [done|]. simpl. by rewrite app_nil_r.
  - exists node, Red, n. split; [done|]. split; [done|]. simpl. by rewrite app_nil_r.
  - apply hole_red_inv in Hp1 as (gd & gx & go & gc & p2 & -> & Hgo & Hp2). cbn [insert_loop f_color f_other f_dir f_node].
    rewrite (rb_is_red _ _ _ Hgo). destruct gc.
    + apply rb_red_inv in Hgo as (gl & gy & gr & -> & Hgl & Hgr). cbn [set_color mbind option_bind].
      set (P := under node (mkframe d Red x o)).
      assert (HP : exists P', set_color Black P = Some P' /\ rb P' Black (S n) /\ elements P' = elements P).
      { unfold P, under. destruct d; simpl; eexists; (split; [done|]); (split; [|done]); econstructor; eauto. }
      destruct HP as (P' & -> & HP' & EP). cbn [mbind option_bind].
      destruct (IH p2 (under P' (mkframe gd Red gx (Node Black gl gy gr))) (S n)) as (root & c & m & E & Hr & Ee).
      * simpl in Hk. lia.
      * unfold under. destruct gd; simpl; eauto with rbt.
      * done.
      * exists root, c, m. split; [done|]. split; [done|]. rewrite Ee. unfold under. subst P. unfold under in EP.
        destruct gd, d; simpl in *; rewrite EP; simpl; rewrite ?app_nil_r; simplify_list_eq; done.
    + assert (Hroot : forall g, rb g Black (S n) -> elements g = elements (under (under node (mkframe d Red x o)) (mkframe gd Black gx go)) ->
        exists root c m, Some (plug g p2) = Some root /\ rb root c m /\
          elements root = before (mkframe d Red x o :: mkframe gd Black gx go :: p2) ++ elements node ++
            after (mkframe d Red x o :: mkframe gd Black gx go :: p2)).
      { intros g Hg Eg. destruct (rb_plug _ _ _ _ Hg Hp2) as [m Hm]. exists (plug g p2), Black, m. split; [done|]. split; [done|].
        rewrite elements_plug, Eg. unfold under. destruct gd, d; simpl; rewrite ?app_nil_r; simplify_list_eq; done. }
      apply rb_red_inv in Hn as (nl & nx & nr & -> & Hnl & Hnr). unfold under.
      destruct gd, d; cbn [f_dir f_color f_other f_node __rb_rotate_left __rb_rotate_right set_color mbind option_bind];
        apply Hroot; unfold under; simpl; eauto 10 with rbt; simplify_list_eq; done.
  - exists (plug node (mkframe d Black x o :: p1)). assert (Hh : hole (mkframe d Black x o :: p1) Red n) by eauto with rbt.
    destruct (rb_plug _ _ _ _ Hn Hh) as [m Hm].
    exists Black, m. split; [done|]. split; [done|]. apply elements_plug.
Qed.

(** An iteration of the loop of [__rb_erase_color], where the subtree [node] lacks one
    black node: it is finished, or the subtree one level up lacks one, or a red node has
    been reached. *)
Definition advanced (n : nat) (p1 : path) (cf : color) (els : list Z) (r : progress) : Prop :=
  match r with
  | Again t p => before p ++ elements t ++ after p = els /\
      match cf with
      | Black => rb t Black (S n) /\ p = p1 /\ hole p Black (S (S n))
      | Red => is_red t = true /\ rb (blacken t) Black (S n) /\ hole p Black (S n)
      end
  | Finished root => elements root = els /\ wf root
  end.

(** The black height below a parent of color [c] whose child lacks a black node. *)
Definition above (c : color) (n : nat) : nat := match c with Red => S n | Black => S (S n) end.

Lemma rb_black_inv t n : rb t Black (S n) -> exists l x r cl cr, t = Node Black l x r /\ rb l cl n /\ rb r cr n.
Proof. inversion 1; subst; eauto 10. Qed.

Ltac rb_cases H c := destruct c; [apply rb_red_inv in H as (? & ? & ? & -> & ? & ?)|].

(** With a black sibling. *)
Lemma erase_left_black node x o p n cf :
  rb node Black n -> rb o Black (S n) -> hole p cf (above cf n) ->
  exists r, erase_left node (mkframe L cf x o) p = Some r /\
    advanced n p cf (before (mkframe L cf x o :: p) ++ elements node ++ after (mkframe L cf x o :: p)) r.
Proof.
  intros Hn Ho Hp. apply rb_black_inv in Ho as (ol & y & or & cl & cr & -> & Hl & Hr).
  unfold erase_left. cbn [f_other is_red f_color f_node mbind option_bind]. unfold null_or_black.
  rewrite (rb_is_red _ _ _ Hl), (rb_is_red _ _ _ Hr).
  assert (Hfin : forall t, rb t cf (above cf n) -> elements t = elements node ++ x :: elements (Node Black ol y or) ->
    advanced n p cf (before (mkframe L cf x (Node Black ol y or) :: p) ++ elements node ++ after (mkframe L cf x (Node Black ol y or) :: p))
      (Finished (plug t p))).
  { intros t Ht Et. split; [|by eapply rb_plug]. rewrite elements_plug, Et. simpl. simplify_list_eq. done. }
  destruct cr; [|destruct cl]; cbn [negb andb].
  - apply rb_red_inv in Hr as (rl & z & rr & -> & Hrl & Hrr). cbn [mbind option_bind set_color __rb_rotate_left].
    rewrite andb_false_r. cbn [mbind option_bind set_color]. eexists. split; [done|].
    apply Hfin; [destruct cf; simpl; eauto 10 with rbt|simpl; simplify_list_eq; done].
  - apply rb_red_inv in Hl as (ll & z & lr & -> & Hll & Hlr). cbn [mbind option_bind set_color __rb_rotate_left __rb_rotate_right].
    eexists. split; [done|]. apply Hfin; [destruct cf; simpl; eauto 10 with rbt|simpl; simplify_list_eq; done].
  - eexists. split; [done|]. split; [simpl; simplify_list_eq; done|]. destruct cf; simpl in *.
    + split; [done|]. split; [eauto 10 with rbt|by eapply hole_weaken].
    + split; [eauto 10 with rbt|done].
Qed.

Lemma erase_right_black node x o p n cf :
  rb node Black n -> rb o Black (S n) -> hole p cf (above cf n) ->
  exists r, erase_right node (mkframe R cf x o) p = Some r /\
    advanced n p cf (before (mkframe R cf x o :: p) ++ elements node ++ after (mkframe R cf x o :: p)) r.
Proof.
  intros Hn Ho Hp. apply rb_black_inv in Ho as (ol & y & or & cl & cr & -> & Hl & Hr).
  unfold erase_right. cbn [f_other is_red f_color f_node mbind option_bind]. unfold null_or_black.
  rewrite (rb_is_red _ _ _ Hl), (rb_is_red _ _ _ Hr).
  assert (Hfin : forall t, rb t cf (above cf n) -> elements t = elements (Node Black ol y or) ++ x :: elements node ->
    advanced n p cf (before (mkframe R cf x (Node Black ol y or) :: p) ++ elements node ++ after (mkframe R cf x (Node Black ol y or) :: p))
      (Finished (plug t p))).
  { intros t Ht Et. split; [|by eapply rb_plug]. rewrite elements_plug, Et. simpl. simplify_list_eq. done. }
  destruct cl; [|destruct cr]; cbn [negb andb].
  - apply rb_red_inv in Hl as (ll & z & lr & -> & Hll & Hlr). cbn [mbind option_bind set_color __rb_rotate_right].
    eexists. split; [done|]. apply Hfin; [destruct cf; simpl; eauto 10 with rbt|simpl; simplify_list_eq; done].
  - apply rb_red_inv in Hr as (rl & z & rr & -> & Hrl & Hrr). cbn [mbind option_bind set_color __rb_rotate_left __rb_rotate_right].
    eexists. split; [done|]. apply Hfin; [destruct cf; simpl; eauto 10 with rbt|simpl; simplify_list_eq; done].
  - eexists. split; [done|]. split; [simpl; simplify_list_eq; done|]. destruct cf; simpl in *.
    + split; [done|]. split; [eauto 10 with rbt|by eapply hole_weaken].
    + split; [eauto 10 with rbt|done].
Qed.

(** A red sibling is first turned into a black one. *)
Lemma erase_left_red node x ol y or p :
  is_red ol = false ->
  erase_left node (mkframe L Black x (Node Red ol y or)) p = erase_left node (mkframe L Red x ol) (mkframe L Black y or :: p).
Proof. intros H. unfold erase_left. cbn [f_other is_red mbind option_bind f_node]. by rewrite H. Qed.

Lemma erase_right_red node x ol y or p :
  is_red or = false ->
  erase_right node (mkframe R Black x (Node Red ol y or)) p = erase_right node (mkframe R Red x or) (mkframe R Black y ol :: p).
Proof. intros H. unfold erase_right. cbn [f_other is_red mbind option_bind f_node]. by rewrite H. Qed.

Definition erase_iter (d : dir) := match d with L => erase_left | R => erase_right end.

Lemma erase_iter_ok d c x o p node n :
  rb node Black n -> hole (mkframe d c x o :: p) Black (S n) ->
  exists r cf q, erase_iter d node (mkframe d c x o) p = Some r /\ (cf = Black -> q = p) /\
    advanced n q cf (before (mkframe d c x o :: p) ++ elements node ++ after (mkframe d c x o :: p)) r.
Proof.
  intros Hn Hh. inversion Hh as [|d' x' o' p' n' Ho Hp|d' x' o' co p' c' n' Ho Hp]; subst.
  - destruct d; [destruct (erase_left_black node x o p n Red Hn Ho Hp) as (r & E & A)
                |destruct (erase_right_black node x o p n Red Hn Ho Hp) as (r & E & A)]; by exists r, Red, p.
  - destruct co; [|destruct d; [destruct (erase_left_black node x o p n Black Hn Ho Hp) as (r & E & A)
                               |destruct (erase_right_black node x o p n Black Hn Ho Hp) as (r & E & A)]; by exists r, Black, p].
    apply rb_red_inv in Ho as (ol & y & or & -> & Hol & Hor). destruct d; cbn [erase_iter].
    + rewrite (erase_left_red _ _ _ _ _ _ (rb_is_red _ _ _ Hol)).
      destruct (erase_left_black node x ol (mkframe L Black y or :: p) n Red Hn Hol) as (r & E & A); [simpl; eauto with rbt|].
      exists r, Red, (mkframe L Black y or :: p). split; [done|]. split; [done|].
      revert A. match goal with |- advanced _ _ _ ?a _ -> advanced _ _ _ ?b _ => replace b with a; [done|] end.
      simpl. simplify_list_eq. done.
    + rewrite (erase_right_red _ _ _ _ _ _ (rb_is_red _ _ _ Hor)).
      destruct (erase_right_black node x or (mkframe R Black y ol :: p) n Red Hn Hor) as (r & E & A); [simpl; eauto with rbt|].
      exists r, Red, (mkframe R Black y ol :: p). split; [done|]. split; [done|].
      revert A. match goal with |- advanced _ _ _ ?a _ -> advanced _ _ _ ?b _ => replace b with a; [done|] end.
      simpl. simplify_list_eq. done.
Qed.

Lemma erase_loop_ok fuel : forall p node c n,
  (length p <= fuel)%nat -> rb node c n -> hole p Black (S n) ->
  exists root, erase_loop fuel node p = Some root /\ wf root /\ elements root = before p ++ elements node ++ after p.
Proof.
  assert (Hred : forall fuel p node n, is_red node = true -> rb (blacken node) Black n -> hole p Black n ->
    exists root, erase_loop fuel node p = Some root /\ wf root /\ elements root = before p ++ elements node ++ after p).
  { intros fuel' p node n Hr Hb Hh. exists (plug (blacken node) p). split.
    - destruct fuel', p; simpl; unfold null_or_black; by rewrite ?Hr.
    - split; [by eapply rb_plug|]. by rewrite elements_plug, elements_blacken. }
  induction fuel as [|fuel IH]; intros [|[d cf x o] p] node c n Hl Hn Hh; simpl in Hl; try lia.
  - exists (blacken node). destruct (rb_blacken _ _ _ Hn) as [m Hm]. split; [done|]. split; [by exists m|]. simpl. by rewrite elements_blacken, app_nil_r.
  - exists (blacken node). destruct (rb_blacken _ _ _ Hn) as [m Hm]. split; [done|]. split; [by exists m|]. simpl. by rewrite elements_blacken, app_nil_r.
  - destruct c.
    + apply (Hred (S fuel) _ _ (S n)); [by rewrite (rb_is_red _ _ _ Hn)|inversion Hn; subst; simpl; eauto with rbt|done].
    + destruct (erase_iter_ok d cf x o p node n Hn Hh) as (r & c & q & E & Hq & A).
      assert (El : erase_loop (S fuel) node (mkframe d cf x o :: p) =
        match r with Again node p => erase_loop fuel node p | Finished root => Some (blacken root) end).
      { simpl. unfold null_or_black. rewrite (rb_is_red _ _ _ Hn). simpl. destruct d; cbn [erase_iter] in E; rewrite E; done. }
      rewrite El. destruct r as [t p'|root]; destruct A as [Ee A].
      * rewrite <- Ee. destruct c; [destruct A as (A1 & A2 & A3); by eapply Hred|].
        destruct A as (A1 & A2 & A3). rewrite Hq in A2 by done. subst p'. eapply IH; [lia|done|done].
      * exists (blacken root). split; [done|]. destruct A as [m Hm]. split; [|by rewrite elements_blacken].
        destruct (rb_blacken _ _ _ Hm) as [m' Hm']. by exists m'.
Qed.

(** Taking out a node of color [c] whose only child is [child]. *)
Lemma erased_ok child p c cc n :
  rb child cc n -> hole p c (match c with Red => n | Black => S n end) -> (c = Red -> cc = Black) ->
  exists root, erased child p c = Some root /\ wf root /\ elements root = before p ++ elements child ++ after p.
Proof.
  intros Hc Hh Hr. destruct c; simpl.
  - rewrite (Hr eq_refl) in Hc. exists (plug child p). split; [done|]. split; [|apply elements_plug].
    eapply rb_plug; [exact Hc|by eapply hole_weaken].
  - unfold __rb_erase_color. eapply erase_loop_ok; [lia|done|done].
Qed.

(** ** Going down *)

Lemma rb_children c l x r n p :
  rb (Node c l x r) c n -> hole p c n ->
  exists cl cr m, rb l cl m /\ rb r cr m /\ hole (mkframe L c x r :: p) cl m /\ hole (mkframe R c x l :: p) cr m /\
    (c = Red -> cl = Black /\ cr = Black) /\ n = match c with Red => m | Black => S m end.
Proof.
  intros Ht Hp. inversion Ht; subst.
  - exists Black, Black, n. split_and!; eauto with rbt.
  - eexists _, _, _. split_and!; eauto with rbt. done.
Qed.

Lemma rb_root c l x r c' n : rb (Node c l x r) c' n -> c' = c.
Proof. by inversion 1. Qed.

Lemma leftmost_app t : forall p, leftmost t p = (fst (leftmost t []), snd (leftmost t []) ++ p).
Proof.
  induction t as [|c l IHl x r IHr]; intros p; [done|]. destruct l as [|c' l' x' r']; [done|].
  change (leftmost (Node c (Node c' l' x' r') x r) p) with (leftmost (Node c' l' x' r') (mkframe L c x r :: p)).
  change (leftmost (Node c (Node c' l' x' r') x r) []) with (leftmost (Node c' l' x' r') [mkframe L c x r]).
  rewrite IHl, (IHl [_]). simpl. by rewrite <- app_assoc.
Qed.

Lemma leftmost_ok t : forall p c n,
  rb t c n -> hole p c n -> t <> Leaf ->
  exists c' s child q, leftmost t [] = (Node c' Leaf s child, q) /\ before q = [] /\
    elements t = s :: elements child ++ after q /\
    exists n', rb (Node c' Leaf s child) c' n' /\ hole (q ++ p) c' n'.
Proof.
  induction t as [|c l IHl x r IHr]; intros p c' n Ht Hp Hne; [done|]. pose proof (rb_root _ _ _ _ _ _ Ht) as ->.
  destruct l as [|cl ll lx lr].
  - exists c, x, r, []. split; [done|]. split; [done|]. simpl. rewrite app_nil_r. split; [done|]. by exists n.
  - destruct (rb_children _ _ _ _ _ _ Ht Hp) as (c1 & c2 & m & Hl & Hr & H1 & _).
    destruct (IHl _ _ _ Hl H1) as (c' & s & child & q & E & Eb & Ee & n' & Hn & Hq); [done|].
    change (leftmost (Node c (Node cl ll lx lr) x r) []) with (leftmost (Node cl ll lx lr) [mkframe L c x r]).
    rewrite leftmost_app, E. simpl. exists c', s, child, (q ++ [mkframe L c x r]). split; [done|].
    assert (Hb : forall q f, before (q ++ [f]) = before [f] ++ before q).
    { clear. intros q f. induction q as [|g q IH]; simpl; [by rewrite app_nil_r|]. rewrite IH. simpl. by rewrite app_assoc. }
    assert (Ha : forall q f, after (q ++ [f]) = after q ++ after [f]).
    { clear. intros q f. induction q as [|g q IH]; simpl; [done|]. rewrite IH. simpl. by rewrite app_assoc. }
    split; [by rewrite Hb, Eb|]. split.
    + rewrite Ha. simpl in Ee |- *. rewrite Ee. simpl. rewrite app_nil_r, <- app_assoc. done.
    + exists n'. split; [done|]. by rewrite <- app_assoc.
Qed.

Lemma before_app q p : before (q ++ p) = before p ++ before q.
Proof. induction q as [|f q IH]; simpl; [by rewrite app_nil_r|]. by rewrite IH, app_assoc. Qed.

Lemma after_app q p : after (q ++ p) = after q ++ after p.
Proof. induction q as [|f q IH]; simpl; [done|]. by rewrite IH, app_assoc. Qed.

(** Change of the address in a frame. *)
Lemma hole_rename q : forall d c x y o p c' n, hole (q ++ mkframe d c x o :: p) c' n -> hole (q ++ mkframe d c y o :: p) c' n.
Proof. induction q as [|f q IH]; intros d c x y o p c' n; simpl; inversion 1; subst; eauto with rbt. Qed.

Lemma rb_erase_ok c l x r p n :
  rb (Node c l x r) c n -> hole p c n ->
  exists root, rb_erase (Node c l x r) p = Some root /\ wf root /\
    elements root = before p ++ (elements l ++ elements r) ++ after p.
Proof.
  intros Ht Hp. destruct (rb_children _ _ _ _ _ _ Ht Hp) as (cl & cr & m & Hl & Hr & H1 & H2 & Hc & ->).
  assert (Hone : forall ch cc, rb ch cc m -> (c = Red -> cc = Black) ->
    exists root, erased ch p c = Some root /\ wf root /\ elements root = before p ++ elements ch ++ after p).
  { intros ch cc Hch Hcc. eapply erased_ok; done. }
  destruct l as [|cl' ll lx lr].
  - simpl. apply (Hone r cr); [done|]. intros E. by destruct (Hc E).
  - destruct r as [|cr' rl rx rr].
    + simpl (elements Leaf). rewrite app_nil_r. apply (Hone _ cl); [done|]. intros E. by destruct (Hc E).
    + cbn [rb_erase]. set (l := Node cl' ll lx lr) in *. set (r := Node cr' rl rx rr) in *.
      destruct (leftmost_ok r (mkframe R c x l :: p) cr m Hr H2) as (cs & s & child & q & E & Eb & Ee & n' & Hn & Hq); [done|].
      rewrite E. apply (hole_rename q R c x s l p) in Hq.
      assert (Hf : exists root, erased child (q ++ mkframe R c s l :: p) cs = Some root /\ wf root /\
        elements root = before (q ++ mkframe R c s l :: p) ++ elements child ++ after (q ++ mkframe R c s l :: p)).
      { inversion Hn; subst; eapply erased_ok; done. }
      destruct Hf as (root & Er & Hw & Eroot). exists root. split; [done|]. split; [done|].
      rewrite Eroot, before_app, after_app, Eb, Ee. simpl. simplify_list_eq. done.
Qed.

(** ** Finding the place *)

Lemma descend_ok go_left t : forall p c n,
  (forall x, x ∈ elements t -> is_Some (go_left x)) -> rb t c n -> hole p c n ->
  exists q, descend go_left t p = Some q /\ hole q Black 0 /\
    exists ll rr, elements t = ll ++ rr /\ before q = before p ++ ll /\ after q = rr ++ after p /\
      (forall x, last ll = Some x -> go_left x = Some false) /\ (forall x, head rr = Some x -> go_left x = Some true).
Proof.
  induction t as [|c l IHl x r IHr]; intros p c' n Hg Ht Hp.
  - simpl. exists p. split; [done|]. inversion Ht; subst. split; [done|]. exists [], []. split_and!; try done. by rewrite app_nil_r.
  - pose proof (rb_root _ _ _ _ _ _ Ht) as ->. destruct (rb_children _ _ _ _ _ _ Ht Hp) as (cl & cr & m & Hl & Hr & H1 & H2 & _).
    simpl. destruct (Hg x) as [b Eb]; [simpl; set_solver|]. rewrite Eb. cbn [mbind option_bind]. destruct b.
    + destruct (IHl _ _ _ ltac:(intros y Hy; apply Hg; simpl; set_solver) Hl H1) as (q & E & Hq & ll & rr & E1 & E2 & E3 & E4 & E5).
      exists q. split; [done|]. split; [done|]. exists ll, (rr ++ x :: elements r). rewrite E1, E2, E3. simpl.
      simplify_list_eq. split_and!; try done. intros y. destruct rr; simpl; [|apply E5]. by intros [= <-].
    + destruct (IHr _ _ _ ltac:(intros y Hy; apply Hg; simpl; set_solver) Hr H2) as (q & E & Hq & ll & rr & E1 & E2 & E3 & E4 & E5).
      exists q. split; [done|]. split; [done|]. exists (elements l ++ x :: ll), rr. rewrite E1, E2, E3. simpl.
      simplify_list_eq. split_and!; try done. intros y. rewrite last_app, last_cons. destruct (last ll) as [z|] eqn:Ez; [|by intros [= <-]].
      intros [= <-]. by apply E4.
Qed.

Lemma locate_ok x t : forall p c n,
  rb t c n -> hole p c n -> x ∈ elements t ->
  exists c' l r q n', locate x t p = Some (Node c' l x r, q) /\ rb (Node c' l x r) c' n' /\ hole q c' n' /\
    before q ++ (elements l ++ x :: elements r) ++ after q = before p ++ elements t ++ after p.
Proof.
  induction t as [|c l IHl y r IHr]; intros p c' n Ht Hp Hx; simpl in Hx; [set_solver|].
  pose proof (rb_root _ _ _ _ _ _ Ht) as ->. destruct (rb_children _ _ _ _ _ _ Ht Hp) as (cl & cr & m & Hl & Hr & H1 & H2 & _).
  simpl. destruct (Z.eqb_spec y x) as [->|Hne]; [by exists c, l, r, p, n|].
  destruct (decide (x ∈ elements l)) as [Hin|Hnin].
  - destruct (IHl _ _ _ Hl H1 Hin) as (c' & l' & r' & q & n' & E & Hn & Hq & Ee). exists c', l', r', q, n'. rewrite E.
    split_and!; try done. rewrite Ee. simpl. simplify_list_eq. done.
  - assert (E0 : forall p, locate x l p = None).
    { clear -Hnin. induction l as [|c l IHl z r IHr]; intros p; [done|]. simpl in *. destruct (Z.eqb_spec z x) as [->|]; [set_solver|].
      rewrite IHl, IHr by set_solver. done. }
    rewrite E0. destruct (IHr _ _ _ Hr H2) as (c' & l' & r' & q & n' & E & Hn & Hq & Ee); [set_solver|].
    exists c', l', r', q, n'. split_and!; try done. rewrite Ee. simpl. simplify_list_eq. done.
Qed.

Lemma locate_here x t : forall p node q, locate x t p = Some (node, q) -> plug node q = plug t p /\ node_of node = Some x.
Proof.
  induction t as [|c l IHl y r IHr]; intros p node q E; [done|]. simpl in E. destruct (Z.eqb_spec y x) as [->|].
  - injection E as <- <-. done.
  - destruct (locate x l _) as [z|] eqn:El; [injection E as ->; by apply IHl in El|by apply IHr in E].
Qed.

(** ** Insertion and removal on whole trees *)

Lemma insert_ok go_left x t :
  wf t -> (forall y, y ∈ elements t -> is_Some (go_left y)) ->
  exists t' ll rr, insert go_left x t = Some t' /\ wf t' /\ elements t = ll ++ rr /\ elements t' = ll ++ x :: rr /\
    (forall y, last ll = Some y -> go_left y = Some false) /\ (forall y, head rr = Some y -> go_left y = Some true).
Proof.
  intros [n Ht] Hg. destruct (descend_ok go_left t [] Black n Hg Ht) as (q & E & Hq & ll & rr & E1 & E2 & E3 & E4 & E5); [constructor|].
  unfold insert, rb_insert_color. rewrite E. cbn [mbind option_bind].
  destruct (insert_loop_ok (length q) q (rb_link_node x) 0) as (root & c & m & Er & Hr & Ee); [lia|unfold rb_link_node; auto with rbt|done|].
  rewrite Er. cbn [mbind option_bind]. rewrite E2, E3, app_nil_r in Ee. simpl in Ee.
  destruct root as [|c' l y r]; [by destruct ll|]. simpl. exists (Node Black l y r), ll, rr. split; [done|]. split; [|done].
  destruct (rb_blacken _ _ _ Hr) as [m' Hm']. by exists m'.
Qed.

Lemma erase_ok x t :
  wf t -> x ∈ elements t ->
  exists t' ll rr, erase x t = Some t' /\ wf t' /\ elements t = ll ++ x :: rr /\ elements t' = ll ++ rr.
Proof.
  intros [n Ht] Hx. destruct (locate_ok x t [] Black n Ht ltac:(constructor) Hx) as (c & l & r & q & m & E & Hn & Hq & Ee).
  unfold erase. rewrite E. cbn [mbind option_bind]. destruct (rb_erase_ok c l x r q m Hn Hq) as (root & Er & Hw & Eroot).
  exists root, (before q ++ elements l), (elements r ++ after q). split; [done|]. split; [done|]. simpl in Ee. rewrite app_nil_r in Ee.
  rewrite <- Ee, Eroot. simplify_list_eq. done.
Qed.

(** Insertion: for a tree that satisfies the red-black invariant and a caller that
    can decide at each of its nodes, the result satisfies the invariant and has one node
    more, at the place where the caller's decisions lead: right of the last node at which
    it went right and left of the first at which it went left. *)
Theorem rb_insert_correct go_left x t :
  wf t -> (forall y, y ∈ elements t -> is_Some (go_left y)) ->
  exists t' ll rr, insert go_left x t = Some t' /\ wf t' /\ elements t = ll ++ rr /\ elements t' = ll ++ x :: rr /\
    (forall y, last ll = Some y -> go_left y = Some false) /\ (forall y, head rr = Some y -> go_left y = Some true).
Proof. apply insert_ok. Qed.

(** C7. Removal: taking a node out of a tree that satisfies the red-black invariant never
    follows a null pointer, gives a tree that satisfies it, and leaves the other nodes in
    their order. *)
Theorem rb_erase_correct x t :
  wf t -> x ∈ elements t ->
  exists t' ll rr, erase x t = Some t' /\ wf t' /\ elements t = ll ++ x :: rr /\ elements t' = ll ++ rr.
Proof. apply erase_ok. Qed.

(** ** Walking *)

Lemma leftmost_head t : node_of (fst (leftmost t [])) = head (elements t).
Proof.
  induction t as [|c l IHl x r IHr]; [done|]. destruct l as [|c' l' x' r']; [done|].
  change (leftmost (Node c (Node c' l' x' r') x r) []) with (leftmost (Node c' l' x' r') [mkframe L c x r]).
  rewrite leftmost_app. cbn [fst]. rewrite IHl. simpl. by destruct (elements l').
Qed.

Lemma rightmost_app t : forall p, fst (rightmost t p) = fst (rightmost t []).
Proof.
  induction t as [|c l IHl x r IHr]; intros p; [done|]. destruct r as [|c' l' x' r']; [done|].
  change (rightmost (Node c l x (Node c' l' x' r')) p) with (rightmost (Node c' l' x' r') (mkframe R c x l :: p)).
  change (rightmost (Node c l x (Node c' l' x' r')) []) with (rightmost (Node c' l' x' r') [mkframe R c x l]).
  by rewrite IHr, (IHr [_]).
Qed.

Lemma rightmost_last t : node_of (fst (rightmost t [])) = last (elements t).
Proof.
  induction t as [|c l IHl x r IHr]; [done|]. destruct r as [|c' l' x' r'].
  - simpl. by rewrite last_app.
  - change (rightmost (Node c l x (Node c' l' x' r')) []) with (rightmost (Node c' l' x' r') [mkframe R c x l]).
    rewrite rightmost_app, IHr. change (elements (Node c l x (Node c' l' x' r'))) with (elements l ++ x :: elements (Node c' l' x' r')).
    rewrite last_app, last_cons. destruct (last (elements (Node c' l' x' r'))) eqn:E; [done|].
    apply last_None in E. simpl in E. by destruct (elements l').
Qed.

Lemma up_from_R p : up_from R p = head (after p).
Proof. induction p as [|[d c x o] p IH]; [done|]. simpl. by destruct d. Qed.

Lemma up_from_L p : up_from L p = last (before p).
Proof.
  induction p as [|[d c x o] p IH]; [done|]. simpl. destruct d; simpl; [by rewrite app_nil_r|].
  by rewrite app_assoc, last_snoc.
Qed.

(** Walking: [rb_first] and [rb_last] are the first and the last node, and from any
    node [rb_next] and [rb_prev] lead to its neighbours in the order of the tree. *)
Theorem rb_walk_correct t x node q :
  locate x t [] = Some (node, q) ->
  rb_first t = head (elements t) /\ rb_last t = last (elements t) /\
  exists ll rr, elements t = ll ++ x :: rr /\ rb_next node q = head rr /\ rb_prev node q = last ll.
Proof.
  intros E. split; [apply leftmost_head|]. split; [apply rightmost_last|].
  destruct (locate_here _ _ _ _ _ E) as [Hp Hx]. destruct node as [|c l y r]; [done|]. injection Hx as ->.
  exists (before q ++ elements l), (elements r ++ after q). simpl in Hp.
  split; [rewrite <- Hp, elements_plug; simpl; simplify_list_eq; done|]. split.
  - destruct r as [|c' rl z rr]; [apply up_from_R|]. cbn [rb_next]. rewrite leftmost_head. simpl. by destruct (elements rl).
  - destruct l as [|c' ll z lr]; [simpl; rewrite app_nil_r; apply up_from_L|]. cbn [rb_prev]. rewrite rightmost_last, last_app.
    destruct (last (elements (Node c' ll z lr))) eqn:El; [done|]. apply last_None in El. simpl in El. by destruct (elements ll).
Qed.

(** ** Depth *)

Fixpoint depth (t : tree) : nat := match t with Leaf => 0 | Node _ l _ r => S (Nat.max (depth l) (depth r)) end.

Lemma rb_size t c n : rb t c n -> (2 ^ n <= S (length (elements t)))%nat.
Proof. induction 1; simpl in *; rewrite ?length_app; simpl; lia. Qed.

Lemma rb_depth t c n : rb t c n -> (depth t <= match c with Red => S (2 * n) | Black => 2 * n end)%nat.
Proof. induction 1; simpl in *; try lia. destruct cl, cr; lia. Qed.

(** A tree of [m] nodes that satisfies the invariant has at most [2 log2 (m + 1)]
    levels, so that every operation takes logarithmic time. *)
Theorem rb_depth_bound t : wf t -> (depth t <= 2 * Nat.log2 (S (length (elements t))))%nat.
Proof.
  intros [n Ht]. pose proof (rb_size _ _ _ Ht) as Hs. pose proof (rb_depth _ _ _ Ht) as Hd. simpl in Hd.
  apply Nat.log2_le_mono in Hs. rewrite Nat.log2_pow2 in Hs by lia. lia.
Qed.

(** Nodes 1 to 6 inserted in order, the comparison on the addresses themselves. *)
Definition ex_insert (t : tree) (x : Z) : tree := default Leaf (insert (fun y => Some (x <? y)) x t).
Definition ex_tree : tree := fold_left ex_insert [1; 2; 3; 4; 5; 6] Leaf.

Lemma ex_tree_wf : wf ex_tree.
Proof. exists 2%nat. vm_compute. repeat econstructor. Qed.

Lemma rb_insert_correct_witness :
  exists t', insert (fun y => Some (7 <? y)) 7 ex_tree = Some t' /\ wf t' /\ elements t' = [1; 2; 3; 4; 5; 6; 7].
Proof.
  destruct (rb_insert_correct (fun y => Some (7 <? y)) 7 ex_tree) as (t' & ll & rr & E & W & _ & _); [exact ex_tree_wf|by eexists|].
  exists t'. split; [exact E|]. split; [exact W|]. vm_compute in E. injection E as <-. reflexivity.
Defined.

Lemma rb_erase_correct_witness :
  exists t', erase 2 ex_tree = Some t' /\ wf t' /\ elements t' = [1; 3; 4; 5; 6].
Proof.
  destruct (rb_erase_correct 2 ex_tree) as (t' & ll & rr & E & W & _ & _); [exact ex_tree_wf|vm_compute; set_solver|].
  exists t'. split; [exact E|]. split; [exact W|]. vm_compute in E. injection E as <-. reflexivity.
Defined.

Lemma rb_walk_correct_witness :
  exists node q, locate 3 ex_tree [] = Some (node, q) /\ rb_next node q = Some 4 /\ rb_first ex_tree = Some 1.
Proof.
  destruct (locate 3 ex_tree []) as [[node q]|] eqn:E; [|vm_compute in E; discriminate].
  destruct (rb_walk_correct ex_tree 3 node q E) as (H1 & _ & _). exists node, q. split; [reflexivity|].
  split; [vm_compute in E; injection E as <- <-; reflexivity|rewrite H1; reflexivity].
Defined.

Lemma rb_depth_bound_witness : wf ex_tree /\ (depth ex_tree <= 4)%nat.
Proof. split; [exact ex_tree_wf|]. exact (rb_depth_bound ex_tree ex_tree_wf). Defined.

End Rbtree.
