(* ===== verification/OrdTree.v ===== *)
(** * Ordered trees

    What the users of lib/rbtree.c keep in common: a tree whose nodes are in the order of a
    key that the user reads from the objects the nodes are embedded in.  The search loop of
    the users, and insertion and removal with the order in view. *)
From stdpp Require Import sorting.
From S2P Require Import Prelude Rbtree.

Module OrdTree.

(** The tree satisfies the red-black invariant and holds exactly the objects in [P], once
    each, in the order [R]. *)
Record tree_ok (t : Rbtree.tree) (P : Z -> Prop) (R : Z -> Z -> Prop) : Prop := {
  to_wf : Rbtree.wf t;
  to_elems : forall a, a ∈ Rbtree.elements t <-> P a;
  to_nodup : NoDup (Rbtree.elements t);
  to_sorted : StronglySorted R (Rbtree.elements t) }.

Lemma sorted_app_inv {A} (Rel : A -> A -> Prop) l1 x l2 :
  StronglySorted Rel (l1 ++ x :: l2) ->
  StronglySorted Rel l1 /\ StronglySorted Rel l2 /\ (forall y, y ∈ l1 -> Rel y x) /\ (forall y, y ∈ l2 -> Rel x y).
Proof.
  induction l1 as [|a l1 IH]; simpl; intros H; inversion H as [|? ? Hs Hf]; subst; rewrite Forall_forall in Hf.
  - split; [constructor|]. split; [done|]. split; [set_solver|done].
  - destruct (IH Hs) as (H1 & H2 & H3 & H4). split_and!; try done.
    + constructor; [done|]. apply Forall_forall. intros y Hy. apply Hf. set_solver.
    + intros y [->|Hy]%elem_of_cons; [apply Hf; set_solver|auto].
Qed.

Lemma sorted_insert {A} (Rel : A -> A -> Prop) `{!Transitive Rel} ll x rr :
  StronglySorted Rel (ll ++ rr) -> (forall y, last ll = Some y -> Rel y x) -> (forall y, head rr = Some y -> Rel x y) ->
  StronglySorted Rel (ll ++ x :: rr).
Proof.
  induction ll as [|a ll IH]; simpl; intros Hs H1 H2.
  - constructor; [done|]. destruct rr as [|y rr]; constructor; [by apply H2|]. inversion Hs as [|? ? _ Hf]. subst.
    eapply Forall_impl; [exact Hf|]. intros z Hz. etrans; [by apply H2|done].
  - inversion Hs as [|? ? Hs' Hf]. subst. assert (Hax : Rel a x).
    { destruct ll as [|b ll]; [by apply H1|]. destruct (last (b :: ll)) as [y|] eqn:E; [|by apply last_None in E].
      transitivity y; [|by apply H1; rewrite last_cons, E]. rewrite Forall_forall in Hf. apply Hf, elem_of_app. left. by apply last_Some_elem_of. }
    constructor.
    + apply IH; [done| |done]. intros y Hy. apply H1. rewrite last_cons, Hy. done.
    + rewrite Forall_app in *. destruct Hf. split; [done|]. by constructor.
Qed.

(** Taking an element out of a list, as [list_del] does *)
Lemma filter_ne_id (x : Z) (l : list Z) : x ∉ l -> filter (fun y => y <> x) l = l.
Proof. induction l as [|y l IH]; intros H; [done|]. rewrite filter_cons_True by set_solver. f_equal. apply IH. set_solver. Qed.

Lemma tree_ok_ext t (P P' : Z -> Prop) (R R' : Z -> Z -> Prop) :
  tree_ok t P R -> (forall a, P a <-> P' a) -> (forall a b, P a -> P b -> R a b -> R' a b) -> tree_ok t P' R'.
Proof.
  intros [Hw He Hn Hs] HP HR. split; [done| |done|]; [intros a; by rewrite He|].
  assert (Hin : forall a, a ∈ Rbtree.elements t -> P a) by (intros; by apply He). clear He Hw Hn.
  induction Hs as [|a l Hs IH Hf]; constructor; [apply IH; set_solver|]. rewrite Forall_forall in *. intros b Hb.
  apply HR; [set_solver|set_solver|auto].
Qed.

Lemma tree_insert t P R `{!Transitive R} go_left x :
  tree_ok t P R -> ~ P x ->
  (forall y, P y -> exists c, go_left y = Some c /\ if (c : bool) then R x y else R y x) ->
  exists t', Rbtree.insert go_left x t = Some t' /\ tree_ok t' (fun a => a = x \/ P a) R.
Proof.
  intros [Hw He Hn Hs] Hx Hg.
  destruct (Rbtree.insert_ok go_left x t Hw) as (t' & ll & rr & E & Hw' & E1 & E2 & Hl & Hr).
  { intros y Hy. apply He in Hy. destruct (Hg y Hy) as (c & -> & _). by eexists. }
  exists t'. split; [done|]. rewrite E1 in *. split; [done| | |].
  - intros a. rewrite E2. rewrite <- He, !elem_of_app, elem_of_cons. tauto.
  - rewrite E2, <- Permutation_middle. apply NoDup_cons. split; [by rewrite He|done].
  - rewrite E2. apply sorted_insert; [done|done| |]; intros y Hy.
    + destruct (Hg y) as (c & Ec & HR); [|rewrite (Hl y Hy) in Ec; by injection Ec as <-]. apply He, elem_of_app. left. by apply last_Some_elem_of.
    + destruct (Hg y) as (c & Ec & HR); [|rewrite (Hr y Hy) in Ec; by injection Ec as <-]. apply He, elem_of_app. right. destruct rr; [done|].
      injection Hy as ->. set_solver.
Qed.

Lemma tree_erase t P R x :
  tree_ok t P R -> P x -> exists t', Rbtree.erase x t = Some t' /\ tree_ok t' (fun a => P a /\ a <> x) R.
Proof.
  intros [Hw He Hn Hs] Hx. destruct (Rbtree.erase_ok x t Hw (proj2 (He x) Hx)) as (t' & ll & rr & E & Hw' & E1 & E2).
  exists t'. split; [done|]. rewrite E1 in *. destruct (sorted_app_inv _ _ _ _ Hs) as (S1 & S2 & S3 & S4).
  pose proof Hn as Hn'. rewrite <- Permutation_middle in Hn'. apply NoDup_cons in Hn' as [Hnx Hn']. split; [done| | |].
  - intros a. rewrite E2, <- He, elem_of_app, elem_of_app, elem_of_cons. rewrite elem_of_app in Hnx. naive_solver.
  - by rewrite E2.
  - rewrite E2. clear -Hs. induction ll as [|a ll IH]; simpl in *; inversion Hs as [|? ? Hs' Hf]; subst; [done|]. constructor; [auto|].
    rewrite Forall_app, Forall_cons in *. tauto.
Qed.

Lemma tree_ok_length t t' (P : Z -> Prop) R R' x :
  tree_ok t P R -> P x -> tree_ok t' (fun a => P a /\ a <> x) R' -> length (Rbtree.elements t) = S (length (Rbtree.elements t')).
Proof.
  intros [_ He Hn _] Hx [_ He' Hn' _]. assert (HP : Rbtree.elements t ≡ₚ x :: Rbtree.elements t'); [|by rewrite HP].
  apply NoDup_Permutation; [done|apply NoDup_cons; split; [rewrite He'; tauto|done]|]. intros a. rewrite elem_of_cons, He, He'. destruct (decide (a = x)) as [->|]; tauto.
Qed.

Lemma tree_first t P R : tree_ok t P R -> Rbtree.rb_first t = head (Rbtree.elements t) /\ (forall x, Rbtree.rb_first t = Some x -> P x) /\ (Rbtree.rb_first t = None -> forall x, ~ P x).
Proof.
  intros [_ He _ _]. assert (E : Rbtree.rb_first t = head (Rbtree.elements t)) by apply Rbtree.leftmost_head. rewrite E. split; [done|]. split.
  - intros x Hx. apply He. destruct (Rbtree.elements t); [done|]. injection Hx as ->. set_solver.
  - intros H x Hx. apply He in Hx. destruct (Rbtree.elements t); [set_solver|done].
Qed.


(** ** Searching

    The loop that the users write out: at each node [cmp] says whether the key is smaller
    ([Lt], go left), larger or found. *)
Fixpoint search (cmp : Z -> option comparison) (n : Rbtree.tree) : option (option Z) :=
  match n with
  | Rbtree.Leaf => Some None
  | Rbtree.Node _ l x r =>
      c ← cmp x;
      match c with Lt => search cmp l | Gt => search cmp r | Eq => Some (Some x) end
  end.

(** The order of a key. *)
Definition by_key (key : Z -> Z) (a b : Z) : Prop := key a < key b.

#[export] Instance by_key_trans key : Transitive (by_key key).
Proof. intros a b c. unfold by_key. lia. Qed.

Lemma search_sorted cmp key k t :
  (forall x, x ∈ Rbtree.elements t -> cmp x = Some (k ?= key x)) -> StronglySorted (by_key key) (Rbtree.elements t) ->
  exists r, search cmp t = Some r /\ forall x, r = Some x <-> x ∈ Rbtree.elements t /\ key x = k.
Proof.
  induction t as [|c l IHl y r IHr]; intros Hc Hs; simpl in *.
  - exists None. split; [done|]. intros x. split; [done|]. intros [H _]. set_solver.
  - destruct (sorted_app_inv _ _ _ _ Hs) as (S1 & S2 & S3 & S4). unfold by_key in S3, S4.
    destruct (IHl ltac:(intros; apply Hc; set_solver) S1) as (rl & El & Hl). destruct (IHr ltac:(intros; apply Hc; set_solver) S2) as (rr & Er & Hr).
    rewrite (Hc y) by set_solver. cbn [mbind option_bind]. setoid_rewrite elem_of_app. setoid_rewrite elem_of_cons. destruct (Z.compare_spec k (key y)) as [Ek|Hlt|Hgt].
    + exists (Some y). split; [done|]. intros x. split; [intros [= <-]; auto|]. intros [[Hx|[->|Hx]] Hk]; [specialize (S3 x Hx); lia|done|specialize (S4 x Hx); lia].
    + exists rl. split; [done|]. intros x. rewrite Hl. split; [tauto|]. intros [[Hx|[->|Hx]] Hk]; [done|lia|specialize (S4 x Hx); lia].
    + exists rr. split; [done|]. intros x. rewrite Hr. split; [tauto|]. intros [[Hx|[->|Hx]] Hk]; [specialize (S3 x Hx); lia|lia|done].
Qed.

Lemma tree_search t P key cmp k :
  tree_ok t P (by_key key) -> (forall x, P x -> cmp x = Some (k ?= key x)) ->
  exists r, search cmp t = Some r /\ forall x, r = Some x <-> P x /\ key x = k.
Proof.
  intros [_ He _ Hs] Hc. destruct (search_sorted cmp key k t) as (r & E & Hr); [intros; apply Hc; by apply He|done|].
  exists r. split; [done|]. intros x. rewrite Hr, He. done.
Qed.

(** Searching where [cmp] and the order of the tree agree, whatever the key is *)
Lemma search_order cmp (R : Z -> Z -> Prop) t :
  (forall x, x ∈ Rbtree.elements t -> is_Some (cmp x)) -> StronglySorted R (Rbtree.elements t) ->
  (forall x y, x ∈ Rbtree.elements t -> y ∈ Rbtree.elements t -> R x y -> (cmp y = Some Gt \/ cmp y = Some Eq -> cmp x = Some Gt) /\ (cmp x = Some Lt \/ cmp x = Some Eq -> cmp y = Some Lt)) ->
  exists r, search cmp t = Some r /\ forall x, r = Some x <-> x ∈ Rbtree.elements t /\ cmp x = Some Eq.
Proof.
  induction t as [|c l IHl y r IHr]; intros Hc Hs Ho; simpl in *.
  - exists None. split; [done|]. intros x. split; [done|]. intros [H _]. set_solver.
  - destruct (sorted_app_inv _ _ _ _ Hs) as (S1 & S2 & S3 & S4). destruct (Hc y ltac:(set_solver)) as [d Ed].
    destruct (IHl ltac:(intros; apply Hc; set_solver) S1 ltac:(intros; apply Ho; set_solver)) as (rl & El & Hl). destruct (IHr ltac:(intros; apply Hc; set_solver) S2 ltac:(intros; apply Ho; set_solver)) as (rr & Er & Hr).
    assert (Ol : forall x, x ∈ Rbtree.elements l -> d <> Lt -> cmp x = Some Gt) by (intros x Hx Hd; apply (Ho x y); [set_solver|set_solver|auto|rewrite Ed; destruct d; auto; done]).
    assert (Or : forall x, x ∈ Rbtree.elements r -> d <> Gt -> cmp x = Some Lt) by (intros x Hx Hd; apply (Ho y x); [set_solver|set_solver|auto|rewrite Ed; destruct d; auto; done]).
    rewrite Ed. cbn [mbind option_bind]. setoid_rewrite elem_of_app. setoid_rewrite elem_of_cons. destruct d.
    + exists (Some y). split; [done|]. intros x. split; [intros [= <-]; auto|]. intros [[Hx|[->|Hx]] Hk]; [rewrite Ol in Hk by done|done|rewrite Or in Hk by done]; done.
    + exists rl. split; [done|]. intros x. rewrite Hl. split; [tauto|]. intros [[Hx|[->|Hx]] Hk]; [done|congruence|rewrite Or in Hk by done; done].
    + exists rr. split; [done|]. intros x. rewrite Hr. split; [tauto|]. intros [[Hx|[->|Hx]] Hk]; [rewrite Ol in Hk by done; done|congruence|done].
Qed.

End OrdTree.
