(* ===== verification/UserWakelock.v ===== *)
(** * kernel/power/userwakelock.c: wake locks of user space

    The files wake_lock and wake_unlock: writing a name, with or without a time in
    nanoseconds, takes or releases a wake lock of that name, reading lists the names of the
    locks that are or are not active.  The locks are in a red-black tree ordered by name.

    The strings are in the byte memory of lib/string.c: the buffer of the file, and the name
    at the end of each structure.  The other two members of a structure are its place in the
    tree and its wake lock, in the state of [Wakelock] under the same address.  The size of
    the structure, the address that [kzalloc] returns and the clocks are arguments.  Both
    files work under [tree_lock].  Messages are left out. *)
From stdpp Require Import sorting strings.
From S2P Require Import Prelude Bitops Memcopy Ctype CString Number Addrstr Vsprintf Rbtree OrdTree Wakelock.
Import Bitops Memcopy Ctype CString Number Addrstr Vsprintf.

Module UserWakelock.

Definition NSEC_PER_SEC : Z := 1000000000.

Record state := mkstate { mem : list Z; user_wake_locks : Rbtree.tree; wakelocks : Wakelock.state }.

Section code.
Context (symbol : Z -> Z -> list Z) (TICK_NSEC : Z).
(** [sizeof(struct user_wake_lock)] *)
Context (sizeof_lock : Z).

(** [l->name] and [&l->wake_lock] *)
Definition lock_name (l : Z) : Z := l + sizeof_lock.
Definition lock_of (l : Z) : nat := Z.to_nat l.

(** To the end of the name: a blank or the NUL *)
Fixpoint skip_name (fuel : nat) (m : list Z) (arg : Z) : option Z :=
  match fuel with
  | O => None
  | S fuel => c ← load_byte m arg; if negb (c =? 0) && negb (isspace c) then skip_name fuel m (arg + 1) else Some arg
  end.

(** To the next character that is not a blank *)
Fixpoint skip_spaces (fuel : nat) (m : list Z) (arg : Z) : option Z :=
  match fuel with
  | O => None
  | S fuel => c ← load_byte m arg; if isspace c then skip_spaces fuel m (arg + 1) else Some arg
  end.

(** Nanoseconds as jiffies, at least one, in a [long] *)
Definition timeout_jiffies (timeout : Z) : Z :=
  let timeout := wrap 64 (timeout + (NSEC_PER_SEC / Wakelock.HZ - 1)) in
  let timeout := timeout / (NSEC_PER_SEC / Wakelock.HZ) in
  s32 (if timeout <=? 0 then 1 else timeout).

(** The arguments: the length of the name and the timeout, 0 if there is none; [None] in
    the place of the answer is [bad_arg]. *)
Definition parse_args (m : list Z) (buf : Z) (timeoutptr : bool) : option (option (Z * Z)) :=
  arg ← skip_name (fuel_of m) m buf;
  let name_len := arg - buf in
  if name_len =? 0 then Some None
  else
    arg ← skip_spaces (fuel_of m) m arg;
    c ← load_byte m arg;
    if timeoutptr && negb (c =? 0) then
      '(timeout, arg) ← simple_strtoull m arg 0;
      arg ← skip_spaces (fuel_of m) m arg;
      c ← load_byte m arg;
      if negb (c =? 0) then Some None else Some (Some (name_len, timeout_jiffies timeout))
    else if negb (c =? 0) then Some None
    else Some (Some (name_len, 0)).

(** Where the name is compared with the lock [l] *)
Definition compare_name (m : list Z) (buf name_len l : Z) : option comparison :=
  diff ← strncmp m buf (lock_name l) name_len;
  diff ← (if diff =? 0 then c ← load_byte m (lock_name l + name_len); Some (if negb (c =? 0) then -1 else diff) else Some diff);
  Some (if diff <? 0 then Lt else if 0 <? diff then Gt else Eq).

(** The lock, or the place at which it belongs *)
Fixpoint lookup_loop (m : list Z) (buf name_len : Z) (t : Rbtree.tree) (p : Rbtree.path) : option (Z + Rbtree.path) :=
  match t with
  | Rbtree.Leaf => Some (inr p)
  | Rbtree.Node c tl x tr =>
      d ← compare_name m buf name_len x;
      match d with
      | Lt => lookup_loop m buf name_len tl (Rbtree.mkframe Rbtree.L c x tr :: p)
      | Gt => lookup_loop m buf name_len tr (Rbtree.mkframe Rbtree.R c x tl :: p)
      | Eq => Some (inl x)
      end
  end.

(** The zeroed structure: its bytes, and its wake lock *)
Definition kzalloc_lock (s : state) (l size : Z) : option state :=
  '(_, m) ← memset (mem s) l 0 size;
  let zero := Wakelock.mklock 0 None 0 (Wakelock.mkstat 0 0 0 0 0 0 0) in
  Some (mkstate m (user_wake_locks s) (Wakelock.set_locks (wakelocks s) (<[lock_of l := zero]> (Wakelock.locks (wakelocks s))))).

Definition bytes_string (bs : list Z) : String.string := String.string_of_list_ascii (List.map (fun c => Ascii.ascii_of_nat (Z.to_nat c)) bs).

(** The error, or the lock and the timeout.  [kzalloc] is the address of the new structure,
    [None] if there is no memory. *)
Definition lookup_wake_lock_name (kzalloc : option Z) (s : state) (buf : Z) (allocate timeoutptr : bool) : option (state * (Z + Z * Z)) :=
  r ← parse_args (mem s) buf timeoutptr;
  match r with
  | None => Some (s, inl (- EINVAL))
  | Some (name_len, timeout) =>
      r ← lookup_loop (mem s) buf name_len (user_wake_locks s) [];
      match r with
      | inl l => Some (s, inr (l, timeout))
      | inr p =>
          if negb allocate then Some (s, inl (- EINVAL))
          else
            match kzalloc with
            | None => Some (s, inl (- ENOMEM))
            | Some l =>
                s ← kzalloc_lock s l (sizeof_lock + name_len + 1);
                '(_, m) ← memcpy (mem s) (lock_name l) buf name_len;
                nm ← read_bytes m (lock_name l) name_len;
                w ← Wakelock.wake_lock_init (wakelocks s) (lock_of l) Wakelock.WAKE_LOCK_SUSPEND (Some (bytes_string nm));
                root ← Rbtree.rb_insert_color (Rbtree.rb_link_node l) p;
                Some (mkstate m root w, inr (l, timeout))
            end
      end
  end.

Section now.
Context (clk : Wakelock.clock).

Definition wake_lock_store (kzalloc : option Z) (s : state) (buf n : Z) : option (state * Z) :=
  '(s, r) ← lookup_wake_lock_name kzalloc s buf true true;
  match r with
  | inl err => Some (s, err)
  | inr (l, timeout) =>
      w ← (if negb (timeout =? 0) then Wakelock.wake_lock_timeout TICK_NSEC clk (wakelocks s) (lock_of l) timeout
           else Wakelock.wake_lock_ TICK_NSEC clk (wakelocks s) (lock_of l));
      Some (mkstate (mem s) (user_wake_locks s) w, n)
  end.

Definition wake_unlock_store (s : state) (buf n : Z) : option (state * Z) :=
  '(s, r) ← lookup_wake_lock_name None s buf false false;
  match r with
  | inl err => Some (s, err)
  | inr (l, _) =>
      w ← Wakelock.wake_unlock TICK_NSEC clk (wakelocks s) (lock_of l);
      Some (mkstate (mem s) (user_wake_locks s) w, n)
  end.

End now.

(** "%s " *)
Definition name_format : list Z := [37; 115; 32].

(** The loop over the tree, from the node [n] on; [active] are the locks that are listed. *)
Fixpoint show_loop (fuel : nat) (active : bool) (st : state) (m : list Z) (s end_ : Z) (n : option Z) : option (list Z * Z) :=
  match n with
  | None => Some (m, s)
  | Some l =>
      match fuel with
      | O => None
      | S fuel =>
          b ← Wakelock.wake_lock_active (wakelocks st) (lock_of l);
          '(m, s) ← (if Bool.eqb b active then '(m, k) ← scnprintf symbol m s (u32 (end_ - s)) name_format [Word (lock_name l)]; Some (m, s + k) else Some (m, s));
          '(node, p) ← Rbtree.locate l (user_wake_locks st) [];
          show_loop fuel active st m s end_ (Rbtree.rb_next node p)
      end
  end.

Definition show (active : bool) (st : state) (buf : Z) : option (state * Z) :=
  let end_ := buf + PAGE_SIZE in
  '(m, s) ← show_loop (length (Rbtree.elements (user_wake_locks st))) active st (mem st) buf end_ (Rbtree.rb_first (user_wake_locks st));
  '(m, k) ← scnprintf symbol m s (u32 (end_ - s)) [10] [];
  Some (mkstate m (user_wake_locks st) (wakelocks st), s + k - buf).

Definition wake_lock_show (st : state) (buf : Z) : option (state * Z) := show true st buf.
Definition wake_unlock_show (st : state) (buf : Z) : option (state * Z) := show false st buf.

End code.


(** ** What is written to the files *)

(** The name: everything up to a blank *)
Fixpoint name_part (T : list Z) : list Z :=
  match T with [] => [] | c :: T => if isspace c then [] else c :: name_part T end.

Fixpoint trim (T : list Z) : list Z :=
  match T with [] => [] | c :: T' => if isspace c then trim T' else T end.

(** The name and the timeout that a text asks for *)
Definition request (timeoutptr : bool) (T : list Z) : option (list Z * Z) :=
  let nm := name_part T in
  let arg := trim (drop (length nm) T) in
  if bool_decide (nm = []) then None
  else if bool_decide (arg = []) then Some (nm, 0)
  else if timeoutptr && bool_decide (trim (drop (Z.to_nat (snd (parse 64 0 arg))) arg) = []) then Some (nm, timeout_jiffies (fst (parse 64 0 arg)))
  else None.

Lemma skip_name_ok m T : forall a fuel, cstr m a T -> (length T < fuel)%nat -> skip_name fuel m a = Some (a + zlen (name_part T)).
Proof.
  induction T as [|c T IH]; intros a fuel H Hf; (destruct fuel as [|fuel]; [simpl in Hf; lia|]); cbn [skip_name name_part cstr] in *.
  - rewrite H. cbn [mbind option_bind]. change (zlen []) with 0. by rewrite Z.add_0_r.
  - destruct H as (-> & Hc & H). cbn [mbind option_bind]. destruct (Z.eqb_spec c 0); [done|]. destruct (isspace c); cbn [negb andb]; [change (zlen []) with 0; by rewrite Z.add_0_r|]. rewrite IH by (done || simpl in Hf; lia). rewrite zlen_cons. f_equal. lia.
Qed.

Lemma skip_spaces_ok m T : forall a fuel, cstr m a T -> (length T < fuel)%nat -> exists e, skip_spaces fuel m a = Some e /\ cstr m e (trim T).
Proof.
  induction T as [|c T IH]; intros a fuel H Hf; (destruct fuel as [|fuel]; [simpl in Hf; lia|]); cbn [skip_spaces trim].
  - simpl in H. rewrite H. exists a. done.
  - pose proof H as (Hl & Hc & Ht). rewrite Hl. cbn [mbind option_bind]. destruct (isspace c); [apply IH; [done|simpl in Hf; lia]|by exists a].
Qed.

Lemma cstr_is_nil m a T : cstr m a T -> exists c, load_byte m a = Some c /\ negb (c =? 0) = negb (bool_decide (T = [])).
Proof.
  destruct T as [|c T]; intros H; [exists 0; by split|]. destruct H as (Hl & Hc & _). exists c. split; [done|]. by destruct (Z.eqb_spec c 0).
Qed.

Lemma name_part_prefix T : exists R, T = name_part T ++ R.
Proof. induction T as [|c T [R IH]]; [by exists []|]. cbn [name_part]. destruct (isspace c); [by exists (c :: T)|]. exists R. cbn [app]. by f_equal. Qed.

Lemma parse_args_ok m buf T w : cstr m buf T -> parse_args m buf w = Some (option_map (fun '(nm, t) => (zlen nm, t)) (request w T)).
Proof.
  intros Hc. unfold parse_args, request. pose proof (cstr_fuel m buf T Hc) as Hf. rewrite (skip_name_ok m T buf _ Hc Hf). cbn [mbind option_bind]. set (nm := name_part T). replace (buf + zlen nm - buf) with (zlen nm) by lia. destruct (name_part_prefix T) as [R ET]. fold nm in ET.
  destruct (Z.eqb_spec (zlen nm) 0) as [E0|E0]; [rewrite bool_decide_eq_true_2 by (destruct nm; [done|rewrite zlen_cons in E0; pose proof (zlen_nonneg nm); lia]); done|]. rewrite bool_decide_eq_false_2 by (intros E; by rewrite E in E0).
  pose proof (cstr_drop m buf T (zlen nm) Hc ltac:(rewrite ET, zlen_app; pose proof (zlen_nonneg nm); pose proof (zlen_nonneg R); lia)) as Hd. unfold zlen in Hd at 2. rewrite Nat2Z.id in Hd. destruct (skip_spaces_ok m _ _ (fuel_of m) Hd (cstr_fuel _ _ _ Hd)) as (e & -> & He). cbn [mbind option_bind]. set (arg := trim (drop (length nm) T)) in *.
  destruct (cstr_is_nil m e arg He) as (c & Ec & Ec'). rewrite Ec. cbn [mbind option_bind]. rewrite Ec'. case_bool_decide as Earg; cbn [negb]; rewrite ?andb_false_r, ?andb_true_r; [done|]. destruct w; cbn [andb]; [|done].
  unfold simple_strtoull. rewrite (simple_strto_ok 64 m e arg 0 ltac:(lia) He). cbn [mbind option_bind]. pose proof (cstr_drop m e arg _ He (parse_bounds 64 0 arg)) as Hd2. destruct (skip_spaces_ok m _ _ (fuel_of m) Hd2 (cstr_fuel _ _ _ Hd2)) as (e2 & -> & He2). cbn [mbind option_bind].
  destruct (cstr_is_nil m e2 _ He2) as (c2 & Ec2 & Ec2'). rewrite Ec2. cbn [mbind option_bind]. rewrite Ec2'. by case_bool_decide.
Qed.

(** ** The order of names *)

Definition name_lt (s t : list Z) : Prop := lexdiff (fun c => c) s t < 0.

Lemma name_lt_trans s t u : bytes1 s -> bytes1 t -> bytes1 u -> name_lt s t -> name_lt t u -> name_lt s u.
Proof.
  unfold name_lt. intros Hs. revert t u. induction Hs as [|c s Hc _ IH]; intros [|d t] [|e u] Ht Hu; simpl; repeat match goal with H : bytes1 (_ :: _) |- _ => inversion_clear H end; cbv beta in *; try lia.
  destruct (Z.eqb_spec c d) as [->|], (Z.eqb_spec d e) as [->|]; [by apply IH|lia|destruct (Z.eqb_spec c e); lia|destruct (Z.eqb_spec c e); lia].
Qed.

Lemma lexdiff_nil s t : bytes1 s -> bytes1 t -> lexdiff (fun c => c) s t = 0 <-> s = t.
Proof. intros Hs Ht. rewrite lexdiff_eq, !List.map_id by (done || lia). done. Qed.

(** Comparing as many characters as the name has, and looking at the next one *)
Lemma prefix_compare nm t : bytes1 nm -> bytes1 t ->
  let d := lexdiff (fun c => c) nm (take (length nm) t) in
  (lexdiff (fun c => c) nm t ?= 0) = (if d =? 0 then (if nth (length nm) t 0 =? 0 then Eq else Lt) else d ?= 0).
Proof.
  intros Hn. revert t. induction Hn as [|c nm Hc _ IH]; intros t Ht; (destruct Ht as [|d t Hd Ht]).
  - done.
  - simpl. destruct (Z.eqb_spec d 0); [lia|]. destruct (Z.compare_spec (- d) 0); (lia || done).
  - simpl. destruct (Z.eqb_spec c 0); [lia|]. done.
  - cbn [length take lexdiff nth]. destruct (Z.eqb_spec c d) as [->|]; [by apply IH|]. cbv zeta. destruct (Z.eqb_spec (c - d) 0); [lia|done].
Qed.


(** ** Searching by name *)

Section lookup.
Context (sizeof_lock : Z).

Lemma compare_name_ok m buf T l t : is_bytes m -> cstr m buf T -> cstr m (lock_name sizeof_lock l) t ->
  compare_name sizeof_lock m buf (zlen (name_part T)) l = Some (lexdiff (fun c => c) (name_part T) t ?= 0).
Proof.
  intros Hm HT Ht. pose proof (cstr_bytes m _ _ Hm HT) as HbT. pose proof (cstr_bytes m _ _ Hm Ht) as Hbt. destruct (name_part_prefix T) as [R ET]. set (nm := name_part T) in *. assert (Hbn : bytes1 nm) by (rewrite ET in HbT; by apply Forall_app in HbT as [? _]).
  rewrite (prefix_compare nm t Hbn Hbt). cbv zeta. assert (Es : strncmp m buf (lock_name sizeof_lock l) (zlen nm) = Some (Z.sgn (lexdiff (fun c => c) nm (take (length nm) t)))).
  { rewrite (strncmp_ok m Hm T t buf _ (zlen nm) HT Ht (zlen_nonneg _)). unfold lexcmp, zlen. rewrite Nat2Z.id. do 3 f_equal. rewrite ET. by rewrite take_app_length. }
  unfold compare_name. rewrite Es. cbn [mbind option_bind].
  set (d := lexdiff (fun c => c) nm (take (length nm) t)). destruct (Z.eqb_spec d 0) as [E|E].
  - rewrite E. change (Z.sgn 0 =? 0) with true. cbv iota. assert (En : nm = take (length nm) t) by (apply lexdiff_nil; [done|by apply Forall_take|done]). assert (Hle : (length nm <= length t)%nat) by (rewrite En, length_take; lia).
    unfold zlen. rewrite (cstr_nth m _ t _ Ht Hle). cbn [mbind option_bind]. by destruct (nth (length nm) t 0 =? 0).
  - destruct (Z.eqb_spec (Z.sgn d) 0); [lia|]. cbn [mbind option_bind]. destruct (Z.compare_spec d 0), (Z.ltb_spec (Z.sgn d) 0), (Z.ltb_spec 0 (Z.sgn d)); (lia || done).
Qed.

Lemma lookup_loop_search m buf k t : forall p, lookup_loop sizeof_lock m buf k t p =
  (r ← OrdTree.search (compare_name sizeof_lock m buf k) t;
   match r with Some x => Some (inl x) | None => inr <$> Rbtree.descend (fun y => c ← compare_name sizeof_lock m buf k y; Some (bool_decide (c = Lt))) t p end).
Proof.
  induction t as [|c tl IHl x tr IHr]; intros p; [done|]. cbn [lookup_loop OrdTree.search Rbtree.descend]. destruct (compare_name sizeof_lock m buf k x) as [[| |]|]; cbn [mbind option_bind]; [done|rewrite IHl|rewrite IHr|done]; done.
Qed.

End lookup.

(** ** The invariant *)

Section invariant.
Context (sizeof_lock : Z) (Hsize : 0 <= sizeof_lock).

(** [N] has the name of each lock. *)
Definition name_of (N : gmap Z (list Z)) (l : Z) : list Z := default [] (N !! l).

Definition before (N : gmap Z (list Z)) (l1 l2 : Z) : Prop := bytes1 (name_of N l1) /\ bytes1 (name_of N l2) /\ name_lt (name_of N l1) (name_of N l2).

#[export] Instance before_trans N : Transitive (before N).
Proof. intros a b c (H1 & H2 & H3) (_ & H4 & H5). split; [done|]. split; [done|]. by eapply (name_lt_trans _ (name_of N b)). Qed.

(** A lock of user space: its name has no blanks and fits in a page, and its wake lock keeps the machine from
    suspending. *)
Record lock_ok (s : state) (l : Z) (nm : list Z) : Prop := {
  lo_addr : PAGE_SIZE <= l;
  lo_name : cstr (mem s) (lock_name sizeof_lock l) nm;
  lo_word : nm <> [] /\ name_part nm = nm /\ zlen nm < PAGE_SIZE;
  lo_lock : exists v e, Wakelock.vw (wakelocks s) (lock_of l) = Some (v, e) /\ Wakelock.v_init v = true /\ Wakelock.v_type v = 0 }.

Record ok (s : state) (N : gmap Z (list Z)) : Prop := {
  ok_ram : ram (mem s);
  ok_wf : Wakelock.wf (wakelocks s);
  ok_main : is_Some (Wakelock.vw (wakelocks s) Wakelock.main_wake_lock);
  ok_tree : OrdTree.tree_ok (user_wake_locks s) (fun l => is_Some (N !! l)) (before N);
  ok_lock : forall l nm, N !! l = Some nm -> lock_ok s l nm }.

(** The memory of a lock *)
Definition apart (a n l : Z) (nm : list Z) : Prop := a + n <= l \/ l + sizeof_lock + zlen nm + 1 <= a.

Lemma lookup_found s N buf T : ok s N -> cstr (mem s) buf T ->
  let nm := name_part T in let cmp := compare_name sizeof_lock (mem s) buf (zlen nm) in
  (forall l n', N !! l = Some n' -> cmp l = Some (lexdiff (fun c => c) nm n' ?= 0)) /\
  exists r, OrdTree.search cmp (user_wake_locks s) = Some r /\ forall l, r = Some l <-> N !! l = Some nm.
Proof using Type.
  intros Hok HT nm cmp. pose proof (ok_ram _ _ Hok) as (Hb & _). assert (Hcmp : forall l n', N !! l = Some n' -> bytes1 n' /\ cmp l = Some (lexdiff (fun c => c) nm n' ?= 0)).
  { intros l n' Hl. pose proof (lo_name _ _ _ (ok_lock _ _ Hok l n' Hl)) as Hc. split; [by apply (cstr_bytes (mem s) _ _ Hb Hc)|]. by apply compare_name_ok. }
  assert (Hbn : bytes1 nm) by (destruct (name_part_prefix T) as [R ET]; pose proof (cstr_bytes _ _ _ Hb HT) as HbT; rewrite ET in HbT; by apply Forall_app in HbT as [? _]). split; [intros l n' Hl; by apply Hcmp|].
  destruct (ok_tree _ _ Hok) as [_ He _ Hs]. destruct (OrdTree.search_order cmp (before N) (user_wake_locks s)) as (r & E & Hr).
  - intros x [n' Hx]%He. destruct (Hcmp x n' Hx) as [_ ->]. by eexists.
  - done.
  - intros x y [nx Hx]%He [ny Hy]%He (_ & _ & Hlt). unfold name_of in Hlt. rewrite Hx, Hy in Hlt. simpl in Hlt. destruct (Hcmp x nx Hx) as [Bx ->], (Hcmp y ny Hy) as [By ->].
    assert (Hgt : forall u, (lexdiff (fun c => c) nm u ?= 0) = Gt <-> name_lt u nm) by (intros u; unfold name_lt; rewrite (lexdiff_sym _ nm u), Z.compare_gt_iff; lia). assert (Hlt' : forall u, (lexdiff (fun c => c) nm u ?= 0) = Lt <-> name_lt nm u) by (intros u; apply Z.compare_lt_iff). assert (Heq : forall u, bytes1 u -> (lexdiff (fun c => c) nm u ?= 0) = Eq <-> nm = u) by (intros u Hu; rewrite Z.compare_eq_iff; by apply lexdiff_nil).
    split; intros [H|H]; injection H as H; f_equal.
    + apply Hgt. apply Hgt in H. by apply (name_lt_trans nx ny nm).
    + apply Heq in H; [|done]. subst ny. by apply Hgt.
    + apply Hlt'. apply Hlt' in H. by apply (name_lt_trans nm nx ny).
    + apply Heq in H; [|done]. subst nx. by apply Hlt'.
  - exists r. split; [done|]. intros l. rewrite Hr, He. split.
    + intros [[n' Hl] Hc]. destruct (Hcmp l n' Hl) as [Bl E2]. rewrite E2 in Hc. injection Hc as Hc%Z.compare_eq_iff. apply lexdiff_nil in Hc; [|done|done]. by rewrite Hc.
    + intros Hl. split; [by eexists|]. destruct (Hcmp l nm Hl) as [_ ->]. f_equal. apply Z.compare_eq_iff. by apply lexdiff_nil.
Qed.

End invariant.


(** ** A new lock *)

Lemma read_bytes_eq m a bs : 0 <= a -> a + zlen bs <= zlen m -> (forall i, 0 <= i < zlen bs -> znth m (a + i) = znth bs i) -> read_bytes m a (zlen bs) = Some bs.
Proof.
  intros H0 H1 H. destruct (read_bytes_Some m a (zlen bs)) as (bs' & -> & Hl & Hn); [done|apply zlen_nonneg|done|]. f_equal. apply znth_ext; [done|]. intros i Hi. rewrite Hn, H by lia. done.
Qed.

Lemma name_alloc m buf nm R a sz : ram m -> cstr m buf (nm ++ R) -> 0 <= sz -> 0 <= a -> let size := sz + zlen nm + 1 in a + size <= zlen m -> a + size <= buf \/ buf + zlen (nm ++ R) < a ->
  exists m1 m2, memset m a 0 size = Some (a, m1) /\ memcpy m1 (a + sz) buf (zlen nm) = Some (a + sz, m2) /\ read_bytes m2 (a + sz) (zlen nm) = Some nm /\ ram m2 /\ cstr m2 (a + sz) nm /\
    forall b t, cstr m b t -> b + zlen t < a \/ a + size <= b -> cstr m2 b t.
Proof.
  intros Hram Hc Hsz Ha size Hsize Hbuf. pose proof (zlen_nonneg nm). pose proof (zlen_nonneg R). rewrite zlen_app in Hbuf. pose proof Hram as (Hb & _ & Hz). pose proof (cstr_bytes m _ _ Hb Hc) as Hby. apply Forall_app in Hby as [Hby _].
  destruct (memset_loop_ok (Z.to_nat size) m a 0 Ha ltac:(lia)) as (m1 & E1 & Hw1). unfold memset. rewrite E1. cbn [mbind option_bind]. pose proof Hw1 as (_ & _ & Hl1 & W1)%write_bytes_inv. assert (Hlz : zlen (replicate (Z.to_nat size) (u8 0)) = size) by (unfold zlen; rewrite length_replicate; unfold size; lia). rewrite Hlz in W1.
  assert (Hram1 : ram m1) by (apply (write_bytes_ram m a _ m1 Hram Hw1); apply Forall_replicate; vm_compute; split; congruence). assert (Hc1 : cstr m1 buf (nm ++ R)) by (apply (cstr_frame m a _ m1 _ _ Hw1); [rewrite zlen_app, Hlz; lia|done]). pose proof (cstr_bounds _ _ _ Hc1) as [Hb0 Hb1]. rewrite zlen_app in Hb1.
  assert (Hread : read_bytes m1 buf (zlen nm) = Some nm).
  { apply read_bytes_eq; [lia|lia|]. intros i Hi. pose proof (cstr_load m1 buf _ i Hc1 ltac:(rewrite zlen_app; lia)) as Hld. apply load_byte_Some in Hld as [_ Hld]. rewrite <- Hld, <- app_assoc, znth_app_l by lia. done. }
  destruct (memcpy_reference m1 (a + sz) buf (zlen nm) Hram1 ltac:(lia) ltac:(lia) ltac:(lia) ltac:(lia) ltac:(lia) ltac:(lia)) as (m2 & Href & Hcpy). unfold Prelude.memcpy in Href. rewrite Hread in Href. cbn [mbind option_bind] in Href. pose proof Href as (_ & _ & Hl2 & W2)%write_bytes_inv.
  exists m1, m2. split; [done|]. split; [done|]. split; [apply read_bytes_eq; [lia|lia|]; intros i Hi; rewrite W2 by lia; zbool; try lia; f_equal; lia|]. split; [apply (write_bytes_ram m1 (a + sz) nm m2 Hram1 Href); eapply Forall_impl; [exact Hby|]; intros c; simpl; lia|]. split.
  - apply cstr_intro; [lia|lia| |eapply Forall_impl; [exact Hby|]; intros c; simpl; lia]. intros i Hi. rewrite W2 by lia. destruct (decide (i = zlen nm)) as [->|].
    + rewrite znth_app_r by lia. rewrite Z.sub_diag. change (znth [0] 0) with 0. zbool; try lia. rewrite W1 by lia. zbool; try lia. unfold znth. rewrite nth_lookup, lookup_replicate_2 by lia. done.
    + rewrite znth_app_l by lia. zbool; try lia. f_equal. lia.
  - intros b t Ht Hd. apply (cstr_frame m1 (a + sz) nm m2 _ _ Href); [lia|]. apply (cstr_frame m a _ m1 _ _ Hw1); [rewrite Hlz; lia|done].
Qed.

Lemma wl_alloc w lk nm : Wakelock.wf w -> Wakelock.locks w !! lk = None ->
  let zero := Wakelock.mklock 0 None 0 (Wakelock.mkstat 0 0 0 0 0 0 0) in
  exists w', Wakelock.wake_lock_init (Wakelock.set_locks w (<[lk := zero]> (Wakelock.locks w))) lk Wakelock.WAKE_LOCK_SUSPEND (Some nm) = Some w' /\ Wakelock.wf w' /\
    (forall x, Wakelock.vw w' x = if decide (x = lk) then Some (Wakelock.mkview 0 true false false, 0) else Wakelock.vw w x) /\ forall t, Wakelock.active_of w' t = Wakelock.active_of w t.
Proof.
  intros W Hn zero. set (w0 := Wakelock.set_locks w (<[lk := zero]> (Wakelock.locks w))). assert (Hv : Wakelock.vw w lk = None) by (unfold Wakelock.vw; by rewrite Hn).
  assert (Hv0 : forall x, Wakelock.vw w0 x = if decide (x = lk) then Some (Wakelock.view_of zero, 0) else Wakelock.vw w x) by (intros x; unfold Wakelock.vw; simpl; case_decide as D; [subst x; by rewrite lookup_insert_eq|by rewrite lookup_insert_ne]).
  assert (Hi : lk ∉ Wakelock.inactive_locks w) by (intros H; destruct (Wakelock.wf_inactive w W lk H) as (v & e & E & _); congruence). assert (Ha : forall t, lk ∉ Wakelock.active_of w t) by (intros t H; destruct (Wakelock.wf_active w W t lk H) as (v & e & E & _); congruence).
  assert (W0 : Wakelock.wf w0) by (apply (Wakelock.wf_removed w w0 lk (Wakelock.view_of zero) 0 W Hv0); [done|by rewrite Wakelock.without_id|apply (Wakelock.wf_two w W)|intros t; by rewrite Wakelock.without_id]).
  destruct (Wakelock.wake_lock_init_ok w0 lk (Wakelock.view_of zero) 0 0 nm W0) as (w' & E & W' & _ & R1 & _ & _ & R4); [by rewrite Hv0, decide_True|done|lia|]. exists w'. split; [exact E|]. split; [done|]. split.
  - intros x. rewrite R1. case_decide; [done|]. by rewrite Hv0, decide_False.
  - intros t. rewrite R4. cbn [negb andb app]. rewrite app_nil_r. change (Wakelock.active_of w0 t) with (Wakelock.active_of w t). by rewrite Wakelock.without_id.
Qed.


(** ** Holding a lock *)

Section held.
Context (clk : Wakelock.clock).

(** Active, and not expired *)
Definition held (w : Wakelock.state) (lk : nat) : bool :=
  match Wakelock.vw w lk with
  | Some (v, e) => Wakelock.v_active v && negb (Wakelock.v_auto v && (s32 (e - Wakelock.jiffies clk) <=? 0))
  | None => false
  end.

Lemma held_vw w w' x : Wakelock.vw w' x = Wakelock.vw w x -> held w' x = held w x.
Proof. unfold held. by intros ->. Qed.

(** Bringing the timer up to date takes only expired locks off the list. *)
Lemma updated_vw w w' x : Wakelock.updated clk w 0 w' -> Wakelock.vw w' x = Wakelock.vw w x \/
  Wakelock.expired clk w x = true /\ Wakelock.vw w' x = (fun '(v, e) => (Wakelock.mkview (Wakelock.v_type v) true false false, e)) <$> Wakelock.vw w x.
Proof.
  intros [[? _]|(_ & s2 & r & Hr & (Hv & _))]; [done|]. rewrite Hv. destruct (Wakelock.arm_lists clk s2 r) as (-> & _). destruct Hr as [(_ & -> & _)|(_ & Hsw & _)]; [by left|]. rewrite (Wakelock.sw_vw clk _ _ _ Hsw). destruct (bool_decide _); cbn [andb]; [|by left]. destruct (Wakelock.expired clk w x); [by right|by left].
Qed.

Lemma updated_held w w' x : Wakelock.updated clk w 0 w' -> held w' x = held w x.
Proof.
  intros H. destruct (updated_vw w w' x H) as [E|[He E]]; [by apply held_vw|]. unfold held. rewrite E. unfold Wakelock.expired, Wakelock.is_auto, Wakelock.left_of in He. destruct (Wakelock.vw w x) as [[v e]|] eqn:Ev; [|done]. simpl in He |- *. rewrite He. by rewrite andb_false_r.
Qed.

(** A lock that is held stays as it is. *)
Lemma updated_live w w' x : Wakelock.updated clk w 0 w' -> held w' x = true -> Wakelock.vw w' x = Wakelock.vw w x.
Proof.
  intros H Hh. destruct (updated_vw w w' x H) as [E|[He E]]; [done|]. exfalso. unfold held in Hh. rewrite E in Hh. by destruct (Wakelock.vw w x) as [[v e]|].
Qed.

(** A lock that is known stays one of its type. *)
Definition known (w : Wakelock.state) (lk : nat) : Prop := exists v e, Wakelock.vw w lk = Some (v, e) /\ Wakelock.v_init v = true /\ Wakelock.v_type v = 0.

Lemma updated_known w w' x : Wakelock.updated clk w 0 w' -> known w x -> known w' x.
Proof.
  intros H (v & e & E & Hi & Ht). unfold known. destruct (updated_vw w w' x H) as [-> |[_ ->]]; [by exists v, e|]. rewrite E. simpl. by eexists _, _.
Qed.

Lemma relisted_held w w1 lk v e i tl x : Wakelock.relisted w w1 lk v e i tl -> held w1 x = if decide (x = lk) then Wakelock.v_active v && negb (Wakelock.v_auto v && (s32 (e - Wakelock.jiffies clk) <=? 0)) else held w x.
Proof. intros (R1 & _). unfold held. rewrite R1. by case_decide. Qed.

Lemma relisted_kept w w1 lk v e i tl x : Wakelock.relisted w w1 lk v e i tl -> Wakelock.v_init v = true -> Wakelock.v_type v = 0 -> known w x -> known w1 x.
Proof. intros (R1 & _) Hi Ht Hx. unfold known. rewrite R1. case_decide; [by exists v, e|done]. Qed.

Context (TICK_NSEC : Z).

(** Taking a lock of user space, for ever or for [timeout] jiffies *)
Lemma lock_held w lk timeout ht : Wakelock.wf w -> is_Some (Wakelock.vw w Wakelock.main_wake_lock) -> known w lk -> - 2 ^ 31 <= timeout < 2 ^ 31 ->
  exists w', Wakelock.wake_lock_internal TICK_NSEC clk w lk timeout ht = Some w' /\ Wakelock.wf w' /\ (forall x, held w' x = if decide (x = lk) then negb ht || (0 <? timeout) else held w x) /\
    (forall x, known w x -> known w' x) /\ is_Some (Wakelock.vw w' Wakelock.main_wake_lock) /\
    (negb ht || (0 <? timeout) = true -> exists v, Wakelock.vw w' lk = Some (v, Wakelock.expiry clk ht timeout) /\ Wakelock.v_active v = true /\ Wakelock.v_auto v = ht) /\
    (forall x, x <> lk -> held w x = true -> Wakelock.vw w' x = Wakelock.vw w x).
Proof.
  intros W Hm (v & e & Hv & Hi & Ht) Hto. destruct (Wakelock.wake_lock_internal_ok TICK_NSEC clk w lk v e timeout ht W Hv Hi Hm) as (w1 & w' & E & W1 & R & _ & U). rewrite Ht in U. exists w'. split; [done|]. split; [by apply (Wakelock.updated_wf clk w1 0)|].
  assert (Hheld : forall x, held w' x = if decide (x = lk) then negb ht || (0 <? timeout) else held w x).
  { intros x. rewrite (updated_held w1 w' x U), (relisted_held _ _ _ _ _ _ _ x R). case_decide; [|done]. destruct ht; cbn [Wakelock.after_lock Wakelock.v_active Wakelock.v_auto Wakelock.expiry negb andb orb]; [|done].
    replace (s32 (u32 (Wakelock.jiffies clk + timeout) - Wakelock.jiffies clk)) with timeout; [by rewrite Z.ltb_antisym|]. rewrite <- (s32_id timeout) at 1 by lia. unfold s32. u32_norm. by replace (Wakelock.jiffies clk + timeout - Wakelock.jiffies clk) with timeout by lia. }
  split; [done|]. split; [|split; [|split]].
  - intros x Hx. apply (updated_known w1 w' x U). by apply (relisted_kept w w1 _ _ _ _ _ x R).
  - destruct (Wakelock.relisted_known _ _ _ _ _ _ _ _ R Hm) as [[vm em] Hm1]. destruct (updated_vw w1 w' Wakelock.main_wake_lock U) as [-> |[_ ->]]; rewrite Hm1; by eexists.
  - intros Hh. exists (Wakelock.after_lock v ht). split; [|done]. rewrite (updated_live w1 w' lk U); [destruct R as (R1 & _); by rewrite R1, decide_True|]. by rewrite Hheld, decide_True.
  - intros x Hx Hh. rewrite (updated_live w1 w' x U); [destruct R as (R1 & _); by rewrite R1, decide_False|]. by rewrite Hheld, decide_False.
Qed.

Lemma unlock_held w lk : Wakelock.wf w -> is_Some (Wakelock.vw w Wakelock.main_wake_lock) -> known w lk ->
  exists w', Wakelock.wake_unlock TICK_NSEC clk w lk = Some w' /\ Wakelock.wf w' /\ (forall x, held w' x = if decide (x = lk) then false else held w x) /\
    (forall x, known w x -> known w' x) /\ is_Some (Wakelock.vw w' Wakelock.main_wake_lock).
Proof.
  intros W Hm (v & e & Hv & Hi & Ht). destruct (Wakelock.wake_unlock_ok TICK_NSEC clk w lk v e W Hv Hi) as (w1 & w' & E & W1 & _ & R & U). rewrite Ht in R, U. exists w'. split; [done|]. split; [by apply (Wakelock.updated_wf clk w1 0)|]. split; [|split].
  - intros x. by rewrite (updated_held w1 w' x U), (relisted_held _ _ _ _ _ _ _ x R).
  - intros x Hx. apply (updated_known w1 w' x U). by apply (relisted_kept w w1 _ _ _ _ _ x R).
  - destruct (Wakelock.relisted_known _ _ _ _ _ _ _ _ R Hm) as [[vm em] Hm1]. destruct (updated_vw w1 w' Wakelock.main_wake_lock U) as [-> |[_ ->]]; rewrite Hm1; by eexists.
Qed.

End held.


(** A clock [d] jiffies after [clk] *)
Definition later (clk clk' : Wakelock.clock) (d : Z) : Prop := 0 <= d < 2 ^ 31 /\ Wakelock.jiffies clk' = u32 (Wakelock.jiffies clk + d).

(** How long a lock that was taken at [clk] is held *)
Lemma held_later clk clk' d w lk v ht t : later clk clk' d -> 0 < t < 2 ^ 31 -> Wakelock.vw w lk = Some (v, Wakelock.expiry clk ht t) -> Wakelock.v_active v = true -> Wakelock.v_auto v = ht ->
  held clk' w lk = negb ht || (d <? t).
Proof.
  intros [Hd E] Ht Hv Ha Hau. unfold held. rewrite Hv, Ha, Hau. destruct ht; cbn [andb negb orb]; [|done]. unfold Wakelock.expiry. rewrite E.
  replace (s32 (u32 (Wakelock.jiffies clk + t) - u32 (Wakelock.jiffies clk + d))) with (t - d).
  { destruct (Z.leb_spec (t - d) 0), (Z.ltb_spec d t); (lia || done). }
  rewrite <- (s32_id (t - d)) at 1 by lia. unfold s32. u32_norm. by replace (Wakelock.jiffies clk + t - (Wakelock.jiffies clk + d)) with (t - d) by lia.
Qed.

(** ** The files *)

(** The name in a text and the time behind it, in nanoseconds, if there is one *)
Definition asked (T : list Z) : option (list Z * option Z) :=
  let nm := name_part T in
  let arg := trim (drop (length nm) T) in
  let '(ns, n) := number_at 64 0 arg in
  if bool_decide (nm = []) then None
  else if bool_decide (arg = []) then Some (nm, None)
  else if bool_decide (trim (drop (Z.to_nat n) arg) = []) then Some (nm, Some ns)
  else None.

(** The jiffies, of 5 milliseconds, that a time takes: rounded up, at least one *)
Definition duration (ns : Z) : Z := Z.max 1 (- (- ns / 5000000)).

Lemma timeout_jiffies_duration ns : 0 <= ns -> duration ns < 2 ^ 31 -> timeout_jiffies ns = duration ns.
Proof.
  intros H0 Hd. unfold duration in *. assert (Ec : - (- ns / 5000000) = (ns + 4999999) / 5000000).
  { pose proof (Z.div_mod (- ns) 5000000 ltac:(lia)). pose proof (Z.mod_pos_bound (- ns) 5000000 ltac:(lia)). apply Z.div_unique with (4999999 - (- ns) mod 5000000); lia. }
  rewrite Ec in *. assert (Hb : ns + 4999999 < 2 ^ 64). { pose proof (Z.div_mod (ns + 4999999) 5000000 ltac:(lia)). pose proof (Z.mod_pos_bound (ns + 4999999) 5000000 ltac:(lia)). lia. }
  unfold timeout_jiffies. change (NSEC_PER_SEC / Wakelock.HZ) with 5000000. cbv zeta. change (5000000 - 1) with 4999999. unfold wrap. rewrite (Z.mod_small (ns + 4999999)) by lia. destruct (Z.leb_spec ((ns + 4999999) / 5000000) 0); rewrite s32_id by lia; lia.
Qed.

Lemma Forall_trim (P : Z -> Prop) T : Forall P T -> Forall P (trim T).
Proof. induction 1 as [|c T Hc HT IH]; [constructor|]. cbn [trim]. destruct (isspace c); [done|by constructor]. Qed.

Lemma request_asked T : Forall is_byte T -> request true T = (fun '(nm, o) => (nm, match o with Some ns => timeout_jiffies ns | None => 0 end)) <$> asked T.
Proof.
  intros HT. unfold request, asked. cbv zeta. rewrite number_at_spec by (by apply Forall_trim, Forall_drop). destruct (parse 64 0 _) as [ns n] eqn:E. cbn [fst snd andb]. repeat case_bool_decide; done.
Qed.

Lemma asked_time T nm ns : asked T = Some (nm, Some ns) -> 0 <= ns.
Proof.
  unfold asked. cbv zeta. unfold number_at at 1. cbv zeta. repeat case_bool_decide; try done. intros [= _ <-]. apply Z.mod_pos_bound. lia.
Qed.

Lemma name_part_word T : name_part (name_part T) = name_part T.
Proof. induction T as [|c T IH]; [done|]. cbn [name_part]. destruct (isspace c) eqn:E; [done|]. cbn [name_part]. by rewrite E, IH. Qed.

Lemma s32_bound x : - 2 ^ 31 <= s32 x < 2 ^ 31.
Proof. pose proof (u32_range x) as Hu. unfold is_u32 in Hu. unfold s32. destruct (Z.ltb_spec (u32 x) (2 ^ 31)); lia. Qed.

Lemma request_name w T nm t : request w T = Some (nm, t) -> nm = name_part T /\ nm <> [] /\ - 2 ^ 31 <= t < 2 ^ 31.
Proof.
  unfold request. cbv zeta. case_bool_decide; [done|]. case_bool_decide; [intros [= <- <-]; split; [done|]; split; [done|lia]|]. destruct (_ && _); [|done]. intros [= <- <-]. split; [done|]. split; [done|]. apply s32_bound.
Qed.

Section files.
Context (sizeof_lock : Z) (Hsize : 0 <= sizeof_lock).

Local Abbreviation ok := (ok sizeof_lock).

(** What [kzalloc] promises of the address it returns for a lock with the name [nm]: memory
    outside the buffer and the structures that are in use *)
Definition kzalloc_ok (s : state) (N : gmap Z (list Z)) (buf : Z) (T nm : list Z) (a : Z) : Prop :=
  let size := sizeof_lock + zlen nm + 1 in
  PAGE_SIZE <= a /\ a + size <= zlen (mem s) /\ (a + size <= buf \/ buf + zlen T < a) /\
  (forall l n', N !! l = Some n' -> apart sizeof_lock a size l n') /\ Wakelock.locks (wakelocks s) !! lock_of a = None.

Lemma add_lock_ok s N buf T a p : let nm := name_part T in ok s N -> cstr (mem s) buf T -> zlen T < PAGE_SIZE -> nm <> [] -> kzalloc_ok s N buf T nm a -> (forall l, N !! l <> Some nm) -> lookup_loop sizeof_lock (mem s) buf (zlen nm) (user_wake_locks s) [] = Some (inr p) ->
  exists s1 m w root, kzalloc_lock s a (sizeof_lock + zlen nm + 1) = Some s1 /\ memcpy (mem s1) (lock_name sizeof_lock a) buf (zlen nm) = Some (lock_name sizeof_lock a, m) /\ read_bytes m (lock_name sizeof_lock a) (zlen nm) = Some nm /\
    Wakelock.wake_lock_init (wakelocks s1) (lock_of a) Wakelock.WAKE_LOCK_SUSPEND (Some (bytes_string nm)) = Some w /\ Rbtree.rb_insert_color (Rbtree.rb_link_node a) p = Some root /\
    ok (mkstate m root w) (<[a := nm]> N) /\ N !! a = None /\ forall x, x <> lock_of a -> Wakelock.vw w x = Wakelock.vw (wakelocks s) x.
Proof using Hsize.
  intros nm Hok HT Hpage Hne (Ha & Hfit & Hbuf & Hapart & Hnone) Hnew Hloop. pose proof (zlen_nonneg nm). pose proof Hok as [Hram W Hmain Htree Hlocks]. unfold PAGE_SIZE in Ha.
  assert (Hfresh : N !! a = None) by (destruct (N !! a) as [n'|] eqn:E; [|done]; exfalso; pose proof (zlen_nonneg n'); destruct (Hapart a n' E); lia). assert (Hlk : forall l n', N !! l = Some n' -> l <> a /\ lock_of l <> lock_of a).
  { intros l n' Hl. assert (l <> a) by congruence. split; [done|]. pose proof (lo_addr _ _ _ _ (Hlocks l n' Hl)) as Hla. unfold lock_of. unfold PAGE_SIZE in Hla. lia. }
  destruct (name_part_prefix T) as [R ET]. fold nm in ET. pose proof HT as HT'. rewrite ET in HT'. destruct (name_alloc (mem s) buf nm R a sizeof_lock Hram HT' Hsize ltac:(lia) Hfit ltac:(rewrite <- ET; lia)) as (m1 & m2 & E1 & E2 & E3 & Hram2 & Hc2 & Hframe).
  destruct (wl_alloc (wakelocks s) (lock_of a) (bytes_string nm) W Hnone) as (w & Ew & W' & Hvw & _).
  destruct (lookup_found sizeof_lock s N buf T Hok HT) as [Hcmp (r & Esearch & Hr)]. fold nm in Hcmp, Esearch, Hr. rewrite lookup_loop_search, Esearch in Hloop. destruct r as [l|]; [exfalso; by apply (Hnew l), Hr|]. cbn [mbind option_bind] in Hloop. set (go := fun y => c ← compare_name sizeof_lock (mem s) buf (zlen nm) y; Some (bool_decide (c = Lt))) in *.
  destruct (Rbtree.descend go (user_wake_locks s) []) as [q|] eqn:Ed; [|done]. injection Hloop as ->. assert (Hname : forall l n', N !! l = Some n' -> name_of (<[a := nm]> N) l = n') by (intros l n' Hl; unfold name_of; rewrite lookup_insert_ne by (intros ->; congruence); by rewrite Hl). assert (Hnew' : name_of (<[a := nm]> N) a = nm) by (unfold name_of; by rewrite lookup_insert_eq).
  assert (Hby : forall l n', N !! l = Some n' -> bytes1 n') by (intros l n' Hl; apply (cstr_bytes (mem s) _ _ (proj1 Hram) (lo_name _ _ _ _ (Hlocks l n' Hl)))). assert (Hbn : bytes1 nm) by (pose proof (cstr_bytes _ _ _ (proj1 Hram) HT') as Hb; by apply Forall_app in Hb as [? _]).
  destruct (OrdTree.tree_insert (user_wake_locks s) (fun l => is_Some (N !! l)) (before (<[a := nm]> N)) go a) as (root & Ei & Hroot).
  { apply (OrdTree.tree_ok_ext _ _ _ _ _ Htree); [done|]. intros x y [nx Hx] [ny Hy] (H1 & H2 & H3). unfold name_of in H1, H2, H3. rewrite Hx in H1, H3. rewrite Hy in H2, H3. unfold before. by rewrite (Hname x nx Hx), (Hname y ny Hy). }
  { intros [n' Hn']. congruence. }
  { intros y [ny Hy]. unfold go. rewrite (Hcmp y ny Hy). cbn [mbind option_bind]. eexists. split; [reflexivity|]. unfold before. rewrite (Hname y ny Hy), Hnew'. pose proof (Hby y ny Hy). case_bool_decide as Hd; [split; [done|]; split; [done|]; by apply Z.compare_lt_iff|]. split; [done|]. split; [done|]. unfold name_lt. rewrite (lexdiff_sym _ nm ny).
    destruct (Z.compare_spec (lexdiff (fun c => c) nm ny) 0) as [Hz|Hz|Hz]; [|done|lia]. exfalso. apply lexdiff_nil in Hz; [|done|done]. subst ny. by apply (Hnew y). }
  unfold Rbtree.insert in Ei. rewrite Ed in Ei. cbn [mbind option_bind] in Ei. unfold kzalloc_lock. rewrite E1. cbn [mbind option_bind]. eexists _, m2, w, root. split; [reflexivity|]. cbn [mem wakelocks]. do 4 (split; [done|]). split; [|split; [done|intros x Hx; by rewrite Hvw, decide_False]].
  split; cbn [mem wakelocks user_wake_locks].
  - done.
  - done.
  - rewrite Hvw, decide_False; [done|]. unfold lock_of, Wakelock.main_wake_lock. lia.
  - apply (OrdTree.tree_ok_ext _ _ _ _ _ Hroot); [|done]. intros x. destruct (decide (x = a)) as [->|]; [rewrite lookup_insert_eq; split; [by eexists|by left]|rewrite lookup_insert_ne by done; split; [by intros [->|]|by right]].
  - intros l n'. destruct (decide (l = a)) as [->|Hla]; [rewrite lookup_insert_eq; intros [= <-]|rewrite lookup_insert_ne by done; intros Hl]; split; cbn [mem wakelocks].
    + unfold PAGE_SIZE. lia.
    + done.
    + split; [done|]. split; [apply name_part_word|]. rewrite ET, zlen_app in Hpage. pose proof (zlen_nonneg R). lia.
    + rewrite Hvw, decide_True by done. by eexists _, _.
    + apply (lo_addr _ _ _ _ (Hlocks l n' Hl)).
    + apply Hframe; [apply (lo_name _ _ _ _ (Hlocks l n' Hl))|]. unfold lock_name. destruct (Hapart l n' Hl); lia.
    + apply (lo_word _ _ _ _ (Hlocks l n' Hl)).
    + rewrite Hvw, decide_False by (by eapply Hlk). apply (lo_lock _ _ _ _ (Hlocks l n' Hl)).
Qed.

(** The lookup on every branch *)
Lemma lookup_ok kz s N buf T allocate w : ok s N -> cstr (mem s) buf T -> zlen T < PAGE_SIZE -> (forall a, kz = Some a -> kzalloc_ok s N buf T (name_part T) a) ->
  let r := lookup_wake_lock_name sizeof_lock kz s buf allocate w in
  match request w T with
  | None => r = Some (s, inl (- EINVAL))
  | Some (nm, t) =>
      (exists l, N !! l = Some nm /\ r = Some (s, inr (l, t))) \/
      (forall l, N !! l <> Some nm) /\
      match allocate, kz with
      | false, _ => r = Some (s, inl (- EINVAL))
      | true, None => r = Some (s, inl (- ENOMEM))
      | true, Some a => exists s', r = Some (s', inr (a, t)) /\ ok s' (<[a := nm]> N) /\ N !! a = None /\ forall x, x <> lock_of a -> Wakelock.vw (wakelocks s') x = Wakelock.vw (wakelocks s) x
      end
  end.
Proof using Hsize.
  intros Hok HT Hpage Hkz r. unfold r, lookup_wake_lock_name. rewrite (parse_args_ok _ _ T w HT). cbn [mbind option_bind]. destruct (request w T) as [[nm t]|] eqn:Er; cbn [option_map]; [|done]. destruct (request_name w T nm t Er) as (-> & Hne & _).
  destruct (lookup_found sizeof_lock s N buf T Hok HT) as [_ (res & Esearch & Hr)]. destruct res as [l|].
  - left. exists l. split; [by apply Hr|]. rewrite lookup_loop_search, Esearch. done.
  - right. assert (Hnew : forall l, N !! l <> Some (name_part T)) by (intros l Hl; by apply Hr in Hl). split; [done|]. assert (exists p, lookup_loop sizeof_lock (mem s) buf (zlen (name_part T)) (user_wake_locks s) [] = Some (inr p)) as [p Hp].
    { rewrite lookup_loop_search, Esearch. cbn [mbind option_bind]. destruct (lookup_found sizeof_lock s N buf T Hok HT) as [Hcmp _]. pose proof (ok_tree _ _ _ Hok) as [Hw He _ _]. destruct Hw as [k Hw]. destruct (Rbtree.descend_ok (fun y => c ← compare_name sizeof_lock (mem s) buf (zlen (name_part T)) y; Some (bool_decide (c = Lt))) (user_wake_locks s) [] Rbtree.Black k) as (q & -> & _); [|done|constructor|by exists q].
      intros y [ny Hy]%He. rewrite (Hcmp y ny Hy). by eexists. }
    rewrite Hp. cbn [mbind option_bind]. destruct allocate; cbn [negb]; [|done]. destruct kz as [a|]; [|done].
    destruct (add_lock_ok s N buf T a p Hok HT Hpage Hne (Hkz a eq_refl) Hnew Hp) as (s1 & m & w' & root & -> & E2 & E3 & E4 & E5 & Hok' & Hfr & Hvw). cbn [mbind option_bind]. rewrite E2. cbn [mbind option_bind]. rewrite E3. cbn [mbind option_bind]. rewrite E4. cbn [mbind option_bind]. rewrite E5. cbn [mbind option_bind]. by eexists.
Qed.

Lemma ok_wakelocks s N w : ok s N -> Wakelock.wf w -> is_Some (Wakelock.vw w Wakelock.main_wake_lock) -> (forall x, known (wakelocks s) x -> known w x) -> ok (mkstate (mem s) (user_wake_locks s) w) N.
Proof using Type.
  intros [Hram _ _ Htree Hlocks] W Hm Hk. split; [done|done|done|done|]. intros l nm Hl. destruct (Hlocks l nm Hl) as [H1 H2 H3 H4]. split; [done|done|done|]. by apply Hk.
Qed.

Context (TICK_NSEC : Z) (clk : Wakelock.clock).

(** C14. Writing to wake_lock: the text is a name and, behind blanks, perhaps a time in
    nanoseconds; everything else is refused with -EINVAL and changes nothing.  The lock of
    that name is found, or a new one is put into the tree (-ENOMEM, and no change, if there
    is no memory for it).  From then on it is held: for ever if no time is given, and
    otherwise for exactly the jiffies that the time takes, rounded up and at least one.
    Every other lock is held exactly if it was, with the same time left, and all is kept
    in order by name.  The time is below [2^31] jiffies, some 124 days: a longer one is
    cut to a [long] ([timeout_truncated]). *)
Theorem wake_lock_store_correct kz s N buf T n : ok s N -> cstr (mem s) buf T -> zlen T < PAGE_SIZE -> (forall a, kz = Some a -> kzalloc_ok s N buf T (name_part T) a) ->
  (forall nm ns, asked T = Some (nm, Some ns) -> duration ns < 2 ^ 31) ->
  let r := wake_lock_store TICK_NSEC sizeof_lock clk kz s buf n in
  match asked T with
  | None => r = Some (s, - EINVAL)
  | Some (nm, time) =>
      (forall l, N !! l <> Some nm) /\ kz = None /\ r = Some (s, - ENOMEM) \/
      exists s' l N', r = Some (s', n) /\ ok s' N' /\ N' !! l = Some nm /\ (N' = N \/ N !! l = None /\ N' = <[l := nm]> N) /\
        (forall clk' d, later clk clk' d -> held clk' (wakelocks s') (lock_of l) = match time with None => true | Some ns => d <? duration ns end) /\
        forall x, x <> lock_of l -> held clk (wakelocks s') x = held clk (wakelocks s) x /\
          (held clk (wakelocks s) x = true -> Wakelock.vw (wakelocks s') x = Wakelock.vw (wakelocks s) x)
  end.
Proof using Hsize.
  intros Hok HT Hpage Hkz Hdur r. unfold r, wake_lock_store. pose proof (lookup_ok kz s N buf T true true Hok HT Hpage Hkz) as Hl. cbv zeta in Hl.
  assert (HbT : Forall is_byte T) by (eapply Forall_impl; [exact (cstr_bytes _ _ _ (proj1 (ok_ram _ _ _ Hok)) HT)|unfold is_byte; lia]). rewrite (request_asked T HbT) in Hl.
  destruct (asked T) as [[nm time]|] eqn:Er; cbn [fmap option_fmap option_map] in Hl; [|by rewrite Hl].
  set (t := match time with Some ns => timeout_jiffies ns | None => 0 end) in *.
  assert (Ht : t = match time with Some ns => duration ns | None => 0 end) by (unfold t; destruct time as [ns|]; [|done]; apply timeout_jiffies_duration; [by apply (asked_time T nm)|by apply (Hdur nm)]).
  assert (Ht' : match time with Some _ => 0 < t < 2 ^ 31 | None => t = 0 end) by (rewrite Ht; destruct time as [ns|]; [|done]; pose proof (Hdur nm ns eq_refl); unfold duration in *; lia).
  assert (Hstore : forall s1 N1 l, lookup_wake_lock_name sizeof_lock kz s buf true true = Some (s1, inr (l, t)) -> ok s1 N1 -> N1 !! l = Some nm -> (forall x, x <> lock_of l -> Wakelock.vw (wakelocks s1) x = Wakelock.vw (wakelocks s) x) ->
    exists s', r = Some (s', n) /\ ok s' N1 /\ (forall clk' d, later clk clk' d -> held clk' (wakelocks s') (lock_of l) = match time with None => true | Some ns => d <? duration ns end) /\
      forall x, x <> lock_of l -> held clk (wakelocks s') x = held clk (wakelocks s) x /\ (held clk (wakelocks s) x = true -> Wakelock.vw (wakelocks s') x = Wakelock.vw (wakelocks s) x)).
  { intros s1 N1 l E Hok1 Hl1 Hh. destruct (lock_held clk TICK_NSEC (wakelocks s1) (lock_of l) t (negb (t =? 0)) (ok_wf _ _ _ Hok1) (ok_main _ _ _ Hok1) (lo_lock _ _ _ _ (ok_lock _ _ _ Hok1 l nm Hl1)) ltac:(destruct time; lia)) as (w' & Ew & W' & Hheld & Hk & Hm & Hv & Hlive).
    exists (mkstate (mem s1) (user_wake_locks s1) w'). unfold r, wake_lock_store. rewrite E. cbn [mbind option_bind]. split; [|split; [by apply ok_wakelocks|split]].
    - destruct (Z.eqb_spec t 0) as [->|]; cbn [negb] in *; unfold Wakelock.wake_lock_timeout, Wakelock.wake_lock_; by rewrite Ew.
    - intros clk' d Hd. cbn [wakelocks]. destruct Hv as (v & Hv & Ha & Hau); [destruct time; [apply orb_true_iff; right; apply Z.ltb_lt; lia|rewrite Ht'; done]|].
      destruct time as [ns|]; [rewrite <- Ht; destruct (Z.eqb_spec t 0); [lia|]; cbn [negb] in *; by rewrite (held_later clk clk' d w' (lock_of l) v true t Hd Ht' Hv Ha Hau)|].
      rewrite Ht' in *. change (negb (0 =? 0)) with false in *. unfold held. rewrite Hv, Ha, Hau. done.
    - intros x Hx. cbn [wakelocks]. rewrite Hheld, decide_False by done. rewrite (held_vw clk _ _ x (Hh x Hx)). split; [done|]. intros Hlx. rewrite Hlive; [by apply Hh|done|]. by rewrite (held_vw clk _ _ x (Hh x Hx)). }
  destruct Hl as [(l & Hl & E)|[Hnew E]]; [|destruct kz as [a|]].
  - right. destruct (Hstore s N l E Hok Hl ltac:(done)) as (s' & Es & Hok' & Hh). exists s', l, N. unfold r, wake_lock_store in Es. split; [done|]. split; [done|]. split; [done|]. split; [by left|done].
  - right. destruct E as (s1 & E & Hok1 & Hfr & Hvw). destruct (Hstore s1 _ a E Hok1 (lookup_insert_eq _ _ _) Hvw) as (s' & Es & Hok' & Hh). exists s', a, (<[a := nm]> N). unfold r, wake_lock_store in Es. split; [done|]. split; [done|]. split; [apply lookup_insert_eq|]. split; [by right|done].
  - left. split; [done|]. split; [done|]. by rewrite E.
Qed.

(** Writing to wake_unlock: the text is a name alone; the lock of that name, which must exist, is not held any more, and every other lock is held exactly if it was. *)
Theorem wake_unlock_store_correct s N buf T n : ok s N -> cstr (mem s) buf T -> zlen T < PAGE_SIZE ->
  let r := wake_unlock_store TICK_NSEC sizeof_lock clk s buf n in
  match request false T with
  | None => r = Some (s, - EINVAL)
  | Some (nm, _) =>
      (forall l, N !! l <> Some nm) /\ r = Some (s, - EINVAL) \/
      exists s' l, r = Some (s', n) /\ ok s' N /\ N !! l = Some nm /\ forall x, held clk (wakelocks s') x = if decide (x = lock_of l) then false else held clk (wakelocks s) x
  end.
Proof using Hsize.
  intros Hok HT Hpage r. unfold r, wake_unlock_store. pose proof (lookup_ok None s N buf T false false Hok HT Hpage ltac:(done)) as Hl. cbv zeta in Hl. destruct (request false T) as [[nm t]|] eqn:Er; [|by rewrite Hl]. destruct Hl as [(l & Hl & E)|[Hnew E]]; [right|left; split; [done|by rewrite E]].
  destruct (unlock_held clk TICK_NSEC (wakelocks s) (lock_of l) (ok_wf _ _ _ Hok) (ok_main _ _ _ Hok) (lo_lock _ _ _ _ (ok_lock _ _ _ Hok l nm Hl))) as (w' & Ew & W' & Hheld & Hk & Hm). eexists _, l. rewrite E. cbn [mbind option_bind]. rewrite Ew. split; [reflexivity|]. split; [by apply ok_wakelocks|]. done.
Qed.

End files.


(** ** Listing the locks *)

Lemma format_name symbol rd lim a nm : PAGE_SIZE <= a -> read_string lim rd a (2 ^ 32 - 1) = Some nm -> format_text symbol rd lim (2 * length name_format) name_format spec0 [Word a] = Some (nm ++ [32], []).
Proof.
  intros Ha Hr. apply (format_step symbol rd lim 5 name_format spec0 _ (mkspec FORMAT_TYPE_STR 0 (-1) 10 (-1) (-1)) [32] nm [32] (mkspec FORMAT_TYPE_STR 0 (-1) 10 (-1) (-1)) [] [32] []); [reflexivity|reflexivity| |reflexivity].
  unfold convert_text. cbn [type]. change (widths_okb _) with true. cbv iota. cbn [va_word mbind option_bind]. destruct (Z.ltb_spec a PAGE_SIZE); [lia|]. change (u32 (precision _)) with (2 ^ 32 - 1). rewrite Hr. cbn [mbind option_bind]. unfold padded_text. cbn [flags field_width]. change (flag 0 LEFT) with false. cbv iota zeta. rewrite fill_neg by (pose proof (zlen_nonneg nm); lia). reflexivity.
Qed.

Lemma NoDup_middle {A} (x : A) l1 : forall l2 r1 r2, NoDup (l1 ++ x :: r1) -> l1 ++ x :: r1 = l2 ++ x :: r2 -> r1 = r2.
Proof.
  induction l1 as [|y l1 IH]; intros [|z l2] r1 r2 Hnd E; simpl in *.
  - by injection E.
  - injection E as <- ->. apply NoDup_cons in Hnd as [Hn _]. exfalso. apply Hn. set_solver.
  - injection E as -> <-. apply NoDup_cons in Hnd as [Hn _]. exfalso. apply Hn. set_solver.
  - injection E as <- E. apply NoDup_cons in Hnd as [_ Hnd]. by apply (IH l2).
Qed.

(** The names of the locks among [ls] that are active, or not, with a blank behind each *)
Definition listing (w : Wakelock.state) (N : gmap Z (list Z)) (active : bool) (ls : list Z) : list Z :=
  concat (List.map (fun l => name_of N l ++ [32]) (List.filter (fun l => Bool.eqb (match Wakelock.vw w (lock_of l) with Some (v, _) => Wakelock.v_active v | None => false end) active) ls)).

Section list_locks.
Context (symbol : Z -> Z -> list Z) (Hsym : forall c v, Forall (fun x => x <> 0) (symbol c v)).
Context (sizeof_lock : Z) (Hsize : 0 <= sizeof_lock) (s : state) (N : gmap Z (list Z)) (Hok : ok sizeof_lock s N) (buf : Z) (active : bool).
Hypotheses (Hbuf : 0 <= buf) (Hroom : buf + PAGE_SIZE <= zlen (mem s)) (Hapart : forall l nm, N !! l = Some nm -> apart sizeof_lock buf PAGE_SIZE l nm).

Local Abbreviation printed := (printed (mem s) buf PAGE_SIZE).

Lemma page_ok : is_bytes (mem s) /\ zlen (mem s) < 2 ^ 32 /\ 1 <= PAGE_SIZE < 2 ^ 31.
Proof using Hok. destruct (ok_ram _ _ _ Hok) as (Hb & _ & Hz). split; [done|]. split; [done|]. unfold PAGE_SIZE. lia. Qed.

Lemma show_name T m len l nm : Forall (fun c => 0 < c < 256) T -> printed T m len -> N !! l = Some nm ->
  exists m' k, scnprintf symbol m (buf + len) (u32 (buf + PAGE_SIZE - (buf + len))) name_format [Word (lock_name sizeof_lock l)] = Some (m', k) /\ printed (T ++ nm ++ [32]) m' (len + k).
Proof using All.
  intros HT Hp Hl. destruct page_ok as (Hb & Hz & Hpg). destruct (ok_lock _ _ _ Hok l nm Hl) as [Haddr Hname (_ & _ & Hshort) _]. replace (buf + PAGE_SIZE - (buf + len)) with (PAGE_SIZE - len) by lia.
  destruct (printed_step symbol Hsym (mem s) buf PAGE_SIZE Hb Hz Hbuf Hpg Hroom T m len name_format [Word (lock_name sizeof_lock l)] (nm ++ [32]) [] (fuel_of (mem s)) HT Hp) as (m' & k & E & Hs).
  - apply format_name; [unfold lock_name; lia|]. apply (read_cstr _ (mem s)); [done| |by eapply cstr_fuel|lia]. intros x v Hx Hv. apply (printed_load (mem s) buf PAGE_SIZE Hpg T); [done|done|]. unfold lock_name in Hx. destruct (Hapart l nm Hl); lia.
  - rewrite zlen_app. change (zlen [32]) with 1. lia.
  - exists m', k. split; [done|by right].
Qed.

Lemma listing_bytes ls : Forall (fun l => is_Some (N !! l)) ls -> Forall (fun c => 0 < c < 256) (listing (wakelocks s) N active ls).
Proof using Hok.
  intros H. unfold listing. induction H as [|l ls [nm Hl] _ IH]; [constructor|]. cbn [List.filter]. destruct (Bool.eqb _ _); [|done]. cbn [List.map concat]. apply Forall_app. split; [|done]. unfold name_of. rewrite Hl. simpl. apply Forall_app. split; [|repeat constructor; lia]. apply (cstr_bytes (mem s) _ _ (proj1 (ok_ram _ _ _ Hok)) (lo_name _ _ _ _ (ok_lock _ _ _ Hok l nm Hl))).
Qed.

Lemma show_loop_ok todo : forall seen fuel T m len, Rbtree.elements (user_wake_locks s) = seen ++ todo -> (length todo <= fuel)%nat -> Forall (fun c => 0 < c < 256) T -> printed T m len ->
  exists m' len', show_loop symbol sizeof_lock fuel active s m (buf + len) (buf + PAGE_SIZE) (head todo) = Some (m', buf + len') /\ printed (T ++ listing (wakelocks s) N active todo) m' len'.
Proof using All.
  induction todo as [|l todo IH]; intros seen fuel T m len E Hf HT Hp.
  - exists m, len. split; [by destruct fuel|]. by rewrite app_nil_r.
  - destruct fuel as [|fuel]; [simpl in Hf; lia|]. cbn [head show_loop]. pose proof (ok_tree _ _ _ Hok) as [[k Hw] He Hnd _]. assert (Hin : l ∈ Rbtree.elements (user_wake_locks s)) by (rewrite E; set_solver). pose proof Hin as [nm Hl]%He. destruct (lo_lock _ _ _ _ (ok_lock _ _ _ Hok l nm Hl)) as (v & e & Hv & _). destruct (Wakelock.vw_Some _ _ _ _ Hv) as (wl & Ewl & Evw & _).
    unfold Wakelock.wake_lock_active. rewrite Ewl. cbn [mbind option_bind]. replace (Wakelock.has wl Wakelock.WAKE_LOCK_ACTIVE) with (Wakelock.v_active v) by (by rewrite <- Evw).
    destruct (Rbtree.locate_ok l (user_wake_locks s) [] Rbtree.Black k Hw ltac:(constructor) Hin) as (cc & tl & tr & q & mm & Eloc & _). destruct (Rbtree.rb_walk_correct _ _ _ _ Eloc) as (_ & _ & ll & rr & Eel & Enext & _). assert (Hrr : todo = rr) by (apply (NoDup_middle l seen ll todo rr); [by rewrite <- E|by rewrite <- E]). subst rr.
    assert (Hnext : forall T' m' len', Forall (fun c => 0 < c < 256) T' -> printed T' m' len' -> exists m2 len2, ('(node, p) ← Rbtree.locate l (user_wake_locks s) []; show_loop symbol sizeof_lock fuel active s m' (buf + len') (buf + PAGE_SIZE) (Rbtree.rb_next node p)) = Some (m2, buf + len2) /\ printed (T' ++ listing (wakelocks s) N active todo) m2 len2).
    { intros T' m' len' HT' Hp'. rewrite Eloc. cbn [mbind option_bind]. rewrite Enext. apply (IH (seen ++ [l])); [by rewrite <- app_assoc|simpl in Hf; lia|done|done]. }
    unfold listing at 1. cbn [List.filter]. rewrite Hv. destruct (Bool.eqb (Wakelock.v_active v) active).
    + destruct (show_name T m len l nm HT Hp Hl) as (m1 & k1 & -> & Hp1). cbn [mbind option_bind]. replace (buf + len + k1) with (buf + (len + k1)) by lia. destruct (Hnext (T ++ nm ++ [32]) m1 (len + k1)) as (m2 & len2 & E2 & Hp2); [|done|].
      * apply Forall_app. split; [done|]. apply Forall_app. split; [|repeat constructor; lia]. apply (cstr_bytes (mem s) _ _ (proj1 (ok_ram _ _ _ Hok)) (lo_name _ _ _ _ (ok_lock _ _ _ Hok l nm Hl))).
      * exists m2, len2. split; [done|]. cbn [List.map concat]. unfold name_of at 1. rewrite Hl. simpl default. rewrite <- !app_assoc in Hp2. rewrite <- !app_assoc. exact Hp2.
    + cbn [mbind option_bind]. apply Hnext; done.
Qed.

(** Reading wake_lock, or wake_unlock: the names of the locks that are active, or not, in the order of the names with a blank behind each, and a newline, cut to a page and ended with a NUL; nothing else is written, and the number of characters is returned. *)
Theorem wake_lock_show_correct : let T := listing (wakelocks s) N active (Rbtree.elements (user_wake_locks s)) ++ [10] in
  StronglySorted (before N) (Rbtree.elements (user_wake_locks s)) /\
  exists m', show symbol sizeof_lock active s buf = Some (mkstate m' (user_wake_locks s) (wakelocks s), zlen (clip (PAGE_SIZE - 1) T)) /\ write_bytes (mem s) buf (clip (PAGE_SIZE - 1) T ++ [0]) = Some m'.
Proof using All.
  intros T. destruct page_ok as (Hb & Hz & Hpg). pose proof (ok_tree _ _ _ Hok) as [_ He _ Hs]. split; [done|]. unfold show. assert (Hfirst : Rbtree.rb_first (user_wake_locks s) = head (Rbtree.elements (user_wake_locks s))) by apply Rbtree.leftmost_head. rewrite Hfirst.
  destruct (show_loop_ok (Rbtree.elements (user_wake_locks s)) [] (length (Rbtree.elements (user_wake_locks s))) [] (mem s) 0) as (m1 & len & E & Hp); [done|done|constructor|by left|]. rewrite Z.add_0_r in E. rewrite E. cbn [mbind option_bind app] in *. replace (buf + PAGE_SIZE - (buf + len)) with (PAGE_SIZE - len) by lia.
  destruct (printed_step symbol Hsym (mem s) buf PAGE_SIZE Hb Hz Hbuf Hpg Hroom _ m1 len [10] [] [10] [] O (listing_bytes _ ltac:(apply Forall_forall; intros l Hl; by apply He)) Hp) as (m2 & k & E2 & [Hw Hlen]); [reflexivity|done|]. rewrite E2. cbn [mbind option_bind]. exists m2. split; [|done]. do 2 f_equal. fold T in Hlen. lia.
Qed.

End list_locks.


(** The time is cut to a [long] after it was made positive: 2^32 jiffies are no timeout at all, half as many are in the past, and the largest times wrap around to one jiffy. *)
Lemma timeout_truncated : timeout_jiffies (2 ^ 32 * 5000000) = 0 /\ timeout_jiffies (2 ^ 31 * 5000000) = - 2 ^ 31 /\ timeout_jiffies (2 ^ 64 - 1) = 1.
Proof. vm_compute. done. Qed.

(** ** Examples *)

(** "gps" and a newline in the buffer, no locks yet; "gps 20000001", a time that takes
    five jiffies *)
Definition ex_text : list Z := [103; 112; 115; 10].
Definition ex_timed : list Z := [103; 112; 115; 32; 50; 48; 48; 48; 48; 48; 48; 49].
Definition ex_user : state := mkstate (ex_text ++ replicate (Z.to_nat 16380) 0) Rbtree.Leaf Wakelock.ex_state.

Lemma ex_user_ok : ok 88 ex_user ∅.
Proof.
  split.
  - split; [apply Forall_app; split; [repeat constructor; lia|by apply Forall_replicate]|vm_compute; done].
  - exact Wakelock.ex_state_wf.
  - by eexists.
  - split; [exists 0%nat; constructor| |constructor|constructor]. intros a. rewrite lookup_empty. split; [intros H; inversion H|by intros [? ?]].
  - intros l nm. by rewrite lookup_empty.
Qed.

Definition ex_timed_user : state := mkstate (ex_timed ++ replicate (Z.to_nat 16372) 0) Rbtree.Leaf Wakelock.ex_state.

Lemma ex_timed_user_ok : ok 88 ex_timed_user ∅.
Proof.
  split.
  - split; [apply Forall_app; split; [repeat constructor; lia|by apply Forall_replicate]|vm_compute; done].
  - exact Wakelock.ex_state_wf.
  - by eexists.
  - exact (ok_tree _ _ _ ex_user_ok).
  - intros l nm. by rewrite lookup_empty.
Qed.

Lemma wake_lock_store_correct_witness : asked ex_timed = Some ([103; 112; 115], Some 20000001) /\ duration 20000001 = 5 /\
  exists s' l, wake_lock_store 5000000 88 Wakelock.ex_clock (Some 4096) ex_timed_user 0 12 = Some (s', 12) /\
    forall clk' d, later Wakelock.ex_clock clk' d -> held clk' (wakelocks s') (lock_of l) = (d <? 5).
Proof.
  split; [vm_compute; reflexivity|]. split; [vm_compute; reflexivity|].
  assert (Hk : forall a, Some 4096 = Some a -> kzalloc_ok 88 ex_timed_user ∅ 0 ex_timed (name_part ex_timed) a).
  { intros a [= <-]. split; [done|]. split; [vm_compute; discriminate|]. split; [right; vm_compute; reflexivity|]. split; [intros l n'; by rewrite lookup_empty|reflexivity]. }
  assert (Ea : asked ex_timed = Some ([103; 112; 115], Some 20000001)) by (vm_compute; reflexivity).
  pose proof (wake_lock_store_correct 88 ltac:(lia) 5000000 Wakelock.ex_clock (Some 4096) ex_timed_user ∅ 0 ex_timed 12 ex_timed_user_ok ltac:(vm_compute; repeat split; discriminate) ltac:(vm_compute; reflexivity) Hk ltac:(intros nm ns; rewrite Ea; intros [= _ <-]; vm_compute; reflexivity)) as H.
  cbv zeta in H. rewrite Ea in H. destruct H as [(_ & ? & _)|(s' & l & N' & E & _ & _ & _ & Hh & _)]; [done|].
  exists s', l. split; [exact E|]. exact Hh.
Defined.

Lemma wake_unlock_store_correct_witness : wake_unlock_store 5000000 88 Wakelock.ex_clock ex_user 0 4 = Some (ex_user, - EINVAL).
Proof.
  destruct (wake_unlock_store_correct 88 ltac:(lia) 5000000 Wakelock.ex_clock ex_user ∅ 0 ex_text 4 ex_user_ok ltac:(vm_compute; repeat split; discriminate) ltac:(vm_compute; reflexivity)) as [[_ E]|(s' & l & _ & _ & Hl & _)]; [exact E|by rewrite lookup_empty in Hl].
Defined.

Lemma wake_lock_show_correct_witness : exists m', show (fun _ _ => []) 88 true ex_user 4000 = Some (mkstate m' Rbtree.Leaf Wakelock.ex_state, 1).
Proof.
  destruct (wake_lock_show_correct (fun _ _ => []) ltac:(intros; constructor) 88 ltac:(lia) ex_user ∅ ex_user_ok 4000 true ltac:(lia) ltac:(vm_compute; discriminate) ltac:(intros l nm; by rewrite lookup_empty)) as (_ & m' & E & _). exists m'. exact E.
Defined.

(** What is locked is listed: "gps", a blank and a newline. *)
Lemma stored_then_shown :
  ('(s, _) ← wake_lock_store 5000000 88 Wakelock.ex_clock (Some 4096) ex_user 0 4;
   '(s, n) ← wake_lock_show (fun _ _ => []) 88 s 8192;
   bs ← read_bytes (mem s) 8192 (n + 1); Some bs) = Some [103; 112; 115; 32; 10; 0].
Proof. vm_compute. reflexivity. Qed.

End UserWakelock.
