(* ===== verification/BinderAlloc.v ===== *)
(** * drivers/staging/android/binder.c: the buffers of a process

    A process that uses binder maps an area in which the kernel places the data of incoming
    transactions.  The area is divided into buffers, each a header of 40 bytes followed by
    its data up to the next header or the end of the area.  The list [buffers] holds all of
    them in the order of their addresses; the free ones are also in a tree ordered by size
    and the allocated ones in a tree ordered by address ([Rbtree]).  Pages of the area are
    present only where a header or an allocated buffer needs them.

    A header is a record at its address.  [None] stands for a failed [BUG_ON] and for an
    access outside the structures.  The area ends a page or more before the end of the
    address space, so that addresses do not wrap around.  What the page allocator and the VM answer is given by
    [env]; so is what the memory of a new header holds before it is written. *)
From stdpp Require Import sorting.
From S2P Require Import Prelude Rbtree OrdTree.
Import OrdTree.

Module BinderAlloc.

Definition PAGE_SIZE : Z := 4096.
Definition PAGE_MASK (x : Z) : Z := x / PAGE_SIZE * PAGE_SIZE.
Definition PAGE_ALIGN (x : Z) : Z := (x + PAGE_SIZE - 1) / PAGE_SIZE * PAGE_SIZE.
(** [ALIGN(x, sizeof(void * ))] on [size_t] *)
Definition ALIGN4 (x : Z) : Z := u32 (x + 3) / 4 * 4.
(** [sizeof(struct binder_buffer)] *)
Definition HEADER : Z := 40.

Record binder_buffer := mkbuffer {
  free : bool; async_transaction : bool; transaction : bool; data_size : Z; offsets_size : Z }.

Definition set_free (b : binder_buffer) f := mkbuffer f (async_transaction b) (transaction b) (data_size b) (offsets_size b).

(** The parts of [struct binder_proc] that the allocator uses.  [headers] is the memory of
    the headers, [pages] the indices of the pages that are present. *)
Record binder_proc := mkproc {
  vma : option (Z * Z);
  buffer : Z;
  buffer_size : Z;
  user_buffer_offset : Z;
  buffers : list Z;
  headers : gmap Z binder_buffer;
  free_buffers : Rbtree.tree;
  allocated_buffers : Rbtree.tree;
  free_async_space : Z;
  pages : gset Z }.

Definition set_pages (p : binder_proc) x := mkproc (vma p) (buffer p) (buffer_size p) (user_buffer_offset p)
  (buffers p) (headers p) (free_buffers p) (allocated_buffers p) (free_async_space p) x.
Definition set_buffers (p : binder_proc) l := mkproc (vma p) (buffer p) (buffer_size p) (user_buffer_offset p)
  l (headers p) (free_buffers p) (allocated_buffers p) (free_async_space p) (pages p).
Definition set_header (p : binder_proc) a b := mkproc (vma p) (buffer p) (buffer_size p) (user_buffer_offset p)
  (buffers p) (<[a := b]> (headers p)) (free_buffers p) (allocated_buffers p) (free_async_space p) (pages p).
Definition set_trees (p : binder_proc) fr al := mkproc (vma p) (buffer p) (buffer_size p) (user_buffer_offset p)
  (buffers p) (headers p) fr al (free_async_space p) (pages p).
Definition set_async (p : binder_proc) n := mkproc (vma p) (buffer p) (buffer_size p) (user_buffer_offset p)
  (buffers p) (headers p) (free_buffers p) (allocated_buffers p) n (pages p).

(** For each page address whether the allocation of the page, its mapping into the kernel
    and its mapping into user space succeed; whether the task has a memory map; what the
    memory of a new header holds. *)
Record env := mkenv {
  alloc_page : Z -> bool;
  map_vm_area : Z -> bool;
  insert_page : Z -> bool;
  has_mm : bool;
  garbage : Z -> binder_buffer }.

(** ** The list *)

(** [Some (Some b)]: the entry after [a] is [b]; [Some None]: [a] is the last. *)
Fixpoint next_entry (l : list Z) (a : Z) : option (option Z) :=
  match l with
  | [] => None
  | x :: l => if x =? a then Some (head l) else next_entry l a
  end.

Fixpoint prev_entry (prev : option Z) (l : list Z) (a : Z) : option (option Z) :=
  match l with
  | [] => None
  | x :: l => if x =? a then Some prev else prev_entry (Some x) l a
  end.

Fixpoint list_add_after (new a : Z) (l : list Z) : list Z :=
  match l with
  | [] => []
  | x :: l => if x =? a then x :: new :: l else x :: list_add_after new a l
  end.

Definition list_del (a : Z) (l : list Z) : list Z := filter (fun x => x <> a) l.

Definition binder_buffer_size (p : binder_proc) (b : Z) : option Z :=
  n ← next_entry (buffers p) b;
  Some (u32 (match n with Some x => x | None => buffer p + buffer_size p end - (b + HEADER))).

(** ** The trees *)

Definition binder_insert_free_buffer (p : binder_proc) (new_buffer : Z) : option binder_proc :=
  h ← headers p !! new_buffer;
  if negb (free h) then None
  else
    new_buffer_size ← binder_buffer_size p new_buffer;
    t ← Rbtree.insert (fun b =>
          h ← headers p !! b;
          if negb (free h) then None
          else size ← binder_buffer_size p b; Some (new_buffer_size <? size)) new_buffer (free_buffers p);
    Some (set_trees p t (allocated_buffers p)).

Definition binder_insert_allocated_buffer (p : binder_proc) (new_buffer : Z) : option binder_proc :=
  h ← headers p !! new_buffer;
  if free h then None
  else
    t ← Rbtree.insert (fun b =>
          h ← headers p !! b;
          if free h then None
          else if new_buffer <? b then Some true
          else if b <? new_buffer then Some false
          else None) new_buffer (allocated_buffers p);
    Some (set_trees p (free_buffers p) t).

Fixpoint lookup_loop (p : binder_proc) (kern_ptr : Z) (n : Rbtree.tree) : option (option Z) :=
  match n with
  | Rbtree.Leaf => Some None
  | Rbtree.Node _ l b r =>
      h ← headers p !! b;
      if free h then None
      else if kern_ptr <? b then lookup_loop p kern_ptr l
      else if b <? kern_ptr then lookup_loop p kern_ptr r
      else Some (Some b)
  end.

Definition binder_buffer_lookup (p : binder_proc) (user_ptr : Z) : option (option Z) :=
  lookup_loop p (u32 (user_ptr - user_buffer_offset p - HEADER)) (allocated_buffers p).

(** ** Pages *)

Definition page_index (p : binder_proc) (page_addr : Z) : Z := (page_addr - buffer p) / PAGE_SIZE.

Definition in_area (p : binder_proc) (i : Z) : bool := (0 <=? i) && (i <? buffer_size p / PAGE_SIZE).

(** [free_range]: from [page_addr] down to [start]. *)
Fixpoint free_pages (fuel : nat) (p : binder_proc) (start page_addr : Z) : option binder_proc :=
  if start <=? page_addr then
    match fuel with
    | O => None
    | S fuel =>
        let i := page_index p page_addr in
        if in_area p i && bool_decide (i ∈ pages p)
        then free_pages fuel (set_pages p (pages p ∖ {[i]})) start (page_addr - PAGE_SIZE)
        else None
    end
  else Some p.

(** [vm_insert_page] refuses an address outside the mapping. *)
Definition vm_insert_page (e : env) (v : Z * Z) (addr : Z) (page_addr : Z) : bool :=
  (fst v <=? addr) && (addr <? snd v) && insert_page e page_addr.

(** The loop that allocates; when a step fails the page itself and those before it are
    given back. *)
Fixpoint alloc_pages (fuel : nat) (e : env) (p : binder_proc) (v : Z * Z) (start end_ page_addr : Z)
  : option (binder_proc * Z) :=
  if page_addr <? end_ then
    match fuel with
    | O => None
    | S fuel' =>
        let i := page_index p page_addr in
        if negb (in_area p i) || bool_decide (i ∈ pages p) then None
        else if alloc_page e page_addr && map_vm_area e page_addr &&
                vm_insert_page e v (u32 (page_addr + user_buffer_offset p)) page_addr
        then alloc_pages fuel' e (set_pages p ({[i]} ∪ pages p)) v start end_ (page_addr + PAGE_SIZE)
        else
          p ← free_pages (Z.to_nat ((page_addr - start) / PAGE_SIZE)) p start (page_addr - PAGE_SIZE);
          Some (p, - ENOMEM)
    end
  else Some (p, 0).

Definition binder_update_page_range (e : env) (p : binder_proc) (allocate : bool) (start end_ : Z) (v : option (Z * Z))
  : option (binder_proc * Z) :=
  if end_ <=? start then Some (p, 0)
  else
    let v := match v with Some _ => v | None => if has_mm e then vma p else None end in
    let fuel := Z.to_nat ((end_ - start) / PAGE_SIZE + 1) in
    if allocate then
      match v with
      | None => Some (p, - ENOMEM)
      | Some v => alloc_pages fuel e p v start end_ start
      end
    else
      p ← free_pages fuel p start (end_ - PAGE_SIZE);
      Some (p, - ENOMEM).

(** ** Allocation *)

(** The search in [free_buffers]: the best fit so far and whether it is exact. *)
Fixpoint best_fit_loop (p : binder_proc) (size : Z) (n : Rbtree.tree) (best_fit : option Z) : option (option Z * bool) :=
  match n with
  | Rbtree.Leaf => Some (best_fit, false)
  | Rbtree.Node _ l b r =>
      h ← headers p !! b;
      if negb (free h) then None
      else
        buffer_size ← binder_buffer_size p b;
        if size <? buffer_size then best_fit_loop p size l (Some b)
        else if buffer_size <? size then best_fit_loop p size r best_fit
        else Some (Some b, true)
  end.

(** The end of [binder_alloc_buf], once the pages are there: [b] changes trees, the rest of
    it becomes a buffer of its own when [buffer_size] has room for one. *)
Definition take_buffer (e : env) (p : binder_proc) (b size buffer_size dsize osize : Z) (is_async : bool) : option binder_proc :=
  fr ← Rbtree.erase b (free_buffers p);
  let p := set_trees p fr (allocated_buffers p) in
  h ← headers p !! b;
  p ← binder_insert_allocated_buffer (set_header p b (set_free h false)) b;
  p ← (if buffer_size =? size then Some p
       else
         let new_buffer := b + HEADER + size in
         let p := set_buffers p (list_add_after new_buffer b (buffers p)) in
         binder_insert_free_buffer (set_header p new_buffer (set_free (garbage e new_buffer) true)) new_buffer);
  h ← headers p !! b;
  let p := set_header p b (mkbuffer (free h) is_async (transaction h) dsize osize) in
  Some (if is_async then set_async p (u32 (free_async_space p - (size + HEADER))) else p).

Definition binder_alloc_buf (e : env) (p : binder_proc) (dsize osize : Z) (is_async : bool)
  : option (binder_proc * option Z) :=
  match vma p with
  | None => Some (p, None)
  | Some _ =>
      let size := u32 (ALIGN4 dsize + ALIGN4 osize) in
      if (size <? dsize) || (size <? osize) then Some (p, None)
      else if is_async && (free_async_space p <? u32 (size + HEADER)) then Some (p, None)
      else
        '(best_fit, exact) ← best_fit_loop p size (free_buffers p) None;
        match best_fit with
        | None => Some (p, None)
        | Some b =>
            buffer_size ← binder_buffer_size p b;
            let data := b + HEADER in
            let has_page_addr := PAGE_MASK (data + buffer_size) in
            let buffer_size := if (exact : bool) then buffer_size
                               else if buffer_size <=? u32 (size + HEADER + 4) then size
                               else u32 (size + HEADER) in
            let end_page_addr := Z.min (PAGE_ALIGN (data + buffer_size)) has_page_addr in
            '(p, ret) ← binder_update_page_range e p true (PAGE_ALIGN data) end_page_addr None;
            if negb (ret =? 0) then Some (p, None)
            else
              p ← take_buffer e p b size buffer_size dsize osize is_async;
              Some (p, Some b)
        end
  end.

(** ** Freeing *)

Definition buffer_start_page (b : Z) : Z := PAGE_MASK b.
Definition buffer_end_page (b : Z) : Z := PAGE_MASK (b + HEADER - 1).

Definition binder_delete_free_buffer (e : env) (p : binder_proc) (b : Z) : option binder_proc :=
  pr ← prev_entry None (buffers p) b;
  prev ← pr;
  h ← headers p !! prev;
  if negb (free h) then None
  else
    let shares_prev := buffer_end_page prev =? buffer_start_page b in
    let free_page_start := negb shares_prev in
    let free_page_end := negb (shares_prev && (buffer_end_page prev =? buffer_end_page b)) in
    nx ← next_entry (buffers p) b;
    let shares_next := match nx with Some next => buffer_start_page next =? buffer_end_page b | None => false end in
    let free_page_end := free_page_end && negb shares_next in
    let free_page_start := free_page_start &&
      negb (shares_next && match nx with Some next => buffer_start_page next =? buffer_start_page b | None => false end) in
    let p := set_buffers p (list_del b (buffers p)) in
    if free_page_start || free_page_end then
      '(p, _) ← binder_update_page_range e p false
                  (if free_page_start then buffer_start_page b else buffer_end_page b)
                  ((if free_page_end then buffer_end_page b else buffer_start_page b) + PAGE_SIZE) None;
      Some p
    else Some p.

(** The end of [binder_free_buf]: the buffer joins a free one after it, then a free one
    before it, and what results is inserted. *)
Definition free_join_next (e : env) (p : binder_proc) (b : Z) : option binder_proc :=
  nx ← next_entry (buffers p) b;
  match nx with
  | Some next =>
      hn ← headers p !! next;
      if free hn then
        fr ← Rbtree.erase next (free_buffers p);
        binder_delete_free_buffer e (set_trees p fr (allocated_buffers p)) next
      else Some p
  | None => Some p
  end.

Definition free_join_prev (e : env) (p : binder_proc) (b : Z) : option binder_proc :=
  pr ← prev_entry None (buffers p) b;
  match pr with
  | Some prev =>
      hp ← headers p !! prev;
      if free hp then
        p ← binder_delete_free_buffer e p b;
        fr ← Rbtree.erase prev (free_buffers p);
        binder_insert_free_buffer (set_trees p fr (allocated_buffers p)) prev
      else binder_insert_free_buffer p b
  | None => binder_insert_free_buffer p b
  end.

Definition binder_free_buf (e : env) (p : binder_proc) (b : Z) : option binder_proc :=
  bsize ← binder_buffer_size p b;
  h ← headers p !! b;
  let size := u32 (ALIGN4 (data_size h) + ALIGN4 (offsets_size h)) in
  if free h || (bsize <? size) || transaction h || (b <? buffer p) || (buffer p + buffer_size p <? b) then None
  else
    let p := if async_transaction h then set_async p (u32 (free_async_space p + (size + HEADER))) else p in
    '(p, _) ← binder_update_page_range e p false (PAGE_ALIGN (b + HEADER)) (PAGE_MASK (b + HEADER + bsize)) None;
    al ← Rbtree.erase b (allocated_buffers p);
    let p := set_header (set_trees p (free_buffers p) al) b (set_free h true) in
    p ← free_join_next e p b;
    free_join_prev e p b.

(** ** Mapping the area *)

Definition VM_WRITE : Z := 2.
Definition SZ_4M : Z := 0x400000.
Definition SHMLBA : Z := 4 * PAGE_SIZE.
Definition CACHE_COLOUR (vaddr : Z) : Z := Z.shiftr (Z.land vaddr (SHMLBA - 1)) 12.

(** [while (CACHE_COLOUR(vma->vm_start ^ proc->buffer)) vma->vm_start += PAGE_SIZE]; there
    are four colours. *)
Fixpoint align_colour (fuel : nat) (vm_start buf : Z) : option Z :=
  if CACHE_COLOUR (Z.lxor vm_start buf) =? 0 then Some vm_start
  else match fuel with O => None | S fuel => align_colour fuel (u32 (vm_start + PAGE_SIZE)) buf end.

(** [area] is what [get_vm_area] returns, [pages_ok] whether the array of pages could be
    allocated, [aliasing] is [cache_is_vipt_aliasing()]. *)
Definition binder_mmap (e : env) (p : binder_proc) (vm_start vm_end vm_flags : Z) (area : option Z) (pages_ok aliasing : bool)
  : option (binder_proc * Z) :=
  let vm_end := if SZ_4M <? u32 (vm_end - vm_start) then u32 (vm_start + SZ_4M) else vm_end in
  if negb (Z.land vm_flags VM_WRITE =? 0) then Some (p, - EPERM)
  else if negb (buffer p =? 0) then Some (p, - EBUSY)
  else
    match area with
    | None => Some (p, - ENOMEM)
    | Some a =>
        let offset := u32 (vm_start - a) in
        let fail sz pg := Some (mkproc (vma p) 0 sz offset (buffers p) (headers p) (free_buffers p)
                                  (allocated_buffers p) (free_async_space p) pg, - ENOMEM) in
        vm_start ← (if aliasing then align_colour 3 vm_start a else Some vm_start);
        if negb pages_ok then fail (buffer_size p) (pages p)
        else
          let size := u32 (vm_end - vm_start) in
          let q := mkproc (vma p) a size offset (buffers p) (headers p) (free_buffers p) (allocated_buffers p)
                     (free_async_space p) ∅ in
          '(q, ret) ← binder_update_page_range e q true a (a + PAGE_SIZE) (Some (vm_start, vm_end));
          if negb (ret =? 0) then fail size ∅
          else
            let q := set_header (set_buffers q [a]) a (set_free (garbage e a) true) in
            q ← binder_insert_free_buffer q a;
            Some (mkproc (Some (vm_start, vm_end)) (buffer q) (buffer_size q) (user_buffer_offset q) (buffers q) (headers q)
                    (free_buffers q) (allocated_buffers q) (buffer_size q / 2) (pages q), 0)
    end.

(** ** The layout

    Every buffer with the address at which the next one, or the end of the area, begins. *)
Fixpoint segs (l : list Z) (E : Z) : list (Z * Z) :=
  match l with
  | [] => []
  | a :: l' => (a, default E (head l')) :: segs l' E
  end.

Definition area_end (p : binder_proc) : Z := buffer p + buffer_size p.

Definition is_free (p : binder_proc) (a : Z) : bool := match headers p !! a with Some h => free h | None => false end.

(** The blocks of the area, in order: address, end and whether it is free. *)
Definition block : Type := Z * Z * bool.

Definition lblocks (fr : Z -> bool) (l : list Z) (E : Z) : list block := map (fun '(a, e) => (a, e, fr a)) (segs l E).

Definition blocks (p : binder_proc) : list block := lblocks (is_free p) (buffers p) (area_end p).

Lemma segs_app l1 b l2 E : segs (l1 ++ b :: l2) E = segs l1 b ++ segs (b :: l2) E.
Proof. induction l1 as [|a l1 IH]; [done|]. simpl. rewrite IH. destruct l1; done. Qed.

Lemma segs_fst l E : map fst (segs l E) = l.
Proof. induction l as [|a l IH]; [done|]. simpl. by rewrite IH. Qed.

Lemma elem_of_segs l E a e : (a, e) ∈ segs l E <-> exists l1 l2, l = l1 ++ a :: l2 /\ e = default E (head l2).
Proof.
  split.
  - revert a e. induction l as [|x l IH]; intros a e; simpl; [set_solver|]. intros [[= -> ->]|H]%elem_of_cons; [by exists [], l|].
    destruct (IH _ _ H) as (l1 & l2 & -> & ->). by exists (x :: l1), l2.
  - intros (l1 & l2 & -> & ->). rewrite segs_app. simpl. set_solver.
Qed.

Definition tiled (l : list Z) (E : Z) : Prop := forall a e, (a, e) ∈ segs l E -> a + HEADER <= e.

Lemma tiled_cons x l E : tiled (x :: l) E <-> x + HEADER <= default E (head l) /\ tiled l E.
Proof.
  unfold tiled. simpl. split.
  - intros H. split; [apply H; set_solver|]. intros a e Hin. apply H. set_solver.
  - intros [H1 H2] a e [[= -> ->]|Hin]%elem_of_cons; auto.
Qed.

Lemma tiled_app l1 b l2 E : tiled (l1 ++ b :: l2) E <-> tiled l1 b /\ tiled (b :: l2) E.
Proof.
  unfold tiled. rewrite segs_app. setoid_rewrite elem_of_app. split.
  - intros H. split; intros; apply H; auto.
  - intros [H1 H2] a e [?|?]; auto.
Qed.

Lemma tiled_bounds l : forall E, tiled l E -> default E (head l) <= E /\ forall a, a ∈ l -> default E (head l) <= a /\ a + HEADER <= E.
Proof.
  induction l as [|x l IH]; intros E Ht; simpl; [split; [lia|set_solver]|].
  apply tiled_cons in Ht as [Hx Ht]. destruct (IH E Ht) as [Hle Hall]. unfold HEADER in *. split; [lia|].
  intros a [->|Ha]%elem_of_cons; [lia|]. destruct (Hall a Ha). lia.
Qed.

(** A buffer [b] at its place in the list. *)
Lemma tiled_at l1 b l2 E : tiled (l1 ++ b :: l2) E ->
  (forall x, x ∈ l1 -> x + HEADER <= b) /\ b + HEADER <= default E (head l2) /\ default E (head l2) <= E /\
  (forall x, x ∈ l2 -> default E (head l2) <= x /\ x + HEADER <= E).
Proof.
  intros [H1 [Hb H2]%tiled_cons]%tiled_app. destruct (tiled_bounds _ _ H1) as [_ B1]. destruct (tiled_bounds _ _ H2) as [B2 B3].
  split_and!; try done. intros x Hx. by destruct (B1 x Hx).
Qed.

Lemma tiled_NoDup l : forall E, tiled l E -> NoDup l.
Proof.
  induction l as [|x l IH]; intros E Ht; [apply NoDup_nil_2|]. pose proof Ht as [Hx Ht']%tiled_cons. apply NoDup_cons.
  split; [|by eapply IH]. intros Hin. destruct (tiled_bounds _ _ Ht') as [_ B]. destruct (B x Hin). unfold HEADER in *. lia.
Qed.

Lemma next_entry_at l1 b l2 : b ∉ l1 -> next_entry (l1 ++ b :: l2) b = Some (head l2).
Proof.
  induction l1 as [|x l1 IH]; intros H; simpl; [by rewrite Z.eqb_refl|].
  destruct (Z.eqb_spec x b); [set_solver|]. apply IH. set_solver.
Qed.

Lemma prev_entry_at l1 b l2 : forall pr, b ∉ l1 -> prev_entry pr (l1 ++ b :: l2) b = Some (match last l1 with Some x => Some x | None => pr end).
Proof.
  induction l1 as [|x l1 IH]; intros pr H; simpl; [by rewrite Z.eqb_refl|].
  destruct (Z.eqb_spec x b); [set_solver|]. rewrite IH by set_solver. rewrite last_cons. by destruct (last l1).
Qed.

Lemma list_add_after_at new l1 b l2 : b ∉ l1 -> list_add_after new b (l1 ++ b :: l2) = l1 ++ b :: new :: l2.
Proof.
  induction l1 as [|x l1 IH]; intros H; simpl; [by rewrite Z.eqb_refl|].
  destruct (Z.eqb_spec x b); [set_solver|]. f_equal. apply IH. set_solver.
Qed.

Lemma list_del_at l1 b l2 : b ∉ l1 -> b ∉ l2 -> list_del b (l1 ++ b :: l2) = l1 ++ l2.
Proof.
  intros H1 H2. unfold list_del. rewrite filter_app, filter_cons_False by tauto. by rewrite !filter_ne_id.
Qed.

(** The area: page aligned, below the last page of the address space. *)
Record area_ok (p : binder_proc) : Prop := {
  ao_base : 0 < buffer p /\ buffer p mod PAGE_SIZE = 0;
  ao_size : PAGE_SIZE <= buffer_size p /\ buffer_size p mod PAGE_SIZE = 0;
  ao_end : area_end p <= 2 ^ 32 - PAGE_SIZE }.

Record layout (p : binder_proc) : Prop := {
  la_area : area_ok p;
  la_first : head (buffers p) = Some (buffer p);
  la_tiled : tiled (buffers p) (area_end p);
  la_aligned : Forall (fun a => a mod 4 = 0) (buffers p);
  la_headers : forall a, a ∈ buffers p -> is_Some (headers p !! a) }.

(** A buffer with its neighbours. *)
Record at_ (p : binder_proc) (l1 : list Z) (b : Z) (l2 : list Z) : Prop := {
  at_list : buffers p = l1 ++ b :: l2;
  at_l1 : b ∉ l1;
  at_l2 : b ∉ l2;
  at_below : forall x, x ∈ l1 -> x + HEADER <= b;
  at_above : forall x, x ∈ l2 -> default (area_end p) (head l2) <= x /\ x + HEADER <= area_end p;
  at_size : b + HEADER <= default (area_end p) (head l2) <= area_end p;
  at_base : buffer p <= b }.

Lemma layout_at p l1 b l2 : layout p -> buffers p = l1 ++ b :: l2 -> at_ p l1 b l2.
Proof.
  intros [La Lf Lt _ _] E. rewrite E in *. destruct (tiled_at _ _ _ _ Lt) as (H1 & H2 & H3 & H4).
  pose proof (tiled_NoDup _ _ Lt) as (_ & N1 & [N2 _]%NoDup_cons)%NoDup_app. split; try done.
  - intros Hb. apply (N1 b Hb). set_solver.
  - destruct (tiled_bounds _ _ Lt) as [_ B]. rewrite Lf in B. apply B. set_solver.
Qed.

Lemma layout_split p b : layout p -> b ∈ buffers p -> exists l1 l2, at_ p l1 b l2.
Proof. intros Hl Hb. apply list_elem_of_split in Hb as (l1 & l2 & E). exists l1, l2. by apply layout_at. Qed.

Lemma at_buffer_size p l1 b l2 :
  layout p -> at_ p l1 b l2 -> binder_buffer_size p b = Some (default (area_end p) (head l2) - (b + HEADER)).
Proof.
  intros [[[Hb _] _ He] _ _ _ _] [E N1 _ _ _ Hs Hlb]. unfold binder_buffer_size. rewrite E, next_entry_at by done. cbn [mbind option_bind].
  change (buffer p + buffer_size p) with (area_end p). unfold PAGE_SIZE, HEADER in *.
  replace (match head l2 with Some x => x | None => area_end p end) with (default (area_end p) (head l2)) by (by destruct (head l2)).
  rewrite u32_id; [done|]. unfold is_u32. lia.
Qed.

(** ** Pages, by their number in the address space *)

Definition pg (x : Z) : Z := x / PAGE_SIZE.
Definition pgup (x : Z) : Z := (x + PAGE_SIZE - 1) / PAGE_SIZE.

Definition has_page (p : binder_proc) (i : Z) : Prop := i - pg (buffer p) ∈ pages p.

(** The page is in the area. *)
Definition inside (p : binder_proc) (i : Z) : Prop := pg (buffer p) <= i < pg (area_end p).

Lemma area_end_aligned p : area_ok p -> exists k, area_end p = k * PAGE_SIZE.
Proof.
  intros [[_ H1] [_ H2] _]. unfold area_end. exists (buffer p / PAGE_SIZE + buffer_size p / PAGE_SIZE).
  rewrite (Z.div_mod (buffer p) PAGE_SIZE), (Z.div_mod (buffer_size p) PAGE_SIZE) at 1 by (unfold PAGE_SIZE; lia). lia.
Qed.

Lemma page_index_mul p i : buffer p mod PAGE_SIZE = 0 -> page_index p (i * PAGE_SIZE) = i - pg (buffer p).
Proof.
  intros H. unfold page_index, pg. unfold PAGE_SIZE in *.
  pose proof (Z.div_mod (buffer p) 4096 ltac:(lia)) as E. rewrite H in E.
  replace (i * 4096 - buffer p) with ((i - buffer p / 4096) * 4096) by lia. by rewrite Z.div_mul by lia.
Qed.

Lemma in_area_inside p i : area_ok p -> in_area p (i - pg (buffer p)) = true <-> inside p i.
Proof.
  intros [[_ Hb] [_ Hs] _]. unfold in_area, inside, pg, area_end, PAGE_SIZE in *. rewrite andb_true_iff, Z.leb_le, Z.ltb_lt.
  pose proof (Z.div_mod (buffer p) 4096 ltac:(lia)) as E1. pose proof (Z.div_mod (buffer_size p) 4096 ltac:(lia)) as E2.
  rewrite Hb in E1. rewrite Hs in E2.
  replace ((buffer p + buffer_size p) / 4096) with (buffer p / 4096 + buffer_size p / 4096); [lia|].
  rewrite E1, E2 at 2. rewrite !Z.add_0_r, <- Z.mul_add_distr_l, Z.mul_comm, Z.div_mul by lia. done.
Qed.

Lemma free_pages_ok n : forall fuel p s,
  area_ok p -> (n <= fuel)%nat ->
  (forall i, s <= i < s + Z.of_nat n -> inside p i /\ has_page p i) ->
  exists pg', free_pages fuel p (s * PAGE_SIZE) ((s + Z.of_nat n - 1) * PAGE_SIZE) = Some (set_pages p pg') /\
    forall i, i - pg (buffer p) ∈ pg' <-> has_page p i /\ ~ (s <= i < s + Z.of_nat n).
Proof.
  induction n as [|n IH]; intros fuel p s Ha Hf Hall.
  - exists (pages p). split; [|intros i; unfold has_page; split; [intros; split; [done|lia]|tauto]].
    replace (set_pages p (pages p)) with p by (by destruct p).
    destruct fuel; simpl; (destruct (Z.leb_spec (s * PAGE_SIZE) ((s + Z.of_nat 0 - 1) * PAGE_SIZE)); [unfold PAGE_SIZE in *; lia|done]).
  - destruct fuel as [|fuel]; [lia|]. cbn [free_pages].
    destruct (Z.leb_spec (s * PAGE_SIZE) ((s + Z.of_nat (S n) - 1) * PAGE_SIZE)); [|unfold PAGE_SIZE in *; lia].
    set (k := s + Z.of_nat (S n) - 1) in *. destruct (Hall k) as [Hin Hk]; [lia|].
    rewrite page_index_mul by apply Ha. rewrite (proj2 (in_area_inside p k Ha) Hin), bool_decide_eq_true_2 by exact Hk. cbn [andb].
    replace (k * PAGE_SIZE - PAGE_SIZE) with ((s + Z.of_nat n - 1) * PAGE_SIZE) by (unfold k, PAGE_SIZE; lia).
    destruct (IH fuel (set_pages p (pages p ∖ {[k - pg (buffer p)]})) s) as (pg' & E & Hpg); [by destruct Ha|lia| |].
    { intros i Hi. destruct (Hall i) as [H1 H2]; [lia|]. split; [exact H1|]. unfold has_page in *. simpl.
      apply elem_of_difference. split; [done|]. rewrite elem_of_singleton. unfold k. lia. }
    exists pg'. split; [exact E|]. intros i. rewrite Hpg. unfold has_page. simpl. rewrite elem_of_difference, elem_of_singleton.
    unfold k. split; [intros [[? ?] ?]; split; [done|lia]|intros [? ?]; split; [split; [done|lia]|lia]].
Qed.

(** The three calls for a page succeed. *)
Definition page_ok (e : env) (p : binder_proc) (v : Z * Z) (i : Z) : bool :=
  alloc_page e (i * PAGE_SIZE) && map_vm_area e (i * PAGE_SIZE) &&
  vm_insert_page e v (u32 (i * PAGE_SIZE + user_buffer_offset p)) (i * PAGE_SIZE).

Lemma alloc_pages_ok e v s n : forall fuel j p,
  area_ok p -> (n < fuel)%nat ->
  (forall i, s <= i < s + Z.of_nat j -> inside p i /\ has_page p i) ->
  (forall i, s + Z.of_nat j <= i < s + Z.of_nat (j + n) -> inside p i /\ ~ has_page p i) ->
  exists pg' r, alloc_pages fuel e p v (s * PAGE_SIZE) ((s + Z.of_nat (j + n)) * PAGE_SIZE) ((s + Z.of_nat j) * PAGE_SIZE) =
      Some (set_pages p pg', r) /\
    ((r = 0 /\ forall i, i - pg (buffer p) ∈ pg' <-> has_page p i \/ s + Z.of_nat j <= i < s + Z.of_nat (j + n)) \/
     (r = - ENOMEM /\ (exists i, s + Z.of_nat j <= i < s + Z.of_nat (j + n) /\ page_ok e p v i = false) /\
      forall i, i - pg (buffer p) ∈ pg' <-> has_page p i /\ ~ (s <= i < s + Z.of_nat j))).
Proof.
  induction n as [|n IH]; intros fuel j p Ha Hf Hold Hnew; (destruct fuel as [|fuel]; [lia|]); cbn [alloc_pages].
  - rewrite Nat.add_0_r. rewrite Z.ltb_irrefl. exists (pages p), 0. replace (set_pages p (pages p)) with p by (by destruct p).
    split; [done|]. left. split; [done|]. intros i. unfold has_page. split; [tauto|intros [?|?]; [done|lia]].
  - destruct (Z.ltb_spec ((s + Z.of_nat j) * PAGE_SIZE) ((s + Z.of_nat (j + S n)) * PAGE_SIZE)); [|unfold PAGE_SIZE in *; lia].
    set (k := s + Z.of_nat j) in *. destruct (Hnew k) as [Hin Hk]; [lia|].
    rewrite page_index_mul by apply Ha. rewrite (proj2 (in_area_inside p k Ha) Hin), bool_decide_eq_false_2 by exact Hk. cbn [negb orb].
    destruct (alloc_page e _ && _ && _) eqn:Eok.
    + replace (k * PAGE_SIZE + PAGE_SIZE) with ((s + Z.of_nat (S j)) * PAGE_SIZE) by (unfold k, PAGE_SIZE; lia).
      replace (j + S n)%nat with (S j + n)%nat by lia.
      destruct (IH fuel (S j) (set_pages p ({[k - pg (buffer p)]} ∪ pages p))) as (pg' & r & E & Hr); [by destruct Ha|lia| | |].
      * intros i Hi. unfold has_page, inside. simpl. rewrite elem_of_union, elem_of_singleton. destruct (decide (i = k)) as [->|Hne].
        -- split; [exact Hin|by left].
        -- destruct (Hold i) as [H1 H2]; [unfold k in *; lia|]. split; [exact H1|by right].
      * intros i Hi. destruct (Hnew i) as [H1 H2]; [lia|]. split; [exact H1|]. unfold has_page in *. simpl.
        rewrite elem_of_union, elem_of_singleton. unfold k. intros [?|?]; [lia|done].
      * exists pg', r. split; [exact E|]. unfold has_page in *. simpl in Hr. setoid_rewrite elem_of_union in Hr.
        setoid_rewrite elem_of_singleton in Hr. destruct Hr as [[-> Hr]|(-> & Hbad & Hr)];
          [left; split; [done|]|right; split; [done|]; split]; [| |]; try (intros i; rewrite Hr; unfold k in *).
        -- split; [intros [[?|?]|?]; [right; lia|by left|right; lia]|intros [?|?]; [auto|]]. destruct (decide (i = s + Z.of_nat j)) as [->|]; [auto|right; lia].
        -- destruct Hbad as (i & Hi & Hb). exists i. split; [lia|exact Hb].
        -- split.
           ++ intros [[?|?] ?]; [lia|]. split; [done|lia].
           ++ intros [Hi Hn]. split; [by right|]. intros Hx. assert (i = s + Z.of_nat j) as -> by lia. by apply Hk.
    + replace (k * PAGE_SIZE - s * PAGE_SIZE) with (Z.of_nat j * PAGE_SIZE) by (unfold k; lia).
      rewrite Z.div_mul, Nat2Z.id by (unfold PAGE_SIZE; lia).
      replace (k * PAGE_SIZE - PAGE_SIZE) with ((s + Z.of_nat j - 1) * PAGE_SIZE) by (unfold k; lia).
      destruct (free_pages_ok j j p s Ha ltac:(lia) Hold) as (pg' & E & Hpg). rewrite E. cbn [mbind option_bind].
      exists pg', (- ENOMEM). split; [done|]. right. split; [done|]. split; [|exact Hpg].
      exists k. split; [lia|]. exact Eok.
Qed.

(** The mapping into which pages are inserted. *)
Definition mapping (e : env) (p : binder_proc) (v : option (Z * Z)) : option (Z * Z) :=
  match v with Some _ => v | None => if has_mm e then vma p else None end.

Lemma update_alloc_ok e p s t v :
  area_ok p -> (forall i, s <= i < t -> inside p i /\ ~ has_page p i) ->
  exists pg' r, binder_update_page_range e p true (s * PAGE_SIZE) (t * PAGE_SIZE) v = Some (set_pages p pg', r) /\
    ((r = 0 /\ forall i, i - pg (buffer p) ∈ pg' <-> has_page p i \/ s <= i < t) \/
     (r = - ENOMEM /\ set_pages p pg' = p /\
      forall v', mapping e p v = Some v' -> exists i, s <= i < t /\ page_ok e p v' i = false)).
Proof.
  intros Ha Hnew. unfold binder_update_page_range.
  assert (E0 : set_pages p (pages p) = p) by (by destruct p). destruct (Z.leb_spec (t * PAGE_SIZE) (s * PAGE_SIZE)).
  - exists (pages p), 0. rewrite E0. split; [done|]. left. split; [done|]. intros i. unfold has_page, PAGE_SIZE in *. split; [tauto|intros [?|?]; [done|lia]].
  - fold (mapping e p v). destruct (mapping e p v) as [v'|].
    + set (fuel := Z.to_nat _). set (n := Z.to_nat (t - s)). assert (Ht : t = s + Z.of_nat (0 + n)) by (unfold n, PAGE_SIZE in *; lia).
      destruct (alloc_pages_ok e v' s n fuel 0 p Ha) as (pg' & r & E & Hr).
      * unfold fuel. rewrite <- Z.mul_sub_distr_r, Z.div_mul by (unfold PAGE_SIZE; lia). unfold n. lia.
      * intros i Hi. lia.
      * intros i Hi. apply Hnew. lia.
      * rewrite <- Ht, Z.add_0_r in E. rewrite E, <- Ht in *. exists pg', r. split; [done|].
        destruct Hr as [[-> Hr]|(-> & Hbad & Hr)]; [left|right]; (split; [done|]).
        -- intros i. rewrite Hr, Z.add_0_r. done.
        -- split; [|intros ? [= <-]; by rewrite Z.add_0_r in Hbad]. rewrite <- E0 at 2. f_equal. apply set_eq. intros x.
           specialize (Hr (x + pg (buffer p))). unfold has_page in Hr. rewrite Z.add_simpl_r in Hr. rewrite Hr. split; [tauto|]. intros ?. split; [done|lia].
    + exists (pages p), (- ENOMEM). rewrite E0. split; [done|]. right. done.
Qed.

Lemma update_free_ok e p s t v :
  area_ok p -> (forall i, s <= i < t -> inside p i /\ has_page p i) ->
  exists pg' r, binder_update_page_range e p false (s * PAGE_SIZE) (t * PAGE_SIZE) v = Some (set_pages p pg', r) /\
    forall i, i - pg (buffer p) ∈ pg' <-> has_page p i /\ ~ (s <= i < t).
Proof.
  intros Ha Hold. unfold binder_update_page_range. destruct (Z.leb_spec (t * PAGE_SIZE) (s * PAGE_SIZE)).
  - exists (pages p), 0. replace (set_pages p (pages p)) with p by (by destruct p). split; [done|]. intros i. unfold has_page, PAGE_SIZE in *.
    split; [intros; split; [done|lia]|tauto].
  - set (n := Z.to_nat (t - s)). assert (Ht : t = s + Z.of_nat n) by (unfold n, PAGE_SIZE in *; lia).
    destruct (free_pages_ok n (Z.to_nat ((t * PAGE_SIZE - s * PAGE_SIZE) / PAGE_SIZE + 1)) p s Ha) as (pg' & E & Hpg).
    + rewrite <- Z.mul_sub_distr_r, Z.div_mul by (unfold PAGE_SIZE; lia). unfold n. lia.
    + intros i Hi. apply Hold. lia.
    + replace (t * PAGE_SIZE - PAGE_SIZE) with ((s + Z.of_nat n - 1) * PAGE_SIZE) by (rewrite Ht; lia). rewrite E. cbn [mbind option_bind].
      exists pg', (- ENOMEM). split; [done|]. intros i. rewrite Hpg, <- Ht. done.
Qed.

(** ** The invariant *)

Definition sz (p : binder_proc) (a : Z) : Z := default 0 (binder_buffer_size p a).

(** A page is needed for a header or inside an allocated buffer. *)
Definition needs (k : block) (i : Z) : Prop :=
  let '(a, e, f) := k in pg a <= i <= pg (a + HEADER - 1) \/ (f = false /\ pgup (a + HEADER) <= i < pg e).

Definition needed (B : list block) (i : Z) : Prop := exists k, k ∈ B /\ needs k i.

(** No free block follows a free block. *)
Fixpoint coalesced (B : list block) : Prop :=
  match B with
  | [] => True
  | (_, _, f) :: B' => match B' with (_, _, f') :: _ => f && f' = false | [] => True end /\ coalesced B'
  end.

(** The part of a buffer that was asked for. *)
Definition request (h : binder_buffer) : Z := u32 (ALIGN4 (data_size h) + ALIGN4 (offsets_size h)).

Definition async_cost (p : binder_proc) (a : Z) : Z :=
  match headers p !! a with
  | Some h => if negb (free h) && async_transaction h then request h + HEADER else 0
  | None => 0
  end.

Definition async_sum (p : binder_proc) (l : list Z) : Z := foldr Z.add 0 (map (async_cost p) l).
Definition async_used (p : binder_proc) : Z := async_sum p (buffers p).

(** The buffers whose [free] is [f]. *)
Definition with_free (p : binder_proc) (f : bool) (a : Z) : Prop := a ∈ buffers p /\ is_free p a = f.

Definition by_size (p : binder_proc) (a b : Z) : Prop := sz p a <= sz p b.

Record wf (p : binder_proc) : Prop := {
  wf_layout : layout p;
  wf_coalesced : coalesced (blocks p);
  wf_free : tree_ok (free_buffers p) (with_free p true) (by_size p);
  wf_alloc : tree_ok (allocated_buffers p) (with_free p false) Z.lt;
  wf_fits : forall a h, a ∈ buffers p -> headers p !! a = Some h -> free h = false -> request h <= sz p a;
  wf_pages : forall i, has_page p i <-> needed (blocks p) i;
  wf_async : free_async_space p + async_used p = buffer_size p / 2 /\ 0 <= free_async_space p }.

(** ** Searching and inserting *)

Lemma layout_size p a : layout p -> a ∈ buffers p -> binder_buffer_size p a = Some (sz p a).
Proof. intros Hl Ha. destruct (layout_split p a Hl Ha) as (l1 & l2 & Hat). unfold sz. by rewrite (at_buffer_size _ _ _ _ Hl Hat). Qed.

Lemma is_free_header p a : is_free p a = true -> exists h, headers p !! a = Some h /\ free h = true.
Proof. unfold is_free. destruct (headers p !! a); [eauto|done]. Qed.

Lemma best_fit_loop_ok p size t : forall best,
  layout p -> (forall a, a ∈ Rbtree.elements t -> a ∈ buffers p /\ is_free p a = true) -> StronglySorted (by_size p) (Rbtree.elements t) ->
  exists r exact, best_fit_loop p size t best = Some (r, exact) /\
    if exact then exists b, r = Some b /\ b ∈ Rbtree.elements t /\ sz p b = size
    else (r = best /\ forall x, x ∈ Rbtree.elements t -> sz p x < size) \/
         (exists b, r = Some b /\ b ∈ Rbtree.elements t /\ size < sz p b /\
            forall x, x ∈ Rbtree.elements t -> size <= sz p x -> sz p b <= sz p x).
Proof.
  induction t as [|c l IHl b r IHr]; intros best Hl Hall Hs; simpl in *.
  - exists best, false. split; [done|]. left. split; [done|set_solver].
  - destruct (Hall b ltac:(set_solver)) as [Hb Hf]. destruct (is_free_header p b Hf) as (h & -> & Eh). cbn [mbind option_bind]. rewrite Eh. cbn [negb].
    rewrite (layout_size p b Hl Hb). cbn [mbind option_bind]. destruct (sorted_app_inv _ _ _ _ Hs) as (S1 & S2 & S3 & S4).
    unfold by_size in S3, S4. destruct (Z.ltb_spec size (sz p b)).
    + destruct (IHl (Some b) Hl ltac:(intros; apply Hall; set_solver) S1) as (q & ex & -> & Hq). exists q, ex. split; [done|].
      destruct ex; [destruct Hq as (x & -> & ? & ?); exists x; set_solver|]. right.
      destruct Hq as [[-> Hq]|(x & -> & Hx & Hlt & Hmin)].
      * exists b. split_and!; [done|set_solver|done|]. intros x Hx Hle. apply elem_of_app in Hx as [Hx|[->|Hx]%elem_of_cons]; [specialize (Hq x Hx); lia|lia|auto].
      * exists x. split_and!; [done|set_solver|done|]. intros y Hy Hle. apply elem_of_app in Hy as [Hy|[->|Hy]%elem_of_cons]; [auto|auto|].
        specialize (S3 x Hx). specialize (S4 y Hy). lia.
    + destruct (Z.ltb_spec (sz p b) size).
      * destruct (IHr best Hl ltac:(intros; apply Hall; set_solver) S2) as (q & ex & -> & Hq). exists q, ex. split; [done|].
        destruct ex; [destruct Hq as (x & -> & ? & ?); exists x; set_solver|].
        assert (Hlow : forall x, x ∈ Rbtree.elements l ++ [b] -> sz p x < size).
        { intros x [Hx|Hx]%elem_of_app; [specialize (S3 x Hx); lia|]. apply list_elem_of_singleton in Hx as ->. lia. }
        destruct Hq as [[-> Hq]|(x & -> & Hx & Hlt & Hmin)]; [left|right].
        -- split; [done|]. intros x Hx. apply elem_of_app in Hx as [Hx|[->|Hx]%elem_of_cons]; [apply Hlow; set_solver|lia|auto].
        -- exists x. split_and!; [done|set_solver|done|]. intros y Hy Hle.
           apply elem_of_app in Hy as [Hy|[->|Hy]%elem_of_cons]; [specialize (Hlow y ltac:(set_solver)); lia|lia|auto].
      * exists (Some b), true. split; [done|]. exists b. split_and!; [done|set_solver|lia].
Qed.

#[local] Instance by_size_trans p : Transitive (by_size p).
Proof. intros a b c. unfold by_size. lia. Qed.

#[local] Instance Zlt_trans : Transitive Z.lt.
Proof. intros a b c. lia. Qed.

Lemma insert_free_ok p x P :
  layout p -> with_free p true x -> ~ P x -> (forall a, P a -> with_free p true a) -> tree_ok (free_buffers p) P (by_size p) ->
  exists t', binder_insert_free_buffer p x = Some (set_trees p t' (allocated_buffers p)) /\ tree_ok t' (fun a => a = x \/ P a) (by_size p).
Proof.
  intros Hl [Hx Hfx] Hnx HP Ht. unfold binder_insert_free_buffer. destruct (is_free_header p x Hfx) as (h & -> & Eh). cbn [mbind option_bind].
  rewrite Eh. cbn [negb]. rewrite (layout_size p x Hl Hx). cbn [mbind option_bind].
  match goal with |- context [Rbtree.insert ?g x _] => set (go := g) end.
  destruct (tree_insert _ P (by_size p) go x Ht Hnx) as (t' & -> & Ht').
  - intros y Hy. destruct (HP y Hy) as [Hin Hf]. unfold go. destruct (is_free_header p y Hf) as (hy & -> & Ey). cbn [mbind option_bind].
    rewrite Ey, (layout_size p y Hl Hin). cbn [negb mbind option_bind]. eexists. split; [done|]. unfold by_size. destruct (Z.ltb_spec (sz p x) (sz p y)); lia.
  - exists t'. done.
Qed.

Lemma is_free_false p a : layout p -> a ∈ buffers p -> is_free p a = false -> exists h, headers p !! a = Some h /\ free h = false.
Proof. intros Hl Ha. destruct (la_headers p Hl a Ha) as [h E]. unfold is_free. rewrite E. eauto. Qed.

Lemma insert_allocated_ok p x P :
  layout p -> with_free p false x -> ~ P x -> (forall a, P a -> with_free p false a) -> tree_ok (allocated_buffers p) P Z.lt ->
  exists t', binder_insert_allocated_buffer p x = Some (set_trees p (free_buffers p) t') /\ tree_ok t' (fun a => a = x \/ P a) Z.lt.
Proof.
  intros Hl [Hx Hfx] Hnx HP Ht. unfold binder_insert_allocated_buffer. destruct (is_free_false p x Hl Hx Hfx) as (h & -> & Eh). cbn [mbind option_bind].
  rewrite Eh. match goal with |- context [Rbtree.insert ?g x _] => set (go := g) end.
  destruct (tree_insert _ P Z.lt go x Ht Hnx) as (t' & -> & Ht').
  - intros y Hy. destruct (HP y Hy) as [Hin Hf]. unfold go. destruct (is_free_false p y Hl Hin Hf) as (hy & -> & Ey). cbn [mbind option_bind].
    rewrite Ey. destruct (Z.ltb_spec x y); [by exists true|]. destruct (Z.ltb_spec y x); [by exists false|].
    assert (x = y) as <- by lia. done.
  - exists t'. done.
Qed.

Lemma lookup_loop_ok p k t :
  layout p -> (forall a, a ∈ Rbtree.elements t -> with_free p false a) -> StronglySorted Z.lt (Rbtree.elements t) ->
  lookup_loop p k t = Some (if bool_decide (k ∈ Rbtree.elements t) then Some k else None).
Proof.
  intros Hl. induction t as [|c l IHl b r IHr]; intros Hall Hs; simpl in *; [done|].
  destruct (Hall b ltac:(set_solver)) as [Hb Hf]. destruct (is_free_false p b Hl Hb Hf) as (h & -> & Eh). cbn [mbind option_bind]. rewrite Eh.
  destruct (sorted_app_inv _ _ _ _ Hs) as (S1 & S2 & S3 & S4). specialize (IHl ltac:(intros; apply Hall; set_solver) S1).
  specialize (IHr ltac:(intros; apply Hall; set_solver) S2).
  destruct (Z.ltb_spec k b); [|destruct (Z.ltb_spec b k)].
  - rewrite IHl. erewrite bool_decide_ext; [done|]. rewrite elem_of_app, elem_of_cons. split; [auto|]. intros [?|[?|Hk]]; [done|lia|specialize (S4 k Hk); lia].
  - rewrite IHr. erewrite bool_decide_ext; [done|]. rewrite elem_of_app, elem_of_cons. split; [auto|]. intros [Hk|[?|?]]; [specialize (S3 k Hk); lia|lia|done].
  - rewrite bool_decide_eq_true_2 by (assert (k = b) as -> by lia; set_solver). do 2 f_equal. lia.
Qed.

(** ** Blocks *)

Ltac pg_lia := unfold pg, pgup, PAGE_SIZE, HEADER in *; Z.to_euclidean_division_equations; lia.

Lemma lblocks_at fr l1 b l2 E :
  lblocks fr (l1 ++ b :: l2) E = lblocks fr l1 b ++ (b, default E (head l2), fr b) :: lblocks fr l2 E.
Proof. unfold lblocks. by rewrite segs_app, map_app. Qed.

Lemma lblocks_ext fr fr' l E : (forall a, a ∈ l -> fr a = fr' a) -> lblocks fr l E = lblocks fr' l E.
Proof.
  intros H. unfold lblocks. apply map_ext_in. intros [a e] Hin. f_equal. apply H. rewrite <- (segs_fst l E).
  apply list_elem_of_In, in_map_iff. by exists (a, e).
Qed.

Lemma elem_of_lblocks fr l E a e f : (a, e, f) ∈ lblocks fr l E <-> (a, e) ∈ segs l E /\ f = fr a.
Proof. unfold lblocks. rewrite list_elem_of_fmap. split; [intros ([a' e'] & [= -> -> ->] & H); done|intros [H ->]; by exists (a, e)]. Qed.

Lemma needed_app B1 B2 i : needed (B1 ++ B2) i <-> needed B1 i \/ needed B2 i.
Proof. unfold needed. setoid_rewrite elem_of_app. naive_solver. Qed.

Lemma needed_cons k B i : needed (k :: B) i <-> needs k i \/ needed B i.
Proof. unfold needed. setoid_rewrite elem_of_cons. naive_solver. Qed.

Lemma needed_nil i : ~ needed [] i.
Proof. intros (k & Hk & _). set_solver. Qed.

Lemma needed_bounds fr l E i : tiled l E -> needed (lblocks fr l E) i -> pg (default E (head l)) <= i <= pg (E - 1).
Proof.
  intros Ht ([[a e] f] & Hin & Hn). apply elem_of_lblocks in Hin as [Hin ->].
  pose proof (Ht a e Hin) as Hae. apply elem_of_segs in Hin as (l1 & l2 & -> & ->). destruct (tiled_bounds _ _ Ht) as [_ B].
  destruct (B a ltac:(set_solver)) as [B1 B2]. destruct (tiled_at _ _ _ _ Ht) as (_ & _ & B3 & _).
  revert B1. generalize (default E (head (l1 ++ a :: l2))) as lo. intros lo B1. destruct Hn as [Hn|[_ Hn]]; pg_lia.
Qed.

Definition first_free (B : list block) : bool := match B with (_, _, f) :: _ => f | [] => false end.
Definition last_free (B : list block) : bool := match last B with Some (_, _, f) => f | None => false end.

Lemma coalesced_cons a e f B : coalesced ((a, e, f) :: B) <-> f && first_free B = false /\ coalesced B.
Proof. destruct B as [|[[a' e'] f'] B]; simpl; [rewrite andb_false_r|]; tauto. Qed.

Lemma coalesced_app B1 B2 : coalesced (B1 ++ B2) <-> coalesced B1 /\ coalesced B2 /\ last_free B1 && first_free B2 = false.
Proof.
  induction B1 as [|[[a e] f] B1 IH]; [cbn; tauto|]. cbn [app]. rewrite !coalesced_cons, IH. unfold last_free. rewrite last_cons.
  destruct B1 as [|[[a' e'] f'] B1]; [cbn; rewrite andb_false_r; tauto|]. destruct (last (_ :: B1)) eqn:E; [tauto|]. by apply last_None in E.
Qed.

Lemma needed_whole B1 b e B2 i :
  needed (B1 ++ (b, e, false) :: B2) i <-> needed (B1 ++ (b, e, true) :: B2) i \/ pgup (b + HEADER) <= i < pg e.
Proof. rewrite !needed_app, !needed_cons. unfold needs. naive_solver. Qed.

Lemma needed_split B1 b new e B2 i :
  b + HEADER <= new -> new + HEADER <= e -> (pg (new + HEADER - 1) = pg e -> needed B2 (pg e)) ->
  needed (B1 ++ (b, new, false) :: (new, e, true) :: B2) i <->
  needed (B1 ++ (b, e, true) :: B2) i \/ pgup (b + HEADER) <= i < Z.min (pgup (new + HEADER)) (pg e).
Proof.
  intros H1 H2 H3. rewrite !needed_app, !needed_cons. unfold needs. split.
  - intros [?|[[?|[_ ?]]|[[?|[? _]]|?]]]; [tauto|tauto|right; pg_lia| |done|tauto].
    destruct (Z_lt_dec i (pgup (b + HEADER))); [left; right; left; left; pg_lia|].
    destruct (Z_lt_dec i (pg e)); [right; pg_lia|]. left; right; right. assert (pg (new + HEADER - 1) = pg e) as Ee by pg_lia.
    specialize (H3 Ee). by replace i with (pg e) by pg_lia.
  - intros [[?|[[?|[? _]]|?]]|?]; [tauto|tauto|done|tauto|]. destruct (Z_lt_dec i (pg new)); [right; left; right; split; [done|lia]|].
    right; right; left; left. pg_lia.
Qed.

(** The pages of the header of [b] are needed by nothing else, except the first by a
    header before it and the last by a header after it. *)
Lemma needed_delete fr l1 a b l2 E i :
  tiled (l1 ++ a :: b :: l2) E -> fr a = true -> fr b = true ->
  needed (lblocks fr (l1 ++ a :: l2) E) i <->
  needed (lblocks fr (l1 ++ a :: b :: l2) E) i /\
  ~ (pg b <= i <= pg (b + HEADER - 1) /\ i <> pg (a + HEADER - 1) /\ forall x, head l2 = Some x -> i <> pg x).
Proof.
  intros Ht Ha Hb. pose proof Ht as [T1 [Tab [Tb T2]%tiled_cons]%tiled_cons]%tiled_app. simpl in Tab.
  rewrite !lblocks_at, !needed_app, !needed_cons. change (b :: l2) with ([] ++ b :: l2). rewrite lblocks_at. cbn [head default lblocks segs map app].
  rewrite needed_cons, Ha, Hb. unfold needs. pose proof (needed_bounds fr l1 a i T1) as N1. pose proof (needed_bounds fr l2 E i T2) as N2.
  assert (Hlo : forall x, head l2 = Some x -> b + HEADER <= x) by (intros x Ex; rewrite Ex in Tb; exact Tb).
  split.
  - intros [H|[[H|[? _]]|H]]; [|  |done|].
    + split; [tauto|]. specialize (N1 H). intros (H1 & H2 & _). pg_lia.
    + split; [tauto|]. intros (H1 & H2 & _). pg_lia.
    + split; [tauto|]. specialize (N2 H). destruct l2 as [|x l2]; [by apply needed_nil in H|]. simpl in N2.
      intros (H1 & _ & H3). specialize (H3 x eq_refl). specialize (Hlo x eq_refl). pg_lia.
  - intros [[H|[[H|[? _]]|[[H|[? _]]|H]]] Hn]; [tauto|tauto|done| |done|tauto].
    destruct (Z.eq_dec i (pg (a + HEADER - 1))) as [->|Hne]; [right; left; left; pg_lia|].
    destruct l2 as [|x l2]; [exfalso; apply Hn; split_and!; [lia|lia|lia|done]|].
    destruct (Z.eq_dec i (pg x)) as [->|Hnx]; [|exfalso; apply Hn; split_and!; [lia|lia|lia|by intros ? [= <-]]].
    right; right. change (x :: l2) with ([] ++ x :: l2). rewrite lblocks_at. simpl. rewrite needed_cons. left. left. pg_lia.
Qed.

(** ** Changes of the list *)

Definition same_area (p q : binder_proc) : Prop := buffer q = buffer p /\ buffer_size q = buffer_size p.

Lemma area_same p q : same_area p q -> area_ok p -> area_ok q /\ area_end q = area_end p.
Proof. intros [E1 E2] [? ? ?]. unfold area_end in *. rewrite E1, E2. split; [split; unfold area_end; rewrite ?E1, ?E2; done|done]. Qed.

Lemma layout_same p q :
  layout p -> same_area p q -> buffers q = buffers p -> (forall a, a ∈ buffers p -> is_Some (headers q !! a)) -> layout q.
Proof.
  intros [La Lf Lt Lal Lh] Hs E Hh. destruct (area_same p q Hs La) as [Ha Ee]. split; [done| | | |].
  - rewrite E. by destruct Hs as [-> _].
  - by rewrite E, Ee.
  - by rewrite E.
  - by rewrite E.
Qed.

Lemma layout_add p q l1 b new l2 :
  layout p -> same_area p q -> buffers p = l1 ++ b :: l2 -> buffers q = l1 ++ b :: new :: l2 ->
  b + HEADER <= new -> new + HEADER <= default (area_end p) (head l2) -> new mod 4 = 0 ->
  (forall a, a ∈ buffers p -> is_Some (headers q !! a)) -> is_Some (headers q !! new) -> layout q.
Proof.
  intros [La Lf Lt Lal Lh] Hs E1 E2 H1 H2 H4 Hh Hn. destruct (area_same p q Hs La) as [Ha Ee]. rewrite E1 in *. split; [done| | | |]; rewrite E2.
  - destruct Hs as [-> _]. by destruct l1.
  - rewrite Ee. apply tiled_app in Lt as [T1 [T2 T3]%tiled_cons]. apply tiled_app. split; [done|]. by rewrite !tiled_cons.
  - rewrite Forall_app, !Forall_cons in *. tauto.
  - intros a Hin. destruct (decide (a = new)) as [->|]; [done|]. apply Hh. set_solver.
Qed.

Lemma layout_remove p q l1 a b l2 :
  layout p -> same_area p q -> buffers p = l1 ++ a :: b :: l2 -> buffers q = l1 ++ a :: l2 ->
  (forall x, x ∈ buffers p -> is_Some (headers q !! x)) -> layout q.
Proof.
  intros [La Lf Lt Lal Lh] Hs E1 E2 Hh. destruct (area_same p q Hs La) as [Ha Ee]. rewrite E1 in *. split; [done| | | |]; rewrite E2.
  - destruct Hs as [-> _]. by destruct l1.
  - rewrite Ee. apply tiled_app in Lt as [T1 [T2 [T3 T4]%tiled_cons]%tiled_cons]. apply tiled_app. split; [done|]. rewrite tiled_cons. split; [|done].
    simpl in T2. unfold HEADER in *. lia.
  - rewrite Forall_app, !Forall_cons in *. tauto.
  - intros x Hin. apply Hh. set_solver.
Qed.

Definition pages_ok (p : binder_proc) : Prop := forall i, has_page p i <-> needed (blocks p) i.

Lemma layout_inside p i : layout p -> needed (blocks p) i -> inside p i.
Proof.
  intros Hl Hn. pose proof (needed_bounds _ _ _ _ (la_tiled p Hl) Hn) as B. rewrite (la_first p Hl) in B. simpl in B.
  destruct (la_area p Hl) as [[_ H1] [_ H2] _]. unfold inside, area_end in *. revert B H1 H2. generalize (buffer p) (buffer_size p). intros. pg_lia.
Qed.

(** The range of pages that [binder_delete_free_buffer] releases. *)
Lemma delete_range (A S N : Z) (X : option Z) :
  A <= S <= N -> N <= S + 1 -> (forall x, X = Some x -> N <= x) ->
  let shares_prev := A * PAGE_SIZE =? S * PAGE_SIZE in
  let shares_next := match X with Some x => x * PAGE_SIZE =? N * PAGE_SIZE | None => false end in
  let fe := negb (shares_prev && (A * PAGE_SIZE =? N * PAGE_SIZE)) && negb shares_next in
  let fs := negb shares_prev && negb (shares_next && match X with Some x => x * PAGE_SIZE =? S * PAGE_SIZE | None => false end) in
  forall i, (S <= i <= N /\ i <> A /\ forall x, X = Some x -> i <> x) <->
    (fs || fe = true /\ (if fs then S else N) <= i < (if fe then N else S) + 1).
Proof.
  intros H1 H2 H3. cbv zeta. intros i. destruct X as [x|]; [specialize (H3 x eq_refl)|].
  - assert ((forall y, Some x = Some y -> i <> y) <-> i <> x) as -> by (split; [intros H; by apply H|by intros ? ? [= <-]]). unfold PAGE_SIZE.
    destruct (Z.eqb_spec (A * 4096) (S * 4096)), (Z.eqb_spec (A * 4096) (N * 4096)), (Z.eqb_spec (x * 4096) (N * 4096)), (Z.eqb_spec (x * 4096) (S * 4096));
      cbn [andb orb negb]; lia.
  - assert ((forall y : Z, None = Some y -> i <> y) <-> True) as -> by (split; [done|by intros]). unfold PAGE_SIZE.
    destruct (Z.eqb_spec (A * 4096) (S * 4096)), (Z.eqb_spec (A * 4096) (N * 4096)); cbn [andb orb negb]; lia.
Qed.

Lemma delete_free_ok e p l1 a b l2 :
  layout p -> pages_ok p -> buffers p = l1 ++ a :: b :: l2 -> is_free p a = true -> is_free p b = true ->
  exists pg', binder_delete_free_buffer e p b = Some (set_pages (set_buffers p (l1 ++ a :: l2)) pg') /\
    pages_ok (set_pages (set_buffers p (l1 ++ a :: l2)) pg').
Proof.
  intros Hl Hp E Ha Hb. assert (E' : buffers p = (l1 ++ [a]) ++ b :: l2) by (by simplify_list_eq).
  pose proof (layout_at p _ b l2 Hl E') as [_ N1 N2 Bl Ab _ _]. unfold binder_delete_free_buffer.
  rewrite E', prev_entry_at, last_snoc, next_entry_at, list_del_at by done. cbn [mbind option_bind].
  destruct (is_free_header p a Ha) as (h & -> & Eh). cbn [mbind option_bind]. rewrite Eh. cbn [negb].
  replace ((l1 ++ [a]) ++ l2) with (l1 ++ a :: l2) by (by simplify_list_eq). set (q := set_buffers p (l1 ++ a :: l2)).
  pose proof (delete_range (pg (a + HEADER - 1)) (pg b) (pg (b + HEADER - 1)) (option_map pg (head l2))) as R.
  pose proof (la_tiled p Hl) as Ht. rewrite E in Ht. pose proof Ht as [_ [Tab [Tb T2]%tiled_cons]%tiled_cons]%tiled_app. simpl in Tab.
  specialize (R ltac:(pg_lia) ltac:(pg_lia)).
  assert (R0 : forall x, option_map pg (head l2) = Some x -> pg (b + HEADER - 1) <= x).
  { intros x Ex. destruct l2 as [|y l2]; [done|]. injection Ex as <-. simpl in Tb. pg_lia. }
  specialize (R R0). clear R0. cbv zeta in R.
  change (buffer_end_page a) with (pg (a + HEADER - 1) * PAGE_SIZE). change (buffer_start_page b) with (pg b * PAGE_SIZE).
  change (buffer_end_page b) with (pg (b + HEADER - 1) * PAGE_SIZE).
  replace (match head l2 with Some next => buffer_start_page next =? pg (b + HEADER - 1) * PAGE_SIZE | None => false end) with
    (match option_map pg (head l2) with Some x => x * PAGE_SIZE =? pg (b + HEADER - 1) * PAGE_SIZE | None => false end) by (by destruct (head l2)).
  replace (match head l2 with Some next => buffer_start_page next =? pg b * PAGE_SIZE | None => false end) with
    (match option_map pg (head l2) with Some x => x * PAGE_SIZE =? pg b * PAGE_SIZE | None => false end) by (by destruct (head l2)).
  match type of R with forall i, _ <-> (?x || ?y = true /\ _) => set (fs := x) in *; set (fe := y) in * end. clearbody fs fe.
  assert (Hneed : forall i, needed (blocks q) i <-> has_page p i /\ ~ (fs || fe = true /\ (if fs then pg b else pg (b + HEADER - 1)) <= i < (if fe then pg (b + HEADER - 1) else pg b) + 1)).
  { intros i. rewrite <- R, (Hp i). change (blocks q) with (lblocks (is_free p) (l1 ++ a :: l2) (area_end p)). unfold blocks.
    rewrite E, (needed_delete (is_free p) l1 a b l2 (area_end p) i Ht Ha Hb).
    destruct l2 as [|y l2]; simpl; split; intros [? HN]; (split; [done|]); intros (? & ? & HX); apply HN; split_and!; try done; try lia.
    - intros x [= <-]. by apply HX.
    - intros x [= <-]. by apply HX. }
  destruct (fs || fe) eqn:Ef.
  - replace (if fs then pg b * PAGE_SIZE else pg (b + HEADER - 1) * PAGE_SIZE) with ((if fs then pg b else pg (b + HEADER - 1)) * PAGE_SIZE) by (by destruct fs).
    replace ((if fe then pg (b + HEADER - 1) * PAGE_SIZE else pg b * PAGE_SIZE) + PAGE_SIZE) with
      (((if fe then pg (b + HEADER - 1) else pg b) + 1) * PAGE_SIZE) by (destruct fe; lia).
    destruct (update_free_ok e q (if fs then pg b else pg (b + HEADER - 1)) ((if fe then pg (b + HEADER - 1) else pg b) + 1) None) as (pg' & r & -> & Hpg).
    + by destruct (la_area p Hl).
    + intros i Hi. assert (Hin : needed (blocks p) i).
      { unfold blocks. rewrite E', lblocks_at, needed_app, needed_cons. right. left. left. apply R. done. }
      split; [apply (layout_inside p i Hl Hin)|]. by apply (Hp i).
    + cbn [mbind option_bind]. exists pg'. split; [done|]. intros i. unfold has_page. change (buffer (set_pages q pg')) with (buffer q). cbn [pages set_pages].
      rewrite Hpg. change (blocks (set_pages q pg')) with (blocks q). rewrite Hneed. change (has_page q i) with (has_page p i). tauto.
  - exists (pages p). split; [by destruct p|]. intros i. change (blocks (set_pages q (pages p))) with (blocks q). rewrite Hneed. change (has_page (set_pages q (pages p)) i) with (has_page p i).
    split; [intros; split; [done|]; by intros []|tauto].
Qed.

(** ** Sizes and costs *)

Lemma segs_total l E x : x ∈ l -> exists e, (x, e) ∈ segs l E.
Proof. intros (l1 & l2 & ->)%list_elem_of_split. exists (default E (head l2)). apply elem_of_segs. eauto. Qed.

Lemma sz_seg p x e : layout p -> (x, e) ∈ segs (buffers p) (area_end p) -> sz p x = e - (x + HEADER).
Proof.
  intros Hl (l1 & l2 & E & ->)%elem_of_segs. unfold sz. by rewrite (at_buffer_size p l1 x l2 Hl (layout_at p l1 x l2 Hl E)).
Qed.

Lemma sz_at p l1 b l2 : layout p -> buffers p = l1 ++ b :: l2 -> sz p b = default (area_end p) (head l2) - (b + HEADER).
Proof. intros Hl E. apply (sz_seg p b _ Hl). rewrite E. apply elem_of_segs. eauto. Qed.

(** A buffer whose neighbour stays keeps its size. *)
Lemma sz_same p q l1 b m m' l2 x :
  layout p -> layout q -> same_area p q -> buffers p = l1 ++ b :: m ++ l2 -> buffers q = l1 ++ b :: m' ++ l2 -> x ∈ l1 \/ x ∈ l2 -> sz q x = sz p x.
Proof.
  intros Hp Hq Hs E1 E2 Hx. destruct (area_same p q Hs (la_area p Hp)) as [_ Ee].
  assert (exists e, (x, e) ∈ segs (buffers p) (area_end p) /\ (x, e) ∈ segs (buffers q) (area_end p)) as (e & H1 & H2).
  { rewrite E1, E2, !segs_app. change (b :: m ++ l2) with ((b :: m) ++ l2). change (b :: m' ++ l2) with ((b :: m') ++ l2).
    destruct Hx as [Hx|Hx].
    - destruct (segs_total l1 b x Hx) as [e He]. exists e. rewrite !elem_of_app. tauto.
    - destruct l2 as [|y l2]; [set_solver|]. destruct (segs_total (y :: l2) (area_end p) x Hx) as [e He]. exists e. rewrite !segs_app, !elem_of_app. tauto. }
  rewrite (sz_seg p x e Hp H1). apply sz_seg; [done|]. by rewrite Ee.
Qed.

Lemma async_sum_app p l1 l2 : async_sum p (l1 ++ l2) = async_sum p l1 + async_sum p l2.
Proof. unfold async_sum. induction l1 as [|a l1 IH]; simpl; [done|]. rewrite IH. lia. Qed.

Lemma async_sum_cons p a l : async_sum p (a :: l) = async_cost p a + async_sum p l.
Proof. done. Qed.

Lemma async_sum_same p q l : (forall a, a ∈ l -> headers q !! a = headers p !! a) -> async_sum q l = async_sum p l.
Proof.
  induction l as [|a l IH]; intros H; [done|]. rewrite !async_sum_cons. rewrite IH by set_solver. unfold async_cost. rewrite H by set_solver. done.
Qed.

Lemma async_cost_free p a : is_free p a = true -> async_cost p a = 0.
Proof. unfold is_free, async_cost. destruct (headers p !! a); [|done]. by intros ->. Qed.

Lemma request_nonneg h : 0 <= request h.
Proof. unfold request. by destruct (u32_range (ALIGN4 (data_size h) + ALIGN4 (offsets_size h))). Qed.

Lemma async_sum_nonneg p l : 0 <= async_sum p l.
Proof.
  induction l as [|a l IH]; [done|]. rewrite async_sum_cons. unfold async_cost. destruct (headers p !! a) as [h|]; [|lia].
  pose proof (request_nonneg h). unfold HEADER. destruct (negb (free h) && async_transaction h); lia.
Qed.

Lemma is_free_same p q a : headers q !! a = headers p !! a -> is_free q a = is_free p a.
Proof. unfold is_free. by intros ->. Qed.

(** ** The abstract blocks

    [release b] marks the block at [b] free, [coalesce] joins neighbouring free blocks. *)
Definition release (b : Z) (B : list block) : list block := map (fun '(a, e, f) => (a, e, f || (a =? b))) B.

Fixpoint coalesce (B : list block) : list block :=
  match B with
  | [] => []
  | (a, e, f) :: B' =>
      match coalesce B' with
      | (a', e', f') :: B'' => if f && f' then (a, e', true) :: B'' else (a, e, f) :: (a', e', f') :: B''
      | [] => [(a, e, f)]
      end
  end.

Lemma coalesce_cons a e f B :
  coalesce ((a, e, f) :: B) =
  match coalesce B with
  | (a', e', f') :: B'' => if f && f' then (a, e', true) :: B'' else (a, e, f) :: (a', e', f') :: B''
  | [] => [(a, e, f)]
  end.
Proof. done. Qed.

Lemma coalesce_coalesced B : coalesced (coalesce B).
Proof.
  induction B as [|[[a e] f] B IH]; [done|]. cbn [coalesce]. destruct (coalesce B) as [|[[a' e'] f'] B'']; [done|].
  destruct (f && f') eqn:Ef; [|by rewrite coalesced_cons].
  apply andb_true_iff in Ef as [-> ->]. by rewrite coalesced_cons in *.
Qed.

Lemma coalesce_id B : coalesced B -> coalesce B = B.
Proof.
  induction B as [|[[a e] f] B IH]; [done|]. intros [H1 H2]%coalesced_cons. cbn [coalesce]. rewrite (IH H2).
  destruct B as [|[[a' e'] f'] B]; [done|]. simpl in H1. by rewrite H1.
Qed.

Lemma coalesce_app B1 B2 : coalesced B1 -> last_free B1 && first_free (coalesce B2) = false -> coalesce (B1 ++ B2) = B1 ++ coalesce B2.
Proof.
  induction B1 as [|[[a e] f] B1 IH]; [done|]. intros [H1 H2]%coalesced_cons Hj. cbn [coalesce app].
  destruct B1 as [|k B1].
  - cbn [app]. cbn in Hj. destruct (coalesce B2) as [|[[a' e'] f'] B'']; [done|]. simpl in Hj. by rewrite Hj.
  - rewrite (IH H2); [|by unfold last_free in *; rewrite last_cons_cons in Hj]. destruct k as [[a' e'] f']. cbn [app]. simpl in H1. by rewrite H1.
Qed.

Lemma coalesce_app_r B1 B2 : coalesce (B1 ++ coalesce B2) = coalesce (B1 ++ B2).
Proof.
  induction B1 as [|[[a e] f] B1 IH]; cbn [app]; [apply coalesce_id, coalesce_coalesced|]. by rewrite !coalesce_cons, IH.
Qed.

Lemma release_notin b B : (forall e f, (b, e, f) ∉ B) -> release b B = B.
Proof.
  intros H. unfold release. rewrite <- (map_id B) at 2. apply map_ext_in. intros [[a e] f] Hin.
  destruct (Z.eqb_spec a b) as [->|]; [|by rewrite orb_false_r]. exfalso. by eapply H, list_elem_of_In.
Qed.

Lemma lblocks_notin fr l E b e f : b ∉ l -> (b, e, f) ∉ lblocks fr l E.
Proof. intros H [(l1 & l2 & -> & _)%elem_of_segs _]%elem_of_lblocks. set_solver. Qed.

Lemma release_app b B1 B2 : release b (B1 ++ B2) = release b B1 ++ release b B2.
Proof. apply map_app. Qed.

Lemma release_at fr l1 b l2 E : b ∉ l1 -> b ∉ l2 ->
  release b (lblocks fr (l1 ++ b :: l2) E) = lblocks fr l1 b ++ (b, default E (head l2), true) :: lblocks fr l2 E.
Proof.
  intros H1 H2. rewrite lblocks_at. unfold release. rewrite map_app. cbn [map]. rewrite Z.eqb_refl, orb_true_r.
  f_equal; [|f_equal]; apply release_notin; intros; by apply lblocks_notin.
Qed.

(** ** Freeing

    Between the two changes of the trees: [b] is free but in no tree, and may have free
    neighbours. *)
Record mid (p : binder_proc) (b : Z) : Prop := {
  md_layout : layout p;
  md_pages : pages_ok p;
  md_free : tree_ok (free_buffers p) (fun a => with_free p true a /\ a <> b) (by_size p);
  md_alloc : tree_ok (allocated_buffers p) (with_free p false) Z.lt;
  md_fits : forall a h, a ∈ buffers p -> headers p !! a = Some h -> free h = false -> request h <= sz p a;
  md_async : free_async_space p + async_used p = buffer_size p / 2 /\ 0 <= free_async_space p;
  md_b : with_free p true b }.

(** What removing the free buffer [y] from the list after [a] does to the rest of the
    invariant. *)
Lemma remove_rest p q l1 a y l2 :
  layout p -> layout q -> same_area p q -> headers q = headers p -> buffers p = l1 ++ a :: y :: l2 -> buffers q = l1 ++ a :: l2 ->
  is_free p a = true -> is_free p y = true ->
  (forall x, x ∈ buffers q -> x <> a -> sz q x = sz p x) /\
  (forall x f, with_free q f x <-> with_free p f x /\ x <> y) /\
  async_used q = async_used p /\
  ((forall x h, x ∈ buffers p -> headers p !! x = Some h -> free h = false -> request h <= sz p x) ->
   forall x h, x ∈ buffers q -> headers q !! x = Some h -> free h = false -> request h <= sz q x).
Proof.
  intros Hp Hq Hs Hh E1 E2 Ha Hy. pose proof (tiled_NoDup _ _ (la_tiled p Hp)) as Hn. rewrite E1 in Hn.
  assert (Hsz : forall x, x ∈ buffers q -> x <> a -> sz q x = sz p x).
  { intros x Hx Hne. apply (sz_same p q l1 a [y] [] l2 x); try done. rewrite E2 in Hx. set_solver. }
  assert (Hfr : forall x, is_free q x = is_free p x) by (intros; unfold is_free; by rewrite Hh). split_and!; [done| | |].
  - intros x f. unfold with_free. rewrite Hfr, E1, E2, !elem_of_app, !elem_of_cons.
    apply NoDup_app in Hn as (_ & N1 & [N2 [N3 _]%NoDup_cons]%NoDup_cons). split; [|naive_solver].
    intros [Hx Hf]. split; [tauto|]. intros ->. destruct Hx as [Hx|[Hx|Hx]]; [apply (N1 y Hx); set_solver| subst; set_solver|done].
  - unfold async_used. rewrite E1, E2, (async_sum_same p q) by (intros; by rewrite Hh). rewrite !async_sum_app, !async_sum_cons, (async_cost_free p y Hy). lia.
  - intros Hfit x h Hx Hhx Hf. rewrite Hh in Hhx. rewrite Hsz; [|done|].
    + apply (Hfit x h); [|done|done]. rewrite E1. rewrite E2 in Hx. set_solver.
    + intros ->. unfold is_free in Ha. rewrite Hhx, Hf in Ha. done.
Qed.

(** The first join: with the block after it. *)
Lemma join_next e p b l1 x l2 :
  mid p b -> buffers p = l1 ++ b :: x :: l2 -> is_free p x = true ->
  exists fr q, Rbtree.erase x (free_buffers p) = Some fr /\
    binder_delete_free_buffer e (set_trees p fr (allocated_buffers p)) x = Some q /\ mid q b /\ same_area p q /\
    headers q = headers p /\ buffers q = l1 ++ b :: l2 /\ free_async_space q = free_async_space p.
Proof.
  intros [Hl Hp Hf Ha Hfit Has Hb] E Hx. pose proof (layout_at p l1 b (x :: l2) Hl E) as [_ _ Nb _ _ _ _].
  assert (Hxp : with_free p true x) by (split; [rewrite E; set_solver|done]).
  destruct (tree_erase _ _ _ x Hf) as (fr & -> & Hf'); [split; [done|set_solver]|]. exists fr.
  destruct (delete_free_ok e (set_trees p fr (allocated_buffers p)) l1 b x l2) as (pg' & -> & Hp'); [by destruct Hl as [[] ? ? ? ?]; split|done|done|apply Hb|done|].
  set (q := set_pages _ pg') in *. exists q. split; [done|]. split; [done|].
  assert (Hlq : layout q). { apply (layout_remove p q l1 b x l2); try done. apply Hl. }
  destruct (remove_rest p q l1 b x l2) as (R1 & R2 & R3 & R4); try done; [apply Hb|].
  split; [|done]. split; [done|done| | | | |].
  - apply (tree_ok_ext _ _ _ _ _ Hf'); [intros a; rewrite R2; tauto|]. intros a c [[Ha0 Ha1] Ha2] [[Hc0 Hc1] Hc2] Hle. unfold by_size in *.
    rewrite !R1; [done| |done| |done]; [apply (R2 c true)|apply (R2 a true)]; done.
  - apply (tree_ok_ext _ _ _ _ _ Ha); [|done]. intros a. rewrite R2. split; [|tauto]. intros H. split; [done|]. intros ->. destruct H as [_ H]. by rewrite (proj2 Hxp) in H.
  - by apply R4.
  - rewrite R3. exact Has.
  - apply R2. split; [done|]. set_solver.
Qed.

(** The second join: with the block before it. *)
Lemma join_prev e p b l1 a l2 :
  mid p b -> buffers p = l1 ++ a :: b :: l2 -> is_free p a = true ->
  exists q fr, binder_delete_free_buffer e p b = Some q /\ Rbtree.erase a (free_buffers q) = Some fr /\
    mid (set_trees q fr (allocated_buffers q)) a /\ same_area p q /\ headers q = headers p /\ buffers q = l1 ++ a :: l2 /\
    free_async_space q = free_async_space p.
Proof.
  intros [Hl Hp Hf Ha Hfit Has [Hb Hbf]] E Hx. assert (Hap : with_free p true a) by (split; [rewrite E; set_solver|done]).
  assert (Hab : a <> b). { intros ->. pose proof (tiled_NoDup _ _ (la_tiled p Hl)) as Hn. rewrite E in Hn. apply NoDup_app in Hn as (_ & _ & [Hn _]%NoDup_cons). set_solver. }
  destruct (delete_free_ok e p l1 a b l2 Hl Hp E Hx Hbf) as (pg' & -> & Hp'). set (q := set_pages _ pg') in *.
  destruct (tree_erase _ _ _ a Hf) as (fr & Er & Hf'); [done|]. exists q, fr. split; [done|]. split; [done|].
  assert (Hlq : layout q). { apply (layout_remove p q l1 a b l2); try done. apply Hl. }
  destruct (remove_rest p q l1 a b l2) as (R1 & R2 & R3 & R4); try done.
  split; [|done]. split.
  - by destruct Hlq as [[] ? ? ? ?]; split.
  - exact Hp'.
  - apply (tree_ok_ext _ _ _ _ _ Hf').
    + intros x. change (with_free (set_trees q fr (allocated_buffers q)) true x) with (with_free q true x). rewrite R2. tauto.
    + intros x c [[Hx0 Hx1] Hx2] [[Hc0 Hc1] Hc2] Hle. change (sz q x <= sz q c). unfold by_size in Hle.
      rewrite !R1; [done| |done| |done]; [apply (R2 c true)|apply (R2 x true)]; done.
  - apply (tree_ok_ext _ _ _ _ _ Ha); [|done]. intros x. change (with_free (set_trees q fr (allocated_buffers q)) false x) with (with_free q false x). rewrite R2.
    split; [|tauto]. intros H. split; [done|]. intros ->. destruct H as [_ H]. by rewrite Hbf in H.
  - by apply R4.
  - change (free_async_space p + async_used q = buffer_size p / 2 /\ 0 <= free_async_space p). by rewrite R3.
  - apply (R2 a true). done.
Qed.

Lemma mid_insert p b :
  mid p b -> coalesced (blocks p) ->
  exists t, binder_insert_free_buffer p b = Some (set_trees p t (allocated_buffers p)) /\ wf (set_trees p t (allocated_buffers p)).
Proof.
  intros [Hl Hp Hf Ha Hfit Has Hb] Hc. destruct (insert_free_ok p b (fun a => with_free p true a /\ a <> b) Hl Hb ltac:(by intros [_ ?]) ltac:(by intros ? [? _]) Hf) as (t & -> & Ht).
  exists t. split; [done|]. split; try done.
  - by destruct Hl as [[] ? ? ? ?]; split.
  - apply (tree_ok_ext _ _ _ _ _ Ht); [|done]. intros a. change (with_free (set_trees p t (allocated_buffers p)) true a) with (with_free p true a).
    destruct (decide (a = b)) as [->|]; tauto.
Qed.

(** Marking the block free: the pages inside it go, its cost comes back. *)
Lemma interior_free fr l1 b l2 E i :
  tiled (l1 ++ b :: l2) E -> fr b = true -> needed (lblocks fr (l1 ++ b :: l2) E) i -> ~ (pgup (b + HEADER) <= i < pg (default E (head l2))).
Proof.
  intros Ht Hb. rewrite lblocks_at, needed_app, needed_cons, Hb. pose proof Ht as [T1 [T2 T3]%tiled_cons]%tiled_app.
  intros [H|[[H|[? _]]|H]]; [apply (needed_bounds _ _ _ _ T1) in H|  |done|apply (needed_bounds _ _ _ _ T3) in H]; pg_lia.
Qed.

Lemma free_mark p q b l1 l2 h :
  wf p -> buffers p = l1 ++ b :: l2 -> headers p !! b = Some h -> free h = false -> same_area p q -> buffers q = buffers p ->
  headers q = <[b := set_free h true]> (headers p) -> free_buffers q = free_buffers p ->
  tree_ok (allocated_buffers q) (fun a => with_free p false a /\ a <> b) Z.lt ->
  (forall i, has_page q i <-> has_page p i /\ ~ (pgup (b + HEADER) <= i < pg (default (area_end p) (head l2)))) ->
  free_async_space q = free_async_space p + async_cost p b -> mid q b.
Proof.
  intros [Hl Hc Hf Ha Hfit Hp [Has1 Has2]] E Hh Hhf Hs Eb Eh Ef Hal Hpg Hcost.
  pose proof (layout_at p l1 b l2 Hl E) as [_ N1 N2 _ _ _ _].
  assert (Hsame : forall a, a <> b -> headers q !! a = headers p !! a) by (intros; by rewrite Eh, lookup_insert_ne).
  assert (Hqb : is_free q b = true) by (unfold is_free; by rewrite Eh, lookup_insert_eq).
  assert (Hpb : is_free p b = false) by (unfold is_free; by rewrite Hh).
  assert (Hlq : layout q). { apply (layout_same p q Hl Hs Eb). intros a Hin. destruct (decide (a = b)) as [->|]; [rewrite Eh, lookup_insert_eq; eauto|rewrite Hsame by done; by apply Hl]. }
  destruct (area_same p q Hs (la_area p Hl)) as [_ Ee].
  assert (Hsz : forall a, sz q a = sz p a) by (intros; unfold sz, binder_buffer_size; rewrite Eb; by destruct Hs as [-> ->]).
  assert (Hwf : forall a f, a <> b -> with_free q f a <-> with_free p f a) by (intros; unfold with_free; rewrite Eb, (is_free_same p q) by auto; done).
  split; [done| | | | | |].
  - intros i. rewrite Hpg, (Hp i). unfold blocks. rewrite Eb, Ee.
    assert (needed (lblocks (is_free p) (buffers p) (area_end p)) i <-> needed (lblocks (is_free q) (buffers p) (area_end p)) i \/ pgup (b + HEADER) <= i < pg (default (area_end p) (head l2))) as ->.
    { rewrite E, !lblocks_at, Hpb, Hqb, needed_whole. by rewrite !(lblocks_ext (is_free q) (is_free p)) by (intros; apply is_free_same, Hsame; set_solver). }
    split; [tauto|]. intros Hn. split; [by left|]. rewrite E in Hn. apply (interior_free (is_free q) l1 b l2 (area_end p) i); [rewrite <- E; apply Hl|done|done].
  - rewrite Ef. apply (tree_ok_ext _ _ _ _ _ Hf); [|unfold by_size; intros; by rewrite !Hsz].
    intros a. destruct (decide (a = b)) as [->|Hne]; [|rewrite Hwf by done; tauto]. split; [intros [_ H]; by rewrite Hpb in H|tauto].
  - apply (tree_ok_ext _ _ _ _ _ Hal); [|done]. intros a. destruct (decide (a = b)) as [->|Hne]; [|rewrite Hwf by done; tauto].
    split; [tauto|intros [_ H]; by rewrite Hqb in H].
  - intros a k Hin Hk Hkf. rewrite Hsz. apply (Hfit a k); [by rewrite <- Eb| |done]. rewrite <- Hsame; [done|]. intros ->. rewrite Eh, lookup_insert_eq in Hk. by injection Hk as <-.
  - destruct Hs as [_ ->]. unfold async_used in *. rewrite Eb, Hcost. rewrite E in *. rewrite !async_sum_app, !async_sum_cons in *.
    rewrite (async_cost_free q b Hqb), (async_sum_same p q l1), (async_sum_same p q l2) by (intros; apply Hsame; set_solver). split; [lia|].
    pose proof (async_sum_nonneg p [b]) as Hnn. rewrite async_sum_cons in Hnn. change (async_sum p []) with 0 in Hnn. lia.
  - split; [rewrite Eb, E; set_solver|done].
Qed.

Lemma lblocks_cons fr x l E : lblocks fr (x :: l) E = (x, default E (head l), fr x) :: lblocks fr l E.
Proof. done. Qed.

Lemma join_next_ok e p b l1 l2 :
  mid p b -> buffers p = l1 ++ b :: l2 -> coalesced (lblocks (is_free p) l2 (area_end p)) ->
  exists q l2', free_join_next e p b = Some q /\ mid q b /\ same_area p q /\ headers q = headers p /\ buffers q = l1 ++ b :: l2' /\
    free_async_space q = free_async_space p /\
    lblocks (is_free p) (b :: l2') (area_end p) = coalesce (lblocks (is_free p) (b :: l2) (area_end p)).
Proof.
  intros Hm E Hc. pose proof (layout_at p l1 b l2 (md_layout p b Hm) E) as [_ N1 _ _ _ _ _]. unfold free_join_next.
  rewrite E, next_entry_at by done. cbn [mbind option_bind]. rewrite lblocks_cons. cbn [coalesce]. rewrite (coalesce_id _ Hc).
  destruct l2 as [|x l2]; cbn [head].
  - exists p, []. done.
  - destruct (la_headers p (md_layout p b Hm) x) as [hx Ex]; [rewrite E; set_solver|]. rewrite Ex. cbn [mbind option_bind].
    rewrite !lblocks_cons, (proj2 (md_b p b Hm)). assert (Hx : is_free p x = free hx) by (unfold is_free; by rewrite Ex). rewrite Hx. destruct (free hx) eqn:Ef.
    + destruct (join_next e p b l1 x l2 Hm E Hx) as (fr & q & -> & Hd & Hq & Hs & Hh & Hb & Has).
      cbn [mbind option_bind]. exists q, l2. split_and!; try done. cbn. by rewrite (proj2 (md_b p b Hm)).
    + exists p, (x :: l2). split_and!; try done. cbn. by rewrite (proj2 (md_b p b Hm)), Hx.
Qed.

Lemma join_prev_ok e p b l1 l2 :
  mid p b -> buffers p = l1 ++ b :: l2 -> coalesced (lblocks (is_free p) l1 b) -> coalesced (lblocks (is_free p) (b :: l2) (area_end p)) ->
  exists q, free_join_prev e p b = Some q /\ wf q /\ same_area p q /\ headers q = headers p /\
    free_async_space q = free_async_space p /\ blocks q = coalesce (blocks p).
Proof.
  intros Hm E C1 C2. pose proof (md_layout p b Hm) as Hl. pose proof (layout_at p l1 b l2 Hl E) as [_ N1 _ _ _ _ _].
  destruct (md_b p b Hm) as [_ Hbf]. unfold free_join_prev. rewrite E, prev_entry_at by done. cbn [mbind option_bind].
  assert (Hins : last_free (lblocks (is_free p) l1 b) = false ->
    exists q, binder_insert_free_buffer p b = Some q /\ wf q /\ same_area p q /\ headers q = headers p /\
      free_async_space q = free_async_space p /\ blocks q = coalesce (blocks p)).
  { intros Hlast. assert (Hcb : coalesced (blocks p)). { unfold blocks. rewrite E, lblocks_at. apply coalesced_app. rewrite Hlast. done. }
    destruct (mid_insert p b Hm Hcb) as (t & -> & Hw). exists (set_trees p t (allocated_buffers p)). split_and!; try done.
    by rewrite (coalesce_id _ Hcb). }
  destruct l1 as [|a l1 _] using rev_ind; [by apply Hins|]. rewrite last_snoc.
  destruct (la_headers p Hl a) as [ha Ea]; [rewrite E; set_solver|]. rewrite Ea. cbn [mbind option_bind].
  assert (Ha : is_free p a = free ha) by (unfold is_free; by rewrite Ea). rewrite lblocks_at in C1, Hins. cbn in C1, Hins.
  assert (Hlf : last_free (lblocks (is_free p) l1 a ++ [(a, b, is_free p a)]) = is_free p a) by (unfold last_free; by rewrite last_snoc).
  destruct (free ha) eqn:Ef; [|apply Hins; by rewrite Hlf].
  assert (E' : buffers p = l1 ++ a :: b :: l2) by (rewrite E; by simplify_list_eq).
  destruct (join_prev e p b l1 a l2 Hm E' Ha) as (q & fr & -> & Er & Hmq & Hs & Hh & Hbq & Has). cbn [mbind option_bind]. rewrite Er. cbn [mbind option_bind].
  set (q' := set_trees q fr (allocated_buffers q)) in *.
  assert (Hbl : blocks q' = coalesce (blocks p)).
  { unfold blocks. destruct (area_same p q Hs (la_area p Hl)) as [_ Ee]. change (area_end q') with (area_end q). rewrite Ee, E'. change (buffers q') with (buffers q).
    assert (Hmerge : coalesce ((a, b, is_free p a) :: lblocks (is_free p) (b :: l2) (area_end p)) =
                     (a, default (area_end p) (head l2), true) :: lblocks (is_free p) l2 (area_end p)).
    { rewrite coalesce_cons, (coalesce_id _ C2), lblocks_cons, Ha, Hbf. done. }
    rewrite Hbq, !lblocks_at, coalesce_app; change (default (area_end p) (head (b :: l2))) with b; rewrite ?Hmerge.
    - rewrite !(lblocks_ext (is_free q') (is_free p)) by (intros; apply is_free_same; unfold q'; simpl; by rewrite Hh).
      do 2 f_equal. rewrite (is_free_same p q') by (unfold q'; simpl; by rewrite Hh). by rewrite Ha.
    - apply coalesced_app in C1 as (C1 & _ & _). exact C1.
    - cbn [andb first_free]. apply coalesced_app in C1 as (_ & _ & C1). simpl in C1. by rewrite Ha in C1. }
  destruct (mid_insert q' a Hmq) as (t & -> & Hw); [rewrite Hbl; apply coalesce_coalesced|].
  exists (set_trees q' t (allocated_buffers q')). split_and!; try done.
Qed.

Lemma async_cost_bound p b : wf p -> b ∈ buffers p -> 0 <= async_cost p b /\ free_async_space p + async_cost p b < 2 ^ 32.
Proof.
  intros Hw (l1 & l2 & E)%list_elem_of_split. destruct (wf_async p Hw) as [H1 H2]. unfold async_used in H1. rewrite E, async_sum_app, async_sum_cons in H1.
  pose proof (async_sum_nonneg p l1). pose proof (async_sum_nonneg p l2). pose proof (async_sum_nonneg p [b]) as Hc. rewrite async_sum_cons in Hc.
  change (async_sum p []) with 0 in Hc. destruct (la_area p (wf_layout p Hw)) as [[Hb _] [Hs _] He]. unfold area_end, PAGE_SIZE in *.
  assert (buffer_size p / 2 <= buffer_size p) by (apply Z.div_le_upper_bound; lia). lia.
Qed.

Lemma free_ok e p b h :
  wf p -> b ∈ buffers p -> headers p !! b = Some h -> free h = false -> transaction h = false ->
  exists p', binder_free_buf e p b = Some p' /\ wf p' /\ same_area p p' /\ headers p' = <[b := set_free h true]> (headers p) /\
    free_async_space p' = free_async_space p + async_cost p b /\ blocks p' = coalesce (release b (blocks p)).
Proof.
  intros Hw Hb Eh Hf Htr. pose proof (wf_layout p Hw) as Hl. destruct (layout_split p b Hl Hb) as (l1 & l2 & Hat). pose proof Hat as [E N1 N2 _ _ Hsz Hlo].
  pose proof (async_cost_bound p b Hw Hb) as [Hc1 Hc2]. pose proof (wf_fits p Hw b h Hb Eh Hf) as Hfit. unfold request in Hfit. rewrite (sz_at p l1 b l2 Hl E) in Hfit.
  assert (Hpf : with_free p false b) by (split; [done|unfold is_free; by rewrite Eh]).
  unfold binder_free_buf. rewrite (at_buffer_size p l1 b l2 Hl Hat), Eh. cbn [mbind option_bind]. set (en := default (area_end p) (head l2)) in *.
  rewrite Hf, Htr. change (buffer p + buffer_size p) with (area_end p).
  rewrite (proj2 (Z.ltb_ge _ _)) by lia. rewrite (proj2 (Z.ltb_ge b (buffer p))) by lia. rewrite (proj2 (Z.ltb_ge (area_end p) b)) by (unfold HEADER in *; lia). cbn [orb].
  set (p1 := if async_transaction h then _ else p).
  assert (Hp1 : p1 = set_async p (free_async_space p + async_cost p b)).
  { unfold p1, async_cost in *. rewrite Eh, Hf in *. cbn [negb andb] in *. destruct (async_transaction h); [|rewrite Z.add_0_r; by destruct p].
    f_equal. apply u32_id. unfold is_u32. destruct (wf_async p Hw). unfold request in *. lia. }
  rewrite Hp1. clear p1 Hp1. replace (b + HEADER + (en - (b + HEADER))) with en by lia.
  change (PAGE_ALIGN (b + HEADER)) with (pgup (b + HEADER) * PAGE_SIZE). change (PAGE_MASK en) with (pg en * PAGE_SIZE).
  set (p1 := set_async p _).
  destruct (update_free_ok e p1 (pgup (b + HEADER)) (pg en) None) as (pg' & r & -> & Hpg); [by destruct (la_area p Hl)| |].
  { intros i Hi. assert (Hn : needed (blocks p) i).
    { unfold blocks. rewrite E, lblocks_at, needed_app, needed_cons. right. left. right. split; [apply Hpf|done]. }
    split; [apply (layout_inside p i Hl Hn)|by apply (wf_pages p Hw)]. }
  cbn [mbind option_bind]. destruct (tree_erase _ _ _ b (wf_alloc p Hw) Hpf) as (al & Er & Hal).
  change (allocated_buffers (set_pages p1 pg')) with (allocated_buffers p). rewrite Er. cbn [mbind option_bind].
  set (q := set_header _ b _).
  assert (Hmq : mid q b) by (by apply (free_mark p q b l1 l2 h)).
  pose proof (wf_coalesced p Hw) as Hc. unfold blocks in Hc. rewrite E, lblocks_at, coalesced_app, coalesced_cons in Hc. destruct Hc as (C1 & (_ & C2) & _).
  assert (Hext : forall l E', b ∉ l -> lblocks (is_free q) l E' = lblocks (is_free p) l E').
  { intros l E' Hn. apply lblocks_ext. intros a Ha. apply is_free_same. unfold q. simpl. apply lookup_insert_ne. set_solver. }
  destruct (join_next_ok e q b l1 l2 Hmq E) as (q2 & l2' & -> & Hm2 & Hs2 & Hh2 & Hb2 & Ha2 & Hbl2); [by rewrite Hext|].
  cbn [mbind option_bind]. assert (Hif : forall a, is_free q2 a = is_free q a) by (intros; apply is_free_same; by rewrite Hh2).
  destruct (area_same q q2 Hs2 (la_area q (md_layout q b Hmq))) as [_ Ee2].
  assert (Hext2 : forall l E', lblocks (is_free q2) l E' = lblocks (is_free q) l E') by (intros; by apply lblocks_ext).
  destruct (join_prev_ok e q2 b l1 l2' Hm2 Hb2) as (q3 & -> & Hw3 & Hs3 & Hh3 & Ha3 & Hbl3).
  { by rewrite Hext2, Hext. }
  { rewrite Hext2, Ee2, Hbl2. apply coalesce_coalesced. }
  exists q3. split; [done|]. split; [done|]. split; [destruct Hs2, Hs3; unfold same_area; simpl in *; split; congruence|].
  split; [by rewrite Hh3, Hh2|]. split; [by rewrite Ha3, Ha2|].
  rewrite Hbl3. unfold blocks. rewrite Hb2, E, release_at by done. rewrite lblocks_at, <- lblocks_cons, !Hext2, Ee2, Hbl2, coalesce_app_r, (Hext l1 b N1), lblocks_cons.
  rewrite (Hext l2 _ N2), (proj2 (md_b q b Hmq)) by done. done.
Qed.

(** ** Allocating *)

(** The space that a request takes. *)
Definition total (dsize osize : Z) : Z := (dsize + 3) / 4 * 4 + (osize + 3) / 4 * 4.

(** The check of the sizes rejects exactly the requests that overflow. *)
Lemma size_check d o :
  is_u32 d -> is_u32 o ->
  let size := u32 (ALIGN4 d + ALIGN4 o) in
  (size <? d) || (size <? o) = (2 ^ 32 <=? total d o) /\ (total d o < 2 ^ 32 -> size = total d o).
Proof.
  unfold is_u32. intros Hd Ho. cbv zeta. unfold total, ALIGN4, u32.
  assert (Hsmall : forall x, 0 <= x < 2 ^ 32 -> (x + 3) mod 2 ^ 32 / 4 * 4 = if x + 3 <? 2 ^ 32 then (x + 3) / 4 * 4 else 0).
  { intros x Hx. destruct (Z.ltb_spec (x + 3) (2 ^ 32)); [by rewrite Z.mod_small by lia|]. replace (x + 3) with (x + 3 - 2 ^ 32 + 1 * 2 ^ 32) by lia.
    rewrite Z.mod_add, Z.mod_small, Z.div_small by lia. done. }
  rewrite !Hsmall by done. clear Hsmall. destruct (Z.ltb_spec (d + 3) (2 ^ 32)), (Z.ltb_spec (o + 3) (2 ^ 32));
    (split; [apply eq_bool_prop_intro; rewrite Is_true_true, Is_true_true, orb_true_iff, !Z.ltb_lt, Z.leb_le|]); Z.to_euclidean_division_equations; lia.
Qed.

Lemma alloc_wf p q b l1 l2 m hb :
  wf p -> buffers p = l1 ++ b :: l2 -> is_free p b = true -> same_area p q -> buffers q = l1 ++ b :: m ++ l2 -> layout q ->
  (forall a, a ∈ l1 \/ a ∈ l2 -> headers q !! a = headers p !! a) -> headers q !! b = Some hb -> free hb = false -> request hb <= sz q b ->
  m = [] \/ (exists new, m = [new] /\ is_free q new = true) ->
  tree_ok (free_buffers q) (fun a => a ∈ m \/ (with_free p true a /\ a <> b)) (by_size q) ->
  tree_ok (allocated_buffers q) (fun a => a = b \/ with_free p false a) Z.lt ->
  pages_ok q -> free_async_space q = free_async_space p - async_cost q b -> 0 <= free_async_space q -> wf q.
Proof.
  intros Hw E Hbf Hs Eq Hlq Hh Hhb Hhf Hreq Hm Hf Ha Hpg Has1 Has2. pose proof (wf_layout p Hw) as Hl.
  pose proof (layout_at p l1 b l2 Hl E) as [_ N1 N2 _ _ _ _]. destruct (area_same p q Hs (la_area p Hl)) as [_ Ee].
  assert (Hqb : is_free q b = false) by (unfold is_free; by rewrite Hhb).
  assert (Hmf : forall a, a ∈ m -> is_free q a = true) by (destruct Hm as [->|(new & -> & ?)]; [set_solver|by intros a ->%list_elem_of_singleton]).
  pose proof (tiled_NoDup _ _ (la_tiled q Hlq)) as Hnd. rewrite Eq in Hnd.
  assert (Hold : forall a, a ∈ l1 \/ a ∈ l2 -> is_free q a = is_free p a) by (intros; by apply is_free_same, Hh).
  assert (Hwf : forall a f, with_free q f a <-> (a ∈ m /\ f = true) \/ (a = b /\ f = false) \/ (with_free p f a /\ a <> b)).
  { intros a f. unfold with_free. rewrite Eq, E, !elem_of_app, !elem_of_cons, !elem_of_app. split.
    - intros [[H|[->|[H|H]]] Hf']; [| |by left; rewrite Hmf in Hf'| ]; [|by rewrite Hqb in Hf'; auto|]; rewrite Hold in Hf' by auto; right; right; (split; [tauto|]); set_solver.
    - intros [[H ->]|[[-> ->]|[[H Hf'] Hne]]]; [split; [tauto|auto]|split; [tauto|done]|]. rewrite Hold by naive_solver. split; [naive_solver|done]. }
  split; [done| | | | |done|].
  - unfold blocks. rewrite Eq, lblocks_at, Hqb. pose proof (wf_coalesced p Hw) as Hc. unfold blocks in Hc. rewrite E, lblocks_at, Hbf, coalesced_app, coalesced_cons in Hc.
    destruct Hc as (C1 & [Cf C2] & _). rewrite (lblocks_ext (is_free q) (is_free p) l1) by auto. rewrite coalesced_app, coalesced_cons. cbn [first_free andb]. rewrite andb_false_r.
    split; [done|]. split; [|done]. split; [done|]. rewrite Ee.
    destruct Hm as [->|(new & -> & Hn)]; cbn [app]; [by rewrite (lblocks_ext (is_free q) (is_free p) l2) by auto|].
    rewrite lblocks_cons, Hn, (lblocks_ext (is_free q) (is_free p) l2) by auto. by rewrite coalesced_cons.
  - apply (tree_ok_ext _ _ _ _ _ Hf); [|done]. intros a. rewrite Hwf. naive_solver.
  - apply (tree_ok_ext _ _ _ _ _ Ha); [|done]. intros a. rewrite Hwf. split; [intros [->|[H1 H2]]|naive_solver]; [naive_solver|].
    right; right. split; [done|]. intros ->. by rewrite Hbf in H2.
  - intros a h Hin Hha Hfa. destruct (decide (a = b)) as [->|Hne]; [rewrite Hhb in Hha; by injection Hha as <-|].
    assert (Ha' : a ∈ l1 \/ a ∈ l2).
    { rewrite Eq, elem_of_app, elem_of_cons, elem_of_app in Hin. destruct Hin as [?|[?|[Hx|?]]]; [auto|done| |auto]. apply Hmf in Hx. unfold is_free in Hx. by rewrite Hha, Hfa in Hx. }
    rewrite (sz_same p q l1 b [] m l2 a) by done. apply (wf_fits p Hw); [rewrite E; set_solver|by rewrite <- Hh|done].
  - destruct Hs as [_ ->]. destruct (wf_async p Hw) as [H1 H2]. split; [|done]. rewrite <- H1, Has1. unfold async_used. rewrite Eq, E, !async_sum_app, !async_sum_cons, async_sum_app.
    rewrite (async_cost_free p b Hbf), (async_sum_same p q l1), (async_sum_same p q l2) by (intros; apply Hh; auto).
    assert (async_sum q m = 0) as ->; [|lia]. destruct Hm as [->|(new & -> & Hn)]; [done|]. rewrite async_sum_cons, (async_cost_free q new Hn). done.
Qed.

(** The abstract allocation: the block at [b] is taken; what is left of it is a block of its
    own when it has room for a header and more than four bytes. *)
Definition has_room (b size e : Z) : bool := b + HEADER + size + HEADER + 4 <? e.

Definition allot (b size : Z) (B : list block) : list block :=
  flat_map (fun '(a, e, f) =>
    if negb (a =? b) then [(a, e, f)]
    else if has_room b size e then [(b, b + HEADER + size, false); (b + HEADER + size, e, true)]
    else [(b, e, false)]) B.

Lemma allot_notin b size B : (forall e f, (b, e, f) ∉ B) -> allot b size B = B.
Proof.
  induction B as [|[[a e] f] B IH]; intros H; [done|]. cbn [allot flat_map]. destruct (Z.eqb_spec a b) as [->|]; [exfalso; apply (H e f); set_solver|].
  cbn [negb app]. f_equal. apply IH. intros e' f' Hin. apply (H e' f'). set_solver.
Qed.

Lemma allot_at fr l1 b l2 E size : b ∉ l1 -> b ∉ l2 ->
  allot b size (lblocks fr (l1 ++ b :: l2) E) =
  lblocks fr l1 b ++ (if has_room b size (default E (head l2)) then [(b, b + HEADER + size, false); (b + HEADER + size, default E (head l2), true)]
                      else [(b, default E (head l2), false)]) ++ lblocks fr l2 E.
Proof.
  intros H1 H2. rewrite lblocks_at. unfold allot. rewrite flat_map_app. cbn [flat_map]. rewrite Z.eqb_refl. cbn [negb].
  f_equal; [|f_equal]; apply allot_notin; intros; by apply lblocks_notin.
Qed.

(** The state when [b] has changed trees. *)
Lemma take_tree p b l1 l2 pgs :
  wf p -> buffers p = l1 ++ b :: l2 -> is_free p b = true ->
  exists fr al h, Rbtree.erase b (free_buffers p) = Some fr /\ headers p !! b = Some h /\
    binder_insert_allocated_buffer (set_header (set_trees (set_pages p pgs) fr (allocated_buffers p)) b (set_free h false)) b =
    Some (set_trees (set_header (set_pages p pgs) b (set_free h false)) fr al) /\
    tree_ok fr (fun a => with_free p true a /\ a <> b) (by_size p) /\
    tree_ok al (fun a => a = b \/ with_free p false a) Z.lt.
Proof.
  intros Hw E Hbf. assert (Hb : b ∈ buffers p) by (rewrite E; set_solver).
  destruct (tree_erase _ _ _ b (wf_free p Hw)) as (fr & Er & Hfr); [done|]. destruct (is_free_header p b Hbf) as (h & Eh & Hh).
  set (q := set_header (set_trees (set_pages p pgs) fr (allocated_buffers p)) b (set_free h false)).
  destruct (insert_allocated_ok q b (with_free p false)) as (al & E1 & Hal).
  - apply (layout_same p); [apply Hw|done|done|]. intros a Ha. unfold q. simpl. destruct (decide (a = b)) as [->|];
      [rewrite lookup_insert_eq; eauto|rewrite lookup_insert_ne by done; by apply (wf_layout p Hw)].
  - split; [done|]. unfold is_free, q. simpl. by rewrite lookup_insert_eq.
  - intros [_ H]. by rewrite Hbf in H.
  - intros a [Ha Hf]. split; [done|]. unfold is_free, q. simpl. destruct (decide (a = b)) as [->|]; [by rewrite Hbf in Hf|]. by rewrite lookup_insert_ne.
  - apply (wf_alloc p Hw).
  - exists fr, al, h. split_and!; done.
Qed.

(** What an allocation of [size] bytes in the buffer [b] does. *)
Record taken (p p' : binder_proc) (b size dsize osize : Z) (is_async : bool) : Prop := {
  tk_wf : wf p';
  tk_area : same_area p p';
  tk_in : b ∈ buffers p';
  tk_blocks : blocks p' = allot b size (blocks p);
  tk_header : exists h, headers p !! b = Some h /\ headers p' !! b = Some (mkbuffer false is_async (transaction h) dsize osize);
  tk_others : forall a, a ∈ buffers p -> a <> b -> headers p' !! a = headers p !! a;
  tk_async : free_async_space p' = free_async_space p - (if is_async then size + HEADER else 0) }.

Section Take.
Context (e : env) (p : binder_proc) (b dsize osize : Z) (is_async : bool) (l1 l2 : list Z) (pgs : gset Z).
Context (Hw : wf p) (E : buffers p = l1 ++ b :: l2) (Hbf : is_free p b = true).
Context (Hd : is_u32 dsize) (Ho : is_u32 osize) (Hfit : total dsize osize <= sz p b).
Context (Has : is_async = true -> total dsize osize + HEADER <= free_async_space p).
Let size := total dsize osize.
Let en := default (area_end p) (head l2).

Lemma take_size : sz p b = en - (b + HEADER) /\ 0 <= size /\ size mod 4 = 0 /\ en <= area_end p /\ area_end p <= 2 ^ 32 - PAGE_SIZE /\ 0 < b.
Proof.
  pose proof (wf_layout p Hw) as Hl. rewrite (sz_at p l1 b l2 Hl E). pose proof (layout_at p l1 b l2 Hl E) as [_ _ _ _ _ [_ Hs] Hlo].
  destruct (la_area p Hl) as [[Hb _] _ He]. unfold size, total, is_u32 in *. split_and!; try done; [| |lia]; Z.to_euclidean_division_equations; lia.
Qed.

Lemma take_request tr f : request (mkbuffer f is_async tr dsize osize) = size.
Proof.
  destruct take_size as (Hsz & H0 & _ & He & Ha & Hb). destruct (size_check dsize osize Hd Ho) as [_ H]. apply H. unfold size, PAGE_SIZE, HEADER in *. lia.
Qed.

Lemma take_async (q : binder_proc) :
  free_async_space q = free_async_space p ->
  free_async_space (if is_async then set_async q (u32 (free_async_space p - (size + HEADER))) else q) =
  free_async_space p - (if is_async then size + HEADER else 0).
Proof.
  intros Eq. destruct (wf_async p Hw) as [_ A2]. destruct take_size as (_ & H0 & _). destruct is_async; simpl; [|lia]. specialize (Has eq_refl).
  apply u32_id. unfold is_u32. pose proof (async_cost_bound p b Hw ltac:(rewrite E; set_solver)). unfold size, HEADER in *. lia.
Qed.

Lemma take_common q m h :
  headers p !! b = Some h -> same_area p q -> buffers q = l1 ++ b :: m ++ l2 -> layout q ->
  headers q !! b = Some (mkbuffer false is_async (transaction h) dsize osize) ->
  (forall a, a <> b -> a ∉ m -> headers q !! a = headers p !! a) -> size <= sz q b ->
  m = [] \/ (exists new, m = [new] /\ is_free q new = true) ->
  tree_ok (free_buffers q) (fun a => a ∈ m \/ (with_free p true a /\ a <> b)) (by_size q) ->
  tree_ok (allocated_buffers q) (fun a => a = b \/ with_free p false a) Z.lt ->
  (forall i, has_page q i <-> needed (allot b size (blocks p)) i) ->
  blocks q = allot b size (blocks p) ->
  free_async_space q = free_async_space p - (if is_async then size + HEADER else 0) ->
  taken p q b size dsize osize is_async.
Proof.
  intros Eh Hs Eq Hlq Hqb Hne Hsz Hm Hf Ha Hpg Hbl Hasq. pose proof (layout_at p l1 b l2 (wf_layout p Hw) E) as [_ N1 N2 _ _ _ _].
  pose proof (tiled_NoDup _ _ (la_tiled q Hlq)) as Hnd. rewrite Eq in Hnd.
  assert (Hold : forall a, a ∈ l1 \/ a ∈ l2 -> headers q !! a = headers p !! a).
  { intros a Hin. apply Hne; [set_solver|]. intros Hm'. apply NoDup_app in Hnd as (_ & M1 & [_ (_ & M2 & _)%NoDup_app]%NoDup_cons).
    destruct Hin as [Hin|Hin]; [apply (M1 a Hin); set_solver|by apply (M2 a Hm')]. }
  split; [|done|rewrite Eq; set_solver|done|eauto| |done].
  - eapply (alloc_wf p q b l1 l2 m); try done.
    + by rewrite take_request.
    + intros i. by rewrite Hbl.
    + rewrite Hasq. unfold async_cost. rewrite Hqb. cbn [free negb andb async_transaction]. rewrite take_request. by destruct is_async.
    + rewrite Hasq. destruct (wf_async p Hw) as [_ A2]. unfold size. destruct is_async; [specialize (Has eq_refl)|]; lia.
  - intros a Hin Hab. apply Hold. rewrite E in Hin. set_solver.
Qed.

Lemma take_whole :
  has_room b size en = false ->
  (forall i, i - pg (buffer p) ∈ pgs <-> has_page p i \/ pgup (b + HEADER) <= i < Z.min (pgup (b + HEADER + size)) (pg en)) ->
  exists p', take_buffer e (set_pages p pgs) b size size dsize osize is_async = Some p' /\ taken p p' b size dsize osize is_async.
Proof.
  intros Hr Hpg. destruct take_size as (Hsz & H0 & H4 & He & Ha & Hb0). pose proof (wf_layout p Hw) as Hl.
  pose proof (layout_at p l1 b l2 Hl E) as [_ N1 N2 _ _ _ _].
  destruct (take_tree p b l1 l2 pgs Hw E Hbf) as (fr & al & h & Er & Eh & Ei & Hfr & Hal). unfold take_buffer. simpl. rewrite Er. cbn [mbind option_bind].
  rewrite Eh. cbn [mbind option_bind]. rewrite Ei. cbn [mbind option_bind]. rewrite Z.eqb_refl. cbn [mbind option_bind]. simpl. rewrite lookup_insert_eq. cbn [mbind option_bind free set_free transaction].
  match goal with |- exists p', Some ?x = _ /\ _ => set (q := x); exists q end. split; [done|].
  assert (Hq : same_area p q /\ buffers q = buffers p /\ headers q = <[b := mkbuffer false is_async (transaction h) dsize osize]> (headers p) /\ free_buffers q = fr /\ allocated_buffers q = al /\ pages q = pgs).
  { unfold q. destruct is_async; simpl; rewrite insert_insert_eq; done. }
  destruct Hq as (Hs & Eb & Ehq & Ef & Eal & Epg). pose proof (area_same p q Hs (la_area p Hl)) as [_ Ee].
  assert (Hlq : layout q).
  { apply (layout_same p q Hl Hs Eb). intros a Hin. rewrite Ehq. destruct (decide (a = b)) as [->|]; [rewrite lookup_insert_eq; eauto|rewrite lookup_insert_ne by done; by apply Hl]. }
  assert (Hszq : forall a, sz q a = sz p a) by (intros; unfold sz, binder_buffer_size; rewrite Eb; by destruct Hs as [-> ->]).
  assert (Hal' : allot b size (blocks p) = lblocks (is_free p) l1 b ++ (b, en, false) :: lblocks (is_free p) l2 (area_end p)).
  { unfold blocks. rewrite E, allot_at by done. change (default (area_end p) (head l2)) with en. by rewrite Hr. }
  apply (take_common q [] h Eh Hs); [by rewrite Eb|done|by rewrite Ehq, lookup_insert_eq|intros; by rewrite Ehq, lookup_insert_ne|by rewrite Hszq|by left| |by rewrite Eal| | |by apply take_async].
  - rewrite Ef. apply (tree_ok_ext _ _ _ _ _ Hfr); [set_solver|]. intros; unfold by_size; by rewrite !Hszq.
  - intros i. rewrite Hal', needed_whole. unfold has_page. destruct Hs as [-> _]. rewrite Epg, Hpg, (wf_pages p Hw i). unfold blocks. rewrite E, lblocks_at, Hbf.
    change (default (area_end p) (head l2)) with en. unfold has_room in Hr. apply Z.ltb_ge in Hr. rewrite Z.min_r; [done|]. clear -Hr H0. clearbody size en. pg_lia.
  - rewrite Hal'. unfold blocks. rewrite Eb, E, Ee, lblocks_at, !(lblocks_ext (is_free q) (is_free p)) by (intros; apply is_free_same; rewrite Ehq, lookup_insert_ne by set_solver; done).
    unfold is_free at 2. by rewrite Ehq, lookup_insert_eq.
Qed.

(** The rest of the buffer becomes free. *)
Lemma take_new fr al h :
  has_room b size en = true -> tree_ok fr (fun a => with_free p true a /\ a <> b) (by_size p) ->
  let new := b + HEADER + size in
  let r := set_header (set_buffers (set_trees (set_header (set_pages p pgs) b (set_free h false)) fr al) (l1 ++ b :: new :: l2))
             new (set_free (garbage e new) true) in
  new <> b /\ (new ∉ buffers p) /\ layout r /\
  exists t, binder_insert_free_buffer r new = Some (set_trees r t al) /\
    tree_ok t (fun a => a ∈ [new] \/ (with_free p true a /\ a <> b)) (by_size r).
Proof.
  intros Hr Hfr new r. destruct take_size as (Hsz & H0 & H4 & He & Ha & Hb0). pose proof (wf_layout p Hw) as Hl.
  pose proof (layout_at p l1 b l2 Hl E) as [_ N1 N2 Bl Ab _ _]. unfold has_room in Hr. apply Z.ltb_lt in Hr.
  assert (Hn0 : new <> b) by (unfold new, HEADER; lia).
  assert (Hnp : new ∉ buffers p).
  { rewrite E, elem_of_app, elem_of_cons. unfold new, HEADER in *. intros [Hin|[?|Hin]]; [specialize (Bl _ Hin); lia|lia|]. destruct (Ab _ Hin). unfold en in *. lia. }
  assert (Hnh : headers r !! new = Some (set_free (garbage e new) true)) by (simpl; by rewrite lookup_insert_eq).
  assert (Hbh : headers r !! b = Some (set_free h false)) by (simpl; by rewrite lookup_insert_ne, lookup_insert_eq).
  assert (Hoh : forall a, a <> b -> a <> new -> headers r !! a = headers p !! a) by (intros; simpl; by rewrite !lookup_insert_ne).
  assert (Hlr : layout r).
  { apply (layout_add p r l1 b new l2 Hl); try done.
    - unfold new, HEADER in *. lia.
    - change (new + HEADER <= en). unfold new, HEADER in *. lia.
    - pose proof (la_aligned p Hl) as Hal4. rewrite E, Forall_app, Forall_cons in Hal4. destruct Hal4 as (_ & Hb4 & _). unfold new, HEADER. clear -H4 Hb4.
      clearbody size. Z.to_euclidean_division_equations; lia.
    - intros a Hin. destruct (decide (a = new)) as [->|]; [done|]. destruct (decide (a = b)) as [->|]; [rewrite Hbh; eauto|]. rewrite Hoh by done. by apply Hl. }
  split_and!; try done.
  assert (Hszr : forall a, with_free p true a -> a <> b -> sz r a = sz p a).
  { intros a [Hin _] Hab. apply (sz_same p r l1 b [] [new] l2); try done. rewrite E in Hin. set_solver. }
  destruct (insert_free_ok r new (fun a => with_free p true a /\ a <> b) Hlr) as (t & -> & Ht).
  - split; [simpl; set_solver|]. unfold is_free. by rewrite Hnh.
  - intros [[? _] _]. done.
  - intros a [[Hin Hf] Hab]. split; [simpl; rewrite E in Hin; set_solver|]. rewrite <- Hf. apply is_free_same, Hoh; [done|]. by intros ->.
  - apply (tree_ok_ext _ _ _ _ _ Hfr); [done|]. unfold by_size. intros x y [? ?] [? ?]. by rewrite !Hszr.
  - exists t. split; [done|]. apply (tree_ok_ext _ _ _ _ _ Ht); [|done]. intros a. by rewrite list_elem_of_singleton.
Qed.

Lemma take_rest :
  has_room b size en = true ->
  (forall i, i - pg (buffer p) ∈ pgs <-> has_page p i \/ pgup (b + HEADER) <= i < Z.min (pgup (b + HEADER + (size + HEADER))) (pg en)) ->
  exists p', take_buffer e (set_pages p pgs) b size (size + HEADER) dsize osize is_async = Some p' /\ taken p p' b size dsize osize is_async.
Proof.
  intros Hr Hpg. destruct take_size as (Hsz & H0 & H4 & He & Ha & Hb0). pose proof (wf_layout p Hw) as Hl.
  pose proof (layout_at p l1 b l2 Hl E) as [_ N1 N2 _ _ _ _].
  destruct (take_tree p b l1 l2 pgs Hw E Hbf) as (fr & al & h & Er & Eh & Ei & Hfr & Hal). unfold take_buffer. simpl. rewrite Er. cbn [mbind option_bind].
  rewrite Eh. cbn [mbind option_bind]. rewrite Ei. cbn [mbind option_bind]. destruct (Z.eqb_spec (size + HEADER) size); [unfold HEADER in *; lia|].
  simpl buffers. rewrite E, list_add_after_at by done. destruct (take_new fr al h Hr Hfr) as (Hn0 & Hnp & Hlr & t & Et & Ht). rewrite Et. clear Et.
  set (new := b + HEADER + size) in *. cbn [mbind option_bind]. simpl headers. rewrite lookup_insert_ne, lookup_insert_eq by done. cbn [mbind option_bind free set_free transaction].
  match goal with |- exists p', Some ?x = _ /\ _ => set (q := x); exists q end. split; [done|]. set (hb := mkbuffer false is_async (transaction h) dsize osize) in *.
  match type of Hlr with layout ?x => set (r := x) in * end.
  assert (Hq : same_area r q /\ same_area p q /\ buffers q = l1 ++ b :: [new] ++ l2 /\ headers q = <[b := hb]> (headers r) /\
               free_buffers q = t /\ allocated_buffers q = al /\ pages q = pgs) by (unfold q; by destruct is_async).
  destruct Hq as (Hsr & Hs & Eb & Ehq & Ef & Eal & Epg). pose proof (area_same p q Hs (la_area p Hl)) as [_ Ee].
  assert (Hlq : layout q).
  { apply (layout_same r q Hlr Hsr Eb). intros a Hin. rewrite Ehq. destruct (decide (a = b)) as [->|]; [rewrite lookup_insert_eq; eauto|rewrite lookup_insert_ne by done; by apply Hlr]. }
  assert (Hszq : forall a, sz q a = sz r a) by (intros; unfold sz, binder_buffer_size; rewrite Eb; by destruct Hsr as [-> ->]).
  assert (Hoh : forall a, a <> b -> a <> new -> headers q !! a = headers p !! a) by (intros; rewrite Ehq; simpl; by rewrite !lookup_insert_ne).
  assert (Hfn : is_free q new = true) by (unfold is_free; rewrite Ehq, lookup_insert_ne by done; simpl; by rewrite lookup_insert_eq).
  assert (Hal' : allot b size (blocks p) = lblocks (is_free p) l1 b ++ (b, new, false) :: (new, en, true) :: lblocks (is_free p) l2 (area_end p)).
  { unfold blocks. rewrite E, allot_at by done. change (default (area_end p) (head l2)) with en. by rewrite Hr. }
  unfold has_room in Hr. apply Z.ltb_lt in Hr. fold new in Hr.
  apply (take_common q [new] h Eh Hs Eb Hlq); [by rewrite Ehq, lookup_insert_eq|intros a ? ?; apply Hoh; set_solver| |right; by exists new| |by rewrite Eal| | |by apply take_async].
  - rewrite (sz_at q l1 b (new :: l2) Hlq Eb). change (size <= new - (b + HEADER)). unfold new. lia.
  - rewrite Ef. apply (tree_ok_ext _ _ _ _ _ Ht); [done|]. intros; unfold by_size; by rewrite !Hszq.
  - intros i. rewrite Hal', needed_split; [|unfold new; lia|unfold HEADER in *; lia|].
    + unfold has_page. destruct Hs as [-> _]. rewrite Epg, Hpg, (wf_pages p Hw i). unfold blocks. rewrite E, lblocks_at, Hbf.
      change (default (area_end p) (head l2)) with en. by replace (b + HEADER + (size + HEADER)) with (new + HEADER) by (unfold new; lia).
    + intros Hpe. destruct l2 as [|x l2']; [|rewrite lblocks_cons, needed_cons; left; left; change en with x; clear; pg_lia].
      exfalso. destruct (area_end_aligned p (la_area p Hl)) as [k Hk]. change en with (area_end p) in *. rewrite Hk in *. clear -Hpe Hr. clearbody new. pg_lia.
  - rewrite Hal'. unfold blocks. rewrite Eb, Ee. cbn [app]. rewrite lblocks_at, lblocks_cons, Hfn.
    rewrite !(lblocks_ext (is_free q) (is_free p)) by (intros a ?; apply is_free_same, Hoh; [|intros ->; apply Hnp; rewrite E]; set_solver).
    unfold is_free at 2. by rewrite Ehq, lookup_insert_eq.
Qed.
End Take.

(** ** Allocation as a whole *)

(** Why an allocation fails. *)
Definition refused (e : env) (p : binder_proc) (dsize osize : Z) (is_async : bool) : Prop :=
  vma p = None \/ 2 ^ 32 <= total dsize osize \/
  (is_async = true /\ free_async_space p < total dsize osize + HEADER) \/
  (forall a, with_free p true a -> sz p a < total dsize osize) \/
  has_mm e = false \/ (exists v i, vma p = Some v /\ page_ok e p v i = false /\ inside p i /\ ~ has_page p i).

Lemma sz_bound p a : layout p -> a ∈ buffers p -> 0 <= sz p a < 2 ^ 32 - PAGE_SIZE - HEADER.
Proof.
  intros Hl (l1 & l2 & E)%list_elem_of_split. rewrite (sz_at p l1 a l2 Hl E). pose proof (layout_at p l1 a l2 Hl E) as [_ _ _ _ _ Hs Hlo].
  destruct (la_area p Hl) as [[Hb _] _ He]. lia.
Qed.

(** The pages between the headers of a free buffer and its end are absent. *)
Lemma fresh_pages p b l1 l2 i :
  wf p -> buffers p = l1 ++ b :: l2 -> is_free p b = true -> pgup (b + HEADER) <= i < pg (default (area_end p) (head l2)) ->
  inside p i /\ ~ has_page p i.
Proof.
  intros Hw E Hbf Hi. pose proof (wf_layout p Hw) as Hl. pose proof (layout_at p l1 b l2 Hl E) as [_ _ _ _ _ Hs Hlo]. split.
  - unfold inside. set (en := default _ _) in *. clearbody en. pg_lia.
  - rewrite (wf_pages p Hw i). unfold blocks. rewrite E. intros Hn. apply (interior_free (is_free p) l1 b l2 (area_end p) i); [rewrite <- E; apply Hl|done|done|done].
Qed.

(** The search finds the smallest free buffer that is large enough. *)
Lemma best_fit_ok p size :
  wf p -> exists r exact, best_fit_loop p size (free_buffers p) None = Some (r, exact) /\
    ((r = None /\ forall a, with_free p true a -> sz p a < size) \/
     (exists b, r = Some b /\ with_free p true b /\ size <= sz p b /\ (exact = true <-> sz p b = size) /\
        forall a, with_free p true a -> size <= sz p a -> sz p b <= sz p a)).
Proof.
  intros Hw. pose proof (to_elems _ _ _ (wf_free p Hw)) as Hel.
  destruct (best_fit_loop_ok p size (free_buffers p) None (wf_layout p Hw)) as (r & exact & -> & Hbest); [apply Hel|apply (wf_free p Hw)|].
  exists r, exact. split; [done|]. destruct exact; setoid_rewrite Hel in Hbest.
  - destruct Hbest as (b & -> & Hb & Hs). right. exists b. split_and!; [done|done|lia|done|lia].
  - destruct Hbest as [[-> Hall]|(b & -> & Hb & Hlt & Hmin)]; [by left|right]. exists b. split_and!; [done|done|lia|split; [done|lia]|done].
Qed.

Lemma alloc_ok e p dsize osize is_async :
  wf p -> is_u32 dsize -> is_u32 osize ->
  exists p' r, binder_alloc_buf e p dsize osize is_async = Some (p', r) /\
    match r with
    | Some b => with_free p true b /\ total dsize osize <= sz p b /\
                (forall a, with_free p true a -> total dsize osize <= sz p a -> sz p b <= sz p a) /\
                taken p p' b (total dsize osize) dsize osize is_async
    | None => p' = p /\ refused e p dsize osize is_async
    end.
Proof.
  intros Hw Hd Ho. pose proof (wf_layout p Hw) as Hl. destruct (size_check dsize osize Hd Ho) as [Hck Hsz]. unfold binder_alloc_buf, refused.
  destruct (vma p) as [v|] eqn:Ev; [|exists p, None; auto]. cbv zeta in Hck |- *. rewrite Hck. destruct (Z.leb_spec (2 ^ 32) (total dsize osize)) as [Hov|Hov]; [exists p, None; auto|].
  rewrite (Hsz Hov). set (size := total dsize osize) in *. clear Hck Hsz.
  assert (H0 : 0 <= size) by (unfold size, total, is_u32 in *; Z.to_euclidean_division_equations; lia).
  destruct (is_async && _) eqn:Eas.
  { exists p, None. split; [done|]. split; [done|]. right; right; left. apply andb_true_iff in Eas as [-> H]. apply Z.ltb_lt in H. split; [done|].
    unfold u32, HEADER in *. pose proof (Z.mod_le (size + 40) (2 ^ 32)). lia. }
  destruct (best_fit_ok p size Hw) as (r & exact & -> & Hfit). cbn [mbind option_bind].
  destruct Hfit as [[-> Hnone]|(b & -> & [Hb Hbf] & Hle & Hex & Hmin)]; [exists p, None; auto 10|].
  pose proof (sz_bound p b Hl Hb) as Hbnd. rewrite (layout_size p b Hl Hb). cbn [mbind option_bind].
  pose proof Hb as (l1 & l2 & E)%list_elem_of_split. pose proof (sz_at p l1 b l2 Hl E) as Hszb. set (en := default (area_end p) (head l2)) in *.
  replace (b + HEADER + sz p b) with en by lia. unfold PAGE_SIZE, HEADER in Hbnd. rewrite !u32_id by (unfold is_u32, HEADER; lia).
  set (bsz := if exact then _ else _).
  assert (Hbsz : bsz = if has_room b size en then size + HEADER else size).
  { unfold bsz, has_room. destruct exact; [rewrite (proj1 Hex eq_refl)|]; destruct (Z.ltb_spec (b + HEADER + size + HEADER + 4) en); try destruct (Z.leb_spec (sz p b) (size + HEADER + 4)); unfold HEADER in *; try done; lia. }
  change (PAGE_ALIGN (b + HEADER)) with (pgup (b + HEADER) * PAGE_SIZE).
  replace (Z.min (PAGE_ALIGN (b + HEADER + bsz)) (PAGE_MASK en)) with (Z.min (pgup (b + HEADER + bsz)) (pg en) * PAGE_SIZE)
    by (change (PAGE_ALIGN (b + HEADER + bsz)) with (pgup (b + HEADER + bsz) * PAGE_SIZE); change (PAGE_MASK en) with (pg en * PAGE_SIZE); unfold PAGE_SIZE; lia).
  destruct (update_alloc_ok e p (pgup (b + HEADER)) (Z.min (pgup (b + HEADER + bsz)) (pg en)) None) as (pg' & ret & -> & Hret); [apply Hl| |].
  { intros i Hi. apply (fresh_pages p b l1 l2 i Hw E Hbf). change (pgup (b + HEADER) <= i < pg en). lia. }
  cbn [mbind option_bind]. destruct Hret as [[-> Hpg]|(-> & -> & Hbad)].
  - rewrite Z.eqb_refl. cbn [negb]. assert (Htake : exists p', take_buffer e (set_pages p pg') b size bsz dsize osize is_async = Some p' /\ taken p p' b size dsize osize is_async).
    { assert (Has : is_async = true -> size + HEADER <= free_async_space p) by (intros ->; cbn [andb] in Eas; apply Z.ltb_ge in Eas; rewrite u32_id in Eas by (unfold is_u32, HEADER; lia); done).
      clearbody bsz. subst bsz. destruct (has_room b size en) eqn:Er; [by apply (take_rest e p b dsize osize is_async l1 l2)|by apply (take_whole e p b dsize osize is_async l1 l2)]. }
    destruct Htake as (p' & -> & Htk). cbn [mbind option_bind]. exists p', (Some b). split; [done|]. done.
  - exists p, None. split; [done|]. split; [done|]. do 4 right. unfold mapping in Hbad. rewrite Ev in Hbad. destruct (has_mm e); [|by left]. right.
    destruct (Hbad v eq_refl) as (i & Hi & Hno). exists v, i. split; [done|]. split; [done|]. apply (fresh_pages p b l1 l2 i Hw E Hbf). change (pgup (b + HEADER) <= i < pg en). lia.
Qed.

(** C5. Allocation: it never fails an assertion.  It takes the smallest free buffer that is
    large enough, splits it when what is left has room for another buffer, leaves the other
    buffers alone and keeps the invariant: no pages but those that headers and allocated
    buffers need, both trees ordered and complete, no two free buffers side by side.  When
    it returns no buffer nothing has changed, and the mapping is gone, the sizes overflow,
    no free buffer or asynchronous space is left, or a page could not be had. *)
Theorem binder_alloc_correct e p dsize osize is_async :
  wf p -> is_u32 dsize -> is_u32 osize ->
  exists p' r, binder_alloc_buf e p dsize osize is_async = Some (p', r) /\
    match r with
    | Some b => with_free p true b /\ total dsize osize <= sz p b /\
                (forall a, with_free p true a -> total dsize osize <= sz p a -> sz p b <= sz p a) /\
                taken p p' b (total dsize osize) dsize osize is_async
    | None => p' = p /\ refused e p dsize osize is_async
    end.
Proof. apply alloc_ok. Qed.

(** C6. Freeing: a buffer that is allocated and belongs to no transaction is freed without a
    failed assertion, joined with free buffers on both sides, its pages and its
    asynchronous space are given back, and the invariant holds. *)
Theorem binder_free_correct e p b h :
  wf p -> b ∈ buffers p -> headers p !! b = Some h -> free h = false -> transaction h = false ->
  exists p', binder_free_buf e p b = Some p' /\ wf p' /\ same_area p p' /\ headers p' = <[b := set_free h true]> (headers p) /\
    free_async_space p' = free_async_space p + async_cost p b /\ blocks p' = coalesce (release b (blocks p)).
Proof. apply free_ok. Qed.

Lemma release_allot p b size :
  wf p -> with_free p true b -> coalesce (release b (allot b size (blocks p))) = blocks p.
Proof.
  intros Hw [Hb Hbf]. pose proof Hb as (l1 & l2 & E)%list_elem_of_split. pose proof (layout_at p l1 b l2 (wf_layout p Hw) E) as [_ N1 N2 _ _ _ _].
  unfold blocks. rewrite E, allot_at by done. set (en := default _ _). rewrite !release_app.
  rewrite (release_notin b (lblocks (is_free p) l1 b)), (release_notin b (lblocks (is_free p) l2 (area_end p))) by (intros; by apply lblocks_notin).
  pose proof (wf_coalesced p Hw) as Hc. unfold blocks in Hc. rewrite E in Hc. pose proof Hc as Hc'. rewrite lblocks_at in Hc'. fold en in Hc'.
  rewrite <- (coalesce_id _ Hc) at 1. rewrite lblocks_at, Hbf. fold en. rewrite Hbf in Hc'. apply coalesced_app in Hc' as (_ & C2 & _).
  destruct (has_room b size en); unfold release; cbn [map]; rewrite Z.eqb_refl; cbn [orb andb app]; [|done].
  rewrite <- (coalesce_app_r (lblocks (is_free p) l1 b)), <- (coalesce_app_r (lblocks (is_free p) l1 b) ((b, en, true) :: _)). do 2 f_equal.
  apply coalesced_cons in C2 as [C2 C3]. rewrite !coalesce_cons, !(coalesce_id _ C3). destruct (lblocks (is_free p) l2 (area_end p)) as [|[[a' e'] f'] B]; [done|].
  simpl in C2. subst f'. done.
Qed.

(** A buffer that is allocated and freed again leaves the area as it was: the same
    blocks, the same pages and the same asynchronous space. *)
Theorem binder_alloc_free e e' p p' b dsize osize is_async :
  wf p -> is_u32 dsize -> is_u32 osize ->
  binder_alloc_buf e p dsize osize is_async = Some (p', Some b) ->
  (forall h, headers p !! b = Some h -> transaction h = false) ->
  exists p'', binder_free_buf e' p' b = Some p'' /\ wf p'' /\ blocks p'' = blocks p /\ pages p'' = pages p /\
    free_async_space p'' = free_async_space p.
Proof.
  intros Hw Hd Ho Ea Htr. destruct (alloc_ok e p dsize osize is_async Hw Hd Ho) as (p1 & r & E1 & Hr). rewrite Ea in E1. injection E1 as <- <-.
  destruct Hr as (Hb & Hle & _ & [Hw' Hs Hb' Hbl (h & Eh & Eh') Hoth Has]).
  destruct (free_ok e' p' b _ Hw' Hb' Eh' eq_refl) as (p'' & E2 & Hw'' & Hs2 & _ & Has2 & Hbl2); [simpl; auto|]. exists p''. split; [done|]. split; [done|].
  rewrite Hbl, release_allot in Hbl2 by done. split; [done|]. split.
  - apply set_eq. intros x. pose proof (wf_pages p'' Hw'' (x + pg (buffer p))) as H1. pose proof (wf_pages p Hw (x + pg (buffer p))) as H2. unfold has_page in H1, H2.
    destruct Hs as [Hs _], Hs2 as [Hs2 _]. rewrite Hs2, Hs, Hbl2 in H1. rewrite Z.add_simpl_r in H1, H2. by rewrite H1, H2.
  - rewrite Has2, Has. unfold async_cost. rewrite Eh'. cbn [free negb andb async_transaction]. unfold request. cbn [data_size offsets_size].
    destruct (size_check dsize osize Hd Ho) as [_ Hsz]. rewrite Hsz by (pose proof (sz_bound p b (wf_layout p Hw) (proj1 Hb)); unfold PAGE_SIZE, HEADER in *; lia). destruct is_async; lia.
Qed.

(** The lookup by the address that user space knows finds exactly the allocated
    buffers: the answer is the buffer whose data is mapped there, or none. *)
Theorem binder_lookup_correct p user_ptr :
  wf p -> is_u32 user_ptr ->
  exists r, binder_buffer_lookup p user_ptr = Some r /\
    forall b, r = Some b <-> with_free p false b /\ u32 (b + HEADER + user_buffer_offset p) = user_ptr.
Proof.
  intros Hw Hu. pose proof (wf_layout p Hw) as Hl. pose proof (to_elems _ _ _ (wf_alloc p Hw)) as Hel. unfold binder_buffer_lookup.
  rewrite lookup_loop_ok; [|done|apply Hel|apply (wf_alloc p Hw)]. eexists. split; [done|]. set (k := u32 _). intros b.
  assert (Hk : with_free p false b -> k = b <-> u32 (b + HEADER + user_buffer_offset p) = user_ptr).
  { intros [Hb _]. assert (Hub : is_u32 b).
    { pose proof Hb as (l1 & l2 & E)%list_elem_of_split. pose proof (layout_at p l1 b l2 Hl E) as [_ _ _ _ _ Hs Hlo]. destruct (la_area p Hl) as [[? _] _ ?]. unfold is_u32, PAGE_SIZE, HEADER in *. lia. }
    unfold k. split; intros <-.
    - rewrite <- (u32_id user_ptr Hu) at 2. rewrite <- Z.add_assoc, u32_add_l. f_equal. lia.
    - rewrite <- (u32_id b Hub) at 2. rewrite <- Z.sub_add_distr, u32_sub_l. f_equal. lia. }
  destruct (bool_decide_reflect (k ∈ Rbtree.elements (allocated_buffers p))) as [Hin|Hin]; rewrite Hel in Hin.
  - split; [intros [= <-]; split; [done|by apply Hk]|intros [Hb Hx]; f_equal; by apply Hk].
  - split; [done|]. intros [Hb Hx]. exfalso. apply Hin. by rewrite (proj2 (Hk Hb) Hx).
Qed.

(** ** Sequences of operations *)

Definition set_transaction (p : binder_proc) (b : Z) (t : bool) : binder_proc :=
  match headers p !! b with
  | Some h => set_header p b (mkbuffer (free h) (async_transaction h) t (data_size h) (offsets_size h))
  | None => p
  end.

Definition set_vma (p : binder_proc) v := mkproc v (buffer p) (buffer_size p) (user_buffer_offset p)
  (buffers p) (headers p) (free_buffers p) (allocated_buffers p) (free_async_space p) (pages p).

(** What the rest of the driver does with the allocator: a transaction allocates a buffer
    and points at it, user space gives a buffer back by its address
    ([BC_FREE_BUFFER], which detaches it from its transaction), the mapping is closed. *)
Inductive op :=
| OAlloc (e : env) (dsize osize : Z) (is_async : bool)
| OFree (e : env) (user_ptr : Z)
| OClose.

Definition op_ok (o : op) : Prop :=
  match o with OAlloc _ dsize osize _ => is_u32 dsize /\ is_u32 osize | OFree _ u => is_u32 u | OClose => True end.

Definition step (p : binder_proc) (o : op) : option binder_proc :=
  match o with
  | OAlloc e dsize osize is_async =>
      '(p, r) ← binder_alloc_buf e p dsize osize is_async;
      Some (match r with Some b => set_transaction p b true | None => p end)
  | OFree e user_ptr =>
      r ← binder_buffer_lookup p user_ptr;
      match r with Some b => binder_free_buf e (set_transaction p b false) b | None => Some p end
  | OClose => Some (set_vma p None)
  end.

Fixpoint run (p : binder_proc) (os : list op) : option binder_proc :=
  match os with [] => Some p | o :: os => p ← step p o; run p os end.

(** The invariant does not look at [transaction] and [vma]. *)
Definition key (h : binder_buffer) := (free h, async_transaction h, data_size h, offsets_size h).

Lemma wf_ext p q :
  same_area p q -> buffers q = buffers p -> free_buffers q = free_buffers p -> allocated_buffers q = allocated_buffers p ->
  free_async_space q = free_async_space p -> pages q = pages p -> (forall a, key <$> headers q !! a = key <$> headers p !! a) -> wf p -> wf q.
Proof.
  intros Hs Eb Ef Ea Eas Ep Hk Hw. destruct (area_same p q Hs (la_area p (wf_layout p Hw))) as [_ Ee].
  assert (Hfr : forall a, is_free q a = is_free p a).
  { intros a. specialize (Hk a). unfold is_free. destruct (headers q !! a), (headers p !! a); try done. by injection Hk. }
  assert (Hcost : forall a, async_cost q a = async_cost p a).
  { intros a. specialize (Hk a). unfold async_cost, request. destruct (headers q !! a), (headers p !! a); try done. by injection Hk as -> -> -> ->. }
  assert (Hsz : forall a, sz q a = sz p a) by (intros; unfold sz, binder_buffer_size; rewrite Eb; by destruct Hs as [-> ->]).
  assert (Hbl : blocks q = blocks p) by (unfold blocks; rewrite Eb, Ee; by apply lblocks_ext).
  assert (Hwf : forall f a, with_free q f a <-> with_free p f a) by (intros; unfold with_free; by rewrite Eb, Hfr).
  split.
  - apply (layout_same p q (wf_layout p Hw) Hs Eb). intros a Ha. specialize (Hk a). destruct (la_headers p (wf_layout p Hw) a Ha) as [h Eh]. rewrite Eh in Hk.
    destruct (headers q !! a); [eauto|done].
  - rewrite Hbl. apply (wf_coalesced p Hw).
  - rewrite Ef. apply (tree_ok_ext _ _ _ _ _ (wf_free p Hw)); [intros; by rewrite Hwf|unfold by_size; intros; by rewrite !Hsz].
  - rewrite Ea. apply (tree_ok_ext _ _ _ _ _ (wf_alloc p Hw)); [intros; by rewrite Hwf|done].
  - intros a h Ha Eh Hf. rewrite Eb in Ha. specialize (Hk a). rewrite Eh in Hk. destruct (headers p !! a) as [h'|] eqn:Eh'; [|done]. injection Hk as K1 K2 K3 K4.
    rewrite Hsz. unfold request. rewrite K3, K4. apply (wf_fits p Hw a h' Ha Eh'). congruence.
  - intros i. rewrite Hbl. unfold has_page. rewrite Ep. destruct Hs as [-> _]. apply (wf_pages p Hw i).
  - rewrite Eas. unfold async_used, async_sum. rewrite Eb. rewrite (map_ext _ _ Hcost). destruct Hs as [_ ->]. apply (wf_async p Hw).
Qed.

Lemma wf_set_transaction p b t : wf p -> wf (set_transaction p b t).
Proof.
  intros Hw. unfold set_transaction. destruct (headers p !! b) as [h|] eqn:Eh; [|done]. apply (wf_ext p); try done.
  intros a. simpl. destruct (decide (a = b)) as [->|]; [by rewrite lookup_insert_eq, Eh|by rewrite lookup_insert_ne].
Qed.

Lemma step_ok p o : wf p -> op_ok o -> exists p', step p o = Some p' /\ wf p'.
Proof.
  intros Hw Ho. destruct o as [e d o a|e u|]; simpl in *.
  - destruct Ho as [Hd Hoo]. destruct (alloc_ok e p d o a Hw Hd Hoo) as (p' & r & -> & Hr). cbn [mbind option_bind]. eexists. split; [done|].
    destruct r as [b|]; [|destruct Hr as [-> _]; done]. destruct Hr as (_ & _ & _ & Htk). apply wf_set_transaction, Htk.
  - unfold binder_buffer_lookup. pose proof (to_elems _ _ _ (wf_alloc p Hw)) as Hel. rewrite lookup_loop_ok; [|apply Hw|apply Hel|apply (wf_alloc p Hw)].
    cbn [mbind option_bind]. destruct (bool_decide_reflect (u32 (u - user_buffer_offset p - HEADER) ∈ Rbtree.elements (allocated_buffers p))) as [Hin|_]; [|eauto].
    apply Hel in Hin. set (b := u32 _) in *. destruct Hin as [Hb Hbf]. destruct (is_free_false p b (wf_layout p Hw) Hb Hbf) as (h & Eh & Hf).
    assert (Hq : wf (set_transaction p b false)) by (by apply wf_set_transaction). unfold set_transaction in *. rewrite Eh in *.
    match type of Hq with wf (set_header p b ?h') => destruct (free_ok e _ b h' Hq Hb) as (p' & -> & Hw' & _) end; [simpl; by rewrite lookup_insert_eq|done|done|]. eauto.
  - eexists. split; [done|]. by apply (wf_ext p).
Qed.

(** However transactions and user space interleave allocations, releases by address
    (also of addresses that are no buffer) and the end of the mapping, no assertion of the
    allocator fails and its invariant holds. *)
Theorem binder_ops_safe p os : wf p -> Forall op_ok os -> exists p', run p os = Some p' /\ wf p'.
Proof.
  revert p. induction os as [|o os IH]; intros p Hw Ho; simpl; [eauto|]. inversion Ho as [|? ? H1 H2]. subst.
  destruct (step_ok p o Hw H1) as (p1 & -> & Hw1). cbn [mbind option_bind]. by apply IH.
Qed.

(** ** Mapping *)

Definition fresh (p : binder_proc) : Prop := buffer p = 0 /\ free_buffers p = Rbtree.Leaf /\ allocated_buffers p = Rbtree.Leaf.

(** The addresses that the VM and [get_vm_area] give: page aligned, and with a page after
    the area. *)
Definition addresses_ok (vm_start vm_end : Z) (area : option Z) : Prop :=
  0 <= vm_start < vm_end /\ vm_end < 2 ^ 32 /\ vm_start mod PAGE_SIZE = 0 /\ vm_end mod PAGE_SIZE = 0 /\
  match area with Some a => 0 < a /\ a mod PAGE_SIZE = 0 /\ a + Z.min (vm_end - vm_start) SZ_4M <= 2 ^ 32 - PAGE_SIZE | None => True end.

(** A single free buffer over the whole area satisfies the invariant. *)
Lemma wf_single p a t h :
  area_ok p -> buffer p = a -> buffers p = [a] -> headers p !! a = Some h -> free h = true ->
  free_buffers p = t -> Rbtree.wf t -> Rbtree.elements t = [a] -> allocated_buffers p = Rbtree.Leaf ->
  free_async_space p = buffer_size p / 2 -> (forall i, has_page p i <-> i = pg a) -> wf p.
Proof.
  intros Ha Eb El Eh Hf Et Ht Ee Eal Eas Hpg. destruct Ha as [Hb Hs He]. assert (Hif : is_free p a = true) by (unfold is_free; by rewrite Eh).
  assert (Hl : layout p).
  { split; [done| | | |]; rewrite El; [by rewrite Eb| | |].
    - apply tiled_cons. split; [|intros x e' H; simpl in H; set_solver]. simpl. unfold area_end, PAGE_SIZE, HEADER in *. rewrite Eb in *. lia.
    - constructor; [|done]. destruct Hb as [_ Hb]. rewrite Eb in Hb. clear -Hb. unfold PAGE_SIZE in Hb. Z.to_euclidean_division_equations; lia.
    - intros x ->%list_elem_of_singleton. eauto. }
  assert (Hbl : blocks p = [(a, area_end p, true)]) by (unfold blocks; rewrite El; cbn; by rewrite Hif).
  split; [done|by rewrite Hbl| | | | |].
  - rewrite Et. split; [done| |rewrite Ee; apply NoDup_singleton|rewrite Ee; repeat constructor]. intros x. rewrite Ee. unfold with_free. rewrite El, list_elem_of_singleton.
    split; [intros ->; done|tauto].
  - rewrite Eal. split; [by exists 0%nat; constructor| |simpl; apply NoDup_nil_2|constructor]. intros x. simpl. split; [set_solver|]. intros [Hx Hxf]. rewrite El in Hx.
    apply list_elem_of_singleton in Hx as ->. by rewrite Hif in Hxf.
  - intros x k Hx. rewrite El in Hx. apply list_elem_of_singleton in Hx as ->. rewrite Eh. intros [= <-]. by rewrite Hf.
  - intros i. rewrite Hpg, Hbl, needed_cons. destruct Hb as [_ Hb]. rewrite Eb in Hb. split.
    + intros ->. left. left. clear. pg_lia.
    + intros [[H|[? _]]|H]; [|done|by apply needed_nil in H]. clear -H Hb. pg_lia.
  - rewrite Eas. unfold async_used. rewrite El, async_sum_cons, (async_cost_free p a Hif). change (async_sum p []) with 0.
    split; [lia|]. apply Z.div_pos; unfold PAGE_SIZE in *; lia.
Qed.

Lemma mapped_length s t :
  s < t -> s mod PAGE_SIZE = 0 -> t mod PAGE_SIZE = 0 -> PAGE_SIZE <= Z.min (t - s) SZ_4M /\ Z.min (t - s) SZ_4M mod PAGE_SIZE = 0.
Proof.
  intros H H1 H2. assert (H3 : (t - s) mod PAGE_SIZE = 0) by (rewrite Zminus_mod, H1, H2; done).
  unfold PAGE_SIZE, SZ_4M in *. destruct (Z.min_spec (t - s) 0x400000) as [[_ ->]|[_ ->]]; [|split; [lia|done]]. split; [|done].
  pose proof (Z.div_mod (t - s) 4096). lia.
Qed.

Lemma mmap_ok e p vm_start vm_end vm_flags area pages_ok aliasing :
  fresh p -> addresses_ok vm_start vm_end area ->
  (forall a, area = Some a -> aliasing = true -> CACHE_COLOUR (Z.lxor vm_start a) = 0) ->
  exists p' r, binder_mmap e p vm_start vm_end vm_flags area pages_ok aliasing = Some (p', r) /\
    ((r <> 0 /\ fresh p') \/
     (r = 0 /\ wf p' /\ exists a, area = Some a /\ blocks p' = [(a, a + Z.min (vm_end - vm_start) SZ_4M, true)])).
Proof.
  intros (F1 & F2 & F3) (Hv & He & Hvs & Hve & Har) Hcol. unfold binder_mmap. rewrite F1.
  destruct (negb (Z.land vm_flags VM_WRITE =? 0)); [eexists _, _; split; [done|left; split; [unfold EPERM; lia|done]]|]. cbn [Z.eqb negb].
  destruct area as [a|]; [|eexists _, _; split; [done|left; split; [unfold ENOMEM; lia|done]]]. destruct Har as (Ha0 & Ham & Hae).
  set (vm_end' := if _ <? _ then _ else vm_end).
  assert (Hlen : vm_end' = vm_start + Z.min (vm_end - vm_start) SZ_4M).
  { unfold vm_end'. rewrite u32_id by (unfold is_u32; lia). destruct (Z.ltb_spec SZ_4M (vm_end - vm_start)); [rewrite u32_id; [lia|unfold is_u32, SZ_4M in *; lia]|lia]. }
  set (len := Z.min (vm_end - vm_start) SZ_4M) in *. clearbody vm_end'. subst vm_end'.
  assert (Hlen : PAGE_SIZE <= len /\ len mod PAGE_SIZE = 0) by (apply mapped_length; tauto).
  replace (if aliasing then align_colour 3 vm_start a else Some vm_start) with (Some vm_start); [|destruct aliasing; [|done]; cbn [align_colour]; by rewrite (Hcol a eq_refl eq_refl)].
  cbn [mbind option_bind]. destruct pages_ok; cbn [negb]; [|eexists _, _; split; [done|left; split; [unfold ENOMEM; lia|done]]].
  replace (vm_start + len - vm_start) with len by lia. rewrite (u32_id len) by (unfold is_u32, PAGE_SIZE in *; lia). set (q := mkproc _ a len _ _ _ _ _ _ _).
  assert (Hq : area_ok q) by (split; unfold area_end; simpl; [done|done|lia]).
  assert (Hpa : a = pg a * PAGE_SIZE) by (clear -Ham; pg_lia).
  destruct (update_alloc_ok e q (pg a) (pg a + 1) (Some (vm_start, vm_start + len)) Hq) as (pg' & r & Eu & Hr).
  { intros i Hi. split; [|unfold has_page; simpl; set_solver]. unfold inside, area_end. simpl. clear -Hi Hlen. pg_lia. }
  replace ((pg a + 1) * PAGE_SIZE) with (a + PAGE_SIZE) in Eu by lia. rewrite <- Hpa in Eu. rewrite Eu. cbn [mbind option_bind].
  destruct Hr as [[-> Hpg]|(-> & _ & _)]; [|cbn [negb Z.eqb]; eexists _, _; split; [done|left; split; [unfold ENOMEM; lia|done]]].
  cbn [negb Z.eqb]. set (q2 := set_header _ a _). assert (Ehq : headers q2 !! a = Some (set_free (garbage e a) true)) by (simpl; by rewrite lookup_insert_eq).
  assert (Hins : binder_insert_free_buffer q2 a = Some (set_trees q2 (Rbtree.Node Rbtree.Black Rbtree.Leaf a Rbtree.Leaf) Rbtree.Leaf)).
  { unfold binder_insert_free_buffer. rewrite Ehq. cbn [mbind option_bind free set_free negb]. unfold binder_buffer_size. simpl buffers. cbn [next_entry]. rewrite Z.eqb_refl.
    cbn [mbind option_bind]. simpl free_buffers. simpl allocated_buffers. rewrite F2, F3. done. }
  rewrite Hins. cbn [mbind option_bind]. eexists _, _. split; [done|]. right. split; [done|]. split.
  - eapply (wf_single _ a _ (set_free (garbage e a) true)); try done.
    + exists 1%nat. repeat econstructor.
    + intros i. unfold has_page. simpl. specialize (Hpg i). unfold has_page in Hpg. simpl in Hpg. rewrite Hpg. split; [intros [?|?]; [set_solver|lia]|intros ->; right; lia].
  - exists a. split; [done|]. unfold blocks, lblocks, area_end. simpl. unfold is_free. simpl. by rewrite lookup_insert_eq.
Qed.

(** Mapping: a process that has no area gets one that satisfies the invariant and is one
    free buffer of the size of the mapping, at most 4 MB; or an error, and still no area. *)
Theorem binder_mmap_correct e p vm_start vm_end vm_flags area pages_ok aliasing :
  fresh p -> addresses_ok vm_start vm_end area ->
  (forall a, area = Some a -> aliasing = true -> CACHE_COLOUR (Z.lxor vm_start a) = 0) ->
  exists p' r, binder_mmap e p vm_start vm_end vm_flags area pages_ok aliasing = Some (p', r) /\
    ((r <> 0 /\ fresh p') \/
     (r = 0 /\ wf p' /\ exists a, area = Some a /\ blocks p' = [(a, a + Z.min (vm_end - vm_start) SZ_4M, true)])).
Proof. apply mmap_ok. Qed.

Lemma align_colour_above fuel : forall s a s', 0 <= s -> s + Z.of_nat fuel * PAGE_SIZE < 2 ^ 32 -> align_colour fuel s a = Some s' ->
  s <= s' /\ CACHE_COLOUR (Z.lxor s' a) = 0.
Proof.
  induction fuel as [|fuel IH]; intros s a s' Hs Hm E; cbn [align_colour] in E; (destruct (Z.eqb_spec (CACHE_COLOUR (Z.lxor s a)) 0); [injection E as <-; split; [lia|done]|]); [done|].
  rewrite u32_id in E by (unfold is_u32, PAGE_SIZE in *; lia). apply IH in E; [unfold PAGE_SIZE in *; split; [lia|tauto]|unfold PAGE_SIZE in *; lia|unfold PAGE_SIZE in *; lia].
Qed.

(** Where the loop over the cache colours moves the start of the mapping, the mapping
    never succeeds: the distance to user space was computed from the old start, so the
    first page would go before the mapping, where [vm_insert_page] refuses it. *)
Theorem binder_mmap_colour e p p' vm_start vm_end vm_flags a pages_ok :
  is_u32 a -> 0 <= vm_start -> vm_start + 3 * PAGE_SIZE < 2 ^ 32 ->
  CACHE_COLOUR (Z.lxor vm_start a) <> 0 ->
  binder_mmap e p vm_start vm_end vm_flags (Some a) pages_ok true <> Some (p', 0).
Proof.
  intros Ha Hs Hm Hc E. unfold binder_mmap in E. destruct (negb (Z.land _ _ =? 0)); [done|]. destruct (negb (buffer p =? 0)); [done|].
  destruct (align_colour 3 vm_start a) as [s'|] eqn:Ec; [|done]. cbn [mbind option_bind] in E. destruct pages_ok; [|done]. cbn [negb] in E.
  destruct (align_colour_above 3 vm_start a s' Hs ltac:(lia) Ec) as [Hle Hc']. assert (Hlt : vm_start < s') by (destruct (Z.eq_dec s' vm_start) as [->|]; [done|lia]).
  set (q := mkproc (vma p) a _ _ _ _ _ _ _ _) in E. unfold binder_update_page_range in E.
  destruct (Z.leb_spec (a + PAGE_SIZE) a); [unfold PAGE_SIZE in *; lia|]. replace ((a + PAGE_SIZE - a) / PAGE_SIZE + 1) with 2 in E by (replace (a + PAGE_SIZE - a) with PAGE_SIZE by lia; done).
  change (Z.to_nat 2) with 2%nat in E. cbn [alloc_pages] in E. destruct (Z.ltb_spec a (a + PAGE_SIZE)); [|unfold PAGE_SIZE in *; lia].
  destruct (negb (in_area q _) || _); [done|].
  replace (vm_insert_page e (s', _) (u32 (a + user_buffer_offset q)) a) with false in E.
  - rewrite andb_false_r, Z.sub_diag in E. change (Z.to_nat (0 / PAGE_SIZE)) with 0%nat in E. cbn [free_pages] in E.
    destruct (Z.leb_spec a (a - PAGE_SIZE)); [unfold PAGE_SIZE in *; lia|]. done.
  - symmetry. unfold vm_insert_page. simpl. replace (u32 (a + u32 (vm_start - a))) with vm_start.
    + by rewrite (proj2 (Z.leb_gt s' vm_start)) by lia.
    + rewrite u32_add_r. replace (a + (vm_start - a)) with vm_start by lia. rewrite u32_id; [done|]. unfold is_u32, PAGE_SIZE in *. lia.
Qed.

(** ** Examples *)

Definition ex_env : env := mkenv (fun _ => true) (fun _ => true) (fun _ => true) true (fun _ => mkbuffer false false false 0 0).
Definition ex_zero : binder_proc := mkproc None 0 0 0 [] ∅ Rbtree.Leaf Rbtree.Leaf 0 ∅.
Definition ex_proc : binder_proc :=
  match binder_mmap ex_env ex_zero 0x40000000 0x40010000 0 (Some 0xE0000000) true true with Some (p, _) => p | None => ex_zero end.

Lemma ex_mmap : exists p, binder_mmap ex_env ex_zero 0x40000000 0x40010000 0 (Some 0xE0000000) true true = Some (p, 0).
Proof. vm_compute. eexists. reflexivity. Qed.

Lemma ex_addresses : addresses_ok 0x40000000 0x40010000 (Some 0xE0000000).
Proof. vm_compute. intuition congruence. Qed.

Lemma ex_wf : wf ex_proc.
Proof.
  destruct (mmap_ok ex_env ex_zero 0x40000000 0x40010000 0 (Some 0xE0000000) true true) as (p & r & E & Hr); [done|exact ex_addresses|by intros ? [= <-] _|].
  unfold ex_proc. rewrite E. destruct Hr as [[Hr _]|(_ & Hw & _)]; [|exact Hw]. destruct ex_mmap as [p' E']. rewrite E in E'. injection E' as _ E'. by destruct (Hr E').
Qed.

Definition ex_alloc (d o : Z) (p : binder_proc) : binder_proc * option Z := default (p, None) (binder_alloc_buf ex_env p d o true).
Definition ex_proc2 : binder_proc := fst (ex_alloc 100 8 ex_proc).

Lemma ex_alloc2 : binder_alloc_buf ex_env ex_proc 100 8 true = Some (ex_proc2, Some 0xE0000000).
Proof. vm_compute. reflexivity. Qed.

Lemma ex_u32 : is_u32 100 /\ is_u32 8.
Proof. unfold is_u32. lia. Qed.

Lemma ex_wf2 : wf ex_proc2.
Proof.
  destruct (alloc_ok ex_env ex_proc 100 8 true ex_wf (proj1 ex_u32) (proj2 ex_u32)) as (p' & r & E & Hr). rewrite ex_alloc2 in E. injection E as <- <-.
  apply Hr.
Qed.

Lemma binder_alloc_correct_witness :
  wf ex_proc2 /\ blocks ex_proc2 = [(0xE0000000, 0xE0000094, false); (0xE0000094, 0xE0010000, true)] /\ free_async_space ex_proc2 = 32768 - 148.
Proof.
  destruct (binder_alloc_correct ex_env ex_proc 100 8 true ex_wf (proj1 ex_u32) (proj2 ex_u32)) as (p' & r & E & Hr). rewrite ex_alloc2 in E. injection E as <- <-.
  destruct Hr as (_ & _ & _ & Ht). split; [apply Ht|]. split; [rewrite (tk_blocks _ _ _ _ _ _ _ Ht); vm_compute; reflexivity|rewrite (tk_async _ _ _ _ _ _ _ Ht); vm_compute; reflexivity].
Defined.

Lemma binder_free_correct_witness :
  exists p', binder_free_buf ex_env ex_proc2 0xE0000000 = Some p' /\ wf p' /\ blocks p' = [(0xE0000000, 0xE0010000, true)].
Proof.
  destruct (binder_free_correct ex_env ex_proc2 0xE0000000 (mkbuffer false true false 100 8)) as (p' & E & Hw & _ & _ & _ & Hb);
    [exact ex_wf2|vm_compute; set_solver|vm_compute; reflexivity|reflexivity|reflexivity|]. exists p'. split; [exact E|]. split; [exact Hw|]. rewrite Hb. vm_compute. reflexivity.
Defined.

Lemma binder_alloc_free_witness :
  exists p'', binder_free_buf ex_env ex_proc2 0xE0000000 = Some p'' /\ blocks p'' = blocks ex_proc /\ pages p'' = pages ex_proc.
Proof.
  destruct (binder_alloc_free ex_env ex_env ex_proc ex_proc2 0xE0000000 100 8 true ex_wf (proj1 ex_u32) (proj2 ex_u32) ex_alloc2) as (p'' & E & _ & Hb & Hp & _);
    [intros h Eh; vm_compute in Eh; injection Eh as <-; reflexivity|]. exists p''. split; [exact E|]. split; [exact Hb|exact Hp].
Defined.

Lemma binder_lookup_correct_witness :
  binder_buffer_lookup ex_proc2 0x40000028 = Some (Some 0xE0000000) /\ with_free ex_proc2 false 0xE0000000.
Proof.
  destruct (binder_lookup_correct ex_proc2 0x40000028 ex_wf2) as (r & E & Hr); [unfold is_u32; lia|]. vm_compute in E. injection E as <-. split; [vm_compute; reflexivity|].
  apply (proj1 (Hr 0xE0000000) eq_refl).
Defined.

Lemma binder_ops_safe_witness :
  exists p', run ex_proc [OAlloc ex_env 100 8 true; OAlloc ex_env 5000 0 false; OFree ex_env 0x40000028; OFree ex_env 17; OClose; OAlloc ex_env 1 1 false] = Some p' /\ wf p'.
Proof. apply binder_ops_safe; [exact ex_wf|]. unfold op_ok, is_u32. repeat constructor; simpl; lia. Defined.

Lemma binder_mmap_correct_witness : exists p' r, binder_mmap ex_env ex_zero 0x40000000 0x40010000 0 (Some 0xE0000000) true true = Some (p', r) /\ wf p'.
Proof.
  destruct (binder_mmap_correct ex_env ex_zero 0x40000000 0x40010000 0 (Some 0xE0000000) true true) as (p & r & E & Hr); [done|exact ex_addresses|by intros ? [= <-] _|].
  exists p, r. split; [exact E|]. destruct Hr as [[Hr _]|(_ & Hw & _)]; [|exact Hw]. destruct ex_mmap as [p' E']. rewrite E in E'. injection E' as _ E'. by destruct (Hr E').
Defined.

Lemma binder_mmap_colour_witness :
  CACHE_COLOUR (Z.lxor 0x40001000 0xE0000000) = 1 /\ forall p', binder_mmap ex_env ex_zero 0x40001000 0x40010000 0 (Some 0xE0000000) true true <> Some (p', 0).
Proof.
  split; [reflexivity|]. intros p'. apply binder_mmap_colour; [unfold is_u32; lia|lia|unfold PAGE_SIZE; lia|discriminate].
Defined.

End BinderAlloc.
