(* ===== verification/BinderRef.v ===== *)
(** * drivers/staging/android/binder.c: nodes, references and death notifications

    A node is an object that a process offers; a reference is what another process holds of
    it, named there by a descriptor.  A node lives as long as references or local counts
    keep it; its process is told by works on its lists when the first reference comes and
    the last one goes.  When a process dies its nodes become dead nodes, and the references
    that asked for it get a death notification.

    Objects are records at their addresses, in one map per kind; the trees and lists hold
    addresses.  Access to an object that is not there, a failed [BUG_ON], adding an entry to
    a list while it is on one, and overflow of a count are [None].  An allocation is an
    argument: the address that [kzalloc] returns, or [None].  The lists hold the works of
    nodes and death notifications; the works of transactions are left out. *)
From stdpp Require Import sorting.
From S2P Require Import Prelude Rbtree OrdTree.
Import OrdTree.

Module BinderRef.

(** ** Work lists

    [on] tells on which list an entry is. *)
Record worklists := mkwl { lists : gmap Z (list Z); on : gmap Z Z; owner : gmap Z Z }.

Definition list_empty (w : worklists) (x : Z) : bool := match on w !! x with Some _ => false | None => true end.

Definition list_add_tail (w : worklists) (x l : Z) : option worklists :=
  L ← lists w !! l;
  if list_empty w x then Some (mkwl (<[l := L ++ [x]]> (lists w)) (<[x := l]> (on w)) (owner w)) else None.

Definition list_add (w : worklists) (x l : Z) : option worklists :=
  L ← lists w !! l;
  if list_empty w x then Some (mkwl (<[l := x :: L]> (lists w)) (<[x := l]> (on w)) (owner w)) else None.

Definition list_del_init (w : worklists) (x : Z) : worklists :=
  match on w !! x with
  | None => w
  | Some l => mkwl (alter (filter (fun y => y <> x)) l (lists w)) (delete x (on w)) (owner w)
  end.

(** ** Data *)

Record binder_node := mknode {
  n_proc : option Z;
  n_refs : list Z;
  internal_strong_refs : Z;
  local_weak_refs : Z;
  local_strong_refs : Z;
  n_ptr : Z;
  n_cookie : Z;
  has_strong_ref : bool;
  pending_strong_ref : bool;
  has_weak_ref : bool;
  pending_weak_ref : bool }.

Inductive death_type := DEAD_BINDER | DEAD_BINDER_AND_CLEAR | CLEAR_DEATH_NOTIFICATION.

#[export] Instance death_type_eq_dec : EqDecision death_type.
Proof. solve_decision. Defined.

(** [d_type] is [None] until a work is queued. *)
Record binder_ref_death := mkdeath { d_cookie : Z; d_type : option death_type }.

Record binder_ref := mkref { r_proc : Z; r_node : Z; desc : Z; strong : Z; weak : Z; death : option Z }.

Record binder_proc := mkproc {
  nodes_t : Rbtree.tree; refs_by_desc : Rbtree.tree; refs_by_node : Rbtree.tree; todo : Z; delivered_death : Z }.

Record state := mkstate {
  nodes : gmap Z binder_node;
  refs : gmap Z binder_ref;
  deaths : gmap Z binder_ref_death;
  procs : gmap Z binder_proc;
  wl : worklists;
  dead_nodes : list Z;
  context_mgr_node : option Z }.

Definition set_node (s : state) n nd := mkstate (<[n := nd]> (nodes s)) (refs s) (deaths s) (procs s) (wl s) (dead_nodes s) (context_mgr_node s).
Definition del_node (s : state) n := mkstate (delete n (nodes s)) (refs s) (deaths s) (procs s) (wl s) (dead_nodes s) (context_mgr_node s).
Definition set_ref (s : state) r rf := mkstate (nodes s) (<[r := rf]> (refs s)) (deaths s) (procs s) (wl s) (dead_nodes s) (context_mgr_node s).
Definition del_ref (s : state) r := mkstate (nodes s) (delete r (refs s)) (deaths s) (procs s) (wl s) (dead_nodes s) (context_mgr_node s).
Definition set_death (s : state) d dd := mkstate (nodes s) (refs s) (<[d := dd]> (deaths s)) (procs s) (wl s) (dead_nodes s) (context_mgr_node s).
Definition del_death (s : state) d := mkstate (nodes s) (refs s) (delete d (deaths s)) (procs s) (wl s) (dead_nodes s) (context_mgr_node s).
Definition set_proc (s : state) p pr := mkstate (nodes s) (refs s) (deaths s) (<[p := pr]> (procs s)) (wl s) (dead_nodes s) (context_mgr_node s).
Definition set_wl (s : state) w := mkstate (nodes s) (refs s) (deaths s) (procs s) w (dead_nodes s) (context_mgr_node s).
Definition set_dead (s : state) l := mkstate (nodes s) (refs s) (deaths s) (procs s) (wl s) l (context_mgr_node s).
Definition set_context (s : state) c := mkstate (nodes s) (refs s) (deaths s) (procs s) (wl s) (dead_nodes s) c.

Definition set_counts (nd : binder_node) i lw ls := mknode (n_proc nd) (n_refs nd) i lw ls (n_ptr nd) (n_cookie nd)
  (has_strong_ref nd) (pending_strong_ref nd) (has_weak_ref nd) (pending_weak_ref nd).
Definition set_refs (nd : binder_node) l := mknode (n_proc nd) l (internal_strong_refs nd) (local_weak_refs nd) (local_strong_refs nd)
  (n_ptr nd) (n_cookie nd) (has_strong_ref nd) (pending_strong_ref nd) (has_weak_ref nd) (pending_weak_ref nd).
Definition set_flags (nd : binder_node) hs ps hw pw := mknode (n_proc nd) (n_refs nd) (internal_strong_refs nd) (local_weak_refs nd)
  (local_strong_refs nd) (n_ptr nd) (n_cookie nd) hs ps hw pw.

Definition set_nodes_t (pr : binder_proc) t := mkproc t (refs_by_desc pr) (refs_by_node pr) (todo pr) (delivered_death pr).
Definition set_ref_trees (pr : binder_proc) td tn := mkproc (nodes_t pr) td tn (todo pr) (delivered_death pr).

Definition set_ref_counts (rf : binder_ref) a b := mkref (r_proc rf) (r_node rf) (desc rf) a b (death rf).
Definition set_ref_death (rf : binder_ref) d := mkref (r_proc rf) (r_node rf) (desc rf) (strong rf) (weak rf) d.

Definition INT_MAX : Z := 2 ^ 31 - 1.
Definition incr (x : Z) : option Z := if x <? INT_MAX then Some (x + 1) else None.
Definition decr (x : Z) : option Z := if - INT_MAX <=? x then Some (x - 1) else None.

(** ** Nodes *)

Definition binder_get_node (s : state) (p ptr : Z) : option (option Z) :=
  pr ← procs s !! p;
  search (fun n => nd ← nodes s !! n; Some (ptr ?= n_ptr nd)) (nodes_t pr).

Definition binder_new_node (s : state) (p ptr cookie : Z) (new : option Z) : option (state * option Z) :=
  pr ← procs s !! p;
  r ← binder_get_node s p ptr;
  match r, new with
  | Some _, _ | None, None => Some (s, None)
  | None, Some n =>
      t ← Rbtree.insert (fun m => nd ← nodes s !! m; Some (ptr <? n_ptr nd)) n (nodes_t pr);
      Some (set_proc (set_node s n (mknode (Some p) [] 0 0 0 ptr cookie false false false false)) p (set_nodes_t pr t), Some n)
  end.

Definition is_context (s : state) (n : Z) : bool := bool_decide (context_mgr_node s = Some n).

Definition binder_inc_node (s : state) (n : Z) (strong internal : bool) (target_list : option Z) : option (state * Z) :=
  nd ← nodes s !! n;
  if strong then
    if internal && bool_decide (target_list = None) && (internal_strong_refs nd =? 0) && negb (is_context s n && has_strong_ref nd)
    then Some (s, - EINVAL)
    else
      nd ← (if internal then i ← incr (internal_strong_refs nd); Some (set_counts nd i (local_weak_refs nd) (local_strong_refs nd))
            else i ← incr (local_strong_refs nd); Some (set_counts nd (internal_strong_refs nd) (local_weak_refs nd) i));
      let s := set_node s n nd in
      match target_list with
      | Some l =>
          if negb (has_strong_ref nd) then
            w ← list_add_tail (list_del_init (wl s) n) n l;
            Some (set_wl s w, 0)
          else Some (s, 0)
      | None => Some (s, 0)
      end
  else
    nd ← (if internal then Some nd
          else i ← incr (local_weak_refs nd); Some (set_counts nd (internal_strong_refs nd) i (local_strong_refs nd)));
    let s := set_node s n nd in
    if negb (has_weak_ref nd) && list_empty (wl s) n then
      match target_list with
      | None => Some (s, - EINVAL)
      | Some l => w ← list_add_tail (wl s) n l; Some (set_wl s w, 0)
      end
    else Some (s, 0).

(** The end of [binder_dec_node]: the last count of its kind is gone. *)
Definition node_unused (s : state) (n : Z) : option state :=
  nd ← nodes s !! n;
  match n_proc nd with
  | Some p =>
      if has_strong_ref nd || has_weak_ref nd then
        if list_empty (wl s) n then
          pr ← procs s !! p;
          w ← list_add_tail (wl s) n (todo pr);
          Some (set_wl s w)
        else Some s
      else if bool_decide (n_refs nd = []) && (local_strong_refs nd =? 0) && (local_weak_refs nd =? 0) then
        pr ← procs s !! p;
        t ← Rbtree.erase n (nodes_t pr);
        Some (del_node (set_proc (set_wl s (list_del_init (wl s) n)) p (set_nodes_t pr t)) n)
      else Some s
  | None =>
      if bool_decide (n_refs nd = []) && (local_strong_refs nd =? 0) && (local_weak_refs nd =? 0) then
        if bool_decide (n ∈ dead_nodes s)
        then Some (del_node (set_dead (set_wl s (list_del_init (wl s) n)) (filter (fun x => x <> n) (dead_nodes s))) n)
        else None
      else Some s
  end.

Definition binder_dec_node (s : state) (n : Z) (strong internal : bool) : option state :=
  nd ← nodes s !! n;
  if strong then
    nd ← (if internal then i ← decr (internal_strong_refs nd); Some (set_counts nd i (local_weak_refs nd) (local_strong_refs nd))
          else i ← decr (local_strong_refs nd); Some (set_counts nd (internal_strong_refs nd) (local_weak_refs nd) i));
    let s := set_node s n nd in
    if negb (local_strong_refs nd =? 0) || negb (internal_strong_refs nd =? 0) then Some s else node_unused s n
  else
    nd ← (if internal then Some nd
          else i ← decr (local_weak_refs nd); Some (set_counts nd (internal_strong_refs nd) i (local_strong_refs nd)));
    let s := set_node s n nd in
    if negb (local_weak_refs nd =? 0) || negb (bool_decide (n_refs nd = [])) then Some s else node_unused s n.

(** ** References *)

Definition binder_get_ref (s : state) (p d : Z) : option (option Z) :=
  pr ← procs s !! p;
  search (fun r => rf ← refs s !! r; Some (d ?= desc rf)) (refs_by_desc pr).

Definition rb_next_of (t : Rbtree.tree) (x : Z) : option (option Z) :=
  '(node, q) ← Rbtree.locate x t [];
  Some (Rbtree.rb_next node q).

(** The search for the smallest free descriptor. *)
Fixpoint desc_loop (fuel : nat) (s : state) (t : Rbtree.tree) (n : option Z) (d : Z) : option Z :=
  match n, fuel with
  | None, _ => Some d
  | Some _, O => None
  | Some r, S fuel =>
      rf ← refs s !! r;
      if d <? desc rf then Some d
      else nx ← rb_next_of t r; desc_loop fuel s t nx (u32 (desc rf + 1))
  end.

(** Every caller passes a node. *)
Definition binder_get_ref_for_node (s : state) (p n : Z) (new : option Z) : option (state * option Z) :=
  pr ← procs s !! p;
  r ← search (fun r => rf ← refs s !! r; Some (n ?= r_node rf)) (refs_by_node pr);
  match r, new with
  | Some r, _ => Some (s, Some r)
  | None, None => Some (s, None)
  | None, Some r =>
      tn ← Rbtree.insert (fun m => rf ← refs s !! m; Some (n <? r_node rf)) r (refs_by_node pr);
      d ← desc_loop (length (Rbtree.elements (refs_by_desc pr))) s (refs_by_desc pr) (Rbtree.rb_first (refs_by_desc pr))
            (if is_context s n then 0 else 1);
      td ← Rbtree.insert (fun m => rf ← refs s !! m;
                            if d <? desc rf then Some true else if desc rf <? d then Some false else None) r (refs_by_desc pr);
      nd ← nodes s !! n;
      Some (set_node (set_ref (set_proc s p (set_ref_trees pr td tn)) r (mkref p n d 0 0 None)) n (set_refs nd (r :: n_refs nd)), Some r)
  end.

Definition hlist_del (s : state) (n r : Z) : option state :=
  nd ← nodes s !! n;
  Some (set_node s n (set_refs nd (filter (fun x => x <> r) (n_refs nd)))).

Definition binder_delete_ref (s : state) (r : Z) : option state :=
  rf ← refs s !! r;
  pr ← procs s !! r_proc rf;
  td ← Rbtree.erase r (refs_by_desc pr);
  tn ← Rbtree.erase r (refs_by_node pr);
  let s := set_proc s (r_proc rf) (set_ref_trees pr td tn) in
  s ← (if negb (strong rf =? 0) then binder_dec_node s (r_node rf) true true else Some s);
  s ← hlist_del s (r_node rf) r;
  s ← binder_dec_node s (r_node rf) false true;
  s ← match death rf with
      | Some d => _ ← deaths s !! d; Some (del_death (set_wl s (list_del_init (wl s) d)) d)
      | None => Some s
      end;
  Some (del_ref s r).

Definition binder_inc_ref (s : state) (r : Z) (strong_ : bool) (target_list : option Z) : option (state * Z) :=
  rf ← refs s !! r;
  if strong_ then
    '(s, ret) ← (if strong rf =? 0 then binder_inc_node s (r_node rf) true true target_list else Some (s, 0));
    if negb (ret =? 0) then Some (s, ret)
    else i ← incr (strong rf); Some (set_ref s r (set_ref_counts rf i (weak rf)), 0)
  else
    '(s, ret) ← (if weak rf =? 0 then binder_inc_node s (r_node rf) false true target_list else Some (s, 0));
    if negb (ret =? 0) then Some (s, ret)
    else i ← incr (weak rf); Some (set_ref s r (set_ref_counts rf (strong rf) i), 0).

Definition binder_dec_ref (s : state) (r : Z) (strong_ : bool) : option (state * Z) :=
  rf ← refs s !! r;
  if (if strong_ then strong rf else weak rf) =? 0 then Some (s, - EINVAL)
  else
    i ← decr (if strong_ then strong rf else weak rf);
    let rf := if strong_ then set_ref_counts rf i (weak rf) else set_ref_counts rf (strong rf) i in
    let s := set_ref s r rf in
    s ← (if strong_ && (strong rf =? 0) then binder_dec_node s (r_node rf) true true else Some s);
    if (strong rf =? 0) && (weak rf =? 0) then s ← binder_delete_ref s r; Some (s, 0) else Some (s, 0).

(** ** Commands of user space *)

Inductive refs_cmd := BC_INCREFS | BC_ACQUIRE | BC_RELEASE | BC_DECREFS.

(** Whether [binder_debug] prints the messages of the commands below, which read the
    reference or the node at their end *)
Definition BINDER_DEBUG_USER_REFS : Z := Z.shiftl 1 7.
Definition debug_user_refs (binder_debug_mask : Z) : bool := negb (Z.land binder_debug_mask BINDER_DEBUG_USER_REFS =? 0).

(** With descriptor 0 the reference to the context manager is made when it is not there;
    the code looks at it before it looks whether that failed.  The message reads the
    reference and its node, which [binder_dec_ref] may have freed. *)
Definition binder_refs_command (mask : Z) (s : state) (p : Z) (cmd : refs_cmd) (target : Z) (new : option Z) : option state :=
  let inc := match cmd with BC_INCREFS | BC_ACQUIRE => true | _ => false end in
  '(s, r) ← match context_mgr_node s with
            | Some c =>
                if (target =? 0) && inc then
                  '(s, r) ← binder_get_ref_for_node s p c new;
                  r ← r;
                  Some (s, Some r)
                else r ← binder_get_ref s p target; Some (s, r)
            | None => r ← binder_get_ref s p target; Some (s, r)
            end;
  match r with
  | None => Some s
  | Some r =>
      '(s, _) ← match cmd with
                | BC_INCREFS => binder_inc_ref s r false None
                | BC_ACQUIRE => binder_inc_ref s r true None
                | BC_RELEASE => binder_dec_ref s r true
                | BC_DECREFS => binder_dec_ref s r false
                end;
      if debug_user_refs mask then rf ← refs s !! r; _ ← nodes s !! r_node rf; Some s else Some s
  end.

(** [BC_INCREFS_DONE] and [BC_ACQUIRE_DONE]; the message reads the node after
    [binder_dec_node]. *)
Definition binder_done_command (mask : Z) (s : state) (p : Z) (acquire : bool) (node_ptr cookie : Z) : option state :=
  r ← binder_get_node s p node_ptr;
  match r with
  | None => Some s
  | Some n =>
      nd ← nodes s !! n;
      if negb (cookie =? n_cookie nd) then Some s
      else if negb (if acquire then pending_strong_ref nd else pending_weak_ref nd) then Some s
      else
        let nd := if acquire then set_flags nd (has_strong_ref nd) false (has_weak_ref nd) (pending_weak_ref nd)
                  else set_flags nd (has_strong_ref nd) (pending_strong_ref nd) (has_weak_ref nd) false in
        s ← binder_dec_node (set_node s n nd) n acquire false;
        if debug_user_refs mask then _ ← nodes s !! n; Some s else Some s
  end.

(** [BINDER_SET_CONTEXT_MGR]; [uid] is [binder_context_mgr_uid] before and after, [-1] as
    long as no process asked. *)
Definition binder_set_context_mgr (s : state) (uid p euid : Z) (new : option Z) : option (state * Z * Z) :=
  match context_mgr_node s with
  | Some _ => Some (s, uid, - EBUSY)
  | None =>
      if negb (uid =? u32 (-1)) && negb (uid =? euid) then Some (s, uid, - EPERM)
      else
        let uid := if negb (uid =? u32 (-1)) then uid else euid in
        '(s, r) ← binder_new_node s p 0 0 new;
        match r with
        | None => Some (s, uid, - ENOMEM)
        | Some n =>
            nd ← nodes s !! n;
            lw ← incr (local_weak_refs nd);
            ls ← incr (local_strong_refs nd);
            let nd := set_flags (set_counts nd (internal_strong_refs nd) lw ls) true (pending_strong_ref nd) true (pending_weak_ref nd) in
            Some (set_context (set_node s n nd) (Some n), uid, 0)
        end
  end.

(** ** Works *)

Inductive br_cmd := BR_NOOP | BR_INCREFS | BR_ACQUIRE | BR_RELEASE | BR_DECREFS | BR_DEAD_BINDER | BR_CLEAR_DEATH_NOTIFICATION_DONE.

(** [BINDER_WORK_NODE] of [binder_thread_read], with the command that is written to user
    space; when that fails the read ends with the state of the node changed like this. *)
Definition binder_work_node (s : state) (p n : Z) : option (state * br_cmd) :=
  nd ← nodes s !! n;
  let strong := negb (internal_strong_refs nd =? 0) || negb (local_strong_refs nd =? 0) in
  let weak := negb (bool_decide (n_refs nd = [])) || negb (local_weak_refs nd =? 0) || strong in
  if weak && negb (has_weak_ref nd) then
    lw ← incr (local_weak_refs nd);
    Some (set_node s n (set_flags (set_counts nd (internal_strong_refs nd) lw (local_strong_refs nd)) (has_strong_ref nd) (pending_strong_ref nd) true true), BR_INCREFS)
  else if strong && negb (has_strong_ref nd) then
    ls ← incr (local_strong_refs nd);
    Some (set_node s n (set_flags (set_counts nd (internal_strong_refs nd) (local_weak_refs nd) ls) true true (has_weak_ref nd) (pending_weak_ref nd)), BR_ACQUIRE)
  else if negb strong && has_strong_ref nd then
    Some (set_node s n (set_flags nd false (pending_strong_ref nd) (has_weak_ref nd) (pending_weak_ref nd)), BR_RELEASE)
  else if negb weak && has_weak_ref nd then
    Some (set_node s n (set_flags nd (has_strong_ref nd) (pending_strong_ref nd) false (pending_weak_ref nd)), BR_DECREFS)
  else
    let s := set_wl s (list_del_init (wl s) n) in
    if negb weak && negb strong then
      pr ← procs s !! p;
      t ← Rbtree.erase n (nodes_t pr);
      Some (del_node (set_proc s p (set_nodes_t pr t)) n, BR_NOOP)
    else Some (s, BR_NOOP).

(** ** The invariant *)

Definition node_of (s : state) (p n : Z) : Prop := exists nd, nodes s !! n = Some nd /\ n_proc nd = Some p.
(** [gone] is a reference that is being deleted: already out of the trees. *)
Definition ref_of (s : state) (gone : option Z) (p r : Z) : Prop := Some r <> gone /\ exists rf, refs s !! r = Some rf /\ r_proc rf = p.
Definition ptr_of (s : state) (n : Z) : Z := from_option n_ptr 0 (nodes s !! n).
Definition desc_of (s : state) (r : Z) : Z := from_option desc 0 (refs s !! r).
Definition target_of (s : state) (r : Z) : Z := from_option r_node 0 (refs s !! r).

(** The three trees of every process hold its nodes and references, by their keys. *)
Record wf_trees (s : state) (gone : option Z) : Prop := {
  wt_nodes : forall p pr, procs s !! p = Some pr -> tree_ok (nodes_t pr) (node_of s p) (by_key (ptr_of s));
  wt_desc : forall p pr, procs s !! p = Some pr -> tree_ok (refs_by_desc pr) (ref_of s gone p) (by_key (desc_of s));
  wt_node : forall p pr, procs s !! p = Some pr -> tree_ok (refs_by_node pr) (ref_of s gone p) (by_key (target_of s));
  wt_node_proc : forall p n, node_of s p n -> is_Some (procs s !! p);
  wt_ref_proc : forall p r, ref_of s gone p r -> is_Some (procs s !! p) }.

Definition held (s : state) (r : Z) : Z := from_option (fun rf => if 0 <? strong rf then 1 else 0) 0 (refs s !! r).
Definition strong_count (s : state) (l : list Z) : Z := foldr Z.add 0 (map (held s) l).

(** A reference and its node know each other; the internal count of a node is the number
    of references that hold it strongly, up to [off] while one of them changes. *)
Record wf_links (s : state) (off : Z -> Z) (gone : option Z) : Prop := {
  wk_ref : forall r rf, Some r <> gone -> refs s !! r = Some rf -> (exists nd, nodes s !! r_node rf = Some nd /\ r ∈ n_refs nd) /\ 0 <= strong rf /\ 0 <= weak rf;
  wk_node : forall n nd, nodes s !! n = Some nd ->
    NoDup (n_refs nd) /\ (forall r, r ∈ n_refs nd -> exists rf, refs s !! r = Some rf /\ r_node rf = n) /\
    internal_strong_refs nd = strong_count s (n_refs nd) + off n;
  wk_dead : NoDup (dead_nodes s) /\ forall n, n ∈ dead_nodes s <-> exists nd, nodes s !! n = Some nd /\ n_proc nd = None }.

(** The local counts cover the acknowledgements that are awaited, and one for the context
    manager. *)
Definition context_share (s : state) (n : Z) : Z := if is_context s n then 1 else 0.

Record wf_local (s : state) : Prop := {
  wc_nonneg : forall n nd, nodes s !! n = Some nd -> 0 <= local_strong_refs nd /\ 0 <= local_weak_refs nd;
  wc_pending : forall n nd, nodes s !! n = Some nd -> n_proc nd <> None ->
    b2z (pending_strong_ref nd) + context_share s n <= local_strong_refs nd /\
    b2z (pending_weak_ref nd) + context_share s n <= local_weak_refs nd;
  wc_context : forall n, context_mgr_node s = Some n -> exists nd, nodes s !! n = Some nd /\ n_proc nd <> None }.

Record wl_ok (w : worklists) : Prop := {
  wo_on : forall x l, on w !! x = Some l <-> exists L, lists w !! l = Some L /\ x ∈ L;
  wo_nodup : forall l L, lists w !! l = Some L -> NoDup L;
  wo_owner : forall l, is_Some (lists w !! l) <-> is_Some (owner w !! l) }.

(** Only nodes and notifications that exist are on lists, a node on a list of its process. *)
Record wf_works (s : state) : Prop := {
  ww_wl : wl_ok (wl s);
  ww_on : forall x l, on (wl s) !! x = Some l -> is_Some (nodes s !! x) \/ is_Some (deaths s !! x);
  ww_node : forall n nd l, nodes s !! n = Some nd -> on (wl s) !! n = Some l ->
    exists p, n_proc nd = Some p /\ owner (wl s) !! l = Some p /\ forall q pr, procs s !! q = Some pr -> l <> delivered_death pr;
  ww_proc : forall p pr, procs s !! p = Some pr ->
    owner (wl s) !! todo pr = Some p /\ owner (wl s) !! delivered_death pr = Some p /\ todo pr <> delivered_death pr;
  ww_kinds : forall x, is_Some (nodes s !! x) -> deaths s !! x = None }.

(** A reference owns its notification, which is queued only once the node is dead. *)
Record wf_deaths (s : state) : Prop := {
  wd_death : forall r rf d, refs s !! r = Some rf -> death rf = Some d ->
    exists dd, deaths s !! d = Some dd /\
      (forall l, on (wl s) !! d = Some l -> owner (wl s) !! l = Some (r_proc rf) /\ d_type dd = Some DEAD_BINDER) /\
      (forall nd, nodes s !! r_node rf = Some nd -> n_proc nd <> None -> on (wl s) !! d = None);
  wd_inj : forall r r' rf rf' d, refs s !! r = Some rf -> refs s !! r' = Some rf' -> death rf = Some d -> death rf' = Some d -> r = r' }.

Record wf_ (off : Z -> Z) (gone : option Z) (s : state) : Prop := {
  wf_t : wf_trees s gone; wf_k : wf_links s off gone; wf_c : wf_local s; wf_w : wf_works s; wf_d : wf_deaths s }.

Definition none_off (n : Z) : Z := 0.
Definition bump (off : Z -> Z) (n k m : Z) : Z := if m =? n then off m + k else off m.

Abbreviation wf := (wf_ none_off None).

(** Bounds on the counts and the descriptors. *)
Record bounded (N : Z) (s : state) : Prop := {
  bd_node : forall n nd, nodes s !! n = Some nd -> local_strong_refs nd <= N /\ local_weak_refs nd <= N;
  bd_ref : forall r rf, refs s !! r = Some rf -> strong rf <= N /\ weak rf <= N /\ 0 <= desc rf <= N;
  bd_size : Z.of_nat (size (refs s)) <= N }.

(** ** What each part of the invariant looks at *)

Lemma fmap_eq_Some {A B} (f : A -> B) (x y : option A) a : f <$> x = f <$> y -> y = Some a -> exists b, x = Some b /\ f b = f a.
Proof. intros H ->. destruct x as [b|]; [|done]. exists b. split; [done|]. by injection H. Qed.

Lemma fmap_eq_is_Some {A B} (f : A -> B) (x y : option A) : f <$> x = f <$> y -> is_Some x <-> is_Some y.
Proof. destruct x, y; intros H; try done; split; eauto. Qed.

Definition nkey (nd : binder_node) := (n_proc nd, n_ptr nd).
Definition rkey (rf : binder_ref) := (r_proc rf, r_node rf, desc rf).

Lemma trees_ext s s' gone :
  (forall n, nkey <$> nodes s' !! n = nkey <$> nodes s !! n) -> (forall r, rkey <$> refs s' !! r = rkey <$> refs s !! r) ->
  procs s' = procs s -> wf_trees s gone -> wf_trees s' gone.
Proof.
  intros Hn Hr Hp [T1 T2 T3 T4 T5].
  assert (E1 : forall p n, node_of s' p n <-> node_of s p n).
  { intros p n. specialize (Hn n). unfold node_of. split; intros (nd & E & Hpr).
    - symmetry in Hn. destruct (fmap_eq_Some _ _ _ _ Hn E) as (nd' & E' & [= Hk _]). exists nd'. split; [done|congruence].
    - destruct (fmap_eq_Some _ _ _ _ Hn E) as (nd' & E' & [= Hk _]). exists nd'. split; [done|congruence]. }
  assert (E2 : forall p r, ref_of s' gone p r <-> ref_of s gone p r).
  { intros p r. specialize (Hr r). unfold ref_of. split; intros (Hg & rf & E & Hpr); (split; [done|]).
    - symmetry in Hr. destruct (fmap_eq_Some _ _ _ _ Hr E) as (rf' & E' & [= Hk _ _]). exists rf'. split; [done|congruence].
    - destruct (fmap_eq_Some _ _ _ _ Hr E) as (rf' & E' & [= Hk _ _]). exists rf'. split; [done|congruence]. }
  assert (K1 : forall n, ptr_of s' n = ptr_of s n) by (intros n; specialize (Hn n); unfold ptr_of; destruct (nodes s' !! n), (nodes s !! n); try done; by injection Hn).
  assert (K2 : forall r, desc_of s' r = desc_of s r) by (intros r; specialize (Hr r); unfold desc_of; destruct (refs s' !! r), (refs s !! r); try done; by injection Hr).
  assert (K3 : forall r, target_of s' r = target_of s r) by (intros r; specialize (Hr r); unfold target_of; destruct (refs s' !! r), (refs s !! r); try done; by injection Hr).
  split; rewrite Hp.
  - intros p pr E. apply (tree_ok_ext _ _ _ _ _ (T1 p pr E)); [intros; by rewrite E1|]. intros a b _ _. unfold by_key. by rewrite !K1.
  - intros p pr E. apply (tree_ok_ext _ _ _ _ _ (T2 p pr E)); [intros; by rewrite E2|]. intros a b _ _. unfold by_key. by rewrite !K2.
  - intros p pr E. apply (tree_ok_ext _ _ _ _ _ (T3 p pr E)); [intros; by rewrite E2|]. intros a b _ _. unfold by_key. by rewrite !K3.
  - intros p n. rewrite E1. apply T4.
  - intros p r. rewrite E2. apply T5.
Qed.

Definition lkey (nd : binder_node) := (n_proc nd, n_refs nd, internal_strong_refs nd).
Definition rlkey (rf : binder_ref) := (r_node rf, strong rf, weak rf).

Lemma held_ext s s' r : rlkey <$> refs s' !! r = rlkey <$> refs s !! r -> held s' r = held s r.
Proof. unfold held. destruct (refs s' !! r), (refs s !! r); intros H; try done. injection H as _ H _. simpl. by rewrite H. Qed.

Lemma strong_count_ext s s' l : (forall r, r ∈ l -> held s' r = held s r) -> strong_count s' l = strong_count s l.
Proof. intros H. unfold strong_count. f_equal. apply map_ext_in. intros r Hr. apply H. by apply list_elem_of_In. Qed.

Lemma links_ext s s' off gone :
  (forall n, lkey <$> nodes s' !! n = lkey <$> nodes s !! n) -> (forall r, rlkey <$> refs s' !! r = rlkey <$> refs s !! r) ->
  dead_nodes s' = dead_nodes s -> wf_links s off gone -> wf_links s' off gone.
Proof.
  intros Hn Hr Hd [K1 K2 K3]. split.
  - intros r rf Hg E. destruct (fmap_eq_Some _ _ _ _ (eq_sym (Hr r)) E) as (rf0 & E0 & [= R1 R2 R3]). destruct (K1 r rf0 Hg E0) as ((nd & En & Hin) & H).
    rewrite <- R1, <- R2, <- R3. split; [|done]. destruct (fmap_eq_Some _ _ _ _ (Hn _) En) as (nd' & En' & [= N1 N2 N3]). exists nd'. by rewrite N2.
  - intros n nd E. destruct (fmap_eq_Some _ _ _ _ (eq_sym (Hn n)) E) as (nd0 & E0 & [= N1 N2 N3]). destruct (K2 n nd0 E0) as (H1 & H2 & H3).
    rewrite <- N2, <- N3. split; [done|]. split.
    + intros r Hin. destruct (H2 r Hin) as (rf & Er & Hrn). destruct (fmap_eq_Some _ _ _ _ (Hr _) Er) as (rf' & Er' & [= R1 R2 R3]). exists rf'. split; [done|congruence].
    + rewrite H3. f_equal. symmetry. apply strong_count_ext. intros. by apply held_ext.
  - rewrite Hd. split; [apply K3|]. intros n. rewrite (proj2 K3). split; intros (nd & E & Hp).
    + destruct (fmap_eq_Some _ _ _ _ (Hn n) E) as (nd' & E' & [= N1 N2 N3]). exists nd'. split; [done|congruence].
    + destruct (fmap_eq_Some _ _ _ _ (eq_sym (Hn n)) E) as (nd' & E' & [= N1 N2 N3]). exists nd'. split; [done|congruence].
Qed.

Definition ckey (nd : binder_node) := (n_proc nd, local_strong_refs nd, local_weak_refs nd, pending_strong_ref nd, pending_weak_ref nd).

Lemma local_ext s s' :
  (forall n, ckey <$> nodes s' !! n = ckey <$> nodes s !! n) -> context_mgr_node s' = context_mgr_node s -> wf_local s -> wf_local s'.
Proof.
  intros Hn Hc [C1 C2 C3]. split.
  - intros n nd E. destruct (fmap_eq_Some _ _ _ _ (eq_sym (Hn n)) E) as (nd0 & E0 & [= ? <- <- ? ?]). by apply (C1 n).
  - intros n nd E Hp. destruct (fmap_eq_Some _ _ _ _ (eq_sym (Hn n)) E) as (nd0 & E0 & [= H <- <- <- <-]). unfold context_share, is_context. rewrite Hc.
    apply (C2 n nd0 E0). congruence.
  - intros n E. rewrite Hc in E. destruct (C3 n E) as (nd & En & Hp). destruct (fmap_eq_Some _ _ _ _ (Hn n) En) as (nd' & E' & [= H _ _ _ _]). exists nd'. split; [done|congruence].
Qed.

Definition pkey (pr : binder_proc) := (todo pr, delivered_death pr).

Lemma works_ext s s' :
  (forall n, n_proc <$> nodes s' !! n = n_proc <$> nodes s !! n) -> (forall d, is_Some (deaths s' !! d) <-> is_Some (deaths s !! d)) ->
  (forall p, pkey <$> procs s' !! p = pkey <$> procs s !! p) -> wl s' = wl s -> wf_works s -> wf_works s'.
Proof.
  intros Hn Hd Hp Hw [W1 W2 W3 W4 W5]. split; rewrite ?Hw.
  - done.
  - intros x l E. rewrite Hd, (fmap_eq_is_Some _ _ _ (Hn x)). by apply (W2 x l).
  - intros n nd l E El. destruct (fmap_eq_Some _ _ _ _ (eq_sym (Hn n)) E) as (nd0 & E0 & H0). destruct (W3 n nd0 l E0 El) as (p & H1 & H2 & H3).
    exists p. split; [congruence|]. split; [done|]. intros q pr Eq. destruct (fmap_eq_Some _ _ _ _ (eq_sym (Hp q)) Eq) as (pr0 & Eq0 & [= _ <-]). by apply (H3 q).
  - intros p pr E. destruct (fmap_eq_Some _ _ _ _ (eq_sym (Hp p)) E) as (pr0 & E0 & [= <- <-]). by apply W4.
  - intros x Hx. rewrite (fmap_eq_is_Some _ _ _ (Hn x)) in Hx. specialize (W5 x Hx). specialize (Hd x). destruct (deaths s' !! x) as [dd|]; [|done].
    destruct (proj1 Hd ltac:(eauto)) as [? H]. congruence.
Qed.

Definition rdkey (rf : binder_ref) := (r_proc rf, r_node rf, death rf).

Lemma deaths_ext s s' :
  (forall n, n_proc <$> nodes s' !! n = n_proc <$> nodes s !! n) -> (forall r, rdkey <$> refs s' !! r = rdkey <$> refs s !! r) ->
  (forall d, d_type <$> deaths s' !! d = d_type <$> deaths s !! d) ->
  (forall d l, is_Some (deaths s !! d) -> on (wl s') !! d = Some l -> on (wl s) !! d = Some l) -> owner (wl s') = owner (wl s) ->
  wf_deaths s -> wf_deaths s'.
Proof.
  intros Hn Hr Hd Hon How [D1 D2]. split.
  - intros r rf d E Ed. destruct (fmap_eq_Some _ _ _ _ (eq_sym (Hr r)) E) as (rf0 & E0 & [= R1 R2 R3]). rewrite Ed in R3.
    destruct (D1 r rf0 d E0 R3) as (dd & Edd & H1 & H2). destruct (fmap_eq_Some _ _ _ _ (Hd d) Edd) as (dd' & Edd' & Ht). exists dd'. split; [done|]. rewrite How. split.
    + intros l El. rewrite Ht, <- R1. apply H1. apply Hon; eauto.
    + intros nd En Hp. destruct (fmap_eq_Some _ _ _ _ (eq_sym (Hn _)) En) as (nd0 & En0 & Hp0). rewrite <- R2 in En0.
      specialize (H2 nd0 En0 ltac:(congruence)). destruct (on (wl s') !! d) as [l|] eqn:El; [|done]. rewrite (Hon d l ltac:(eauto) El) in H2. done.
  - intros r r' rf rf' d E E' Ed Ed'. destruct (fmap_eq_Some _ _ _ _ (eq_sym (Hr r)) E) as (rf0 & E0 & [= R1 R2 R3]).
    destruct (fmap_eq_Some _ _ _ _ (eq_sym (Hr r')) E') as (rf0' & E0' & [= R1' R2' R3']). apply (D2 r r' rf0 rf0' d); congruence.
Qed.

(** ** Work lists *)

Lemma list_put_ok w x l L L' :
  wl_ok w -> lists w !! l = Some L -> on w !! x = None -> L' ≡ₚ x :: L -> wl_ok (mkwl (<[l := L']> (lists w)) (<[x := l]> (on w)) (owner w)).
Proof.
  intros [O1 O2 O3] El Ex HL. assert (Hx : x ∉ L). { intros Hin. assert (on w !! x = Some l) by (apply O1; eauto). congruence. }
  assert (Hm : forall y, y ∈ L' <-> y = x \/ y ∈ L) by (intros y; rewrite HL; apply elem_of_cons).
  split; simpl.
  - intros y m. destruct (decide (y = x)) as [->|Hne].
    + rewrite lookup_insert_eq. split.
      * intros [= <-]. exists L'. rewrite lookup_insert_eq, Hm. auto.
      * intros (L1 & EL & Hin). destruct (decide (m = l)) as [->|Hml]; [done|]. rewrite lookup_insert_ne in EL by done.
        assert (on w !! x = Some m) by (apply O1; eauto). congruence.
    + rewrite lookup_insert_ne by done. rewrite O1. destruct (decide (m = l)) as [->|Hml]; [|by rewrite lookup_insert_ne by done].
      rewrite lookup_insert_eq, El. split; intros (L1 & [= <-] & Hin); eexists; (split; [done|]); rewrite Hm in *; naive_solver.
  - intros m L1 EL. destruct (decide (m = l)) as [->|Hml]; [|rewrite lookup_insert_ne in EL by done; by apply (O2 m)].
    rewrite lookup_insert_eq in EL. injection EL as <-. rewrite HL. apply NoDup_cons. split; [done|by apply (O2 l)].
  - intros m. rewrite <- O3. destruct (decide (m = l)) as [->|Hml]; [|by rewrite lookup_insert_ne by done]. rewrite lookup_insert_eq, El. split; eauto.
Qed.

Lemma list_add_tail_ok w x l L :
  wl_ok w -> lists w !! l = Some L -> on w !! x = None ->
  exists w', list_add_tail w x l = Some w' /\ wl_ok w' /\ on w' = <[x := l]> (on w) /\ owner w' = owner w.
Proof.
  intros Hw El Ex. unfold list_add_tail, list_empty. rewrite El, Ex. cbn [mbind option_bind]. eexists. split; [done|]. split; [|done].
  apply (list_put_ok w x l L); [done|done|done|]. by rewrite Permutation_app_comm.
Qed.

Lemma list_add_ok w x l L :
  wl_ok w -> lists w !! l = Some L -> on w !! x = None ->
  exists w', list_add w x l = Some w' /\ wl_ok w' /\ on w' = <[x := l]> (on w) /\ owner w' = owner w.
Proof.
  intros Hw El Ex. unfold list_add, list_empty. rewrite El, Ex. cbn [mbind option_bind]. eexists. split; [done|]. split; [|done].
  by apply (list_put_ok w x l L).
Qed.

Lemma list_del_init_ok w x :
  wl_ok w -> wl_ok (list_del_init w x) /\ on (list_del_init w x) = delete x (on w) /\ owner (list_del_init w x) = owner w /\
    (forall l, is_Some (lists (list_del_init w x) !! l) <-> is_Some (lists w !! l)).
Proof.
  intros Hw. pose proof Hw as [O1 O2 O3]. unfold list_del_init. destruct (on w !! x) as [l|] eqn:Ex; [|rewrite delete_id by done; done].
  split; [|split; [done|split; [done|intros m; simpl; rewrite lookup_alter_is_Some; done]]].
  destruct (proj1 (O1 x l) Ex) as (L & El & Hin). split; simpl.
  - intros y m. destruct (decide (m = l)) as [->|Hml].
    + rewrite lookup_alter_eq, El. simpl. destruct (decide (y = x)) as [->|Hne].
      * rewrite lookup_delete_eq. split; [done|]. intros (L' & [= <-] & [? _]%list_elem_of_filter). done.
      * rewrite lookup_delete_ne by done. rewrite O1, El. split; intros (L' & [= <-] & H); eexists; (split; [done|]); [by apply list_elem_of_filter|by apply list_elem_of_filter in H as [_ H]].
    + rewrite lookup_alter_ne by done. destruct (decide (y = x)) as [->|Hne]; [|by rewrite lookup_delete_ne by done].
      rewrite lookup_delete_eq. split; [done|]. intros H. apply O1 in H. congruence.
  - intros m L' EL. destruct (decide (m = l)) as [->|Hml]; [|rewrite lookup_alter_ne in EL by done; by apply (O2 m)].
    rewrite lookup_alter_eq, El in EL. injection EL as <-. apply NoDup_filter. by apply (O2 l).
  - intros m. rewrite lookup_alter_is_Some. apply O3.
Qed.

(** ** Steps that keep the invariant *)

Lemma insert_key {A B} (f : A -> B) (m : gmap Z A) k x y : m !! k = Some x -> f y = f x -> forall j, f <$> <[k := y]> m !! j = f <$> m !! j.
Proof. intros E H j. destruct (decide (j = k)) as [->|]; [by rewrite lookup_insert_eq, E; simpl; rewrite H|by rewrite lookup_insert_ne]. Qed.

Section Steps.
Context (off : Z -> Z) (gone : option Z).

(** Changes of the local counts and the flags of a node. *)
Lemma wf_set_local s n nd nd' :
  wf_ off gone s -> nodes s !! n = Some nd -> nkey nd' = nkey nd -> lkey nd' = lkey nd ->
  0 <= local_strong_refs nd' -> 0 <= local_weak_refs nd' ->
  (n_proc nd <> None -> b2z (pending_strong_ref nd') + context_share s n <= local_strong_refs nd' /\
                        b2z (pending_weak_ref nd') + context_share s n <= local_weak_refs nd') ->
  wf_ off gone (set_node s n nd').
Proof.
  intros [Ht Hk Hc Hw Hd] E Kn Kl H1 H2 H3. assert (Hp : n_proc nd' = n_proc nd) by (by injection Kn). split.
  - apply (trees_ext s); [by apply insert_key with nd|done|done|done].
  - apply (links_ext s); [by apply insert_key with nd|done|done|done].
  - destruct Hc as [C1 C2 C3]. split; simpl.
    + intros m md Em. destruct (decide (m = n)) as [->|]; [rewrite lookup_insert_eq in Em; by injection Em as <-|rewrite lookup_insert_ne in Em by done; by apply (C1 m)].
    + intros m md Em Hm. destruct (decide (m = n)) as [->|]; [rewrite lookup_insert_eq in Em; injection Em as <-; apply H3; congruence|].
      rewrite lookup_insert_ne in Em by done. by apply (C2 m).
    + intros m Em. destruct (C3 m Em) as (md & Emd & Hmd). destruct (decide (m = n)) as [->|]; [|exists md; by rewrite lookup_insert_ne].
      exists nd'. rewrite lookup_insert_eq. split; [done|congruence].
  - apply (works_ext s); [by apply insert_key with nd|done|done|done|done].
  - apply (deaths_ext s); [by apply insert_key with nd|done|done|done|done|done].
Qed.

Lemma wf_unqueue s n :
  wf_ off gone s ->
  wf_ off gone (set_wl s (list_del_init (wl s) n)) /\ on (list_del_init (wl s) n) !! n = None.
Proof.
  intros [Ht Hk Hc Hw Hd]. destruct (list_del_init_ok (wl s) n (ww_wl s Hw)) as (O1 & O2 & O3 & O4). split; [|rewrite O2; apply lookup_delete_eq].
  assert (Hon : forall x l, on (list_del_init (wl s) n) !! x = Some l -> on (wl s) !! x = Some l) by (intros x l; rewrite O2; by intros [_ ?]%lookup_delete_Some).
  split; [by apply (trees_ext s)|by apply (links_ext s)|by apply (local_ext s)| |by apply (deaths_ext s); auto].
  destruct Hw as [W1 W2 W3 W4 W5]. split; simpl; rewrite ?O3; [exact O1| | |exact W4|exact W5].
  - intros x l El. apply (W2 x l). auto.
  - intros m md l Em El. apply (W3 m md l Em). auto.
Qed.

(** A list on which works of the process [p] may be put *)
Definition work_list (s : state) (p l : Z) : Prop :=
  owner (wl s) !! l = Some p /\ forall q pr, procs s !! q = Some pr -> l <> delivered_death pr.

Lemma wf_queue s n nd p l :
  wf_ off gone s -> nodes s !! n = Some nd -> n_proc nd = Some p -> work_list s p l -> on (wl s) !! n = None ->
  exists w, list_add_tail (wl s) n l = Some w /\ wf_ off gone (set_wl s w) /\ owner w = owner (wl s).
Proof.
  intros [Ht Hk Hc Hw Hd] E Hp [Hl1 Hl2] Hn. destruct (proj2 (wo_owner _ (ww_wl s Hw) l)) as [L EL]; [eauto|].
  destruct (list_add_tail_ok (wl s) n l L (ww_wl s Hw) EL Hn) as (w & Ew & O1 & O2 & O3). exists w. split; [done|]. split; [|done].
  split; [by apply (trees_ext s)|by apply (links_ext s)|by apply (local_ext s)| |].
  - destruct Hw as [W1 W2 W3 W4 W5]. split; simpl; rewrite ?O3; [done| | |done|done].
    + intros x m. rewrite O2. destruct (decide (x = n)) as [->|]; [rewrite E; eauto|rewrite lookup_insert_ne by done; apply W2].
    + intros m md j Em. rewrite O2. destruct (decide (m = n)) as [->|]; [|rewrite lookup_insert_ne by done; by apply W3].
      rewrite lookup_insert_eq. intros [= <-]. rewrite E in Em. injection Em as <-. exists p. done.
  - apply (deaths_ext s); try done. intros d j Hd' Ej. simpl in Ej. rewrite O2 in Ej. destruct (decide (d = n)) as [->|]; [|by rewrite lookup_insert_ne in Ej].
    rewrite (ww_kinds s Hw n) in Hd' by eauto. by destruct Hd'.
Qed.

Lemma todo_work_list s p pr : wf_ off gone s -> procs s !! p = Some pr -> work_list s p (todo pr).
Proof.
  intros Hw E. destruct (ww_proc s (wf_w _ _ _ Hw) p pr E) as (H1 & H2 & H3). split; [done|]. intros q pr' Eq Hx.
  destruct (ww_proc s (wf_w _ _ _ Hw) q pr' Eq) as (H1' & H2' & _). rewrite Hx, H2' in H1. injection H1 as ->. congruence.
Qed.

(** A node without references goes away. *)
Lemma wf_del_node s s' n nd :
  wf_ off gone s -> nodes s !! n = Some nd -> n_refs nd = [] -> on (wl s) !! n = None -> context_mgr_node s <> Some n ->
  nodes s' = delete n (nodes s) -> refs s' = refs s -> deaths s' = deaths s -> wl s' = wl s -> context_mgr_node s' = context_mgr_node s ->
  (forall p, pkey <$> procs s' !! p = pkey <$> procs s !! p) -> wf_trees s' gone ->
  (NoDup (dead_nodes s') /\ forall m, m ∈ dead_nodes s' <-> m ∈ dead_nodes s /\ m <> n) -> wf_ off gone s'.
Proof.
  intros [Ht Hk Hc Hw Hd] E Hr Hon Hctx En Er Ed Ew Ec Ep Ht' Hdead.
  assert (Hsub : forall m md, nodes s' !! m = Some md -> m <> n /\ nodes s !! m = Some md).
  { intros m md. rewrite En. intros [H1 H2]%lookup_delete_Some. auto. }
  split; [done| | | |].
  - destruct Hk as [K1 K2 K3]. split.
    + intros r rf Hg. rewrite Er. intros Erf. destruct (K1 r rf Hg Erf) as ((md & Em & Hin) & H). split; [|done]. exists md. split; [|done]. rewrite En, lookup_delete_ne; [done|].
      intros ->. rewrite E in Em. injection Em as <-. rewrite Hr in Hin. set_solver.
    + intros m md Em. destruct (Hsub m md Em) as [_ Em']. destruct (K2 m md Em') as (H1 & H2 & H3). rewrite Er. split; [done|]. split; [done|]. rewrite H3. f_equal.
      symmetry. apply strong_count_ext. intros r _. unfold held. by rewrite Er.
    + split; [apply Hdead|]. intros m. rewrite (proj2 Hdead), (proj2 K3), En. split.
      * intros [(md & Em & Hp) Hne]. exists md. by rewrite lookup_delete_ne.
      * intros (md & [Hne Em]%lookup_delete_Some & Hp). eauto.
  - destruct Hc as [C1 C2 C3]. split.
    + intros m md Em. by apply (C1 m), Hsub.
    + intros m md Em Hp. unfold context_share, is_context. rewrite Ec. apply (C2 m md); [by apply Hsub|done].
    + intros m. rewrite Ec. intros Em. destruct (C3 m Em) as (md & Emd & Hp). exists md. split; [|done]. rewrite En, lookup_delete_ne by congruence. done.
  - destruct Hw as [W1 W2 W3 W4 W5]. split; rewrite ?Ew, ?Ed; [done| | | |].
    + intros x l El. destruct (W2 x l El) as [Hx|Hx]; [left|by right]. rewrite En, lookup_delete_ne; [done|]. intros ->. congruence.
    + intros m md l Em El. destruct (W3 m md l) as (p & H1 & H2 & H3); [by apply Hsub|done|]. exists p. split; [done|]. split; [done|]. intros q pr Eq.
      destruct (fmap_eq_Some _ _ _ _ (eq_sym (Ep q)) Eq) as (pr0 & Eq0 & [= _ <-]). by apply (H3 q).
    + intros p pr Epr. destruct (fmap_eq_Some _ _ _ _ (eq_sym (Ep p)) Epr) as (pr0 & Eq0 & [= <- <-]). by apply W4.
    + intros x [md Ex]. apply W5. destruct (Hsub x md Ex). eauto.
  - destruct Hd as [D1 D2]. split; rewrite Er; [|done]. rewrite Ed, Ew. intros r rf d Erf Edf. destruct (D1 r rf d Erf Edf) as (dd & H1 & H2 & H3).
    exists dd. split; [done|]. split; [done|]. intros md Em. apply (H3 md), Hsub, Em.
Qed.

(** The node [n] leaves the tree of its process. *)
Lemma trees_leave s s' n p pr t :
  wf_trees s gone -> node_of s p n -> procs s !! p = Some pr -> tree_ok t (fun a => node_of s p a /\ a <> n) (by_key (ptr_of s)) ->
  (forall m, m <> n -> nodes s' !! m = nodes s !! m) -> (forall q, ~ node_of s' q n) -> refs s' = refs s -> procs s' = <[p := set_nodes_t pr t]> (procs s) -> wf_trees s' gone.
Proof.
  intros [T1 T2 T3 T4 T5] (nd & E & Hp) Epr Ht Hn Hno' Er Ep.
  assert (Hproc : forall q pr', procs s' !! q = Some pr' ->
    exists pr0, procs s !! q = Some pr0 /\ refs_by_desc pr' = refs_by_desc pr0 /\ refs_by_node pr' = refs_by_node pr0 /\ nodes_t pr' = (if q =? p then t else nodes_t pr0)).
  { intros q pr' Eq. rewrite Ep in Eq. destruct (decide (q = p)) as [->|]; [rewrite lookup_insert_eq in Eq; injection Eq as <-; exists pr; by rewrite Z.eqb_refl|].
    rewrite lookup_insert_ne in Eq by done. exists pr'. by rewrite (proj2 (Z.eqb_neq q p)). }
  assert (Hno : forall q m, node_of s' q m <-> node_of s q m /\ m <> n).
  { intros q m. destruct (decide (m = n)) as [->|Hne]; [split; [intros H; by apply Hno' in H|tauto]|]. unfold node_of. rewrite Hn by done. tauto. }
  assert (Hk : forall m, m <> n -> ptr_of s' m = ptr_of s m) by (intros; unfold ptr_of; by rewrite Hn).
  assert (Hr : forall q r, ref_of s' gone q r <-> ref_of s gone q r) by (intros; unfold ref_of; by rewrite Er).
  split.
  - intros q pr' Eq. destruct (Hproc q pr' Eq) as (pr0 & Eq0 & _ & _ & ->). destruct (Z.eqb_spec q p) as [->|Hq].
    + apply (tree_ok_ext _ _ _ _ _ Ht); [intros m; by rewrite Hno|]. intros a b [_ Ha] [_ Hb]. unfold by_key. by rewrite !Hk.
    + apply (tree_ok_ext _ _ _ _ _ (T1 q pr0 Eq0)); [intros m; rewrite Hno; split; [|tauto]; intros H; split; [done|]; intros ->; destruct H as (md & Em & Hm); congruence|].
      intros a b Ha Hb. unfold by_key. rewrite !Hk; [done| |]; intros ->; [destruct Hb as (md & Em & Hm)|destruct Ha as (md & Em & Hm)]; congruence.
  - intros q pr' Eq. destruct (Hproc q pr' Eq) as (pr0 & Eq0 & -> & _ & _). apply (tree_ok_ext _ _ _ _ _ (T2 q pr0 Eq0)); [intros; by rewrite Hr|]. intros a b _ _. unfold by_key, desc_of. by rewrite Er.
  - intros q pr' Eq. destruct (Hproc q pr' Eq) as (pr0 & Eq0 & _ & -> & _). apply (tree_ok_ext _ _ _ _ _ (T3 q pr0 Eq0)); [intros; by rewrite Hr|]. intros a b _ _. unfold by_key, target_of. by rewrite Er.
  - intros q m Hm. apply Hno in Hm as [Hm _]. rewrite Ep. apply lookup_insert_is_Some'. right. by apply (T4 q m).
  - intros q m Hm. apply Hr in Hm. rewrite Ep. apply lookup_insert_is_Some'. right. by apply (T5 q m).
Qed.

Lemma wf_free_alive s n nd p pr :
  wf_ off gone s -> nodes s !! n = Some nd -> n_proc nd = Some p -> procs s !! p = Some pr -> n_refs nd = [] ->
  on (wl s) !! n = None -> context_mgr_node s <> Some n ->
  exists t, Rbtree.erase n (nodes_t pr) = Some t /\ wf_ off gone (del_node (set_proc s p (set_nodes_t pr t)) n).
Proof.
  intros Hw E Hp Epr Hr Hon Hctx. assert (Hn : node_of s p n) by (exists nd; done).
  destruct (tree_erase _ _ _ n (wt_nodes _ _ (wf_t _ _ _ Hw) p pr Epr) Hn) as (t & Et & Ht). exists t. split; [done|]. eapply (wf_del_node s _ n nd); try done.
  - intros q. simpl. by apply (insert_key pkey _ _ pr).
  - apply (trees_leave s _ n p pr t (wf_t _ _ _ Hw) Hn Epr Ht); simpl; [intros; by rewrite lookup_delete_ne| |done|done].
    intros q (md & Em & _). simpl in Em. by rewrite lookup_delete_eq in Em.
  - destruct (wk_dead s off gone (wf_k _ _ _ Hw)) as [K1 K2]. split; [done|]. intros m. split; [|tauto]. intros Hm. split; [done|]. intros ->.
    simpl in Hm. apply K2 in Hm as (md & Em & Hm). congruence.
Qed.

Lemma wf_free_dead s n nd :
  wf_ off gone s -> nodes s !! n = Some nd -> n_proc nd = None -> n_refs nd = [] ->
  on (wl s) !! n = None -> (n ∈ dead_nodes s) /\ wf_ off gone (del_node (set_dead s (filter (fun x => x <> n) (dead_nodes s))) n).
Proof.
  intros Hw E Hp Hr Hon. destruct (wk_dead s off gone (wf_k _ _ _ Hw)) as [K1 K2]. split; [apply K2; eauto|].
  eapply (wf_del_node s _ n nd); try done.
  - intros Hc. destruct (wc_context s (wf_c _ _ _ Hw) n Hc) as (md & Em & Hm). congruence.
  - pose proof (wf_t _ _ _ Hw) as [T1 T2 T3 T4 T5].
    assert (Hno : forall q m, node_of (del_node (set_dead s (filter (fun x => x <> n) (dead_nodes s))) n) q m <-> node_of s q m).
    { intros q m. unfold node_of. simpl. split; [intros (md & [? ?]%lookup_delete_Some & ?); eauto|intros (md & Em & Hm); exists md; rewrite lookup_delete_ne by congruence; done]. }
    split; simpl; [|done|done|intros q m Hm; apply Hno in Hm; by apply (T4 q m)|done].
    intros q pr Eq. apply (tree_ok_ext _ _ _ _ _ (T1 q pr Eq)); [intros m; by rewrite Hno|]. intros a b Ha Hb. unfold by_key, ptr_of. simpl.
    rewrite !lookup_delete_ne; [done| |]; intros <-; [destruct Hb as (md & Em & Hm)|destruct Ha as (md & Em & Hm)]; congruence.
  - simpl. split; [by apply NoDup_filter|]. intros m. rewrite list_elem_of_filter. tauto.
Qed.

End Steps.

Lemma wf_off_ext off off' gone s : (forall n, off n = off' n) -> wf_ off gone s -> wf_ off' gone s.
Proof.
  intros H [Ht Hk Hc Hw Hd]. split; try done. destruct Hk as [K1 K2 K3]. split; [done| |done]. intros n nd E. rewrite <- H. by apply K2.
Qed.

(** What a step at the node [n] leaves alone *)
Definition ptkey (pr : binder_proc) := (refs_by_desc pr, refs_by_node pr, todo pr, delivered_death pr).

Record node_step (s s' : state) (n : Z) : Prop := {
  ns_refs : refs s' = refs s;
  ns_deaths : deaths s' = deaths s;
  ns_context : context_mgr_node s' = context_mgr_node s;
  ns_owner : owner (wl s') = owner (wl s);
  ns_others : forall m, m <> n -> nodes s' !! m = nodes s !! m;
  ns_procs : forall p, ptkey <$> procs s' !! p = ptkey <$> procs s !! p;
  ns_deaths_on : forall d, is_Some (deaths s !! d) -> on (wl s') !! d = on (wl s) !! d }.

Lemma node_step_refl s n : node_step s s n.
Proof. by split. Qed.

Lemma node_step_trans s1 s2 s3 n : node_step s1 s2 n -> node_step s2 s3 n -> node_step s1 s3 n.
Proof.
  intros [A1 A2 A3 A4 A5 A6 A7] [B1 B2 B3 B4 B5 B6 B7]. split; try congruence.
  - intros m Hm. by rewrite B5, A5.
  - intros d Hd. rewrite B7, A7; [done|done|by rewrite A2].
Qed.

Lemma node_step_set s n nd : node_step s (set_node s n nd) n.
Proof. split; try done. intros m Hm. simpl. by rewrite lookup_insert_ne. Qed.

Lemma node_step_wl s n w :
  deaths s !! n = None -> owner w = owner (wl s) -> (forall x, x <> n -> on w !! x = on (wl s) !! x) -> node_step s (set_wl s w) n.
Proof. intros H1 H2 H3. split; try done. intros d [dd Hd]. apply H3. congruence. Qed.

Lemma list_add_tail_on w x l w' : list_add_tail w x l = Some w' -> on w' = <[x := l]> (on w).
Proof. unfold list_add_tail. destruct (lists w !! l); [|done]. cbn [mbind option_bind]. destruct (list_empty w x); [|done]. by intros [= <-]. Qed.

Lemma wf_proc_of off gone s n nd p : wf_ off gone s -> nodes s !! n = Some nd -> n_proc nd = Some p -> exists pr, procs s !! p = Some pr.
Proof. intros Hw E Hp. destruct (wt_node_proc s gone (wf_t _ _ _ Hw) p n) as [pr Epr]; [by exists nd|eauto]. Qed.

(** A node that is a node is no notification. *)
Lemma wf_no_death off gone s n nd : wf_ off gone s -> nodes s !! n = Some nd -> deaths s !! n = None.
Proof. intros Hw E. apply (ww_kinds s (wf_w _ _ _ Hw)). eauto. Qed.

(** The end of [binder_dec_node]: the node is told, stays or goes; it goes only when nothing
    refers to it. *)
Lemma node_unused_ok off gone s n nd :
  wf_ off gone s -> nodes s !! n = Some nd -> context_mgr_node s <> Some n ->
  exists s', node_unused s n = Some s' /\ wf_ off gone s' /\ node_step s s' n /\
    (nodes s' !! n = Some nd \/ (nodes s' !! n = None /\ n_refs nd = [] /\ local_strong_refs nd = 0 /\ local_weak_refs nd = 0)).
Proof.
  intros Hw E Hctx. unfold node_unused. rewrite E. cbn [mbind option_bind]. pose proof (wf_no_death _ _ _ _ _ Hw E) as Hnd.
  destruct (wf_unqueue off gone s n Hw) as [Hu Hu0]. destruct (list_del_init_ok (wl s) n (ww_wl s (wf_w _ _ _ Hw))) as (_ & O2 & O3 & _).
  assert (Hstep : node_step s (set_wl s (list_del_init (wl s) n)) n) by (apply node_step_wl; [done|done|intros x Hx; by rewrite O2, lookup_delete_ne]).
  destruct (n_proc nd) as [p|] eqn:Hp.
  - destruct (wf_proc_of _ _ _ _ _ _ Hw E Hp) as [pr Epr]. destruct (has_strong_ref nd || has_weak_ref nd).
    + unfold list_empty. destruct (on (wl s) !! n) as [l|] eqn:Eon; [exists s; split_and!; [done|done|apply node_step_refl|by left]|].
      rewrite Epr. cbn [mbind option_bind]. destruct (wf_queue off gone s n nd p (todo pr) Hw E Hp (todo_work_list _ _ _ _ _ Hw Epr) Eon) as (w & Ew & Hw' & Ho).
      rewrite Ew. cbn [mbind option_bind]. eexists. split; [done|]. split; [done|]. split; [|by left]. apply node_step_wl; [done|done|].
      intros x Hx. by rewrite (list_add_tail_on _ _ _ _ Ew), lookup_insert_ne.
    + destruct (bool_decide_reflect (n_refs nd = [])) as [Hr|]; [|exists s; split_and!; [done|done|apply node_step_refl|by left]].
      destruct (Z.eqb_spec (local_strong_refs nd) 0) as [Hs|]; [|exists s; split_and!; [done|done|apply node_step_refl|by left]].
      destruct (Z.eqb_spec (local_weak_refs nd) 0) as [Hwk|]; [|exists s; split_and!; [done|done|apply node_step_refl|by left]].
      cbn [andb]. rewrite Epr. cbn [mbind option_bind]. destruct (wf_free_alive off gone _ n nd p pr Hu E Hp Epr Hr Hu0 Hctx) as (t & -> & Hw').
      cbn [mbind option_bind]. eexists. split; [done|]. split; [exact Hw'|]. split; [|right; split_and!; try done; simpl; apply lookup_delete_eq].
      eapply node_step_trans; [exact Hstep|]. split; try done; simpl; [intros m Hm; by rewrite lookup_delete_ne|]. intros q. by apply (insert_key ptkey _ _ pr).
  - destruct (bool_decide_reflect (n_refs nd = [])) as [Hr|]; [|exists s; split_and!; [done|done|apply node_step_refl|by left]].
    destruct (Z.eqb_spec (local_strong_refs nd) 0) as [Hs|]; [|exists s; split_and!; [done|done|apply node_step_refl|by left]].
    destruct (Z.eqb_spec (local_weak_refs nd) 0) as [Hwk|]; [|exists s; split_and!; [done|done|apply node_step_refl|by left]].
    cbn [andb]. destruct (wf_free_dead off gone _ n nd Hu E Hp Hr Hu0) as [Hdead Hw']. simpl in Hdead. rewrite bool_decide_eq_true_2 by done.
    eexists. split; [done|]. split; [exact Hw'|]. split; [|right; split_and!; try done; simpl; apply lookup_delete_eq].
    eapply node_step_trans; [exact Hstep|]. split; try done. simpl. intros m Hm. by rewrite lookup_delete_ne.
Qed.

(** The counts after one of them changed by [k] *)
Definition counted (nd : binder_node) (strong internal : bool) (k : Z) : binder_node :=
  set_counts nd (internal_strong_refs nd + (if strong && internal then k else 0))
    (local_weak_refs nd + (if negb strong && negb internal then k else 0)) (local_strong_refs nd + (if strong && negb internal then k else 0)).

Definition shifted (off : Z -> Z) (n : Z) (strong internal : bool) (k : Z) : Z -> Z := if strong && internal then bump off n k else off.

(** The local counts stay large enough. *)
Definition covered (s : state) (n : Z) (nd : binder_node) : Prop :=
  0 <= local_strong_refs nd /\ 0 <= local_weak_refs nd /\
  (n_proc nd <> None -> b2z (pending_strong_ref nd) + context_share s n <= local_strong_refs nd /\
                        b2z (pending_weak_ref nd) + context_share s n <= local_weak_refs nd).

Lemma wf_covered off gone s n nd : wf_ off gone s -> nodes s !! n = Some nd -> covered s n nd.
Proof. intros Hw E. destruct (wc_nonneg s (wf_c _ _ _ Hw) n nd E). split; [done|]. split; [done|]. apply (wc_pending s (wf_c _ _ _ Hw) n nd E). Qed.

Lemma wf_counted off gone s n nd strong internal k :
  wf_ off gone s -> nodes s !! n = Some nd -> covered s n (counted nd strong internal k) ->
  wf_ (shifted off n strong internal k) gone (set_node s n (counted nd strong internal k)).
Proof.
  intros Hw E (H1 & H2 & H3). destruct (strong && internal) eqn:Ei.
  - unfold counted, shifted in *. rewrite Ei in *. apply andb_true_iff in Ei as [-> ->]. cbn [negb andb] in *. rewrite !Z.add_0_r in *. destruct Hw as [Ht Hk Hc Hw Hd]. split.
    + apply (trees_ext s); [by apply insert_key with nd|done|done|done].
    + destruct Hk as [K1 K2 K3]. split; simpl.
      * intros r rf Hg Er. destruct (K1 r rf Hg Er) as ((md & Em & Hin) & H). split; [|done].
        destruct (decide (r_node rf = n)) as [Hx|]; [|exists md; by rewrite lookup_insert_ne]. rewrite Hx in *. rewrite E in Em. injection Em as <-.
        eexists. rewrite lookup_insert_eq. done.
      * intros m md Em. destruct (decide (m = n)) as [->|Hne].
        -- rewrite lookup_insert_eq in Em. injection Em as <-. destruct (K2 n nd E) as (A1 & A2 & A3). simpl. split; [done|]. split; [done|].
           unfold bump. rewrite Z.eqb_refl, A3. change (strong_count _ (n_refs nd)) with (strong_count s (n_refs nd)). lia.
        -- rewrite lookup_insert_ne in Em by done. unfold bump. rewrite (proj2 (Z.eqb_neq m n) Hne). by apply K2.
      * split; [apply K3|]. intros m. rewrite (proj2 K3). destruct (decide (m = n)) as [->|Hne]; [|by rewrite lookup_insert_ne].
        rewrite lookup_insert_eq, E. split; intros (md & [= <-] & Hm); by eexists.
    + apply (local_ext s); [by apply insert_key with nd|done|done].
    + apply (works_ext s); [by apply insert_key with nd|done|done|done|done].
    + apply (deaths_ext s); [by apply insert_key with nd|done|done|done|done|done].
  - unfold shifted. rewrite Ei. apply (wf_set_local off gone s n nd); try done. unfold lkey, counted. rewrite Ei. simpl. by rewrite Z.add_0_r.
Qed.

Lemma dec_node_unfold s n nd strong internal :
  nodes s !! n = Some nd -> 0 <= internal_strong_refs nd ->
  0 <= local_strong_refs (counted nd strong internal (-1)) -> 0 <= local_weak_refs (counted nd strong internal (-1)) ->
  binder_dec_node s n strong internal =
  let nd' := counted nd strong internal (-1) in
  if (if strong then negb (local_strong_refs nd' =? 0) || negb (internal_strong_refs nd' =? 0)
      else negb (local_weak_refs nd' =? 0) || negb (bool_decide (n_refs nd' = [])))
  then Some (set_node s n nd') else node_unused (set_node s n nd') n.
Proof.
  intros E Hi Hs Hw. unfold binder_dec_node. rewrite E. unfold counted in *. destruct strong, internal; cbn [mbind option_bind andb negb] in *; rewrite !Z.add_0_r in *;
    unfold decr; rewrite ?(proj2 (Z.leb_le (- INT_MAX) _)) by (unfold INT_MAX; simpl in *; lia); cbn [mbind option_bind]; try done.
  by replace (set_counts nd (internal_strong_refs nd) (local_weak_refs nd) (local_strong_refs nd)) with nd by (by destruct nd).
Qed.

Lemma dec_node_ok off gone s n nd strong internal :
  wf_ off gone s -> nodes s !! n = Some nd -> covered s n (counted nd strong internal (-1)) -> 0 <= internal_strong_refs nd ->
  exists s', binder_dec_node s n strong internal = Some s' /\ wf_ (shifted off n strong internal (-1)) gone s' /\ node_step s s' n /\
    (nodes s' !! n = Some (counted nd strong internal (-1)) \/
     (nodes s' !! n = None /\ n_refs nd = [] /\ local_strong_refs (counted nd strong internal (-1)) = 0 /\ local_weak_refs (counted nd strong internal (-1)) = 0)).
Proof.
  intros Hw E Hcov Hi. pose proof (wf_counted off gone s n nd strong internal (-1) Hw E Hcov) as Hw1. set (nd' := counted nd strong internal (-1)) in *.
  set (s1 := set_node s n nd') in *. assert (E1 : nodes s1 !! n = Some nd') by (simpl; apply lookup_insert_eq).
  assert (Hstay : exists s', Some s1 = Some s' /\ wf_ (shifted off n strong internal (-1)) gone s' /\ node_step s s' n /\
    (nodes s' !! n = Some nd' \/ (nodes s' !! n = None /\ n_refs nd = [] /\ local_strong_refs nd' = 0 /\ local_weak_refs nd' = 0))).
  { exists s1. split_and!; [done|done|apply node_step_set|by left]. }
  assert (Hun : local_strong_refs nd' = 0 \/ local_weak_refs nd' = 0 -> exists s', node_unused s1 n = Some s' /\ wf_ (shifted off n strong internal (-1)) gone s' /\ node_step s s' n /\
    (nodes s' !! n = Some nd' \/ (nodes s' !! n = None /\ n_refs nd = [] /\ local_strong_refs nd' = 0 /\ local_weak_refs nd' = 0))).
  { intros H0. destruct (node_unused_ok _ gone s1 n nd' Hw1 E1) as (s' & E' & Hw' & Hst & Hr).
    - intros Hc. destruct (wc_context s1 (wf_c _ _ _ Hw1) n Hc) as (md & Em & Hm). rewrite E1 in Em. injection Em as <-.
      destruct Hcov as (_ & _ & H3). specialize (H3 Hm). unfold context_share, is_context in H3. simpl in Hc. rewrite bool_decide_eq_true_2 in H3 by done.
      unfold b2z in H3. destruct (pending_strong_ref nd'), (pending_weak_ref nd'); lia.
    - exists s'. split_and!; [done|done| |done]. eapply node_step_trans; [apply node_step_set|exact Hst]. }
  rewrite (dec_node_unfold s n nd strong internal E Hi); [|destruct Hcov as (? & ? & _); done..]. cbv zeta. fold nd'.
  destruct strong; (destruct (negb _ || negb _) eqn:Eb; [exact Hstay|]); apply Hun; apply orb_false_iff in Eb as [Eb _]; apply negb_false_iff, Z.eqb_eq in Eb; auto.
Qed.

Lemma covered_inc off gone s n nd strong internal : wf_ off gone s -> nodes s !! n = Some nd -> covered s n (counted nd strong internal 1).
Proof.
  intros Hw E. destruct (wf_covered off gone s n nd Hw E) as (H1 & H2 & H3). unfold covered, counted. simpl.
  destruct strong, internal; simpl; rewrite ?Z.add_0_r; (split; [lia|]); (split; [lia|]); intros Hp; specialize (H3 Hp); lia.
Qed.

Lemma inc_node_unfold s n nd strong internal target :
  nodes s !! n = Some nd -> internal_strong_refs nd < INT_MAX -> local_strong_refs nd < INT_MAX -> local_weak_refs nd < INT_MAX ->
  binder_inc_node s n strong internal target =
  let nd' := counted nd strong internal 1 in
  let s1 := set_node s n nd' in
  if strong then
    if internal && bool_decide (target = None) && (internal_strong_refs nd =? 0) && negb (is_context s n && has_strong_ref nd) then Some (s, - EINVAL)
    else match target with
         | Some l => if negb (has_strong_ref nd) then w ← list_add_tail (list_del_init (wl s) n) n l; Some (set_wl s1 w, 0) else Some (s1, 0)
         | None => Some (s1, 0)
         end
  else if negb (has_weak_ref nd) && list_empty (wl s) n then
         match target with None => Some (s1, - EINVAL) | Some l => w ← list_add_tail (wl s) n l; Some (set_wl s1 w, 0) end
       else Some (s1, 0).
Proof.
  intros E H1 H2 H3. unfold binder_inc_node. rewrite E. unfold counted. destruct strong, internal; cbn [mbind option_bind andb negb]; rewrite !Z.add_0_r;
    unfold incr; rewrite ?(proj2 (Z.ltb_lt _ INT_MAX)) by done; cbn [mbind option_bind]; try done.
  by replace (set_counts nd (internal_strong_refs nd) (local_weak_refs nd) (local_strong_refs nd)) with nd by (by destruct nd).
Qed.

(** A count of the kind [st] from a reference is refused without a list to tell the owner
    on: no reference holds the node strongly, unless it is the context manager; or the
    owner has not been told of weak references and is not going to be. *)
Definition refused (s : state) (n : Z) (nd : binder_node) (st : bool) : Prop :=
  if st then internal_strong_refs nd = 0 /\ is_context s n && has_strong_ref nd = false
  else has_weak_ref nd = false /\ on (wl s) !! n = None.

Lemma inc_node_ok off gone s n nd strong internal target :
  wf_ off gone s -> nodes s !! n = Some nd -> (forall l, target = Some l -> exists p, n_proc nd = Some p /\ work_list s p l) ->
  internal_strong_refs nd < INT_MAX -> local_strong_refs nd < INT_MAX -> local_weak_refs nd < INT_MAX ->
  exists s' r, binder_inc_node s n strong internal target = Some (s', r) /\ node_step s s' n /\
    ((r = 0 /\ wf_ (shifted off n strong internal 1) gone s' /\ nodes s' !! n = Some (counted nd strong internal 1)) \/
     (r = - EINVAL /\ target = None /\ (strong = true -> internal = true) /\ refused s n nd strong /\ wf_ off gone s' /\ nodes s' !! n = Some (if strong then nd else counted nd false internal 1))).
Proof.
  intros Hw E Htl B1 B2 B3. rewrite (inc_node_unfold s n nd strong internal target E B1 B2 B3). cbv zeta.
  pose proof (wf_counted off gone s n nd strong internal 1 Hw E (covered_inc _ _ _ _ _ _ _ Hw E)) as Hw1. set (nd' := counted nd strong internal 1) in *.
  set (s1 := set_node s n nd') in *. assert (E1 : nodes s1 !! n = Some nd') by (simpl; apply lookup_insert_eq). pose proof (node_step_set s n nd') as Hst.
  assert (Hok : exists s' r, Some (s1, 0) = Some (s', r) /\ node_step s s' n /\
    ((r = 0 /\ wf_ (shifted off n strong internal 1) gone s' /\ nodes s' !! n = Some nd') \/
     (r = - EINVAL /\ target = None /\ (strong = true -> internal = true) /\ refused s n nd strong /\ wf_ off gone s' /\ nodes s' !! n = Some (if strong then nd else counted nd false internal 1)))).
  { eexists _, _. split; [done|]. split; [exact Hst|]. left. done. }
  assert (Hq : forall s2 l, target = Some l -> wf_ (shifted off n strong internal 1) gone s2 -> node_step s s2 n -> nodes s2 !! n = Some nd' -> procs s2 = procs s -> on (wl s2) !! n = None ->
    exists w, list_add_tail (wl s2) n l = Some w /\ wf_ (shifted off n strong internal 1) gone (set_wl s2 w) /\ node_step s (set_wl s2 w) n).
  { intros s2 l Hl Hw2 Hst2 E2 Ep2 Hon. destruct (Htl l Hl) as (p & Hp & Hwl1 & Hwl2).
    destruct (wf_queue _ gone s2 n nd' p l Hw2 E2 Hp) as (w & Ew & Hww & Ho); [split; [by rewrite (ns_owner _ _ _ Hst2)|by rewrite Ep2]|done|].
    exists w. split; [done|]. split; [done|]. eapply node_step_trans; [exact Hst2|]. apply node_step_wl; [by apply (wf_no_death _ _ _ _ _ Hw2 E2)|done|].
    intros x Hx. by rewrite (list_add_tail_on _ _ _ _ Ew), lookup_insert_ne. }
  destruct strong.
  - destruct (internal && bool_decide (target = None) && _ && _) eqn:Ee.
    + eexists _, _. split; [done|]. split; [apply node_step_refl|]. right. split; [done|]. apply andb_true_iff in Ee as [[[Ei Et]%andb_true_iff E0]%andb_true_iff Ec%negb_true_iff].
      apply bool_decide_eq_true in Et. apply Z.eqb_eq in E0. done.
    + destruct target as [l|]; [|exact Hok]. destruct (negb (has_strong_ref nd)); [|exact Hok].
      destruct (wf_unqueue _ gone s1 n Hw1) as [Hu Hu0]. destruct (list_del_init_ok (wl s1) n (ww_wl s1 (wf_w _ _ _ Hw1))) as (_ & O2 & O3 & _).
      destruct (Hq (set_wl s1 (list_del_init (wl s1) n)) l eq_refl Hu) as (w & Ew & Hww & Hsw); [|done|done|done|].
      { eapply node_step_trans; [exact Hst|]. apply node_step_wl; [by apply (wf_no_death _ _ _ _ _ Hw1 E1)|done|intros x Hx; by rewrite O2, lookup_delete_ne]. }
      simpl in Ew. rewrite Ew. cbn [mbind option_bind]. eexists _, _. split; [done|]. split; [exact Hsw|]. left. done.
  - destruct (negb (has_weak_ref nd) && list_empty (wl s) n) eqn:Ee; [|exact Hok]. apply andb_true_iff in Ee as [Eh%negb_true_iff Ee]. unfold list_empty in Ee.
    destruct (on (wl s) !! n) eqn:Eon; [done|]. destruct target as [l|].
    + destruct (Hq s1 l eq_refl Hw1 Hst E1 eq_refl Eon) as (w & Ew & Hww & Hsw). simpl in Ew. rewrite Ew. cbn [mbind option_bind].
      eexists _, _. split; [done|]. split; [exact Hsw|]. left. done.
    + eexists _, _. split; [done|]. split; [exact Hst|]. right. done.
Qed.

(** ** Counting strong references *)

Lemma held_range s r : 0 <= held s r <= 1.
Proof. unfold held. destruct (refs s !! r) as [rf|]; simpl; [destruct (0 <? strong rf)|]; lia. Qed.

Lemma strong_count_range s l : 0 <= strong_count s l <= Z.of_nat (length l).
Proof. unfold strong_count. induction l as [|r l IH]; [simpl; lia|]. cbn [map foldr length]. pose proof (held_range s r). lia. Qed.

Lemma strong_count_app s l1 l2 : strong_count s (l1 ++ l2) = strong_count s l1 + strong_count s l2.
Proof. unfold strong_count. induction l1 as [|r l1 IH]; [simpl; lia|]. cbn [map foldr app]. rewrite IH. lia. Qed.

Lemma strong_count_cons s r l : strong_count s (r :: l) = held s r + strong_count s l.
Proof. done. Qed.

Lemma filter_ne_split (r : Z) l1 l2 : NoDup (l1 ++ r :: l2) -> filter (fun x => x <> r) (l1 ++ r :: l2) = l1 ++ l2.
Proof.
  intros (_ & N1 & [N2 _]%NoDup_cons)%NoDup_app. rewrite filter_app, filter_cons_False by tauto.
  rewrite !filter_ne_id; [done|done|]. intros H. apply (N1 r H). set_solver.
Qed.

Lemma strong_count_remove s r l : NoDup l -> r ∈ l -> strong_count s (filter (fun x => x <> r) l) = strong_count s l - held s r.
Proof.
  intros Hn (l1 & l2 & ->)%list_elem_of_split. rewrite filter_ne_split by done. rewrite !strong_count_app, strong_count_cons. lia.
Qed.

Lemma strong_count_change s s' r l :
  NoDup l -> r ∈ l -> (forall x, x <> r -> held s' x = held s x) -> strong_count s' l = strong_count s l - held s r + held s' r.
Proof.
  intros Hn (l1 & l2 & ->)%list_elem_of_split H. apply NoDup_app in Hn as (_ & N1 & [N2 _]%NoDup_cons).
  rewrite !strong_count_app, !strong_count_cons, !(strong_count_ext s s') ; [lia| |]; intros x Hx; apply H; intros ->; [done|apply (N1 r Hx); set_solver].
Qed.

(** A change of the counts of a reference *)
Lemma wf_ref_counts off gone s r rf a b :
  wf_ off gone s -> refs s !! r = Some rf -> Some r <> gone -> 0 <= a -> 0 <= b ->
  wf_ (bump off (r_node rf) (held s r - (if 0 <? a then 1 else 0))) gone (set_ref s r (set_ref_counts rf a b)).
Proof.
  intros [Ht Hk Hc Hw Hd] E Hg Ha Hb. split.
  - apply (trees_ext s); [done|by apply insert_key with rf|done|done].
  - destruct Hk as [K1 K2 K3]. set (s' := set_ref s r _).
    assert (Hne : forall x, x <> r -> held s' x = held s x) by (intros x Hx; unfold held; simpl; by rewrite lookup_insert_ne).
    assert (Hr : held s' r = if 0 <? a then 1 else 0) by (unfold held; simpl; by rewrite lookup_insert_eq).
    assert (Href : forall x xf, refs s !! x = Some xf -> exists xf', refs s' !! x = Some xf' /\ r_node xf' = r_node xf).
    { intros x xf Ex. simpl. destruct (decide (x = r)) as [->|]; [rewrite lookup_insert_eq; eexists; split; [done|]; simpl; congruence|rewrite lookup_insert_ne by done; eauto]. }
    split; simpl.
    + intros x xf Hgx Ex. destruct (decide (x = r)) as [->|]; [rewrite lookup_insert_eq in Ex; injection Ex as <-; simpl; split; [by apply (K1 r rf)|done]|].
      rewrite lookup_insert_ne in Ex by done. by apply K1.
    + intros m md Em. destruct (K2 m md Em) as (A1 & A2 & A3). split; [done|]. split.
      * intros x Hx. destruct (A2 x Hx) as (xf & Ex & Hm). destruct (Href x xf Ex) as (xf' & Ex' & Hm'). exists xf'. split; [done|congruence].
      * fold s'. unfold bump. destruct (Z.eqb_spec m (r_node rf)) as [->|Hm].
        -- destruct (K1 r rf Hg E) as ((md' & Em' & Hin) & _). rewrite Em in Em'. injection Em' as <-. rewrite (strong_count_change s s' r) by done. rewrite A3, Hr. lia.
        -- rewrite A3. f_equal. symmetry. apply strong_count_ext. intros x Hx. apply Hne. intros ->. destruct (A2 r Hx) as (rf' & Er & Hrn). congruence.
    + done.
  - by apply (local_ext s).
  - by apply (works_ext s).
  - apply (deaths_ext s); [done|by apply insert_key with rf|done|done|done|done].
Qed.

(** ** Deleting a reference *)

Lemma wf_hide_ref off s r rf pr :
  wf_ off None s -> refs s !! r = Some rf -> procs s !! r_proc rf = Some pr ->
  exists td tn, Rbtree.erase r (refs_by_desc pr) = Some td /\ Rbtree.erase r (refs_by_node pr) = Some tn /\
    wf_ off (Some r) (set_proc s (r_proc rf) (set_ref_trees pr td tn)).
Proof.
  intros [Ht Hk Hc Hw Hd] E Epr. destruct Ht as [T1 T2 T3 T4 T5]. assert (Hr : ref_of s None (r_proc rf) r) by (split; [done|by exists rf]).
  destruct (tree_erase _ _ _ r (T2 _ _ Epr) Hr) as (td & Ed & Htd). destruct (tree_erase _ _ _ r (T3 _ _ Epr) Hr) as (tn & En & Htn).
  exists td, tn. split; [done|]. split; [done|]. set (s' := set_proc _ _ _).
  assert (Hno : forall q x, ref_of s' (Some r) q x <-> ref_of s None q x /\ x <> r).
  { intros q x. unfold ref_of. simpl. split; [intros (H1 & H2); split; [done|congruence]|intros [[_ H1] H2]; split; [congruence|done]]. }
  assert (Hother : forall q x, q <> r_proc rf -> ref_of s' (Some r) q x <-> ref_of s None q x).
  { intros q x Hq. rewrite Hno. split; [tauto|]. intros H. split; [done|]. intros ->. destruct H as (_ & rf' & Erf & Hp). congruence. }
  split.
  - split; simpl.
    + intros q pr' Eq. destruct (decide (q = r_proc rf)) as [->|]; [rewrite lookup_insert_eq in Eq; injection Eq as <-; exact (T1 _ pr Epr)|rewrite lookup_insert_ne in Eq by done; exact (T1 q pr' Eq)].
    + intros q pr' Eq. destruct (decide (q = r_proc rf)) as [->|Hq].
      * rewrite lookup_insert_eq in Eq. injection Eq as <-. apply (tree_ok_ext _ _ _ _ _ Htd); [intros; by rewrite Hno|done].
      * rewrite lookup_insert_ne in Eq by done. apply (tree_ok_ext _ _ _ _ _ (T2 q pr' Eq)); [intros; by rewrite Hother|done].
    + intros q pr' Eq. destruct (decide (q = r_proc rf)) as [->|Hq].
      * rewrite lookup_insert_eq in Eq. injection Eq as <-. apply (tree_ok_ext _ _ _ _ _ Htn); [intros; by rewrite Hno|done].
      * rewrite lookup_insert_ne in Eq by done. apply (tree_ok_ext _ _ _ _ _ (T3 q pr' Eq)); [intros; by rewrite Hother|done].
    + intros q m Hm. apply lookup_insert_is_Some'. right. by apply (T4 q m).
    + intros q m Hm. apply Hno in Hm as [Hm _]. apply lookup_insert_is_Some'. right. by apply (T5 q m).
  - destruct Hk as [K1 K2 K3]. split; [|done|done]. intros x xf Hg Ex. by apply K1.
  - by apply (local_ext s).
  - apply (works_ext s); try done. simpl. by apply insert_key with pr.
  - by apply (deaths_ext s).
Qed.

Lemma wf_hlist_del off s r rf nd :
  wf_ off (Some r) s -> refs s !! r = Some rf -> nodes s !! r_node rf = Some nd -> r ∈ n_refs nd ->
  wf_ (bump off (r_node rf) (held s r)) (Some r) (set_node s (r_node rf) (set_refs nd (filter (fun x => x <> r) (n_refs nd)))).
Proof.
  intros [Ht Hk Hc Hw Hd] E En Hin. set (n := r_node rf) in *. set (nd' := set_refs _ _). split.
  - apply (trees_ext s); [by apply insert_key with nd|done|done|done].
  - destruct Hk as [K1 K2 K3]. split; simpl.
    + intros x xf Hg Ex. destruct (K1 x xf Hg Ex) as ((md & Em & Hx) & H). split; [|done]. destruct (decide (r_node xf = n)) as [Hxn|]; [|exists md; by rewrite lookup_insert_ne].
      rewrite Hxn in *. rewrite En in Em. injection Em as <-. exists nd'. rewrite lookup_insert_eq. split; [done|]. simpl. apply list_elem_of_filter. split; [congruence|done].
    + intros m md Em. unfold bump. destruct (decide (m = n)) as [->|Hm].
      * rewrite lookup_insert_eq in Em. injection Em as <-. destruct (K2 n nd En) as (A1 & A2 & A3). simpl. rewrite Z.eqb_refl. split; [by apply NoDup_filter|]. split.
        -- intros x [_ Hx]%list_elem_of_filter. by apply A2.
        -- change (strong_count _ ?l) with (strong_count s l). rewrite strong_count_remove by done. lia.
      * rewrite lookup_insert_ne in Em by done. rewrite (proj2 (Z.eqb_neq m n) Hm). by apply K2.
    + split; [apply K3|]. intros m. rewrite (proj2 K3). destruct (decide (m = n)) as [->|Hne]; [|by rewrite lookup_insert_ne].
      rewrite lookup_insert_eq, En. split; intros (md & [= <-] & Hm); by eexists.
  - apply (local_ext s); [by apply insert_key with nd|done|done].
  - apply (works_ext s); [by apply insert_key with nd|done|done|done|done].
  - apply (deaths_ext s); [by apply insert_key with nd|done|done|done|done|done].
Qed.

(** The notification of a reference and the reference itself go. *)
Definition drop_death (s : state) (d : option Z) : option state :=
  match d with
  | Some d => _ ← deaths s !! d; Some (del_death (set_wl s (list_del_init (wl s) d)) d)
  | None => Some s
  end.

Lemma drop_death_ok s r rf :
  wf_works s -> wf_deaths s -> refs s !! r = Some rf ->
  exists s', drop_death s (death rf) = Some s' /\ nodes s' = nodes s /\ refs s' = refs s /\ procs s' = procs s /\
    context_mgr_node s' = context_mgr_node s /\ dead_nodes s' = dead_nodes s /\ owner (wl s') = owner (wl s) /\ wl_ok (wl s') /\
    (forall x l, on (wl s') !! x = Some l -> on (wl s) !! x = Some l /\ Some x <> death rf) /\
    (forall x, Some x <> death rf -> on (wl s') !! x = on (wl s) !! x) /\ (forall x, deaths s' !! x = if bool_decide (Some x = death rf) then None else deaths s !! x).
Proof.
  intros Hw Hd E. unfold drop_death. destruct (death rf) as [d|] eqn:Ed.
  - destruct (wd_death s Hd r rf d E Ed) as (dd & Edd & _). rewrite Edd. cbn [mbind option_bind]. eexists. split; [done|].
    destruct (list_del_init_ok (wl s) d (ww_wl s Hw)) as (O1 & O2 & O3 & O4). split_and!; try done; simpl.
    + intros x l. rewrite O2. intros [H1 H2]%lookup_delete_Some. split; [done|congruence].
    + intros x Hx. rewrite O2, lookup_delete_ne; [done|congruence].
    + intros x. destruct (bool_decide_reflect (Some x = Some d)) as [[= ->]|Hne]; [apply lookup_delete_eq|]. rewrite lookup_delete_ne; [done|congruence].
  - exists s. split_and!; try done; apply Hw.
Qed.

Lemma wf_drop_ref s r rf :
  wf_ none_off (Some r) s -> refs s !! r = Some rf -> (forall nd, nodes s !! r_node rf = Some nd -> r ∉ n_refs nd) ->
  exists s', drop_death s (death rf) = Some s' /\ wf (del_ref s' r) /\ nodes s' = nodes s /\ refs s' = refs s /\ procs s' = procs s /\
    context_mgr_node s' = context_mgr_node s /\ owner (wl s') = owner (wl s) /\
    (forall x, Some x <> death rf -> on (wl s') !! x = on (wl s) !! x /\ deaths s' !! x = deaths s !! x) /\
    (forall x, deaths s' !! x = if bool_decide (Some x = death rf) then None else deaths s !! x).
Proof.
  intros [Ht Hk Hc Hw Hd] E Hfree.
  destruct (drop_death_ok s r rf Hw Hd E) as (s' & Es & En & Er & Ep & Ec & Edn & Eo & Hwl & Hon & Hon' & Hdd). exists s'. split; [done|].
  split; [|split_and!; try done; intros x Hx; rewrite Hon', Hdd by done; by rewrite bool_decide_eq_false_2].
  assert (Hro : forall p x, ref_of (del_ref s' r) None p x <-> ref_of s (Some r) p x).
  { intros p x. unfold ref_of. simpl. rewrite Er. split.
    - intros (_ & xf & [H1 H2]%lookup_delete_Some & H3). split; [congruence|eauto].
    - intros (H1 & xf & H2 & H3). split; [done|]. exists xf. rewrite lookup_delete_ne; [done|congruence]. }
  split.
  - destruct Ht as [T1 T2 T3 T4 T5]. split; simpl; rewrite ?Ep.
    + intros p pr Epr. apply (tree_ok_ext _ _ _ _ _ (T1 p pr Epr)); [intros; unfold node_of; simpl; by rewrite En|]. intros a b _ _. unfold by_key, ptr_of. simpl. by rewrite En.
    + intros p pr Epr. apply (tree_ok_ext _ _ _ _ _ (T2 p pr Epr)); [intros; by rewrite Hro|]. intros a b [Ha _] [Hb _]. unfold by_key, desc_of. simpl. rewrite Er, !lookup_delete_ne by congruence. done.
    + intros p pr Epr. apply (tree_ok_ext _ _ _ _ _ (T3 p pr Epr)); [intros; by rewrite Hro|]. intros a b [Ha _] [Hb _]. unfold by_key, target_of. simpl. rewrite Er, !lookup_delete_ne by congruence. done.
    + intros p n. unfold node_of. simpl. rewrite En. apply T4.
    + intros p x. rewrite Hro. apply T5.
  - destruct Hk as [K1 K2 K3]. split; simpl; rewrite ?En, ?Er, ?Edn.
    + intros x xf _ [Hx Ex]%lookup_delete_Some. apply K1; [congruence|done].
    + intros m md Em. rewrite ?En in Em. destruct (K2 m md Em) as (A1 & A2 & A3). split; [done|].
      assert (Hrm : r ∉ n_refs md). { intros Hin. destruct (A2 r Hin) as (rf' & Er' & Hn'). rewrite E in Er'. injection Er' as <-. rewrite <- Hn' in Em. by apply (Hfree md Em). }
      split.
      * intros x Hx. destruct (A2 x Hx) as (xf & Ex & Hxn). exists xf. rewrite ?Er. rewrite lookup_delete_ne; [done|]. intros ->. done.
      * rewrite A3. f_equal. symmetry. apply strong_count_ext. intros x Hx. unfold held. simpl. rewrite Er, lookup_delete_ne; [done|]. intros ->. done.
    + done.
  - apply (local_ext s); simpl; [intros n; by rewrite En|done|done].
  - destruct Hw as [W1 W2 W3 W4 W5]. split; simpl; rewrite ?En, ?Ep, ?Eo; [done| | |exact W4|].
    + intros x l El. destruct (Hon x l El) as [El0 Hx]. rewrite Hdd, bool_decide_eq_false_2 by done. by apply (W2 x l).
    + intros n nd l En' El. rewrite ?En in En'. destruct (Hon n l El) as [El0 _]. rewrite ?Ep. by apply (W3 n nd l).
    + intros x Hx. rewrite Hdd. rewrite ?En in Hx. rewrite (W5 x Hx). by destruct (bool_decide _).
  - destruct Hd as [D1 D2]. split; simpl; rewrite ?Er.
    + intros x xf d [Hx Ex]%lookup_delete_Some Edx. destruct (D1 x xf d Ex Edx) as (dd & A1 & A2 & A3). exists dd. rewrite Hdd, bool_decide_eq_false_2; [|intros Hd'; by apply Hx, (D2 r x rf xf d)].
      split; [done|]. rewrite Eo, En. split; [intros l El; by apply A2, Hon|]. intros nd Hnd Hp. destruct (on (wl s') !! d) as [l|] eqn:El; [|done].
      destruct (Hon d l El) as [El0 _]. rewrite (A3 nd Hnd Hp) in El0. done.
    + intros x x' xf xf' d [_ H1]%lookup_delete_Some [_ H2]%lookup_delete_Some. by apply D2.
Qed.

Definition lckey (nd : binder_node) := (n_proc nd, local_strong_refs nd, local_weak_refs nd, n_ptr nd, n_cookie nd).

(** The rest of the state, as far as the callers rely on it *)
Record kept (s s' : state) : Prop := {
  kp_nodes : forall m md, nodes s' !! m = Some md -> exists md0, nodes s !! m = Some md0 /\ lckey md = lckey md0;
  kp_procs : forall p, pkey <$> procs s' !! p = pkey <$> procs s !! p;
  kp_owner : owner (wl s') = owner (wl s);
  kp_context : context_mgr_node s' = context_mgr_node s }.

Lemma kept_refl s : kept s s.
Proof. split; eauto. Qed.

Lemma kept_trans s1 s2 s3 : kept s1 s2 -> kept s2 s3 -> kept s1 s3.
Proof.
  intros [A1 A2 A3 A4] [B1 B2 B3 B4]. split; [|congruence|congruence|congruence].
  intros m md E. destruct (B1 m md E) as (md1 & E1 & H1). destruct (A1 m md1 E1) as (md0 & E0 & H0). exists md0. split; [done|congruence].
Qed.

Lemma step_kept s s' n : node_step s s' n ->
  (forall md, nodes s' !! n = Some md -> exists md0, nodes s !! n = Some md0 /\ lckey md = lckey md0) -> kept s s'.
Proof.
  intros [A1 A2 A3 A4 A5 A6 A7] H. split; [|intros p; specialize (A6 p); destruct (procs s' !! p), (procs s !! p); try done; simpl; unfold ptkey, pkey in *; simpl in *; congruence|done|done].
  intros m md E. destruct (decide (m = n)) as [->|]; [by apply H|]. rewrite A5 in E by done. eauto.
Qed.

Lemma wf_internal_nonneg s n nd off gone : wf_ off gone s -> nodes s !! n = Some nd -> 0 <= off n -> 0 <= internal_strong_refs nd.
Proof. intros Hw E H. destruct (wk_node s off gone (wf_k _ _ _ Hw) n nd E) as (_ & _ & ->). pose proof (strong_count_range s (n_refs nd)). lia. Qed.

(** The strong hold of the reference that is deleted is given up. *)
Lemma drop_strong s r rf nd :
  wf_ none_off (Some r) s -> refs s !! r = Some rf -> nodes s !! r_node rf = Some nd -> r ∈ n_refs nd -> 0 <= strong rf ->
  exists s2 nd2, (if negb (strong rf =? 0) then binder_dec_node s (r_node rf) true true else Some s) = Some s2 /\
    wf_ (bump none_off (r_node rf) (- held s r)) (Some r) s2 /\ node_step s s2 (r_node rf) /\ nodes s2 !! r_node rf = Some nd2 /\
    n_refs nd2 = n_refs nd /\ lckey nd2 = lckey nd /\ 0 <= internal_strong_refs nd2.
Proof.
  intros Hw E En Hin Hs. assert (Hh : held s r = if negb (strong rf =? 0) then 1 else 0).
  { unfold held. rewrite E. simpl. destruct (Z.eqb_spec (strong rf) 0), (Z.ltb_spec 0 (strong rf)); simpl; lia. }
  pose proof (wf_internal_nonneg s _ nd none_off _ Hw En ltac:(done)) as Hi. rewrite Hh. destruct (negb (strong rf =? 0)).
  - assert (Hc : covered s (r_node rf) (counted nd true true (-1))).
    { destruct (wf_covered _ _ _ _ _ Hw En) as (H1 & H2 & H3). unfold covered, counted. simpl. rewrite !Z.add_0_r. done. }
    destruct (dec_node_ok none_off (Some r) s (r_node rf) nd true true Hw En Hc Hi) as (s2 & E2 & Hw2 & Hst & [En2|(En2 & Hr & _)]); [|rewrite Hr in Hin; set_solver].
    exists s2. eexists. split; [done|]. split; [exact Hw2|]. split; [done|]. split; [done|]. split; [done|]. unfold lckey, counted. simpl. rewrite !Z.add_0_r. split; [done|].
    destruct (wk_node s none_off (Some r) (wf_k _ _ _ Hw) _ nd En) as (A1 & _ & A3). rewrite A3.
    pose proof Hin as (l1 & l2 & El)%list_elem_of_split. rewrite El, strong_count_app, strong_count_cons, Hh.
    pose proof (strong_count_range s l1). pose proof (strong_count_range s l2). unfold none_off. lia.
  - exists s, nd. split; [done|]. split; [|split_and!; try done; apply node_step_refl]. apply (wf_off_ext none_off); [|done]. intros m. unfold bump. destruct (m =? r_node rf); lia.
Qed.

Lemma delete_ref_ok s r rf :
  wf s -> refs s !! r = Some rf ->
  exists s', binder_delete_ref s r = Some s' /\ wf s' /\ refs s' = delete r (refs s) /\ kept s s' /\
    (forall x, deaths s' !! x = if bool_decide (Some x = death rf) then None else deaths s !! x) /\
    forall x, is_Some (deaths s !! x) -> Some x <> death rf -> on (wl s') !! x = on (wl s) !! x /\ deaths s' !! x = deaths s !! x.
Proof.
  intros Hw E. destruct (wt_ref_proc s None (wf_t _ _ _ Hw) (r_proc rf) r) as [pr Epr]; [split; [done|by exists rf]|].
  destruct (wk_ref s _ None (wf_k _ _ _ Hw) r rf ltac:(done) E) as ((nd & En & Hin) & Hs & Hwk).
  destruct (wf_hide_ref none_off s r rf pr Hw E Epr) as (td & tn & Etd & Etn & Hw1). unfold binder_delete_ref. rewrite E. cbn [mbind option_bind]. rewrite Epr. cbn [mbind option_bind].
  rewrite Etd. cbn [mbind option_bind]. rewrite Etn. cbn [mbind option_bind]. set (s1 := set_proc s _ _) in *.
  destruct (drop_strong s1 r rf nd Hw1 E En Hin Hs) as (s2 & nd2 & -> & Hw2 & Hst2 & En2 & Hr2 & Hl2 & Hi2). cbn [mbind option_bind].
  unfold hlist_del. rewrite En2. cbn [mbind option_bind]. set (s3 := set_node s2 _ _).
  assert (E2 : refs s2 !! r = Some rf) by (by rewrite (ns_refs _ _ _ Hst2)).
  assert (Hw3 : wf_ none_off (Some r) s3).
  { eapply wf_off_ext; [|apply (wf_hlist_del _ s2 r rf nd2 Hw2 E2 En2); by rewrite Hr2]. intros m. unfold bump, held. rewrite (ns_refs _ _ _ Hst2).
    destruct (Z.eqb_spec m (r_node rf)); unfold none_off; lia. }
  set (nd3 := set_refs nd2 _) in *. assert (En3 : nodes s3 !! r_node rf = Some nd3) by (simpl; apply lookup_insert_eq).
  assert (Hc3 : covered s3 (r_node rf) (counted nd3 false true (-1))).
  { destruct (wf_covered _ _ _ _ _ Hw3 En3) as (H1 & H2 & H3). unfold covered, counted. simpl. rewrite !Z.add_0_r. done. }
  destruct (dec_node_ok none_off (Some r) s3 (r_node rf) nd3 false true Hw3 En3 Hc3 Hi2) as (s4 & -> & Hw4 & Hst4 & Hn4). cbn [mbind option_bind].
  assert (E4 : refs s4 !! r = Some rf) by (by rewrite (ns_refs _ _ _ Hst4)).
  assert (Hn4' : forall md, nodes s4 !! r_node rf = Some md -> n_refs md = n_refs nd3 /\ lckey md = lckey nd).
  { intros md Em. destruct Hn4 as [Hn4|[Hn4 _]]; rewrite Hn4 in Em; [|done]. injection Em as <-. split; [done|]. rewrite <- Hl2. unfold lckey, counted. simpl. by rewrite !Z.add_0_r. }
  destruct (wf_drop_ref s4 r rf Hw4 E4) as (s5 & Es5 & Hw5 & F1 & F2 & F3 & F4 & F5 & F6 & F7).
  { intros md Em. destruct (Hn4' md Em) as [-> _]. simpl. intros [? _]%list_elem_of_filter. done. }
  unfold drop_death in Es5. rewrite Es5. cbn [mbind option_bind]. eexists. split; [done|]. split; [exact Hw5|].
  split; [simpl; rewrite F2, (ns_refs _ _ _ Hst4); simpl; by rewrite (ns_refs _ _ _ Hst2)|].
  assert (Hst : node_step s1 s4 (r_node rf)) by (eapply node_step_trans; [exact Hst2|]; eapply node_step_trans; [apply node_step_set|exact Hst4]).
  split; [|split; [intros x; simpl; by rewrite F7, (ns_deaths _ _ _ Hst)|]; intros x Hx Hne; simpl; destruct (F6 x Hne) as [-> ->]; by rewrite (ns_deaths_on _ _ _ Hst x Hx), (ns_deaths _ _ _ Hst)].
  apply (kept_trans _ s1); [|apply (kept_trans _ s4)].
  - split; try done; [eauto|]. simpl. by apply insert_key with pr.
  - apply (step_kept _ _ _ Hst). intros md Em. exists nd. split; [done|]. by apply Hn4'.
  - split; simpl; [rewrite F1; eauto|by rewrite F3|done|done].
Qed.

(** ** Counting references up and down *)

Lemma internal_bound off gone s n nd :
  wf_ off gone s -> nodes s !! n = Some nd -> internal_strong_refs nd <= Z.of_nat (size (refs s)) + off n.
Proof.
  intros Hw E. destruct (wk_node s off gone (wf_k _ _ _ Hw) n nd E) as (A1 & A2 & A3). rewrite A3. pose proof (strong_count_range s (n_refs nd)).
  assert (length (n_refs nd) <= size (refs s))%nat; [|lia]. rewrite <- (size_list_to_set (C := gset Z) (n_refs nd)) by done. rewrite <- size_dom. apply subseteq_size.
  intros r Hr. apply elem_of_list_to_set in Hr. destruct (A2 r Hr) as (rf & Er & _). apply elem_of_dom. eauto.
Qed.

Lemma bounded_kept N s s' :
  bounded N s -> kept s s' -> Z.of_nat (size (refs s')) <= N ->
  (forall r rf, refs s' !! r = Some rf -> strong rf <= N /\ weak rf <= N /\ 0 <= desc rf <= N) -> bounded N s'.
Proof.
  intros [B1 B2 B3] Hk H1 H2. split; [|done|done]. intros m md Em. destruct (kp_nodes _ _ Hk m md Em) as (md0 & Em0 & [= _ -> ->]). by apply (B1 m).
Qed.

Lemma bounded_weaken N M s : N <= M -> bounded N s -> bounded M s.
Proof.
  intros H [B1 B2 B3]. split; [| |lia].
  - intros n nd E. destruct (B1 n nd E). lia.
  - intros r rf E. destruct (B2 r rf E) as (? & ? & ?). lia.
Qed.

Lemma refs_insert_size s r rf rf' : refs s !! r = Some rf -> size (<[r := rf']> (refs s)) = size (refs s).
Proof. intros E. apply map_size_insert_Some. eauto. Qed.

(** The counts of a reference after [binder_inc_ref] or [binder_dec_ref] *)
Definition recounted (rf : binder_ref) (st : bool) (k : Z) : binder_ref :=
  if st then set_ref_counts rf (strong rf + k) (weak rf) else set_ref_counts rf (strong rf) (weak rf + k).

Lemma recounted_node rf st k : r_node (recounted rf st k) = r_node rf /\ r_proc (recounted rf st k) = r_proc rf /\ death (recounted rf st k) = death rf /\ desc (recounted rf st k) = desc rf.
Proof. by destruct st. Qed.

Lemma wf_recounted off s r rf st k :
  wf_ off None s -> refs s !! r = Some rf -> 0 <= strong (recounted rf st k) -> 0 <= weak (recounted rf st k) ->
  wf_ (bump off (r_node rf) (held s r - (if 0 <? strong (recounted rf st k) then 1 else 0))) None (set_ref s r (recounted rf st k)).
Proof. intros Hw E H1 H2. destruct st; by apply wf_ref_counts. Qed.

Lemma inc_ref_ok N s r rf st target :
  wf s -> bounded N s -> N < INT_MAX -> refs s !! r = Some rf ->
  (forall l, target = Some l -> exists nd p, nodes s !! r_node rf = Some nd /\ n_proc nd = Some p /\ work_list s p l) ->
  exists s' ret, binder_inc_ref s r st target = Some (s', ret) /\ wf s' /\ bounded (N + 1) s' /\ kept s s' /\
    ((ret = 0 /\ refs s' = <[r := recounted rf st 1]> (refs s)) \/ (ret = - EINVAL /\ target = None /\ refs s' = refs s /\ (if st then strong rf else weak rf) = 0 /\ exists nd, nodes s !! r_node rf = Some nd /\ refused s (r_node rf) nd st)).
Proof.
  intros Hw Hb HN E Ht. destruct (wk_ref s _ None (wf_k _ _ _ Hw) r rf ltac:(done) E) as ((nd & En & Hin) & Hs & Hwk).
  destruct (bd_ref N s Hb r rf E) as (B1 & B2 & B3). destruct (bd_node N s Hb _ nd En) as (B4 & B5). pose proof (internal_bound _ _ _ _ _ Hw En) as B6. pose proof (bd_size N s Hb) as B7.
  assert (Hstep : exists s1 ret, (if (if st then strong rf else weak rf) =? 0 then binder_inc_node s (r_node rf) st true target else Some (s, 0)) = Some (s1, ret) /\
    node_step s s1 (r_node rf) /\ kept s s1 /\
    ((ret = 0 /\ wf_ (bump none_off (r_node rf) (if st && (strong rf =? 0) then 1 else 0)) None s1) \/ (ret = - EINVAL /\ target = None /\ wf s1 /\ (if st then strong rf else weak rf) = 0 /\ refused s (r_node rf) nd st))).
  { destruct (Z.eqb_spec (if st then strong rf else weak rf) 0) as [H0|H0].
    - destruct (inc_node_ok none_off None s (r_node rf) nd st true target Hw En) as (s1 & ret & E1 & Hst & Hr); [intros l Hl; destruct (Ht l Hl) as (nd' & p & A1 & A2 & A3); rewrite En in A1; injection A1 as <-; eauto|unfold none_off in *; lia|lia|lia|].
      exists s1, ret. split; [done|]. split; [done|]. destruct Hr as [(-> & Hw1 & En1)|(-> & Htn & _ & Hz & Hw1 & En1)]; (split; [apply (step_kept _ _ _ Hst); rewrite En1; intros md [= <-]; exists nd; split; [done|]|]).
      + unfold lckey, counted. simpl. destruct st; simpl; by rewrite !Z.add_0_r.
      + left. split; [done|]. eapply wf_off_ext; [|exact Hw1]. intros m. unfold shifted, bump. destruct st; cbn [andb]; [by rewrite H0|]. destruct (m =? _); lia.
      + unfold lckey, counted. destruct st; [done|]. simpl. by rewrite !Z.add_0_r.
      + right. done.
    - exists s, 0. split; [done|]. split; [apply node_step_refl|]. split; [apply kept_refl|]. left. split; [done|]. eapply wf_off_ext; [|exact Hw]. intros m. unfold bump.
      destruct st; cbn [andb]; [rewrite (proj2 (Z.eqb_neq _ _) H0)|]; destruct (m =? _); unfold none_off; lia. }
  destruct Hstep as (s1 & ret & E1 & Hst & Hkp & Hr).
  assert (Eq : binder_inc_ref s r st target = if negb (ret =? 0) then Some (s1, ret) else Some (set_ref s1 r (recounted rf st 1), 0)).
  { unfold binder_inc_ref. rewrite E. cbn [mbind option_bind]. destruct st; rewrite E1; cbn [mbind option_bind]; (destruct (negb (ret =? 0)); [done|]); unfold incr; by rewrite (proj2 (Z.ltb_lt _ INT_MAX)) by lia. }
  rewrite Eq. clear Eq. destruct Hr as [(-> & Hw1)|(-> & Htn & Hw1 & H0 & Hz)].
  - cbn [Z.eqb negb]. assert (Er1 : refs s1 !! r = Some rf) by (by rewrite (ns_refs _ _ _ Hst)). eexists _, _. split; [done|]. split; [|split; [|split]].
    + eapply wf_off_ext; [|apply (wf_recounted _ s1 r rf st 1 Hw1 Er1); destruct st; simpl; lia]. intros m. unfold bump, held. rewrite Er1. simpl.
      destruct (Z.eqb_spec m (r_node rf)); [|done]. destruct st; simpl; destruct (Z.ltb_spec 0 (strong rf)), (Z.eqb_spec (strong rf) 0); try lia; rewrite ?(proj2 (Z.ltb_lt 0 (strong rf + 1))) by lia; unfold none_off; lia.
    + apply (bounded_kept (N + 1) s); [by apply (bounded_weaken N); [lia|]|apply (kept_trans _ s1); [done|by split; eauto]| |].
      * simpl. rewrite (refs_insert_size s1 r rf _ Er1), (ns_refs _ _ _ Hst). lia.
      * intros x xf. simpl. rewrite (ns_refs _ _ _ Hst). destruct (decide (x = r)) as [->|]; [rewrite lookup_insert_eq; intros [= <-]; destruct st; simpl; lia|].
        rewrite lookup_insert_ne by done. intros Ex. destruct (bd_ref N s Hb x xf Ex) as (? & ? & ?). lia.
    + apply (kept_trans _ s1); [done|by split; eauto].
    + left. split; [done|]. simpl. by rewrite (ns_refs _ _ _ Hst).
  - cbn [negb]. eexists _, _. split; [done|]. split; [done|]. split; [|split; [done|right; rewrite (ns_refs _ _ _ Hst); split_and!; try done; eauto]].
    apply (bounded_kept (N + 1) s); [by apply (bounded_weaken N); [lia|]|done| |]; rewrite (ns_refs _ _ _ Hst); [lia|]. intros x xf Ex. destruct (bd_ref N s Hb x xf Ex) as (? & ? & ?). lia.
Qed.

(** A reference without counts is deleted. *)
Definition after_dec (s : state) (r : Z) (rf : binder_ref) : gmap Z binder_ref :=
  if (strong rf =? 0) && (weak rf =? 0) then delete r (refs s) else <[r := rf]> (refs s).

Lemma dec_ref_ok N s r rf st :
  wf s -> bounded N s -> refs s !! r = Some rf ->
  exists s' ret, binder_dec_ref s r st = Some (s', ret) /\ wf s' /\ bounded N s' /\ kept s s' /\
    if (if st then strong rf else weak rf) =? 0 then ret = - EINVAL /\ s' = s
    else ret = 0 /\ refs s' = after_dec s r (recounted rf st (-1)).
Proof.
  intros Hw Hb E. destruct (wk_ref s _ None (wf_k _ _ _ Hw) r rf ltac:(done) E) as ((nd & En & Hin) & Hs & Hwk).
  unfold binder_dec_ref. rewrite E. cbn [mbind option_bind]. destruct (Z.eqb_spec (if st then strong rf else weak rf) 0) as [H0|H0].
  { eexists _, _. split; [done|]. split_and!; try done. apply kept_refl. }
  unfold decr. rewrite (proj2 (Z.leb_le _ _)) by (unfold INT_MAX; destruct st; lia). cbn [mbind option_bind].
  replace (if st then set_ref_counts rf ((if st then strong rf else weak rf) - 1) (weak rf) else set_ref_counts rf (strong rf) ((if st then strong rf else weak rf) - 1))
    with (recounted rf st (-1)) by (by destruct st). set (rf' := recounted rf st (-1)). destruct (recounted_node rf st (-1)) as (R1 & R2 & R3 & R4). fold rf' in R1, R2, R3, R4.
  assert (Hc' : 0 <= strong rf' <= strong rf /\ 0 <= weak rf' <= weak rf) by (destruct st; simpl; lia).
  pose proof (wf_recounted none_off s r rf st (-1) Hw E ltac:(apply Hc') ltac:(apply Hc')) as Hw1. fold rf' in Hw1. set (s1 := set_ref s r rf') in *.
  assert (E1 : refs s1 !! r = Some rf') by (simpl; apply lookup_insert_eq). assert (En1 : nodes s1 !! r_node rf = Some nd) by done.
  assert (Hstep : exists s2, (if st && (strong rf' =? 0) then binder_dec_node s1 (r_node rf') true true else Some s1) = Some s2 /\ wf s2 /\ refs s2 = refs s1 /\ kept s s2).
  { rewrite R1. destruct (st && (strong rf' =? 0)) eqn:Ez.
    - apply andb_true_iff in Ez as [-> Ez]. apply Z.eqb_eq in Ez. assert (Hh : held s r = 1) by (unfold held; rewrite E; simpl; rewrite (proj2 (Z.ltb_lt _ _)) by lia; done).
      assert (Hi : 0 <= internal_strong_refs nd) by (by apply (wf_internal_nonneg s (r_node rf) nd none_off None)).
      destruct (dec_node_ok _ None s1 (r_node rf) nd true true Hw1 En1) as (s2 & E2 & Hw2 & Hst & Hn2); [|done|].
      { destruct (wf_covered _ _ _ _ _ Hw En) as (H1 & H2 & H3). unfold covered, counted. simpl. rewrite !Z.add_0_r. done. }
      exists s2. split; [done|]. split; [|split; [by rewrite (ns_refs _ _ _ Hst)|]].
      + eapply wf_off_ext; [|exact Hw2]. intros m. unfold shifted, bump. cbn [andb]. rewrite Hh. fold rf'. rewrite Ez. destruct (m =? r_node rf); simpl; unfold none_off; lia.
      + apply (kept_trans _ s1); [by split; eauto|]. apply (step_kept _ _ _ Hst). intros md Em. exists nd. split; [done|]. destruct Hn2 as [Hn2|[Hn2 _]]; rewrite Hn2 in Em; [|done]. injection Em as <-.
        unfold lckey, counted. simpl. by rewrite !Z.add_0_r.
    - exists s1. split; [done|]. split; [|split; [done|by split; eauto]]. eapply wf_off_ext; [|exact Hw1]. intros m. unfold bump, held. rewrite E. simpl. fold rf'.
      destruct (m =? r_node rf); [|done]. destruct st; simpl in *; [apply Z.eqb_neq in Ez; rewrite !(proj2 (Z.ltb_lt _ _)) by lia|]; unfold none_off; lia. }
  destruct Hstep as (s2 & -> & Hw2 & Er2 & Hk2). cbn [mbind option_bind].
  assert (Hbr : forall x xf, <[r := rf']> (refs s) !! x = Some xf -> strong xf <= N /\ weak xf <= N /\ 0 <= desc xf <= N).
  { intros x xf. destruct (decide (x = r)) as [->|]; [rewrite lookup_insert_eq; intros [= <-]; destruct (bd_ref N s Hb r rf E) as (? & ? & ?); rewrite R4; lia|].
    rewrite lookup_insert_ne by done. apply (bd_ref N s Hb). }
  unfold after_dec. destruct ((strong rf' =? 0) && (weak rf' =? 0)).
  - assert (Er2' : refs s2 !! r = Some rf') by (by rewrite Er2). destruct (delete_ref_ok s2 r rf' Hw2 Er2') as (s3 & -> & Hw3 & Er3 & Hk3 & _). cbn [mbind option_bind].
    assert (Er : refs s3 = delete r (refs s)) by (rewrite Er3, Er2; simpl; apply delete_insert_eq).
    eexists _, _. split; [done|]. split; [done|]. split; [|split; [by apply (kept_trans _ s2)|done]]. apply (bounded_kept N s); [done|by apply (kept_trans _ s2)| |]; rewrite Er.
    + pose proof (bd_size N s Hb). pose proof (map_size_delete r (refs s)) as Hsz. rewrite E in Hsz. lia.
    + intros x xf [_ Ex]%lookup_delete_Some. by apply (bd_ref N s Hb x).
  - eexists _, _. split; [done|]. split; [done|]. split; [|split; [done|by rewrite Er2]]. apply (bounded_kept N s); [done|done| |]; rewrite Er2; simpl; [|done].
    rewrite (refs_insert_size s r rf _ E). apply Hb.
Qed.

(** ** Descriptors *)

Lemma rb_next_of_ok t x ll rr :
  Rbtree.wf t -> NoDup (Rbtree.elements t) -> Rbtree.elements t = ll ++ x :: rr -> rb_next_of t x = Some (head rr).
Proof.
  intros [n Ht] Hn El. assert (Hx : x ∈ Rbtree.elements t) by (rewrite El; set_solver).
  destruct (Rbtree.locate_ok x t [] Rbtree.Black n Ht ltac:(constructor) Hx) as (c & l & r & q & m & E & _). unfold rb_next_of. rewrite E. cbn [mbind option_bind].
  destruct (Rbtree.rb_walk_correct t x _ q E) as (_ & _ & ll' & rr' & El' & -> & _). do 2 f_equal. rewrite El in El'. rewrite El in Hn.
  apply NoDup_app in Hn as (_ & N1 & [N2 _]%NoDup_cons). apply app_eq_inv in El' as [(k & -> & Ek)|(k & -> & Ek)].
  - destruct k as [|y k]; [injection Ek as Ek'; by rewrite Ek'|]. injection Ek as Ey _. subst y. exfalso. apply (N1 x); set_solver.
  - destruct k as [|y k]; [injection Ek as Ek'; by rewrite Ek'|]. injection Ek as _ Ek'. exfalso. apply N2. rewrite Ek'. set_solver.
Qed.

Lemma desc_loop_ok s t rr : forall ll d,
  Rbtree.wf t -> NoDup (Rbtree.elements t) -> StronglySorted (by_key (desc_of s)) (Rbtree.elements t) -> Rbtree.elements t = ll ++ rr ->
  (forall x, x ∈ Rbtree.elements t -> exists rf, refs s !! x = Some rf /\ 0 <= desc rf < INT_MAX) ->
  (forall x, x ∈ rr -> d <= desc_of s x \/ (d = 1 /\ desc_of s x = 0)) ->
  exists d', desc_loop (length rr) s t (head rr) d = Some d' /\ d <= d' /\ (forall x, x ∈ rr -> desc_of s x <> d') /\
    (forall k, d <= k < d' -> exists x, x ∈ rr /\ desc_of s x = k).
Proof.
  induction rr as [|r rr IH]; intros ll d Hw Hn Hs El Href Hd; [exists d; split_and!; [done|done|set_solver|intros; lia]|]. cbn [head length desc_loop].
  destruct (Href r) as (rf & Er & Hr); [rewrite El; set_solver|]. assert (Hdr : desc_of s r = desc rf) by (unfold desc_of; by rewrite Er). rewrite Er. cbn [mbind option_bind].
  pose proof Hs as Hs'. rewrite El in Hs'. destruct (sorted_app_inv _ _ _ _ Hs') as (_ & _ & _ & Hgt). unfold by_key in Hgt. rewrite Hdr in Hgt.
  destruct (Z.ltb_spec d (desc rf)) as [Hlt|Hge].
  - exists d. split; [done|]. split; [lia|]. split; [|intros; lia]. intros x [->|Hx]%elem_of_cons; [lia|]. specialize (Hgt x Hx). lia.
  - rewrite (rb_next_of_ok t r ll rr Hw Hn El). cbn [mbind option_bind]. rewrite u32_id by (unfold is_u32, INT_MAX in *; lia).
    destruct (IH (ll ++ [r]) (desc rf + 1) Hw Hn Hs) as (d' & -> & H1 & H2 & H3); [by simplify_list_eq|done|intros x Hx; specialize (Hgt x Hx); lia|].
    specialize (Hd r ltac:(set_solver)). rewrite Hdr in Hd. exists d'. split; [done|]. split; [lia|]. split.
    + intros x [->|Hx]%elem_of_cons; [lia|]. by apply H2.
    + intros k Hk. destruct (decide (k = desc rf)) as [->|Hne]; [exists r; set_solver|]. destruct (H3 k) as (x & Hx & Hkx); [lia|]. exists x. set_solver.
Qed.

(** [d] is the descriptor a new reference gets: the smallest that is free, 0 only for the
    context manager. *)
Definition least_desc (s : state) (p n d : Z) : Prop :=
  let d0 := if is_context s n then 0 else 1 in
  d0 <= d /\ (forall r, ref_of s None p r -> desc_of s r <> d) /\ (forall k, d0 <= k < d -> exists r, ref_of s None p r /\ desc_of s r = k).

Lemma new_desc_ok N s p n pr :
  wf s -> bounded N s -> N < INT_MAX -> procs s !! p = Some pr ->
  exists d, desc_loop (length (Rbtree.elements (refs_by_desc pr))) s (refs_by_desc pr) (Rbtree.rb_first (refs_by_desc pr)) (if is_context s n then 0 else 1) = Some d /\
    least_desc s p n d /\ 0 <= d <= N + 1.
Proof.
  intros Hw Hb HN Epr. destruct (wt_desc s None (wf_t _ _ _ Hw) p pr Epr) as [Ht He Hn Hs]. set (t := refs_by_desc pr) in *.
  assert (Href : forall x, x ∈ Rbtree.elements t -> exists rf, refs s !! x = Some rf /\ 0 <= desc rf < INT_MAX).
  { intros x Hx. apply He in Hx as (_ & rf & Er & _). exists rf. split; [done|]. destruct (bd_ref N s Hb x rf Er) as (_ & _ & ?). lia. }
  assert (E : Rbtree.rb_first t = head (Rbtree.elements t)) by apply Rbtree.leftmost_head. rewrite E.
  destruct (desc_loop_ok s t (Rbtree.elements t) [] (if is_context s n then 0 else 1) Ht Hn Hs eq_refl Href) as (d & Ed & H1 & H2 & H3).
  { intros x Hx. destruct (Href x Hx) as (rf & Er & Hr). unfold desc_of. rewrite Er. simpl. destruct (is_context s n); lia. }
  exists d. split; [done|]. setoid_rewrite He in H2. setoid_rewrite He in H3. split; [done|]. split; [destruct (is_context s n); lia|].
  destruct (Z_le_gt_dec d (N + 1)) as [|Hgt]; [done|]. destruct (H3 (N + 1)) as (x & (_ & rf & Er & _) & Hx).
  - pose proof (bd_size N s Hb). destruct (is_context s n); lia.
  - destruct (bd_ref N s Hb x rf Er) as (_ & _ & ?). unfold desc_of in Hx. rewrite Er in Hx. simpl in Hx. lia.
Qed.

(** ** Lookups and new objects *)

(** Memory that [kzalloc] returns is in use for nothing else. *)
Definition fresh (s : state) (x : Z) : Prop := nodes s !! x = None /\ refs s !! x = None /\ deaths s !! x = None.

Lemma get_node_ok s p pr ptr :
  wf s -> procs s !! p = Some pr ->
  exists r, binder_get_node s p ptr = Some r /\ forall n, r = Some n <-> node_of s p n /\ ptr_of s n = ptr.
Proof.
  intros Hw Epr. unfold binder_get_node. rewrite Epr. cbn [mbind option_bind]. apply (tree_search _ (node_of s p)); [by apply (wf_t _ _ _ Hw)|].
  intros n (nd & En & _). unfold ptr_of. by rewrite En.
Qed.

Lemma get_ref_ok s p pr d :
  wf s -> procs s !! p = Some pr ->
  exists r, binder_get_ref s p d = Some r /\ forall x, r = Some x <-> ref_of s None p x /\ desc_of s x = d.
Proof.
  intros Hw Epr. unfold binder_get_ref. rewrite Epr. cbn [mbind option_bind]. apply (tree_search _ (ref_of s None p)); [by apply (wf_t _ _ _ Hw)|].
  intros r (_ & rf & Er & _). unfold desc_of. by rewrite Er.
Qed.

(** The state with a new reference [r] of the process [p] to the node [n] *)
Definition with_ref (s : state) (p n : Z) (nd : binder_node) (pr : binder_proc) (r d : Z) (tn td : Rbtree.tree) : state :=
  set_node (set_ref (set_proc s p (set_ref_trees pr td tn)) r (mkref p n d 0 0 None)) n (set_refs nd (r :: n_refs nd)).

Section NewRef.
Context (s : state) (p n : Z) (nd : binder_node) (pr : binder_proc) (r d : Z).
Hypothesis Epr : procs s !! p = Some pr.
Hypothesis En : nodes s !! n = Some nd.
Hypothesis Er : refs s !! r = None.

Lemma with_ref_of tn td q x : ref_of (with_ref s p n nd pr r d tn td) None q x <-> (x = r /\ q = p) \/ ref_of s None q x.
Proof.
  unfold ref_of. simpl. destruct (decide (x = r)) as [->|Hne].
  - rewrite lookup_insert_eq, Er. split; [intros (_ & rf & [= <-] & <-); by left|intros [[_ ->]|(_ & rf & [=] & _)]; split; [done|]; by eexists].
  - rewrite lookup_insert_ne by done. split; [intros H; by right|intros [[? _]|H]; done].
Qed.

Lemma with_ref_keys tn td x :
  desc_of (with_ref s p n nd pr r d tn td) x = (if x =? r then d else desc_of s x) /\ target_of (with_ref s p n nd pr r d tn td) x = (if x =? r then n else target_of s x).
Proof. unfold desc_of, target_of. simpl. destruct (Z.eqb_spec x r) as [->|]; [by rewrite lookup_insert_eq|by rewrite lookup_insert_ne]. Qed.

Lemma old_ref q x : ref_of s None q x -> (x =? r) = false.
Proof. intros (_ & rf & Ex & _). apply Z.eqb_neq. intros ->. congruence. Qed.

Lemma trees_add_ref tn td :
  wf_trees s None -> tree_ok tn (fun a => a = r \/ ref_of s None p a) (by_key (fun x => if x =? r then n else target_of s x)) ->
  tree_ok td (fun a => a = r \/ ref_of s None p a) (by_key (fun x => if x =? r then d else desc_of s x)) -> wf_trees (with_ref s p n nd pr r d tn td) None.
Proof.
  intros [T1 T2 T3 T4 T5] Htn Htd. pose proof (with_ref_of tn td) as Hro. pose proof (with_ref_keys tn td) as Hkey.
  assert (Hno : forall q m, node_of (with_ref s p n nd pr r d tn td) q m <-> node_of s q m).
  { intros q m. unfold node_of. simpl. destruct (decide (m = n)) as [->|]; [|by rewrite lookup_insert_ne]. rewrite lookup_insert_eq, En. split; intros (x & [= <-] & Hx); by eexists. }
  assert (Hother : forall q x, q <> p -> ref_of (with_ref s p n nd pr r d tn td) None q x <-> ref_of s None q x) by (intros q x Hq; rewrite Hro; naive_solver).
  split; simpl.
  + intros q pr' Eq. assert (exists pr0, procs s !! q = Some pr0 /\ nodes_t pr' = nodes_t pr0) as (pr0 & Eq0 & ->).
    { destruct (decide (q = p)) as [->|]; [rewrite lookup_insert_eq in Eq; injection Eq as <-; eauto|rewrite lookup_insert_ne in Eq by done; eauto]. }
    apply (tree_ok_ext _ _ _ _ _ (T1 q pr0 Eq0)); [intros; by rewrite Hno|]. intros a b _ _. unfold by_key, ptr_of. simpl.
    assert (Hp : forall m, from_option n_ptr 0 (<[n := set_refs nd (r :: n_refs nd)]> (nodes s) !! m) = from_option n_ptr 0 (nodes s !! m)) by (intros m; destruct (decide (m = n)) as [->|]; [rewrite lookup_insert_eq, En; done|by rewrite lookup_insert_ne]).
    by rewrite !Hp.
  + intros q pr' Eq. destruct (decide (q = p)) as [->|Hq].
    * rewrite lookup_insert_eq in Eq. injection Eq as <-. simpl. apply (tree_ok_ext _ _ _ _ _ Htd); [intros x; rewrite Hro; naive_solver|]. intros a b _ _. unfold by_key. by rewrite !(proj1 (Hkey _)).
    * rewrite lookup_insert_ne in Eq by done. apply (tree_ok_ext _ _ _ _ _ (T2 q pr' Eq)); [intros; by rewrite Hother|]. intros a b Ha Hb. unfold by_key.
      by rewrite !(proj1 (Hkey _)), (old_ref q a), (old_ref q b).
  + intros q pr' Eq. destruct (decide (q = p)) as [->|Hq].
    * rewrite lookup_insert_eq in Eq. injection Eq as <-. simpl. apply (tree_ok_ext _ _ _ _ _ Htn); [intros x; rewrite Hro; naive_solver|]. intros a b _ _. unfold by_key. by rewrite !(proj2 (Hkey _)).
    * rewrite lookup_insert_ne in Eq by done. apply (tree_ok_ext _ _ _ _ _ (T3 q pr' Eq)); [intros; by rewrite Hother|]. intros a b Ha Hb. unfold by_key.
      by rewrite !(proj2 (Hkey _)), (old_ref q a), (old_ref q b).
  + intros q m. rewrite Hno. intros Hm. apply lookup_insert_is_Some'. right. by apply (T4 q m).
  + intros q x. rewrite Hro. intros [[_ ->]|Hx]; apply lookup_insert_is_Some'; [by left|right; by apply (T5 q x)].
Qed.

Lemma links_add_ref tn td : wf_links s none_off None -> wf_links (with_ref s p n nd pr r d tn td) none_off None.
Proof.
  intros [K1 K2 K3]. assert (Hheld : forall x, held (with_ref s p n nd pr r d tn td) x = held s x).
  { intros x. unfold held. simpl. destruct (decide (x = r)) as [->|]; [by rewrite lookup_insert_eq, Er|by rewrite lookup_insert_ne]. }
  split; simpl.
  + intros x xf _ Ex. destruct (decide (x = r)) as [->|Hx].
    * rewrite lookup_insert_eq in Ex. injection Ex as <-. simpl. split; [|done]. eexists. rewrite lookup_insert_eq. split; [done|]. simpl. set_solver.
    * rewrite lookup_insert_ne in Ex by done. destruct (K1 x xf ltac:(done) Ex) as ((md & Em & Hin) & H). split; [|done].
      destruct (decide (r_node xf = n)) as [Hxn|]; [|exists md; by rewrite lookup_insert_ne]. rewrite Hxn in *. rewrite En in Em. injection Em as <-.
      eexists. rewrite lookup_insert_eq. split; [done|]. simpl. set_solver.
  + intros m md Em. destruct (decide (m = n)) as [->|Hm].
    * rewrite lookup_insert_eq in Em. injection Em as <-. destruct (K2 n nd En) as (A1 & A2 & A3). simpl. split; [|split].
      -- apply NoDup_cons. split; [|done]. intros Hin. destruct (A2 r Hin) as (rf & E & _). congruence.
      -- intros x [->|Hx]%elem_of_cons; [eexists; rewrite lookup_insert_eq; done|]. destruct (A2 x Hx) as (xf & Ex & Hxn). exists xf. rewrite lookup_insert_ne; [done|]. congruence.
      -- rewrite strong_count_cons, Hheld, (strong_count_ext s) by auto. unfold held. rewrite Er. simpl. rewrite A3. done.
    * rewrite lookup_insert_ne in Em by done. destruct (K2 m md Em) as (A1 & A2 & A3). split; [done|]. split; [|by rewrite (strong_count_ext s) by auto].
      intros x Hx. destruct (A2 x Hx) as (xf & Ex & Hxn). exists xf. rewrite lookup_insert_ne; [done|]. congruence.
  + split; [apply K3|]. intros m. rewrite (proj2 K3). destruct (decide (m = n)) as [->|]; [|by rewrite lookup_insert_ne]. rewrite lookup_insert_eq, En. split; intros (x & [= <-] & Hx); by eexists.
Qed.

Lemma deaths_add_ref tn td : wf_deaths s -> wf_deaths (with_ref s p n nd pr r d tn td).
Proof.
  intros [D1 D2]. split; simpl.
  + intros x xf dx Ex Edx. destruct (decide (x = r)) as [->|]; [rewrite lookup_insert_eq in Ex; injection Ex as <-; done|]. rewrite lookup_insert_ne in Ex by done.
    destruct (D1 x xf dx Ex Edx) as (dd & A1 & A2 & A3). exists dd. split; [done|]. split; [done|]. intros md Em Hp. destruct (decide (r_node xf = n)) as [Hxn|].
    * rewrite Hxn, lookup_insert_eq in Em. injection Em as <-. apply (A3 nd); [by rewrite Hxn|done].
    * rewrite lookup_insert_ne in Em by done. by apply (A3 md).
  + intros x x' xf xf' dx Ex Ex' Edx Edx'. destruct (decide (x = r)) as [->|]; [rewrite lookup_insert_eq in Ex; injection Ex as <-; done|].
    destruct (decide (x' = r)) as [->|]; [rewrite lookup_insert_eq in Ex'; injection Ex' as <-; done|]. rewrite lookup_insert_ne in Ex, Ex' by done. by apply (D2 x x' xf xf' dx).
Qed.

Lemma wf_new_ref :
  wf s -> least_desc s p n d -> (forall x, ref_of s None p x -> target_of s x <> n) ->
  exists tn td, Rbtree.insert (fun m => rf ← refs s !! m; Some (n <? r_node rf)) r (refs_by_node pr) = Some tn /\
    Rbtree.insert (fun m => rf ← refs s !! m; if d <? desc rf then Some true else if desc rf <? d then Some false else None) r (refs_by_desc pr) = Some td /\
    wf (with_ref s p n nd pr r d tn td).
Proof.
  intros [Ht Hk Hc Hwk Hdd] (_ & Hd & _) Hn. assert (Hnr : ~ ref_of s None p r) by (intros (_ & rf & E & _); congruence).
  destruct (tree_insert (refs_by_node pr) (ref_of s None p) (by_key (fun x => if x =? r then n else target_of s x)) (fun m => rf ← refs s !! m; Some (n <? r_node rf)) r) as (tn & Etn & Htn); [|done| |].
  { apply (tree_ok_ext _ _ _ _ _ (wt_node _ _ Ht p pr Epr)); [done|]. intros a b Ha Hb. unfold by_key. by rewrite (old_ref p a), (old_ref p b). }
  { intros y Hy. pose proof Hy as (_ & rf & Ey & _). rewrite Ey. cbn [mbind option_bind]. eexists. split; [done|]. unfold by_key. rewrite (old_ref p y Hy), Z.eqb_refl.
    specialize (Hn y Hy). unfold target_of in *. rewrite Ey in *. simpl in *. destruct (Z.ltb_spec n (r_node rf)); lia. }
  destruct (tree_insert (refs_by_desc pr) (ref_of s None p) (by_key (fun x => if x =? r then d else desc_of s x)) (fun m => rf ← refs s !! m; if d <? desc rf then Some true else if desc rf <? d then Some false else None) r) as (td & Etd & Htd); [|done| |].
  { apply (tree_ok_ext _ _ _ _ _ (wt_desc _ _ Ht p pr Epr)); [done|]. intros a b Ha Hb. unfold by_key. by rewrite (old_ref p a), (old_ref p b). }
  { intros y Hy. pose proof Hy as (_ & rf & Ey & _). rewrite Ey. cbn [mbind option_bind]. specialize (Hd y Hy). unfold by_key. rewrite (old_ref p y Hy), Z.eqb_refl. unfold desc_of in *. rewrite Ey in *. simpl in *.
    destruct (Z.ltb_spec d (desc rf)); [by exists true|destruct (Z.ltb_spec (desc rf) d); [by exists false|lia]]. }
  exists tn, td. split; [done|]. split; [done|]. split; [by apply trees_add_ref|by apply links_add_ref| | |by apply deaths_add_ref].
  - apply (local_ext s); [by apply insert_key with nd|done|done].
  - apply (works_ext s); simpl; [by apply insert_key with nd|done|by apply insert_key with pr|done|done].
Qed.

End NewRef.

Lemma get_ref_for_node_ok N s p n nd pr new :
  wf s -> bounded N s -> N < INT_MAX -> procs s !! p = Some pr -> nodes s !! n = Some nd -> (forall r, new = Some r -> fresh s r) ->
  exists s' r, binder_get_ref_for_node s p n new = Some (s', r) /\ wf s' /\ bounded (N + 1) s' /\ kept s s' /\
    (wl s' = wl s /\ forall m md, nodes s' !! m = Some md -> exists md0, nodes s !! m = Some md0 /\ md = set_refs md0 (n_refs md)) /\
    match r with
    | None => new = None /\ s' = s /\ forall x, ref_of s None p x -> target_of s x <> n
    | Some r => (s' = s /\ ref_of s None p r /\ target_of s r = n) \/
                (new = Some r /\ (forall x, ref_of s None p x -> target_of s x <> n) /\ exists d, least_desc s p n d /\ refs s' = <[r := mkref p n d 0 0 None]> (refs s))
    end.
Proof.
  intros Hw Hb HN Epr En Hf. unfold binder_get_ref_for_node. rewrite Epr. cbn [mbind option_bind].
  destruct (tree_search (refs_by_node pr) (ref_of s None p) (target_of s) (fun r => rf ← refs s !! r; Some (n ?= r_node rf)) n) as (r & -> & Hr);
    [by apply (wf_t _ _ _ Hw)|intros x (_ & rf & Ex & _); unfold target_of; by rewrite Ex|]. cbn [mbind option_bind].
  assert (Hb' : bounded (N + 1) s) by (apply (bounded_weaken N); [lia|done]).
  assert (Hsame : forall m md, nodes s !! m = Some md -> exists md0, nodes s !! m = Some md0 /\ md = set_refs md0 (n_refs md)) by (intros m md Em; exists md; split; [done|by destruct md]).
  destruct r as [r|]; [exists s, (Some r); split_and!; try done; [apply kept_refl|left; split; [done|by apply Hr]]|].
  assert (Hno : forall x, ref_of s None p x -> target_of s x <> n) by (intros x Hx Hxn; specialize (Hr x); destruct Hr as [_ Hr]; by discriminate Hr).
  destruct new as [r|]; [|exists s, None; split_and!; try done; apply kept_refl]. destruct (Hf r eq_refl) as (F1 & F2 & F3).
  destruct (new_desc_ok N s p n pr Hw Hb HN Epr) as (d & Ed & Hd & Hdb).
  destruct (wf_new_ref s p n nd pr r d Epr En F2 Hw Hd) as (tn & td & -> & Etd & Hw'); [exact Hno|].
  cbn [mbind option_bind]. rewrite Ed. cbn [mbind option_bind]. rewrite Etd. cbn [mbind option_bind]. rewrite En. cbn [mbind option_bind].
  eexists _, _. split; [done|]. split; [exact Hw'|].
  match goal with |- _ /\ kept s ?x /\ _ => assert (Hk : kept s x) end.
  { split; simpl; [|by apply insert_key with pr|done|done]. intros m md. destruct (decide (m = n)) as [->|]; [rewrite lookup_insert_eq; intros [= <-]; eauto|rewrite lookup_insert_ne by done; eauto]. }
  split; [|split; [exact Hk|split; [|right; split; [done|]; split; [done|]; eauto]]].
  2:{ split; [done|]. simpl. intros m md. destruct (decide (m = n)) as [->|]; [rewrite lookup_insert_eq; intros [= <-]; eauto|rewrite lookup_insert_ne by done; apply Hsame]. }
  apply (bounded_kept (N + 1) s); [done|exact Hk| |]; simpl.
  - rewrite map_size_insert_None by done. pose proof (bd_size N s Hb). lia.
  - intros x xf. destruct (decide (x = r)) as [->|]; [rewrite lookup_insert_eq; intros [= <-]; simpl; pose proof (bd_size N s Hb); lia|]. rewrite lookup_insert_ne by done. apply (bd_ref _ _ Hb').
Qed.

(** A node joins the tree of its process. *)
Lemma trees_join s n nd p pr t :
  wf_trees s None -> nodes s !! n = None -> n_proc nd = Some p -> procs s !! p = Some pr ->
  tree_ok t (fun a => a = n \/ node_of s p a) (by_key (fun m => if m =? n then n_ptr nd else ptr_of s m)) ->
  wf_trees (set_proc (set_node s n nd) p (set_nodes_t pr t)) None.
Proof.
  intros [T1 T2 T3 T4 T5] F1 Hp Epr Htt. set (s1 := set_proc _ _ _).
  assert (Hno : forall q m, node_of s1 q m <-> (m = n /\ q = p) \/ node_of s q m).
  { intros q m. unfold node_of. simpl. destruct (decide (m = n)) as [->|Hne].
    - rewrite lookup_insert_eq, F1. split; [intros (x & [= <-] & Hx); left; split; congruence|intros [[_ ->]|(x & [=] & _)]; by eexists].
    - rewrite lookup_insert_ne by done. naive_solver. }
  assert (Hnn : forall q m, node_of s q m -> m <> n) by (intros q m (x & Ex & _) ->; congruence).
  assert (Hptr : forall m, ptr_of s1 m = if m =? n then n_ptr nd else ptr_of s m) by (intros m; unfold ptr_of; simpl; destruct (Z.eqb_spec m n) as [->|]; [by rewrite lookup_insert_eq|by rewrite lookup_insert_ne]).
  split; simpl.
  - intros q pr' Eq. destruct (decide (q = p)) as [->|Hq].
    + rewrite lookup_insert_eq in Eq. injection Eq as <-. simpl. apply (tree_ok_ext _ _ _ _ _ Htt); [intros m; rewrite Hno; naive_solver|]. intros x y _ _. unfold by_key. by rewrite !Hptr.
    + rewrite lookup_insert_ne in Eq by done. apply (tree_ok_ext _ _ _ _ _ (T1 q pr' Eq)); [intros m; rewrite Hno; naive_solver|]. intros x y Hx Hy. unfold by_key.
      rewrite !Hptr, (proj2 (Z.eqb_neq x n)), (proj2 (Z.eqb_neq y n)) by eauto. done.
  - intros q pr' Eq. destruct (decide (q = p)) as [->|Hq]; [rewrite lookup_insert_eq in Eq; injection Eq as <-; exact (T2 p pr Epr)|rewrite lookup_insert_ne in Eq by done; exact (T2 q pr' Eq)].
  - intros q pr' Eq. destruct (decide (q = p)) as [->|Hq]; [rewrite lookup_insert_eq in Eq; injection Eq as <-; exact (T3 p pr Epr)|rewrite lookup_insert_ne in Eq by done; exact (T3 q pr' Eq)].
  - intros q m. rewrite Hno. intros [[_ ->]|Hm]; apply lookup_insert_is_Some'; [by left|right; by apply (T4 q m)].
  - intros q x Hx. apply lookup_insert_is_Some'. right. by apply (T5 q x).
Qed.

Lemma wf_new_node s p pr n t ptr cookie :
  wf s -> fresh s n -> procs s !! p = Some pr -> let nd := mknode (Some p) [] 0 0 0 ptr cookie false false false false in
  wf_trees (set_proc (set_node s n nd) p (set_nodes_t pr t)) None -> wf (set_proc (set_node s n nd) p (set_nodes_t pr t)).
Proof.
  intros Hw (F1 & F2 & F3) Epr nd Htt. pose proof Hw as [_ Hk Hc Hwk Hdd].
  assert (Hon : on (wl s) !! n = None). { destruct (on (wl s) !! n) as [l|] eqn:El; [|done]. destruct (ww_on s Hwk n l El) as [[? ?]|[? ?]]; congruence. }
  split; [done| | | |].
  - destruct Hk as [K1 K2 K3]. split; simpl.
    + intros x xf Hg Ex. destruct (K1 x xf Hg Ex) as ((md & Em & Hin) & H). split; [|done]. exists md. rewrite lookup_insert_ne; [done|]. congruence.
    + intros m md Em. destruct (decide (m = n)) as [->|]; [rewrite lookup_insert_eq in Em; injection Em as <-; simpl; split; [apply NoDup_nil_2|]; split; [set_solver|done]|].
      rewrite lookup_insert_ne in Em by done. by apply K2.
    + split; [apply K3|]. intros m. rewrite (proj2 K3). destruct (decide (m = n)) as [->|]; [|by rewrite lookup_insert_ne]. rewrite lookup_insert_eq, F1. split; [intros (x & [=] & _)|intros (x & [= <-] & [=])].
  - destruct Hc as [C1 C2 C3]. split; simpl.
    + intros m md Em. destruct (decide (m = n)) as [->|]; [rewrite lookup_insert_eq in Em; by injection Em as <-|rewrite lookup_insert_ne in Em by done; by apply (C1 m)].
    + intros m md Em Hp. destruct (decide (m = n)) as [->|]; [|rewrite lookup_insert_ne in Em by done; by apply (C2 m)]. rewrite lookup_insert_eq in Em. injection Em as <-. simpl.
      unfold context_share, is_context. simpl. rewrite bool_decide_eq_false_2; [done|]. intros Hx. destruct (C3 n Hx) as (md & Em & _). congruence.
    + intros m Em. destruct (C3 m Em) as (md & Emd & Hm). exists md. rewrite lookup_insert_ne; [done|]. congruence.
  - destruct Hwk as [W1 W2 W3 W4 W5]. split; simpl; [done| | | |].
    + intros x l El. destruct (W2 x l El) as [Hx|Hx]; [left; apply lookup_insert_is_Some'; by right|by right].
    + intros m md l Em El. destruct (decide (m = n)) as [->|]; [congruence|]. rewrite lookup_insert_ne in Em by done. destruct (W3 m md l Em El) as (q & H1 & H2 & H3). exists q. split; [done|]. split; [done|].
      intros q' pr' Eq'. destruct (decide (q' = p)) as [->|]; [rewrite lookup_insert_eq in Eq'; injection Eq' as <-; apply (H3 p pr Epr)|rewrite lookup_insert_ne in Eq' by done; by apply (H3 q')].
    + intros q pr' Eq. destruct (decide (q = p)) as [->|]; [rewrite lookup_insert_eq in Eq; injection Eq as <-; exact (W4 p pr Epr)|rewrite lookup_insert_ne in Eq by done; by apply W4].
    + intros x Hx. destruct (decide (x = n)) as [->|]; [done|]. rewrite lookup_insert_ne in Hx by done. by apply W5.
  - destruct Hdd as [D1 D2]. split; simpl; [|done]. intros x xf d Ex Edx. destruct (D1 x xf d Ex Edx) as (dd & A1 & A2 & A3). exists dd. split; [done|]. split; [done|].
    intros md Em. rewrite lookup_insert_ne in Em; [by apply A3|]. intros Hx. destruct (wk_ref s _ None Hk x xf ltac:(done) Ex) as ((xd & Exd & _) & _). congruence.
Qed.

Lemma new_node_ok N s p pr ptr cookie new :
  wf s -> bounded N s -> 0 <= N -> procs s !! p = Some pr -> (forall n, new = Some n -> fresh s n) ->
  exists s' r, binder_new_node s p ptr cookie new = Some (s', r) /\ wf s' /\ bounded N s' /\ refs s' = refs s /\ wl s' = wl s /\ context_mgr_node s' = context_mgr_node s /\
    (forall q, pkey <$> procs s' !! q = pkey <$> procs s !! q) /\ deaths s' = deaths s /\
    match r with
    | None => s' = s /\ (new = None \/ exists n, node_of s p n /\ ptr_of s n = ptr)
    | Some n => new = Some n /\ nodes s' = <[n := mknode (Some p) [] 0 0 0 ptr cookie false false false false]> (nodes s) /\
                (forall m, node_of s p m -> ptr_of s m <> ptr)
    end.
Proof.
  intros Hw Hb HN Epr Hf. unfold binder_new_node. rewrite Epr. cbn [mbind option_bind]. destruct (get_node_ok s p pr ptr Hw Epr) as (r & -> & Hr). cbn [mbind option_bind].
  destruct r as [m|]; [exists s, None; split_and!; try done; right; exists m; by apply Hr|]. destruct new as [n|]; [|exists s, None; split_and!; try done; by left].
  pose proof (Hf n eq_refl) as (F1 & F2 & F3). set (nd := mknode _ _ _ _ _ _ _ _ _ _ _).
  assert (Hnone : forall m, node_of s p m -> ptr_of s m <> ptr) by (intros m Hm Hx; destruct (Hr m) as [_ H]; by discriminate H).
  assert (Hnn : forall m, node_of s p m -> m <> n) by (intros m (x & Ex & _) ->; congruence).
  destruct (tree_insert (nodes_t pr) (node_of s p) (by_key (fun m => if m =? n then ptr else ptr_of s m)) (fun m => nd ← nodes s !! m; Some (ptr <? n_ptr nd)) n) as (t & Et & Htt).
  { apply (tree_ok_ext _ _ _ _ _ (wt_nodes s None (wf_t _ _ _ Hw) p pr Epr)); [done|]. intros x y Hx Hy. unfold by_key. rewrite (proj2 (Z.eqb_neq x n)), (proj2 (Z.eqb_neq y n)) by eauto. done. }
  { intros Hx. by apply (Hnn n). }
  { intros y Hy. pose proof Hy as (yd & Ey & _). rewrite Ey. cbn [mbind option_bind]. eexists. split; [done|]. unfold by_key. rewrite Z.eqb_refl, (proj2 (Z.eqb_neq y n)) by eauto.
    specialize (Hnone y Hy). unfold ptr_of in *. rewrite Ey in *. simpl in *. destruct (Z.ltb_spec ptr (n_ptr yd)); lia. }
  rewrite Et. cbn [mbind option_bind]. eexists _, (Some n). split; [done|].
  split; [apply wf_new_node; [done|done|done|]; by apply (trees_join s n nd p pr t (wf_t _ _ _ Hw))|].
  split; [|split_and!; try done; simpl; by apply insert_key with pr].
  destruct Hb as [B1 B2 B3]. split; [|done|done]. simpl. intros m md Em. destruct (decide (m = n)) as [->|]; [rewrite lookup_insert_eq in Em; injection Em as <-; done|]. rewrite lookup_insert_ne in Em by done. by apply (B1 m).
Qed.

(** ** The commands keep the invariant *)

Lemma refs_command_ok mask N s p pr cmd target new :
  debug_user_refs mask = false -> wf s -> bounded N s -> N + 1 < INT_MAX -> procs s !! p = Some pr -> (forall r, new = Some r -> fresh s r) ->
  new <> None \/ target <> 0 ->
  exists s', binder_refs_command mask s p cmd target new = Some s' /\ wf s' /\ bounded (N + 2) s' /\ kept s s'.
Proof.
  intros Hm Hw Hb HN Epr Hf Hnew. unfold binder_refs_command. rewrite Hm.
  set (inc := match cmd with BC_INCREFS | BC_ACQUIRE => true | _ => false end).
  assert (Hget : exists s1 r, match context_mgr_node s with
      | Some c => if (target =? 0) && inc then '(s, r) ← binder_get_ref_for_node s p c new; r ← r; Some (s, Some r) else r ← binder_get_ref s p target; Some (s, r)
      | None => r ← binder_get_ref s p target; Some (s, r)
      end = Some (s1, r) /\ wf s1 /\ bounded (N + 1) s1 /\ kept s s1 /\ forall x, r = Some x -> is_Some (refs s1 !! x)).
  { destruct (get_ref_ok s p pr target Hw Epr) as (r0 & E0 & Hr0).
    assert (Hplain : exists s1 r, (r ← binder_get_ref s p target; Some (s, r)) = Some (s1, r) /\ wf s1 /\ bounded (N + 1) s1 /\ kept s s1 /\ forall x, r = Some x -> is_Some (refs s1 !! x)).
    { rewrite E0. cbn [mbind option_bind]. exists s, r0. split; [done|]. split; [done|]. split; [by apply (bounded_weaken N); [lia|]|]. split; [apply kept_refl|].
      intros x Hx. apply Hr0 in Hx as [(_ & rf & Ex & _) _]. eauto. }
    destruct (context_mgr_node s) as [c|] eqn:Ec; [|exact Hplain]. destruct ((target =? 0) && inc) eqn:Et; [|exact Hplain].
    destruct (wc_context s (wf_c _ _ _ Hw) c Ec) as (cd & Ecd & _).
    destruct (get_ref_for_node_ok N s p c cd pr new Hw Hb ltac:(lia) Epr Ecd Hf) as (s1 & r & -> & Hw1 & Hb1 & Hk1 & _ & Hr). cbn [mbind option_bind].
    apply andb_true_iff in Et as [Et _]. apply Z.eqb_eq in Et. destruct r as [r|]; [|exfalso; destruct Hr as [Hr _], Hnew; done].
    cbn [mbind option_bind]. exists s1, (Some r). split_and!; try done. intros x [= <-].
    destruct Hr as [(-> & (_ & rf & Ex & _) & _)|(_ & _ & d & _ & ->)]; [eauto|rewrite lookup_insert_eq; eauto]. }
  destruct Hget as (s1 & r & -> & Hw1 & Hb1 & Hk1 & Hr). cbn [mbind option_bind].
  destruct r as [r|]; [|exists s1; split_and!; try done; apply (bounded_weaken (N + 1)); [lia|done]]. destruct (Hr r eq_refl) as [rf Er].
  assert (Hinc : forall st, exists s', ('(s, _) ← binder_inc_ref s1 r st None; Some s) = Some s' /\ wf s' /\ bounded (N + 2) s' /\ kept s s').
  { intros st. destruct (inc_ref_ok (N + 1) s1 r rf st None Hw1 Hb1 ltac:(lia) Er ltac:(done)) as (s' & ret & -> & A1 & A2 & A3 & _). cbn [mbind option_bind]. exists s'. split; [done|]. split; [done|].
    split; [|by apply (kept_trans _ s1)]. by replace (N + 2) with (N + 1 + 1) by lia. }
  assert (Hdec : forall st, exists s', ('(s, _) ← binder_dec_ref s1 r st; Some s) = Some s' /\ wf s' /\ bounded (N + 2) s' /\ kept s s').
  { intros st. destruct (dec_ref_ok (N + 1) s1 r rf st Hw1 Hb1 Er) as (s' & ret & -> & A1 & A2 & A3 & _). cbn [mbind option_bind]. exists s'. split; [done|]. split; [done|].
    split; [|by apply (kept_trans _ s1)]. apply (bounded_weaken (N + 1)); [lia|done]. }
  destruct cmd; auto.
Qed.

(** The messages change nothing. *)
Lemma refs_command_quiet mask s p cmd target new s' : binder_refs_command mask s p cmd target new = Some s' -> binder_refs_command 0 s p cmd target new = Some s'.
Proof.
  unfold binder_refs_command. change (debug_user_refs 0) with false. cbv iota. set (g := match context_mgr_node s with Some _ => _ | None => _ end). destruct g as [[s1 [r|]]|]; cbn [mbind option_bind]; [|done|done].
  set (c := match cmd with BC_INCREFS => _ | _ => _ end). destruct c as [[s2 ret]|]; cbn [mbind option_bind]; [|done]. destruct (debug_user_refs mask); [|done].
  destruct (refs s2 !! r) as [rf|]; cbn [mbind option_bind]; [|done]. by destruct (nodes s2 !! r_node rf).
Qed.

Lemma done_command_quiet mask s p acquire ptr cookie s' : binder_done_command mask s p acquire ptr cookie = Some s' -> binder_done_command 0 s p acquire ptr cookie = Some s'.
Proof.
  unfold binder_done_command. change (debug_user_refs 0) with false. cbv iota. destruct (binder_get_node s p ptr) as [[n|]|]; cbn [mbind option_bind]; [|done|done].
  destruct (nodes s !! n) as [nd|]; cbn [mbind option_bind]; [|done]. destruct (negb (cookie =? _)); [done|]. destruct (negb (if acquire then _ else _)); [done|]. cbv zeta.
  destruct (binder_dec_node _ n acquire false) as [s1|]; cbn [mbind option_bind]; [|done]. destruct (debug_user_refs mask); [|done]. by destruct (nodes s1 !! n).
Qed.

(** Bounds after a step at one node *)
Lemma bounded_node_step N M s s' n nd :
  bounded N s -> N <= M -> node_step s s' n ->
  (forall md, nodes s' !! n = Some md -> local_strong_refs md <= M /\ local_weak_refs md <= M) -> nodes s !! n = Some nd -> bounded M s'.
Proof.
  intros [B1 B2 B3] HNM Hst Hn E. split; rewrite ?(ns_refs _ _ _ Hst).
  - intros m md Em. destruct (decide (m = n)) as [->|]; [by apply Hn|]. rewrite (ns_others _ _ _ Hst) in Em by done. destruct (B1 m md Em). lia.
  - intros r rf Er. destruct (B2 r rf Er) as (? & ? & ?). lia.
  - lia.
Qed.

(** Local counts: an increment, and a decrement of a count that is held. *)
Lemma local_dec_ok N s n nd strong :
  wf s -> bounded N s -> nodes s !! n = Some nd -> covered s n (counted nd strong false (-1)) ->
  exists s', binder_dec_node s n strong false = Some s' /\ wf s' /\ bounded N s' /\ node_step s s' n.
Proof.
  intros Hw Hb E Hc. pose proof (wf_internal_nonneg _ _ _ _ _ Hw E ltac:(done)) as Hi. destruct (dec_node_ok none_off None s n nd strong false Hw E Hc Hi) as (s' & E' & Hw' & Hst & Hn).
  exists s'. split; [done|]. split; [unfold shifted in Hw'; by rewrite andb_false_r in Hw'|]. split; [|done]. apply (bounded_node_step N N s s' n nd); [done|lia|done| |done].
  intros md Em. destruct (bd_node N s Hb n nd E). destruct Hn as [Hn|[Hn _]]; rewrite Hn in Em; [|done]. injection Em as <-. unfold counted. simpl. destruct strong; simpl; lia.
Qed.

Lemma local_inc_ok N s n nd strong target :
  wf s -> bounded N s -> N < INT_MAX -> nodes s !! n = Some nd -> (forall l, target = Some l -> exists p, n_proc nd = Some p /\ work_list s p l) ->
  exists s' ret, binder_inc_node s n strong false target = Some (s', ret) /\ wf s' /\ bounded (N + 1) s' /\ node_step s s' n /\ nodes s' !! n = Some (counted nd strong false 1).
Proof.
  intros Hw Hb HN E Ht. destruct (bd_node N s Hb n nd E) as [B1 B2]. pose proof (internal_bound _ _ _ _ _ Hw E) as B3. pose proof (bd_size N s Hb). unfold none_off in B3.
  destruct (inc_node_ok none_off None s n nd strong false target Hw E Ht) as (s' & ret & E' & Hst & Hr); [lia|lia|lia|]. exists s', ret. split; [done|].
  assert (Hs : shifted none_off n strong false 1 = none_off) by (unfold shifted; by rewrite andb_false_r). rewrite Hs in Hr.
  assert (Hn : wf s' /\ nodes s' !! n = Some (counted nd strong false 1)).
  { destruct Hr as [(_ & Hw' & Hn)|(_ & _ & Hf & _ & Hw' & Hn)]; [done|]. split; [done|]. destruct strong; [|done]. by specialize (Hf eq_refl). }
  destruct Hn as [Hw' Em]. split; [done|]. split; [|done].
  apply (bounded_node_step N (N + 1) s s' n nd); [done|lia|done| |done]. rewrite Em. intros ? [= <-]. unfold counted. destruct strong; simpl; lia.
Qed.

Lemma done_command_ok mask N s p pr acquire ptr cookie :
  debug_user_refs mask = false -> wf s -> bounded N s -> procs s !! p = Some pr ->
  exists s', binder_done_command mask s p acquire ptr cookie = Some s' /\ wf s' /\ bounded N s'.
Proof.
  intros Hm Hw Hb Epr. unfold binder_done_command. rewrite Hm. destruct (get_node_ok s p pr ptr Hw Epr) as (r & -> & Hr). cbn [mbind option_bind]. destruct r as [n|]; [|eauto].
  destruct (proj1 (Hr n) eq_refl) as [(nd & E & Hp) _]. rewrite E. cbn [mbind option_bind]. destruct (negb (cookie =? n_cookie nd)); [eauto|].
  destruct (if acquire then pending_strong_ref nd else pending_weak_ref nd) eqn:Epend; cbn [negb]; [|eauto].
  set (nd1 := if acquire then _ else _). destruct (wf_covered _ _ _ _ _ Hw E) as (H1 & H2 & H3). specialize (H3 ltac:(congruence)).
  assert (F : n_proc nd1 = n_proc nd /\ nkey nd1 = nkey nd /\ lkey nd1 = lkey nd /\ local_strong_refs nd1 = local_strong_refs nd /\ local_weak_refs nd1 = local_weak_refs nd /\
    b2z (pending_strong_ref nd1) = b2z (pending_strong_ref nd) - (if acquire then 1 else 0) /\ b2z (pending_weak_ref nd1) = b2z (pending_weak_ref nd) - (if acquire then 0 else 1))
    by (unfold nd1; destruct acquire; rewrite Epend; simpl; split_and!; try done; lia).
  destruct F as (F1 & F2 & F3 & F4 & F5 & F6 & F7).
  assert (Hw1 : wf (set_node s n nd1)) by (apply (wf_set_local none_off None s n nd); try done; rewrite ?F4, ?F5; [done|done|]; intros _; rewrite F6, F7; destruct acquire; lia).
  assert (Hb1 : bounded N (set_node s n nd1)).
  { apply (bounded_node_step N N s _ n nd); [done|lia|apply node_step_set| |done]. simpl. rewrite lookup_insert_eq. intros md [= <-]. rewrite F4, F5. by apply (bd_node N s Hb n). }
  destruct (local_dec_ok N (set_node s n nd1) n nd1 acquire Hw1 Hb1) as (s' & E' & Hw' & Hb' & _); [simpl; apply lookup_insert_eq| |rewrite E'; cbn [mbind option_bind]; eauto].
  unfold covered, counted. change (context_share (set_node s n nd1) n) with (context_share s n). simpl. rewrite F1, F4, F5, F6, F7.
  assert (0 <= context_share s n) by (unfold context_share; destruct (is_context s n); lia). destruct acquire; simpl in *; rewrite Epend in H3; simpl in H3; split_and!; try lia;
    unfold b2z in *; destruct (pending_strong_ref nd), (pending_weak_ref nd); lia.
Qed.

Lemma set_context_ok N s p pr uid euid new :
  wf s -> bounded N s -> 1 <= N -> procs s !! p = Some pr -> (forall n, new = Some n -> fresh s n) ->
  exists s' uid' ret, binder_set_context_mgr s uid p euid new = Some (s', uid', ret) /\ wf s' /\ bounded N s' /\
    (ret = 0 -> exists n, context_mgr_node s' = Some n /\ node_of s' p n).
Proof.
  intros Hw Hb HN Epr Hf. unfold binder_set_context_mgr. destruct (context_mgr_node s) as [c|] eqn:Ec; [eexists _, _, _; split_and!; [done|done|done|unfold EBUSY; lia]|].
  destruct (negb (uid =? u32 (-1)) && negb (uid =? euid)); [eexists _, _, _; split_and!; [done|done|done|unfold EPERM; lia]|].
  destruct (new_node_ok N s p pr 0 0 new Hw Hb ltac:(lia) Epr Hf) as (s1 & r & -> & Hw1 & Hb1 & Er1 & _ & Ec1 & _ & _ & Hr). cbn [mbind option_bind].
  destruct r as [n|]; [|eexists _, _, _; split_and!; [done|done|done|unfold ENOMEM; lia]]. destruct Hr as (_ & En1 & _). rewrite En1, lookup_insert_eq. cbn [mbind option_bind]. simpl.
  set (nd := set_flags _ _ _ _ _). eexists _, _, _. split; [done|]. rewrite Ec in Ec1.
  assert (E1 : exists nd0, nodes s1 !! n = Some nd0 /\ nkey nd = nkey nd0 /\ lkey nd = lkey nd0) by (rewrite En1, lookup_insert_eq; by eexists).
  destruct E1 as (nd0 & E1 & K1 & K2). assert (Hp : n_proc nd = n_proc nd0) by (by injection K1). split; [|split].
  - assert (Hw2 : wf (set_node s1 n nd)).
    { apply (wf_set_local none_off None s1 n nd0); try done. intros _. unfold context_share, is_context. rewrite Ec1. done. }
    destruct Hw2 as [Ht Hk Hc Hwk Hd]. split; [revert Ht; by apply trees_ext|revert Hk; by apply links_ext| |revert Hwk; by apply works_ext|revert Hd; by apply deaths_ext].
    destruct Hc as [C1 C2 C3]. split; simpl.
    + exact C1.
    + intros m md Em Hm. specialize (C2 m md Em Hm). unfold context_share, is_context in *. simpl in *. rewrite Ec1 in C2. destruct (decide (m = n)) as [->|Hne].
      * rewrite lookup_insert_eq in Em. injection Em as <-. unfold nd. simpl. rewrite bool_decide_eq_true_2 by done. lia.
      * rewrite bool_decide_eq_false_2 by congruence. rewrite bool_decide_eq_false_2 in C2 by done. done.
    + intros m [= <-]. exists nd. rewrite lookup_insert_eq. done.
  - assert (Hb2 : bounded N (set_node s1 n nd)).
    { apply (bounded_node_step N N s1 (set_node s1 n nd) n nd0); [done|lia|apply node_step_set| |done]. simpl. rewrite lookup_insert_eq. intros md [= <-]. unfold nd. simpl. lia. }
    by destruct Hb2; split.
  - intros _. exists n. split; [done|]. exists nd. simpl. by rewrite lookup_insert_eq.
Qed.

(** The work of a node of the process that reads *)
Lemma work_node_ok N s p n nd :
  wf s -> bounded N s -> N < INT_MAX -> nodes s !! n = Some nd -> n_proc nd = Some p ->
  exists s' c, binder_work_node s p n = Some (s', c) /\ wf s' /\ bounded (N + 1) s'.
Proof.
  intros Hw Hb HN E Hp. destruct (wf_covered _ _ _ _ _ Hw E) as (H1 & H2 & H3). specialize (H3 ltac:(congruence)). destruct (bd_node N s Hb n nd E) as [B1 B2].
  assert (Hset : forall nd', nkey nd' = nkey nd -> lkey nd' = lkey nd -> local_strong_refs nd <= local_strong_refs nd' <= N + 1 -> local_weak_refs nd <= local_weak_refs nd' <= N + 1 ->
    b2z (pending_strong_ref nd') <= b2z (pending_strong_ref nd) + (local_strong_refs nd' - local_strong_refs nd) ->
    b2z (pending_weak_ref nd') <= b2z (pending_weak_ref nd) + (local_weak_refs nd' - local_weak_refs nd) -> wf (set_node s n nd') /\ bounded (N + 1) (set_node s n nd')).
  { intros nd' K1 K2 L1 L2 P1 P2. split; [apply (wf_set_local none_off None s n nd); try done; [lia|lia|intros _; lia]|].
    apply (bounded_node_step N (N + 1) s _ n nd); [done|lia|apply node_step_set| |done]. simpl. rewrite lookup_insert_eq. intros md [= <-]. lia. }
  unfold binder_work_node. rewrite E. cbn [mbind option_bind].
  set (strong := negb (internal_strong_refs nd =? 0) || negb (local_strong_refs nd =? 0)). set (weak := negb (bool_decide (n_refs nd = [])) || negb (local_weak_refs nd =? 0) || strong).
  destruct (weak && negb (has_weak_ref nd)); [|destruct (strong && negb (has_strong_ref nd)); [|destruct (negb strong && has_strong_ref nd); [|destruct (negb weak && has_weak_ref nd)]]].
  - unfold incr. rewrite (proj2 (Z.ltb_lt _ _)) by lia. cbn [mbind option_bind]. eexists _, _. split; [done|]. apply Hset; simpl; try done; try lia. destruct (pending_weak_ref nd); simpl; lia.
  - unfold incr. rewrite (proj2 (Z.ltb_lt _ _)) by lia. cbn [mbind option_bind]. eexists _, _. split; [done|]. apply Hset; simpl; try done; try lia. destruct (pending_strong_ref nd); simpl; lia.
  - eexists _, _. split; [done|]. apply Hset; simpl; try done; lia.
  - eexists _, _. split; [done|]. apply Hset; simpl; try done; lia.
  - destruct (wf_unqueue none_off None s n Hw) as [Hu Hu0]. set (s1 := set_wl s _) in *. assert (Hb1 : bounded (N + 1) s1) by (apply (bounded_weaken N); [lia|]; by destruct Hb; split).
    destruct (negb weak && negb strong) eqn:Ew; [|eauto]. apply andb_true_iff in Ew as [Ew Es]. unfold weak in Ew. apply negb_true_iff, orb_false_iff in Ew as [[Er El]%orb_false_iff _].
    apply negb_false_iff, bool_decide_eq_true in Er. apply negb_false_iff, Z.eqb_eq in El. destruct (wf_proc_of _ _ _ _ _ _ Hw E Hp) as [pr Epr].
    destruct (wf_free_alive none_off None s1 n nd p pr Hu E Hp Epr Er Hu0) as (t & Et & Hw2).
    { simpl. intros Hc. unfold context_share, is_context in H3. rewrite bool_decide_eq_true_2 in H3 by done. unfold b2z in H3. destruct (pending_weak_ref nd); lia. }
    simpl. rewrite Epr. cbn [mbind option_bind]. rewrite Et. cbn [mbind option_bind]. eexists _, _. split; [done|]. split; [exact Hw2|].
    destruct Hb1 as [A1 A2 A3]. split; simpl; [|done|done]. intros m md [_ Em]%lookup_delete_Some. by apply (A1 m).
Qed.

End BinderRef.
