(* ===== verification/BinderDeath.v ===== *)
(** * drivers/staging/android/binder.c: death notifications and the death of a process

    The commands with which a process asks for a death notification of a reference and
    clears it, the works that deliver it, and the release of a process: its nodes die, the
    holders of references to them are told, its own references are deleted.  Then all
    operations on nodes, references and notifications together, from the empty state. *)
From stdpp Require Import sorting.
From S2P Require Import Prelude Rbtree OrdTree BinderRef.
Import OrdTree BinderRef.

Module BinderDeath.

(** ** Death notifications

    [thread_todo] is the list of the calling thread when it is a looper; otherwise the list
    of the process is used. *)
Definition binder_request_death (s : state) (p target cookie : Z) (new thread_todo : option Z) : option state :=
  pr ← procs s !! p;
  r ← binder_get_ref s p target;
  match r with
  | None => Some s
  | Some r =>
      rf ← refs s !! r;
      match death rf, new with
      | Some _, _ | None, None => Some s
      | None, Some d =>
          nd ← nodes s !! r_node rf;
          let s := set_ref s r (set_ref_death rf (Some d)) in
          match n_proc nd with
          | Some _ => Some (set_death s d (mkdeath cookie None))
          | None =>
              w ← list_add_tail (wl s) d (default (todo pr) thread_todo);
              Some (set_wl (set_death s d (mkdeath cookie (Some DEAD_BINDER))) w)
          end
      end
  end.

Definition binder_clear_death (s : state) (p target cookie : Z) (thread_todo : option Z) : option state :=
  pr ← procs s !! p;
  r ← binder_get_ref s p target;
  match r with
  | None => Some s
  | Some r =>
      rf ← refs s !! r;
      match death rf with
      | None => Some s
      | Some d =>
          dd ← deaths s !! d;
          if negb (d_cookie dd =? cookie) then Some s
          else
            let s := set_ref s r (set_ref_death rf None) in
            if list_empty (wl s) d then
              w ← list_add_tail (wl s) d (default (todo pr) thread_todo);
              Some (set_wl (set_death s d (mkdeath (d_cookie dd) (Some CLEAR_DEATH_NOTIFICATION))) w)
            else
              match d_type dd with
              | Some DEAD_BINDER => Some (set_death s d (mkdeath (d_cookie dd) (Some DEAD_BINDER_AND_CLEAR)))
              | _ => None
              end
      end
  end.

(** The first delivered notification with this cookie. *)
Fixpoint find_delivered (s : state) (cookie : Z) (L : list Z) : option (option Z) :=
  match L with
  | [] => Some None
  | d :: L => dd ← deaths s !! d; if d_cookie dd =? cookie then Some (Some d) else find_delivered s cookie L
  end.

Definition binder_dead_binder_done (s : state) (p cookie : Z) (thread_todo : option Z) : option state :=
  pr ← procs s !! p;
  L ← lists (wl s) !! delivered_death pr;
  r ← find_delivered s cookie L;
  match r with
  | None => Some s
  | Some d =>
      dd ← deaths s !! d;
      let s := set_wl s (list_del_init (wl s) d) in
      match d_type dd with
      | Some DEAD_BINDER_AND_CLEAR =>
          w ← list_add_tail (wl s) d (default (todo pr) thread_todo);
          Some (set_wl (set_death s d (mkdeath (d_cookie dd) (Some CLEAR_DEATH_NOTIFICATION))) w)
      | _ => Some s
      end
  end.

(** The works of death notifications in [binder_thread_read], after the command is written
    to user space *)
Definition binder_work_death (s : state) (p d : Z) : option (state * br_cmd) :=
  pr ← procs s !! p;
  dd ← deaths s !! d;
  match d_type dd with
  | Some CLEAR_DEATH_NOTIFICATION => Some (del_death (set_wl s (list_del_init (wl s) d)) d, BR_CLEAR_DEATH_NOTIFICATION_DONE)
  | _ => w ← list_add (list_del_init (wl s) d) d (delivered_death pr); Some (set_wl s w, BR_DEAD_BINDER)
  end.

(** A thread takes the first work of its own list, else of the list of the process. *)
Definition binder_read_work (s : state) (p thread_todo : Z) (wait_for_proc_work : bool) : option (state * br_cmd) :=
  pr ← procs s !! p;
  L ← lists (wl s) !! thread_todo;
  w ← match L with
      | w :: _ => Some (Some w)
      | [] => L ← lists (wl s) !! todo pr; Some (if wait_for_proc_work then head L else None)
      end;
  match w with
  | None => Some (s, BR_NOOP)
  | Some x => match nodes s !! x with Some _ => binder_work_node s p x | None => binder_work_death s p x end
  end.

(** ** The death of a process *)

(** The notifications of a node that dies. *)
Fixpoint notify_deaths (s : state) (l : list Z) : option state :=
  match l with
  | [] => Some s
  | r :: l =>
      rf ← refs s !! r;
      s ← match death rf with
          | None => Some s
          | Some d =>
              dd ← deaths s !! d;
              if list_empty (wl s) d then
                pr ← procs s !! r_proc rf;
                w ← list_add_tail (wl s) d (todo pr);
                Some (set_wl (set_death s d (mkdeath (d_cookie dd) (Some DEAD_BINDER))) w)
              else None
          end;
      notify_deaths s l
  end.

Definition release_node (s : state) (p n : Z) : option state :=
  pr ← procs s !! p;
  nd ← nodes s !! n;
  t ← Rbtree.erase n (nodes_t pr);
  let s := set_wl (set_proc s p (set_nodes_t pr t)) (list_del_init (wl s) n) in
  if bool_decide (n_refs nd = []) then Some (del_node s n)
  else
    let nd := mknode None (n_refs nd) (internal_strong_refs nd) 0 0 (n_ptr nd) (n_cookie nd)
                (has_strong_ref nd) (pending_strong_ref nd) (has_weak_ref nd) (pending_weak_ref nd) in
    notify_deaths (set_dead (set_node s n nd) (n :: dead_nodes s)) (n_refs nd).

Fixpoint release_nodes (fuel : nat) (s : state) (p : Z) : option state :=
  pr ← procs s !! p;
  match Rbtree.rb_first (nodes_t pr), fuel with
  | None, _ => Some s
  | Some _, O => None
  | Some n, S fuel => s ← release_node s p n; release_nodes fuel s p
  end.

Fixpoint release_refs (fuel : nat) (s : state) (p : Z) : option state :=
  pr ← procs s !! p;
  match Rbtree.rb_first (refs_by_desc pr), fuel with
  | None, _ => Some s
  | Some _, O => None
  | Some r, S fuel => s ← binder_delete_ref s r; release_refs fuel s p
  end.

(** [binder_release_work] takes every entry off the list. *)
Definition binder_release_work (w : worklists) (l : Z) : option worklists :=
  L ← lists w !! l;
  Some (fold_left list_del_init L w).

Definition release_works (w : worklists) (ls : list Z) : option worklists :=
  fold_left (fun w l => w ← w; binder_release_work w l) ls (Some w).

(** The list heads go with the memory of the process and its threads; entries that are
    still on one of them are not reachable any more. *)
Definition kfree_list (w : worklists) (l : Z) : worklists :=
  mkwl (delete l (lists w)) (filter (fun kv => kv.2 <> l) (on w)) (delete l (owner w)).

(** [threads]: the lists of the threads, released by [binder_free_thread]. *)
Definition binder_deferred_release (s : state) (p : Z) (threads : list Z) : option state :=
  pr ← procs s !! p;
  s ← match context_mgr_node s with
      | Some c => nd ← nodes s !! c; Some (if bool_decide (n_proc nd = Some p) then set_context s None else s)
      | None => Some s
      end;
  w ← release_works (wl s) threads;
  let s := set_wl s w in
  s ← release_nodes (length (Rbtree.elements (nodes_t pr))) s p;
  s ← release_refs (length (Rbtree.elements (refs_by_desc pr))) s p;
  w ← release_works (wl s) [todo pr];
  let s := set_wl s (fold_left kfree_list (threads ++ [todo pr; delivered_death pr]) w) in
  Some (mkstate (nodes s) (refs s) (deaths s) (delete p (procs s)) (wl s) (dead_nodes s) (context_mgr_node s)).

(** ** Steps at one notification *)

Definition rbkey (rf : binder_ref) := (rkey rf, rlkey rf).

(** A step at the notification [d]: nodes, processes and other notifications stay, and
    references change at most in the notification they have. *)
Record death_step (s s' : state) (d : Z) : Prop := {
  dt_nodes : nodes s' = nodes s;
  dt_procs : procs s' = procs s;
  dt_dead : dead_nodes s' = dead_nodes s;
  dt_context : context_mgr_node s' = context_mgr_node s;
  dt_refs : forall r, rbkey <$> refs s' !! r = rbkey <$> refs s !! r;
  dt_size : size (refs s') = size (refs s);
  dt_death : forall r rf x, refs s' !! r = Some rf -> death rf = Some x -> x <> d -> refs s !! r = Some rf;
  dt_wl : wl_ok (wl s');
  dt_owner : owner (wl s') = owner (wl s);
  dt_on : forall x, x <> d -> on (wl s') !! x = on (wl s) !! x;
  dt_deaths : forall x, x <> d -> deaths s' !! x = deaths s !! x }.

(** What [wf_deaths] asks of [d] *)
Definition death_at (s : state) (d : Z) : Prop :=
  (is_Some (on (wl s) !! d) -> is_Some (deaths s !! d)) /\
  (forall r rf, refs s !! r = Some rf -> death rf = Some d ->
    exists dd, deaths s !! d = Some dd /\
      (forall l, on (wl s) !! d = Some l -> owner (wl s) !! l = Some (r_proc rf) /\ d_type dd = Some DEAD_BINDER) /\
      (forall nd, nodes s !! r_node rf = Some nd -> n_proc nd <> None -> on (wl s) !! d = None)) /\
  (forall r r' rf rf', refs s !! r = Some rf -> refs s !! r' = Some rf' -> death rf = Some d -> death rf' = Some d -> r = r').

Lemma wf_death_step off gone s s' d :
  wf_ off gone s -> death_step s s' d -> nodes s !! d = None -> death_at s' d -> wf_ off gone s'.
Proof.
  intros [Ht Hk Hc Hw Hd] [En Ep Edn Ec Er _ Edth Ewl Eo Eon Edd] Hnd (A1 & A2 & A3).
  assert (Er1 : forall r, rkey <$> refs s' !! r = rkey <$> refs s !! r) by (intros r; specialize (Er r); destruct (refs s' !! r), (refs s !! r); try done; simpl in *; unfold rbkey in *; congruence).
  assert (Er2 : forall r, rlkey <$> refs s' !! r = rlkey <$> refs s !! r) by (intros r; specialize (Er r); destruct (refs s' !! r), (refs s !! r); try done; simpl in *; unfold rbkey in *; congruence).
  split; [apply (trees_ext s); [by rewrite En|done|done|done]|apply (links_ext s); [by rewrite En|done|done|done]|apply (local_ext s); [by rewrite En|done|done]| |].
  - destruct Hw as [W1 W2 W3 W4 W5]. split; rewrite ?En, ?Ep, ?Eo; [done| | |exact W4|].
    + intros x l El. destruct (decide (x = d)) as [->|Hx]; [right; apply A1; eauto|]. rewrite Edd by done. rewrite Eon in El by done. by apply (W2 x l).
    + intros n nd l Em El. rewrite Eon in El by congruence. by apply (W3 n nd l).
    + intros x Hx. rewrite Edd; [by apply W5|]. intros ->. rewrite Hnd in Hx. by destruct Hx.
  - destruct Hd as [D1 D2]. split.
    + intros r rf x E Ex. destruct (decide (x = d)) as [->|Hx]; [by apply (A2 r)|]. pose proof (Edth r rf x E Ex Hx) as E0. rewrite Edd, Eon, Eo, En by done. by apply (D1 r).
    + intros r r' rf rf' x E E' Ex Ex'. destruct (decide (x = d)) as [->|Hx]; [by apply (A3 r r' rf rf')|].
      apply (D2 r r' rf rf' x); [by apply (Edth r rf x)|by apply (Edth r' rf' x)|done|done].
Qed.

Lemma bounded_death_step N s s' d : bounded N s -> death_step s s' d -> bounded N s'.
Proof.
  intros [B1 B2 B3] [En Ep Edn Ec Er Esz _ _ _ _ _]. split; [by rewrite En| |by rewrite Esz].
  intros r rf E. destruct (fmap_eq_Some _ _ _ _ (eq_sym (Er r)) E) as (rf0 & E0 & H). destruct (B2 r rf0 E0) as (? & ? & ?).
  unfold rbkey, rkey, rlkey in H. injection H as _ _ <- _ <- <-. done.
Qed.

(** The list of the thread, when given, is one of the process. *)
Definition thread_ok (s : state) (p : Z) (thread : option Z) : Prop := forall l, thread = Some l -> work_list s p l.

Lemma target_list s p pr thread : wf s -> procs s !! p = Some pr -> thread_ok s p thread -> work_list s p (default (todo pr) thread).
Proof. intros Hw Epr Ht. destruct thread as [l|]; simpl; [by apply Ht|by apply (todo_work_list none_off None)]. Qed.

Lemma list_of s p l : wf s -> owner (wl s) !! l = Some p -> exists L, lists (wl s) !! l = Some L.
Proof. intros Hw Hl. apply (wo_owner _ (ww_wl s (wf_w _ _ _ Hw))). eauto. Qed.

(** ** Asking and clearing *)

Lemma fresh_off s x : wf s -> fresh s x -> on (wl s) !! x = None.
Proof.
  intros Hw (H1 & _ & H3). destruct (on (wl s) !! x) as [l|] eqn:E; [|done]. destruct (ww_on s (wf_w _ _ _ Hw) x l E) as [[? H]|[? H]]; congruence.
Qed.

Lemma owned_exists s r rf d : wf s -> refs s !! r = Some rf -> death rf = Some d -> exists dd, deaths s !! d = Some dd.
Proof. intros Hw E Ed. destruct (wd_death s (wf_d _ _ _ Hw) r rf d E Ed) as (dd & H & _). eauto. Qed.

Lemma death_not_node s d : wf s -> is_Some (deaths s !! d) -> nodes s !! d = None.
Proof. intros Hw Hd. destruct (nodes s !! d) as [nd|] eqn:E; [|done]. rewrite (ww_kinds s (wf_w _ _ _ Hw) d) in Hd by eauto. by destruct Hd. Qed.

Lemma owner_unique s r r' rf rf' d : wf s -> refs s !! r = Some rf -> refs s !! r' = Some rf' -> death rf = Some d -> death rf' = Some d -> r = r'.
Proof. intros Hw. apply (wd_inj s (wf_d _ _ _ Hw)). Qed.

(** The reference [r] gets or loses the notification [d]. *)
Lemma death_step_ref s r rf d o w ds :
  refs s !! r = Some rf -> (o = None \/ o = Some d) -> wl_ok w -> owner w = owner (wl s) -> (forall x, x <> d -> on w !! x = on (wl s) !! x) ->
  (forall x, x <> d -> ds !! x = deaths s !! x) ->
  death_step s (mkstate (nodes s) (<[r := set_ref_death rf o]> (refs s)) ds (procs s) w (dead_nodes s) (context_mgr_node s)) d.
Proof.
  intros E Ho Hw How Hon Hds. split; simpl; try done.
  - by apply insert_key with rf.
  - by apply refs_insert_size with rf.
  - intros r' rf' x E' Ex Hx. destruct (decide (r' = r)) as [->|]; [|by rewrite lookup_insert_ne in E']. rewrite lookup_insert_eq in E'. injection E' as <-. simpl in Ex. destruct Ho; congruence.
Qed.

Lemma death_step_wl s d w ds :
  wl_ok w -> owner w = owner (wl s) -> (forall x, x <> d -> on w !! x = on (wl s) !! x) -> (forall x, x <> d -> ds !! x = deaths s !! x) ->
  death_step s (mkstate (nodes s) (refs s) ds (procs s) w (dead_nodes s) (context_mgr_node s)) d.
Proof. intros Hw How Hon Hds. by split. Qed.

(** The references of the process [p] with this descriptor, at most one *)
Definition ref_at (s : state) (p target r : Z) (rf : binder_ref) : Prop := refs s !! r = Some rf /\ r_proc rf = p /\ desc rf = target.

Lemma get_ref_at s p pr d :
  wf s -> procs s !! p = Some pr -> exists o, binder_get_ref s p d = Some o /\ match o with Some r => exists rf, ref_at s p d r rf /\ forall r' rf', ref_at s p d r' rf' -> r' = r | None => forall r rf, ~ ref_at s p d r rf end.
Proof.
  intros Hw Epr. destruct (get_ref_ok s p pr d Hw Epr) as (o & -> & Ho). exists o. split; [done|].
  assert (Hat : forall r rf, ref_at s p d r rf -> o = Some r) by (intros r rf (E & Hp & Hd); apply Ho; split; [split; [done|by exists rf]|unfold desc_of; by rewrite E]).
  destruct o as [r|]; [|intros r rf H; by specialize (Hat r rf H)]. destruct (proj1 (Ho r) eq_refl) as [(_ & rf & E & Hp) Hd]. unfold desc_of in Hd. rewrite E in Hd.
  exists rf. split; [done|]. intros r' rf' H. specialize (Hat r' rf' H). congruence.
Qed.

(** The first request of a reference makes a notification, queued when the node is dead;
    any other leaves the state alone. *)
Lemma request_death_ok N s p pr target cookie new thread :
  wf s -> bounded N s -> procs s !! p = Some pr -> thread_ok s p thread -> (forall d, new = Some d -> fresh s d) ->
  exists s', binder_request_death s p target cookie new thread = Some s' /\ wf s' /\ bounded N s' /\
    ((s' = s /\ (new = None \/ forall r rf, ref_at s p target r rf -> death rf <> None)) \/
     exists d r rf nd, new = Some d /\ death_step s s' d /\ ref_at s p target r rf /\ death rf = None /\ refs s' = <[r := set_ref_death rf (Some d)]> (refs s) /\
      nodes s !! r_node rf = Some nd /\
      match n_proc nd with
      | Some _ => deaths s' !! d = Some (mkdeath cookie None) /\ on (wl s') !! d = None
      | None => deaths s' !! d = Some (mkdeath cookie (Some DEAD_BINDER)) /\ on (wl s') !! d = Some (default (todo pr) thread)
      end).
Proof.
  intros Hw Hb Epr Hth Hf. unfold binder_request_death. rewrite Epr. cbn [mbind option_bind]. destruct (get_ref_at s p pr target Hw Epr) as (ro & -> & Hr). cbn [mbind option_bind].
  destruct ro as [r|]; [|exists s; split_and!; try done; left; split; [done|]; right; intros r rf H; by apply Hr in H]. destruct Hr as (rf & Hat & Hun0). pose proof Hat as (E & Hp & Hde). rewrite E. cbn [mbind option_bind].
  destruct (death rf) eqn:Ed; [exists s; split_and!; try done; left; split; [done|]; right; intros r' rf' H; rewrite (Hun0 r' rf' H) in H; destruct H as (E' & _); congruence|].
  destruct new as [d|]; [|exists s; split_and!; try done; left; split; [done|]; by left].
  destruct (wk_ref s _ None (wf_k _ _ _ Hw) r rf ltac:(done) E) as ((nd & En & _) & _). rewrite En. cbn [mbind option_bind].
  specialize (Hf d eq_refl). pose proof (fresh_off s d Hw Hf) as Hoff. pose proof Hf as (F1 & F2 & F3).
  assert (Hun : forall r' rf', <[r := set_ref_death rf (Some d)]> (refs s) !! r' = Some rf' -> death rf' = Some d -> r' = r /\ rf' = set_ref_death rf (Some d)).
  { intros r' rf' E' Ed'. destruct (decide (r' = r)) as [->|Hne]; [rewrite lookup_insert_eq in E'; by injection E' as <-|]. rewrite lookup_insert_ne in E' by done.
    destruct (owned_exists s r' rf' d Hw E' Ed') as (dd & ?). congruence. }
  destruct (n_proc nd) as [q|] eqn:Eq.
  - eexists. split; [done|]. assert (Hst : death_step s (set_death (set_ref s r (set_ref_death rf (Some d))) d (mkdeath cookie None)) d).
    { apply (death_step_ref s r rf d (Some d)); [done|by right|apply Hw|done|done|]. intros x Hx. by rewrite lookup_insert_ne. }
    split; [apply (wf_death_step _ _ s _ d Hw Hst F1)|split; [by apply (bounded_death_step N s _ d)|]].
    + split_and!; simpl; [rewrite lookup_insert_eq; eauto| |intros r1 r2 rf1 rf2 E1 E2 D1 D2; by rewrite (proj1 (Hun r1 rf1 E1 D1)), (proj1 (Hun r2 rf2 E2 D2))].
      intros r' rf' E' Ed'. destruct (Hun r' rf' E' Ed') as [-> ->]. rewrite lookup_insert_eq, Hoff. eexists. split; [done|]. split; [done|done].
    + right. exists d, r, rf, nd. rewrite Eq. split_and!; try done; simpl; [by apply lookup_insert_eq].
  - pose proof (target_list s p pr thread Hw Epr Hth) as [Hl _]. destruct (list_of s p _ Hw Hl) as [L EL].
    destruct (list_add_tail_ok (wl s) d _ L (ww_wl s (wf_w _ _ _ Hw)) EL Hoff) as (w & Ew & O1 & O2 & O3). simpl. rewrite Ew. cbn [mbind option_bind].
    eexists. split; [done|]. assert (Hst : death_step s (set_wl (set_death (set_ref s r (set_ref_death rf (Some d))) d (mkdeath cookie (Some DEAD_BINDER))) w) d).
    { apply (death_step_ref s r rf d (Some d)); [done|by right|done|done|intros; by rewrite O2, lookup_insert_ne|]. intros x Hx. simpl. by rewrite lookup_insert_ne. }
    split; [apply (wf_death_step _ _ s _ d Hw Hst F1)|split; [by apply (bounded_death_step N s _ d)|]].
    + split_and!; simpl; [rewrite lookup_insert_eq; eauto| |intros r1 r2 rf1 rf2 E1 E2 D1 D2; by rewrite (proj1 (Hun r1 rf1 E1 D1)), (proj1 (Hun r2 rf2 E2 D2))].
      intros r' rf' E' Ed'. destruct (Hun r' rf' E' Ed') as [-> ->]. rewrite lookup_insert_eq, O2, lookup_insert_eq, O3. eexists. split; [done|]. simpl. split; [|congruence].
      intros l [= <-]. by rewrite Hl, Hp.
    + right. exists d, r, rf, nd. rewrite Eq. split_and!; try done; simpl; [by apply lookup_insert_eq|by rewrite O2, lookup_insert_eq].
Qed.

Lemma cleared_unowned s r rf d :
  wf s -> refs s !! r = Some rf -> death rf = Some d -> forall r' rf', <[r := set_ref_death rf None]> (refs s) !! r' = Some rf' -> death rf' <> Some d.
Proof.
  intros Hw E Ed r' rf' E' Ed'. destruct (decide (r' = r)) as [->|Hne]; [rewrite lookup_insert_eq in E'; by injection E' as <-|].
  rewrite lookup_insert_ne in E' by done. by apply Hne, (owner_unique s r' r rf' rf d).
Qed.

Lemma death_at_unowned s d : is_Some (deaths s !! d) -> (forall r rf, refs s !! r = Some rf -> death rf <> Some d) -> death_at s d.
Proof. intros H1 H2. split_and!; [done| |]; intros r rf; intros; exfalso; [by apply (H2 r rf)|eapply H2; eauto]. Qed.

(** Clearing takes the notification from the reference, with the right cookie only: a work
    that tells so is queued, or the queued work is marked. *)
Lemma clear_death_ok N s p pr target cookie thread :
  wf s -> bounded N s -> procs s !! p = Some pr -> thread_ok s p thread ->
  exists s', binder_clear_death s p target cookie thread = Some s' /\ wf s' /\ bounded N s' /\
    ((s' = s /\ forall r rf d, ref_at s p target r rf -> death rf = Some d -> d_cookie <$> deaths s !! d <> Some cookie) \/
     exists d r rf, death_step s s' d /\ ref_at s p target r rf /\ death rf = Some d /\ refs s' = <[r := set_ref_death rf None]> (refs s) /\
      (d_cookie <$> deaths s !! d = Some cookie) /\
      match on (wl s) !! d with
      | None => deaths s' !! d = Some (mkdeath cookie (Some CLEAR_DEATH_NOTIFICATION)) /\ on (wl s') !! d = Some (default (todo pr) thread)
      | Some l => deaths s' !! d = Some (mkdeath cookie (Some DEAD_BINDER_AND_CLEAR)) /\ on (wl s') !! d = Some l
      end).
Proof.
  intros Hw Hb Epr Hth. unfold binder_clear_death. rewrite Epr. cbn [mbind option_bind]. destruct (get_ref_at s p pr target Hw Epr) as (ro & -> & Hr). cbn [mbind option_bind].
  destruct ro as [r|]; [|exists s; split_and!; try done; left; split; [done|]; intros r rf d H; by apply Hr in H]. destruct Hr as (rf & Hat & Hun0). pose proof Hat as (E & Hp & Hde). rewrite E. cbn [mbind option_bind].
  assert (Hone : forall r' rf', ref_at s p target r' rf' -> rf' = rf) by (intros r' rf' H; rewrite (Hun0 r' rf' H) in H; destruct H as (E' & _); congruence).
  destruct (death rf) as [d|] eqn:Ed; [|exists s; split_and!; try done; left; split; [done|]; intros r' rf' d H; rewrite (Hone r' rf' H); congruence]. destruct (wd_death s (wf_d _ _ _ Hw) r rf d E Ed) as (dd & Edd & D1 & D2). rewrite Edd. cbn [mbind option_bind].
  destruct (Z.eqb_spec (d_cookie dd) cookie) as [Hck|]; cbn [negb]; [|exists s; split_and!; try done; left; split; [done|]; intros r' rf' d' H; rewrite (Hone r' rf' H), Ed; intros [= <-]; rewrite Edd; simpl; congruence].
  pose proof (cleared_unowned s r rf d Hw E Ed) as Hun. pose proof (death_not_node s d Hw ltac:(eauto)) as Hnn. unfold list_empty. cbn [wl set_ref].
  destruct (on (wl s) !! d) as [l|] eqn:Eon.
  - destruct (D1 l eq_refl) as [_ Ety]. rewrite Ety. eexists. split; [done|].
    assert (Hst : death_step s (set_death (set_ref s r (set_ref_death rf None)) d (mkdeath (d_cookie dd) (Some DEAD_BINDER_AND_CLEAR))) d).
    { apply (death_step_ref s r rf d None); [done|by left|apply Hw|done|done|]. intros x Hx. simpl. by rewrite lookup_insert_ne. }
    split; [apply (wf_death_step _ _ s _ d Hw Hst Hnn), death_at_unowned; [simpl; rewrite lookup_insert_eq; eauto|exact Hun]|]. split; [by apply (bounded_death_step N s _ d)|].
    right. exists d, r, rf. rewrite Edd, Eon. split_and!; try done; simpl; [by rewrite Hck|by rewrite lookup_insert_eq, Hck].
  - pose proof (target_list s p pr thread Hw Epr Hth) as [Hl _]. destruct (list_of s p _ Hw Hl) as [L EL].
    destruct (list_add_tail_ok (wl s) d _ L (ww_wl s (wf_w _ _ _ Hw)) EL Eon) as (w & Ew & O1 & O2 & O3). rewrite Ew. cbn [mbind option_bind]. eexists. split; [done|].
    assert (Hst : death_step s (set_wl (set_death (set_ref s r (set_ref_death rf None)) d (mkdeath (d_cookie dd) (Some CLEAR_DEATH_NOTIFICATION))) w) d).
    { apply (death_step_ref s r rf d None); [done|by left|done|done|intros; by rewrite O2, lookup_insert_ne|]. intros x Hx. simpl. by rewrite lookup_insert_ne. }
    split; [apply (wf_death_step _ _ s _ d Hw Hst Hnn), death_at_unowned; [simpl; rewrite lookup_insert_eq; eauto|exact Hun]|]. split; [by apply (bounded_death_step N s _ d)|].
    right. exists d, r, rf. rewrite Edd, Eon. split_and!; try done; simpl; [by rewrite Hck|by rewrite lookup_insert_eq, Hck|by rewrite O2, lookup_insert_eq].
Qed.

(** ** Delivery *)

Lemma find_delivered_ok s cookie L :
  (forall x, x ∈ L -> is_Some (deaths s !! x)) ->
  exists r, find_delivered s cookie L = Some r /\
    match r with
    | Some d => exists L1 L2, L = L1 ++ d :: L2 /\ (d_cookie <$> deaths s !! d = Some cookie) /\ forall x, x ∈ L1 -> d_cookie <$> deaths s !! x <> Some cookie
    | None => forall x, x ∈ L -> d_cookie <$> deaths s !! x <> Some cookie
    end.
Proof.
  induction L as [|d L IH]; intros H; simpl; [eexists; split; [done|]; set_solver|].
  destruct (H d ltac:(set_solver)) as [dd Ed]. rewrite Ed. cbn [mbind option_bind]. destruct (Z.eqb_spec (d_cookie dd) cookie) as [Hc|Hc].
  - exists (Some d). split; [done|]. exists [], L. rewrite Ed. simpl. split; [done|]. split; [by rewrite Hc|set_solver].
  - destruct IH as (r & -> & Hr); [intros; apply H; set_solver|]. exists r. split; [done|].
    assert (Hd : d_cookie <$> deaths s !! d <> Some cookie) by (rewrite Ed; simpl; congruence).
    destruct r as [x|]; [|intros y [->|Hy]%elem_of_cons; auto]. destruct Hr as (L1 & L2 & -> & Hx & Ho). exists (d :: L1), L2. split; [done|]. split; [done|].
    intros y [->|Hy]%elem_of_cons; auto.
Qed.

Lemma delivered_deaths s p pr L x :
  wf s -> procs s !! p = Some pr -> lists (wl s) !! delivered_death pr = Some L -> x ∈ L -> is_Some (deaths s !! x) /\ on (wl s) !! x = Some (delivered_death pr).
Proof.
  intros Hw Epr EL Hx. assert (Hon : on (wl s) !! x = Some (delivered_death pr)) by (apply (wo_on _ (ww_wl s (wf_w _ _ _ Hw))); eauto). split; [|done].
  destruct (ww_on s (wf_w _ _ _ Hw) x _ Hon) as [[nd En]|H]; [|done]. destruct (ww_node s (wf_w _ _ _ Hw) x nd _ En Hon) as (q & _ & _ & Hq). by destruct (Hq p pr Epr).
Qed.

(** The queued notification [d] of the process [p] moves to another of its lists, or off
    the lists. *)
Lemma wf_requeue s p d l dd w :
  wf s -> on (wl s) !! d = Some l -> owner (wl s) !! l = Some p -> deaths s !! d = Some dd -> wl_ok w -> owner w = owner (wl s) ->
  (forall x, x <> d -> on w !! x = on (wl s) !! x) -> (forall m, on w !! d = Some m -> owner (wl s) !! m = Some p) ->
  death_step s (set_wl s w) d /\ wf (set_wl s w).
Proof.
  intros Hw Hon Hl Ed Hwl How Hox Hd. assert (Hst : death_step s (set_wl s w) d) by (by apply death_step_wl). split; [done|].
  apply (wf_death_step _ _ s _ d Hw Hst); [by apply death_not_node; [done|eauto]|]. split_and!; simpl; [eauto| |by intros r r' rf rf'; apply (wd_inj s (wf_d _ _ _ Hw))].
  intros r rf E Ed'. destruct (wd_death s (wf_d _ _ _ Hw) r rf d E Ed') as (dd' & Edd & D1 & D2). exists dd'. split; [done|]. rewrite How. split.
  - intros m Em. destruct (D1 l Hon) as [H1 H2]. rewrite (Hd m Em). split; [congruence|done].
  - intros nd En Hp. specialize (D2 nd En Hp). congruence.
Qed.

Lemma queued_owner_type s d l dd r rf :
  wf s -> on (wl s) !! d = Some l -> deaths s !! d = Some dd -> refs s !! r = Some rf -> death rf = Some d -> d_type dd = Some DEAD_BINDER /\ owner (wl s) !! l = Some (r_proc rf).
Proof. intros Hw Hon Ed E Hd. destruct (wd_death s (wf_d _ _ _ Hw) r rf d E Hd) as (dd' & Edd & D1 & _). destruct (D1 l Hon). split; [congruence|done]. Qed.

(** The acknowledged notification leaves the delivered ones; when it was cleared meanwhile
    it is queued once more, to tell so. *)
Lemma dead_binder_done_ok N s p pr cookie thread :
  wf s -> bounded N s -> procs s !! p = Some pr -> thread_ok s p thread ->
  exists s', binder_dead_binder_done s p cookie thread = Some s' /\ wf s' /\ bounded N s' /\
    ((s' = s /\ forall x, on (wl s) !! x = Some (delivered_death pr) -> d_cookie <$> deaths s !! x <> Some cookie) \/
     exists d dd, death_step s s' d /\ deaths s !! d = Some dd /\ d_cookie dd = cookie /\ on (wl s) !! d = Some (delivered_death pr) /\ refs s' = refs s /\
      if bool_decide (d_type dd = Some DEAD_BINDER_AND_CLEAR)
      then deaths s' !! d = Some (mkdeath cookie (Some CLEAR_DEATH_NOTIFICATION)) /\ on (wl s') !! d = Some (default (todo pr) thread)
      else deaths s' = deaths s /\ on (wl s') !! d = None).
Proof.
  intros Hw Hb Epr Hth. unfold binder_dead_binder_done. rewrite Epr. cbn [mbind option_bind]. destruct (ww_proc s (wf_w _ _ _ Hw) p pr Epr) as (_ & Hdl & _).
  destruct (list_of s p _ Hw Hdl) as [L EL]. rewrite EL. cbn [mbind option_bind]. destruct (find_delivered_ok s cookie L) as (ro & -> & Hr); [intros x Hx; by apply (delivered_deaths s p pr L)|].
  cbn [mbind option_bind].
  destruct ro as [d|]; [|exists s; split_and!; try done; left; split; [done|]; intros x Hx; apply Hr; apply (wo_on _ (ww_wl s (wf_w _ _ _ Hw))) in Hx as (L' & EL' & Hx); congruence]. destruct Hr as (L1 & L2 & HL & Hck & _). destruct (delivered_deaths s p pr L d Hw Epr EL) as [[dd Ed] Hon]; [rewrite HL; set_solver|].
  rewrite Ed in Hck |- *. injection Hck as Hck. cbn [mbind option_bind]. destruct (list_del_init_ok (wl s) d (ww_wl s (wf_w _ _ _ Hw))) as (O1 & O2 & O3 & O4). set (w1 := list_del_init (wl s) d) in *.
  assert (Hox : forall x, x <> d -> on w1 !! x = on (wl s) !! x) by (intros x Hx; by rewrite O2, lookup_delete_ne). assert (Hod : on w1 !! d = None) by (rewrite O2; apply lookup_delete_eq).
  destruct (decide (d_type dd = Some DEAD_BINDER_AND_CLEAR)) as [Ety|Ety].
  - rewrite Ety. pose proof (target_list s p pr thread Hw Epr Hth) as [Hl _]. destruct (proj2 (O4 (default (todo pr) thread)) (list_of s p _ Hw Hl)) as [L' EL'].
    cbn [wl set_wl]. destruct (list_add_tail_ok w1 d _ L' O1 EL' Hod) as (w & Ew & P1 & P2 & P3). rewrite Ew. cbn [mbind option_bind]. eexists. split; [done|].
    match goal with |- wf ?x /\ _ => assert (Hst : death_step s x d) end.
    { apply (death_step_wl s d); simpl; [done|congruence|intros x Hx; rewrite P2, lookup_insert_ne by done; auto|]. intros x Hx. by rewrite lookup_insert_ne. }
    split; [apply (wf_death_step _ _ s _ d Hw Hst); [by apply death_not_node; [done|eauto]|]; apply death_at_unowned; simpl; [rewrite lookup_insert_eq; eauto|]|split; [by apply (bounded_death_step N s _ d)|]].
    + intros r rf E Hd. destruct (queued_owner_type s d _ dd r rf Hw Hon Ed E Hd). congruence.
    + right. exists d, dd. rewrite bool_decide_eq_true_2 by done. split_and!; try done; simpl; [by rewrite lookup_insert_eq, Hck|by rewrite P2, lookup_insert_eq].
  - exists (set_wl s w1). split; [by destruct (d_type dd) as [[]|]|]. destruct (wf_requeue s p d _ dd w1 Hw Hon Hdl Ed O1 O3 Hox) as [Hst Hw']; [congruence|].
    split; [done|]. split; [by apply (bounded_death_step N s _ d)|]. right. exists d, dd. by rewrite bool_decide_eq_false_2.
Qed.

(** The work of a notification: a cleared one is freed, any other becomes a delivered one. *)
Lemma work_death_ok N s p pr d l dd :
  wf s -> bounded N s -> procs s !! p = Some pr -> on (wl s) !! d = Some l -> owner (wl s) !! l = Some p -> deaths s !! d = Some dd ->
  exists s' c, binder_work_death s p d = Some (s', c) /\ wf s' /\ bounded N s' /\ death_step s s' d /\
    if bool_decide (d_type dd = Some CLEAR_DEATH_NOTIFICATION)
    then c = BR_CLEAR_DEATH_NOTIFICATION_DONE /\ deaths s' !! d = None /\ on (wl s') !! d = None
    else c = BR_DEAD_BINDER /\ s' = set_wl s (wl s') /\ on (wl s') !! d = Some (delivered_death pr).
Proof.
  intros Hw Hb Epr Hon Hl Ed. unfold binder_work_death. rewrite Epr. cbn [mbind option_bind]. rewrite Ed. cbn [mbind option_bind].
  destruct (ww_proc s (wf_w _ _ _ Hw) p pr Epr) as (_ & Hdl & _). destruct (list_del_init_ok (wl s) d (ww_wl s (wf_w _ _ _ Hw))) as (O1 & O2 & O3 & O4). set (w1 := list_del_init (wl s) d) in *.
  assert (Hox : forall x, x <> d -> on w1 !! x = on (wl s) !! x) by (intros x Hx; by rewrite O2, lookup_delete_ne). assert (Hod : on w1 !! d = None) by (rewrite O2; apply lookup_delete_eq).
  assert (Hnn : nodes s !! d = None) by (apply death_not_node; [done|eauto]). destruct (decide (d_type dd = Some CLEAR_DEATH_NOTIFICATION)) as [Ety|Ety].
  - rewrite Ety, bool_decide_eq_true_2 by done. eexists _, _. split; [done|]. assert (Hst : death_step s (del_death (set_wl s w1) d) d).
    { apply (death_step_wl s d); simpl; [done|done|done|]. intros x Hx. by rewrite lookup_delete_ne. }
    split; [|split; [by apply (bounded_death_step N s _ d)|simpl; by rewrite lookup_delete_eq]]. apply (wf_death_step _ _ s _ d Hw Hst Hnn). simpl.
    assert (Hno : forall r rf, refs s !! r = Some rf -> death rf <> Some d) by (intros r rf E Hd; destruct (queued_owner_type s d l dd r rf Hw Hon Ed E Hd); congruence).
    split_and!; simpl; [rewrite Hod; by intros []| |]; intros r rf; intros; exfalso; eapply Hno; eauto.
  - destruct (proj2 (O4 (delivered_death pr)) (list_of s p _ Hw Hdl)) as [L' EL']. destruct (list_add_ok w1 d _ L' O1 EL' Hod) as (w & Ew & P1 & P2 & P3).
    destruct (wf_requeue s p d l dd w Hw Hon Hl Ed P1) as [Hst Hw']; [congruence|intros x Hx; rewrite P2, lookup_insert_ne by done; auto|rewrite P2, lookup_insert_eq; by intros m [= <-]|].
    rewrite bool_decide_eq_false_2 by done. exists (set_wl s w), BR_DEAD_BINDER. split; [destruct (d_type dd) as [[]|]; try done; rewrite Ew; done|]. split_and!; try done; [by apply (bounded_death_step N s _ d)|].
    simpl. by rewrite P2, lookup_insert_eq.
Qed.

Lemma read_first_ok N s p pr l L x :
  wf s -> bounded N s -> N < INT_MAX -> procs s !! p = Some pr -> owner (wl s) !! l = Some p -> lists (wl s) !! l = Some L -> x ∈ L ->
  exists s' c, match nodes s !! x with Some _ => binder_work_node s p x | None => binder_work_death s p x end = Some (s', c) /\ wf s' /\ bounded (N + 1) s'.
Proof.
  intros Hw Hb HN Epr Hl EL Hx. assert (Hon : on (wl s) !! x = Some l) by (apply (wo_on _ (ww_wl s (wf_w _ _ _ Hw))); eauto). destruct (nodes s !! x) as [nd|] eqn:En.
  - destruct (ww_node s (wf_w _ _ _ Hw) x nd l En Hon) as (q & Hq & Hq' & _). apply (work_node_ok N s p x nd); try done. congruence.
  - destruct (ww_on s (wf_w _ _ _ Hw) x l Hon) as [[? H]|[dd Ed]]; [congruence|]. destruct (work_death_ok N s p pr x l dd Hw Hb Epr Hon Hl Ed) as (s' & c & E & Hw' & Hb' & _).
    exists s', c. split; [done|]. split; [done|]. by apply (bounded_weaken N); [lia|].
Qed.

Lemma read_work_ok N s p pr l wait :
  wf s -> bounded N s -> N < INT_MAX -> procs s !! p = Some pr -> work_list s p l ->
  exists s' c, binder_read_work s p l wait = Some (s', c) /\ wf s' /\ bounded (N + 1) s'.
Proof.
  intros Hw Hb HN Epr [Hl _]. unfold binder_read_work. rewrite Epr. cbn [mbind option_bind]. destruct (list_of s p l Hw Hl) as [L EL]. rewrite EL. cbn [mbind option_bind].
  assert (Hb1 : bounded (N + 1) s) by (apply (bounded_weaken N); [lia|done]). destruct L as [|x L]; [|apply (read_first_ok N s p pr l (x :: L)); try done; set_solver].
  destruct (ww_proc s (wf_w _ _ _ Hw) p pr Epr) as (Ht & _ & _). destruct (list_of s p _ Hw Ht) as [Lp ELp]. rewrite ELp. cbn [mbind option_bind].
  destruct wait; [|eauto]. destruct Lp as [|x Lp]; [eauto|]. apply (read_first_ok N s p pr (todo pr) (x :: Lp)); try done. set_solver.
Qed.

(** ** The nodes of a process that dies *)

Definition dead_node (nd : binder_node) : binder_node :=
  mknode None (n_refs nd) (internal_strong_refs nd) 0 0 (n_ptr nd) (n_cookie nd) (has_strong_ref nd) (pending_strong_ref nd) (has_weak_ref nd) (pending_weak_ref nd).

Lemma wf_node_dies s n nd p pr :
  wf s -> nodes s !! n = Some nd -> n_proc nd = Some p -> procs s !! p = Some pr -> on (wl s) !! n = None -> context_mgr_node s <> Some n ->
  exists t, Rbtree.erase n (nodes_t pr) = Some t /\ wf (set_dead (set_node (set_proc s p (set_nodes_t pr t)) n (dead_node nd)) (n :: dead_nodes s)).
Proof.
  intros Hw E Hp Epr Hon Hctx. assert (Hn : node_of s p n) by (exists nd; done). pose proof Hw as [Ht Hk Hc Hwk Hd].
  destruct (tree_erase _ _ _ n (wt_nodes _ _ Ht p pr Epr) Hn) as (t & Et & Htt). exists t. split; [done|].
  assert (Hl : forall m md, <[n := dead_node nd]> (nodes s) !! m = Some md -> (m = n /\ md = dead_node nd) \/ (m <> n /\ nodes s !! m = Some md)).
  { intros m md. destruct (decide (m = n)) as [->|]; [rewrite lookup_insert_eq; intros [= <-]; by left|rewrite lookup_insert_ne by done; by right]. }
  split.
  - apply (trees_leave none_off None s _ n p pr t Ht Hn Epr Htt); simpl; [intros; by rewrite lookup_insert_ne| |done|done]. intros q (md & Em & Hm). simpl in Em. rewrite lookup_insert_eq in Em. by injection Em as <-.
  - destruct Hk as [K1 K2 [K3 K4]]. split; simpl.
    + intros r rf Hg Er. destruct (K1 r rf Hg Er) as ((md & Em & Hin) & H). split; [|done]. destruct (decide (r_node rf = n)) as [Hrn|]; [|exists md; by rewrite lookup_insert_ne].
      rewrite Hrn in *. rewrite E in Em. injection Em as <-. exists (dead_node nd). by rewrite lookup_insert_eq.
    + intros m md [[-> ->]|[_ Em]]%Hl; [by apply (K2 n nd)|by apply (K2 m md)].
    + split; [apply NoDup_cons; split; [intros (md & Em & Hm)%K4; congruence|done]|]. intros m. rewrite elem_of_cons, K4. split.
      * intros [->|(md & Em & Hm)]; [exists (dead_node nd); by rewrite lookup_insert_eq|]. exists md. rewrite lookup_insert_ne by congruence. done.
      * intros (md & [[-> ->]|[_ Em]]%Hl & Hm); eauto.
  - destruct Hc as [C1 C2 C3]. split; simpl.
    + intros m md [[-> ->]|[_ Em]]%Hl; [done|by apply (C1 m)].
    + intros m md [[-> ->]|[_ Em]]%Hl Hm; [done|by apply (C2 m)].
    + intros m Hm. destruct (C3 m Hm) as (md & Em & Hmd). exists md. rewrite lookup_insert_ne by congruence. done.
  - destruct Hwk as [W1 W2 W3 W4 W5]. split; simpl; [done| | | |].
    + intros x l El. destruct (W2 x l El) as [Hx|Hx]; [left|by right]. rewrite lookup_insert_ne by congruence. done.
    + intros m md l [[-> ->]|[_ Em]]%Hl El; [congruence|]. destruct (W3 m md l Em El) as (q & H1 & H2 & H3). exists q. split; [done|]. split; [done|]. intros q' pr' Eq.
      destruct (decide (q' = p)) as [->|]; [rewrite lookup_insert_eq in Eq; injection Eq as <-; by apply (H3 p pr)|rewrite lookup_insert_ne in Eq by done; by apply (H3 q')].
    + intros q pr' Eq. destruct (decide (q = p)) as [->|]; [rewrite lookup_insert_eq in Eq; injection Eq as <-; by apply (W4 p pr)|rewrite lookup_insert_ne in Eq by done; by apply W4].
    + intros x [md [[-> _]|[_ Em]]%Hl]; apply W5; eauto.
  - destruct Hd as [D1 D2]. split; simpl; [|done]. intros r rf d Er Ed. destruct (D1 r rf d Er Ed) as (dd & H1 & H2 & H3). exists dd. split; [done|]. split; [done|].
    intros md [[_ ->]|[_ Em]]%Hl Hm; [done|by apply (H3 md)].
Qed.

(** The holder of the reference finds the notification on the list of its process. *)
Definition notified (s : state) (rf : binder_ref) (d : Z) : Prop :=
  exists pr dd, procs s !! r_proc rf = Some pr /\ on (wl s) !! d = Some (todo pr) /\ deaths s !! d = Some dd /\ d_type dd = Some DEAD_BINDER.

Lemma queue_dead s r rf d dd pr nd :
  wf s -> refs s !! r = Some rf -> death rf = Some d -> deaths s !! d = Some dd -> procs s !! r_proc rf = Some pr -> nodes s !! r_node rf = Some nd -> n_proc nd = None ->
  on (wl s) !! d = None ->
  exists w, list_add_tail (wl s) d (todo pr) = Some w /\ let s' := set_wl (set_death s d (mkdeath (d_cookie dd) (Some DEAD_BINDER))) w in
    wf s' /\ death_step s s' d /\ notified s' rf d /\ refs s' = refs s.
Proof.
  intros Hw E Hd Ed Epr En Hp Hon. destruct (todo_work_list none_off None s _ pr Hw Epr) as [Hl _]. destruct (list_of s _ _ Hw Hl) as [L EL].
  destruct (list_add_tail_ok (wl s) d _ L (ww_wl s (wf_w _ _ _ Hw)) EL Hon) as (w & Ew & O1 & O2 & O3). exists w. split; [done|]. intros s'.
  assert (Hst : death_step s s' d) by (apply (death_step_wl s d); simpl; [done|done|intros x Hx; by rewrite O2, lookup_insert_ne|intros x Hx; by rewrite lookup_insert_ne]).
  split; [|split; [done|split; [|done]]].
  - apply (wf_death_step _ _ s _ d Hw Hst); [by apply death_not_node; [done|eauto]|]. split_and!; simpl; [rewrite lookup_insert_eq; eauto| |by intros r1 r2 rf1 rf2; apply (wd_inj s (wf_d _ _ _ Hw))].
    intros r1 rf1 E1 Hd1. assert (r1 = r) as -> by (by apply (owner_unique s r1 r rf1 rf d)). rewrite E in E1. injection E1 as <-. rewrite lookup_insert_eq, O2, lookup_insert_eq, O3.
    eexists. split; [done|]. simpl. split; [by intros l [= <-]|congruence].
  - exists pr, (mkdeath (d_cookie dd) (Some DEAD_BINDER)). simpl. by rewrite O2, !lookup_insert_eq.
Qed.

(** No step but at notifications of the references in [l]. *)
Definition untouched (s s' : state) (l : list Z) : Prop :=
  forall x, (forall r rf, r ∈ l -> refs s !! r = Some rf -> death rf <> Some x) -> on (wl s') !! x = on (wl s) !! x /\ deaths s' !! x = deaths s !! x.

Lemma notify_deaths_ok l : forall s,
  wf s -> NoDup l ->
  (forall r, r ∈ l -> exists rf nd, refs s !! r = Some rf /\ nodes s !! r_node rf = Some nd /\ n_proc nd = None /\ forall d, death rf = Some d -> on (wl s) !! d = None) ->
  exists s', notify_deaths s l = Some s' /\ wf s' /\ nodes s' = nodes s /\ refs s' = refs s /\ procs s' = procs s /\ context_mgr_node s' = context_mgr_node s /\
    owner (wl s') = owner (wl s) /\ untouched s s' l /\ forall r rf d, r ∈ l -> refs s !! r = Some rf -> death rf = Some d -> notified s' rf d.
Proof.
  induction l as [|r l IH]; intros s Hw Hnd Hl; simpl; [exists s; split_and!; try done; set_solver|]. apply NoDup_cons in Hnd as [Hr Hnd].
  destruct (Hl r ltac:(set_solver)) as (rf & nd & E & En & Hp & Hoff). rewrite E. cbn [mbind option_bind]. destruct (death rf) as [d|] eqn:Hd.
  - destruct (owned_exists s r rf d Hw E Hd) as [dd Ed]. rewrite Ed. cbn [mbind option_bind]. specialize (Hoff d eq_refl). unfold list_empty. rewrite Hoff.
    destruct (wt_ref_proc s None (wf_t _ _ _ Hw) (r_proc rf) r) as [pr Epr]; [split; [done|by exists rf]|]. rewrite Epr. cbn [mbind option_bind].
    destruct (queue_dead s r rf d dd pr nd Hw E Hd Ed Epr En Hp Hoff) as (w & -> & Hw1 & Hst & Hnot & Er1). cbn [mbind option_bind]. set (s1 := set_wl _ w) in *.
    assert (Hne : forall r' rf' x, r' ∈ l -> refs s !! r' = Some rf' -> death rf' = Some x -> x <> d) by (intros r' rf' x Hr' E' Hx ->; apply Hr; by rewrite <- (owner_unique s r' r rf' rf d)).
    destruct (IH s1 Hw1 Hnd) as (s' & Es & Hw' & F1 & F2 & F3 & F4 & F5 & F6 & F7).
    { intros r' Hr'. destruct (Hl r' ltac:(set_solver)) as (rf' & nd' & E' & En' & Hp' & Hoff'). exists rf', nd'. split_and!; try done. intros x Hx. rewrite (dt_on _ _ _ Hst); [by apply Hoff'|by apply (Hne r' rf')]. }
    exists s'. split; [done|]. split; [done|]. split_and!; [by rewrite F1|by rewrite F2|by rewrite F3|by rewrite F4|by rewrite F5, (dt_owner _ _ _ Hst)| |].
    + intros x Hx. destruct (F6 x) as [-> ->]; [intros r' rf' Hr' E'; apply (Hx r' rf'); [set_solver|done]|]. assert (x <> d) by (intros ->; by apply (Hx r rf ltac:(set_solver) E)).
      by rewrite (dt_on _ _ _ Hst), (dt_deaths _ _ _ Hst).
    + intros r' rf' x [->|Hr']%elem_of_cons E' Hx; [|by apply (F7 r')]. assert (rf' = rf) as -> by congruence. assert (x = d) as -> by congruence. destruct Hnot as (pr' & dd' & N1 & N2 & N3 & N4).
      destruct (F6 d) as [G1 G2]; [intros r' rf' Hr' E1 Hx'; by apply (Hne r' rf' d)|]. exists pr', dd'. by rewrite F3, G1, G2.
  - cbn [mbind option_bind]. destruct (IH s Hw Hnd) as (s' & Es & Hw' & F1 & F2 & F3 & F4 & F5 & F6 & F7); [intros; apply Hl; set_solver|]. exists s'. split_and!; try done.
    + intros x Hx. apply F6. intros r' rf' Hr'. apply Hx. set_solver.
    + intros r' rf' x [->|Hr']%elem_of_cons E' Hx; [congruence|by apply (F7 r')].
Qed.

(** A notification that no reference has any more: it was cleared. *)
Definition unowned (s : state) (d : Z) : Prop := forall r rf, refs s !! r = Some rf -> death rf <> Some d.

Record released (s s' : state) (p : Z) : Prop := {
  rl_refs : refs s' = refs s;
  rl_context : context_mgr_node s' = context_mgr_node s;
  rl_owner : owner (wl s') = owner (wl s);
  rl_procs : forall q, ptkey <$> procs s' !! q = ptkey <$> procs s !! q;
  rl_nodes : forall m md, nodes s' !! m = Some md -> exists md0, nodes s !! m = Some md0 /\ (md = md0 \/ (n_proc md0 = Some p /\ md = dead_node md0));
  rl_keep : forall m md, nodes s !! m = Some md -> n_proc md <> Some p -> nodes s' !! m = Some md;
  rl_notified : forall r rf d, refs s !! r = Some rf -> death rf = Some d -> node_of s p (r_node rf) -> ~ node_of s' p (r_node rf) -> notified s' rf d;
  rl_other : forall r rf d, refs s !! r = Some rf -> death rf = Some d -> (node_of s p (r_node rf) -> node_of s' p (r_node rf)) ->
    on (wl s') !! d = on (wl s) !! d /\ deaths s' !! d = deaths s !! d;
  rl_cleared : forall d, is_Some (deaths s !! d) -> unowned s d -> on (wl s') !! d = on (wl s) !! d /\ deaths s' !! d = deaths s !! d }.

Lemma ref_listed s r rf n nd : wf s -> refs s !! r = Some rf -> r_node rf = n -> nodes s !! n = Some nd -> r ∈ n_refs nd.
Proof. intros Hw E Hn En. destruct (wk_ref s _ None (wf_k _ _ _ Hw) r rf ltac:(done) E) as ((nd' & En' & Hin) & _). congruence. Qed.

(** A dying node: freed without references, else a dead node whose holders are told. *)
Lemma release_node_ok s p pr n nd :
  wf s -> nodes s !! n = Some nd -> n_proc nd = Some p -> procs s !! p = Some pr -> context_mgr_node s <> Some n ->
  exists s', release_node s p n = Some s' /\ wf s' /\ released s s' p /\ (forall q m, node_of s' q m <-> node_of s q m /\ m <> n) /\
    nodes s' !! n = (if bool_decide (n_refs nd = []) then None else Some (dead_node nd)).
Proof.
  intros Hw E Hp Epr Hctx. destruct (wf_unqueue none_off None s n Hw) as [Hu Hu0]. set (s1 := set_wl s (list_del_init (wl s) n)) in *.
  destruct (list_del_init_ok (wl s) n (ww_wl s (wf_w _ _ _ Hw))) as (O1 & O2 & O3 & O4).
  assert (Hon0 : forall d, is_Some (deaths s !! d) -> on (wl s1) !! d = on (wl s) !! d).
  { intros d [dd Ed]. simpl. rewrite O2, lookup_delete_ne; [done|]. intros <-. rewrite (wf_no_death _ _ _ _ _ Hw E) in Ed. done. }
  assert (Hon1 : forall r rf d, refs s !! r = Some rf -> death rf = Some d -> on (wl s1) !! d = on (wl s) !! d).
  { intros r rf d Er Hd. apply Hon0. destruct (owned_exists s r rf d Hw Er Hd) as [dd Ed]. eauto. }
  destruct (wk_node s _ None (wf_k _ _ _ Hw) n nd E) as (Hnd & Hrefs & _). unfold release_node. rewrite Epr. cbn [mbind option_bind]. rewrite E. cbn [mbind option_bind].
  destruct (bool_decide_reflect (n_refs nd = [])) as [Hr|Hr].
  - destruct (wf_free_alive none_off None s1 n nd p pr Hu E Hp Epr Hr Hu0 Hctx) as (t & -> & Hw'). cbn [mbind option_bind]. eexists. split; [done|]. split; [exact Hw'|].
    assert (Hno : forall q m, node_of (del_node (set_proc s1 p (set_nodes_t pr t)) n) q m <-> node_of s q m /\ m <> n).
    { intros q m. unfold node_of. simpl. split; [intros (md & [? ?]%lookup_delete_Some & ?); eauto|intros [(md & Em & Hm) Hne]; exists md; by rewrite lookup_delete_ne]. }
    assert (Hnr : forall r rf, refs s !! r = Some rf -> r_node rf <> n) by (intros r rf Er Hn; pose proof (ref_listed s r rf n nd Hw Er Hn E); rewrite Hr in *; set_solver).
    split; [|split; [done|simpl; by rewrite lookup_delete_eq]]. split; simpl; try done.
    + by apply insert_key with pr.
    + intros m md [_ Em]%lookup_delete_Some. eauto.
    + intros m md Em Hm. rewrite lookup_delete_ne; [done|congruence].
    + intros r rf d Er Hd Hn Hn'. destruct Hn'. apply Hno. split; [done|]. by apply (Hnr r).
    + intros r rf d Er Hd _. split; [by apply (Hon1 r rf)|done].
    + intros d Hd _. split; [by apply Hon0|done].
  - destruct (wf_node_dies s1 n nd p pr Hu E Hp Epr Hu0 Hctx) as (t & -> & Hw1). cbn [mbind option_bind].
    match goal with |- context [notify_deaths ?x _] => set (s2 := x); assert (Hs2 : wf s2) by exact Hw1 end. change (n_refs _) with (n_refs nd).
    destruct (notify_deaths_ok (n_refs nd) s2 Hs2 Hnd) as (s' & -> & Hw' & F1 & F2 & F3 & F4 & F5 & F6 & F7).
    { intros r Hin. destruct (Hrefs r Hin) as (rf & Er & Hn). exists rf, (dead_node nd). rewrite Hn. split; [done|]. split; [simpl; apply lookup_insert_eq|]. split; [done|].
      intros d Hd. change (on (wl s2)) with (on (wl s1)). rewrite (Hon1 r rf d Er Hd). destruct (wd_death s (wf_d _ _ _ Hw) r rf d Er Hd) as (dd & _ & _ & D). apply (D nd); congruence. }
    exists s'. split; [done|]. split; [done|].
    assert (Hno : forall q m, node_of s' q m <-> node_of s q m /\ m <> n).
    { intros q m. unfold node_of. rewrite F1. simpl. destruct (decide (m = n)) as [->|Hne]; [|rewrite lookup_insert_ne by done; tauto]. rewrite lookup_insert_eq. split; [|tauto].
      by intros (md & [= <-] & ?). }
    split; [|split; [done|rewrite F1; simpl; apply lookup_insert_eq]]. split; rewrite ?F1, ?F2, ?F3, ?F4, ?F5; simpl; try done.
    + by apply insert_key with pr.
    + intros m md Em. destruct (decide (m = n)) as [->|]; [rewrite lookup_insert_eq in Em; injection Em as <-|rewrite lookup_insert_ne in Em by done]; eauto 6.
    + intros m md Em Hm. rewrite lookup_insert_ne; [done|congruence].
    + intros r rf d Er Hd Hn Hn'. destruct (decide (r_node rf = n)) as [Hrn|]; [|destruct Hn'; by apply Hno]. apply (F7 r); [by apply (ref_listed s r rf n)|done|done].
    + intros r rf d Er Hd Hn. assert (Hrn : r_node rf <> n) by (intros Hrn; destruct (proj1 (Hno p (r_node rf))); [apply Hn; exists nd; by rewrite Hrn|done]).
      destruct (F6 d) as [G1 G2]; [|rewrite G1, G2; split; [by apply (Hon1 r rf)|done]].
      intros r' rf' Hr' Er' Hd'. simpl in Er'. assert (r' = r) as -> by (by apply (owner_unique s r' r rf' rf d)). destruct (Hrefs r Hr') as (rf0 & Er0 & Hn0). congruence.
    + intros d Hd Hu'. destruct (F6 d) as [G1 G2]; [intros r rf _ Er; by apply (Hu' r rf)|]. rewrite G1, G2. split; [by apply Hon0|done].
Qed.

Lemma released_refl s p : released s s p.
Proof. split; try done; eauto. Qed.

Lemma released_node_of s s' p q m : released s s' p -> node_of s' q m -> node_of s q m.
Proof. intros H (md & Em & Hm). destruct (rl_nodes _ _ _ H m md Em) as (md0 & E0 & [->|[_ ->]]); [by exists md0|done]. Qed.

Lemma ptkey_pkey (o o' : option binder_proc) : ptkey <$> o = ptkey <$> o' -> pkey <$> o = pkey <$> o'.
Proof. destruct o, o'; try done. simpl. unfold ptkey, pkey. congruence. Qed.

Lemma notified_ext s s' rf d :
  notified s rf d -> pkey <$> procs s' !! r_proc rf = pkey <$> procs s !! r_proc rf -> on (wl s') !! d = on (wl s) !! d -> deaths s' !! d = deaths s !! d -> notified s' rf d.
Proof.
  intros (pr & dd & H1 & H2 & H3 & H4) Hp Hon Hd. destruct (fmap_eq_Some _ _ _ _ Hp H1) as (pr' & E' & [= Ht _]). exists pr', dd. rewrite Hon, Hd, Ht. done.
Qed.

Lemma released_trans s1 s2 s3 p : released s1 s2 p -> released s2 s3 p -> (forall m, Decision (node_of s2 p m)) -> released s1 s3 p.
Proof.
  intros H1 H2 Hdec. pose proof (fun m => released_node_of s1 s2 p p m H1) as M1. pose proof (fun m => released_node_of s2 s3 p p m H2) as M2. destruct H1 as [A1 A2 A3 A4 A5 A6 A7 A8 A9], H2 as [B1 B2 B3 B4 B5 B6 B7 B8 B9].
  split; try congruence.
  - intros m md Em. destruct (B5 m md Em) as (md1 & E1 & H1). destruct (A5 m md1 E1) as (md0 & E0 & H0). exists md0. split; [done|].
    destruct H1 as [->|[Hp1 ->]]; [done|]. destruct H0 as [->|[_ ->]]; [by right|done].
  - intros m md Em Hm. by apply B6; [apply A6|].
  - intros r rf d Er Hd Hn Hn'. rewrite A1 in B7, B8. destruct (Hdec (r_node rf)) as [Hy|Hy]; [by apply (B7 r)|].
    destruct (B8 r rf d Er Hd) as [G1 G2]; [done|]. apply (notified_ext s2); [by apply (A7 r)|apply ptkey_pkey, B4|done|done].
  - intros r rf d Er Hd Hn. rewrite A1 in B8. destruct (B8 r rf d Er Hd) as [-> ->]; [auto|]. apply (A8 r rf d Er Hd). auto.
  - intros d Hd Hu. destruct (A9 d Hd Hu) as [G1 G2]. destruct (B9 d) as [-> ->]; [by rewrite G2|unfold unowned; by rewrite A1|done].
Qed.

#[export] Instance node_of_dec s p m : Decision (node_of s p m).
Proof.
  refine (match nodes s !! m as o return (nodes s !! m = o -> _) with
          | Some nd => fun E => match decide (n_proc nd = Some p) with left H => left (ex_intro _ nd (conj E H)) | right H => right _ end
          | None => fun E => right _
          end eq_refl); intros (nd' & E' & H'); congruence.
Defined.

(** All nodes of the process go; the loop ends within as many rounds as there are nodes. *)
Lemma release_nodes_ok fuel : forall s p pr,
  wf s -> procs s !! p = Some pr -> (forall n, context_mgr_node s = Some n -> ~ node_of s p n) -> (length (Rbtree.elements (nodes_t pr)) <= fuel)%nat ->
  exists s', release_nodes fuel s p = Some s' /\ wf s' /\ released s s' p /\ forall n, ~ node_of s' p n.
Proof.
  induction fuel as [|fuel IH]; intros s p pr Hw Epr Hctx Hlen; simpl; rewrite Epr; cbn [mbind option_bind];
    pose proof (wt_nodes s None (wf_t _ _ _ Hw) p pr Epr) as Ht; destruct (tree_first _ _ _ Ht) as (Eh & Hf1 & Hf2);
    (destruct (Rbtree.rb_first (nodes_t pr)) as [n|]; [|exists s; split; [done|split; [done|split; [apply released_refl|auto]]]]).
  - destruct (Rbtree.elements (nodes_t pr)); [done|simpl in Hlen; lia].
  - destruct (Hf1 n eq_refl) as (nd & En & Hp). assert (Hc : context_mgr_node s <> Some n) by (intros Hc; apply (Hctx n Hc); by exists nd).
    destruct (release_node_ok s p pr n nd Hw En Hp Epr Hc) as (s1 & -> & Hw1 & Hrel & Hno & _). cbn [mbind option_bind].
    destruct (fmap_eq_Some _ _ _ _ (rl_procs _ _ _ Hrel p) Epr) as (pr1 & Epr1 & _). pose proof (wt_nodes s1 None (wf_t _ _ _ Hw1) p pr1 Epr1) as Ht1.
    destruct (IH s1 p pr1 Hw1 Epr1) as (s' & Es & Hw' & Hrel' & Hn').
    + intros m. rewrite (rl_context _ _ _ Hrel). intros Hm [Hy _]%Hno. by apply (Hctx m Hm).
    + pose proof (tree_ok_length _ (nodes_t pr1) _ _ (by_key (ptr_of s1)) n Ht (Hf1 n eq_refl)) as Hl. rewrite Hl in Hlen; [lia|].
      apply (tree_ok_ext _ _ _ _ _ Ht1); [intros a; apply Hno|done].
    + exists s'. split; [done|]. split; [done|]. split; [|done]. apply (released_trans s s1 s' p); [done|done|intros m; apply _].
Qed.

(** ** The references of a process that dies *)

Definition other_refs (s s' : state) (p : Z) : Prop := forall r, refs s' !! r = (rf ← refs s !! r; if bool_decide (r_proc rf = p) then None else Some rf).

(** The notifications of the references of [p] are freed, all others stay. *)
Definition deaths_go (s s' : state) (p : Z) : Prop :=
  (forall d, deaths s !! d = None -> deaths s' !! d = None) /\
  (forall r rf d, refs s !! r = Some rf -> r_proc rf = p -> death rf = Some d -> deaths s' !! d = None) /\
  (forall d, is_Some (deaths s !! d) -> (forall r rf, refs s !! r = Some rf -> r_proc rf = p -> death rf <> Some d) -> on (wl s') !! d = on (wl s) !! d /\ deaths s' !! d = deaths s !! d).

Lemma deaths_go_other s s' p r rf d : wf s -> deaths_go s s' p -> refs s !! r = Some rf -> r_proc rf <> p -> death rf = Some d -> on (wl s') !! d = on (wl s) !! d /\ deaths s' !! d = deaths s !! d.
Proof.
  intros Hw (_ & _ & H) E Hp Hd. apply H; [destruct (owned_exists s r rf d Hw E Hd); eauto|]. intros r' rf' E' Hp' Hd'. assert (r' = r) as -> by (by apply (owner_unique s r' r rf' rf d)). congruence.
Qed.

Lemma release_refs_ok fuel : forall s p pr,
  wf s -> procs s !! p = Some pr -> (length (Rbtree.elements (refs_by_desc pr)) <= fuel)%nat ->
  exists s', release_refs fuel s p = Some s' /\ wf s' /\ kept s s' /\ other_refs s s' p /\ deaths_go s s' p.
Proof.
  induction fuel as [|fuel IH]; intros s p pr Hw Epr Hlen; simpl; rewrite Epr; cbn [mbind option_bind];
    pose proof (wt_desc s None (wf_t _ _ _ Hw) p pr Epr) as Ht; destruct (tree_first _ _ _ Ht) as (Eh & Hf1 & Hf2);
    (destruct (Rbtree.rb_first (refs_by_desc pr)) as [r|];
      [|exists s; split; [done|]; split; [done|]; split; [apply kept_refl|]; split;
        [intros x; destruct (refs s !! x) as [rf|] eqn:E; [|done]; simpl; rewrite bool_decide_eq_false_2; [done|]; intros Hp; by apply (Hf2 eq_refl x); split; [|exists rf]|
         split; [done|]; split; [|done]; intros x xf d Ex Hp; exfalso; by apply (Hf2 eq_refl x); split; [|exists xf]]]).
  - destruct (Rbtree.elements (refs_by_desc pr)); [done|simpl in Hlen; lia].
  - destruct (Hf1 r eq_refl) as (_ & rf & E & Hp). destruct (delete_ref_ok s r rf Hw E) as (s1 & -> & Hw1 & Er1 & Hk1 & Hdd1 & Hd1). cbn [mbind option_bind].
    destruct (fmap_eq_Some _ _ _ _ (kp_procs _ _ Hk1 p) Epr) as (pr1 & Epr1 & _). pose proof (wt_desc s1 None (wf_t _ _ _ Hw1) p pr1 Epr1) as Ht1.
    destruct (IH s1 p pr1 Hw1 Epr1) as (s' & Es & Hw' & Hk' & Hr' & Hd').
    + pose proof (tree_ok_length _ (refs_by_desc pr1) _ _ (by_key (desc_of s1)) r Ht (Hf1 r eq_refl)) as Hl. rewrite Hl in Hlen; [lia|].
      apply (tree_ok_ext _ _ _ _ _ Ht1); [intros a|done]. unfold ref_of. rewrite Er1. split; [intros (_ & xf & [H1 H2]%lookup_delete_Some & H3); eauto 6|].
      intros ((_ & xf & H1 & H2) & Hne). split; [done|]. exists xf. by rewrite lookup_delete_ne.
    + exists s'. split; [done|]. split; [done|]. split; [by apply (kept_trans _ s1)|]. split.
      * intros x. rewrite (Hr' x), Er1. destruct (decide (x = r)) as [->|]; [|by rewrite lookup_delete_ne]. rewrite lookup_delete_eq, E. simpl. by rewrite bool_decide_eq_true_2.
      * destruct Hd' as (D1 & D2 & D3).
        assert (N1 : forall d, deaths s !! d = None -> deaths s1 !! d = None) by (intros d Hd; rewrite Hdd1, Hd; by case_bool_decide).
        split; [intros d Hd; by apply D1, N1|]. split.
        -- intros x xf d Ex Hxp Hxd. destruct (decide (x = r)) as [->|Hxr]; [|apply (D2 x xf d); [rewrite Er1, lookup_delete_ne by done; done|done|done]].
           assert (xf = rf) as -> by congruence. apply D1. by rewrite Hdd1, Hxd, bool_decide_eq_true_2.
        -- intros d Hd Hno. assert (Hne : Some d <> death rf) by (intros Hx; by apply (Hno r rf E Hp)). destruct (Hd1 d Hd Hne) as [G1 G2]. destruct (D3 d) as [-> ->]; [by rewrite G2| |done].
           intros x xf Ex Hxp. rewrite Er1 in Ex. apply lookup_delete_Some in Ex as [_ Ex]. by apply (Hno x xf).
Qed.

(** ** The lists of a process that dies *)

Lemma release_list_ok L : forall s, wf s ->
  wf (set_wl s (fold_left list_del_init L (wl s))) /\ owner (fold_left list_del_init L (wl s)) = owner (wl s) /\
  forall x, on (fold_left list_del_init L (wl s)) !! x = (if bool_decide (x ∈ L) then None else on (wl s) !! x).
Proof.
  induction L as [|y L IH]; intros s Hw; simpl; [split; [by destruct s|done]|]. destruct (wf_unqueue none_off None s y Hw) as [Hw1 _].
  destruct (list_del_init_ok (wl s) y (ww_wl s (wf_w _ _ _ Hw))) as (O1 & O2 & O3 & O4). destruct (IH _ Hw1) as (H1 & H2 & H3). simpl in *. split; [done|]. split; [congruence|].
  intros x. rewrite H3, O2. destruct (decide (x = y)) as [->|Hne]; [rewrite lookup_delete_eq, (bool_decide_eq_true_2 (y ∈ y :: L)) by set_solver; by destruct (bool_decide _)|].
  rewrite lookup_delete_ne by done. rewrite (bool_decide_ext (x ∈ y :: L) (x ∈ L)) by set_solver. done.
Qed.

Lemma release_work_ok s l :
  wf s -> is_Some (owner (wl s) !! l) ->
  exists w, binder_release_work (wl s) l = Some w /\ wf (set_wl s w) /\ owner w = owner (wl s) /\
    forall x, on w !! x = (if bool_decide (on (wl s) !! x = Some l) then None else on (wl s) !! x).
Proof.
  intros Hw Hl. unfold binder_release_work. destruct (proj2 (wo_owner _ (ww_wl s (wf_w _ _ _ Hw)) l) Hl) as [L EL]. rewrite EL. cbn [mbind option_bind]. eexists. split; [done|].
  destruct (release_list_ok L s Hw) as (H1 & H2 & H3). split; [done|]. split; [done|]. intros x. rewrite H3. rewrite (bool_decide_ext (on (wl s) !! x = Some l) (x ∈ L)); [done|]. rewrite (wo_on _ (ww_wl s (wf_w _ _ _ Hw))), EL. naive_solver.
Qed.

Lemma release_works_ok ls : forall s,
  wf s -> (forall l, l ∈ ls -> is_Some (owner (wl s) !! l)) ->
  exists w, release_works (wl s) ls = Some w /\ wf (set_wl s w) /\ owner w = owner (wl s) /\
    forall x, on w !! x = (l ← on (wl s) !! x; if bool_decide (l ∈ ls) then None else Some l).
Proof.
  unfold release_works. induction ls as [|l ls IH]; intros s Hw Hl; simpl.
  - exists (wl s). split; [done|]. split; [by destruct s|]. split; [done|]. intros x. by destruct (on (wl s) !! x).
  - destruct (release_work_ok s l Hw) as (w & -> & Hw1 & Ho & Hx); [apply Hl; set_solver|]. destruct (IH (set_wl s w) Hw1) as (w' & Ew & Hw' & Ho' & Hx'); [simpl; rewrite Ho; intros; apply Hl; set_solver|].
    exists w'. split; [exact Ew|]. split; [exact Hw'|]. simpl in *. split; [congruence|]. intros x. rewrite Hx', Hx. destruct (on (wl s) !! x) as [m|]; [|by destruct (bool_decide _)]. simpl.
    destruct (decide (m = l)) as [->|Hne]; [by rewrite !bool_decide_eq_true_2 by set_solver|]. rewrite bool_decide_eq_false_2 by congruence. simpl.
    rewrite (bool_decide_ext (m ∈ l :: ls) (m ∈ ls)) by set_solver. done.
Qed.

Definition del_proc (s : state) (p : Z) : state := mkstate (nodes s) (refs s) (deaths s) (delete p (procs s)) (wl s) (dead_nodes s) (context_mgr_node s).

Lemma wf_del_proc s p : wf s -> (forall n, ~ node_of s p n) -> (forall r, ~ ref_of s None p r) -> wf (del_proc s p).
Proof.
  intros [Ht Hk Hc Hw Hd] Hn Hr. split; [|by apply (links_ext s)|by apply (local_ext s)| |by apply (deaths_ext s)].
  - destruct Ht as [T1 T2 T3 T4 T5]. split; simpl; try (intros q pr [_ E]%lookup_delete_Some; eauto).
    + intros q n Hq. rewrite lookup_delete_ne; [by apply (T4 q n)|]. intros ->. by apply (Hn n).
    + intros q r Hq. rewrite lookup_delete_ne; [by apply (T5 q r)|]. intros ->. by apply (Hr r).
  - destruct Hw as [W1 W2 W3 W4 W5]. split; simpl; try done; [|intros q pr [_ E]%lookup_delete_Some; eauto].
    intros n nd l En El. destruct (W3 n nd l En El) as (q & H1 & H2 & H3). exists q. split; [done|]. split; [done|]. intros q' pr [_ E]%lookup_delete_Some. by apply (H3 q').
Qed.

(** A list that is neither [todo] nor [delivered_death] of a process *)
Lemma wf_kfree s l :
  wf s -> (forall q pr, procs s !! q = Some pr -> l <> todo pr /\ l <> delivered_death pr) -> wf (set_wl s (kfree_list (wl s) l)).
Proof.
  intros Hwf Ho. pose proof Hwf as [Ht Hk Hc Hw Hd].
  assert (Hon : forall x m, on (kfree_list (wl s) l) !! x = Some m <-> on (wl s) !! x = Some m /\ m <> l) by (intros x m; simpl; by rewrite map_lookup_filter_Some).
  assert (Hown : forall m q, m <> l -> owner (kfree_list (wl s) l) !! m = Some q <-> owner (wl s) !! m = Some q) by (intros m q Hm; simpl; by rewrite lookup_delete_ne).
  split; [by apply (trees_ext s)|by apply (links_ext s)|by apply (local_ext s)| |].
  - destruct Hw as [[V1 V2 V3] W2 W3 W4 W5]. split; cbn [wl set_wl nodes procs deaths].
    + split; [|intros m L EL; simpl in EL; apply lookup_delete_Some in EL as [_ EL]; by apply (V2 m)|].
      * intros x m. rewrite Hon, V1. simpl. split; [intros [(L & EL & Hx) Hm]; exists L; by rewrite lookup_delete_ne|]. intros (L & [Hm EL]%lookup_delete_Some & Hx). eauto.
      * intros m. simpl. destruct (decide (m = l)) as [->|]; [by rewrite !lookup_delete_eq|by rewrite !lookup_delete_ne].
    + intros x m [Em _]%Hon. by apply (W2 x m).
    + intros n nd m En [Em Hm]%Hon. destruct (W3 n nd m En Em) as (q & H1 & H2 & H3). exists q. by rewrite Hown.
    + intros q pr Eq. destruct (W4 q pr Eq) as (H1 & H2 & H3).
      destruct (Ho q pr Eq). by rewrite !Hown by congruence.
    + done.
  - destruct Hd as [D1 D2]. split; [|done]. intros r rf d E Ed. destruct (D1 r rf d E Ed) as (dd & Edd & H1 & H2). exists dd. split; [done|]. cbn [wl set_wl]. split.
    + intros m [Em Hm]%Hon. rewrite Hown by done. by apply H1.
    + intros nd En Hn. specialize (H2 nd En Hn). destruct (on (kfree_list (wl s) l) !! d) as [m|] eqn:Em; [|done]. apply Hon in Em as [Em _]. congruence.
Qed.

Lemma wf_kfree_lists ls : forall s p,
  wf s -> procs s !! p = None -> (forall l q, l ∈ ls -> owner (wl s) !! l = Some q -> q = p) ->
  wf (set_wl s (fold_left kfree_list ls (wl s))) /\
  (forall x, on (fold_left kfree_list ls (wl s)) !! x = (l ← on (wl s) !! x; if bool_decide (l ∈ ls) then None else Some l)) /\
  (forall l, owner (fold_left kfree_list ls (wl s)) !! l = if bool_decide (l ∈ ls) then None else owner (wl s) !! l).
Proof.
  induction ls as [|l ls IH]; intros s p Hw Hp Ho; simpl; [split; [by destruct s|split; [intros x; by destruct (on (wl s) !! x)|done]]|].
  assert (Hw1 : wf (set_wl s (kfree_list (wl s) l))).
  { apply wf_kfree; [done|]. intros q pr Eq. destruct (ww_proc s (wf_w _ _ _ Hw) q pr Eq) as (H1 & H2 & _). split; intros ->; [rewrite (Ho (todo pr) q) in Eq|rewrite (Ho (delivered_death pr) q) in Eq]; try done; try congruence; set_solver. }
  destruct (IH _ p Hw1) as (H1 & H2 & H3); [done| |].
  { cbn [wl set_wl]. intros m q Hm. simpl. intros [_ Eq]%lookup_delete_Some. apply (Ho m); [set_solver|done]. }
  cbn [wl set_wl] in *. split; [exact H1|]. split.
  - intros x. rewrite H2. simpl. destruct (on (wl s) !! x) as [m|] eqn:Ex.
    + destruct (decide (m = l)) as [->|Hne].
      * rewrite (map_lookup_filter_None_2 _ (on (wl s)) x); [simpl; by rewrite bool_decide_eq_true_2 by set_solver|]. right. intros y Ey. simpl. rewrite Ex in Ey. injection Ey as <-. auto.
      * rewrite (map_lookup_filter_Some_2 _ (on (wl s)) x m) by done. simpl. rewrite (bool_decide_ext (m ∈ l :: ls) (m ∈ ls)) by set_solver. done.
    + by rewrite (map_lookup_filter_None_2 _ (on (wl s)) x) by (by left).
  - intros m. rewrite H3. simpl. destruct (decide (m = l)) as [->|Hne]; [rewrite lookup_delete_eq, (bool_decide_eq_true_2 (l ∈ l :: ls)) by set_solver; by destruct (bool_decide _)|].
    rewrite lookup_delete_ne by done. rewrite (bool_decide_ext (m ∈ l :: ls) (m ∈ ls)) by set_solver. done.
Qed.

(** ** The release *)

Lemma wf_no_context s : wf s -> wf (set_context s None).
Proof.
  intros [Ht Hk Hc Hw Hd]. split; [by apply (trees_ext s)|by apply (links_ext s)| |by apply (works_ext s)|by apply (deaths_ext s)].
  destruct Hc as [C1 C2 C3]. split; simpl; [done| |done]. intros n nd E Hp. destruct (C2 n nd E Hp) as [H1 H2]. unfold context_share in *. destruct (is_context s n), (is_context (set_context s None) n) eqn:Ec; try lia; done.
Qed.

Lemma bounded_release N s s' :
  bounded N s -> (forall m md, nodes s' !! m = Some md -> exists md0, nodes s !! m = Some md0 /\ local_strong_refs md <= Z.max 0 (local_strong_refs md0) /\ local_weak_refs md <= Z.max 0 (local_weak_refs md0)) ->
  refs s' ⊆ refs s -> bounded N s'.
Proof.
  intros [B1 B2 B3] Hn Hr. split.
  - intros m md Em. destruct (Hn m md Em) as (md0 & E0 & H). destruct (B1 m md0 E0). lia.
  - intros r rf E. apply (B2 r). by apply (lookup_weaken _ _ _ _ E).
  - pose proof (map_subseteq_size _ _ Hr). lia.
Qed.

Lemma drop_context s p :
  wf s -> exists s0, match context_mgr_node s with
                     | Some c => nd ← nodes s !! c; Some (if bool_decide (n_proc nd = Some p) then set_context s None else s)
                     | None => Some s
                     end = Some s0 /\ wf s0 /\ (s0 = s \/ s0 = set_context s None) /\ (forall n, context_mgr_node s0 = Some n -> context_mgr_node s = Some n /\ ~ node_of s p n) /\
    (forall n, context_mgr_node s = Some n -> ~ node_of s p n -> context_mgr_node s0 = Some n).
Proof.
  intros Hw. destruct (context_mgr_node s) as [c|] eqn:Ec; [|exists s; split_and!; try done; [by left|congruence]]. destruct (wc_context s (wf_c _ _ _ Hw) c Ec) as (nd & En & _). rewrite En. cbn [mbind option_bind].
  eexists. split; [done|]. destruct (bool_decide_reflect (n_proc nd = Some p)) as [Hp|Hp].
  - split; [by apply wf_no_context|]. split; [by right|]. split; [done|]. intros n [= <-] []. by exists nd.
  - split; [done|]. split; [by left|]. split; [|by intros n [= <-]]. intros n Hn. rewrite Ec in Hn. injection Hn as <-. split; [done|]. intros (nd' & En' & Hp'). congruence.
Qed.

Lemma deferred_release_ok N s p pr threads :
  wf s -> bounded N s -> procs s !! p = Some pr -> (forall l, l ∈ threads -> owner (wl s) !! l = Some p) ->
  exists s', binder_deferred_release s p threads = Some s' /\ wf s' /\ bounded N s' /\ procs s' !! p = None /\ (forall q, q <> p -> pkey <$> procs s' !! q = pkey <$> procs s !! q) /\
    (forall n, ~ node_of s' p n) /\ other_refs s s' p /\
    (forall n, context_mgr_node s' = Some n <-> context_mgr_node s = Some n /\ ~ node_of s p n) /\
    (forall l, owner (wl s') !! l = if bool_decide (l ∈ threads ++ [todo pr; delivered_death pr]) then None else owner (wl s) !! l) /\
    (forall r rf d, refs s !! r = Some rf -> r_proc rf <> p -> death rf = Some d -> node_of s p (r_node rf) -> notified s' rf d) /\
    (forall r rf d, refs s !! r = Some rf -> r_proc rf = p -> death rf = Some d -> deaths s' !! d = None) /\
    (forall r rf d, refs s !! r = Some rf -> r_proc rf <> p -> death rf = Some d -> ~ node_of s p (r_node rf) -> deaths s' !! d = deaths s !! d /\ on (wl s') !! d = on (wl s) !! d) /\
    (forall d, is_Some (deaths s !! d) -> unowned s d -> deaths s' !! d = deaths s !! d /\
       on (wl s') !! d = (l ← on (wl s) !! d; if bool_decide (l ∈ threads ++ [todo pr; delivered_death pr]) then None else Some l)).
Proof.
  intros Hw Hb Epr Hth. unfold binder_deferred_release. rewrite Epr. cbn [mbind option_bind]. destruct (drop_context s p Hw) as (s0 & -> & Hw0 & Hs0 & Hc0 & Hc0'). cbn [mbind option_bind].
  assert (F0 : nodes s0 = nodes s /\ refs s0 = refs s /\ procs s0 = procs s /\ wl s0 = wl s /\ deaths s0 = deaths s) by (by destruct Hs0 as [-> | ->]). destruct F0 as (Fn & Fr & Fp & Fw & Fd).
  assert (Hown : forall l, l ∈ threads ++ [todo pr; delivered_death pr] -> owner (wl s) !! l = Some p).
  { destruct (ww_proc s (wf_w _ _ _ Hw) p pr Epr) as (T1 & T2 & _). intros l [Hl|[->|[->|?%elem_of_nil]%elem_of_cons]%elem_of_cons]%elem_of_app; [by apply Hth|done|done|done]. }
  destruct (release_works_ok threads s0 Hw0) as (w1 & -> & Hw1 & Ho1 & Hx1); [rewrite Fw; intros l Hl; rewrite (Hth l Hl); eauto|]. cbn [mbind option_bind]. set (s1 := set_wl s0 w1) in *.
  assert (N1 : forall n, node_of s1 p n <-> node_of s p n) by (intros n; unfold node_of, s1; simpl; by rewrite Fn).
  assert (P1 : procs s1 !! p = Some pr) by (unfold s1; simpl; by rewrite Fp).
  destruct (release_nodes_ok (length (Rbtree.elements (nodes_t pr))) s1 p pr Hw1 P1) as (s2 & -> & Hw2 & Hrel & Hno2); [intros n Hn; rewrite N1; by apply Hc0|done|]. cbn [mbind option_bind].
  destruct (fmap_eq_Some _ _ _ _ (rl_procs _ _ _ Hrel p) P1) as (pr2 & P2 & [= K1 K2 K3 K4]).
  destruct (release_refs_ok (length (Rbtree.elements (refs_by_desc pr))) s2 p pr2 Hw2 P2) as (s3 & -> & Hw3 & Hk3 & Hr3 & Hd3); [by rewrite K1|]. cbn [mbind option_bind].
  assert (E3 : owner (wl s3) = owner (wl s)) by (rewrite (kp_owner _ _ Hk3), (rl_owner _ _ _ Hrel); simpl; by rewrite Ho1, Fw).
  destruct (ww_proc s (wf_w _ _ _ Hw) p pr Epr) as (T1 & T2 & _).
  destruct (release_works_ok [todo pr] s3 Hw3) as (w4 & -> & Hw4 & Ho4 & Hx4). { intros l ->%list_elem_of_singleton. rewrite E3, T1. eauto. } cbn [mbind option_bind]. set (s4 := set_wl s3 w4) in *.
  assert (R3 : other_refs s s3 p) by (intros r; rewrite (Hr3 r), (rl_refs _ _ _ Hrel); simpl; by rewrite Fr).
  assert (Hno4 : forall n, ~ node_of s4 p n). { intros n (md & Em & Hm). destruct (kp_nodes _ _ Hk3 n md Em) as (md0 & Em0 & [= Hk _ _]). apply (Hno2 n). exists md0. split; [done|congruence]. }
  assert (Hnr4 : forall r, ~ ref_of s4 None p r). { intros r (_ & rf & E & Hp). simpl in E. rewrite (R3 r) in E. destruct (refs s !! r) as [rf0|]; [|done]. simpl in E. case_bool_decide; [done|]. congruence. }
  destruct (wf_kfree_lists (threads ++ [todo pr; delivered_death pr]) (del_proc s4 p) p (wf_del_proc s4 p Hw4 Hno4 Hnr4)) as (Hw5 & Hx5 & Ho5).
  { simpl. apply lookup_delete_eq. }
  { simpl. rewrite Ho4, E3. intros l q Hl. assert (owner (wl s) !! l = Some p) by (apply elem_of_app in Hl as [Hl|[->|[->|?%elem_of_nil]%elem_of_cons]%elem_of_cons]; [by apply Hth|done|done|done]). congruence. }
  simpl in Hx5, Ho5. eexists. split; [done|]. split; [exact Hw5|]. simpl.
  assert (Hpk : forall q, pkey <$> procs s3 !! q = pkey <$> procs s !! q) by (intros q; rewrite (kp_procs _ _ Hk3 q), (ptkey_pkey _ _ (rl_procs _ _ _ Hrel q)); simpl; by rewrite Fp).
  split_and!.
  - apply (bounded_release N s _ Hb); simpl.
    + intros m md Em. destruct (kp_nodes _ _ Hk3 m md Em) as (md2 & E2 & [= _ -> ->]). destruct (rl_nodes _ _ _ Hrel m md2 E2) as (md0 & E0 & Hmd). exists md0. split; [simpl in E0; by rewrite <- Fn|].
      destruct Hmd as [->|[_ ->]]; simpl; lia.
    + apply map_subseteq_spec. intros r rf. rewrite (R3 r). destruct (refs s !! r) as [rf0|]; [|done]. simpl. case_bool_decide; [done|]. by intros [= <-].
  - apply lookup_delete_eq.
  - intros q Hq. rewrite lookup_delete_ne by done. apply Hpk.
  - exact Hno4.
  - exact R3.
  - intros n. rewrite (kp_context _ _ Hk3), (rl_context _ _ _ Hrel). simpl. split; [apply Hc0|]. intros [H1 H2]. by apply Hc0'.
  - intros l. by rewrite Ho5, Ho4, E3.
  - intros r rf d Er Hp Hd Hn. assert (Er1 : refs s1 !! r = Some rf) by (simpl; by rewrite Fr).
    pose proof (rl_notified _ _ _ Hrel r rf d Er1 Hd (proj2 (N1 _) Hn) (Hno2 _)) as Hnt.
    destruct (deaths_go_other s2 s3 p r rf d Hw2 Hd3) as [G1 G2]; [by rewrite (rl_refs _ _ _ Hrel)|done|done|]. apply (notified_ext s2 s3) in Hnt; [|apply (kp_procs _ _ Hk3)|done|done].
    destruct Hnt as (prr & dd & A1 & A2 & A3 & A4). exists prr, dd. simpl. rewrite lookup_delete_ne by done. split; [done|]. split; [|done].
    destruct (ww_proc s3 (wf_w _ _ _ Hw3) _ prr A1) as (B1 & _ & _). rewrite E3 in B1.
    assert (Hm : todo prr ∉ threads ++ [todo pr; delivered_death pr]).
    { intros Hl. assert (owner (wl s) !! todo prr = Some p) by (apply elem_of_app in Hl as [Hl|[Hl|[Hl|?%elem_of_nil]%elem_of_cons]%elem_of_cons]; [by apply Hth|by rewrite Hl|by rewrite Hl|done]). congruence. }
    rewrite Hx5, Hx4, A2. cbn [mbind option_bind]. rewrite (bool_decide_eq_false_2 (todo prr ∈ [todo pr])) by set_solver. cbn [mbind option_bind]. by rewrite bool_decide_eq_false_2.
  - intros r rf d Er Hp Hd. destruct Hd3 as (_ & D2 & _). apply (D2 r rf d); [rewrite (rl_refs _ _ _ Hrel); simpl; by rewrite Fr|done|done].
  - intros r rf d Er Hp Hd Hn. assert (Er1 : refs s1 !! r = Some rf) by (simpl; by rewrite Fr). destruct (deaths_go_other s2 s3 p r rf d Hw2 Hd3) as [G1 G2]; [by rewrite (rl_refs _ _ _ Hrel)|done|done|].
    destruct (rl_other _ _ _ Hrel r rf d Er1 Hd) as [G3 G4]; [intros Hy; by apply N1 in Hy|]. split; [rewrite G2, G4; simpl; by rewrite Fd|].
    rewrite Hx5, Hx4, G1, G3. simpl. rewrite Hx1, Fw. destruct (on (wl s) !! d) as [l|] eqn:El; [|done]. cbn [mbind option_bind].
    destruct (wd_death s (wf_d _ _ _ Hw) r rf d Er Hd) as (dd & _ & Hl & _). destruct (Hl l El) as [Hlo _].
    assert (Hm : l ∉ threads ++ [todo pr; delivered_death pr]) by (intros Hm; apply Hp; pose proof (Hown l Hm); congruence).
    rewrite bool_decide_eq_false_2 by set_solver. cbn [mbind option_bind]. rewrite bool_decide_eq_false_2 by set_solver. cbn [mbind option_bind]. by rewrite bool_decide_eq_false_2.
  - intros d Hd Hu. assert (Hd1 : is_Some (deaths s1 !! d)) by (simpl; by rewrite Fd). assert (Hu1 : unowned s1 d) by (unfold unowned; simpl; by rewrite Fr).
    destruct (rl_cleared _ _ _ Hrel d Hd1 Hu1) as [G3 G4]. destruct Hd3 as (_ & _ & D3). destruct (D3 d) as [G1 G2]; [by rewrite G4|intros r rf; rewrite (rl_refs _ _ _ Hrel); intros Er _; by apply (Hu1 r rf)|].
    split; [rewrite G2, G4; simpl; by rewrite Fd|]. rewrite Hx5, Hx4, G1, G3. simpl. rewrite Hx1, Fw. destruct (on (wl s) !! d) as [l|]; [|done]. cbn [mbind option_bind].
    destruct (decide (l ∈ threads)) as [Hl|Hl]; [rewrite !bool_decide_eq_true_2 by set_solver; done|]. rewrite (bool_decide_eq_false_2 (l ∈ threads)) by done. cbn [mbind option_bind].
    destruct (decide (l = todo pr)) as [->|Hl2]; [rewrite !bool_decide_eq_true_2 by set_solver; done|]. rewrite (bool_decide_eq_false_2 (l ∈ [todo pr])) by set_solver. done.
Qed.

End BinderDeath.
