(* ===== verification/BinderObject.v ===== *)
(** * drivers/staging/android/binder.c: objects in transactions, and all operations together

    What [binder_transaction] does with a node or a handle inside the data it sends, and
    what is undone when the buffer is released; opening the device and the lists of the
    threads.  Then all operations on nodes, references and death notifications as steps of
    one machine that starts without processes. *)
From S2P Require Import Prelude Rbtree OrdTree BinderRef BinderDeath.
Import OrdTree BinderRef BinderDeath.

Module BinderObject.

(** ** Objects in the data of a transaction *)

(** [BINDER_TYPE_BINDER] and [BINDER_TYPE_HANDLE], their weak variants with [false] *)
Inductive flat_binder_object := FBinder (strong : bool) (binder cookie : Z) | FHandle (strong : bool) (handle : Z).

(** [ENotSet]: the error path without a value for [return_error] *)
Inductive translate_error := BR_FAILED_REPLY | ENotSet.

(** The process [p] sends the object to the process [q]; [thread_todo] is the list of the
    sending thread. *)
Definition translate_object (s : state) (p q thread_todo : Z) (fp : flat_binder_object) (new_node new_ref : option Z)
    : option (state * (translate_error + flat_binder_object)) :=
  match fp with
  | FBinder strong binder cookie =>
      r ← binder_get_node s p binder;
      '(s, r) ← match r with Some n => Some (s, Some n) | None => binder_new_node s p binder cookie new_node end;
      match r with
      | None => Some (s, inl BR_FAILED_REPLY)
      | Some n =>
          nd ← nodes s !! n;
          if negb (cookie =? n_cookie nd) then Some (s, inl ENotSet)
          else
            '(s, r) ← binder_get_ref_for_node s q n new_ref;
            match r with
            | None => Some (s, inl BR_FAILED_REPLY)
            | Some r =>
                rf ← refs s !! r;
                '(s, _) ← binder_inc_ref s r strong (Some thread_todo);
                Some (s, inr (FHandle strong (desc rf)))
            end
      end
  | FHandle strong handle =>
      r ← binder_get_ref s p handle;
      match r with
      | None => Some (s, inl BR_FAILED_REPLY)
      | Some r =>
          rf ← refs s !! r;
          nd ← nodes s !! r_node rf;
          if bool_decide (n_proc nd = Some q) then
            '(s, _) ← binder_inc_node s (r_node rf) strong false None;
            Some (s, inr (FBinder strong (n_ptr nd) (n_cookie nd)))
          else
            '(s, r) ← binder_get_ref_for_node s q (r_node rf) new_ref;
            match r with
            | None => Some (s, inl BR_FAILED_REPLY)
            | Some r =>
                rf ← refs s !! r;
                '(s, _) ← binder_inc_ref s r strong None;
                Some (s, inr (FHandle strong (desc rf)))
            end
      end
  end.

(** The object is in a buffer of the process [p] that is released. *)
Definition release_object (s : state) (p : Z) (fp : flat_binder_object) : option state :=
  match fp with
  | FBinder strong binder _ =>
      r ← binder_get_node s p binder;
      match r with
      | None => Some s
      | Some n => binder_dec_node s n strong false
      end
  | FHandle strong handle =>
      r ← binder_get_ref s p handle;
      match r with
      | None => Some s
      | Some r => '(s, _) ← binder_dec_ref s r strong; Some s
      end
  end.

(** ** Processes and threads come and go *)

Definition INIT_LIST_HEAD (w : worklists) (l p : Z) : worklists := mkwl (<[l := []]> (lists w)) (on w) (<[l := p]> (owner w)).

Definition binder_open (s : state) (p todo delivered : Z) : state :=
  set_proc (set_wl s (INIT_LIST_HEAD (INIT_LIST_HEAD (wl s) todo p) delivered p)) p (mkproc Rbtree.Leaf Rbtree.Leaf Rbtree.Leaf todo delivered).

(** The list of a new thread of [binder_get_thread], and its end in [binder_free_thread] *)
Definition new_thread_todo (s : state) (p l : Z) : state := set_wl s (INIT_LIST_HEAD (wl s) l p).

Definition free_thread_todo (s : state) (l : Z) : option state :=
  w ← binder_release_work (wl s) l;
  Some (set_wl s (kfree_list w l)).

(** ** All operations as one machine *)

#[export] Instance covered_dec s n nd : Decision (covered s n nd).
Proof. unfold covered. apply _. Defined.

Inductive op :=
  | Open (p todo delivered : Z)
  | NewThread (p l : Z)
  | FreeThread (p l : Z)
  | Refs (p : Z) (cmd : refs_cmd) (target : Z) (new : option Z)
  | Done (p : Z) (acquire : bool) (ptr cookie : Z)
  | SetContextMgr (uid p euid : Z) (new : option Z)
  | RequestDeath (p target cookie : Z) (new thread : option Z)
  | ClearDeath (p target cookie : Z) (thread : option Z)
  | DeadBinderDone (p cookie : Z) (thread : option Z)
  | ReadWork (p l : Z) (wait_for_proc_work : bool)
  | Send (p q l : Z) (fp : flat_binder_object) (new_node new_ref : option Z)
  | ReleaseObject (p : Z) (fp : flat_binder_object)
  | HoldTarget (n : Z)
  | DropTarget (n : Z)
  | Release (p : Z) (threads : list Z).

(** The debug mask of the driver as it is loaded; [step] and all that follows take the
    mask that is set. *)
Definition binder_debug_mask : Z := Z.lor (Z.lor (Z.shiftl 1 0) (Z.shiftl 1 1)) (Z.shiftl 1 2).

Definition step (mask : Z) (s : state) (o : op) : option state :=
  match o with
  | Open p todo delivered => Some (binder_open s p todo delivered)
  | NewThread p l => Some (new_thread_todo s p l)
  | FreeThread p l => free_thread_todo s l
  | Refs p cmd target new => binder_refs_command mask s p cmd target new
  | Done p acquire ptr cookie => binder_done_command mask s p acquire ptr cookie
  | SetContextMgr uid p euid new => '(s, _, _) ← binder_set_context_mgr s uid p euid new; Some s
  | RequestDeath p target cookie new thread => binder_request_death s p target cookie new thread
  | ClearDeath p target cookie thread => binder_clear_death s p target cookie thread
  | DeadBinderDone p cookie thread => binder_dead_binder_done s p cookie thread
  | ReadWork p l wait => fst <$> binder_read_work s p l wait
  | Send p q l fp new_node new_ref => fst <$> translate_object s p q l fp new_node new_ref
  | ReleaseObject p fp => release_object s p fp
  | HoldTarget n => fst <$> binder_inc_node s n true false None
  | DropTarget n => binder_dec_node s n true false
  | Release p threads => binder_deferred_release s p threads
  end.

(** What the callers see to: processes and threads that exist, addresses from [kzalloc]
    that are not in use, local counts that are held when they are given back.  The first
    use of handle 0 must find memory: the code does not check ([handle_0_no_memory]). *)
Definition proc_ok (s : state) (p : Z) : bool := bool_decide (is_Some (procs s !! p)).
Definition list_ok (s : state) (p l : Z) : bool := bool_decide (owner (wl s) !! l = Some p) && bool_decide (map_Forall (fun _ pr => l <> delivered_death pr) (procs s)).
Definition thread_list_ok (s : state) (p : Z) (t : option Z) : bool := match t with Some l => list_ok s p l | None => true end.
Definition free_ok (s : state) (a : Z) : bool := bool_decide (nodes s !! a = None) && bool_decide (refs s !! a = None) && bool_decide (deaths s !! a = None).
Definition new_ok (s : state) (x : option Z) : bool := match x with Some a => free_ok s a | None => true end.
Definition held_ok (s : state) (n : Z) (st : bool) : bool := match nodes s !! n with Some nd => bool_decide (covered s n (counted nd st false (-1))) | None => false end.

Definition op_ok (s : state) (o : op) : bool :=
  match o with
  | Open p todo delivered =>
      negb (proc_ok s p) && bool_decide (owner (wl s) !! todo = None) && bool_decide (owner (wl s) !! delivered = None) && bool_decide (todo <> delivered)
  | NewThread p l => proc_ok s p && bool_decide (owner (wl s) !! l = None)
  | FreeThread p l => list_ok s p l && bool_decide (map_Forall (fun _ pr => l <> todo pr) (procs s))
  | Refs p _ target new => proc_ok s p && new_ok s new && (bool_decide (new <> None) || bool_decide (target <> 0))
  | Done p _ _ _ => proc_ok s p
  | SetContextMgr _ p _ new => proc_ok s p && new_ok s new
  | RequestDeath p _ _ new thread => proc_ok s p && new_ok s new && thread_list_ok s p thread
  | ClearDeath p _ _ thread | DeadBinderDone p _ thread => proc_ok s p && thread_list_ok s p thread
  | ReadWork p l _ => proc_ok s p && list_ok s p l
  | Send p q l _ new_node new_ref =>
      proc_ok s p && proc_ok s q && list_ok s p l && new_ok s new_node && new_ok s new_ref && (bool_decide (new_node <> new_ref) || bool_decide (new_node = None))
  | ReleaseObject p (FBinder st b _) => proc_ok s p && match binder_get_node s p b with Some (Some n) => held_ok s n st | _ => true end
  | ReleaseObject p (FHandle _ _) => proc_ok s p
  | HoldTarget n => bool_decide (is_Some (nodes s !! n))
  | DropTarget n => held_ok s n true
  | Release p threads => proc_ok s p && forallb (fun l => bool_decide (owner (wl s) !! l = Some p)) threads
  end.

Fixpoint steps (mask : Z) (s : state) (ops : list op) : option state :=
  match ops with [] => Some s | o :: ops => s ← step mask s o; steps mask s ops end.

(** Every operation is as its caller has to see to, in the state it meets. *)
Fixpoint legal (mask : Z) (s : state) (ops : list op) : bool :=
  match ops with
  | [] => true
  | o :: ops => op_ok s o && match step mask s o with Some s => legal mask s ops | None => true end
  end.

Definition init : state := mkstate ∅ ∅ ∅ ∅ (mkwl ∅ ∅ ∅) [] None.

(** ** Objects keep their identity *)

(** [fp] stands for the node [n] in the process [p]. *)
Definition names (s : state) (p : Z) (fp : flat_binder_object) (n : Z) : Prop :=
  match fp with
  | FBinder _ b c => exists nd, nodes s !! n = Some nd /\ n_proc nd = Some p /\ n_ptr nd = b /\ n_cookie nd = c
  | FHandle _ h => exists r rf, refs s !! r = Some rf /\ r_proc rf = p /\ desc rf = h /\ r_node rf = n
  end.

Definition object_strong (fp : flat_binder_object) : bool := match fp with FBinder st _ _ | FHandle st _ => st end.
Definition ref_count (rf : binder_ref) (st : bool) : Z := if st then strong rf else weak rf.

(** The handle [h] of the process [q] counts one more than before. *)
Definition raised (s s' : state) (q h : Z) (st : bool) : Prop :=
  exists r rf, refs s' !! r = Some rf /\ r_proc rf = q /\ desc rf = h /\ ref_count rf st = from_option (fun rf => ref_count rf st) 0 (refs s !! r) + 1.

(** References stay, with their names. *)
Definition refs_stay (s s' : state) : Prop := forall r rf, refs s !! r = Some rf -> exists rf', refs s' !! r = Some rf' /\ rkey rf' = rkey rf.

Lemma refs_stay_recounted s s' r rf st k : refs s !! r = Some rf -> refs s' = <[r := recounted rf st k]> (refs s) -> refs_stay s s'.
Proof.
  intros E E' x xf Ex. rewrite E'. destruct (decide (x = r)) as [->|]; [|exists xf; by rewrite lookup_insert_ne]. exists (recounted rf st k). rewrite lookup_insert_eq. split; [done|].
  assert (xf = rf) as -> by congruence. destruct (recounted_node rf st k) as (H1 & H2 & H3 & H4). unfold rkey. congruence.
Qed.

Lemma refs_stay_trans s1 s2 s3 : refs_stay s1 s2 -> refs_stay s2 s3 -> refs_stay s1 s3.
Proof. intros H1 H2 r rf E. destruct (H1 r rf E) as (rf1 & E1 & K1). destruct (H2 r rf1 E1) as (rf2 & E2 & K2). exists rf2. split; [done|congruence]. Qed.

Lemma names_handle_stay s s' p st h n : names s p (FHandle st h) n -> refs_stay s s' -> names s' p (FHandle st h) n.
Proof. intros (r & rf & E & H1 & H2 & H3) Hs. destruct (Hs r rf E) as (rf' & E' & [= K1 K2 K3]). exists r, rf'. split; [done|]. split_and!; congruence. Qed.

Lemma recounted_count rf st k : ref_count (recounted rf st k) st = ref_count rf st + k.
Proof. unfold ref_count, recounted. by destruct st. Qed.

Lemma kept_work_list s s' p l : kept s s' -> work_list s p l -> work_list s' p l.
Proof.
  intros Hk [H1 H2]. split; [by rewrite (kp_owner _ _ Hk)|]. intros q pr Eq. destruct (fmap_eq_Some _ _ _ _ (eq_sym (kp_procs _ _ Hk q)) Eq) as (pr0 & Eq0 & [= _ <-]). by apply (H2 q).
Qed.

Lemma kept_proc s s' p pr : kept s s' -> procs s !! p = Some pr -> exists pr', procs s' !! p = Some pr'.
Proof. intros Hk E. destruct (fmap_eq_Some _ _ _ _ (kp_procs _ _ Hk p) E) as (pr' & E' & _). eauto. Qed.

(** No reference holds the node strongly. *)
Definition not_held (s : state) (n : Z) : Prop := forall r rf, refs s !! r = Some rf -> r_node rf = n -> strong rf = 0.

(** The driver refuses the first count on a handle for [n] that is made from another
    handle ([refused]), and the sender does not learn of it. *)
Definition uncounted (s : state) (n : Z) (st : bool) : Prop := exists nd, nodes s !! n = Some nd /\ refused s n nd st.

(** The handle [h] of the process [q] has no count of this kind. *)
Definition no_count (s : state) (q h : Z) (st : bool) : Prop :=
  exists r rf, refs s !! r = Some rf /\ r_proc rf = q /\ desc rf = h /\ ref_count rf st = 0.

(** A handle for the node [n] in the process [q], and one count more on it. *)
Lemma hand_over N s q prq n nd st target new :
  wf s -> bounded N s -> N + 1 < INT_MAX -> procs s !! q = Some prq -> nodes s !! n = Some nd -> (forall r, new = Some r -> fresh s r) ->
  (forall l, target = Some l -> exists p, n_proc nd = Some p /\ work_list s p l) ->
  exists s1 r1, binder_get_ref_for_node s q n new = Some (s1, r1) /\ match r1 with
  | None => new = None /\ s1 = s
  | Some r => exists rf, refs s1 !! r = Some rf /\ exists s' ret, binder_inc_ref s1 r st target = Some (s', ret) /\ wf s' /\ bounded (N + 2) s' /\ kept s s' /\ refs_stay s s' /\
      names s' q (FHandle st (desc rf)) n /\ (raised s s' q (desc rf) st \/ (target = None /\ uncounted s n st /\ no_count s' q (desc rf) st))
  end.
Proof.
  intros Hw Hb HN Eq En Hf Ht. destruct (get_ref_for_node_ok N s q n nd prq new Hw Hb ltac:(lia) Eq En Hf) as (s1 & r1 & E1 & Hw1 & Hb1 & Hk1 & (Ewl & Hnd1) & Hr1). exists s1, r1. split; [done|].
  destruct r1 as [r|]; [|by destruct Hr1 as (? & ? & _)].
  assert (Hrf : exists rf, refs s1 !! r = Some rf /\ r_proc rf = q /\ r_node rf = n /\ refs_stay s s1 /\ ref_count rf st = from_option (fun rf => ref_count rf st) 0 (refs s !! r)).
  { destruct Hr1 as [(-> & (_ & rf & Er & Hp) & Hn)|(-> & _ & d & _ & Er)].
    - exists rf. unfold target_of in Hn. rewrite Er in Hn |- *. split; [done|]. split; [done|]. split; [done|]. split; [intros x xf Ex; eauto|done].
    - destruct (Hf r eq_refl) as (_ & Fr & _). exists (mkref q n d 0 0 None). rewrite Er, lookup_insert_eq, Fr. split; [done|]. split; [done|]. split; [done|]. split; [|by destruct st]. intros x xf Ex. rewrite Er, lookup_insert_ne by congruence. eauto. }
  destruct Hrf as (rf & Er & Hq & Hn & Hst & Hcnt). exists rf. split; [done|].
  destruct (inc_ref_ok (N + 1) s1 r rf st target Hw1 Hb1 ltac:(lia) Er) as (s' & ret & E' & Hw' & Hb' & Hk' & Hr').
  { intros l Hl. destruct (Ht l Hl) as (p & Hp & Hwl). rewrite Hn. destruct (wk_ref s1 _ None (wf_k _ _ _ Hw1) r rf ltac:(done) Er) as ((nd1 & En1 & _) & _). rewrite Hn in En1. exists nd1, p. split; [done|].
    split; [|by apply (kept_work_list s)]. destruct (kp_nodes _ _ Hk1 n nd1 En1) as (nd0 & En0 & [= -> _ _]). congruence. }
  exists s', ret. replace (N + 2) with (N + 1 + 1) by lia. split; [done|]. split; [done|]. split; [done|]. split; [by apply (kept_trans _ s1)|].
  destruct Hr' as [[-> Er']|(-> & Htg & Er' & H0 & ndr & Enr & Hz)].
  - split; [by apply (refs_stay_trans _ s1); [|apply (refs_stay_recounted s1 s' r rf st 1)]|]. destruct (recounted_node rf st 1) as (K1 & K2 & K3 & K4). split.
    + exists r, (recounted rf st 1). rewrite Er', lookup_insert_eq. split_and!; congruence.
    + left. exists r, (recounted rf st 1). rewrite Er', lookup_insert_eq, recounted_count. split_and!; congruence.
  - split; [intros x xf Ex; rewrite Er'; by apply Hst|]. split; [exists r, rf; rewrite Er'; split_and!; congruence|]. right. split; [done|].
    split; [|exists r, rf; rewrite Er'; split_and!; [done|done|done|by unfold ref_count]]. rewrite Hn in Enr, Hz. destruct (Hnd1 n ndr Enr) as (nd0 & En0 & Hndr). exists nd0. split; [done|]. rewrite Hndr in Hz.
    unfold refused in *. rewrite Ewl in Hz. unfold is_context in *. by rewrite (kp_context _ _ Hk1) in Hz.
Qed.

(** Sent as [fp] by [p], received as [fp'] by [q]: the same node, and one count more for
    it.  The one exception is a handle made from a handle whose first count the driver
    refuses. *)
Definition same_object (s s' : state) (p q : Z) (fp fp' : flat_binder_object) : Prop :=
  object_strong fp' = object_strong fp /\
  exists n, names s' p fp n /\ names s' q fp' n /\
    match fp, fp' with
    | FBinder st _ _, FHandle _ h => raised s s' q h st
    | FHandle st _, FHandle _ h => raised s s' q h st \/ (uncounted s n st /\ no_count s' q h st)
    | FHandle st _, FBinder _ _ _ => forall nd, nodes s !! n = Some nd -> nodes s' !! n = Some (counted nd st false 1)
    | FBinder _ _ _, FBinder _ _ _ => False
    end.

Definition not_sent (s s' : state) (p : Z) (fp : flat_binder_object) (e : translate_error) (out_of_memory : Prop) : Prop :=
  refs s' = refs s /\
  match e, fp with
  | ENotSet, FBinder _ b c => exists nd n, nodes s !! n = Some nd /\ n_proc nd = Some p /\ n_ptr nd = b /\ n_cookie nd <> c
  | ENotSet, FHandle _ _ => False
  | BR_FAILED_REPLY, FBinder _ _ _ => out_of_memory
  | BR_FAILED_REPLY, FHandle _ h => out_of_memory \/ forall n, ~ names s p fp n
  end.

Definition alloc_ok (s : state) (x : option Z) : Prop := forall a, x = Some a -> fresh s a.

Lemma send_binder N s p q prq l st b c n nd new :
  wf s -> bounded N s -> N + 1 < INT_MAX -> procs s !! q = Some prq -> work_list s p l -> nodes s !! n = Some nd -> n_proc nd = Some p -> n_ptr nd = b -> n_cookie nd = c -> alloc_ok s new ->
  exists s' res, ('(s, r) ← binder_get_ref_for_node s q n new;
      match r with
      | None => Some (s, inl BR_FAILED_REPLY)
      | Some r => rf ← refs s !! r; '(s, _) ← binder_inc_ref s r st (Some l); Some (s, inr (FHandle st (desc rf)))
      end) = Some (s', res) /\ wf s' /\ bounded (N + 2) s' /\
    match res with
    | inr fp' => same_object s s' p q (FBinder st b c) fp'
    | inl e => e = BR_FAILED_REPLY /\ refs s' = refs s /\ new = None
    end.
Proof.
  intros Hw Hb HN Eq Hl En Hp Hbn Hc Hf. destruct (hand_over N s q prq n nd st (Some l) new Hw Hb HN Eq En Hf) as (s1 & r1 & -> & H1); [intros l' [= <-]; eauto|]. cbn [mbind option_bind].
  destruct r1 as [r|]; [|destruct H1 as [-> ->]; eexists _, _; split; [done|]; split; [done|]; split; [apply (bounded_weaken N); [lia|done]|done]].
  destruct H1 as (rf & Er & s' & ret & E' & Hw' & Hb' & Hk & Hst & Hnm & Hra). rewrite Er. cbn [mbind option_bind]. rewrite E'. cbn [mbind option_bind]. eexists _, _. split; [done|]. split; [done|]. split; [done|].
  split; [done|]. exists n. split; [|split; [done|by destruct Hra as [|[? _]]]]. pose proof Hnm as (x & xf & Ex & _ & _ & Hx). destruct (wk_ref s' _ None (wf_k _ _ _ Hw') x xf ltac:(done) Ex) as ((nd' & En' & _) & _).
  rewrite Hx in En'. destruct (kp_nodes _ _ Hk n nd' En') as (nd0 & En0 & K). rewrite En in En0. injection En0 as <-. exists nd'. injection K as K1 K2 K3 K4 K5. split_and!; congruence.
Qed.

Lemma send_handle N s p q prq r rf st new :
  wf s -> bounded N s -> N + 1 < INT_MAX -> procs s !! q = Some prq -> refs s !! r = Some rf -> r_proc rf = p -> alloc_ok s new ->
  exists s' res, (nd ← nodes s !! r_node rf;
      if bool_decide (n_proc nd = Some q) then '(s, _) ← binder_inc_node s (r_node rf) st false None; Some (s, inr (FBinder st (n_ptr nd) (n_cookie nd)))
      else
        '(s, r) ← binder_get_ref_for_node s q (r_node rf) new;
        match r with
        | None => Some (s, inl BR_FAILED_REPLY)
        | Some r => rf ← refs s !! r; '(s, _) ← binder_inc_ref s r st None; Some (s, inr (FHandle st (desc rf)))
        end) = Some (s', res) /\ wf s' /\ bounded (N + 2) s' /\
    match res with
    | inr fp' => same_object s s' p q (FHandle st (desc rf)) fp'
    | inl e => e = BR_FAILED_REPLY /\ refs s' = refs s /\ new = None
    end.
Proof.
  intros Hw Hb HN Eq E Hp Hf. destruct (wk_ref s _ None (wf_k _ _ _ Hw) r rf ltac:(done) E) as ((nd & En & _) & _). rewrite En. cbn [mbind option_bind].
  assert (Hnm : names s p (FHandle st (desc rf)) (r_node rf)) by (exists r, rf; done).
  destruct (bool_decide_reflect (n_proc nd = Some q)) as [Hq|Hq].
  - destruct (local_inc_ok N s (r_node rf) nd st None Hw Hb ltac:(lia) En ltac:(done)) as (s' & ret & -> & Hw' & Hb' & Hst & En'). cbn [mbind option_bind]. eexists _, _. split; [done|]. split; [done|].
    split; [apply (bounded_weaken (N + 1)); [lia|done]|]. split; [done|]. exists (r_node rf). split; [exists r, rf; by rewrite (ns_refs _ _ _ Hst)|]. split.
    + exists (counted nd st false 1). done.
    + intros nd'. rewrite En. intros [= <-]. done.
  - destruct (hand_over N s q prq (r_node rf) nd st None new Hw Hb HN Eq En Hf ltac:(done)) as (s1 & r1 & -> & H1). cbn [mbind option_bind].
    destruct r1 as [r1|]; [|destruct H1 as [-> ->]; eexists _, _; split; [done|]; split; [done|]; split; [apply (bounded_weaken N); [lia|done]|done]].
    destruct H1 as (rf1 & Er1 & s' & ret & E' & Hw' & Hb' & Hk & Hst & Hnm' & Hra). rewrite Er1. cbn [mbind option_bind]. rewrite E'. cbn [mbind option_bind]. eexists _, _. split; [done|]. split; [done|].
    split; [done|]. split; [done|]. exists (r_node rf). split; [by apply (names_handle_stay s)|]. split; [done|]. destruct Hra as [Hra|[_ Hra]]; [by left|by right].
Qed.

Lemma translate_object_ok N s p q pr prq l fp new_node new_ref :
  wf s -> bounded N s -> N + 1 < INT_MAX -> procs s !! p = Some pr -> procs s !! q = Some prq -> work_list s p l ->
  alloc_ok s new_node -> alloc_ok s new_ref -> (new_node <> new_ref \/ new_node = None) ->
  exists s' res, translate_object s p q l fp new_node new_ref = Some (s', res) /\ wf s' /\ bounded (N + 2) s' /\
    match res with
    | inr fp' => same_object s s' p q fp fp'
    | inl e => not_sent s s' p fp e (new_node = None \/ new_ref = None)
    end.
Proof.
  intros Hw Hb HN Ep Eq Hl Fn Fr Hne. pose proof (bd_size N s Hb) as HN0. destruct fp as [st b c|st h]; unfold translate_object.
  - destruct (get_node_ok s p pr b Hw Ep) as (r & -> & Hr). cbn [mbind option_bind]. destruct r as [n|].
    + destruct (proj1 (Hr n) eq_refl) as [(nd & En & Hp) Hb']. unfold ptr_of in Hb'. rewrite En in Hb'. simpl in Hb'. cbn [mbind option_bind]. rewrite En. cbn [mbind option_bind].
      destruct (Z.eqb_spec c (n_cookie nd)) as [Hc|Hc]; cbn [negb].
      * destruct (send_binder N s p q prq l st b c n nd new_ref Hw Hb HN Eq Hl En Hp Hb' (eq_sym Hc) Fr) as (s' & res & -> & Hw' & Hb2 & Hres). eexists _, _. split; [done|]. split; [done|]. split; [done|].
        destruct res as [e|fp']; [|done]. destruct Hres as (-> & H1 & H2). split; [done|by right].
      * eexists _, _. split; [done|]. split; [done|]. split; [apply (bounded_weaken N); [lia|done]|]. split; [done|]. exists nd, n. split_and!; congruence.
    + destruct (new_node_ok N s p pr b c new_node Hw Hb ltac:(lia) Ep Fn) as (s1 & r1 & -> & Hw1 & Hb1 & Er1 & Ewl & _ & Hpk & Ed & Hr1). cbn [mbind option_bind]. destruct r1 as [n|].
      * destruct Hr1 as (-> & En1 & _). assert (Hn1 : nodes s1 !! n = Some (mknode (Some p) [] 0 0 0 b c false false false false)) by (by rewrite En1, lookup_insert_eq).
        rewrite Hn1. cbn [mbind option_bind]. simpl n_cookie. rewrite Z.eqb_refl. cbn [negb]. destruct (fmap_eq_Some _ _ _ _ (Hpk q) Eq) as (prq1 & Eq1 & _).
        assert (Hl1 : work_list s1 p l). { destruct Hl as [L1 L2]. split; [by rewrite Ewl|]. intros x prx Ex. destruct (fmap_eq_Some _ _ _ _ (eq_sym (Hpk x)) Ex) as (prx0 & Ex0 & [= _ <-]). by apply (L2 x). }
        assert (Fr1 : alloc_ok s1 new_ref). { intros a ->. destruct (Fr a eq_refl) as (A1 & A2 & A3). split; [rewrite En1, lookup_insert_ne; [done|destruct Hne; congruence]|by rewrite Er1, Ed]. }
        destruct (send_binder N s1 p q prq1 l st b c n _ new_ref Hw1 Hb1 HN Eq1 Hl1 Hn1 eq_refl eq_refl eq_refl Fr1) as (s' & res & -> & Hw' & Hb2 & Hres). eexists _, _. split; [done|]. split; [done|]. split; [done|].
        destruct res as [e|fp']; [destruct Hres as (-> & H1 & H2); split; [congruence|by right]|]. destruct Hres as (H1 & m & H2 & H3 & H4). split; [done|]. exists m. split; [done|]. split; [done|].
        destruct fp' as [|]; [done|]. unfold raised in *. by rewrite <- Er1.
      * destruct Hr1 as [-> [->|(n & Hn1 & Hn2)]]; [|by destruct (Hr n) as [_ H]; discriminate H]. eexists _, _. split; [done|]. split; [done|]. split; [apply (bounded_weaken N); [lia|done]|]. split; [done|by left].
  - destruct (get_ref_ok s p pr h Hw Ep) as (r & -> & Hr). cbn [mbind option_bind]. destruct r as [r|].
    + destruct (proj1 (Hr r) eq_refl) as [(_ & rf & E & Hp) Hd]. unfold desc_of in Hd. rewrite E in Hd. simpl in Hd. rewrite E. cbn [mbind option_bind].
      destruct (send_handle N s p q prq r rf st new_ref Hw Hb HN Eq E Hp Fr) as (s' & res & -> & Hw' & Hb2 & Hres). eexists _, _. split; [done|]. split; [done|]. split; [done|]. rewrite Hd in Hres.
      destruct res as [e|fp']; [|done]. destruct Hres as (-> & H1 & H2). split; [done|]. left. by right.
    + eexists _, _. split; [done|]. split; [done|]. split; [apply (bounded_weaken N); [lia|done]|]. split; [done|]. right. intros n (r & rf & E & Hp & Hd & _).
      destruct (Hr r) as [_ H]. discriminate H. split; [split; [done|by exists rf]|]. unfold desc_of. by rewrite E.
Qed.

(** ** The rest of the operations keep the invariant *)

(** The local count that a buffer with this object holds is there, beside the awaited
    acknowledgements and the context manager's own. *)
Definition count_held (s : state) (p : Z) (fp : flat_binder_object) : Prop :=
  match fp with
  | FBinder st b _ => forall n nd, nodes s !! n = Some nd -> n_proc nd = Some p -> n_ptr nd = b -> covered s n (counted nd st false (-1))
  | FHandle _ _ => True
  end.

Lemma release_object_ok N s p pr fp :
  wf s -> bounded N s -> procs s !! p = Some pr -> count_held s p fp -> exists s', release_object s p fp = Some s' /\ wf s' /\ bounded N s'.
Proof.
  intros Hw Hb Epr Hc. destruct fp as [st b c|st h]; unfold release_object.
  - destruct (get_node_ok s p pr b Hw Epr) as (r & -> & Hr). cbn [mbind option_bind]. destruct r as [n|]; [|eauto]. destruct (proj1 (Hr n) eq_refl) as [(nd & En & Hp) Hb'].
    unfold ptr_of in Hb'. rewrite En in Hb'. destruct (local_dec_ok N s n nd st Hw Hb En (Hc n nd En Hp Hb')) as (s' & -> & Hw' & Hb2 & _). eauto.
  - destruct (get_ref_ok s p pr h Hw Epr) as (r & -> & Hr). cbn [mbind option_bind]. destruct r as [r|]; [|eauto]. destruct (proj1 (Hr r) eq_refl) as [(_ & rf & E & _) _].
    destruct (dec_ref_ok N s r rf st Hw Hb E) as (s' & ret & -> & Hw' & Hb' & _). cbn [mbind option_bind]. eauto.
Qed.

Lemma wf_list_init s l p : wf s -> owner (wl s) !! l = None -> wf (set_wl s (INIT_LIST_HEAD (wl s) l p)).
Proof.
  intros [Ht Hk Hc Hw Hd] Hl. assert (Hll : lists (wl s) !! l = None). { destruct (lists (wl s) !! l) eqn:E; [|done]. destruct (proj1 (wo_owner _ (ww_wl s Hw) l) ltac:(eauto)) as [? ?]. congruence. }
  assert (Hown : forall m q, owner (wl s) !! m = Some q -> <[l := p]> (owner (wl s)) !! m = Some q) by (intros m q Hm; rewrite lookup_insert_ne by congruence; done).
  assert (Hon : forall x m, on (wl s) !! x = Some m -> m <> l). { intros x m Em ->. destruct (proj1 (wo_on _ (ww_wl s Hw) x l) Em) as (L & EL & _). congruence. }
  split; [by apply (trees_ext s)|by apply (links_ext s)|by apply (local_ext s)| |].
  - destruct Hw as [[V1 V2 V3] W2 W3 W4 W5]. split; simpl; [| |intros n nd m En Em|intros q pr Eq|done].
    + split; simpl.
      * intros x m. rewrite V1. destruct (decide (m = l)) as [->|]; [|by rewrite lookup_insert_ne]. rewrite lookup_insert_eq, Hll. split; [by intros (L & [=] & _)|intros (L & [= <-] & H); set_solver].
      * intros m L. destruct (decide (m = l)) as [->|]; [rewrite lookup_insert_eq; intros [= <-]; apply NoDup_nil_2|rewrite lookup_insert_ne by done; apply V2].
      * intros m. destruct (decide (m = l)) as [->|]; [rewrite !lookup_insert_eq; split; eauto|by rewrite !lookup_insert_ne].
    + done.
    + destruct (W3 n nd m En Em) as (q & H1 & H2 & H3). eauto 6.
    + destruct (W4 q pr Eq) as (H1 & H2 & H3). auto.
  - destruct Hd as [D1 D2]. split; simpl; [|done]. intros r rf d E Ed. destruct (D1 r rf d E Ed) as (dd & H1 & H2 & H3). exists dd. split; [done|]. split; [|done]. intros m Em. destruct (H2 m Em). auto.
Qed.

Lemma wf_add_proc s p todo delivered :
  wf s -> procs s !! p = None -> owner (wl s) !! todo = Some p -> owner (wl s) !! delivered = Some p -> todo <> delivered -> (forall x, on (wl s) !! x <> Some delivered) ->
  wf (set_proc s p (mkproc Rbtree.Leaf Rbtree.Leaf Rbtree.Leaf todo delivered)).
Proof.
  intros [Ht Hk Hc Hw Hd] Hp H1 H2 H3 H4. split; [|by apply (links_ext s)|by apply (local_ext s)| |by apply (deaths_ext s)].
  - destruct Ht as [T1 T2 T3 T4 T5]. assert (Hn : forall n, ~ node_of s p n) by (intros n Hn; destruct (T4 p n Hn); congruence). assert (Hr : forall r, ~ ref_of s None p r) by (intros r Hr; destruct (T5 p r Hr); congruence).
    assert (Hleaf : forall (P : Z -> Prop) R, (forall x, ~ P x) -> tree_ok Rbtree.Leaf P R).
    { intros P R HP. split; [eexists; constructor|intros x; simpl; split; [set_solver|by intros ?%HP]|apply NoDup_nil_2|constructor]. }
    split; simpl; [intros q pr Eq; destruct (decide (q = p)) as [->|]; [rewrite lookup_insert_eq in Eq; injection Eq as <-; by apply Hleaf|rewrite lookup_insert_ne in Eq by done; first [exact (T1 q pr Eq)|exact (T2 q pr Eq)|exact (T3 q pr Eq)]].. | |].
    + intros q n Hq. apply lookup_insert_is_Some'. right. by apply (T4 q n).
    + intros q r Hq. apply lookup_insert_is_Some'. right. by apply (T5 q r).
  - destruct Hw as [W1 W2 W3 W4 W5]. split; simpl; [done|done| | |done].
    + intros n nd l En El. destruct (W3 n nd l En El) as (q & A1 & A2 & A3). exists q. split; [done|]. split; [done|]. intros q' pr Eq. destruct (decide (q' = p)) as [->|].
      * rewrite lookup_insert_eq in Eq. injection Eq as <-. simpl. intros ->. by apply (H4 n).
      * rewrite lookup_insert_ne in Eq by done. by apply (A3 q').
    + intros q pr Eq. destruct (decide (q = p)) as [->|]; [rewrite lookup_insert_eq in Eq; by injection Eq as <-|rewrite lookup_insert_ne in Eq by done; by apply W4].
Qed.

Lemma open_ok s p todo delivered :
  wf s -> procs s !! p = None -> owner (wl s) !! todo = None -> owner (wl s) !! delivered = None -> todo <> delivered -> wf (binder_open s p todo delivered).
Proof.
  intros Hw Hp H1 H2 H3. pose proof (wf_list_init s todo p Hw H1) as Hw1. assert (H2' : owner (wl (set_wl s (INIT_LIST_HEAD (wl s) todo p))) !! delivered = None) by (simpl; by rewrite lookup_insert_ne).
  pose proof (wf_list_init _ delivered p Hw1 H2') as Hw2. apply (wf_add_proc _ p todo delivered Hw2); simpl; [done|rewrite lookup_insert_ne, lookup_insert_eq by done; done|apply lookup_insert_eq|done|].
  intros x Hx. destruct (proj1 (wo_on _ (ww_wl s (wf_w _ _ _ Hw)) x delivered) Hx) as (L & EL & _). destruct (proj1 (wo_owner _ (ww_wl s (wf_w _ _ _ Hw)) delivered) ltac:(eauto)) as [? ?]. congruence.
Qed.

Lemma free_thread_ok s p l :
  wf s -> work_list s p l -> (forall pr, procs s !! p = Some pr -> l <> todo pr) -> exists w, free_thread_todo s l = Some (set_wl s w) /\ wf (set_wl s w).
Proof.
  intros Hw [Hl1 Hl2] Ht. unfold free_thread_todo. destruct (release_work_ok s l Hw) as (w & -> & Hw1 & Ho & Hx); [rewrite Hl1; eauto|]. cbn [mbind option_bind]. eexists. split; [done|].
  apply (wf_kfree (set_wl s w) l Hw1). simpl. intros q pr Eq. split; [|by apply (Hl2 q)]. intros ->. destruct (ww_proc s (wf_w _ _ _ Hw) q pr Eq) as (H1 & _). apply (Ht pr); [congruence|done].
Qed.

(** ** Every operation succeeds and keeps the invariant *)

Lemma proc_ok_spec s p : proc_ok s p = true -> exists pr, procs s !! p = Some pr.
Proof. unfold proc_ok. by intros H%bool_decide_eq_true. Qed.

Lemma list_ok_spec s p l : list_ok s p l = true -> work_list s p l.
Proof. unfold list_ok. intros [H1%bool_decide_eq_true H2%bool_decide_eq_true]%andb_true_iff. split; [done|]. intros q pr Eq. by apply (H2 q). Qed.

Lemma thread_list_spec s p t : thread_list_ok s p t = true -> thread_ok s p t.
Proof. intros H l ->. by apply list_ok_spec. Qed.

Lemma new_ok_spec s x : new_ok s x = true -> alloc_ok s x.
Proof. intros H a ->. simpl in H. unfold free_ok in H. apply andb_true_iff in H as [[H1%bool_decide_eq_true H2%bool_decide_eq_true]%andb_true_iff H3%bool_decide_eq_true]. done. Qed.

Lemma held_ok_spec s n st : held_ok s n st = true -> exists nd, nodes s !! n = Some nd /\ covered s n (counted nd st false (-1)).
Proof. unfold held_ok. destruct (nodes s !! n) as [nd|]; [|done]. intros H%bool_decide_eq_true. eauto. Qed.

Lemma alternative (P Q : Prop) `{Decision P, Decision Q} : bool_decide P || bool_decide Q = true -> P \/ Q.
Proof. intros [?%bool_decide_eq_true|?%bool_decide_eq_true]%orb_true_iff; auto. Qed.

Ltac op_ok_facts :=
  repeat match goal with
  | H : _ && _ = true |- _ => apply andb_true_iff in H as [? ?]
  | H : proc_ok _ _ = true |- _ => apply proc_ok_spec in H as [? ?]
  | H : list_ok _ _ _ = true |- _ => apply list_ok_spec in H
  | H : thread_list_ok _ _ _ = true |- _ => apply thread_list_spec in H
  | H : new_ok _ _ = true |- _ => apply new_ok_spec in H
  | H : held_ok _ _ _ = true |- _ => apply held_ok_spec in H as (? & ? & ?)
  | H : bool_decide _ || bool_decide _ = true |- _ => apply alternative in H
  | H : bool_decide _ = true |- _ => apply bool_decide_eq_true in H
  end.

Lemma bounded_wl N s w : bounded N s -> bounded N (set_wl s w).
Proof. by intros [? ? ?]; split. Qed.

Lemma process_step_ok mask N s o :
  wf s -> bounded N s -> op_ok s o = true -> match o with Open _ _ _ | NewThread _ _ | FreeThread _ _ | Release _ _ => True | _ => False end ->
  exists s', step mask s o = Some s' /\ wf s' /\ bounded N s'.
Proof.
  intros Hw Hb Hok Ho. destruct o as [p todo delivered|p l|p l| | | | | | | | | | | |p threads]; try done; clear Ho; simpl in *; op_ok_facts.
  - eexists. split; [done|]. split; [|by destruct Hb; split]. apply open_ok; try done. destruct (procs s !! p) eqn:E; [|done]. unfold proc_ok in *. rewrite E in *. by rewrite bool_decide_eq_true_2 in *.
  - eexists. split; [done|]. split; [by apply wf_list_init|by apply bounded_wl].
  - destruct (free_thread_ok s p l Hw) as (w & -> & Hw'); [done|intros pr Epr; match goal with H : map_Forall _ _ |- _ => by apply (H p pr) end|]. eexists. split; [done|]. split; [done|by apply bounded_wl].
  - match goal with H : forallb _ _ = true |- _ => rewrite forallb_forall in H end.
    match goal with E : procs s !! p = Some ?pr, H : forall x, In x threads -> _ |- _ => destruct (deferred_release_ok N s p pr threads Hw Hb E) as (s' & -> & Hw' & Hb' & _);
      [intros l Hl; apply list_elem_of_In, H in Hl; by apply bool_decide_eq_true in Hl|eauto] end.
Qed.

(** The end of a step: the state that was reached, whose counts are at most [M]. *)
Ltac reached s' M := exists s'; split; [done|]; split; [done|]; apply (bounded_weaken M); [lia|done].

Lemma object_step_ok mask N s o :
  wf s -> bounded N s -> N + 1 < INT_MAX -> op_ok s o = true ->
  match o with Send _ _ _ _ _ _ | ReleaseObject _ _ | HoldTarget _ | DropTarget _ | ReadWork _ _ _ => True | _ => False end ->
  exists s', step mask s o = Some s' /\ wf s' /\ bounded (N + 2) s'.
Proof.
  intros Hw Hb HN Hok Ho. destruct o as [| | | | | | | | |p l wait|p q l fp nn nr|p fp|n|n|]; try done; clear Ho; simpl in *.
  - op_ok_facts. destruct (read_work_ok N s p x l wait Hw Hb ltac:(lia)) as (s' & c & -> & Hw' & Hb'); [done|done|]. reached s' (N + 1).
  - op_ok_facts. destruct (translate_object_ok N s p q x0 x l fp nn nr Hw Hb HN) as (s' & res & -> & Hw' & Hb' & _); [done|done|done|done|done|done|]. reached s' (N + 2).
  - assert (Hp : proc_ok s p = true) by (by destruct fp; [apply andb_true_iff in Hok as [? _]|]). apply proc_ok_spec in Hp as [pr Epr].
    destruct (release_object_ok N s p pr fp Hw Hb Epr) as (s' & -> & Hw' & Hb'); [|reached s' N].
    destruct fp as [st b c|]; [|done]. intros n nd En Hp Hbn. op_ok_facts. destruct (get_node_ok s p pr b Hw Epr) as (r & Er & Hr). rewrite Er in *.
    assert (r = Some n) as -> by (apply Hr; split; [by exists nd|unfold ptr_of; by rewrite En]). op_ok_facts. congruence.
  - op_ok_facts. destruct Hok as [nd En]. destruct (local_inc_ok N s n nd true None Hw Hb ltac:(lia) En ltac:(done)) as (s' & ret & -> & Hw' & Hb' & _). reached s' (N + 1).
  - op_ok_facts. destruct (local_dec_ok N s n x true Hw Hb) as (s' & -> & Hw' & Hb' & _); [done|done|]. reached s' N.
Qed.

Lemma machine_step_ok mask N s o : debug_user_refs mask = false -> wf s -> bounded N s -> N + 1 < INT_MAX -> op_ok s o = true -> exists s', step mask s o = Some s' /\ wf s' /\ bounded (N + 2) s'.
Proof.
  intros Hm Hw Hb HN Hok. pose proof (bd_size N s Hb) as HN0.
  destruct o as [| | |p cmd target new|p acq ptr cookie|uid p euid new|p target cookie new th|p target cookie th|p cookie th| | | | | |]; try (by apply object_step_ok);
    try (destruct (process_step_ok mask N s _ Hw Hb Hok I) as (s' & -> & Hw' & Hb'); reached s' N); simpl in *; op_ok_facts.
  - destruct (refs_command_ok mask N s p x cmd target new Hm Hw Hb HN) as (s' & -> & Hw' & Hb' & _); [done|done|done|]. reached s' (N + 2).
  - destruct (done_command_ok mask N s p x acq ptr cookie Hm Hw Hb) as (s' & -> & Hw' & Hb'); [done|]. reached s' N.
  - destruct (set_context_ok (N + 1) s p x uid euid new Hw) as (s' & uid' & ret & -> & Hw' & Hb' & _); [apply (bounded_weaken N); [lia|done]|lia|done|done|]. reached s' (N + 1).
  - destruct (request_death_ok N s p x target cookie new th Hw Hb) as (s' & -> & Hw' & Hb' & _); [done|done|done|]. reached s' N.
  - destruct (clear_death_ok N s p x target cookie th Hw Hb) as (s' & -> & Hw' & Hb' & _); [done|done|]. reached s' N.
  - destruct (dead_binder_done_ok N s p x cookie th Hw Hb) as (s' & -> & Hw' & Hb' & _); [done|done|]. reached s' N.
Qed.

Lemma init_ok : wf init /\ bounded 0 init.
Proof.
  assert (Hno : forall {A} (k : Z) (x : A), (∅ : gmap Z A) !! k <> Some x) by (intros A k x; by rewrite lookup_empty).
  split; [|split; simpl; [intros n nd E; by apply Hno in E|intros r rf E; by apply Hno in E|by rewrite map_size_empty]].
  split; split; simpl; try (intros; exfalso; eapply Hno; eassumption).
  - intros p n (nd & E & _). by apply Hno in E.
  - intros p r (_ & rf & E & _). by apply Hno in E.
  - split; [apply NoDup_nil_2|]. intros n. split; [set_solver|]. intros (nd & E & _). by apply Hno in E.
  - done.
  - split; simpl; [intros x l; split; [intros E; by apply Hno in E|intros (L & E & _); by apply Hno in E]|intros l L E; by apply Hno in E|intros l; split; intros [x E]; by apply Hno in E].
  - intros x [nd E]. by apply Hno in E.
Qed.

Lemma steps_ok mask ops : debug_user_refs mask = false -> forall s N, wf s -> bounded N s -> N + 2 * Z.of_nat (length ops) <= INT_MAX -> legal mask s ops = true ->
  exists s', steps mask s ops = Some s' /\ wf s' /\ bounded (N + 2 * Z.of_nat (length ops)) s'.
Proof.
  intros Hm. induction ops as [|o ops IH]; intros s N Hw Hb HN Hl; simpl in *; [exists s; split; [done|]; split; [done|]; by rewrite Z.add_0_r|].
  apply andb_true_iff in Hl as [Ho Hl]. destruct (machine_step_ok mask N s o Hm Hw Hb ltac:(lia) Ho) as (s1 & E1 & Hw1 & Hb1). rewrite E1 in Hl |- *. cbn [mbind option_bind].
  destruct (IH s1 (N + 2) Hw1 Hb1 ltac:(lia) Hl) as (s' & E' & Hw' & Hb'). exists s'. split; [done|]. split; [done|]. by replace (N + 2 * Z.of_nat (S (length ops))) with (N + 2 + 2 * Z.of_nat (length ops)) by lia.
Qed.

(** The debug messages change no state: what the machine does with them it does without. *)
Lemma step_quiet mask s o s' : step mask s o = Some s' -> step 0 s o = Some s'.
Proof. destruct o; simpl; try done; [apply refs_command_quiet|apply done_command_quiet]. Qed.

Lemma steps_quiet mask ops : forall s s', legal mask s ops = true -> steps mask s ops = Some s' -> legal 0 s ops = true /\ steps 0 s ops = Some s'.
Proof.
  induction ops as [|o ops IH]; intros s s' Hl Hs; simpl in *; [done|]. apply andb_true_iff in Hl as [-> Hl]. destruct (step mask s o) as [s1|] eqn:E; [|done].
  rewrite (step_quiet mask s o s1 E). cbn [mbind option_bind andb] in *. by apply IH.
Qed.

(** States of the machine after fewer than 2^30 operations, with any messages *)
Definition reachable (s : state) : Prop := exists mask ops, legal mask init ops = true /\ 2 * Z.of_nat (length ops) < INT_MAX - 2 /\ steps mask init ops = Some s.

Lemma reachable_ok s : reachable s -> wf s /\ bounded (INT_MAX - 3) s.
Proof.
  intros (mask & ops & Hl' & Hn & E'). destruct (steps_quiet mask ops init s Hl' E') as [Hl E]. destruct init_ok as [Hw Hb]. destruct (steps_ok 0 ops eq_refl init 0 Hw Hb ltac:(lia) Hl) as (s' & E2 & Hw' & Hb').
  assert (s' = s) as -> by congruence. split; [done|]. apply (bounded_weaken (0 + 2 * Z.of_nat (length ops))); [lia|done].
Qed.

(** ** What the machine guarantees *)

(** C1. From the empty driver, every sequence of fewer than 2^30 operations (commands of
    processes, works, objects in transactions, deaths of processes) that is [legal] runs
    to its end: no operation uses a freed or missing object, fails an assertion, corrupts
    a list or overflows a count.  [legal] is what the callers have to see to: processes
    and lists exist, new addresses are not in use, a buffer gives back only local counts
    that are held, and the first reference to handle 0 finds memory.  The messages of
    BINDER_DEBUG_USER_REFS are off, as they are when the driver is loaded: the one behind
    the count commands reads a reference that may just have been freed
    ([message_reads_freed_ref]). *)
Theorem binder_objects_safe mask ops :
  debug_user_refs mask = false -> legal mask init ops = true -> 2 * Z.of_nat (length ops) < INT_MAX - 2 -> exists s, steps mask init ops = Some s.
Proof.
  intros Hm Hl Hn. destruct init_ok as [Hw Hb]. destruct (steps_ok mask ops Hm init 0 Hw Hb ltac:(lia) Hl) as (s & E & _). eauto.
Qed.

Definition holds (s : state) (r : Z) : bool := match refs s !! r with Some rf => 0 <? strong rf | None => false end.

Lemma strong_count_length s l : strong_count s l = Z.of_nat (length (List.filter (holds s) l)).
Proof. induction l as [|r l IH]; [done|]. rewrite strong_count_cons, IH. unfold held. simpl. unfold holds at 2. destruct (refs s !! r) as [rf|]; simpl; [|done]. destruct (0 <? strong rf); simpl; lia. Qed.

(** C4. In every state the driver reaches, a node lists exactly the references to it, once
    each, and its internal strong count is the number of those that hold it strongly; so a
    node with references is never freed, and the counts never drift. *)
Theorem binder_counts_exact s n nd :
  reachable s -> nodes s !! n = Some nd ->
  NoDup (n_refs nd) /\ (forall r, r ∈ n_refs nd <-> exists rf, refs s !! r = Some rf /\ r_node rf = n) /\
  internal_strong_refs nd = Z.of_nat (length (List.filter (holds s) (n_refs nd))).
Proof.
  intros [Hw _]%reachable_ok En. destruct (wk_node s _ None (wf_k _ _ _ Hw) n nd En) as (H1 & H2 & H3). split; [done|]. split; [|rewrite H3, strong_count_length; unfold none_off; lia].
  intros r. split; [apply H2|]. intros (rf & E & Hn). by apply (ref_listed s r rf n nd).
Qed.

(** A process has at most one reference to a node. *)
Lemma one_reference s p pr r r' n : wf s -> procs s !! p = Some pr -> ref_of s None p r -> ref_of s None p r' -> target_of s r = n -> target_of s r' = n -> r = r'.
Proof.
  intros Hw Epr Hr Hr' Hn Hn'. destruct (tree_search (refs_by_node pr) (ref_of s None p) (target_of s) (fun r => rf ← refs s !! r; Some (n ?= r_node rf)) n) as (o & _ & Ho);
    [by apply (wf_t _ _ _ Hw)|intros x (_ & rf & Ex & _); unfold target_of; by rewrite Ex|]. assert (o = Some r) by (by apply Ho). assert (o = Some r') by (by apply Ho). congruence.
Qed.

(** C8. A process has one reference per node.  If it has one to the node already, that one is
    returned and nothing changes; if it has none, a new one, without counts, gets the
    smallest descriptor that is free, counted from 1, or from 0 for the context manager;
    without memory nothing changes.  Afterwards the reference that is returned is the only
    one of the process to the node, and its descriptor leads to it. *)
Theorem binder_get_ref_for_node_correct s p n new :
  reachable s -> is_Some (procs s !! p) -> is_Some (nodes s !! n) -> alloc_ok s new ->
  exists s' r, binder_get_ref_for_node s p n new = Some (s', r) /\
    match r with
    | None => new = None /\ s' = s /\ forall x, ref_of s None p x -> target_of s x <> n
    | Some r => ref_of s' None p r /\ target_of s' r = n /\ binder_get_ref s' p (desc_of s' r) = Some (Some r) /\
        (forall x, ref_of s' None p x -> target_of s' x = n -> x = r) /\
        (s' = s \/
         new = Some r /\ (forall x, ref_of s None p x -> target_of s x <> n) /\ least_desc s p n (desc_of s' r) /\ refs s' = <[r := mkref p n (desc_of s' r) 0 0 None]> (refs s))
    end.
Proof.
  intros [Hw Hb]%reachable_ok [pr Epr] [nd En] Hf. destruct (get_ref_for_node_ok _ s p n nd pr new Hw Hb ltac:(lia) Epr En Hf) as (s' & r & E & Hw' & _ & Hk & _ & Hr). exists s', r. split; [done|].
  destruct r as [r|]; [|done]. destruct (kept_proc s s' p pr Hk Epr) as [pr' Epr'].
  assert (Hrf : exists rf, refs s' !! r = Some rf /\ r_proc rf = p /\ r_node rf = n).
  { destruct Hr as [(-> & (_ & rf & Er & Hp) & Hn)|(-> & _ & d & _ & Er)]; [exists rf; unfold target_of in Hn; by rewrite Er in *|]. rewrite Er, lookup_insert_eq. by eexists. }
  destruct Hrf as (rf & Er & Hp & Hn). assert (Hro : ref_of s' None p r) by (split; [done|by exists rf]). assert (Htg : target_of s' r = n) by (unfold target_of; by rewrite Er).
  split; [done|]. split; [done|]. split; [|split].
  - destruct (get_ref_ok s' p pr' (desc_of s' r) Hw' Epr') as (o & -> & Ho). f_equal. by apply Ho.
  - intros x Hx Hxn. by apply (one_reference s' p pr' x r n).
  - destruct Hr as [(-> & _)|(-> & Hno & d & Hd & Er')]; [by left|]. right. assert (desc_of s' r = d) as -> by (unfold desc_of; by rewrite Er', lookup_insert_eq). done.
Qed.

(** Giving back a count: refused with [-EINVAL] and without effect when the count is
    zero; otherwise it drops by one, and the reference goes away exactly when both counts
    are then zero.  No other reference changes. *)
Theorem binder_dec_ref_correct s r rf st :
  reachable s -> refs s !! r = Some rf ->
  exists s' ret, binder_dec_ref s r st = Some (s', ret) /\
    if ref_count rf st =? 0 then ret = - EINVAL /\ s' = s
    else ret = 0 /\ let rf' := recounted rf st (-1) in
         refs s' = (if (strong rf' =? 0) && (weak rf' =? 0) then delete r (refs s) else <[r := rf']> (refs s)).
Proof. intros [Hw Hb]%reachable_ok E. destruct (dec_ref_ok _ s r rf st Hw Hb E) as (s' & ret & Es & _ & _ & _ & H). by exists s', ret. Qed.

(** C3. Objects sent in a transaction keep their identity: what arrives names the same node
    in the receiver as it did in the sender, a handle becoming the node itself in the
    process that owns it, strength kept.  The receiver has one count more of that strength
    than before, with one exception: a handle that is made from a handle has no count at
    all where the driver refuses the first one, that is, for a strong handle where no
    reference holds the node strongly and it is not the context manager, and for a weak
    one where the owner has not been told of weak references and is not going to be.  It
    fails only for an unknown handle, a wrong cookie or lack of memory, and leaves the
    references alone. *)
Theorem translate_object_correct s p q l fp new_node new_ref :
  reachable s -> is_Some (procs s !! p) -> is_Some (procs s !! q) -> work_list s p l ->
  alloc_ok s new_node -> alloc_ok s new_ref -> new_node <> new_ref \/ new_node = None ->
  exists s' res, translate_object s p q l fp new_node new_ref = Some (s', res) /\
    match res with
    | inr fp' => same_object s s' p q fp fp'
    | inl e => not_sent s s' p fp e (new_node = None \/ new_ref = None)
    end.
Proof.
  intros [Hw Hb]%reachable_ok [pr Ep] [prq Eq] Hl Fn Fr Hne. destruct (translate_object_ok _ s p q pr prq l fp new_node new_ref Hw Hb ltac:(lia) Ep Eq Hl Fn Fr Hne) as (s' & res & E & _ & _ & H). eauto.
Qed.

(** C10. A weak handle can be sent as a strong one: when no reference holds the node strongly
    and it is not the context manager, the receiver gets a handle marked strong whose
    reference has no count at all, and releasing the object does not remove it. *)
Theorem weak_handle_sent_strong s p q r0 rf0 nd l new_node r :
  reachable s -> is_Some (procs s !! q) -> refs s !! r0 = Some rf0 -> r_proc rf0 = p -> nodes s !! r_node rf0 = Some nd -> n_proc nd <> Some q ->
  not_held s (r_node rf0) -> is_context s (r_node rf0) = false -> (forall x, ~ (ref_of s None q x /\ target_of s x = r_node rf0)) -> fresh s r ->
  exists s' h, translate_object s p q l (FHandle true (desc rf0)) new_node (Some r) = Some (s', inr (FHandle true h)) /\
    refs s' !! r = Some (mkref q (r_node rf0) h 0 0 None) /\ release_object s' q (FHandle true h) = Some s'.
Proof.
  intros [Hw Hb]%reachable_ok [prq Eq] E0 Hp En Hq Hnh Hc Hno Hf. destruct (wt_ref_proc s None (wf_t _ _ _ Hw) p r0) as [pr Ep]; [split; [done|by exists rf0]|].
  unfold translate_object. destruct (get_ref_ok s p pr (desc rf0) Hw Ep) as (o & -> & Ho).
  assert (o = Some r0) as -> by (apply Ho; split; [split; [done|by exists rf0]|unfold desc_of; by rewrite E0]). cbn [mbind option_bind]. rewrite E0. cbn [mbind option_bind]. rewrite En. cbn [mbind option_bind].
  rewrite bool_decide_eq_false_2 by done. destruct (get_ref_for_node_ok _ s q (r_node rf0) nd prq (Some r) Hw Hb ltac:(lia) Eq En) as (s1 & r1 & -> & Hw1 & _ & Hk & _ & Hr1); [by intros a [= <-]|].
  cbn [mbind option_bind]. destruct r1 as [r1|]; [|by destruct Hr1]. destruct Hr1 as [(_ & H1 & H2)|([= <-] & _ & d & _ & Er1)]; [by destruct (Hno r1)|].
  assert (Er : refs s1 !! r = Some (mkref q (r_node rf0) d 0 0 None)) by (by rewrite Er1, lookup_insert_eq). rewrite Er. cbn [mbind option_bind].
  destruct (wk_ref s1 _ None (wf_k _ _ _ Hw1) r _ ltac:(done) Er) as ((nd1 & En1 & _) & _). simpl in En1.
  assert (Hi : internal_strong_refs nd1 = 0).
  { destruct (wk_node s1 _ None (wf_k _ _ _ Hw1) _ nd1 En1) as (_ & Hrefs & ->). unfold none_off. rewrite Z.add_0_r. unfold strong_count. assert (Hz : forall x, x ∈ n_refs nd1 -> held s1 x = 0).
    - intros x Hx. destruct (Hrefs x Hx) as (xf & Ex & Hxn). unfold held. rewrite Ex. simpl. rewrite Er1 in Ex. destruct (decide (x = r)) as [->|]; [rewrite lookup_insert_eq in Ex; by injection Ex as <-|].
      rewrite lookup_insert_ne in Ex by done. by rewrite (Hnh x xf Ex Hxn).
    - clear -Hz. induction (n_refs nd1) as [|x l IH]; [done|]. simpl. rewrite Hz by set_solver. rewrite IH; [done|]. intros y Hy. apply Hz. set_solver. }
  assert (Einc : binder_inc_ref s1 r true None = Some (s1, - EINVAL)).
  { unfold binder_inc_ref. rewrite Er. cbn [mbind option_bind]. simpl. unfold binder_inc_node. rewrite En1. cbn [mbind option_bind]. rewrite Hi. unfold is_context in *. rewrite (kp_context _ _ Hk), Hc. done. }
  rewrite Einc. cbn [mbind option_bind]. exists s1, d. split; [done|]. split; [done|]. unfold release_object. destruct (kept_proc s s1 q prq Hk Eq) as [prq1 Eq1].
  destruct (get_ref_ok s1 q prq1 d Hw1 Eq1) as (o & -> & Ho1). assert (o = Some r) as -> by (apply Ho1; split; [split; [done|by eexists]|unfold desc_of; by rewrite Er]). cbn [mbind option_bind].
  unfold binder_dec_ref. rewrite Er. done.
Qed.

(** C2. When a process dies, its nodes, its references and its lists go, the context manager
    too if it was one of its nodes.  Of the death notifications, those that its references
    have are freed; every other process that asked for the death of one of its nodes finds
    the notification on its list; those of other processes for other nodes stay as they
    are.  A notification that was cleared before, which no reference has any more, is not
    freed; if it was on a list of the process it is on no list afterwards, so that nothing
    frees it any more. *)
Theorem binder_release_notifies s p pr threads :
  reachable s -> procs s !! p = Some pr -> (forall l, l ∈ threads -> owner (wl s) !! l = Some p) ->
  exists s', binder_deferred_release s p threads = Some s' /\ procs s' !! p = None /\ (forall n, ~ node_of s' p n) /\
    (forall r, refs s' !! r = (rf ← refs s !! r; if bool_decide (r_proc rf = p) then None else Some rf)) /\
    (forall n, context_mgr_node s' = Some n <-> context_mgr_node s = Some n /\ ~ node_of s p n) /\
    (forall l, owner (wl s') !! l = if bool_decide (l ∈ threads ++ [todo pr; delivered_death pr]) then None else owner (wl s) !! l) /\
    (forall r rf d, refs s !! r = Some rf -> death rf = Some d ->
       if bool_decide (r_proc rf = p) then deaths s' !! d = None
       else if bool_decide (node_of s p (r_node rf)) then notified s' rf d
       else deaths s' !! d = deaths s !! d /\ on (wl s') !! d = on (wl s) !! d) /\
    (forall d, is_Some (deaths s !! d) -> unowned s d -> deaths s' !! d = deaths s !! d /\
       on (wl s') !! d = (l ← on (wl s) !! d; if bool_decide (l ∈ threads ++ [todo pr; delivered_death pr]) then None else Some l)).
Proof.
  intros [Hw Hb]%reachable_ok Epr Hth. destruct (deferred_release_ok _ s p pr threads Hw Hb Epr Hth) as (s' & E & _ & _ & H1 & _ & H2 & H3 & H4 & H5 & H6 & H7 & H8 & H9).
  exists s'. do 6 (split; [done|]). split; [|done]. intros r rf d Er Hd. case_bool_decide as Hp; [by apply (H7 r rf)|]. case_bool_decide as Hn; [by apply (H6 r rf)|by apply (H8 r rf)].
Qed.

(** Asking for a death notification: the first request through a handle makes one, with
    the cookie, and queues it at once when the node is already dead; a second request, an
    unknown handle or lack of memory changes nothing. *)
Theorem binder_request_death_correct s p pr target cookie new thread :
  reachable s -> procs s !! p = Some pr -> thread_ok s p thread -> alloc_ok s new ->
  exists s', binder_request_death s p target cookie new thread = Some s' /\
    ((s' = s /\ (new = None \/ forall r rf, ref_at s p target r rf -> death rf <> None)) \/
     exists d r rf nd, new = Some d /\ death_step s s' d /\ ref_at s p target r rf /\ death rf = None /\ refs s' = <[r := set_ref_death rf (Some d)]> (refs s) /\
       nodes s !! r_node rf = Some nd /\
       match n_proc nd with
       | Some _ => deaths s' !! d = Some (mkdeath cookie None) /\ on (wl s') !! d = None
       | None => deaths s' !! d = Some (mkdeath cookie (Some DEAD_BINDER)) /\ on (wl s') !! d = Some (default (todo pr) thread)
       end).
Proof. intros [Hw Hb]%reachable_ok Epr Ht Hf. destruct (request_death_ok _ s p pr target cookie new thread Hw Hb Epr Ht Hf) as (s' & E & _ & _ & H). by exists s'. Qed.

(** C9. Clearing a death notification, with its cookie: the reference gives it up; if it was
    not queued a work is queued that tells so, if it was queued or delivered it is marked,
    and acknowledging it then queues that work.  Anything else changes nothing. *)
Theorem binder_clear_death_correct s p pr target cookie thread :
  reachable s -> procs s !! p = Some pr -> thread_ok s p thread ->
  (exists s', binder_clear_death s p target cookie thread = Some s' /\
    ((s' = s /\ forall r rf d, ref_at s p target r rf -> death rf = Some d -> d_cookie <$> deaths s !! d <> Some cookie) \/
     exists d r rf, death_step s s' d /\ ref_at s p target r rf /\ death rf = Some d /\ refs s' = <[r := set_ref_death rf None]> (refs s) /\
       (d_cookie <$> deaths s !! d = Some cookie) /\
       match on (wl s) !! d with
       | None => deaths s' !! d = Some (mkdeath cookie (Some CLEAR_DEATH_NOTIFICATION)) /\ on (wl s') !! d = Some (default (todo pr) thread)
       | Some l => deaths s' !! d = Some (mkdeath cookie (Some DEAD_BINDER_AND_CLEAR)) /\ on (wl s') !! d = Some l
       end)) /\
  (exists s', binder_dead_binder_done s p cookie thread = Some s' /\
    ((s' = s /\ forall x, on (wl s) !! x = Some (delivered_death pr) -> d_cookie <$> deaths s !! x <> Some cookie) \/
     exists d dd, death_step s s' d /\ deaths s !! d = Some dd /\ d_cookie dd = cookie /\ on (wl s) !! d = Some (delivered_death pr) /\ refs s' = refs s /\
       if bool_decide (d_type dd = Some DEAD_BINDER_AND_CLEAR)
       then deaths s' !! d = Some (mkdeath cookie (Some CLEAR_DEATH_NOTIFICATION)) /\ on (wl s') !! d = Some (default (todo pr) thread)
       else deaths s' = deaths s /\ on (wl s') !! d = None)).
Proof.
  intros [Hw Hb]%reachable_ok Epr Ht. destruct (clear_death_ok _ s p pr target cookie thread Hw Hb Epr Ht) as (s1 & E1 & _ & _ & H1).
  destruct (dead_binder_done_ok _ s p pr cookie thread Hw Hb Epr Ht) as (s2 & E2 & _ & _ & H2). eauto 6.
Qed.

(** ** A small scene

    Process 10 is the context manager (node 100) and sends process 20 its node at 1
    (node 101) weakly and its node at 2 (node 102) strongly; process 20 asks for the death
    of both, and process 30 is a bystander. *)
Definition scene_ops : list op :=
  [ Open 10 11 12; NewThread 10 13; SetContextMgr (u32 (-1)) 10 1000 (Some 100); Open 20 21 22; NewThread 20 23; Open 30 31 32; NewThread 30 33;
    Refs 20 BC_ACQUIRE 0 (Some 200); Send 10 20 13 (FBinder false 1 7) (Some 101) (Some 201); Send 10 20 13 (FBinder true 2 8) (Some 102) (Some 202);
    ReadWork 10 13 true; ReadWork 10 13 true; RequestDeath 20 1 77 (Some 301) None; RequestDeath 20 2 78 (Some 302) (Some 23) ].

Definition scene : state := default init (steps binder_debug_mask init scene_ops).

Lemma scene_reachable : reachable scene.
Proof. exists binder_debug_mask, scene_ops. split_and!; vm_compute; reflexivity. Qed.

Lemma binder_objects_safe_witness : exists s, steps binder_debug_mask init scene_ops = Some s.
Proof. apply (binder_objects_safe binder_debug_mask scene_ops); vm_compute; reflexivity. Defined.

Lemma binder_counts_exact_witness :
  exists nd, nodes scene !! 102 = Some nd /\ internal_strong_refs nd = 1 /\ n_refs nd = [202] /\
    internal_strong_refs nd = Z.of_nat (length (List.filter (holds scene) (n_refs nd))).
Proof.
  eexists. split; [vm_compute; reflexivity|]. split; [reflexivity|]. split; [reflexivity|].
  apply (binder_counts_exact scene 102 _ scene_reachable). vm_compute. reflexivity.
Defined.

Lemma scene_new a : free_ok scene a = true -> alloc_ok scene (Some a).
Proof. intros H. by apply new_ok_spec. Qed.

Lemma binder_get_ref_for_node_correct_witness :
  exists s' r, binder_get_ref_for_node scene 30 102 (Some 400) = Some (s', r) /\ match r with None => False | Some r => target_of s' r = 102 /\ forall x, ref_of s' None 30 x -> target_of s' x = 102 -> x = r end.
Proof.
  destruct (binder_get_ref_for_node_correct scene 30 102 (Some 400) scene_reachable) as (s' & r & E & H); [vm_compute; eauto|vm_compute; eauto|apply scene_new; vm_compute; reflexivity|].
  exists s', r. split; [exact E|]. destruct r; [|by destruct H as [? _]]. destruct H as (_ & H1 & _ & H2 & _). split; [exact H1|exact H2].
Defined.

Lemma binder_dec_ref_correct_witness :
  exists rf s' ret, refs scene !! 202 = Some rf /\ strong rf = 1 /\ binder_dec_ref scene 202 true = Some (s', ret) /\ ret = 0 /\ refs s' = delete 202 (refs scene).
Proof.
  eexists. assert (E : refs scene !! 202 = Some (mkref 20 102 2 1 0 (Some 302))) by (vm_compute; reflexivity).
  destruct (binder_dec_ref_correct scene 202 _ true scene_reachable E) as (s' & ret & Es & H). exists s', ret. split; [exact E|]. split; [reflexivity|]. split; [exact Es|]. exact H.
Defined.

Lemma translate_object_correct_witness :
  exists s' res, translate_object scene 20 30 23 (FHandle true 2) None (Some 400) = Some (s', res) /\
    match res with inr fp' => same_object scene s' 20 30 (FHandle true 2) fp' | inl e => not_sent scene s' 20 (FHandle true 2) e (@None Z = None \/ Some 400 = None) end.
Proof.
  apply (translate_object_correct scene 20 30 23 (FHandle true 2) None (Some 400) scene_reachable); [vm_compute; eauto|vm_compute; eauto|apply list_ok_spec; vm_compute; reflexivity|by intros ?| |by right].
  apply scene_new; vm_compute; reflexivity.
Defined.

Lemma weak_handle_sent_strong_witness :
  exists s' h, translate_object scene 20 30 23 (FHandle true 1) None (Some 400) = Some (s', inr (FHandle true h)) /\
    refs s' !! 400 = Some (mkref 30 101 h 0 0 None) /\ release_object s' 30 (FHandle true h) = Some s'.
Proof.
  assert (E : refs scene !! 201 = Some (mkref 20 101 1 0 1 (Some 301))) by (vm_compute; reflexivity).
  assert (En : exists nd, nodes scene !! 101 = Some nd /\ n_proc nd = Some 10) by (eexists; split; vm_compute; reflexivity). destruct En as (nd & En & Hnd).
  apply (weak_handle_sent_strong scene 20 30 201 (mkref 20 101 1 0 1 (Some 301)) nd 23 None 400 scene_reachable); [vm_compute; eauto|exact E|reflexivity|exact En|rewrite Hnd; discriminate| |vm_compute; reflexivity| |].
  - assert (H : bool_decide (map_Forall (fun _ rf => r_node rf = 101 -> strong rf = 0) (refs scene)) = true) by (vm_compute; reflexivity). apply bool_decide_eq_true in H. exact H.
  - assert (H : bool_decide (map_Forall (fun _ rf => r_proc rf <> 30) (refs scene)) = true) by (vm_compute; reflexivity). apply bool_decide_eq_true in H.
    intros x [(_ & rf & Ex & Hp) _]. exact (H x rf Ex Hp).
  - apply (scene_new 400); [vm_compute; reflexivity|reflexivity].
Defined.

Lemma binder_release_notifies_witness :
  exists s' rf, binder_deferred_release scene 10 [13] = Some s' /\ refs scene !! 202 = Some rf /\ notified s' rf 302 /\ context_mgr_node s' = None.
Proof.
  assert (E : refs scene !! 202 = Some (mkref 20 102 2 1 0 (Some 302))) by (vm_compute; reflexivity).
  destruct (procs scene !! 10) as [pr|] eqn:Epr; [|vm_compute in Epr; discriminate].
  destruct (binder_release_notifies scene 10 pr [13] scene_reachable Epr) as (s' & Es & _ & _ & _ & Hc & _ & H & _); [intros l ->%list_elem_of_singleton; vm_compute; reflexivity|].
  exists s', (mkref 20 102 2 1 0 (Some 302)). split; [exact Es|]. split; [exact E|]. split.
  { assert (Hn : node_of scene 10 102) by (eexists; split; vm_compute; reflexivity). specialize (H 202 _ 302 E eq_refl). rewrite bool_decide_eq_false_2 in H by discriminate. rewrite bool_decide_eq_true_2 in H by exact Hn. exact H. }
  destruct (context_mgr_node s') as [n|]; [|reflexivity]. destruct (proj1 (Hc n) eq_refl) as [Hn Hnn]. destruct Hnn. assert (n = 100) as -> by (vm_compute in Hn; congruence).
  eexists. split; vm_compute; reflexivity.
Defined.

Lemma binder_request_death_correct_witness : exists s', binder_request_death scene 20 0 9 (Some 400) None = Some s'.
Proof.
  destruct (procs scene !! 20) as [pr|] eqn:Epr; [|vm_compute in Epr; discriminate].
  destruct (binder_request_death_correct scene 20 pr 0 9 (Some 400) None scene_reachable Epr) as (s' & Es & _); [by intros ?|apply scene_new; vm_compute; reflexivity|]. exists s'. exact Es.
Defined.

Lemma binder_clear_death_correct_witness : exists s', binder_clear_death scene 20 1 77 (Some 23) = Some s'.
Proof.
  destruct (procs scene !! 20) as [pr|] eqn:Epr; [|vm_compute in Epr; discriminate].
  destruct (binder_clear_death_correct scene 20 pr 1 77 (Some 23) scene_reachable Epr) as ((s' & Es & _) & _); [apply thread_list_spec; vm_compute; reflexivity|]. exists s'. exact Es.
Defined.

(** A notification that was cleared before the process dies is left without an owner and
    without a list: nothing frees it any more. *)
Lemma cleared_death_leaks :
  exists s, steps binder_debug_mask scene [ClearDeath 20 1 77 None; Release 20 [23]] = Some s /\ is_Some (deaths s !! 301) /\ on (wl s) !! 301 = None /\
    map_Forall (fun _ rf => death rf <> Some 301) (refs s).
Proof.
  eexists. split; [vm_compute; reflexivity|]. split; [vm_compute; eauto|]. split; [vm_compute; reflexivity|].
  apply (bool_decide_eq_true_1 _). vm_compute. reflexivity.
Qed.

(** With the messages of BINDER_DEBUG_USER_REFS, giving back the last count of a reference
    reads the reference that was just freed. *)
Definition messages : Z := Z.lor binder_debug_mask BINDER_DEBUG_USER_REFS.

Lemma message_reads_freed_ref : legal messages init (scene_ops ++ [Refs 20 BC_RELEASE 2 None]) = true /\ steps messages init scene_ops = Some scene /\
  step messages scene (Refs 20 BC_RELEASE 2 None) = None /\ is_Some (step binder_debug_mask scene (Refs 20 BC_RELEASE 2 None)).
Proof. split; [vm_compute; reflexivity|]. split; [vm_compute; reflexivity|]. split; [vm_compute; reflexivity|vm_compute; eauto]. Qed.

(** The first reference to the context manager without memory for it: a null pointer is
    read. *)
Lemma handle_0_no_memory : step binder_debug_mask scene (Refs 30 BC_ACQUIRE 0 None) = None.
Proof. vm_compute. reflexivity. Qed.

(** A weak handle without a count: the thread that sent the node has gone before it read
    its work, so that the owner was never told, and the next receiver gets no count. *)
Lemma weak_handle_uncounted :
  exists s s', steps binder_debug_mask init (scene_ops ++ [Send 10 20 13 (FBinder false 3 9) (Some 103) (Some 203); FreeThread 10 13]) = Some s /\
    legal binder_debug_mask init (scene_ops ++ [Send 10 20 13 (FBinder false 3 9) (Some 103) (Some 203); FreeThread 10 13]) = true /\
    translate_object s 20 30 23 (FHandle false 3) None (Some 400) = Some (s', inr (FHandle false 1)) /\ refs s' !! 400 = Some (mkref 30 103 1 0 0 None).
Proof. eexists _, _. split; [vm_compute; reflexivity|]. split; [vm_compute; reflexivity|]. split; [vm_compute; reflexivity|vm_compute; reflexivity]. Qed.

End BinderObject.
